(* ===== verification/_CoqProject ===== *)
-Q . S2P
Prelude.v
Text.v
Codec.v
Json.v
PageCursor.v
JsMap.v
OrderMachine.v
SdkStateMachine.v
TransactionContract.v
OrderRow.v
OrdersRepo.v
OrdersRepoFacts.v
OrdersRepoSpec.v
Pagination.v
HistoryCache.v
Notifications.v
OrderService.v
OrderServiceFacts.v
OrderServiceSpec.v
CacheCoherence.v
ServiceScans.v
SecretCipher.v
SecretService.v
SecretReconciler.v
EventIdentity.v
LedgerCursor.v
Reconciler.v
ReconcilerSpec.v
ReconcilerSafety.v
SseBroker.v
FileStore.v
ProofLedger.v
RefundLedger.v
XlmAmounts.v
XlmRefund.v
RefundWatchdog.v
RetryEngine.v
TxStateStore.v
Idempotency.v
EventOrdering.v
Listeners.v
SorobanEvents.v
SorobanListener.v
SorobanReplay.v
SupportPolicy.v
SolanaListener.v
SolanaQueue.v
KyselyRepo.v
Lifecycle.v
Supervisor.v
Backlog.v
StaleCleanup.v
Maintenance.v
QuoteService.v
SettlementFailures.v
SettlementPolicy.v
SolanaAccount.v
SolanaClient.v
Settlement.v
SettlementPermissions.v
PaymentGate.v
EthRelease.v
EthReleaseSpec.v
RpcRetry.v
ListenerState.v
ResolverEvents.v
ResolverTelemetry.v
ResolverPolicy.v
ResolverListener.v
ResolverEthereum.v
CacheVerifier.v
RelayerPolling.v
RelayerOrchestrator.v
OrderStream.v
AuditLog.v
AuditTrail.v
ResolverSolana.v
RateLimit.v
Api.v
OrderExport.v
