(* ===== verification/Prelude.v ===== *)
(** * WaffleFinance: a verification development

    WaffleFinance swaps assets between Ethereum, Stellar (Soroban) and Solana
    with hashed timelock contracts.  The coordinator (coordinator/src) keeps
    the order book: it announces orders, follows the locks, claims and refunds
    of both chains, stores the revealed preimage and serves history and live
    events.  The relayer (relayer/src) moves funds for its users and refunds
    them when the other leg fails; the resolver (resolver/src) watches the
    chains.  This development models the coordinator's core - state machine,
    persistence, services, listeners, reconciliation, secrets and background
    work -, the relayer's durable stores, retries and refunds, the resolver's
    listeners, event guard, supervisor, telemetry and capability checks, and
    the SDK's Solana client, as executable functions, and proves what their
    users rely on.

    ** How the program is put together

    A chain event reaches the order service either through a live listener,
    which polls its chain, recovers missed ranges and waits for finality, or
    through the reconciler, which replays the events of a past window.  The
    service (services/order-service.ts) checks the event against the order row
    and the lifecycle, writes through the orders repository
    (persistence/orders-repo.ts) in one transaction
    (persistence/transaction-contract.ts), and then updates its observers:
    history cache, event stream, audit log and phase snapshot.  The secret
    service validates and encrypts preimages, the secret reconciler recovers
    the ones the listeners missed.  The SDK carries its own copy of the state
    machine.

    The relayer keeps its own records, each in memory with a JSON file per
    record: the Stellar payments already used as a proof, the refunds under
    way or made, the settlement transactions and the actions attempted.  A
    refund claims the ledger entry of its order, finds the amount, submits a
    payment through Horizon and retries what may be retried; the watchdog
    looks for stale orders and starts such refunds.  Remote calls go through
    the retry engine and its circuit breakers.

    ** Conventions

    An asynchronous method is a function [ST S E A] from the state it can
    reach to an [outcome] (a value or a thrown error) and the state it leaves;
    a throw does not undo earlier writes, only a transaction does.  Each
    [await] runs to its end before the next operation starts, and concurrency
    is the interleaving of whole operations, which is what the lists of calls
    in the theorems quantify over.  Numbers are [Z] (the code checks
    [Number.isSafeInteger] where an outside value enters, and so does the
    model); strings are byte strings; a column that can be NULL is an
    [option].  The clock is an argument [now] in milliseconds.  SQL tables are
    lists of rows with the queries written as [sql_select], [sql_update] and
    friends; the keyed tables are [gmap]s.  A JavaScript [Map] whose order
    matters is an association list in insertion order.  A remote server is a
    function from the calls made so far to its answer, so the theorems hold
    for every server.  Where the code between two awaits matters (supervisor,
    backlog, maintenance, quotes), a call is a small state machine that stops
    at each await, and the theorems quantify over every sequence of events.

    ** Files

    - [Prelude]: monad, JavaScript and SQL vocabulary, frame lemmas.  [Text]:
      strings joined with separators determine their parts, decimal text.
      [JsMap]: insertion-ordered maps.  [Codec], [Json]: Node's hexadecimal
      and base64url conversions, and JSON.parse with numbers rounded to
      doubles.
    - [OrderMachine] (state-machine/order-machine.ts) and [SdkStateMachine]
      (packages/sdk/src/state-machine/index.ts).
    - [TransactionContract] (persistence/transaction-contract.ts and
      PostgresDatabase.transaction of persistence/db.ts): a connection is an
      engine with its data, the data of an open transaction and the faults to
      come; retries are a loop whose fuel is [maxAttempts].
    - [PageCursor], [OrderRow], [OrdersRepo] (persistence/orders-repo.ts):
      page cursors, rows, tables and every repository method.
      [OrdersRepoFacts]: the effect of each method as a step [repo_step Q] of
      the database, for any row relation [Q].  [OrdersRepoSpec], [Pagination]:
      the contract.
    - [HistoryCache] (services/history-cache.ts), [Notifications]
      (sse/event-builders.ts, audit/audit-log.ts), [SseBroker]
      (sse/sse-broker.ts; response handles are a store of shared objects).
    - [OrderService] (services/order-service.ts, Module [Service]).
      [OrderServiceFacts]: one equation per handler and the classes
      [AllowsCore]/[Allows], the interface between the service and the row
      relations proved about it.  [OrderServiceSpec], [CacheCoherence],
      [ServiceScans]: the contract, over the type [Call] of everything the
      coordinator does to an order.
    - [SecretCipher] (crypto/secret-cipher.ts; class [AesGcm] for the cipher),
      [SecretService] (services/secret-service.ts; class [Hashes] for SHA-256
      and Keccak-256), [SecretReconciler]
      (reconciliation/secret-reconciler.ts).
    - [EventIdentity] (reconciliation/event-identity.ts), [LedgerCursor]
      (reconciliation/ledger-cursor.ts, replay-policy.ts,
      recovery-summary.ts), [Reconciler] (reconciliation/reconciler.ts,
      services/workflow-priority-policy.ts), [ReconcilerSpec],
      [ReconcilerSafety].
    - [Listeners]: the listeners' deduplication cache and the relation
      [follows] that makes what is proved of all sequences of service calls
      hold of a listener.  [SorobanEvents] (soroban-events.ts; class
      [StellarSdk]), [SorobanListener] (listeners/soroban-listener.ts) and
      [SorobanReplay]; [SolanaListener] (listeners/solana-listener.ts) and
      [SolanaQueue].
    - [FileStore]: the scheme of the relayer's disk-backed stores, against the
      classes [Filed] (what a store files) and [FileKeys] (keys whose file
      names do not collide); its clients are [ProofLedger]
      (services/stellar-proof-ledger.ts), [RefundLedger]
      (services/refund-ledger.ts), [TxStateStore] (services/tx-state-store.ts)
      and [Idempotency] (idempotency.ts).
    - [XlmAmounts] and [XlmRefund] (services/xlm-refund.ts), [RefundWatchdog]
      (services/refund-watchdog.ts and the automatic refund of
      routes/orders.ts), [RetryEngine] (utils/retry-engine.ts), [Settlement]
      (services/settlement-service.ts, over [TxStateStore] and [RetryEngine]).
    - [SupportPolicy] (packages/config/src/support-policy.ts) and
      [SettlementPermissions] (relayer/src/support.ts,
      settlement-permissions.ts and the gate of routes/orders.ts).
    - [PaymentGate] (services/horizon-verifier.ts, route-validator.ts,
      coordinator-client.ts) and [EthRelease] (routes/orders.ts: xlm-to-eth,
      process, manual-refund), with its facts in [EthReleaseSpec].
    - [CacheVerifier] (reconciliation/cache-verifier.ts), [RelayerPolling]
      (relayer/src/utils/adaptive-poll.ts, retry-policy.ts, cursor-store.ts,
      listeners/contract-event-poller.ts) and [RelayerOrchestrator]
      (core/event-orchestrator.ts, utils/order-poll-utils.ts,
      site-presence.ts, listeners/eth-incoming-monitor.ts and the memos of
      routes/orders.ts).
    - [RateLimit] (server/middleware/ratelimit.ts, abuse-detection.ts,
      auth.ts) and [Api] (validation/route-policy.ts, address.ts, announce.ts,
      server/errors.ts and the routes of server/routes/orders.ts and
      secrets.ts; classes [Zod] and [ZodLaws] for the schema library), over
      the order and secret services.
    - [AuditLog] (audit/audit-log.ts, audit-repo.ts, audit-repo-kysely.ts,
      audit-exporter.ts, utils/sanitize-for-log.ts) and [AuditTrail], its
      composition with the order service.  [OrderExport]
      (services/order-export.ts, server/routes/export.ts): lifecycles and CSV
      files.
    - [OrderStream] (frontend/src/lib/orderEvents.ts, orderEventStream.ts,
      sseTransport.ts, hooks/useOrderSubscription.ts, useOrderStream.ts), on
      the payloads of [Notifications].
    - [KyselyRepo] (persistence/orders-repo-kysely.ts, Module [Kysely]): the
      second repository and its comparison with the first.
    - [StaleCleanup] (services/stale-cleanup.ts, archival/archival-policy.ts),
      [Backlog] (backlog/backlog-scheduler.ts, services/pressure-controller.ts
      and the pressure policy of index.ts), [Maintenance]
      (services/maintenance-scheduler.ts, on the backlog), [QuoteService]
      (services/quote-service.ts).
    - [SettlementFailures] (relayer/src/services/ settlement-failure-store.ts,
      another client of [FileStore]) and [SettlementPolicy]
      (settlement-retry-policy.ts).
    - [EventOrdering] (resolver/src/event-ordering.ts), [Lifecycle]
      (resolver/src/lifecycle.ts), [Supervisor] (resolver/src/supervisor.ts),
      [RpcRetry] (retry.ts), [ListenerState] (listener-state.ts and the
      deduplication sets of the listeners), [ResolverEvents]
      (listeners/soroban-events.ts; class [Xdr]), [ResolverTelemetry]
      (telemetry.ts, health.ts), [ResolverPolicy] (chain-fallback.ts,
      registry-status.ts, capability-check.ts), [ResolverListener]
      (listeners/soroban.ts, utils/cursor-store.ts), [ResolverEthereum]
      (listeners/ethereum.ts), [ResolverSolana] (listeners/solana.ts,
      solana-config.ts).
    - [SolanaAccount], [SolanaClient] (packages/sdk/src/solana and
      shared-utils; classes [Web3] for @solana/web3.js and [Cluster] for the
      RPC endpoint).

    ** What the theorems show

    - Lifecycle: C1 (bounded runs), [sdk_machine_conformance] (SDK and
      coordinator agree).
    - Persistence: C4, C5 (all-or-nothing writes under faults of BEGIN, COMMIT
      and ROLLBACK and under retries, as a refinement of an atomic step), C6
      (the event trail reconstructs the status), C7 (orders persist, hashlocks
      are unique), C8 (cursors never regress), [claimEvent_exactly_once]
      (exactly-once claims), C9 (complete page walks over the cursor texts
      that clients send back), C10 (the second repository answers as the
      first, for the reads it names).
    - Service: C11 (one-way progress, terminal rows frozen), C12 (status and
      columns agree), [recorded_once] (first write wins, repeats and
      rejections change nothing), [expiry_scan_exact] (the expiry scan is
      exact), C14 (coherent cache), C13 (the audit log is the history of the
      orders, and the exporter's check accepts it but for orders that leave
      expired).
    - Interface: C2 (whatever is asked, the order service makes a run of
      well-formed and authorised calls, one per request at most, with
      preimages of the stored hashlocks, and a refused request changes
      nothing), C3 (how many requests pass a limiter, and when one is
      refused).
    - Secrets: C15, C16 (reveal and read, and their errors), C17, C18
      (recovery is safe and complete).
    - Reconciliation: C19 (durable idempotence), C20 (safety of a whole run
      whatever the RPCs answer, as long as their pages end),
      [replay_applies_lock] (a missed lock is applied), C29 (the cache
      verifier reports exactly the orders out of line with the events of its
      window).
    - Event stream: C21 (bounded and exact books), C22 (a reconnecting client
      gets exactly what it missed, or a gap notice), C23 (what a subscriber of
      the client sees: the brackets, the statuses, no repeats, no leaks).
    - Audit: C24 (an export is complete, in order, and can be continued while
      the log grows), C25 (the export of an order tells its history without
      secrets, and a CSV file reads back).
    - Listeners: C26, C28 (safe whatever the RPCs answer), C27 (a replay
      recovers the whole missed window), [solana_queue_discipline] (the queue
      of the Solana listener loses nothing and waits for finality).
    - Background work: [stale_cleanup_exact] (which orders a cleanup
      abandons), [backlog_fifo] (the backlog is four FIFO queues whatever the
      interleaving).
    - Relayer stores, across restarts: C30 (a payment proves one order), C31
      (one holder of a refund at a time, and a recorded refund stays), C33
      (transaction records follow the lifecycle and hold exactly the fields of
      the states they were in, and reconciliation settles every one of them),
      [actions_not_repeated] (a completed action is not attempted again), C34
      (concurrent settlements of an order submit it once), C35 (the ETH of a
      Stellar payment is released once, in what the verified payment is worth
      at the rate of its order), [failure_log_sound] (the failure log is
      append-only and free of secrets).
    - Policy: [support_policy_exact] (a policy claims exactly what the
      configuration and the code can do), C38 (which orders the gate takes,
      exactly, and that no lock is granted unless both legs can be carried).
    - Relayer monitoring: C39 (one payout of an order by the monitoring per
      start of it, for the right amount), C40 (the contract event poller scans
      every block once, in windows, and hands over each log).
    - Refunds: C32 (how often, how much and to whom a refund is submitted).
    - Resolver: C36 (its Soroban listener passes over no event, and an event
      it has handled is not soon handled again), [decoders_agree] (its event
      decoder and the coordinator's agree), C37 (its Solana listener hands
      over what is final, once, and keeps what it has queued),
      [supervisor_bounded] (restarts are bounded and spaced),
      [supervisor_stop_drains] (a stop is prompt and leaks no listener),
      [check_passes_iff] (which actions the capability check lets through),
      [fallback_counts] (the state of a chain counts its latest failures).
    - SDK: [solana_account_round_trip] (order accounts survive the wire),
      [claim_submits_checked] (a validated claim is a claim of a live escrow).

    Lemmas outside the numbered properties state the rest of the contracts
    ([snapshot_counts_orders], [event_keys_injective],
    [seen_set_delivers_once], [replay_windows_cover],
    [secret_cipher_round_trip], [recovery_overall_is_worst],
    [classifyConflict_reports], [get_secret_never_writes],
    [recovery_report_rows], [soroban_lock_applied],
    [completed_requires_lock_and_secret], [history_cache_bounded_and_fresh],
    [decoder_accepts_wire_format], [stroops_round_trip],
    [watchdog_never_pays], [retry_run], [breaker_discipline],
    [event_order_verdicts], [run_drains_in_order], [maintenance_exclusive],
    [quotes_honest], [quotes_single_flight], [archival_exact],
    [ambiguous_iff_unknown], [create_instruction], [created_verified],
    [retry_calls], [retry_succeeds], [accepted_spaced], [record_spec],
    [purgeStale_spec], [connected_iff], [eth_run_ok], [redact_clean],
    [batch_all_or_nothing], [tail_eq], [kysely_pages_agree],
    [statuses_conform], [statuses_advance], [stream_conforms],
    [frames_applied], [detector_exact], [route_approved],
    [upper_case_unrevealable], [status_export_exact],
    [settlement_columns_empty]) and exhibit behaviour worth knowing:
    [postgres_write_not_rolled_back], [failed_rollback_blocks_writes],
    [throwing_consumer_stale], [malformed_program_id],
    [unwritten_proof_released_twice], [rpc_placeholder_passes],
    [object_token_is_native], [route_pays_again], [overlapping_stops],
    [rollback_serves_stale_page], [streamed_secret_is_ciphertext],
    [early_event_lost_on_ethereum], [own_message_delivered_twice],
    [buffer_kept_without_subscribers], [automatic_refund_fails],
    [acknowledged_settlement_failed], [delay_above_cap],
    [retry_answers_differ], [completed_reopened],
    [abandoned_attempts_unlimited], [claim_before_created],
    [refused_event_raises_order_id], [reconciler_misses_soroban_locks],
    [stopped_replay_skips_events], [bogus_ledger_blocks_listener],
    [failed_replay_not_retried], [same_slot_signature_lost],
    [rolled_back_lock_not_recorded_again], [kysely_rollback_breaks_trail],
    [attached_listeners_start_twice], [startup_error_not_retried],
    [live_event_waits_for_next_run], [runs_overlap],
    [slow_poll_drops_cleanup], [archival_hides_locked_order],
    [failed_refresh_restamps], [failed_order_retried], [bare_hash_kept],
    [classifications_disagree], [create_skips_preflight],
    [documented_callback_submits_twice], [crash_before_submission_is_final],
    [inherited_chain_throws], [key_prefix_exposed],
    [refund_needs_destination], [placeholder_tests_differ],
    [advertised_but_refused], [unknown_orders_trip_safe_mode],
    [outage_strands_payment], [timed_out_send_repeated],
    [payment_of_another_user], [unverified_xlm_paid_twice],
    [escrow_pays_stroops], [manual_refund_never_pays], [thrown_event_is_lost],
    [second_order_of_transaction_lost], [two_loops], [ethereum_loses_events],
    [attached_resolver_not_ready], [zero_threshold_degrades],
    [stale_hides_degraded], [paused_is_connected], [missed_for_ever],
    [last_failure_sleeps], [class_with_shorter_backoff],
    [limit_of_one_allows_two], [unregister_denied], [outage_reported_aligned],
    [zero_sample_checks_one], [order_zero_incomplete],
    [old_lock_reported_missing], [dust_locks_escrow], [empty_memo_matches],
    [one_payment_two_orders], [failed_start_pays_twice],
    [stop_during_start_leaks], [memo_shared], [payment_settles_other_order],
    [payment_passed_over], [errors_end_polling],
    [expired_order_refund_missed], [event_after_end], [ended_in_start_leaks],
    [inherited_status], [replay_gap_ignored], [counts_differ],
    [empty_export_forgets], [refund_reported], [phantom_rollback],
    [cancellations_audited], [failed_handler_not_retried],
    [unfetched_transaction_lost], [foreign_log_accepted],
    [unprintable_amount_blocks], [stopped_listener_dispatches],
    [padded_program_id], [prototype_payload], [prune_finds_nothing],
    [burst_at_the_boundary], [forged_addresses_pass], [cidr_not_matched],
    [old_block_counts], [solana_not_blocked], [inherited_direction_live],
    [upper_case_stuck], [csv_chains_swapped], [window_after_limit],
    [ids_ignore_window], [all_refused].

    ** Bounds

    The retry loops run with the bounds of the source's own loops as fuel
    ([maxAttempts] of the transaction contract and of the retry engine,
    [maxRetries + 1] of the refund).  The Soroban page loop consumes a finite
    list of answers, and a call past its end fails like an unreachable
    endpoint: every behaviour of the endpoint is covered but full pages
    without end, on which the source's loop does not end either.  The page
    walk of C9 answers nothing when its fuel runs out, and the theorem proves
    that the number of orders, at least one, is enough.  The JSON parser has
    fuel twice the length of its text and two, which [JSON_parse_total] proves
    enough.  A Soroban replay has fuel for its pages, since a server may serve
    pages without end; C26 holds for every amount, and C27 proves that one
    more than the length of the log is enough.

    ** Not modelled, and the plan

    Third-party code is a parameter: AES-GCM, hash functions, RPC endpoints,
    Horizon and the Stellar SDK, the decoding of Soroban XDR; [jsonPayload]
    reads the JSON of a Solana log line, whose fields are texts and integers;
    [isPublicKey] is web3.js's check of a program id.  Metrics and log output
    are left out, and so are timers, HTTP routing and configuration.  The
    Ethereum listener calls methods its file does not define and is left out.
    Numbers that the source takes from RPC answers are integers, not NaN or
    infinities, except where a definition says otherwise.  The CHECK
    constraints of schema.sql on times and on the version of a preimage are
    not modelled: the model stores a row that violates them.  SQLite leaves
    the order of rows of equal [created_at] in findByAddress open; the models
    keep the order of their row ids.  Left out: the relayer's recovery
    service, event history and client subscriptions, which no module imports,
    and the freshness policy of the coordinator, which nothing uses either;
    the history, quote and admin routes; the relayer's fee model and job
    manager; the SDK's fee, guard and asset policies; metrics, configuration
    and the user interfaces. *)

From stdpp Require Export base list strings gmap pretty.
From Stdlib Require Export ZArith Lia.

#[global] Open Scope string_scope.
#[global] Open Scope list_scope.
#[global] Open Scope Z_scope.

(** ** JavaScript control flow: a state monad with exceptions

    An [async] method of the source is a function from the state it can
    touch to an outcome and the state it leaves behind.  As in JavaScript, a
    thrown error does not undo the writes made before it; only a database
    transaction does that. *)

Inductive outcome (E A : Type) : Type :=
| Ok (a : A)
| Throw (e : E).
Arguments Ok {E A} _.
Arguments Throw {E A} _.

Definition ST (S E A : Type) : Type := S -> outcome E A * S.

#[export] Instance st_ret {S E} : MRet (ST S E) := fun A (a : A) s => (Ok a, s).

#[export] Instance st_bind {S E} : MBind (ST S E) := fun A B (k : A -> ST S E B) (m : ST S E A) s =>
  match m s with
  | (Ok a, s') => k a s'
  | (Throw e, s') => (Throw e, s')
  end.

Definition throw {S E A} (e : E) : ST S E A := fun s => (Throw e, s).
Definition gets {S E A} (f : S -> A) : ST S E A := fun s => (Ok (f s), s).
Definition modify {S E} (f : S -> S) : ST S E unit := fun s => (Ok tt, f s).

(** [try { m } catch (e) { h e }]. *)
Definition try_catch {S E A} (m : ST S E A) (h : E -> ST S E A) : ST S E A := fun s =>
  match m s with
  | (Ok a, s') => (Ok a, s')
  | (Throw e, s') => h e s'
  end.

(** Run a computation on a component of a larger state. *)
Definition zoom {S T E A} (get : S -> T) (put : T -> S -> S) (m : ST T E A) : ST S E A := fun s =>
  let '(r, t) := m (get s) in (r, put t s).

(** [for (const x of xs) body]. *)
Fixpoint for_each {S E A} (body : A -> ST S E unit) (xs : list A) : ST S E unit :=
  match xs with
  | [] => mret tt
  | x :: xs' => body x ≫= (fun _ => for_each body xs')
  end.

(** [let n = 0; for (const x of xs) n += await body(x);]. *)
Fixpoint sum_each {S E A} (body : A -> ST S E Z) (xs : list A) : ST S E Z :=
  match xs with
  | [] => mret 0
  | x :: xs' => body x ≫= (fun n => sum_each body xs' ≫= (fun m => mret (n + m)))
  end.

Definition is_ok {E A} (o : outcome E A) : bool :=
  match o with Ok _ => true | Throw _ => false end.

(** The errors the source throws.  [OrderValidationError] is the class the
    service layer raises; every other [Error] carries its message and the
    optional [code] the repository attaches. *)
Inductive JsError : Type :=
| OrderValidationError (message : string)
| PlainError (code : option string) (message : string).

Definition error_message (e : JsError) : string :=
  match e with
  | OrderValidationError m => m
  | PlainError _ m => m
  end.

#[export] Instance JsError_eq_dec : EqDecision JsError.
Proof. solve_decision. Defined.

(** ** JavaScript strings *)

Definition startsWith (s p : string) : bool := String.prefix p s.

(** [s.includes(sub)]. *)
Fixpoint includes (s sub : string) : bool :=
  startsWith s sub ||
  match s with
  | EmptyString => false
  | String _ s' => includes s' sub
  end.

(** [c.toLowerCase()] on the ASCII range, the only characters in the hex
    strings and identifiers the source lower-cases. *)
Definition lowerAscii (c : Ascii.ascii) : Ascii.ascii :=
  let n := Ascii.nat_of_ascii c in
  if Nat.leb 65 n && Nat.leb n 90 then Ascii.ascii_of_nat (n + 32) else c.

Fixpoint toLowerCase (s : string) : string :=
  match s with
  | EmptyString => EmptyString
  | String c s' => String (lowerAscii c) (toLowerCase s')
  end.

Definition upperAscii (c : Ascii.ascii) : Ascii.ascii :=
  let n := Ascii.nat_of_ascii c in
  if Nat.leb 97 n && Nat.leb n 122 then Ascii.ascii_of_nat (n - 32) else c.

Fixpoint toUpperCase (s : string) : string :=
  match s with
  | EmptyString => EmptyString
  | String c s' => String (upperAscii c) (toUpperCase s')
  end.

(** [s.trim()], for the white space of the ASCII range. *)
Definition is_space (c : Ascii.ascii) : bool :=
  let n := Ascii.nat_of_ascii c in (Nat.leb 9 n && Nat.leb n 13) || Nat.eqb n 32.

Fixpoint trimStart (s : string) : string :=
  match s with
  | EmptyString => EmptyString
  | String c s' => if is_space c then trimStart s' else s
  end.

Fixpoint trimEnd (s : string) : string :=
  match s with
  | EmptyString => EmptyString
  | String c s' =>
      match trimEnd s' with
      | EmptyString => if is_space c then EmptyString else String c EmptyString
      | t => String c t
      end
  end.

Definition trim (s : string) : string := trimEnd (trimStart s).

(** [l.join(sep)], and [l.join(sep) || none]. *)
Definition join (sep : string) (l : list string) : string := String.concat sep l.
Definition join_or (none : string) (l : list string) : string :=
  match join ", " l with EmptyString => none | t => t end.

(** A JavaScript string is truthy when it is not empty. *)
Definition truthy_string (s : string) : bool := negb (String.eqb s "").
Lemma truthy_app a b : truthy_string a = true -> truthy_string (a +:+ b) = true.
Proof. by destruct a. Qed.

(** The text of a double-quoted value inside a message. *)
Definition dquoted (s : string) : string :=
  let q := String (Ascii.ascii_of_nat 34) EmptyString in q +:+ s +:+ q.

(** [${x}] in a template literal for a nullable string. *)
Definition show_nullable (o : option string) : string := default "null" o.

(** ** JavaScript numbers

    Numbers that are block heights, ledger sequences, slots, counts and unix
    times are integers in the source; they are modelled as [Z].  The largest
    integer a double represents exactly, with all smaller ones: *)
Definition MAX_SAFE_INTEGER : Z := 2 ^ 53 - 1.

Definition isSafeInteger (n : Z) : bool :=
  (- MAX_SAFE_INTEGER <=? n) && (n <=? MAX_SAFE_INTEGER).

(** [Number(n)] of a bigint: the nearest double, ties to even. *)
Definition Number_of (n : Z) : Z :=
  let a := Z.abs n in
  let k := Z.log2 a - 52 in
  if k <=? 0 then n
  else
    let q := Z.shiftr a k in
    let r := a - Z.shiftl q k in
    let half := Z.shiftl 1 (k - 1) in
    let q' := if (half <? r) || ((r =? half) && Z.odd q) then q + 1 else q in
    Z.sgn n * Z.shiftl q' k.

(** [Math.floor(Date.now() / 1000)] and SQLite's [strftime('%s','now')]. *)
Definition seconds (now_ms : Z) : Z := now_ms / 1000.

(** [xs.slice(0, n)]: a negative end counts from the end. *)
Definition slice0 {A} (n : Z) (xs : list A) : list A :=
  take (Z.to_nat (if n <? 0 then Z.of_nat (length xs) + n else n)) xs.

(** ** Tables

    A table is the list of its rows in rowid order. *)
Section Sql.
Context {R : Type}.

Definition sql_select (p : R -> bool) (t : list R) : list R := List.filter p t.
Definition sql_get (p : R -> bool) (t : list R) : option R := List.find p t.
Definition sql_update (p : R -> bool) (f : R -> R) (t : list R) : list R :=
  map (fun r => if p r then f r else r) t.
Definition sql_changes (p : R -> bool) (t : list R) : Z :=
  Z.of_nat (length (List.filter p t)).

(** [MAX(expr)] and [MIN(expr)] over the rows, [NULL] on no row; a [NULL]
    expression is ignored. *)
Definition sql_fold (op : Z -> Z -> Z) (e : R -> option Z) (t : list R) : option Z :=
  foldr (fun r acc =>
           match e r, acc with
           | Some x, Some y => Some (op x y)
           | Some x, None => Some x
           | None, _ => acc
           end) None t.
Definition sql_max := sql_fold Z.max.
Definition sql_min := sql_fold Z.min.

(** [ORDER BY] a strict "comes before" test: insertion keeps rows that
    compare equal in rowid order. *)
Fixpoint sql_insert (before : R -> R -> bool) (x : R) (t : list R) : list R :=
  match t with
  | [] => [x]
  | y :: t' => if before y x then y :: sql_insert before x t' else x :: t
  end.
Definition sql_order (before : R -> R -> bool) (t : list R) : list R :=
  foldr (sql_insert before) [] t.
(** A negative [LIMIT] is no limit; a negative [OFFSET] is zero. *)
Definition sql_limit (n : Z) (t : list R) : list R :=
  if n <? 0 then t else take (Z.to_nat n) t.
Definition sql_offset (n : Z) (t : list R) : list R := drop (Z.to_nat n) t.
End Sql.

(** ** Automation *)

Create HintDb coord.

(** Unfold the monad and compute. *)
Ltac st_unfold :=
  unfold mbind, st_bind, mret, st_ret, throw, gets, modify, zoom, try_catch in *.

Tactic Notation "st_unfold" "in" hyp(H) :=
  unfold mbind, st_bind, mret, st_ret, throw, gets, modify, zoom, try_catch in H.

(** Turn boolean tests into propositions. *)
Ltac bools :=
  repeat match goal with
  | H : (_ && _)%bool = true |- _ => apply andb_true_iff in H as [? ?]
  | H : (_ || _)%bool = false |- _ => apply orb_false_iff in H as [? ?]
  | H : negb _ = true |- _ => apply negb_true_iff in H
  | H : negb _ = false |- _ => apply negb_false_iff in H
  | H : bool_decide _ = true |- _ => apply bool_decide_eq_true in H
  | H : bool_decide _ = false |- _ => apply bool_decide_eq_false in H
  | H : (_ <? _) = true |- _ => apply Z.ltb_lt in H
  | H : (_ <? _) = false |- _ => apply Z.ltb_ge in H
  | H : (_ <=? _) = true |- _ => apply Z.leb_le in H
  | H : (_ <=? _) = false |- _ => apply Z.leb_gt in H
  | H : (_ =? _) = true |- _ => apply Z.eqb_eq in H
  | H : (_ =? _) = false |- _ => apply Z.eqb_neq in H
  end.

(** Case analysis on every test in the goal or in a hypothesis. *)
Ltac case_all :=
  repeat (case_match; simplify_eq/=).

(** ** Lemmas shared by the components *)

Section SqlFacts.
Context {R : Type}.
Implicit Types (p q : R -> bool) (f : R -> R) (t : list R).

Lemma sql_get_Some p t r : sql_get p t = Some r -> r ∈ t /\ p r = true.
Proof. intros H%find_some. by rewrite list_elem_of_In. Qed.

Lemma sql_get_None p t : sql_get p t = None <-> Forall (fun r => p r = false) t.
Proof.
  rewrite Forall_forall. setoid_rewrite list_elem_of_In. split.
  - intros H r Hr. by apply (find_none _ _ H).
  - intros H. destruct (sql_get p t) as [r|] eqn:E; [|done].
    apply find_some in E as [Hr Hp]. by rewrite H in Hp.
Qed.

(** The updated row is found where the row was. *)
Lemma sql_get_update p f t :
  (forall r, p r = true -> p (f r) = true) ->
  sql_get p (sql_update p f t) = f <$> sql_get p t.
Proof.
  intros Hf. induction t as [|r t IH]; [done|]. simpl.
  destruct (p r) eqn:E; simpl; [by rewrite Hf|by rewrite E].
Qed.

(** A query no touched row answers, before or after, sees no change. *)
Lemma sql_get_update_ne p q f t :
  (forall r, p r = true -> q r = false /\ q (f r) = false) ->
  sql_get q (sql_update p f t) = sql_get q t.
Proof.
  intros Hq. induction t as [|r t IH]; [done|]. simpl.
  destruct (p r) eqn:E; simpl.
  - destruct (Hq r E) as [-> ->]. done.
  - destruct (q r); [done|apply IH].
Qed.

Lemma sql_update_none p f t : Forall (fun r => p r = false) t -> sql_update p f t = t.
Proof. induction 1 as [|r t Hr _ IH]; [done|]. simpl. by rewrite Hr, IH. Qed.

Lemma sql_changes_zero p t : sql_changes p t = 0 <-> sql_get p t = None.
Proof.
  rewrite sql_get_None. unfold sql_changes. split.
  - intros H. induction t as [|r t IH]; [done|]. simpl in H.
    destruct (p r) eqn:E; simpl in H; [lia|]. constructor; auto.
  - induction 1 as [|r t Hr _ IH]; [done|]. simpl. by rewrite Hr.
Qed.

Lemma sql_select_cons p r t :
  sql_select p (r :: t) = if p r then r :: sql_select p t else sql_select p t.
Proof. done. Qed.

Lemma sql_update_cons p f r t :
  sql_update p f (r :: t) = (if p r then f r else r) :: sql_update p f t.
Proof. done. Qed.

Lemma elem_of_sql_update p f t r :
  r ∈ sql_update p f t -> exists r0, r0 ∈ t /\ r = (if p r0 then f r0 else r0).
Proof. unfold sql_update. intros (r0 & -> & ?)%list_elem_of_fmap. eauto. Qed.

Lemma sql_update_fmap {B} (g : R -> B) p f t :
  (forall r, p r = true -> g (f r) = g r) -> g <$> sql_update p f t = g <$> t.
Proof.
  intros Hg. induction t as [|r t IH]; [done|].
  cbn. f_equal; [|apply IH]. destruct (p r) eqn:E; [by rewrite Hg|done].
Qed.
End SqlFacts.

Lemma elem_of_select {R} (p : R -> bool) t (r : R) : r ∈ sql_select p t <-> r ∈ t /\ p r = true.
Proof. unfold sql_select. rewrite !list_elem_of_In. apply filter_In. Qed.

Lemma NoDup_select {R B} (g : R -> B) (p : R -> bool) t : NoDup (g <$> t) -> NoDup (g <$> sql_select p t).
Proof.
  induction t as [|r t IH]; [done|]. rewrite fmap_cons. intros [Hr Hnd]%NoDup_cons. cbn.
  destruct (p r); [|by apply IH]. rewrite fmap_cons. apply NoDup_cons. split; [|by apply IH].
  intros (x & Hx & [Hin _]%elem_of_select)%list_elem_of_fmap. apply Hr. rewrite Hx.
  by apply list_elem_of_fmap_2.
Qed.

Lemma prefix_app (p s : string) : String.prefix p (p +:+ s) = true.
Proof.
  induction p as [|c p IH]; [by destruct s|].
  change (match Ascii.ascii_dec c c with left _ => String.prefix p (p +:+ s) | right _ => false end = true).
  by destruct (Ascii.ascii_dec c c).
Qed.

Lemma prefix_inv (p s : string) : String.prefix p s = true -> exists t, s = p +:+ t.
Proof.
  revert s. induction p as [|c p IH]; intros s H; [by exists s|]. destruct s as [|d s]; [done|]. cbn in H.
  destruct (Ascii.ascii_dec c d) as [->|]; [|done]. destruct (IH s H) as [t ->]. by exists t.
Qed.

Lemma string_app_assoc (a b c : string) : (a +:+ b) +:+ c = a +:+ b +:+ c.
Proof.
  induction a as [|x a IH]; [done|].
  change (String x ((a +:+ b) +:+ c) = String x (a +:+ b +:+ c)). by f_equal.
Qed.

Lemma length_string_app a b : String.length (a +:+ b) = (String.length a + String.length b)%nat.
Proof. induction a as [|c a IH]; [done|]. change (S (String.length (a +:+ b)) = S (String.length a + String.length b)%nat). by rewrite IH. Qed.

Lemma includes_app_r (q s sub : string) : includes s sub = true -> includes (q +:+ s) sub = true.
Proof. intros H. induction q as [|c q IH]; simpl; [done|]. by rewrite IH, orb_true_r. Qed.

(** Running a bind once its first part is known. *)
Lemma bind_ok {S E A B} (m : ST S E A) (k : A -> ST S E B) s a s' :
  m s = (Ok a, s') -> (m ≫= k) s = k a s'.
Proof. unfold mbind, st_bind. by intros ->. Qed.

Lemma bind_throw {S E A B} (m : ST S E A) (k : A -> ST S E B) s e s' :
  m s = (Throw e, s') -> (m ≫= k) s = (Throw e, s').
Proof. unfold mbind, st_bind. by intros ->. Qed.

(** ** Frames: what a computation leaves alone *)

(** [m] never changes the part [g] of the state. *)
Definition keeps {S E A B} (g : S -> B) (m : ST S E A) : Prop := forall s, g (m s).2 = g s.

Section Keeps.
Context {S E B : Type} (g : S -> B).

Lemma keeps_ret {A} (a : A) : keeps g (mret a : ST S E A).
Proof. done. Qed.

Lemma keeps_throw {A} (e : E) : keeps g (throw e : ST S E A).
Proof. done. Qed.

Lemma keeps_gets {A} (f : S -> A) : keeps g (gets f : ST S E A).
Proof. done. Qed.

Lemma keeps_modify (f : S -> S) : (forall s, g (f s) = g s) -> keeps g (modify f : ST S E unit).
Proof. intros H s. apply H. Qed.

Lemma keeps_bind {A C} (m : ST S E A) (k : A -> ST S E C) :
  keeps g m -> (forall a, keeps g (k a)) -> keeps g (m ≫= k).
Proof.
  intros Hm Hk s. unfold mbind, st_bind. pose proof (Hm s) as Hs.
  destruct (m s) as [[a|e] s']; cbn in *; [|done]. by rewrite Hk.
Qed.

Lemma keeps_try {A} (m : ST S E A) (h : E -> ST S E A) :
  keeps g m -> (forall e, keeps g (h e)) -> keeps g (try_catch m h).
Proof.
  intros Hm Hh s. unfold try_catch. pose proof (Hm s) as Hs.
  destruct (m s) as [[a|e] s']; cbn in *; [done|]. by rewrite Hh.
Qed.

Lemma keeps_for_each {A} (body : A -> ST S E unit) xs :
  (forall x, keeps g (body x)) -> keeps g (for_each body xs).
Proof. intros Hb. induction xs; [apply keeps_ret|]. by apply keeps_bind. Qed.

Lemma keeps_sum_each {A} (body : A -> ST S E Z) xs :
  (forall x, keeps g (body x)) -> keeps g (sum_each body xs).
Proof.
  intros Hb. induction xs; [apply keeps_ret|]. apply keeps_bind; [done|]. intros n.
  apply keeps_bind; [done|]. intros m. apply keeps_ret.
Qed.
End Keeps.

Create HintDb keeps.
#[export] Hint Resolve keeps_ret keeps_throw keeps_gets keeps_bind keeps_try keeps_for_each
  keeps_sum_each : keeps.

(** Decompose a computation along its binds and tests. *)
Ltac keeps_solve :=
  repeat first
    [ solve [auto with keeps]
    | apply keeps_bind; [|intros ?]
    | apply keeps_try; [|intros ?]
    | apply keeps_for_each; intros ?
    | apply keeps_sum_each; intros ?
    | match goal with
      | |- keeps _ (if ?b then _ else _) => destruct b
      | |- keeps _ (match ?x with _ => _ end) => destruct x
      end ].

(** ** Invariants and results

    [m] keeps the invariant [I], and a value it returns satisfies [Q]. *)
Definition ensures {S E A} (I : S -> Prop) (m : ST S E A) (Q : A -> Prop) : Prop :=
  forall s, I s -> I (m s).2 /\ forall a, (m s).1 = Ok a -> Q a.

Section Ensures.
Context {S E : Type} (I : S -> Prop).

Lemma ensures_ret {A} (a : A) (Q : A -> Prop) : Q a -> ensures I (mret a : ST S E A) Q.
Proof. intros Ha s Hs. split; [done|]. by intros ? [= <-]. Qed.

Lemma ensures_throw {A} (e : E) (Q : A -> Prop) : ensures I (throw e : ST S E A) Q.
Proof. intros s Hs. split; [done|]. by intros ? [=]. Qed.

Lemma ensures_gets {A} (f : S -> A) (Q : A -> Prop) :
  (forall s, I s -> Q (f s)) -> ensures I (gets f : ST S E A) Q.
Proof. intros Hf s Hs. split; [done|]. intros ? [= <-]. by apply Hf. Qed.

Lemma ensures_modify (f : S -> S) (Q : unit -> Prop) :
  (forall s, I s -> I (f s)) -> Q tt -> ensures I (modify f : ST S E unit) Q.
Proof. intros Hf Hq s Hs. split; [by apply Hf|]. by intros [] _. Qed.

Lemma ensures_bind {A B} (m : ST S E A) (k : A -> ST S E B) (P : A -> Prop) (Q : B -> Prop) :
  ensures I m P -> (forall a, P a -> ensures I (k a) Q) -> ensures I (m ≫= k) Q.
Proof.
  intros Hm Hk s Hs. unfold mbind, st_bind. destruct (Hm s Hs) as [H1 H2].
  destruct (m s) as [[a|e] s']; cbn in *; [|by split; [|intros ? [=]]]. apply Hk; auto.
Qed.

Lemma ensures_try {A} (m : ST S E A) (h : E -> ST S E A) (Q : A -> Prop) :
  ensures I m Q -> (forall e, ensures I (h e) Q) -> ensures I (try_catch m h) Q.
Proof.
  intros Hm Hh s Hs. unfold try_catch. destruct (Hm s Hs) as [H1 H2].
  destruct (m s) as [[a|e] s']; cbn in *; [by split; [|apply H2]|]. by apply Hh.
Qed.

Lemma ensures_weaken {A} (m : ST S E A) (P Q : A -> Prop) :
  (forall a, P a -> Q a) -> ensures I m P -> ensures I m Q.
Proof. intros HPQ Hm s Hs. destruct (Hm s Hs) as [H1 H2]. split; [done|]. auto. Qed.
End Ensures.

(** ** Locality: what a computation depends on

    [local g m]: the answer of [m] and the part [g] of the state it leaves
    depend only on the part [g] of the state it starts in. *)
Definition local {S E A B} (g : S -> B) (m : ST S E A) : Prop :=
  forall s1 s2, g s1 = g s2 -> (m s1).1 = (m s2).1 /\ g (m s1).2 = g (m s2).2.

Section Local.
Context {S E B : Type} (g : S -> B).

Lemma local_ret {A} (a : A) : local g (mret a : ST S E A).
Proof. by intros s1 s2 H. Qed.

Lemma local_throw {A} (e : E) : local g (throw e : ST S E A).
Proof. by intros s1 s2 H. Qed.

Lemma local_gets {A} (f : S -> A) :
  (forall s1 s2, g s1 = g s2 -> f s1 = f s2) -> local g (gets f : ST S E A).
Proof. intros Hf s1 s2 H. cbn. by rewrite (Hf s1 s2). Qed.

Lemma local_modify (f : S -> S) :
  (forall s1 s2, g s1 = g s2 -> g (f s1) = g (f s2)) -> local g (modify f : ST S E unit).
Proof. intros Hf s1 s2 H. cbn. auto. Qed.

Lemma local_bind {A C} (m : ST S E A) (k : A -> ST S E C) :
  local g m -> (forall a, local g (k a)) -> local g (m ≫= k).
Proof.
  intros Hm Hk s1 s2 H. destruct (Hm s1 s2 H) as [E1 E2]. unfold mbind, st_bind.
  destruct (m s1) as [o1 t1], (m s2) as [o2 t2]. cbn in *. subst o2. destruct o1; [by apply Hk|done].
Qed.

Lemma local_try {A} (m : ST S E A) (h : E -> ST S E A) :
  local g m -> (forall e, local g (h e)) -> local g (try_catch m h).
Proof.
  intros Hm Hh s1 s2 H. destruct (Hm s1 s2 H) as [E1 E2]. unfold try_catch.
  destruct (m s1) as [o1 t1], (m s2) as [o2 t2]. cbn in *. subst o2. destruct o1; [done|by apply Hh].
Qed.

Lemma local_for_each {A} (body : A -> ST S E unit) xs :
  (forall x, local g (body x)) -> local g (for_each body xs).
Proof.
  intros Hb. induction xs as [|x xs IH]; cbn; [apply local_ret|].
  apply local_bind; [apply Hb|]. by intros _.
Qed.
End Local.

Create HintDb local.
#[export] Hint Resolve local_ret local_throw : local.

Ltac local_solve :=
  repeat first
    [ solve [auto with local]
    | apply local_bind; [|intros ?]
    | apply local_try; [|intros ?]
    | match goal with
      | |- local _ (if ?b then _ else _) => destruct b
      | |- local _ (match ?x with _ => _ end) => destruct x
      end ].

(** ** Computations that never throw *)

Definition ok_always {S E A} (m : ST S E A) : Prop := forall s, is_ok (m s).1 = true.

Lemma ok_try {S E A} (m : ST S E A) (h : E -> ST S E A) : (forall e, ok_always (h e)) -> ok_always (try_catch m h).
Proof. intros Hh s. unfold try_catch. destruct (m s) as [[a|e] s1]; [done|apply Hh]. Qed.

Lemma ok_bind {S E A B} (m : ST S E A) (k : A -> ST S E B) :
  ok_always m -> (forall a, ok_always (k a)) -> ok_always (m ≫= k).
Proof.
  intros Hm Hk s. specialize (Hm s). unfold mbind, st_bind. destruct (m s) as [[a|e] s1]; [apply Hk|done].
Qed.

Lemma for_each_ok {S E A} (body : A -> ST S E unit) xs :
  (forall x, ok_always (body x)) -> ok_always (for_each body xs).
Proof.
  intros Hb. induction xs as [|x xs IH]; cbn; [done|]. apply ok_bind; [apply Hb|]. by intros _.
Qed.

(** A loop over a list in two parts. *)
Lemma for_each_app {S E A} (body : A -> ST S E unit) xs ys s :
  (forall x, ok_always (body x)) ->
  for_each body (xs ++ ys) s = for_each body ys (for_each body xs s).2.
Proof.
  intros Hb. revert s. induction xs as [|x xs IH]; intros s; [done|]. cbn [app for_each].
  unfold mbind, st_bind. specialize (Hb x s). destruct (body x s) as [[[]|e] s1]; [apply IH|done].
Qed.

(** ** Steps: how a computation may move the state

    [respects R m]: whatever [m] answers, it takes the state to an [R]-related
    one.  For a preorder [R] this composes. *)
Definition respects {S E A} (R : S -> S -> Prop) (m : ST S E A) : Prop := forall s, R s (m s).2.

Section Respects.
Context {S E : Type} (R : S -> S -> Prop) `{!PreOrder R}.

Lemma respects_ret {A} (a : A) : respects R (mret a : ST S E A).
Proof. intros s. cbn. reflexivity. Qed.

Lemma respects_throw {A} (e : E) : respects R (throw e : ST S E A).
Proof. intros s. cbn. reflexivity. Qed.

Lemma respects_gets {A} (f : S -> A) : respects R (gets f : ST S E A).
Proof. intros s. cbn. reflexivity. Qed.

Lemma respects_modify (f : S -> S) : (forall s, R s (f s)) -> respects R (modify f : ST S E unit).
Proof. intros H s. apply H. Qed.

Lemma respects_bind {A B} (m : ST S E A) (k : A -> ST S E B) :
  respects R m -> (forall a, respects R (k a)) -> respects R (m ≫= k).
Proof.
  intros Hm Hk s. specialize (Hm s). unfold mbind, st_bind. destruct (m s) as [[a|e] s1]; [|done].
  etrans; [apply Hm|apply Hk].
Qed.

Lemma respects_try {A} (m : ST S E A) (h : E -> ST S E A) :
  respects R m -> (forall e, respects R (h e)) -> respects R (try_catch m h).
Proof.
  intros Hm Hh s. specialize (Hm s). unfold try_catch. destruct (m s) as [[a|e] s1]; [done|].
  etrans; [apply Hm|apply Hh].
Qed.

Lemma respects_for_each {A} (body : A -> ST S E unit) xs :
  (forall x, respects R (body x)) -> respects R (for_each body xs).
Proof.
  intros Hb. induction xs as [|x xs IH]; cbn; [apply respects_ret|].
  apply respects_bind; [apply Hb|]. by intros _.
Qed.
End Respects.

Create HintDb respects.
#[export] Hint Resolve respects_ret respects_throw respects_gets : respects.

(** Decompose a computation along its binds and tests; the steps that are left
    are hints of the component. *)
Ltac respects_solve :=
  repeat first
    [ solve [auto with respects typeclass_instances]
    | apply respects_bind; [apply _| |intros ?]
    | apply respects_try; [apply _| |intros ?]
    | apply respects_for_each; [apply _|intros ?]
    | match goal with
      | |- respects _ (if ?b then _ else _) => destruct b
      | |- respects _ (match ?x with _ => _ end) => destruct x
      end ].

Lemma Number_of_safe n : isSafeInteger n = true -> Number_of n = n.
Proof.
  unfold isSafeInteger, MAX_SAFE_INTEGER, Number_of. intros H. bools.
  destruct (Z.eq_dec n 0) as [->|Hn]; [done|].
  assert (Z.log2 (Z.abs n) < 53) by (apply Z.log2_lt_pow2; lia).
  by rewrite (proj2 (Z.leb_le _ 0)) by lia.
Qed.
