(* ===== verification/Text.v ===== *)
(** * Keys and numbers in text

    Cache keys, metric keys and event keys are built by joining fields with a
    colon.  A field without the separator can be split off again from the
    right, whatever the rest of the key contains; decimal numbers are such
    fields.  Then digits, and the decimal form that [pretty] prints. *)

From S2P Require Import Prelude.

(** The separator does not occur in the string. *)
Fixpoint free_of (c : Ascii.ascii) (s : string) : bool :=
  match s with
  | EmptyString => true
  | String x s' => negb (Ascii.eqb x c) && free_of c s'
  end.

Definition colon : Ascii.ascii := Ascii.ascii_of_nat 58.

Lemma free_of_app c s t : free_of c (s +:+ t) = free_of c s && free_of c t.
Proof.
  induction s as [|x s IH]; [done|].
  change (negb (Ascii.eqb x c) && free_of c (s +:+ t) = negb (Ascii.eqb x c) && free_of c s && free_of c t).
  by rewrite IH, andb_assoc.
Qed.

Lemma pretty_N_go_free n s : free_of colon s = true -> free_of colon (pretty_N_go n s) = true.
Proof.
  revert s. induction (N.lt_wf_0 n) as [n _ IH]; intros s Hs.
  destruct (decide (n = 0)%N) as [->|Hn]; [by rewrite pretty_N_go_0|].
  rewrite pretty_N_go_step by lia. apply IH; [apply N.div_lt; lia|].
  change (negb (Ascii.eqb (pretty_N_char (n `mod` 10)) colon) && free_of colon s = true).
  rewrite Hs, andb_true_r. unfold pretty_N_char. by repeat case_match.
Qed.

(** A decimal number has no colon. *)
Lemma pretty_Z_free (z : Z) : free_of colon (pretty z) = true.
Proof.
  assert (forall n : N, free_of colon (pretty n) = true) as HN.
  { intros n. unfold pretty, pretty_N. destruct (decide (n = 0)%N); [done|]. by apply pretty_N_go_free. }
  destruct z as [|p|p]; [done|apply (HN (Npos p))|].
  change (free_of colon ("-" +:+ pretty (Npos p)) = true). by rewrite free_of_app, HN.
Qed.

Lemma string_app_nil (s : string) : s +:+ "" = s.
Proof. induction s as [|x s IH]; [done|]. change (String x (s +:+ "") = String x s). by rewrite IH. Qed.

(** Split at the last separator. *)
Lemma split_last c (a a' x x' : string) :
  free_of c x = true -> free_of c x' = true ->
  a +:+ String c x = a' +:+ String c x' -> a = a' /\ x = x'.
Proof.
  intros Hx Hx'. revert a'. induction a as [|h a IH]; intros [|h' a'] Heq.
  - by injection Heq.
  - injection Heq as -> ->. exfalso. change (free_of h' (a' +:+ String h' x') = true) in Hx.
    rewrite free_of_app in Hx. apply andb_true_iff in Hx as [_ Hx].
    change (negb (Ascii.eqb h' h') && free_of h' x' = true) in Hx. by rewrite Ascii.eqb_refl in Hx.
  - injection Heq as -> <-. exfalso. change (free_of c (a +:+ String c x) = true) in Hx'.
    rewrite free_of_app in Hx'. apply andb_true_iff in Hx' as [_ Hx'].
    change (negb (Ascii.eqb c c) && free_of c x = true) in Hx'. by rewrite Ascii.eqb_refl in Hx'.
  - injection Heq as -> Heq. destruct (IH a' Heq) as [-> ->]. done.
Qed.

(** The same with the key written as a join. *)
Lemma join_inj (a a' x x' : string) :
  free_of colon x = true -> free_of colon x' = true ->
  a +:+ ":" +:+ x = a' +:+ ":" +:+ x' -> a = a' /\ x = x'.
Proof. apply split_last. Qed.

Lemma string_app_inj_l (a b b' : string) : a +:+ b = a +:+ b' -> b = b'.
Proof. induction a as [|c a IH]; [done|]. intros H. injection H. apply IH. Qed.

Lemma pretty_Z_inj' (x y : Z) : (pretty x : string) = pretty y -> x = y.
Proof. apply inj, _. Qed.

(** Split at the first separator: a field without it is a prefix of any field
    that ends at a separator of the same string. *)
Lemma split_at_colon (a r a' r' : string) :
  free_of colon a = true -> a +:+ ":" +:+ r = a' +:+ ":" +:+ r' ->
  (a' = a /\ r' = r) \/ exists b, a' = a +:+ ":" +:+ b /\ r = b +:+ ":" +:+ r'.
Proof.
  revert a'. induction a as [|x a IH]; intros a' Ha H.
  - destruct a' as [|y a']; [left; split; [done|]; by injection H|].
    right. exists a'. change (String colon r = String y (a' +:+ ":" +:+ r')) in H. by injection H as <- ->.
  - cbn in Ha. apply andb_true_iff in Ha as [Hx Ha]. destruct a' as [|y a'].
    + exfalso. injection H as -> _. done.
    + injection H as <- H. destruct (IH a' Ha H) as [[-> ->]|(b & -> & ->)]; [by left|].
      right. by exists b.
Qed.

Lemma free_of_toLowerCase s : free_of colon s = true -> free_of colon (toLowerCase s) = true.
Proof.
  induction s as [|x s IH]; [done|]. cbn. intros [Hx Hs]%andb_true_iff. rewrite (IH Hs), andb_true_r.
  revert Hx. by destruct x as [[] [] [] [] [] [] [] []].
Qed.

Lemma join_not_free a b : free_of colon (a +:+ ":" +:+ b) = false.
Proof. rewrite free_of_app. apply andb_false_iff. by right. Qed.

(** ** Decimal form *)

(** The value of a digit in bases up to 16. *)
Definition digit_value (c : Ascii.ascii) : Z :=
  let n := Z.of_nat (Ascii.nat_of_ascii c) in
  if (48 <=? n) && (n <=? 57) then n - 48
  else if (97 <=? n) && (n <=? 102) then n - 87
  else if (65 <=? n) && (n <=? 70) then n - 55
  else 99.

Fixpoint digits (base acc : Z) (s : string) : option Z :=
  match s with
  | EmptyString => Some acc
  | String c s' => if digit_value c <? base then digits base (acc * base + digit_value c) s' else None
  end.

Definition digits1 (base : Z) (s : string) : option Z :=
  match s with EmptyString => None | _ => digits base 0 s end.

(** Strings of decimal digits. *)
Fixpoint numeric (s : string) : bool :=
  match s with
  | EmptyString => true
  | String c s' => (digit_value c <? 10) && numeric s'
  end.

Lemma numeric_app a b : numeric (a +:+ b) = numeric a && numeric b.
Proof.
  induction a as [|c a IH]; [done|]. change ((digit_value c <? 10) && numeric (a +:+ b) = numeric (String c a) && numeric b).
  cbn. by rewrite IH, andb_assoc.
Qed.

Lemma pretty_char_value n : (n < 10)%N -> digit_value (pretty_N_char n) = Z.of_N n.
Proof.
  intros H. destruct n as [|p]; [done|]. do 4 (destruct p as [p|p|]; try done; try lia).
Qed.

Lemma numeric_pretty_go n s : numeric s = true -> numeric (pretty_N_go n s) = true.
Proof.
  revert s. induction (N.lt_wf_0 n) as [n _ IH]. intros s Hs.
  destruct (decide (n = 0)%N) as [->|Hn]; [by rewrite pretty_N_go_0|].
  rewrite pretty_N_go_step by lia. apply IH; [apply N.div_lt; lia|].
  assert (n `mod` 10 < 10)%N by (apply N.mod_lt; lia).
  cbn [numeric]. rewrite Hs, pretty_char_value by done. rewrite andb_true_r. apply Z.ltb_lt. lia.
Qed.

Lemma numeric_pretty (n : N) : numeric (pretty n) = true.
Proof. unfold pretty, pretty_N. case_decide; [done|]. by apply numeric_pretty_go. Qed.

Lemma digits_pretty_go n s : digits 10 0 (pretty_N_go n s) = digits 10 (Z.of_N n) s.
Proof.
  revert s. induction (N.lt_wf_0 n) as [n _ IH]. intros s.
  destruct (decide (n = 0)%N) as [->|Hn]; [by rewrite pretty_N_go_0|].
  rewrite pretty_N_go_step by lia. rewrite IH by (apply N.div_lt; lia).
  assert (n `mod` 10 < 10)%N by (apply N.mod_lt; lia).
  cbn [digits]. rewrite pretty_char_value by done.
  destruct (Z.ltb_spec (Z.of_N (n `mod` 10)) 10); [|lia]. f_equal.
  rewrite N2Z.inj_div, N2Z.inj_mod. cbn. pose proof (Z.div_mod (Z.of_N n) 10 ltac:(lia)). lia.
Qed.

Lemma digits_pretty (n : N) : digits 10 0 (pretty n) = Some (Z.of_N n).
Proof. unfold pretty, pretty_N. case_decide; [by subst|]. by rewrite digits_pretty_go. Qed.

Lemma pretty_nonempty (n : N) : truthy_string (pretty n) = true.
Proof.
  destruct (pretty n) as [|c s] eqn:E; [|done]. pose proof (digits_pretty n) as Hd. rewrite E in Hd.
  injection Hd as Hd. assert (n = 0%N) as -> by lia. done.
Qed.

Lemma pretty_Z_N (n : Z) : 0 <= n -> (pretty n : string) = pretty (Z.to_N n).
Proof. destruct n; [done|done|lia]. Qed.
