(* ===== verification/Codec.v ===== *)
(** * Bytes and their text forms.

    Node's [Buffer] conversions that the coordinator uses - hexadecimal and
    base64url - with the round trip of base64url.  A string stands for its
    UTF-8 bytes. *)

From S2P Require Import Prelude.

(** ** Bytes *)

Abbreviation bytes := (list Z).

Definition is_byte (b : Z) : bool := (0 <=? b) && (b <? 256).

Fixpoint bytes_of (s : string) : bytes :=
  match s with
  | EmptyString => []
  | String c s' => Z.of_N (Ascii.N_of_ascii c) :: bytes_of s'
  end.

Fixpoint string_of (bs : bytes) : string :=
  match bs with
  | [] => EmptyString
  | b :: bs' => String (Ascii.ascii_of_N (Z.to_N b)) (string_of bs')
  end.

(** ** Node's hex codec: [Buffer.from(s, "hex")] stops at the first pair that
    is not two hex digits. *)

Definition hex_value (c : Ascii.ascii) : option Z :=
  let n := Z.of_N (Ascii.N_of_ascii c) in
  if (48 <=? n) && (n <=? 57) then Some (n - 48)
  else if (65 <=? n) && (n <=? 70) then Some (n - 55)
  else if (97 <=? n) && (n <=? 102) then Some (n - 87)
  else None.

Fixpoint hex_decode (s : string) : bytes :=
  match s with
  | String a (String b s') =>
      match hex_value a, hex_value b with
      | Some x, Some y => (16 * x + y) :: hex_decode s'
      | _, _ => []
      end
  | _ => []
  end.

(** [byte.toString(16).padStart(2, "0")]. *)
Definition hex_digit (n : Z) : Ascii.ascii := default Ascii.zero (String.get (Z.to_nat n) "0123456789abcdef").
Definition hex2 (n : Z) : string := String (hex_digit (n / 16)) (String (hex_digit (n mod 16)) EmptyString).

(** [buf.toString("hex")]. *)
Fixpoint hex_encode (b : bytes) : string :=
  match b with
  | [] => EmptyString
  | x :: b' => hex2 x +:+ hex_encode b'
  end.

(** ** Base64url *)

Definition sextet_char (n : Z) : Ascii.ascii :=
  default Ascii.zero
    (String.get (Z.to_nat n) "ABCDEFGHIJKLMNOPQRSTUVWXYZabcdefghijklmnopqrstuvwxyz0123456789-_").

(** Both alphabets are accepted on decoding. *)
Definition char_sextet (c : Ascii.ascii) : option Z :=
  let n := Z.of_N (Ascii.N_of_ascii c) in
  if (65 <=? n) && (n <=? 90) then Some (n - 65)
  else if (97 <=? n) && (n <=? 122) then Some (n - 71)
  else if (48 <=? n) && (n <=? 57) then Some (n + 4)
  else if (n =? 45) || (n =? 43) then Some 62
  else if (n =? 95) || (n =? 47) then Some 63
  else None.

Fixpoint b64_encode (bs : bytes) : string :=
  match bs with
  | a :: b :: c :: bs' =>
      String (sextet_char (Z.shiftr a 2))
        (String (sextet_char (Z.lor (Z.shiftl (Z.land a 3) 4) (Z.shiftr b 4)))
          (String (sextet_char (Z.lor (Z.shiftl (Z.land b 15) 2) (Z.shiftr c 6)))
            (String (sextet_char (Z.land c 63)) (b64_encode bs'))))
  | [a; b] =>
      String (sextet_char (Z.shiftr a 2))
        (String (sextet_char (Z.lor (Z.shiftl (Z.land a 3) 4) (Z.shiftr b 4)))
          (String (sextet_char (Z.shiftl (Z.land b 15) 2)) EmptyString))
  | [a] => String (sextet_char (Z.shiftr a 2)) (String (sextet_char (Z.shiftl (Z.land a 3) 4)) EmptyString)
  | [] => EmptyString
  end.

(** Characters outside the alphabet are skipped; ["="] ends the input. *)
Fixpoint sextets (s : string) : list Z :=
  match s with
  | EmptyString => []
  | String c s' =>
      if Ascii.eqb c (Ascii.ascii_of_nat 61) then []
      else match char_sextet c with Some n => n :: sextets s' | None => sextets s' end
  end.

Fixpoint join_sextets (l : list Z) : bytes :=
  match l with
  | a :: b :: c :: d :: l' =>
      Z.lor (Z.shiftl a 2) (Z.shiftr b 4) ::
      Z.lor (Z.shiftl (Z.land b 15) 4) (Z.shiftr c 2) ::
      Z.lor (Z.shiftl (Z.land c 3) 6) d :: join_sextets l'
  | [a; b; c] => [Z.lor (Z.shiftl a 2) (Z.shiftr b 4); Z.lor (Z.shiftl (Z.land b 15) 4) (Z.shiftr c 2)]
  | [a; b] => [Z.lor (Z.shiftl a 2) (Z.shiftr b 4)]
  | _ => []
  end.

Definition b64_decode (s : string) : bytes := join_sextets (sextets s).

(** ** Characters *)

Fixpoint all_chars (p : Ascii.ascii -> bool) (s : string) : bool :=
  match s with
  | EmptyString => true
  | String c s' => p c && all_chars p s'
  end.

(** [/^[A-Za-z0-9_-]+$/]. *)
Definition is_b64url_char (c : Ascii.ascii) : bool :=
  let n := Ascii.nat_of_ascii c in
  (Nat.leb 65 n && Nat.leb n 90) || (Nat.leb 97 n && Nat.leb n 122) || (Nat.leb 48 n && Nat.leb n 57) ||
  Nat.eqb n 95 || Nat.eqb n 45.

(** ** Codec facts *)

Lemma string_of_bytes_of s : string_of (bytes_of s) = s.
Proof.
  induction s as [|c s IH]; [done|]. cbn [bytes_of string_of].
  by rewrite N2Z.id, Ascii.ascii_N_embedding, IH.
Qed.

Lemma bytes_of_bytes s : Forall (fun b => is_byte b = true) (bytes_of s).
Proof.
  induction s as [|c s IH]; constructor; [|done]. unfold is_byte.
  pose proof (Ascii.N_ascii_bounded c). apply andb_true_iff. rewrite Z.leb_le, Z.ltb_lt. lia.
Qed.

Lemma bytes_of_length s : length (bytes_of s) = String.length s.
Proof. induction s as [|c s IH]; [done|]. cbn. by rewrite IH. Qed.

(** Checks over all bytes and pairs of bytes, by evaluation. *)
Definition all_bytes : list Z := map Z.of_nat (seq 0 256).

Lemma elem_all_bytes b : is_byte b = true -> b ∈ all_bytes.
Proof.
  unfold is_byte. intros H. bools. apply list_elem_of_In, in_map_iff. exists (Z.to_nat b).
  split; [lia|]. apply in_seq. lia.
Qed.

Lemma forall_byte (f : Z -> bool) :
  forallb f all_bytes = true -> forall b, is_byte b = true -> f b = true.
Proof. rewrite forallb_forall. intros H b Hb%elem_all_bytes%list_elem_of_In. auto. Qed.

Lemma forall_byte2 (f : Z -> Z -> bool) :
  forallb (fun a => forallb (f a) all_bytes) all_bytes = true ->
  forall a b, is_byte a = true -> is_byte b = true -> f a b = true.
Proof. intros H a b Ha Hb. apply (forall_byte (f a)); [|done]. by apply (forall_byte _ H a). Qed.

Definition s0 (a : Z) : Z := Z.shiftr a 2.
Definition s1 (a b : Z) : Z := Z.lor (Z.shiftl (Z.land a 3) 4) (Z.shiftr b 4).
Definition s2 (b c : Z) : Z := Z.lor (Z.shiftl (Z.land b 15) 2) (Z.shiftr c 6).
Definition s3 (c : Z) : Z := Z.land c 63.

Definition is_sextet (n : Z) : bool := (0 <=? n) && (n <? 64).

Lemma pair_checks a b :
  is_byte a = true -> is_byte b = true ->
  is_sextet (s0 a) = true /\ is_sextet (s1 a b) = true /\ is_sextet (s2 a b) = true /\ is_sextet (s3 a) = true /\
  Z.lor (Z.shiftl (s0 a) 2) (Z.shiftr (s1 a b) 4) = a /\
  Z.land (s1 a b) 15 = Z.shiftr b 4 /\ Z.shiftr (s2 a b) 2 = Z.land a 15 /\
  Z.land (s2 a b) 3 = Z.shiftr b 6.
Proof.
  intros Ha Hb.
  pose proof (forall_byte2 (fun a b => is_sextet (s0 a) && is_sextet (s1 a b) && is_sextet (s2 a b) &&
    is_sextet (s3 a) && (Z.lor (Z.shiftl (s0 a) 2) (Z.shiftr (s1 a b) 4) =? a) &&
    (Z.land (s1 a b) 15 =? Z.shiftr b 4) && (Z.shiftr (s2 a b) 2 =? Z.land a 15) &&
    (Z.land (s2 a b) 3 =? Z.shiftr b 6)) ltac:(by vm_compute) a b Ha Hb) as H.
  cbn beta in H. by bools.
Qed.

Lemma byte_checks b :
  is_byte b = true ->
  Z.lor (Z.shiftl (Z.shiftr b 4) 4) (Z.land b 15) = b /\
  Z.lor (Z.shiftl (Z.shiftr b 6) 6) (s3 b) = b.
Proof.
  intros Hb.
  pose proof (forall_byte (fun b => (Z.lor (Z.shiftl (Z.shiftr b 4) 4) (Z.land b 15) =? b) &&
    (Z.lor (Z.shiftl (Z.shiftr b 6) 6) (s3 b) =? b)) ltac:(by vm_compute) b Hb) as H.
  cbn beta in H. by bools.
Qed.

Lemma sextet_round n :
  is_sextet n = true ->
  char_sextet (sextet_char n) = Some n /\ Ascii.eqb (sextet_char n) (Ascii.ascii_of_nat 61) = false /\
  is_b64url_char (sextet_char n) = true.
Proof.
  intros Hn. assert (is_byte n = true) as Hb by (unfold is_sextet, is_byte in *; bools; lia).
  pose proof (forall_byte (fun n => negb (is_sextet n) ||
    (bool_decide (char_sextet (sextet_char n) = Some n) &&
     negb (Ascii.eqb (sextet_char n) (Ascii.ascii_of_nat 61)) && is_b64url_char (sextet_char n)))
    ltac:(by vm_compute) n Hb) as H.
  cbn beta in H. rewrite Hn in H. cbn in H. by bools.
Qed.

Lemma sextets_cons n s : is_sextet n = true -> sextets (String (sextet_char n) s) = n :: sextets s.
Proof. intros (H1 & H2 & _)%sextet_round. cbn [sextets]. by rewrite H2, H1. Qed.

(** Induction three bytes at a time. *)
Lemma bytes3_ind (P : bytes -> Prop) :
  P [] -> (forall a, P [a]) -> (forall a b, P [a; b]) ->
  (forall a b c bs, P bs -> P (a :: b :: c :: bs)) -> forall bs, P bs.
Proof.
  intros H0 H1 H2 H3. fix IH 1. intros [|a [|b [|c bs]]]; [done|done|done|]. apply H3, IH.
Qed.

Lemma b64_chars bs :
  Forall (fun b => is_byte b = true) bs -> all_chars is_b64url_char (b64_encode bs) = true.
Proof.
  induction bs as [|a|a b|a b c bs IH] using bytes3_ind; intros Hbs; [done| | |];
    repeat match goal with H : Forall _ (_ :: _) |- _ => apply Forall_cons in H as [? H] end.
  - destruct (pair_checks a 0 H ltac:(done)) as (E0 & E1 & _).
    cbn [b64_encode all_chars]. fold (s0 a).
    replace (Z.shiftl (Z.land a 3) 4) with (s1 a 0) by (unfold s1; by rewrite Z.lor_0_r).
    destruct (sextet_round _ E0) as (_ & _ & ->), (sextet_round _ E1) as (_ & _ & ->). done.
  - destruct (pair_checks a b H H0) as (E0 & E1 & _), (pair_checks b 0 H0 ltac:(done)) as (_ & _ & E2 & _).
    cbn [b64_encode all_chars]. fold (s0 a) (s1 a b).
    replace (Z.shiftl (Z.land b 15) 2) with (s2 b 0) by (unfold s2; by rewrite Z.lor_0_r).
    destruct (sextet_round _ E0) as (_ & _ & ->), (sextet_round _ E1) as (_ & _ & ->),
      (sextet_round _ E2) as (_ & _ & ->). done.
  - destruct (pair_checks a b H H0) as (E0 & E1 & _), (pair_checks b c H0 H1) as (_ & _ & E2 & _),
      (pair_checks c 0 H1 ltac:(done)) as (_ & _ & _ & E3 & _).
    cbn [b64_encode all_chars]. fold (s0 a) (s1 a b) (s2 b c) (s3 c).
    destruct (sextet_round _ E0) as (_ & _ & ->), (sextet_round _ E1) as (_ & _ & ->),
      (sextet_round _ E2) as (_ & _ & ->), (sextet_round _ E3) as (_ & _ & ->). by apply IH.
Qed.

(** Decoding undoes encoding. *)
Lemma b64_round bs : Forall (fun b => is_byte b = true) bs -> b64_decode (b64_encode bs) = bs.
Proof.
  unfold b64_decode.
  induction bs as [|a|a b|a b c bs IH] using bytes3_ind; intros Hbs; [done| | |];
    repeat match goal with H : Forall _ (_ :: _) |- _ => apply Forall_cons in H as [? H] end.
  - destruct (pair_checks a 0 H ltac:(done)) as (E0 & E1 & _ & _ & Ra & _).
    cbn [b64_encode]. fold (s0 a).
    replace (Z.shiftl (Z.land a 3) 4) with (s1 a 0) by (unfold s1; by rewrite Z.lor_0_r).
    rewrite !sextets_cons by done. cbn [join_sextets sextets]. by rewrite Ra.
  - destruct (pair_checks a b H H0) as (E0 & E1 & _ & _ & Ra & Rb & _),
      (pair_checks b 0 H0 ltac:(done)) as (_ & _ & E2 & _ & _ & _ & Rb' & _), (byte_checks b H0) as [Hb _].
    cbn [b64_encode]. fold (s0 a) (s1 a b).
    replace (Z.shiftl (Z.land b 15) 2) with (s2 b 0) by (unfold s2; by rewrite Z.lor_0_r).
    rewrite !sextets_cons by done. cbn [join_sextets sextets]. by rewrite Ra, Rb, Rb', Hb.
  - destruct (pair_checks a b H H0) as (E0 & E1 & _ & _ & Ra & Rb & _),
      (pair_checks b c H0 H1) as (_ & _ & E2 & _ & _ & _ & Rb' & Rc),
      (pair_checks c 0 H1 ltac:(done)) as (_ & _ & _ & E3 & _),
      (byte_checks b H0) as [Hb _], (byte_checks c H1) as [_ Hc].
    cbn [b64_encode]. fold (s0 a) (s1 a b) (s2 b c) (s3 c).
    rewrite !sextets_cons by done. cbn [join_sextets]. by rewrite Ra, Rb, Rb', Hb, Rc, Hc, IH.
Qed.
