(* ===== verification/Json.v ===== *)
(** * [JSON.parse] and the numbers it gives.

    The grammar of RFC 8259 as [JSON.parse] reads it: four white-space
    characters, strings with their escapes and no raw control character,
    numbers rounded to the nearest double.  A string stands for its UTF-8
    bytes, so a non-ASCII character is a run of bytes above 127, which the
    grammar admits inside string literals only. *)

From S2P Require Import Prelude Text.
From Stdlib Require Import Ascii.
#[local] Open Scope Z_scope.

(** ** Doubles *)

(** [Dyadic m e] is [m * 2 ^ e]; an overflowing literal is an infinity. *)
Inductive number : Type := Dyadic (m e : Z) | Infinite (negative : bool).

(** Round half to even. *)
Definition div_rne (a b : Z) : Z :=
  let q := a / b in
  let r2 := 2 * (a mod b) in
  if r2 <? b then q else if b <? r2 then q + 1 else if Z.even q then q else q + 1.

(** The double nearest to [m * 10 ^ e]. *)
Definition to_double (m e : Z) : number :=
  if m =? 0 then Dyadic 0 0
  else
    let n := Z.abs m * 10 ^ Z.max e 0 in
    let d := 10 ^ Z.max (- e) 0 in
    let k1 := Z.log2 n - Z.log2 d - 53 in
    let scaled k := (n * 2 ^ Z.max (- k) 0, d * 2 ^ Z.max k 0) in
    let k2 := if 2 ^ 53 <=? (scaled k1).1 / (scaled k1).2 then k1 + 1 else k1 in
    let k := Z.max k2 (-1074) in
    let q := div_rne (scaled k).1 (scaled k).2 in
    if (971 <? k) || ((k =? 971) && (q =? 2 ^ 53)) then Infinite (m <? 0)
    else Dyadic (Z.sgn m * q) k.

(** Comparing an integer with a number. *)
Definition Z_lt_number (z : Z) (x : number) : bool :=
  match x with
  | Dyadic m e => z * 2 ^ Z.max (- e) 0 <? m * 2 ^ Z.max e 0
  | Infinite negative => negb negative
  end.

Definition Z_eq_number (z : Z) (x : number) : bool :=
  match x with
  | Dyadic m e => z * 2 ^ Z.max (- e) 0 =? m * 2 ^ Z.max e 0
  | Infinite _ => false
  end.

(** ** Values *)

Inductive json : Type :=
| JNull
| JBool (b : bool)
| JNumber (x : number)
| JString (s : string)
| JArray (items : list json)
| JObject (members : list (string * json)).

(** ** Lexical elements *)

Definition quote : Ascii.ascii := Ascii.ascii_of_nat 34.
Definition backslash : Ascii.ascii := Ascii.ascii_of_nat 92.

Definition is_ws (c : Ascii.ascii) : bool :=
  let n := Ascii.nat_of_ascii c in Nat.eqb n 32 || Nat.eqb n 9 || Nat.eqb n 10 || Nat.eqb n 13.

Fixpoint skip_ws (s : string) : string :=
  match s with
  | String c s' => if is_ws c then skip_ws s' else s
  | EmptyString => s
  end.

Definition is_digit (c : Ascii.ascii) : bool := digit_value c <? 10.

(** The digits at the front: their value appended to [acc], their number
    added to [n], and what follows. *)
Fixpoint take_digits (acc n : Z) (s : string) : Z * Z * string :=
  match s with
  | String c s' => if is_digit c then take_digits (acc * 10 + digit_value c) (n + 1) s' else (acc, n, s)
  | EmptyString => (acc, n, s)
  end.

(** What follows the character [c], if it comes first. *)
Definition expect (c : Ascii.ascii) (s : string) : option string :=
  match s with
  | String c' s' => if Ascii.eqb c' c then Some s' else None
  | EmptyString => None
  end.

Definition lex_fraction (m : Z) (s : string) : option (Z * Z * string) :=
  match expect "."%char s with
  | Some s' => let '(m', n, rest) := take_digits m 0 s' in if 0 <? n then Some (m', - n, rest) else None
  | None => Some (m, 0, s)
  end.

Definition lex_exponent_digits (sign : Z) (s : string) : option (Z * string) :=
  let '(e, n, rest) := take_digits 0 0 s in if 0 <? n then Some (sign * e, rest) else None.

Definition lex_exponent (s : string) : option (Z * string) :=
  match expect "e"%char s, expect "E"%char s with
  | Some t, _ | None, Some t =>
      match expect "+"%char t, expect "-"%char t with
      | Some u, _ => lex_exponent_digits 1 u
      | None, Some u => lex_exponent_digits (-1) u
      | None, None => lex_exponent_digits 1 t
      end
  | None, None => Some (0, s)
  end.

Definition lex_integer (s : string) : option (Z * string) :=
  match expect "0"%char s with
  | Some s' => Some (0, s')
  | None => let '(m, n, rest) := take_digits 0 0 s in if 0 <? n then Some (m, rest) else None
  end.

Definition lex_unsigned (sign : Z) (s : string) : option (number * string) :=
  '(m, s1) ← lex_integer s;
  '(m', e1, s2) ← lex_fraction m s1;
  '(e2, s3) ← lex_exponent s2;
  Some (to_double (sign * m') (e1 + e2), s3).

Definition lex_number (s : string) : option (number * string) :=
  match expect "-"%char s with
  | Some s' => lex_unsigned (-1) s'
  | None => lex_unsigned 1 s
  end.

Definition hex4 (a b c d : Ascii.ascii) : option Z :=
  if (digit_value a <? 16) && (digit_value b <? 16) && (digit_value c <? 16) && (digit_value d <? 16)
  then Some (((digit_value a * 16 + digit_value b) * 16 + digit_value c) * 16 + digit_value d) else None.

(** The bytes of a code unit given by an escape. *)
Definition utf8 (n : Z) (rest : string) : string :=
  let ch z := Ascii.ascii_of_nat (Z.to_nat z) in
  if n <? 128 then String (ch n) rest
  else if n <? 2048 then String (ch (192 + n / 64)) (String (ch (128 + n mod 64)) rest)
  else String (ch (224 + n / 4096)) (String (ch (128 + (n / 64) mod 64)) (String (ch (128 + n mod 64)) rest)).

(** The character a one-letter escape stands for. *)
Definition simple_escape (c : Ascii.ascii) : option Ascii.ascii :=
  if Ascii.eqb c "b"%char then Some (Ascii.ascii_of_nat 8)
  else if Ascii.eqb c "f"%char then Some (Ascii.ascii_of_nat 12)
  else if Ascii.eqb c "n"%char then Some (Ascii.ascii_of_nat 10)
  else if Ascii.eqb c "r"%char then Some (Ascii.ascii_of_nat 13)
  else if Ascii.eqb c "t"%char then Some (Ascii.ascii_of_nat 9)
  else if Ascii.eqb c quote || Ascii.eqb c backslash || Ascii.eqb c "/"%char then Some c
  else None.

(** The rest of a literal after its opening quote. *)
Fixpoint lex_string (s : string) : option (string * string) :=
  match s with
  | EmptyString => None
  | String c s' =>
      if Ascii.eqb c quote then Some (EmptyString, s')
      else if Ascii.eqb c backslash then
        match s' with
        | EmptyString => None
        | String e t =>
            if Ascii.eqb e "u"%char then
              match t with
              | String h1 (String h2 (String h3 (String h4 t'))) =>
                  n ← hex4 h1 h2 h3 h4;
                  '(str, rest) ← lex_string t';
                  Some (utf8 n str, rest)
              | _ => None
              end
            else
              ch ← simple_escape e;
              '(str, rest) ← lex_string t;
              Some (String ch str, rest)
        end
      else if Nat.ltb (Ascii.nat_of_ascii c) 32 then None
      else
        '(str, rest) ← lex_string s';
        Some (String c str, rest)
  end.

(** ** The grammar *)

Fixpoint strip (word s : string) : option string :=
  match word with
  | EmptyString => Some s
  | String c word' => rest ← expect c s; strip word' rest
  end.

Definition literal (word : string) (v : json) (s : string) : option (json * string) :=
  rest ← strip word s; Some (v, rest).

(** A value after any white space; the items of an array and the members of
    an object after the opening bracket.  [fuel] bounds the depth of the
    recursion. *)
Fixpoint parse_value (fuel : nat) (s : string) : option (json * string) :=
  match fuel with
  | O => None
  | S fuel' =>
      match skip_ws s with
      | EmptyString => None
      | String c rest =>
          if Ascii.eqb c "{"%char then
            match expect "}"%char (skip_ws rest) with
            | Some rest' => Some (JObject [], rest')
            | None => '(ms, rest') ← parse_members fuel' rest; Some (JObject ms, rest')
            end
          else if Ascii.eqb c "["%char then
            match expect "]"%char (skip_ws rest) with
            | Some rest' => Some (JArray [], rest')
            | None => '(vs, rest') ← parse_items fuel' rest; Some (JArray vs, rest')
            end
          else if Ascii.eqb c quote then '(str, rest') ← lex_string rest; Some (JString str, rest')
          else if Ascii.eqb c "t"%char then literal "true" (JBool true) (String c rest)
          else if Ascii.eqb c "f"%char then literal "false" (JBool false) (String c rest)
          else if Ascii.eqb c "n"%char then literal "null" JNull (String c rest)
          else '(x, rest') ← lex_number (String c rest); Some (JNumber x, rest')
      end
  end
with parse_items (fuel : nat) (s : string) : option (list json * string) :=
  match fuel with
  | O => None
  | S fuel' =>
      '(v, s1) ← parse_value fuel' s;
      match expect ","%char (skip_ws s1) with
      | Some s2 => '(vs, s3) ← parse_items fuel' s2; Some (v :: vs, s3)
      | None => s2 ← expect "]"%char (skip_ws s1); Some ([v], s2)
      end
  end
with parse_members (fuel : nat) (s : string) : option (list (string * json) * string) :=
  match fuel with
  | O => None
  | S fuel' =>
      s1 ← expect quote (skip_ws s);
      '(key, s2) ← lex_string s1;
      s3 ← expect ":"%char (skip_ws s2);
      '(v, s4) ← parse_value fuel' s3;
      match expect ","%char (skip_ws s4) with
      | Some s5 => '(ms, s6) ← parse_members fuel' s5; Some ((key, v) :: ms, s6)
      | None => s5 ← expect "}"%char (skip_ws s4); Some ([(key, v)], s5)
      end
  end.

(** [JSON.parse]: [None] is the SyntaxError. *)
Definition JSON_parse (s : string) : option json :=
  '(v, rest) ← parse_value (2 * String.length s + 2) s;
  if String.eqb (skip_ws rest) "" then Some v else None.

(** [v.key]: the last member of that name; [undefined] is [None]. *)
Definition member (key : string) (v : json) : option json :=
  match v with
  | JObject ms => snd <$> last (List.filter (fun m => String.eqb m.1 key) ms)
  | _ => None
  end.

(** ** The fuel is enough *)

Abbreviation len := String.length.

Lemma skip_ws_len s : (len (skip_ws s) <= len s)%nat.
Proof. induction s as [|c s IH]; [done|]. cbn. destruct (is_ws c); cbn; lia. Qed.

Lemma expect_len c s r : expect c s = Some r -> len s = S (len r).
Proof. destruct s as [|c' s]; [done|]. cbn. destruct (Ascii.eqb c' c); [|done]. by intros [= ->]. Qed.

Lemma take_digits_len acc n s : (len (take_digits acc n s).2 <= len s)%nat.
Proof. revert acc n. induction s as [|c s IH]; intros acc n; [done|]. cbn. destruct (is_digit c); cbn; [|lia]. etrans; [apply IH|lia]. Qed.

(** Digits were read when the count went up. *)
Lemma take_digits_lt acc n s m k r : take_digits acc n s = (m, k, r) -> n < k -> (len r < len s)%nat.
Proof.
  destruct s as [|c s]; cbn; [intros [= <- <- <-]; lia|].
  destruct (is_digit c); [|intros [= <- <- <-]; lia].
  intros H _. pose proof (take_digits_len (acc * 10 + digit_value c) (n + 1) s) as Hl.
  rewrite H in Hl. cbn in Hl. lia.
Qed.

Lemma lex_string_len s : forall str r, lex_string s = Some (str, r) -> (len r < len s)%nat.
Proof.
  induction s as [s IH] using (induction_ltof1 _ len). unfold ltof in IH.
  destruct s as [|c s]; [done|]. intros str r. cbn [lex_string].
  destruct (Ascii.eqb c quote); [intros [= _ <-]; cbn; lia|].
  destruct (Ascii.eqb c backslash).
  - destruct s as [|e t]; [done|]. destruct (Ascii.eqb e "u"%char).
    + destruct t as [|h1 [|h2 [|h3 [|h4 t]]]]; try done.
      intros H. apply bind_Some in H as (n & _ & H). apply bind_Some in H as ([str' r'] & H & E).
      injection E as _ <-. apply IH in H; cbn in *; lia.
    + intros H. apply bind_Some in H as (n & _ & H). apply bind_Some in H as ([str' r'] & H & E).
      injection E as _ <-. apply IH in H; cbn in *; lia.
  - destruct (Nat.ltb _ 32); [done|]. intros H. apply bind_Some in H as ([str' r'] & H & E).
    injection E as _ <-. apply IH in H; cbn in *; lia.
Qed.

Lemma strip_len w s r : strip w s = Some r -> len s = (len w + len r)%nat.
Proof.
  revert s. induction w as [|c w IH]; intros s; cbn [strip]; [by intros [= ->]|].
  intros (t & Ht%expect_len & Hr)%bind_Some. apply IH in Hr. cbn. lia.
Qed.

Lemma lex_fraction_len m s m' e r : lex_fraction m s = Some (m', e, r) -> (len r <= len s)%nat.
Proof.
  unfold lex_fraction. destruct (expect "."%char s) as [t|] eqn:E; [|intros [= <- <- <-]; lia].
  apply expect_len in E. pose proof (take_digits_len m 0 t) as H.
  destruct (take_digits m 0 t) as [[a b] u]. destruct (0 <? b); [|done]. intros [= <- <- <-]. cbn in H. lia.
Qed.

Lemma lex_exponent_digits_len sg s e r : lex_exponent_digits sg s = Some (e, r) -> (len r <= len s)%nat.
Proof.
  unfold lex_exponent_digits. pose proof (take_digits_len 0 0 s) as H.
  destruct (take_digits 0 0 s) as [[a b] u]. destruct (0 <? b); [|done]. by intros [= <- <-].
Qed.

Lemma lex_exponent_len s e r : lex_exponent s = Some (e, r) -> (len r <= len s)%nat.
Proof.
  unfold lex_exponent. intros H.
  assert (forall t, (len t <= len s)%nat ->
    match expect "+"%char t, expect "-"%char t with
    | Some u, _ => lex_exponent_digits 1 u
    | None, Some u => lex_exponent_digits (-1) u
    | None, None => lex_exponent_digits 1 t
    end = Some (e, r) -> (len r <= len s)%nat) as Ht.
  { intros t Hl. destruct (expect "+"%char t) eqn:E1; [apply expect_len in E1; intros ?%lex_exponent_digits_len; lia|].
    destruct (expect "-"%char t) eqn:E2; [apply expect_len in E2|]; intros ?%lex_exponent_digits_len; lia. }
  destruct (expect "e"%char s) as [t|] eqn:E1; [apply expect_len in E1; apply (Ht t); [lia|done]|].
  destruct (expect "E"%char s) as [t|] eqn:E2; [apply expect_len in E2; apply (Ht t); [lia|done]|].
  by injection H as <- <-.
Qed.

Lemma lex_number_len s x r : lex_number s = Some (x, r) -> (len r < len s)%nat.
Proof.
  assert (forall sg t, lex_unsigned sg t = Some (x, r) -> (len r < len t)%nat) as Hu.
  { intros sg t ([m t1] & H1 & ([[m' e1] t2] & H2 & ([e2 t3] & H3 & E)%bind_Some)%bind_Some)%bind_Some.
    injection E as _ <-. apply lex_fraction_len in H2. apply lex_exponent_len in H3.
    unfold lex_integer in H1. destruct (expect "0"%char t) as [u|] eqn:E0.
    - apply expect_len in E0. injection H1 as _ <-. lia.
    - destruct (take_digits 0 0 t) as [[a b] u] eqn:Ed. destruct (0 <? b) eqn:Eb; [|done]. bools.
      injection H1 as _ <-. apply take_digits_lt in Ed; [lia|done]. }
  unfold lex_number. destruct (expect "-"%char s) as [t|] eqn:E; [apply expect_len in E|]; intros ?%Hu; lia.
Qed.

(** Open the options and pairs of a parser that returned. *)
Ltac parsed :=
  repeat case_match; simplify_option_eq;
  repeat match goal with p : (_ * string)%type |- _ => destruct p end; simplify_eq.

(** What a parser returns is shorter than what it was given. *)
Lemma parse_consumes fuel :
  (forall s v r, parse_value fuel s = Some (v, r) -> (len r < len s)%nat) /\
  (forall s v r, parse_items fuel s = Some (v, r) -> (len r < len s)%nat) /\
  (forall s v r, parse_members fuel s = Some (v, r) -> (len r < len s)%nat).
Proof.
  induction fuel as [|fuel (IHv & IHi & IHm)]; [done|]. split_and!; intros s v r.
  - cbn [parse_value]. pose proof (skip_ws_len s) as Hs. destruct (skip_ws s) as [|c t]; [done|].
    pose proof (skip_ws_len t) as Ht. cbn [String.length] in Hs. intros H; parsed;
      repeat match goal with
      | H : expect _ _ = Some _ |- _ => apply expect_len in H
      | H : lex_string _ = Some _ |- _ => apply lex_string_len in H
      | H : lex_number _ = Some _ |- _ => apply lex_number_len in H
      | H : parse_items _ _ = Some _ |- _ => apply IHi in H
      | H : parse_members _ _ = Some _ |- _ => apply IHm in H
      | H : literal _ _ _ = Some _ |- _ => apply bind_Some in H as (? & ?%strip_len & [= _ <-])
      end; cbn [String.length] in *; lia.
  - cbn [parse_items]. intros ([w t] & H1%IHv & H)%bind_Some. pose proof (skip_ws_len t) as Ht.
    parsed;
      repeat match goal with
      | H : expect _ _ = Some _ |- _ => apply expect_len in H
      | H : parse_items _ _ = Some _ |- _ => apply IHi in H
      end; lia.
  - cbn [parse_members]. pose proof (skip_ws_len s) as Hs.
    intros (s1 & H1%expect_len & ([k s2] & H2%lex_string_len & (s3 & H3%expect_len &
      ([w s4] & H4%IHv & H)%bind_Some)%bind_Some)%bind_Some)%bind_Some.
    pose proof (skip_ws_len s2). pose proof (skip_ws_len s4).
    parsed;
      repeat match goal with
      | H : expect _ _ = Some _ |- _ => apply expect_len in H
      | H : parse_members _ _ = Some _ |- _ => apply IHm in H
      end; lia.
Qed.

(** Twice the length of the text, and two, is enough fuel. *)
Lemma parse_fuel f :
  (forall g s, (2 * len s + 2 <= f)%nat -> (2 * len s + 2 <= g)%nat -> parse_value f s = parse_value g s) /\
  (forall g s, (2 * len s + 3 <= f)%nat -> (2 * len s + 3 <= g)%nat -> parse_items f s = parse_items g s) /\
  (forall g s, (2 * len s + 3 <= f)%nat -> (2 * len s + 3 <= g)%nat -> parse_members f s = parse_members g s).
Proof.
  induction f as [|f (IHv & IHi & IHm)]; [split_and!; intros; lia|].
  split_and!; intros [|g] s Hf Hg; try lia.
  - cbn [parse_value]. pose proof (skip_ws_len s) as Hs. destruct (skip_ws s) as [|c t]; [done|].
    cbn [String.length] in Hs. by rewrite (IHm g t), (IHi g t) by lia.
  - cbn [parse_items]. rewrite (IHv g s) by lia. destruct (parse_value g s) as [[v s1]|] eqn:E; [|done].
    apply parse_consumes in E. pose proof (skip_ws_len s1). cbn.
    destruct (expect ","%char (skip_ws s1)) as [s2|] eqn:E2; [|done]. apply expect_len in E2.
    by rewrite (IHi g s2) by lia.
  - cbn [parse_members]. pose proof (skip_ws_len s) as Hs.
    destruct (expect quote (skip_ws s)) as [s1|] eqn:E1; [|done]. apply expect_len in E1. cbn.
    destruct (lex_string s1) as [[k s2]|] eqn:E2; [|done]. apply lex_string_len in E2. cbn.
    pose proof (skip_ws_len s2). destruct (expect ":"%char (skip_ws s2)) as [s3|] eqn:E3; [|done].
    apply expect_len in E3. cbn. rewrite (IHv g s3) by lia.
    destruct (parse_value g s3) as [[v s4]|] eqn:E4; [|done]. apply parse_consumes in E4. cbn.
    pose proof (skip_ws_len s4). destruct (expect ","%char (skip_ws s4)) as [s5|] eqn:E5; [|done].
    apply expect_len in E5. by rewrite (IHm g s5) by lia.
Qed.

(** [JSON_parse] does not depend on its fuel. *)
Lemma JSON_parse_total fuel s :
  (2 * len s + 2 <= fuel)%nat ->
  JSON_parse s = ('(v, rest) ← parse_value fuel s; if String.eqb (skip_ws rest) "" then Some v else None).
Proof. intros H. unfold JSON_parse. by rewrite (proj1 (parse_fuel fuel) (2 * len s + 2)%nat s) by lia. Qed.

(** ** Safe integers *)

Lemma div_rne_1 x : div_rne x 1 = x.
Proof. unfold div_rne. by rewrite Z.mod_1_r, Z.div_1_r. Qed.

(** Scaling up by a power of two is exact. *)
Lemma dyadic_exact n k z :
  k <= 0 ->
  Z_lt_number z (Dyadic (n * 2 ^ (- k)) k) = (z <? n) /\ Z_eq_number z (Dyadic (n * 2 ^ (- k)) k) = (z =? n).
Proof.
  intros Hk. cbn. rewrite Z.max_l, Z.max_r, Z.pow_0_r, Z.mul_1_r by lia.
  assert (0 < 2 ^ (- k)) as Hp by (apply Z.pow_pos_nonneg; lia).
  split; apply eq_true_iff_eq; [rewrite !Z.ltb_lt|rewrite !Z.eqb_eq]; nia.
Qed.

(** A safe integer is read without rounding. *)
Lemma to_double_safe n :
  isSafeInteger n = true ->
  forall z, Z_lt_number z (to_double n 0) = (z <? n) /\ Z_eq_number z (to_double n 0) = (z =? n).
Proof.
  unfold isSafeInteger, MAX_SAFE_INTEGER. intros H z. bools. unfold to_double.
  destruct (Z.eqb_spec n 0) as [->|Hn0]; [by apply (dyadic_exact 0 0 z)|].
  change (10 ^ Z.max 0 0) with 1. change (10 ^ Z.max (- 0) 0) with 1. rewrite Z.mul_1_r.
  assert (0 <= Z.log2 (Z.abs n) < 53) as Hl.
  { split; [apply Z.log2_nonneg|]. apply Z.log2_lt_pow2; lia. }
  change (Z.log2 1) with 0. rewrite Z.sub_0_r.
  set (k1 := Z.log2 (Z.abs n) - 53). assert (-53 <= k1 <= -1) as Hk1 by (subst k1; lia).
  match goal with |- context [if ?b then k1 + 1 else k1] => set (k2 := if b then k1 + 1 else k1) end.
  assert (-53 <= k2 <= 0) as Hk2 by (subst k2; destruct (_ <=? _); lia).
  clearbody k2. clear k1 Hk1. rewrite !(Z.max_l k2), (Z.max_r k2 0), (Z.max_l (- k2)) by lia.
  cbn [fst snd]. rewrite Z.pow_0_r, Z.mul_1_r, div_rne_1.
  replace (971 <? k2) with false by (symmetry; apply Z.ltb_ge; lia).
  replace (k2 =? 971) with false by (symmetry; apply Z.eqb_neq; lia). cbn [andb orb].
  rewrite Z.mul_assoc, (Z.mul_comm (Z.sgn n)), Z.abs_sgn. apply dyadic_exact. lia.
Qed.

(** ** Reading printed integers *)

Lemma take_digits_numeric s rest acc n :
  numeric s = true -> (forall c t, rest = String c t -> is_digit c = false) ->
  exists m, digits 10 acc s = Some m /\ take_digits acc n (s +:+ rest) = (m, n + Z.of_nat (len s), rest).
Proof.
  intros Hs Hr. revert acc n. induction s as [|c s IH]; intros acc n.
  - exists acc. split; [done|]. change ("" +:+ rest) with rest. cbn. rewrite Z.add_0_r.
    destruct rest as [|c t]; [done|]. cbn. by rewrite (Hr c t eq_refl).
  - cbn in Hs. apply andb_true_iff in Hs as [Hc Hs].
    destruct (IH Hs (acc * 10 + digit_value c) (n + 1)) as (m & Hm & Ht).
    exists m. cbn [digits]. rewrite Hc. split; [done|]. change (String c s +:+ rest) with (String c (s +:+ rest)).
    cbn [take_digits]. unfold is_digit. rewrite Hc, Ht. cbn [String.length]. do 2 f_equal. lia.
Qed.

(** The first digit of a positive number is not zero. *)
Lemma pretty_go_first n s : (0 < n)%N -> exists c t, pretty_N_go n s = String c t /\ Ascii.eqb c "0"%char = false.
Proof.
  revert s. induction (N.lt_wf_0 n) as [n _ IH]. intros s Hn. rewrite pretty_N_go_step by lia.
  destruct (decide (n / 10 = 0)%N) as [E|E].
  - rewrite E, pretty_N_go_0. eexists _, _. split; [done|].
    apply N.div_small_iff in E; [|done]. rewrite N.mod_small by done.
    destruct n as [|p]; [done|]. do 4 (destruct p as [p|p|]; try done; try lia).
  - apply IH; [apply N.div_lt; lia|by apply N.neq_0_lt_0].
Qed.

(** Characters that may follow a number. *)
Definition ends_number (c : Ascii.ascii) : bool :=
  negb (is_digit c) && negb (Ascii.eqb c "."%char) && negb (Ascii.eqb c "e"%char) && negb (Ascii.eqb c "E"%char).

Lemma lex_pretty_N sg (n : N) c t :
  ends_number c = true ->
  lex_unsigned sg (pretty n +:+ String c t) = Some (to_double (sg * Z.of_N n) 0, String c t).
Proof.
  unfold ends_number. intros Hc. bools. unfold lex_unsigned.
  assert (lex_integer (pretty n +:+ String c t) = Some (Z.of_N n, String c t)) as ->.
  { unfold lex_integer. destruct (decide (n = 0)%N) as [->|Hn]; [done|].
    destruct (take_digits_numeric (pretty n) (String c t) 0 0 (numeric_pretty n)) as (m & Hm & Ht).
    { by intros ? ? [= <- <-]. }
    rewrite digits_pretty in Hm. injection Hm as <-.
    destruct (pretty_go_first n "" ltac:(lia)) as (c0 & t0 & E & E0).
    assert (pretty n = String c0 t0) as Ep by (unfold pretty, pretty_N; by case_decide).
    rewrite Ht. rewrite Ep. change (String c0 t0 +:+ String c t) with (String c0 (t0 +:+ String c t)).
    cbn [expect String.length]. rewrite E0. by destruct (0 <? _) eqn:?; bools; [|lia]. }
  unfold lex_fraction, lex_exponent. cbn.
  repeat (match goal with H : Ascii.eqb c _ = false |- _ => rewrite H; clear H end; cbn). done.
Qed.

Lemma lex_pretty (n : Z) c t :
  ends_number c = true -> lex_number (pretty n +:+ String c t) = Some (to_double n 0, String c t).
Proof.
  intros Hc. unfold lex_number. destruct n as [|p|p].
  - change (pretty 0) with (pretty 0%N : string). by apply (lex_pretty_N 1 0).
  - change (pretty (Z.pos p)) with (pretty (N.pos p)).
    destruct (pretty_go_first (N.pos p) "" ltac:(lia)) as (c0 & t0 & E & _).
    replace (expect "-"%char _) with (@None string); [by rewrite (lex_pretty_N 1)|].
    pose proof (numeric_pretty (N.pos p)) as Hn.
    assert (pretty (N.pos p) = String c0 t0) as Ep by (unfold pretty, pretty_N; by case_decide).
    rewrite Ep in Hn |- *. change (String c0 t0 +:+ String c t) with (String c0 (t0 +:+ String c t)). cbn [expect].
    destruct (Ascii.eqb_spec c0 "-"%char) as [->|]; done.
  - change (pretty (Z.neg p)) with ("-" +:+ pretty (N.pos p)). rewrite string_app_assoc.
    trans (lex_unsigned (-1) (pretty (N.pos p) +:+ String c t)); [done|]. by rewrite (lex_pretty_N (-1)).
Qed.

(** A text that starts with a byte above 127 is no JSON. *)
Lemma JSON_parse_non_ascii c s : Nat.leb 128 (Ascii.nat_of_ascii c) = true -> JSON_parse (String c s) = None.
Proof.
  intros Hc. unfold JSON_parse. replace (2 * _ + 2)%nat with (S (2 * len s + 3)) by (cbn; lia).
  assert (parse_value (S (2 * len s + 3)) (String c s) = None) as ->; [|done].
  revert Hc. generalize (2 * len s + 3)%nat. intros n.
  by destruct c as [[] [] [] [] [] [] [] []].
Qed.

(** A printed integer starts like a number and like nothing else. *)
Lemma pretty_first (n : Z) :
  exists c t, (pretty n : string) = String c t /\ (is_digit c = true \/ c = "-"%char).
Proof.
  assert (forall m : N, exists c t, pretty m = String c t /\ is_digit c = true) as H.
  { intros m. pose proof (numeric_pretty m) as Hm. pose proof (pretty_nonempty m) as He.
    destruct (pretty m) as [|c t]; [done|]. cbn in Hm. bools. exists c, t. split; [done|]. by apply Z.ltb_lt. }
  destruct n as [|p|p].
  - by eexists _, _; split; [done|left].
  - destruct (H (N.pos p)) as (c & t & E & Hc). exists c, t. by split; [|left].
  - by eexists _, _; split; [|right].
Qed.

Lemma number_first c :
  is_digit c = true \/ c = "-"%char ->
  is_ws c = false /\ Ascii.eqb c "{"%char = false /\ Ascii.eqb c "["%char = false /\ Ascii.eqb c quote = false /\
  Ascii.eqb c "t"%char = false /\ Ascii.eqb c "f"%char = false /\ Ascii.eqb c "n"%char = false.
Proof. intros [H| ->]; [|done]. by destruct c as [[] [] [] [] [] [] [] []]. Qed.

Lemma parse_pretty fuel (n : Z) c t :
  ends_number c = true ->
  parse_value (S fuel) (pretty n +:+ String c t) = Some (JNumber (to_double n 0), String c t).
Proof.
  intros Hc. pose proof (lex_pretty n c t Hc) as Hl.
  destruct (pretty_first n) as (c0 & t0 & E & (H0 & H1 & H2 & H3 & H4 & H5 & H6)%number_first).
  rewrite E in *. change (String c0 t0 +:+ String c t) with (String c0 (t0 +:+ String c t)) in *.
  cbn [parse_value skip_ws]. rewrite H0, H1, H2, H3, H4, H5, H6, Hl. done.
Qed.
