(* ===== verification/PageCursor.v ===== *)
(** * Page cursors ([encodeCursor] and [decodeCursor] of
    coordinator/src/persistence/orders-repo.ts).

    A cursor is the base64url text of the JSON of a position.  Clients send
    it back as they please, so decoding takes any string; what a position
    decodes to are doubles, compared with the integers of a row. *)

From S2P Require Import Prelude Text Codec Json.
From Stdlib Require Import Ascii.
#[local] Open Scope Z_scope.

Record CursorInfo : Type := mkCursorInfo { c_createdAt : number; c_id : number }.

(** [JSON.stringify({ createdAt, id })]; an integer below 1e21 prints as its
    decimal digits. *)
Definition cursor_json (createdAt id : Z) : string :=
  "{" +:+ dquoted "createdAt" +:+ ":" +:+ pretty createdAt +:+ "," +:+ dquoted "id" +:+ ":" +:+ pretty id +:+ "}".

Definition encodeCursor (createdAt id : Z) : string := b64_encode (bytes_of (cursor_json createdAt id)).

(** [s.replace(/a/g, b)] for single characters. *)
Fixpoint replace_char (a b : Ascii.ascii) (s : string) : string :=
  match s with
  | EmptyString => EmptyString
  | String c s' => String (if Ascii.eqb c a then b else c) (replace_char a b s')
  end.

(** ['==='.slice((cursor.length + 3) % 4)]. *)
Definition padding (cursor : string) : string :=
  String.substring ((String.length cursor + 3) mod 4) 3 "===".

Definition invalid_cursor (message : string) : JsError := PlainError None ("Invalid cursor: " +:+ message).

(** The engine's text of a SyntaxError is not reproduced. *)
Definition decodeCursor (cursor : string) : outcome JsError CursorInfo :=
  let padded := cursor +:+ padding cursor in
  let base64 := replace_char "_"%char "/"%char (replace_char "-"%char "+"%char padded) in
  let text := string_of (b64_decode base64) in
  match JSON_parse text with
  | None => Throw (invalid_cursor "")
  | Some JNull => Throw (invalid_cursor "Cannot read properties of null (reading 'createdAt')")
  | Some parsed =>
      match member "createdAt" parsed, member "id" parsed with
      | Some (JNumber a), Some (JNumber b) => Ok (mkCursorInfo a b)
      | _, _ => Throw (invalid_cursor "Invalid cursor format: missing or invalid createdAt/id")
      end
  end.

(** ** Decoding *)

Lemma sextets_replace a b s :
  char_sextet a = char_sextet b -> Ascii.eqb a "="%char = false -> Ascii.eqb b "="%char = false ->
  sextets (replace_char a b s) = sextets s.
Proof.
  intros H Ha Hb. induction s as [|c s IH]; [done|]. cbn [replace_char sextets].
  change (Ascii.ascii_of_nat 61) with "="%char.
  destruct (Ascii.eqb_spec c a) as [->|]; rewrite IH; [by rewrite Ha, Hb, H|done].
Qed.

Lemma sextets_padding s p : sextets p = [] -> sextets (s +:+ p) = sextets s.
Proof.
  intros Hp. induction s as [|c s IH]; [done|]. change (String c s +:+ p) with (String c (s +:+ p)).
  cbn [sextets]. by rewrite IH.
Qed.

Lemma padding_empty s : sextets (padding s) = [].
Proof.
  unfold padding. pose proof (Nat.mod_upper_bound (String.length s + 3) 4 ltac:(lia)) as H.
  destruct ((String.length s + 3) mod 4)%nat as [|[|[|[|n]]]]; [done..|lia].
Qed.

(** Padding and the choice of alphabet do not matter. *)
Lemma decode_text s :
  b64_decode (replace_char "_"%char "/"%char (replace_char "-"%char "+"%char (s +:+ padding s))) = b64_decode s.
Proof.
  unfold b64_decode. rewrite !sextets_replace by done. by rewrite sextets_padding by apply padding_empty.
Qed.

(** The text of a position is read back as it was written. *)
Lemma parse_cursor_json a b :
  JSON_parse (cursor_json a b) =
  Some (JObject [("createdAt", JNumber (to_double a 0)); ("id", JNumber (to_double b 0))]).
Proof.
  rewrite (JSON_parse_total (S (S (S (S (2 * len (cursor_json a b)))))) (cursor_json a b)) by lia.
  generalize (2 * len (cursor_json a b))%nat. intros n.
  set (text_b := dquoted "id" +:+ ":" +:+ pretty b +:+ "}").
  assert (forall fuel, parse_members (S (S fuel)) text_b = Some ([("id", JNumber (to_double b 0))], "")) as Hb.
  { intros fuel. change (parse_members (S (S fuel)) text_b) with
      ('(v, s4) ← parse_value (S fuel) (pretty b +:+ "}");
       match expect ","%char (skip_ws s4) with
       | Some s5 => '(ms, s6) ← parse_members (S fuel) s5; Some (("id", v) :: ms, s6)
       | None => s5 ← expect "}"%char (skip_ws s4); Some ([("id", v)], s5)
       end). by rewrite (parse_pretty fuel b "}"%char ""). }
  assert (parse_value (S (S (S (S n)))) (cursor_json a b) =
    Some (JObject [("createdAt", JNumber (to_double a 0)); ("id", JNumber (to_double b 0))], "")) as ->; [|done].
  change (parse_value (S (S (S (S n)))) (cursor_json a b)) with
    ('(ms, rest') ←
       ('(v, s4) ← parse_value (S (S n)) (pretty a +:+ String ","%char text_b);
        match expect ","%char (skip_ws s4) with
        | Some s5 => '(ms, s6) ← parse_members (S (S n)) s5; Some (("createdAt", v) :: ms, s6)
        | None => s5 ← expect "}"%char (skip_ws s4); Some ([("createdAt", v)], s5)
        end); Some (JObject ms, rest')).
  clearbody text_b. rewrite (parse_pretty (S n) a ","%char text_b) by done.
  cbn -[parse_members]. change (is_ws ","%char) with false. cbn -[parse_members]. by rewrite Hb.
Qed.

(** Cursor round trip. *)
Lemma decode_encode a b : decodeCursor (encodeCursor a b) = Ok (mkCursorInfo (to_double a 0) (to_double b 0)).
Proof.
  unfold decodeCursor, encodeCursor. rewrite decode_text, b64_round by apply bytes_of_bytes.
  by rewrite string_of_bytes_of, parse_cursor_json.
Qed.

Lemma encode_truthy a b : truthy_string (encodeCursor a b) = true.
Proof. done. Qed.

(** ** Texts that are no cursor *)

(** A first character in the upper half of the alphabet decodes to a byte
    above 127, which starts no JSON. *)
Definition upper_half (c : Ascii.ascii) : bool :=
  match char_sextet c with Some n => 32 <=? n | None => false end.

Lemma char_sextet_range c n : char_sextet c = Some n -> 0 <= n < 64.
Proof. destruct c as [[] [] [] [] [] [] [] []]; vm_compute; try done; intros [= <-]; done. Qed.

Lemma sextets_range s : Forall (fun n => 0 <= n < 64) (sextets s).
Proof.
  induction s as [|c s IH]; [constructor|]. cbn. destruct (Ascii.eqb _ _); [constructor|].
  destruct (char_sextet c) eqn:E; [|done]. constructor; [by eapply char_sextet_range|done].
Qed.

Lemma upper_byte a b : 32 <= a < 64 -> 0 <= b < 64 -> 128 <= Z.lor (Z.shiftl a 2) (Z.shiftr b 4) < 256.
Proof.
  intros Ha Hb.
  pose proof (forall_byte2 (fun a b => negb ((32 <=? a) && (a <? 64) && (b <? 64)) ||
    ((128 <=? Z.lor (Z.shiftl a 2) (Z.shiftr b 4)) && (Z.lor (Z.shiftl a 2) (Z.shiftr b 4) <? 256)))
    ltac:(by vm_compute) a b) as H.
  cbn beta in H. unfold is_byte in H.
  lia.
Qed.

Lemma decode_upper c s : upper_half c = true -> exists m, decodeCursor (String c s) = Throw (invalid_cursor m).
Proof.
  intros Hc. unfold decodeCursor. rewrite decode_text. exists "". unfold b64_decode.
  assert (Ascii.eqb c "="%char = false) as He by (by destruct c as [[] [] [] [] [] [] [] []]).
  cbn [sextets]. change (Ascii.ascii_of_nat 61) with "="%char. rewrite He.
  unfold upper_half in Hc. destruct (char_sextet c) as [a|] eqn:Ea; [|done]. bools.
  apply char_sextet_range in Ea. pose proof (sextets_range s) as Hs.
  destruct (sextets s) as [|b l] eqn:E; [done|]. inversion Hs as [|? ? Hb Hl]; subst.
  assert (exists bs, join_sextets (a :: b :: l) = Z.lor (Z.shiftl a 2) (Z.shiftr b 4) :: bs) as [bs ->].
  { destruct l as [|? [|? ?]]; eexists; reflexivity. }
  cbn [string_of]. rewrite JSON_parse_non_ascii; [done|].
  pose proof (upper_byte a b ltac:(lia) Hb). apply Nat.leb_le.
  unfold Ascii.nat_of_ascii. rewrite Ascii.N_ascii_embedding by lia. lia.
Qed.
