(* ===== verification/JsMap.v ===== *)
(** * JavaScript maps

    [Map] of the language keeps its entries in insertion order: [set] on a
    present key replaces the value in place, on an absent key appends.  The
    relayer's stores iterate over their maps, so the order is part of the
    model.  Keys are strings. *)

From S2P Require Import Prelude.

Section JsMap.
Context {V : Type}.
Implicit Types (m : list (string * V)) (k : string) (v : V).

Fixpoint jm_get k m : option V :=
  match m with
  | [] => None
  | (k', v) :: m' => if String.eqb k' k then Some v else jm_get k m'
  end.

Definition jm_has k m : bool := bool_decide (is_Some (jm_get k m)).

Fixpoint jm_set k v m : list (string * V) :=
  match m with
  | [] => [(k, v)]
  | (k', v') :: m' => if String.eqb k' k then (k', v) :: m' else (k', v') :: jm_set k v m'
  end.

Definition jm_delete k m : list (string * V) :=
  List.filter (fun e => negb (String.eqb e.1 k)) m.

Definition jm_values m : list V := snd <$> m.
Definition jm_keys m : list string := fst <$> m.
Definition jm_size m : Z := Z.of_nat (length m).

(** ** Lookups after updates *)

Lemma jm_get_set k v m : jm_get k (jm_set k v m) = Some v.
Proof.
  induction m as [|[k' v'] m IH]; simpl; [by rewrite String.eqb_refl|].
  destruct (String.eqb k' k) eqn:E; simpl; by rewrite E.
Qed.

Lemma jm_get_set_ne k k' v m : k <> k' -> jm_get k (jm_set k' v m) = jm_get k m.
Proof.
  intros Hne. induction m as [|[k0 v0] m IH]; simpl.
  - destruct (String.eqb_spec k' k); congruence.
  - destruct (String.eqb_spec k0 k') as [->|]; simpl; [|by rewrite IH].
    destruct (String.eqb_spec k' k); congruence.
Qed.

Lemma jm_get_delete k m : jm_get k (jm_delete k m) = None.
Proof.
  induction m as [|[k' v] m IH]; [done|]. unfold jm_delete in *. simpl.
  destruct (String.eqb k' k) eqn:E; simpl; [done|by rewrite E].
Qed.

Lemma jm_get_delete_ne k k' m : k <> k' -> jm_get k (jm_delete k' m) = jm_get k m.
Proof.
  intros Hne. induction m as [|[k0 v] m IH]; [done|]. unfold jm_delete in *. simpl.
  destruct (String.eqb_spec k0 k') as [->|]; simpl; [|by rewrite IH].
  destruct (String.eqb_spec k' k); congruence.
Qed.

Lemma jm_has_get k m : jm_has k m = match jm_get k m with Some _ => true | None => false end.
Proof.
  unfold jm_has. destruct (jm_get k m); [by apply bool_decide_true|].
  apply bool_decide_false. by intros [??].
Qed.

(** ** Keys stay unique *)

Definition jm_ok m : Prop := NoDup (jm_keys m).

Lemma jm_get_None k m : jm_get k m = None <-> k ∉ jm_keys m.
Proof.
  induction m as [|[k' v] m IH]; simpl; [split; [by intros _ ?%elem_of_nil|done]|].
  rewrite not_elem_of_cons. destruct (String.eqb_spec k' k) as [->|]; simpl.
  - split; [done|by intros [? _]].
  - rewrite IH. naive_solver.
Qed.

Lemma jm_get_elem k v m : jm_get k m = Some v -> (k, v) ∈ m.
Proof.
  induction m as [|[k' v'] m IH]; simpl; [done|].
  destruct (String.eqb_spec k' k) as [->|]; intros; simplify_eq; [by left|right; auto].
Qed.

Lemma jm_get_in k v m : jm_ok m -> jm_get k m = Some v <-> (k, v) ∈ m.
Proof.
  intros Hm. split; [apply jm_get_elem|].
  induction m as [|[k' v'] m IH]; [by intros ?%elem_of_nil|].
  apply NoDup_cons in Hm as [Hk Hm]. intros [E|Hin]%elem_of_cons; simpl.
  - simplify_eq. by rewrite String.eqb_refl.
  - destruct (String.eqb_spec k' k) as [->|]; [|by apply IH].
    destruct Hk. apply list_elem_of_fmap. by exists (k, v).
Qed.

Lemma jm_keys_set k v m :
  jm_keys (jm_set k v m) = if jm_has k m then jm_keys m else jm_keys m ++ [k].
Proof.
  rewrite jm_has_get. induction m as [|[k' v'] m IH]; [done|]. simpl.
  destruct (String.eqb k' k) eqn:E; [done|]. simpl. unfold jm_keys in *. simpl.
  rewrite IH. by destruct (jm_get k m).
Qed.

Lemma jm_ok_set k v m : jm_ok m -> jm_ok (jm_set k v m).
Proof.
  unfold jm_ok. rewrite jm_keys_set, jm_has_get. intros Hm.
  destruct (jm_get k m) eqn:E; [done|]. apply jm_get_None in E.
  apply NoDup_app. split_and!; [done|set_solver|apply NoDup_singleton].
Qed.

Lemma jm_keys_delete k m : jm_keys (jm_delete k m) = List.filter (fun k' => negb (String.eqb k' k)) (jm_keys m).
Proof.
  unfold jm_keys, jm_delete. induction m as [|[k' v] m IH]; [done|]. cbn.
  destruct (String.eqb k' k); cbn; [exact IH|f_equal; exact IH].
Qed.

Lemma jm_ok_delete k m : jm_ok m -> jm_ok (jm_delete k m).
Proof.
  unfold jm_ok. rewrite jm_keys_delete. generalize (jm_keys m). intros l Hl.
  apply NoDup_ListNoDup, List.NoDup_filter. by apply NoDup_ListNoDup.
Qed.

Lemma jm_ok_nil : jm_ok [].
Proof. constructor. Qed.

Lemma jm_values_get v m : jm_ok m -> v ∈ jm_values m <-> exists k, jm_get k m = Some v.
Proof.
  intros Hm. unfold jm_values. rewrite list_elem_of_fmap. split.
  - intros ([k v'] & -> & H). exists k. by apply jm_get_in.
  - intros [k H%jm_get_elem]. by exists (k, v).
Qed.
End JsMap.

#[export] Hint Rewrite @jm_get_set @jm_get_delete : jsmap.
#[export] Hint Resolve jm_ok_set jm_ok_delete jm_ok_nil : core.

(** Case analysis on whether two keys coincide. *)
Ltac key_cases k k' :=
  destruct (decide (k = k')) as [->|?];
  [autorewrite with jsmap in *
  |rewrite ?jm_get_set_ne, ?jm_get_delete_ne in * by congruence].

(** ** Object literals *)

(** Members every object literal inherits. *)
Definition PROTOTYPE_MEMBERS : list string :=
  ["constructor"; "__proto__"; "hasOwnProperty"; "isPrototypeOf"; "propertyIsEnumerable"; "toLocaleString"; "toString"; "valueOf";
   "__defineGetter__"; "__defineSetter__"; "__lookupGetter__"; "__lookupSetter__"].
