(* ===== verification/OrderMachine.v ===== *)
(** * The order state machine
    (coordinator/src/state-machine/order-machine.ts).

    The lifecycle table, the three guards built on it, and what the table
    promises: terminal states are absorbing, every order can still reach one,
    a lifecycle has at most four transitions, and no order completes without
    having been locked and having had its secret revealed. *)

From S2P Require Import Prelude.

(** [OrderStatus] of persistence/orders-repo.ts. *)
Inductive OrderStatus : Type :=
| announced
| src_locked
| dst_locked
| secret_revealed
| completed
| refunded
| failed
| expired
| cancelled
| abandoned.

#[export] Instance OrderStatus_eq_dec : EqDecision OrderStatus.
Proof. solve_decision. Defined.

Definition all_statuses : list OrderStatus :=
  [announced; src_locked; dst_locked; secret_revealed; completed; refunded; failed; expired;
   cancelled; abandoned].

#[export] Program Instance OrderStatus_finite : finite.Finite OrderStatus :=
  {| finite.enum := all_statuses |}.
Next Obligation. apply (bool_decide_unpack _). by vm_compute. Qed.
Next Obligation. intros s. apply (bool_decide_unpack _). by destruct s. Qed.

(** The string literal of a status. *)
Definition status_str (s : OrderStatus) : string :=
  match s with
  | announced => "announced"
  | src_locked => "src_locked"
  | dst_locked => "dst_locked"
  | secret_revealed => "secret_revealed"
  | completed => "completed"
  | refunded => "refunded"
  | failed => "failed"
  | expired => "expired"
  | cancelled => "cancelled"
  | abandoned => "abandoned"
  end.

Definition ORDER_STATUS_TRANSITIONS (from : OrderStatus) : list OrderStatus :=
  match from with
  | announced => [src_locked; cancelled; abandoned; failed; expired]
  | src_locked => [dst_locked; secret_revealed; refunded; failed; expired]
  | dst_locked => [secret_revealed; refunded; failed; expired]
  | secret_revealed => [completed; refunded; failed]
  | completed => []
  | refunded => []
  | failed => []
  | expired => [refunded; failed]
  | cancelled => []
  | abandoned => []
  end.

Definition canTransition (from to : OrderStatus) : bool :=
  existsb (fun s => bool_decide (s = to)) (ORDER_STATUS_TRANSITIONS from).

Definition isTerminal (status : OrderStatus) : bool :=
  match ORDER_STATUS_TRANSITIONS status with [] => true | _ => false end.

(** The message of [InvalidTransitionError]. *)
Definition InvalidTransitionError (from to : OrderStatus) : JsError :=
  PlainError None ("Invalid order transition: " +:+ status_str from +:+ " -> " +:+ status_str to).

(** [requireTransition] counts the rejected pair before it throws; the state
    is the list of pairs the counter [orderInvalidTransitions] was increased
    for. *)
Definition requireTransition (from to : OrderStatus) : ST (list (OrderStatus * OrderStatus)) JsError unit :=
  if negb (canTransition from to)
  then modify (fun cs => (from, to) :: cs) ≫= (fun _ => throw (InvalidTransitionError from to))
  else mret tt.

(** ** The lifecycle as a relation *)

Definition step (a b : OrderStatus) : Prop := canTransition a b = true.

(** How many transitions are still possible from a status. *)
Definition rank (s : OrderStatus) : nat :=
  match s with
  | announced => 4
  | src_locked => 3
  | dst_locked => 2
  | secret_revealed | expired => 1
  | _ => 0
  end.

Lemma step_rank a b : step a b -> (rank b < rank a)%nat.
Proof. by destruct a, b; vm_compute; intros; try lia. Qed.

Lemma isTerminal_rank s : isTerminal s = true <-> rank s = 0%nat.
Proof. by destruct s; vm_compute; split. Qed.

Lemma isTerminal_no_step s t : isTerminal s = true -> canTransition s t = false.
Proof. by destruct s, t. Qed.
#[export] Hint Resolve isTerminal_no_step : coord.

Lemma canTransition_irrefl s : canTransition s s = false.
Proof. by destruct s. Qed.

(** A path of the lifecycle that never visits [x] after its start. *)
Definition step_avoiding (x a b : OrderStatus) : Prop := step a b /\ b <> x.

(** The statuses [completed] cannot be reached from without visiting [x]. *)
Lemma avoiding_closed (x : OrderStatus) (P : OrderStatus -> bool) (a b : OrderStatus) :
  (forall s t, P s = true -> canTransition s t = true -> t <> x -> P t = true) ->
  P a = true -> rtc (step_avoiding x) a b -> P b = true.
Proof. intros Hcl Ha. induction 1 as [s|s t u [Hst Hx] _ IH]; eauto. Qed.

(** [requireTransition] throws exactly on the pairs outside the table, and a
    rejected pair is counted once. *)
Lemma requireTransition_spec from to cs :
  requireTransition from to cs =
  if canTransition from to then (Ok tt, cs)
  else (Throw (InvalidTransitionError from to), (from, to) :: cs).
Proof. unfold requireTransition. by destruct (canTransition from to). Qed.

(** C1.  Bounded lifecycle: a run of the state machine from status [a] makes
    at most [rank a] transitions, so no order makes more than four, and every
    run can be continued to a terminal status, after which no transition is
    possible. *)
Theorem lifecycle_bounded_and_terminating :
  (forall n a b, nsteps step n a b -> (n + rank b <= rank a)%nat) /\
  (forall a, exists b, rtc step a b /\ isTerminal b = true) /\
  (forall a b, isTerminal a = true -> rtc step a b -> b = a).
Proof.
  repeat split.
  - intros n a b. induction 1 as [|n a b c Hab _ IH]; [lia|].
    apply step_rank in Hab. lia.
  - intros a. exists (if bool_decide (a = announced) then cancelled
                      else if isTerminal a then a else failed).
    destruct a; vm_compute; (split; [|done]);
      first [apply rtc_refl | by apply rtc_once].
  - intros a b Ha Hab. destruct Hab as [|a c b Hac _]; [done|].
    unfold step in Hac. by rewrite isTerminal_no_step in Hac.
Qed.

(** No completion without locks and secret: every lifecycle that takes an
    announced order to [completed] passes through [src_locked] and through
    [secret_revealed]; dropping either status from the machine makes
    [completed] unreachable.  Likewise a refund always follows a source lock
    or a timelock expiry. *)
Lemma completed_requires_lock_and_secret :
  ~ rtc (step_avoiding src_locked) announced completed /\
  ~ rtc (step_avoiding secret_revealed) announced completed /\
  (forall s, step s refunded -> s <> announced) /\
  (forall s, step s completed -> s = secret_revealed).
Proof.
  repeat split.
  - intros H. apply (avoiding_closed _
      (fun s => bool_decide (s ∈ [announced; cancelled; abandoned; failed; expired; refunded])))
      in H; [done| |done]. intros [] []; vm_compute; congruence.
  - intros H. apply (avoiding_closed _
      (fun s => negb (bool_decide (s ∈ [secret_revealed; completed])))) in H; [done| |done].
    intros [] []; vm_compute; congruence.
  - by intros [].
  - by intros [].
Qed.
