(* ===== verification/SdkStateMachine.v ===== *)
(** * The SDK's order state machine (packages/sdk/src/state-machine/index.ts).

    The SDK carries its own copy of the lifecycle table together with the
    guard rails services use on top of it.  The coordinator's table is
    pinned to this one. *)

From S2P Require Import Prelude OrderMachine.

Module Sdk.

Definition ORDER_STATUS_TRANSITIONS (from : OrderStatus) : list OrderStatus :=
  match from with
  | announced => [src_locked; cancelled; abandoned; failed; expired]
  | src_locked => [dst_locked; secret_revealed; refunded; failed; expired]
  | dst_locked => [secret_revealed; refunded; failed; expired]
  | secret_revealed => [completed; refunded; failed]
  | completed => []
  | refunded => []
  | failed => []
  | expired => [refunded; failed]
  | cancelled => []
  | abandoned => []
  end.

(** [InvalidTransitionError] with its optional reason. *)
Definition InvalidTransitionError (from to : OrderStatus) (reason : option string) : JsError :=
  PlainError None
    ("Invalid order transition: " +:+ status_str from +:+ " -> " +:+ status_str to +:+
     match reason with
     | Some r => if truthy_string r then " (" +:+ r +:+ ")" else ""
     | None => ""
     end).

Definition canTransition (from to : OrderStatus) : bool :=
  existsb (fun s => bool_decide (s = to)) (ORDER_STATUS_TRANSITIONS from).

Definition requireTransition (from to : OrderStatus) : outcome JsError unit :=
  if negb (canTransition from to)
  then Throw (InvalidTransitionError from to None)
  else Ok tt.

Definition isTerminal (status : OrderStatus) : bool :=
  Nat.eqb (length (ORDER_STATUS_TRANSITIONS status)) 0.

(** The optional [context] argument; each flag may be missing. *)
Record GuardContext : Type := mkGuardContext {
  srcLocked : option bool;
  dstLocked : option bool;
  secretRevealed : option bool
}.

(** [context?.flag] used as a condition. *)
Definition flag (f : GuardContext -> option bool) (context : option GuardContext) : bool :=
  default false (context ≫= f).

Definition validateTransitionGuards (from to : OrderStatus) (context : option GuardContext)
  : outcome JsError unit :=
  if bool_decide (to = completed) && negb (flag srcLocked context) then
    Throw (InvalidTransitionError from to (Some "source leg was never locked"))
  else if bool_decide (to = completed) && negb (flag dstLocked context) then
    Throw (InvalidTransitionError from to (Some "destination leg was never locked"))
  else if bool_decide (to = completed) && negb (flag secretRevealed context) then
    Throw (InvalidTransitionError from to (Some "secret was never revealed"))
  else if bool_decide (to = refunded) && bool_decide (from = announced) then
    Throw (InvalidTransitionError from to (Some "cannot refund before source lock"))
  else if isTerminal from && negb (bool_decide (from = to)) then
    Throw (InvalidTransitionError from to (Some (status_str from +:+ " is a terminal state")))
  else Ok tt.

Definition requireValidTransition (from to : OrderStatus) (context : option GuardContext)
  : outcome JsError unit :=
  match requireTransition from to with
  | Ok _ => validateTransitionGuards from to context
  | Throw e => Throw e
  end.

Definition nextStatesOf (status : OrderStatus) : list OrderStatus :=
  ORDER_STATUS_TRANSITIONS status.

(** The SDK and the coordinator run the same machine, and the SDK's full
    validation accepts exactly the table's transitions, with the one extra
    demand that completing an order needs both legs locked and the secret
    revealed: on every other allowed transition the guard rails are
    redundant. *)
Lemma sdk_machine_conformance (from to : OrderStatus) (context : option GuardContext) :
  canTransition from to = OrderMachine.canTransition from to /\
  isTerminal from = OrderMachine.isTerminal from /\
  nextStatesOf from = OrderMachine.ORDER_STATUS_TRANSITIONS from /\
  (requireValidTransition from to context = Ok tt <->
   OrderMachine.canTransition from to = true /\
   (to = completed ->
    flag srcLocked context = true /\ flag dstLocked context = true /\
    flag secretRevealed context = true)).
Proof.
  split_and!; [by destruct from, to | by destruct from | by destruct from |].
  unfold requireValidTransition, requireTransition, validateTransitionGuards.
  destruct (flag srcLocked context), (flag dstLocked context), (flag secretRevealed context);
    destruct from, to; vm_compute; naive_solver.
Qed.

End Sdk.
