(* ===== verification/TransactionContract.v ===== *)
(** * The repository's transaction seam
    (coordinator/src/persistence/transaction-contract.ts and
    [PostgresDatabase.transaction] of persistence/db.ts).

    A multi-statement write is run inside a database transaction inside a
    retry loop.  A connection is a small engine: the data it reads and writes,
    the data at [BEGIN] while a transaction is open, and the faults that the
    engine raises on [BEGIN], [COMMIT] and [ROLLBACK] (consumed one per
    statement; an exhausted list means no more faults), so that the theorems
    cover every failure schedule.  A fault leaves an open transaction as it is,
    or ends it, as SQLite does for a full disk or an I/O error.  An engine error
    inside the callback is a throw of the callback. *)

From S2P Require Import Prelude.

Inductive Stmt : Type := BEGIN | COMMIT | ROLLBACK.
#[export] Instance Stmt_eq_dec : EqDecision Stmt.
Proof. solve_decision. Defined.
Inductive Fault : Type := Fails (e : JsError) | Aborts (e : JsError).

Section Transactions.
Context {D : Type}.

Record Conn : Type := mkConn {
  store : D;
  (** The data at [BEGIN], while a transaction is open. *)
  cn_open : option D;
  faults : list (option Fault);
  (** The statements so far, latest first, and whether they succeeded. *)
  cn_trace : list (Stmt * bool);
  (** [recordRetry]: operation, attempt and whether the message named a
      deadlock. *)
  retries : list (string * nat * bool)
}.

(** What other connections see, and what is left when this one is lost. *)
Definition committed (c : Conn) : D := default (store c) (cn_open c).

Definition with_store (c : Conn) (d : D) : Conn := mkConn d (cn_open c) (faults c) (cn_trace c) (retries c).

(** A statement without a fault. *)
Definition engine (st : Stmt) (d : D) (o : option D) : outcome JsError (D * option D) :=
  match st, o with
  | BEGIN, None => Ok (d, Some d)
  | BEGIN, Some _ => Throw (PlainError None "cannot start a transaction within a transaction")
  | COMMIT, Some _ => Ok (d, None)
  | COMMIT, None => Throw (PlainError None "cannot commit - no transaction is active")
  | ROLLBACK, Some d0 => Ok (d0, None)
  | ROLLBACK, None => Throw (PlainError None "cannot rollback - no transaction is active")
  end.

(** [db.exec(sql)] for a transaction-control statement. *)
Definition exec (st : Stmt) : ST Conn JsError unit := fun c =>
  let after ok d o := mkConn d o (tail (faults c)) ((st, ok) :: cn_trace c) (retries c) in
  match head (faults c) with
  | Some (Some (Fails e)) => (Throw e, after false (store c) (cn_open c))
  | Some (Some (Aborts e)) => (Throw e, after false (committed c) None)
  | Some None | None =>
      match engine st (store c) (cn_open c) with
      | Ok (d, o) => (Ok tt, after true d o)
      | Throw e => (Throw e, after false (store c) (cn_open c))
      end
  end.

(** Run a computation on the data alone. *)
Definition on_store {A} (fn : ST D JsError A) : ST Conn JsError A :=
  zoom store (fun d c => with_store c d) fn.

(** The [catch] block: [ROLLBACK], whose own failure is ignored. *)
Definition roll_back {A} (err : JsError) : ST Conn JsError A :=
  try_catch (exec ROLLBACK) (fun _ => mret tt) ≫= (fun _ => throw err).

(** [runInSyncTransaction]: [BEGIN IMMEDIATE], the callback, [COMMIT]. *)
Definition runInSyncTransaction {A} (fn : ST D JsError A) : ST Conn JsError A :=
  exec BEGIN ≫= (fun _ =>
    try_catch (on_store fn ≫= (fun result => exec COMMIT ≫= (fun _ => mret result))) roll_back).

(** [PostgresDatabase.transaction], as [runInTransaction] calls it.  Only the
    control statements run on the client: the callback ignores the connection it
    is handed, so its statements run on the pool, outside the transaction.
    [pool.connect()] may fail too. *)
Definition pool_connect : ST Conn JsError unit := fun c =>
  let c' := mkConn (store c) (cn_open c) (tail (faults c)) (cn_trace c) (retries c) in
  match head (faults c) with Some (Some (Fails e)) | Some (Some (Aborts e)) => (Throw e, c') | _ => (Ok tt, c') end.
Definition client_query (st : Stmt) : ST Conn JsError unit := fun c =>
  let after ok := mkConn (store c) (cn_open c) (tail (faults c)) ((st, ok) :: cn_trace c) (retries c) in
  match head (faults c) with Some (Some (Fails e)) | Some (Some (Aborts e)) => (Throw e, after false) | _ => (Ok tt, after true) end.
Definition nativeTransaction {A} (fn : ST D JsError A) : ST Conn JsError A :=
  pool_connect ≫= (fun _ =>
    try_catch
      (client_query BEGIN ≫= (fun _ => on_store fn ≫= (fun result => client_query COMMIT ≫= (fun _ => mret result))))
      (fun err => try_catch (client_query ROLLBACK) (fun _ => mret tt) ≫= (fun _ => throw err))).

(** The options of [InMemoryRepositoryTransaction]. *)
Record Options : Type := mkOptions {
  maxAttempts : nat;
  retryableErrors : list string
}.

Definition defaultOptions : Options :=
  mkOptions 3 ["SQLITE_BUSY"; "SQLITE_LOCKED"; "database is locked"; "deadlock"; "lock timeout"].

Definition explicitTokens : list string :=
  ["sqlite_busy"; "sqlite_locked"; "database is locked"; "deadlock"; "lock timeout"].

Definition shouldRetry (o : Options) (message : string) : bool :=
  let lowered := toLowerCase message in
  existsb (fun token => includes lowered token) explicitTokens ||
  existsb (fun token => includes lowered (toLowerCase token)) (retryableErrors o).

Definition recordRetry (operation message : string) (attempt : nat) : ST Conn JsError unit :=
  modify (fun c => mkConn (store c) (cn_open c) (faults c) (cn_trace c)
                     ((operation, attempt, includes (toLowerCase message) "deadlock") :: retries c)).

(** [options.run]: what wraps an attempt; by default nothing. *)
Definition RunImpl : Type := forall A, string -> ST Conn JsError A -> ST Conn JsError A.
Definition defaultRun : RunImpl := fun A operation fn => fn.

(** The [while (attempt < maxAttempts)] loop of [runWithRetry]: [left] is
    the number of attempts left, [lastError] what the previous one threw. *)
Fixpoint retry_loop {A} (run : RunImpl) (o : Options) (operation : string) (fn : ST Conn JsError A)
    (left attempt : nat) (lastError : JsError) : ST Conn JsError A :=
  match left with
  | O => throw lastError
  | S left' =>
      try_catch (run A operation fn) (fun error =>
        if negb (shouldRetry o (error_message error)) then throw error
        else recordRetry operation (error_message error) (S attempt) ≫= (fun _ =>
             retry_loop run o operation fn left' (S attempt) error))
  end.

Definition runWithRetry {A} (run : RunImpl) (o : Options) (operation : string) (fn : ST Conn JsError A)
  : ST Conn JsError A :=
  retry_loop run o operation fn (maxAttempts o) 0 (PlainError None "undefined").

(** What the connection can do: a native [transaction()] (Postgres), a
    synchronous [exec()] (SQLite), or neither (a test double). *)
Inductive Backend : Type := NativeTransaction | SyncExec | NoTransaction.

Definition runInTransaction {A} (run : RunImpl) (b : Backend) (o : Options) (operation : string)
    (fn : ST D JsError A) : ST Conn JsError A :=
  match b with
  | NativeTransaction => runWithRetry run o operation (nativeTransaction fn)
  | SyncExec => runWithRetry run o operation (runInSyncTransaction fn)
  | NoTransaction => runWithRetry run o operation (on_store fn)
  end.

(** ** The specification: all or nothing *)

Definition atomically {A} (fn : ST D JsError A) : ST D JsError A := fun d =>
  match fn d with
  | (Ok a, d') => (Ok a, d')
  | (Throw e, _) => (Throw e, d)
  end.

(** How often a statement was run. *)
Definition times (st : Stmt) (t : list (Stmt * bool)) : nat := length (List.filter (fun e => bool_decide (e.1 = st)) t).

(** What an attempt, or a whole call, may do to a connection: the result, the
    statements it adds, and that a transaction is left open only if it was open
    before or a [ROLLBACK] failed. *)
Definition all_or_nothing {A} (fn : ST D JsError A) (begins : nat) (c : Conn) (r : outcome JsError A * Conn) : Prop :=
  let '(x, c') := r in
  match x with
  | Ok a => fn (committed c) = (Ok a, committed c') /\ cn_open c' = None
  | Throw _ => committed c' = committed c
  end /\
  exists new, cn_trace c' = new ++ cn_trace c /\ (times BEGIN new <= begins)%nat /\
    (cn_open c' <> None -> cn_open c <> None \/ (ROLLBACK, false) ∈ new).

(** Faults come one by one; a statement records itself. *)
Lemma exec_spec st c :
  let '(r, c') := exec st c in
  cn_trace c' = (st, match r with Ok _ => true | Throw _ => false end) :: cn_trace c /\ retries c' = retries c /\
  match r with
  | Ok _ => engine st (store c) (cn_open c) = Ok (store c', cn_open c')
  | Throw _ => committed c' = committed c /\ (cn_open c' = cn_open c \/ cn_open c' = None)
  end.
Proof.
  unfold exec. destruct (head (faults c)) as [[[e|e]|]|]; cbn; [by auto..| |];
    (destruct (engine st (store c) (cn_open c)) as [[d o]|e] eqn:E; cbn; [done|by auto]).
Qed.

Lemma times_app st t1 t2 : times st (t1 ++ t2) = (times st t1 + times st t2)%nat.
Proof. unfold times. by rewrite List.filter_app, length_app. Qed.

(** [ROLLBACK] after a failure inside a transaction. *)
Lemma rollback_spec {A} (err : JsError) c :
  let '(r, c') := roll_back (A := A) err c in
  r = Throw err /\ committed c' = committed c /\
  exists b, cn_trace c' = (ROLLBACK, b) :: cn_trace c /\ (cn_open c' <> None -> b = false).
Proof.
  pose proof (exec_spec ROLLBACK c) as H. unfold roll_back. st_unfold. destruct (exec ROLLBACK c) as [[[]|e] c']; destruct H as (Ht & _ & H); cbn.
  - split; [done|]. destruct (cn_open c) as [d|] eqn:Eo; [|done]. injection H as H1 H2. unfold committed. rewrite <- H2, <- H1, Eo.
    split; [done|]. exists true. by split.
  - destruct H as [H _]. split; [done|]. split; [done|]. by exists false.
Qed.

(** One attempt commits the callback's effect or leaves the committed data alone. *)
Lemma runInSyncTransaction_atomic {A} (fn : ST D JsError A) c : all_or_nothing fn 1 c (runInSyncTransaction fn c).
Proof.
  unfold runInSyncTransaction. unfold mbind at 1, st_bind at 1. pose proof (exec_spec BEGIN c) as Hb.
  destruct (exec BEGIN c) as [[[]|e] c1]; destruct Hb as (Ht1 & _ & Hb); cbn [all_or_nothing].
  2:{ destruct Hb as [H1 H2]. split; [done|]. exists [(BEGIN, false)]. split; [done|]. split; [done|]. intros Ho. left. destruct H2 as [<-|H2]; [done|congruence]. }
  destruct (cn_open c) as [d|] eqn:Eo; [done|]. injection Hb as Hs1 Ho1. assert (committed c = store c) as Hc by (unfold committed; by rewrite Eo).
  unfold try_catch at 1, on_store, zoom. unfold mbind at 1, st_bind at 1. rewrite <- Hs1. destruct (fn (store c)) as [[a|e] d'] eqn:Hfn.
  - unfold mbind, st_bind at 1. pose proof (exec_spec COMMIT (with_store c1 d')) as H2. destruct (exec COMMIT (with_store c1 d')) as [[[]|e] c2]; destruct H2 as (Ht2 & _ & H2).
    + cbn in *. rewrite <- Ho1 in H2. injection H2 as H3 H4. split.
      * rewrite Hc, Hfn. unfold committed. by rewrite <- H4, <- H3.
      * exists [(COMMIT, true); (BEGIN, true)]. rewrite Ht2, Ht1. split; [done|]. split; [done|]. by rewrite <- H4.
    + pose proof (rollback_spec (A := A) e c2) as H3. destruct (roll_back e _) as [x c3].
      destruct H3 as (-> & H4 & b & Ht3 & Hb). destruct H2 as [H2 _]. split.
      * rewrite H4, H2, Hc. unfold committed. cbn. by rewrite <- Ho1.
      * exists [(ROLLBACK, b); (COMMIT, false); (BEGIN, true)]. rewrite Ht3, Ht2. cbn [with_store cn_trace]. rewrite Ht1. split; [done|]. split; [done|].
        intros Ho. right. rewrite (Hb Ho). left.
  - pose proof (rollback_spec (A := A) e (with_store c1 d')) as H3. destruct (roll_back e _) as [x c3].
    destruct H3 as (-> & H4 & b & Ht3 & Hb). split.
    + rewrite H4, Hc. unfold committed. cbn. by rewrite <- Ho1.
    + exists [(ROLLBACK, b); (BEGIN, true)]. rewrite Ht3. cbn [with_store cn_trace]. rewrite Ht1. split; [done|]. split; [done|].
      intros Ho. right. rewrite (Hb Ho). left.
Qed.

Lemma retry_loop_atomic {A} o op (fn : ST D JsError A) left attempt e0 c :
  all_or_nothing fn left c (retry_loop defaultRun o op (runInSyncTransaction fn) left attempt e0 c).
Proof.
  revert attempt e0 c. induction left as [|left IH]; intros attempt e0 c; cbn [retry_loop].
  { split; [done|]. exists []. split; [done|]. split; [done|]. by left. }
  unfold try_catch at 1, defaultRun at 1. pose proof (runInSyncTransaction_atomic fn c) as Hat.
  destruct (runInSyncTransaction fn c) as [[a|e] c1]; destruct Hat as [H1 (new & Ht & Hn & Ho)].
  { split; [done|]. exists new. split; [done|]. split; [lia|done]. }
  destruct (negb (shouldRetry o (error_message e))).
  { split; [done|]. exists new. split; [done|]. split; [lia|done]. }
  unfold mbind, st_bind, recordRetry, modify. set (c2 := mkConn _ _ _ _ _). specialize (IH (S attempt) e c2). unfold all_or_nothing in *.
  change (committed c2) with (committed c1) in IH. rewrite H1 in IH. change (cn_trace c2) with (cn_trace c1) in IH. change (cn_open c2) with (cn_open c1) in IH.
  destruct (retry_loop _ o op _ left (S attempt) e c2) as [x c3]. destruct IH as [H2 (new' & Ht' & Hn' & Ho')]. split; [done|].
  exists (new' ++ new). rewrite Ht', Ht, (assoc_L (++)). split; [done|]. rewrite times_app. split; [lia|].
  intros Hx. destruct (Ho' Hx) as [H|H]; [destruct (Ho H) as [?|?]; [by left|]|]; right; apply elem_of_app; auto.
Qed.

(** Without faults, and with no transaction open, an attempt is the specification. *)
Lemma runInSyncTransaction_no_faults {A} (fn : ST D JsError A) c :
  faults c = [] -> cn_open c = None ->
  let '(r, c') := runInSyncTransaction fn c in
  (r, store c') = atomically fn (store c) /\ faults c' = [] /\ cn_open c' = None.
Proof.
  intros Hf Ho. unfold runInSyncTransaction, atomically, on_store, exec. st_unfold. destruct c as [d o fs t rs]; cbn in *; subst. cbn.
  by destruct (fn d) as [[a|e] d'].
Qed.

Lemma retry_loop_no_faults {A} o op (fn : ST D JsError A) left attempt e0 c :
  faults c = [] -> cn_open c = None ->
  let '(r, c') := retry_loop defaultRun o op (runInSyncTransaction fn) (S left) attempt e0 c in
  (r, store c') = atomically fn (store c) /\ faults c' = [] /\ cn_open c' = None.
Proof.
  revert attempt e0 c. induction left as [|left IH]; intros attempt e0 c Hf Ho; cbn [retry_loop]; unfold try_catch at 1, defaultRun at 1;
    pose proof (runInSyncTransaction_no_faults fn c Hf Ho) as H; destruct (runInSyncTransaction fn c) as [[a|e] c1]; try done;
    destruct H as (H1 & H2 & H3); (destruct (negb _); [done|]); unfold mbind, st_bind, recordRetry, modify.
  - done.
  - assert (store c1 = store c) as E by (unfold atomically in H1; destruct (fn (store c)) as [[a|e'] d]; by injection H1).
    set (c2 := mkConn _ _ _ _ _). specialize (IH (S attempt) e c2 H2 H3). change (store c2) with (store c1) in IH. rewrite E in IH. exact IH.
Qed.

(** ** Transactions one after another *)

Fixpoint run_all {A} (o : Options) (l : list (string * ST D JsError A)) (c : Conn) : list (outcome JsError A) * Conn :=
  match l with
  | [] => ([], c)
  | (op, fn) :: rest =>
      let '(r, c) := runInTransaction defaultRun SyncExec o op fn c in
      let '(rs, c) := run_all o rest c in (r :: rs, c)
  end.

(** A serial run: each write that returned took effect as a whole, in order, and
    no other did anything. *)
Fixpoint serial {A} (l : list (string * ST D JsError A)) (rs : list (outcome JsError A)) (d d' : D) : Prop :=
  match l, rs with
  | [], [] => d' = d
  | (_, fn) :: l, Ok a :: rs => (fn d).1 = Ok a /\ serial l rs (fn d).2 d'
  | _ :: l, Throw _ :: rs => serial l rs d d'
  | _, _ => False
  end.

Fixpoint run_atomically {A} (l : list (string * ST D JsError A)) (d : D) : list (outcome JsError A) * D :=
  match l with
  | [] => ([], d)
  | (_, fn) :: rest => let '(r, d) := atomically fn d in let '(rs, d) := run_atomically rest d in (r :: rs, d)
  end.

Lemma run_all_serial {A} o (l : list (string * ST D JsError A)) c :
  let '(rs, c') := run_all o l c in serial l rs (committed c) (committed c').
Proof.
  revert c. induction l as [|[op fn] l IH]; intros c; [done|]. cbn [run_all].
  pose proof (retry_loop_atomic o op fn (maxAttempts o) 0 (PlainError None "undefined") c) as H.
  unfold runInTransaction, runWithRetry. destruct (retry_loop _ _ _ _ _ _ _ c) as [r c1]. specialize (IH c1). destruct (run_all o l c1) as [rs c2].
  destruct H as [H _]. destruct r as [a|e]; cbn.
  - destruct H as [H _]. rewrite H. done.
  - by rewrite <- H.
Qed.

Lemma run_all_no_faults {A} o (l : list (string * ST D JsError A)) c :
  (0 < maxAttempts o)%nat -> faults c = [] -> cn_open c = None ->
  let '(rs, c') := run_all o l c in (rs, store c') = run_atomically l (store c) /\ cn_open c' = None.
Proof.
  intros Hm. revert c. induction l as [|[op fn] l IH]; intros c Hf Ho; [done|]. cbn [run_all run_atomically]. unfold runInTransaction, runWithRetry.
  destruct (maxAttempts o) as [|n]; [lia|]. pose proof (retry_loop_no_faults o op fn n 0 (PlainError None "undefined") c Hf Ho) as H.
  destruct (retry_loop _ _ _ _ _ _ _ c) as [r c1]. destruct H as (H1 & H2 & H3). specialize (IH c1 H2 H3). destruct (run_all o l c1) as [rs c2].
  destruct IH as [H4 H5]. rewrite <- H1. rewrite <- H4. done.
Qed.
End Transactions.

Arguments Conn : clear implicits.
Arguments mkConn {D} _ _ _ _ _.
Arguments defaultRun {D} _ _ _.

(** C4.  Atomic repository writes on SQLite: for every callback, every state of the
    connection, every schedule of engine faults - on [BEGIN], [COMMIT] and
    [ROLLBACK], ending the transaction or leaving it open - and every retry policy,
    [runInTransaction] (with no [run] option) either returns a value, and then the
    committed data is exactly what one complete run of the callback makes of the
    data committed before, and no transaction is open; or it throws, and the
    committed data is as before.  It begins at most [maxAttempts] transactions, and
    leaves one open only if one was open before or a [ROLLBACK] failed. *)
Theorem runInTransaction_atomic {D A : Type} (o : Options) (op : string) (fn : ST D JsError A) (c : Conn D) :
  let '(r, c') := runInTransaction defaultRun SyncExec o op fn c in
  match r with
  | Ok a => fn (committed c) = (Ok a, committed c') /\ cn_open c' = None
  | Throw _ => committed c' = committed c
  end /\
  exists new, cn_trace c' = new ++ cn_trace c /\ (times BEGIN new <= maxAttempts o)%nat /\
    (cn_open c' <> None -> cn_open c <> None \/ (ROLLBACK, false) ∈ new).
Proof. exact (retry_loop_atomic o op fn (maxAttempts o) 0 (PlainError None "undefined") c). Qed.

(** C5.  Transactions one after another on one connection refine a serial run of
    whole writes.  Whatever faults the engine raises, the committed data at the end
    is that of running, in order and each on the data the one before left, exactly
    the callbacks whose call returned, with the values they returned.  When the
    engine raises no fault, no transaction was open and at least one attempt is
    allowed, every call gives what the all-or-nothing specification [atomically]
    gives, and no transaction is left open. *)
Theorem runInTransaction_refines_atomically {D A : Type} (o : Options) (l : list (string * ST D JsError A)) (c : Conn D) :
  let '(rs, c') := run_all o l c in
  serial l rs (committed c) (committed c') /\
  ((0 < maxAttempts o)%nat -> faults c = [] -> cn_open c = None -> (rs, store c') = run_atomically l (store c) /\ cn_open c' = None).
Proof.
  pose proof (run_all_serial o l c) as H1. pose proof (run_all_no_faults o l c) as H2. destruct (run_all o l c) as [rs c']. by split.
Qed.

(** A write, and a write that then fails. *)
Definition write_one : ST Z JsError unit := modify (fun n => n + 1).
Definition write_then_fail : ST Z JsError unit :=
  write_one ≫= (fun _ => throw (PlainError None "connection reset")).

Lemma runInTransaction_refines_atomically_witness :
  let '(rs, c') := run_all defaultOptions [("a", write_one); ("b", write_then_fail); ("c", write_one)] (mkConn 7 None [] [] []) in
  (rs, store c') = ([Ok tt; Throw (PlainError None "connection reset"); Ok tt], 9).
Proof.
  pose proof (runInTransaction_refines_atomically defaultOptions [("a", write_one); ("b", write_then_fail); ("c", write_one)] (mkConn 7 None [] [] [])) as H.
  destruct (run_all _ _ _) as [rs c']. destruct H as [_ H]. apply H; [vm_compute; lia|reflexivity|reflexivity].
Defined.

(** When [ROLLBACK] fails the transaction stays open: the data written so far is
    seen on the connection but not committed, and every later write on it is
    refused without being retried. *)
Theorem failed_rollback_blocks_writes :
  let '(rs, c') := run_all defaultOptions [("a", write_then_fail); ("b", write_one)]
                     (mkConn 7 None [None; Some (Fails (PlainError None "disk I/O error"))] [] []) in
  rs = [Throw (PlainError None "connection reset"); Throw (PlainError None "cannot start a transaction within a transaction")] /\
  store c' = 8 /\ committed c' = 7 /\ retries c' = [].
Proof. by vm_compute. Qed.

(** On Postgres the callback's statements run on the pool instead of the
    transaction's client, so a failing multi-statement write keeps the part
    it had done and every retry adds to it: three attempts of a write that
    fails after its first statement leave that statement applied three
    times. *)
Theorem postgres_write_not_rolled_back :
  let '(r, c') := runInTransaction defaultRun NativeTransaction defaultOptions "w"
    (write_one ≫= (fun _ => throw (PlainError None "deadlock detected")) : ST Z JsError unit) (mkConn 7 None [] [] []) in
  r = Throw (PlainError None "deadlock detected") /\ committed c' = 10 /\ retries c' = [("w", 3%nat, true); ("w", 2%nat, true); ("w", 1%nat, true)].
Proof. by vm_compute. Qed.
