(* ===== verification/OrderRow.v ===== *)
(** * The orders table (coordinator/src/persistence/orders-repo.ts,
    migrations/).

    The data the repository keeps: rows of [orders] with the [SET] clauses of
    the repository's [UPDATE] statements as functions on rows, the
    [order_events] trail, the idempotence ledger [processed_events], the
    chain cursors and the Soroban checkpoints. *)

From S2P Require Import Prelude OrderMachine.

Inductive Chain : Type := ethereum | stellar | solana.
Inductive Direction : Type := eth_to_xlm | xlm_to_eth | eth_to_sol | sol_to_eth.
Inductive SorobanRecoveryMarker : Type := clean | pending_replay | recovering.

#[export] Instance Chain_eq_dec : EqDecision Chain.
Proof. solve_decision. Defined.
#[export] Instance Direction_eq_dec : EqDecision Direction.
Proof. solve_decision. Defined.
#[export] Instance SorobanRecoveryMarker_eq_dec : EqDecision SorobanRecoveryMarker.
Proof. solve_decision. Defined.

Definition chain_str (c : Chain) : string :=
  match c with ethereum => "ethereum" | stellar => "stellar" | solana => "solana" end.

Definition direction_str (d : Direction) : string :=
  match d with
  | eth_to_xlm => "eth_to_xlm"
  | xlm_to_eth => "xlm_to_eth"
  | eth_to_sol => "eth_to_sol"
  | sol_to_eth => "sol_to_eth"
  end.

#[export] Instance Chain_countable : Countable Chain.
Proof.
  refine (inj_countable'
    (fun c => match c with ethereum => 0%nat | stellar => 1%nat | solana => 2%nat end)
    (fun n => match n with 0%nat => ethereum | 1%nat => stellar | _ => solana end) _).
  by intros [].
Defined.

(** A row of the [orders] table. *)
Record OrderDbRow : Type := mkOrderDbRow {
  row_id : Z;
  public_id : string;
  direction : Direction;
  status : OrderStatus;
  hashlock : string;
  src_chain : Chain;
  src_address : string;
  src_asset : string;
  src_amount : string;
  src_safety_deposit : string;
  src_order_id : option string;
  src_lock_tx : option string;
  src_lock_block : option Z;
  src_timelock : option Z;
  dst_chain : Chain;
  dst_address : string;
  dst_asset : string;
  dst_amount : string;
  dst_order_id : option string;
  dst_lock_tx : option string;
  dst_lock_block : option Z;
  dst_timelock : option Z;
  preimage : option string;
  preimage_enc_version : option Z;
  secret_revealed_tx : option string;
  resolver_address : option string;
  last_eth_block : option Z;
  last_soroban_ledger : option Z;
  last_solana_slot : option Z;
  created_at : Z;
  updated_at : Z;
  archived_at : option Z;
  cancellation_reason : option string
}.

(** The row as the services see it; the field names of the source's
    [OrderRow] with an [o_] prefix. *)
Record OrderRow : Type := mkOrderRow {
  o_id : Z;
  o_publicId : string;
  o_direction : Direction;
  o_status : OrderStatus;
  o_hashlock : string;
  o_srcChain : Chain;
  o_srcAddress : string;
  o_srcAsset : string;
  o_srcAmount : string;
  o_srcSafetyDeposit : string;
  o_srcOrderId : option string;
  o_srcLockTx : option string;
  o_srcLockBlock : option Z;
  o_srcTimelock : option Z;
  o_dstChain : Chain;
  o_dstAddress : string;
  o_dstAsset : string;
  o_dstAmount : string;
  o_dstOrderId : option string;
  o_dstLockTx : option string;
  o_dstLockBlock : option Z;
  o_dstTimelock : option Z;
  o_preimage : option string;
  o_preimageEncVersion : option Z;
  o_secretRevealedTx : option string;
  o_resolverAddress : option string;
  o_lastEthBlock : option Z;
  o_lastSorobanLedger : option Z;
  o_lastSolanaSlot : option Z;
  o_createdAt : Z;
  o_updatedAt : Z;
  o_archivedAt : option Z;
  o_cancellationReason : option string
}.

Definition rowToOrder (r : OrderDbRow) : OrderRow := {|
  o_id := row_id r;
  o_publicId := public_id r;
  o_direction := direction r;
  o_status := status r;
  o_hashlock := hashlock r;
  o_srcChain := src_chain r;
  o_srcAddress := src_address r;
  o_srcAsset := src_asset r;
  o_srcAmount := src_amount r;
  o_srcSafetyDeposit := src_safety_deposit r;
  o_srcOrderId := src_order_id r;
  o_srcLockTx := src_lock_tx r;
  o_srcLockBlock := src_lock_block r;
  o_srcTimelock := src_timelock r;
  o_dstChain := dst_chain r;
  o_dstAddress := dst_address r;
  o_dstAsset := dst_asset r;
  o_dstAmount := dst_amount r;
  o_dstOrderId := dst_order_id r;
  o_dstLockTx := dst_lock_tx r;
  o_dstLockBlock := dst_lock_block r;
  o_dstTimelock := dst_timelock r;
  o_preimage := preimage r;
  o_preimageEncVersion := preimage_enc_version r;
  o_secretRevealedTx := secret_revealed_tx r;
  o_resolverAddress := resolver_address r;
  o_lastEthBlock := last_eth_block r;
  o_lastSorobanLedger := last_soroban_ledger r;
  o_lastSolanaSlot := last_solana_slot r;
  o_createdAt := created_at r;
  o_updatedAt := updated_at r;
  o_archivedAt := archived_at r;
  o_cancellationReason := cancellation_reason r
|}.

(** [SET status = :status, updated_at = now] *)
Definition set_status (s : OrderStatus) (now : Z) (r : OrderDbRow) : OrderDbRow := {|
  row_id := row_id r; public_id := public_id r; direction := direction r; status := s;
  hashlock := hashlock r; src_chain := src_chain r; src_address := src_address r;
  src_asset := src_asset r; src_amount := src_amount r;
  src_safety_deposit := src_safety_deposit r; src_order_id := src_order_id r;
  src_lock_tx := src_lock_tx r; src_lock_block := src_lock_block r;
  src_timelock := src_timelock r; dst_chain := dst_chain r; dst_address := dst_address r;
  dst_asset := dst_asset r; dst_amount := dst_amount r; dst_order_id := dst_order_id r;
  dst_lock_tx := dst_lock_tx r; dst_lock_block := dst_lock_block r;
  dst_timelock := dst_timelock r; preimage := preimage r;
  preimage_enc_version := preimage_enc_version r; secret_revealed_tx := secret_revealed_tx r;
  resolver_address := resolver_address r; last_eth_block := last_eth_block r;
  last_soroban_ledger := last_soroban_ledger r; last_solana_slot := last_solana_slot r;
  created_at := created_at r; updated_at := now; archived_at := archived_at r;
  cancellation_reason := cancellation_reason r
|}.

(** The [SET] clause of [updateSrcLock] and [rollbackSrc]. *)
Definition set_src_lock (orderId txHash : option string) (blockNumber timelock : option Z) (s : OrderStatus) (now : Z) (r : OrderDbRow) : OrderDbRow := {|
  row_id := row_id r; public_id := public_id r; direction := direction r; status := s;
  hashlock := hashlock r; src_chain := src_chain r; src_address := src_address r;
  src_asset := src_asset r; src_amount := src_amount r;
  src_safety_deposit := src_safety_deposit r; src_order_id := orderId; src_lock_tx := txHash;
  src_lock_block := blockNumber; src_timelock := timelock; dst_chain := dst_chain r;
  dst_address := dst_address r; dst_asset := dst_asset r; dst_amount := dst_amount r;
  dst_order_id := dst_order_id r; dst_lock_tx := dst_lock_tx r;
  dst_lock_block := dst_lock_block r; dst_timelock := dst_timelock r; preimage := preimage r;
  preimage_enc_version := preimage_enc_version r; secret_revealed_tx := secret_revealed_tx r;
  resolver_address := resolver_address r; last_eth_block := last_eth_block r;
  last_soroban_ledger := last_soroban_ledger r; last_solana_slot := last_solana_slot r;
  created_at := created_at r; updated_at := now; archived_at := archived_at r;
  cancellation_reason := cancellation_reason r
|}.

(** The [SET] clause of [updateDstLock] and [rollbackDst]. *)
Definition set_dst_lock (orderId txHash : option string) (blockNumber timelock : option Z) (resolver : option string)
    (s : OrderStatus) (now : Z) (r : OrderDbRow) : OrderDbRow := {|
  row_id := row_id r; public_id := public_id r; direction := direction r; status := s;
  hashlock := hashlock r; src_chain := src_chain r; src_address := src_address r;
  src_asset := src_asset r; src_amount := src_amount r;
  src_safety_deposit := src_safety_deposit r; src_order_id := src_order_id r;
  src_lock_tx := src_lock_tx r; src_lock_block := src_lock_block r;
  src_timelock := src_timelock r; dst_chain := dst_chain r; dst_address := dst_address r;
  dst_asset := dst_asset r; dst_amount := dst_amount r; dst_order_id := orderId;
  dst_lock_tx := txHash; dst_lock_block := blockNumber; dst_timelock := timelock;
  preimage := preimage r; preimage_enc_version := preimage_enc_version r;
  secret_revealed_tx := secret_revealed_tx r; resolver_address := resolver;
  last_eth_block := last_eth_block r; last_soroban_ledger := last_soroban_ledger r;
  last_solana_slot := last_solana_slot r; created_at := created_at r; updated_at := now;
  archived_at := archived_at r; cancellation_reason := cancellation_reason r
|}.

(** The [SET] clause of [updateSecret]. *)
Definition set_secret (pre : string) (encVersion : option Z) (txHash : string) (now : Z) (r : OrderDbRow) : OrderDbRow := {|
  row_id := row_id r; public_id := public_id r; direction := direction r;
  status := secret_revealed; hashlock := hashlock r; src_chain := src_chain r;
  src_address := src_address r; src_asset := src_asset r; src_amount := src_amount r;
  src_safety_deposit := src_safety_deposit r; src_order_id := src_order_id r;
  src_lock_tx := src_lock_tx r; src_lock_block := src_lock_block r;
  src_timelock := src_timelock r; dst_chain := dst_chain r; dst_address := dst_address r;
  dst_asset := dst_asset r; dst_amount := dst_amount r; dst_order_id := dst_order_id r;
  dst_lock_tx := dst_lock_tx r; dst_lock_block := dst_lock_block r;
  dst_timelock := dst_timelock r; preimage := Some pre; preimage_enc_version := encVersion;
  secret_revealed_tx := Some txHash; resolver_address := resolver_address r;
  last_eth_block := last_eth_block r; last_soroban_ledger := last_soroban_ledger r;
  last_solana_slot := last_solana_slot r; created_at := created_at r; updated_at := now;
  archived_at := archived_at r; cancellation_reason := cancellation_reason r
|}.

(** The [SET] clause of [archiveOrder] and [unarchiveOrder]. *)
Definition set_archived (a : option Z) (now : Z) (r : OrderDbRow) : OrderDbRow := {|
  row_id := row_id r; public_id := public_id r; direction := direction r; status := status r;
  hashlock := hashlock r; src_chain := src_chain r; src_address := src_address r;
  src_asset := src_asset r; src_amount := src_amount r;
  src_safety_deposit := src_safety_deposit r; src_order_id := src_order_id r;
  src_lock_tx := src_lock_tx r; src_lock_block := src_lock_block r;
  src_timelock := src_timelock r; dst_chain := dst_chain r; dst_address := dst_address r;
  dst_asset := dst_asset r; dst_amount := dst_amount r; dst_order_id := dst_order_id r;
  dst_lock_tx := dst_lock_tx r; dst_lock_block := dst_lock_block r;
  dst_timelock := dst_timelock r; preimage := preimage r;
  preimage_enc_version := preimage_enc_version r; secret_revealed_tx := secret_revealed_tx r;
  resolver_address := resolver_address r; last_eth_block := last_eth_block r;
  last_soroban_ledger := last_soroban_ledger r; last_solana_slot := last_solana_slot r;
  created_at := created_at r; updated_at := now; archived_at := a;
  cancellation_reason := cancellation_reason r
|}.

(** The [SET] clause of [cancelOrder] and [abandonOrder]. *)
Definition set_cancelled (s : OrderStatus) (reason : string) (a : option Z) (now : Z) (r : OrderDbRow) : OrderDbRow := {|
  row_id := row_id r; public_id := public_id r; direction := direction r; status := s;
  hashlock := hashlock r; src_chain := src_chain r; src_address := src_address r;
  src_asset := src_asset r; src_amount := src_amount r;
  src_safety_deposit := src_safety_deposit r; src_order_id := src_order_id r;
  src_lock_tx := src_lock_tx r; src_lock_block := src_lock_block r;
  src_timelock := src_timelock r; dst_chain := dst_chain r; dst_address := dst_address r;
  dst_asset := dst_asset r; dst_amount := dst_amount r; dst_order_id := dst_order_id r;
  dst_lock_tx := dst_lock_tx r; dst_lock_block := dst_lock_block r;
  dst_timelock := dst_timelock r; preimage := preimage r;
  preimage_enc_version := preimage_enc_version r; secret_revealed_tx := secret_revealed_tx r;
  resolver_address := resolver_address r; last_eth_block := last_eth_block r;
  last_soroban_ledger := last_soroban_ledger r; last_solana_slot := last_solana_slot r;
  created_at := created_at r; updated_at := now; archived_at := a;
  cancellation_reason := Some reason
|}.

(** The [SET] clause of [updateOrderCursor] and [advanceOrderLedgerCursor]. *)
Definition set_cursors (eth soroban sol : option Z) (now : Z) (r : OrderDbRow) : OrderDbRow := {|
  row_id := row_id r; public_id := public_id r; direction := direction r; status := status r;
  hashlock := hashlock r; src_chain := src_chain r; src_address := src_address r;
  src_asset := src_asset r; src_amount := src_amount r;
  src_safety_deposit := src_safety_deposit r; src_order_id := src_order_id r;
  src_lock_tx := src_lock_tx r; src_lock_block := src_lock_block r;
  src_timelock := src_timelock r; dst_chain := dst_chain r; dst_address := dst_address r;
  dst_asset := dst_asset r; dst_amount := dst_amount r; dst_order_id := dst_order_id r;
  dst_lock_tx := dst_lock_tx r; dst_lock_block := dst_lock_block r;
  dst_timelock := dst_timelock r; preimage := preimage r;
  preimage_enc_version := preimage_enc_version r; secret_revealed_tx := secret_revealed_tx r;
  resolver_address := resolver_address r; last_eth_block := eth;
  last_soroban_ledger := soroban; last_solana_slot := sol; created_at := created_at r;
  updated_at := now; archived_at := archived_at r;
  cancellation_reason := cancellation_reason r
|}.

(** [AnnounceOrderInput]. *)
Record AnnounceOrderInput : Type := mkAnnounceOrderInput {
  a_direction : Direction;
  a_hashlock : string;
  a_srcChain : Chain;
  a_srcAddress : string;
  a_srcAsset : string;
  a_srcAmount : string;
  a_srcSafetyDeposit : string;
  a_dstChain : Chain;
  a_dstAddress : string;
  a_dstAsset : string;
  a_dstAmount : string
}.

(** The row [insertStmt] inserts: every column the statement does not list
    takes its default. *)
Definition insertRow (i : Z) (publicId : string) (input : AnnounceOrderInput) (now : Z) : OrderDbRow := {|
  row_id := i; public_id := publicId; direction := a_direction input; status := announced;
  hashlock := a_hashlock input; src_chain := a_srcChain input; src_address := a_srcAddress input;
  src_asset := a_srcAsset input; src_amount := a_srcAmount input;
  src_safety_deposit := a_srcSafetyDeposit input; src_order_id := None; src_lock_tx := None;
  src_lock_block := None; src_timelock := None; dst_chain := a_dstChain input;
  dst_address := a_dstAddress input; dst_asset := a_dstAsset input; dst_amount := a_dstAmount input;
  dst_order_id := None; dst_lock_tx := None; dst_lock_block := None; dst_timelock := None;
  preimage := None; preimage_enc_version := None; secret_revealed_tx := None;
  resolver_address := None; last_eth_block := None; last_soroban_ledger := None;
  last_solana_slot := None; created_at := now; updated_at := now; archived_at := None;
  cancellation_reason := None
|}.

(** The JSON payload of a transition event. *)
Record TransitionPayload : Type := mkTransitionPayload {
  p_actor : string;
  p_fromStatus : OrderStatus;
  p_toStatus : OrderStatus;
  p_outcome : string;
  p_txHash : option string;
  p_blockNumber : option Z;
  p_reason : option string;
  p_triggeredAt : Z
}.

(** A row of [order_events]. *)
Record OrderEvent : Type := mkOrderEvent {
  oe_id : Z;
  oe_order_id : Z;
  oe_event_type : string;
  oe_payload : TransitionPayload;
  oe_created_at : Z
}.

(** A row of [processed_events], keyed by [event_key]. *)
Record ProcessedEvent : Type := mkProcessedEvent {
  pe_chain : string;
  pe_event_type : string;
  pe_order_id : option Z
}.

(** A row of [soroban_checkpoints], keyed by [contract_id]. *)
Record SorobanCheckpoint : Type := mkSorobanCheckpoint {
  contractId : string;
  lastSafeLedger : Z;
  effectiveCursor : option string;
  recoveryMarker : SorobanRecoveryMarker;
  sc_updatedAt : Z
}.

(** The database: the two autoincrement counters are part of it. *)
Record Db : Type := mkDb {
  orders : list OrderDbRow;
  order_events : list OrderEvent;
  processed_events : gmap string ProcessedEvent;
  chain_cursors : gmap Chain (Z * Z);
  soroban_checkpoints : gmap string SorobanCheckpoint;
  next_order_id : Z;
  next_event_id : Z
}.

Definition emptyDb : Db := mkDb [] [] ∅ ∅ ∅ 1 1.

Definition with_orders (d : Db) (t : list OrderDbRow) : Db :=
  mkDb t (order_events d) (processed_events d) (chain_cursors d) (soroban_checkpoints d)
       (next_order_id d) (next_event_id d).
Definition with_events (d : Db) (t : list OrderEvent) : Db :=
  mkDb (orders d) t (processed_events d) (chain_cursors d) (soroban_checkpoints d)
       (next_order_id d) (next_event_id d + 1).
Definition with_processed (d : Db) (t : gmap string ProcessedEvent) : Db :=
  mkDb (orders d) (order_events d) t (chain_cursors d) (soroban_checkpoints d)
       (next_order_id d) (next_event_id d).
Definition with_cursors (d : Db) (t : gmap Chain (Z * Z)) : Db :=
  mkDb (orders d) (order_events d) (processed_events d) t (soroban_checkpoints d)
       (next_order_id d) (next_event_id d).
Definition with_checkpoints (d : Db) (t : gmap string SorobanCheckpoint) : Db :=
  mkDb (orders d) (order_events d) (processed_events d) (chain_cursors d) t
       (next_order_id d) (next_event_id d).
