(* ===== verification/OrdersRepo.v ===== *)
(** * The orders repository (coordinator/src/persistence/orders-repo.ts).

    One definition per method of [OrdersRepository], over the tables of
    OrderRow.v.  Statements run one after the other on the database state; a
    method wrapped in [atomic] is all-or-nothing (TransactionContract.v shows
    that this is what [runInTransaction] gives on SQLite).  [now] is the
    clock in milliseconds. *)

From S2P Require Import Prelude OrderMachine TransactionContract OrderRow Codec Text Json PageCursor.

Abbreviation Repo := (ST Db JsError).

(** ** Hashlocks and order ids *)

Definition isHexDigit (c : Ascii.ascii) : bool :=
  let n := Ascii.nat_of_ascii c in
  (Nat.leb 48 n && Nat.leb n 57) || (Nat.leb 65 n && Nat.leb n 70) || (Nat.leb 97 n && Nat.leb n 102).

Fixpoint all_hex (s : string) : bool :=
  match s with
  | EmptyString => true
  | String c s' => isHexDigit c && all_hex s'
  end.

(** The test [/^0x[0-9a-fA-F]{64}$/]. *)
Definition isHex32 (s : string) : bool :=
  match s with
  | String c0 (String c1 digits) =>
      String.eqb (String c0 (String c1 EmptyString)) "0x" &&
      all_hex digits && Nat.eqb (String.length digits) 64
  | _ => false
  end.

Definition orderIdFromHashlock (h : string) : outcome JsError string :=
  if negb (isHex32 h) then Throw (PlainError None "hashlock must be 0x + 64 hex chars")
  else Ok ("wf_" +:+ toLowerCase h).

(** ** Statements *)

Definition by_public_id (publicId : string) (r : OrderDbRow) : bool :=
  bool_decide (public_id r = publicId).

Definition select_public (publicId : string) : Repo (option OrderDbRow) :=
  gets (fun d => sql_get (by_public_id publicId) (orders d)).

(** Run an [UPDATE orders SET f WHERE p]; the result is [changes]. *)
Definition run_update (p : OrderDbRow -> bool) (f : OrderDbRow -> OrderDbRow) : Repo Z := fun d =>
  (Ok (sql_changes p (orders d)), with_orders d (sql_update p f (orders d))).

Definition atomic {A} (fn : Repo A) : Repo A := atomically fn.

(** [appendTransitionEvent]: one row of [order_events]. *)
Definition appendTransitionEvent (now : Z) (orderId : Z) (eventType : string)
    (payload : TransitionPayload) : Repo unit :=
  modify (fun d => with_events d
    (order_events d ++
     [mkOrderEvent (next_event_id d) orderId eventType payload (seconds now)])).

(** ** Idempotence ledger *)

(** [INSERT INTO processed_events ... ON CONFLICT(event_key) DO NOTHING]:
    true when the key was inserted. *)
Definition claimEvent (eventKey chain eventType : string) (orderId : option Z) : Repo bool := fun d =>
  match processed_events d !! eventKey with
  | Some _ => (Ok false, d)
  | None => (Ok true, with_processed d
              (<[eventKey := mkProcessedEvent chain eventType orderId]> (processed_events d)))
  end.

Definition hasProcessedEvent (eventKey : string) : Repo bool :=
  gets (fun d => bool_decide (is_Some (processed_events d !! eventKey))).

Definition countProcessedEvents : Repo Z := gets (fun d => Z.of_nat (size (processed_events d))).

(** ** Announcing and reading orders *)

Definition announce (now : Z) (input : AnnounceOrderInput) : Repo OrderRow := fun d =>
  match orderIdFromHashlock (a_hashlock input) with
  | Throw e => (Throw e, d)
  | Ok publicId =>
      match sql_get (by_public_id publicId) (orders d) with
      | Some _ => (Throw (PlainError (Some "ERR_SQLITE_ERROR")
                            "UNIQUE constraint failed: orders.public_id"), d)
      | None =>
          let d' := mkDb (orders d ++ [insertRow (next_order_id d) publicId input (seconds now)])
                         (order_events d) (processed_events d) (chain_cursors d)
                         (soroban_checkpoints d) (next_order_id d + 1) (next_event_id d) in
          match sql_get (by_public_id publicId) (orders d') with
          | None => (Throw (PlainError None "Failed to insert order"), d')
          | Some row => (Ok (rowToOrder row), d')
          end
      end
  end.

Definition findByPublicId (publicId : string) : Repo (option OrderRow) :=
  gets (fun d => rowToOrder <$> sql_get (by_public_id publicId) (orders d)).

Definition findByHashlock (h : string) : Repo (option OrderRow) :=
  gets (fun d => rowToOrder <$> sql_get (fun r => bool_decide (hashlock r = h)) (orders d)).

Definition findBySrcOrderId (chain : Chain) (orderId : string) : Repo (option OrderRow) :=
  gets (fun d => rowToOrder <$> sql_get (fun r =>
    bool_decide (src_chain r = chain) && bool_decide (src_order_id r = Some orderId)) (orders d)).

Definition findByDstOrderId (chain : Chain) (orderId : string) : Repo (option OrderRow) :=
  gets (fun d => rowToOrder <$> sql_get (fun r =>
    bool_decide (dst_chain r = chain) && bool_decide (dst_order_id r = Some orderId)) (orders d)).

Definition has_address (addr : string) (r : OrderDbRow) : bool :=
  bool_decide (src_address r = addr) || bool_decide (dst_address r = addr).

(** [ORDER BY created_at DESC]. *)
Definition newer (a b : OrderDbRow) : bool := created_at b <? created_at a.

(** [ORDER BY created_at DESC, id DESC]. *)
Definition newer_id (a b : OrderDbRow) : bool :=
  (created_at b <? created_at a) || ((created_at a =? created_at b) && (row_id b <? row_id a)).

(** [ORDER BY updated_at DESC]. *)
Definition updated_later (a b : OrderDbRow) : bool := updated_at b <? updated_at a.

Definition findByAddress (addr : string) (limit offset : Z) : Repo (list OrderRow) :=
  gets (fun d => rowToOrder <$>
    sql_limit limit (sql_offset offset (sql_order newer (sql_select (has_address addr) (orders d))))).

Definition findByStatus (s : OrderStatus) (limit : Z) : Repo (list OrderRow) :=
  gets (fun d => rowToOrder <$>
    sql_limit limit (sql_order newer (sql_select (fun r => bool_decide (status r = s)) (orders d)))).

Record OrderHistoryResult : Type := mkOrderHistoryResult {
  hr_orders : list OrderRow;
  hr_nextCursor : option string
}.

(** Rows strictly after the cursor position in the page order: the condition
    of [byAddressCursor]. *)
Definition after_cursor (c : CursorInfo) (r : OrderDbRow) : bool :=
  Z_lt_number (created_at r) (c_createdAt c) ||
  (Z_eq_number (created_at r) (c_createdAt c) && Z_lt_number (row_id r) (c_id c)).

(** A page from a decoded position, [None] for the first one. *)
Definition history_page (addr : string) (limit : Z) (position : option CursorInfo) (t : list OrderDbRow)
  : OrderHistoryResult :=
  let fetchLimit := limit + 1 in
  let rows :=
    match position with
    | None => sql_limit fetchLimit (sql_order newer_id (sql_select (has_address addr) t))
    | Some c => sql_limit fetchLimit (sql_order newer_id
                  (sql_select (fun r => has_address addr r && after_cursor c r) t))
    end in
  let hasMore := limit <? Z.of_nat (length rows) in
  let pageRows := if hasMore then take (Z.to_nat limit) rows else rows in
  let page := rowToOrder <$> pageRows in
  let nextCursor :=
    if hasMore then (fun o => encodeCursor (o_createdAt o) (o_id o)) <$> last page else None in
  mkOrderHistoryResult page nextCursor.

Definition findByAddressWithCursor (addr : string) (limit : Z) (cursor : option string)
  : Repo OrderHistoryResult :=
  if bool_decide (cursor = Some "") then
    throw (PlainError None "Invalid cursor: empty string is not a valid cursor")
  else
    position ← match cursor with
               | None => mret None
               | Some c => match decodeCursor c with Ok i => mret (Some i) | Throw e => throw e end
               end;
    gets (fun d => history_page addr limit position (orders d)).

(** ** Status updates *)

Definition payload (actor : string) (from to : OrderStatus) (outcome_ : string)
    (txHash : option string) (blockNumber : option Z) (reason : option string) (now : Z)
  : TransitionPayload :=
  mkTransitionPayload actor from to outcome_ txHash blockNumber reason (seconds now).

Definition NOT_FOUND (publicId : string) : JsError :=
  PlainError (Some "NOT_FOUND") ("Order not found: " +:+ publicId).

Definition STALE_STATUS (publicId : string) (current : OrderStatus) (expected : option OrderStatus)
  : JsError :=
  PlainError (Some "STALE_STATUS")
    ("Status update conflict for " +:+ publicId +:+ ": current status " +:+
     dquoted (status_str current) +:+ " does not match expected " +:+
     dquoted (match expected with Some e => status_str e | None => "undefined" end)).

Definition setStatus (now : Z) (publicId : string) (s : OrderStatus) (actor : string)
    (expectedStatus : option OrderStatus) : Repo unit :=
  atomic (
    order ← select_public publicId;
    match expectedStatus, order with
    | None, Some o =>
        if bool_decide (status o = s) then
          appendTransitionEvent now (row_id o) "status.no_op"
            (payload actor (status o) s "no_op:already_at_target" None None None now)
        else
          changes ← run_update (by_public_id publicId) (set_status s (seconds now));
          if changes =? 0 then throw (STALE_STATUS publicId (status o) None)
          else appendTransitionEvent now (row_id o) "status.transitioned"
                 (payload actor (status o) s "transitioned" None None None now)
    | None, None =>
        changes ← run_update (by_public_id publicId) (set_status s (seconds now));
        if changes =? 0 then throw (NOT_FOUND publicId) else mret tt
    | Some expected, _ =>
        changes ← run_update (fun r => by_public_id publicId r && bool_decide (status r = expected))
                             (set_status s (seconds now));
        match order with
        | None => if changes =? 0 then throw (NOT_FOUND publicId) else mret tt
        | Some o =>
            if changes =? 0 then throw (STALE_STATUS publicId (status o) (Some expected))
            else appendTransitionEvent now (row_id o) "status.transitioned"
                   (payload actor (status o) s "transitioned" None None None now)
        end
    end).

(** The status after recording a lock: advance when the machine allows it. *)
Definition nextLockStatus (current target : OrderStatus) : OrderStatus :=
  if canTransition current target then target else current.

Record LockInput : Type := mkLockInput {
  l_publicId : string;
  l_orderId : string;
  l_txHash : string;
  l_blockNumber : Z;
  l_timelock : Z;
  l_resolver : option string;   (** destination locks only *)
  l_actor : option string
}.

Definition recordSrcLock (now : Z) (input : LockInput) : Repo unit :=
  atomic (
    order ← select_public (l_publicId input);
    match order with
    | None => mret tt
    | Some o =>
        let actor := default "system" (l_actor input) in
        let event (kind : string) (to : OrderStatus) (outcome_ : string) :=
          appendTransitionEvent now (row_id o) kind
            (payload actor (status o) to outcome_ (Some (l_txHash input))
               (Some (l_blockNumber input)) None now) in
        if isTerminal (status o) then event "src_lock.no_op" (status o) "no_op:terminal"
        else
          let s := nextLockStatus (status o) src_locked in
          _ ← run_update (by_public_id (l_publicId input))
                (set_src_lock (Some (l_orderId input)) (Some (l_txHash input))
                   (Some (l_blockNumber input)) (Some (l_timelock input)) s (seconds now));
          if bool_decide (s = status o)
          then event "src_lock.no_op" s "no_op:already_at_target"
          else event "src_lock.transitioned" s "transitioned"
    end).

Definition recordDstLock (now : Z) (input : LockInput) : Repo unit :=
  atomic (
    order ← select_public (l_publicId input);
    match order with
    | None => mret tt
    | Some o =>
        let actor := default "system" (l_actor input) in
        let event (kind : string) (to : OrderStatus) (outcome_ : string) :=
          appendTransitionEvent now (row_id o) kind
            (payload actor (status o) to outcome_ (Some (l_txHash input))
               (Some (l_blockNumber input)) None now) in
        if isTerminal (status o) then event "dst_lock.no_op" (status o) "no_op:terminal"
        else
          let s := nextLockStatus (status o) dst_locked in
          _ ← run_update (by_public_id (l_publicId input))
                (set_dst_lock (Some (l_orderId input)) (Some (l_txHash input))
                   (Some (l_blockNumber input)) (Some (l_timelock input)) (l_resolver input) s
                   (seconds now));
          if bool_decide (s = status o)
          then event "dst_lock.no_op" s "no_op:already_at_target"
          else event "dst_lock.transitioned" s "transitioned"
    end).

Definition recordSecretRevealed (now : Z) (publicId pre txHash : string) (encVersion : option Z)
    (actor_ : option string) : Repo unit :=
  atomic (
    order ← select_public publicId;
    match order with
    | None => mret tt
    | Some o =>
        let actor := default "system" actor_ in
        let event (kind : string) (to : OrderStatus) (outcome_ : string) :=
          appendTransitionEvent now (row_id o) kind
            (payload actor (status o) to outcome_ (Some txHash) None None now) in
        if isTerminal (status o) then event "secret_revealed.no_op" (status o) "no_op:terminal"
        else if bool_decide (preimage o = Some pre)
        then event "secret_revealed.no_op" (status o) "no_op:idempotent"
        else
          _ ← run_update (by_public_id publicId) (set_secret pre encVersion txHash (seconds now));
          event "secret_revealed.transitioned" secret_revealed "transitioned"
    end).

(** [findTransitionEvents]: the trail of one order in insertion order. *)
Definition findTransitionEvents (publicId : string) : Repo (list OrderEvent) :=
  gets (fun d =>
    match sql_get (by_public_id publicId) (orders d) with
    | None => []
    | Some o => sql_select (fun e => oe_order_id e =? row_id o) (order_events d)
    end).

Definition rollbackSrcLock (now : Z) (publicId actor : string) : Repo unit :=
  atomic (
    order ← select_public publicId;
    match order with
    | None => mret tt
    | Some o =>
        changes ← run_update (fun r => by_public_id publicId r && bool_decide (status r = src_locked))
                    (set_src_lock None None None None announced (seconds now));
        if changes =? 0
        then appendTransitionEvent now (row_id o) "src_lock.rolled_back"
               (payload actor (status o) (status o) "no_op:not_src_locked" None None None now)
        else appendTransitionEvent now (row_id o) "src_lock.rolled_back"
               (payload actor (status o) announced "transitioned" None None None now)
    end).

Definition rollbackDstLock (now : Z) (publicId actor : string) : Repo unit :=
  atomic (
    order ← select_public publicId;
    match order with
    | None => mret tt
    | Some o =>
        changes ← run_update (fun r => by_public_id publicId r && bool_decide (status r = dst_locked))
                    (set_dst_lock None None None None None src_locked (seconds now));
        if changes =? 0
        then appendTransitionEvent now (row_id o) "dst_lock.rolled_back"
               (payload actor (status o) (status o) "no_op:not_dst_locked" None None None now)
        else appendTransitionEvent now (row_id o) "dst_lock.rolled_back"
               (payload actor (status o) src_locked "transitioned" None None None now)
    end).

(** ** Maintenance *)

Definition findStaleAnnounced (now retentionWindowSeconds : Z) : Repo (list OrderRow) :=
  gets (fun d =>
    let cutoff := seconds now - retentionWindowSeconds in
    rowToOrder <$> sql_select (fun r =>
      bool_decide (status r = announced) && bool_decide (src_order_id r = None) &&
      bool_decide (archived_at r = None) && (created_at r <? cutoff)) (orders d)).

Definition archiveOrder (now : Z) (publicId : string) : Repo unit :=
  _ ← run_update (fun r => by_public_id publicId r && bool_decide (archived_at r = None))
        (set_archived (Some (seconds now)) (seconds now));
  mret tt.

Definition unarchiveOrder (now : Z) (publicId : string) : Repo unit :=
  _ ← run_update (fun r => by_public_id publicId r && bool_decide (is_Some (archived_at r)))
        (set_archived None (seconds now));
  mret tt.

Definition cancelOrder (now : Z) (publicId reason actor : string) : Repo unit :=
  atomic (
    order ← select_public publicId;
    match order with
    | None => throw (NOT_FOUND publicId)
    | Some o =>
        let event (kind : string) (to : OrderStatus) (outcome_ : string) :=
          appendTransitionEvent now (row_id o) kind
            (payload actor (status o) to outcome_ None None (Some reason) now) in
        if isTerminal (status o) then event "cancel.no_op" (status o) "no_op:terminal"
        else if negb (canTransition (status o) cancelled)
        then throw (PlainError (Some "INVALID_TRANSITION")
               ("Cannot cancel order " +:+ publicId +:+ " in status " +:+ dquoted (status_str (status o)) +:+
                ": transition to " +:+ dquoted "cancelled" +:+ " is not allowed"))
        else
          _ ← run_update (by_public_id publicId)
                (fun r => set_cancelled cancelled reason (archived_at r) (seconds now) r);
          event "cancel.transitioned" cancelled "transitioned"
    end).

Definition abandonOrder (now : Z) (publicId reason actor : string) : Repo unit :=
  atomic (
    order ← select_public publicId;
    match order with
    | None => mret tt
    | Some o =>
        let event (kind : string) (to : OrderStatus) (outcome_ : string) :=
          appendTransitionEvent now (row_id o) kind
            (payload actor (status o) to outcome_ None None (Some reason) now) in
        if isTerminal (status o) then event "abandon.no_op" (status o) "no_op:terminal"
        else if negb (canTransition (status o) abandoned) then mret tt
        else
          _ ← run_update (by_public_id publicId)
                (set_cancelled abandoned reason (Some (seconds now)) (seconds now));
          event "abandon.transitioned" abandoned "transitioned"
    end).

Definition findExpiredCandidates (nowSeconds : Z) : Repo (list OrderRow) :=
  gets (fun d => rowToOrder <$> sql_select (fun r =>
    bool_decide (status r ∈ [src_locked; dst_locked]) &&
    (match src_timelock r with Some t => t <? nowSeconds | None => false end ||
     match dst_timelock r with Some t => t <? nowSeconds | None => false end)) (orders d)).

(** The columns [findOrdersMissingSecret] returns. *)
Definition findOrdersMissingSecret : Repo (list (string * option string * string * string)) :=
  gets (fun d =>
    (fun r => (public_id r, src_order_id r, hashlock r, status_str (status r))) <$>
    sql_select (fun r => bool_decide (status r ∈ [src_locked; dst_locked]) &&
                         bool_decide (preimage r = None)) (orders d)).

(** ** Cursors *)

Definition getLastProcessedBlock (chain : Chain) : Repo Z :=
  gets (fun d =>
    let srcMax := default 0 (sql_max src_lock_block
                    (sql_select (fun r => bool_decide (src_chain r = chain)) (orders d))) in
    let dstMax := default 0 (sql_max dst_lock_block
                    (sql_select (fun r => bool_decide (dst_chain r = chain)) (orders d))) in
    Z.max srcMax dstMax).

Definition getChainCursor (chain : Chain) : Repo Z :=
  gets (fun d => default 0 (fst <$> chain_cursors d !! chain)).

(** The upsert of [setChainCursor]: the position never moves back. *)
Definition setChainCursor (now : Z) (chain : Chain) (position : Z) : Repo unit :=
  modify (fun d =>
    let p := match chain_cursors d !! chain with
             | Some (old, _) => Z.max old position
             | None => position
             end in
    with_cursors d (<[chain := (p, seconds now)]> (chain_cursors d))).

(** The per-order cursor column of a chain. *)
Definition cursor_col (chain : Chain) (r : OrderDbRow) : option Z :=
  match chain with
  | ethereum => last_eth_block r
  | stellar => last_soroban_ledger r
  | solana => last_solana_slot r
  end.

Definition set_cursor_col (chain : Chain) (v : option Z) (now : Z) (r : OrderDbRow) : OrderDbRow :=
  match chain with
  | ethereum => set_cursors v (last_soroban_ledger r) (last_solana_slot r) now r
  | stellar => set_cursors (last_eth_block r) v (last_solana_slot r) now r
  | solana => set_cursors (last_eth_block r) (last_soroban_ledger r) v now r
  end.

Definition updateOrderCursor (now : Z) (publicId : string) (chain : Chain) (position : Z) : Repo unit :=
  _ ← run_update (by_public_id publicId) (fun r =>
        set_cursor_col chain (Some (Z.max (default 0 (cursor_col chain r)) position)) (seconds now) r);
  mret tt.

Definition getMinActiveOrderCursor (chain : Chain) : Repo (option Z) :=
  gets (fun d => sql_min (cursor_col chain) (sql_select (fun r =>
    (bool_decide (src_chain r = chain) || bool_decide (dst_chain r = chain)) &&
    negb (bool_decide (status r ∈ [completed; refunded; failed; expired; cancelled; abandoned])) &&
    match cursor_col chain r with Some c => 0 <? c | None => false end) (orders d))).

(** [OrderLedgerCursor]: the three per-order cursors. *)
Record OrderLedgerCursor : Type := mkOrderLedgerCursor {
  lastEthBlock : option Z;
  lastSorobanLedger : option Z;
  lastSolanaSlot : option Z
}.

Definition getOrderLedgerCursor (publicId : string) : Repo (option OrderLedgerCursor) :=
  gets (fun d =>
    (fun r => mkOrderLedgerCursor (last_eth_block r) (last_soroban_ledger r) (last_solana_slot r)) <$>
    sql_get (by_public_id publicId) (orders d)).

(** One assignment of [advanceOrderLedgerCursor]: nothing for a missing or
    non-positive position, otherwise
    [CASE WHEN col IS NULL THEN ? ELSE MAX(col, ?) END]. *)
Definition usable (incoming : option Z) : bool :=
  match incoming with Some p => 0 <? p | None => false end.

Definition advance_col (incoming col : option Z) : option Z :=
  if usable incoming then
    match incoming, col with
    | Some p, None => Some p
    | Some p, Some c => Some (Z.max c p)
    | None, _ => col
    end
  else col.

Definition advanceOrderLedgerCursor (now : Z) (publicId : string) (update : OrderLedgerCursor)
  : Repo unit :=
  if negb (usable (lastEthBlock update) || usable (lastSorobanLedger update) ||
           usable (lastSolanaSlot update))
  then mret tt
  else
    _ ← run_update (by_public_id publicId) (fun r =>
          set_cursors (advance_col (lastEthBlock update) (last_eth_block r))
                      (advance_col (lastSorobanLedger update) (last_soroban_ledger r))
                      (advance_col (lastSolanaSlot update) (last_solana_slot r)) (seconds now) r);
    mret tt.

(** [Math.min(Math.max(limit, 1), 1000)]. *)
Definition clamp1000 (limit : Z) : Z := Z.min (Z.max limit 1) 1000.

Definition listOrderLedgerCursors (limit : Z)
  : Repo (list (string * OrderStatus * OrderLedgerCursor * Z)) :=
  gets (fun d =>
    (fun r => (public_id r, status r,
               mkOrderLedgerCursor (last_eth_block r) (last_soroban_ledger r) (last_solana_slot r),
               updated_at r)) <$>
    sql_limit (clamp1000 limit) (sql_order updated_later (sql_select (fun r =>
      bool_decide (archived_at r = None) &&
      (bool_decide (is_Some (last_eth_block r)) || bool_decide (is_Some (last_soroban_ledger r)) ||
       bool_decide (is_Some (last_solana_slot r)))) (orders d)))).

Definition findNonTerminalSample (limit : Z) : Repo (list OrderRow) :=
  gets (fun d => rowToOrder <$>
    sql_limit (clamp1000 limit) (sql_order updated_later (sql_select (fun r =>
      negb (bool_decide (status r ∈ [completed; refunded; failed; cancelled; abandoned])) &&
      bool_decide (archived_at r = None)) (orders d)))).

(** [ORDER BY chain]: the three chain names in alphabetical order. *)
Definition listChainCursors : Repo (list (Chain * Z * Z)) :=
  gets (fun d =>
    omap (fun c => (fun '(p, u) => (c, p, u)) <$> chain_cursors d !! c) [ethereum; solana; stellar]).

(** ** Soroban checkpoints *)

Definition getSorobanCheckpoint (contract : string) : Repo (option SorobanCheckpoint) :=
  gets (fun d => soroban_checkpoints d !! contract).

Definition saveSorobanCheckpoint (now : Z) (contract : string) (ledger : Z) (cur : option string)
    (marker : SorobanRecoveryMarker) : Repo unit :=
  modify (fun d =>
    let l := match soroban_checkpoints d !! contract with
             | Some old => if lastSafeLedger old <? ledger then ledger else lastSafeLedger old
             | None => ledger
             end in
    with_checkpoints d
      (<[contract := mkSorobanCheckpoint contract l cur marker (seconds now)]> (soroban_checkpoints d))).

Definition markSorobanRecovery (now : Z) (contract : string) (marker : SorobanRecoveryMarker)
  : Repo Z := fun d =>
  match soroban_checkpoints d !! contract with
  | None => (Ok 0, d)
  | Some old =>
      (Ok 1, with_checkpoints d
        (<[contract := mkSorobanCheckpoint (contractId old) (lastSafeLedger old) (effectiveCursor old)
                         marker (seconds now)]> (soroban_checkpoints d)))
  end.
