(* ===== verification/OrdersRepoFacts.v ===== *)
(** * What the repository guarantees.

    [repo_step Q] abstracts the effect of one repository call: rows keep
    their identity and change only as the row relation [Q] allows, and every
    status change is paired with its event on the trail.  Each method is
    shown to be such a step; the invariants are proved once, on the steps. *)

From S2P Require Import Prelude OrderMachine TransactionContract OrderRow OrdersRepo.

Definition row_of (publicId : string) (d : Db) : option OrderDbRow :=
  sql_get (by_public_id publicId) (orders d).

(** The columns no statement ever assigns. *)
Definition same_ids (r r' : OrderDbRow) : Prop :=
  row_id r' = row_id r /\ public_id r' = public_id r /\ hashlock r' = hashlock r /\
  direction r' = direction r /\ src_chain r' = src_chain r /\ dst_chain r' = dst_chain r /\
  src_address r' = src_address r /\ dst_address r' = dst_address r /\ created_at r' = created_at r.

(** The columns that carry the order's progress: everything but the cursors,
    the archive mark and the modification time. *)
Definition frozen (r r' : OrderDbRow) : Prop :=
  status r' = status r /\
  src_order_id r' = src_order_id r /\ src_lock_tx r' = src_lock_tx r /\
  src_lock_block r' = src_lock_block r /\ src_timelock r' = src_timelock r /\
  dst_order_id r' = dst_order_id r /\ dst_lock_tx r' = dst_lock_tx r /\
  dst_lock_block r' = dst_lock_block r /\ dst_timelock r' = dst_timelock r /\
  preimage r' = preimage r /\ preimage_enc_version r' = preimage_enc_version r /\
  secret_revealed_tx r' = secret_revealed_tx r /\ resolver_address r' = resolver_address r /\
  cancellation_reason r' = cancellation_reason r.

(** Append [e] to the trail. *)
Definition log_event (now : Z) (orderId : Z) (kind : string) (p : TransitionPayload) (d : Db) : Db :=
  with_events d (order_events d ++ [mkOrderEvent (next_event_id d) orderId kind p (seconds now)]).

Definition transitioned (p : TransitionPayload) : bool := bool_decide (p_outcome p = "transitioned").

Inductive repo_step (Q : OrderDbRow -> OrderDbRow -> Prop) : Db -> Db -> Prop :=
| rs_none d : repo_step Q d d
| rs_touch d publicId g f :
    (forall r, r ∈ orders d -> public_id r = publicId -> g r = true ->
       same_ids r (f r) /\ status (f r) = status r /\ Q r (f r)) ->
    repo_step Q d (with_orders d
      (sql_update (fun r => by_public_id publicId r && g r) f (orders d)))
| rs_note d o now kind p :
    o ∈ orders d -> p_fromStatus p = status o -> transitioned p = false ->
    repo_step Q d (log_event now (row_id o) kind p d)
| rs_write d publicId o f now kind p :
    row_of publicId d = Some o ->
    same_ids o (f o) -> Q o (f o) ->
    p_fromStatus p = status o ->
    status (f o) = (if transitioned p then p_toStatus p else status o) ->
    repo_step Q d (log_event now (row_id o) kind p
                     (with_orders d (sql_update (by_public_id publicId) f (orders d))))
| rs_insert d publicId input now :
    orderIdFromHashlock (a_hashlock input) = Ok publicId ->
    row_of publicId d = None ->
    repo_step Q d (mkDb (orders d ++ [insertRow (next_order_id d) publicId input (seconds now)])
                     (order_events d) (processed_events d) (chain_cursors d)
                     (soroban_checkpoints d) (next_order_id d + 1) (next_event_id d))
| rs_tables d pe cc sc :
    repo_step Q d (mkDb (orders d) (order_events d) pe cc sc (next_order_id d) (next_event_id d)).

(** ** Rows and their lookup *)

Lemma same_ids_refl r : same_ids r r.
Proof. done. Qed.

Lemma frozen_refl r : frozen r r.
Proof. done. Qed.

Lemma frozen_trans r1 r2 r3 : frozen r1 r2 -> frozen r2 r3 -> frozen r1 r3.
Proof. unfold frozen. intuition congruence. Qed.

Lemma same_ids_trans r1 r2 r3 : same_ids r1 r2 -> same_ids r2 r3 -> same_ids r1 r3.
Proof. unfold same_ids. intuition congruence. Qed.

#[export] Hint Resolve same_ids_refl frozen_refl : coord.

Lemma row_of_Some publicId d r : row_of publicId d = Some r -> r ∈ orders d /\ public_id r = publicId.
Proof. intros [? ?%bool_decide_eq_true]%sql_get_Some. done. Qed.

(** A lookup that succeeds is not disturbed by an insertion. *)
Lemma sql_get_app {R} (p : R -> bool) t t' :
  sql_get p (t ++ t') = match sql_get p t with Some r => Some r | None => sql_get p t' end.
Proof. induction t as [|r t IH]; [done|]. cbn. by destruct (p r). Qed.

Lemma same_public_by r r' publicId : same_ids r r' -> by_public_id publicId r' = by_public_id publicId r.
Proof. unfold by_public_id. by intros (_ & -> & _). Qed.

(** Updating the rows of one order, seen through a lookup. *)
Lemma row_of_update publicId publicId' g f t :
  (forall r, r ∈ t -> public_id r = publicId -> g r = true -> public_id (f r) = publicId) ->
  sql_get (by_public_id publicId') (sql_update (fun r => by_public_id publicId r && g r) f t) =
  match sql_get (by_public_id publicId') t with
  | Some r => Some (if by_public_id publicId r && g r then f r else r)
  | None => None
  end.
Proof.
  induction t as [|r t IH]; intros Hf; [done|]. cbn.
  destruct (by_public_id publicId r && g r) eqn:E.
  - apply andb_true_iff in E as [E Eg]. apply bool_decide_eq_true in E.
    assert (by_public_id publicId' (f r) = by_public_id publicId' r) as ->.
    { unfold by_public_id. rewrite Hf; [by rewrite E|set_solver|done|done]. }
    destruct (by_public_id publicId' r).
    + unfold by_public_id. by rewrite E, Eg, bool_decide_true.
    + apply IH. intros; apply Hf; [set_solver|done|done].
  - destruct (by_public_id publicId' r); [by rewrite E|].
    apply IH. intros; apply Hf; [set_solver|done|done].
Qed.

(** With unique public ids a row of the table is the one its id finds. *)
Lemma NoDup_row_of d r :
  NoDup (public_id <$> orders d) -> r ∈ orders d -> row_of (public_id r) d = Some r.
Proof.
  unfold row_of. induction (orders d) as [|r0 t IH]; intros Hnd Hr; [by apply not_elem_of_nil in Hr|].
  rewrite fmap_cons in Hnd. apply NoDup_cons in Hnd as [Hr0 Hnd]. cbn. unfold by_public_id at 1.
  apply elem_of_cons in Hr as [->|Hr]; [by rewrite bool_decide_true|].
  rewrite bool_decide_false; [by apply IH|].
  intros Heq. apply Hr0. rewrite Heq. by apply list_elem_of_fmap_2.
Qed.

(** Unguarded updates are guarded ones. *)
Lemma sql_update_unguarded publicId f t :
  sql_update (by_public_id publicId) f t =
  sql_update (fun r => by_public_id publicId r && true) f t.
Proof. unfold sql_update. apply list_fmap_ext. intros i r _. by rewrite andb_true_r. Qed.

(** Updating one order changes its row and no other. *)
Lemma row_of_write d publicId o f publicId' :
  NoDup (public_id <$> orders d) -> row_of publicId d = Some o -> same_ids o (f o) ->
  sql_get (by_public_id publicId') (sql_update (by_public_id publicId) f (orders d)) =
  if bool_decide (publicId' = publicId) then Some (f o) else row_of publicId' d.
Proof.
  intros Hnd Ho Hid. pose proof (row_of_Some _ _ _ Ho) as [Hoin Hopid].
  rewrite sql_update_unguarded, row_of_update.
  2:{ intros r Hr Heq _. pose proof (NoDup_row_of d r Hnd Hr) as H0.
      rewrite Heq, Ho in H0. simplify_eq. destruct Hid as (_ & -> & _). done. }
  fold (row_of publicId' d). case_bool_decide as E.
  - rewrite E, Ho. unfold by_public_id. by rewrite Hopid, bool_decide_true.
  - destruct (row_of publicId' d) as [r|] eqn:Hr; [|done].
    apply row_of_Some in Hr as [_ Hr]. unfold by_public_id.
    by rewrite Hr, bool_decide_false.
Qed.

(** ** The effect of a step on a row *)

Definition evolves (Q : OrderDbRow -> OrderDbRow -> Prop) (r r' : OrderDbRow) : Prop :=
  r' = r \/ (same_ids r r' /\ Q r r').

Lemma repo_step_row Q d d' publicId r :
  NoDup (public_id <$> orders d) ->
  repo_step Q d d' -> row_of publicId d = Some r ->
  exists r', row_of publicId d' = Some r' /\ evolves Q r r'.
Proof.
  intros Hnd Hstep Hr. pose proof (row_of_Some _ _ _ Hr) as [Hin Hpid].
  destruct Hstep as [d|d pid g f Hf|d o now kind p|d pid o f now kind p Ho Hid HQ _ _
    |d pid input now _ Hnone|d pe cc sc];
    unfold row_of in *; cbn in *; try (exists r; split; [done|by left]).
  - rewrite row_of_update, Hr by (intros r0 H1 H2 H3; destruct (Hf r0 H1 H2 H3) as [(_ & -> & _) _]; done).
    eexists. split; [done|]. destruct (by_public_id pid r && g r) eqn:E; [|by left].
    apply andb_true_iff in E as [E Eg]. apply bool_decide_eq_true in E.
    destruct (Hf r Hin E Eg) as (? & ? & ?). by right.
  - rewrite (row_of_write d pid o f) by done. case_bool_decide as E.
    + subst pid. rewrite Hr in Ho. simplify_eq. eexists. split; [done|by right].
    + exists r. split; [done|by left].
  - exists r. split; [|by left]. by rewrite sql_get_app, Hr.
Qed.

(** ** The invariant *)

(** Replaying a trail from a status: each event must start where the previous
    one ended, and only a transition moves the status.  [None] marks a trail
    with a gap. *)
Fixpoint trail_run (s : OrderStatus) (es : list OrderEvent) : option OrderStatus :=
  match es with
  | [] => Some s
  | e :: es' =>
      let p := oe_payload e in
      if bool_decide (p_fromStatus p = s)
      then trail_run (if transitioned p then p_toStatus p else s) es'
      else None
  end.

Definition trail (orderId : Z) (d : Db) : list OrderEvent :=
  sql_select (fun e => oe_order_id e =? orderId) (order_events d).

Record wf_db (d : Db) : Prop := {
  wf_public : NoDup (public_id <$> orders d);
  wf_ids : NoDup (row_id <$> orders d);
  wf_next : Forall (fun r => row_id r < next_order_id d) (orders d);
  wf_event_ids : Forall (fun e => oe_order_id e < next_order_id d) (order_events d);
  wf_hashlocks : Forall (fun r => orderIdFromHashlock (hashlock r) = Ok (public_id r)) (orders d);
  wf_trail : Forall (fun r => trail_run announced (trail (row_id r) d) = Some (status r)) (orders d)
}.

Lemma wf_emptyDb : wf_db emptyDb.
Proof. split; cbn; constructor. Qed.

Lemma trail_run_app s es es' :
  trail_run s (es ++ es') = trail_run s es ≫= (fun s' => trail_run s' es').
Proof. revert s. induction es as [|e es IH]; intros s; [done|]. cbn. case_bool_decide; [apply IH|done]. Qed.

(** A status's trail after an event was logged. *)
Lemma trail_log now i kind p d j :
  trail j (log_event now i kind p d) =
  trail j d ++ (if i =? j then [mkOrderEvent (next_event_id d) i kind p (seconds now)] else []).
Proof. unfold trail, log_event, sql_select. cbn. rewrite List.filter_app. cbn. by destruct (i =? j). Qed.

Lemma trail_with_orders j t d : trail j (with_orders d t) = trail j d.
Proof. done. Qed.

Lemma elem_of_ids_unique d r o :
  NoDup (row_id <$> orders d) -> r ∈ orders d -> o ∈ orders d -> row_id r = row_id o -> r = o.
Proof.
  intros Hnd. induction (orders d) as [|x t IH]; [by intros ?%not_elem_of_nil|].
  rewrite fmap_cons in Hnd. apply NoDup_cons in Hnd as [Hx Hnd].
  intros [->|Hr]%elem_of_cons [->|Ho]%elem_of_cons Heq; auto.
  - destruct Hx. rewrite Heq. by apply list_elem_of_fmap_2.
  - destruct Hx. rewrite <- Heq. by apply list_elem_of_fmap_2.
Qed.

Lemma update_same_col {B} (col : OrderDbRow -> B) p f t :
  (forall r, r ∈ t -> p r = true -> col (f r) = col r) ->
  col <$> sql_update p f t = col <$> t.
Proof.
  induction t as [|r t IH]; intros Hf; [done|]. cbn. f_equal.
  - destruct (p r) eqn:E; [|done]. apply Hf; [set_solver|done].
  - apply IH. intros; apply Hf; [set_solver|done].
Qed.

(** A rewrite of rows that keeps their identity keeps the table's shape. *)
Lemma wf_update d p f :
  wf_db d -> (forall r, r ∈ orders d -> p r = true -> same_ids r (f r)) ->
  let t := sql_update p f (orders d) in
  NoDup (public_id <$> t) /\ NoDup (row_id <$> t) /\
  Forall (fun r => row_id r < next_order_id d) t /\
  Forall (fun r => orderIdFromHashlock (hashlock r) = Ok (public_id r)) t.
Proof.
  intros Hwf Hf t.
  assert (forall r, r ∈ t -> exists r0, r0 ∈ orders d /\ same_ids r0 r) as Ht.
  { intros r (r0 & H0 & ->)%elem_of_sql_update. exists r0. split; [done|].
    destruct (p r0) eqn:E; [by apply Hf|done]. }
  split_and!.
  - subst t. rewrite update_same_col; [apply Hwf|]. intros r Hr Hp. apply (Hf r Hr Hp).
  - subst t. rewrite update_same_col; [apply Hwf|]. intros r Hr Hp. apply (Hf r Hr Hp).
  - apply Forall_forall. intros r (r0 & H0 & -> & _)%Ht.
    by apply (proj1 (Forall_forall _ _) (wf_next _ Hwf)).
  - apply Forall_forall. intros r (r0 & H0 & _ & -> & -> & _)%Ht.
    by apply (proj1 (Forall_forall _ _) (wf_hashlocks _ Hwf)).
Qed.

(** A row's own trail reaches its status. *)
Lemma wf_trail_row d r : wf_db d -> r ∈ orders d ->
  trail_run announced (trail (row_id r) d) = Some (status r).
Proof. intros Hwf Hr. by apply (proj1 (Forall_forall _ _) (wf_trail _ Hwf)). Qed.

Lemma wf_row_id_lt d r : wf_db d -> r ∈ orders d -> row_id r < next_order_id d.
Proof. intros Hwf Hr. by apply (proj1 (Forall_forall _ _) (wf_next _ Hwf)). Qed.

Lemma wf_write Q d publicId o f now kind p :
  wf_db d -> row_of publicId d = Some o ->
  same_ids o (f o) -> Q o (f o) -> p_fromStatus p = status o ->
  status (f o) = (if transitioned p then p_toStatus p else status o) ->
  wf_db (log_event now (row_id o) kind p
           (with_orders d (sql_update (by_public_id publicId) f (orders d)))).
Proof.
  intros Hwf Ho Hid _ Hfrom Hto. pose proof (row_of_Some _ _ _ Ho) as [Hoin Hopid].
  assert (forall r, r ∈ orders d -> by_public_id publicId r = true -> r = o) as Huniq.
  { intros r Hr E%bool_decide_eq_true. pose proof (NoDup_row_of d r (wf_public _ Hwf) Hr) as H0.
    rewrite E, Ho in H0. congruence. }
  destruct (wf_update d (by_public_id publicId) f Hwf) as (H1 & H2 & H3 & H4).
  { intros r Hr E. by rewrite (Huniq r Hr E). }
  split; [done|done|done| |done|].
  - cbn. apply Forall_app. split; [apply Hwf|]. repeat constructor. cbn. by apply wf_row_id_lt.
  - apply Forall_forall. intros r (r0 & H0 & ->)%elem_of_sql_update.
    rewrite trail_log, trail_with_orders.
    destruct (by_public_id publicId r0) eqn:E.
    + rewrite (Huniq r0 H0 E). destruct Hid as (-> & _). rewrite Z.eqb_refl, trail_run_app.
      rewrite (wf_trail_row d o Hwf Hoin). cbn. rewrite bool_decide_true by done. by rewrite Hto.
    + destruct (row_id o =? row_id r0) eqn:Eid.
      * apply Z.eqb_eq in Eid. assert (r0 = o) as ->
          by (apply (elem_of_ids_unique d); [apply Hwf|done|done|done]).
        unfold by_public_id in E. by rewrite Hopid, bool_decide_true in E.
      * rewrite app_nil_r. by apply wf_trail_row.
Qed.

Lemma repo_step_wf Q d d' : repo_step Q d d' -> wf_db d -> wf_db d'.
Proof.
  intros Hstep Hwf.
  destruct Hstep as [d|d pid g f Hf|d o now kind p Ho Hfrom Hno|d pid o f now kind p Ho Hid HQ Hfrom Hto
    |d pid input now Hpid Hnone|d pe cc sc].
  - done.
  - destruct (wf_update d (fun r => by_public_id pid r && g r) f Hwf) as (H1 & H2 & H3 & H4).
    { intros r Hr [E%bool_decide_eq_true Eg]%andb_true_iff. by apply Hf. }
    split; [done|done|done|apply Hwf|done|]. cbn.
    apply Forall_forall. intros r (r0 & H0 & ->)%elem_of_sql_update.
    destruct (by_public_id pid r0 && g r0) eqn:E; [|by apply (wf_trail_row d)].
    apply andb_true_iff in E as [E%bool_decide_eq_true Eg].
    destruct (Hf r0 H0 E Eg) as ((-> & _) & -> & _). by apply (wf_trail_row d).
  - split; [apply Hwf..| |apply Hwf|].
    + cbn. apply Forall_app. split; [apply Hwf|]. repeat constructor. cbn. by apply wf_row_id_lt.
    + apply Forall_forall. intros r Hr. rewrite trail_log. destruct (row_id o =? row_id r) eqn:E.
      * apply Z.eqb_eq in E. assert (r = o) as -> by (apply (elem_of_ids_unique d); [apply Hwf|done|done|done]).
        rewrite trail_run_app, (wf_trail_row d o Hwf Hr). cbn. by rewrite bool_decide_true, Hno.
      * rewrite app_nil_r. by apply wf_trail_row.
  - by apply (wf_write Q).
  - assert (trail (next_order_id d) d = []) as Hempty.
    { unfold trail, sql_select. pose proof (wf_event_ids _ Hwf) as He.
      induction He as [|e es He _ IH]; [done|]. cbn. destruct (oe_order_id e =? next_order_id d) eqn:E; [|done].
      apply Z.eqb_eq in E. lia. }
    split; cbn.
    + rewrite fmap_app. apply NoDup_app. split_and!; [apply Hwf| |apply NoDup_singleton].
      intros x (r & -> & Hr)%list_elem_of_fmap. cbn. rewrite list_elem_of_singleton. intros Heq.
      pose proof (NoDup_row_of d r (wf_public _ Hwf) Hr) as H0. congruence.
    + rewrite fmap_app. apply NoDup_app. split_and!; [apply Hwf| |apply NoDup_singleton].
      intros x (r & -> & Hr)%list_elem_of_fmap. cbn. rewrite list_elem_of_singleton.
      apply (wf_row_id_lt d) in Hr; [lia|done].
    + apply Forall_app. split; [|repeat constructor; cbn; lia].
      eapply Forall_impl; [apply Hwf|]. cbn. lia.
    + eapply Forall_impl; [apply Hwf|]. cbn. lia.
    + apply Forall_app. split; [apply Hwf|]. by repeat constructor.
    + apply Forall_app. split; [apply (wf_trail _ Hwf)|]. repeat constructor.
      change (trail_run announced (trail (next_order_id d) d) = Some announced). by rewrite Hempty.
  - split; cbn; apply Hwf.
Qed.

(** ** Each method as an equation and as a step *)

(** A row rewrite paired with its event. *)
Definition write (now : Z) (publicId : string) (o : OrderDbRow) (f : OrderDbRow -> OrderDbRow)
    (kind : string) (p : TransitionPayload) (d : Db) : Db :=
  log_event now (row_id o) kind p
    (with_orders d (sql_update (by_public_id publicId) f (orders d))).

Lemma with_orders_same d : with_orders d (orders d) = d.
Proof. by destruct d. Qed.

Lemma select_public_eq publicId d : select_public publicId d = (Ok (row_of publicId d), d).
Proof. done. Qed.

Lemma not_by_other d publicId o r :
  NoDup (public_id <$> orders d) -> row_of publicId d = Some o ->
  r ∈ orders d -> by_public_id publicId r = true -> r = o.
Proof.
  intros Hnd Ho Hr E%bool_decide_eq_true.
  pose proof (NoDup_row_of d r Hnd Hr) as H0. rewrite E, Ho in H0. congruence.
Qed.

Lemma count_own d publicId o g :
  NoDup (public_id <$> orders d) -> row_of publicId d = Some o ->
  sql_changes (fun r => by_public_id publicId r && g r) (orders d) = if g o then 1 else 0.
Proof.
  unfold sql_changes, row_of. induction (orders d) as [|r t IH]; intros Hnd Ho; [done|].
  rewrite fmap_cons in Hnd. apply NoDup_cons in Hnd as [Hr Hnd]. cbn in Ho |- *.
  destruct (by_public_id publicId r) eqn:E; cbn; [|by apply IH].
  simplify_eq. assert (List.filter (fun r => by_public_id publicId r && g r) t = []) as Hnil.
  { clear IH. apply bool_decide_eq_true in E. induction t as [|x t IHt]; [done|]. cbn.
    rewrite fmap_cons in Hr, Hnd. apply NoDup_cons in Hnd as [_ Hnd].
    apply not_elem_of_cons in Hr as [Hne Hr].
    unfold by_public_id at 1. rewrite bool_decide_false by congruence. cbn. by apply IHt. }
  destruct (g o); cbn; by rewrite Hnil.
Qed.

(** An update guarded by a test on the row, on an order that exists. *)
Lemma run_update_guarded d publicId o g f :
  NoDup (public_id <$> orders d) -> row_of publicId d = Some o ->
  run_update (fun r => by_public_id publicId r && g r) f d =
  if g o then (Ok 1, with_orders d (sql_update (by_public_id publicId) f (orders d)))
  else (Ok 0, d).
Proof.
  intros Hnd Ho. unfold run_update. rewrite (count_own d publicId o) by done.
  destruct (g o) eqn:Eg.
  - do 2 f_equal. unfold sql_update. apply list_fmap_ext. intros i r Hi. destruct (by_public_id publicId r) eqn:E; [|done].
    assert (r = o) as -> by (apply (not_by_other d publicId); [done|done|by eapply list_elem_of_lookup_2|done]).
    by rewrite Eg.
  - rewrite sql_update_none; [by rewrite with_orders_same|].
    apply Forall_forall. intros r Hr. destruct (by_public_id publicId r) eqn:E; [|done].
    by assert (r = o) as -> by (by apply (not_by_other d publicId)).
Qed.

Lemma run_update_own d publicId o f :
  NoDup (public_id <$> orders d) -> row_of publicId d = Some o ->
  run_update (by_public_id publicId) f d =
  (Ok 1, with_orders d (sql_update (by_public_id publicId) f (orders d))).
Proof.
  intros Hnd Ho. pose proof (run_update_guarded d publicId o (fun _ => true) f Hnd Ho) as H.
  rewrite <- H. unfold run_update. rewrite <- sql_update_unguarded. do 2 f_equal.
  unfold sql_changes. do 2 f_equal. apply List.filter_ext. intros r. by rewrite andb_true_r.
Qed.

Lemma run_update_absent d publicId g f :
  row_of publicId d = None ->
  run_update (fun r => by_public_id publicId r && g r) f d = (Ok 0, d).
Proof.
  unfold row_of. intros Hn. rewrite sql_get_None in Hn. unfold run_update.
  assert (Forall (fun r => by_public_id publicId r && g r = false) (orders d)) as H.
  { eapply Forall_impl; [done|]. by intros r ->. }
  rewrite sql_update_none, with_orders_same by done.
  by rewrite (proj2 (sql_changes_zero _ _)) by by rewrite sql_get_None.
Qed.

Lemma run_update_absent' d publicId f :
  row_of publicId d = None -> run_update (by_public_id publicId) f d = (Ok 0, d).
Proof.
  intros Hn. rewrite <- (run_update_absent d publicId (fun _ => true) f Hn).
  unfold run_update. rewrite sql_update_unguarded. do 2 f_equal.
  unfold sql_changes. do 2 f_equal. apply List.filter_ext. intros r. by rewrite andb_true_r.
Qed.

#[local] Arguments run_update : simpl never.
#[local] Arguments select_public : simpl never.
#[local] Arguments log_event : simpl never.

(** Evaluate a method on an order that exists, by cases on its tests. *)
Ltac repo_some Hnd Ho :=
  unfold atomic, atomically, appendTransitionEvent, write; st_unfold;
  rewrite select_public_eq, Ho; cbn;
  repeat (first
    [ progress rewrite ?(run_update_own _ _ _ _ Hnd Ho), ?(run_update_guarded _ _ _ _ _ Hnd Ho)
    | match goal with |- context [if ?b then _ else _] => destruct b eqn:? end ]; cbn);
  try done.

Section Equations.
Context (now : Z) (d : Db) (publicId : string) (o : OrderDbRow).
Context (Hnd : NoDup (public_id <$> orders d)) (Ho : row_of publicId d = Some o).

Lemma setStatus_eq s actor :
  setStatus now publicId s actor None d =
  (Ok tt,
   if bool_decide (status o = s)
   then log_event now (row_id o) "status.no_op"
          (payload actor (status o) s "no_op:already_at_target" None None None now) d
   else write now publicId o (set_status s (seconds now)) "status.transitioned"
          (payload actor (status o) s "transitioned" None None None now) d).
Proof. unfold setStatus. repo_some Hnd Ho. Qed.

Lemma setStatus_expected_eq s actor expected :
  setStatus now publicId s actor (Some expected) d =
  if bool_decide (status o = expected)
  then (Ok tt, write now publicId o (set_status s (seconds now)) "status.transitioned"
                 (payload actor (status o) s "transitioned" None None None now) d)
  else (Throw (STALE_STATUS publicId (status o) (Some expected)), d).
Proof. unfold setStatus. repo_some Hnd Ho. Qed.

Lemma recordSecretRevealed_eq pre txHash encVersion actor :
  recordSecretRevealed now publicId pre txHash encVersion actor d =
  (Ok tt,
   if isTerminal (status o)
   then log_event now (row_id o) "secret_revealed.no_op"
          (payload (default "system" actor) (status o) (status o) "no_op:terminal"
             (Some txHash) None None now) d
   else if bool_decide (preimage o = Some pre)
   then log_event now (row_id o) "secret_revealed.no_op"
          (payload (default "system" actor) (status o) (status o) "no_op:idempotent"
             (Some txHash) None None now) d
   else write now publicId o (set_secret pre encVersion txHash (seconds now))
          "secret_revealed.transitioned"
          (payload (default "system" actor) (status o) secret_revealed "transitioned"
             (Some txHash) None None now) d).
Proof. unfold recordSecretRevealed. repo_some Hnd Ho. Qed.

Lemma rollbackSrcLock_eq actor :
  rollbackSrcLock now publicId actor d =
  (Ok tt,
   if bool_decide (status o = src_locked)
   then write now publicId o (set_src_lock None None None None announced (seconds now))
          "src_lock.rolled_back"
          (payload actor (status o) announced "transitioned" None None None now) d
   else log_event now (row_id o) "src_lock.rolled_back"
          (payload actor (status o) (status o) "no_op:not_src_locked" None None None now) d).
Proof. unfold rollbackSrcLock. repo_some Hnd Ho. Qed.

Lemma rollbackDstLock_eq actor :
  rollbackDstLock now publicId actor d =
  (Ok tt,
   if bool_decide (status o = dst_locked)
   then write now publicId o (set_dst_lock None None None None None src_locked (seconds now))
          "dst_lock.rolled_back"
          (payload actor (status o) src_locked "transitioned" None None None now) d
   else log_event now (row_id o) "dst_lock.rolled_back"
          (payload actor (status o) (status o) "no_op:not_dst_locked" None None None now) d).
Proof. unfold rollbackDstLock. repo_some Hnd Ho. Qed.

Lemma recordSrcLock_eq input :
  l_publicId input = publicId ->
  let s := nextLockStatus (status o) src_locked in
  let actor := default "system" (l_actor input) in
  recordSrcLock now input d =
  (Ok tt,
   if isTerminal (status o)
   then log_event now (row_id o) "src_lock.no_op"
          (payload actor (status o) (status o) "no_op:terminal" (Some (l_txHash input))
             (Some (l_blockNumber input)) None now) d
   else write now publicId o
          (set_src_lock (Some (l_orderId input)) (Some (l_txHash input))
             (Some (l_blockNumber input)) (Some (l_timelock input)) s (seconds now))
          (if bool_decide (s = status o) then "src_lock.no_op" else "src_lock.transitioned")
          (payload actor (status o) s
             (if bool_decide (s = status o) then "no_op:already_at_target" else "transitioned")
             (Some (l_txHash input)) (Some (l_blockNumber input)) None now) d).
Proof. intros E. unfold recordSrcLock. cbn zeta. rewrite E. repo_some Hnd Ho. Qed.

Lemma recordDstLock_eq input :
  l_publicId input = publicId ->
  let s := nextLockStatus (status o) dst_locked in
  let actor := default "system" (l_actor input) in
  recordDstLock now input d =
  (Ok tt,
   if isTerminal (status o)
   then log_event now (row_id o) "dst_lock.no_op"
          (payload actor (status o) (status o) "no_op:terminal" (Some (l_txHash input))
             (Some (l_blockNumber input)) None now) d
   else write now publicId o
          (set_dst_lock (Some (l_orderId input)) (Some (l_txHash input))
             (Some (l_blockNumber input)) (Some (l_timelock input)) (l_resolver input) s
             (seconds now))
          (if bool_decide (s = status o) then "dst_lock.no_op" else "dst_lock.transitioned")
          (payload actor (status o) s
             (if bool_decide (s = status o) then "no_op:already_at_target" else "transitioned")
             (Some (l_txHash input)) (Some (l_blockNumber input)) None now) d).
Proof. intros E. unfold recordDstLock. cbn zeta. rewrite E. repo_some Hnd Ho. Qed.

Lemma cancelOrder_eq reason actor :
  cancelOrder now publicId reason actor d =
  if isTerminal (status o)
  then (Ok tt, log_event now (row_id o) "cancel.no_op"
          (payload actor (status o) (status o) "no_op:terminal" None None (Some reason) now) d)
  else if negb (canTransition (status o) cancelled)
  then (Throw (PlainError (Some "INVALID_TRANSITION")
             ("Cannot cancel order " +:+ publicId +:+ " in status " +:+
              dquoted (status_str (status o)) +:+
              ": transition to " +:+ dquoted "cancelled" +:+ " is not allowed")), d)
  else (Ok tt, write now publicId o
          (fun r => set_cancelled cancelled reason (archived_at r) (seconds now) r)
          "cancel.transitioned"
          (payload actor (status o) cancelled "transitioned" None None (Some reason) now) d).
Proof. unfold cancelOrder. repo_some Hnd Ho. Qed.

Lemma abandonOrder_eq reason actor :
  abandonOrder now publicId reason actor d =
  (Ok tt,
   if isTerminal (status o)
   then log_event now (row_id o) "abandon.no_op"
          (payload actor (status o) (status o) "no_op:terminal" None None (Some reason) now) d
   else if negb (canTransition (status o) abandoned) then d
   else write now publicId o (set_cancelled abandoned reason (Some (seconds now)) (seconds now))
          "abandon.transitioned"
          (payload actor (status o) abandoned "transitioned" None None (Some reason) now) d).
Proof. unfold abandonOrder. repo_some Hnd Ho. Qed.
End Equations.

(** On an unknown order the writers either do nothing or report it. *)
Lemma repo_absent now d publicId :
  row_of publicId d = None ->
  (forall s a e, setStatus now publicId s a e d = (Throw (NOT_FOUND publicId), d)) /\
  (forall i, l_publicId i = publicId -> recordSrcLock now i d = (Ok tt, d)) /\
  (forall i, l_publicId i = publicId -> recordDstLock now i d = (Ok tt, d)) /\
  (forall p t e a, recordSecretRevealed now publicId p t e a d = (Ok tt, d)) /\
  (forall a, rollbackSrcLock now publicId a d = (Ok tt, d)) /\
  (forall a, rollbackDstLock now publicId a d = (Ok tt, d)) /\
  (forall r a, cancelOrder now publicId r a d = (Throw (NOT_FOUND publicId), d)) /\
  (forall r a, abandonOrder now publicId r a d = (Ok tt, d)).
Proof.
  intros Hn.
  split_and!; intros;
    unfold setStatus, recordSrcLock, recordDstLock, recordSecretRevealed, rollbackSrcLock,
      rollbackDstLock, cancelOrder, abandonOrder, atomic, atomically; st_unfold;
    repeat match goal with H : l_publicId _ = _ |- _ => rewrite H; clear H end;
    rewrite select_public_eq, Hn; cbn; try done.
  destruct e; cbn; by rewrite ?run_update_absent, ?run_update_absent' by done.
Qed.

(** A nullable cursor that does not move back. *)
Definition le_opt (a b : option Z) : Prop :=
  match a, b with
  | None, _ => True
  | Some x, Some y => x <= y
  | Some _, None => False
  end.

Lemma le_opt_refl a : le_opt a a.
Proof. destruct a; simpl; lia. Qed.

Lemma le_opt_trans a b c : le_opt a b -> le_opt b c -> le_opt a c.
Proof. destruct a, b, c; simpl; try done; lia. Qed.

Lemma le_opt_max a p : le_opt a (Some (Z.max (default 0 a) p)).
Proof. destruct a; simpl; lia. Qed.

Lemma le_opt_advance incoming a : le_opt a (advance_col incoming a).
Proof.
  unfold advance_col. destruct (usable incoming); [|apply le_opt_refl].
  destruct incoming, a; simpl; lia.
Qed.

Section Steps.
(** Any row relation that allows the cursors to advance and the archive mark
    to change. *)
Context (Q : OrderDbRow -> OrderDbRow -> Prop).
Context (Q_cursors : forall r eth soroban sol now,
  le_opt (last_eth_block r) eth -> le_opt (last_soroban_ledger r) soroban ->
  le_opt (last_solana_slot r) sol -> Q r (set_cursors eth soroban sol now r)).
Context (Q_archived : forall r a now, Q r (set_archived a now r)).

Lemma setStatus_step now d publicId s actor :
  NoDup (public_id <$> orders d) ->
  (forall o, row_of publicId d = Some o -> status o <> s -> Q o (set_status s (seconds now) o)) ->
  repo_step Q d (setStatus now publicId s actor None d).2.
Proof.
  intros Hnd HQ. destruct (row_of publicId d) as [o|] eqn:Ho.
  - rewrite (setStatus_eq now d publicId o Hnd Ho). cbn [snd]. pose proof (row_of_Some _ _ _ Ho) as [Hin _].
    case_bool_decide; [by apply rs_note|]. apply rs_write; [done|done|by apply HQ|done|done].
  - destruct (repo_absent now d publicId Ho) as [-> _]. apply rs_none.
Qed.

Lemma recordSrcLock_step now d input :
  NoDup (public_id <$> orders d) ->
  (forall o, row_of (l_publicId input) d = Some o -> isTerminal (status o) = false ->
     Q o (set_src_lock (Some (l_orderId input)) (Some (l_txHash input)) (Some (l_blockNumber input))
            (Some (l_timelock input)) (nextLockStatus (status o) src_locked) (seconds now) o)) ->
  repo_step Q d (recordSrcLock now input d).2.
Proof.
  intros Hnd HQ. destruct (row_of (l_publicId input) d) as [o|] eqn:Ho.
  - rewrite (recordSrcLock_eq now d _ o Hnd Ho input eq_refl). cbn [snd].
    pose proof (row_of_Some _ _ _ Ho) as [Hin _].
    destruct (isTerminal (status o)) eqn:E; [by apply rs_note|]. apply rs_write; [done|done|by apply HQ|done|].
    by destruct (bool_decide (nextLockStatus (status o) src_locked = status o)) eqn:Es; bools.
  - destruct (repo_absent now d _ Ho) as (_ & -> & _); [apply rs_none|done].
Qed.

Lemma recordDstLock_step now d input :
  NoDup (public_id <$> orders d) ->
  (forall o, row_of (l_publicId input) d = Some o -> isTerminal (status o) = false ->
     Q o (set_dst_lock (Some (l_orderId input)) (Some (l_txHash input)) (Some (l_blockNumber input))
            (Some (l_timelock input)) (l_resolver input) (nextLockStatus (status o) dst_locked)
            (seconds now) o)) ->
  repo_step Q d (recordDstLock now input d).2.
Proof.
  intros Hnd HQ. destruct (row_of (l_publicId input) d) as [o|] eqn:Ho.
  - rewrite (recordDstLock_eq now d _ o Hnd Ho input eq_refl). cbn [snd].
    pose proof (row_of_Some _ _ _ Ho) as [Hin _].
    destruct (isTerminal (status o)) eqn:E; [by apply rs_note|]. apply rs_write; [done|done|by apply HQ|done|].
    by destruct (bool_decide (nextLockStatus (status o) dst_locked = status o)) eqn:Es; bools.
  - destruct (repo_absent now d _ Ho) as (_ & _ & -> & _); [apply rs_none|done].
Qed.

Lemma recordSecretRevealed_step now d publicId pre txHash enc actor :
  NoDup (public_id <$> orders d) ->
  (forall o, row_of publicId d = Some o -> isTerminal (status o) = false ->
     preimage o <> Some pre -> Q o (set_secret pre enc txHash (seconds now) o)) ->
  repo_step Q d (recordSecretRevealed now publicId pre txHash enc actor d).2.
Proof.
  intros Hnd HQ. destruct (row_of publicId d) as [o|] eqn:Ho.
  - rewrite (recordSecretRevealed_eq now d publicId o Hnd Ho). cbn [snd].
    pose proof (row_of_Some _ _ _ Ho) as [Hin _].
    destruct (isTerminal (status o)) eqn:E; [by apply rs_note|].
    case_bool_decide; [by apply rs_note|]. apply rs_write; [done|done|by apply HQ|done|done].
  - destruct (repo_absent now d publicId Ho) as (_ & _ & _ & -> & _). apply rs_none.
Qed.

Lemma rollbackSrcLock_step now d publicId actor :
  NoDup (public_id <$> orders d) ->
  (forall o, row_of publicId d = Some o -> status o = src_locked ->
     Q o (set_src_lock None None None None announced (seconds now) o)) ->
  repo_step Q d (rollbackSrcLock now publicId actor d).2.
Proof.
  intros Hnd HQ. destruct (row_of publicId d) as [o|] eqn:Ho.
  - rewrite (rollbackSrcLock_eq now d publicId o Hnd Ho). cbn [snd].
    pose proof (row_of_Some _ _ _ Ho) as [Hin _].
    case_bool_decide; [|by apply rs_note]. apply rs_write; [done|done|by apply HQ|done|done].
  - destruct (repo_absent now d publicId Ho) as (_ & _ & _ & _ & -> & _). apply rs_none.
Qed.

Lemma rollbackDstLock_step now d publicId actor :
  NoDup (public_id <$> orders d) ->
  (forall o, row_of publicId d = Some o -> status o = dst_locked ->
     Q o (set_dst_lock None None None None None src_locked (seconds now) o)) ->
  repo_step Q d (rollbackDstLock now publicId actor d).2.
Proof.
  intros Hnd HQ. destruct (row_of publicId d) as [o|] eqn:Ho.
  - rewrite (rollbackDstLock_eq now d publicId o Hnd Ho). cbn [snd].
    pose proof (row_of_Some _ _ _ Ho) as [Hin _].
    case_bool_decide; [|by apply rs_note]. apply rs_write; [done|done|by apply HQ|done|done].
  - destruct (repo_absent now d publicId Ho) as (_ & _ & _ & _ & _ & -> & _). apply rs_none.
Qed.

Lemma cancelOrder_step now d publicId reason actor :
  NoDup (public_id <$> orders d) ->
  (forall o, row_of publicId d = Some o -> canTransition (status o) cancelled = true ->
     Q o (set_cancelled cancelled reason (archived_at o) (seconds now) o)) ->
  repo_step Q d (cancelOrder now publicId reason actor d).2.
Proof.
  intros Hnd HQ. destruct (row_of publicId d) as [o|] eqn:Ho.
  - rewrite (cancelOrder_eq now d publicId o Hnd Ho). pose proof (row_of_Some _ _ _ Ho) as [Hin _].
    destruct (isTerminal (status o)); [by apply rs_note|].
    destruct (canTransition (status o) cancelled) eqn:E; [|apply rs_none]. apply rs_write; [done|done|by apply HQ|done|done].
  - destruct (repo_absent now d publicId Ho) as (_ & _ & _ & _ & _ & _ & -> & _). apply rs_none.
Qed.

Lemma abandonOrder_step now d publicId reason actor :
  NoDup (public_id <$> orders d) ->
  (forall o, row_of publicId d = Some o -> canTransition (status o) abandoned = true ->
     Q o (set_cancelled abandoned reason (Some (seconds now)) (seconds now) o)) ->
  repo_step Q d (abandonOrder now publicId reason actor d).2.
Proof.
  intros Hnd HQ. destruct (row_of publicId d) as [o|] eqn:Ho.
  - rewrite (abandonOrder_eq now d publicId o Hnd Ho). cbn [snd].
    pose proof (row_of_Some _ _ _ Ho) as [Hin _].
    destruct (isTerminal (status o)); [by apply rs_note|].
    destruct (canTransition (status o) abandoned) eqn:E; [|apply rs_none]. apply rs_write; [done|done|by apply HQ|done|done].
  - destruct (repo_absent now d publicId Ho) as (_ & _ & _ & _ & _ & _ & _ & ->). apply rs_none.
Qed.

Lemma setStatus_expected_step now d publicId s actor expected :
  NoDup (public_id <$> orders d) ->
  (forall o, row_of publicId d = Some o -> status o = expected -> Q o (set_status s (seconds now) o)) ->
  repo_step Q d (setStatus now publicId s actor (Some expected) d).2.
Proof.
  intros Hnd HQ. destruct (row_of publicId d) as [o|] eqn:Ho.
  - rewrite (setStatus_expected_eq now d publicId o Hnd Ho). case_bool_decide; [|apply rs_none].
    apply rs_write; [done|done|by apply HQ|done|done].
  - destruct (repo_absent now d publicId Ho) as [-> _]. apply rs_none.
Qed.

(** The bookkeeping writers. *)
Lemma touch_cursors d publicId eth soroban sol now :
  (forall r, le_opt (last_eth_block r) (eth r) /\ le_opt (last_soroban_ledger r) (soroban r) /\
             le_opt (last_solana_slot r) (sol r)) ->
  repo_step Q d (with_orders d (sql_update (by_public_id publicId)
    (fun r => set_cursors (eth r) (soroban r) (sol r) now r) (orders d))).
Proof.
  intros Hle. rewrite sql_update_unguarded. apply (rs_touch Q d publicId (fun _ => true)).
  intros r _ _ _. split_and!; [done..|]. by apply Q_cursors; apply Hle.
Qed.

Lemma updateOrderCursor_step now d publicId chain position :
  repo_step Q d (updateOrderCursor now publicId chain position d).2.
Proof.
  destruct chain.
  - apply (touch_cursors d publicId (fun r => Some (Z.max (default 0 (last_eth_block r)) position))
      last_soroban_ledger last_solana_slot). auto using le_opt_refl, le_opt_max.
  - apply (touch_cursors d publicId last_eth_block
      (fun r => Some (Z.max (default 0 (last_soroban_ledger r)) position)) last_solana_slot).
    auto using le_opt_refl, le_opt_max.
  - apply (touch_cursors d publicId last_eth_block last_soroban_ledger
      (fun r => Some (Z.max (default 0 (last_solana_slot r)) position))).
    auto using le_opt_refl, le_opt_max.
Qed.

Lemma advanceOrderLedgerCursor_step now d publicId update :
  repo_step Q d (advanceOrderLedgerCursor now publicId update d).2.
Proof.
  unfold advanceOrderLedgerCursor. destruct (negb _); [apply rs_none|].
  apply touch_cursors. auto using le_opt_advance.
Qed.

Lemma archiveOrder_step now d publicId : repo_step Q d (archiveOrder now publicId d).2.
Proof.
  apply (rs_touch Q d publicId (fun r => bool_decide (archived_at r = None))).
  intros r _ _ _. split_and!; [done|done|by apply Q_archived].
Qed.

Lemma unarchiveOrder_step now d publicId : repo_step Q d (unarchiveOrder now publicId d).2.
Proof.
  apply (rs_touch Q d publicId (fun r => bool_decide (is_Some (archived_at r)))).
  intros r _ _ _. split_and!; [done|done|by apply Q_archived].
Qed.

Lemma claimEvent_step k c e oid d : repo_step Q d (claimEvent k c e oid d).2.
Proof. unfold claimEvent. destruct (_ !! k); [apply rs_none|apply rs_tables]. Qed.

Lemma setChainCursor_step now c p d : repo_step Q d (setChainCursor now c p d).2.
Proof. apply rs_tables. Qed.

Lemma saveSorobanCheckpoint_step now c l cur m d :
  repo_step Q d (saveSorobanCheckpoint now c l cur m d).2.
Proof. apply rs_tables. Qed.

Lemma markSorobanRecovery_step now c m d : repo_step Q d (markSorobanRecovery now c m d).2.
Proof. unfold markSorobanRecovery. destruct (_ !! c); [apply rs_tables|apply rs_none]. Qed.

Lemma announce_step now d input : repo_step Q d (announce now input d).2.
Proof.
  unfold announce. destruct (orderIdFromHashlock (a_hashlock input)) as [publicId|] eqn:E; [|apply rs_none].
  destruct (sql_get (by_public_id publicId) (orders d)) eqn:Hn; [apply rs_none|].
  case_match; by apply rs_insert.
Qed.
End Steps.

(** ** Which table a method writes *)

Section Tables.
Context {B : Type} (g : Db -> B).

Lemma keeps_atomic {A} (m : Repo A) : keeps g m -> keeps g (atomic m).
Proof.
  intros Hm d. unfold atomic, atomically. pose proof (Hm d) as Hd.
  by destruct (m d) as [[a|e] d'].
Qed.

Lemma keeps_run_update p f :
  (forall d t, g (with_orders d t) = g d) -> keeps g (run_update p f).
Proof. intros H d. apply H. Qed.

Lemma keeps_append now i k p :
  (forall d t, g (with_events d t) = g d) -> keeps g (appendTransitionEvent now i k p).
Proof. intros H d. apply H. Qed.
End Tables.

#[export] Hint Resolve keeps_atomic keeps_run_update keeps_append : keeps.

(** The three ledgers beside the orders. *)
Definition ledgers (d : Db) : gmap string ProcessedEvent * gmap Chain (Z * Z) * gmap string SorobanCheckpoint :=
  (processed_events d, chain_cursors d, soroban_checkpoints d).

(** The order methods do not touch the ledgers. *)
Ltac keeps_ledgers :=
  repeat first [apply keeps_atomic | progress keeps_solve]; by intros; cbn.

Lemma announce_ledgers now i : keeps ledgers (announce now i).
Proof. intros d. unfold announce. by repeat (case_match; cbn). Qed.
Lemma setStatus_ledgers now p s a e : keeps ledgers (setStatus now p s a e).
Proof. unfold setStatus, select_public. keeps_ledgers. Qed.
Lemma recordSrcLock_ledgers now i : keeps ledgers (recordSrcLock now i).
Proof. unfold recordSrcLock, select_public. keeps_ledgers. Qed.
Lemma recordDstLock_ledgers now i : keeps ledgers (recordDstLock now i).
Proof. unfold recordDstLock, select_public. keeps_ledgers. Qed.
Lemma recordSecretRevealed_ledgers now p pre t e a : keeps ledgers (recordSecretRevealed now p pre t e a).
Proof. unfold recordSecretRevealed, select_public. keeps_ledgers. Qed.
Lemma rollbackSrcLock_ledgers now p a : keeps ledgers (rollbackSrcLock now p a).
Proof. unfold rollbackSrcLock, select_public. keeps_ledgers. Qed.
Lemma rollbackDstLock_ledgers now p a : keeps ledgers (rollbackDstLock now p a).
Proof. unfold rollbackDstLock, select_public. keeps_ledgers. Qed.
Lemma cancelOrder_ledgers now p r a : keeps ledgers (cancelOrder now p r a).
Proof. unfold cancelOrder, select_public. keeps_ledgers. Qed.
Lemma abandonOrder_ledgers now p r a : keeps ledgers (abandonOrder now p r a).
Proof. unfold abandonOrder, select_public. keeps_ledgers. Qed.
Lemma archiveOrder_ledgers now p : keeps ledgers (archiveOrder now p).
Proof. unfold archiveOrder. keeps_ledgers. Qed.
Lemma unarchiveOrder_ledgers now p : keeps ledgers (unarchiveOrder now p).
Proof. unfold unarchiveOrder. keeps_ledgers. Qed.
Lemma updateOrderCursor_ledgers now p c x : keeps ledgers (updateOrderCursor now p c x).
Proof. unfold updateOrderCursor. keeps_ledgers. Qed.
Lemma advanceOrderLedgerCursor_ledgers now p u : keeps ledgers (advanceOrderLedgerCursor now p u).
Proof. unfold advanceOrderLedgerCursor. keeps_ledgers. Qed.

#[export] Hint Resolve announce_ledgers setStatus_ledgers recordSrcLock_ledgers recordDstLock_ledgers
  recordSecretRevealed_ledgers rollbackSrcLock_ledgers rollbackDstLock_ledgers cancelOrder_ledgers
  abandonOrder_ledgers archiveOrder_ledgers unarchiveOrder_ledgers updateOrderCursor_ledgers
  advanceOrderLedgerCursor_ledgers : keeps.
