(* ===== verification/OrdersRepoSpec.v ===== *)
(** * The contract of the orders repository.

    The writing methods of [OrdersRepository] as one type of calls, what any
    sequence of calls preserves, and what the durable ledgers promise. *)

From S2P Require Import Prelude OrderMachine TransactionContract OrderRow OrdersRepo OrdersRepoFacts.

(** A call of a method that writes. *)
Inductive RepoCall : Type :=
| CallAnnounce (input : AnnounceOrderInput)
| CallSetStatus (publicId : string) (s : OrderStatus) (actor : string) (expected : option OrderStatus)
| CallRecordSrcLock (input : LockInput)
| CallRecordDstLock (input : LockInput)
| CallRecordSecret (publicId pre txHash : string) (enc : option Z) (actor : option string)
| CallRollbackSrc (publicId actor : string)
| CallRollbackDst (publicId actor : string)
| CallCancel (publicId reason actor : string)
| CallAbandon (publicId reason actor : string)
| CallArchive (publicId : string)
| CallUnarchive (publicId : string)
| CallClaimEvent (key chain eventType : string) (orderId : option Z)
| CallSetChainCursor (chain : Chain) (position : Z)
| CallUpdateOrderCursor (publicId : string) (chain : Chain) (position : Z)
| CallAdvanceCursor (publicId : string) (update : OrderLedgerCursor)
| CallSaveCheckpoint (contract : string) (ledger : Z) (cur : option string) (m : SorobanRecoveryMarker)
| CallMarkRecovery (contract : string) (m : SorobanRecoveryMarker).

(** The database after a call at time [now]; a thrown error is the caller's. *)
Definition run_call (now : Z) (c : RepoCall) (d : Db) : Db :=
  match c with
  | CallAnnounce input => (announce now input d).2
  | CallSetStatus p s a e => (setStatus now p s a e d).2
  | CallRecordSrcLock i => (recordSrcLock now i d).2
  | CallRecordDstLock i => (recordDstLock now i d).2
  | CallRecordSecret p pre t e a => (recordSecretRevealed now p pre t e a d).2
  | CallRollbackSrc p a => (rollbackSrcLock now p a d).2
  | CallRollbackDst p a => (rollbackDstLock now p a d).2
  | CallCancel p r a => (cancelOrder now p r a d).2
  | CallAbandon p r a => (abandonOrder now p r a d).2
  | CallArchive p => (archiveOrder now p d).2
  | CallUnarchive p => (unarchiveOrder now p d).2
  | CallClaimEvent k c e o => (claimEvent k c e o d).2
  | CallSetChainCursor c p => (setChainCursor now c p d).2
  | CallUpdateOrderCursor p c x => (updateOrderCursor now p c x d).2
  | CallAdvanceCursor p u => (advanceOrderLedgerCursor now p u d).2
  | CallSaveCheckpoint c l cur m => (saveSorobanCheckpoint now c l cur m d).2
  | CallMarkRecovery c m => (markSorobanRecovery now c m d).2
  end.

Definition run_calls (cs : list (Z * RepoCall)) (d : Db) : Db :=
  fold_left (fun d c => run_call c.1 c.2 d) cs d.

(** No cursor of the row moves back. *)
Definition cursors_le (r r' : OrderDbRow) : Prop :=
  forall chain, le_opt (cursor_col chain r) (cursor_col chain r').

Lemma cursors_le_refl r : cursors_le r r.
Proof. intros c. apply le_opt_refl. Qed.

(** Every call is a step of the repository that moves no row cursor back. *)
Lemma run_call_step now c d : wf_db d -> repo_step cursors_le d (run_call now c d).
Proof.
  intros Hwf. pose proof (wf_public _ Hwf) as Hnd.
  assert (forall r a n, cursors_le r (set_archived a n r)) as Ha
    by (intros r a n []; apply le_opt_refl).
  assert (forall r e s l n, le_opt (last_eth_block r) e -> le_opt (last_soroban_ledger r) s ->
    le_opt (last_solana_slot r) l -> cursors_le r (set_cursors e s l n r)) as Hc
    by (by intros r e s l n ? ? ? []).
  destruct c as [| ? ? ? [?|] | | | | | | | | | | | | | | |]; cbn;
    [apply announce_step | apply setStatus_expected_step | apply setStatus_step | apply recordSrcLock_step
    | apply recordDstLock_step | apply recordSecretRevealed_step | apply rollbackSrcLock_step
    | apply rollbackDstLock_step | apply cancelOrder_step | apply abandonOrder_step
    | apply archiveOrder_step | apply unarchiveOrder_step | apply claimEvent_step
    | apply setChainCursor_step | apply updateOrderCursor_step | apply advanceOrderLedgerCursor_step
    | apply saveSorobanCheckpoint_step | apply markSorobanRecovery_step];
    try done; intros; intros []; apply le_opt_refl.
Qed.

Lemma run_calls_wf cs d : wf_db d -> wf_db (run_calls cs d).
Proof.
  revert d. induction cs as [|[now c] cs IH]; intros d Hwf; [done|]. cbn. apply IH.
  eapply repo_step_wf; [by apply run_call_step|done].
Qed.

(** C6.  The event trail is complete: after any sequence of repository calls
    on a fresh database, replaying an order's [order_events] from [announced]
    has no gap - each event starts from the status the previous one left - and
    ends in the status the mutable [orders] row holds. *)
Theorem trail_reconstructs_status (cs : list (Z * RepoCall)) (publicId : string) (r : OrderDbRow) :
  let d := run_calls cs emptyDb in
  row_of publicId d = Some r ->
  exists es, findTransitionEvents publicId d = (Ok es, d) /\
             trail_run announced es = Some (status r).
Proof.
  intros d Hr. assert (wf_db d) as Hwf by (apply run_calls_wf, wf_emptyDb).
  exists (trail (row_id r) d). split.
  - unfold findTransitionEvents, gets. unfold row_of in Hr. by rewrite Hr.
  - apply wf_trail_row; [done|]. by apply row_of_Some in Hr as [? _].
Qed.

(** A small lifecycle to evaluate the theorems on. *)
Definition demo_hashlock : string :=
  "0x00112233445566778899aabbccddeeff00112233445566778899aabbccddeeff".
Definition demo_input : AnnounceOrderInput :=
  mkAnnounceOrderInput eth_to_xlm demo_hashlock ethereum "0xaa" "native" "100" "1" stellar "GA"
    "native" "200".
Definition demo_id : string := "wf_" +:+ demo_hashlock.
Definition demo_calls : list (Z * RepoCall) :=
  [(1000, CallAnnounce demo_input);
   (2000, CallRecordSrcLock (mkLockInput demo_id "7" "0xt1" 100 90000 None None));
   (3000, CallRollbackSrc demo_id "reorg");
   (4000, CallRecordSrcLock (mkLockInput demo_id "7" "0xt2" 101 90000 None None));
   (5000, CallRecordDstLock (mkLockInput demo_id "9" "st1" 55 80000 (Some "r1") None));
   (6000, CallRecordSecret demo_id "0xpre" "0xt3" None None);
   (7000, CallSetStatus demo_id completed "system" None)].

Lemma trail_reconstructs_status_witness :
  exists r es, row_of demo_id (run_calls demo_calls emptyDb) = Some r /\ status r = completed /\
    findTransitionEvents demo_id (run_calls demo_calls emptyDb) = (Ok es, run_calls demo_calls emptyDb) /\
    trail_run announced es = Some (status r).
Proof.
  destruct (row_of demo_id (run_calls demo_calls emptyDb)) as [r|] eqn:Hr; [|by vm_compute in Hr].
  destruct (trail_reconstructs_status demo_calls demo_id r Hr) as (es & H1 & H2).
  exists r, es. split_and!; [done| |done|done]. vm_compute in Hr. by injection Hr as <-.
Defined.

(** C7.  Orders are never lost, renamed or duplicated: after any sequence of
    calls every earlier order is still there with the same id, hashlock,
    route and parties, and two orders whose hashlocks differ at most in letter
    case are the same order. *)
Theorem orders_persist_and_hashlocks_unique (cs cs' : list (Z * RepoCall)) :
  let d := run_calls cs emptyDb in
  let d' := run_calls cs' d in
  (forall publicId r, row_of publicId d = Some r ->
     exists r', row_of publicId d' = Some r' /\ same_ids r r') /\
  (forall r1 r2, r1 ∈ orders d' -> r2 ∈ orders d' ->
     toLowerCase (hashlock r1) = toLowerCase (hashlock r2) -> r1 = r2).
Proof.
  intros d d'. assert (wf_db d) as Hwf by (apply run_calls_wf, wf_emptyDb).
  assert (wf_db d') as Hwf' by (by apply run_calls_wf). split.
  - intros publicId r Hr. clear Hwf'. subst d'. revert r Hr. clearbody d. revert d Hwf.
    induction cs' as [|[now c] cs' IH]; intros d Hwf r Hr; [by exists r|]. cbn.
    destruct (repo_step_row cursors_le d (run_call now c d) publicId r) as (r1 & Hr1 & Hev);
      [apply Hwf|by apply run_call_step|done|].
    destruct (IH (run_call now c d)) with (r := r1) as (r' & Hr' & Hid');
      [eapply repo_step_wf; [by apply run_call_step|done]|done|].
    exists r'. split; [done|]. destruct Hev as [->|[Hid _]]; [done|]. by eapply same_ids_trans.
  - intros r1 r2 H1 H2 Heq.
    pose proof (proj1 (Forall_forall _ _) (wf_hashlocks _ Hwf') r1 H1) as E1.
    pose proof (proj1 (Forall_forall _ _) (wf_hashlocks _ Hwf') r2 H2) as E2.
    unfold orderIdFromHashlock in E1, E2.
    destruct (negb (isHex32 (hashlock r1))); [done|]. destruct (negb (isHex32 (hashlock r2))); [done|].
    pose proof (NoDup_row_of d' r1 (wf_public _ Hwf') H1) as F1.
    pose proof (NoDup_row_of d' r2 (wf_public _ Hwf') H2) as F2.
    assert (public_id r1 = public_id r2) as Hp by (rewrite Heq in E1; congruence).
    rewrite Hp, F2 in F1. congruence.
Qed.

(** The position of a chain cursor and of a checkpoint, [NULL] when missing. *)
Definition chain_position (c : Chain) (d : Db) : option Z := fst <$> chain_cursors d !! c.
Definition safe_ledger (contract : string) (d : Db) : option Z :=
  lastSafeLedger <$> soroban_checkpoints d !! contract.

(** What a call may do to the three ledgers: keep every claimed key, move no
    cursor back. *)
Definition ledgers_advance (d d' : Db) : Prop :=
  (forall k, is_Some (processed_events d !! k) -> processed_events d' !! k = processed_events d !! k) /\
  (forall ch, le_opt (chain_position ch d) (chain_position ch d')) /\
  (forall k, le_opt (safe_ledger k d) (safe_ledger k d')).

Lemma ledgers_same d d' : ledgers d' = ledgers d -> ledgers_advance d d'.
Proof.
  unfold ledgers, ledgers_advance, chain_position, safe_ledger. intros [= -> -> ->].
  split_and!; intros; auto using le_opt_refl.
Qed.

Lemma setChainCursor_advance now c p d : ledgers_advance d (setChainCursor now c p d).2.
Proof.
  split_and!; [done| |intros; apply le_opt_refl]. intros ch. unfold chain_position. cbn.
  destruct (decide (c = ch)) as [->|Hne]; [|rewrite lookup_insert_ne by done; apply le_opt_refl].
  rewrite lookup_insert_eq. destruct (chain_cursors d !! ch) as [[old u]|]; simpl; lia.
Qed.

Lemma saveSorobanCheckpoint_advance now c l cur m d :
  ledgers_advance d (saveSorobanCheckpoint now c l cur m d).2.
Proof.
  split_and!; [done|intros; apply le_opt_refl|]. intros k. unfold safe_ledger. cbn.
  destruct (decide (c = k)) as [->|Hne]; [|rewrite lookup_insert_ne by done; apply le_opt_refl].
  rewrite lookup_insert_eq. destruct (soroban_checkpoints d !! k) as [old|]; simpl; [|done].
  destruct (lastSafeLedger old <? l) eqn:E; bools; simpl; lia.
Qed.

Lemma markSorobanRecovery_advance now c m d : ledgers_advance d (markSorobanRecovery now c m d).2.
Proof.
  unfold markSorobanRecovery. destruct (soroban_checkpoints d !! c) as [old|] eqn:E;
    [|by apply ledgers_same].
  split_and!; [done|intros; apply le_opt_refl|]. intros k. unfold safe_ledger. cbn.
  destruct (decide (c = k)) as [->|Hne]; [|rewrite lookup_insert_ne by done; apply le_opt_refl].
  rewrite lookup_insert_eq, E. simpl. lia.
Qed.

Lemma claimEvent_advance k c e o d : ledgers_advance d (claimEvent k c e o d).2.
Proof.
  unfold claimEvent. destruct (processed_events d !! k) eqn:E; [by apply ledgers_same|].
  split_and!; [|intros; apply le_opt_refl..]. intros k' [x Hk']. cbn.
  rewrite lookup_insert_ne; [done|]. intros <-. congruence.
Qed.

Lemma run_call_ledgers now c d : ledgers_advance d (run_call now c d).
Proof.
  destruct c; cbn [run_call];
    auto using claimEvent_advance, setChainCursor_advance, saveSorobanCheckpoint_advance,
      markSorobanRecovery_advance;
    apply ledgers_same;
    match goal with |- ledgers (?m d).2 = _ => refine ((_ : keeps ledgers m) d) end;
    auto with keeps.
Qed.

Lemma run_calls_processed cs d k :
  is_Some (processed_events d !! k) -> processed_events (run_calls cs d) !! k = processed_events d !! k.
Proof.
  revert d. induction cs as [|[now c] cs IH]; intros d Hk; [done|]. cbn.
  destruct (run_call_ledgers now c d) as [H _]. rewrite IH; rewrite H; done.
Qed.

(** C8.  Cursors never regress: whatever a repository call does, no chain
    cursor, no Soroban safe ledger and no per-order cursor is lower after it
    than before, whatever position the caller passes. *)
Theorem cursors_never_regress (cs : list (Z * RepoCall)) (now : Z) (c : RepoCall) :
  let d := run_calls cs emptyDb in
  let d' := run_call now c d in
  (forall chain, le_opt (chain_position chain d) (chain_position chain d')) /\
  (forall contract, le_opt (safe_ledger contract d) (safe_ledger contract d')) /\
  (forall publicId r, row_of publicId d = Some r ->
     exists r', row_of publicId d' = Some r' /\
       forall chain, le_opt (cursor_col chain r) (cursor_col chain r')).
Proof.
  intros d d'. assert (wf_db d) as Hwf by (apply run_calls_wf, wf_emptyDb).
  destruct (run_call_ledgers now c d) as (_ & H1 & H2). split_and!; [done|done|].
  intros publicId r Hr.
  destruct (repo_step_row cursors_le d d' publicId r) as (r' & Hr' & [->|[_ Hle]]);
    [apply Hwf|by apply run_call_step|done|exists r|exists r']; split; auto using cursors_le_refl.
  apply cursors_le_refl.
Qed.

(** Exactly-once claims: an unclaimed event key is granted, and once it
    has been granted no later claim of the same key is, whatever calls run in
    between and whatever chain or event type the second claim names. *)
Lemma claimEvent_exactly_once (key chain eventType : string) (orderId : option Z) (d : Db)
    (cs : list (Z * RepoCall)) (chain' eventType' : string) (orderId' : option Z) :
  (processed_events d !! key = None -> (claimEvent key chain eventType orderId d).1 = Ok true) /\
  (let d1 := run_calls cs (claimEvent key chain eventType orderId d).2 in
   claimEvent key chain' eventType' orderId' d1 = (Ok false, d1) /\
   hasProcessedEvent key d1 = (Ok true, d1)).
Proof.
  split; [unfold claimEvent; by intros ->|]. intros d1.
  assert (is_Some (processed_events d1 !! key)) as [x Hx].
  { assert (is_Some (processed_events (claimEvent key chain eventType orderId d).2 !! key)) as Hc.
    { unfold claimEvent. destruct (processed_events d !! key) eqn:E; cbn; [by rewrite E|].
      by rewrite lookup_insert_eq. }
    subst d1. by rewrite run_calls_processed. }
  unfold claimEvent, hasProcessedEvent, gets. rewrite Hx. split; [done|].
  rewrite bool_decide_true; done.
Qed.
