(* ===== verification/Pagination.v ===== *)
(** * Order history pages
    ([findByAddressWithCursor] of coordinator/src/persistence/orders-repo.ts).

    Walking the pages of an address's history from the first page, sending
    [nextCursor] back as it came until it is null, lists every order of that address exactly
    once, newest first - the reference being the whole sorted selection. *)

From stdpp Require Import sorting.
From S2P Require Import Prelude OrderMachine OrderRow Json PageCursor OrdersRepo OrdersRepoFacts OrdersRepoSpec.

Definition newer_than (a b : OrderDbRow) : Prop := newer_id a b = true.

Lemma newer_id_spec a b :
  newer_than a b <-> created_at b < created_at a \/ (created_at a = created_at b /\ row_id b < row_id a).
Proof.
  unfold newer_than, newer_id. rewrite orb_true_iff, andb_true_iff, !Z.ltb_lt, Z.eqb_eq. done.
Qed.

#[export] Instance newer_than_trans : Transitive newer_than.
Proof. intros a b c. rewrite !newer_id_spec. lia. Qed.

#[export] Instance newer_than_antisymm : AntiSymm (=) newer_than.
Proof. intros a b. rewrite !newer_id_spec. lia. Qed.

Lemma newer_than_irrefl a : ~ newer_than a a.
Proof. rewrite newer_id_spec. lia. Qed.

(** Rows with different ids are comparable. *)
Lemma newer_id_total a b : row_id a <> row_id b -> newer_id a b = false -> newer_than b a.
Proof.
  intros Hne Hab. destruct (newer_id b a) eqn:E; [done|].
  assert (~ newer_than a b) as H1 by (unfold newer_than; by rewrite Hab).
  assert (~ newer_than b a) as H2 by (unfold newer_than; by rewrite E).
  rewrite newer_id_spec in H1, H2. lia.
Qed.

Lemma sql_insert_perm (before : OrderDbRow -> OrderDbRow -> bool) x t : sql_insert before x t ≡ₚ x :: t.
Proof.
  induction t as [|y t IH]; [done|]. cbn. destruct (before y x); [|done].
  rewrite IH. constructor.
Qed.

Lemma sql_order_cons (before : OrderDbRow -> OrderDbRow -> bool) x t :
  sql_order before (x :: t) = sql_insert before x (sql_order before t).
Proof. done. Qed.

Lemma sql_order_perm (before : OrderDbRow -> OrderDbRow -> bool) t : sql_order before t ≡ₚ t.
Proof. induction t as [|x t IH]; [done|]. by rewrite sql_order_cons, sql_insert_perm, IH. Qed.

Lemma sql_insert_sorted x t :
  row_id x ∉ row_id <$> t -> StronglySorted newer_than t -> StronglySorted newer_than (sql_insert newer_id x t).
Proof.
  induction t as [|y t IH]; intros Hx Hs; [by repeat constructor|]. cbn.
  rewrite fmap_cons, not_elem_of_cons in Hx. destruct Hx as [Hxy Hx].
  inversion Hs as [|? ? Hs' Hall]; subst.
  destruct (newer_id y x) eqn:E.
  - constructor; [by apply IH|]. rewrite sql_insert_perm. by constructor.
  - assert (newer_than x y) as Hyx by (apply newer_id_total; [congruence|done]).
    constructor; [done|]. constructor; [done|].
    eapply Forall_impl; [done|]. intros z Hz. by trans y.
Qed.

Lemma sql_order_sorted t :
  NoDup (row_id <$> t) -> StronglySorted newer_than (sql_order newer_id t).
Proof.
  induction t as [|x t IH]; intros Hnd; [constructor|]. rewrite sql_order_cons.
  rewrite fmap_cons in Hnd. apply NoDup_cons in Hnd as [Hx Hnd].
  apply sql_insert_sorted; [|by apply IH]. by rewrite sql_order_perm.
Qed.

Lemma filter_sorted (p : OrderDbRow -> bool) t :
  StronglySorted newer_than t -> StronglySorted newer_than (List.filter p t).
Proof.
  induction 1 as [|x t Hs IH Hall]; [constructor|]. cbn. destruct (p x); [|done].
  constructor; [done|]. rewrite Forall_forall in Hall |- *. intros y Hy.
  apply Hall. rewrite list_elem_of_In in Hy |- *. by apply filter_In in Hy as [? _].
Qed.

Lemma filter_perm (p : OrderDbRow -> bool) t t' : t ≡ₚ t' -> List.filter p t ≡ₚ List.filter p t'.
Proof.
  induction 1 as [|x t t' _ IH|x y t|t1 t2 t3 _ IH1 _ IH2]; cbn; [done| | |by etrans].
  - destruct (p x); [by rewrite IH|done].
  - destruct (p x), (p y); try done. constructor.
Qed.

(** Selecting from the sorted table is sorting the selection. *)
Lemma sql_order_filter p t :
  NoDup (row_id <$> t) -> NoDup (row_id <$> List.filter p t) ->
  sql_order newer_id (List.filter p t) = List.filter p (sql_order newer_id t).
Proof.
  intros H1 H2. apply (StronglySorted_unique newer_than).
  - by apply sql_order_sorted.
  - by apply filter_sorted, sql_order_sorted.
  - rewrite sql_order_perm. apply filter_perm. symmetry. apply sql_order_perm.
Qed.

Lemma filter_sublist {A} (p : A -> bool) t : List.filter p t `sublist_of` t.
Proof. induction t as [|x t IH]; [constructor|]. cbn. destruct (p x); by constructor. Qed.

Lemma NoDup_ids_filter p t : NoDup (row_id <$> t) -> NoDup (row_id <$> List.filter p t).
Proof. intros Hnd. eapply sublist_NoDup; [done|]. apply fmap_sublist, filter_sublist. Qed.

Lemma filter_filter (p q : OrderDbRow -> bool) t :
  List.filter (fun r => p r && q r) t = List.filter q (List.filter p t).
Proof. induction t as [|x t IH]; [done|]. cbn. destruct (p x); cbn; [destruct (q x)|]; by rewrite IH. Qed.

(** Times and ids within the integers a double represents exactly. *)
Definition safe_row (r : OrderDbRow) : Prop :=
  isSafeInteger (created_at r) = true /\ isSafeInteger (row_id r) = true.

(** The position of a row as it comes back from the client. *)
Definition position_of (r : OrderDbRow) : CursorInfo :=
  mkCursorInfo (to_double (created_at r) 0) (to_double (row_id r) 0).

Definition cursor_of (r : OrderDbRow) : string := encodeCursor (created_at r) (row_id r).

Lemma after_cursor_newer r x : safe_row r -> after_cursor (position_of r) x = newer_id r x.
Proof.
  intros [Hc Hi]. unfold after_cursor, newer_id. cbn.
  destruct (to_double_safe _ Hc (created_at x)) as [-> ->], (to_double_safe _ Hi (row_id x)) as [-> _].
  by rewrite (Z.eqb_sym (created_at x)).
Qed.

(** What lies after a row of a sorted list is its tail there. *)
Lemma filter_after pre x rest :
  safe_row x -> StronglySorted newer_than (pre ++ x :: rest) ->
  List.filter (after_cursor (position_of x)) (pre ++ x :: rest) = rest.
Proof.
  intros Hx Hs. rewrite List.filter_app. cbn. rewrite (after_cursor_newer x) by done.
  destruct (newer_id x x) eqn:E; [by apply newer_than_irrefl in E|].
  assert (List.filter (after_cursor (position_of x)) pre = []) as ->.
  { induction pre as [|y pre IH]; [done|]. cbn in Hs |- *.
    inversion Hs as [|? ? Hs' Hall]; subst. rewrite (after_cursor_newer x) by done.
    destruct (newer_id x y) eqn:Exy; [|by apply IH].
    apply Forall_app in Hall as [_ Hall]. inversion Hall; subst.
    exfalso. apply (newer_than_irrefl x). by trans y. }
  apply StronglySorted_app_1_r, StronglySorted_cons in Hs as [Hall _]. clear E.
  induction Hall as [|y t Hy _ IH]; [done|]. cbn in IH |- *.
  rewrite (after_cursor_newer x), Hy by done. by f_equal.
Qed.

(** ** Walking the pages *)

(** Fetch pages until [nextCursor] is null: the pages, or [None] if that does not
    happen within [fuel] requests or a request fails. *)
Fixpoint walk (fuel : nat) (addr : string) (limit : Z) (cursor : option string) (d : Db) : option (list (list OrderRow)) :=
  match fuel with
  | O => None
  | S fuel' =>
      match findByAddressWithCursor addr limit cursor d with
      | (Ok h, _) =>
          match hr_nextCursor h with
          | None => Some [hr_orders h]
          | Some c => (hr_orders h ::.) <$> walk fuel' addr limit (Some c) d
          end
      | (Throw _, _) => None
      end
  end.

(** The whole history of an address, newest first. *)
Definition full_history (addr : string) (d : Db) : list OrderDbRow :=
  sql_order newer_id (sql_select (has_address addr) (orders d)).

(** Where the walk stands: [pre] was delivered, [cursor] is at its end. *)
Definition at_cursor (pre : list OrderDbRow) (cursor : option string) : Prop :=
  cursor = cursor_of <$> last pre.

(** One page: the next [limit] rows, and a cursor exactly when more follow. *)
Lemma page_eq addr limit cursor pre rest d :
  NoDup (row_id <$> orders d) -> Forall safe_row pre -> 1 <= limit ->
  full_history addr d = pre ++ rest -> at_cursor pre cursor ->
  findByAddressWithCursor addr limit cursor d =
  (Ok (mkOrderHistoryResult (rowToOrder <$> take (Z.to_nat limit) rest)
         (if limit <? Z.of_nat (length rest)
          then cursor_of <$> last (take (Z.to_nat limit) rest) else None)), d).
Proof.
  intros Hnd Hsafe Hlim Hfull Hat.
  assert (NoDup (row_id <$> sql_select (has_address addr) (orders d))) as Hsel
    by by apply NoDup_ids_filter.
  assert (findByAddressWithCursor addr limit cursor d =
          (Ok (history_page addr limit (position_of <$> last pre) (orders d)), d)) as ->.
  { unfold findByAddressWithCursor. rewrite Hat. destruct (last pre) as [x|]; [|done]. cbn.
    rewrite bool_decide_false by (intros [= H]; pose proof (encode_truthy (created_at x) (row_id x)) as Ht; by rewrite H in Ht).
    st_unfold. unfold cursor_of. by rewrite decode_encode. }
  unfold history_page. do 2 f_equal.
  set (rows := match position_of <$> last pre with None => _ | Some _ => _ end).
  assert (rows = take (S (Z.to_nat limit)) rest) as ->.
  { subst rows. unfold sql_limit. replace (limit + 1 <? 0) with false by (symmetry; apply Z.ltb_ge; lia).
    replace (Z.to_nat (limit + 1)) with (S (Z.to_nat limit)) by lia.
    destruct (last pre) as [x|] eqn:Hlast; cbn.
    - apply last_Some in Hlast as [pre' ->]. rewrite <- app_assoc in Hfull. cbn in Hfull.
      f_equal. unfold sql_select. rewrite filter_filter, sql_order_filter.
      + unfold full_history, sql_select in Hfull. rewrite Hfull. apply filter_after.
        { apply Forall_app in Hsafe as [_ Hx]. by inversion Hx. }
        rewrite <- Hfull. by apply sql_order_sorted.
      + done.
      + by apply NoDup_ids_filter.
    - apply last_None in Hlast as ->. f_equal. exact Hfull. }
  rewrite length_take.
  destruct (limit <? Z.of_nat (length rest)) eqn:E; bools.
  - replace (limit <? _) with true by (symmetry; apply Z.ltb_lt; lia).
    rewrite take_take. replace (Z.to_nat limit `min` S (Z.to_nat limit))%nat with (Z.to_nat limit) by lia.
    f_equal. rewrite fmap_last. by destruct (last _).
  - replace (limit <? _) with false by (symmetry; apply Z.ltb_ge; lia).
    rewrite !take_ge by lia. done.
Qed.

Lemma walk_rest addr limit d fuel pre rest cursor :
  NoDup (row_id <$> orders d) -> Forall safe_row (full_history addr d) -> 1 <= limit ->
  full_history addr d = pre ++ rest -> at_cursor pre cursor -> (length rest <= fuel)%nat -> (0 < fuel)%nat ->
  exists pages, walk fuel addr limit cursor d = Some pages /\ concat pages = rowToOrder <$> rest /\ (length pages <= Nat.max 1 (length rest))%nat /\
    Forall (fun p => Z.of_nat (length p) <= limit) pages.
Proof.
  intros Hnd Hsafe Hlim. revert pre rest cursor.
  induction fuel as [|fuel IH]; intros pre rest cursor Hfull Hat Hlen Hpos; [lia|]. cbn [walk].
  rewrite (page_eq addr limit cursor pre rest d)
    by (try done; rewrite Hfull in Hsafe; by apply Forall_app in Hsafe as [? _]). cbn [hr_orders hr_nextCursor].
  assert (Z.of_nat (length (rowToOrder <$> take (Z.to_nat limit) rest)) <= limit) as Hpage by (rewrite length_fmap, length_take; lia).
  destruct (limit <? Z.of_nat (length rest)) eqn:E; bools.
  - destruct (last (take (Z.to_nat limit) rest)) as [x|] eqn:Hx.
    + cbn. destruct (IH (pre ++ take (Z.to_nat limit) rest) (drop (Z.to_nat limit) rest) (Some (cursor_of x))) as (pages & -> & Hc & Hl & Hp).
      * by rewrite <- app_assoc, take_drop.
      * unfold at_cursor. by rewrite last_app, Hx.
      * rewrite length_drop. lia.
      * lia.
      * eexists. split; [done|]. cbn. rewrite Hc, <- fmap_app, take_drop. split; [done|]. rewrite length_drop in Hl. split; [lia|]. by constructor.
    + apply last_None in Hx. assert (length (take (Z.to_nat limit) rest) = 0%nat) as H0 by by rewrite Hx.
      rewrite length_take in H0. lia.
  - eexists. split; [done|]. cbn. rewrite app_nil_r, take_ge by lia. split; [done|]. split; [lia|]. constructor; [|done]. rewrite length_fmap. lia.
Qed.

(** A request with any cursor text at all: a part of the address's history, or
    an error that says so; the database is left alone. *)
Lemma any_cursor addr limit cursor d :
  (findByAddressWithCursor addr limit cursor d).2 = d /\
  match (findByAddressWithCursor addr limit cursor d).1 with
  | Ok h => hr_orders h ⊆ rowToOrder <$> full_history addr d
  | Throw e => startsWith (error_message e) "Invalid cursor: " = true
  end.
Proof.
  assert (forall p, hr_orders (history_page addr limit p (orders d)) ⊆ rowToOrder <$> full_history addr d) as Hsub.
  { intros p. unfold history_page, full_history. cbn.
    set (rows := match p with None => _ | Some _ => _ end).
    assert (rows ⊆ sql_order newer_id (sql_select (has_address addr) (orders d))) as Hrows.
    { subst rows. unfold sql_limit. intros r. destruct p as [c|]; [|by destruct (_ <? 0); [|apply subseteq_take]].
      destruct (_ <? 0); [|intros Hr%subseteq_take; revert Hr]; rewrite !sql_order_perm; unfold sql_select;
        rewrite !list_elem_of_In, !filter_In; intros [? [? _]%andb_true_iff]; done. }
    intros o (r & -> & Hr)%list_elem_of_fmap. apply list_elem_of_fmap_2, Hrows.
    destruct (_ <? _); [by eapply subseteq_take|done]. }
  unfold findByAddressWithCursor. case_bool_decide; [done|]. st_unfold.
  destruct cursor as [c|]; [|by split; [|apply Hsub]].
  destruct (decodeCursor c) as [i|e] eqn:E; [by split; [|apply Hsub]|]. split; [done|].
  unfold decodeCursor in E. repeat case_match; by simplify_eq/=.
Qed.

(** C9.  Page walks are complete and duplicate-free: for every page size the
    service uses, on every database the repository can produce whose times and
    ids are safe integers, sending the text of [nextCursor] back from the
    first page on comes to a page without a cursor after at most as many requests as
    the address has orders (one, if it has none), and the pages, none longer than
    the page size, hold together exactly the address's orders, each once, newest
    first.  A request with any
    other cursor text, forged or damaged, gives orders of that address or an
    error that starts with Invalid cursor, and never changes anything. *)
Theorem page_walk_complete (cs : list (Z * RepoCall)) (addr : string) (limit : Z) (fuel : nat) :
  let d := run_calls cs emptyDb in
  1 <= limit -> Forall safe_row (orders d) -> (Nat.max 1 (length (full_history addr d)) <= fuel)%nat ->
  (exists pages, walk fuel addr limit None d = Some pages /\ concat pages = rowToOrder <$> full_history addr d /\
     (length pages <= Nat.max 1 (length (full_history addr d)))%nat /\ Forall (fun p => Z.of_nat (length p) <= limit) pages) /\
  NoDup (full_history addr d) /\
  StronglySorted newer_than (full_history addr d) /\
  (forall r, r ∈ full_history addr d <-> r ∈ orders d /\ (src_address r = addr \/ dst_address r = addr)) /\
  (forall cursor, (findByAddressWithCursor addr limit cursor d).2 = d /\
     match (findByAddressWithCursor addr limit cursor d).1 with
     | Ok h => hr_orders h ⊆ rowToOrder <$> full_history addr d
     | Throw e => startsWith (error_message e) "Invalid cursor: " = true
     end).
Proof.
  intros d Hlim Hsafe Hfuel. assert (wf_db d) as Hwf by (apply run_calls_wf, wf_emptyDb).
  assert (NoDup (row_id <$> sql_select (has_address addr) (orders d))) as Hsel
    by (apply NoDup_ids_filter, Hwf).
  assert (forall r, r ∈ full_history addr d <-> r ∈ orders d /\ (src_address r = addr \/ dst_address r = addr)) as Hin.
  { intros r. unfold full_history. rewrite sql_order_perm. unfold sql_select.
    rewrite !list_elem_of_In, filter_In. unfold has_address.
    rewrite orb_true_iff, !bool_decide_eq_true. done. }
  split_and!; [| | |exact Hin|intros; apply any_cursor].
  - apply (walk_rest addr limit d fuel []); [apply Hwf| |done|done|done|lia|lia].
    apply Forall_forall. intros r [Hr _]%Hin. by apply (proj1 (Forall_forall _ _) Hsafe).
  - unfold full_history. rewrite sql_order_perm. by eapply NoDup_fmap_1.
  - by apply sql_order_sorted.
Qed.

(** Three orders of one address, walked two at a time. *)
Definition page_calls : list (Z * RepoCall) :=
  (fun '(t, h) => (t, CallAnnounce (mkAnnounceOrderInput eth_to_xlm h ethereum "0xaa" "native" "1" "1"
     stellar "GA" "native" "2"))) <$>
  [(1000, demo_hashlock);
   (2000, "0x10112233445566778899aabbccddeeff00112233445566778899aabbccddeeff");
   (2000, "0x20112233445566778899aabbccddeeff00112233445566778899aabbccddeeff")].

Lemma page_walk_complete_witness :
  exists pages, walk 3 "0xaa" 2 None (run_calls page_calls emptyDb) = Some pages /\
    concat pages = rowToOrder <$> full_history "0xaa" (run_calls page_calls emptyDb) /\ (o_id <$> concat pages) = [3; 2; 1].
Proof.
  destruct (page_walk_complete page_calls "0xaa" 2 3) as [(pages & H1 & H2 & _) _]; [done|by repeat constructor|vm_compute; lia|].
  exists pages. split; [exact H1|]. split; [exact H2|]. rewrite H2. vm_compute. reflexivity.
Defined.
