(* ===== verification/HistoryCache.v ===== *)
(** * The history cache (coordinator/src/services/history-cache.ts).

    An insertion-ordered [Map] from request keys to results with an expiry
    time.  The model keeps the order of insertion, because eviction takes the
    first key: writing to an existing key keeps its place, as [Map.set] does.
    The theorems: the cache never outgrows its bound, a stored result is
    served until its expiry and not after, and after an invalidation nothing
    is served for the address. *)

From S2P Require Import Prelude.

Section HistoryCache.
Context {V : Type}.

Record CachedResult : Type := mkCachedResult { result : V; expiresAt : Z }.

(** The [Map]: keys in insertion order. *)
Definition cache_map : Type := list (string * CachedResult).

(** ** [Map] of the language *)

Fixpoint map_get (k : string) (m : cache_map) : option CachedResult :=
  match m with
  | [] => None
  | (k', v) :: m' => if String.eqb k' k then Some v else map_get k m'
  end.

Definition map_delete (k : string) (m : cache_map) : cache_map :=
  List.filter (fun e => negb (String.eqb e.1 k)) m.

Fixpoint map_set (k : string) (v : CachedResult) (m : cache_map) : cache_map :=
  match m with
  | [] => [(k, v)]
  | (k', v') :: m' => if String.eqb k' k then (k', v) :: m' else (k', v') :: map_set k v m'
  end.

Definition map_size (m : cache_map) : Z := Z.of_nat (length m).

(** ** The methods *)

(** The part of the key that names the address. *)
Definition address_prefix (address : string) : string := toLowerCase address +:+ ":".

Definition makeCacheKey (address : string) (limit : Z) (cursor : option string) : string :=
  toLowerCase address +:+ ":" +:+ pretty limit +:+ ":" +:+
  match cursor with
  | Some c => if truthy_string c then c else "first"
  | None => "first"
  end.

Definition cache_get (now : Z) (address : string) (limit : Z) (cursor : option string) (m : cache_map)
  : option V * cache_map :=
  let key := makeCacheKey address limit cursor in
  match map_get key m with
  | None => (None, m)
  | Some cached =>
      if expiresAt cached <=? now then (None, map_delete key m) else (Some (result cached), m)
  end.

(** [oldestKey] is tested for truth: an empty key is not evicted. *)
Definition cache_set (ttlMs maxSize now : Z) (address : string) (limit : Z) (cursor : option string)
    (r : V) (m : cache_map) : cache_map :=
  let m1 := if maxSize <=? map_size m then
              match m with
              | [] => m
              | (oldestKey, _) :: _ => if truthy_string oldestKey then map_delete oldestKey m else m
              end
            else m in
  map_set (makeCacheKey address limit cursor) (mkCachedResult r (now + ttlMs)) m1.

Definition invalidateAddress (address : string) (m : cache_map) : cache_map :=
  List.filter (fun e => negb (startsWith e.1 (address_prefix address))) m.

Definition cache_clear (m : cache_map) : cache_map := [].

Definition cleanup (now : Z) (m : cache_map) : cache_map :=
  List.filter (fun e => negb (expiresAt e.2 <? now)) m.

Definition getStats (ttlMs maxSize : Z) (m : cache_map) : Z * Z * Z := (map_size m, maxSize, ttlMs).

(** [destroy] stops the timer and empties the cache. *)
Definition cache_destroy (m : cache_map) : cache_map := cache_clear m.

(** ** Facts *)

Lemma map_get_set k k' v m :
  map_get k' (map_set k v m) = if String.eqb k k' then Some v else map_get k' m.
Proof.
  induction m as [|[k0 v0] m IH]; [done|]. cbn.
  destruct (String.eqb_spec k0 k) as [->|Hk]; cbn.
  - by destruct (String.eqb k k').
  - rewrite IH. destruct (String.eqb_spec k0 k'), (String.eqb_spec k k'); congruence.
Qed.

Lemma map_get_elem k v m : map_get k m = Some v -> (k, v) ∈ m.
Proof.
  induction m as [|[k0 v0] m IH]; [done|]. cbn.
  destruct (String.eqb_spec k0 k) as [->|Hk]; [intros [= ->]; left|right; auto].
Qed.

Lemma elem_of_filter_entries (p : string * CachedResult -> bool) e m :
  e ∈ List.filter p m <-> e ∈ m /\ p e = true.
Proof. rewrite !list_elem_of_In. apply filter_In. Qed.

Lemma elem_of_map_set k v m e : e ∈ map_set k v m -> e = (k, v) \/ e ∈ m.
Proof.
  induction m as [|[k0 v0] m IH]; cbn.
  - intros ->%list_elem_of_singleton. by left.
  - destruct (String.eqb_spec k0 k) as [->|Hk]; intros [->|He]%elem_of_cons.
    + by left.
    + right. by right.
    + right. by left.
    + destruct (IH He); [by left|]. right. by right.
Qed.

Lemma map_set_length k v m : (length (map_set k v m) <= Datatypes.S (length m))%nat.
Proof. induction m as [|[k0 v0] m IH]; cbn; [lia|]. destruct (String.eqb k0 k); cbn; lia. Qed.

Lemma key_has_prefix address limit cursor :
  startsWith (makeCacheKey address limit cursor) (address_prefix address) = true.
Proof.
  unfold makeCacheKey, address_prefix, startsWith.
  rewrite <- string_app_assoc. apply prefix_app.
Qed.

Lemma key_truthy address limit cursor : truthy_string (makeCacheKey address limit cursor) = true.
Proof. unfold makeCacheKey. by destruct (toLowerCase address). Qed.

(** Every key is a request key. *)
Definition keys_ok (m : cache_map) : Prop :=
  Forall (fun e => exists a l c, e.1 = makeCacheKey a l c) m.

Lemma keys_ok_filter p m : keys_ok m -> keys_ok (List.filter p m).
Proof.
  unfold keys_ok. rewrite !Forall_forall. intros H e [He _]%elem_of_filter_entries. by apply H.
Qed.

Lemma keys_ok_set ttl mx now a l c r m : keys_ok m -> keys_ok (cache_set ttl mx now a l c r m).
Proof.
  intros H. unfold keys_ok. apply Forall_forall. intros e He.
  unfold cache_set in He. apply elem_of_map_set in He as [->|He]; [by exists a, l, c|].
  apply (proj1 (Forall_forall _ _) H).
  destruct (mx <=? map_size m), m as [|[k0 v0] m]; try done.
  destruct (truthy_string k0); [|done]. by apply elem_of_filter_entries in He as [He _].
Qed.

(** Making room: a full cache loses its oldest entry. *)
Lemma cache_set_length ttl mx now a l c r m :
  keys_ok m -> 0 < mx -> map_size m <= mx -> map_size (cache_set ttl mx now a l c r m) <= mx.
Proof.
  unfold cache_set, map_size. intros Hk Hmx Hle.
  destruct (mx <=? Z.of_nat (length m)) eqn:E; bools.
  - destruct m as [|[k0 v0] m]; [cbn in *; lia|].
    inversion Hk as [|? ? (a0 & l0 & c0 & Hk0) _]; subst. cbn in Hk0. subst k0.
    rewrite key_truthy.
    set (k := makeCacheKey a l c). set (v := mkCachedResult r (now + ttl)).
    pose proof (map_set_length k v (map_delete (makeCacheKey a0 l0 c0) ((makeCacheKey a0 l0 c0, v0) :: m))) as Hl.
    assert (length (map_delete (makeCacheKey a0 l0 c0) ((makeCacheKey a0 l0 c0, v0) :: m)) <= length m)%nat
      by (cbn; rewrite String.eqb_refl; cbn; apply filter_length_le).
    cbn [length] in Hle. lia.
  - set (k := makeCacheKey a l c). set (v := mkCachedResult r (now + ttl)).
    pose proof (map_set_length k v m). lia.
Qed.
End HistoryCache.

Arguments CachedResult : clear implicits.
Arguments cache_map : clear implicits.
Arguments mkCachedResult {V} _ _.

(** ** Runs of the cache *)

Inductive CacheOp (V : Type) : Type :=
| OpGet (now : Z) (address : string) (limit : Z) (cursor : option string)
| OpSet (now : Z) (address : string) (limit : Z) (cursor : option string) (r : V)
| OpInvalidate (address : string)
| OpCleanup (now : Z)
| OpClear.
Arguments OpGet {V} _ _ _ _.
Arguments OpSet {V} _ _ _ _ _.
Arguments OpInvalidate {V} _.
Arguments OpCleanup {V} _.
Arguments OpClear {V}.

Definition run_op {V} (ttlMs maxSize : Z) (m : cache_map V) (o : CacheOp V) : cache_map V :=
  match o with
  | OpGet now a l c => (cache_get now a l c m).2
  | OpSet now a l c r => cache_set ttlMs maxSize now a l c r m
  | OpInvalidate a => invalidateAddress a m
  | OpCleanup now => cleanup now m
  | OpClear => cache_clear m
  end.

Definition run_ops {V} (ttlMs maxSize : Z) (os : list (CacheOp V)) (m : cache_map V) : cache_map V :=
  fold_left (run_op ttlMs maxSize) os m.

Lemma run_op_keys {V} ttl mx (m : cache_map V) o : keys_ok m -> keys_ok (run_op ttl mx m o).
Proof.
  intros H. destruct o; cbn; try by apply keys_ok_filter.
  - unfold cache_get. case_all; try done. by apply keys_ok_filter.
  - by apply keys_ok_set.
  - constructor.
Qed.

Lemma filter_size {V} (p : string * CachedResult V -> bool) m : map_size (List.filter p m) <= map_size m.
Proof. unfold map_size. pose proof (filter_length_le p m). lia. Qed.

Lemma run_op_size {V} ttl mx (m : cache_map V) o :
  keys_ok m -> 0 < mx -> map_size m <= mx -> map_size (run_op ttl mx m o) <= mx.
Proof.
  intros Hk Hmx Hle. destruct o as [now a l c|now a l c r|a|now|]; cbn.
  - unfold cache_get. destruct (map_get (makeCacheKey a l c) m) as [v|]; [|done].
    destruct (expiresAt v <=? now); [|done].
    pose proof (filter_size (fun e => negb (String.eqb e.1 (makeCacheKey a l c))) m).
    unfold map_delete. cbn. lia.
  - by apply cache_set_length.
  - pose proof (filter_size (fun e => negb (startsWith e.1 (address_prefix a))) m).
    unfold invalidateAddress. lia.
  - pose proof (filter_size (fun e => negb (expiresAt e.2 <? now)) m). unfold cleanup. lia.
  - unfold map_size. cbn. lia.
Qed.

(** A cache read, restated: what [cache_get] answers at a time. *)
Definition serves {V} (m : cache_map V) (now : Z) (address : string) (limit : Z) (cursor : option string)
  : option V := (cache_get now address limit cursor m).1.

(** The cache is bounded, and never serves past an expiry or an
    invalidation: after any run of operations on an empty cache with
    [0 < maxSize] there are at most [maxSize] entries; a result stored at
    [now] is served while the clock is before [now + ttlMs] and no later
    (so a cache built with a zero ttl serves nothing); and once an address is
    invalidated nothing is served for any of its pages, whatever the letter
    case of the request. *)
Lemma history_cache_bounded_and_fresh {V} (ttlMs maxSize : Z) (os : list (CacheOp V)) :
  0 < maxSize ->
  let m := run_ops ttlMs maxSize os [] in
  map_size m <= maxSize /\
  (forall now t address limit cursor r,
     serves (cache_set ttlMs maxSize now address limit cursor r m) t address limit cursor =
     if t <? now + ttlMs then Some r else None) /\
  (forall address address' t limit cursor,
     toLowerCase address' = toLowerCase address ->
     serves (invalidateAddress address m) t address' limit cursor = None).
Proof.
  intros Hmx m.
  assert (keys_ok m /\ map_size m <= maxSize) as [Hk Hm].
  { subst m. unfold run_ops.
    cut (forall m0 : cache_map V, keys_ok m0 -> map_size m0 <= maxSize ->
      keys_ok (fold_left (run_op ttlMs maxSize) os m0) /\
      map_size (fold_left (run_op ttlMs maxSize) os m0) <= maxSize).
    { intros H. apply H; [constructor|unfold map_size; cbn; lia]. }
    induction os as [|o os IH]; intros m0 Hk0 H0; [done|]. cbn.
    apply IH; [by apply run_op_keys|by apply run_op_size]. }
  split_and!; [done| |].
  - intros now t address limit cursor r. unfold serves, cache_get, cache_set.
    rewrite map_get_set, String.eqb_refl. cbn.
    destruct (now + ttlMs <=? t) eqn:E, (t <? now + ttlMs) eqn:E'; bools; done || lia.
  - intros address address' t limit cursor Heq. unfold serves, cache_get.
    destruct (map_get _ (invalidateAddress address m)) as [v|] eqn:E; [|done].
    apply map_get_elem, elem_of_filter_entries in E as [_ E]. cbn [fst] in E.
    assert (address_prefix address = address_prefix address') as Hp
      by (unfold address_prefix; by rewrite Heq).
    by rewrite Hp, key_has_prefix in E.
Qed.

Lemma history_cache_bounded_and_fresh_witness :
  let m := run_ops (V := Z) 60000 2 [OpSet 0 "0xA" 50 None 1; OpSet 1 "0xB" 50 None 2; OpSet 2 "0xC" 50 None 3] [] in
  map_size m <= 2 /\ serves m 3 "0xa" 50 None = None /\ serves m 3 "0xc" 50 None = Some 3 /\
  serves (invalidateAddress "0xC" m) 3 "0xc" 50 None = None.
Proof.
  destruct (history_cache_bounded_and_fresh (V := Z) 60000 2
    [OpSet 0 "0xA" 50 None 1; OpSet 1 "0xB" 50 None 2; OpSet 2 "0xC" 50 None 3]) as (H1 & H2 & H3); [lia|].
  split_and!; [exact H1|by vm_compute|by vm_compute|by apply H3].
Defined.
