(* ===== verification/Notifications.v ===== *)
(** * What the order service reports to its observers
    (coordinator/src/sse/event-builders.ts, audit/audit-log.ts).

    The SSE payloads and the audit entries, with the builder functions that
    make them.  An audit payload is kept as the record that the source
    serialises with [JSON.stringify]. *)

From S2P Require Import Prelude OrderMachine OrderRow.

Inductive SseEventData : Type :=
| OrderCreatedData (orderId srcChain : string) (srcTxHash : option string) (blockNumber timelock timestamp : Z)
| OrderClaimedData (orderId : string) (st : OrderStatus) (dstChain : string) (dstTxHash : option string)
    (blockNumber timelock : Z) (resolver : option string) (timestamp : Z)
| OrderRefundedData (orderId : string) (txHash : option string) (timestamp : Z)
| SecretRevealedData (orderId pre : string) (revealedTx : option string) (timestamp : Z)
| StatusChangedData (orderId st : string) (previousStatus : option string) (timestamp : Z)
| ReplayGapData (message : string)
| ShutdownData.

(** An event before the broker gives it its id. *)
Record SsePayload : Type := mkSsePayload {
  ev_event : string;
  ev_timestamp : Z;
  ev_data : SseEventData
}.

(** The builders of lock events take the fields they pick from the order. *)
Definition buildOrderCreatedPayload (now : Z) (publicId : string) (srcChain : Chain)
    (srcLockTx : option string) (srcLockBlock srcTimelock : option Z) : SsePayload :=
  mkSsePayload "OrderCreated" now
    (OrderCreatedData publicId (chain_str srcChain) srcLockTx (default 0 srcLockBlock)
       (default 0 srcTimelock) now).

Definition buildOrderClaimedPayload (now : Z) (publicId : string) (st : OrderStatus) (dstChain : Chain)
    (dstLockTx : option string) (dstLockBlock dstTimelock : option Z) (resolverAddress : option string)
  : SsePayload :=
  let st' := if bool_decide (st = secret_revealed) then secret_revealed else dst_locked in
  mkSsePayload "OrderClaimed" now
    (OrderClaimedData publicId st' (chain_str dstChain) dstLockTx (default 0 dstLockBlock)
       (default 0 dstTimelock) resolverAddress now).

Definition buildOrderRefundedPayload (now : Z) (orderId : string) (txHash : option string) : SsePayload :=
  mkSsePayload "OrderRefunded" now (OrderRefundedData orderId txHash now).

Definition buildSecretRevealedPayload (now : Z) (orderId pre : string) (revealedTx : option string)
  : SsePayload :=
  mkSsePayload "SecretRevealed" now (SecretRevealedData orderId pre revealedTx now).

Definition buildStatusChangedPayload (now : Z) (orderId st : string) (previousStatus : option string)
  : SsePayload :=
  mkSsePayload "StatusChanged" now (StatusChangedData orderId st previousStatus now).

Definition buildReplayGapPayload (now : Z) (orderId : string) : SsePayload :=
  mkSsePayload "replay-gap" now
    (ReplayGapData ("Events missed. Re-fetch current order state via GET /api/orders/" +:+ orderId)).

Definition buildShutdownPayload (now : Z) : SsePayload := mkSsePayload "shutdown" now ShutdownData.

(** [OrderEventPayload] of the audit log. *)
Record AuditPayload : Type := mkAuditPayload {
  au_orderId : string;
  au_hashlock : string;
  au_direction : string;
  au_fromStatus : option string;
  au_toStatus : string;
  au_srcChain : string;
  au_dstChain : string;
  au_txHash : option string;
  au_blockNumber : option Z;
  au_resolverAddress : option string;
  au_detail : option string
}.

Record AuditEntryInput : Type := mkAuditEntryInput {
  ae_eventType : string;
  ae_orderId : option string;
  ae_requestId : option string;
  ae_payload : AuditPayload
}.

Definition buildOrderAuditEntry (eventType : string) (params : AuditPayload) (requestId : option string)
  : AuditEntryInput :=
  mkAuditEntryInput eventType (Some (au_orderId params)) requestId params.
