(* ===== verification/OrderService.v ===== *)
(** * The order service (coordinator/src/services/order-service.ts).

    Every state change of an order that a listener, a reconciler or an
    operator asks for goes through [OrderService]: it reads the order, checks
    the lifecycle, writes through the repository, and then tells the cache,
    the event stream and the audit log.  The Prometheus counters it also
    increments are write-only and are left out, except the in-process phase
    snapshot, which the service reads back. *)

From S2P Require Import Prelude OrderMachine TransactionContract OrderRow PageCursor OrdersRepo HistoryCache.
From S2P Require Import Notifications.

Module Service.

(** The options of the constructor and the request context. *)
Record Config : Type := mkConfig {
  cacheTtlMs : Z;
  cacheMaxSize : Z;
  hasSseBroker : bool;
  hasAuditRepo : bool;
  requestId : option string
}.

(** [enableCache: false] builds a cache with a zero ttl. *)
Definition configure (enableCache : bool) (ttl : option Z) (sse audit_ : bool) (request : option string)
  : Config :=
  mkConfig (if enableCache then default 60000 ttl else 0) 1000 sse audit_ request.

Record State : Type := mkState {
  db : Db;
  historyCache : cache_map OrderHistoryResult;
  phaseCountSnapshot : gmap string Z;
  broadcasts : list (string * SsePayload);   (** calls of [sseBroker.broadcast], in order *)
  auditLog : list AuditEntryInput            (** entries given to [auditRepo.append], in order *)
}.

Definition init : State := mkState emptyDb [] ∅ [] [].

Abbreviation Svc := (ST State JsError).

Definition with_db (s : State) (d : Db) : State :=
  mkState d (historyCache s) (phaseCountSnapshot s) (broadcasts s) (auditLog s).

(** A call of the repository. *)
Definition repo {A} (m : Repo A) : Svc A := zoom db (fun d s => with_db s d) m.

Definition on_cache (f : cache_map OrderHistoryResult -> cache_map OrderHistoryResult) : Svc unit :=
  modify (fun s => mkState (db s) (f (historyCache s)) (phaseCountSnapshot s) (broadcasts s) (auditLog s)).

(** ** Observability *)

Definition _snapshotKey (direction phase : string) : string := direction +:+ ":" +:+ phase.

Definition _incrementPhaseSnapshot (direction phase : string) (delta : Z) : Svc unit :=
  modify (fun s =>
    let key := _snapshotKey direction phase in
    let n := Z.max (default 0 (phaseCountSnapshot s !! key) + delta) 0 in
    mkState (db s) (historyCache s) (<[key := n]> (phaseCountSnapshot s)) (broadcasts s) (auditLog s)).

Definition PHASES : list OrderStatus := [announced; src_locked; dst_locked; secret_revealed; expired].

Definition _directionCounts (direction : string) (s : State) : list (OrderStatus * Z) :=
  (fun p => (p, default 0 (phaseCountSnapshot s !! _snapshotKey direction (status_str p)))) <$> PHASES.

(** The part of [recordTransition] that the service keeps. *)
Definition recordTransition (direction : string) (from to : OrderStatus) : Svc unit :=
  _ ← _incrementPhaseSnapshot direction (status_str from) (-1);
  _incrementPhaseSnapshot direction (status_str to) 1.

Section WithConfig.
Context (cfg : Config).

Definition audit (entry : AuditEntryInput) : Svc unit :=
  if hasAuditRepo cfg then
    modify (fun s => mkState (db s) (historyCache s) (phaseCountSnapshot s) (broadcasts s)
                       (auditLog s ++ [entry]))
  else mret tt.

Definition broadcast (orderId : string) (payload : SsePayload) : Svc unit :=
  if hasSseBroker cfg then
    modify (fun s => mkState (db s) (historyCache s) (phaseCountSnapshot s)
                       (broadcasts s ++ [(orderId, payload)]) (auditLog s))
  else mret tt.

(** The two [invalidateAddress] calls that follow every write. *)
Definition invalidateParties (order : OrderRow) : Svc unit :=
  _ ← on_cache (invalidateAddress (o_srcAddress order));
  on_cache (invalidateAddress (o_dstAddress order)).

(** The audit entry of a transition of [order]. *)
Definition transitionEntry (eventType : string) (publicId : string) (order : OrderRow)
    (from : option OrderStatus) (to : OrderStatus) (txHash : option string) (blockNumber : option Z)
    (resolver detail : option string) : AuditEntryInput :=
  buildOrderAuditEntry eventType
    (mkAuditPayload publicId (o_hashlock order) (direction_str (o_direction order))
       (status_str <$> from) (status_str to) (chain_str (o_srcChain order)) (chain_str (o_dstChain order))
       txHash blockNumber resolver detail) (requestId cfg).

(** ** Announcing and reading *)

Definition announce (now : Z) (input : AnnounceOrderInput) : Svc OrderRow :=
  existing ← repo (findByHashlock (a_hashlock input));
  match existing with
  | Some e =>
      throw (OrderValidationError
        ("An order with hashlock " +:+ a_hashlock input +:+ " already exists (publicId=" +:+
         o_publicId e +:+ ")"))
  | None =>
      order ← repo (OrdersRepo.announce now input);
      _ ← _incrementPhaseSnapshot (direction_str (o_direction order)) "announced" 1;
      _ ← invalidateParties order;
      _ ← audit (transitionEntry "order.announced" (o_publicId order) order None announced
                   None None None None);
      mret order
  end.

Definition get (publicId : string) : Svc (option OrderRow) := repo (findByPublicId publicId).

(** A look in the cache, which drops the entry it finds expired. *)
Definition cache_lookup (now : Z) (address : string) (limit : Z) (cursor : option string)
  : Svc (option OrderHistoryResult) := fun s =>
  let '(r, m) := cache_get now address limit cursor (historyCache s) in
  (Ok r, mkState (db s) m (phaseCountSnapshot s) (broadcasts s) (auditLog s)).

(** [if (orders.length > 0) this.historyCache.set(...)]. *)
Definition cache_store (now : Z) (address : string) (limit : Z) (cursor : option string)
    (h : OrderHistoryResult) : Svc unit :=
  if Nat.ltb 0 (length (hr_orders h)) then
    on_cache (cache_set (cacheTtlMs cfg) (cacheMaxSize cfg) now address limit cursor h)
  else mret tt.

(** Offset pages; the offset is encoded in the cursor part of the key. *)
Definition history (now : Z) (address : string) (limit offset : option Z) : Svc (list OrderRow) :=
  let finalLimit := Z.min (Z.max (default 50 limit) 1) 200 in
  let finalOffset := Z.max (default 0 offset) 0 in
  let cursorForCache := Some ("offset:" +:+ pretty finalOffset) in
  cached ← cache_lookup now address finalLimit cursorForCache;
  match cached with
  | Some h => mret (hr_orders h)
  | None =>
      rows ← repo (findByAddress address finalLimit finalOffset);
      _ ← cache_store now address finalLimit cursorForCache (mkOrderHistoryResult rows None);
      mret rows
  end.

(** Cursor pages. *)
Definition historyWithCursor (now : Z) (address : string) (limit : option Z) (cursor : option string)
  : Svc OrderHistoryResult :=
  let finalLimit := Z.min (Z.max (default 50 limit) 1) 200 in
  cached ← cache_lookup now address finalLimit cursor;
  match cached with
  | Some h => mret h
  | None =>
      result ← repo (findByAddressWithCursor address finalLimit cursor);
      _ ← cache_store now address finalLimit cursor result;
      mret result
  end.

(** ** Recording on-chain progress *)

Definition unknown_order (publicId : string) : JsError :=
  OrderValidationError ("unknown order " +:+ publicId).

Definition recordSrcLock (now : Z) (input : LockInput) : Svc unit :=
  let actor := default "system" (l_actor input) in
  let publicId := l_publicId input in
  found ← repo (findByPublicId publicId);
  match found with
  | None => throw (unknown_order publicId)
  | Some order =>
      if bool_decide (o_srcOrderId order = Some (l_orderId input)) &&
         bool_decide (o_srcLockTx order = Some (l_txHash input)) then mret tt
      else if negb (bool_decide (o_srcOrderId order = None)) &&
              (negb (bool_decide (o_srcOrderId order = Some (l_orderId input))) ||
               negb (bool_decide (o_srcLockTx order = Some (l_txHash input)))) then
        throw (OrderValidationError
          ("conflicting src lock for " +:+ publicId +:+ ": existing=" +:+
           show_nullable (o_srcOrderId order) +:+ "/" +:+ show_nullable (o_srcLockTx order) +:+
           " incoming=" +:+ l_orderId input +:+ "/" +:+ l_txHash input))
      else if isTerminal (o_status order) then
        throw (OrderValidationError
          ("cannot record src lock for terminal order " +:+ publicId +:+ " (status=" +:+
           status_str (o_status order) +:+ ")"))
      else if negb (canTransition (o_status order) src_locked) &&
              negb (bool_decide (o_status order = src_locked)) then
        throw (OrderValidationError
          ("cannot record src lock from status " +:+ status_str (o_status order)))
      else
        _ ← repo (OrdersRepo.recordSrcLock now input);
        _ ← (if 0 <? l_blockNumber input
             then repo (updateOrderCursor now publicId (o_srcChain order) (l_blockNumber input))
             else mret tt);
        _ ← recordTransition (direction_str (o_direction order)) (o_status order) src_locked;
        _ ← broadcast publicId (buildOrderCreatedPayload now (o_publicId order) (o_srcChain order)
              (Some (l_txHash input)) (Some (l_blockNumber input)) (Some (l_timelock input)));
        _ ← invalidateParties order;
        audit (transitionEntry "order.src_locked" publicId order (Some (o_status order)) src_locked
                 (Some (l_txHash input)) (Some (l_blockNumber input)) None
                 (Some ("actor=" +:+ actor)))
  end.

Definition recordDstLock (now : Z) (input : LockInput) : Svc unit :=
  let actor := default "system" (l_actor input) in
  let publicId := l_publicId input in
  found ← repo (findByPublicId publicId);
  match found with
  | None => throw (unknown_order publicId)
  | Some order =>
      if bool_decide (o_dstOrderId order = Some (l_orderId input)) &&
         bool_decide (o_dstLockTx order = Some (l_txHash input)) then mret tt
      else if negb (bool_decide (o_dstOrderId order = None)) &&
              (negb (bool_decide (o_dstOrderId order = Some (l_orderId input))) ||
               negb (bool_decide (o_dstLockTx order = Some (l_txHash input)))) then
        throw (OrderValidationError
          ("conflicting dst lock for " +:+ publicId +:+ ": existing=" +:+
           show_nullable (o_dstOrderId order) +:+ "/" +:+ show_nullable (o_dstLockTx order) +:+
           " incoming=" +:+ l_orderId input +:+ "/" +:+ l_txHash input))
      else if isTerminal (o_status order) then
        throw (OrderValidationError
          ("cannot record dst lock for terminal order " +:+ publicId +:+ " (status=" +:+
           status_str (o_status order) +:+ ")"))
      else if negb (canTransition (o_status order) dst_locked) &&
              negb (bool_decide (o_status order = dst_locked)) then
        throw (OrderValidationError
          ("cannot record dst lock from status " +:+ status_str (o_status order)))
      else
        _ ← repo (OrdersRepo.recordDstLock now input);
        _ ← (if 0 <? l_blockNumber input
             then repo (updateOrderCursor now publicId (o_dstChain order) (l_blockNumber input))
             else mret tt);
        _ ← recordTransition (direction_str (o_direction order)) (o_status order) dst_locked;
        _ ← broadcast publicId (buildOrderClaimedPayload now (o_publicId order) dst_locked (o_dstChain order)
              (Some (l_txHash input)) (Some (l_blockNumber input)) (Some (l_timelock input))
              (l_resolver input));
        _ ← invalidateParties order;
        audit (transitionEntry "order.dst_locked" publicId order (Some (o_status order)) dst_locked
                 (Some (l_txHash input)) (Some (l_blockNumber input)) (l_resolver input)
                 (Some ("actor=" +:+ actor)))
  end.

Definition recordSecret (now : Z) (publicId pre txHash : string) (encVersion : option Z)
    (actor : option string) : Svc unit :=
  found ← repo (findByPublicId publicId);
  match found with
  | None => throw (unknown_order publicId)
  | Some order =>
      if bool_decide (o_preimage order = Some pre) then mret tt
      else if negb (bool_decide (o_preimage order = None)) &&
              negb (bool_decide (o_preimage order = Some pre)) then
        throw (OrderValidationError
          ("conflicting preimage for " +:+ publicId +:+ ": existing=" +:+
           show_nullable (o_preimage order) +:+ " incoming=" +:+ pre))
      else if isTerminal (o_status order) then
        throw (OrderValidationError
          ("cannot record secret for terminal order " +:+ publicId +:+ " (status=" +:+
           status_str (o_status order) +:+ ")"))
      else if negb (canTransition (o_status order) secret_revealed) &&
              negb (bool_decide (o_status order = secret_revealed)) then
        throw (OrderValidationError
          ("cannot record secret from status " +:+ status_str (o_status order)))
      else
        _ ← repo (recordSecretRevealed now publicId pre txHash encVersion None);
        _ ← recordTransition (direction_str (o_direction order)) (o_status order) secret_revealed;
        _ ← broadcast publicId (buildSecretRevealedPayload now publicId pre (Some txHash));
        _ ← invalidateParties order;
        audit (transitionEntry "order.secret_revealed" publicId order (Some (o_status order))
                 secret_revealed (Some txHash) None None
                 (Some ("actor=" +:+ default "system" actor)))
  end.

Definition markStatus (now : Z) (publicId : string) (s : OrderStatus) (actor : string) : Svc unit :=
  found ← repo (findByPublicId publicId);
  match found with
  | None => throw (unknown_order publicId)
  | Some order =>
      if bool_decide (o_status order = s) then mret tt
      else if isTerminal (o_status order) then
        throw (OrderValidationError
          ("cannot transition terminal order " +:+ publicId +:+ " from " +:+
           status_str (o_status order) +:+ " to " +:+ status_str s))
      else if negb (canTransition (o_status order) s) then
        throw (OrderValidationError
          ("cannot transition from " +:+ status_str (o_status order) +:+ " to " +:+ status_str s))
      else
        _ ← repo (setStatus now publicId s "system" None);
        _ ← recordTransition (direction_str (o_direction order)) (o_status order) s;
        _ ← (if bool_decide (s = refunded)
             then broadcast publicId (buildOrderRefundedPayload now publicId None)
             else broadcast publicId (buildStatusChangedPayload now publicId (status_str s)
                                        (Some (status_str (o_status order)))));
        _ ← invalidateParties order;
        let eventType :=
          if bool_decide (s = refunded) then "order.refunded"
          else if bool_decide (s = completed) then "order.completed"
          else if bool_decide (s = expired) then "order.expired"
          else "order.failed" in
        audit (transitionEntry eventType publicId order (Some (o_status order)) s None None None
                 (Some ("actor=" +:+ actor)))
  end.

(** The audit entry of a rollback names no order data. *)
Definition rollbackEntry (eventType publicId : string) (from to : OrderStatus) : AuditEntryInput :=
  buildOrderAuditEntry eventType
    (mkAuditPayload publicId "" "" (Some (status_str from)) (status_str to) "" "" None None None
       (Some "reorg or duplicate event triggered rollback")) (requestId cfg).

Definition rollbackSrcLock (now : Z) (publicId : string) : Svc unit :=
  _ ← repo (OrdersRepo.rollbackSrcLock now publicId "system");
  audit (rollbackEntry "order.src_lock_rolled_back" publicId src_locked announced).

Definition rollbackDstLock (now : Z) (publicId : string) : Svc unit :=
  _ ← repo (OrdersRepo.rollbackDstLock now publicId "system");
  audit (rollbackEntry "order.dst_lock_rolled_back" publicId dst_locked src_locked).

(** ** The expiry scan *)

(** One candidate of [expireStaleOrders]: 1 when it was expired. *)
Definition expireOne (now : Z) (order : OrderRow) : Svc Z :=
  if bool_decide (o_status order = expired) then mret 0
  else if isTerminal (o_status order) then mret 0
  else try_catch
         (_ ← markStatus now (o_publicId order) expired "expiry_scan"; mret 1)
         (fun _ => mret 0).

Definition expireStaleOrders (now : Z) (nowSeconds : option Z) : Svc Z :=
  let cutoff := default (seconds now) nowSeconds in
  candidates ← repo (findExpiredCandidates cutoff);
  sum_each (expireOne now) candidates.
End WithConfig.

(** ** Delegators *)

Definition findByHashlock (h : string) : Svc (option OrderRow) := repo (OrdersRepo.findByHashlock h).
Definition findBySrcOrderId (chain : Chain) (orderId : string) : Svc (option OrderRow) :=
  repo (OrdersRepo.findBySrcOrderId chain orderId).
Definition getLastProcessedBlock (chain : Chain) : Svc Z := repo (OrdersRepo.getLastProcessedBlock chain).
Definition claimEvent (key chain eventType : string) (orderId : option Z) : Svc bool :=
  repo (OrdersRepo.claimEvent key chain eventType orderId).
Definition getChainCursor (chain : Chain) : Svc Z := repo (OrdersRepo.getChainCursor chain).
Definition setChainCursor (now : Z) (chain : Chain) (position : Z) : Svc unit :=
  repo (OrdersRepo.setChainCursor now chain position).
Definition advanceOrderLedgerCursor (now : Z) (publicId : string) (update : OrderLedgerCursor) : Svc unit :=
  repo (OrdersRepo.advanceOrderLedgerCursor now publicId update).
Definition getReconciliationCursorState (limit : Z)
  : Svc (list (Chain * Z * Z) * list (string * OrderStatus * OrderLedgerCursor * Z)) :=
  chainCursors ← repo listChainCursors;
  orderCursors ← repo (listOrderLedgerCursors limit);
  mret (chainCursors, orderCursors).
Definition updateOrderCursor (now : Z) (publicId : string) (chain : Chain) (position : Z) : Svc unit :=
  repo (OrdersRepo.updateOrderCursor now publicId chain position).
Definition getMinActiveOrderCursor (chain : Chain) : Svc (option Z) :=
  repo (OrdersRepo.getMinActiveOrderCursor chain).
Definition getSorobanCheckpoint (contract : string) : Svc (option SorobanCheckpoint) :=
  repo (OrdersRepo.getSorobanCheckpoint contract).
Definition saveSorobanCheckpoint (now : Z) (contract : string) (ledger : Z) (cur : option string)
    (marker : SorobanRecoveryMarker) : Svc unit :=
  repo (OrdersRepo.saveSorobanCheckpoint now contract ledger cur marker).
Definition markSorobanRecovery (now : Z) (contract : string) (marker : SorobanRecoveryMarker) : Svc Z :=
  repo (OrdersRepo.markSorobanRecovery now contract marker).
Definition findOrdersMissingSecret : Svc (list (string * option string * string * string)) :=
  repo OrdersRepo.findOrdersMissingSecret.

End Service.
