(* ===== verification/OrderServiceFacts.v ===== *)
(** * The order service's handlers, branch by branch.

    Each writing handler of [OrderService] either answers without touching
    any state or performs one repository write followed by the same
    bookkeeping; the equations here say which, and what the new state is. *)

From S2P Require Import Prelude OrderMachine TransactionContract OrderRow PageCursor OrdersRepo OrdersRepoFacts.
From S2P Require Import HistoryCache Notifications OrderService.

Import Service.

Lemma with_db_same s : with_db s (db s) = s.
Proof. by destruct s. Qed.

Lemma repo_eq {A} (m : Repo A) s : repo m s = ((m (db s)).1, with_db s (m (db s)).2).
Proof. unfold repo, zoom. by destruct (m (db s)). Qed.

Lemma find_eq publicId s :
  repo (findByPublicId publicId) s = (Ok (rowToOrder <$> row_of publicId (db s)), s).
Proof. rewrite repo_eq. cbn. by rewrite with_db_same. Qed.

(** ** The bookkeeping that follows a write *)

Definition bump (direction : Direction) (phase : OrderStatus) (delta : Z) (m : gmap string Z)
  : gmap string Z :=
  let key := _snapshotKey (direction_str direction) (status_str phase) in
  <[key := Z.max (default 0 (m !! key) + delta) 0]> m.

(** The state after a write that left the database [d'] and moved [o] to
    status [to]. *)
Definition after_write (cfg : Config) (d' : Db) (o : OrderDbRow) (to : OrderStatus) (ev : SsePayload)
    (entry : AuditEntryInput) (s : State) : State :=
  mkState d'
    (invalidateAddress (dst_address o) (invalidateAddress (src_address o) (historyCache s)))
    (bump (direction o) to 1 (bump (direction o) (status o) (-1) (phaseCountSnapshot s)))
    (broadcasts s ++ (if hasSseBroker cfg then [(public_id o, ev)] else []))
    (auditLog s ++ (if hasAuditRepo cfg then [entry] else [])).

(** The cursor write that follows a lock with a known block. *)
Definition bump_cursor (now : Z) (publicId : string) (chain : Chain) (block : Z) (d : Db) : Db :=
  if 0 <? block then (OrdersRepo.updateOrderCursor now publicId chain block d).2 else d.

(** ** Locks *)

Definition is_dup_src (o : OrderDbRow) (i : LockInput) : bool :=
  bool_decide (src_order_id o = Some (l_orderId i)) && bool_decide (src_lock_tx o = Some (l_txHash i)).
Definition is_dup_dst (o : OrderDbRow) (i : LockInput) : bool :=
  bool_decide (dst_order_id o = Some (l_orderId i)) && bool_decide (dst_lock_tx o = Some (l_txHash i)).

(** The lifecycle accepts a move to [to], or the order is there already. *)
Definition lifecycle_accepts (s to : OrderStatus) : bool :=
  negb (isTerminal s) && (canTransition s to || bool_decide (s = to)).

Definition src_lock_error (o : OrderDbRow) (i : LockInput) : JsError :=
  OrderValidationError
    (if negb (bool_decide (src_order_id o = None)) then
       "conflicting src lock for " +:+ public_id o +:+ ": existing=" +:+
       show_nullable (src_order_id o) +:+ "/" +:+ show_nullable (src_lock_tx o) +:+
       " incoming=" +:+ l_orderId i +:+ "/" +:+ l_txHash i
     else if isTerminal (status o) then
       "cannot record src lock for terminal order " +:+ public_id o +:+ " (status=" +:+
       status_str (status o) +:+ ")"
     else "cannot record src lock from status " +:+ status_str (status o)).

Definition dst_lock_error (o : OrderDbRow) (i : LockInput) : JsError :=
  OrderValidationError
    (if negb (bool_decide (dst_order_id o = None)) then
       "conflicting dst lock for " +:+ public_id o +:+ ": existing=" +:+
       show_nullable (dst_order_id o) +:+ "/" +:+ show_nullable (dst_lock_tx o) +:+
       " incoming=" +:+ l_orderId i +:+ "/" +:+ l_txHash i
     else if isTerminal (status o) then
       "cannot record dst lock for terminal order " +:+ public_id o +:+ " (status=" +:+
       status_str (status o) +:+ ")"
     else "cannot record dst lock from status " +:+ status_str (status o)).

Definition secret_error (o : OrderDbRow) (pre : string) : JsError :=
  OrderValidationError
    (if negb (bool_decide (preimage o = None)) then
       "conflicting preimage for " +:+ public_id o +:+ ": existing=" +:+
       show_nullable (preimage o) +:+ " incoming=" +:+ pre
     else if isTerminal (status o) then
       "cannot record secret for terminal order " +:+ public_id o +:+ " (status=" +:+
       status_str (status o) +:+ ")"
     else "cannot record secret from status " +:+ status_str (status o)).

Definition mark_error (o : OrderDbRow) (s : OrderStatus) : JsError :=
  OrderValidationError
    (if isTerminal (status o) then
       "cannot transition terminal order " +:+ public_id o +:+ " from " +:+ status_str (status o) +:+
       " to " +:+ status_str s
     else "cannot transition from " +:+ status_str (status o) +:+ " to " +:+ status_str s).

Definition src_entry cfg (i : LockInput) (o : OrderDbRow) : AuditEntryInput :=
  transitionEntry cfg "order.src_locked" (public_id o) (rowToOrder o) (Some (status o)) src_locked
    (Some (l_txHash i)) (Some (l_blockNumber i)) None (Some ("actor=" +:+ default "system" (l_actor i))).
Definition dst_entry cfg (i : LockInput) (o : OrderDbRow) : AuditEntryInput :=
  transitionEntry cfg "order.dst_locked" (public_id o) (rowToOrder o) (Some (status o)) dst_locked
    (Some (l_txHash i)) (Some (l_blockNumber i)) (l_resolver i)
    (Some ("actor=" +:+ default "system" (l_actor i))).
Definition secret_entry cfg (txHash : string) (actor : option string) (o : OrderDbRow) : AuditEntryInput :=
  transitionEntry cfg "order.secret_revealed" (public_id o) (rowToOrder o) (Some (status o))
    secret_revealed (Some txHash) None None (Some ("actor=" +:+ default "system" actor)).
Definition mark_entry cfg (s : OrderStatus) (actor : string) (o : OrderDbRow) : AuditEntryInput :=
  transitionEntry cfg
    (if bool_decide (s = refunded) then "order.refunded"
     else if bool_decide (s = completed) then "order.completed"
     else if bool_decide (s = expired) then "order.expired" else "order.failed")
    (public_id o) (rowToOrder o) (Some (status o)) s None None None (Some ("actor=" +:+ actor)).

#[local] Arguments findByPublicId : simpl never.
#[local] Arguments OrdersRepo.recordSrcLock : simpl never.
#[local] Arguments OrdersRepo.recordDstLock : simpl never.
#[local] Arguments OrdersRepo.recordSecretRevealed : simpl never.
#[local] Arguments OrdersRepo.setStatus : simpl never.
#[local] Arguments OrdersRepo.updateOrderCursor : simpl never.
#[local] Arguments buildOrderCreatedPayload : simpl never.
#[local] Arguments buildOrderClaimedPayload : simpl never.
#[local] Arguments String.append : simpl never.

(** The bookkeeping run as the handlers run it. *)
Lemma finish_eq cfg o to publicId ev entry s :
  public_id o = publicId ->
  (_ ← recordTransition (direction_str (direction o)) (status o) to;
   _ ← broadcast cfg publicId ev;
   _ ← invalidateParties (rowToOrder o);
   audit cfg entry) s = (Ok tt, after_write cfg (db s) o to ev entry s).
Proof.
  intros <-. unfold broadcast, audit, after_write.
  by destruct (hasSseBroker cfg), (hasAuditRepo cfg); cbn; rewrite ?app_nil_r.
Qed.

(** A repository write followed by the bookkeeping, with and without a
    second write in between. *)
Lemma write_finish_eq0 cfg (w : Repo unit) o to publicId ev entry s d1 :
  public_id o = publicId -> w (db s) = (Ok tt, d1) ->
  (_ ← repo w;
   _ ← recordTransition (direction_str (direction o)) (status o) to;
   _ ← broadcast cfg publicId ev;
   _ ← invalidateParties (rowToOrder o);
   audit cfg entry) s = (Ok tt, after_write cfg d1 o to ev entry s).
Proof.
  intros Hp Hw. rewrite (bind_ok _ _ _ tt (with_db s d1)) by by rewrite repo_eq, Hw.
  rewrite (finish_eq cfg o to publicId ev entry (with_db s d1) Hp). done.
Qed.

Lemma write_finish_eq cfg (w : Repo unit) (extra : Svc unit) o to publicId ev entry s d1 d2 :
  public_id o = publicId ->
  w (db s) = (Ok tt, d1) -> extra (with_db s d1) = (Ok tt, with_db s d2) ->
  (_ ← repo w;
   _ ← extra;
   _ ← recordTransition (direction_str (direction o)) (status o) to;
   _ ← broadcast cfg publicId ev;
   _ ← invalidateParties (rowToOrder o);
   audit cfg entry) s = (Ok tt, after_write cfg d2 o to ev entry s).
Proof.
  intros Hp Hw Hextra. rewrite (bind_ok _ _ _ tt (with_db s d1)) by by rewrite repo_eq, Hw.
  rewrite (bind_ok _ _ _ _ _ Hextra).
  rewrite (finish_eq cfg o to publicId ev entry (with_db s d2) Hp). done.
Qed.

Lemma cursor_extra_eq now publicId chain block s d :
  (if 0 <? block then repo (OrdersRepo.updateOrderCursor now publicId chain block) else mret tt)
    (with_db s d) = (Ok tt, with_db s (bump_cursor now publicId chain block d)).
Proof. unfold bump_cursor. destruct (0 <? block); [|done]. by rewrite repo_eq. Qed.

(** Read the order, then case on every test of a handler. *)
Ltac handler_cases Ho :=
  rewrite (bind_ok _ _ _ _ _ (find_eq _ _));
  destruct (row_of _ _) as [o|] eqn:Ho; [|done];
  cbn [fmap option_fmap option_map].

(** Cases on a nullable column against an incoming value. *)
Ltac nullable_cases col v P :=
  destruct (decide (col = v)) as [?H|?H], (decide P) as [?H|?H], (decide (col = None)) as [?H|?H];
  repeat match goal with
  | H : ?Q |- context [bool_decide ?Q] => rewrite (bool_decide_true Q H)
  | H : ~ ?Q |- context [bool_decide ?Q] => rewrite (bool_decide_false Q H)
  end; cbn -[isTerminal canTransition]; try done; try congruence.

(** Cases on the lifecycle tests; the accepting branch is a write. *)
Ltac accept_cases Heq :=
  destruct (isTerminal _), (canTransition _ _), (bool_decide (status _ = _));
  cbn -[isTerminal canTransition]; try done;
  first [eapply write_finish_eq; [done| |apply cursor_extra_eq]; by rewrite Heq
        |apply write_finish_eq0; [done|by rewrite Heq]].

Section Equations.
Context (cfg : Config) (now : Z) (s : State) (publicId : string).
Context (Hwf : wf_db (db s)).

Lemma recordSrcLock_service i :
  l_publicId i = publicId ->
  Service.recordSrcLock cfg now i s =
  match row_of publicId (db s) with
  | None => (Throw (unknown_order publicId), s)
  | Some o =>
      if is_dup_src o i then (Ok tt, s)
      else if bool_decide (src_order_id o = None) && lifecycle_accepts (status o) src_locked
      then (Ok tt, after_write cfg
              (bump_cursor now publicId (src_chain o) (l_blockNumber i)
                 (OrdersRepo.recordSrcLock now i (db s)).2) o src_locked
              (buildOrderCreatedPayload now publicId (src_chain o) (Some (l_txHash i))
                 (Some (l_blockNumber i)) (Some (l_timelock i)))
              (src_entry cfg i o) s)
      else (Throw (src_lock_error o i), s)
  end.
Proof.
  intros E. unfold Service.recordSrcLock. cbn zeta. rewrite E. handler_cases Ho.
  pose proof (row_of_Some _ _ _ Ho) as [_ Hp].
  pose proof (recordSrcLock_eq now (db s) publicId o (wf_public _ Hwf) Ho i E) as Heq.
  unfold is_dup_src, lifecycle_accepts, src_lock_error, src_entry. cbn -[isTerminal canTransition].
  rewrite Hp.
  nullable_cases (src_order_id o) (Some (l_orderId i)) (src_lock_tx o = Some (l_txHash i));
    accept_cases Heq.
Qed.

Lemma recordDstLock_service i :
  l_publicId i = publicId ->
  Service.recordDstLock cfg now i s =
  match row_of publicId (db s) with
  | None => (Throw (unknown_order publicId), s)
  | Some o =>
      if is_dup_dst o i then (Ok tt, s)
      else if bool_decide (dst_order_id o = None) && lifecycle_accepts (status o) dst_locked
      then (Ok tt, after_write cfg
              (bump_cursor now publicId (dst_chain o) (l_blockNumber i)
                 (OrdersRepo.recordDstLock now i (db s)).2) o dst_locked
              (buildOrderClaimedPayload now publicId dst_locked (dst_chain o) (Some (l_txHash i))
                 (Some (l_blockNumber i)) (Some (l_timelock i)) (l_resolver i))
              (dst_entry cfg i o) s)
      else (Throw (dst_lock_error o i), s)
  end.
Proof.
  intros E. unfold Service.recordDstLock. cbn zeta. rewrite E. handler_cases Ho.
  pose proof (row_of_Some _ _ _ Ho) as [_ Hp].
  pose proof (recordDstLock_eq now (db s) publicId o (wf_public _ Hwf) Ho i E) as Heq.
  unfold is_dup_dst, lifecycle_accepts, dst_lock_error, dst_entry. cbn -[isTerminal canTransition].
  rewrite Hp.
  nullable_cases (dst_order_id o) (Some (l_orderId i)) (dst_lock_tx o = Some (l_txHash i));
    accept_cases Heq.
Qed.

Lemma recordSecret_service pre txHash enc actor :
  Service.recordSecret cfg now publicId pre txHash enc actor s =
  match row_of publicId (db s) with
  | None => (Throw (unknown_order publicId), s)
  | Some o =>
      if bool_decide (preimage o = Some pre) then (Ok tt, s)
      else if bool_decide (preimage o = None) && lifecycle_accepts (status o) secret_revealed
      then (Ok tt, after_write cfg
              (OrdersRepo.recordSecretRevealed now publicId pre txHash enc None (db s)).2 o
              secret_revealed (buildSecretRevealedPayload now publicId pre (Some txHash))
              (secret_entry cfg txHash actor o) s)
      else (Throw (secret_error o pre), s)
  end.
Proof.
  unfold Service.recordSecret. handler_cases Ho.
  pose proof (row_of_Some _ _ _ Ho) as [_ Hp].
  pose proof (recordSecretRevealed_eq now (db s) publicId o (wf_public _ Hwf) Ho pre txHash enc None) as Heq.
  unfold lifecycle_accepts, secret_error, secret_entry. cbn -[isTerminal canTransition].
  rewrite Hp.
  nullable_cases (preimage o) (Some pre) True; accept_cases Heq.
Qed.

Lemma markStatus_service to actor :
  Service.markStatus cfg now publicId to actor s =
  match row_of publicId (db s) with
  | None => (Throw (unknown_order publicId), s)
  | Some o =>
      if bool_decide (status o = to) then (Ok tt, s)
      else if canTransition (status o) to
      then (Ok tt, after_write cfg (OrdersRepo.setStatus now publicId to "system" None (db s)).2 o to
              (if bool_decide (to = refunded) then buildOrderRefundedPayload now publicId None
               else buildStatusChangedPayload now publicId (status_str to) (Some (status_str (status o))))
              (mark_entry cfg to actor o) s)
      else (Throw (mark_error o to), s)
  end.
Proof.
  unfold Service.markStatus. handler_cases Ho.
  pose proof (row_of_Some _ _ _ Ho) as [_ Hp].
  pose proof (setStatus_eq now (db s) publicId o (wf_public _ Hwf) Ho to "system") as Heq.
  unfold mark_error, mark_entry. cbn -[isTerminal canTransition]. rewrite Hp.
  destruct (bool_decide (status o = to)); [done|].
  destruct (isTerminal (status o)) eqn:Et; [by rewrite (isTerminal_no_step _ _ Et)|].
  destruct (canTransition (status o) to); [|done]. cbn.
  destruct (bool_decide (to = refunded)); apply write_finish_eq0; (done || by rewrite Heq).
Qed.
End Equations.

(** ** What a handler may do to the rows

    [Allows M Q] collects the writes the service makes, with the guards it
    checks first: a row relation [Q] that admits them all, with status marks
    limited to [M], describes every run of the service.  [AllowsCore] leaves
    out the secret, for relations that need to know more about it. *)
Class AllowsCore (M : OrderStatus -> Prop) (Q : OrderDbRow -> OrderDbRow -> Prop) : Prop := {
  allows_cursors r eth soroban sol now :
    le_opt (last_eth_block r) eth -> le_opt (last_soroban_ledger r) soroban ->
    le_opt (last_solana_slot r) sol -> Q r (set_cursors eth soroban sol now r);
  allows_archived r a now : Q r (set_archived a now r);
  allows_src_lock r orderId txHash block timelock now :
    src_order_id r = None -> lifecycle_accepts (status r) src_locked = true ->
    Q r (set_src_lock (Some orderId) (Some txHash) (Some block) (Some timelock) src_locked now r);
  allows_dst_lock r orderId txHash block timelock resolver now :
    dst_order_id r = None -> lifecycle_accepts (status r) dst_locked = true ->
    Q r (set_dst_lock (Some orderId) (Some txHash) (Some block) (Some timelock) resolver dst_locked now r);
  allows_mark r s now : M s -> canTransition (status r) s = true -> Q r (set_status s now r);
  allows_rollback_src r now :
    status r = src_locked -> Q r (set_src_lock None None None None announced now r);
  allows_rollback_dst r now :
    status r = dst_locked -> Q r (set_dst_lock None None None None None src_locked now r);
  allows_cancelled r s reason a now :
    s = cancelled \/ s = abandoned -> canTransition (status r) s = true ->
    Q r (set_cancelled s reason a now r)
}.

Class Allows (M : OrderStatus -> Prop) (Q : OrderDbRow -> OrderDbRow -> Prop) : Prop := {
  #[global] allows_core :: AllowsCore M Q;
  allows_secret r pre enc txHash now :
    preimage r = None -> lifecycle_accepts (status r) secret_revealed = true ->
    Q r (set_secret pre enc txHash now r)
}.

(** A lock write leaves the order at the lock's status. *)
Lemma nextLockStatus_accepts s to : lifecycle_accepts s to = true -> nextLockStatus s to = to.
Proof.
  unfold lifecycle_accepts, nextLockStatus. intros [_ H]%andb_true_iff.
  destruct (canTransition s to); [done|]. by apply bool_decide_eq_true in H.
Qed.

Lemma lifecycle_not_terminal s to : lifecycle_accepts s to = true -> isTerminal s = false.
Proof. unfold lifecycle_accepts. intros [H _]%andb_true_iff. by apply negb_true_iff. Qed.

Section Steps.
Context (M : OrderStatus -> Prop) (Q : OrderDbRow -> OrderDbRow -> Prop) {HQ : AllowsCore M Q}.

(** The databases a run goes through. *)
Abbreviation steps := (rtc (repo_step Q)).

Lemma repo_step_wf_rtc d d' : steps d d' -> wf_db d -> wf_db d'.
Proof. induction 1; eauto using repo_step_wf. Qed.

Lemma bump_cursor_step now publicId chain block d :
  repo_step Q d (bump_cursor now publicId chain block d).
Proof.
  unfold bump_cursor. destruct (0 <? block); [|apply rs_none].
  apply updateOrderCursor_step, allows_cursors.
Qed.

Lemma recordSrcLock_service_steps cfg now i s :
  wf_db (db s) -> steps (db s) (db (Service.recordSrcLock cfg now i s).2).
Proof.
  intros Hwf. rewrite (recordSrcLock_service cfg now s (l_publicId i) Hwf i eq_refl).
  destruct (row_of (l_publicId i) (db s)) as [o|] eqn:Ho; [|done].
  destruct (is_dup_src o i); [done|]. case_match eqn:Ha; [|done].
  apply andb_true_iff in Ha as [Hn Ha]. apply bool_decide_eq_true in Hn.
  eapply rtc_l; [|apply rtc_once, bump_cursor_step].
  apply recordSrcLock_step; [apply Hwf|]. intros o' Ho' _. simplify_eq.
  rewrite nextLockStatus_accepts by done. by apply allows_src_lock.
Qed.

Lemma recordDstLock_service_steps cfg now i s :
  wf_db (db s) -> steps (db s) (db (Service.recordDstLock cfg now i s).2).
Proof.
  intros Hwf. rewrite (recordDstLock_service cfg now s (l_publicId i) Hwf i eq_refl).
  destruct (row_of (l_publicId i) (db s)) as [o|] eqn:Ho; [|done].
  destruct (is_dup_dst o i); [done|]. case_match eqn:Ha; [|done].
  apply andb_true_iff in Ha as [Hn Ha]. apply bool_decide_eq_true in Hn.
  eapply rtc_l; [|apply rtc_once, bump_cursor_step].
  apply recordDstLock_step; [apply Hwf|]. intros o' Ho' _. simplify_eq.
  rewrite nextLockStatus_accepts by done. by apply allows_dst_lock.
Qed.

(** The secret of an order that passed the service's checks. *)
Lemma recordSecret_steps_if cfg now publicId pre txHash enc actor s :
  wf_db (db s) ->
  (forall o n, row_of publicId (db s) = Some o -> preimage o = None ->
     lifecycle_accepts (status o) secret_revealed = true -> Q o (set_secret pre enc txHash n o)) ->
  steps (db s) (db (Service.recordSecret cfg now publicId pre txHash enc actor s).2).
Proof.
  intros Hwf Hsec. rewrite (recordSecret_service cfg now s publicId Hwf).
  destruct (row_of publicId (db s)) as [o|] eqn:Ho; [|done].
  case_bool_decide; [done|]. case_match eqn:Ha; [|done].
  apply andb_true_iff in Ha as [Hn Ha]. apply bool_decide_eq_true in Hn.
  apply rtc_once, recordSecretRevealed_step; [apply Hwf|]. intros o' Ho' _ _. simplify_eq. by apply Hsec.
Qed.

Lemma markStatus_service_steps cfg now publicId to actor s :
  M to -> wf_db (db s) -> steps (db s) (db (Service.markStatus cfg now publicId to actor s).2).
Proof.
  intros HM Hwf. rewrite (markStatus_service cfg now s publicId Hwf).
  destruct (row_of publicId (db s)) as [o|] eqn:Ho; [|done].
  case_bool_decide; [done|]. case_match eqn:Ha; [|done].
  apply rtc_once, setStatus_step; [apply Hwf|]. intros o' Ho' _. simplify_eq.
  by apply allows_mark.
Qed.

(** The remaining writers are one repository call each. *)
Lemma keeps_db_repo {A} (m : Repo A) (k : A -> Svc unit) s :
  (forall a, keeps db (k a)) -> db ((repo m ≫= k) s).2 = (m (db s)).2.
Proof.
  intros Hk. unfold mbind, st_bind. rewrite repo_eq.
  destruct (m (db s)) as [[a|e] d]; cbn; [|done]. by rewrite Hk.
Qed.

Lemma audit_keeps_db cfg entry : keeps db (audit cfg entry).
Proof. unfold audit. by destruct (hasAuditRepo cfg). Qed.

Lemma rollbackSrcLock_service_steps cfg now publicId s :
  wf_db (db s) -> steps (db s) (db (Service.rollbackSrcLock cfg now publicId s).2).
Proof.
  intros Hwf. unfold Service.rollbackSrcLock.
  rewrite keeps_db_repo by (intros; apply audit_keeps_db).
  apply rtc_once, rollbackSrcLock_step; [apply Hwf|]. intros. by apply allows_rollback_src.
Qed.

Lemma rollbackDstLock_service_steps cfg now publicId s :
  wf_db (db s) -> steps (db s) (db (Service.rollbackDstLock cfg now publicId s).2).
Proof.
  intros Hwf. unfold Service.rollbackDstLock.
  rewrite keeps_db_repo by (intros; apply audit_keeps_db).
  apply rtc_once, rollbackDstLock_step; [apply Hwf|]. intros. by apply allows_rollback_dst.
Qed.

Lemma repo_steps {A} (m : Repo A) s :
  repo_step Q (db s) (m (db s)).2 -> steps (db s) (db (repo m s).2).
Proof. intros H. rewrite repo_eq. by apply rtc_once. Qed.

Lemma announce_service_steps cfg now input s : steps (db s) (db (Service.announce cfg now input s).2).
Proof.
  unfold Service.announce. st_unfold. rewrite repo_eq. cbn. rewrite with_db_same.
  destruct (sql_get _ _); [done|]. cbn. rewrite repo_eq.
  pose proof (announce_step Q now (db s) input) as Hs.
  destruct (OrdersRepo.announce now input (db s)) as [[o|e] d]; [|by apply rtc_once].
  apply rtc_once. by destruct (hasAuditRepo cfg) eqn:E; unfold audit; rewrite E.
Qed.

Lemma expireOne_steps cfg now o s :
  M expired -> wf_db (db s) -> steps (db s) (db (expireOne cfg now o s).2).
Proof.
  intros HM Hwf. unfold expireOne. destruct (bool_decide _); [done|]. destruct (isTerminal _); [done|].
  pose proof (markStatus_service_steps cfg now (o_publicId o) expired "expiry_scan" s HM Hwf) as H.
  st_unfold. by destruct (Service.markStatus _ _ _ _ _ s) as [[[]|e] s'].
Qed.

Lemma expireStaleOrders_steps cfg now secs s :
  M expired -> wf_db (db s) -> steps (db s) (db (expireStaleOrders cfg now secs s).2).
Proof.
  intros HM. unfold expireStaleOrders. generalize (default (seconds now) secs). intros cutoff.
  unfold mbind, st_bind. rewrite repo_eq. cbn. rewrite with_db_same.
  generalize (rowToOrder <$> sql_select (fun r => bool_decide (status r ∈ [src_locked; dst_locked]) &&
    (match src_timelock r with Some t => t <? cutoff | None => false end ||
     match dst_timelock r with Some t => t <? cutoff | None => false end)) (orders (db s))).
  intros cs. revert s. induction cs as [|c cs IH]; intros s Hwf; [done|]. cbn. st_unfold.
  pose proof (expireOne_steps cfg now c s HM Hwf) as H.
  destruct (expireOne cfg now c s) as [[n|e] s1]; [|done]. cbn in H.
  specialize (IH s1 (repo_step_wf_rtc _ _ H Hwf)).
  destruct (sum_each (expireOne cfg now) cs s1) as [[m|e] s2]; cbn in *; by etrans.
Qed.

End Steps.

(** A history request changes the cache and nothing else. *)
Section HistoryReads.
Context {B : Type} (g : State -> B).
Context (Hg : forall s m, g (mkState (db s) m (phaseCountSnapshot s) (broadcasts s) (auditLog s)) = g s).

Lemma repo_read_keeps {A} (m : Repo A) : (forall d, (m d).2 = d) -> keeps g (repo m).
Proof. intros H s. rewrite repo_eq, H, with_db_same. done. Qed.

Lemma cache_lookup_keeps now a l c : keeps g (cache_lookup now a l c).
Proof. intros s. unfold cache_lookup. destruct (cache_get _ _ _ _ _). apply Hg. Qed.

Lemma cache_store_keeps cfg now a l c h : keeps g (cache_store cfg now a l c h).
Proof. intros s. unfold cache_store. destruct (Nat.ltb _ _); [apply Hg|done]. Qed.

Lemma history_keeps cfg now a l o : keeps g (history cfg now a l o).
Proof.
  apply keeps_bind; [apply cache_lookup_keeps|]. intros [h|]; [apply keeps_ret|].
  apply keeps_bind; [by apply repo_read_keeps|]. intros rows.
  apply keeps_bind; [apply cache_store_keeps|]. intros _. apply keeps_ret.
Qed.

Lemma findByAddressWithCursor_pure a l c d : (findByAddressWithCursor a l c d).2 = d.
Proof.
  unfold findByAddressWithCursor. case_bool_decide; [done|]. st_unfold.
  destruct c as [c|]; [by destruct (decodeCursor c)|done].
Qed.

Lemma historyWithCursor_keeps cfg now a l c : keeps g (historyWithCursor cfg now a l c).
Proof.
  apply keeps_bind; [apply cache_lookup_keeps|]. intros [h|]; [apply keeps_ret|].
  apply keeps_bind; [apply repo_read_keeps, findByAddressWithCursor_pure|]. intros rows.
  apply keeps_bind; [apply cache_store_keeps|]. intros _. apply keeps_ret.
Qed.
End HistoryReads.

Lemma recordSecret_service_steps M Q {HQ : Allows M Q} cfg now publicId pre txHash enc actor s :
  wf_db (db s) ->
  rtc (repo_step Q) (db s) (db (Service.recordSecret cfg now publicId pre txHash enc actor s).2).
Proof. intros Hwf. apply recordSecret_steps_if; [done|]. intros. by apply (allows_secret (M := M)). Qed.
