(* ===== verification/OrderServiceSpec.v ===== *)
(** * The contract of the order service.

    The mutating calls the coordinator makes - the service's own handlers and
    the repository calls of the stale-order cleanup and the archival job - as
    one type, and what every interleaving of them preserves. *)

From S2P Require Import Prelude OrderMachine TransactionContract OrderRow OrdersRepo OrdersRepoFacts.
From S2P Require Import OrdersRepoSpec HistoryCache Notifications OrderService OrderServiceFacts.

Import Service.

Inductive Call : Type :=
| CAnnounce (input : AnnounceOrderInput)
| CSrcLock (i : LockInput)
| CDstLock (i : LockInput)
| CSecret (publicId pre txHash : string) (enc : option Z) (actor : option string)
| CMark (publicId : string) (to : OrderStatus) (actor : string)
| CRollbackSrc (publicId : string)
| CRollbackDst (publicId : string)
| CExpire (nowSeconds : option Z)
| CHistory (address : string) (limit offset : option Z)
| CHistoryCursor (address : string) (limit : option Z) (cursor : option string)
| CClaim (key chain eventType : string) (orderId : option Z)
| CSetChainCursor (chain : Chain) (position : Z)
| CAdvanceCursor (publicId : string) (update : OrderLedgerCursor)
| CUpdateCursor (publicId : string) (chain : Chain) (position : Z)
| CSaveCheckpoint (contract : string) (ledger : Z) (cur : option string) (m : SorobanRecoveryMarker)
| CMarkRecovery (contract : string) (m : SorobanRecoveryMarker)
| CCancel (publicId reason actor : string)
| CAbandon (publicId reason actor : string)
| CArchive (publicId : string)
| CUnarchive (publicId : string).

(** The state after a call at time [now]; thrown errors are the caller's. *)
Definition run1 (cfg : Config) (now : Z) (c : Call) (s : State) : State :=
  match c with
  | CAnnounce i => (Service.announce cfg now i s).2
  | CSrcLock i => (Service.recordSrcLock cfg now i s).2
  | CDstLock i => (Service.recordDstLock cfg now i s).2
  | CSecret p pre t e a => (Service.recordSecret cfg now p pre t e a s).2
  | CMark p to a => (Service.markStatus cfg now p to a s).2
  | CRollbackSrc p => (Service.rollbackSrcLock cfg now p s).2
  | CRollbackDst p => (Service.rollbackDstLock cfg now p s).2
  | CExpire n => (expireStaleOrders cfg now n s).2
  | CHistory a l o => (history cfg now a l o s).2
  | CHistoryCursor a l c => (historyWithCursor cfg now a l c s).2
  | CClaim k c e o => (Service.claimEvent k c e o s).2
  | CSetChainCursor c p => (Service.setChainCursor now c p s).2
  | CAdvanceCursor p u => (Service.advanceOrderLedgerCursor now p u s).2
  | CUpdateCursor p c x => (Service.updateOrderCursor now p c x s).2
  | CSaveCheckpoint c l cur m => (Service.saveSorobanCheckpoint now c l cur m s).2
  | CMarkRecovery c m => (Service.markSorobanRecovery now c m s).2
  | CCancel p r a => (repo (cancelOrder now p r a) s).2
  | CAbandon p r a => (repo (abandonOrder now p r a) s).2
  | CArchive p => (repo (archiveOrder now p) s).2
  | CUnarchive p => (repo (unarchiveOrder now p) s).2
  end.

Definition run (cfg : Config) (cs : list (Z * Call)) (s : State) : State :=
  fold_left (fun s c => run1 cfg c.1 c.2 s) cs s.

(** The statuses a caller marks directly. *)
Definition marks (M : OrderStatus -> Prop) (c : Call) : Prop :=
  match c with
  | CMark _ to _ => M to
  | CExpire _ => M expired
  | _ => True
  end.

Lemma run1_steps M Q `{!Allows M Q} cfg now c s :
  marks M c -> wf_db (db s) -> rtc (repo_step Q) (db s) (db (run1 cfg now c s)).
Proof.
  intros HM Hwf. pose proof (wf_public _ Hwf) as Hnd.
  destruct c; cbn [run1];
    first [ by apply (announce_service_steps Q)
          | by apply (recordSrcLock_service_steps M Q) | by apply (recordDstLock_service_steps M Q)
          | by apply (recordSecret_service_steps M Q) | by apply (markStatus_service_steps M Q)
          | by apply (rollbackSrcLock_service_steps M Q) | by apply (rollbackDstLock_service_steps M Q)
          | by apply (expireStaleOrders_steps M Q) | by rewrite (history_keeps db)
          | by rewrite (historyWithCursor_keeps db)
          | apply repo_steps ].
  - apply claimEvent_step.
  - apply setChainCursor_step.
  - apply advanceOrderLedgerCursor_step, (allows_cursors (M := M)).
  - apply updateOrderCursor_step, (allows_cursors (M := M)).
  - apply saveSorobanCheckpoint_step.
  - apply markSorobanRecovery_step.
  - apply cancelOrder_step; [done|]. intros. apply (allows_cancelled (M := M)); auto.
  - apply abandonOrder_step; [done|]. intros. apply (allows_cancelled (M := M)); auto.
  - apply archiveOrder_step, (allows_archived (M := M)).
  - apply unarchiveOrder_step, (allows_archived (M := M)).
Qed.

(** Any run is a sequence of repository steps. *)
Lemma run_steps M Q `{!Allows M Q} cfg cs s :
  Forall (fun c => marks M c.2) cs -> wf_db (db s) ->
  rtc (repo_step Q) (db s) (db (run cfg cs s)).
Proof.
  intros HM. revert s. induction HM as [|[now c] cs Hc _ IH]; intros s Hwf; [done|]. cbn.
  pose proof (run1_steps M Q cfg now c s Hc Hwf) as H. etrans; [apply H|].
  apply IH. by eapply repo_step_wf_rtc.
Qed.

Lemma rtc_row Q d d' publicId r :
  rtc (repo_step Q) d d' -> wf_db d -> row_of publicId d = Some r ->
  exists r', row_of publicId d' = Some r' /\ rtc (evolves Q) r r'.
Proof.
  intros Hs. revert r. induction Hs as [d|d1 d2 d3 H12 _ IH]; intros r Hwf Hr; [by exists r|].
  destruct (repo_step_row Q d1 d2 publicId r (wf_public _ Hwf) H12 Hr) as (r2 & Hr2 & Hev).
  destruct (IH r2 (repo_step_wf _ _ _ H12 Hwf) Hr2) as (r3 & Hr3 & Hev').
  exists r3. split; [done|]. by eapply rtc_l.
Qed.

(** ** Progress is one-way *)

(** A reorg undoes the last lock. *)
Definition rollback_edge (a b : OrderStatus) : bool :=
  match a, b with
  | src_locked, announced => true
  | dst_locked, src_locked => true
  | _, _ => false
  end.

(** Recorded data stays: a lock or a secret that is there is not rewritten. *)
Definition src_kept (r r' : OrderDbRow) : Prop :=
  src_order_id r <> None ->
  src_order_id r' = src_order_id r /\ src_lock_tx r' = src_lock_tx r /\
  src_lock_block r' = src_lock_block r /\ src_timelock r' = src_timelock r.
Definition dst_kept (r r' : OrderDbRow) : Prop :=
  dst_order_id r <> None ->
  dst_order_id r' = dst_order_id r /\ dst_lock_tx r' = dst_lock_tx r /\
  dst_lock_block r' = dst_lock_block r /\ dst_timelock r' = dst_timelock r /\
  resolver_address r' = resolver_address r.
Definition secret_kept (r r' : OrderDbRow) : Prop :=
  preimage r <> None ->
  preimage r' = preimage r /\ preimage_enc_version r' = preimage_enc_version r /\
  secret_revealed_tx r' = secret_revealed_tx r.

(** One write of the service: the order's progress is untouched, or the order
    was not terminal and either its last lock is undone, or its status moves
    along the lifecycle and nothing recorded is rewritten. *)
Definition life (r r' : OrderDbRow) : Prop :=
  frozen r r' \/
  (isTerminal (status r) = false /\ secret_kept r r' /\
   ((rollback_edge (status r) (status r') = true /\ (status r = src_locked -> dst_kept r r') /\
     (status r = dst_locked -> src_kept r r')) \/
    ((status r' = status r \/ canTransition (status r) (status r') = true) /\
     src_kept r r' /\ dst_kept r r'))).

Lemma canTransition_not_terminal a b : canTransition a b = true -> isTerminal a = false.
Proof. destruct (isTerminal a) eqn:E; [|done]. by rewrite isTerminal_no_step. Qed.

Lemma lifecycle_moves a b :
  lifecycle_accepts a b = true -> b = a \/ canTransition a b = true.
Proof.
  unfold lifecycle_accepts. intros [_ [H|H%bool_decide_eq_true]%orb_true_iff]%andb_true_iff; auto.
Qed.

#[export] Instance life_allows : Allows (fun _ => True) life.
Proof.
  split; [split|]; intros; try (by left); right;
    unfold src_kept, dst_kept, secret_kept; cbn; split_and!;
    eauto using lifecycle_not_terminal, canTransition_not_terminal;
    try (by rewrite H); try (right; split_and!; eauto using lifecycle_moves; by intros);
    try (left; rewrite H; by split_and!).
Qed.

Lemma evolves_life_same r r' : evolves life r r' -> same_ids r r'.
Proof. by intros [->|[? _]]. Qed.

Lemma terminal_frozen r r' :
  rtc (evolves life) r r' -> isTerminal (status r) = true -> frozen r r'.
Proof.
  induction 1 as [r|r1 r2 r3 H12 _ IH]; [done|]. intros Ht.
  assert (frozen r1 r2) as Hf by (destruct H12 as [->|[_ [?|[Hn _]]]]; [done|done|congruence]).
  eapply frozen_trans; [done|]. apply IH. by destruct Hf as (-> & _).
Qed.

Lemma any_mark cs : Forall (fun c : Z * Call => marks (fun _ => True) c.2) cs.
Proof. apply Forall_forall. intros [now []] _; done. Qed.

Lemma run_wf cfg cs s : wf_db (db s) -> wf_db (db (run cfg cs s)).
Proof.
  intros Hwf. eapply (repo_step_wf_rtc life); [|done].
  apply (run_steps (fun _ => True) life); [apply any_mark|done].
Qed.

(** C11.  Progress is one-way: whatever calls listeners, reconcilers, scans
    and operators interleave, an order that exists stays, its row changes only
    by writes of the form [life] - along the lifecycle or by undoing its last
    lock, never rewriting a recorded lock or secret - and an order that has
    reached a terminal status keeps its status, locks, secret and reason for
    ever. *)
Theorem service_progress_one_way (cfg : Config) (cs cs' : list (Z * Call)) (publicId : string)
    (r : OrderDbRow) :
  let s := run cfg cs init in
  row_of publicId (db s) = Some r ->
  exists r', row_of publicId (db (run cfg cs' s)) = Some r' /\
    rtc (evolves life) r r' /\ (isTerminal (status r) = true -> frozen r r').
Proof.
  intros s Hr. assert (wf_db (db s)) as Hwf by (apply run_wf, wf_emptyDb).
  destruct (rtc_row life (db s) (db (run cfg cs' s)) publicId r) as (r' & Hr' & Hev);
    [apply (run_steps (fun _ => True) life); [apply any_mark|done]|done|done|].
  exists r'. eauto using terminal_frozen.
Qed.

(** A lifecycle with a reorg, a duplicate and a late event. *)
Definition demo_cfg : Config := configure true None true true None.
Definition demo_service_calls : list (Z * Call) :=
  [(1000, CAnnounce demo_input);
   (2000, CSrcLock (mkLockInput demo_id "7" "0xt1" 100 90 None (Some "ethereum_listener")));
   (2500, CHistory "0xaa" None None);
   (3000, CRollbackSrc demo_id);
   (4000, CSrcLock (mkLockInput demo_id "7" "0xt2" 101 90 None None));
   (4100, CSrcLock (mkLockInput demo_id "7" "0xt2" 101 90 None None));
   (5000, CDstLock (mkLockInput demo_id "9" "st1" 55 80 (Some "r1") None));
   (6000, CSecret demo_id "0xpre" "0xt3" None None);
   (7000, CMark demo_id completed "system")].

Definition late_calls : list (Z * Call) :=
  [(8000, CMark demo_id refunded "system"); (9000, CRollbackDst demo_id)].

Lemma service_progress_one_way_witness :
  let s := run demo_cfg demo_service_calls init in
  exists r r', row_of demo_id (db s) = Some r /\ status r = completed /\
    row_of demo_id (db (run demo_cfg late_calls s)) = Some r' /\ frozen r r'.
Proof.
  intros s. destruct (row_of demo_id (db s)) as [r|] eqn:Hr; [|by vm_compute in Hr].
  destruct (service_progress_one_way demo_cfg demo_service_calls late_calls demo_id r Hr)
    as (r' & Hr' & _ & Hf).
  exists r, r'. assert (status r = completed) as Hs by (vm_compute in Hr; by injection Hr as <-).
  split_and!; [done|done|done|]. apply Hf. by rewrite Hs.
Defined.

(** ** Status and data agree *)

(** What the columns of a row must hold at its status. *)
Definition row_ok (r : OrderDbRow) : Prop :=
  (src_order_id r = None <-> src_lock_tx r = None) /\
  (dst_order_id r = None <-> dst_lock_tx r = None) /\
  (preimage r = None <-> secret_revealed_tx r = None) /\
  match status r with
  | announced | cancelled | abandoned =>
      src_order_id r = None /\ dst_order_id r = None /\ preimage r = None
  | src_locked => is_Some (src_order_id r) /\ dst_order_id r = None /\ preimage r = None
  | dst_locked => is_Some (src_order_id r) /\ is_Some (dst_order_id r) /\ preimage r = None
  | secret_revealed | completed => is_Some (src_order_id r) /\ is_Some (preimage r)
  | expired => preimage r = None /\ (is_Some (dst_order_id r) -> is_Some (src_order_id r))
  | refunded | failed => is_Some (preimage r) \/ is_Some (dst_order_id r) -> is_Some (src_order_id r)
  end.

Definition keeps_ok (r r' : OrderDbRow) : Prop := row_ok r -> row_ok r'.

(** The outcomes callers mark directly; the forward statuses are only reached
    through the handlers that carry the on-chain data. *)
Definition outcome_mark (s : OrderStatus) : Prop :=
  s <> announced /\ s <> src_locked /\ s <> dst_locked /\ s <> secret_revealed.

(** Propositional cases with nullable columns. *)
Ltac ok_cases :=
  intuition;
  repeat match goal with
  | H : ?x = None, K : is_Some ?x |- _ => rewrite H in K; by destruct K
  end.

#[export] Instance keeps_ok_allows : Allows outcome_mark keeps_ok.
Proof.
  split; [split|]; unfold keeps_ok, row_ok; cbn; try done.
  - intros r *. destruct (status r) eqn:E; cbn; try done; naive_solver.
  - intros r *. destruct (status r) eqn:E; cbn; try done; naive_solver.
  - intros r s now (H1 & H2 & H3 & H4) Hc (K1 & K2 & K3 & K4). split_and!; [done..|].
    destruct (status r), s; done || ok_cases.
  - intros r now ->. cbn. naive_solver.
  - intros r now ->. cbn. naive_solver.
  - intros r s reason a now [->| ->] Hc (K1 & K2 & K3 & K4); split_and!; try done;
      destruct (status r); done || ok_cases.
  - intros r *. destruct (status r) eqn:E; cbn; try done; naive_solver.
Qed.

Lemma insertRow_ok i p input n : row_ok (insertRow i p input n).
Proof. done. Qed.

(** Where the rows of a step come from. *)
Lemma repo_step_elem Q d d' r' :
  wf_db d -> repo_step Q d d' -> r' ∈ orders d' ->
  (exists r, r ∈ orders d /\ evolves Q r r') \/
  (exists i p input n, r' = insertRow i p input n).
Proof.
  intros Hwf Hstep. destruct Hstep as [d|d pid g f Hf|d o now kind p|d pid o f now kind p Ho Hid HQ _ _
    |d pid input now _ Hnone|d pe cc sc]; cbn; intros Hr; try (left; exists r'; split; [done|by left]).
  - apply elem_of_sql_update in Hr as (r & Hr & ->). left. exists r. split; [done|].
    destruct (by_public_id pid r && g r) eqn:E; [|by left].
    apply andb_true_iff in E as [E Eg]. apply bool_decide_eq_true in E.
    destruct (Hf r Hr E Eg) as (? & ? & ?). by right.
  - apply elem_of_sql_update in Hr as (r & Hr & ->). left. exists r. split; [done|].
    destruct (by_public_id pid r) eqn:E; [|by left].
    assert (r = o) as -> by (eapply not_by_other; [apply Hwf|done..]). by right.
  - apply elem_of_app in Hr as [Hr| ->%list_elem_of_singleton]; [left|right; eauto].
    exists r'. split; [done|by left].
Qed.

Lemma rtc_rows_ok d d' :
  rtc (repo_step keeps_ok) d d' -> wf_db d -> Forall row_ok (orders d) -> Forall row_ok (orders d').
Proof.
  induction 1 as [d|d1 d2 d3 H12 _ IH]; intros Hwf Hok; [done|].
  apply IH; [by eapply repo_step_wf|]. apply Forall_forall. intros r' Hr'.
  destruct (repo_step_elem keeps_ok d1 d2 r' Hwf H12 Hr') as [(r & Hr & Hev)|(i & p & input & n & ->)];
    [|apply insertRow_ok].
  pose proof (proj1 (Forall_forall _ _) Hok r Hr) as Hrok. destruct Hev as [->|[_ Hq]]; auto.
Qed.

(** C12.  Status and data agree: as long as callers mark only outcomes
    (completed, refunded, failed, expired, cancelled, abandoned) directly - as
    every caller does - each order row of a run holds what its status claims:
    a locked order has its source lock, a [dst_locked] order both locks, a
    [secret_revealed] or [completed] order the preimage it was unlocked with,
    an announced or cancelled order none of them, and no order can be expired
    once its secret is known. *)
Theorem order_rows_consistent (cfg : Config) (cs : list (Z * Call)) :
  Forall (fun c => marks outcome_mark c.2) cs ->
  Forall row_ok (orders (db (run cfg cs init))).
Proof.
  intros Hcs. apply (rtc_rows_ok (db init)); [|apply wf_emptyDb|constructor].
  apply (run_steps outcome_mark keeps_ok); [done|apply wf_emptyDb].
Qed.

Lemma order_rows_consistent_witness :
  Forall row_ok (orders (db (run demo_cfg demo_service_calls init))) /\
  length (orders (db (run demo_cfg demo_service_calls init))) = 1%nat.
Proof.
  split; [|by vm_compute]. apply order_rows_consistent. by repeat constructor.
Defined.

(** ** Each fact is recorded once *)

Lemma bump_cursor_frozen now publicId' chain block d publicId r :
  wf_db d -> row_of publicId d = Some r ->
  exists r', row_of publicId (bump_cursor now publicId' chain block d) = Some r' /\ frozen r r'.
Proof.
  intros Hwf Hr. unfold bump_cursor. destruct (0 <? block); [|by exists r].
  destruct (repo_step_row frozen d (OrdersRepo.updateOrderCursor now publicId' chain block d).2 publicId r)
    as (r' & Hr' & [->|[_ Hf]]); [apply Hwf| |done|by exists r|by exists r'].
  by apply updateOrderCursor_step.
Qed.

Lemma row_of_written now publicId o f kind p d :
  wf_db d -> row_of publicId d = Some o -> same_ids o (f o) ->
  row_of publicId (write now publicId o f kind p d) = Some (f o).
Proof.
  intros Hwf Ho Hid. unfold row_of, write. cbn. rewrite (row_of_write d publicId o) by (apply Hwf || done).
  by rewrite bool_decide_true.
Qed.

(** The row after an accepted lock or secret. *)
Lemma recordSrcLock_row cfg now i s s1 :
  wf_db (db s) -> Service.recordSrcLock cfg now i s = (Ok tt, s1) ->
  wf_db (db s1) /\ exists o, row_of (l_publicId i) (db s1) = Some o /\
    src_order_id o = Some (l_orderId i) /\ src_lock_tx o = Some (l_txHash i).
Proof.
  intros Hwf Heq.
  pose proof (recordSrcLock_service_steps (fun _ => True) life cfg now i s Hwf) as Hs. rewrite Heq in Hs.
  split; [by eapply repo_step_wf_rtc|]. clear Hs.
  rewrite (recordSrcLock_service cfg now s (l_publicId i) Hwf i eq_refl) in Heq.
  destruct (row_of (l_publicId i) (db s)) as [o|] eqn:Ho; [|done].
  destruct (is_dup_src o i) eqn:Hd.
  { injection Heq as <-. exists o. unfold is_dup_src in Hd. by bools. }
  case_match eqn:Ha; [|done]. injection Heq as <-. bools. cbn [db after_write].
  pose proof (repo_step_wf _ _ _ (run_call_step now (CallRecordSrcLock i) (db s) Hwf) Hwf) as Hwf1.
  pose proof (recordSrcLock_eq now (db s) _ o (wf_public _ Hwf) Ho i eq_refl) as Hw. cbv zeta in Hw.
  rewrite (lifecycle_not_terminal _ _ H0) in Hw. cbn [run_call] in Hwf1. rewrite Hw in Hwf1 |- *.
  edestruct (bump_cursor_frozen now (l_publicId i) (src_chain o) (l_blockNumber i)) as (r' & Hr' & Hf);
    [apply Hwf1|by apply (row_of_written now _ o)|].
  exists r'. destruct Hf as (_ & -> & -> & _). done.
Qed.

Lemma recordDstLock_row cfg now i s s1 :
  wf_db (db s) -> Service.recordDstLock cfg now i s = (Ok tt, s1) ->
  wf_db (db s1) /\ exists o, row_of (l_publicId i) (db s1) = Some o /\
    dst_order_id o = Some (l_orderId i) /\ dst_lock_tx o = Some (l_txHash i).
Proof.
  intros Hwf Heq.
  pose proof (recordDstLock_service_steps (fun _ => True) life cfg now i s Hwf) as Hs. rewrite Heq in Hs.
  split; [by eapply repo_step_wf_rtc|]. clear Hs.
  rewrite (recordDstLock_service cfg now s (l_publicId i) Hwf i eq_refl) in Heq.
  destruct (row_of (l_publicId i) (db s)) as [o|] eqn:Ho; [|done].
  destruct (is_dup_dst o i) eqn:Hd.
  { injection Heq as <-. exists o. unfold is_dup_dst in Hd. by bools. }
  case_match eqn:Ha; [|done]. injection Heq as <-. bools. cbn [db after_write].
  pose proof (repo_step_wf _ _ _ (run_call_step now (CallRecordDstLock i) (db s) Hwf) Hwf) as Hwf1.
  pose proof (recordDstLock_eq now (db s) _ o (wf_public _ Hwf) Ho i eq_refl) as Hw. cbv zeta in Hw.
  rewrite (lifecycle_not_terminal _ _ H0) in Hw. cbn [run_call] in Hwf1. rewrite Hw in Hwf1 |- *.
  edestruct (bump_cursor_frozen now (l_publicId i) (dst_chain o) (l_blockNumber i)) as (r' & Hr' & Hf);
    [apply Hwf1|by apply (row_of_written now _ o)|].
  exists r'. destruct Hf as (_ & _ & _ & _ & _ & -> & -> & _). done.
Qed.

Lemma recordSecret_row cfg now publicId pre txHash enc actor s s1 :
  wf_db (db s) -> Service.recordSecret cfg now publicId pre txHash enc actor s = (Ok tt, s1) ->
  wf_db (db s1) /\ exists o, row_of publicId (db s1) = Some o /\ preimage o = Some pre.
Proof.
  intros Hwf Heq.
  pose proof (recordSecret_service_steps (fun _ => True) life cfg now publicId pre txHash enc actor s Hwf) as Hs.
  rewrite Heq in Hs. split; [by eapply repo_step_wf_rtc|]. clear Hs.
  rewrite (recordSecret_service cfg now s publicId Hwf) in Heq.
  destruct (row_of publicId (db s)) as [o|] eqn:Ho; [|done].
  destruct (bool_decide (preimage o = Some pre)) eqn:Hd.
  { injection Heq as <-. exists o. by bools. }
  destruct (_ && _) eqn:Ha in Heq; [|done]. injection Heq as <-. bools. cbn [db after_write].
  rewrite (recordSecretRevealed_eq now (db s) _ o (wf_public _ Hwf) Ho).
  rewrite (lifecycle_not_terminal _ _ H0), bool_decide_false by done. cbn [snd].
  eexists. split; [by apply (row_of_written now _ o)|done].
Qed.

(** Two lock inputs report the same lock. *)
Definition same_lock (i i' : LockInput) : bool :=
  bool_decide (l_orderId i' = l_orderId i) && bool_decide (l_txHash i' = l_txHash i).

(** First write wins, repeats are silent, rejections have no effect: in
    any reachable state, a lock or secret that was accepted is in the row; the
    same report again succeeds and leaves the whole state - database, cache,
    event stream, audit log - exactly as it was; a different one for the same
    order is rejected; and a call that throws changes nothing at all. *)
Lemma recorded_once (cfg : Config) (cs : list (Z * Call)) (now now' : Z) :
  let s := run cfg cs init in
  (forall i s1, Service.recordSrcLock cfg now i s = (Ok tt, s1) ->
     forall i', l_publicId i' = l_publicId i ->
       exists e, Service.recordSrcLock cfg now' i' s1 = (if same_lock i i' then Ok tt else Throw e, s1)) /\
  (forall i s1, Service.recordDstLock cfg now i s = (Ok tt, s1) ->
     forall i', l_publicId i' = l_publicId i ->
       exists e, Service.recordDstLock cfg now' i' s1 = (if same_lock i i' then Ok tt else Throw e, s1)) /\
  (forall publicId pre tx enc a s1, Service.recordSecret cfg now publicId pre tx enc a s = (Ok tt, s1) ->
     forall pre' tx' enc' a',
       exists e, Service.recordSecret cfg now' publicId pre' tx' enc' a' s1 =
         (if bool_decide (pre' = pre) then Ok tt else Throw e, s1)) /\
  (forall e s1, (exists i, Service.recordSrcLock cfg now i s = (Throw e, s1)) \/
                (exists i, Service.recordDstLock cfg now i s = (Throw e, s1)) \/
                (exists p pre tx enc a, Service.recordSecret cfg now p pre tx enc a s = (Throw e, s1)) \/
                (exists p to a, Service.markStatus cfg now p to a s = (Throw e, s1)) -> s1 = s).
Proof.
  intros s. assert (wf_db (db s)) as Hwf by (apply run_wf, wf_emptyDb). split_and!.
  - intros i s1 Heq i' Hi. destruct (recordSrcLock_row cfg now i s s1 Hwf Heq) as (Hwf1 & o & Ho & E1 & E2).
    rewrite (recordSrcLock_service cfg now' s1 (l_publicId i) Hwf1 i' Hi), Ho.
    unfold is_dup_src, same_lock. rewrite E1, E2, (bool_decide_false (Some _ = None)) by done.
    exists (src_lock_error o i'). repeat case_bool_decide; cbn; simplify_eq/=; congruence || done.
  - intros i s1 Heq i' Hi. destruct (recordDstLock_row cfg now i s s1 Hwf Heq) as (Hwf1 & o & Ho & E1 & E2).
    rewrite (recordDstLock_service cfg now' s1 (l_publicId i) Hwf1 i' Hi), Ho.
    unfold is_dup_dst, same_lock. rewrite E1, E2, (bool_decide_false (Some _ = None)) by done.
    exists (dst_lock_error o i'). repeat case_bool_decide; cbn; simplify_eq/=; congruence || done.
  - intros p pre tx enc a s1 Heq pre' tx' enc' a'.
    destruct (recordSecret_row cfg now p pre tx enc a s s1 Hwf Heq) as (Hwf1 & o & Ho & E1).
    rewrite (recordSecret_service cfg now' s1 p Hwf1), Ho, E1, (bool_decide_false (Some _ = None)) by done.
    exists (secret_error o pre'). repeat case_bool_decide; simplify_eq/=; congruence || done.
  - intros e s1 [(i & H)|[(i & H)|[(p & pre & tx & enc & a & H)|(p & to & a & H)]]].
    + rewrite (recordSrcLock_service cfg now s (l_publicId i) Hwf i eq_refl) in H. by repeat case_match; simplify_eq.
    + rewrite (recordDstLock_service cfg now s (l_publicId i) Hwf i eq_refl) in H. by repeat case_match; simplify_eq.
    + rewrite (recordSecret_service cfg now s p Hwf) in H. by repeat case_match; simplify_eq.
    + rewrite (markStatus_service cfg now s p Hwf) in H. by repeat case_match; simplify_eq.
Qed.
