(* ===== verification/CacheCoherence.v ===== *)
(** * The history cache agrees with the database.

    [OrderService] serves address histories from the cache of HistoryCache.v
    and drops an order's two addresses from it after every write it makes.
    The theorem says that this is enough: a served page is the page the
    database holds, up to the bookkeeping columns.  It covers the service's
    own writes; the reorg rollbacks and the repository-level cancel and
    abandon do not invalidate, and [rollback_serves_stale_page] shows a page
    that is out of date after one. *)

From S2P Require Import Prelude Text Json PageCursor OrderMachine TransactionContract OrderRow OrdersRepo.
From S2P Require Import OrdersRepoFacts.
From S2P Require Import OrdersRepoSpec HistoryCache Notifications OrderService OrderServiceFacts.
From S2P Require Import OrderServiceSpec.

Import Service.

(** ** Pages up to bookkeeping *)

(** The row without its cursors, modification time and archive mark. *)
Definition erase (r : OrderDbRow) : OrderDbRow := set_archived None 0 (set_cursors None None None 0 r).

(** What a history request asks for: a page by offset, or the page after a
    decoded cursor position. *)
Inductive request : Type :=
| ByOffset (offset : Z)
| ByCursor (position : option CursorInfo).

(** The rows a request selects, in the order of the query. *)
Definition selects (address : string) (rq : request) (r : OrderDbRow) : bool :=
  match rq with
  | ByCursor (Some c) => has_address address r && after_cursor c r
  | _ => has_address address r
  end.

Definition before (rq : request) : OrderDbRow -> OrderDbRow -> bool :=
  match rq with ByOffset _ => newer | ByCursor _ => newer_id end.

(** The rows a request fetches; a cursor page looks one row further. *)
Definition page_rows (address : string) (limit : Z) (rq : request) (t : list OrderDbRow) : list OrderDbRow :=
  let rows := sql_order (before rq) (sql_select (selects address rq) t) in
  match rq with
  | ByOffset offset => sql_limit limit (sql_offset offset rows)
  | ByCursor _ => sql_limit (limit + 1) rows
  end.

(** The answer made of them. *)
Definition page_of (limit : Z) (rq : request) (rows : list OrderDbRow) : OrderHistoryResult :=
  match rq with
  | ByOffset _ => mkOrderHistoryResult (rowToOrder <$> rows) None
  | ByCursor _ =>
      let hasMore := limit <? Z.of_nat (length rows) in
      let page := rowToOrder <$> (if hasMore then take (Z.to_nat limit) rows else rows) in
      mkOrderHistoryResult page
        (if hasMore then (fun o => encodeCursor (o_createdAt o) (o_id o)) <$> last page else None)
  end.

Lemma history_page_of address limit p t :
  history_page address limit p t = page_of limit (ByCursor p) (page_rows address limit (ByCursor p) t).
Proof. by destruct p. Qed.

Lemma before_erase rq x y : before rq (erase x) (erase y) = before rq x y.
Proof. by destruct rq. Qed.

Lemma erase_sort rq t : erase <$> sql_order (before rq) t = sql_order (before rq) (erase <$> t).
Proof.
  assert (forall x l, erase <$> sql_insert (before rq) x l = sql_insert (before rq) (erase x) (erase <$> l)) as Hi.
  { intros x l. induction l as [|y l IH]; [done|]. cbn. rewrite before_erase.
    destruct (before rq y x); cbn; [|done]. by rewrite IH. }
  induction t as [|x t IH]; [done|]. rewrite fmap_cons.
  change (erase <$> sql_insert (before rq) x (sql_order (before rq) t) =
          sql_insert (before rq) (erase x) (sql_order (before rq) (erase <$> t))). by rewrite Hi, IH.
Qed.

(** A page up to bookkeeping is a function of its selection up to
    bookkeeping. *)
Lemma page_ext address limit rq t t' :
  erase <$> sql_select (selects address rq) t' = erase <$> sql_select (selects address rq) t ->
  erase <$> page_rows address limit rq t' = erase <$> page_rows address limit rq t.
Proof.
  intros H.
  assert (erase <$> sql_order (before rq) (sql_select (selects address rq) t') =
          erase <$> sql_order (before rq) (sql_select (selects address rq) t)) as Ho by (by rewrite !erase_sort, H).
  unfold page_rows, sql_limit, sql_offset. destruct rq; destruct (_ <? 0); by rewrite ?fmap_take, ?fmap_drop, ?Ho.
Qed.

(** A page does not see updates that keep it up to bookkeeping or that fall
    on orders of other addresses. *)
Definition unseen (address : string) (r r' : OrderDbRow) : Prop :=
  erase r' = erase r \/ (has_address address r = false /\ has_address address r' = false).

Lemma erase_has_address address r r' : erase r' = erase r -> has_address address r' = has_address address r.
Proof.
  intros H. unfold has_address.
  change (src_address r') with (src_address (erase r')). change (dst_address r') with (dst_address (erase r')).
  by rewrite H.
Qed.

Lemma selects_none address rq r : has_address address r = false -> selects address rq r = false.
Proof. intros H. unfold selects. rewrite H. by destruct rq as [|[]]. Qed.

Lemma selects_erase address rq r r' : erase r' = erase r -> selects address rq r' = selects address rq r.
Proof.
  intros H. unfold selects. rewrite (erase_has_address address r r' H). destruct rq as [|[c|]]; [done| |done].
  f_equal. unfold after_cursor. change (created_at r') with (created_at (erase r')).
  change (row_id r') with (row_id (erase r')). by rewrite H.
Qed.

Lemma page_update address limit rq p f t :
  (forall r, r ∈ t -> p r = true -> unseen address r (f r)) ->
  erase <$> page_rows address limit rq (sql_update p f t) = erase <$> page_rows address limit rq t.
Proof.
  intros Hf. apply page_ext. induction t as [|r t IH]; [done|].
  specialize (IH (fun r' Hr' => Hf r' (list_elem_of_further _ _ _ Hr'))).
  rewrite sql_update_cons, !sql_select_cons.
  destruct (p r) eqn:Ep.
  - destruct (Hf r (list_elem_of_here _ _) Ep) as [He|[H1 H2]]; [|by rewrite !selects_none].
    rewrite (selects_erase address rq _ _ He). destruct (selects address rq r); [|done].
    rewrite !fmap_cons. by rewrite He, IH.
  - destruct (selects address rq r); [|done]. rewrite !fmap_cons. by rewrite IH.
Qed.

Lemma page_app address limit rq t r :
  has_address address r = false ->
  page_rows address limit rq (t ++ [r]) = page_rows address limit rq t.
Proof.
  intros H. unfold page_rows, sql_select. rewrite List.filter_app. cbn. by rewrite selects_none, app_nil_r.
Qed.

(** ** The invariant *)

(** The cursor text of a request. *)
Definition asks (cursor : option string) (rq : request) : Prop :=
  match rq with
  | ByOffset offset => cursor = Some ("offset:" +:+ pretty offset)
  | ByCursor None => cursor = None
  | ByCursor (Some p) => exists c, cursor = Some c /\ decodeCursor c = Ok p
  end.

(** An entry holds the page of its key. *)
Definition entry_ok (d : Db) (e : string * CachedResult OrderHistoryResult) : Prop :=
  exists address limit cursor rq rows,
    e.1 = makeCacheKey address limit cursor /\ asks cursor rq /\ result e.2 = page_of limit rq rows /\
    erase <$> rows = erase <$> page_rows address limit rq (orders d).

Definition coherent (s : State) : Prop := Forall (entry_ok (db s)) (historyCache s).

(** The last part of a key. *)
Definition tail_of (cursor : option string) : string :=
  match cursor with Some c => if truthy_string c then c else "first" | None => "first" end.

Lemma decode_empty p : decodeCursor "" <> Ok p.
Proof. by vm_compute. Qed.

Lemma decode_first p : decodeCursor "first" <> Ok p.
Proof. by vm_compute. Qed.

Lemma decode_offset s p : decodeCursor ("offset" +:+ s) <> Ok p.
Proof.
  destruct (decode_upper (Ascii.ascii_of_nat 111) ("ffset" +:+ s) eq_refl) as [m H].
  change ("offset" +:+ s) with (String (Ascii.ascii_of_nat 111) ("ffset" +:+ s)). by rewrite H.
Qed.

(** The key part determines the request. *)
Lemma tail_inj cursor cursor' rq rq' :
  asks cursor rq -> asks cursor' rq' -> tail_of cursor = tail_of cursor' -> rq = rq'.
Proof.
  assert (forall c p, decodeCursor c = Ok p -> tail_of (Some c) = c) as Htail.
  { intros c p Hc. unfold tail_of, truthy_string. destruct (String.eqb_spec c "") as [->|]; [|done].
    by apply decode_empty in Hc. }
  destruct rq as [o|[p|]], rq' as [o'|[p'|]]; cbn [asks]; intros H H'.
  - subst. intros E. f_equal. apply pretty_Z_inj'. by apply (string_app_inj_l "offset:").
  - destruct H' as (c & -> & Hc). subst cursor. rewrite (Htail c p' Hc). intros <-.
    by apply (decode_offset (":" +:+ pretty o)) in Hc.
  - by subst.
  - destruct H as (c & -> & Hc). subst cursor'. rewrite (Htail c p Hc). intros ->.
    by apply (decode_offset (":" +:+ pretty o')) in Hc.
  - destruct H as (c & -> & Hc), H' as (c' & -> & Hc'). rewrite (Htail c p Hc), (Htail c' p' Hc').
    intros <-. congruence.
  - destruct H as (c & -> & Hc). subst cursor'. rewrite (Htail c p Hc). intros ->. by apply decode_first in Hc.
  - by subst.
  - destruct H' as (c & -> & Hc). subst cursor. rewrite (Htail c p' Hc). intros <-. by apply decode_first in Hc.
  - done.
Qed.

(** Requests whose key can be taken apart: the address and the cursor text
    have no colon. *)
Definition plain_cursor (cursor : option string) (rq : request) : Prop :=
  match rq with ByOffset _ => True | ByCursor _ => free_of colon (default "" cursor) = true end.

(** The last part of such a key has no second reading. *)
Lemma tail_plain cursor rq (l : Z) t :
  asks cursor rq -> plain_cursor cursor rq ->
  tail_of cursor <> pretty l +:+ ":" +:+ t /\
  (forall b, tail_of cursor <> b +:+ ":" +:+ pretty l +:+ ":" +:+ t).
Proof.
  intros Hq Hp.
  destruct rq as [o|p].
  - cbn in Hq. subst cursor. change (tail_of (Some ("offset:" +:+ pretty o))) with ("offset" +:+ ":" +:+ pretty o).
    split.
    + intros [[E _]|(b & E & _)]%split_at_colon; [| |done].
      * destruct (pretty_first l) as (c & u & E' & Hc). rewrite E' in E. injection E as -> _.
        by destruct Hc.
      * pose proof (pretty_Z_free l) as Hf. by rewrite E, join_not_free in Hf.
    + intros b [[_ E]|(b' & _ & E)]%split_at_colon; [| |done];
        pose proof (pretty_Z_free o) as Hf; by rewrite <- E, join_not_free in Hf || rewrite E, join_not_free in Hf.
  - assert (free_of colon (tail_of cursor) = true) as Hf.
    { destruct cursor as [c|]; [|done]. cbn in Hp |- *. by destruct (truthy_string c). }
    split; [|intros b]; intros E; by rewrite E, join_not_free in Hf.
Qed.

(** The key determines the request up to the letter case of the address. *)
Lemma key_inj a l cursor rq a' l' cursor' rq' :
  free_of colon a = true -> asks cursor rq -> plain_cursor cursor rq -> asks cursor' rq' ->
  makeCacheKey a l cursor = makeCacheKey a' l' cursor' ->
  toLowerCase a' = toLowerCase a /\ l' = l /\ rq' = rq.
Proof.
  intros Ha%free_of_toLowerCase Hq Hplain Hq' Hk.
  change (toLowerCase a +:+ ":" +:+ pretty l +:+ ":" +:+ tail_of cursor =
          toLowerCase a' +:+ ":" +:+ pretty l' +:+ ":" +:+ tail_of cursor') in Hk.
  destruct (tail_plain cursor rq l' (tail_of cursor') Hq Hplain) as [Ht1 Ht2].
  apply split_at_colon in Hk as [[-> Hk]|(b & _ & Hk)]; [| |done].
  - apply eq_sym, split_at_colon in Hk as [[Hl Ht]|(b & Hl & _)]; [| |apply pretty_Z_free].
    + apply pretty_Z_inj' in Hl as ->. split_and!; [done|done|]. by apply (tail_inj cursor' cursor).
    + pose proof (pretty_Z_free l') as Hf. by rewrite Hl, join_not_free in Hf.
  - apply split_at_colon in Hk as [[_ E]|(b' & _ & E)]; [| |apply pretty_Z_free].
    + by destruct (Ht1 (eq_sym E)).
    + by destruct (Ht2 _ E).
Qed.

(** A page entry that survives the invalidation of an order's addresses is for
    an address the order does not have. *)
Definition parties (o : OrderDbRow) (m : cache_map OrderHistoryResult) : cache_map OrderHistoryResult :=
  invalidateAddress (dst_address o) (invalidateAddress (src_address o) m).

Lemma survivor_not_party o m e address limit cursor :
  e ∈ parties o m -> e.1 = makeCacheKey address limit cursor -> e ∈ m /\ has_address address o = false.
Proof.
  unfold parties, invalidateAddress. rewrite !elem_of_filter_entries. intros [[He Hs] Hd] Hk.
  split; [done|]. rewrite Hk in Hs, Hd. apply negb_true_iff in Hs, Hd. unfold has_address.
  rewrite !bool_decide_false; [done| |]; intros Heq; rewrite Heq in *; by rewrite key_has_prefix in *.
Qed.

(** Dropping entries, and replacing the database under them. *)
Lemma coherent_mono d d' m m' :
  Forall (entry_ok d) m ->
  (forall e, e ∈ m' -> e ∈ m /\ forall a l c rq, e.1 = makeCacheKey a l c ->
     erase <$> page_rows a l rq (orders d') = erase <$> page_rows a l rq (orders d)) ->
  Forall (entry_ok d') m'.
Proof.
  rewrite !Forall_forall. intros Hm Hsub e He. destruct (Hsub e He) as [Hin Hpage].
  destruct (Hm e Hin) as (a & l & c & rq & rows & Hk & Hq & Hr & Hp). exists a, l, c, rq, rows.
  split_and!; [done..|]. by rewrite Hp, (Hpage a l c rq Hk).
Qed.

(** ** Each call keeps the cache coherent *)

Lemma page_bump_cursor now p chain block d a l o :
  erase <$> page_rows a l o (orders (bump_cursor now p chain block d)) = erase <$> page_rows a l o (orders d).
Proof.
  unfold bump_cursor. destruct (0 <? block); [|done]. cbn. apply page_update.
  intros r _ _. left. by destruct chain.
Qed.

(** The writes of one order, as its row sees them. *)
Lemma after_write_coherent cfg d1 d' o to ev entry s :
  coherent s ->
  (forall a l k, has_address a o = false ->
     erase <$> page_rows a l k (orders d1) = erase <$> page_rows a l k (orders (db s))) ->
  (forall a l k, erase <$> page_rows a l k (orders d') = erase <$> page_rows a l k (orders d1)) ->
  coherent (after_write cfg d' o to ev entry s).
Proof.
  intros Hc H1 H2. unfold coherent. cbn. eapply coherent_mono; [apply Hc|].
  intros e He. split.
  - unfold parties, invalidateAddress in *. by rewrite !elem_of_filter_entries in He; destruct He as [[? _] _].
  - intros a l c k Hk. rewrite H2. apply H1. by destruct (survivor_not_party o (historyCache s) e a l c He Hk).
Qed.

(** A write of the row of [o] that keeps its parties is not seen by pages of
    other addresses. *)
Lemma page_write now publicId o f kind p d a l k :
  wf_db d -> row_of publicId d = Some o -> has_address a o = false -> has_address a (f o) = false ->
  erase <$> page_rows a l k (orders (write now publicId o f kind p d)) = erase <$> page_rows a l k (orders d).
Proof.
  intros Hwf Ho H1 H2. cbn. apply page_update. intros r Hr E.
  rewrite (not_by_other d publicId o r (wf_public _ Hwf) Ho Hr E). by right.
Qed.

Section Handlers.
Context (cfg : Config) (now : Z) (s : State).
Context (Hwf : wf_db (db s)) (Hc : coherent s).

Lemma recordSrcLock_coherent i : coherent (Service.recordSrcLock cfg now i s).2.
Proof.
  rewrite (recordSrcLock_service cfg now s (l_publicId i) Hwf i eq_refl).
  destruct (row_of (l_publicId i) (db s)) as [o|] eqn:Ho; [|done].
  destruct (is_dup_src o i); [done|]. case_match eqn:Ha; [|done]. bools.
  pose proof (recordSrcLock_eq now (db s) _ o (wf_public _ Hwf) Ho i eq_refl) as Hw. cbv zeta in Hw.
  rewrite (lifecycle_not_terminal _ _ H0) in Hw.
  apply (after_write_coherent cfg (OrdersRepo.recordSrcLock now i (db s)).2); [done| |].
  - intros a l k Hn. rewrite Hw. by apply page_write.
  - intros. apply page_bump_cursor.
Qed.

Lemma recordDstLock_coherent i : coherent (Service.recordDstLock cfg now i s).2.
Proof.
  rewrite (recordDstLock_service cfg now s (l_publicId i) Hwf i eq_refl).
  destruct (row_of (l_publicId i) (db s)) as [o|] eqn:Ho; [|done].
  destruct (is_dup_dst o i); [done|]. case_match eqn:Ha; [|done]. bools.
  pose proof (recordDstLock_eq now (db s) _ o (wf_public _ Hwf) Ho i eq_refl) as Hw. cbv zeta in Hw.
  rewrite (lifecycle_not_terminal _ _ H0) in Hw.
  apply (after_write_coherent cfg (OrdersRepo.recordDstLock now i (db s)).2); [done| |].
  - intros a l k Hn. rewrite Hw. by apply page_write.
  - intros. apply page_bump_cursor.
Qed.

Lemma recordSecret_coherent publicId pre txHash enc actor :
  coherent (Service.recordSecret cfg now publicId pre txHash enc actor s).2.
Proof.
  rewrite (recordSecret_service cfg now s publicId Hwf).
  destruct (row_of publicId (db s)) as [o|] eqn:Ho; [|done].
  destruct (bool_decide (preimage o = Some pre)) eqn:Hd; [done|]. case_match eqn:Ha; [|done]. bools.
  rewrite (recordSecretRevealed_eq now (db s) _ o (wf_public _ Hwf) Ho).
  rewrite (lifecycle_not_terminal _ _ H0), bool_decide_false by done.
  eapply after_write_coherent; [done| |done]. intros a l k Hn. by apply page_write.
Qed.

Lemma markStatus_coherent publicId to actor : coherent (Service.markStatus cfg now publicId to actor s).2.
Proof.
  rewrite (markStatus_service cfg now s publicId Hwf).
  destruct (row_of publicId (db s)) as [o|] eqn:Ho; [|done].
  destruct (bool_decide (status o = to)) eqn:Hd; [done|]. case_match eqn:Ha; [|done]. bools.
  rewrite (setStatus_eq now (db s) _ o (wf_public _ Hwf) Ho), bool_decide_false by done.
  eapply after_write_coherent; [done| |done]. intros a l k Hn. by apply page_write.
Qed.

Lemma announce_coherent input : coherent (Service.announce cfg now input s).2.
Proof.
  unfold Service.announce. st_unfold. rewrite repo_eq. cbn. rewrite with_db_same.
  destruct (sql_get _ _) eqn:Hh; [done|]. cbn. rewrite repo_eq. unfold OrdersRepo.announce.
  destruct (orderIdFromHashlock (a_hashlock input)) as [publicId|e]; [|cbn; by rewrite with_db_same].
  destruct (sql_get (by_public_id publicId) (orders (db s))) eqn:Hn; [cbn; by rewrite with_db_same|].
  cbn. rewrite sql_get_app, Hn. cbn. unfold by_public_id. rewrite bool_decide_true by done.
  set (new := insertRow (next_order_id (db s)) publicId input (seconds now)).
  assert (Forall (entry_ok (mkDb (orders (db s) ++ [new]) (order_events (db s)) (processed_events (db s))
    (chain_cursors (db s)) (soroban_checkpoints (db s)) (next_order_id (db s) + 1) (next_event_id (db s))))
    (parties new (historyCache s))) as Hcoh.
  { eapply coherent_mono; [apply Hc|]. intros e He. split.
    - unfold parties, invalidateAddress in He. by rewrite !elem_of_filter_entries in He; destruct He as [[? _] _].
    - intros a l c k Hk. cbn. rewrite page_app; [done|].
      by destruct (survivor_not_party new (historyCache s) e a l c He Hk). }
  unfold audit. by destruct (hasAuditRepo cfg).
Qed.

(** Bookkeeping calls change no page. *)
Lemma repo_coherent {A} (m : Repo A) :
  (forall a l k, erase <$> page_rows a l k (orders (m (db s)).2) = erase <$> page_rows a l k (orders (db s))) ->
  coherent (repo m s).2.
Proof. intros H. rewrite repo_eq. unfold coherent. cbn. eapply coherent_mono; [apply Hc|]. auto. Qed.

End Handlers.

(** ** Reading a page: the cached one, or the database's, then cached *)

(** What the cache has for a request is an entry with its key. *)
Lemma cache_lookup_coherent now a l c s :
  coherent s ->
  exists r s1, cache_lookup now a l c s = (Ok r, s1) /\ db s1 = db s /\ coherent s1 /\
    forall h, r = Some h -> exists a' l' c' rq rows,
      makeCacheKey a l c = makeCacheKey a' l' c' /\ asks c' rq /\ h = page_of l' rq rows /\
      erase <$> rows = erase <$> page_rows a' l' rq (orders (db s)).
Proof.
  intros Hc. unfold cache_lookup, cache_get.
  destruct (map_get (makeCacheKey a l c) (historyCache s)) as [v|] eqn:Hg; [|by eexists _, _].
  destruct (expiresAt v <=? now).
  - eexists _, _. split_and!; [done|done| |done]. apply Forall_forall. intros e [He _]%elem_of_filter_entries.
    by apply (proj1 (Forall_forall _ _) Hc).
  - eexists _, _. split_and!; [done|done|done|]. intros h [= <-]. apply map_get_elem in Hg.
    by destruct (proj1 (Forall_forall _ _) Hc _ Hg) as (a' & l' & c' & rq & rows & Hk & Hq & Hr & Hp);
      exists a', l', c', rq, rows.
Qed.

Lemma cache_store_coherent cfg now a l c rq rows s :
  coherent s -> asks c rq -> erase <$> rows = erase <$> page_rows a l rq (orders (db s)) ->
  exists s1, cache_store cfg now a l c (page_of l rq rows) s = (Ok (), s1) /\ db s1 = db s /\ coherent s1.
Proof.
  intros Hc Hq Hp. unfold cache_store. destruct (Nat.ltb 0 _); [|by eexists].
  eexists. split_and!; [done|done|]. apply Forall_forall. intros e He. cbn in He. unfold cache_set in He.
  apply elem_of_map_set in He as [->|He]; [by exists a, l, c, rq, rows|].
  apply (proj1 (Forall_forall _ _) Hc). destruct (_ <=? _), (historyCache s) as [|[k0 v0] m']; try done.
  destruct (truthy_string k0); [|done]. by apply elem_of_filter_entries in He as [He _].
Qed.

(** The answer to a request: its page in the database, for an address that is
    equal up to letter case. *)
Definition answers (d : Db) (address : string) (limit : Z) (rq : request) (h : OrderHistoryResult) : Prop :=
  exists address' rows, h = page_of limit rq rows /\ toLowerCase address' = toLowerCase address /\
    erase <$> rows = erase <$> page_rows address' limit rq (orders d).

(** A cached answer is the right one. *)
Lemma cached_answers s a l c rq h a' l' c' rq' rows :
  free_of colon a = true -> asks c rq -> plain_cursor c rq ->
  makeCacheKey a l c = makeCacheKey a' l' c' -> asks c' rq' -> h = page_of l' rq' rows ->
  erase <$> rows = erase <$> page_rows a' l' rq' (orders (db s)) ->
  answers (db s) a l rq h.
Proof.
  intros Ha Hq Hpl Hk Hq' -> Hp.
  destruct (key_inj a l c rq a' l' c' rq' Ha Hq Hpl Hq' Hk) as (Hl & -> & ->). by exists a', rows.
Qed.

Definition clamped (limit : option Z) : Z := Z.min (Z.max (default 50 limit) 1) 200.

Lemma history_coherent cfg now address limit offset s :
  coherent s ->
  coherent (history cfg now address limit offset s).2 /\
  (free_of colon address = true ->
   exists h, (history cfg now address limit offset s).1 = Ok (hr_orders h) /\
     answers (db s) address (clamped limit) (ByOffset (Z.max (default 0 offset) 0)) h).
Proof.
  intros Hc. unfold history. fold (clamped limit). set (l := clamped limit). set (k := Z.max _ 0).
  assert (asks (Some ("offset:" +:+ pretty k)) (ByOffset k)) as Hq by done.
  destruct (cache_lookup_coherent now address l (Some ("offset:" +:+ pretty k)) s Hc)
    as (r & s1 & Hl & Hdb & Hc1 & Hr).
  rewrite (bind_ok _ _ _ _ _ Hl). destruct r as [h|].
  - destruct (Hr h eq_refl) as (a' & l' & c' & rq & rows & Hk & Hq' & Hh & Hp). split; [done|].
    intros Ha. exists h. split; [done|]. by eapply cached_answers.
  - set (rows := page_rows address l (ByOffset k) (orders (db s))).
    assert (repo (findByAddress address l k) s1 = (Ok (rowToOrder <$> rows), s1)) as Hf
      by (subst rows; rewrite repo_eq, <- Hdb; unfold findByAddress, gets; cbn [fst snd]; by rewrite with_db_same).
    rewrite (bind_ok _ _ _ _ _ Hf).
    destruct (cache_store_coherent cfg now address l _ (ByOffset k) rows s1 Hc1 Hq) as (s2 & Hs & Hdb2 & Hc2);
      [by rewrite Hdb|].
    rewrite (bind_ok _ _ _ _ _ Hs). split; [done|]. intros _. exists (page_of l (ByOffset k) rows).
    split; [done|]. by exists address, rows.
Qed.

Lemma historyWithCursor_coherent cfg now address limit cursor s :
  coherent s ->
  coherent (historyWithCursor cfg now address limit cursor s).2 /\
  (forall p, free_of colon address = true -> asks cursor (ByCursor p) -> plain_cursor cursor (ByCursor p) ->
   exists h, (historyWithCursor cfg now address limit cursor s).1 = Ok h /\
     answers (db s) address (clamped limit) (ByCursor p) h).
Proof.
  intros Hc. unfold historyWithCursor. fold (clamped limit). set (l := clamped limit).
  destruct (cache_lookup_coherent now address l cursor s Hc) as (r & s1 & Hl & Hdb & Hc1 & Hr).
  rewrite (bind_ok _ _ _ _ _ Hl). destruct r as [h|].
  - destruct (Hr h eq_refl) as (a' & l' & c' & rq & rows & Hk & Hq' & Hh & Hp). split; [done|].
    intros p Ha Hq Hpl. exists h. split; [done|]. by eapply cached_answers.
  - assert (forall p, asks cursor (ByCursor p) ->
      findByAddressWithCursor address l cursor (db s1) =
      (Ok (page_of l (ByCursor p) (page_rows address l (ByCursor p) (orders (db s1)))), db s1)) as Hfind.
    { intros p Hq. rewrite <- history_page_of. unfold findByAddressWithCursor. destruct p as [p|]; cbn in Hq.
      - destruct Hq as (c & -> & Hd). rewrite bool_decide_false.
        + st_unfold. by rewrite Hd.
        + intros [= ->]. by apply decode_empty in Hd.
      - by subst cursor. }
    pose proof (repo_eq (findByAddressWithCursor address l cursor) s1) as Hf.
    rewrite findByAddressWithCursor_pure, with_db_same in Hf.
    destruct (findByAddressWithCursor address l cursor (db s1)) as [[h|e] d1] eqn:E; cbn [fst] in Hf.
    + assert (exists p, asks cursor (ByCursor p)) as [p Hq].
      { unfold findByAddressWithCursor in E. case_bool_decide; [done|]. destruct cursor as [c|].
        - st_unfold in E. destruct (decodeCursor c) as [p|] eqn:Ed; [|done]. exists (Some p). by exists c.
        - by exists None. }
      injection (Hfind p Hq) as -> _. rewrite (bind_ok _ _ _ _ _ Hf).
      set (rows := page_rows address l (ByCursor p) (orders (db s1))).
      destruct (cache_store_coherent cfg now address l cursor (ByCursor p) rows s1 Hc1 Hq)
        as (s2 & Hs & Hdb2 & Hc2); [done|].
      rewrite (bind_ok _ _ _ _ _ Hs). split; [done|]. intros p' Ha Hq' _.
      assert (ByCursor p' = ByCursor p) as [= ->] by by apply (tail_inj cursor cursor).
      eexists. split; [done|]. exists address, rows. by rewrite <- Hdb.
    + rewrite (bind_throw _ _ _ _ _ Hf). split; [done|]. intros p _ Hq _. by specialize (Hfind p Hq).
Qed.

(** ** Runs *)

(** The calls that invalidate what they change, or change no page. *)
Definition invalidating (c : Call) : bool :=
  match c with
  | CRollbackSrc _ | CRollbackDst _ | CCancel _ _ _ | CAbandon _ _ _ => false
  | _ => true
  end.

Lemma expireStaleOrders_coherent cfg now secs s :
  wf_db (db s) -> coherent s -> coherent (expireStaleOrders cfg now secs s).2.
Proof.
  intros Hwf Hc. unfold expireStaleOrders. generalize (default (seconds now) secs). intros cutoff.
  unfold mbind, st_bind. rewrite repo_eq. unfold findExpiredCandidates, gets. cbn [fst snd]. rewrite with_db_same.
  generalize (rowToOrder <$> sql_select (fun r => bool_decide (status r ∈ [src_locked; dst_locked]) &&
      (match src_timelock r with Some t => t <? cutoff | None => false end ||
       match dst_timelock r with Some t => t <? cutoff | None => false end)) (orders (db s))).
  intros cs. revert s Hwf Hc. induction cs as [|c cs IH]; intros s Hwf Hc; [done|].
  cbn [sum_each]. st_unfold.
  assert (coherent (expireOne cfg now c s).2) as H1.
  { unfold expireOne. destruct (bool_decide _); [done|]. destruct (isTerminal _); [done|].
    pose proof (markStatus_coherent cfg now s Hwf Hc (o_publicId c) expired "expiry_scan") as H. st_unfold.
    by destruct (Service.markStatus _ _ _ _ _ s) as [[[]|e] s']. }
  pose proof (expireOne_steps (fun _ => True) life cfg now c s I Hwf) as Hs.
  destruct (expireOne cfg now c s) as [[n|e] s1]; [|done]. cbn in H1, Hs.
  specialize (IH s1 (repo_step_wf_rtc _ _ _ Hs Hwf) H1).
  by destruct (sum_each (expireOne cfg now) cs s1) as [[m|e] s2].
Qed.

Lemma run1_coherent cfg now c s :
  invalidating c = true -> wf_db (db s) -> coherent s -> coherent (run1 cfg now c s).
Proof.
  intros Hi Hwf Hc. destruct c; cbn [run1]; try discriminate Hi.
  - by apply announce_coherent.
  - by apply recordSrcLock_coherent.
  - by apply recordDstLock_coherent.
  - by apply recordSecret_coherent.
  - by apply markStatus_coherent.
  - by apply expireStaleOrders_coherent.
  - by apply history_coherent.
  - by apply historyWithCursor_coherent.
  - apply repo_coherent; [done|]. intros a l k. unfold OrdersRepo.claimEvent. by destruct (_ !! key).
  - by apply repo_coherent.
  - apply repo_coherent; [done|]. intros a l k. unfold OrdersRepo.advanceOrderLedgerCursor.
    destruct (negb _); [done|]. apply page_update. intros r _ _. by left.
  - apply repo_coherent; [done|]. intros a l k. apply page_update. intros r _ _. left. by destruct chain.
  - by apply repo_coherent.
  - apply repo_coherent; [done|]. intros a l k. unfold OrdersRepo.markSorobanRecovery. by destruct (_ !! contract).
  - apply repo_coherent; [done|]. intros a l k. apply page_update. intros r _ _. by left.
  - apply repo_coherent; [done|]. intros a l k. apply page_update. intros r _ _. by left.
Qed.

Lemma run_coherent cfg cs s :
  Forall (fun c => invalidating c.2 = true) cs -> wf_db (db s) -> coherent s -> coherent (run cfg cs s).
Proof.
  intros Hcs. revert s. induction Hcs as [|[now c] cs Hi _ IH]; intros s Hwf Hc; [done|]. cbn.
  apply IH; [|by apply run1_coherent]. apply (run_wf cfg [(now, c)] s Hwf).
Qed.

(** C14.  The cache agrees with the database: after any run of the service's
    calls but the two rollbacks of locks, and without the repository's cancel and
    abandon (none of which invalidates the cache), a history request for an address without a colon - by offset,
    for the first page, or with a colon-free cursor text that decodes to a
    position - never fails, and its answer, cached or not and whatever its
    age, lists the orders the database holds now for an address that equals
    the requested one up to letter case, in the order and within the clamped
    limit of the query, with their current status, locks and secret and the
    current next cursor; only the cursor, archive and modification-time columns
    may lag.  (The colon matters: keys join their parts with colons, and
    offset pages share them with cursor pages.) *)
Theorem history_agrees_with_database (cfg : Config) (cs : list (Z * Call)) (now : Z) (address : string)
    (limit : option Z) :
  Forall (fun c => invalidating c.2 = true) cs -> free_of colon address = true ->
  let s := run cfg cs init in
  (forall offset, exists h, (history cfg now address limit offset s).1 = Ok (hr_orders h) /\
     answers (db s) address (clamped limit) (ByOffset (Z.max (default 0 offset) 0)) h) /\
  (forall cursor p, asks cursor (ByCursor p) -> plain_cursor cursor (ByCursor p) ->
     exists h, (historyWithCursor cfg now address limit cursor s).1 = Ok h /\
       answers (db s) address (clamped limit) (ByCursor p) h).
Proof.
  intros Hcs Ha s.
  assert (coherent s) as Hc by (apply run_coherent; [done|apply wf_emptyDb|constructor]). split.
  - intros offset. by apply (history_coherent cfg now address limit offset s Hc).
  - intros cursor p Hq Hp. by apply (historyWithCursor_coherent cfg now address limit cursor s Hc).
Qed.

Definition cached_calls : list (Z * Call) :=
  [(1000, CAnnounce demo_input); (1500, CHistory "0xaa" None None);
   (2000, CSrcLock (mkLockInput demo_id "7" "0xt1" 100 90 None None));
   (2500, CHistory "0xaa" None None); (2550, CHistoryCursor "0xaa" None None)].

Lemma history_agrees_with_database_witness :
  let s := run demo_cfg cached_calls init in
  (exists h, (history demo_cfg 2600 "0xAA" None None s).1 = Ok (hr_orders h) /\
     answers (db s) "0xAA" 50 (ByOffset 0) h) /\
  (exists h, (historyWithCursor demo_cfg 2600 "0xAA" None (Some (encodeCursor 9 9)) s).1 = Ok h /\
     answers (db s) "0xAA" 50 (ByCursor (Some (mkCursorInfo (to_double 9 0) (to_double 9 0)))) h).
Proof.
  destruct (history_agrees_with_database demo_cfg cached_calls 2600 "0xAA" None) as [H1 H2];
    [by repeat constructor|done|]. split; [apply (H1 None)|].
  apply (H2 (Some (encodeCursor 9 9)) (Some (mkCursorInfo (to_double 9 0) (to_double 9 0)))); [|by vm_compute].
  exists (encodeCursor 9 9). split; [done|]. by vm_compute.
Defined.

(** The texts first and offset:0 are no cursors, but they name cached pages:
    such a request fails on an empty cache and answers on a warm one. *)
Example cache_answers_undecodable_cursors :
  let cold := run demo_cfg [(1000, CAnnounce demo_input)] init in
  let warm := run demo_cfg cached_calls init in
  let ask c s := is_ok (historyWithCursor demo_cfg 2600 "0xaa" None (Some c) s).1 in
  (ask "first" cold, ask "first" warm, ask "offset:0" cold, ask "offset:0" warm, ask "" warm) =
  (false, true, false, true, true).
Proof. by vm_compute. Qed.

(** The statuses a history answer shows. *)
Definition shown_statuses (r : outcome JsError (list OrderRow) * State) : list OrderStatus :=
  match r.1 with Ok os => o_status <$> os | Throw _ => [] end.

(** A rollback does not invalidate: the page read before it is still served,
    with a source lock the database no longer has. *)
Theorem rollback_serves_stale_page :
  let s := run demo_cfg (cached_calls ++ [(3000, CRollbackSrc demo_id)]) init in
  shown_statuses (history demo_cfg 3100 "0xaa" None None s) = [src_locked] /\
  status <$> orders (db s) = [announced].
Proof. by vm_compute. Qed.
