(* ===== verification/ServiceScans.v ===== *)
(** * The expiry scan and the phase snapshot

    [OrderService.expireStaleOrders]: one scan expires exactly the locked orders
    whose timelock has passed, counts them, and leaves nothing for a second scan at
    the same time.

    [_phaseCountSnapshot] is maintained by increments and decrements next to
    the database writes, clamped at zero, and never read back from the
    database.  For the service's own calls it nevertheless stays equal to the
    number of orders per direction and status.  The rollbacks, cancel and
    abandon do not maintain it. *)

From S2P Require Import Prelude Text OrderMachine TransactionContract OrderRow OrdersRepo OrdersRepoFacts.
From S2P Require Import OrdersRepoSpec HistoryCache Notifications OrderService OrderServiceFacts.
From S2P Require Import OrderServiceSpec CacheCoherence.

Import Service.

(** ** The expiry scan *)

(** The [WHERE] clause of [findExpiredCandidates]. *)
Definition timelock_passed (cutoff : Z) (r : OrderDbRow) : bool :=
  bool_decide (status r ∈ [src_locked; dst_locked]) &&
  (match src_timelock r with Some t => t <? cutoff | None => false end ||
   match dst_timelock r with Some t => t <? cutoff | None => false end).

Lemma findExpiredCandidates_eq cutoff d :
  findExpiredCandidates cutoff d = (Ok (rowToOrder <$> sql_select (timelock_passed cutoff) (orders d)), d).
Proof. done. Qed.

(** Expiring one candidate. *)
Lemma expireOne_eq cfg now cutoff s r :
  wf_db (db s) -> row_of (public_id r) (db s) = Some r -> timelock_passed cutoff r = true ->
  exists s', expireOne cfg now (rowToOrder r) s = (Ok 1, s') /\ wf_db (db s') /\
    forall p, row_of p (db s') =
              if bool_decide (p = public_id r) then Some (set_status expired (seconds now) r)
              else row_of p (db s).
Proof.
  intros Hwf Hr Hc. unfold timelock_passed in Hc. bools.
  assert (canTransition (status r) expired = true /\ status r <> expired /\ isTerminal (status r) = false)
    as (H1 & H2 & H3) by (destruct (status r); set_solver).
  unfold expireOne. cbn [o_status rowToOrder o_publicId]. rewrite bool_decide_false, H3 by done. st_unfold.
  pose proof (markStatus_service_steps (fun _ => True) life cfg now (public_id r) expired "expiry_scan" s
    I Hwf) as Hs.
  rewrite (markStatus_service cfg now s (public_id r) Hwf), Hr, bool_decide_false, H1 in Hs |- * by done.
  eexists. split; [done|]. cbn [snd fst db after_write] in *.
  split; [by eapply repo_step_wf_rtc|]. intros p.
  rewrite (setStatus_eq now (db s) (public_id r) r (wf_public _ Hwf) Hr), bool_decide_false by done.
  unfold row_of, write. cbn. by rewrite (row_of_write (db s) (public_id r) r) by (apply Hwf || done).
Qed.

Lemma expire_all cfg now cutoff cs s :
  wf_db (db s) -> NoDup (public_id <$> cs) ->
  Forall (fun r => row_of (public_id r) (db s) = Some r /\ timelock_passed cutoff r = true) cs ->
  exists s', sum_each (expireOne cfg now) (rowToOrder <$> cs) s = (Ok (Z.of_nat (length cs)), s') /\
    wf_db (db s') /\
    forall p, row_of p (db s') =
              if bool_decide (p ∈ public_id <$> cs)
              then set_status expired (seconds now) <$> row_of p (db s)
              else row_of p (db s).
Proof.
  intros Hwf Hnd Hcs. revert s Hwf Hcs. induction cs as [|r cs IH]; intros s Hwf Hcs.
  - exists s. split_and!; [done|done|]. intros p. by rewrite bool_decide_false by set_solver.
  - apply Forall_cons in Hcs as [[Hr Hc] Hcs]. rewrite fmap_cons in Hnd. apply NoDup_cons in Hnd as [Hnin Hnd].
    destruct (expireOne_eq cfg now cutoff s r Hwf Hr Hc) as (s1 & E1 & Hwf1 & H1).
    destruct (IH Hnd s1 Hwf1) as (s2 & E2 & Hwf2 & H2).
    { rewrite Forall_forall in Hcs |- *. intros x Hx. destruct (Hcs x Hx) as [Hx1 Hx2]. split; [|done].
      rewrite H1, bool_decide_false; [done|]. intros Heq. apply Hnin. rewrite <- Heq.
      by apply list_elem_of_fmap_2. }
    exists s2. split_and!; [|done|].
    + cbn [sum_each fmap list_fmap]. rewrite (bind_ok _ _ _ _ _ E1), (bind_ok _ _ _ _ _ E2).
      unfold mret, st_ret. do 3 f_equal. cbn [length]. lia.
    + intros p. rewrite H2, H1. rewrite fmap_cons.
      destruct (decide (p = public_id r)) as [->|Hne].
      * rewrite (bool_decide_false (_ ∈ public_id <$> cs)) by done.
        by rewrite bool_decide_true, bool_decide_true, Hr by set_solver.
      * rewrite (bool_decide_false (p = _)) by done.
        by rewrite (bool_decide_ext (p ∈ public_id r :: _) (p ∈ public_id <$> cs)) by set_solver.
Qed.

(** The expiry scan is exact and complete: in any reachable state a scan
    at [cutoff] never fails, reports as many orders as it expired, moves to
    [expired] exactly the [src_locked] and [dst_locked] orders one of whose
    timelocks is before [cutoff], changes no other row, and a following query
    for candidates at the same cutoff finds none. *)
Lemma expiry_scan_exact (cfg : Config) (cs : list (Z * Call)) (now cutoff : Z) :
  let s := run cfg cs init in
  let due := sql_select (timelock_passed cutoff) (orders (db s)) in
  exists s1, expireStaleOrders cfg now (Some cutoff) s = (Ok (Z.of_nat (length due)), s1) /\
    (forall p, row_of p (db s1) =
       match row_of p (db s) with
       | Some r => Some (if timelock_passed cutoff r then set_status expired (seconds now) r else r)
       | None => None
       end) /\
    findExpiredCandidates cutoff (db s1) = (Ok [], db s1).
Proof.
  intros s due. assert (wf_db (db s)) as Hwf by (apply run_wf, wf_emptyDb).
  assert (forall p r, row_of p (db s) = Some r -> p ∈ public_id <$> due <-> timelock_passed cutoff r = true)
    as Hdue.
  { intros p r Hr. pose proof (row_of_Some _ _ _ Hr) as [Hin <-]. split.
    - intros (x & Hx & [Hxin Hxp]%elem_of_select)%list_elem_of_fmap.
      pose proof (NoDup_row_of (db s) x (wf_public _ Hwf) Hxin) as Hxr. rewrite <- Hx, Hr in Hxr. by simplify_eq.
    - intros Ht. apply list_elem_of_fmap_2, elem_of_select. done. }
  destruct (expire_all cfg now cutoff due s Hwf) as (s1 & E & Hwf1 & Hrows).
  { by apply NoDup_select, (wf_public _ Hwf). }
  { apply Forall_forall. intros r [Hr Hc]%elem_of_select. split; [|done]. by apply NoDup_row_of; [apply Hwf|]. }
  assert (forall p, row_of p (db s1) =
       match row_of p (db s) with
       | Some r => Some (if timelock_passed cutoff r then set_status expired (seconds now) r else r)
       | None => None
       end) as Hp.
  { intros p. rewrite Hrows. destruct (row_of p (db s)) as [r|] eqn:Hr; [|by case_bool_decide].
    destruct (timelock_passed cutoff r) eqn:Et; [rewrite bool_decide_true|rewrite bool_decide_false]; try done.
    - by apply (Hdue p r).
    - intros H%(Hdue p r); congruence. }
  exists s1. split_and!; [|done|].
  - unfold expireStaleOrders. cbn [default]. erewrite bind_ok; [apply E|].
    rewrite repo_eq, findExpiredCandidates_eq. cbn. by rewrite with_db_same.
  - rewrite findExpiredCandidates_eq.
    destruct (sql_select (timelock_passed cutoff) (orders (db s1))) as [|r t] eqn:Es; [done|]. exfalso.
    assert (r ∈ sql_select (timelock_passed cutoff) (orders (db s1))) as [Hr Ht]%elem_of_select
      by (rewrite Es; set_solver).
    pose proof (NoDup_row_of (db s1) r (wf_public _ Hwf1) Hr) as Hr1. rewrite Hp in Hr1.
    destruct (row_of (public_id r) (db s)) as [r0|]; [|done]. simplify_eq.
    destruct (timelock_passed cutoff r0) eqn:E0; [|congruence]. by vm_compute in Ht.
Qed.

(** ** The phase snapshot *)

(** How many orders of the table have a direction and a status. *)
Definition in_phase (dir : Direction) (p : OrderStatus) (r : OrderDbRow) : bool :=
  bool_decide (direction r = dir) && bool_decide (status r = p).

Definition phase_count (dir : Direction) (p : OrderStatus) (d : Db) : Z := sql_changes (in_phase dir p) (orders d).

Definition snapshot_count (dir : Direction) (p : OrderStatus) (m : gmap string Z) : Z :=
  default 0 (m !! _snapshotKey (direction_str dir) (status_str p)).

Definition snapshot_ok (s : State) : Prop :=
  forall dir p, snapshot_count dir p (phaseCountSnapshot s) = phase_count dir p (db s).

Lemma snapshotKey_inj dir p dir' p' :
  _snapshotKey (direction_str dir) (status_str p) = _snapshotKey (direction_str dir') (status_str p') ->
  dir = dir' /\ p = p'.
Proof.
  intros H. apply join_inj in H as [H1 H2]; [|by destruct p|by destruct p'].
  split; [by destruct dir, dir'|by destruct p, p'].
Qed.

Lemma snapshot_bump dir p delta m dir' p' :
  snapshot_count dir' p' (bump dir p delta m) =
  if bool_decide (dir' = dir) && bool_decide (p' = p) then Z.max (snapshot_count dir p m + delta) 0
  else snapshot_count dir' p' m.
Proof.
  unfold snapshot_count, bump. destruct (decide (dir' = dir /\ p' = p)) as [[-> ->]|Hne].
  - rewrite !bool_decide_true by done. cbn [andb]. by rewrite lookup_insert_eq.
  - rewrite lookup_insert_ne by (intros [-> ->]%snapshotKey_inj; auto).
    repeat case_bool_decide; try done. naive_solver.
Qed.

Lemma count_cons {R} (g : R -> bool) r t :
  sql_changes g (r :: t) = (if g r then 1 else 0) + sql_changes g t.
Proof. unfold sql_changes. cbn. destruct (g r); cbn [length]; lia. Qed.

(** Rewriting one row moves it from one class to another. *)
Lemma count_write g d publicId o f :
  NoDup (public_id <$> orders d) -> row_of publicId d = Some o ->
  sql_changes g (sql_update (by_public_id publicId) f (orders d)) =
  sql_changes g (orders d) - (if g o then 1 else 0) + (if g (f o) then 1 else 0).
Proof.
  unfold row_of. induction (orders d) as [|r t IH]; intros Hnd Ho; [done|].
  rewrite fmap_cons in Hnd. apply NoDup_cons in Hnd as [Hr Hnd].
  rewrite sql_update_cons, !count_cons. cbn in Ho. destruct (by_public_id publicId r) eqn:E.
  - simplify_eq. rewrite sql_update_none; [lia|]. apply bool_decide_eq_true in E.
    apply Forall_forall. intros x Hx. unfold by_public_id. apply bool_decide_eq_false. intros Hp.
    apply Hr. rewrite E, <- Hp. by apply list_elem_of_fmap_2.
  - rewrite (IH Hnd Ho). lia.
Qed.

Lemma count_member g (t : list OrderDbRow) o : o ∈ t -> g o = true -> 1 <= sql_changes g t.
Proof.
  intros Ho Hg. induction Ho as [x t|x r t Ho IH]; rewrite count_cons.
  - rewrite Hg. unfold sql_changes. lia.
  - specialize (IH Hg). destruct (g r); lia.
Qed.

Lemma count_update_same g p f (t : list OrderDbRow) :
  (forall r, r ∈ t -> p r = true -> g (f r) = g r) -> sql_changes g (sql_update p f t) = sql_changes g t.
Proof.
  induction t as [|r t IH]; intros Hf; [done|]. rewrite sql_update_cons, !count_cons.
  rewrite IH by (intros; apply Hf; [by right|done]).
  destruct (p r) eqn:E; [|done]. by rewrite (Hf r (list_elem_of_here _ _) E).
Qed.

(** A write paired with its two snapshot updates. *)
Lemma after_write_snapshot cfg d' o f to ev entry s publicId :
  snapshot_ok s -> wf_db (db s) -> row_of publicId (db s) = Some o ->
  direction (f o) = direction o -> status (f o) = to ->
  (forall dir p, phase_count dir p d' =
     sql_changes (in_phase dir p) (sql_update (by_public_id publicId) f (orders (db s)))) ->
  snapshot_ok (after_write cfg d' o to ev entry s).
Proof.
  intros Hs Hwf Ho Hdir Hto Hd dir p. cbn. rewrite Hd, (count_write _ (db s) publicId o) by (apply Hwf || done).
  fold (phase_count dir p (db s)). rewrite !snapshot_bump, !Hs.
  assert (1 <= phase_count (direction o) (status o) (db s)) as H1.
  { apply (count_member _ _ o); [by apply row_of_Some in Ho as [? _]|].
    unfold in_phase. by rewrite !bool_decide_true. }
  unfold in_phase. rewrite Hdir, Hto.
  assert (forall q, 0 <= phase_count (direction o) q (db s)) as H0 by (intros q; unfold phase_count, sql_changes; lia).
  pose proof (H0 to).
  repeat case_bool_decide; subst; cbn [andb];
    repeat match goal with H : status (f o) = status o |- _ => rewrite H in * end; lia || congruence.
Qed.

Section Handlers.
Context (cfg : Config) (now : Z) (s : State).
Context (Hwf : wf_db (db s)) (Hs : snapshot_ok s).

Lemma bump_cursor_count p chain block d dir ph :
  phase_count dir ph (bump_cursor now p chain block d) = phase_count dir ph d.
Proof.
  unfold bump_cursor. destruct (0 <? block); [|done]. apply count_update_same.
  intros r _ _. by destruct chain.
Qed.

Lemma recordSrcLock_snapshot i : snapshot_ok (Service.recordSrcLock cfg now i s).2.
Proof.
  rewrite (recordSrcLock_service cfg now s (l_publicId i) Hwf i eq_refl).
  destruct (row_of (l_publicId i) (db s)) as [o|] eqn:Ho; [|done].
  destruct (is_dup_src o i); [done|]. case_match eqn:Ha; [|done]. bools.
  pose proof (recordSrcLock_eq now (db s) _ o (wf_public _ Hwf) Ho i eq_refl) as Hw. cbv zeta in Hw.
  rewrite (lifecycle_not_terminal _ _ H0), (nextLockStatus_accepts _ _ H0) in Hw.
  eapply after_write_snapshot; cycle 5; [intros; rewrite bump_cursor_count, Hw; reflexivity|done..].
Qed.

Lemma recordDstLock_snapshot i : snapshot_ok (Service.recordDstLock cfg now i s).2.
Proof.
  rewrite (recordDstLock_service cfg now s (l_publicId i) Hwf i eq_refl).
  destruct (row_of (l_publicId i) (db s)) as [o|] eqn:Ho; [|done].
  destruct (is_dup_dst o i); [done|]. case_match eqn:Ha; [|done]. bools.
  pose proof (recordDstLock_eq now (db s) _ o (wf_public _ Hwf) Ho i eq_refl) as Hw. cbv zeta in Hw.
  rewrite (lifecycle_not_terminal _ _ H0), (nextLockStatus_accepts _ _ H0) in Hw.
  eapply after_write_snapshot; cycle 5; [intros; rewrite bump_cursor_count, Hw; reflexivity|done..].
Qed.

Lemma recordSecret_snapshot publicId pre txHash enc actor :
  snapshot_ok (Service.recordSecret cfg now publicId pre txHash enc actor s).2.
Proof.
  rewrite (recordSecret_service cfg now s publicId Hwf).
  destruct (row_of publicId (db s)) as [o|] eqn:Ho; [|done].
  destruct (bool_decide (preimage o = Some pre)) eqn:Hd; [done|]. case_match eqn:Ha; [|done]. bools.
  rewrite (recordSecretRevealed_eq now (db s) _ o (wf_public _ Hwf) Ho).
  rewrite (lifecycle_not_terminal _ _ H0), bool_decide_false by done.
  eapply after_write_snapshot; cycle 5; [intros; reflexivity|done..].
Qed.

Lemma markStatus_snapshot publicId to actor : snapshot_ok (Service.markStatus cfg now publicId to actor s).2.
Proof.
  rewrite (markStatus_service cfg now s publicId Hwf).
  destruct (row_of publicId (db s)) as [o|] eqn:Ho; [|done].
  destruct (bool_decide (status o = to)) eqn:Hd; [done|]. case_match eqn:Ha; [|done]. bools.
  rewrite (setStatus_eq now (db s) _ o (wf_public _ Hwf) Ho), bool_decide_false by done.
  eapply after_write_snapshot; cycle 5; [intros; reflexivity|done..].
Qed.

Lemma announce_snapshot input : snapshot_ok (Service.announce cfg now input s).2.
Proof.
  unfold Service.announce. st_unfold. rewrite repo_eq. cbn. rewrite with_db_same.
  destruct (sql_get _ _) eqn:Hh; [done|]. cbn. rewrite repo_eq. unfold OrdersRepo.announce.
  destruct (orderIdFromHashlock (a_hashlock input)) as [publicId|e]; [|cbn; by rewrite with_db_same].
  destruct (sql_get (by_public_id publicId) (orders (db s))) eqn:Hn; [cbn; by rewrite with_db_same|].
  cbn. rewrite sql_get_app, Hn. cbn. unfold by_public_id. rewrite bool_decide_true by done.
  set (new := insertRow (next_order_id (db s)) publicId input (seconds now)).
  assert (forall dir p, snapshot_count dir p (bump (a_direction input) announced 1 (phaseCountSnapshot s)) =
    sql_changes (in_phase dir p) (orders (db s) ++ [new])) as Hcnt.
  { intros dir p. unfold sql_changes. rewrite List.filter_app, length_app.
    rewrite snapshot_bump. pose proof (Hs dir p) as H1. unfold phase_count, sql_changes in H1.
    cbn. unfold in_phase at 2. cbn.
    repeat case_bool_decide; subst; cbn [andb length app]; try congruence; rewrite ?H1; lia. }
  unfold audit. by destruct (hasAuditRepo cfg).
Qed.

Lemma repo_snapshot {A} (m : Repo A) :
  (forall dir p, phase_count dir p (m (db s)).2 = phase_count dir p (db s)) -> snapshot_ok (repo m s).2.
Proof. intros H dir p. rewrite repo_eq. cbn. by rewrite H, Hs. Qed.
End Handlers.

Lemma expireStaleOrders_snapshot cfg now secs s :
  wf_db (db s) -> snapshot_ok s -> snapshot_ok (expireStaleOrders cfg now secs s).2.
Proof.
  intros Hwf Hs. unfold expireStaleOrders, mbind, st_bind. rewrite repo_eq.
  unfold findExpiredCandidates, gets. cbn [fst snd]. rewrite with_db_same.
  match goal with |- context [sum_each _ ?l] => generalize l end.
  intros cs. revert s Hwf Hs. induction cs as [|c cs IH]; intros s Hwf Hs; [done|].
  cbn [sum_each]. st_unfold.
  assert (snapshot_ok (expireOne cfg now c s).2) as H1.
  { unfold expireOne. destruct (bool_decide _); [done|]. destruct (isTerminal _); [done|].
    pose proof (markStatus_snapshot cfg now s Hwf Hs (o_publicId c) expired "expiry_scan") as H. st_unfold.
    by destruct (Service.markStatus _ _ _ _ _ s) as [[[]|e] s']. }
  pose proof (expireOne_steps (fun _ => True) life cfg now c s I Hwf) as Hst.
  destruct (expireOne cfg now c s) as [[n|e] s1]; [|done]. cbn in H1, Hst.
  specialize (IH s1 (repo_step_wf_rtc _ _ _ Hst Hwf) H1).
  by destruct (sum_each (expireOne cfg now) cs s1) as [[m|e] s2].
Qed.

Lemma reads_snapshot {A} (m : Svc A) s :
  keeps db m -> keeps phaseCountSnapshot m -> snapshot_ok s -> snapshot_ok (m s).2.
Proof. intros H1 H2 Hs dir p. rewrite H1, H2. apply Hs. Qed.

Lemma run1_snapshot cfg now c s :
  invalidating c = true -> wf_db (db s) -> snapshot_ok s -> snapshot_ok (run1 cfg now c s).
Proof.
  intros Hi Hwf Hs. destruct c; cbn [run1]; try done.
  - by apply announce_snapshot.
  - by apply recordSrcLock_snapshot.
  - by apply recordDstLock_snapshot.
  - by apply recordSecret_snapshot.
  - by apply markStatus_snapshot.
  - by apply expireStaleOrders_snapshot.
  - by apply reads_snapshot; [apply history_keeps|apply history_keeps|].
  - by apply reads_snapshot; [apply historyWithCursor_keeps|apply historyWithCursor_keeps|].
  - apply repo_snapshot; [done|]. intros. unfold OrdersRepo.claimEvent. by destruct (_ !! key).
  - apply repo_snapshot; [done|]. intros. unfold OrdersRepo.advanceOrderLedgerCursor.
    destruct (negb _); [done|]. by apply count_update_same.
  - apply repo_snapshot; [done|]. intros. apply count_update_same. intros r _ _. by destruct chain.
  - apply repo_snapshot; [done|]. intros. unfold OrdersRepo.markSorobanRecovery. by destruct (_ !! contract).
  - apply repo_snapshot; [done|]. intros. by apply count_update_same.
  - apply repo_snapshot; [done|]. intros. by apply count_update_same.
Qed.

(** The phase snapshot is the phase distribution: after any run of the
    service's own calls, [_phaseCountSnapshot] at a direction and a status is
    the number of orders in the database with that direction and status - the
    clamp at zero never hides a miscount - and [_directionCounts] reports
    these numbers for the five active phases. *)
Lemma snapshot_counts_orders (cfg : Config) (cs : list (Z * Call)) :
  Forall (fun c => invalidating c.2 = true) cs ->
  let s := run cfg cs init in
  (forall dir p, snapshot_count dir p (phaseCountSnapshot s) = phase_count dir p (db s)) /\
  (forall dir, _directionCounts (direction_str dir) s = (fun p => (p, phase_count dir p (db s))) <$> PHASES).
Proof.
  intros Hcs s.
  assert (snapshot_ok s) as Hs.
  { subst s. cut (forall s0, wf_db (db s0) -> snapshot_ok s0 -> snapshot_ok (run cfg cs s0)).
    { intros H. apply H; [apply wf_emptyDb|done]. }
    induction Hcs as [|[now c] cs Hi _ IH]; intros s0 Hwf H0; [done|]. cbn.
    apply IH; [|by apply run1_snapshot]. apply (run_wf cfg [(now, c)] s0 Hwf). }
  split; [done|]. intros dir. unfold _directionCounts. apply list_fmap_ext. intros _ p _. f_equal. apply Hs.
Qed.

Lemma snapshot_counts_orders_witness :
  let s := run demo_cfg cached_calls init in
  snapshot_count eth_to_xlm src_locked (phaseCountSnapshot s) = 1 /\
  phase_count eth_to_xlm src_locked (db s) = 1.
Proof.
  intros s. destruct (snapshot_counts_orders demo_cfg cached_calls) as [H _]; [by repeat constructor|].
  split; [rewrite H|]; by vm_compute.
Defined.
