(* ===== verification/SecretCipher.v ===== *)
(** * Preimage encryption at rest (coordinator/src/crypto/secret-cipher.ts).

    The blob layout around AES-256-GCM, with Node's hex and base64url codecs.
    The cipher itself is the parameter [gcm_seal]/[gcm_open] of the section;
    what the code needs of it is that opening a sealed message with the same
    key and nonce gives the message back.  A string stands for its UTF-8
    bytes. *)

From S2P Require Import Prelude Codec.

(** ** The cipher *)

Definition VERSION_AES256GCM : Z := 1.
Definition IV_BYTES : nat := 12.
Definition TAG_BYTES : nat := 16.
Definition KEY_BYTES : nat := 32.

Definition deriveKey (rawKey : string) : outcome JsError bytes :=
  let stripped := trim rawKey in
  if all_chars (fun c => bool_decide (is_Some (hex_value c))) stripped && Nat.eqb (String.length stripped) 64
  then Ok (hex_decode stripped)
  else
    let decoded := b64_decode stripped in
    if Nat.eqb (length decoded) KEY_BYTES then Ok decoded
    else Throw (PlainError None
      ("SECRET_STORAGE_KEY must be a 64-character hex string or 44-character base64 string " +:+
       "encoding exactly 32 bytes. Got " +:+ pretty (Z.of_nat (String.length stripped)) +:+ " characters.")).

Definition isEncryptedBlob (value : string) : bool :=
  negb (startsWith value "0x") && (all_chars is_b64url_char value && truthy_string value).

(** AES-256-GCM of [node:crypto]: sealing under a key and a nonce gives the
    ciphertext and the tag; opening gives the message, or fails. *)
Class AesGcm : Type := {
  gcm_seal : bytes -> bytes -> bytes -> bytes * bytes;
  gcm_open : bytes -> bytes -> bytes -> bytes -> option bytes
}.

(** What the code relies on: a sealed message opens under the same key and
    nonce, the ciphertext is as long as the message, the tag is 16 bytes. *)
Class AesGcmLaws (G : AesGcm) : Prop := {
  open_seal key iv m :
    Forall (fun b => is_byte b = true) m ->
    gcm_open key iv (gcm_seal key iv m).1 (gcm_seal key iv m).2 = Some m;
  seal_length key iv m : length (gcm_seal key iv m).1 = length m;
  tag_length key iv m : length (gcm_seal key iv m).2 = TAG_BYTES;
  seal_bytes key iv m :
    Forall (fun b => is_byte b = true) m ->
    Forall (fun b => is_byte b = true) (gcm_seal key iv m).1 /\
    Forall (fun b => is_byte b = true) (gcm_seal key iv m).2
}.

Section Cipher.
Context {G : AesGcm}.

(** [iv] is the result of [randomBytes(IV_BYTES)]. *)
Definition encryptSecret (plaintext : string) (key iv : bytes) : outcome JsError string :=
  if negb (Nat.eqb (length key) KEY_BYTES) then Throw (PlainError None "Key must be exactly 32 bytes")
  else
    let '(encrypted, authTag) := gcm_seal key iv (bytes_of plaintext) in
    Ok (b64_encode ([VERSION_AES256GCM] ++ iv ++ authTag ++ encrypted)).

Definition decryptSecret (blob : string) (key : bytes) : outcome JsError string :=
  if negb (Nat.eqb (length key) KEY_BYTES) then Throw (PlainError None "Key must be exactly 32 bytes")
  else
    let buf := b64_decode blob in
    if Nat.ltb (length buf) (1 + IV_BYTES + TAG_BYTES + 1)
    then Throw (PlainError None "Encrypted blob is too short to be valid")
    else
      let version := default 0 (head buf) in
      if negb (version =? VERSION_AES256GCM)
      then Throw (PlainError None
        ("Unknown encryption version 0x" +:+ hex2 version +:+
         ". Only AES-256-GCM (version 0x01) is supported."))
      else
        let iv := take IV_BYTES (drop 1 buf) in
        let authTag := take TAG_BYTES (drop (1 + IV_BYTES) buf) in
        let ciphertext := drop (1 + IV_BYTES + TAG_BYTES) buf in
        match gcm_open key iv ciphertext authTag with
        | Some decrypted => Ok (string_of decrypted)
        | None => Throw (PlainError None
            ("Decryption failed: authentication tag mismatch. The key may be wrong, " +:+
             "or the stored blob has been tampered with."))
        end.
End Cipher.

(** ** Blobs *)

(** A nonce of the right shape. *)
Definition valid_iv (iv : bytes) : Prop := length iv = IV_BYTES /\ Forall (fun b => is_byte b = true) iv.

Section Blobs.
Context {G : AesGcm} {L : AesGcmLaws G}.

Lemma encrypt_decrypt plaintext key iv :
  length key = KEY_BYTES -> valid_iv iv -> plaintext <> "" ->
  exists blob, encryptSecret plaintext key iv = Ok blob /\ isEncryptedBlob blob = true /\
               decryptSecret blob key = Ok plaintext.
Proof.
  intros Hkey [Hiv Hivb] Hp. unfold encryptSecret, decryptSecret. rewrite Hkey. cbn [Nat.eqb KEY_BYTES negb].
  pose proof (open_seal key iv (bytes_of plaintext) (bytes_of_bytes plaintext)) as Hopen.
  pose proof (seal_length key iv (bytes_of plaintext)) as Hlen.
  pose proof (tag_length key iv (bytes_of plaintext)) as Htag.
  pose proof (seal_bytes key iv (bytes_of plaintext) (bytes_of_bytes plaintext)) as [Hb1 Hb2].
  destruct (gcm_seal key iv (bytes_of plaintext)) as [ct tag]. cbn [fst snd] in *.
  set (buf := [VERSION_AES256GCM] ++ iv ++ tag ++ ct).
  assert (Forall (fun b => is_byte b = true) buf) as Hbuf by (repeat apply Forall_app_2; try done; by constructor).
  eexists. split; [done|]. split.
  - unfold isEncryptedBlob. rewrite b64_chars by done. subst buf.
    destruct iv as [|i0 [|i1 iv]]; [done|done|]. done.
  - rewrite b64_round by done.
    assert (length buf = (1 + 12 + 16 + String.length plaintext)%nat) as Hl.
    { subst buf. rewrite !length_app, Hiv, Htag, Hlen, bytes_of_length. cbn. lia. }
    destruct (Nat.ltb_spec (length buf) (1 + IV_BYTES + TAG_BYTES + 1)) as [Hlt|_].
    { exfalso. rewrite Hl in Hlt. destruct plaintext; [done|]. cbn in Hlt. lia. }
    assert (drop 1 buf = iv ++ tag ++ ct) as E1 by done.
    assert (drop (1 + IV_BYTES) buf = tag ++ ct) as E2.
    { change (drop IV_BYTES (drop 1 buf) = tag ++ ct). rewrite E1. by rewrite drop_app_length'. }
    assert (drop (1 + IV_BYTES + TAG_BYTES) buf = ct) as E3.
    { rewrite <- drop_drop, E2. by rewrite drop_app_length'. }
    rewrite E1, E2, E3, !take_app_length' by done. cbn. by rewrite Hopen, string_of_bytes_of.
Qed.
End Blobs.

(** Encryption round trip: whatever non-empty preimage, 32-byte key and
    fresh 12-byte nonce, [encryptSecret] succeeds, its result is recognised as
    an encrypted blob (so it is never mistaken for a plaintext preimage), and
    [decryptSecret] under the same key gives the preimage back; a blob that is
    not at least 30 bytes long or whose version byte is not 1 is rejected
    before the cipher is consulted. *)
Lemma secret_cipher_round_trip {G : AesGcm} {L : AesGcmLaws G} (plaintext : string) (key iv : bytes) :
  length key = KEY_BYTES -> valid_iv iv -> plaintext <> "" ->
  (exists blob, encryptSecret plaintext key iv = Ok blob /\ isEncryptedBlob blob = true /\
                decryptSecret blob key = Ok plaintext) /\
  (forall blob p, decryptSecret blob key = Ok p ->
     (30 <= length (b64_decode blob))%nat /\ head (b64_decode blob) = Some 1).
Proof.
  intros Hkey Hiv Hp. split; [by apply encrypt_decrypt|]. intros blob p. unfold decryptSecret.
  rewrite Hkey. cbn [Nat.eqb KEY_BYTES negb].
  destruct (Nat.ltb_spec (length (b64_decode blob)) (1 + IV_BYTES + TAG_BYTES + 1)); [done|].
  destruct (default 0 (head (b64_decode blob)) =? VERSION_AES256GCM) eqn:E; [|done]. intros _.
  unfold IV_BYTES, TAG_BYTES in *. split; [lia|]. bools.
  destruct (head (b64_decode blob)); [|done]. cbn in E. by rewrite E.
Qed.

(** A stand-in cipher with these laws: no encryption, and a tag made of the
    key. *)
Definition toy_tag (key : bytes) : bytes := repeat (Z.land (foldr Z.add 0 key) 255) 16.

Definition toy_gcm : AesGcm := {|
  gcm_seal key _ m := (m, toy_tag key);
  gcm_open key _ c t := if bool_decide (t = toy_tag key) then Some c else None
|}.

Lemma toy_gcm_laws : AesGcmLaws toy_gcm.
Proof.
  split; cbn [gcm_seal gcm_open toy_gcm fst snd].
  - intros key iv m _. by rewrite bool_decide_true.
  - done.
  - intros key _ _. apply repeat_length.
  - intros key iv m Hm. split; [done|]. unfold toy_tag. apply Forall_forall. intros x Hx.
    apply list_elem_of_In, repeat_spec in Hx as ->. unfold is_byte.
    rewrite (Z.land_ones _ 8) by done. apply andb_true_iff. rewrite Z.leb_le, Z.ltb_lt.
    apply (Z.mod_pos_bound _ 256). done.
Qed.

Definition demo_key : bytes := repeat 7 32.
Definition demo_iv : bytes := repeat 5 12.

Lemma secret_cipher_round_trip_witness :
  exists blob, encryptSecret (G := toy_gcm) "0xabcd" demo_key demo_iv = Ok blob /\ isEncryptedBlob blob = true /\
               decryptSecret (G := toy_gcm) blob demo_key = Ok "0xabcd".
Proof.
  apply (secret_cipher_round_trip (L := toy_gcm_laws) "0xabcd" demo_key demo_iv); [done|split; [done|]|done].
  by repeat constructor.
Defined.
