(* ===== verification/SecretService.v ===== *)
(** * The secret service (coordinator/src/services/secret-service.ts).

    Reveals are checked against the order's hashlock, optionally encrypted,
    and recorded through the order service; reads decrypt with a ring of
    keys.  The hash functions are parameters. *)

From S2P Require Import Prelude OrderMachine TransactionContract OrderRow OrdersRepo OrdersRepoFacts.
From S2P Require Import OrdersRepoSpec HistoryCache Notifications OrderService OrderServiceFacts.
From S2P Require Import OrderServiceSpec Codec SecretCipher.

Import Service.

(** SHA-256 of [node:crypto] as a hex digest, and [keccak256(toHex(buf))] of
    viem, which is 0x-prefixed. *)
Class Hashes : Type := {
  sha256_digest : bytes -> string;
  keccak256_hex : bytes -> string
}.

Definition slice2 (s : string) : string :=
  match s with String _ (String _ s') => s' | _ => EmptyString end.

Definition bufferFromHex (s : string) : bytes :=
  hex_decode (if startsWith s "0x" then slice2 s else s).

Section Hashing.
Context {H : Hashes}.

Definition sha256Hex (buf : bytes) : string := "0x" +:+ sha256_digest buf.
Definition keccak256Hex (buf : bytes) : string := keccak256_hex buf.

(** The preimage hashes to the hashlock under one of the two functions. *)
Definition matchesHashlock (pre lock : string) : bool :=
  bool_decide (sha256Hex (bufferFromHex pre) = lock) || bool_decide (keccak256Hex (bufferFromHex pre) = lock).
End Hashing.

(** ** Keys *)

Inductive KeyValue : Type := OneKey (s : string) | ManyKeys (ss : list string).

Record SecretStorageKeyConfig : Type := mkSecretStorageKeyConfig {
  k_current : option string;
  k_primary : option string;
  k_previous : option KeyValue;
  k_fallback : option KeyValue;
  k_additional : option KeyValue
}.

Inductive SecretStorageKeyInput : Type := KeyString (s : string) | KeyConfig (c : SecretStorageKeyConfig).

Definition trimmed (ss : list string) : list string := List.filter truthy_string (trim <$> ss).

Definition pushValue (v : option KeyValue) : list string :=
  match v with
  | None => []
  | Some (ManyKeys ss) => trimmed ss
  | Some (OneKey s) => trimmed [s]
  end.

(** [Array.from(new Set(values))]: first occurrences, in order. *)
Fixpoint dedup (seen : list string) (ss : list string) : list string :=
  match ss with
  | [] => []
  | s :: ss' => if bool_decide (s ∈ seen) then dedup seen ss' else s :: dedup (s :: seen) ss'
  end.

Definition normalizeKeys (input : option SecretStorageKeyInput) : list string :=
  match input with
  | None => []
  | Some (KeyString s) => trimmed [s]
  | Some (KeyConfig c) =>
      dedup [] (pushValue (OneKey <$> (match k_current c with Some s => Some s | None => k_primary c end)) ++
                pushValue (k_previous c) ++ pushValue (k_fallback c) ++ pushValue (k_additional c))
  end.

Inductive Network : Type := testnet | mainnet.

Record SecretService : Type := mkSecretService { encKeys : list bytes }.

Definition writeKey (svc : SecretService) : option bytes := head (encKeys svc).

Fixpoint derive_all (keys : list string) : outcome JsError (list bytes) :=
  match keys with
  | [] => Ok []
  | k :: keys' =>
      match deriveKey k with
      | Throw e => Throw e
      | Ok b => match derive_all keys' with Ok bs => Ok (b :: bs) | Throw e => Throw e end
      end
  end.

(** The constructor. *)
Definition newSecretService (key : option SecretStorageKeyInput) (network : Network)
  : outcome JsError SecretService :=
  match normalizeKeys key with
  | [] =>
      match network with
      | mainnet => Throw (PlainError None
          ("SecretService: SECRET_STORAGE_KEY is required when network=mainnet. " +:+
           "Refusing to start in plaintext mode in production. " +:+
           "Set SECRET_STORAGE_KEY (or use an explicit documented test config " +:+
           "with network=testnet for local/dev)."))
      | testnet => Ok (mkSecretService [])
      end
  | keys =>
      match derive_all keys with
      | Ok bs => Ok (mkSecretService bs)
      | Throw e => Throw (PlainError None
          ("SecretService: invalid SECRET_STORAGE_KEY — " +:+ error_message e))
      end
  end.

(** ** Revealing and reading *)

(** The typed failures of secret-errors.ts, and any other [Error]. *)
Inductive SecretError : Type :=
| UnknownOrderError (message : string)
| InvalidPreimageError (message : string)
| RevealConflictError (message : string)
| SecretStorageError (message : string)
| OtherError (message : string).

Definition classifyStorageFailure (publicId : string) (err : JsError) : SecretError :=
  match err with
  | OrderValidationError m =>
      if includes (toLowerCase m) "unknown order" then UnknownOrderError ("unknown order " +:+ publicId)
      else RevealConflictError "order is no longer in a state that can accept a secret reveal"
  | PlainError _ _ => SecretStorageError "failed to persist revealed secret"
  end.

(** A call of the order service whose errors are mapped. *)
Definition lift {A} (h : JsError -> SecretError) (m : Svc A) : ST State SecretError A := fun s =>
  match m s with
  | (Ok a, s') => (Ok a, s')
  | (Throw e, s') => (Throw (h e), s')
  end.

Definition lift_outcome {A} (o : outcome JsError A) : ST State SecretError A :=
  match o with
  | Ok a => mret a
  | Throw e => throw (OtherError (error_message e))
  end.

Section Secrets.
Context {H : Hashes} {G : AesGcm}.
Context (cfg : Config) (svc : SecretService).

Definition reveal (now : Z) (publicId pre txHash : string) (iv : bytes) : ST State SecretError unit :=
  order ← lift (fun e => OtherError (error_message e)) (Service.get publicId);
  match order with
  | None => throw (UnknownOrderError ("unknown order " +:+ publicId))
  | Some o =>
      let buf := bufferFromHex pre in
      let shaHash := sha256Hex buf in
      let kekHash := keccak256Hex buf in
      if negb (bool_decide (shaHash = o_hashlock o)) && negb (bool_decide (kekHash = o_hashlock o))
      then throw (InvalidPreimageError "preimage does not match order hashlock")
      else
        valueToStore ← (match writeKey svc with
                        | Some k => lift_outcome (encryptSecret pre k iv)
                        | None => mret pre
                        end);
        let encVersion := match writeKey svc with Some _ => Some 1 | None => None end in
        lift (classifyStorageFailure publicId)
          (Service.recordSecret cfg now publicId valueToStore txHash encVersion None)
  end.

(** The re-encryption under the current key; every error is swallowed. *)
Definition reencryptStoredSecret (now : Z) (publicId plaintext : string) (secretRevealedTx : option string)
    (stored : string) (iv : bytes) : ST State SecretError unit :=
  match writeKey svc with
  | None => mret tt
  | Some k =>
      if negb (truthy_string stored) || negb (isEncryptedBlob stored) then mret tt
      else try_catch
        (reencrypted ← lift_outcome (encryptSecret plaintext k iv);
         lift (fun e => OtherError (error_message e))
           (Service.recordSecret cfg now publicId reencrypted (default "0xrekey" secretRevealedTx) (Some 1) None))
        (fun _ => mret tt)
  end.

(** The loop over the key ring: the first key is the write key. *)
Fixpoint try_keys (now : Z) (publicId stored : string) (tx : option string) (iv : bytes)
    (isWriteKey : bool) (keys : list bytes) (lastError : string) : ST State SecretError (option string) :=
  match keys with
  | [] => throw (OtherError ("failed to decrypt preimage for order " +:+ publicId +:+ ": " +:+ lastError))
  | key :: keys' =>
      match decryptSecret stored key with
      | Throw e => try_keys now publicId stored tx iv false keys' (error_message e)
      | Ok plaintext =>
          _ ← (if negb isWriteKey then reencryptStoredSecret now publicId plaintext tx stored iv else mret tt);
          mret (Some plaintext)
      end
  end.

Definition get_secret (now : Z) (publicId : string) (iv : bytes) : ST State SecretError (option string) :=
  order ← lift (fun e => OtherError (error_message e)) (Service.get publicId);
  match order ≫= o_preimage with
  | None => mret None
  | Some stored =>
      if negb (truthy_string stored) then mret None
      else if negb (isEncryptedBlob stored) then mret (Some stored)
      else
        match encKeys svc with
        | [] => throw (OtherError
            ("stored preimage is encrypted but no decryption key is configured; " +:+
             "set SECRET_STORAGE_KEY in the coordinator environment"))
        | _ => try_keys now publicId stored (order ≫= o_secretRevealedTx) iv true (encKeys svc) "undefined"
        end
  end.
End Secrets.

(** ** Facts *)

Section Facts.
Context {H : Hashes} {G : AesGcm} (cfg : Config) (svc : SecretService).

Lemma get_order_eq {A} (k : option OrderRow -> ST State SecretError A) publicId s h :
  (lift h (Service.get publicId) ≫= k) s = k (rowToOrder <$> row_of publicId (db s)) s.
Proof. apply bind_ok. unfold lift, Service.get. by rewrite find_eq. Qed.

(** What a reveal stores, and its version tag. *)
Definition stored_value (pre : string) (iv : bytes) : outcome JsError string :=
  match writeKey svc with Some k => encryptSecret pre k iv | None => Ok pre end.

Lemma reveal_eq now publicId pre txHash iv s :
  reveal cfg svc now publicId pre txHash iv s =
  match row_of publicId (db s) with
  | None => (Throw (UnknownOrderError ("unknown order " +:+ publicId)), s)
  | Some o =>
      if negb (matchesHashlock pre (hashlock o))
      then (Throw (InvalidPreimageError "preimage does not match order hashlock"), s)
      else match stored_value pre iv with
           | Throw e => (Throw (OtherError (error_message e)), s)
           | Ok v =>
               let '(r, s') := Service.recordSecret cfg now publicId v txHash
                                 (match writeKey svc with Some _ => Some 1 | None => None end) None s in
               (match r with Ok _ => Ok tt | Throw e => Throw (classifyStorageFailure publicId e) end, s')
           end
  end.
Proof.
  unfold reveal. rewrite get_order_eq.
  destruct (row_of publicId (db s)) as [o|]; [|done]. cbn [fmap option_fmap option_map].
  unfold matchesHashlock. rewrite negb_orb. change (o_hashlock (rowToOrder o)) with (hashlock o).
  destruct (negb _ && negb _); [done|]. unfold stored_value, lift.
  destruct (writeKey svc) as [k|].
  - destruct (encryptSecret pre k iv) as [v|e]; [|done]. rewrite (bind_ok _ _ _ v s) by done.
    by destruct (Service.recordSecret _ _ _ _ _ _ _ s) as [[[]|e] s'].
  - rewrite (bind_ok _ _ _ pre s) by done.
    by destruct (Service.recordSecret _ _ _ _ _ _ _ s) as [[[]|e] s'].
Qed.

(** A second, different value for an order that has one is refused. *)
Lemma reencrypt_pure now publicId plaintext tx stored iv s o :
  wf_db (db s) -> row_of publicId (db s) = Some o -> preimage o = Some stored ->
  (reencryptStoredSecret cfg svc now publicId plaintext tx stored iv s) = (Ok tt, s).
Proof.
  intros Hwf Ho Hp. unfold reencryptStoredSecret. destruct (writeKey svc) as [k|]; [|done].
  destruct (_ || _); [done|]. unfold try_catch.
  destruct (encryptSecret plaintext k iv) as [v|e]; [|done]. unfold lift_outcome, lift.
  rewrite (bind_ok _ _ _ v s) by done.
  rewrite (recordSecret_service cfg now s publicId Hwf), Ho, Hp.
  rewrite (bool_decide_false (Some stored = None)) by done. by case_bool_decide.
Qed.

Lemma try_keys_pure now publicId stored tx iv w keys err s o :
  wf_db (db s) -> row_of publicId (db s) = Some o -> preimage o = Some stored ->
  (try_keys cfg svc now publicId stored tx iv w keys err s).2 = s.
Proof.
  intros Hwf Ho Hp. revert w err. induction keys as [|key keys IH]; intros w err; [done|]. cbn [try_keys].
  destruct (decryptSecret stored key) as [p|e]; [|apply IH].
  destruct w; cbn [negb]; [done|]. by rewrite (bind_ok _ _ _ tt s) by by apply (reencrypt_pure _ _ _ _ _ _ _ o).
Qed.

Lemma get_secret_pure now publicId iv s :
  wf_db (db s) -> (get_secret cfg svc now publicId iv s).2 = s.
Proof.
  intros Hwf. unfold get_secret. rewrite get_order_eq.
  destruct (row_of publicId (db s)) as [o|] eqn:Ho; [|done]. cbn [fmap option_fmap option_map mbind option_bind].
  change (o_preimage (rowToOrder o)) with (preimage o).
  destruct (preimage o) as [stored|] eqn:Hp; [|done].
  destruct (negb (truthy_string stored)); [done|]. destruct (negb (isEncryptedBlob stored)); [done|].
  destruct (encKeys svc) as [|key keys]; [done|]. by apply (try_keys_pure _ _ _ _ _ _ _ _ _ o).
Qed.

(** Reading back what a reveal stored. *)
Lemma get_stored now publicId iv iv' s o pre v :
  AesGcmLaws G -> Forall (fun k => length k = KEY_BYTES) (encKeys svc) -> valid_iv iv ->
  startsWith pre "0x" = true -> stored_value pre iv = Ok v ->
  row_of publicId (db s) = Some o -> preimage o = Some v ->
  get_secret cfg svc now publicId iv' s = (Ok (Some pre), s).
Proof.
  intros L Hkeys Hiv H0x Hv Ho Hp. unfold get_secret. rewrite get_order_eq, Ho.
  cbn [fmap option_fmap option_map mbind option_bind].
  change (o_preimage (rowToOrder o)) with (preimage o). rewrite Hp.
  assert (pre <> "") as Hne by (by destruct pre).
  unfold stored_value, writeKey in Hv. destruct (encKeys svc) as [|k ks]; cbn [head] in Hv.
  - injection Hv as <-. unfold isEncryptedBlob. rewrite H0x. by destruct pre.
  - apply Forall_cons in Hkeys as [Hk _].
    destruct (encrypt_decrypt pre k iv Hk Hiv Hne) as (blob & E1 & E2 & E3). rewrite E1 in Hv. injection Hv as <-.
    rewrite E2. assert (truthy_string blob = true) as ->
      by (unfold isEncryptedBlob in E2; by apply andb_true_iff in E2 as [_ [_ ?]%andb_true_iff]).
    cbn [negb try_keys]. by rewrite E3.
Qed.
End Facts.

(** A recorded secret stays, whatever follows. *)
Lemma secret_stays cfg cs s publicId o v :
  wf_db (db s) -> row_of publicId (db s) = Some o -> preimage o = Some v ->
  exists o', row_of publicId (db (run cfg cs s)) = Some o' /\ preimage o' = Some v.
Proof.
  intros Hwf Ho Hp. destruct (rtc_row life (db s) (db (run cfg cs s)) publicId o) as (o' & Ho' & Hev);
    [apply (run_steps (fun _ => True) life); [apply any_mark|done]|done|done|].
  exists o'. split; [done|]. clear Ho Ho'. induction Hev as [r|r1 r2 r3 H12 _ IH]; [done|]. apply IH.
  destruct H12 as [->|[_ [Hf|(_ & Hk & _)]]]; [done| |].
  - unfold frozen in Hf. naive_solver congruence.
  - destruct (Hk ltac:(congruence)) as [-> _]. done.
Qed.

(** C15.  Reveal round trip: in any reachable state, for an order that is
    locked and has no secret yet, revealing a 0x-prefixed preimage that hashes
    to the order's hashlock succeeds - with or without encryption at rest, the
    keys being of the length of the cipher's - and from then on, whatever calls of
    the order service follow, reading the secret with these keys gives exactly that
    preimage and changes nothing; with a key configured, what the row holds is a
    blob in the format of the cipher, not the preimage. *)
Theorem reveal_then_get {H : Hashes} {G : AesGcm} {L : AesGcmLaws G} (cfg : Config) (svc : SecretService)
    (cs : list (Z * Call)) (now : Z) (publicId pre txHash : string) (iv : bytes) (o : OrderDbRow) :
  let s := run cfg cs init in
  Forall (fun k => length k = KEY_BYTES) (encKeys svc) -> valid_iv iv ->
  row_of publicId (db s) = Some o -> status o = src_locked \/ status o = dst_locked -> preimage o = None ->
  startsWith pre "0x" = true -> matchesHashlock pre (hashlock o) = true ->
  exists s' o' v, reveal cfg svc now publicId pre txHash iv s = (Ok tt, s') /\
    (forall cs' now' iv', get_secret cfg svc now' publicId iv' (run cfg cs' s') = (Ok (Some pre), run cfg cs' s')) /\
    row_of publicId (db s') = Some o' /\ status o' = secret_revealed /\ preimage o' = Some v /\
    (encKeys svc <> [] -> isEncryptedBlob v = true /\ v <> pre).
Proof.
  intros s Hkeys Hiv Ho Hst Hpre H0x Hm. assert (wf_db (db s)) as Hwf by (apply run_wf, wf_emptyDb).
  assert (pre <> "") as Hne by (by destruct pre).
  assert (exists v, stored_value svc pre iv = Ok v /\ (encKeys svc <> [] -> isEncryptedBlob v = true /\ v <> pre)) as (v & Hv & Hvp).
  { unfold stored_value, writeKey. destruct (encKeys svc) as [|k ks]; [by exists pre|]. cbn [head].
    apply Forall_cons in Hkeys as [Hk _].
    destruct (encrypt_decrypt pre k iv Hk Hiv Hne) as (blob & E1 & E2 & _). exists blob. split; [done|].
    intros _. split; [done|]. intros ->. unfold isEncryptedBlob in E2. by rewrite H0x in E2. }
  rewrite (reveal_eq cfg svc now publicId pre txHash iv s), Ho, Hm, Hv. cbn [negb].
  assert (lifecycle_accepts (status o) secret_revealed = true) as Hl by (by destruct Hst as [-> | ->]).
  assert (forall enc, wf_db (db (Service.recordSecret cfg now publicId v txHash enc None s).2)) as Hwf'
    by (intros enc; exact (run_wf cfg [(now, CSecret publicId v txHash enc None)] s Hwf)).
  specialize (Hwf' (match writeKey svc with Some _ => Some 1 | None => None end)).
  rewrite (recordSecret_service cfg now s publicId Hwf), Ho, Hpre, Hl in Hwf' |- *.
  rewrite bool_decide_false, bool_decide_true in Hwf' |- * by done. cbn [andb] in Hwf' |- *.
  rewrite (recordSecretRevealed_eq now (db s) publicId o (wf_public _ Hwf) Ho) in Hwf' |- *.
  rewrite (lifecycle_not_terminal _ _ Hl), Hpre, bool_decide_false in Hwf' |- * by done. cbn [snd] in Hwf' |- *.
  match type of Hwf' with wf_db (db ?x) => set (s' := x) in * end.
  assert (exists o', row_of publicId (db s') = Some o' /\ status o' = secret_revealed /\ preimage o' = Some v) as (o' & Ho' & Hs' & Hp').
  { eexists. split; [cbn [s' db after_write]; by apply (row_of_written now publicId o)|done]. }
  exists s', o', v. split; [done|]. split; [|done].
  intros cs' now' iv'. destruct (secret_stays cfg cs' s' publicId o' v Hwf' Ho' Hp') as (o2 & Ho2 & Hp2).
  by eapply (get_stored cfg svc now' publicId iv iv').
Qed.

(** Hash functions for the witnesses: the digest spells out the bytes. *)
Definition toy_hashes : Hashes := {| sha256_digest b := string_of b; keccak256_hex b := "" |}.

(** A preimage whose toy digest is the demo hashlock. *)
Fixpoint hex_of_string (s : string) : string :=
  match s with
  | EmptyString => EmptyString
  | String c s' => hex2 (Z.of_N (Ascii.N_of_ascii c)) +:+ hex_of_string s'
  end.
Definition demo_pre : string := "0x" +:+ hex_of_string (slice2 demo_hashlock).
Definition locked_calls : list (Z * Call) :=
  [(1000, CAnnounce demo_input); (2000, CSrcLock (mkLockInput demo_id "7" "0xt1" 100 90 None None))].

Lemma reveal_then_get_witness :
  exists s', reveal (H := toy_hashes) (G := toy_gcm) demo_cfg (mkSecretService [demo_key]) 3000 demo_id demo_pre
               "0xt" demo_iv (run demo_cfg locked_calls init) = (Ok tt, s') /\
    get_secret (G := toy_gcm) demo_cfg (mkSecretService [demo_key]) 4000 demo_id demo_iv s' = (Ok (Some demo_pre), s').
Proof.
  destruct (row_of demo_id (db (run demo_cfg locked_calls init))) as [o|] eqn:Ho; [|by vm_compute in Ho].
  assert (status o = src_locked /\ preimage o = None /\ hashlock o = demo_hashlock) as (E1 & E2 & E3)
    by (vm_compute in Ho; by injection Ho as <-).
  destruct (reveal_then_get (H := toy_hashes) (L := toy_gcm_laws) demo_cfg (mkSecretService [demo_key]) locked_calls
    3000 demo_id demo_pre "0xt" demo_iv o) as (s' & o' & v & R1 & R2 & _).
  - by repeat constructor.
  - split; [done|]. by repeat constructor.
  - done.
  - by left.
  - done.
  - by vm_compute.
  - rewrite E3. by vm_compute.
  - exists s'. split; [exact R1|exact (R2 [] 4000 demo_iv)].
Defined.

(** C16.  Only matching preimages get in, and failures leave no trace: in any
    reachable state, a reveal that changes anything at all carries a preimage
    that hashes to the order's hashlock under SHA-256 or Keccak-256; a reveal
    that fails leaves database, cache, event stream and audit log untouched;
    when there is no such order it reports an unknown order, and when there is one
    and the preimage does not match, an invalid preimage. *)
Theorem reveal_sound {H : Hashes} {G : AesGcm} (cfg : Config) (svc : SecretService) (cs : list (Z * Call))
    (now : Z) (publicId pre txHash : string) (iv : bytes) :
  let s := run cfg cs init in
  let '(r, s') := reveal cfg svc now publicId pre txHash iv s in
  (s' <> s -> exists o, row_of publicId (db s) = Some o /\ matchesHashlock pre (hashlock o) = true /\ r = Ok tt) /\
  (is_ok r = false -> s' = s) /\
  (row_of publicId (db s) = None -> r = Throw (UnknownOrderError ("unknown order " +:+ publicId))) /\
  (forall o, row_of publicId (db s) = Some o -> matchesHashlock pre (hashlock o) = false ->
     r = Throw (InvalidPreimageError "preimage does not match order hashlock")).
Proof.
  intros s. assert (wf_db (db s)) as Hwf by (apply run_wf, wf_emptyDb). rewrite reveal_eq.
  destruct (row_of publicId (db s)) as [o|] eqn:Ho; [|by split_and!].
  destruct (matchesHashlock pre (hashlock o)) eqn:Hm; cbn [negb];
    [|split_and!; [done|done|done|by intros o' [= <-]]].
  assert (forall (r : outcome SecretError unit) o', Some o = Some o' -> matchesHashlock pre (hashlock o') = false ->
    r = Throw (InvalidPreimageError "preimage does not match order hashlock")) as Hx
    by (intros r o' [= <-]; congruence).
  destruct (stored_value svc pre iv) as [v|e]; [|split_and!; [done|done|done|apply Hx]].
  rewrite (recordSecret_service cfg now s publicId Hwf), Ho.
  destruct (bool_decide (preimage o = Some v)); [split_and!; [done|done|done|apply Hx]|].
  destruct (_ && _); (split_and!; [|done|done|apply Hx]); [intros _; by exists o|done].
Qed.

(** Reading a secret never writes: whatever key of the ring decrypts the
    stored blob, [get] leaves the whole state as it was.  In particular the
    re-encryption it attempts after an old key was used is always refused by
    the order service (the row already holds a preimage value), so a rotated
    key never reaches the stored secrets. *)
Lemma get_secret_never_writes {G : AesGcm} (cfg : Config) (svc : SecretService) (cs : list (Z * Call))
    (now : Z) (publicId : string) (iv : bytes) :
  (get_secret cfg svc now publicId iv (run cfg cs init)).2 = run cfg cs init.
Proof. apply get_secret_pure, run_wf, wf_emptyDb. Qed.

(** The preimage a [SecretRevealed] event of the stream carries. *)
Definition streamed_preimage (b : string * SsePayload) : option string :=
  match ev_data b.2 with SecretRevealedData _ p _ _ => Some p | _ => None end.

(** With encryption on, the event stream carries the encrypted blob where the
    preimage should be: a subscriber cannot use what it receives. *)
Theorem streamed_secret_is_ciphertext :
  let s' := (reveal (H := toy_hashes) (G := toy_gcm) demo_cfg (mkSecretService [demo_key]) 3000 demo_id demo_pre
               "0xt" demo_iv (run demo_cfg locked_calls init)).2 in
  exists blob, (last (broadcasts s') ≫= streamed_preimage) = Some blob /\ blob <> demo_pre /\
               isEncryptedBlob blob = true.
Proof. eexists. split; [by vm_compute|]. split; [|by vm_compute]. by vm_compute. Qed.
