(* ===== verification/SecretReconciler.v ===== *)
(** * The secret reconciler (coordinator/src/reconciliation/secret-reconciler.ts).

    Recovers preimages that the live listeners missed from [OrderClaimed]
    logs.  Its security invariant - no preimage is stored unless it hashes to
    the order's hashlock - is the theorem [recovery_is_safe]. *)

From S2P Require Import Prelude OrderMachine TransactionContract OrderRow OrdersRepo OrdersRepoFacts.
From S2P Require Import OrdersRepoSpec HistoryCache Notifications OrderService OrderServiceFacts.
From S2P Require Import OrderServiceSpec Codec SecretCipher SecretService.

Import Service.

Inductive HashAlgo : Type := sha256_algo | keccak256_algo.

Definition validatePreimage {H : Hashes} (pre lock : string) : option HashAlgo :=
  let buf := bufferFromHex pre in
  if bool_decide (sha256Hex buf = lock) then Some sha256_algo
  else if bool_decide (keccak256Hex buf = lock) then Some keccak256_algo
  else None.

Inductive RecoveryOutcome : Type :=
| recovered | already_known | invalid_preimage | state_conflict | recovery_error.

#[export] Instance RecoveryOutcome_eq_dec : EqDecision RecoveryOutcome.
Proof. solve_decision. Defined.

Record SecretRecoveryResult : Type := mkSecretRecoveryResult {
  r_recovered : Z;
  r_invalidPreimages : Z;
  r_alreadyKnown : Z;
  r_stateConflict : Z;
  r_errors : Z
}.

Definition emptyResult : SecretRecoveryResult := mkSecretRecoveryResult 0 0 0 0 0.

(** A decoded [OrderClaimed] log: an argument that is missing is [None]. *)
Record ClaimedLog : Type := mkClaimedLog {
  cl_orderId : option Z;
  cl_preimage : option string;
  cl_transactionHash : option string
}.

Section Recovery.
Context {H : Hashes} (cfg : Config).

Definition _recoverOneOrder (now : Z) (orderId pre txHash : string) : Svc RecoveryOutcome :=
  order ← Service.findBySrcOrderId ethereum orderId;
  match order with
  | None => mret recovery_error
  | Some o =>
      if match o_preimage o with Some p => truthy_string p | None => false end then mret already_known
      else match validatePreimage pre (o_hashlock o) with
           | None => mret invalid_preimage
           | Some _ =>
               try_catch
                 (_ ← Service.recordSecret cfg now (o_publicId o) pre txHash None (Some "secret_reconciler");
                  mret recovered)
                 (fun err => if includes (error_message err) "cannot record" then mret state_conflict
                             else mret recovery_error)
           end
  end.

(** The counter an outcome increments. *)
Definition count_outcome (o : RecoveryOutcome) (r : SecretRecoveryResult) : SecretRecoveryResult :=
  match o with
  | recovered => mkSecretRecoveryResult (r_recovered r + 1) (r_invalidPreimages r) (r_alreadyKnown r)
                   (r_stateConflict r) (r_errors r)
  | already_known => mkSecretRecoveryResult (r_recovered r) (r_invalidPreimages r) (r_alreadyKnown r + 1)
                       (r_stateConflict r) (r_errors r)
  | invalid_preimage => mkSecretRecoveryResult (r_recovered r) (r_invalidPreimages r + 1) (r_alreadyKnown r)
                          (r_stateConflict r) (r_errors r)
  | state_conflict => mkSecretRecoveryResult (r_recovered r) (r_invalidPreimages r) (r_alreadyKnown r)
                        (r_stateConflict r + 1) (r_errors r)
  | recovery_error => mkSecretRecoveryResult (r_recovered r) (r_invalidPreimages r) (r_alreadyKnown r)
                        (r_stateConflict r) (r_errors r + 1)
  end.

(** [!args?.orderId || !args?.preimage]: the id zero counts as missing. *)
Definition usable_log (l : ClaimedLog) : option (string * string * string) :=
  match cl_orderId l, cl_preimage l with
  | Some i, Some p =>
      if (i =? 0) || negb (truthy_string p) then None
      else Some (pretty i, p, default "0x" (cl_transactionHash l))
  | _, _ => None
  end.

Fixpoint recover_logs (now : Z) (logs : list ClaimedLog) (result : SecretRecoveryResult)
  : Svc SecretRecoveryResult :=
  match logs with
  | [] => mret result
  | l :: logs' =>
      match usable_log l with
      | None => recover_logs now logs' result
      | Some (orderId, p, txHash) =>
          o ← _recoverOneOrder now orderId p txHash;
          recover_logs now logs' (count_outcome o result)
      end
  end.

(** [getLogs] is the RPC's answer; [None] stands for a failed call. *)
Definition recoverFromEthereumLogs (now : Z) (getLogs : option (list ClaimedLog)) : Svc SecretRecoveryResult :=
  match getLogs with
  | None => mret emptyResult
  | Some logs => recover_logs now logs emptyResult
  end.

Definition detectStaleRevelations : Svc (list (string * option string * string * string)) :=
  Service.findOrdersMissingSecret.
End Recovery.

(** ** Facts *)

Definition with_src_order (orderId : string) (r : OrderDbRow) : bool :=
  bool_decide (src_chain r = ethereum) && bool_decide (src_order_id r = Some orderId).

Lemma validatePreimage_matches {H : Hashes} pre lock :
  match validatePreimage pre lock with Some _ => true | None => false end = matchesHashlock pre lock.
Proof. unfold validatePreimage, matchesHashlock. by repeat case_bool_decide. Qed.

Section Facts.
Context {H : Hashes} (cfg : Config).

(** A safe write of the preimage column. *)
Definition secret_safe (r r' : OrderDbRow) : Prop :=
  preimage r' = preimage r \/
  exists p, preimage r = None /\ preimage r' = Some p /\ matchesHashlock p (hashlock r) = true.

(** One recovery: the outcome, and what was written. *)
Lemma recover_one now orderId pre txHash s :
  wf_db (db s) ->
  exists o s', _recoverOneOrder cfg now orderId pre txHash s = (Ok o, s') /\
    (s' = s \/
     exists r, sql_get (with_src_order orderId) (orders (db s)) = Some r /\ o = recovered /\
       preimage r = None /\ matchesHashlock pre (hashlock r) = true /\
       lifecycle_accepts (status r) secret_revealed = true /\
       db s' = (OrdersRepo.recordSecretRevealed now (public_id r) pre txHash None None (db s)).2) /\
    (forall r, sql_get (with_src_order orderId) (orders (db s)) = Some r -> preimage r = None ->
       matchesHashlock pre (hashlock r) = true -> lifecycle_accepts (status r) secret_revealed = true ->
       o = recovered /\ db s' = (OrdersRepo.recordSecretRevealed now (public_id r) pre txHash None None (db s)).2).
Proof.
  intros Hwf. unfold _recoverOneOrder.
  rewrite (bind_ok _ _ s (rowToOrder <$> sql_get (with_src_order orderId) (orders (db s))) s).
  2:{ unfold Service.findBySrcOrderId. rewrite repo_eq. cbn. by rewrite with_db_same. }
  destruct (sql_get (with_src_order orderId) (orders (db s))) as [r|] eqn:Hr; cbn [fmap option_fmap option_map].
  2:{ exists recovery_error, s. split_and!; [done|by left|done]. }
  apply sql_get_Some in Hr as [Hin _].
  pose proof (NoDup_row_of (db s) r (wf_public _ Hwf) Hin) as Hrow.
  change (o_preimage (rowToOrder r)) with (preimage r). change (o_hashlock (rowToOrder r)) with (hashlock r).
  change (o_publicId (rowToOrder r)) with (public_id r).
  destruct (preimage r) as [p|] eqn:Hp.
  - destruct (truthy_string p) eqn:Ht.
    + exists already_known, s. split_and!; [done|by left|]. intros r' [= <-]. congruence.
    + destruct (validatePreimage pre (hashlock r)) as [a|].
      2:{ exists invalid_preimage, s. split_and!; [done|by left|]. intros r' [= <-]. congruence. }
      unfold try_catch. st_unfold. rewrite (recordSecret_service cfg now s _ Hwf), Hrow, Hp.
      rewrite (bool_decide_false (Some p = None)) by done. case_bool_decide; cbn [andb].
      * exists recovered, s. split_and!; [done|by left|]. intros r' [= <-]. congruence.
      * case_match; (eexists _, s; split_and!; [done|by left|]; intros r' [= <-]; congruence).
  - pose proof (validatePreimage_matches pre (hashlock r)) as Hv.
    destruct (validatePreimage pre (hashlock r)) as [a|].
    2:{ exists invalid_preimage, s. split_and!; [done|by left|]. intros r' [= <-]. congruence. }
    unfold try_catch. st_unfold. rewrite (recordSecret_service cfg now s _ Hwf), Hrow, Hp.
    rewrite (bool_decide_false (None = Some _)), bool_decide_true by done. cbn [andb].
    destruct (lifecycle_accepts (status r) secret_revealed) eqn:Hl.
    + eexists recovered, _. split; [done|]. split; [right; exists r; by split_and!|]. by intros r' [= <-].
    + case_match; (eexists _, s; split_and!; [done|by left|]; intros r' [= <-]; congruence).
Qed.

Lemma recordSecretRevealed_safe now publicId pre txHash r d publicId' r0 :
  wf_db d -> row_of publicId d = Some r -> preimage r = None -> isTerminal (status r) = false ->
  matchesHashlock pre (hashlock r) = true -> row_of publicId' d = Some r0 ->
  exists r1, row_of publicId' (OrdersRepo.recordSecretRevealed now publicId pre txHash None None d).2 = Some r1 /\
    same_ids r0 r1 /\ secret_safe r0 r1.
Proof.
  intros Hwf Hr Hp Ht Hm H0. rewrite (recordSecretRevealed_eq now d publicId r (wf_public _ Hwf) Hr), Ht, Hp.
  rewrite bool_decide_false by done. unfold row_of, write. cbn [snd]. cbn.
  rewrite (row_of_write d publicId r) by (apply Hwf || done).
  case_bool_decide; subst.
  - rewrite Hr in H0. injection H0 as <-. eexists. split; [done|]. split; [done|]. right. by exists pre.
  - exists r0. split; [done|]. split; [done|]. by left.
Qed.

(** Every row after a recovery of one log. *)
Lemma recover_one_safe now orderId pre txHash s :
  wf_db (db s) ->
  let s' := (_recoverOneOrder cfg now orderId pre txHash s).2 in
  wf_db (db s') /\
  forall publicId r, row_of publicId (db s) = Some r ->
    exists r', row_of publicId (db s') = Some r' /\ same_ids r r' /\ secret_safe r r'.
Proof.
  intros Hwf. destruct (recover_one now orderId pre txHash s Hwf) as (o & s' & -> & Hs & _). cbn.
  destruct Hs as [->|(r & Hr & _ & Hp & Hm & Hl & Hd)].
  - split; [done|]. intros publicId r Hr. exists r. split; [done|]. split; [done|by left].
  - apply sql_get_Some in Hr as [Hin _]. pose proof (NoDup_row_of (db s) r (wf_public _ Hwf) Hin) as Hrow.
    rewrite Hd. split.
    + apply (repo_step_wf _ _ _ (run_call_step now (CallRecordSecret (public_id r) pre txHash None None) (db s) Hwf) Hwf).
    + intros publicId' r0 H0. eapply recordSecretRevealed_safe; eauto using lifecycle_not_terminal.
Qed.

Definition total (r : SecretRecoveryResult) : Z :=
  r_recovered r + r_invalidPreimages r + r_alreadyKnown r + r_stateConflict r + r_errors r.

Lemma total_count o r : total (count_outcome o r) = total r + 1.
Proof. unfold total. destruct o; cbn; lia. Qed.

Lemma secret_safe_trans r1 r2 r3 : same_ids r1 r2 -> secret_safe r1 r2 -> secret_safe r2 r3 -> secret_safe r1 r3.
Proof.
  intros (_ & _ & Hh & _). unfold secret_safe. rewrite Hh.
  intros [H12|(p & A1 & A2 & A3)] [H23|(q & B1 & B2 & B3)].
  - left. congruence.
  - right. exists q. split_and!; congruence.
  - right. exists p. split_and!; congruence.
  - congruence.
Qed.

Definition usable_logs (logs : list ClaimedLog) : list (string * string * string) := omap usable_log logs.

Lemma recover_logs_safe now logs res s :
  wf_db (db s) ->
  exists res' s', recover_logs cfg now logs res s = (Ok res', s') /\ wf_db (db s') /\
    total res' = total res + Z.of_nat (length (usable_logs logs)) /\
    forall publicId r, row_of publicId (db s) = Some r ->
      exists r', row_of publicId (db s') = Some r' /\ same_ids r r' /\ secret_safe r r'.
Proof.
  revert res s. induction logs as [|l logs IH]; intros res s Hwf.
  { exists res, s. split_and!; [done|done|cbn; lia|]. intros publicId r Hr. exists r.
    split; [done|]. split; [done|by left]. }
  cbn [recover_logs usable_logs omap list_omap]. destruct (usable_log l) as [[[orderId p] tx]|]; [|by apply IH].
  destruct (recover_one now orderId p tx s Hwf) as (o & s1 & E & _).
  destruct (recover_one_safe now orderId p tx s Hwf) as [Hwf1 Hsafe]. rewrite E in Hwf1, Hsafe. cbn in Hwf1, Hsafe.
  destruct (IH (count_outcome o res) s1 Hwf1) as (res' & s' & E' & Hwf' & Ht & Hs').
  exists res', s'. split_and!; [by rewrite (bind_ok _ _ _ _ _ E)|done| |].
  - rewrite Ht, total_count. unfold usable_logs. cbn [length]. lia.
  - intros publicId r Hr. destruct (Hsafe publicId r Hr) as (r1 & Hr1 & Hid1 & Hs1).
    destruct (Hs' publicId r1 Hr1) as (r2 & Hr2 & Hid2 & Hs2). exists r2.
    split_and!; [done|by eapply same_ids_trans|by eapply secret_safe_trans].
Qed.
End Facts.

(** C17.  Recovery is safe: in any reachable state, whatever logs an RPC
    returns, a recovery scan never fails, accounts for every usable log in
    exactly one of its counters, and changes a stored preimage only where
    there was none and only to a value that hashes to the order's hashlock
    under SHA-256 or Keccak-256. *)
Theorem recovery_is_safe {H : Hashes} (cfg : Config) (cs : list (Z * Call)) (now : Z) (logs : list ClaimedLog) :
  let s := run cfg cs init in
  exists res s', recoverFromEthereumLogs cfg now (Some logs) s = (Ok res, s') /\
    total res = Z.of_nat (length (usable_logs logs)) /\
    forall publicId r, row_of publicId (db s) = Some r ->
      exists r', row_of publicId (db s') = Some r' /\ same_ids r r' /\ secret_safe r r'.
Proof.
  intros s. assert (wf_db (db s)) as Hwf by (apply run_wf, wf_emptyDb).
  destruct (recover_logs_safe cfg now logs emptyResult s Hwf) as (res & s' & E & _ & Ht & Hs).
  exists res, s'. by split_and!.
Qed.

(** ** Completeness *)

(** Looking a row up after an update that does not touch what is looked for. *)
Lemma sql_get_update_keep (q g : OrderDbRow -> bool) f t :
  (forall r, q (f r) = q r) -> sql_get q (sql_update g f t) = (fun r => if g r then f r else r) <$> sql_get q t.
Proof.
  intros Hq. induction t as [|r t IH]; [done|]. cbn. destruct (g r) eqn:E; [rewrite Hq|]; (destruct (q r); [cbn; by rewrite E|done]).
Qed.

Section Complete.
Context {H : Hashes} (cfg : Config) (now : Z) (id : string) (r : OrderDbRow).

(** The order waits for its secret, or has one from a log. *)
Definition waiting (s : State) : Prop :=
  exists r1, sql_get (with_src_order id) (orders (db s)) = Some r1 /\ same_ids r r1 /\ status r1 = status r /\ preimage r1 = None.
Definition has_secret (pres : list string) (s : State) : Prop :=
  exists r1 p, sql_get (with_src_order id) (orders (db s)) = Some r1 /\ same_ids r r1 /\ status r1 = secret_revealed /\ preimage r1 = Some p /\
    matchesHashlock p (hashlock r) = true /\ p ∈ pres.

Lemma recover_one_moves orderId pre txHash s :
  wf_db (db s) ->
  exists o s', _recoverOneOrder cfg now orderId pre txHash s = (Ok o, s') /\ wf_db (db s') /\
    (waiting s -> waiting s' \/ (has_secret [pre] s' /\ o = recovered)) /\
    (forall pres, has_secret pres s -> has_secret pres s') /\
    (waiting s -> orderId = id -> matchesHashlock pre (hashlock r) = true -> lifecycle_accepts (status r) secret_revealed = true -> ~ waiting s').
Proof.
  intros Hwf. destruct (recover_one cfg now orderId pre txHash s Hwf) as (o & s' & E & Hs & Hrec). exists o, s'. split; [done|].
  pose proof (proj1 (recover_one_safe cfg now orderId pre txHash s Hwf)) as Hwf'. rewrite E in Hwf'. cbn in Hwf'. split; [done|].
  assert (forall r2, sql_get (with_src_order orderId) (orders (db s)) = Some r2 -> preimage r2 = None -> lifecycle_accepts (status r2) secret_revealed = true ->
    db s' = (OrdersRepo.recordSecretRevealed now (public_id r2) pre txHash None None (db s)).2 ->
    sql_get (with_src_order id) (orders (db s')) =
      (fun r1 => if by_public_id (public_id r2) r1 then set_secret pre None txHash (seconds now) r1 else r1) <$> sql_get (with_src_order id) (orders (db s))) as Hw.
  { intros r2 Hr2 Hp Hl Hd. apply sql_get_Some in Hr2 as [Hin _]. pose proof (NoDup_row_of (db s) r2 (wf_public _ Hwf) Hin) as Hrow.
    rewrite Hd, (recordSecretRevealed_eq now (db s) _ r2 (wf_public _ Hwf) Hrow), (lifecycle_not_terminal _ _ Hl), Hp, bool_decide_false by done.
    cbn. by apply sql_get_update_keep. }
  assert (forall r1 r2, r1 ∈ orders (db s) -> sql_get (with_src_order orderId) (orders (db s)) = Some r2 -> by_public_id (public_id r2) r1 = true -> r1 = r2) as Hsame.
  { intros r1 r2 H1 [Hin _]%sql_get_Some Hb. eapply not_by_other; [apply Hwf| |done|done]. by apply NoDup_row_of; [apply Hwf|]. }
  split_and!.
  - intros (r1 & Hr1 & Hid & Hst & Hn). destruct Hs as [->|(r2 & Hr2 & -> & Hp & Hm & Hl & Hd)]; [left; by exists r1|].
    specialize (Hw r2 Hr2 Hp Hl Hd). rewrite Hr1 in Hw. cbn in Hw. destruct (by_public_id (public_id r2) r1) eqn:Hb.
    + right. split; [|done]. pose proof (Hsame r1 r2 (proj1 (sql_get_Some _ _ _ Hr1)) Hr2 Hb) as <-.
      eexists _, pre. split; [exact Hw|]. destruct Hid as (? & ? & Hh & ?). split_and!; try done. { by rewrite <- Hh. } left.
    + left. by exists r1.
  - intros pres (r1 & p & Hr1 & Hid & Hst & Hp1 & Hm1 & Hin). destruct Hs as [->|(r2 & Hr2 & -> & Hp & Hm & Hl & Hd)]; [by exists r1, p|].
    specialize (Hw r2 Hr2 Hp Hl Hd). rewrite Hr1 in Hw. cbn in Hw. destruct (by_public_id (public_id r2) r1) eqn:Hb; [|by exists r1, p].
    pose proof (Hsame r1 r2 (proj1 (sql_get_Some _ _ _ Hr1)) Hr2 Hb) as <-. congruence.
  - intros (r1 & Hr1 & Hid & Hst & Hn) -> Hm Hl (r3 & Hr3 & _ & _ & Hn3).
    assert (hashlock r1 = hashlock r) as Hh by (by destruct Hid as (_ & _ & -> & _)).
    destruct (Hrec r1 Hr1 Hn ltac:(by rewrite Hh) ltac:(by rewrite Hst)) as [_ Hd]. specialize (Hw r1 Hr1 Hn ltac:(by rewrite Hst) Hd).
    rewrite Hr1 in Hw. cbn in Hw. unfold by_public_id in Hw. rewrite bool_decide_true in Hw by done. rewrite Hr3 in Hw. injection Hw as ->. done.
Qed.

Definition preimages (logs : list ClaimedLog) : list string := (fun l => l.1.2) <$> usable_logs logs.

Lemma has_secret_mono pres pres' s : (forall p, p ∈ pres -> p ∈ pres') -> has_secret pres s -> has_secret pres' s.
Proof. intros Hsub (r1 & p & ? & ? & ? & ? & ? & ?). exists r1, p. by auto 10. Qed.

Lemma recovered_grows logs res s : wf_db (db s) -> exists res' s', recover_logs cfg now logs res s = (Ok res', s') /\ r_recovered res <= r_recovered res'.
Proof.
  revert res s. induction logs as [|l logs IH]; intros res s Hwf; [by exists res, s|]. cbn [recover_logs].
  destruct (usable_log l) as [[[orderId p] tx]|]; [|by apply IH]. destruct (recover_one_moves orderId p tx s Hwf) as (o & s1 & E & Hwf1 & _).
  destruct (IH (count_outcome o res) s1 Hwf1) as (res' & s' & E' & Hle). exists res', s'. split; [by rewrite (bind_ok _ _ _ _ _ E)|].
  etrans; [|done]. destruct o; cbn; lia.
Qed.

(** A scan keeps a secret. *)
Lemma recover_logs_keep logs res s pres :
  wf_db (db s) -> has_secret pres s -> exists res' s', recover_logs cfg now logs res s = (Ok res', s') /\ has_secret pres s'.
Proof.
  revert res s. induction logs as [|l logs IH]; intros res s Hwf Hs; [by exists res, s|]. cbn [recover_logs].
  destruct (usable_log l) as [[[orderId p] tx]|]; [|by apply IH]. destruct (recover_one_moves orderId p tx s Hwf) as (o & s1 & E & Hwf1 & _ & Hk & _).
  destruct (IH (count_outcome o res) s1 Hwf1 (Hk pres Hs)) as (res' & s' & E' & Hs'). exists res', s'. by rewrite (bind_ok _ _ _ _ _ E).
Qed.

(** A scan with a matching log leaves the order with a secret. *)
Lemma recover_logs_complete logs res s p tx :
  lifecycle_accepts (status r) secret_revealed = true -> matchesHashlock p (hashlock r) = true -> (id, p, tx) ∈ usable_logs logs -> 0 <= r_recovered res ->
  wf_db (db s) -> waiting s ->
  exists res' s', recover_logs cfg now logs res s = (Ok res', s') /\ has_secret (preimages logs) s' /\ 1 <= r_recovered res'.
Proof.
  intros Hl Hm. revert res s. induction logs as [|l logs IH]; intros res s Hin Hres Hwf Hw; [by apply elem_of_nil in Hin|]. cbn [recover_logs].
  unfold preimages, usable_logs in *. cbn [omap list_omap] in *. destruct (usable_log l) as [[[orderId p'] tx']|] eqn:El; [|by apply IH].
  destruct (recover_one_moves orderId p' tx' s Hwf) as (o & s1 & E & Hwf1 & Hmv & Hk & Hdone).
  destruct (Hmv Hw) as [Hw1|[Hs1 ->]].
  - apply elem_of_cons in Hin as [[= -> -> ->]|Hin]; [by destruct (Hdone Hw eq_refl Hm Hl)|].
    destruct (IH (count_outcome o res) s1 Hin ltac:(destruct o; cbn; lia) Hwf1 Hw1) as (res' & s' & E' & Hs' & Hc).
    exists res', s'. split; [by rewrite (bind_ok _ _ _ _ _ E)|]. split; [|done]. eapply has_secret_mono; [|exact Hs']. intros q Hq. cbn. by right.
  - destruct (recover_logs_keep logs (count_outcome recovered res) s1 [p'] Hwf1 Hs1) as (res' & s' & E' & Hs').
    destruct (recovered_grows logs (count_outcome recovered res) s1 Hwf1) as (res2 & s2 & E2 & Hle). rewrite E2 in E'. injection E' as -> ->.
    exists res', s'. split; [by rewrite (bind_ok _ _ _ _ _ E)|]. split; [|cbn in Hle; lia].
    eapply has_secret_mono; [|exact Hs']. intros q ->%list_elem_of_singleton. left.
Qed.
End Complete.

(** C18.  Recovery is complete: in any reachable state, let a scan return any logs,
    among them one with a nonzero order id and a nonempty preimage.  If the first
    order with this id on Ethereum is locked and has no secret, and the preimage
    matches its hashlock, the scan reports at least one recovery and leaves the
    order in [secret_revealed], with a preimage of one of the logs that matches its
    hashlock.  (The code takes the id zero for a missing one.) *)
Theorem recovery_is_complete {H : Hashes} (cfg : Config) (cs : list (Z * Call)) (now : Z)
    (logs : list ClaimedLog) (i : Z) (p : string) (tx : option string) (r : OrderDbRow) :
  let s := run cfg cs init in
  mkClaimedLog (Some i) (Some p) tx ∈ logs -> i <> 0 -> p <> "" ->
  sql_get (with_src_order (pretty i)) (orders (db s)) = Some r ->
  (status r = src_locked \/ status r = dst_locked) -> preimage r = None ->
  matchesHashlock p (hashlock r) = true ->
  exists res s' r' p', recoverFromEthereumLogs cfg now (Some logs) s = (Ok res, s') /\ 1 <= r_recovered res /\
    row_of (public_id r) (db s') = Some r' /\ status r' = secret_revealed /\ preimage r' = Some p' /\
    matchesHashlock p' (hashlock r) = true /\ p' ∈ preimages logs.
Proof.
  intros s Hin Hi Hp Hr Hst Hpre Hm. assert (wf_db (db s)) as Hwf by (apply run_wf, wf_emptyDb).
  assert (lifecycle_accepts (status r) secret_revealed = true) as Hl by (by destruct Hst as [-> | ->]).
  destruct (recover_logs_complete cfg now (pretty i) r logs emptyResult s p (default "0x" tx)) as (res & s' & E & (r' & p' & Hg & Hid & H1 & H2 & H3 & H4) & Hc);
    [done|done| |done|done|by exists r|].
  { apply list_elem_of_omap. eexists. split; [exact Hin|]. unfold usable_log. cbn. destruct (i =? 0) eqn:Ei; [by bools|]. by destruct p. }
  exists res, s', r', p'. destruct (recover_logs_safe cfg now logs emptyResult s Hwf) as (res2 & s2 & E2 & Hwf2 & _). rewrite E in E2. injection E2 as <- <-.
  apply sql_get_Some in Hg as [Hg _]. assert (public_id r = public_id r') as -> by (by destruct Hid as (_ & -> & _)).
  split_and!; try done. by apply NoDup_row_of; [apply Hwf2|].
Qed.

Lemma recovery_is_complete_witness :
  exists res s' r' p', recoverFromEthereumLogs (H := toy_hashes) demo_cfg 3000
      (Some [mkClaimedLog (Some 7) (Some "0xbad") None; mkClaimedLog (Some 7) (Some demo_pre) None]) (run demo_cfg locked_calls init) = (Ok res, s') /\
    1 <= r_recovered res /\ row_of demo_id (db s') = Some r' /\ preimage r' = Some p'.
Proof.
  destruct (sql_get (with_src_order (pretty 7)) (orders (db (run demo_cfg locked_calls init)))) as [r|] eqn:Hr;
    [|by vm_compute in Hr].
  assert (status r = src_locked /\ preimage r = None /\ hashlock r = demo_hashlock /\ public_id r = demo_id) as (E1 & E2 & E3 & E4)
    by (vm_compute in Hr; by injection Hr as <-).
  destruct (recovery_is_complete (H := toy_hashes) demo_cfg locked_calls 3000 [mkClaimedLog (Some 7) (Some "0xbad") None; mkClaimedLog (Some 7) (Some demo_pre) None]
    7 demo_pre None r) as (res & s' & r' & p' & R1 & R2 & R3 & _ & R4 & _); [right; left|done|done|exact Hr|by left|done|rewrite E3; by vm_compute|].
  rewrite E4 in R3. exists res, s', r', p'. split; [exact R1|]. split; [exact R2|]. split; [exact R3|exact R4].
Defined.
