(* ===== verification/EventIdentity.v ===== *)
(** * Event identity (coordinator/src/reconciliation/event-identity.ts).

    The deduplication keys of on-chain events and the per-run [EventSeenSet].
    The keys are injective - two events of any chains with the same key are
    the same event up to the letter case of an Ethereum hash - and the seen
    set lets each event through once. *)

From S2P Require Import Prelude Text.

Inductive EventType : Type := OrderCreated | OrderClaimed | OrderRefunded.
Inductive EvChain : Type := ev_ethereum | ev_soroban | ev_solana.
Inductive ConflictKind : Type := duplicate | reordered.

#[export] Instance EventType_eq_dec : EqDecision EventType.
Proof. solve_decision. Defined.
#[export] Instance EvChain_eq_dec : EqDecision EvChain.
Proof. solve_decision. Defined.
#[export] Instance ConflictKind_eq_dec : EqDecision ConflictKind.
Proof. solve_decision. Defined.

Definition eventType_str (t : EventType) : string :=
  match t with
  | OrderCreated => "OrderCreated"
  | OrderClaimed => "OrderClaimed"
  | OrderRefunded => "OrderRefunded"
  end.

Definition evChain_str (c : EvChain) : string :=
  match c with ev_ethereum => "ethereum" | ev_soroban => "soroban" | ev_solana => "solana" end.

Record ConflictRecord : Type := mkConflictRecord {
  cr_key : string;
  cr_kind : ConflictKind;
  cr_chain : EvChain;
  cr_eventType : EventType
}.

Definition ethEventKey (eventType : EventType) (txHash : string) (logIndex : Z) : string :=
  "eth:" +:+ eventType_str eventType +:+ ":" +:+ toLowerCase txHash +:+ ":" +:+ pretty logIndex.

Definition sorobanEventKey (eventType : EventType) (txHash : string) (ledger eventIndex : Z) : string :=
  "soroban:" +:+ eventType_str eventType +:+ ":" +:+ pretty ledger +:+ ":" +:+ txHash +:+ ":" +:+
  pretty eventIndex.

Definition solanaEventKey (eventType : EventType) (signature : string) : string :=
  "solana:" +:+ eventType_str eventType +:+ ":" +:+ signature.

Definition semanticKey (chain : EvChain) (eventType : EventType) (identifier : string) : string :=
  "semantic:" +:+ evChain_str chain +:+ ":" +:+ eventType_str eventType +:+ ":" +:+ toLowerCase identifier.

(** [EventSeenSet]: its two maps and its counters. *)
Record EventSeenSet : Type := mkEventSeenSet {
  dedupKeys : gmap string string;
  semanticKeys : gmap string string;
  st_seen : Z;
  st_duplicates : Z;
  st_reordered : Z
}.

Definition emptySeen : EventSeenSet := mkEventSeenSet ∅ ∅ 0 0 0.

Definition checkAndMark (chain : EvChain) (eventType : EventType) (key semKey : string) (s : EventSeenSet)
  : option ConflictRecord * EventSeenSet :=
  match dedupKeys s !! key with
  | Some _ =>
      (Some (mkConflictRecord key duplicate chain eventType),
       mkEventSeenSet (dedupKeys s) (semanticKeys s) (st_seen s) (st_duplicates s + 1) (st_reordered s))
  | None =>
      match semanticKeys s !! semKey with
      | Some _ =>
          (Some (mkConflictRecord key reordered chain eventType),
           mkEventSeenSet (<[key := semKey]> (dedupKeys s)) (semanticKeys s) (st_seen s) (st_duplicates s)
             (st_reordered s + 1))
      | None =>
          (None,
           mkEventSeenSet (<[key := semKey]> (dedupKeys s)) (<[semKey := key]> (semanticKeys s))
             (st_seen s + 1) (st_duplicates s) (st_reordered s))
      end
  end.

Definition has (key : string) (s : EventSeenSet) : bool := bool_decide (is_Some (dedupKeys s !! key)).
Definition seen_stats (s : EventSeenSet) : Z * Z * Z := (st_seen s, st_duplicates s, st_reordered s).
Definition seen_clear (s : EventSeenSet) : EventSeenSet := emptySeen.
Definition seen_size (s : EventSeenSet) : Z := Z.of_nat (size (dedupKeys s)).

(** ** Keys are injective *)

(** What identifies an event on its chain. *)
Inductive EventId : Type :=
| IdEth (t : EventType) (txHash : string) (logIndex : Z)
| IdSoroban (t : EventType) (txHash : string) (ledger eventIndex : Z)
| IdSolana (t : EventType) (signature : string).

Definition eventKey (e : EventId) : string :=
  match e with
  | IdEth t h i => ethEventKey t h i
  | IdSoroban t h l i => sorobanEventKey t h l i
  | IdSolana t s => solanaEventKey t s
  end.

(** Ethereum hashes are compared without regard to letter case. *)
Definition canonical (e : EventId) : EventId :=
  match e with
  | IdEth t h i => IdEth t (toLowerCase h) i
  | _ => e
  end.

(** Split at the first separator. *)
Lemma split_first (x x' a a' : string) :
  free_of colon x = true -> free_of colon x' = true ->
  x +:+ ":" +:+ a = x' +:+ ":" +:+ a' -> x = x' /\ a = a'.
Proof.
  revert x'. induction x as [|c x IH]; intros [|c' x'] Hx Hx' Heq.
  - by injection Heq.
  - injection Heq as <- _. done.
  - injection Heq as -> _. done.
  - injection Heq as -> Heq. apply andb_true_iff in Hx as [_ Hx], Hx' as [_ Hx'].
    destruct (IH x' Hx Hx' Heq) as [-> ->]. done.
Qed.

Lemma eventType_str_inj t t' : eventType_str t = eventType_str t' -> t = t'.
Proof. by destruct t, t'. Qed.

Lemma eventType_free t : free_of colon (eventType_str t) = true.
Proof. by destruct t. Qed.

#[local] Hint Resolve eventType_free pretty_Z_free : coord.

(** The fields after the chain prefix. *)
Lemma typed_inj t t' (a a' : string) :
  eventType_str t +:+ ":" +:+ a = eventType_str t' +:+ ":" +:+ a' -> t = t' /\ a = a'.
Proof. intros [H ->]%split_first; [|apply eventType_free..]. split; [by apply eventType_str_inj|done]. Qed.

(** Event keys identify events: events of any chain with the same
    deduplication key are the same event - same chain, same type, same
    transaction and same index - whatever characters the hashes contain; only
    the letter case of an Ethereum transaction hash is ignored. *)
Lemma event_keys_injective (e e' : EventId) :
  eventKey e = eventKey e' <-> canonical e = canonical e'.
Proof.
  split.
  - destruct e as [t h i|t h l i|t s], e' as [t' h' i'|t' h' l' i'|t' s'];
      cbn [eventKey canonical]; unfold ethEventKey, sorobanEventKey, solanaEventKey; intros H; try done;
      apply string_app_inj_l, typed_inj in H as [-> H].
    + apply join_inj in H as [-> Hi%pretty_Z_inj']; [by rewrite Hi|apply pretty_Z_free..].
    + apply split_first in H as [Hl%pretty_Z_inj' H]; [|apply pretty_Z_free..].
      apply join_inj in H as [-> Hi%pretty_Z_inj']; [by rewrite Hl, Hi|apply pretty_Z_free..].
    + by rewrite H.
  - destruct e as [t h i|t h l i|t s], e' as [t' h' i'|t' h' l' i'|t' s']; cbn; intros H;
      try done; injection H; intros; subst; try done.
    unfold ethEventKey. congruence.
Qed.

(** ** The seen set *)

(** A stream of events with their two keys, through one seen set: the events
    let through, and the set afterwards. *)
Record Seen : Type := mkSeen { e_chain : EvChain; e_type : EventType; e_key : string; e_sem : string }.

Definition mark (e : Seen) (s : EventSeenSet) : option ConflictRecord * EventSeenSet :=
  checkAndMark (e_chain e) (e_type e) (e_key e) (e_sem e) s.

Fixpoint sieve (es : list Seen) (s : EventSeenSet) : list Seen * EventSeenSet :=
  match es with
  | [] => ([], s)
  | e :: es' =>
      let '(r, s1) := mark e s in
      let '(fresh, s2) := sieve es' s1 in
      (match r with None => e :: fresh | Some _ => fresh end, s2)
  end.

(** What the set knows: which keys it has marked, which semantic keys were let
    through, and by which event. *)
Lemma mark_eq e s :
  let '(r, s') := mark e s in
  (forall k, is_Some (dedupKeys s' !! k) <-> k = e_key e \/ is_Some (dedupKeys s !! k)) /\
  (r = None <-> dedupKeys s !! e_key e = None /\ semanticKeys s !! e_sem e = None) /\
  (forall k, is_Some (semanticKeys s' !! k) <-> (r = None /\ k = e_sem e) \/ is_Some (semanticKeys s !! k)) /\
  st_seen s' = st_seen s + (match r with None => 1 | Some _ => 0 end) /\
  st_seen s' + st_duplicates s' + st_reordered s' = st_seen s + st_duplicates s + st_reordered s + 1 /\
  seen_size s' = seen_size s + (if has (e_key e) s then 0 else 1).
Proof.
  unfold mark, checkAndMark, has, seen_size. destruct (dedupKeys s !! e_key e) eqn:E; cbn.
  { split_and!; try lia; naive_solver. }
  destruct (semanticKeys s !! e_sem e) eqn:E2; cbn; rewrite map_size_insert, E; split_and!; try lia;
    try naive_solver; intros k; rewrite lookup_insert_is_Some'; naive_solver.
Qed.

Lemma sieve_inv es s :
  let '(fresh, s') := sieve es s in
  (forall k, is_Some (dedupKeys s' !! k) <-> k ∈ e_key <$> es \/ is_Some (dedupKeys s !! k)) /\
  (forall k, is_Some (semanticKeys s' !! k) <-> k ∈ e_sem <$> fresh \/ is_Some (semanticKeys s !! k)) /\
  Forall (fun e => dedupKeys s !! e_key e = None /\ semanticKeys s !! e_sem e = None) fresh /\
  NoDup (e_key <$> fresh) /\ NoDup (e_sem <$> fresh) /\ fresh ⊆ es /\
  st_seen s' = st_seen s + Z.of_nat (length fresh) /\
  st_seen s' + st_duplicates s' + st_reordered s' =
    st_seen s + st_duplicates s + st_reordered s + Z.of_nat (length es).
Proof.
  revert s. induction es as [|e es IH]; intros s;
    [cbn; split_and!; try lia; try (by constructor); set_solver|].
  cbn [sieve]. pose proof (mark_eq e s) as Hm. destruct (mark e s) as [r s1].
  destruct Hm as (Hk & Hr & Hsem & Hseen & Htot & _).
  specialize (IH s1). destruct (sieve es s1) as [fresh s2].
  destruct IH as (K1 & K2 & K3 & K4 & K5 & K6 & K7 & K8).
  assert (Forall (fun x => (dedupKeys s !! e_key x = None /\ semanticKeys s !! e_sem x = None) /\
    e_key x <> e_key e /\ (r = None -> e_sem x <> e_sem e)) fresh) as Hf.
  { eapply Forall_impl; [apply K3|]. intros x [Hx1 Hx2].
    assert (~ is_Some (dedupKeys s1 !! e_key x)) as N1 by (rewrite Hx1; by intros [? ?]).
    assert (~ is_Some (semanticKeys s1 !! e_sem x)) as N2 by (rewrite Hx2; by intros [? ?]).
    rewrite Hk in N1. rewrite Hsem in N2. rewrite (eq_None_not_Some (dedupKeys s !! _)), (eq_None_not_Some (semanticKeys s !! _)). tauto. }
  destruct r as [c|].
  - split_and!; [| |by eapply Forall_impl; [done|]; intros ? [? _]|done|done|set_solver|lia|cbn [length]; lia].
    + intros k. rewrite K1, Hk. set_solver.
    + intros k. rewrite K2, Hsem. intuition congruence.
  - assert (e_key e ∉ e_key <$> fresh /\ e_sem e ∉ e_sem <$> fresh) as [Hn1 Hn2].
    { rewrite Forall_forall in Hf. split; intros (x & Hx & Hin)%list_elem_of_fmap;
        destruct (Hf x Hin) as (_ & ? & Hx2); [congruence|by apply Hx2]. }
    split_and!.
    + intros k. rewrite K1, Hk. set_solver.
    + intros k. rewrite K2, Hsem. set_solver.
    + constructor; [by apply Hr|]. eapply Forall_impl; [done|]. by intros ? [? _].
    + rewrite fmap_cons. by constructor.
    + rewrite fmap_cons. by constructor.
    + set_solver.
    + cbn [length]. lia.
    + cbn [length]. lia.
Qed.

(** One delivery per event in a run: through a fresh seen set, no two
    events that are let through share a deduplication key or a semantic key;
    every event of the stream is accounted for, exactly, by the three
    counters; an event is skipped only because its own key was delivered
    before or an event with its semantic key was let through; and clearing
    the set between runs forgets everything. *)
Lemma seen_set_delivers_once (es : list Seen) (e : Seen) :
  let '(fresh, s) := sieve es emptySeen in
  NoDup (e_key <$> fresh) /\ NoDup (e_sem <$> fresh) /\ fresh ⊆ es /\
  st_seen s = Z.of_nat (length fresh) /\
  st_seen s + st_duplicates s + st_reordered s = Z.of_nat (length es) /\
  ((mark e s).1 = None <-> e_key e ∉ e_key <$> es /\ e_sem e ∉ e_sem <$> fresh) /\
  (has (e_key e) s = true <-> e_key e ∈ e_key <$> es) /\
  (mark e (seen_clear s)).1 = None.
Proof.
  pose proof (sieve_inv es emptySeen) as H. destruct (sieve es emptySeen) as [fresh s].
  destruct H as (K1 & K2 & _ & K4 & K5 & K6 & K7 & K8). cbn in K7, K8.
  split_and!; try done.
  - pose proof (mark_eq e s) as Hm. destruct (mark e s) as [r s1].
    destruct Hm as (_ & Hr & _). cbn [fst]. rewrite Hr, !eq_None_not_Some, K1, K2. cbn.
    rewrite !lookup_empty. assert (forall A, ~ is_Some (@None A)) as Hno by (by intros A [? ?]).
    pose proof (Hno string). tauto.
  - unfold has. rewrite bool_decide_eq_true, K1. cbn. rewrite lookup_empty.
    split; [by intros [?|[? ?]]|by left].
Qed.
