(* ===== verification/LedgerCursor.v ===== *)
(** * Replay windows (coordinator/src/reconciliation/ledger-cursor.ts,
    replay-policy.ts, recovery-summary.ts).

    How the reconciler chooses the block window it scans, how it rates the
    gap, and the run's decision log and report.  The central fact: windows of
    successive runs leave no block out, unless a run says that its lookback
    was exceeded. *)

From S2P Require Import Prelude OrderMachine OrderRow OrdersRepo EventIdentity.

Definition ETH_LOOKBACK_BLOCKS : Z := 14400.
Definition SOROBAN_LOOKBACK_LEDGERS : Z := 34560.
Definition SOLANA_LOOKBACK_SLOTS : Z := 432000.

Definition isEventBehindOrderCursor (cursor : option Z) (position : Z) : bool :=
  match cursor with
  | Some c => (0 <? c) && (0 <? position) && (position <=? c)
  | None => false
  end.

Record ScanStart : Type := mkScanStart { from : Z; scan_gap : Z; usedLookbackFallback : bool }.

Definition computeIncrementalScanStart (chainCursor tip lookback : Z) : ScanStart :=
  let gap := Z.max (tip - chainCursor) 0 in
  if (0 <? chainCursor) && (gap <=? lookback) then mkScanStart chainCursor gap false
  else mkScanStart (Z.max 0 (tip - lookback)) gap ((chainCursor =? 0) || (lookback <? gap)).

Definition orderCursorForChain (cursors : OrderLedgerCursor) (chain : Chain) : option Z :=
  match chain with
  | ethereum => lastEthBlock cursors
  | stellar => lastSorobanLedger cursors
  | solana => lastSolanaSlot cursors
  end.

Definition advanceCursor (current : option Z) (incoming : Z) : Z :=
  if incoming <=? 0 then default 0 current else Z.max (default 0 current) incoming.

Inductive GapSeverity : Type := gap_none | gap_normal | gap_warning | gap_critical.

#[export] Instance GapSeverity_eq_dec : EqDecision GapSeverity.
Proof. solve_decision. Defined.

Record GapAssessment : Type := mkGapAssessment {
  ga_hwm : Z;
  ga_tip : Z;
  ga_fromBlock : Z;
  ga_gap : Z;
  ga_severity : GapSeverity;
  ga_lookbackExceeded : bool;
  ga_lookbackWindow : Z
}.

(** The class [LedgerCursor]. *)
Record LedgerCursor : Type := mkLedgerCursor { hwm : Z; lookbackWindow : Z }.

Definition advance (tip : Z) (c : LedgerCursor) : LedgerCursor :=
  if hwm c <? tip then mkLedgerCursor tip (lookbackWindow c) else c.

(** [gap <= lookbackWindow / 4] is a comparison of real numbers. *)
Definition assess (tip : Z) (c : LedgerCursor) : GapAssessment :=
  let s := computeIncrementalScanStart (hwm c) tip (lookbackWindow c) in
  let gap := scan_gap s in
  let severity :=
    if gap =? 0 then gap_none
    else if 4 * gap <=? lookbackWindow c then gap_normal
    else if gap <=? lookbackWindow c then gap_warning
    else gap_critical in
  mkGapAssessment (hwm c) tip (from s) gap severity (usedLookbackFallback s) (lookbackWindow c).

(** ** Decisions of a run *)

Definition FORCED_RESYNC_MULTIPLIER : Z := 3.

Record ReplayDecision : Type := mkReplayDecision {
  rd_chain : string;
  rd_fromBlock : Z;
  rd_toBlock : Z;
  rd_windowSize : Z;
  rd_gapSeverity : GapSeverity;
  rd_lookbackExceeded : bool;
  rd_forcedHistoricalResync : bool
}.

Definition buildReplayDecision (chain : string) (a : GapAssessment) : ReplayDecision :=
  mkReplayDecision chain (ga_fromBlock a) (ga_tip a) (Z.max 0 (ga_tip a - ga_fromBlock a)) (ga_severity a)
    (ga_lookbackExceeded a)
    (ga_lookbackExceeded a && (FORCED_RESYNC_MULTIPLIER * ga_lookbackWindow a <? ga_gap a)).

Inductive ConflictType : Type := already_applied | status_ahead | state_contradiction | unknown_order_conflict.

#[export] Instance ConflictType_eq_dec : EqDecision ConflictType.
Proof. solve_decision. Defined.

Record ConflictDecision : Type := mkConflictDecision {
  cd_chain : string;
  cd_eventType : EventType;
  cd_conflictType : ConflictType;
  cd_publicId : option string;
  cd_orderStatus : option OrderStatus;
  cd_description : string
}.

Definition squoted (s : string) : string := "'" +:+ s +:+ "'".

Definition classifyConflict (chain : string) (eventType : EventType) (eventTargetStatus currentStatus : OrderStatus)
    (isTerminal_ : bool) (publicId : option string) : ConflictDecision :=
  let ev := eventType_str eventType in
  let target := squoted (status_str eventTargetStatus) in
  let current := squoted (status_str currentStatus) in
  let decide_ (t : ConflictType) (description : string) :=
    mkConflictDecision chain eventType t publicId (Some currentStatus) description in
  if bool_decide (currentStatus = eventTargetStatus) then
    decide_ already_applied ("Event " +:+ ev +:+ " targets status " +:+ target +:+
                             " which is already the current status")
  else if isTerminal_ then
    decide_ status_ahead ("Order is in terminal state " +:+ current +:+ "; event " +:+ ev +:+
                          " targeting " +:+ target +:+ " skipped")
  else if (bool_decide (eventType = OrderRefunded) && bool_decide (currentStatus = completed)) ||
          (bool_decide (eventType = OrderClaimed) && bool_decide (currentStatus = refunded)) ||
          (bool_decide (eventType = OrderCreated) && bool_decide (currentStatus = secret_revealed)) then
    decide_ state_contradiction ("Event " +:+ ev +:+ " contradicts persisted state " +:+ current +:+
                                 " — operator investigation recommended")
  else
    decide_ status_ahead ("Order is in " +:+ current +:+ "; event " +:+ ev +:+ " targeting " +:+ target +:+
                          " skipped as status is already ahead").

Definition classifyUnknownOrder (chain : string) (eventType : EventType) (identifier : string)
  : ConflictDecision :=
  mkConflictDecision chain eventType unknown_order_conflict None None
    ("No DB order found for " +:+ chain +:+ " " +:+ eventType_str eventType +:+ " with identifier " +:+
     squoted identifier).

(** The class [ReplayPolicy]. *)
Record ReplayPolicy : Type := mkReplayPolicy {
  decisions : list ReplayDecision;
  conflicts : list ConflictDecision
}.

Definition newReplayPolicy : ReplayPolicy := mkReplayPolicy [] [].
Definition recordDecision (d : ReplayDecision) (p : ReplayPolicy) : ReplayPolicy :=
  mkReplayPolicy (decisions p ++ [d]) (conflicts p).
Definition recordConflict (c : ConflictDecision) (p : ReplayPolicy) : ReplayPolicy :=
  mkReplayPolicy (decisions p) (conflicts p ++ [c]).
Definition policy_reset (p : ReplayPolicy) : ReplayPolicy := newReplayPolicy.

Definition count_type (t : ConflictType) (p : ReplayPolicy) : Z :=
  sql_changes (fun c => bool_decide (cd_conflictType c = t)) (conflicts p).

Record ReplaySummary : Type := mkReplaySummary {
  rs_chains : Z;
  rs_totalWindowSize : Z;
  rs_lookbackExceededChains : Z;
  rs_forcedResyncs : Z;
  rs_conflictsByType : ConflictType -> Z
}.

Definition getSummary (p : ReplayPolicy) : ReplaySummary :=
  mkReplaySummary (Z.of_nat (length (decisions p)))
    (fold_left (fun sum d => sum + rd_windowSize d) (decisions p) 0)
    (sql_changes rd_lookbackExceeded (decisions p))
    (sql_changes rd_forcedHistoricalResync (decisions p))
    (fun t => count_type t p).

(** ** Recovery report *)

Definition LISTENER_LOOKBACKS (c : Chain) : Z :=
  match c with ethereum => 5000 | stellar => 34560 | solana => 432000 end.

(** Indexed by the chain name a decision carries, which is cast to [Chain]
    without a check: any other name gives [undefined]. *)
Definition RECONCILER_LOOKBACKS (c : string) : option Z :=
  if bool_decide (c = "ethereum") then Some ETH_LOOKBACK_BLOCKS
  else if bool_decide (c = "stellar") then Some SOROBAN_LOOKBACK_LEDGERS
  else if bool_decide (c = "solana") then Some SOLANA_LOOKBACK_SLOTS
  else None.

Inductive RecoveryVerdict : Type := up_to_date | within_lookback | lookback_exceeded | forced_resync.
Inductive RecoveryOverall : Type := healthy | recovering_ | at_risk | intervention_required.

#[export] Instance RecoveryVerdict_eq_dec : EqDecision RecoveryVerdict.
Proof. solve_decision. Defined.
#[export] Instance RecoveryOverall_eq_dec : EqDecision RecoveryOverall.
Proof. solve_decision. Defined.

Record ChainRecoverySummary : Type := mkChainRecoverySummary {
  cs_chain : string;
  cs_outcome : RecoveryVerdict;
  cs_hwm : Z;
  cs_tip : Z;
  cs_gap : Z;
  cs_windowSize : Z;
  cs_lookback : option Z;
  cs_lookbackExceeded : bool;
  cs_forcedHistoricalResync : bool
}.

Record ChainRecoveryInput : Type := mkChainRecoveryInput {
  ci_chain : string;
  ci_hwm : Z;
  ci_tip : Z;
  ci_fromBlock : Z;
  ci_lookback : option Z
}.

(** [input.lookback ?? RECONCILER_LOOKBACKS[input.chain]]. *)
Definition lookback_of (input : ChainRecoveryInput) : option Z :=
  match ci_lookback input with Some l => Some l | None => RECONCILER_LOOKBACKS (ci_chain input) end.

(** [gap > k * lookback]; a comparison with [undefined] is false. *)
Definition gap_over (k : Z) (lookback : option Z) (gap : Z) : bool :=
  match lookback with Some l => k * l <? gap | None => false end.

Definition chainSummary (input : ChainRecoveryInput) : ChainRecoverySummary :=
  let lookback := lookback_of input in
  let gap := Z.max (ci_tip input - ci_hwm input) 0 in
  let windowSize := Z.max (ci_tip input - ci_fromBlock input) 0 in
  let exceeded := gap_over 1 lookback gap in
  let forced := gap_over FORCED_RESYNC_MULTIPLIER lookback gap in
  let verdict :=
    if forced then forced_resync
    else if exceeded then lookback_exceeded
    else if 0 <? gap then within_lookback
    else up_to_date in
  mkChainRecoverySummary (ci_chain input) verdict (ci_hwm input) (ci_tip input) gap windowSize lookback
    exceeded forced.

Definition aggregateRecoveryOverall (cs : list ChainRecoverySummary) : RecoveryOverall :=
  if existsb cs_forcedHistoricalResync cs then intervention_required
  else if existsb cs_lookbackExceeded cs then at_risk
  else if existsb (fun c => bool_decide (cs_outcome c = within_lookback)) cs then recovering_
  else healthy.

Definition buildRecoveryReport (inputs : list ChainRecoveryInput)
  : list ChainRecoverySummary * RecoveryOverall :=
  let cs := chainSummary <$> inputs in (cs, aggregateRecoveryOverall cs).

(** ** Facts *)

(** One run at [tip]: the window it scans and the cursor it leaves. *)
Definition window (tip : Z) (c : LedgerCursor) : Z * Z := (ga_fromBlock (assess tip c), tip).

Fixpoint scan_runs (tips : list Z) (c : LedgerCursor) : list (GapAssessment * (Z * Z)) * LedgerCursor :=
  match tips with
  | [] => ([], c)
  | tip :: tips' =>
      let '(ws, c') := scan_runs tips' (advance tip c) in
      ((assess tip c, window tip c) :: ws, c')
  end.

Lemma scan_start_bounds cursor tip lookback :
  0 <= cursor -> 0 <= lookback ->
  let s := computeIncrementalScanStart cursor tip lookback in
  0 <= from s /\ tip - from s <= lookback /\ scan_gap s = Z.max (tip - cursor) 0 /\
  (usedLookbackFallback s = false -> from s = cursor /\ 0 < cursor) /\
  (usedLookbackFallback s = true <-> cursor = 0 \/ lookback < tip - cursor).
Proof.
  intros Hc Hl. unfold computeIncrementalScanStart.
  destruct (0 <? cursor) eqn:E1, (Z.max (tip - cursor) 0 <=? lookback) eqn:E2; cbn; bools;
    destruct (cursor =? 0) eqn:E3, (lookback <? Z.max (tip - cursor) 0) eqn:E4; cbn; bools;
    split_and!; try lia; try (split; intros; done || lia).
Qed.

Lemma advance_hwm tip c : hwm (advance tip c) = Z.max (hwm c) tip /\ lookbackWindow (advance tip c) = lookbackWindow c.
Proof. unfold advance. destruct (hwm c <? tip) eqn:E; bools; cbn; lia. Qed.

Lemma severity_spec tip c :
  0 <= hwm c -> 0 < lookbackWindow c ->
  let a := assess tip c in
  (ga_severity a = gap_none <-> tip <= hwm c) /\
  (ga_severity a = gap_critical <-> lookbackWindow c < tip - hwm c) /\
  (ga_severity a = gap_critical -> ga_lookbackExceeded a = true) /\
  (ga_lookbackExceeded a = true -> ga_severity a = gap_critical \/ hwm c = 0).
Proof.
  intros Hh Hl. destruct (scan_start_bounds (hwm c) tip (lookbackWindow c)) as (_ & _ & Hg & _ & Hf); [lia..|].
  unfold assess. cbn. rewrite Hf, Hg.
  destruct (Z.max (tip - hwm c) 0 =? 0) eqn:E1; [|destruct (4 * _ <=? _) eqn:E2;
    [|destruct (Z.max (tip - hwm c) 0 <=? lookbackWindow c) eqn:E3]]; bools;
    split_and!; try split; intros; try done; try lia; auto.
Qed.

(** No block is skipped silently: over any sequence of runs at chain
    tips [tips], starting from a non-negative high-water mark, every position
    above the initial mark and up to the final one lies in the window of some
    run, unless one of the runs reported [lookbackExceeded]; each window has
    at most the lookback's length and starts at a non-negative block; and the
    mark ends at the highest tip seen. *)
Lemma replay_windows_cover (lookback : Z) (tips : list Z) (h : Z) :
  0 <= h -> 0 <= lookback ->
  let '(ws, c') := scan_runs tips (mkLedgerCursor h lookback) in
  (Forall (fun w => ga_lookbackExceeded w.1 = false) ws ->
   forall p, h < p <= hwm c' -> Exists (fun w => w.2.1 <= p <= w.2.2) ws) /\
  Forall (fun w => 0 <= w.2.1 /\ w.2.2 - w.2.1 <= lookback) ws /\
  hwm c' = fold_left Z.max tips h.
Proof.
  intros Hh Hl. revert h Hh. induction tips as [|tip tips IH]; intros h Hh.
  { cbn. split_and!; [intros; lia|constructor|done]. }
  cbn [scan_runs fold_left]. destruct (advance_hwm tip (mkLedgerCursor h lookback)) as [Ha Hb]. cbn in Ha, Hb.
  specialize (IH (Z.max h tip) ltac:(lia)).
  assert (advance tip (mkLedgerCursor h lookback) = mkLedgerCursor (Z.max h tip) lookback) as ->.
  { destruct (advance tip _) eqn:E. cbn in *. by subst. }
  destruct (scan_runs tips (mkLedgerCursor (Z.max h tip) lookback)) as [ws c'].
  destruct IH as (IH1 & IH2 & IH3).
  destruct (scan_start_bounds h tip lookback Hh Hl) as (S1 & S2 & _ & S4 & _).
  split_and!.
  - intros [Hf Hfs]%Forall_cons p Hp. cbn in Hf.
    destruct (decide (p <= Z.max h tip)) as [Hle|Hgt].
    + left. cbn. destruct (S4 Hf) as [-> _]. lia.
    + right. apply IH1; [done|lia].
  - constructor; [|done]. cbn. lia.
  - done.
Qed.

Lemma replay_windows_cover_witness :
  Exists (fun w => w.2.1 <= 150 <= w.2.2) (scan_runs [120; 160; 155] (mkLedgerCursor 100 50)).1.
Proof.
  pose proof (replay_windows_cover 50 [120; 160; 155] 100 ltac:(lia) ltac:(lia)) as H.
  destruct (scan_runs [120; 160; 155] (mkLedgerCursor 100 50)) as [ws c'] eqn:E.
  assert (ws = (scan_runs [120; 160; 155] (mkLedgerCursor 100 50)).1 /\
          c' = (scan_runs [120; 160; 155] (mkLedgerCursor 100 50)).2) as [-> ->] by by rewrite E.
  destruct H as (H & _ & _). cbn [fst]. apply H; [by repeat constructor|]. vm_compute. split; congruence.
Defined.

Lemma existsb_false_all {A} (f : A -> bool) l : existsb f l = false <-> Forall (fun x => f x = false) l.
Proof.
  induction l as [|x l IH]; [done|]. cbn. rewrite orb_false_iff, IH. split; [by intros []; constructor|].
  by intros [? ?]%Forall_cons.
Qed.

Lemma existsb_ext_in {A} (f g : A -> bool) l : Forall (fun x => f x = g x) l -> existsb f l = existsb g l.
Proof. induction 1 as [|x l Hx _ IH]; [done|]. cbn. by rewrite Hx, IH. Qed.

Definition gap_of (i : ChainRecoveryInput) : Z := Z.max (ci_tip i - ci_hwm i) 0.
Definition window_of (i : ChainRecoveryInput) : Z := default 0 (lookback_of i).

(** With a known lookback, the verdict of a run is a test on each gap. *)
Lemma overall_eq inputs :
  Forall (fun i => is_Some (lookback_of i) /\ 0 <= window_of i) inputs ->
  (buildRecoveryReport inputs).2 =
  if existsb (fun i => 3 * window_of i <? gap_of i) inputs then intervention_required
  else if existsb (fun i => window_of i <? gap_of i) inputs then at_risk
  else if existsb (fun i => 0 <? gap_of i) inputs then recovering_
  else healthy.
Proof.
  intros Hlb. unfold buildRecoveryReport, aggregateRecoveryOverall. cbn [snd].
  assert (forall f, existsb f (chainSummary <$> inputs) = existsb (fun i => f (chainSummary i)) inputs) as Hmap.
  { intros f. clear. induction inputs as [|i l IH]; [done|]. cbn. by rewrite <- IH. }
  rewrite !Hmap. clear Hmap.
  assert (Forall (fun i => cs_forcedHistoricalResync (chainSummary i) = (3 * window_of i <? gap_of i) /\
    cs_lookbackExceeded (chainSummary i) = (window_of i <? gap_of i)) inputs) as Hf.
  { eapply Forall_impl; [done|]. intros i [[l Hl] _]. unfold chainSummary, window_of, gap_of. cbn. rewrite Hl.
    cbn. unfold FORCED_RESYNC_MULTIPLIER. split; [done|]. by rewrite Z.mul_1_l. }
  rewrite (existsb_ext_in (fun i => cs_forcedHistoricalResync (chainSummary i)) (fun i => 3 * window_of i <? gap_of i)) by (eapply Forall_impl; [done|]; by intros i []).
  destruct (existsb (fun i => 3 * window_of i <? gap_of i) inputs) eqn:E1; [done|].
  rewrite (existsb_ext_in (fun i => cs_lookbackExceeded (chainSummary i)) (fun i => window_of i <? gap_of i)) by (eapply Forall_impl; [done|]; by intros i []).
  destruct (existsb (fun i => window_of i <? gap_of i) inputs) eqn:E2; [done|].
  rewrite (existsb_ext_in (fun i => bool_decide _) (fun i => 0 <? gap_of i)); [done|].
  rewrite existsb_false_all in E1, E2. rewrite !Forall_forall in *. intros i Hi.
  destruct (Hf i Hi) as [F1 F2]. rewrite (E1 i Hi) in F1. rewrite (E2 i Hi) in F2.
  cbn in F1, F2. cbn. rewrite F1, F2. unfold gap_of. by destruct (0 <? _).
Qed.

Lemma no_gap_over (k : ChainRecoveryInput -> Z) inputs :
  Forall (fun i => gap_of i <= k i) inputs <-> ~ Exists (fun i => k i < gap_of i) inputs.
Proof.
  rewrite Forall_forall, Exists_exists. split.
  - intros H (i & Hi & Hk). specialize (H i Hi). cbn in H. lia.
  - intros H i Hi. destruct (Z.le_gt_cases (gap_of i) (k i)); [done|]. destruct H. exists i. split; [done|lia].
Qed.

Lemma some_gap_over (k : ChainRecoveryInput -> Z) inputs :
  existsb (fun i => k i <? gap_of i) inputs = true <-> Exists (fun i => k i < gap_of i) inputs.
Proof.
  rewrite List.existsb_exists, Exists_exists.
  split; intros (i & Hi & Hk); exists i; apply list_elem_of_In in Hi; split; try done; by bools; lia || by apply Z.ltb_lt.
Qed.

(** The recovery verdict is the worst chain's: when every chain's
    lookback is known, the report is [healthy] exactly when no chain is
    behind, [recovering] when some chain is behind but every gap is within its
    lookback, [at_risk] when some gap exceeds its lookback but none exceeds
    three times it, and [intervention_required] exactly when some gap does. *)
Lemma recovery_overall_is_worst (inputs : list ChainRecoveryInput) :
  Forall (fun i => is_Some (lookback_of i) /\ 0 <= window_of i) inputs ->
  let overall := (buildRecoveryReport inputs).2 in
  (overall = healthy <-> Forall (fun i => gap_of i = 0) inputs) /\
  (overall = recovering_ <-> Exists (fun i => 0 < gap_of i) inputs /\ Forall (fun i => gap_of i <= window_of i) inputs) /\
  (overall = at_risk <-> Exists (fun i => window_of i < gap_of i) inputs /\ Forall (fun i => gap_of i <= 3 * window_of i) inputs) /\
  (overall = intervention_required <-> Exists (fun i => 3 * window_of i < gap_of i) inputs).
Proof.
  intros Hlb overall. subst overall. rewrite (overall_eq inputs Hlb).
  assert (Forall (fun i => gap_of i = 0) inputs <-> Forall (fun i => gap_of i <= 0) inputs) as ->
    by (rewrite !Forall_forall; unfold gap_of; split; intros H i Hi; specialize (H i Hi); cbn in *; lia).
  rewrite !no_gap_over.
  assert (Exists (fun i => 3 * window_of i < gap_of i) inputs -> Exists (fun i => window_of i < gap_of i) inputs) as H12.
  { rewrite Forall_forall in Hlb. rewrite !Exists_exists. intros (i & Hi & H). exists i.
    destruct (Hlb i Hi). split; [done|lia]. }
  assert (Exists (fun i => window_of i < gap_of i) inputs -> Exists (fun i => 0 < gap_of i) inputs) as H23.
  { rewrite Forall_forall in Hlb. rewrite !Exists_exists. intros (i & Hi & H). exists i.
    destruct (Hlb i Hi). split; [done|lia]. }
  rewrite <- !some_gap_over in *.
  destruct (existsb (fun i => 3 * window_of i <? gap_of i) inputs), (existsb (fun i => window_of i <? gap_of i) inputs),
    (existsb (fun i => 0 <? gap_of i) inputs); intuition congruence.
Qed.

Lemma recovery_overall_is_worst_witness :
  (buildRecoveryReport [mkChainRecoveryInput "ethereum" 100 120 100 None;
                        mkChainRecoveryInput "stellar" 0 40000 5440 None]).2 = at_risk.
Proof.
  apply recovery_overall_is_worst.
  - repeat constructor; try (eexists; vm_compute; reflexivity); vm_compute; congruence.
  - split; [|repeat constructor; vm_compute; congruence]. right. left. vm_compute. done.
Defined.

(** What the conflict classifier can say: called with the lifecycle's
    own terminal test, it reports
    [already_applied] exactly when the order is at the target, and
    [state_contradiction] only for an [OrderCreated] event on an order whose
    secret is already revealed; a refund of a completed order or a claim of a
    refunded one is reported as [status_ahead], because those statuses are
    terminal. *)
Lemma classifyConflict_reports (chain : string) (t : EventType) (target current : OrderStatus)
    (publicId : option string) :
  let c := cd_conflictType (classifyConflict chain t target current (isTerminal current) publicId) in
  (c = already_applied <-> current = target) /\
  (c = state_contradiction <-> t = OrderCreated /\ current = secret_revealed /\ target <> secret_revealed) /\
  (c = status_ahead <-> current <> target /\ ~ (t = OrderCreated /\ current = secret_revealed)).
Proof. intros c. destruct t, target, current; vm_compute in c; subst c; intuition congruence. Qed.
