(* ===== verification/Reconciler.v ===== *)
(** * The reconciler (coordinator/src/reconciliation/reconciler.ts,
    services/workflow-priority-policy.ts).

    Replays on-chain events against the database: per-run deduplication,
    durable claims, per-order cursors, dispatch policy, then the order
    service.  RPC answers are inputs: decoded Ethereum logs, decoded Soroban
    events (the XDR decoding of soroban-events.ts is applied before), Solana
    transaction logs, and [None] or an exhausted list for a failed call.
    Metrics and log lines are left out. *)

From S2P Require Import Prelude OrderMachine TransactionContract OrderRow OrdersRepo OrdersRepoFacts.
From S2P Require Import OrdersRepoSpec HistoryCache Notifications OrderService OrderServiceFacts.
From S2P Require Import OrderServiceSpec Codec SecretCipher SecretService SecretReconciler EventIdentity.
From S2P Require Import LedgerCursor.

Import Service.

(** ** Dispatch policy *)

Inductive WorkflowPath : Type := live | replay | recovery.
Inductive DispatchReason : Type := applied | dispatch_already_applied | stale_sequence | lower_priority.

#[export] Instance DispatchReason_eq_dec : EqDecision DispatchReason.
Proof. solve_decision. Defined.

Definition PATH_PRIORITY (p : WorkflowPath) : Z :=
  match p with live => 0 | replay => 1 | recovery => 2 end.

Definition decideDispatch (path : WorkflowPath) (incomingSequence existingSequence : option Z)
    (alreadyApplied : bool) : bool * DispatchReason :=
  if alreadyApplied then (false, dispatch_already_applied)
  else if match existingSequence, incomingSequence with
          | Some e, Some i => i <? e
          | _, _ => false
          end then (false, stale_sequence)
  else if bool_decide (existingSequence = incomingSequence) && (PATH_PRIORITY live <? PATH_PRIORITY path)
  then (false, lower_priority)
  else (true, applied).

(** ** State *)

Record ReconciliationStatus : Type := mkReconciliationStatus {
  lastRunAt : option Z;
  lastRunOk : option bool;
  eventsReplayed : Z;
  cursorHwms : option (Z * Z * Z);
  recoveryReport : option (list ChainRecoverySummary * RecoveryOverall)
}.

Record RState : Type := mkRState {
  svc : State;
  seenSet : EventSeenSet;
  policy : ReplayPolicy;
  ethCursor : option LedgerCursor;
  sorobanCursor : option LedgerCursor;
  sorobanRpcCursor : option string;
  solanaCursor : option LedgerCursor;
  cursorsReady : bool;
  rstatus : ReconciliationStatus
}.

Definition newReconciler (s : State) : RState :=
  mkRState s emptySeen newReplayPolicy None None None None false (mkReconciliationStatus None None 0 None None).

Abbreviation Rec := (ST RState JsError).

Definition with_svc (st : RState) (s : State) : RState :=
  mkRState s (seenSet st) (policy st) (ethCursor st) (sorobanCursor st) (sorobanRpcCursor st)
    (solanaCursor st) (cursorsReady st) (rstatus st).
Definition with_seen (st : RState) (s : EventSeenSet) : RState :=
  mkRState (svc st) s (policy st) (ethCursor st) (sorobanCursor st) (sorobanRpcCursor st)
    (solanaCursor st) (cursorsReady st) (rstatus st).
Definition with_policy (st : RState) (p : ReplayPolicy) : RState :=
  mkRState (svc st) (seenSet st) p (ethCursor st) (sorobanCursor st) (sorobanRpcCursor st)
    (solanaCursor st) (cursorsReady st) (rstatus st).
Definition with_soroban (st : RState) (c : option LedgerCursor) (page : option string) : RState :=
  mkRState (svc st) (seenSet st) (policy st) (ethCursor st) c page
    (solanaCursor st) (cursorsReady st) (rstatus st).
Definition with_solana (st : RState) (c : option LedgerCursor) : RState :=
  mkRState (svc st) (seenSet st) (policy st) (ethCursor st) (sorobanCursor st) (sorobanRpcCursor st)
    c (cursorsReady st) (rstatus st).
Definition with_cursors (st : RState) (e so sl : LedgerCursor) : RState :=
  mkRState (svc st) (seenSet st) (policy st) (Some e) (Some so) (sorobanRpcCursor st)
    (Some sl) true (rstatus st).
Definition with_status (st : RState) (r : ReconciliationStatus) : RState :=
  mkRState (svc st) (seenSet st) (policy st) (ethCursor st) (sorobanCursor st) (sorobanRpcCursor st)
    (solanaCursor st) (cursorsReady st) r.

(** A call of the order service. *)
Definition orders_call {A} (m : Svc A) : Rec A := zoom svc (fun s st => with_svc st s) m.

(** [safeToNumber]: [null] for a missing or an unsafe integer. *)
Definition safeToNumber (value : option Z) : option Z :=
  match value with
  | Some n => if isSafeInteger n then Some n else None
  | None => None
  end.

(** [seenSet.checkAndMark]; true when the event is in conflict. *)
Definition check_seen (chain : EvChain) (t : EventType) (key semKey : string) : Rec bool := fun st =>
  let '(r, s') := checkAndMark chain t key semKey (seenSet st) in
  (Ok (match r with Some _ => true | None => false end), with_seen st s').

Definition claimEvent (key : string) (chain : EvChain) (t : EventType) : Rec bool :=
  orders_call (Service.claimEvent key (evChain_str chain) (eventType_str t) None).

(** The cursor update of one chain. *)
Definition cursor_update (chain : Chain) (position : Z) : OrderLedgerCursor :=
  match chain with
  | ethereum => mkOrderLedgerCursor (Some position) None None
  | stellar => mkOrderLedgerCursor None (Some position) None
  | solana => mkOrderLedgerCursor None None (Some position)
  end.

Definition order_cursor (chain : Chain) (o : OrderRow) : option Z :=
  match chain with
  | ethereum => o_lastEthBlock o
  | stellar => o_lastSorobanLedger o
  | solana => o_lastSolanaSlot o
  end.

(** ** Inputs *)

(** A decoded Ethereum log; arguments the event does not have are [None]. *)
Record EthLog : Type := mkEthLog {
  lg_orderId : option Z;
  lg_hashlock : option string;
  lg_timelock : option Z;
  lg_preimage : option string;
  lg_logIndex : option Z;
  lg_transactionHash : option string;
  lg_blockNumber : option Z
}.

(** What [decodeHtlcEvent] answers. *)
Inductive SorobanDecoded : Type :=
| SorobanMalformed
| SorobanOther
| SorobanCreated (lock : string) (orderId timelock : Z)
| SorobanClaimed (orderId : Z) (pre : string)
| SorobanRefunded (orderId : Z).

Record SorobanEvent : Type := mkSorobanEvent {
  sv_ledger : Z;
  sv_txHash : string;
  sv_decoded : SorobanDecoded
}.

(** The fields of a Solana payload that the code reads; [None] is an absent
    field.  A field that is present but null acts like an empty string (it
    fails the truth tests) or a zero timelock ([timelock ?? 0]). *)
Record SolanaPayload : Type := mkSolanaPayload {
  sp_hashlock : option string;
  sp_orderId : option string;
  sp_timelock : option Z;
  sp_preimage : option string
}.

Definition truthy_opt (o : option string) : option string :=
  match o with Some s => if truthy_string s then Some s else None | None => None end.

Section Replay.
Context {H : Hashes} (cfg : Config) (now : Z).

Definition advanceOrderCursor (publicId : string) (chain : Chain) (position : Z) : Rec unit :=
  if position <=? 0 then mret tt
  else orders_call (Service.advanceOrderLedgerCursor now publicId (cursor_update chain position)).

(** The [catch] of a replay: an error that says the order is already past
    the event advances the order's cursor; any other error is logged.  In
    both cases the event counts for nothing. *)
Definition catch_applied (markers : list string) (find : Svc (option OrderRow)) (chain : Chain)
    (position : option Z) (err : JsError) : Rec Z :=
  if existsb (includes (error_message err)) markers then
    match position with
    | None => mret 0
    | Some p =>
        order ← orders_call find;
        match order with
        | None => mret 0
        | Some o => _ ← advanceOrderCursor (o_publicId o) chain p; mret 0
        end
    end
  else mret 0.

Definition record_markers : list string := ["cannot record"; "terminal"].
Definition transition_markers : list string := ["cannot transition"; "terminal"].

(** An event is processed when it is new in this run and its key was not
    claimed by an earlier one. *)
Definition once (chain : EvChain) (t : EventType) (key semKey : string) (body : Rec Z) : Rec Z :=
  conflict ← check_seen chain t key semKey;
  if conflict : bool then mret 0
  else
    claimed ← claimEvent key chain t;
    if negb claimed then mret 0 else body.

(** *** Ethereum *)

Definition eth_block (log : EthLog) : option Z := safeToNumber (Some (default 0 (lg_blockNumber log))).
Definition eth_tx (log : EthLog) : string := default "0x" (lg_transactionHash log).
Definition eth_key (t : EventType) (log : EthLog) : string :=
  ethEventKey t (eth_tx log) (default 0 (lg_logIndex log)).

Definition ethCreatedBody (log : EthLog) (lock : string) (orderId : Z) : Rec Z :=
  try_catch
    (found ← orders_call (Service.findByHashlock lock);
     match found with
     | None => mret 0
     | Some order =>
         match eth_block log with
         | None => mret 0
         | Some blockNum =>
             if isEventBehindOrderCursor (o_lastEthBlock order) blockNum then mret 0
             else if negb (decideDispatch replay (Some blockNum) (o_srcLockBlock order)
                             (negb (bool_decide (o_srcOrderId order = None)))).1 then
               _ ← advanceOrderCursor (o_publicId order) ethereum blockNum; mret 0
             else match safeToNumber (lg_timelock log) with
                  | None => mret 0
                  | Some timelockNum =>
                      _ ← orders_call (Service.recordSrcLock cfg now
                            (mkLockInput (o_publicId order) (pretty orderId) (eth_tx log) blockNum timelockNum
                               None (Some "reconciler")));
                      _ ← advanceOrderCursor (o_publicId order) ethereum blockNum;
                      mret 1
                  end
         end
     end)
    (catch_applied record_markers (Service.findByHashlock lock) ethereum (eth_block log)).

Definition replayEthCreated1 (log : EthLog) : Rec Z :=
  match truthy_opt (lg_hashlock log), lg_orderId log with
  | Some lock, Some orderId =>
      once ev_ethereum OrderCreated (eth_key OrderCreated log)
        (semanticKey ev_ethereum OrderCreated lock) (ethCreatedBody log lock orderId)
  | _, _ => mret 0
  end.

Definition replayEthCreated (logs : list EthLog) : Rec Z := sum_each replayEthCreated1 logs.

(** [!args?.orderId] is also true of the id zero. *)
Definition truthy_id (o : option Z) : option Z :=
  match o with Some i => if i =? 0 then None else Some i | None => None end.

Definition ethClaimedBody (log : EthLog) (orderId : Z) (pre : string) : Rec Z :=
  try_catch
    (found ← orders_call (Service.findBySrcOrderId ethereum (pretty orderId));
     match found with
     | None => mret 0
     | Some order =>
         match eth_block log with
         | None => mret 0
         | Some blockNum =>
             if isEventBehindOrderCursor (o_lastEthBlock order) blockNum then mret 0
             else if negb (decideDispatch replay (Some blockNum) None
                             (negb (bool_decide (o_preimage order = None)))).1 then
               _ ← advanceOrderCursor (o_publicId order) ethereum blockNum; mret 0
             else match validatePreimage pre (o_hashlock order) with
                  | None => _ ← advanceOrderCursor (o_publicId order) ethereum blockNum; mret 0
                  | Some _ =>
                      _ ← orders_call (Service.recordSecret cfg now (o_publicId order) pre (eth_tx log) None
                                         (Some "reconciler"));
                      _ ← advanceOrderCursor (o_publicId order) ethereum blockNum;
                      mret 1
                  end
         end
     end)
    (catch_applied record_markers (Service.findBySrcOrderId ethereum (pretty orderId)) ethereum (eth_block log)).

Definition replayEthClaimed1 (log : EthLog) : Rec Z :=
  match truthy_id (lg_orderId log), truthy_opt (lg_preimage log) with
  | Some orderId, Some pre =>
      once ev_ethereum OrderClaimed (eth_key OrderClaimed log)
        (semanticKey ev_ethereum OrderClaimed (pretty orderId)) (ethClaimedBody log orderId pre)
  | _, _ => mret 0
  end.

Definition replayEthClaimed (logs : list EthLog) : Rec Z := sum_each replayEthClaimed1 logs.

Definition refund_applied (order : OrderRow) : bool :=
  bool_decide (o_status order = refunded) || bool_decide (o_status order = completed).

Definition ethRefundedBody (log : EthLog) (orderId : Z) : Rec Z :=
  try_catch
    (found ← orders_call (Service.findBySrcOrderId ethereum (pretty orderId));
     match found with
     | None => mret 0
     | Some order =>
         match eth_block log with
         | None => mret 0
         | Some blockNum =>
             if isEventBehindOrderCursor (o_lastEthBlock order) blockNum then mret 0
             else if negb (decideDispatch replay (Some blockNum) (o_srcLockBlock order)
                             (refund_applied order)).1 then
               _ ← advanceOrderCursor (o_publicId order) ethereum blockNum; mret 0
             else
               _ ← orders_call (Service.markStatus cfg now (o_publicId order) refunded "reconciler");
               _ ← advanceOrderCursor (o_publicId order) ethereum blockNum;
               mret 1
         end
     end)
    (catch_applied transition_markers (Service.findBySrcOrderId ethereum (pretty orderId)) ethereum (eth_block log)).

Definition replayEthRefunded1 (log : EthLog) : Rec Z :=
  match truthy_id (lg_orderId log) with
  | Some orderId =>
      once ev_ethereum OrderRefunded (eth_key OrderRefunded log)
        (semanticKey ev_ethereum OrderRefunded (pretty orderId)) (ethRefundedBody log orderId)
  | None => mret 0
  end.

Definition replayEthRefunded (logs : list EthLog) : Rec Z := sum_each replayEthRefunded1 logs.

(** *** Soroban *)

Definition sorobanBody (ev : SorobanEvent) : Rec Z :=
  let ledger := sv_ledger ev in
  match sv_decoded ev with
  | SorobanMalformed | SorobanOther => mret 0
  | SorobanCreated lock orderId timelock =>
      try_catch
        (found ← orders_call (Service.findByHashlock lock);
         match found with
         | None => mret 0
         | Some order =>
             if isEventBehindOrderCursor (o_lastSorobanLedger order) ledger then mret 0
             else if negb (decideDispatch replay (Some ledger) (o_srcLockBlock order)
                             (negb (bool_decide (o_srcOrderId order = None)))).1 then
               _ ← advanceOrderCursor (o_publicId order) stellar ledger; mret 0
             else
               _ ← orders_call (Service.recordSrcLock cfg now
                     (mkLockInput (o_publicId order) (pretty orderId) (sv_txHash ev) ledger timelock None
                        (Some "reconciler")));
               _ ← advanceOrderCursor (o_publicId order) stellar ledger;
               mret 1
         end)
        (catch_applied record_markers (Service.findByHashlock lock) stellar (Some ledger))
  | SorobanClaimed orderId pre =>
      try_catch
        (found ← orders_call (Service.findBySrcOrderId stellar (pretty orderId));
         match found with
         | None => mret 0
         | Some order =>
             if isEventBehindOrderCursor (o_lastSorobanLedger order) ledger then mret 0
             else if negb (decideDispatch replay (Some ledger) None
                             (negb (bool_decide (o_preimage order = None)))).1 then
               _ ← advanceOrderCursor (o_publicId order) stellar ledger; mret 0
             else match validatePreimage pre (o_hashlock order) with
                  | None => _ ← advanceOrderCursor (o_publicId order) stellar ledger; mret 0
                  | Some _ =>
                      _ ← orders_call (Service.recordSecret cfg now (o_publicId order) pre (sv_txHash ev) None
                                         (Some "reconciler"));
                      _ ← advanceOrderCursor (o_publicId order) stellar ledger;
                      mret 1
                  end
         end)
        (catch_applied record_markers (Service.findBySrcOrderId stellar (pretty orderId)) stellar (Some ledger))
  | SorobanRefunded orderId =>
      try_catch
        (found ← orders_call (Service.findBySrcOrderId stellar (pretty orderId));
         match found with
         | None => mret 0
         | Some order =>
             if isEventBehindOrderCursor (o_lastSorobanLedger order) ledger then mret 0
             else if negb (decideDispatch replay (Some ledger) (o_srcLockBlock order)
                             (refund_applied order)).1 then
               _ ← advanceOrderCursor (o_publicId order) stellar ledger; mret 0
             else
               _ ← orders_call (Service.markStatus cfg now (o_publicId order) refunded "reconciler");
               _ ← advanceOrderCursor (o_publicId order) stellar ledger;
               mret 1
         end)
        (catch_applied transition_markers (Service.findBySrcOrderId stellar (pretty orderId)) stellar (Some ledger))
  end.

(** The event type and the identifier of the semantic key. *)
Definition soroban_identity (d : SorobanDecoded) : option (EventType * string) :=
  match d with
  | SorobanMalformed | SorobanOther => None
  | SorobanCreated lock _ _ => Some (OrderCreated, lock)
  | SorobanClaimed orderId _ => Some (OrderClaimed, pretty orderId)
  | SorobanRefunded orderId => Some (OrderRefunded, pretty orderId)
  end.

Definition replaySorobanEvent (ev : SorobanEvent) (eventIndex : Z) : Rec Z :=
  match soroban_identity (sv_decoded ev) with
  | None => mret 0
  | Some (t, identifier) =>
      once ev_soroban t (sorobanEventKey t (sv_txHash ev) (sv_ledger ev) eventIndex)
        (semanticKey ev_soroban t identifier) (sorobanBody ev)
  end.

(** *** Solana: the key is claimed after the order was reconciled *)

Definition claim_solana (key : string) (t : EventType) (n : Z) : Rec Z :=
  _ ← claimEvent key ev_solana t; mret n.

Definition catch_solana (markers : list string) (find : Svc (option OrderRow)) (slot : Z) (key : string)
    (t : EventType) (err : JsError) : Rec Z :=
  if existsb (includes (error_message err)) markers then
    order ← orders_call find;
    match order with
    | None => mret 0
    | Some o => _ ← advanceOrderCursor (o_publicId o) solana slot; claim_solana key t 0
    end
  else mret 0.

Definition solanaCreated (sig : string) (slot : Z) (lock orderId : string) (timelock : option Z) : Rec Z :=
  let key := solanaEventKey OrderCreated sig in
  conflict ← check_seen ev_solana OrderCreated key (semanticKey ev_solana OrderCreated lock);
  if conflict : bool then mret 0
  else try_catch
    (found ← orders_call (Service.findByHashlock lock);
     match found with
     | None => mret 0
     | Some order =>
         if isEventBehindOrderCursor (o_lastSolanaSlot order) slot then claim_solana key OrderCreated 0
         else if negb (decideDispatch replay (Some slot) (o_srcLockBlock order)
                         (negb (bool_decide (o_srcOrderId order = None)))).1 then
           _ ← advanceOrderCursor (o_publicId order) solana slot;
           claim_solana key OrderCreated 0
         else
           _ ← orders_call (Service.recordSrcLock cfg now
                 (mkLockInput (o_publicId order) orderId sig slot (default 0 timelock) None (Some "reconciler")));
           _ ← advanceOrderCursor (o_publicId order) solana slot;
           claim_solana key OrderCreated 1
     end)
    (catch_solana record_markers (Service.findByHashlock lock) slot key OrderCreated).

Definition solanaClaimed (sig : string) (slot : Z) (pre orderId : string) : Rec Z :=
  let key := solanaEventKey OrderClaimed sig in
  conflict ← check_seen ev_solana OrderClaimed key (semanticKey ev_solana OrderClaimed orderId);
  if conflict : bool then mret 0
  else try_catch
    (found ← orders_call (Service.findBySrcOrderId solana orderId);
     match found with
     | None => mret 0
     | Some order =>
         if isEventBehindOrderCursor (o_lastSolanaSlot order) slot then claim_solana key OrderClaimed 0
         else if negb (decideDispatch replay (Some slot) None
                         (negb (bool_decide (o_preimage order = None)))).1 then
           _ ← advanceOrderCursor (o_publicId order) solana slot;
           claim_solana key OrderClaimed 0
         else match validatePreimage pre (o_hashlock order) with
              | None =>
                  _ ← advanceOrderCursor (o_publicId order) solana slot;
                  claim_solana key OrderClaimed 0
              | Some _ =>
                  _ ← orders_call (Service.recordSecret cfg now (o_publicId order) pre sig None (Some "reconciler"));
                  _ ← advanceOrderCursor (o_publicId order) solana slot;
                  claim_solana key OrderClaimed 1
              end
     end)
    (catch_solana record_markers (Service.findBySrcOrderId solana orderId) slot key OrderClaimed).

Definition solanaRefunded (sig : string) (slot : Z) (orderId : string) : Rec Z :=
  let key := solanaEventKey OrderRefunded sig in
  conflict ← check_seen ev_solana OrderRefunded key (semanticKey ev_solana OrderRefunded orderId);
  if conflict : bool then mret 0
  else try_catch
    (found ← orders_call (Service.findBySrcOrderId solana orderId);
     match found with
     | None => mret 0
     | Some order =>
         if isEventBehindOrderCursor (o_lastSolanaSlot order) slot then claim_solana key OrderRefunded 0
         else if negb (decideDispatch replay (Some slot) (o_srcLockBlock order) (refund_applied order)).1 then
           _ ← advanceOrderCursor (o_publicId order) solana slot;
           claim_solana key OrderRefunded 0
         else
           _ ← orders_call (Service.markStatus cfg now (o_publicId order) refunded "reconciler");
           _ ← advanceOrderCursor (o_publicId order) solana slot;
           claim_solana key OrderRefunded 1
     end)
    (catch_solana transition_markers (Service.findBySrcOrderId solana orderId) slot key OrderRefunded).

(** The last event name seen in the log lines, in the order of the tests. *)
Definition solana_event_type (lines : list string) : option EventType :=
  fold_left (fun t line =>
    let t1 := if includes line "OrderCreated" then Some OrderCreated else t in
    let t2 := if includes line "OrderClaimed" then Some OrderClaimed else t1 in
    if includes line "OrderRefunded" then Some OrderRefunded else t2) lines None.

(** [Object.assign]: a field of a later object wins. *)
Definition assign {A} (old new : option A) : option A := match new with Some x => Some x | None => old end.
Definition merge_payload (p q : SolanaPayload) : SolanaPayload :=
  mkSolanaPayload (assign (sp_hashlock p) (sp_hashlock q)) (assign (sp_orderId p) (sp_orderId q))
    (assign (sp_timelock p) (sp_timelock q)) (assign (sp_preimage p) (sp_preimage q)).

(** [jsonPayload line] is what [JSON.parse] makes of the braces of a line. *)
Definition replaySolanaLogs (jsonPayload : string -> option SolanaPayload) (sig : string)
    (lines : list string) (slot : Z) : Rec Z :=
  let payload := fold_left (fun p line => match jsonPayload line with Some q => merge_payload p q | None => p end)
                   lines (mkSolanaPayload None None None None) in
  match solana_event_type lines with
  | None => mret 0
  | Some OrderCreated =>
      match truthy_opt (sp_hashlock payload), truthy_opt (sp_orderId payload) with
      | Some lock, Some orderId => solanaCreated sig slot lock orderId (sp_timelock payload)
      | _, _ => mret 0
      end
  | Some OrderClaimed =>
      match truthy_opt (sp_preimage payload), truthy_opt (sp_orderId payload) with
      | Some pre, Some orderId => solanaClaimed sig slot pre orderId
      | _, _ => mret 0
      end
  | Some OrderRefunded =>
      match truthy_opt (sp_orderId payload) with
      | Some orderId => solanaRefunded sig slot orderId
      | None => mret 0
      end
  end.
End Replay.

(** ** Runs *)

(** The three RPC endpoints during one run: what they answer to a request,
    [None] for a call that fails. *)
Record EthRpc : Type := mkEthRpc {
  getBlockNumber : option Z;
  (** by event, from block, to block *)
  getLogs : EventType -> Z -> Z -> option (list EthLog)
}.

Record SorobanPage : Type := mkSorobanPage { pg_events : list SorobanEvent; pg_cursor : option string }.

Record SorobanRpc : Type := mkSorobanRpc {
  getLatestLedger : option Z;
  (** the answers to the successive calls of one run, each by start ledger and
      page cursor; a call past the end of the list fails *)
  getEvents : list (option Z -> option string -> SorobanPage)
}.

Record SolanaSig : Type := mkSolanaSig {
  sg_signature : string;
  sg_slot : Z;
  sg_err : bool;
  (** log lines of the parsed transaction, if it was fetched and succeeded *)
  sg_logs : option (list string)
}.

Record SolanaRpc : Type := mkSolanaRpc {
  (** the two [getSlot] calls of a run *)
  getSlot1 : option Z;
  getSlot2 : option Z;
  (** by minimum context slot *)
  getSignaturesForAddress : Z -> option (list SolanaSig)
}.

Record RecConfig : Type := mkRecConfig {
  htlcEscrow : bool;                    (** an Ethereum contract is configured *)
  htlcContract : bool;
  programId : bool
}.

Definition rpc_error : JsError := PlainError None "rpc error".

(** An RPC call: its answer, or a thrown error. *)
Definition rpc {A} (answer : option A) : Rec A :=
  match answer with Some a => mret a | None => throw rpc_error end.

Section Runs.
Context {H : Hashes} (cfg : Config) (rc : RecConfig) (now : Z) (jsonPayload : string -> option SolanaPayload).

Definition initCursors : Rec unit :=
  ethHwm ← orders_call (Service.getChainCursor ethereum);
  sorobanHwm ← orders_call (Service.getChainCursor stellar);
  solanaHwm ← orders_call (Service.getChainCursor solana);
  modify (fun st => with_cursors st (mkLedgerCursor ethHwm ETH_LOOKBACK_BLOCKS)
                      (mkLedgerCursor sorobanHwm SOROBAN_LOOKBACK_LEDGERS)
                      (mkLedgerCursor solanaHwm SOLANA_LOOKBACK_SLOTS)).

(** The scan start of a chain, from its persistent cursor and the lowest
    cursor of an active order. *)
Definition computeFrom (chain : Chain) (tip lookback : Z) : Rec Z :=
  chainCursor ← orders_call (Service.getChainCursor chain);
  minOrderCursor ← orders_call (Service.getMinActiveOrderCursor chain);
  let cursor :=
    match minOrderCursor with
    | Some m => if 0 <? m then (if 0 <? chainCursor then Z.min chainCursor m else m) else chainCursor
    | None => chainCursor
    end in
  mret (from (computeIncrementalScanStart cursor tip lookback)).

Definition computeEthFromBlock (latest : Z) : Rec Z := computeFrom ethereum latest ETH_LOOKBACK_BLOCKS.
Definition computeSorobanFromLedger (tip : Z) : Rec Z := computeFrom stellar tip SOROBAN_LOOKBACK_LEDGERS.
Definition computeSolanaFromSlot (tip : Z) : Rec Z := computeFrom solana tip SOLANA_LOOKBACK_SLOTS.

Definition reconcileEthereum (r : EthRpc) : Rec Z :=
  if negb (htlcEscrow rc) then mret 0
  else
    c ← gets ethCursor;
    match c with
    | None => mret 0
    | Some _ =>
        latest ← rpc (getBlockNumber r);
        fromBlock ← computeEthFromBlock latest;
        createdLogs ← rpc (getLogs r OrderCreated fromBlock latest);
        claimedLogs ← rpc (getLogs r OrderClaimed fromBlock latest);
        refundedLogs ← rpc (getLogs r OrderRefunded fromBlock latest);
        n1 ← replayEthCreated cfg now createdLogs;
        n2 ← replayEthClaimed cfg now claimedLogs;
        n3 ← replayEthRefunded cfg now refundedLogs;
        _ ← orders_call (Service.setChainCursor now ethereum latest);
        mret (n1 + n2 + n3)
    end.

(** The events of a page, numbered from [i]. *)
Fixpoint replay_page (evs : list SorobanEvent) (i : Z) : Rec Z :=
  match evs with
  | [] => mret 0
  | ev :: evs' =>
      n ← replaySorobanEvent cfg now ev i;
      m ← replay_page evs' (i + 1);
      mret (n + m)
  end.

(** The page loop: a start ledger or a page cursor, never both; it stops at a
    short page or when no cursor comes back.  [calls] are the calls that the
    endpoint answers in this loop, and the one after them fails: every behaviour of
    an endpoint is such a list, except full pages without end. *)
Fixpoint soroban_pages (calls : list (option Z -> option string -> SorobanPage)) (fromBlock : Z)
    (pageCursor : option string) (i : Z) : Rec Z :=
  match calls with
  | [] => throw rpc_error
  | call :: calls' =>
      let page := call (match truthy_opt pageCursor with Some _ => None | None => Some fromBlock end) pageCursor in
      n ← replay_page (pg_events page) i;
      _ ← modify (fun st => with_soroban st (sorobanCursor st) (pg_cursor page));
      if (Z.of_nat (length (pg_events page)) <? 200) || bool_decide (truthy_opt (pg_cursor page) = None)
      then mret n
      else
        m ← soroban_pages calls' fromBlock (pg_cursor page) (i + Z.of_nat (length (pg_events page)));
        mret (n + m)
  end.

Definition reconcileSoroban (r : SorobanRpc) : Rec Z :=
  if negb (htlcContract rc) then mret 0
  else
    c ← gets sorobanCursor;
    match c with
    | None => mret 0
    | Some cur =>
        tip ← rpc (getLatestLedger r);
        let decision := buildReplayDecision "soroban" (assess tip cur) in
        _ ← modify (fun st => with_policy st (recordDecision decision (policy st)));
        if rd_windowSize decision =? 0 then mret 0
        else
          pageCursor ← gets sorobanRpcCursor;
          replayed ← try_catch
            (n ← soroban_pages (getEvents r) (rd_fromBlock decision) pageCursor 0;
             _ ← orders_call (Service.setChainCursor now stellar tip);
             mret n)
            (fun err => _ ← modify (fun st => with_soroban st (sorobanCursor st) None); throw err);
          _ ← modify (fun st => with_soroban st (advance tip <$> sorobanCursor st) (sorobanRpcCursor st));
          mret replayed
    end.

(** One signature: failed or foreign transactions count for nothing. *)
Definition replay_sig (decision : ReplayDecision) (s : SolanaSig) : Rec Z :=
  if sg_err s then mret 0
  else if (sg_slot s <? rd_fromBlock decision) || (rd_toBlock decision <? sg_slot s) then mret 0
  else match sg_logs s with
       | None => mret 0
       | Some lines =>
           try_catch (replaySolanaLogs cfg now jsonPayload (sg_signature s) lines (sg_slot s)) (fun _ => mret 0)
       end.

Definition reconcileSolana (r : SolanaRpc) : Rec Z :=
  if negb (programId rc) then mret 0
  else
    c ← gets solanaCursor;
    match c with
    | None => mret 0
    | Some cur =>
        tip ← rpc (getSlot1 r);
        let decision := buildReplayDecision "solana" (assess tip cur) in
        _ ← modify (fun st => with_policy st (recordDecision decision (policy st)));
        if rd_windowSize decision =? 0 then mret 0
        else
          slot ← rpc (getSlot2 r);
          _ ← computeSolanaFromSlot slot;
          sigs ← rpc (getSignaturesForAddress r (Z.max 0 (rd_fromBlock decision)));
          replayed ← sum_each (replay_sig decision) sigs;
          _ ← orders_call (Service.setChainCursor now solana slot);
          _ ← modify (fun st => with_solana st (advance tip <$> solanaCursor st));
          mret replayed
    end.

(** [hwmByChain[decision.chain] ?? 0]: the keys of the object are
    "ethereum", "stellar" and "solana". *)
Definition hwmByChain (st : RState) (chain : string) : Z :=
  let h c := match c with Some l => hwm l | None => 0 end in
  if bool_decide (chain = "ethereum") then h (ethCursor st)
  else if bool_decide (chain = "stellar") then h (sorobanCursor st)
  else if bool_decide (chain = "solana") then h (solanaCursor st)
  else 0.

Definition buildRecoveryReport (st : RState) : list ChainRecoverySummary * RecoveryOverall :=
  LedgerCursor.buildRecoveryReport
    ((fun d => mkChainRecoveryInput (rd_chain d) (hwmByChain st (rd_chain d)) (rd_toBlock d) (rd_fromBlock d) None)
       <$> decisions (policy st)).

(** One chain of a run: its count and whether it succeeded. *)
Definition guarded (m : Rec Z) : Rec (Z * bool) :=
  try_catch (n ← m; mret (n, true)) (fun _ => mret (0, false)).

Definition run (e : EthRpc) (so : SorobanRpc) (sl : SolanaRpc) : Rec unit :=
  ready ← gets cursorsReady;
  _ ← (if ready : bool then mret tt else initCursors);
  _ ← modify (fun st => with_policy (with_seen st (seen_clear (seenSet st))) (policy_reset (policy st)));
  r1 ← guarded (reconcileEthereum e);
  r2 ← guarded (reconcileSoroban so);
  r3 ← guarded (reconcileSolana sl);
  modify (fun st =>
    let h c := match c with Some l => hwm l | None => 0 end in
    with_status st (mkReconciliationStatus (Some now) (Some (r1.2 && r2.2 && r3.2)) (r1.1 + r2.1 + r3.1)
                      (Some (h (ethCursor st), h (sorobanCursor st), h (solanaCursor st)))
                      (Some (buildRecoveryReport st)))).
End Runs.
