(* ===== verification/ReconcilerSpec.v ===== *)
(** * What reconciliation guarantees.

    Replay is safe - whatever events the chains report, orders move only
    along their lifecycle and only validated preimages are stored - and it is
    idempotent: a replay of the same Ethereum or Soroban events in a later
    run, after any amount of other work and also after a restart, changes
    nothing at all. *)

From S2P Require Import Prelude OrderMachine TransactionContract OrderRow OrdersRepo OrdersRepoFacts.
From S2P Require Import OrdersRepoSpec HistoryCache Notifications OrderService OrderServiceFacts.
From S2P Require Import OrderServiceSpec Codec SecretCipher SecretService SecretReconciler EventIdentity.
From S2P Require Import LedgerCursor Reconciler.

Import Service.

(** ** The service keeps the claim ledger *)

Definition svc_ledgers (s : State) := ledgers (db s).

Lemma repo_keeps {A B} (g : Db -> B) (m : Repo A) : keeps g m -> keeps (fun s => g (db s)) (repo m).
Proof. intros Hm s. rewrite repo_eq. cbn. apply Hm. Qed.

Lemma on_state_ledgers (f : State -> State) : (forall s, db (f s) = db s) -> keeps svc_ledgers (modify (E := JsError) f).
Proof. intros Hf s. unfold svc_ledgers. cbn. by rewrite Hf. Qed.

Lemma read_ledgers {A} (m : Repo A) : (forall d, (m d).2 = d) -> keeps ledgers m.
Proof. intros Hm d. by rewrite Hm. Qed.

#[local] Hint Resolve on_state_ledgers : keeps.

(** Frame of a service handler: its repository calls keep the ledgers. *)
Ltac svc_keeps :=
  repeat first
    [ apply repo_keeps; solve [auto with keeps | by apply read_ledgers]
    | apply on_state_ledgers; done
    | progress keeps_solve ].

Lemma recordSrcLock_svc_ledgers cfg now i : keeps svc_ledgers (Service.recordSrcLock cfg now i).
Proof.
  unfold Service.recordSrcLock, recordTransition, _incrementPhaseSnapshot, broadcast, audit, invalidateParties, on_cache.
  svc_keeps.
Qed.

Lemma recordDstLock_svc_ledgers cfg now i : keeps svc_ledgers (Service.recordDstLock cfg now i).
Proof.
  unfold Service.recordDstLock, recordTransition, _incrementPhaseSnapshot, broadcast, audit, invalidateParties, on_cache.
  svc_keeps.
Qed.

Lemma recordSecret_svc_ledgers cfg now p pre t e a : keeps svc_ledgers (Service.recordSecret cfg now p pre t e a).
Proof.
  unfold Service.recordSecret, recordTransition, _incrementPhaseSnapshot, broadcast, audit, invalidateParties, on_cache.
  svc_keeps.
Qed.

Lemma markStatus_svc_ledgers cfg now p s a : keeps svc_ledgers (Service.markStatus cfg now p s a).
Proof.
  unfold Service.markStatus, recordTransition, _incrementPhaseSnapshot, broadcast, audit, invalidateParties, on_cache.
  svc_keeps.
Qed.

#[local] Hint Resolve recordSrcLock_svc_ledgers recordDstLock_svc_ledgers recordSecret_svc_ledgers
  markStatus_svc_ledgers : keeps.

Lemma announce_svc_ledgers cfg now i : keeps svc_ledgers (Service.announce cfg now i).
Proof.
  unfold Service.announce, _incrementPhaseSnapshot, audit, invalidateParties, on_cache. svc_keeps.
Qed.

Lemma rollbackSrc_svc_ledgers cfg now p : keeps svc_ledgers (Service.rollbackSrcLock cfg now p).
Proof. unfold Service.rollbackSrcLock, audit. svc_keeps. Qed.
Lemma rollbackDst_svc_ledgers cfg now p : keeps svc_ledgers (Service.rollbackDstLock cfg now p).
Proof. unfold Service.rollbackDstLock, audit. svc_keeps. Qed.

Lemma expire_svc_ledgers cfg now n : keeps svc_ledgers (expireStaleOrders cfg now n).
Proof.
  unfold expireStaleOrders. apply keeps_bind; [by apply repo_keeps, read_ledgers|]. intros cs.
  apply keeps_sum_each. intros o. unfold expireOne. keeps_solve.
Qed.

(** No call of the coordinator forgets a claimed event. *)
Definition claims_kept (s s' : State) : Prop :=
  forall k, is_Some (processed_events (db s) !! k) -> is_Some (processed_events (db s') !! k).

Lemma ledgers_claims s s' : svc_ledgers s' = svc_ledgers s -> claims_kept s s'.
Proof. unfold svc_ledgers, ledgers. intros [= H _ _] k. by rewrite H. Qed.

Lemma repo_claims {A} (m : Repo A) s : ledgers_advance (db s) (m (db s)).2 -> claims_kept s (repo m s).2.
Proof. intros [H _] k Hk. rewrite repo_eq. cbn. by rewrite H. Qed.

Lemma run1_claims cfg now c s : claims_kept s (run1 cfg now c s).
Proof.
  destruct c; cbn [run1];
    try (apply repo_claims; auto using claimEvent_advance, setChainCursor_advance, saveSorobanCheckpoint_advance,
      markSorobanRecovery_advance; fail);
    apply ledgers_claims;
    first [ apply announce_svc_ledgers | apply recordSrcLock_svc_ledgers | apply recordDstLock_svc_ledgers
          | apply recordSecret_svc_ledgers | apply markStatus_svc_ledgers | apply rollbackSrc_svc_ledgers
          | apply rollbackDst_svc_ledgers | apply expire_svc_ledgers | by apply history_keeps
          | by apply historyWithCursor_keeps
          | apply repo_keeps; auto with keeps ].
Qed.

Lemma run_claims cfg cs s : claims_kept s (OrderServiceSpec.run cfg cs s).
Proof.
  revert s. induction cs as [|[now c] cs IH]; intros s k Hk; [done|]. cbn. apply IH. by apply run1_claims.
Qed.

(** ** Events that are processed once *)

(** What the body of a replay must leave alone: the seen set and the ledgers. *)
Definition frame (st : RState) := (seenSet st, svc_ledgers (svc st)).

Lemma orders_call_eq {A} (m : Svc A) st : orders_call m st = ((m (svc st)).1, with_svc st (m (svc st)).2).
Proof. unfold orders_call, zoom. by destruct (m (svc st)). Qed.

Lemma orders_call_frame {A} (m : Svc A) : keeps svc_ledgers m -> keeps frame (orders_call m).
Proof. intros Hm st. rewrite orders_call_eq. unfold frame. cbn. by rewrite Hm. Qed.

Lemma find_ledgers {A} (m : Repo A) : (forall d, (m d).2 = d) -> keeps svc_ledgers (repo m).
Proof. intros Hm. by apply repo_keeps, read_ledgers. Qed.

Lemma findByHashlock_ledgers h : keeps svc_ledgers (Service.findByHashlock h).
Proof. by apply find_ledgers. Qed.
Lemma findBySrcOrderId_ledgers c i : keeps svc_ledgers (Service.findBySrcOrderId c i).
Proof. by apply find_ledgers. Qed.
Lemma advance_ledgers now p u : keeps svc_ledgers (Service.advanceOrderLedgerCursor now p u).
Proof. apply repo_keeps. auto with keeps. Qed.

#[local] Hint Resolve findByHashlock_ledgers findBySrcOrderId_ledgers advance_ledgers : keeps.

Lemma advanceOrderCursor_frame now p c x : keeps frame (advanceOrderCursor now p c x).
Proof. unfold advanceOrderCursor. keeps_solve. apply orders_call_frame. auto with keeps. Qed.
#[local] Hint Resolve advanceOrderCursor_frame : keeps.

(** Frame of a replay body. *)
Ltac rec_keeps :=
  repeat first [ apply orders_call_frame; solve [auto with keeps] | progress keeps_solve ].

Lemma advanceOrderCursor_ok now p c x : ok_always (advanceOrderCursor now p c x).
Proof.
  intros st. unfold advanceOrderCursor. destruct (x <=? 0); [done|]. rewrite orders_call_eq.
  unfold Service.advanceOrderLedgerCursor. rewrite repo_eq. unfold OrdersRepo.advanceOrderLedgerCursor.
  by destruct (negb _).
Qed.

(** Looking up an order never fails. *)
Definition finds (find : Svc (option OrderRow)) : Prop :=
  (forall s, is_ok (find s).1 = true) /\ keeps svc_ledgers find.

Lemma finds_hashlock h : finds (Service.findByHashlock h).
Proof. split; [done|auto with keeps]. Qed.
Lemma finds_src c i : finds (Service.findBySrcOrderId c i).
Proof. split; [done|auto with keeps]. Qed.

Lemma catch_applied_ok now ms find c p e : finds find -> ok_always (catch_applied now ms find c p e).
Proof.
  intros [Hf _] st. unfold catch_applied. destruct (existsb _ ms); [|done]. destruct p as [p|]; [|done].
  apply ok_bind; [intros s; rewrite orders_call_eq; apply Hf|]. intros [o|]; [|done].
  apply ok_bind; [apply advanceOrderCursor_ok|done].
Qed.

Lemma catch_applied_frame now ms find c p e : finds find -> keeps frame (catch_applied now ms find c p e).
Proof. intros [_ Hf]. unfold catch_applied. rec_keeps. Qed.

(** A body that leaves the frame and always returns. *)
Definition good_body (b : Rec Z) : Prop := keeps frame b /\ ok_always b.

Lemma good_try m h : keeps frame m -> (forall e, keeps frame (h e)) -> (forall e, ok_always (h e)) -> good_body (try_catch m h).
Proof. split; [by apply keeps_try|by apply ok_try]. Qed.

Ltac good_body_tac f :=
  apply good_try;
  [ rec_keeps | intros; apply catch_applied_frame; apply f | intros; apply catch_applied_ok; apply f ].

Section Bodies.
Context {H : Hashes} (cfg : Config) (now : Z).

Lemma ethCreatedBody_good log lock i : good_body (ethCreatedBody cfg now log lock i).
Proof. unfold ethCreatedBody. good_body_tac finds_hashlock. Qed.

Lemma ethClaimedBody_good log i p : good_body (ethClaimedBody cfg now log i p).
Proof. unfold ethClaimedBody. good_body_tac finds_src. Qed.

Lemma ethRefundedBody_good log i : good_body (ethRefundedBody cfg now log i).
Proof. unfold ethRefundedBody. good_body_tac finds_src. Qed.

Lemma sorobanBody_good ev : good_body (sorobanBody cfg now ev).
Proof.
  unfold sorobanBody. destruct (sv_decoded ev); try done.
  - good_body_tac finds_hashlock.
  - good_body_tac finds_src.
  - good_body_tac finds_src.
Qed.
End Bodies.

(** An event with its keys and its body, or nothing to do. *)
Record Item : Type := mkItem {
  it_chain : EvChain; it_type : EventType; it_key : string; it_sem : string; it_body : Rec Z
}.

Definition run_item (i : option Item) : Rec Z :=
  match i with
  | Some x => once (it_chain x) (it_type x) (it_key x) (it_sem x) (it_body x)
  | None => mret 0
  end.

Definition good_item (i : option Item) : Prop := match i with Some x => good_body (it_body x) | None => True end.

Definition marked (x : Item) (s : EventSeenSet) : option ConflictRecord * EventSeenSet :=
  checkAndMark (it_chain x) (it_type x) (it_key x) (it_sem x) s.

Lemma claims_refl s : claims_kept s s.
Proof. unfold claims_kept. auto. Qed.

Lemma claims_trans s1 s2 s3 : claims_kept s1 s2 -> claims_kept s2 s3 -> claims_kept s1 s3.
Proof. unfold claims_kept. auto. Qed.

(** The two guards of [once], evaluated. *)
Lemma check_seen_eq x st :
  check_seen (it_chain x) (it_type x) (it_key x) (it_sem x) st =
  (Ok (match (marked x (seenSet st)).1 with Some _ => true | None => false end),
   with_seen st (marked x (seenSet st)).2).
Proof. unfold check_seen, marked. by destruct (checkAndMark _ _ _ _ _). Qed.

Lemma claimEvent_eq key c t st :
  Reconciler.claimEvent key c t st =
  let r := OrdersRepo.claimEvent key (evChain_str c) (eventType_str t) None (db (svc st)) in
  (r.1, with_svc st (Service.with_db (svc st) r.2)).
Proof. unfold Reconciler.claimEvent. rewrite orders_call_eq. unfold Service.claimEvent. by rewrite repo_eq. Qed.

(** The three ways [once] can go. *)
Lemma once_eq x st :
  run_item (Some x) st =
  let st1 := with_seen st (marked x (seenSet st)).2 in
  match (marked x (seenSet st)).1, processed_events (db (svc st)) !! it_key x with
  | None, None =>
      it_body x (with_svc st1 (Service.with_db (svc st)
        (OrdersRepo.claimEvent (it_key x) (evChain_str (it_chain x)) (eventType_str (it_type x)) None (db (svc st))).2))
  | _, _ => (Ok 0, st1)
  end.
Proof.
  cbn [run_item]. unfold once. rewrite (bind_ok _ _ _ _ _ (check_seen_eq x st)).
  destruct (marked x (seenSet st)) as [[c|] s']; [done|]. cbn [fst snd].
  unfold mbind, st_bind. rewrite claimEvent_eq. unfold OrdersRepo.claimEvent. cbn [svc with_seen].
  destruct (processed_events (db (svc st)) !! it_key x); [|done].
  cbn. rewrite with_db_same. by destruct st.
Qed.

(** Processing an event for the first time claims its key. *)
Lemma once_first x st :
  good_body (it_body x) ->
  exists n st', run_item (Some x) st = (Ok n, st') /\ seenSet st' = (marked x (seenSet st)).2 /\
    claims_kept (svc st) (svc st') /\
    ((marked x (seenSet st)).1 = None -> is_Some (processed_events (db (svc st')) !! it_key x)).
Proof.
  intros [Hf Hok]. rewrite once_eq. cbv zeta. destruct (marked x (seenSet st)) as [[c|] s']; cbn [fst snd].
  { eexists _, _. split_and!; [done|done|apply claims_refl|done]. }
  destruct (processed_events (db (svc st)) !! it_key x) as [p|] eqn:Ep.
  { eexists _, _. split_and!; [done|done|apply claims_refl|intros _; cbn; rewrite Ep; eauto]. }
  match goal with |- context [it_body x ?st1] => set (st1' := st1) end.
  pose proof (Hf st1') as Hfr. pose proof (Hok st1') as Hr.
  destruct (it_body x st1') as [[n|e] st2]; [|done]. exists n, st2. split; [done|].
  subst st1'. unfold OrdersRepo.claimEvent in Hfr. rewrite Ep in Hfr.
  unfold frame, svc_ledgers, ledgers in Hfr. cbn in Hfr. injection Hfr as Hseen Hproc _ _.
  split_and!; [done| |].
  - intros k Hk. rewrite Hproc. destruct (decide (k = it_key x)) as [->|Hne];
      [rewrite lookup_insert_eq; eauto|by rewrite lookup_insert_ne].
  - intros _. rewrite Hproc, lookup_insert_eq. eauto.
Qed.

(** Processing it again, when the key is claimed or it was a conflict. *)
Lemma once_again x st :
  ((marked x (seenSet st)).1 = None -> is_Some (processed_events (db (svc st)) !! it_key x)) ->
  run_item (Some x) st = (Ok 0, with_seen st (marked x (seenSet st)).2).
Proof.
  intros Hp. rewrite once_eq. destruct (marked x (seenSet st)) as [[c|] s']; [done|].
  destruct (Hp eq_refl) as [p ->]. done.
Qed.

(** Adding to a count does not change the state or the success. *)
Lemma sum_tail {A} (f : A -> Rec Z) l n st :
  ((sum_each f l ≫= fun m => mret (n + m)) st).2 = (sum_each f l st).2 /\
  is_ok ((sum_each f l ≫= fun m => mret (n + m)) st).1 = is_ok (sum_each f l st).1.
Proof. unfold mbind, st_bind. by destruct (sum_each f l st) as [[]]. Qed.

(** The same event, seen by another pass. *)
Definition same_event (i j : option Item) : Prop :=
  match i, j with
  | Some x, Some y => it_chain y = it_chain x /\ it_type y = it_type x /\ it_key y = it_key x /\ it_sem y = it_sem x
  | None, None => True
  | _, _ => False
  end.

(** The second pass over a list of events. *)
Lemma replay_again items items' st st2 :
  Forall good_item items -> Forall2 same_event items items' -> seenSet st2 = seenSet st ->
  claims_kept (svc (sum_each run_item items st).2) (svc st2) ->
  is_ok (sum_each run_item items st).1 = true /\
  claims_kept (svc st) (svc (sum_each run_item items st).2) /\
  sum_each run_item items' st2 = (Ok 0, with_seen st2 (seenSet (sum_each run_item items st).2)).
Proof.
  intros Hg Hsame. revert st st2 Hg. induction Hsame as [|i j items items' Hij _ IH]; intros st st2 Hg Hseen Hclaims.
  { cbn in *. split_and!; [done|apply claims_refl|]. unfold mret, st_ret. f_equal. rewrite <- Hseen. by destruct st2. }
  apply Forall_cons in Hg as [Hi Hg].
  cbn [sum_each] in *. destruct i as [x|], j as [y|]; try done.
  - destruct (once_first x st Hi) as (n & st1 & E1 & Hs1 & Hc1 & Hk).
    assert (forall s, marked y s = marked x s) as Hm
      by (intros s; unfold marked; by destruct Hij as (-> & -> & -> & ->)).
    rewrite (bind_ok _ _ _ _ _ E1) in Hclaims |- *. destruct (sum_tail run_item items n st1) as [Ht Hto].
    rewrite Ht in Hclaims |- *. rewrite Hto.
    set (st2' := with_seen st2 (marked y (seenSet st2)).2).
    assert (seenSet st2' = seenSet st1) as Hseen' by (subst st2'; cbn; by rewrite Hm, Hseen, Hs1).
    destruct (IH st1 st2' Hg Hseen' Hclaims) as (Hok & Hc & Heq).
    assert (run_item (Some y) st2 = (Ok 0, st2')) as E2.
    { apply once_again. rewrite Hm. destruct Hij as (_ & _ & -> & _). intros Hmm.
      apply Hclaims, Hc, Hk. by rewrite <- Hseen. }
    split_and!; [done|by eapply claims_trans|].
    rewrite (bind_ok _ _ _ _ _ E2), (bind_ok _ _ _ _ _ Heq). done.
  - cbn [run_item] in *. destruct (sum_tail run_item items 0 st) as [Ht Hto].
    rewrite (bind_ok (mret 0 : Rec Z) _ st 0 st eq_refl) in Hclaims |- *. rewrite Ht in Hclaims |- *. rewrite Hto.
    destruct (IH st st2 Hg Hseen Hclaims) as (Hok & Hc & Heq).
    split_and!; [done|done|]. rewrite (bind_ok (mret 0 : Rec Z) _ st2 0 st2 eq_refl), (bind_ok _ _ _ _ _ Heq). done.
Qed.

(** The replays of Ethereum and Soroban events are items. *)
Section Items.
Context {H : Hashes} (cfg : Config) (now : Z).

Definition created_item (log : EthLog) : option Item :=
  match truthy_opt (lg_hashlock log), lg_orderId log with
  | Some lock, Some orderId =>
      Some (mkItem ev_ethereum OrderCreated (eth_key OrderCreated log)
              (semanticKey ev_ethereum OrderCreated lock) (ethCreatedBody cfg now log lock orderId))
  | _, _ => None
  end.

Definition claimed_item (log : EthLog) : option Item :=
  match truthy_id (lg_orderId log), truthy_opt (lg_preimage log) with
  | Some orderId, Some pre =>
      Some (mkItem ev_ethereum OrderClaimed (eth_key OrderClaimed log)
              (semanticKey ev_ethereum OrderClaimed (pretty orderId)) (ethClaimedBody cfg now log orderId pre))
  | _, _ => None
  end.

Definition refunded_item (log : EthLog) : option Item :=
  match truthy_id (lg_orderId log) with
  | Some orderId =>
      Some (mkItem ev_ethereum OrderRefunded (eth_key OrderRefunded log)
              (semanticKey ev_ethereum OrderRefunded (pretty orderId)) (ethRefundedBody cfg now log orderId))
  | None => None
  end.

Definition soroban_item (ev : SorobanEvent) (i : Z) : option Item :=
  match soroban_identity (sv_decoded ev) with
  | Some (t, identifier) =>
      Some (mkItem ev_soroban t (sorobanEventKey t (sv_txHash ev) (sv_ledger ev) i)
              (semanticKey ev_soroban t identifier) (sorobanBody cfg now ev))
  | None => None
  end.

Fixpoint page_items (evs : list SorobanEvent) (i : Z) : list (option Item) :=
  match evs with
  | [] => []
  | ev :: evs' => soroban_item ev i :: page_items evs' (i + 1)
  end.

Definition pass_items (created claimed refunded : list EthLog) (evs : list SorobanEvent) : list (option Item) :=
  (created_item <$> created) ++ (claimed_item <$> claimed) ++ (refunded_item <$> refunded) ++ page_items evs 0.

Lemma pass_items_good created claimed refunded evs : Forall good_item (pass_items created claimed refunded evs).
Proof.
  unfold pass_items. rewrite !Forall_app, !Forall_fmap. split_and!;
    try (apply Forall_forall; intros log _; cbn; unfold created_item, claimed_item, refunded_item;
         repeat case_match; cbn; auto using ethCreatedBody_good, ethClaimedBody_good, ethRefundedBody_good; fail).
  generalize 0. induction evs as [|ev evs IH]; intros i; cbn; constructor; auto.
  unfold soroban_item. repeat case_match; cbn; auto using sorobanBody_good.
Qed.
End Items.

Lemma pass_items_same {H : Hashes} cfg now cfg' now' created claimed refunded evs :
  Forall2 same_event (pass_items cfg now created claimed refunded evs) (pass_items cfg' now' created claimed refunded evs).
Proof.
  unfold pass_items. repeat apply Forall2_app;
    try (apply Forall2_fmap, Forall_Forall2_diag, Forall_forall; intros log _;
         unfold created_item, claimed_item, refunded_item; repeat case_match; cbn; auto; fail).
  generalize 0. induction evs as [|ev evs IH]; intros i; cbn; constructor; auto.
  unfold soroban_item. repeat case_match; by cbn.
Qed.

(** Sums over concatenated and mapped lists. *)
Lemma sum_each_app {A} (f : A -> Rec Z) l1 l2 st :
  sum_each f (l1 ++ l2) st = (n ← sum_each f l1; m ← sum_each f l2; mret (n + m)) st.
Proof.
  revert st. induction l1 as [|x l1 IH]; intros st; cbn [sum_each app].
  - st_unfold. by destruct (sum_each f l2 st) as [[]].
  - unfold mbind, st_bind. destruct (f x st) as [[n|e] st1]; [|done]. rewrite IH. st_unfold.
    destruct (sum_each f l1 st1) as [[n1|e] st2]; [|done].
    destruct (sum_each f l2 st2) as [[n2|e] st3]; [|done]. by rewrite Z.add_assoc.
Qed.

Lemma sum_each_map {A B} (f : B -> Rec Z) (g : A -> B) l st :
  sum_each f (g <$> l) st = sum_each (fun x => f (g x)) l st.
Proof.
  revert st. induction l as [|x l IH]; intros st; [done|]. cbn. unfold mbind, st_bind.
  destruct (f (g x) st) as [[n|e] st1]; [|done]. by rewrite IH.
Qed.

Lemma sum_each_ext {A} (f g : A -> Rec Z) l st : (forall x s, f x s = g x s) -> sum_each f l st = sum_each g l st.
Proof.
  intros E. revert st. induction l as [|x l IH]; intros st; [done|]. cbn. unfold mbind, st_bind. rewrite E.
  destruct (g x st) as [[n|e] st1]; [|done]. by rewrite IH.
Qed.

(** The replays of one pass: the Ethereum logs, then a page of Soroban events. *)
Definition replay_pass {H : Hashes} (cfg : Config) (now : Z) (created claimed refunded : list EthLog)
    (evs : list SorobanEvent) : Rec Z :=
  n1 ← replayEthCreated cfg now created;
  n2 ← replayEthClaimed cfg now claimed;
  n3 ← replayEthRefunded cfg now refunded;
  n4 ← replay_page cfg now evs 0;
  mret (n1 + (n2 + (n3 + n4))).

Lemma replay_pass_items {H : Hashes} cfg now created claimed refunded evs st :
  replay_pass cfg now created claimed refunded evs st = sum_each run_item (pass_items cfg now created claimed refunded evs) st.
Proof.
  assert (forall i s, replay_page cfg now evs i s = sum_each run_item (page_items cfg now evs i) s) as Hp.
  { induction evs as [|ev evs IH]; intros i s; [done|]. cbn [replay_page page_items sum_each]. unfold mbind, st_bind.
    replace (replaySorobanEvent cfg now ev i s) with (run_item (soroban_item cfg now ev i) s)
      by (unfold replaySorobanEvent, soroban_item; by destruct (soroban_identity _) as [[]|]).
    destruct (run_item _ s) as [[n|e] s1]; [|done]. by rewrite IH. }
  unfold pass_items, replay_pass, replayEthCreated, replayEthClaimed, replayEthRefunded.
  rewrite sum_each_app. unfold mbind, st_bind. rewrite sum_each_map.
  rewrite (sum_each_ext (fun x => run_item (created_item cfg now x)) (replayEthCreated1 cfg now))
    by (intros x s; unfold created_item, replayEthCreated1; by repeat case_match).
  destruct (sum_each (replayEthCreated1 cfg now) created st) as [[n1|e] st1]; [|done].
  rewrite sum_each_app. unfold mbind, st_bind. rewrite sum_each_map.
  rewrite (sum_each_ext (fun x => run_item (claimed_item cfg now x)) (replayEthClaimed1 cfg now))
    by (intros x s; unfold claimed_item, replayEthClaimed1; by repeat case_match).
  destruct (sum_each (replayEthClaimed1 cfg now) claimed st1) as [[n2|e] st2]; [|done].
  rewrite sum_each_app. unfold mbind, st_bind. rewrite sum_each_map.
  rewrite (sum_each_ext (fun x => run_item (refunded_item cfg now x)) (replayEthRefunded1 cfg now))
    by (intros x s; unfold refunded_item, replayEthRefunded1; by repeat case_match).
  destruct (sum_each (replayEthRefunded1 cfg now) refunded st2) as [[n3|e] st3]; [|done].
  rewrite <- Hp. by destruct (replay_page cfg now evs 0 st3) as [[n4|e] st4].
Qed.

(** C19.  Replay is idempotent and durable: replay any Ethereum logs and any
    page of Soroban events, let the coordinator do anything afterwards, and
    replay the same events again in a later run - in the same process or, with
    [st'] a fresh reconciler, after a restart: the first pass always returns,
    the second one counts zero events and leaves the database, the history
    cache, the event stream and the audit log exactly as they were. *)
Theorem replay_is_idempotent {H : Hashes} (cfg : Config) (now now' : Z) (created claimed refunded : list EthLog)
    (evs : list SorobanEvent) (cs : list (Z * Call)) (st st' : RState) :
  let fresh x := with_seen x (seen_clear (seenSet x)) in
  let first := replay_pass cfg now created claimed refunded evs (fresh st) in
  let s := OrderServiceSpec.run cfg cs (svc first.2) in
  let second := replay_pass cfg now' created claimed refunded evs (with_svc (fresh st') s) in
  is_ok first.1 = true /\ second.1 = Ok 0 /\ svc second.2 = s.
Proof.
  cbv zeta. rewrite !replay_pass_items.
  set (items := pass_items cfg now created claimed refunded evs).
  set (st0 := with_seen st _). set (st2 := with_svc _ _).
  destruct (replay_again items (pass_items cfg now' created claimed refunded evs) st0 st2) as (Hok & _ & ->);
    [apply pass_items_good|apply pass_items_same|done|apply run_claims|]. done.
Qed.
