(* ===== verification/ReconcilerSafety.v ===== *)
(** * Reconciliation is safe and catches up.

    Whatever the three RPC endpoints answer, a reconciliation run never
    throws, moves orders only along their lifecycle and stores only preimages
    that hash to the order's hashlock; and a lock event of a waiting order is
    applied. *)

From S2P Require Import Prelude OrderMachine TransactionContract OrderRow OrdersRepo OrdersRepoFacts.
From S2P Require Import OrdersRepoSpec HistoryCache Notifications OrderService OrderServiceFacts.
From S2P Require Import OrderServiceSpec Codec SecretCipher SecretService SecretReconciler EventIdentity.
From S2P Require Import LedgerCursor Reconciler ReconcilerSpec.

Import Service.

(** ** The writes a reconciler makes *)

Definition validated_write {H : Hashes} (r r' : OrderDbRow) : Prop := life r r' /\ secret_safe r r'.

Lemma allows_and M Q1 Q2 : AllowsCore M Q1 -> AllowsCore M Q2 -> AllowsCore M (fun r r' => Q1 r r' /\ Q2 r r').
Proof. intros [] []. split; intros; split; eauto. Qed.

#[export] Instance validated_write_allows {H : Hashes} : AllowsCore (fun _ => True) validated_write.
Proof. apply allows_and; [apply _|]. split; intros; by left. Qed.

Section Safe.
Context {H : Hashes} (cfg : Config) (now : Z).

(** From [st], the computation makes only validated writes. *)
Definition safe_at {A} (m : Rec A) (st : RState) : Prop :=
  wf_db (db (svc st)) -> rtc (repo_step validated_write) (db (svc st)) (db (svc (m st).2)).
Definition safe {A} (m : Rec A) : Prop := forall st, safe_at m st.

Lemma safe_quiet {A} (m : Rec A) : keeps (fun st => db (svc st)) m -> safe m.
Proof. intros Hm st _. by rewrite Hm. Qed.

Lemma safe_at_bind {A B} (m : Rec A) (k : A -> Rec B) st :
  safe_at m st -> (forall a, safe (k a)) -> safe_at (m ≫= k) st.
Proof.
  intros Hm Hk Hwf. specialize (Hm Hwf). unfold mbind, st_bind. destruct (m st) as [[a|e] st1]; [|done].
  etrans; [apply Hm|]. apply Hk. by eapply repo_step_wf_rtc.
Qed.

Lemma safe_bind {A B} (m : Rec A) (k : A -> Rec B) : safe m -> (forall a, safe (k a)) -> safe (m ≫= k).
Proof. intros Hm Hk st. by apply safe_at_bind. Qed.

Lemma safe_try {A} (m : Rec A) (h : JsError -> Rec A) : safe m -> (forall e, safe (h e)) -> safe (try_catch m h).
Proof.
  intros Hm Hh st Hwf. specialize (Hm st Hwf). unfold try_catch. destruct (m st) as [[a|e] st1]; [done|].
  etrans; [apply Hm|]. apply Hh. by eapply repo_step_wf_rtc.
Qed.

Lemma safe_sum_each {A} (f : A -> Rec Z) l : (forall x, safe (f x)) -> safe (sum_each f l).
Proof.
  intros Hf. induction l as [|x l IH]; cbn; [by apply safe_quiet|]. apply safe_bind; [done|]. intros n.
  apply safe_bind; [done|]. intros m. by apply safe_quiet.
Qed.

Lemma safe_call {A} (m : Svc A) :
  (forall s, wf_db (db s) -> rtc (repo_step validated_write) (db s) (db (m s).2)) -> safe (orders_call m).
Proof. intros Hm st Hwf. rewrite orders_call_eq. by apply Hm. Qed.

Lemma safe_repo {A} (m : Repo A) :
  (forall d, wf_db d -> repo_step validated_write d (m d).2) -> safe (orders_call (repo m)).
Proof. intros Hm. apply safe_call. intros s Hwf. apply repo_steps. by apply Hm. Qed.

(** The service calls of the reconciler. *)
Lemma safe_srcLock i : safe (orders_call (Service.recordSrcLock cfg now i)).
Proof. apply safe_call. intros s. apply (recordSrcLock_service_steps (fun _ => True) validated_write). Qed.
Lemma safe_mark p s a : safe (orders_call (Service.markStatus cfg now p s a)).
Proof. apply safe_call. intros st. by apply (markStatus_service_steps (fun _ => True) validated_write). Qed.
Lemma safe_advance p c x : safe (advanceOrderCursor now p c x).
Proof.
  unfold advanceOrderCursor. destruct (x <=? 0); [by apply safe_quiet|]. apply safe_repo. intros d _.
  apply advanceOrderLedgerCursor_step, (allows_cursors (M := fun _ => True)).
Qed.
Lemma safe_claim k c t : safe (Reconciler.claimEvent k c t).
Proof. apply safe_repo. intros d _. apply claimEvent_step. Qed.
Lemma safe_read {A} (m : Repo A) : (forall d, (m d).2 = d) -> safe (orders_call (repo m)).
Proof. intros Hm. apply safe_repo. intros d _. rewrite Hm. apply rs_none. Qed.
Lemma safe_seen c t k sm : safe (check_seen c t k sm).
Proof. apply safe_quiet. intros st. unfold check_seen. by destruct (checkAndMark _ _ _ _ _). Qed.
Lemma safe_hashlock h : safe (orders_call (Service.findByHashlock h)).
Proof. by apply safe_read. Qed.
Lemma safe_srcOrder c i : safe (orders_call (Service.findBySrcOrderId c i)).
Proof. by apply safe_read. Qed.
Lemma safe_ret {A} (a : A) : safe (mret a).
Proof. by apply safe_quiet. Qed.
Lemma safe_throw {A} e : safe (A := A) (throw e).
Proof. by apply safe_quiet. Qed.
End Safe.

Create HintDb safe.
#[export] Hint Resolve safe_srcLock safe_mark safe_advance safe_claim safe_seen safe_hashlock safe_srcOrder
  safe_ret safe_throw : safe.

(** Decompose a computation along its binds and tests. *)
Ltac safe_solve :=
  repeat first
    [ solve [auto with safe]
    | apply safe_bind; [|intros ?]
    | apply safe_try; [|intros ?]
    | apply safe_sum_each; intros ?
    | match goal with
      | |- safe (if ?b then _ else _) => destruct b
      | |- safe (match ?x with _ => _ end) => destruct x
      end ].

Section Replays.
Context {H : Hashes} (cfg : Config) (now : Z).

(** A lookup answers a row of the database. *)
Definition row_finder (find : Svc (option OrderRow)) : Prop :=
  forall s, wf_db (db s) -> exists o, find s = (Ok o, s) /\
    match o with
    | Some x => exists r, x = rowToOrder r /\ row_of (public_id r) (db s) = Some r
    | None => True
    end.

Lemma srcOrder_finder c i : row_finder (Service.findBySrcOrderId c i).
Proof.
  intros s Hwf. unfold Service.findBySrcOrderId. rewrite repo_eq. eexists. split; [by rewrite with_db_same|].
  destruct (sql_get _ (orders (db s))) as [r|] eqn:Hr; [|done]. cbn. exists r. split; [done|].
  apply sql_get_Some in Hr as [Hin _]. by apply NoDup_row_of; [apply Hwf|].
Qed.

(** A validated preimage is a safe secret. *)
Lemma safe_at_secret r pre txHash actor st :
  row_of (public_id r) (db (svc st)) = Some r -> is_Some (validatePreimage pre (hashlock r)) ->
  safe_at (orders_call (Service.recordSecret cfg now (public_id r) pre txHash None actor)) st.
Proof.
  intros Hr [a Ha] Hwf. rewrite orders_call_eq. cbn. apply recordSecret_steps_if; [done|].
  intros o n Ho Hp Hl. rewrite Hr in Ho. injection Ho as <-. split.
  - by apply (allows_secret (M := fun _ => True)).
  - right. exists pre. split_and!; [done|done|]. rewrite <- validatePreimage_matches. by rewrite Ha.
Qed.

Lemma safe_find_bind {B} (find : Svc (option OrderRow)) (k : option OrderRow -> Rec B) :
  row_finder find -> safe (k None) ->
  (forall r st, row_of (public_id r) (db (svc st)) = Some r -> safe_at (k (Some (rowToOrder r))) st) ->
  safe (orders_call find ≫= k).
Proof.
  intros Hf Hn Hs st Hwf. destruct (Hf (svc st) Hwf) as (o & E & Hr).
  rewrite (bind_ok _ k st o st) by (rewrite orders_call_eq, E; by destruct st).
  destruct o as [x|]; [|by apply Hn]. destruct Hr as (r & -> & Hr). by apply Hs.
Qed.

Lemma safe_catch ms find c p e : safe (orders_call find) -> safe (catch_applied now ms find c p e).
Proof. intros Hf. unfold catch_applied. safe_solve. Qed.

Lemma safe_catch_solana ms find s k t e : safe (orders_call find) -> safe (catch_solana now ms find s k t e).
Proof. intros Hf. unfold catch_solana, claim_solana. safe_solve. Qed.

Lemma safe_once c t k sm body : safe body -> safe (once c t k sm body).
Proof. intros Hb. unfold once. safe_solve. Qed.
End Replays.

#[export] Hint Resolve safe_catch safe_catch_solana safe_once : safe.

(** The claim of an event: the order was found, so a validated preimage is
    checked against the hashlock of its row. *)
Ltac safe_secret :=
  apply safe_find_bind; [apply srcOrder_finder|solve [safe_solve]|];
  intros r st Hr;
  repeat match goal with
  | |- safe_at (if ?b then _ else _) _ => destruct b; [solve [apply safe_ret || (revert st Hr; intros st _; revert st; safe_solve)]|]
  | |- safe_at (match validatePreimage ?a ?b with _ => _ end) _ => destruct (validatePreimage a b) eqn:Hv
  | |- safe_at (match ?x with _ => _ end) _ => destruct x; [|solve [apply safe_ret]]
  end;
  [ apply safe_at_bind; [by apply safe_at_secret|intros ?; safe_solve]
  | clear Hr; revert st; safe_solve ].

Section ReplaySafety.
Context {H : Hashes} (cfg : Config) (now : Z).

Lemma replayEthCreated_safe logs : safe (replayEthCreated cfg now logs).
Proof. unfold replayEthCreated, replayEthCreated1, ethCreatedBody. safe_solve. Qed.

Lemma replayEthRefunded_safe logs : safe (replayEthRefunded cfg now logs).
Proof. unfold replayEthRefunded, replayEthRefunded1, ethRefundedBody. safe_solve. Qed.

Lemma ethClaimedBody_safe log i pre : safe (ethClaimedBody cfg now log i pre).
Proof. unfold ethClaimedBody. apply safe_try; [|auto with safe]. safe_secret. Qed.

Lemma replayEthClaimed_safe logs : safe (replayEthClaimed cfg now logs).
Proof.
  apply safe_sum_each. intros log. unfold replayEthClaimed1. repeat case_match;
    auto using safe_once, ethClaimedBody_safe with safe.
Qed.

Lemma sorobanBody_safe ev : safe (sorobanBody cfg now ev).
Proof.
  unfold sorobanBody. destruct (sv_decoded ev); [safe_solve..| |safe_solve].
  apply safe_try; [|auto with safe]. safe_secret.
Qed.

Lemma replaySorobanEvent_safe ev i : safe (replaySorobanEvent cfg now ev i).
Proof. unfold replaySorobanEvent. repeat case_match; auto using safe_once, sorobanBody_safe with safe. Qed.

Lemma claim_solana_safe k t n : safe (claim_solana k t n).
Proof. unfold claim_solana. safe_solve. Qed.

#[local] Hint Resolve claim_solana_safe : safe.

Lemma solanaCreated_safe sig slot lock i t : safe (solanaCreated cfg now sig slot lock i t).
Proof. unfold solanaCreated. safe_solve. Qed.

Lemma solanaRefunded_safe sig slot i : safe (solanaRefunded cfg now sig slot i).
Proof. unfold solanaRefunded. safe_solve. Qed.

Lemma solanaClaimed_safe sig slot pre i : safe (solanaClaimed cfg now sig slot pre i).
Proof.
  unfold solanaClaimed. apply safe_bind; [auto with safe|]. intros [|]; [auto with safe|].
  apply safe_try; [|auto with safe]. safe_secret.
Qed.

Lemma replaySolanaLogs_safe json sig lines slot : safe (replaySolanaLogs cfg now json sig lines slot).
Proof.
  unfold replaySolanaLogs. cbv zeta. repeat case_match;
    auto using solanaCreated_safe, solanaRefunded_safe, solanaClaimed_safe with safe.
Qed.
End ReplaySafety.

#[export] Hint Resolve replayEthCreated_safe replayEthClaimed_safe replayEthRefunded_safe replaySorobanEvent_safe
  replaySolanaLogs_safe : safe.

(** ** A run *)

Section RunSafety.
Context {H : Hashes} (cfg : Config) (rc : RecConfig) (now : Z) (json : string -> option SolanaPayload).

Lemma gets_safe {A} (f : RState -> A) : safe (gets f).
Proof. by apply safe_quiet. Qed.

Lemma modify_safe (f : RState -> RState) : (forall st, svc (f st) = svc st) -> safe (modify f).
Proof. intros Hf. apply safe_quiet. intros st. cbn. by rewrite Hf. Qed.

Lemma rpc_safe {A} (a : option A) : safe (rpc a).
Proof. unfold rpc. safe_solve. Qed.

Lemma chainCursor_safe c p : safe (orders_call (Service.setChainCursor now c p)).
Proof. apply safe_repo. intros d _. apply setChainCursor_step. Qed.

Lemma computeFrom_safe c t l : safe (computeFrom c t l).
Proof.
  unfold computeFrom, Service.getChainCursor, Service.getMinActiveOrderCursor.
  safe_solve; by apply safe_read.
Qed.

#[local] Hint Resolve gets_safe rpc_safe chainCursor_safe computeFrom_safe : safe.

Lemma initCursors_safe : safe initCursors.
Proof. unfold initCursors, Service.getChainCursor. safe_solve; try (by apply safe_read). by apply modify_safe. Qed.

Lemma replay_page_safe evs i : safe (replay_page cfg now evs i).
Proof. revert i. induction evs as [|ev evs IH]; intros i; cbn; safe_solve. Qed.

Lemma soroban_pages_safe calls f c i : safe (soroban_pages cfg now calls f c i).
Proof.
  revert c i. induction calls as [|p ps IH]; intros c i; cbn; [auto with safe|].
  apply safe_bind; [apply replay_page_safe|]. intros n. apply safe_bind; [by apply modify_safe|]. intros _. safe_solve.
Qed.

#[local] Hint Resolve initCursors_safe soroban_pages_safe : safe.
#[local] Hint Extern 1 (safe (modify _)) => apply modify_safe; done : safe.

Lemma reconcileEthereum_safe r : safe (reconcileEthereum cfg rc now r).
Proof. unfold reconcileEthereum, computeEthFromBlock. safe_solve. Qed.

Lemma reconcileSoroban_safe r : safe (reconcileSoroban cfg rc now r).
Proof. unfold reconcileSoroban. safe_solve. Qed.

Lemma reconcileSolana_safe r : safe (reconcileSolana cfg rc now json r).
Proof. unfold reconcileSolana, computeSolanaFromSlot, replay_sig. safe_solve. Qed.

Lemma guarded_safe m : safe m -> safe (guarded m).
Proof. intros Hm. unfold guarded. safe_solve. Qed.

Lemma guarded_ok m : ok_always (guarded m).
Proof. by apply ok_try. Qed.

#[local] Hint Resolve reconcileEthereum_safe reconcileSoroban_safe reconcileSolana_safe guarded_safe : safe.

Lemma run_safe e so sl : safe (Reconciler.run cfg rc now json e so sl).
Proof. unfold Reconciler.run. safe_solve. Qed.

Lemma run_ok e so sl : ok_always (Reconciler.run cfg rc now json e so sl).
Proof.
  unfold Reconciler.run. apply ok_bind; [done|]. intros b. apply ok_bind; [by destruct b|]. intros _.
  apply ok_bind; [done|]. intros _. repeat (apply ok_bind; [apply guarded_ok|intros ?]). done.
Qed.
End RunSafety.

Lemma validated_secret {H : Hashes} r r' : rtc (evolves validated_write) r r' -> same_ids r r' /\ secret_safe r r'.
Proof.
  induction 1 as [r|r1 r2 r3 H12 _ [IH1 IH2]]; [split; [done|by left]|].
  destruct H12 as [->|[Hid [_ Hs]]]; [done|].
  split; [by eapply same_ids_trans|by eapply secret_safe_trans].
Qed.

Lemma validated_life {H : Hashes} r r' : rtc (evolves validated_write) r r' -> rtc (evolves life) r r'.
Proof.
  apply rtc_subrel. intros x y [->|[Hid [Hl _]]]; [by left|by right].
Qed.

(** C20.  Reconciliation is safe: in any reachable state of the service and
    whatever the three chains' endpoints answer - forged, reordered or
    repeated events, failed calls -, as long as the pages of Soroban events come to
    an end by a page that is not full, one without a cursor, or a failed call (full
    pages without end would keep the run going for ever), a run completes without
    throwing and records when it ran, keeps every order, moves it only by
    lifecycle writes, leaves an order that was terminal frozen, and changes a
    stored preimage only where there was none and only to a value that hashes
    to the order's hashlock. *)
Theorem reconciliation_is_safe {H : Hashes} (cfg : Config) (cs : list (Z * Call)) (rc : RecConfig) (now : Z)
    (json : string -> option SolanaPayload) (e : EthRpc) (so : SorobanRpc) (sl : SolanaRpc) (st : RState) :
  let st0 := with_svc st (OrderServiceSpec.run cfg cs init) in
  exists st', Reconciler.run cfg rc now json e so sl st0 = (Ok tt, st') /\
    lastRunAt (rstatus st') = Some now /\
    forall publicId r, row_of publicId (db (svc st0)) = Some r ->
      exists r', row_of publicId (db (svc st')) = Some r' /\
        rtc (evolves life) r r' /\ (isTerminal (status r) = true -> frozen r r') /\ secret_safe r r'.
Proof.
  intros st0. assert (wf_db (db (svc st0))) as Hwf by (apply run_wf, wf_emptyDb).
  pose proof (run_ok cfg rc now json e so sl st0) as Hok.
  pose proof (run_safe cfg rc now json e so sl st0 Hwf) as Hs.
  assert (lastRunAt (rstatus (Reconciler.run cfg rc now json e so sl st0).2) = Some now) as Hl.
  { clear Hs. unfold Reconciler.run in *. revert Hok. unfold mbind, st_bind. repeat case_match; by simplify_eq/=. }
  destruct (Reconciler.run cfg rc now json e so sl st0) as [[[]|x] st']; [|done].
  exists st'. split_and!; [done|done|]. intros publicId r Hr.
  destruct (rtc_row _ _ _ publicId r Hs Hwf Hr) as (r' & Hr' & Hev). exists r'. split; [done|].
  split_and!; [by apply validated_life|apply terminal_frozen; by apply validated_life|by apply validated_secret].
Qed.

(** ** The recovery report *)

(** The report a run leaves in its status covers exactly the chains that
    recorded a replay decision, in order.  A row named "soroban" - the name the
    Soroban replay records - has no configured lookback and high-water mark
    zero, so it is never reported beyond its window, whatever the gap; the
    Solana row compares the gap with its lookback. *)
Lemma recovery_report_rows (st : RState) (i : nat) (d : ReplayDecision) :
  decisions (policy st) !! i = Some d ->
  exists row, (Reconciler.buildRecoveryReport st).1 !! i = Some row /\ cs_chain row = rd_chain d /\
    (rd_chain d = "soroban" ->
       cs_hwm row = 0 /\ cs_lookback row = None /\
       cs_lookbackExceeded row = false /\ cs_forcedHistoricalResync row = false) /\
    (forall c, rd_chain d = "solana" -> solanaCursor st = Some c ->
       cs_hwm row = hwm c /\ cs_lookback row = Some SOLANA_LOOKBACK_SLOTS /\
       (cs_lookbackExceeded row = true <-> SOLANA_LOOKBACK_SLOTS < rd_toBlock d - hwm c) /\
       (cs_forcedHistoricalResync row = true <-> 3 * SOLANA_LOOKBACK_SLOTS < rd_toBlock d - hwm c)).
Proof.
  intros Hd. unfold Reconciler.buildRecoveryReport, LedgerCursor.buildRecoveryReport. cbn [fst].
  rewrite !list_lookup_fmap, Hd. cbn [fmap option_fmap option_map]. eexists. split; [done|]. split; [done|]. split.
  - intros ->. done.
  - intros c -> Hc. change (hwmByChain st "solana") with (match solanaCursor st with Some l => hwm l | None => 0 end).
    rewrite Hc. unfold chainSummary, lookback_of, gap_over, FORCED_RESYNC_MULTIPLIER.
    cbn [cs_hwm cs_lookback cs_lookbackExceeded cs_forcedHistoricalResync ci_hwm ci_tip ci_lookback ci_chain].
    change (RECONCILER_LOOKBACKS "solana") with (Some SOLANA_LOOKBACK_SLOTS).
    unfold SOLANA_LOOKBACK_SLOTS. rewrite !Z.ltb_lt. split_and!; [done|done|lia|lia].
Qed.

(** A Soroban gap of a million ledgers, far beyond the forced-resync threshold. *)
Definition far_behind : RState :=
  with_policy (with_soroban (newReconciler init) (Some (mkLedgerCursor 1000000 SOROBAN_LOOKBACK_LEDGERS)) None)
    (recordDecision (buildReplayDecision "soroban" (assess 2000000 (mkLedgerCursor 1000000 SOROBAN_LOOKBACK_LEDGERS)))
       newReplayPolicy).

Lemma recovery_report_rows_witness :
  exists row, (Reconciler.buildRecoveryReport far_behind).1 !! 0%nat = Some row /\
    cs_forcedHistoricalResync row = false.
Proof.
  destruct (recovery_report_rows far_behind 0
    (buildReplayDecision "soroban" (assess 2000000 (mkLedgerCursor 1000000 SOROBAN_LOOKBACK_LEDGERS))) eq_refl)
    as (row & Hr & _ & Hs & _).
  exists row. split; [exact Hr|]. by apply Hs.
Defined.

(** ** Catching up *)

Lemma fresh_event x : (marked x emptySeen).1 = None.
Proof. unfold marked, checkAndMark. cbn [emptySeen dedupKeys semanticKeys]. by rewrite !lookup_empty. Qed.

(** The row after a lock that the service accepts. *)
Lemma srcLock_applied cfg now i s o :
  wf_db (db s) -> row_of (l_publicId i) (db s) = Some o -> src_order_id o = None ->
  lifecycle_accepts (status o) src_locked = true ->
  exists s1 r, Service.recordSrcLock cfg now i s = (Ok tt, s1) /\ wf_db (db s1) /\
    row_of (l_publicId i) (db s1) = Some r /\
    frozen (set_src_lock (Some (l_orderId i)) (Some (l_txHash i)) (Some (l_blockNumber i)) (Some (l_timelock i))
              src_locked (seconds now) o) r.
Proof.
  intros Hwf Ho Hn Ha.
  pose proof (recordSrcLock_service_steps (fun _ => True) life cfg now i s Hwf) as Hs.
  pose proof (recordSrcLock_service cfg now s (l_publicId i) Hwf i eq_refl) as Heq.
  unfold is_dup_src in Heq. rewrite Ho, Hn, Ha, (bool_decide_false (None = Some _)), (bool_decide_true (None = None)) in Heq by done.
  cbn [andb] in Heq.
  rewrite Heq in Hs |- *. apply repo_step_wf_rtc in Hs; [|done]. cbn [snd db after_write] in Hs.
  pose proof (repo_step_wf _ _ _ (run_call_step now (CallRecordSrcLock i) (db s) Hwf) Hwf) as Hwf1.
  pose proof (recordSrcLock_eq now (db s) _ o (wf_public _ Hwf) Ho i eq_refl) as Hw. cbv zeta in Hw.
  rewrite (lifecycle_not_terminal _ _ Ha), (nextLockStatus_accepts _ _ Ha) in Hw.
  cbn [run_call] in Hwf1. rewrite Hw in Hwf1, Hs |- *.
  edestruct (bump_cursor_frozen now (l_publicId i) (src_chain o) (l_blockNumber i)) as (r' & Hr' & Hf);
    [apply Hwf1|by apply (row_of_written now _ o)|].
  eexists _, r'. by split_and!.
Qed.

(** Claiming an event and moving a cursor leave the order frozen. *)
Lemma claimed_db k c e d : wf_db d ->
  wf_db (OrdersRepo.claimEvent k c e None d).2 /\ orders (OrdersRepo.claimEvent k c e None d).2 = orders d.
Proof.
  intros Hwf. split; [by eapply repo_step_wf; [apply (claimEvent_step life)|]|].
  unfold OrdersRepo.claimEvent. by destruct (processed_events d !! k).
Qed.

Lemma advanceOrderCursor_row now p c x st publicId r :
  wf_db (db (svc st)) -> row_of publicId (db (svc st)) = Some r ->
  exists st' r', advanceOrderCursor now p c x st = (Ok tt, st') /\
    row_of publicId (db (svc st')) = Some r' /\ frozen r r'.
Proof.
  intros Hwf Hr. pose proof (advanceOrderCursor_ok now p c x st) as Hok.
  assert (repo_step frozen (db (svc st)) (db (svc (advanceOrderCursor now p c x st).2))) as Hs.
  { unfold advanceOrderCursor. destruct (x <=? 0); [apply rs_none|]. rewrite orders_call_eq.
    unfold Service.advanceOrderLedgerCursor. rewrite repo_eq. by apply advanceOrderLedgerCursor_step. }
  destruct (advanceOrderCursor now p c x st) as [[[]|e] st']; [|done]. exists st'.
  destruct (repo_step_row _ _ _ publicId r (wf_public _ Hwf) Hs Hr) as (r' & Hr' & [->|[_ Hf]]); by eexists.
Qed.

(** Reconciliation catches up: a lock event that the live listener
    missed - its key unclaimed, its block ahead of the order's cursor, its
    numbers safe integers - for an order that waits in [announced], is applied
    by a replay: the replay counts one event and the order is [src_locked]
    with the event's order id, transaction, block and timelock. *)
Lemma replay_applies_lock (cfg : Config) (cs : list (Z * Call)) (now : Z) (st : RState)
    (log : EthLog) (lock : string) (i b t : Z) (r : OrderDbRow) :
  let s := OrderServiceSpec.run cfg cs init in
  lg_hashlock log = Some lock -> lock <> "" -> lg_orderId log = Some i ->
  lg_blockNumber log = Some b -> isSafeInteger b = true -> lg_timelock log = Some t -> isSafeInteger t = true ->
  processed_events (db s) !! eth_key OrderCreated log = None ->
  sql_get (fun r => bool_decide (hashlock r = lock)) (orders (db s)) = Some r ->
  status r = announced -> src_order_id r = None -> src_lock_block r = None ->
  isEventBehindOrderCursor (last_eth_block r) b = false ->
  exists st' r', replayEthCreated cfg now [log] (with_seen (with_svc st s) (seen_clear (seenSet st))) = (Ok 1, st') /\
    row_of (public_id r) (db (svc st')) = Some r' /\ status r' = src_locked /\
    src_order_id r' = Some (pretty i) /\ src_lock_tx r' = Some (eth_tx log) /\
    src_lock_block r' = Some b /\ src_timelock r' = Some t.
Proof.
  intros s Hl Hne Hi Hb Sb Ht St Hp Hr Hst Hn Hbl Hc.
  assert (wf_db (db s)) as Hwf by (apply run_wf, wf_emptyDb).
  set (st0 := with_seen _ _).
  set (item := mkItem ev_ethereum OrderCreated (eth_key OrderCreated log) (semanticKey ev_ethereum OrderCreated lock)
    (ethCreatedBody cfg now log lock i)).
  assert (replayEthCreated1 cfg now log st0 = run_item (Some item) st0) as Hitem.
  { unfold replayEthCreated1. rewrite Hl, Hi. by destruct lock. }
  rewrite once_eq in Hitem. change (seenSet st0) with emptySeen in Hitem. change (svc st0) with s in Hitem.
  rewrite fresh_event in Hitem. cbn [item it_key it_chain it_type it_body] in Hitem. rewrite Hp in Hitem. cbv zeta in Hitem.
  destruct (claimed_db (eth_key OrderCreated log) (evChain_str ev_ethereum) (eventType_str OrderCreated) (db s) Hwf)
    as [Hwf1 Ho1].
  set (d1 := (OrdersRepo.claimEvent _ _ _ None (db s)).2) in *. set (st1 := with_svc _ _) in Hitem.
  assert (row_of (public_id r) d1 = Some r) as Hrow.
  { apply sql_get_Some in Hr as [Hin _]. apply NoDup_row_of; [apply Hwf1|by rewrite Ho1]. }
  assert (exists st' r', ethCreatedBody cfg now log lock i st1 = (Ok 1, st') /\
    row_of (public_id r) (db (svc st')) = Some r' /\
    frozen (set_src_lock (Some (pretty i)) (Some (eth_tx log)) (Some b) (Some t) src_locked (seconds now) r) r')
    as (st' & r' & E & Hrow' & Hf); cycle 1.
  { exists st', r'. destruct Hf as (-> & -> & -> & -> & -> & _). split_and!; try done.
    unfold replayEthCreated. cbn [sum_each]. rewrite E in Hitem. by rewrite (bind_ok _ _ _ _ _ Hitem). }
  destruct (srcLock_applied cfg now (mkLockInput (public_id r) (pretty i) (eth_tx log) b t None (Some "reconciler"))
    (svc st1) r Hwf1 Hrow Hn) as (s2 & r2 & E2 & Hwf2 & Hrow2 & Hf2); [by rewrite Hst|]. cbn in Hrow2, Hf2.
  destruct (advanceOrderCursor_row now (public_id r) ethereum b (with_svc st1 s2) (public_id r) r2 Hwf2 Hrow2)
    as (st3 & r3 & E3 & Hrow3 & Hf3).
  exists st3, r3. split_and!; [|done|by eapply frozen_trans].
  unfold ethCreatedBody, try_catch.
  rewrite (bind_ok _ _ st1 (Some (rowToOrder r)) st1).
  2:{ rewrite orders_call_eq. unfold Service.findByHashlock. rewrite repo_eq. cbn. rewrite Ho1, Hr. done. }
  assert (eth_block log = Some b) as -> by (unfold eth_block, safeToNumber; rewrite Hb; cbn; by rewrite Sb).
  cbn [rowToOrder o_lastEthBlock o_srcLockBlock o_srcOrderId o_publicId]. rewrite Hc, Hn, Hbl.
  unfold decideDispatch. rewrite (bool_decide_true (None = None)), bool_decide_false by done. cbn [negb andb fst].
  unfold safeToNumber. rewrite Ht, St.
  assert (orders_call (Service.recordSrcLock cfg now (mkLockInput (public_id r) (pretty i) (eth_tx log) b t None
    (Some "reconciler"))) st1 = (Ok tt, with_svc st1 s2)) as E2' by (by rewrite orders_call_eq, E2).
  rewrite (bind_ok _ _ _ _ _ E2'), (bind_ok _ _ _ _ _ E3). done.
Qed.

Definition announced_calls : list (Z * Call) := [(1000, CAnnounce demo_input)].
Definition demo_log : EthLog :=
  mkEthLog (Some 7) (Some demo_hashlock) (Some 90000) None (Some 0) (Some "0xt1") (Some 100).

Lemma replay_applies_lock_witness :
  exists r st' r', row_of demo_id (db (OrderServiceSpec.run demo_cfg announced_calls init)) = Some r /\
    replayEthCreated demo_cfg 2000 [demo_log]
      (with_seen (with_svc (newReconciler init) (OrderServiceSpec.run demo_cfg announced_calls init)) emptySeen) = (Ok 1, st') /\
    row_of demo_id (db (svc st')) = Some r' /\ status r' = src_locked.
Proof.
  destruct (sql_get (fun r => bool_decide (hashlock r = demo_hashlock))
    (orders (db (OrderServiceSpec.run demo_cfg announced_calls init)))) as [r|] eqn:Hr; [|by vm_compute in Hr].
  assert (status r = announced /\ src_order_id r = None /\ src_lock_block r = None /\ last_eth_block r = None /\
    public_id r = demo_id /\ row_of demo_id (db (OrderServiceSpec.run demo_cfg announced_calls init)) = Some r)
    as (E1 & E2 & E3 & E4 & E5 & E6) by (vm_compute in Hr; injection Hr as <-; by vm_compute).
  destruct (replay_applies_lock demo_cfg announced_calls 2000 (newReconciler init) demo_log
    demo_hashlock 7 100 90000 r) as (st' & r' & A1 & A2 & A3 & _); try done; [by rewrite E4|].
  exists r, st', r'. rewrite E5 in A2. by split_and!.
Defined.

(** An event that arrives before its order is announced: on Ethereum its key
    is claimed first, so later replays skip it and the order stays
    [announced]; on Solana the key is claimed after the order was found, so a
    later replay applies it. *)
Definition early_then_late (replay1 : Rec Z) : option OrderStatus :=
  let st1 := (replay1 (newReconciler init)).2 in
  let s2 := OrderServiceSpec.run demo_cfg announced_calls (svc st1) in
  status <$> row_of demo_id (db (svc (replay1 (newReconciler s2)).2)).

Example early_event_lost_on_ethereum :
  early_then_late (replayEthCreated demo_cfg 2000 [demo_log]) = Some announced /\
  early_then_late (solanaCreated demo_cfg 2000 "sig" 100 demo_hashlock "7" None) = Some src_locked.
Proof. by vm_compute. Qed.
