(* ===== verification/SseBroker.v ===== *)
(** * The event stream (coordinator/src/sse/sse-broker.ts).

    [SseBroker] keeps the open streams of every order and a replay buffer for
    clients that reconnect.  A response handle is a shared object: it lives in
    a store under its identity, and the registry holds identities, as the
    source's [Map<string, Set<handle>>] holds references.  The text of a frame
    is kept as the event it serialises.  The registry is an association list
    in insertion order, as a JavaScript [Map] is. *)

From stdpp Require Import sorting.
From S2P Require Import Prelude OrderMachine OrderRow Notifications.

Definition MAX_SUBSCRIBERS : Z := 1000.
Definition REPLAY_BUFFER_SIZE : nat := 50.

Record SseEvent : Type := mkSseEvent { se_id : Z; se_payload : SsePayload }.

Inductive Frame : Type :=
| EventFrame (e : SseEvent)
| PingFrame.

(** A response handle: whether it was ended, whether the connection is gone
    (so that a write throws), and what was written. *)
Record Handle : Type := mkHandle { writableEnded : bool; gone : bool; chunks : list Frame }.

Record Broker : Type := mkBroker {
  registry : list (string * list nat);
  replayBuffers : gmap string (list SseEvent);
  counters : gmap string Z;
  subscriberCount : Z;
  handles : gmap nat Handle;
  nextHandle : nat;                          (** identity of the next response *)
  listeners : list (nat * string);           (** [handle.on("close", cleanup)] *)
  published : list (string * SseEvent);      (** calls of [redisAdapter.publish] *)
  keepAlive : bool
}.

Definition newBroker : Broker := mkBroker [] ∅ ∅ 0 ∅ 0 [] [] true.

Abbreviation Sse := (ST Broker JsError).

Definition with_registry (r : list (string * list nat)) (n : Z) (b : Broker) : Broker :=
  mkBroker r (replayBuffers b) (counters b) n (handles b) (nextHandle b) (listeners b) (published b) (keepAlive b).
Definition with_buffers (rb : gmap string (list SseEvent)) (cs : gmap string Z) (b : Broker) : Broker :=
  mkBroker (registry b) rb cs (subscriberCount b) (handles b) (nextHandle b) (listeners b) (published b) (keepAlive b).
Definition with_handles (hs : gmap nat Handle) (b : Broker) : Broker :=
  mkBroker (registry b) (replayBuffers b) (counters b) (subscriberCount b) hs (nextHandle b) (listeners b)
    (published b) (keepAlive b).

(** ** JavaScript maps and sets *)

Fixpoint reg_get (o : string) (r : list (string * list nat)) : option (list nat) :=
  match r with
  | [] => None
  | (k, v) :: r' => if bool_decide (k = o) then Some v else reg_get o r'
  end.

Fixpoint reg_set (o : string) (v : list nat) (r : list (string * list nat)) : list (string * list nat) :=
  match r with
  | [] => [(o, v)]
  | (k, w) :: r' => if bool_decide (k = o) then (k, v) :: r' else (k, w) :: reg_set o v r'
  end.

Definition reg_delete (o : string) (r : list (string * list nat)) : list (string * list nat) :=
  List.filter (fun e => negb (bool_decide (e.1 = o))) r.

Definition set_add (h : nat) (s : list nat) : list nat := if bool_decide (h ∈ s) then s else s ++ [h].
Definition set_delete (h : nat) (s : list nat) : list nat := List.filter (fun x => negb (bool_decide (x = h))) s.

(** ** Handles *)

Definition broken_pipe : JsError := PlainError None "write after the connection was lost".

Definition handle_write (h : nat) (f : Frame) : Sse unit := fun b =>
  match handles b !! h with
  | None => (Ok tt, b)
  | Some x =>
      if gone x then (Throw broken_pipe, b)
      else if writableEnded x then (Ok tt, b)
      else (Ok tt, with_handles (<[h := mkHandle false false (chunks x ++ [f])]> (handles b)) b)
  end.

Definition handle_end (h : nat) : Sse unit :=
  modify (fun b => with_handles (alter (fun x => mkHandle true (gone x) (chunks x)) h (handles b)) b).

Definition is_ended (h : nat) (b : Broker) : bool :=
  match handles b !! h with Some x => writableEnded x | None => true end.

(** ** The broker *)

Definition nextId (orderId : string) : Sse Z := fun b =>
  let next := default 0 (counters b !! orderId) + 1 in
  (Ok next, with_buffers (replayBuffers b) (<[orderId := next]> (counters b)) b).

(** [splice] keeps the newest entries. *)
Definition trim (buf : list SseEvent) : list SseEvent :=
  if (REPLAY_BUFFER_SIZE <? length buf)%nat then drop (length buf - REPLAY_BUFFER_SIZE) buf else buf.

Definition pushToReplayBuffer (orderId : string) (e : SseEvent) : Sse unit :=
  modify (fun b =>
    let buf := default [] (replayBuffers b !! orderId) in
    with_buffers (<[orderId := trim (buf ++ [e])]> (replayBuffers b)) (counters b) b).

Definition replay (now : Z) (orderId : string) (h : nat) (lastEventId : Z) : Sse unit :=
  buf ← gets (fun b => default [] (replayBuffers b !! orderId));
  match buf with
  | [] => mret tt
  | oldest :: _ =>
      if lastEventId + 1 <? se_id oldest then
        gapId ← nextId orderId;
        handle_write h (EventFrame (mkSseEvent gapId (buildReplayGapPayload now orderId)))
      else
        for_each (fun e =>
          ended ← gets (is_ended h);
          if ended : bool then mret tt else handle_write h (EventFrame e))
          (List.filter (fun e => lastEventId <? se_id e) buf)
  end.

(** Removal of a handle from an order's set, with the count. *)
Definition drop_handle (orderId : string) (h : nat) : Sse unit :=
  modify (fun b =>
    match reg_get orderId (registry b) with
    | Some hs =>
        if bool_decide (h ∈ hs)
        then with_registry (reg_set orderId (set_delete h hs) (registry b)) (Z.max 0 (subscriberCount b - 1)) b
        else b
    | None => b
    end).

(** The [cleanup] closure of a subscription. *)
Definition cleanup (orderId : string) (h : nat) : Sse unit :=
  modify (fun b =>
    match reg_get orderId (registry b) with
    | Some hs =>
        if negb (bool_decide (h ∈ hs)) then b
        else
          let hs' := set_delete h hs in
          let r := if bool_decide (hs' = []) then reg_delete orderId (registry b)
                   else reg_set orderId hs' (registry b) in
          with_registry r (Z.max 0 (subscriberCount b - 1)) b
    | None => b
    end).

Definition subscribe (now : Z) (orderId : string) (h : nat) (lastEventId : option Z) : Sse bool :=
  count ← gets subscriberCount;
  if MAX_SUBSCRIBERS <=? count then mret false
  else
    _ ← modify (fun b =>
          let hs := default [] (reg_get orderId (registry b)) in
          let b1 := with_registry (reg_set orderId (set_add h hs) (registry b)) (subscriberCount b + 1) b in
          mkBroker (registry b1) (replayBuffers b1) (counters b1) (subscriberCount b1) (handles b1) (nextHandle b1)
            (listeners b1 ++ [(h, orderId)]) (published b1) (keepAlive b1));
    match lastEventId with
    | Some l => _ ← replay now orderId h l; mret true
    | None => mret true
    end.

Definition isTerminalStatus (st : string) : bool :=
  bool_decide (st = "completed") || bool_decide (st = "refunded") || bool_decide (st = "failed").

Definition terminal_event (p : SsePayload) : bool :=
  bool_decide (ev_event p ∈ ["OrderRefunded"; "shutdown"]) ||
  (bool_decide (ev_event p = "StatusChanged") &&
   match ev_data p with StatusChangedData _ st _ _ => isTerminalStatus st | _ => false end).

(** Delivery to one handle of the snapshot [Array.from(handles)]. *)
Definition deliver (orderId : string) (e : SseEvent) (h : nat) : Sse unit :=
  ended ← gets (is_ended h);
  if ended : bool then drop_handle orderId h
  else try_catch
    (_ ← handle_write h (EventFrame e);
     if terminal_event (se_payload e) then _ ← handle_end h; drop_handle orderId h else mret tt)
    (fun _ => drop_handle orderId h).

Definition broadcastLocal (orderId : string) (e : SseEvent) : Sse unit :=
  found ← gets (fun b => reg_get orderId (registry b));
  match found with
  | None | Some [] => mret tt
  | Some hs =>
      _ ← for_each (deliver orderId e) hs;
      _ ← modify (fun b =>
            if bool_decide (reg_get orderId (registry b) = Some [])
            then with_registry (reg_delete orderId (registry b)) (subscriberCount b) b else b);
      modify (fun b =>
        if terminal_event (se_payload e) && bool_decide (reg_get orderId (registry b) = None)
        then with_buffers (delete orderId (replayBuffers b)) (delete orderId (counters b)) b else b)
  end.

Definition broadcast (redis : bool) (orderId : string) (p : SsePayload) : Sse unit :=
  id ← nextId orderId;
  let e := mkSseEvent id p in
  _ ← pushToReplayBuffer orderId e;
  _ ← broadcastLocal orderId e;
  if redis then
    modify (fun b => mkBroker (registry b) (replayBuffers b) (counters b) (subscriberCount b) (handles b)
                       (nextHandle b) (listeners b) (published b ++ [(orderId, e)]) (keepAlive b))
  else mret tt.

Definition shutdown_one (now : Z) (orderId : string) (h : nat) : Sse unit :=
  ended ← gets (is_ended h);
  if ended : bool then mret tt
  else
    id ← nextId orderId;
    try_catch
      (_ ← handle_write h (EventFrame (mkSseEvent id (buildShutdownPayload now))); handle_end h)
      (fun _ => mret tt).

Definition shutdown (now : Z) : Sse unit :=
  r ← gets registry;
  _ ← for_each (fun e : string * list nat => for_each (shutdown_one now e.1) e.2) r;
  modify (fun b => mkBroker [] (replayBuffers b) (counters b) 0 (handles b) (nextHandle b) (listeners b)
                     (published b) false).

(** A tick of the keep-alive timer. *)
Definition keep_alive : Sse unit :=
  alive ← gets keepAlive;
  if alive : bool then
    r ← gets registry;
    for_each (fun e : string * list nat =>
      for_each (fun h =>
        ended ← gets (is_ended h);
        if ended : bool then mret tt else handle_write h PingFrame) e.2) r
  else mret tt.

(** ** What happens to a broker *)

Inductive SseOp : Type :=
| OConnect (now : Z) (orderId : string) (lastEventId : option Z)   (** a client opens a stream *)
| OClose (h : nat)                                                 (** its "close" event *)
| OLost (h : nat)                                                  (** its connection is gone *)
| OBroadcast (orderId : string) (p : SsePayload)
| ORemote (orderId : string) (e : SseEvent)                        (** a message of the Redis adapter *)
| OTick
| OShutdown (now : Z).

(** A request brings its own response handle. *)
Definition connect (now : Z) (orderId : string) (lastEventId : option Z) : Sse bool :=
  h ← gets nextHandle;
  _ ← modify (fun b => mkBroker (registry b) (replayBuffers b) (counters b) (subscriberCount b)
                (<[h := mkHandle false false []]> (handles b)) (S h) (listeners b) (published b) (keepAlive b));
  subscribe now orderId h lastEventId.

Definition set_gone (h : nat) : Sse unit :=
  modify (fun b => with_handles (alter (fun x => mkHandle (writableEnded x) true (chunks x)) h (handles b)) b).

Definition on_close (h : nat) : Sse unit :=
  _ ← set_gone h;
  ls ← gets listeners;
  for_each (fun l : nat * string => cleanup l.2 l.1) (List.filter (fun l => bool_decide (l.1 = h)) ls).

Definition sse_op (redis : bool) (op : SseOp) (b : Broker) : Broker :=
  match op with
  | OConnect now o l => (connect now o l b).2
  | OClose h => (on_close h b).2
  | OLost h => (set_gone h b).2
  | OBroadcast o p => (broadcast redis o p b).2
  | ORemote o e => (broadcastLocal o e b).2
  | OTick => (keep_alive b).2
  | OShutdown now => (shutdown now b).2
  end.

Definition sse_run (redis : bool) (ops : list SseOp) : Broker -> Broker := fold_left (fun b op => sse_op redis op b) ops.

(** ** Registry facts *)

(** Every registered handle. *)
Definition subs (r : list (string * list nat)) : list nat := concat (snd <$> r).

#[local] Arguments subs : simpl never.

Lemma subs_cons e r : subs (e :: r) = e.2 ++ subs r.
Proof. done. Qed.

Lemma subs_app r1 r2 : subs (r1 ++ r2) = subs r1 ++ subs r2.
Proof. unfold subs. by rewrite fmap_app, concat_app. Qed.

Lemma reg_get_split o r hs :
  reg_get o r = Some hs ->
  exists r1 r2, r = r1 ++ (o, hs) :: r2 /\ o ∉ (fst <$> r1) /\ forall v, reg_set o v r = r1 ++ (o, v) :: r2.
Proof.
  induction r as [|[k w] r IH]; [done|]. cbn. case_bool_decide as E.
  - intros [= ->]. subst k. exists [], r. split_and!; [done|set_solver|done].
  - intros H. destruct (IH H) as (r1 & r2 & -> & Hn & Hs). exists ((k, w) :: r1), r2.
    split_and!; [done|set_solver|]. intros v. by rewrite Hs.
Qed.

Lemma reg_get_none o r : reg_get o r = None -> o ∉ (fst <$> r) /\ forall v, reg_set o v r = r ++ [(o, v)].
Proof.
  induction r as [|[k w] r IH]; [split; [set_solver|done]|]. cbn. case_bool_decide as E; [done|].
  intros H. destruct (IH H) as [Hn Hs]. split; [set_solver|]. intros v. by rewrite Hs.
Qed.

Lemma reg_delete_notin o r : o ∉ (fst <$> r) -> reg_delete o r = r.
Proof.
  unfold reg_delete. induction r as [|[k w] r IH]; [done|]. intros Hn. cbn. rewrite bool_decide_false by set_solver.
  cbn. by rewrite IH by set_solver.
Qed.

Lemma reg_delete_split o r1 hs r2 :
  NoDup (fst <$> (r1 ++ (o, hs) :: r2)) -> reg_delete o (r1 ++ (o, hs) :: r2) = r1 ++ r2.
Proof.
  rewrite fmap_app. cbn. intros (_ & H1 & [H2 _]%NoDup_cons)%NoDup_app. unfold reg_delete.
  rewrite List.filter_app. cbn. rewrite bool_decide_true by done. cbn. fold (reg_delete o r1) (reg_delete o r2).
  rewrite !reg_delete_notin; [done|done|set_solver].
Qed.

Lemma reg_get_in_split o r1 hs r2 : o ∉ (fst <$> r1) -> reg_get o (r1 ++ (o, hs) :: r2) = Some hs.
Proof.
  induction r1 as [|[k w] r1 IH]; cbn; intros Hn; [by rewrite bool_decide_true|].
  rewrite bool_decide_false by set_solver. apply IH. set_solver.
Qed.

Lemma reg_get_notin o r : o ∉ (fst <$> r) -> reg_get o r = None.
Proof. induction r as [|[k w] r IH]; [done|]. intros Hn. cbn. rewrite bool_decide_false by set_solver. apply IH. set_solver. Qed.

Lemma set_delete_perm h s : NoDup s -> h ∈ s -> h :: set_delete h s ≡ₚ s.
Proof.
  induction s as [|x s IH]; [set_solver|]. intros [Hx Hnd]%NoDup_cons Hin. cbn. case_bool_decide as E.
  - subst x. cbn. f_equiv. clear -Hx. induction s as [|y s IH]; [done|]. cbn.
    rewrite bool_decide_false by set_solver. cbn. by rewrite IH by set_solver.
  - cbn. rewrite Permutation_swap, IH; [done|done|set_solver].
Qed.

(** ** The invariant *)

Definition buf_ok (counter : Z) (buf : list SseEvent) : Prop :=
  (length buf <= REPLAY_BUFFER_SIZE)%nat /\
  StronglySorted (fun x y => se_id x < se_id y) buf /\
  Forall (fun e => 1 <= se_id e <= counter) buf.

Record core (b : Broker) : Prop := {
  core_keys : NoDup (fst <$> registry b);
  core_once : NoDup (subs (registry b));
  core_fresh : Forall (fun h => h < nextHandle b)%nat (subs (registry b));
  core_count : subscriberCount b = Z.of_nat (length (subs (registry b)));
  core_cap : subscriberCount b <= MAX_SUBSCRIBERS;
  core_pos : forall o, 0 <= default 0 (counters b !! o);
  core_bufs : forall o buf, replayBuffers b !! o = Some buf -> buf_ok (default 0 (counters b !! o)) buf
}.

Definition no_empty (b : Broker) : Prop := Forall (fun e => e.2 <> []) (registry b).

(** What preserves the invariant. *)
Definition pres {A} (m : Sse A) : Prop := forall b, core b -> core (m b).2.

Lemma pres_bind {A B} (m : Sse A) (k : A -> Sse B) : pres m -> (forall a, pres (k a)) -> pres (m ≫= k).
Proof.
  intros Hm Hk b Hb. unfold mbind, st_bind. specialize (Hm b Hb). destruct (m b) as [[a|e] b1]; [by apply Hk|done].
Qed.
Lemma pres_try {A} (m : Sse A) h : pres m -> (forall e, pres (h e)) -> pres (try_catch m h).
Proof. intros Hm Hh b Hb. unfold try_catch. specialize (Hm b Hb). destruct (m b) as [[a|e] b1]; [done|by apply Hh]. Qed.
Lemma pres_for_each {A} (f : A -> Sse unit) l : (forall x, pres (f x)) -> pres (for_each f l).
Proof. intros Hf. induction l as [|x l IH]; [by intros b|]. by apply pres_bind. Qed.
Lemma pres_ret {A} (a : A) : pres (mret a).
Proof. by intros b. Qed.
Lemma pres_gets {A} (f : Broker -> A) : pres (gets f).
Proof. by intros b. Qed.

(** A change of handles only. *)
Lemma core_handles hs b : core b -> core (with_handles hs b).
Proof. by intros []. Qed.

Lemma pres_write h f : pres (handle_write h f).
Proof.
  intros b Hb. unfold handle_write. destruct (handles b !! h) as [x|]; [|done].
  destruct (gone x); [done|]. destruct (writableEnded x); [done|]. by apply core_handles.
Qed.
Lemma pres_end h : pres (handle_end h).
Proof. intros b Hb. by apply core_handles. Qed.
Lemma pres_gone h : pres (set_gone h).
Proof. intros b Hb. by apply core_handles. Qed.

Lemma counter_next b orderId o :
  default 0 (counters b !! o) <= default 0 (<[orderId := default 0 (counters b !! orderId) + 1]> (counters b) !! o).
Proof.
  destruct (decide (o = orderId)) as [->|Hne]; [rewrite lookup_insert_eq; cbn; lia|by rewrite lookup_insert_ne].
Qed.

Lemma buf_ok_mono c c' buf : c <= c' -> buf_ok c buf -> buf_ok c' buf.
Proof. intros Hc (H1 & H2 & H3). split_and!; [done|done|]. eapply Forall_impl; [done|]. cbn. lia. Qed.

Lemma pres_nextId o : pres (nextId o).
Proof.
  intros b []. split; try done; cbn.
  - intros o'. etrans; [apply core_pos0|apply counter_next].
  - intros o' buf Hb. eapply buf_ok_mono; [apply counter_next|by apply core_bufs0].
Qed.

Create HintDb sse.
#[export] Hint Resolve pres_ret pres_gets pres_write pres_end pres_gone pres_nextId : sse.

Ltac pres_solve :=
  repeat first
    [ solve [auto with sse]
    | apply pres_bind; [|intros ?]
    | apply pres_try; [|intros ?]
    | apply pres_for_each; intros ?
    | match goal with
      | |- pres (if ?b then _ else _) => destruct b
      | |- pres (match ?x with _ => _ end) => destruct x
      end ].

Lemma pres_replay now o h l : pres (replay now o h l).
Proof. unfold replay. pres_solve. Qed.
Lemma pres_tick : pres keep_alive.
Proof. unfold keep_alive. pres_solve. Qed.

#[local] Arguments reg_delete : simpl never.
#[local] Arguments reg_set : simpl never.
#[local] Arguments reg_get : simpl never.

(** Removing one handle from one set. *)
Lemma remove_one r1 o hs r2 h n :
  let r := r1 ++ (o, hs) :: r2 in
  let r' := r1 ++ (o, set_delete h hs) :: r2 in
  NoDup (subs r) -> h ∈ hs -> Forall (fun x => x < n)%nat (subs r) ->
  NoDup (subs r') /\ Forall (fun x => x < n)%nat (subs r') /\ length (subs r) = S (length (subs r')).
Proof.
  intros r r' Hnd Hin Hlt.
  assert (NoDup hs) as Hhs.
  { unfold r in Hnd. rewrite subs_app, subs_cons in Hnd. apply NoDup_app in Hnd as (_ & _ & Hnd).
    by apply NoDup_app in Hnd as (? & _). }
  assert (subs r ≡ₚ h :: subs r') as Hp.
  { unfold r, r'. rewrite !subs_app, !subs_cons. cbn [snd]. rewrite <- (set_delete_perm h hs) at 1 by done. cbn.
    by rewrite <- Permutation_middle. }
  rewrite Hp in Hnd, Hlt. apply NoDup_cons in Hnd as [_ Hnd]. apply Forall_cons in Hlt as [_ Hlt].
  split_and!; [done|done|]. by rewrite Hp.
Qed.

Lemma keys_set r1 (o : string) (hs v : list nat) r2 : fst <$> (r1 ++ (o, v) :: r2) = fst <$> (r1 ++ (o, hs) :: r2).
Proof. by rewrite !fmap_app. Qed.

Lemma pres_drop o h : pres (drop_handle o h).
Proof.
  intros b Hb. unfold drop_handle, modify. cbn. destruct (reg_get o (registry b)) as [hs|] eqn:E; [|done].
  case_bool_decide as Hin; [|done]. destruct Hb.
  destruct (reg_get_split _ _ _ E) as (r1 & r2 & Er & _ & Es). rewrite Es. rewrite Er in *.
  destruct (remove_one r1 o hs r2 h (nextHandle b)) as (H1 & H2 & H3); [done..|].
  split; cbn; try done; [by rewrite (keys_set _ _ hs)|lia|unfold MAX_SUBSCRIBERS in *; lia].
Qed.

(** An empty set can be dropped from the registry. *)
Lemma core_delete_empty b o :
  core b -> reg_get o (registry b) = Some [] -> core (with_registry (reg_delete o (registry b)) (subscriberCount b) b).
Proof.
  intros [] E. destruct (reg_get_split _ _ _ E) as (r1 & r2 & Er & _ & _).
  assert (subs (reg_delete o (registry b)) = subs (registry b)) as Hs.
  { rewrite Er. rewrite reg_delete_split by (by rewrite <- Er). by rewrite !subs_app. }
  split; cbn; rewrite ?Hs; try done. rewrite Er, reg_delete_split by (by rewrite <- Er).
  rewrite Er, fmap_app in core_keys0. cbn in core_keys0. rewrite fmap_app.
  apply NoDup_app in core_keys0 as (K1 & K2 & [_ K3]%NoDup_cons). apply NoDup_app. split_and!; [done|set_solver|done].
Qed.

Lemma pres_cleanup o h : pres (cleanup o h).
Proof.
  intros b Hb. pose proof (pres_drop o h b Hb) as Hd. unfold cleanup, drop_handle, modify in *. cbn in *.
  destruct (reg_get o (registry b)) as [hs|] eqn:E; [|done]. destruct (bool_decide (h ∈ hs)); [|done]. cbn.
  case_bool_decide as He; [|done].
  destruct (reg_get_split _ _ _ E) as (r1 & r2 & Er & Hn & Es).
  apply core_delete_empty with (o := o) in Hd; cbn in *; [|rewrite Es, He; by apply reg_get_in_split].
  rewrite Es, reg_delete_split in Hd by (rewrite (keys_set _ _ hs), <- Er; apply Hb).
  by rewrite Er, reg_delete_split by (rewrite <- Er; apply Hb).
Qed.

Lemma pres_deliver o e h : pres (deliver o e h).
Proof. unfold deliver. pose proof pres_drop. pres_solve. Qed.

Lemma pres_broadcastLocal o e : pres (broadcastLocal o e).
Proof.
  unfold broadcastLocal. apply pres_bind; [auto with sse|]. intros [[|h hs]|]; [auto with sse| |auto with sse].
  apply pres_bind; [apply pres_for_each; intros x; apply pres_deliver|]. intros _. apply pres_bind.
  - intros b Hb. cbn. case_bool_decide; [by apply core_delete_empty|done].
  - intros _ b []. cbn. destruct (_ && _); [|done]. split; cbn; try done.
    + intros o'. destruct (decide (o' = o)) as [->|]; [by rewrite lookup_delete_eq|by rewrite lookup_delete_ne].
    + intros o' buf. destruct (decide (o' = o)) as [->|]; [by rewrite lookup_delete_eq|].
      rewrite !lookup_delete_ne by done. apply core_bufs0.
Qed.

(** A stamped event is newer than the buffer. *)
Lemma trim_eq buf e :
  (length buf <= REPLAY_BUFFER_SIZE)%nat ->
  trim (buf ++ [e]) = (if (length buf <? REPLAY_BUFFER_SIZE)%nat then buf else drop 1 buf) ++ [e].
Proof.
  intros Hl. unfold trim. rewrite length_app. change (length [e]) with 1%nat.
  destruct (Nat.ltb_spec REPLAY_BUFFER_SIZE (length buf + 1)), (Nat.ltb_spec (length buf) REPLAY_BUFFER_SIZE); try lia.
  - replace (length buf + 1 - REPLAY_BUFFER_SIZE)%nat with 1%nat by lia. apply drop_app_le.
    unfold REPLAY_BUFFER_SIZE in *. lia.
  - done.
Qed.

Lemma buf_ok_push c buf p : 0 <= c -> buf_ok c buf -> buf_ok (c + 1) (trim (buf ++ [mkSseEvent (c + 1) p])).
Proof.
  intros Hc (H1 & H2 & H3). rewrite trim_eq by done.
  assert (exists k, (if (length buf <? REPLAY_BUFFER_SIZE)%nat then buf else drop 1 buf) = drop k buf /\
    (length (drop k buf) < REPLAY_BUFFER_SIZE)%nat) as (k & -> & Hk).
  { destruct (Nat.ltb_spec (length buf) REPLAY_BUFFER_SIZE).
    - exists 0%nat. by rewrite drop_0.
    - exists 1%nat. split; [done|]. rewrite length_drop. unfold REPLAY_BUFFER_SIZE in *. lia. }
  rewrite <- (take_drop k buf) in H2, H3. apply StronglySorted_app_1_r in H2. apply Forall_app in H3 as [_ H3].
  split_and!.
  - rewrite length_app. cbn. lia.
  - apply StronglySorted_app. split_and!; [|done|by repeat constructor].
    intros x y Hx Hy. apply list_elem_of_singleton in Hy as ->. rewrite Forall_forall in H3. specialize (H3 x Hx). cbn. lia.
  - apply Forall_app. split; [eapply Forall_impl; [done|]; cbn; lia|]. repeat constructor; cbn; lia.
Qed.

(** The state in which an event is delivered. *)
Definition next_id (o : string) (b : Broker) : Z := default 0 (counters b !! o) + 1.

Definition stamped (o : string) (p : SsePayload) (b : Broker) : Broker :=
  with_buffers (<[o := trim (default [] (replayBuffers b !! o) ++ [mkSseEvent (next_id o b) p])]> (replayBuffers b))
    (<[o := next_id o b]> (counters b)) b.

(** A broadcast delivers, and then at most records a publication. *)
Lemma broadcast_local redis o p b :
  let b1 := (broadcastLocal o (mkSseEvent (next_id o b) p) (stamped o p b)).2 in
  exists pub, (broadcast redis o p b).2 =
    mkBroker (registry b1) (replayBuffers b1) (counters b1) (subscriberCount b1) (handles b1) (nextHandle b1)
      (listeners b1) pub (keepAlive b1).
Proof.
  intros b1. unfold broadcast. rewrite (bind_ok (nextId o) _ b (next_id o b) _ eq_refl). cbv zeta.
  set (e := mkSseEvent (next_id o b) p) in *.
  rewrite (bind_ok (pushToReplayBuffer o e) _ _ tt (stamped o p b)); [|unfold pushToReplayBuffer, stamped, modify; cbn; done].
  subst b1. unfold mbind, st_bind. destruct (broadcastLocal o e (stamped o p b)) as [[[]|x] b1]; cbn.
  - destruct redis; cbn; [by eexists|]. exists (published b1). by destruct b1.
  - exists (published b1). by destruct b1.
Qed.

Lemma core_stamped o p b : core b -> core (stamped o p b).
Proof.
  intros Hb. pose proof (pres_nextId o b Hb) as []. split; cbn in *; try done.
  intros o' buf. destruct (decide (o' = o)) as [->|Hne].
  - rewrite lookup_insert_eq. intros [= <-]. rewrite lookup_insert_eq. cbn. apply buf_ok_push; [apply Hb|].
    destruct (replayBuffers b !! o) as [buf|] eqn:Eb; cbn; [by apply Hb|]. split_and!; [cbn; lia|constructor|constructor].
  - rewrite lookup_insert_ne by done. apply core_bufs0.
Qed.

Lemma pres_broadcast redis o p : pres (broadcast redis o p).
Proof.
  intros b Hb. destruct (broadcast_local redis o p b) as [pub ->].
  pose proof (pres_broadcastLocal o (mkSseEvent (next_id o b) p) _ (core_stamped o p b Hb)) as []. by split.
Qed.

(** A request before and after its registration. *)
Definition opened (b : Broker) : Broker :=
  mkBroker (registry b) (replayBuffers b) (counters b) (subscriberCount b)
    (<[nextHandle b := mkHandle false false []]> (handles b)) (S (nextHandle b)) (listeners b) (published b) (keepAlive b).

Definition registered (o : string) (b : Broker) : Broker :=
  mkBroker (reg_set o (set_add (nextHandle b) (default [] (reg_get o (registry b)))) (registry b))
    (replayBuffers b) (counters b) (subscriberCount b + 1)
    (<[nextHandle b := mkHandle false false []]> (handles b)) (S (nextHandle b))
    (listeners b ++ [(nextHandle b, o)]) (published b) (keepAlive b).

Lemma connect_eq now o l b :
  connect now o l b =
  if MAX_SUBSCRIBERS <=? subscriberCount b then (Ok false, opened b)
  else match l with
       | Some k => (_ ← replay now o (nextHandle b) k; mret true) (registered o b)
       | None => (Ok true, registered o b)
       end.
Proof.
  unfold connect, subscribe. unfold mbind at 1 2 3, st_bind, gets, modify.
  cbn [fst snd subscriberCount registry replayBuffers counters handles nextHandle listeners published keepAlive].
  destruct (MAX_SUBSCRIBERS <=? subscriberCount b); [done|]. by destruct l.
Qed.

Lemma registered_core o b : core b -> subscriberCount b < MAX_SUBSCRIBERS -> core (registered o b).
Proof.
  intros [] Hc. set (h := nextHandle b) in *.
  assert (h ∉ subs (registry b)) as Hh.
  { intros Hin. rewrite Forall_forall in core_fresh0. specialize (core_fresh0 h Hin). cbn in *. lia. }
  assert (NoDup (fst <$> registry (registered o b)) /\ subs (registry (registered o b)) ≡ₚ h :: subs (registry b)) as [Hk Hp].
  { unfold registered. cbn [registry]. fold h. destruct (reg_get o (registry b)) as [hs|] eqn:E; cbn [default].
    - destruct (reg_get_split _ _ _ E) as (r1 & r2 & Er & Hn & Es). rewrite Es.
      split; [rewrite (keys_set _ _ hs), <- Er; done|]. rewrite Er, !subs_app, !subs_cons. cbn [snd]. unfold set_add.
      change (default [] (Some hs)) with hs.
      rewrite bool_decide_false by (intros Hin; apply Hh; rewrite Er, subs_app, subs_cons; set_solver).
      rewrite <- app_assoc. cbn. rewrite (app_assoc (subs r1)), <- Permutation_middle. by rewrite <- app_assoc.
    - destruct (reg_get_none _ _ E) as [Hn Es]. rewrite Es. split.
      + rewrite fmap_app. apply NoDup_app. split_and!; [done|set_solver|cbn; apply NoDup_singleton].
      + rewrite subs_app. unfold set_add. change (default [] (None : option (list nat))) with (@nil nat).
        rewrite bool_decide_false by set_solver. change (subs [(o, [] ++ [h])]) with [h].
        by rewrite <- Permutation_cons_append. }
  split; rewrite ?Hp; try done; cbn [nextHandle registered subscriberCount].
  - by constructor.
  - constructor; [fold h; lia|]. eapply Forall_impl; [done|]. cbn. fold h. lia.
  - cbn [length]. lia.
  - lia.
Qed.

Lemma pres_connect now o l : pres (connect now o l).
Proof.
  intros b Hb. rewrite connect_eq. destruct (MAX_SUBSCRIBERS <=? subscriberCount b) eqn:Ec.
  { destruct Hb. split; try done. cbn. eapply Forall_impl; [done|]. cbn. lia. }
  bools. assert (core (registered o b)) as Hr by (apply registered_core; [done|lia]).
  destruct l; [|done]. apply pres_bind; auto using pres_replay with sse.
Qed.

Lemma pres_shutdown now : pres (shutdown now).
Proof.
  unfold shutdown. apply pres_bind; [auto with sse|]. intros r. apply pres_bind.
  - unfold shutdown_one. pres_solve.
  - intros _ b []. split; cbn; try done; constructor.
Qed.

Lemma pres_close h : pres (on_close h).
Proof. unfold on_close. pose proof pres_cleanup. pres_solve. Qed.

Lemma sse_op_core redis op b : core b -> core (sse_op redis op b).
Proof.
  destruct op; cbn [sse_op].
  - apply pres_connect.
  - apply pres_close.
  - apply pres_gone.
  - apply pres_broadcast.
  - apply pres_broadcastLocal.
  - apply pres_tick.
  - apply pres_shutdown.
Qed.

Lemma core_new : core newBroker.
Proof. split; cbn; try done; try constructor; try (by intros; rewrite lookup_empty). Qed.

(** ** Orders without streams leave the registry *)

Lemma reg_get_set o o' v r : reg_get o' (reg_set o v r) = if bool_decide (o' = o) then Some v else reg_get o' r.
Proof.
  unfold reg_get, reg_set. induction r as [|[k w] r IH]; cbn.
  - repeat case_bool_decide; congruence.
  - destruct (decide (k = o)) as [->|Hk].
    + rewrite (bool_decide_true (o = o)) by done. cbn. repeat case_bool_decide; congruence.
    + rewrite (bool_decide_false (k = o)) by done. cbn. rewrite IH. repeat case_bool_decide; congruence.
Qed.

Lemma reg_get_delete o o' r : reg_get o' (reg_delete o r) = if bool_decide (o' = o) then None else reg_get o' r.
Proof.
  unfold reg_get, reg_delete. induction r as [|[k w] r IH]; cbn; [by case_bool_decide|].
  destruct (decide (k = o)) as [->|Hk].
  - rewrite (bool_decide_true (o = o)) by done. cbn. rewrite IH. repeat case_bool_decide; congruence.
  - rewrite (bool_decide_false (k = o)) by done. cbn. rewrite IH. repeat case_bool_decide; congruence.
Qed.

Definition occupied (b : Broker) : Prop := forall o, reg_get o (registry b) <> Some [].

Lemma keeps_registry_write h f : keeps registry (handle_write h f).
Proof.
  intros b. unfold handle_write. destruct (handles b !! h) as [x|]; [|done].
  destruct (gone x); [done|]. by destruct (writableEnded x).
Qed.
Lemma keeps_registry_end h : keeps registry (handle_end h).
Proof. by intros b. Qed.
Lemma keeps_registry_nextId o : keeps registry (nextId o).
Proof. by intros b. Qed.
#[local] Hint Resolve keeps_registry_write keeps_registry_end keeps_registry_nextId : keeps.

Lemma keeps_registry_replay now o h l : keeps registry (replay now o h l).
Proof. unfold replay. keeps_solve. Qed.

(** Delivery to the streams of one order leaves the other orders alone. *)
Lemma keeps_other o o' e h : o' <> o -> keeps (fun b => reg_get o' (registry b)) (deliver o e h).
Proof.
  intros Hne. assert (keeps (fun b => reg_get o' (registry b)) (drop_handle o h)) as Hd.
  { intros b. unfold drop_handle, modify. cbn. destruct (reg_get o (registry b)) as [hs|]; [|done].
    case_bool_decide; [|done]. cbn. by rewrite reg_get_set, bool_decide_false. }
  assert (forall f, keeps (fun b => reg_get o' (registry b)) (handle_write h f)) as Hw
    by (intros f b; cbn; by rewrite keeps_registry_write).
  assert (keeps (fun b => reg_get o' (registry b)) (handle_end h)) as He by (by intros b).
  unfold deliver. keeps_solve.
Qed.

Lemma broadcastLocal_occupied o e b : occupied b -> occupied (broadcastLocal o e b).2.
Proof.
  intros Hb. unfold broadcastLocal. rewrite (bind_ok (gets _) _ b _ b eq_refl).
  destruct (reg_get o (registry b)) as [[|h hs]|] eqn:E; [done| |done].
  destruct (for_each (deliver o e) (h :: hs) b) as [r b1] eqn:Ef.
  assert (forall o', o' <> o -> reg_get o' (registry b1) = reg_get o' (registry b)) as Hother.
  { intros o' Hne. pose proof (keeps_for_each (fun b => reg_get o' (registry b)) (deliver o e) (h :: hs)) as Hk.
    specialize (Hk (fun x => keeps_other o o' e x Hne) b). by rewrite Ef in Hk. }
  destruct r as [[]|x]; cycle 1.
  { exfalso. assert (ok : forall l b, is_ok (for_each (deliver o e) l b).1 = true); [|by specialize (ok (h :: hs) b); rewrite Ef in ok].
    clear. induction l as [|x l IH]; intros b; [done|]. cbn [for_each]. unfold mbind, st_bind.
    assert (is_ok (deliver o e x b).1 = true) as Hx; [|by destruct (deliver o e x b) as [[[]|] b1]; [apply IH|]].
    unfold deliver. rewrite (bind_ok (gets _) _ b _ b eq_refl). destruct (is_ended x b); [done|].
    unfold try_catch. by match goal with |- context [match ?m with _ => _ end] => destruct m as [[[]|] ?] end. }
  rewrite (bind_ok _ _ _ _ _ Ef). unfold mbind, st_bind, modify. cbn [fst snd].
  set (b2 := if bool_decide _ then _ else b1). assert (occupied b2) as H2; [|by destruct (_ && _)].
  intros o'. subst b2. destruct (decide (o' = o)) as [->|Hne].
  - case_bool_decide as Eb; [cbn|done]. by rewrite reg_get_delete, bool_decide_true.
  - case_bool_decide as Eb; [cbn; rewrite reg_get_delete, bool_decide_false by done|]; rewrite Hother by done; apply Hb.
Qed.

Lemma same_registry_occupied b b' : registry b' = registry b -> occupied b -> occupied b'.
Proof. unfold occupied. by intros ->. Qed.

Lemma cleanup_occupied o h b : occupied b -> occupied (cleanup o h b).2.
Proof.
  intros Hb. unfold cleanup, modify. cbn. destruct (reg_get o (registry b)) as [hs|] eqn:E; [|done].
  destruct (bool_decide (h ∈ hs)); [|done]. cbn. intros o'. cbn. case_bool_decide as He; cbn.
  - rewrite reg_get_delete. case_bool_decide; [done|apply Hb].
  - rewrite reg_get_set. case_bool_decide; [congruence|apply Hb].
Qed.

Lemma sse_op_occupied redis op b : occupied b -> occupied (sse_op redis op b).
Proof.
  intros Hb. destruct op as [now o l|h|h|o p|o e| |now]; cbn [sse_op].
  - rewrite connect_eq. destruct (_ <=? _); [done|].
    assert (occupied (registered o b)) as Hr.
    { intros o'. cbn. rewrite reg_get_set. case_bool_decide; [|apply Hb]. unfold set_add. case_bool_decide; [|by destruct (default _ _)].
      intros [= Hd]. rewrite Hd in *. set_solver. }
    destruct l; [|done]. eapply same_registry_occupied; [|apply Hr].
    apply (keeps_bind registry); [apply keeps_registry_replay|by intros; intros ?].
  - unfold on_close. unfold mbind, st_bind. cbn. generalize (List.filter (fun l => bool_decide (l.1 = h)) (listeners b)).
    intros ls. match goal with |- occupied (for_each _ _ ?b1).2 => assert (occupied b1) as Hg by done; revert Hg; generalize b1 end.
    clear. induction ls as [|[x o] ls IH]; intros b1 Hb1; [done|]. cbn [for_each].
    rewrite (bind_ok (cleanup o x) _ b1 tt _ eq_refl). apply IH, (cleanup_occupied o x b1 Hb1).
  - done.
  - destruct (broadcast_local redis o p b) as [pub ->]. by apply (broadcastLocal_occupied o _ (stamped o p b)).
  - by apply broadcastLocal_occupied.
  - eapply same_registry_occupied; [|done]. unfold keep_alive. apply (keeps_bind registry); [done|]. intros [|]; [|done]. keeps_solve.
  - unfold shutdown. rewrite (bind_ok (gets _) _ b _ b eq_refl). unfold mbind, st_bind.
    destruct (for_each _ _ b) as [[[]|x] b1] eqn:Ef; cbn; [done|].
    eapply same_registry_occupied; [|apply Hb].
    assert (keeps registry (for_each (fun e : string * list nat => for_each (shutdown_one now e.1) e.2) (registry b))) as Hk
      by (unfold shutdown_one; keeps_solve).
    specialize (Hk b). by rewrite Ef in Hk.
Qed.

Lemma sse_run_ok redis ops b : core b -> occupied b -> core (sse_run redis ops b) /\ occupied (sse_run redis ops b).
Proof.
  revert b. induction ops as [|op ops IH]; intros b Hb Ho; [done|]. cbn.
  apply IH; [by apply sse_op_core|by apply sse_op_occupied].
Qed.

(** C21.  The broker's books are right and bounded: whatever clients connect,
    disconnect or lose their connection and whatever is broadcast, the
    subscriber count is the number of registered streams and never exceeds
    [MAX_SUBSCRIBERS]; no stream is registered twice and no order is kept
    without a stream; a connection is refused exactly when the cap is reached;
    and each replay buffer holds at most fifty events with strictly increasing
    ids. *)
Theorem broker_bounded (redis : bool) (ops : list SseOp) :
  let b := sse_run redis ops newBroker in
  subscriberCount b = Z.of_nat (length (subs (registry b))) /\ subscriberCount b <= MAX_SUBSCRIBERS /\
  NoDup (subs (registry b)) /\ (forall o, reg_get o (registry b) <> Some []) /\
  (forall now o l, (connect now o l b).1 = Ok false <-> subscriberCount b = MAX_SUBSCRIBERS) /\
  (forall o buf, replayBuffers b !! o = Some buf ->
     (length buf <= 50)%nat /\ StronglySorted (fun x y => se_id x < se_id y) buf).
Proof.
  destruct (sse_run_ok redis ops newBroker core_new) as [Hc Ho]; [by intros o|].
  intros b. fold b in Hc, Ho. clearbody b. destruct Hc.
  split_and!; try done.
  - intros now o l. rewrite connect_eq. destruct (MAX_SUBSCRIBERS <=? subscriberCount b) eqn:E; bools.
    + split; [intros _; lia|done].
    + split; [|lia]. destruct l; [|done]. unfold mbind, st_bind.
      by destruct (replay now o (nextHandle b) z (registered o b)) as [[[]|] ?].
  - intros o buf Hb. by destruct (core_bufs0 o buf Hb) as (? & ? & _).
Qed.

(** ** Reconnecting *)

(** The events of consecutive broadcasts, numbered from [k + 1]. *)
Fixpoint stamp_from (k : Z) (ps : list SsePayload) : list SseEvent :=
  match ps with
  | [] => []
  | p :: ps' => mkSseEvent (k + 1) p :: stamp_from (k + 1) ps'
  end.

Definition broadcasts (redis : bool) (o : string) (ps : list SsePayload) (b : Broker) : Broker :=
  sse_run redis (OBroadcast o <$> ps) b.

Definition counter_of (o : string) (b : Broker) : Z := default 0 (counters b !! o).
Definition buffer_of (o : string) (b : Broker) : list SseEvent := default [] (replayBuffers b !! o).

(** An event that does not end the stream leaves buffers and counters alone. *)
Lemma broadcastLocal_open o e b :
  terminal_event (se_payload e) = false ->
  replayBuffers (broadcastLocal o e b).2 = replayBuffers b /\ counters (broadcastLocal o e b).2 = counters b.
Proof.
  intros Ht. set (g := fun b => (replayBuffers b, counters b)).
  assert (keeps g (broadcastLocal o e)) as Hk; [|specialize (Hk b); unfold g in Hk; by injection Hk].
  assert (forall h, keeps g (drop_handle o h)) as Hd.
  { intros h b'. unfold drop_handle, modify. cbn. destruct (reg_get o (registry b')) as [hs|]; [|done]. by case_bool_decide. }
  assert (forall h f, keeps g (handle_write h f)) as Hw.
  { intros h f b'. unfold handle_write. destruct (handles b' !! h) as [x|]; [|done].
    destruct (gone x); [done|]. by destruct (writableEnded x). }
  assert (forall h, keeps g (handle_end h)) as He by (by intros h b').
  unfold broadcastLocal, deliver. rewrite Ht. keeps_solve; intros b'; cbn; by try case_bool_decide.
Qed.

Lemma broadcast_next redis o p b :
  terminal_event p = false ->
  counter_of o (broadcast redis o p b).2 = counter_of o b + 1 /\
  buffer_of o (broadcast redis o p b).2 = trim (buffer_of o b ++ [mkSseEvent (counter_of o b + 1) p]).
Proof.
  intros Ht. destruct (broadcast_local redis o p b) as [pub ->]. unfold counter_of, buffer_of. cbn.
  destruct (broadcastLocal_open o (mkSseEvent (next_id o b) p) (stamped o p b) Ht) as [-> ->]. cbn.
  by rewrite !lookup_insert_eq.
Qed.

(** A buffer after pushing [es] to a buffer within its size: the newest fifty. *)
Definition newest (es : list SseEvent) : list SseEvent := drop (length es - REPLAY_BUFFER_SIZE) es.

Lemma trim_newest es : trim es = newest es.
Proof.
  unfold trim, newest. destruct (Nat.ltb_spec REPLAY_BUFFER_SIZE (length es)); [done|].
  by replace (length es - REPLAY_BUFFER_SIZE)%nat with 0%nat by lia.
Qed.

Lemma newest_app es e : newest (newest es ++ [e]) = newest (es ++ [e]).
Proof.
  unfold newest. rewrite !length_app, length_drop. change (length [e]) with 1%nat.
  destruct (Nat.le_gt_cases (length es) REPLAY_BUFFER_SIZE).
  - replace (length es - REPLAY_BUFFER_SIZE)%nat with 0%nat by lia. rewrite drop_0. do 2 f_equal. lia.
  - rewrite !drop_app_le by (rewrite ?length_drop; unfold REPLAY_BUFFER_SIZE in *; lia).
    rewrite drop_drop. do 2 f_equal. unfold REPLAY_BUFFER_SIZE in *. lia.
Qed.

Lemma broadcasts_next redis o ps b :
  Forall (fun p => terminal_event p = false) ps -> (length (buffer_of o b) <= REPLAY_BUFFER_SIZE)%nat ->
  counter_of o (broadcasts redis o ps b) = counter_of o b + Z.of_nat (length ps) /\
  buffer_of o (broadcasts redis o ps b) = newest (buffer_of o b ++ stamp_from (counter_of o b) ps).
Proof.
  intros Hps. revert b. induction Hps as [|p ps Hp _ IH]; intros b Hl; cbn.
  { rewrite app_nil_r. unfold newest. replace (length (buffer_of o b) - REPLAY_BUFFER_SIZE)%nat with 0%nat by lia.
    split; [lia|done]. }
  destruct (broadcast_next redis o p b Hp) as [Hc Hb]. rewrite trim_newest in Hb.
  destruct (IH (broadcast redis o p b).2) as [IH1 IH2].
  { rewrite Hb. unfold newest. rewrite length_drop. lia. }
  unfold broadcasts, sse_run in IH1, IH2 |- *. cbn [fmap list_fmap fold_left sse_op]. rewrite IH1, IH2, Hc, Hb.
  split; [lia|]. clear. generalize (stamp_from (counter_of o b + 1) ps) as l. intros l.
  set (e := mkSseEvent _ p). rewrite (app_assoc (buffer_of o b) [e] l : buffer_of o b ++ e :: l = _).
  generalize (buffer_of o b ++ [e]) as es. induction l as [|x l IH] using rev_ind; intros es.
  - rewrite !app_nil_r. unfold newest. rewrite length_drop, drop_drop. f_equal. lia.
  - rewrite !app_assoc, <- newest_app, IH. apply newest_app.
Qed.

Lemma stamp_ids k ps : Forall (fun e => k < se_id e) (stamp_from k ps).
Proof.
  revert k. induction ps as [|p ps IH]; intros k; constructor; [cbn; lia|].
  eapply Forall_impl; [apply IH|]. cbn. lia.
Qed.

Lemma stamp_length k ps : length (stamp_from k ps) = length ps.
Proof. revert k. induction ps as [|p ps IH]; intros k; [done|]. cbn. by rewrite IH. Qed.

Lemma stamp_drop m k ps : drop m (stamp_from k ps) = stamp_from (k + Z.of_nat m) (drop m ps).
Proof.
  revert k ps. induction m as [|m IH]; intros k ps; [rewrite !drop_0; f_equal; lia|].
  destruct ps as [|p ps]; [done|]. cbn [stamp_from drop]. rewrite IH. f_equal. lia.
Qed.

(** What a client that saw everything up to [k] finds in the buffer. *)
Lemma newest_split k buf ps :
  Forall (fun e => se_id e <= k) buf -> (length buf <= REPLAY_BUFFER_SIZE)%nat ->
  let l := newest (buf ++ stamp_from k ps) in
  if (length ps <=? REPLAY_BUFFER_SIZE)%nat then
    List.filter (fun e => k <? se_id e) l = stamp_from k ps /\
    match l with oldest :: _ => (k + 1 <? se_id oldest) = false | [] => True end
  else exists oldest l', l = oldest :: l' /\ (k + 1 <? se_id oldest) = true.
Proof.
  intros Hold Hlen. unfold newest. rewrite length_app, stamp_length.
  destruct (Nat.leb_spec (length ps) REPLAY_BUFFER_SIZE) as [Hn|Hn].
  - set (j := (length buf + length ps - REPLAY_BUFFER_SIZE)%nat). rewrite drop_app_le by lia.
    assert (Forall (fun e => se_id e <= k) (drop j buf)) as Hd by (by apply Forall_drop).
    split.
    + rewrite List.filter_app. assert (List.filter (fun e => k <? se_id e) (drop j buf) = []) as ->.
      { induction Hd as [|e es He _ IH]; [done|]. cbn. destruct (k <? se_id e) eqn:E; [bools; lia|done]. }
      pose proof (stamp_ids k ps) as Hs. cbn. induction Hs as [|e es He _ IH]; [done|]. cbn.
      destruct (k <? se_id e) eqn:E; [by rewrite IH|bools; lia].
    + destruct Hd as [|e es He _]; cbn; [|apply Z.ltb_ge; lia]. destruct ps; cbn; [done|apply Z.ltb_ge; lia].
  - rewrite drop_app_ge by lia. rewrite stamp_drop.
    set (m := (_ - length buf)%nat). destruct (drop m ps) as [|p ps'] eqn:Ed.
    { apply (f_equal length) in Ed. rewrite length_drop in Ed. cbn in Ed. unfold m, REPLAY_BUFFER_SIZE in *. lia. }
    eexists _, _. split; [done|]. cbn. apply Z.ltb_lt. unfold m, REPLAY_BUFFER_SIZE in *. lia.
Qed.

Lemma write_all h es b ch :
  handles b !! h = Some (mkHandle false false ch) ->
  exists b', for_each (fun e => ended ← gets (is_ended h); if ended : bool then mret tt else handle_write h (EventFrame e))
               es b = (Ok tt, b') /\
    handles b' !! h = Some (mkHandle false false (ch ++ (EventFrame <$> es))).
Proof.
  revert b ch. induction es as [|e es IH]; intros b ch Hh.
  { exists b. cbn. by rewrite app_nil_r. }
  cbn [for_each]. destruct (IH (with_handles (<[h := mkHandle false false (ch ++ [EventFrame e])]> (handles b)) b)
    (ch ++ [EventFrame e])) as (b' & E & Hb'); [cbn; by rewrite lookup_insert_eq|].
  exists b'. split; [|by rewrite Hb', <- app_assoc].
  assert ((ended ← gets (is_ended h); if ended : bool then mret tt else handle_write h (EventFrame e)) b =
    (Ok tt, with_handles (<[h := mkHandle false false (ch ++ [EventFrame e])]> (handles b)) b)) as Hstep.
  { rewrite (bind_ok (gets _) _ b _ b eq_refl). unfold is_ended. rewrite Hh. cbn [writableEnded]. unfold handle_write. by rewrite Hh. }
  rewrite (bind_ok _ _ _ _ _ Hstep). exact E.
Qed.

(** C22.  Reconnecting clients miss nothing silently: a client that saw every
    event of an order up to the last id, misses the broadcasts [ps] (none of
    them ending the stream) and reconnects with that id as Last-Event-ID,
    receives exactly the missed events, in order, under the ids they were
    broadcast with - or, when more than fifty were missed, one [replay-gap]
    notice and nothing else. *)
Theorem reconnect_exact (redis : bool) (ops : list SseOp) (o : string) (ps : list SsePayload) (now : Z) :
  let b := sse_run redis ops newBroker in
  let k := counter_of o b in
  let b1 := broadcasts redis o ps b in
  Forall (fun p => terminal_event p = false) ps -> subscriberCount b1 < MAX_SUBSCRIBERS ->
  exists b2, connect now o (Some k) b1 = (Ok true, b2) /\
    handles b2 !! nextHandle b1 = Some (mkHandle false false (EventFrame <$>
      (if (length ps <=? 50)%nat then stamp_from k ps
       else [mkSseEvent (k + Z.of_nat (length ps) + 1) (buildReplayGapPayload now o)]))).
Proof.
  intros b k b1 Hps Hcap. destruct (sse_run_ok redis ops newBroker core_new) as [Hb _]; [by intros o'|]. fold b in Hb.
  assert (buf_ok k (buffer_of o b)) as (Hl & _ & Hids).
  { unfold buffer_of, k, counter_of. destruct (replayBuffers b !! o) as [buf|] eqn:E; cbn; [by apply Hb|].
    split_and!; [cbn; lia|constructor|constructor]. }
  destruct (broadcasts_next redis o ps b Hps Hl) as [Hc Hbuf]. fold b1 k in Hc, Hbuf.
  assert (handles (registered o b1) !! nextHandle b1 = Some (mkHandle false false [])) as Hh by (cbn; by rewrite lookup_insert_eq).
  pose proof (newest_split k (buffer_of o b) ps) as Hsplit. rewrite <- Hbuf in Hsplit.
  specialize (Hsplit ltac:(eapply Forall_impl; [exact Hids|cbn; lia]) Hl). cbv zeta in Hsplit.
  change (replayBuffers b1) with (replayBuffers (registered o b1)) in Hsplit.
  rewrite connect_eq. destruct (MAX_SUBSCRIBERS <=? subscriberCount b1) eqn:Ec; [bools; lia|].
  unfold replay. change REPLAY_BUFFER_SIZE with 50%nat in Hsplit.
  assert (forall B (g : list SseEvent -> Sse B),
    (gets (fun b => default [] (replayBuffers b !! o)) ≫= g) (registered o b1) = g (buffer_of o b1) (registered o b1)) as Hget by done.
  unfold mbind at 1, st_bind at 1. rewrite Hget. destruct (length ps <=? 50)%nat.
  - destruct Hsplit as [Hf Hold]. destruct (write_all (nextHandle b1) (stamp_from k ps) (registered o b1) [] Hh) as (b2 & E & Hb2).
    exists b2. split; [|exact Hb2]. destruct (buffer_of o b1) as [|oldest l] eqn:El.
    + cbn in Hf. rewrite <- Hf in E. cbn in E. by injection E as <-.
    + rewrite Hold, Hf, E. done.
  - destruct Hsplit as (oldest & l & El & Hg). rewrite El, Hg.
    assert (exists b3, nextId o (registered o b1) = (Ok (k + Z.of_nat (length ps) + 1), b3) /\
      handles b3 = handles (registered o b1)) as (b3 & En & Hh3).
    { exists (nextId o (registered o b1)).2. split; [|done]. unfold nextId. cbv zeta. change (counters (registered o b1)) with (counters b1).
      change (default 0 (counters b1 !! o)) with (counter_of o b1). rewrite Hc. reflexivity. }
    rewrite (bind_ok _ _ _ _ _ En). clear En.
    unfold handle_write. rewrite Hh3, Hh. cbn [gone writableEnded chunks]. eexists. split; [done|].
    cbn. by rewrite lookup_insert_eq.
Qed.

Definition demo_ops : list SseOp :=
  [OConnect 0 "o" None; OBroadcast "o" (buildStatusChangedPayload 1 "o" "src_locked" None); OClose 0].
Definition demo_missed : list SsePayload :=
  [buildStatusChangedPayload 2 "o" "dst_locked" None; buildSecretRevealedPayload 3 "o" "0xpre" None].

Lemma reconnect_exact_witness :
  exists b2, connect 9 "o" (Some 1) (broadcasts false "o" demo_missed (sse_run false demo_ops newBroker)) = (Ok true, b2) /\
    handles b2 !! 1%nat = Some (mkHandle false false (EventFrame <$> stamp_from 1 demo_missed)).
Proof.
  destruct (reconnect_exact false demo_ops "o" demo_missed 9) as (b2 & E & Hb2).
  - by repeat constructor.
  - by vm_compute.
  - exists b2. split; [exact E|exact Hb2].
Defined.

(** With Redis the broker also receives the messages it published itself:
    the subscribers of the publishing instance get each event twice. *)
Example own_message_delivered_twice :
  let e := mkSseEvent 1 (buildStatusChangedPayload 1 "o" "src_locked" None) in
  let b := sse_run true [OConnect 0 "o" None; OBroadcast "o" (se_payload e)] newBroker in
  published b = [("o", e)] /\
  handles (sse_run true (uncurry ORemote <$> published b) b) !! 0%nat =
    Some (mkHandle false false [EventFrame e; EventFrame e]).
Proof. by vm_compute. Qed.

(** A terminal event without subscribers leaves its buffer in memory. *)
Example buffer_kept_without_subscribers :
  length <$> replayBuffers (sse_run false [OBroadcast "o" (buildOrderRefundedPayload 1 "o" None)] newBroker) !! "o" = Some 1%nat.
Proof. by vm_compute. Qed.
