(* ===== verification/FileStore.v ===== *)
(** * Disk-backed stores of the relayer

    Five stores of the relayer (refund ledger, proof ledger, settlement
    failures, transaction states, idempotency records) keep a [Map] of records
    in memory and one JSON file per record on disk.  They share one scheme:
    the file name is the record's key with unsafe characters replaced and,
    except for the refund ledger, cut to a limit; a write goes to a temporary
    file that is renamed, and failing is only logged; the constructor reads
    the directory back and skips files that do not parse or do not validate.

    A store states its part of the scheme in an instance of [Filed].  The
    directory is a map from file names to contents, [None] for a file that
    does not parse; [writable] says whether writes currently succeed.  The
    order of [readdirSync] is not specified, so a restart takes the listing as
    an argument and the theorems hold for every order. *)

From S2P Require Import Prelude JsMap.

(** ** File names *)

(** The class [a-zA-Z0-9_\-] of the regular expression. *)
Definition safe_char (c : Ascii.ascii) : bool :=
  let n := Ascii.nat_of_ascii c in
  (Nat.leb 97 n && Nat.leb n 122) || (Nat.leb 65 n && Nat.leb n 90) ||
  (Nat.leb 48 n && Nat.leb n 57) || Nat.eqb n 95 || Nat.eqb n 45.

(** [key.replace(/[^a-zA-Z0-9_\-]/g, '_')]. *)
Fixpoint replace_unsafe (s : string) : string :=
  match s with
  | EmptyString => EmptyString
  | String c s' => String (if safe_char c then c else Ascii.ascii_of_nat 95) (replace_unsafe s')
  end.

Definition safe_name (limit : option nat) (key : string) : string :=
  match limit with
  | None => replace_unsafe key
  | Some n => String.substring 0 n (replace_unsafe key)
  end.

Definition json_name (limit : option nat) (key : string) : string := safe_name limit key +:+ ".json".

(** [s.endsWith(suffix)]. *)
Fixpoint endsWith (s suffix : string) : bool :=
  String.eqb s suffix ||
  match s with
  | EmptyString => false
  | String _ s' => endsWith s' suffix
  end.

Definition is_json (file : string) : bool := endsWith file ".json" && negb (endsWith file ".tmp").

(** ** The store *)

Class Filed (R : Type) := mkFiled {
  file_key : R -> string;
  file_limit : option nat;
  (** What the loader checks of a record that parses. *)
  loadable : R -> bool;
}.

Record Store (R : Type) : Type := mkStore {
  mem : list (string * R);
  files : gmap string (option R);
  storage : bool;
  writable : bool;
}.
Arguments mkStore {R} _ _ _ _.
Arguments mem {R} _.
Arguments files {R} _.
Arguments storage {R} _.
Arguments writable {R} _.

Section FileStore.
Context {R : Type} `{Filed R}.
Implicit Types (s : Store R) (r : R) (k : string).

Definition file_name k : string := json_name file_limit k.

Definition with_mem (m : list (string * R)) s : Store R := mkStore m (files s) (storage s) (writable s).
Definition with_files (d : gmap string (option R)) s : Store R := mkStore (mem s) d (storage s) (writable s).

Definition fs_get k s : option R := jm_get k (mem s).

(** [_persist]: the payload replaces the record's file, if the store has a
    directory and the write succeeds. *)
Definition persist r s : Store R :=
  if storage s && writable s then with_files (<[file_name (file_key r) := Some r]> (files s)) s else s.

(** [_deletePersisted], best effort. *)
Definition deletePersisted k s : Store R :=
  if storage s && writable s then with_files (delete (file_name k) (files s)) s else s.

(** [this.records.set(key, record)] followed by [_persist]. *)
Definition fs_put r s : Store R := persist r (with_mem (jm_set (file_key r) r (mem s)) s).

(** [this.records.delete(key)] followed by [_deletePersisted]. *)
Definition fs_remove k s : Store R := deletePersisted k (with_mem (jm_delete k (mem s)) s).

(** One file of [_loadFromDisk]. *)
Definition load_one (m : list (string * R)) (f : string * option R) : list (string * R) :=
  if is_json f.1 then
    match f.2 with
    | Some r => if loadable r && negb (jm_has (file_key r) m) then jm_set (file_key r) r m else m
    | None => m
    end
  else m.

Definition loadFromDisk (listing : list (string * option R)) (m : list (string * R)) : list (string * R) :=
  fold_left load_one listing m.

(** A new process on the same directory. *)
Definition restart (listing : list (string * option R)) s : Store R :=
  with_mem (if storage s then loadFromDisk listing [] else []) s.

(** A restart that reads the directory with [readdirSync], in any order. *)
Definition reboot (readdir : gmap string (option R) -> list (string * option R)) s : Store R :=
  restart (readdir (files s)) s.

Definition lists_all (readdir : gmap string (option R) -> list (string * option R)) : Prop :=
  forall d, readdir d ≡ₚ map_to_list d.

(** ** Memory and disk agree

    Every loadable record in memory is the content of its file, and every
    loadable file belongs to a record in memory. *)
Record synced s : Prop := {
  sy_ok : jm_ok (mem s);
  sy_key : forall k r, fs_get k s = Some r -> file_key r = k;
  sy_disk : forall k r, fs_get k s = Some r -> loadable r = true -> files s !! file_name k = Some (Some r);
  sy_mem : forall f r, files s !! f = Some (Some r) -> loadable r = true ->
    f = file_name (file_key r) /\ fs_get (file_key r) s = Some r;
}.

(** No other stored record has the file name of [k]. *)
Definition unshared k s : Prop :=
  forall k' r, fs_get k' s = Some r -> loadable r = true -> file_name k' = file_name k -> k' = k.

Definition ready s : Prop := storage s = true /\ writable s = true.

Lemma fs_get_put k r s : fs_get k (fs_put r s) = if decide (k = file_key r) then Some r else fs_get k s.
Proof.
  unfold fs_put, persist, fs_get. destruct (storage _ && writable _); cbn;
    (case_decide as E; [subst; by rewrite jm_get_set|by rewrite jm_get_set_ne]).
Qed.

Lemma fs_get_remove k k' s : fs_get k (fs_remove k' s) = if decide (k = k') then None else fs_get k s.
Proof.
  unfold fs_remove, deletePersisted, fs_get. destruct (storage _ && writable _); cbn;
    (case_decide as E; [subst; by rewrite jm_get_delete|by rewrite jm_get_delete_ne]).
Qed.

Lemma synced_put r s : ready s -> unshared (file_key r) s -> synced s -> synced (fs_put r s).
Proof.
  intros [Hs Hw] Hu [Hok Hk Hd Hm]. pose proof (fun k => fs_get_put k r s) as Hget.
  assert (files (fs_put r s) = <[file_name (file_key r) := Some r]> (files s)) as Hf.
  { unfold fs_put, persist. cbn. by rewrite Hs, Hw. }
  split.
  - unfold fs_put, persist. cbn. rewrite Hs, Hw. cbn. auto.
  - intros k r'. rewrite Hget. case_decide; [by intros [= ->]|apply Hk].
  - intros k r'. rewrite Hget, Hf. case_decide as E; intros Hr Hl.
    + simplify_eq. by rewrite lookup_insert_eq.
    + rewrite lookup_insert_ne; [by apply Hd|]. intros Hn. destruct E. by eapply Hu.
  - intros f r'. rewrite Hf, Hget. destruct (decide (f = file_name (file_key r))) as [->|Hne].
    + rewrite lookup_insert_eq. intros [= ->] _. by rewrite decide_True.
    + rewrite lookup_insert_ne by done. intros Hr Hl. destruct (Hm _ _ Hr Hl) as [E ?].
      rewrite decide_False by congruence. done.
Qed.

(** A record the loader ignores may live in memory alone. *)
Lemma synced_volatile r s :
  loadable r = false -> fs_get (file_key r) s = None -> synced s ->
  synced (with_mem (jm_set (file_key r) r (mem s)) s).
Proof.
  intros Hl Hn [Hok Hk Hd Hm].
  assert (forall k, fs_get k (with_mem (jm_set (file_key r) r (mem s)) s) =
                    if decide (k = file_key r) then Some r else fs_get k s) as Hget.
  { intros k. unfold fs_get. cbn. case_decide; [subst; apply jm_get_set|by apply jm_get_set_ne]. }
  split; [cbn; auto|..].
  - intros k r'. rewrite Hget. case_decide; [by intros [= ->]|apply Hk].
  - intros k r'. rewrite Hget. case_decide; [|by apply Hd]. intros [= ->]. congruence.
  - intros f r' Hr Hl'. destruct (Hm f r' Hr Hl') as [? Hg]. split; [done|].
    rewrite Hget, decide_False; [done|]. intros E. rewrite E in Hg. congruence.
Qed.

(** Forgetting such a record touches no file. *)
Lemma synced_forget k r s :
  fs_get k s = Some r -> loadable r = false -> synced s -> synced (with_mem (jm_delete k (mem s)) s).
Proof.
  intros Hr Hl [Hok Hk Hd Hm].
  assert (forall k', fs_get k' (with_mem (jm_delete k (mem s)) s) =
                     if decide (k' = k) then None else fs_get k' s) as Hget.
  { intros k'. unfold fs_get. cbn. case_decide; [subst; apply jm_get_delete|by apply jm_get_delete_ne]. }
  split; [cbn; auto|..].
  - intros k' r'. rewrite Hget. case_decide; [done|apply Hk].
  - intros k' r'. rewrite Hget. case_decide; [done|apply Hd].
  - intros f r' Hf Hl'. destruct (Hm f r' Hf Hl') as [? Hg]. split; [done|].
    rewrite Hget, decide_False; [done|]. intros <-. congruence.
Qed.

Lemma synced_remove k s : ready s -> unshared k s -> synced s -> synced (fs_remove k s).
Proof.
  intros [Hs Hw] Hu [Hok Hk Hd Hm]. pose proof (fun k' => fs_get_remove k' k s) as Hget.
  assert (files (fs_remove k s) = delete (file_name k) (files s)) as Hf.
  { unfold fs_remove, deletePersisted. cbn. by rewrite Hs, Hw. }
  split.
  - unfold fs_remove, deletePersisted. cbn. rewrite Hs, Hw. cbn. auto.
  - intros k' r. rewrite Hget. case_decide; [done|apply Hk].
  - intros k' r. rewrite Hget, Hf. case_decide as E; [done|]. intros Hr Hl.
    rewrite lookup_delete_ne; [by apply Hd|]. intros Hn. destruct E. by eapply Hu.
  - intros f r. rewrite Hf, Hget. intros [Hne Hr]%lookup_delete_Some Hl.
    destruct (Hm _ _ Hr Hl) as [E ?]. split; [done|]. rewrite decide_False; [done|]. congruence.
Qed.

(** ** Names and listings *)

Lemma endsWith_app a suffix : endsWith (a +:+ suffix) suffix = true.
Proof.
  induction a as [|c a IH]; [|change (endsWith (String c (a +:+ suffix)) suffix = true); cbn; by rewrite IH, orb_true_r].
  change (endsWith suffix suffix = true). destruct suffix; cbn; [done|by rewrite Ascii.eqb_refl, String.eqb_refl].
Qed.

Lemma is_json_name limit k : is_json (json_name limit k) = true.
Proof.
  unfold is_json, json_name. rewrite endsWith_app. generalize (safe_name limit k). intros a.
  assert (endsWith (a +:+ ".json") ".tmp" = false) as ->; [|done].
  induction a as [|c a IH]; [done|]. change (endsWith (String c (a +:+ ".json")) ".tmp" = false).
  cbn [endsWith]. rewrite IH, orb_false_r. apply String.eqb_neq. intros E%(f_equal String.length).
  cbn in E. rewrite length_string_app in E. cbn in E. lia.
Qed.

(** What [readdirSync] returns for a directory this store wrote. *)
Definition canonical (l : list (string * option R)) : Prop :=
  NoDup l.*1 /\ forall f r, (f, Some r) ∈ l -> loadable r = true -> f = file_name (file_key r).

Lemma canonical_cons e l : canonical (e :: l) -> canonical l.
Proof. intros [[_ Hn]%NoDup_cons Hf]. split; [done|]. intros f r Hin. apply Hf. by right. Qed.

Lemma canonical_listing s listing :
  synced s -> listing ≡ₚ map_to_list (files s) -> canonical listing.
Proof.
  intros [_ _ _ Hm] Hl. split; [rewrite Hl; apply NoDup_fst_map_to_list|].
  intros f r Hin Hr. rewrite Hl in Hin. apply elem_of_map_to_list in Hin. by apply Hm in Hin as [? _].
Qed.

Lemma load_one_get k m f c :
  jm_get k (load_one m (f, c)) =
  match jm_get k m, c with
  | None, Some r => if is_json f && loadable r && bool_decide (file_key r = k) then Some r else None
  | o, _ => o
  end.
Proof.
  unfold load_one. cbn. destruct (is_json f), c as [r|]; cbn; try by destruct (jm_get k m).
  rewrite jm_has_get. destruct (loadable r); cbn; [|by destruct (jm_get k m)].
  case_bool_decide as E; [subst|].
  - destruct (jm_get (file_key r) m) eqn:Hg; cbn; [by rewrite Hg|apply jm_get_set].
  - destruct (jm_get (file_key r) m); cbn; [by destruct (jm_get k m)|].
    rewrite jm_get_set_ne by congruence. by destruct (jm_get k m).
Qed.

Lemma load_get l k r m :
  canonical l -> jm_get k m = None ->
  jm_get k (loadFromDisk l m) = Some r <->
  exists f, (f, Some r) ∈ l /\ loadable r = true /\ file_key r = k.
Proof.
  revert m. induction l as [|[f c] l IH]; intros m Hc Hm; cbn.
  - rewrite Hm. split; [done|]. intros (f & ?%elem_of_nil & _). done.
  - pose proof (load_one_get k m f c) as Hone. rewrite Hm in Hone.
    change (jm_get k (loadFromDisk l (load_one m (f, c))) = Some r <->
            exists f', (f', Some r) ∈ (f, c) :: l /\ loadable r = true /\ file_key r = k).
    destruct (jm_get k (load_one m (f, c))) as [r0|] eqn:E.
    + destruct c as [rc|]; [|done]. destruct (is_json f && loadable rc && bool_decide (file_key rc = k)) eqn:Hb; [|done].
      simplify_eq. bools. subst.
      assert (forall l' m', jm_get (file_key rc) m' = Some rc -> jm_get (file_key rc) (loadFromDisk l' m') = Some rc) as Hkeep.
      { induction l' as [|[f' c'] l' IHl]; intros m' Hm'; [done|].
        apply IHl. by rewrite load_one_get, Hm'. }
      rewrite (Hkeep l _ E). split.
      * intros [= ->]. exists f. split_and!; [by left|done|done].
      * intros (f' & Hin & Hl & Hk). f_equal. destruct Hc as [Hnd Hf].
        assert (f' = f) as ->.
        { rewrite (Hf f' r Hin Hl), (Hf f rc) by (done || by left). by rewrite Hk. }
        apply elem_of_cons in Hin as [[= ->]|Hin]; [done|]. apply NoDup_cons in Hnd as [Hn _].
        destruct Hn. apply list_elem_of_fmap. by exists (f, Some r).
    + rewrite IH by (eauto using canonical_cons). split.
      * intros (f' & Hin & Hrest). exists f'. split; [by right|done].
      * intros (f' & [E'|Hin]%elem_of_cons & Hl & Hk); [|by exists f'].
        simplify_eq. destruct Hc as [_ Hf]. rewrite (Hf f r) in Hone by (done || by left).
        unfold file_name in Hone. by rewrite is_json_name, Hl, bool_decide_true in Hone.
Qed.

(** Whatever is loaded was listed, and validated. *)
Lemma load_listed l m k r :
  jm_get k (loadFromDisk l m) = Some r ->
  jm_get k m = Some r \/ exists f, (f, Some r) ∈ l /\ loadable r = true /\ file_key r = k.
Proof.
  revert m. induction l as [|[f c] l IH]; intros m; [by left|]. cbn. intros [Hm|(f' & Hin & Hl)]%IH.
  - rewrite load_one_get in Hm. destruct (jm_get k m) as [r0|]; [by left|]. destruct c as [rc|]; [|done].
    destruct (_ && _) eqn:E; [|done]. simplify_eq. bools. right. exists f. split_and!; [by left|done|done].
  - right. exists f'. split; [by right|done].
Qed.

Lemma load_ok l m : jm_ok m -> jm_ok (loadFromDisk l m).
Proof.
  revert m. induction l as [|[f c] l IH]; intros m Hm; [done|]. apply IH.
  unfold load_one. cbn. destruct (is_json f), c; [|done..]. by destruct (_ && _); auto.
Qed.

(** A restart finds exactly the loadable records, in whatever order the
    directory is read, and memory and disk still agree. *)
Lemma restart_recovers s listing :
  storage s = true -> synced s -> listing ≡ₚ map_to_list (files s) ->
  synced (restart listing s) /\
  forall k, fs_get k (restart listing s) =
    match fs_get k s with Some r => if loadable r then Some r else None | None => None end.
Proof.
  intros Hst Hs Hl. pose proof (canonical_listing _ _ Hs Hl) as Hc. destruct Hs as [Hok Hk Hd Hm].
  assert (forall k r, fs_get k (restart listing s) = Some r <-> fs_get k s = Some r /\ loadable r = true) as Hget.
  { intros k r. unfold restart, fs_get. cbn. rewrite Hst, load_get by done. split.
    - intros (f & Hin & Hr & <-). rewrite Hl in Hin. apply elem_of_map_to_list in Hin.
      by destruct (Hm _ _ Hin Hr).
    - intros [Hr Hlr]. exists (file_name k). rewrite Hl, elem_of_map_to_list.
      split_and!; [by apply Hd|done|by apply Hk]. }
  split.
  - split.
    + unfold restart. cbn. rewrite Hst. apply load_ok. auto.
    + intros k r [Hr _]%Hget. by apply Hk.
    + intros k r [Hr _]%Hget Hlr. by apply Hd.
    + intros f r Hf Hlr. destruct (Hm _ _ Hf Hlr) as [? ?]. split; [done|]. by apply Hget.
  - intros k. destruct (fs_get k (restart listing s)) as [r|] eqn:E.
    + apply Hget in E as [-> ->]. done.
    + destruct (fs_get k s) as [r|] eqn:Er; [|done]. destruct (loadable r) eqn:Hlr; [|done].
      assert (fs_get k (restart listing s) = Some r) by (by apply Hget). congruence.
Qed.

Lemma synced_reboot readdir s :
  lists_all readdir -> storage s = true -> synced s -> synced (reboot readdir s).
Proof. intros Hr Hst Hs. by apply restart_recovers. Qed.

Lemma reboot_get readdir s k :
  lists_all readdir -> storage s = true -> synced s ->
  fs_get k (reboot readdir s) =
    match fs_get k s with Some r => if loadable r then Some r else None | None => None end.
Proof. intros Hr Hst Hs. by apply restart_recovers. Qed.

(** Without any assumption on names and writes: a restarted store holds only
    what the directory held. *)
Lemma reboot_from_disk readdir s k r :
  lists_all readdir -> fs_get k (reboot readdir s) = Some r ->
  file_key r = k /\ loadable r = true /\ exists f, files s !! f = Some (Some r).
Proof.
  intros Hl. unfold reboot, restart, fs_get. cbn. destruct (storage s); [|done].
  intros [?|(f & Hin & Hlr & Hk)]%load_listed; [done|]. split_and!; [done|done|].
  exists f. rewrite (Hl (files s)) in Hin. by apply elem_of_map_to_list.
Qed.

Lemma ready_put r s : ready s -> ready (fs_put r s).
Proof. unfold fs_put, persist. cbn. by destruct (storage s && writable s). Qed.

Lemma ready_remove k s : ready s -> ready (fs_remove k s).
Proof. unfold fs_remove, deletePersisted. cbn. by destruct (storage s && writable s). Qed.
End FileStore.

#[export] Hint Resolve ready_put ready_remove : core.

(** A fresh directory that accepts writes. *)
Definition fresh_store {R} : Store R := mkStore [] ∅ true true.

Lemma synced_fresh `{Filed R} : synced (fresh_store (R := R)).
Proof. split; [apply jm_ok_nil|done..]. Qed.

(** ** Keys whose file names cannot collide *)

Fixpoint all_safe (s : string) : bool :=
  match s with
  | EmptyString => true
  | String c s' => safe_char c && all_safe s'
  end.

(** Safe characters only, and short enough not to be cut. *)
Definition plain (limit : option nat) (k : string) : bool :=
  all_safe k && match limit with None => true | Some n => Nat.leb (String.length k) n end.

Lemma replace_safe s : all_safe s = true -> replace_unsafe s = s.
Proof. induction s as [|c s IH]; [done|]. cbn. intros H. bools. rewrite H, IH; done. Qed.

Lemma substring_all n s : (String.length s <= n)%nat -> String.substring 0 n s = s.
Proof.
  revert n. induction s as [|c s IH]; intros [|n] Hn; cbn in *; try done; [lia|].
  rewrite IH; [done|lia].
Qed.

Lemma string_app_inj_r a b c : a +:+ c = b +:+ c -> a = b.
Proof.
  revert b. induction a as [|x a IH]; intros [|y b] E.
  - done.
  - apply (f_equal String.length) in E. rewrite !length_string_app in E. cbn in E. lia.
  - apply (f_equal String.length) in E. rewrite !length_string_app in E. cbn in E. lia.
  - injection E as -> E. f_equal. by apply IH.
Qed.

Lemma json_name_inj limit k k' :
  plain limit k = true -> plain limit k' = true -> json_name limit k = json_name limit k' -> k = k'.
Proof.
  unfold plain, json_name, safe_name. intros Hk Hk' E%string_app_inj_r. bools.
  destruct limit as [n|]; rewrite ?replace_safe in E by done; [|done].
  by rewrite !substring_all in E by (by apply Nat.leb_le).
Qed.

(** The keys a store is used with have distinct file names. *)
Class FileKeys (R : Type) `{Filed R} := mkFileKeys {
  key_ok : string -> Prop;
  key_ok_inj : forall k k', key_ok k -> key_ok k' -> file_name k = file_name k' -> k = k';
}.

Definition plain_keys (R : Type) `{Filed R} : FileKeys R :=
  mkFileKeys _ _ (fun k => plain file_limit k = true) (json_name_inj file_limit).

Lemma key_ok_unshared `{FileKeys R} k (s : Store R) :
  key_ok k -> (forall k' r, fs_get k' s = Some r -> key_ok k') -> unshared k s.
Proof. intros Hk Hall k' r Hr _ E. eapply key_ok_inj; eauto. Qed.

Definition keys_ok `{FileKeys R} (s : Store R) : Prop := forall k r, fs_get k s = Some r -> key_ok k.

(** The invariant the stores keep while their disk works and their keys have
    distinct file names. *)
Definition durable `{FileKeys R} (s : Store R) : Prop := ready s /\ synced s /\ keys_ok s.

Section Durable.
Context {R : Type} `{FileKeys R}.
Implicit Types (s : Store R).

Lemma durable_fresh : durable (fresh_store (R := R)).
Proof. split_and!; [done|apply synced_fresh|]. by intros k r. Qed.

Lemma durable_put r s : key_ok (file_key r) -> durable s -> durable (fs_put r s).
Proof.
  intros Hp (Hr & Hs & Hk). split_and!; [by apply ready_put|apply synced_put; [done|by apply key_ok_unshared|done]|].
  intros k r'. rewrite fs_get_put. case_decide; [by subst|apply Hk].
Qed.

Lemma durable_remove k s : key_ok k -> durable s -> durable (fs_remove k s).
Proof.
  intros Hp (Hr & Hs & Hk). split_and!; [by apply ready_remove|apply synced_remove; [done|by apply key_ok_unshared|done]|].
  intros k' r'. rewrite fs_get_remove. case_decide; [done|apply Hk].
Qed.

Lemma durable_reboot readdir s : lists_all readdir -> durable s -> durable (reboot readdir s).
Proof.
  intros Hl ([Hst Hw] & Hs & Hk). split_and!; [by split|by apply synced_reboot|].
  intros k r. rewrite reboot_get by done. destruct (fs_get k s) eqn:E; [|done]. intros. by eapply Hk.
Qed.

Lemma durable_get_reboot readdir s k :
  lists_all readdir -> durable s ->
  fs_get k (reboot readdir s) =
    match fs_get k s with Some r => if loadable r then Some r else None | None => None end.
Proof. intros Hl ([Hst Hw] & Hs & Hk). by apply reboot_get. Qed.

Lemma durable_key s k r : durable s -> fs_get k s = Some r -> file_key r = k.
Proof. intros (_ & Hs & _). apply (sy_key _ Hs). Qed.
End Durable.

Create HintDb durable.
#[export] Hint Resolve durable_fresh durable_put durable_remove durable_reboot : durable.
