(* ===== verification/ProofLedger.v ===== *)
(** * Consumed Stellar proofs

    relayer/src/services/stellar-proof-ledger.ts: a Stellar transaction hash
    pays for one ETH release.  The ledger answers [true] to the first
    [consume] of a hash and [false] to every later one; its entries are files,
    so the answer survives a restart. *)

From S2P Require Import Prelude JsMap FileStore.

Record ConsumedProofEntry : Type := mkConsumedProofEntry {
  stellarTxHash : string;
  pe_orderId : string;
  verifiedAmount : string;
  ledgerSequence : option Z;
  consumedAt : Z;
}.

(** The arguments of [consume] besides the hash. *)
Record ProofMeta : Type := mkProofMeta {
  pm_orderId : string;
  pm_verifiedAmount : string;
  pm_ledgerSequence : option Z;
}.

(** [_filePath] cuts names at 80; the loader only checks the types of the
    fields. *)
Definition proof_filed : Filed ConsumedProofEntry := mkFiled _ stellarTxHash (Some 80%nat) (fun _ => true).
#[export] Existing Instance proof_filed.
#[export] Instance proof_keys : FileKeys ConsumedProofEntry := plain_keys _.

Definition ProofLedger : Type := Store ConsumedProofEntry.

Definition consume (now : Z) (h : string) (meta : ProofMeta) (s : ProofLedger) : bool * ProofLedger :=
  if jm_has h (mem s) then (false, s)
  else
    let entry := mkConsumedProofEntry h (pm_orderId meta) (pm_verifiedAmount meta) (pm_ledgerSequence meta) now in
    (true, persist entry (with_mem (jm_set h entry (mem s)) s)).

Definition isConsumed (h : string) (s : ProofLedger) : bool := jm_has h (mem s).
Definition proof_getEntry (h : string) (s : ProofLedger) : option ConsumedProofEntry := jm_get h (mem s).
Definition proof_size (s : ProofLedger) : Z := jm_size (mem s).
Definition proof_snapshot (s : ProofLedger) : list ConsumedProofEntry := jm_values (mem s).

(** ** Runs: requests and restarts *)

Inductive ProofOp : Type :=
| PConsume (now : Z) (h : string) (meta : ProofMeta)
| PReboot (readdir : gmap string (option ConsumedProofEntry) -> list (string * option ConsumedProofEntry)).

(** The answers of a run, with the hash each one is about. *)
Fixpoint proof_run (ops : list ProofOp) (s : ProofLedger) : list (string * bool) :=
  match ops with
  | [] => []
  | PConsume now h meta :: ops' =>
      let '(b, s') := consume now h meta s in (h, b) :: proof_run ops' s'
  | PReboot readdir :: ops' => proof_run ops' (reboot readdir s)
  end.

Definition answers (h : string) (tr : list (string * bool)) : list bool :=
  snd <$> List.filter (fun a => String.eqb a.1 h) tr.

Definition proof_op_ok (op : ProofOp) : Prop :=
  match op with
  | PConsume _ h _ => plain (Some 80%nat) h = true
  | PReboot readdir => lists_all readdir
  end.

Lemma consume_put now h meta s :
  jm_has h (mem s) = false ->
  consume now h meta s =
  (true, fs_put (mkConsumedProofEntry h (pm_orderId meta) (pm_verifiedAmount meta) (pm_ledgerSequence meta) now) s).
Proof. intros E. unfold consume. by rewrite E. Qed.

Lemma reboot_has readdir h (s : ProofLedger) :
  lists_all readdir -> durable s -> jm_has h (mem (reboot readdir s)) = jm_has h (mem s).
Proof.
  intros Hr Hd. pose proof (durable_get_reboot readdir s h Hr Hd) as E. unfold fs_get in E.
  rewrite !jm_has_get, E. by destruct (jm_get h (mem s)).
Qed.

Lemma durable_consume now h meta s :
  plain (Some 80%nat) h = true -> durable s -> durable (consume now h meta s).2.
Proof.
  intros Hp Hd. destruct (jm_has h (mem s)) eqn:E; [unfold consume; by rewrite E|].
  rewrite consume_put by done. by apply durable_put.
Qed.

Lemma consume_has now h meta s h' :
  jm_has h' (mem (consume now h meta s).2) = jm_has h' (mem s) || String.eqb h' h.
Proof.
  destruct (jm_has h (mem s)) eqn:E.
  - unfold consume. rewrite E. cbn. destruct (String.eqb_spec h' h) as [->|]; [by rewrite E|by rewrite orb_false_r].
  - rewrite consume_put by done. cbn [snd]. rewrite !jm_has_get. 
    match goal with |- context [fs_put ?e s] => pose proof (fs_get_put h' e s) as Hg end.
    unfold fs_get in Hg. rewrite Hg. cbn [file_key proof_filed stellarTxHash].
    destruct (String.eqb_spec h' h) as [->|]; [by rewrite decide_True, orb_true_r|].
    by rewrite decide_False, orb_false_r.
Qed.

Lemma answers_known ops h s :
  Forall proof_op_ok ops -> durable s -> jm_has h (mem s) = true ->
  Forall (fun b => b = false) (answers h (proof_run ops s)).
Proof.
  intros Hops. revert s. induction Hops as [|[now h' meta|readdir] ops Ho _ IH]; intros s Hd Hh; [constructor|..].
  - cbn. destruct (consume now h' meta s) as [b s'] eqn:E.
    assert (s' = (consume now h' meta s).2) as -> by (by rewrite E).
    assert (Forall (fun b => b = false) (answers h (proof_run ops (consume now h' meta s).2))) as Hrest.
    { apply IH; [by apply durable_consume|by rewrite consume_has, Hh]. }
    unfold answers. cbn. destruct (String.eqb_spec h' h) as [->|]; [|done]. cbn.
    unfold consume in E. rewrite Hh in E. simplify_eq. by constructor.
  - apply IH; [by apply durable_reboot|by rewrite reboot_has].
Qed.

(** C30.  Replay protection of the XLM-to-ETH path: over any sequence of
    requests and process restarts (with the directory read in any order), the
    proof ledger grants a Stellar transaction hash exactly once, to the first
    request that presents it, and refuses every later one.  Hypotheses: the
    directory accepts writes, and hashes consist of file-name characters and
    have at most 80 of them, as the 64 hex digits of a Stellar hash do. *)
Theorem proof_consumed_once (ops : list ProofOp) (h : string) :
  Forall proof_op_ok ops ->
  match answers h (proof_run ops fresh_store) with
  | [] => True
  | first :: later => first = true /\ Forall (fun b => b = false) later
  end.
Proof.
  intros Hops. assert (jm_has h (mem (fresh_store (R := ConsumedProofEntry))) = false) as Hh by done.
  revert Hh. generalize (durable_fresh (R := ConsumedProofEntry)).
  generalize (fresh_store (R := ConsumedProofEntry)) as s.
  induction Hops as [|[now h' meta|readdir] ops Ho Hrest IH]; intros s Hd Hh; [done|..].
  - cbn. destruct (consume now h' meta s) as [b s'] eqn:E.
    assert (s' = (consume now h' meta s).2) as -> by (by rewrite E).
    pose proof (consume_has now h' meta s h) as Hhas. rewrite Hh in Hhas.
    pose proof (durable_consume now h' meta s Ho Hd) as Hd'.
    unfold answers. cbn. destruct (String.eqb_spec h' h) as [->|Hne]; cbn.
    + rewrite consume_put in E by done. simplify_eq. split; [done|].
      apply answers_known; [done..|]. by rewrite Hhas, String.eqb_refl.
    + apply IH; [done|]. rewrite Hhas. by apply String.eqb_neq.
  - apply IH; [by apply durable_reboot|by rewrite reboot_has].
Qed.

Definition demo_meta : ProofMeta := mkProofMeta "order-1" "12.3456789" (Some 4711).

Lemma proof_consumed_once_witness :
  let ops := [PConsume 1 "ab12" demo_meta; PReboot map_to_list; PConsume 2 "cd34" demo_meta; PConsume 3 "ab12" demo_meta] in
  answers "ab12" (proof_run ops fresh_store) = [true; false] /\
  match answers "ab12" (proof_run ops fresh_store) with
  | [] => True
  | first :: later => first = true /\ Forall (fun b => b = false) later
  end.
Proof.
  split; [vm_compute; reflexivity|]. apply proof_consumed_once.
  repeat apply List.Forall_cons; try apply List.Forall_nil; cbn; try reflexivity. intros d. reflexivity.
Defined.

(** The other side of a best-effort write: when the disk refuses it, a
    restart grants the same hash again. *)
Lemma lost_write_grants_twice :
  answers "ab12" (proof_run [PConsume 1 "ab12" demo_meta; PReboot map_to_list; PConsume 2 "ab12" demo_meta]
                    (mkStore [] ∅ true false)) = [true; true].
Proof. vm_compute. reflexivity. Qed.

(** And two hashes that only differ past the 80th character share a file, so
    the first is forgotten by a restart. *)
Definition long_name (tail : string) : string := String.concat "" (replicate 10 "abcdefgh") +:+ tail.

Lemma cut_names_collide :
  answers (long_name "1")
    (proof_run [PConsume 1 (long_name "1") demo_meta; PConsume 2 (long_name "2") demo_meta;
                PReboot map_to_list; PConsume 3 (long_name "1") demo_meta] fresh_store) = [true; true].
Proof. vm_compute. reflexivity. Qed.
