(* ===== verification/RefundLedger.v ===== *)
(** * Refund ledger

    relayer/src/services/refund-ledger.ts: the lock every refund path takes
    before it pays.  [claim] grants an order to one caller; [commit] records
    the payment for good; [release] gives a failed claim back;
    [markAmbiguous] parks an order whose payment may have landed until the
    watchdog resolves it.  Committed and ambiguous entries are files, claims
    in flight live in memory only. *)

From S2P Require Import Prelude JsMap FileStore.

Inductive RefundState : Type :=
| InFlight
| Committed (txHash amount : string) (ledger : option Z) (committedAt : Z)
| Ambiguous (reason : string) (ambiguousAt : Z).

Record RefundEntry : Type := mkRefundEntry { re_orderId : string; re_state : RefundState }.

(** The result a caller commits. *)
Record RefundResult : Type := mkRefundResult { rr_txHash : string; rr_amount : string; rr_ledger : option Z }.

Inductive Phase : Type := in_flight | committed | ambiguous.

Definition phase (st : RefundState) : Phase :=
  match st with
  | InFlight => in_flight
  | Committed _ _ _ _ => committed
  | Ambiguous _ _ => ambiguous
  end.

#[export] Instance Phase_eq_dec : EqDecision Phase.
Proof. solve_decision. Defined.

Definition phase_name (p : Phase) : string :=
  match p with in_flight => "in_flight" | committed => "committed" | ambiguous => "ambiguous" end.

(** [_filePath] does not cut names; the loader takes the two durable phases. *)
Definition refund_filed : Filed RefundEntry :=
  mkFiled _ re_orderId None (fun e => bool_decide (phase (re_state e) <> in_flight)).
#[export] Existing Instance refund_filed.
#[export] Instance refund_keys : FileKeys RefundEntry := plain_keys _.

Definition RefundLedger : Type := Store RefundEntry.

Definition getEntry (o : string) (s : RefundLedger) : option RefundEntry := jm_get o (mem s).

(** [this.entries.get(orderId)?.state.phase]. *)
Definition phase_of (o : string) (s : RefundLedger) : option Phase :=
  (fun e => phase (re_state e)) <$> getEntry o s.

Definition claim (o : string) (s : RefundLedger) : bool * RefundLedger :=
  if jm_has o (mem s) then (false, s)
  else (true, with_mem (jm_set o (mkRefundEntry o InFlight) (mem s)) s).

Definition commit (now : Z) (o : string) (res : RefundResult) (s : RefundLedger) : RefundLedger :=
  if bool_decide (phase_of o s = Some committed) then s
  else
    let e := mkRefundEntry o (Committed (rr_txHash res) (rr_amount res) (rr_ledger res) now) in
    persist e (with_mem (jm_set o e (mem s)) s).

Definition release (o : string) (s : RefundLedger) : RefundLedger :=
  if bool_decide (phase_of o s = Some in_flight) then with_mem (jm_delete o (mem s)) s else s.

Definition markAmbiguous (now : Z) (o reason : string) (s : RefundLedger) : RefundLedger :=
  let e := mkRefundEntry o (Ambiguous reason now) in
  persist e (with_mem (jm_set o e (mem s)) s).

Definition resolveAmbiguous (now : Z) (o : string) (res : RefundResult) (s : RefundLedger) : RefundLedger :=
  if bool_decide (phase_of o s = Some ambiguous) then commit now o res s else s.

Definition releaseAmbiguous (o : string) (s : RefundLedger) : RefundLedger :=
  if bool_decide (phase_of o s = Some ambiguous) then deletePersisted o (with_mem (jm_delete o (mem s)) s) else s.

Definition isCommitted (o : string) (s : RefundLedger) : bool := bool_decide (phase_of o s = Some committed).
Definition isLocked (o : string) (s : RefundLedger) : bool :=
  bool_decide (phase_of o s = Some in_flight) || bool_decide (phase_of o s = Some ambiguous).
Definition snapshot (s : RefundLedger) : list RefundEntry := jm_values (mem s).

(** Entries per phase. *)
Definition stats (s : RefundLedger) (p : Phase) : Z :=
  Z.of_nat (length (List.filter (fun e => bool_decide (phase (re_state e) = p)) (jm_values (mem s)))).

(** ** Runs *)

Inductive RefundOp : Type :=
| RClaim (o : string)
| RCommit (now : Z) (o : string) (res : RefundResult)
| RRelease (o : string)
| RMarkAmbiguous (now : Z) (o reason : string)
| RResolve (now : Z) (o : string) (res : RefundResult)
| RReleaseAmbiguous (o : string)
| RReboot (readdir : gmap string (option RefundEntry) -> list (string * option RefundEntry)).

Definition refund_op (op : RefundOp) (s : RefundLedger) : RefundLedger :=
  match op with
  | RClaim o => (claim o s).2
  | RCommit now o res => commit now o res s
  | RRelease o => release o s
  | RMarkAmbiguous now o reason => markAmbiguous now o reason s
  | RResolve now o res => resolveAmbiguous now o res s
  | RReleaseAmbiguous o => releaseAmbiguous o s
  | RReboot readdir => reboot readdir s
  end.

Definition refund_run (ops : list RefundOp) (s : RefundLedger) : RefundLedger :=
  fold_left (fun s op => refund_op op s) ops s.

Definition refund_op_ok (op : RefundOp) : Prop :=
  match op with
  | RClaim o | RCommit _ o _ | RRelease o | RMarkAmbiguous _ o _ | RResolve _ o _ | RReleaseAmbiguous o =>
      plain None o = true
  | RReboot readdir => lists_all readdir
  end.

(** ** What each operation does to each entry

    [step_state op o st] is the entry of [o] after [op], as a function of its
    entry before: the ledger is one small machine per order. *)
Definition step_state (op : RefundOp) (o : string) (st : option RefundState) : option RefundState :=
  match op with
  | RClaim o' => if decide (o = o') then Some (default InFlight st) else st
  | RCommit now o' res =>
      if decide (o = o') then
        match st with
        | Some (Committed h a l t) => Some (Committed h a l t)
        | _ => Some (Committed (rr_txHash res) (rr_amount res) (rr_ledger res) now)
        end
      else st
  | RRelease o' => if decide (o = o') then match st with Some InFlight => None | _ => st end else st
  | RMarkAmbiguous now o' reason => if decide (o = o') then Some (Ambiguous reason now) else st
  | RResolve now o' res =>
      if decide (o = o') then
        match st with
        | Some (Ambiguous _ _) => Some (Committed (rr_txHash res) (rr_amount res) (rr_ledger res) now)
        | _ => st
        end
      else st
  | RReleaseAmbiguous o' =>
      if decide (o = o') then match st with Some (Ambiguous _ _) => None | _ => st end else st
  | RReboot _ => match st with Some InFlight => None | _ => st end
  end.

Definition state_of (o : string) (s : RefundLedger) : option RefundState := re_state <$> getEntry o s.

Lemma getEntry_set o o' e (s : RefundLedger) :
  getEntry o (with_mem (jm_set o' e (mem s)) s) = if decide (o = o') then Some e else getEntry o s.
Proof. unfold getEntry. cbn. case_decide; [subst; apply jm_get_set|by apply jm_get_set_ne]. Qed.

Lemma getEntry_delete o o' (s : RefundLedger) :
  getEntry o (with_mem (jm_delete o' (mem s)) s) = if decide (o = o') then None else getEntry o s.
Proof. unfold getEntry. cbn. case_decide; [subst; apply jm_get_delete|by apply jm_get_delete_ne]. Qed.

Lemma getEntry_persist o e (s : RefundLedger) : getEntry o (persist e s) = getEntry o s.
Proof. unfold persist. by destruct (_ && _). Qed.

Lemma getEntry_deletePersisted o o' (s : RefundLedger) : getEntry o (deletePersisted o' s) = getEntry o s.
Proof. unfold deletePersisted. by destruct (_ && _). Qed.

#[local] Hint Rewrite getEntry_set getEntry_delete getEntry_persist getEntry_deletePersisted : refund.

Lemma durable_claim o s : plain None o = true -> durable s -> durable (claim o s).2.
Proof.
  intros Hp (Hr & Hs & Hk). unfold claim. rewrite jm_has_get. destruct (jm_get o (mem s)) eqn:E; [done|].
  cbn [snd]. split_and!; [done|exact (synced_volatile (mkRefundEntry o InFlight) s eq_refl E Hs)|].
  intros k r. change (fs_get k (with_mem (jm_set o (mkRefundEntry o InFlight) (mem s)) s) = Some r ->
    plain None k = true). unfold fs_get. cbn. destruct (decide (k = o)) as [->|]; [done|].
  rewrite jm_get_set_ne by done. apply Hk.
Qed.

Lemma durable_release o s : durable s -> durable (release o s).
Proof.
  intros (Hr & Hs & Hk). unfold release. case_bool_decide as E; [|done].
  unfold phase_of, getEntry in E. destruct (jm_get o (mem s)) as [e|] eqn:Ee; [|done].
  injection E as E. split_and!; [done|eapply synced_forget; [exact Ee| |done]|].
  - cbn. by rewrite E.
  - intros k r. unfold fs_get. cbn. destruct (decide (k = o)) as [->|]; [by rewrite jm_get_delete|].
    rewrite jm_get_delete_ne by done. apply Hk.
Qed.

Lemma durable_entry st o (s : RefundLedger) :
  plain None o = true -> durable s ->
  durable (persist (mkRefundEntry o st) (with_mem (jm_set o (mkRefundEntry o st) (mem s)) s)).
Proof. exact (durable_put (mkRefundEntry o st) s). Qed.

Lemma durable_refund_op op s : refund_op_ok op -> durable s -> durable (refund_op op s).
Proof.
  assert (forall now o res s, plain None o = true -> durable s -> durable (commit now o res s)) as Hcommit.
  { intros now o res s' Hp Hd. unfold commit. case_bool_decide; [done|].
    by apply durable_entry. }
  intros Ho Hd. destruct op; cbn in *.
  - by apply durable_claim.
  - by apply Hcommit.
  - by apply durable_release.
  - by apply durable_entry.
  - unfold resolveAmbiguous. case_bool_decide; [by apply Hcommit|done].
  - unfold releaseAmbiguous. case_bool_decide; [by apply (durable_remove o)|done].
  - by apply durable_reboot.
Qed.

(** The ledger refines the per-order machine. *)
Lemma refund_op_state op o s :
  refund_op_ok op -> durable s -> state_of o (refund_op op s) = step_state op o (state_of o s).
Proof.
  intros Ho Hd. destruct op as [o'|now o' res|o'|now o' reason|now o' res|o'|readdir]; cbn [refund_op step_state].
  7: { unfold state_of, getEntry. pose proof (durable_get_reboot readdir s o Ho Hd) as E.
       unfold fs_get in E. rewrite E. destruct (jm_get o (mem s)) as [[o1 []]|]; by cbn. }
  all: unfold claim, commit, release, markAmbiguous, resolveAmbiguous, releaseAmbiguous, commit, state_of, phase_of.
  1: { rewrite jm_has_get. change (jm_get o' (mem s)) with (getEntry o' s).
       destruct (decide (o = o')) as [->|Hne].
       - destruct (getEntry o' s) eqn:E; cbn [snd]; [by rewrite E|].
         by autorewrite with refund; rewrite decide_True.
       - destruct (getEntry o' s) eqn:E; cbn [snd]; [done|].
         by autorewrite with refund; rewrite decide_False. }
  all: destruct (decide (o = o')) as [->|Hne];
    [destruct (getEntry o' s) as [[o1 []]|] eqn:E; cbn|];
    repeat case_bool_decide; autorewrite with refund;
    rewrite ?decide_True, ?E by done; rewrite ?decide_False by done; done.
Qed.

Lemma refund_run_app ops ops' s : refund_run (ops ++ ops') s = refund_run ops' (refund_run ops s).
Proof. apply fold_left_app. Qed.

Lemma durable_refund_run ops s : Forall refund_op_ok ops -> durable s -> durable (refund_run ops s).
Proof. intros Hops. revert s. induction Hops as [|op ops Ho _ IH]; intros s Hd; [done|]. by apply IH, durable_refund_op. Qed.

Lemma refund_run_state ops o s :
  Forall refund_op_ok ops -> durable s ->
  state_of o (refund_run ops s) = fold_left (fun st op => step_state op o st) ops (state_of o s).
Proof.
  intros Hops. revert s. induction Hops as [|op ops Ho _ IH]; intros s Hd; [done|]. cbn.
  rewrite <- refund_op_state by done. apply IH. by apply durable_refund_op.
Qed.

Lemma claim_granted o s : (claim o s).1 = true <-> state_of o s = None.
Proof.
  unfold claim, state_of, getEntry. rewrite jm_has_get. by destruct (jm_get o (mem s)).
Qed.

(** The operations that give an order back: the caller's release of a failed
    attempt, the watchdog's release of a payment it did not find, and a
    restart, which forgets the claims in flight. *)
Definition gives_back (o : string) (op : RefundOp) : bool :=
  match op with
  | RRelease o' | RReleaseAmbiguous o' => bool_decide (o' = o)
  | RReboot _ => true
  | _ => false
  end.

Definition marks_ambiguous (o : string) (op : RefundOp) : bool :=
  match op with RMarkAmbiguous _ o' _ => bool_decide (o' = o) | _ => false end.

Lemma step_keeps_entry o op st :
  gives_back o op = false -> is_Some st -> is_Some (step_state op o st).
Proof.
  intros Hg [st0 ->]. destruct op; cbn [step_state gives_back] in *; try discriminate;
    (match goal with |- context [decide ?P] => destruct (decide P) as [->|] end; [|eauto]);
    try (exfalso; apply bool_decide_eq_false in Hg; congruence); destruct st0; eauto.
Qed.

Lemma step_keeps_commit o op h a l t :
  marks_ambiguous o op = false ->
  step_state op o (Some (Committed h a l t)) = Some (Committed h a l t).
Proof.
  destruct op; cbn [step_state marks_ambiguous]; intros Hm; try done; try (by case_decide).
  apply bool_decide_eq_false in Hm. by rewrite decide_False by congruence.
Qed.

(** C31.  The refund lock.  Over any sequence of ledger operations and
    restarts: once an order is claimed, no other claim for it is granted until
    somebody gives it back (a release, the release of an ambiguous entry, or a
    restart); and once a refund is committed, later calls other than
    [markAmbiguous] for the order, restarts included, keep exactly that first
    result and refuse every further claim.  Hypotheses: the directory accepts
    writes and order ids consist of file-name characters. *)
Theorem refund_lock (pre mid : list RefundOp) (o : string) :
  Forall refund_op_ok pre -> Forall refund_op_ok mid -> plain None o = true ->
  let s := refund_run pre fresh_store in
  ((claim o s).1 = true -> (claim o (refund_run mid (claim o s).2)).1 = true ->
     exists op, op ∈ mid /\ gives_back o op = true) /\
  (forall h a l t, state_of o s = Some (Committed h a l t) ->
     Forall (fun op => marks_ambiguous o op = false) mid ->
     state_of o (refund_run mid s) = Some (Committed h a l t) /\ (claim o (refund_run mid s)).1 = false).
Proof.
  intros Hpre Hmid Ho s. assert (durable s) as Hd by (apply durable_refund_run; [done|apply durable_fresh]).
  split.
  - intros Hc Hc'. rewrite claim_granted in Hc'.
    destruct (existsb (gives_back o) mid) eqn:Hx.
    { apply existsb_exists in Hx as (op & Hin & ?). exists op. by rewrite list_elem_of_In. }
    exfalso. change (claim o s).2 with (refund_op (RClaim o) s) in Hc'.
    rewrite (refund_run_state mid o (refund_op (RClaim o) s)) in Hc' by (done || by apply durable_refund_op).
    assert (is_Some (state_of o (refund_op (RClaim o) s))) as Hsome.
    { rewrite refund_op_state by done. cbn. by rewrite decide_True. }
    revert Hc' Hsome. generalize (state_of o (refund_op (RClaim o) s)). clear -Hx.
    induction mid as [|op mid IH]; intros st Hc Hs; cbn in *; [destruct Hs; congruence|].
    bools. eapply IH; eauto using step_keeps_entry.
  - intros h a l t Hst Hno.
    assert (state_of o (refund_run mid s) = Some (Committed h a l t)) as E.
    { rewrite refund_run_state, Hst by done. clear -Hno.
      induction Hno as [|op mid Hop _ IH]; [done|]. cbn. by rewrite step_keeps_commit. }
    split; [done|]. destruct (claim o (refund_run mid s)).1 eqn:Hc; [|done].
    apply claim_granted in Hc. congruence.
Qed.

Definition demo_refund : RefundResult := mkRefundResult "tx9" "12.3456689" (Some 7).

Lemma refund_lock_witness :
  (claim "o1" (refund_run [] fresh_store)).1 = true /\
  (exists op, op ∈ [RClaim "o1"; RRelease "o1"] /\ gives_back "o1" op = true) /\
  state_of "o1" (refund_run [RClaim "o1"; RReboot map_to_list] (refund_run [RClaim "o1"; RCommit 5 "o1" demo_refund] fresh_store))
    = Some (Committed "tx9" "12.3456689" (Some 7) 5).
Proof.
  split; [reflexivity|]. split.
  - apply (refund_lock [] [RClaim "o1"; RRelease "o1"] "o1"); try reflexivity; repeat constructor.
  - apply (refund_lock [RClaim "o1"; RCommit 5 "o1" demo_refund] [RClaim "o1"; RReboot map_to_list] "o1");
      try reflexivity; repeat apply List.Forall_cons; try apply List.Forall_nil; try reflexivity.
    intros d. reflexivity.
Defined.

(** [commit] keeps the first result, [markAmbiguous] does not look. *)
Lemma ambiguous_overwrites_commit :
  state_of "o1" (refund_run [RClaim "o1"; RCommit 5 "o1" demo_refund; RMarkAmbiguous 6 "o1" "late timeout"] fresh_store)
  = Some (Ambiguous "late timeout" 6).
Proof. vm_compute. reflexivity. Qed.
