(* ===== verification/XlmAmounts.v ===== *)
(** * Stellar amounts

    The integer arithmetic of relayer/src/services/xlm-refund.ts: amounts are
    7-decimal XLM strings at Horizon's boundary and bigint stroops inside.
    [BigInt(text)] is modelled with its grammar (surrounding white space, an
    optional sign before decimal digits, the prefixes 0x, 0o and 0b, the empty
    string as zero); [None] is the SyntaxError it throws.  A JavaScript number
    is the rational it denotes. *)

From S2P Require Import Prelude Text.
From Stdlib Require Import Ascii QArith Qround.
#[local] Open Scope Z_scope.

(** ** Text *)

Definition dot : Ascii.ascii := Ascii.ascii_of_nat 46.

(** The parts before and after the first full stop, if there is one. *)
Fixpoint split_dot (s : string) : option (string * string) :=
  match s with
  | EmptyString => None
  | String c s' =>
      if Ascii.eqb c dot then Some (EmptyString, s')
      else match split_dot s' with Some (a, b) => Some (String c a, b) | None => None end
  end.

Fixpoint zeros (n : nat) : string :=
  match n with O => EmptyString | S n' => String (Ascii.ascii_of_nat 48) (zeros n') end.

Definition padStart (n : nat) (s : string) : string := zeros (n - String.length s) +:+ s.
Definition padEnd (n : nat) (s : string) : string := s +:+ zeros (n - String.length s).

(** ** [BigInt(text)] *)

Definition BigInt_of (s : string) : option Z :=
  match trim s with
  | String "0" (String "x" r) | String "0" (String "X" r) => digits1 16 r
  | String "0" (String "o" r) | String "0" (String "O" r) => digits1 8 r
  | String "0" (String "b" r) | String "0" (String "B" r) => digits1 2 r
  | String "-" r => Z.opp <$> digits1 10 r
  | String "+" r => digits1 10 r
  | t => digits 10 0 t
  end%char.

(** ** Stroops *)

Definition STROOPS_PER_XLM : Z := 10000000.

Definition xlmStringToStroops (xlm : string) : option Z :=
  if negb (truthy_string xlm) then Some 0
  else
    match split_dot (trim xlm) with
    | None => (fun n => n * STROOPS_PER_XLM) <$> BigInt_of (trim xlm)
    | Some (intPart, rawFrac) =>
        let intPart := if truthy_string intPart then intPart else "0" in
        let fracPadded := String.substring 0 7 (padEnd 7 rawFrac) in
        match BigInt_of intPart, BigInt_of fracPadded with
        | Some i, Some f => Some (i * STROOPS_PER_XLM + f)
        | _, _ => None
        end
    end.

Definition stroopsToXlmString (stroops : Z) : string :=
  let n := if stroops <? 0 then 0 else stroops in
  pretty (n ÷ STROOPS_PER_XLM) +:+ "." +:+ padStart 7 (pretty (n `rem` STROOPS_PER_XLM)).

(** ** Fallback amounts *)

(** A value of type number: the rational a finite double denotes. *)
Inductive JsNumber : Type := Finite (q : Q) | NonFinite.

Definition Math_round (q : Q) : Z := Qfloor (q + (1 # 2)).

(** [value.toFixed(7)] for a positive value: the nearest multiple of 1e-7, the
    larger one when two are equally near, printed with seven decimals. *)
Definition toFixed7 (q : Q) : string := stroopsToXlmString (Qfloor (q * inject_Z STROOPS_PER_XLM + (1 # 2))).

Inductive Fallback : Type := FString (s : string) | FNumber (n : JsNumber).

(** [None] is a thrown RangeError or SyntaxError. *)
Definition parseFallbackStroops (value : Fallback) : option Z :=
  match value with
  | FNumber NonFinite => Some 0
  | FNumber (Finite q) =>
      if Qle_bool q 0 then Some 0
      else if Qle_bool (inject_Z 10000000) q then
        if isSafeInteger (Math_round q) then Some (Math_round q) else None
      else xlmStringToStroops (toFixed7 q)
  | FString value =>
      let str := trim value in
      if negb (truthy_string str) || String.eqb str "0" then Some 0
      else if includes str "." then xlmStringToStroops str
      else Some (match BigInt_of str with Some n => if 0 <? n then n else 0 | None => 0 end)
  end.

(** ** Printing and reading back *)

Lemma numeric_digit c : digit_value c < 10 -> is_space c = false /\ Ascii.eqb c dot = false.
Proof. destruct c as [[] [] [] [] [] [] [] []]; vm_compute; intros; split; congruence. Qed.

Lemma numeric_zeros n : numeric (zeros n) = true.
Proof. by induction n. Qed.

Lemma length_pretty_go k n s :
  (n < 10 ^ N.of_nat k)%N -> (String.length (pretty_N_go n s) <= k + String.length s)%nat.
Proof.
  revert n s. induction k as [|k IH]; intros n s Hn.
  - replace n with 0%N by (cbn in Hn; lia). by rewrite pretty_N_go_0.
  - destruct (decide (n = 0)%N) as [->|Hn0]; [rewrite pretty_N_go_0; lia|].
    rewrite pretty_N_go_step by lia. etrans; [apply IH|cbn; lia].
    apply N.Div0.div_lt_upper_bound. rewrite Nat2N.inj_succ, N.pow_succ_r' in Hn. lia.
Qed.

Lemma length_pretty (n : N) : (n < 10 ^ 7)%N -> (String.length (pretty n) <= 7)%nat.
Proof.
  intros Hn. unfold pretty, pretty_N. case_decide; [cbn; lia|].
  pose proof (length_pretty_go 7 n "" Hn). cbn [String.length] in *. lia.
Qed.

Lemma length_zeros n : String.length (zeros n) = n.
Proof. induction n; cbn; congruence. Qed.

Lemma digits_zeros n s : digits 10 0 (zeros n +:+ s) = digits 10 0 s.
Proof. induction n as [|n IH]; [done|]. exact IH. Qed.

(** No character of [s] is white space. *)
Fixpoint spaceless (s : string) : bool :=
  match s with EmptyString => true | String c s' => negb (is_space c) && spaceless s' end.

Lemma trim_spaceless s : spaceless s = true -> trim s = s.
Proof.
  intros Hs. unfold trim.
  assert (trimStart s = s) as -> by (destruct s; cbn in *; [done|]; by destruct (is_space a)).
  induction s as [|c s IH]; [done|]. cbn in *. bools. rewrite IH by done. destruct s; [|done].
  destruct (is_space c); done.
Qed.

Lemma spaceless_app a b : spaceless (a +:+ b) = spaceless a && spaceless b.
Proof.
  induction a as [|c a IH]; [done|]. change (negb (is_space c) && spaceless (a +:+ b) = spaceless (String c a) && spaceless b).
  cbn. by rewrite IH, andb_assoc.
Qed.

Lemma spaceless_numeric s : numeric s = true -> spaceless s = true.
Proof.
  induction s as [|c s IH]; [done|]. cbn. intros [Hc%Z.ltb_lt Hs]%andb_true_iff.
  destruct (numeric_digit c Hc) as [-> _]. by apply IH.
Qed.

Lemma split_dot_numeric a b : numeric a = true -> split_dot (a +:+ "." +:+ b) = Some (a, b).
Proof.
  induction a as [|c a IH]; intros Ha; [done|].
  change (split_dot (String c (a +:+ "." +:+ b)) = Some (String c a, b)). cbn [split_dot numeric] in *.
  apply andb_true_iff in Ha as [Hc%Z.ltb_lt Ha]. destruct (numeric_digit c Hc) as [_ ->]. by rewrite IH.
Qed.

Lemma BigInt_numeric s : numeric s = true -> BigInt_of s = digits 10 0 s.
Proof.
  intros Hs. unfold BigInt_of. rewrite trim_spaceless by (by apply spaceless_numeric).
  destruct s as [|c [|c' s]]; [done|..]; cbn [numeric] in Hs; bools;
    destruct c as [[] [] [] [] [] [] [] []]; try done;
    destruct c' as [[] [] [] [] [] [] [] []]; done.
Qed.

Lemma BigInt_pretty (n : N) : BigInt_of (pretty n) = Some (Z.of_N n).
Proof. rewrite BigInt_numeric by apply numeric_pretty. apply digits_pretty. Qed.

Lemma padStart_length n s : (String.length s <= n)%nat -> String.length (padStart n s) = n.
Proof.
  intros H. unfold padStart.
  assert (forall a b, String.length (a +:+ b) = (String.length a + String.length b)%nat) as Happ.
  { induction a as [|c a IH]; intros b; [done|]. change (S (String.length (a +:+ b)) = S (String.length a + String.length b)%nat). by rewrite IH. }
  rewrite Happ, length_zeros. lia.
Qed.

Lemma substring_full s : String.substring 0 (String.length s) s = s.
Proof. induction s as [|c s IH]; [done|]. cbn. by rewrite IH. Qed.

Lemma padEnd_full s : padEnd (String.length s) s = s.
Proof. unfold padEnd. rewrite Nat.sub_diag. cbn. induction s as [|c s IH]; [done|]. change (String c (s +:+ "") = String c s). by rewrite IH. Qed.

(** Stellar amounts survive their text form: printing any bigint
    number of stroops as a 7-decimal XLM string and reading it back gives the
    same number of stroops (zero for a negative one, which the printer
    clamps), for amounts of any size and with no rounding. *)
Lemma stroops_round_trip (n : Z) : xlmStringToStroops (stroopsToXlmString n) = Some (Z.max 0 n).
Proof.
  unfold stroopsToXlmString.
  assert ((if n <? 0 then 0 else n) = Z.max 0 n) as -> by (destruct (Z.ltb_spec n 0); lia).
  set (m := Z.max 0 n). assert (0 <= m) as Hm by lia.
  unfold STROOPS_PER_XLM. rewrite Z.quot_div_nonneg, Z.rem_mod_nonneg by lia.
  pose proof (Z.mod_pos_bound m 10000000 ltac:(lia)) as Hr. pose proof (Z.div_pos m 10000000 Hm ltac:(lia)) as Hq.
  rewrite !pretty_Z_N by lia. set (q := Z.to_N (m / 10000000)). set (r := Z.to_N (m mod 10000000)).
  assert (String.length (pretty r) <= 7)%nat as Hlen by (apply length_pretty; unfold r; cbn; lia).
  assert (numeric (padStart 7 (pretty r)) = true) as Hnum.
  { unfold padStart. by rewrite numeric_app, numeric_zeros, numeric_pretty. }
  assert (spaceless (pretty q +:+ "." +:+ padStart 7 (pretty r)) = true) as Hsp.
  { rewrite !spaceless_app, (spaceless_numeric (pretty q)), (spaceless_numeric (padStart 7 _))
      by (done || apply numeric_pretty). done. }
  unfold xlmStringToStroops. rewrite trim_spaceless, split_dot_numeric by (done || apply numeric_pretty).
  rewrite truthy_app by apply pretty_nonempty.
  cbn [negb]. rewrite pretty_nonempty, BigInt_pretty.
  pose proof (padStart_length 7 (pretty r) Hlen) as Hl.
  rewrite <- Hl at 2. rewrite padEnd_full. rewrite <- Hl at 1. rewrite substring_full.
  rewrite BigInt_numeric by done. unfold padStart. rewrite digits_zeros, digits_pretty.
  f_equal. unfold q, r, STROOPS_PER_XLM. pose proof (Z.div_mod m 10000000 ltac:(lia)). lia.
Qed.

(** The examples of the source's comments. *)
Example stroops_examples :
  xlmStringToStroops "12.3456789" = Some 123456789 /\ xlmStringToStroops "12" = Some 120000000 /\
  xlmStringToStroops "0.0000001" = Some 1 /\ stroopsToXlmString 123456789 = "12.3456789" /\
  stroopsToXlmString 1 = "0.0000001" /\ stroopsToXlmString 0 = "0.0000000".
Proof. vm_compute. done. Qed.

(** A whole-number string is stroops to [parseFallbackStroops] and XLM to
    [xlmStringToStroops]. *)
Example whole_amounts_differ :
  parseFallbackStroops (FString "12") = Some 12 /\ parseFallbackStroops (FString "12.0") = Some 120000000 /\
  parseFallbackStroops (FNumber (Finite 12)) = Some 120000000.
Proof. vm_compute. done. Qed.
