(* ===== verification/XlmRefund.v ===== *)
(** * Refund payments

    relayer/src/services/xlm-refund.ts: [refundXlmToUser] sizes a refund,
    submits it to Horizon with retries, and records it in the refund ledger.
    The Stellar SDK and the Horizon server are the record [Horizon]: each
    answer is an arbitrary function of the calls made so far, so any sequence
    of answers, errors and clock readings is covered.  The calls, in order,
    are the log the theorems are about; waiting is a call too. *)

From S2P Require Import Prelude JsMap FileStore RefundLedger XlmAmounts.

(** ** Errors *)

Inductive RefundError : Type :=
| HorizonTimeoutError (message : string)
| HorizonTerminalError (message resultCode : string)
| HorizonTransientError (message : string)
| RefundAmountUnknownError (orderId : string)
| OtherError (message : string).

(** What the SDK throws: [{ response: { status, data }, code, message }]. *)
Record HorizonResponse : Type := mkHorizonResponse {
  status : option Z;
  transaction_code : option string;
  operation_codes : list string;
}.
Record RawError : Type := mkRawError {
  response : option HorizonResponse;
  raw_code : option string;
  raw_message : string;
}.

(** A caught value. *)
Inductive Caught : Type := Typed (e : RefundError) | Raw (e : RawError) | Undefined.

Definition js_error (message : string) : Caught := Raw (mkRawError None None message).

Definition TERMINAL_RESULT_CODES : list string :=
  ["tx_bad_auth"; "tx_insufficient_balance"; "tx_no_source_account"; "tx_bad_auth_extra"; "tx_internal_error";
   "op_no_destination"; "op_no_trust"; "op_line_full"; "op_not_authorized"; "op_bad_asset"].

Definition mem_str (s : string) (l : list string) : bool := bool_decide (s ∈ l).

(** The message of a caught value, [(err as Error)?.message ?? String(err)]. *)
Definition caught_message (e : Caught) : string :=
  match e with
  | Raw r => raw_message r
  | Typed (HorizonTimeoutError m) | Typed (HorizonTerminalError m _) | Typed (HorizonTransientError m)
  | Typed (OtherError m) => m
  | Typed (RefundAmountUnknownError o) =>
      "[xlm-refund] Cannot determine refund amount for orderId=" +:+ o +:+
      ". Provide stellarTxHash or fallbackStroops. Deferring."
  | Undefined => "undefined"
  end.

Definition join_codes (l : list string) : string := String.concat ", " l.

(** The branch of a 400 response. *)
Definition classify_rejection (msg : string) (r : HorizonResponse) : RefundError :=
  let txCode := default "" (transaction_code r) in
  let allCodes := List.filter truthy_string (txCode :: operation_codes r) in
  if String.eqb txCode "tx_bad_seq" then
    HorizonTerminalError "Horizon rejected: tx_bad_seq (stale sequence number)" "tx_bad_seq"
  else if String.eqb txCode "tx_insufficient_fee" then
    HorizonTerminalError "Horizon rejected: tx_insufficient_fee" "tx_insufficient_fee"
  else
    match List.find (fun c => mem_str c TERMINAL_RESULT_CODES) allCodes with
    | Some c =>
        HorizonTerminalError ("Horizon rejected transaction with terminal code: " +:+ c +:+ " (all codes: " +:+
                              join_codes allCodes +:+ ")") c
    | None =>
        HorizonTransientError ("Horizon 400 with unknown result codes: " +:+ join_codes allCodes +:+
                               " — may be retryable. (" +:+ msg +:+ ")")
    end.

Definition classifyHorizonError (err : Caught) : RefundError :=
  let msg := caught_message err in
  let network :=
    if includes msg "timeout" || includes msg "ETIMEDOUT" || includes msg "ECONNRESET" || includes msg "socket hang up"
    then HorizonTimeoutError ("Network timeout during Horizon submit: " +:+ msg)
    else HorizonTransientError ("Unknown Horizon error: " +:+ msg) in
  match err with
  | Typed (HorizonTimeoutError _ as e) | Typed (HorizonTerminalError _ _ as e) | Typed (HorizonTransientError _ as e) => e
  | Raw (mkRawError (Some r) code _) =>
      let st := default 0 (status r) in
      if (st =? 504) || (st =? 408) || bool_decide (code = Some "ECONNABORTED") then
        HorizonTimeoutError ("Horizon returned " +:+ pretty st +:+ " — transaction may have landed. " +:+
                             "Do not retry immediately. (" +:+ msg +:+ ")")
      else if st =? 400 then classify_rejection msg r
      else if 500 <=? st then
        HorizonTransientError ("Horizon " +:+ pretty st +:+ " error — transient. (" +:+ msg +:+ ")")
      else network
  | _ => network
  end.

(** ** Horizon *)

Inductive HorizonCall : Type :=
| COperations (txHash : string)
| CLoadAccount (publicKey : string)
| CSubmit (fee : Z) (destination amount memo : string)
| CTransactions (publicKey : string)
| CSleep (ms : Z).

Definition is_submit (c : HorizonCall) : bool := match c with CSubmit _ _ _ _ => true | _ => false end.

Record HorizonOp : Type := mkHorizonOp { op_type : string; op_to : string; op_asset_type : string; op_amount : string }.
Record HorizonTx : Type := mkHorizonTx { tx_hash : string; tx_memo : option string; tx_ledger : option Z }.

Record Horizon : Type := mkHorizon {
  operations : list HorizonCall -> string -> outcome RawError (list HorizonOp);
  loadAccount : list HorizonCall -> string -> outcome RawError unit;
  submitTransaction : list HorizonCall -> outcome RawError (string * option Z);
  transactions : list HorizonCall -> string -> outcome RawError (list HorizonTx);
  (** [Keypair.fromSecret(secret).publicKey()], or its error. *)
  publicKey : string -> outcome RawError string;
  (** Building the payment: an error for a bad destination or amount, else
      the amount the built transaction carries. *)
  build : Z -> string -> string -> string -> outcome RawError string;
  BASE_FEE : Z;
  clock : list HorizonCall -> Z;
}.

Record World : Type := mkWorld { calls : list HorizonCall; ledger : RefundLedger }.
Definition RM (A : Type) : Type := ST World Caught A.

Definition with_ledger (f : RefundLedger -> RefundLedger) (w : World) : World := mkWorld (calls w) (f (ledger w)).

(** Make a call; the answer depends on the calls before it. *)
Definition horizon_call {A} (c : HorizonCall) (answer : list HorizonCall -> outcome RawError A) : RM A := fun w =>
  let w' := mkWorld (calls w ++ [c]) (ledger w) in
  match answer (calls w) with Ok a => (Ok a, w') | Throw e => (Throw (Raw e), w') end.

Definition lift {A} (o : outcome RawError A) : RM A :=
  match o with Ok a => mret a | Throw e => throw (Raw e) end.

(** A [BigInt] that may throw. *)
Definition bigint (o : option Z) : RM Z :=
  match o with Some n => mret n | None => throw (js_error "Cannot convert to a BigInt") end.

Definition sleep (ms : Z) : RM unit := fun w => (Ok tt, mkWorld (calls w ++ [CSleep ms]) (ledger w)).

(** ** The refund *)

Record RefundXlmArgs : Type := mkRefundXlmArgs {
  ra_orderId : string;
  ra_stellarAddress : string;
  ra_stellarTxHash : option string;
  ra_refundSecret : string;
  ra_fallbackStroops : option Fallback;
  ra_useLedger : bool;
  ra_maxRetries : Z;
  ra_feeBumpCapStroops : Z;
}.

Record RefundXlmResult : Type := mkRefundXlmResult {
  rx_hash : string;
  rx_amount : string;
  rx_stroops : Z;
  rx_ledger : option Z;
  rx_fromCache : bool;
}.

Definition MIN_REFUND_STROOPS : Z := 1.
Definition TX_FEE_STROOPS : Z := 100.
Definition DEFAULT_FEE_BUMP_CAP_STROOPS : Z := 10000.

Section Refund.
Context (hz : Horizon).

Definition payment_to (pk : string) (op : HorizonOp) : bool :=
  String.eqb (op_type op) "payment" && String.eqb (op_to op) pk && String.eqb (op_asset_type op) "native".

(** The original payment's amount, when Horizon knows it; every error of the
    lookup is caught. *)
Definition lookup_payment (pk txHash : string) : RM (option Z) :=
  try_catch
    (ops ← horizon_call (COperations txHash) (fun h => operations hz h txHash);
     match List.find (payment_to pk) ops with
     | None => mret None
     | Some op =>
         stroops ← bigint (xlmStringToStroops (op_amount op));
         mret (if 0 <? stroops then Some stroops else None)
     end)
    (fun _ => mret None).

Definition resolveRefundStroops (pk : string) (args : RefundXlmArgs) : RM Z :=
  found ← match ra_stellarTxHash args with
          | Some h => if truthy_string h then lookup_payment pk h else mret None
          | None => mret None
          end;
  match found with
  | Some n => mret n
  | None =>
      parsed ← match ra_fallbackStroops args with
               | Some v => bigint (parseFallbackStroops v)
               | None => mret 0
               end;
      if 0 <? parsed then mret parsed else throw (Typed (RefundAmountUnknownError (ra_orderId args)))
  end.

Definition loadAccountWithClassification (pk : string) : RM unit :=
  try_catch (horizon_call (CLoadAccount pk) (fun h => loadAccount hz h pk))
    (fun e => throw (Typed (classifyHorizonError e))).

Definition submitWithClassification (fee : Z) (destination amount memo txAmount : string) : RM RefundXlmResult :=
  raw ← try_catch (horizon_call (CSubmit fee destination amount memo) (submitTransaction hz))
          (fun e => throw (Typed (classifyHorizonError e)));
  stroops ← bigint (xlmStringToStroops txAmount);
  mret (mkRefundXlmResult raw.1 (stroopsToXlmString stroops) stroops raw.2 false).

(** Reload the account, build, sign and submit. *)
Definition submitOnce (pk destination amount memo : string) (fee : Z) : RM RefundXlmResult :=
  _ ← loadAccountWithClassification pk;
  txAmount ← lift (build hz fee destination amount memo);
  submitWithClassification fee destination amount memo txAmount.

(** [ledger.commit] after a successful submission. *)
Definition commit_result (args : RefundXlmArgs) (r : RefundXlmResult) : RM unit := fun w =>
  (Ok tt,
   if ra_useLedger args then
     with_ledger (commit (clock hz (calls w)) (ra_orderId args)
                    (mkRefundResult (rx_hash r) (rx_amount r) (rx_ledger r))) w
   else w).

(** What the loop does with a failed attempt: throw, or try again with this
    fee after this delay. *)
Inductive Decision : Type := Abandon (e : Caught) | Again (fee delay : Z).

Definition after_failure (args : RefundXlmArgs) (attempt fee : Z) (err : Caught) : Decision :=
  let more := attempt <? ra_maxRetries args in
  match err with
  | Typed (HorizonTimeoutError _) => Abandon err
  | Typed (HorizonTerminalError _ code) =>
      if String.eqb code "tx_bad_seq" then if more then Again fee 0 else Abandon err
      else if String.eqb code "tx_insufficient_fee" then
        let nextFee := fee * 2 in
        if ra_feeBumpCapStroops args <? nextFee then
          Abandon (Typed (HorizonTerminalError
            ("Fee-bump cap of " +:+ pretty (ra_feeBumpCapStroops args) +:+ " stroops exceeded (would need " +:+
             pretty nextFee +:+ ")") "fee_bump_cap_exceeded"))
        else if more then Again nextFee 0 else Abandon err
      else Abandon err
  | _ => if more then Again fee (Z.min 30000 (1000 * 2 ^ attempt)) else Abandon err
  end.

(** The retry loop.  Each iteration increments [attempt], so the fuel
    [maxRetries + 1 - attempt] is the number of iterations left; a loop that
    never runs throws [undefined]. *)
Fixpoint attempts (pk amount memo : string) (args : RefundXlmArgs) (fuel : nat) (attempt fee : Z)
    : RM RefundXlmResult :=
  match fuel with
  | O => throw Undefined
  | S fuel' => fun w =>
      match submitOnce pk (ra_stellarAddress args) amount memo fee w with
      | (Ok r, w') => (_ ← commit_result args r; mret r) w'
      | (Throw err, w') =>
          match after_failure args attempt fee err with
          | Abandon e => (Throw e, w')
          | Again fee' delay =>
              (_ ← (if 0 <? delay then sleep delay else mret tt);
               attempts pk amount memo args fuel' (attempt + 1) fee') w'
          end
      end
  end.

Definition memo_for (orderId : string) : string :=
  "Refund:" +:+ String.substring 0 20 (if truthy_string orderId then orderId else "unknown").

Definition refund_amount (stroops : Z) : Z :=
  if TX_FEE_STROOPS <? stroops then stroops - TX_FEE_STROOPS else MIN_REFUND_STROOPS.

(** From the SDK import on. *)
Definition pay_refund (args : RefundXlmArgs) : RM RefundXlmResult :=
  pk ← lift (publicKey hz (ra_refundSecret args));
  stroops ← resolveRefundStroops pk args;
  attempts pk (stroopsToXlmString (refund_amount stroops)) (memo_for (ra_orderId args)) args
    (Z.to_nat (ra_maxRetries args + 1)) 0 (BASE_FEE hz).

Definition duplicate_message (o : string) (p : Phase) : string :=
  "[xlm-refund] Duplicate refund attempt for orderId=" +:+ o +:+ " (current state: " +:+ phase_name p +:+
  "). Call RefundLedger.claim() before invoking refundXlmToUser.".

Definition refundXlmToUser (args : RefundXlmArgs) : RM RefundXlmResult :=
  if ra_feeBumpCapStroops args <=? 0 then
    throw (Typed (HorizonTerminalError
      ("[xlm-refund] Invalid feeBumpCapStroops=" +:+ pretty (ra_feeBumpCapStroops args) +:+
       ": must be a positive bigint (> 0 stroops).") "invalid_fee_bump_cap"))
  else
    existing ← gets (fun w => if ra_useLedger args then getEntry (ra_orderId args) (ledger w) else None);
    match re_state <$> existing with
    | Some (Committed txHash amount ledger _) =>
        stroops ← bigint (xlmStringToStroops amount);
        mret (mkRefundXlmResult txHash amount stroops ledger true)
    | Some InFlight => throw (js_error (duplicate_message (ra_orderId args) in_flight))
    | Some (Ambiguous _ _) => throw (js_error (duplicate_message (ra_orderId args) ambiguous))
    | None => pay_refund args
    end.
End Refund.

(** ** The log of a refund *)

Section RefundLog.
Context (hz : Horizon).

(** The built transaction carries the amount it was given. *)
Definition carries_amount : Prop :=
  forall fee d a m x, build hz fee d a m = Ok x -> x = a.

Definition is_timeout (e : RefundError) : bool := match e with HorizonTimeoutError _ => true | _ => false end.

(** Horizon answered this submission with an error that is not a timeout. *)
Definition rejected (h : list HorizonCall) : Prop :=
  exists e, submitTransaction hz h = Throw e /\ is_timeout (classifyHorizonError (Raw e)) = false.

Definition all_rejected (h tr : list HorizonCall) : Prop :=
  forall pre c post, tr = pre ++ c :: post -> is_submit c = true -> rejected (h ++ pre).

(** Whatever follows a submission follows a rejected one. *)
Definition resubmits_only_rejected (h tr : list HorizonCall) : Prop :=
  forall pre c post, tr = pre ++ c :: post -> is_submit c = true -> post <> [] -> rejected (h ++ pre).

Lemma all_rejected_no_submit h tr : Forall (fun c => is_submit c = false) tr -> all_rejected h tr.
Proof.
  intros Hf pre c post -> Hc. apply Forall_app in Hf as [_ Hf]. apply Forall_cons in Hf as [Hf _]. congruence.
Qed.

Lemma resubmits_app h a b :
  all_rejected h a -> resubmits_only_rejected (h ++ a) b -> resubmits_only_rejected h (a ++ b).
Proof.
  intros Ha Hb pre c post E Hc Hpost. apply app_eq_app in E as (k & [[-> E]|[-> E]]).
  - destruct k as [|c' k]; cbn in E.
    + rewrite app_nil_r in *. rewrite <- (app_nil_r (h ++ pre)). by eapply (Hb [] c post).
    + simplify_eq. by eapply (Ha pre c').
  - rewrite app_assoc. by eapply Hb.
Qed.

Lemma resubmits_last h tr c : all_rejected h tr -> resubmits_only_rejected h (tr ++ [c]).
Proof.
  intros Ha pre c' post E Hc Hpost. apply app_eq_app in E as (k & [[-> E]|[-> E]]).
  - destruct k as [|c'' k]; cbn in E; simplify_eq; try done. by eapply (Ha pre c'').
  - destruct k as [|c'' k]; cbn in E; simplify_eq; try done. by destruct k.
Qed.

Lemma resubmits_none h tr : Forall (fun c => is_submit c = false) tr -> resubmits_only_rejected h tr.
Proof. intros Hf pre c post E Hc _. by eapply all_rejected_no_submit. Qed.

(** One attempt, by the answers of Horizon. *)
Lemma submitOnce_cases pk d n memo fee w r w' :
  carries_amount -> submitOnce hz pk d (stroopsToXlmString n) memo fee w = (r, w') ->
  ledger w' = ledger w /\
  ((calls w' = calls w ++ [CLoadAccount pk] /\ exists e, r = Throw e) \/
   (calls w' = calls w ++ [CLoadAccount pk; CSubmit fee d (stroopsToXlmString n) memo] /\
    let h := calls w ++ [CLoadAccount pk] in
    ((exists e, submitTransaction hz h = Throw e /\ r = Throw (Typed (classifyHorizonError (Raw e)))) \/
     (exists x res, submitTransaction hz h = Ok x /\ r = Ok res /\ rx_hash res = x.1 /\
        rx_amount res = stroopsToXlmString (Z.max 0 n))))).
Proof.
  intros Hc. unfold submitOnce, loadAccountWithClassification, submitWithClassification, horizon_call.
  st_unfold. destruct (loadAccount hz (calls w) pk) as [[]|e]; cbn.
  - destruct (build hz fee d (stroopsToXlmString n) memo) as [x|e] eqn:Eb; cbn.
    + apply Hc in Eb as ->. rewrite stroops_round_trip.
      destruct (submitTransaction hz (calls w ++ [CLoadAccount pk])) as [[h l]|e] eqn:Es; cbn; intros; simplify_eq; cbn.
      * split; [done|]. right. rewrite <- app_assoc. split; [done|]. right. by eexists _, _.
      * split; [done|]. right. rewrite <- app_assoc. split; [done|]. left. by eexists.
    + intros; simplify_eq; cbn. eauto 6.
  - intros; simplify_eq; cbn. eauto 6.
Qed.

Definition same_payment (pk d amount memo : string) (maxfee : Z) (c : HorizonCall) : Prop :=
  match c with
  | CSubmit fee d' a m => fee <= maxfee /\ d' = d /\ a = amount /\ m = memo
  | CLoadAccount pk' => pk' = pk
  | CSleep ms => 0 < ms <= 30000
  | _ => False
  end.

Definition submits (tr : list HorizonCall) : nat := length (List.filter is_submit tr).

Lemma submits_app a b : submits (a ++ b) = (submits a + submits b)%nat.
Proof. unfold submits. by rewrite List.filter_app, length_app. Qed.

(** A retry keeps the fee under the cap, waits at most 30 seconds and never
    follows a timeout. *)
Lemma after_failure_again args attempt fee err fee' delay :
  0 <= attempt -> 0 <= fee ->
  after_failure args attempt fee err = Again fee' delay ->
  0 <= fee' /\ fee' <= Z.max fee (ra_feeBumpCapStroops args) /\ 0 <= delay <= 30000 /\
  forall m, err <> Typed (HorizonTimeoutError m).
Proof.
  intros Ha Hf. pose proof (Z.pow_pos_nonneg 2 attempt ltac:(lia) Ha). unfold after_failure.
  destruct err as [[m|m c|m|o|m]|e|]; repeat case_match; intros; simplify_eq; bools;
    split_and!; try lia; try (by intros ? [=]).
Qed.

(** How a run of the loop ends. *)
Definition ends_well (args : RefundXlmArgs) (amount memo : string) (w : World) (tr : list HorizonCall)
    (r : outcome Caught RefundXlmResult) (w' : World) : Prop :=
  match r with
  | Ok res =>
      (exists pre fee x, tr = pre ++ [CSubmit fee (ra_stellarAddress args) amount memo] /\
         submitTransaction hz (calls w ++ pre) = Ok x /\ rx_hash res = x.1) /\
      rx_amount res = amount /\
      ledger w' = (if ra_useLedger args then
                     commit (clock hz (calls w')) (ra_orderId args)
                       (mkRefundResult (rx_hash res) (rx_amount res) (rx_ledger res)) (ledger w)
                   else ledger w)
  | Throw _ => ledger w' = ledger w
  end.

Lemma ends_well_app args amount memo w w1 a b r w' :
  calls w1 = calls w ++ a -> ledger w1 = ledger w ->
  ends_well args amount memo w1 b r w' -> ends_well args amount memo w (a ++ b) r w'.
Proof.
  intros Ea El. destruct r as [res|e]; cbn; rewrite El; [|done].
  intros [(pre & fee & x & -> & Hs & Hh) ?]. split; [|done].
  exists (a ++ pre), fee, x. split; [by rewrite app_assoc|]. by rewrite app_assoc, <- Ea.
Qed.

(** The log of one attempt. *)
Lemma submitOnce_log pk n memo args fee w r w' :
  carries_amount -> 0 <= n ->
  let amount := stroopsToXlmString n in
  let d := ra_stellarAddress args in
  submitOnce hz pk d amount memo fee w = (r, w') ->
  exists t, calls w' = calls w ++ t /\ ledger w' = ledger w /\ (submits t <= 1)%nat /\
    Forall (same_payment pk d amount memo (Z.max fee (ra_feeBumpCapStroops args))) t /\
    resubmits_only_rejected (calls w) t /\
    match r with
    | Ok res => (exists x, t = [CLoadAccount pk] ++ [CSubmit fee d amount memo] /\
                  submitTransaction hz (calls w ++ [CLoadAccount pk]) = Ok x /\ rx_hash res = x.1) /\ rx_amount res = amount
    | Throw err => (forall m, err <> Typed (HorizonTimeoutError m)) -> all_rejected (calls w) t
    end.
Proof.
  intros Hc Hn amount d E. destruct (submitOnce_cases pk _ n memo fee w r w' Hc E) as [El [[Ec [e ->]]|[Ec Hcases]]].
  - exists [CLoadAccount pk].
    split_and!; [done|done|cbn; lia|by repeat constructor|by apply resubmits_none; repeat constructor|].
    intros _. apply all_rejected_no_submit. by repeat constructor.
  - exists ([CLoadAccount pk] ++ [CSubmit fee d amount memo]).
    split_and!; [done|done|cbn; lia|repeat constructor; lia| |].
    { apply resubmits_last, all_rejected_no_submit. by repeat constructor. }
    destruct Hcases as [(e & He & ->)|(x & res & Hx & -> & Hh & Hamt)].
    + intros Hnt pre c post Epre Hsub. destruct pre as [|c0 [|c1 pre]]; cbn in Epre;
        [injection Epre as <- _; done| |by destruct pre]. injection Epre as <- _ _.
      exists e. split; [done|]. destruct (classifyHorizonError (Raw e)) eqn:Ecl; try done. by destruct (Hnt message).
    + split; [eauto|]. rewrite Hamt. unfold amount. f_equal. lia.
Qed.

Lemma all_rejected_app h a b :
  all_rejected h a -> Forall (fun c => is_submit c = false) b -> all_rejected h (a ++ b).
Proof.
  intros Ha Hb pre c post E Hsub. apply app_eq_app in E as (k & [[-> Ek]|[-> Ek]]).
  - destruct k as [|c' k]; cbn in Ek; simplify_eq.
    + apply Forall_cons in Hb as [? _]. congruence.
    + by eapply (Ha pre c').
  - rewrite Ek in Hb. apply Forall_app in Hb as [_ [? _]%Forall_cons]. congruence.
Qed.

(** The pause before a retry. *)
Definition pause (delay : Z) : list HorizonCall := if 0 <? delay then [CSleep delay] else [].

Lemma pause_spec delay w :
  (if 0 <? delay then sleep delay else mret tt) w = (Ok tt, mkWorld (calls w ++ pause delay) (ledger w)).
Proof. unfold pause. destruct (0 <? delay); [done|]. rewrite app_nil_r. by destruct w. Qed.

Lemma commit_result_spec args res w :
  commit_result hz args res w =
  (Ok tt, mkWorld (calls w) (if ra_useLedger args then
     commit (clock hz (calls w)) (ra_orderId args) (mkRefundResult (rx_hash res) (rx_amount res) (rx_ledger res)) (ledger w)
   else ledger w)).
Proof. unfold commit_result. destruct (ra_useLedger args); [done|]. by destruct w. Qed.

Lemma attempts_log pk n memo args fuel attempt fee w r w' :
  carries_amount -> 0 <= n -> 0 <= attempt -> 0 <= fee ->
  let amount := stroopsToXlmString n in
  attempts hz pk amount memo args fuel attempt fee w = (r, w') ->
  exists tr, calls w' = calls w ++ tr /\ (submits tr <= fuel)%nat /\
    Forall (same_payment pk (ra_stellarAddress args) amount memo (Z.max fee (ra_feeBumpCapStroops args))) tr /\
    resubmits_only_rejected (calls w) tr /\ ends_well args amount memo w tr r w'.
Proof.
  intros Hc Hn Ha Hf amount. revert attempt fee w Ha Hf.
  induction fuel as [|fuel IH]; intros attempt fee w Ha Hf E.
  { cbn in E. unfold throw in E. simplify_eq. exists []. rewrite app_nil_r.
    split_and!; [done|done|constructor|by apply resubmits_none|done]. }
  cbn [attempts] in E. destruct (submitOnce hz pk (ra_stellarAddress args) amount memo fee w) as [r1 w1] eqn:E1.
  destruct (submitOnce_log pk n memo args fee w r1 w1 Hc Hn E1) as (t1 & Ec1 & El1 & Hs1 & Hp1 & Hr1 & Hend).
  destruct r1 as [res|err]; [|destruct (after_failure args attempt fee err) as [e|fee' delay] eqn:Ed].
  - rewrite (bind_ok _ _ _ _ _ (commit_result_spec args res w1)) in E. unfold mret, st_ret in E. simplify_eq.
    destruct Hend as [(x & -> & Hx & Hh) Hamt]. exists ([CLoadAccount pk] ++ [CSubmit fee (ra_stellarAddress args) amount memo]).
    split_and!; [done|cbn; lia|done|done|]. cbn [ends_well calls ledger]. rewrite El1. split_and!; [|done|done].
    by exists [CLoadAccount pk], fee, x.
  - simplify_eq. exists t1. split_and!; [done|lia|done|done|done].
  - destruct (after_failure_again args attempt fee err fee' delay Ha Hf Ed) as (Hf' & Hfee & Hd & Hnt).
    rewrite (bind_ok _ _ _ _ _ (pause_spec delay w1)) in E.
    destruct (IH (attempt + 1) fee' _ ltac:(lia) Hf' E) as (t3 & Ec3 & Hs3 & Hp3 & Hr3 & Hend3). cbn [calls] in Ec3, Hr3.
    assert (Forall (fun c => is_submit c = false) (pause delay)) as Ht2 by (unfold pause; destruct (0 <? delay); by repeat constructor).
    rewrite Ec1 in Ec3, Hr3. rewrite <- app_assoc in Hr3.
    exists ((t1 ++ pause delay) ++ t3). split_and!.
    + by rewrite Ec3, !app_assoc.
    + rewrite !submits_app. assert (submits (pause delay) = 0%nat) by (unfold pause; by destruct (0 <? delay)). lia.
    + apply Forall_app. split; [apply Forall_app; split; [done|]|].
      * unfold pause. destruct (Z.ltb_spec 0 delay); [|done]. repeat constructor; lia.
      * eapply Forall_impl; [exact Hp3|]. intros [| | fee0 | |]; cbn; try done. intros [? ?]. split; [lia|done].
    + apply resubmits_app; [by apply all_rejected_app; [apply Hend|]|done].
    + eapply ends_well_app; [| |exact Hend3]; cbn; [by rewrite Ec1, app_assoc|done].
Qed.
End RefundLog.

Lemma lookup_payment_log hz pk h w r w' :
  lookup_payment hz pk h w = (r, w') ->
  calls w' = calls w ++ [COperations h] /\ ledger w' = ledger w /\
  exists o, r = Ok o /\ forall n, o = Some n -> 0 < n.
Proof.
  unfold lookup_payment, horizon_call. st_unfold.
  destruct (operations hz (calls w) h) as [ops|e]; cbn; [|by intros; simplify_eq; split_and!; [..|exists None]].
  destruct (List.find (payment_to pk) ops) as [op|]; cbn; [|by intros; simplify_eq; split_and!; [..|exists None]].
  destruct (xlmStringToStroops (op_amount op)) as [n|]; cbn; [|by intros; simplify_eq; split_and!; [..|exists None]].
  intros; simplify_eq. split_and!; [done..|]. exists (if 0 <? n then Some n else None). split; [done|].
  intros m. destruct (Z.ltb_spec 0 n); intros [= <-]. done.
Qed.

Definition is_lookup (c : HorizonCall) : Prop := exists h, c = COperations h.

Lemma resolve_log hz pk args w r w' :
  resolveRefundStroops hz pk args w = (r, w') ->
  exists tr, calls w' = calls w ++ tr /\ Forall is_lookup tr /\ ledger w' = ledger w /\
  forall n, r = Ok n -> 0 < n.
Proof.
  intros E. unfold resolveRefundStroops in E.
  assert (exists o tr w1, (match ra_stellarTxHash args with
      | Some h => if truthy_string h then lookup_payment hz pk h else mret None
      | None => mret None end) w = (Ok o, w1) /\ calls w1 = calls w ++ tr /\
      Forall is_lookup tr /\ ledger w1 = ledger w /\ (forall n, o = Some n -> 0 < n))
    as (o & tr & w1 & E1 & Ec & Hf & El & Hn).
  { destruct (ra_stellarTxHash args) as [h|]; [destruct (truthy_string h)|]; [|exists None, [], w; by rewrite app_nil_r..].
    destruct (lookup_payment hz pk h w) as [r1 w1] eqn:E1.
    destruct (lookup_payment_log hz pk h w r1 w1 E1) as (? & ? & o & -> & ?).
    exists o, [COperations h], w1. split_and!; try done. repeat constructor. by exists h. }
  rewrite (bind_ok _ _ _ _ _ E1) in E. exists tr.
  assert (w' = w1 /\ forall n, r = Ok n -> 0 < n) as [-> ?]; [|done].
  destruct o as [n|].
  - unfold mret, st_ret in E. simplify_eq. split; [done|]. intros m [= <-]. by apply Hn.
  - destruct (ra_fallbackStroops args) as [v|]; [destruct (parseFallbackStroops v) as [p|]|];
      unfold bigint in E; st_unfold in E; cbn in E; [|by simplify_eq; split; [|intros ? [=]]..].
    destruct (Z.ltb_spec 0 p); simplify_eq; (split; [done|]); [by intros n [= <-]|by intros ? [=]].
Qed.

Lemma lookups_submit_nothing tr : Forall is_lookup tr -> Forall (fun c => is_submit c = false) tr.
Proof. intros H. eapply Forall_impl; [exact H|]. by intros c [h ->]. Qed.

Lemma submits_none tr : Forall (fun c => is_submit c = false) tr -> submits tr = 0%nat.
Proof. unfold submits. induction 1 as [|c tr Hc _ IH]; cbn; [done|]. by rewrite Hc. Qed.

Lemma refund_amount_pos n : 0 < n -> 0 < refund_amount n.
Proof. unfold refund_amount, TX_FEE_STROOPS, MIN_REFUND_STROOPS. intros. destruct (Z.ltb_spec 100 n); lia. Qed.

(** The call is this submission of this refund, within the fee limit. *)
Definition submission_of (hz : Horizon) (args : RefundXlmArgs) (amount : string) (c : HorizonCall) : Prop :=
  match c with
  | CSubmit fee d a m =>
      fee <= Z.max (BASE_FEE hz) (ra_feeBumpCapStroops args) /\ d = ra_stellarAddress args /\
      a = amount /\ m = memo_for (ra_orderId args)
  | CSleep ms => 0 < ms <= 30000
  | _ => True
  end.

Lemma pay_refund_log hz args w r w' :
  carries_amount hz -> 0 <= BASE_FEE hz -> pay_refund hz args w = (r, w') ->
  exists tr amount, calls w' = calls w ++ tr /\ (submits tr <= Z.to_nat (ra_maxRetries args + 1))%nat /\
    Forall (submission_of hz args amount) tr /\ resubmits_only_rejected hz (calls w) tr /\
    ends_well hz args amount (memo_for (ra_orderId args)) w tr r w'.
Proof.
  intros Hc Hb E. unfold pay_refund in E. destruct (publicKey hz (ra_refundSecret args)) as [pk|e] eqn:Ek.
  2: { cbn in E. unfold mbind, st_bind, throw in E. simplify_eq. exists [], "". rewrite app_nil_r.
       split_and!; [done|cbn; lia|done|by apply resubmits_none|done]. }
  rewrite (bind_ok (lift (Ok pk)) _ w pk w eq_refl) in E.
  destruct (resolveRefundStroops hz pk args w) as [[n|e] w1] eqn:E1;
    destruct (resolve_log hz pk args w _ w1 E1) as (t1 & Ec1 & Hf1 & El1 & Hn).
  - rewrite (bind_ok _ _ _ _ _ E1) in E. pose proof (refund_amount_pos n (Hn n eq_refl)) as Hpos.
    destruct (attempts_log hz pk (refund_amount n) _ args _ 0 (BASE_FEE hz) w1 r w' Hc ltac:(lia) ltac:(lia) Hb E)
      as (t2 & Ec2 & Hs2 & Hp2 & Hr2 & Hend).
    exists (t1 ++ t2), (stroopsToXlmString (refund_amount n)). rewrite Ec1 in Ec2, Hr2. split_and!.
    + by rewrite Ec2, app_assoc.
    + rewrite submits_app, submits_none by (by apply lookups_submit_nothing). done.
    + apply Forall_app. split.
      * eapply Forall_impl; [exact Hf1|]. by intros c [h ->].
      * eapply Forall_impl; [exact Hp2|]. by intros [].
    + apply resubmits_app; [by apply all_rejected_no_submit, lookups_submit_nothing|done].
    + by eapply ends_well_app.
  - rewrite (bind_throw _ _ _ _ _ E1) in E. simplify_eq. exists t1, "". split_and!; [done| | | |done].
    + rewrite submits_none by (by apply lookups_submit_nothing). lia.
    + eapply Forall_impl; [exact Hf1|]. by intros c [h ->].
    + by apply resubmits_none, lookups_submit_nothing.
Qed.

(** C32.  What a refund may do, whatever Horizon answers.  Called for an order
    with no ledger entry (or without a ledger), [refundXlmToUser] submits at
    most [maxRetries + 1] transactions, all of them the same payment (address,
    amount, memo) with a fee never above the larger of the base fee and the
    fee-bump cap; it never submits again after an accepted submission or a
    timeout, only after a rejection or a transient error; if it returns, its
    last call is the submission Horizon accepted, it reports that hash and the
    amount paid, and the ledger holds exactly this result as committed; if it
    throws, the ledger is unchanged.  Hypotheses: the SDK's transaction carries
    the amount it was built with, and its base fee is not negative. *)
Theorem refund_submissions (hz : Horizon) (args : RefundXlmArgs) (w w' : World) (r : outcome Caught RefundXlmResult) :
  carries_amount hz -> 0 <= BASE_FEE hz ->
  (ra_useLedger args = true -> getEntry (ra_orderId args) (ledger w) = None) ->
  refundXlmToUser hz args w = (r, w') ->
  exists tr amount,
    calls w' = calls w ++ tr /\ Z.of_nat (submits tr) <= Z.max 0 (ra_maxRetries args + 1) /\
    Forall (submission_of hz args amount) tr /\ resubmits_only_rejected hz (calls w) tr /\
    match r with
    | Ok res =>
        (exists pre fee x, tr = pre ++ [CSubmit fee (ra_stellarAddress args) amount (memo_for (ra_orderId args))] /\
           submitTransaction hz (calls w ++ pre) = Ok x /\ rx_hash res = x.1) /\
        rx_amount res = amount /\
        (ra_useLedger args = true -> exists t,
           state_of (ra_orderId args) (ledger w') = Some (Committed (rx_hash res) amount (rx_ledger res) t))
    | Throw _ => ledger w' = ledger w
    end.
Proof.
  intros Hc Hb Hfree E. unfold refundXlmToUser in E.
  destruct (Z.leb_spec (ra_feeBumpCapStroops args) 0) as [Hcap|Hcap].
  { unfold throw in E. simplify_eq. exists [], "". rewrite app_nil_r.
    split_and!; [done|cbn; lia|done|by apply resubmits_none|done]. }
  assert (pay_refund hz args w = (r, w')) as Ep.
  { revert E. unfold mbind, st_bind, gets. cbn. destruct (ra_useLedger args); [|done]. by rewrite Hfree. }
  destruct (pay_refund_log hz args w r w' Hc Hb Ep) as (tr & amount & Ec & Hs & Hp & Hr & Hend).
  exists tr, amount. split_and!; [done|lia|done|done|]. destruct r as [res|e]; [|exact Hend].
  destruct Hend as (Hlast & Hamt & Hl). split_and!; [done|done|]. intros Hu.
  rewrite Hl, Hu, Hamt. exists (clock hz (calls w')). unfold commit, phase_of, state_of.
  rewrite Hfree, bool_decide_false by done. by rewrite getEntry_persist, getEntry_set, decide_True.
Qed.

(** A server that knows the payment "tx-in" of 12.3456789 XLM, rejects the
    first submission with a stale sequence number and accepts the next. *)
Definition demo_horizon : Horizon := mkHorizon
  (fun _ h => Ok [mkHorizonOp "payment" "GRELAYER" "native" "12.3456789"])
  (fun _ _ => Ok tt)
  (fun h => match submits h with
            | O => Throw (mkRawError (Some (mkHorizonResponse (Some 400) (Some "tx_bad_seq") [])) None "bad request")
            | S O => Ok ("tx-out", Some 77)
            | _ => Throw (mkRawError None None "unexpected")
            end)
  (fun _ _ => Ok [])
  (fun _ => Ok "GRELAYER")
  (fun _ _ a _ => Ok a)
  100
  (fun h => Z.of_nat (length h)).

Definition demo_args (useLedger : bool) : RefundXlmArgs :=
  mkRefundXlmArgs "order-1" "GUSER" (Some "tx-in") "SSECRET" None useLedger 3 DEFAULT_FEE_BUMP_CAP_STROOPS.

Definition empty_world : World := mkWorld [] fresh_store.

Lemma refund_submissions_witness :
  let '(r, w') := refundXlmToUser demo_horizon (demo_args true) empty_world in
  r = Ok (mkRefundXlmResult "tx-out" "12.3456689" 123456689 (Some 77) false) /\
  exists tr amount,
    calls w' = calls empty_world ++ tr /\ Z.of_nat (submits tr) <= Z.max 0 (ra_maxRetries (demo_args true) + 1) /\
    Forall (submission_of demo_horizon (demo_args true) amount) tr /\
    resubmits_only_rejected demo_horizon (calls empty_world) tr /\
    match r with
    | Ok res =>
        (exists pre fee x, tr = pre ++ [CSubmit fee (ra_stellarAddress (demo_args true)) amount (memo_for (ra_orderId (demo_args true)))] /\
           submitTransaction demo_horizon (calls empty_world ++ pre) = Ok x /\ rx_hash res = x.1) /\
        rx_amount res = amount /\
        (ra_useLedger (demo_args true) = true -> exists t,
           state_of (ra_orderId (demo_args true)) (ledger w') = Some (Committed (rx_hash res) amount (rx_ledger res) t))
    | Throw _ => ledger w' = ledger empty_world
    end.
Proof.
  destruct (refundXlmToUser demo_horizon (demo_args true) empty_world) as [r w'] eqn:E. split.
  - assert (fst (refundXlmToUser demo_horizon (demo_args true) empty_world) =
      Ok (mkRefundXlmResult "tx-out" "12.3456689" 123456689 (Some 77) false)) as Hr by (vm_compute; reflexivity).
    rewrite E in Hr. exact Hr.
  - apply (refund_submissions demo_horizon (demo_args true) empty_world w' r); [|vm_compute; congruence|reflexivity|exact E].
    intros fee d a m x [= <-]. reflexivity.
Defined.

(** A caller that holds the claim, as the ledger's protocol asks, is refused:
    the entry it made itself counts as a duplicate, and Horizon is never
    contacted. *)
Lemma claimed_refund_refused hz args w :
  ra_useLedger args = true -> 0 < ra_feeBumpCapStroops args ->
  state_of (ra_orderId args) (ledger w) = Some InFlight ->
  refundXlmToUser hz args w = (Throw (js_error (duplicate_message (ra_orderId args) in_flight)), w).
Proof.
  intros Hu Hcap Hst. unfold refundXlmToUser. destruct (Z.leb_spec (ra_feeBumpCapStroops args) 0); [lia|].
  unfold mbind, st_bind, gets. cbn. rewrite Hu. unfold state_of in Hst. by rewrite Hst.
Qed.
