(* ===== verification/RefundWatchdog.v ===== *)
(** * Refund watchdog

    relayer/src/services/refund-watchdog.ts: every minute the watchdog walks
    the relayer's orders and refunds the XLM-to-ETH swaps that received XLM
    and stayed without ETH for too long.  It takes the refund ledger's lock,
    calls [refundXlmToUser], and records the outcome; an ambiguous entry is
    first looked up on chain.  Also the automatic refund of the xlm-to-eth
    handler in relayer/src/routes/orders.ts, which follows the same protocol.

    A tick runs to its end before the next; [Date.now()] inside it is the
    clock of [Horizon].  [Date.parse] is a parameter.  The diagnostic text in
    [watchdogFailureReason] is left out. *)

From S2P Require Import Prelude JsMap FileStore RefundLedger XlmAmounts XlmRefund.

Inductive Timestamp : Type := TNumber (n : Z) | TText (s : string).

Record WatchdogOrder : Type := mkWatchdogOrder {
  direction : option string;
  wo_status : option string;
  stellarAddress : option string;
  stellarTxHash : option string;
  xlmReceivedAt : option Timestamp;
  created : option Timestamp;
  amount : option string;
  refundTxHash : option string;
  refundedAt : option Z;
  watchdogFailedAt : option Z;
}.

Record WatchdogConfig : Type := mkWatchdogConfig { staleAfterMs : Z; refundSecret : string }.

Definition BACKOFF_MS : Z := 10 * 60000.

Definition truthy_opt (o : option string) : bool := match o with Some s => truthy_string s | None => false end.
Definition truthy_num (o : option Z) : bool := match o with Some n => negb (n =? 0) | None => false end.

(** [order.status = 'refunded'; order.refundTxHash = h; order.refundedAt = t]. *)
Definition mark_refunded (h : string) (t : Z) (o : WatchdogOrder) : WatchdogOrder :=
  mkWatchdogOrder (direction o) (Some "refunded") (stellarAddress o) (stellarTxHash o) (xlmReceivedAt o) (created o)
    (amount o) (Some h) (Some t) (watchdogFailedAt o).

Definition mark_failed (t : Z) (o : WatchdogOrder) : WatchdogOrder :=
  mkWatchdogOrder (direction o) (wo_status o) (stellarAddress o) (stellarTxHash o) (xlmReceivedAt o) (created o)
    (amount o) (refundTxHash o) (refundedAt o) (Some t).

Section Watchdog.
Context (Date_parse : string -> option Z) (hz : Horizon) (config : WatchdogConfig).

Definition toMillis (value : option Timestamp) : option Z :=
  match value with
  | None => None
  | Some (TNumber n) => Some (if 1000000000000 <? n then n else n * 1000)
  | Some (TText s) => Date_parse s
  end.

Definition isXlmToEthAwaitingEth (o : WatchdogOrder) : bool :=
  bool_decide (direction o = Some "xlm_to_eth") && truthy_opt (stellarTxHash o) &&
  negb (truthy_opt (refundTxHash o) || truthy_num (refundedAt o)) &&
  negb (bool_decide (wo_status o = Some "eth_tx_sent") || bool_decide (wo_status o = Some "completed")) &&
  negb (bool_decide (wo_status o = Some "refunded")).

Definition native_payment (op : HorizonOp) : bool :=
  String.eqb (op_type op) "payment" && String.eqb (op_asset_type op) "native".

(** The refund landed: [ledger.resolveAmbiguous] and the order's fields. *)
Definition confirm_landed (orderId : string) (o : WatchdogOrder) (landed : HorizonTx) (ops : list HorizonOp)
    : RM (bool * WatchdogOrder) := fun w =>
  let paid := match List.find native_payment ops with Some op => op_amount op | None => "0.0000000" end in
  let now := clock hz (calls w) in
  (Ok (true, mark_refunded (tx_hash landed) now o),
   with_ledger (resolveAmbiguous now orderId (mkRefundResult (tx_hash landed) paid (tx_ledger landed))) w).

(** It did not: [ledger.releaseAmbiguous]. *)
Definition release_unlanded (orderId : string) (o : WatchdogOrder) : RM (bool * WatchdogOrder) := fun w =>
  (Ok (false, o), with_ledger (releaseAmbiguous orderId) w).

(** [checkAmbiguousRefund]; every error leaves the entry as it is. *)
Definition checkAmbiguousRefund (orderId : string) (o : WatchdogOrder) : RM (bool * WatchdogOrder) :=
  try_catch
    (pk ← lift (publicKey hz (refundSecret config));
     txs ← horizon_call (CTransactions pk) (fun h => transactions hz h pk);
     match List.find (fun tx => bool_decide (tx_memo tx = Some (memo_for orderId))) txs with
     | Some landed =>
         ops ← horizon_call (COperations (tx_hash landed)) (fun h => operations hz h (tx_hash landed));
         confirm_landed orderId o landed ops
     | None => release_unlanded orderId o
     end)
    (fun _ => mret (false, o)).

Definition refund_args (orderId address : string) (o : WatchdogOrder) : RefundXlmArgs :=
  mkRefundXlmArgs orderId address (stellarTxHash o) (refundSecret config) (FString <$> amount o) true 3
    DEFAULT_FEE_BUMP_CAP_STROOPS.

(** The call of [refundXlmToUser] under the claim, with its three catch
    branches. *)
Definition refund_claimed (orderId address : string) (o : WatchdogOrder) (w : World) : WatchdogOrder * World :=
  match refundXlmToUser hz (refund_args orderId address o) w with
  | (Ok refund, w') => (mark_refunded (rx_hash refund) (clock hz (calls w')) o, w')
  | (Throw (Typed (RefundAmountUnknownError _)), w') => (o, with_ledger (release orderId) w')
  | (Throw (Typed (HorizonTimeoutError m)), w') =>
      let now := clock hz (calls w') in
      (mark_failed now o, with_ledger (markAmbiguous now orderId m) w')
  | (Throw _, w') => (mark_failed (clock hz (calls w')) o, with_ledger (release orderId) w')
  end.

Record TickStats : Type := mkTickStats { maxStaleAgeMs : Z; pendingCount : Z }.

(** From the back-off check on. *)
Definition rescue (now : Z) (orderId : string) (o : WatchdogOrder) (st : TickStats) (w : World)
    : (WatchdogOrder * TickStats) * World :=
  let st := mkTickStats (maxStaleAgeMs st) (pendingCount st + 1) in
  let skip := ((o, st), w) in
  let backing_off := match watchdogFailedAt o with
                     | Some t => negb (t =? 0) && (now - t <? BACKOFF_MS)
                     | None => false
                     end in
  if backing_off then skip
  else
    let startedAt := match toMillis (xlmReceivedAt o) with Some t => Some t | None => toMillis (created o) end in
    if negb (truthy_num startedAt) then skip
    else
      let age := now - default 0 startedAt in
      if age <? staleAfterMs config then skip
      else
        let st := mkTickStats (Z.max (maxStaleAgeMs st) age) (pendingCount st) in
        match stellarAddress o with
        | Some address =>
            if truthy_string address then
              let '(claimed, l) := claim orderId (ledger w) in
              if claimed then
                let '(o', w') := refund_claimed orderId address o (mkWorld (calls w) l) in ((o', st), w')
              else ((o, st), w)
            else ((o, st), w)
        | None => ((o, st), w)
        end.

(** The body of the tick's loop. *)
Definition tick_order (now : Z) (orderId : string) (o : WatchdogOrder) (st : TickStats) (w : World)
    : (WatchdogOrder * TickStats) * World :=
  if negb (isXlmToEthAwaitingEth o) then ((o, st), w)
  else
    match re_state <$> getEntry orderId (ledger w) with
    | Some (Committed txHash _ _ committedAt) =>
        ((if truthy_opt (refundTxHash o) then o else mark_refunded txHash committedAt o, st), w)
    | Some (Ambiguous _ _) =>
        match checkAmbiguousRefund orderId o w with
        | (Ok (true, o'), w') => ((o', st), w')
        | (Ok (false, o'), w') => rescue now orderId o' st w'
        | (Throw _, w') => ((mark_failed (clock hz (calls w')) o, st), w')
        end
    | _ => rescue now orderId o st w
    end.

Fixpoint tick_orders (now : Z) (orders : list (string * WatchdogOrder)) (st : TickStats) (w : World)
    : (list (string * WatchdogOrder) * TickStats) * World :=
  match orders with
  | [] => (([], st), w)
  | (orderId, o) :: rest =>
      let '((o', st1), w1) := tick_order now orderId o st w in
      let '((rest', st2), w2) := tick_orders now rest st1 w1 in
      (((orderId, o') :: rest', st2), w2)
  end.

Definition tick (now : Z) (orders : list (string * WatchdogOrder)) (w : World)
    : (list (string * WatchdogOrder) * TickStats) * World :=
  tick_orders now orders (mkTickStats 0 0) w.

(** ** Never pays *)

Lemma claim_state o l : (claim o l).1 = true -> state_of o (claim o l).2 = Some InFlight.
Proof.
  unfold claim. rewrite jm_has_get. destruct (jm_get o (mem l)) eqn:E; [done|]. intros _. cbn [snd].
  unfold state_of. by rewrite getEntry_set, decide_True.
Qed.

(** The claim is taken, refused and released: nothing is left but a failure
    stamp. *)
Lemma refund_claimed_fails orderId address o w :
  state_of orderId (ledger w) = Some InFlight ->
  refund_claimed orderId address o w =
  (mark_failed (clock hz (calls w)) o, with_ledger (release orderId) w).
Proof.
  intros Hst. unfold refund_claimed. rewrite claimed_refund_refused; [done|done|done|exact Hst].
Qed.

Lemma release_claim o l : (claim o l).1 = true -> forall k, getEntry k (release o (claim o l).2) = getEntry k l.
Proof.
  intros Hc k. pose proof (claim_state o l Hc) as Hst. apply claim_granted in Hc as Hnone.
  unfold release. rewrite bool_decide_true.
  - rewrite getEntry_delete. unfold claim in *. rewrite jm_has_get in *. unfold state_of, getEntry in *.
    destruct (jm_get o (mem l)) eqn:E; [done|]. cbn. case_decide as Ek; [by subst|]. by rewrite jm_get_set_ne.
  - unfold phase_of. unfold state_of in Hst. destruct (getEntry o (claim o l).2) as [[? []]|]; by simplify_eq/=.
Qed.

Definition same_ledger (w w' : World) : Prop := forall k, getEntry k (ledger w') = getEntry k (ledger w).

(** The refund fields of an order. *)
Definition refund_fields (o : WatchdogOrder) : option string * option string * option Z :=
  (wo_status o, refundTxHash o, refundedAt o).

Lemma rescue_never_pays now orderId o st w r w' :
  rescue now orderId o st w = (r, w') ->
  calls w' = calls w /\ same_ledger w w' /\ refund_fields r.1 = refund_fields o.
Proof.
  unfold rescue. destruct (match watchdogFailedAt o with Some _ => _ | None => _ end); [by intros; simplify_eq|].
  destruct (negb _); [by intros; simplify_eq|]. destruct (_ <? _); [by intros; simplify_eq|].
  destruct (stellarAddress o) as [a|]; [|by intros; simplify_eq]. destruct (truthy_string a); [|by intros; simplify_eq].
  destruct (claim orderId (ledger w)) as [[] l] eqn:E; [|by intros; simplify_eq].
  assert ((claim orderId (ledger w)).1 = true) as Hc by (by rewrite E).
  assert (l = (claim orderId (ledger w)).2) as -> by (by rewrite E).
  rewrite refund_claimed_fails by (by apply claim_state). intros; simplify_eq. cbn.
  split_and!; [done| |done]. intros k. cbn. by apply release_claim.
Qed.

#[local] Arguments submits : simpl never.

Lemma submits_snoc h c : submits (h ++ [c]) = (submits h + if is_submit c then 1 else 0)%nat.
Proof. rewrite submits_app. f_equal. unfold submits. cbn. by destruct (is_submit c). Qed.

(** Entries absent before are absent after. *)
Definition adds_no_entry (w w' : World) : Prop :=
  forall k, getEntry k (ledger w) = None -> getEntry k (ledger w') = None.

(** What a tick can do to the world: no submission, no new ledger entry. *)
Definition passive (w w' : World) : Prop := submits (calls w') = submits (calls w) /\ adds_no_entry w w'.

Lemma passive_refl w : passive w w.
Proof. split; [done|]. by intros k. Qed.

Lemma passive_trans w1 w2 w3 : passive w1 w2 -> passive w2 w3 -> passive w1 w3.
Proof. intros [E1 H1] [E2 H2]. split; [congruence|]. intros k Hk. auto. Qed.

Lemma check_passive orderId o w :
  passive w (checkAmbiguousRefund orderId o w).2.
Proof.
  unfold checkAmbiguousRefund, horizon_call. st_unfold.
  destruct (publicKey hz (refundSecret config)) as [pk|e]; cbn; [|apply passive_refl].
  destruct (transactions hz (calls w) pk) as [txs|e]; cbn; [|by split; [cbn; rewrite submits_snoc; cbn; lia|intros k]].
  destruct (List.find _ txs) as [landed|]; cbn.
  - destruct (operations hz (calls w ++ [CTransactions pk]) (tx_hash landed)) as [ops|e]; cbn;
      (split; cbn; [rewrite !submits_snoc; cbn; lia|]); [|by intros k].
    intros k Hk. cbn. unfold resolveAmbiguous. case_bool_decide as Ea; [|done]. unfold commit.
    case_bool_decide; [done|]. rewrite getEntry_persist, getEntry_set. case_decide as Ek; [|done]. subst k.
    unfold phase_of in Ea. by rewrite Hk in Ea.
  - split; cbn; [rewrite submits_snoc; cbn; lia|]. intros k Hk. cbn. unfold releaseAmbiguous.
    case_bool_decide; [|done]. rewrite getEntry_deletePersisted, getEntry_delete. by case_decide.
Qed.

Lemma tick_order_passive now orderId o st w :
  let '((o', _), w') := tick_order now orderId o st w in
  passive w w' /\ (getEntry orderId (ledger w) = None -> refund_fields o' = refund_fields o).
Proof.
  unfold tick_order. destruct (negb _); [by split; [apply passive_refl|]|].
  assert (forall o1 w1, let '((o', _), w') := rescue now orderId o1 st w1 in
            passive w1 w' /\ refund_fields o' = refund_fields o1) as Hrescue.
  { intros o1 w1. destruct (rescue now orderId o1 st w1) as [[o' st'] w'] eqn:E.
    destruct (rescue_never_pays now orderId o1 st w1 _ _ E) as (Ec & Hl & Hf). cbn in *.
    split; [|done]. split; [by rewrite Ec|]. intros k. by rewrite Hl. }
  destruct (getEntry orderId (ledger w)) as [[o1 [|h a l t|m t]]|] eqn:E; cbn.
  - specialize (Hrescue o w). destruct (rescue _ _ _ _ _) as [[o' st'] w']. by destruct Hrescue.
  - split; [apply passive_refl|done].
  - pose proof (check_passive orderId o w) as Hp. 
    destruct (checkAmbiguousRefund orderId o w) as [[[[] o2]|e] w2]; cbn in *; [by split| |by split].
    specialize (Hrescue o2 w2). destruct (rescue _ _ _ _ _) as [[o' st'] w']. destruct Hrescue.
    split; [by eapply passive_trans|done].
  - specialize (Hrescue o w). destruct (rescue _ _ _ _ _) as [[o' st'] w']. destruct Hrescue. by split.
Qed.

(** An order of a tick's result, refunded no more than before if it had no
    ledger entry. *)
Definition unrefunded (w : World) (e e' : string * WatchdogOrder) : Prop :=
  e'.1 = e.1 /\ (getEntry e.1 (ledger w) = None -> refund_fields e'.2 = refund_fields e.2).

Lemma tick_orders_passive now orders st w :
  let '((orders', _), w') := tick_orders now orders st w in
  passive w w' /\ Forall2 (unrefunded w) orders orders'.
Proof.
  revert st w. induction orders as [|[k o] orders IH]; intros st w; [by split; [apply passive_refl|]|].
  cbn. pose proof (tick_order_passive now k o st w) as H1.
  destruct (tick_order _ _ _ _ _) as [[o' st1] w1]. destruct H1 as [H1 Hf].
  specialize (IH st1 w1). destruct (tick_orders _ _ _ _) as [[rest st2] w2]. destruct IH as [H2 Hrest].
  split; [by eapply passive_trans|]. constructor; [done|].
  eapply Forall2_impl; [exact Hrest|]. intros e e' [He Hu]. split; [done|]. intros Hn. apply Hu. by apply H1.
Qed.

(** Ticks at the given times. *)
Fixpoint run_ticks (times : list Z) (orders : list (string * WatchdogOrder)) (w : World)
    : list (string * WatchdogOrder) * World :=
  match times with
  | [] => (orders, w)
  | now :: times' =>
      let '((orders', _), w') := tick now orders w in run_ticks times' orders' w'
  end.
End Watchdog.

(** As written, the watchdog rescues no order: over any number of ticks
    and whatever Horizon answers, it submits no transaction, creates no ledger
    entry, and leaves the status, refund hash and refund time of every order
    without a ledger entry as they were.  It claims the order and then passes
    the ledger to [refundXlmToUser], which takes the claim for a duplicate. *)
Lemma watchdog_never_pays (Date_parse : string -> option Z) (hz : Horizon) (config : WatchdogConfig)
    (times : list Z) (orders : list (string * WatchdogOrder)) (w : World) :
  let '(orders', w') := run_ticks Date_parse hz config times orders w in
  submits (calls w') = submits (calls w) /\
  (forall k, getEntry k (ledger w) = None -> getEntry k (ledger w') = None) /\
  (forall i k o, orders !! i = Some (k, o) -> getEntry k (ledger w) = None ->
     exists o', orders' !! i = Some (k, o') /\ refund_fields o' = refund_fields o).
Proof.
  revert orders w. induction times as [|now times IH]; intros orders w.
  { cbn. split_and!; [done|done|]. eauto. }
  cbn. unfold tick. pose proof (tick_orders_passive Date_parse hz config now orders (mkTickStats 0 0) w) as H1.
  destruct (tick_orders _ _ _ _ _ _ _) as [[orders1 st1] w1]. destruct H1 as [[Es Hn] Hf].
  specialize (IH orders1 w1). destruct (run_ticks _ _ _ _ _ _) as [orders2 w2]. destruct IH as (Es2 & Hn2 & Hf2).
  split_and!; [congruence|auto|]. intros i k o Hi Hk.
  destruct (Forall2_lookup_l _ _ _ _ _ Hf Hi) as ([k1 o1] & Hi1 & Hk1 & Hu). cbn in *. subst k1.
  destruct (Hf2 i k o1 Hi1 (Hn _ Hk)) as (o2 & Hi2 & Hfields). exists o2. split; [done|].
  rewrite Hfields. by apply Hu.
Qed.

(** The rescue the watchdog exists for: an order that received 12.3456789 XLM
    an hour ago, and a Horizon that would accept the refund.  The tick stamps a
    failure; without the ledger argument the same call pays. *)
Definition demo_order : WatchdogOrder :=
  mkWatchdogOrder (Some "xlm_to_eth") (Some "awaiting_eth") (Some "GUSER") (Some "tx-in") (Some (TNumber 1700000000000))
    None None None None None.

Example rescue_fails :
  let cfg := mkWatchdogConfig 300000 "SSECRET" in
  let '((orders, _), w) := tick (fun _ => None) demo_horizon cfg 1700003600000 [("order-1", demo_order)] empty_world in
  orders = [("order-1", mark_failed 0 demo_order)] /\ calls w = [] /\
  is_ok (refundXlmToUser demo_horizon (demo_args false) empty_world).1 = true.
Proof. vm_compute. done. Qed.

(** Resolving an ambiguous entry does work: a landed payment with the order's
    memo commits it. *)
Definition landed_horizon : Horizon := mkHorizon
  (fun _ h => Ok [mkHorizonOp "payment" "GUSER" "native" "12.3456689"])
  (fun _ _ => Ok tt) (fun _ => Throw (mkRawError None None "down"))
  (fun _ _ => Ok [mkHorizonTx "tx-out" (Some "Refund:order-1") (Some 77)])
  (fun _ => Ok "GRELAYER") (fun _ _ a _ => Ok a) 100 (fun _ => 9).

Example ambiguous_resolved :
  let cfg := mkWatchdogConfig 300000 "SSECRET" in
  let w0 := mkWorld [] (refund_run [RMarkAmbiguous 1 "order-1" "504"] fresh_store) in
  let '((orders, _), w) := tick (fun _ => None) landed_horizon cfg 1700003600000 [("order-1", demo_order)] w0 in
  orders = [("order-1", mark_refunded "tx-out" 9 demo_order)] /\
  state_of "order-1" (ledger w) = Some (Committed "tx-out" "12.3456689" (Some 77) 9).
Proof. vm_compute. done. Qed.

(** ** The automatic refund of the xlm-to-eth handler *)

(** [storedOrder.status = 'refunded'; storedOrder.refundTxHash = h]. *)
Definition mark_refunded_inline (h : string) (o : WatchdogOrder) : WatchdogOrder :=
  mkWatchdogOrder (direction o) (Some "refunded") (stellarAddress o) (stellarTxHash o) (xlmReceivedAt o) (created o)
    (amount o) (Some h) (refundedAt o) (watchdogFailedAt o).

(** What the response reports: the refund's hash, an ambiguous outcome, or a
    failure. *)
Inductive InlineReport : Type := Refunded (h : string) | RefundAmbiguous | RefundFailed.

Definition automatic_refund (hz : Horizon) (orderId relayerSecret address txHash verifiedAmount : string)
    (o : WatchdogOrder) (w : World) : (InlineReport * WatchdogOrder) * World :=
  if negb (truthy_string relayerSecret && truthy_string address) then ((RefundFailed, o), w)
  else
    let '(claimed, l) := claim orderId (ledger w) in
    if negb claimed then
      match re_state <$> getEntry orderId (ledger w) with
      | Some (Committed h _ _ _) => ((Refunded h, mark_refunded_inline h o), w)
      | _ => ((RefundFailed, o), w)
      end
    else
      let args := mkRefundXlmArgs orderId address (Some txHash) relayerSecret (Some (FString verifiedAmount)) true 2
                    DEFAULT_FEE_BUMP_CAP_STROOPS in
      match refundXlmToUser hz args (mkWorld (calls w) l) with
      | (Ok refund, w') => ((Refunded (rx_hash refund), mark_refunded_inline (rx_hash refund) o), w')
      | (Throw (Typed (HorizonTimeoutError m)), w') =>
          let now := clock hz (calls w') in
          ((RefundAmbiguous, mark_failed now o), with_ledger (markAmbiguous now orderId m) w')
      | (Throw _, w') => ((RefundFailed, o), with_ledger (release orderId) w')
      end.

(** The same defect: an order not yet in the ledger is reported as failed, and
    nothing is paid. *)
Lemma automatic_refund_fails hz orderId secret address txHash paid o w :
  getEntry orderId (ledger w) = None ->
  let '((report, o'), w') := automatic_refund hz orderId secret address txHash paid o w in
  report = RefundFailed /\ o' = o /\ calls w' = calls w /\ same_ledger w w'.
Proof.
  intros Hn. unfold automatic_refund. destruct (negb (_ && _)); [done|].
  destruct (claim orderId (ledger w)) as [[] l] eqn:E; cbn [negb]; [|by rewrite Hn].
  assert ((claim orderId (ledger w)).1 = true) as Hc by (by rewrite E).
  assert (l = (claim orderId (ledger w)).2) as -> by (by rewrite E).
  rewrite claimed_refund_refused; [|done|done|by apply claim_state].
  split_and!; [done..|]. intros k. cbn. by apply release_claim.
Qed.
