(* ===== verification/RetryEngine.v ===== *)
(** * Retry engine

    relayer/src/utils/retry-engine.ts: fault classification, exponential
    backoff with jitter and one circuit breaker per action.  The wrapped
    function is an oracle that answers call number [k]; while a run awaits the
    function or sleeps, other runs of the same engine may change the breakers
    arbitrarily ([others]) and time passes ([clock]).  The random numbers are
    an argument; fractions are rationals. *)

From S2P Require Import Prelude JsMap.
From Stdlib Require Import QArith Qround Lqa.
#[local] Open Scope Z_scope.

(** ** Fault classification *)

Inductive FaultClass : Type := transient | confirmation_delay | terminal.

#[export] Instance FaultClass_eq_dec : EqDecision FaultClass.
Proof. solve_decision. Defined.

(** A thrown value: an [Error] with its message, a string, or anything else
    with its [JSON.stringify] text. *)
Inductive Thrown : Type := TError (message : string) | TString (s : string) | TOther (json : string).

Definition thrown_text (e : Thrown) : string := match e with TError m => m | TString s => s | TOther j => j end.

Definition TERMINAL_PATTERNS : list string :=
  ["invalid signature"; "bad auth"; "insufficient funds"; "nonce too high"; "transaction underpriced";
   "replacement transaction underpriced"; "gas limit exceeded"; "execution reverted"; "not authorized";
   "invalid params"; "method not found"; "missing or invalid"; "op_no_destination"; "op_no_trust"; "op_line_full";
   "tx_bad_auth"; "tx_insufficient_balance"; "tx_no_source_account"].

Definition CONFIRMATION_DELAY_PATTERNS : list string :=
  ["transaction not found"; "tx not found"; "nonce too low"; "already known"; "known transaction"; "pending";
   "not yet mined"; "waiting for confirmation"].

(** [/pattern/i.test(msg)] for a pattern of literal lower-case characters. *)
Definition test_i (pattern msg : string) : bool := includes (toLowerCase msg) pattern.

Definition defaultClassifier (err : Thrown) : FaultClass :=
  let msg := thrown_text err in
  if existsb (fun p => test_i p msg) TERMINAL_PATTERNS then terminal
  else if existsb (fun p => test_i p msg) CONFIRMATION_DELAY_PATTERNS then confirmation_delay
  else transient.

Definition FaultClassifier : Type := Thrown -> option FaultClass.

Definition classify (err : Thrown) (custom : option FaultClassifier) : FaultClass :=
  match custom with
  | Some f => match f err with Some c => c | None => defaultClassifier err end
  | None => defaultClassifier err
  end.

(** ** Configuration *)

Record EngineCfg : Type := mkEngineCfg {
  defaultMaxAttempts : Z;
  defaultBaseDelayMs : Z;
  defaultMaxDelayMs : Z;
  confirmationDelayMultiplier : Z;
  circuitBreakerThreshold : Z;
  circuitBreakerResetMs : Z;
  jitterFactor : Q;
}.

Record EngineOptions : Type := mkEngineOptions {
  eo_maxAttempts : option Z;
  eo_baseDelayMs : option Z;
  eo_maxDelayMs : option Z;
  eo_multiplier : option Z;
  eo_threshold : option Z;
  eo_resetMs : option Z;
  eo_jitter : option Q;
}.

Definition Qmax0 (q : Q) : Q := if Qle_bool 0 q then q else 0%Q.

(** The constructor: defaults, then clamping of the delays and the jitter. *)
Definition makeEngine (o : EngineOptions) : EngineCfg := mkEngineCfg
  (default 5 (eo_maxAttempts o))
  (Z.max 0 (default 1000 (eo_baseDelayMs o)))
  (Z.max 0 (default 30000 (eo_maxDelayMs o)))
  (default 3 (eo_multiplier o))
  (default 5 (eo_threshold o))
  (default 60000 (eo_resetMs o))
  (Qmax0 (default (1 # 5)%Q (eo_jitter o))).

Definition default_engine : EngineCfg := makeEngine (mkEngineOptions None None None None None None None).

Record RunOptions : Type := mkRunOptions {
  classifier : option FaultClassifier;
  maxAttempts : option Z;
  baseDelayMs : option Z;
  maxDelayMs : option Z;
}.

(** ** Circuit breakers *)

Inductive BreakerState : Type := closed | open | half_open.

#[export] Instance BreakerState_eq_dec : EqDecision BreakerState.
Proof. solve_decision. Defined.

Record CircuitBreaker : Type := mkCircuitBreaker {
  state : BreakerState;
  consecutiveFailures : Z;
  lastFailureAt : Z;
  halfOpenAllowed : bool;
}.

Definition Breakers : Type := list (string * CircuitBreaker).

Definition new_breaker : CircuitBreaker := mkCircuitBreaker closed 0 0 false.

(** [_getBreaker] creates a missing entry. *)
Definition getBreaker (action : string) (bs : Breakers) : CircuitBreaker * Breakers :=
  match jm_get action bs with
  | Some b => (b, bs)
  | None => (new_breaker, jm_set action new_breaker bs)
  end.

(** Run a transition of one breaker. *)
Definition on_breaker (f : CircuitBreaker -> CircuitBreaker) (action : string) (bs : Breakers) : Breakers :=
  let '(b, bs) := getBreaker action bs in jm_set action (f b) bs.

Section Engine.
Context (cfg : EngineCfg).

(** [_checkCircuit]: whether the call may pass, and the breaker after. *)
Definition check_breaker (now : Z) (b : CircuitBreaker) : bool * CircuitBreaker :=
  match state b with
  | closed => (true, b)
  | open =>
      if circuitBreakerResetMs cfg <=? now - lastFailureAt b
      then (true, mkCircuitBreaker half_open (consecutiveFailures b) (lastFailureAt b) true)
      else (false, b)
  | half_open =>
      if halfOpenAllowed b
      then (true, mkCircuitBreaker half_open (consecutiveFailures b) (lastFailureAt b) false)
      else (false, b)
  end.

Definition checkCircuit (now : Z) (action : string) (bs : Breakers) : bool * Breakers :=
  let '(b, bs) := getBreaker action bs in
  let '(pass, b') := check_breaker now b in (pass, jm_set action b' bs).

Definition success_breaker (b : CircuitBreaker) : CircuitBreaker := mkCircuitBreaker closed 0 (lastFailureAt b) false.
Definition onSuccess : string -> Breakers -> Breakers := on_breaker success_breaker.

Definition failure_breaker (now : Z) (b : CircuitBreaker) : CircuitBreaker :=
  let n := consecutiveFailures b + 1 in
  match state b with
  | half_open => mkCircuitBreaker open n now false
  | closed =>
      if circuitBreakerThreshold cfg <=? n then mkCircuitBreaker open n now (halfOpenAllowed b)
      else mkCircuitBreaker closed n now (halfOpenAllowed b)
  | open => mkCircuitBreaker open n now (halfOpenAllowed b)
  end.
Definition onFailure (now : Z) : string -> Breakers -> Breakers := on_breaker (failure_breaker now).

Definition circuitState (action : string) (bs : Breakers) : BreakerState * Breakers :=
  let '(b, bs) := getBreaker action bs in (state b, bs).

Definition resetCircuit : string -> Breakers -> Breakers :=
  on_breaker (fun b => mkCircuitBreaker closed 0 (lastFailureAt b) false).

Definition allCircuits (bs : Breakers) : list (string * (BreakerState * Z)) :=
  (fun e => (e.1, (state e.2, consecutiveFailures e.2))) <$> bs.

(** ** Backoff *)

(** [Math.min(maxMs, baseMs * Math.pow(2, attempt - 1))]. *)
Definition exponential (attempt baseMs maxMs : Z) : Z := Z.min maxMs (baseMs * 2 ^ (attempt - 1)).

(** [Math.max(0, Math.round(exponential + jitter * exponential * (random - 0.5) * 2))]. *)
Definition jittered (jitter random : Q) (e : Z) : Z :=
  Z.max 0 (Qfloor (inject_Z e + jitter * inject_Z e * (random - (1 # 2)) * 2 + (1 # 2))%Q).

Definition backoffDelay (random : Q) (attempt baseMs maxMs : Z) (c : FaultClass) : Z :=
  let delay := jittered (jitterFactor cfg) random (exponential attempt baseMs maxMs) in
  match c with
  | confirmation_delay => Z.min maxMs (delay * confirmationDelayMultiplier cfg)
  | _ => delay
  end.

(** ** A run *)

Inductive RunError : Type :=
| Original (e : Thrown)
| RetryExhaustedError (c : FaultClass) (n : Z) (cause : option Thrown)
| CircuitOpenError (action : string).

(** The outcome, the number of calls of the function, the delays slept. *)
Record RunLog (A : Type) : Type := mkRunLog {
  result : outcome RunError A;
  fn_calls : nat;
  waits : list Z;
  after : Breakers;
}.
Arguments mkRunLog {A} _ _ _ _.
Arguments result {A} _.
Arguments fn_calls {A} _.
Arguments waits {A} _.
Arguments after {A} _.

Section Run.
Context {A : Type} (fn : nat -> outcome Thrown A).
Context (others : nat -> Breakers -> Breakers) (clock : nat -> Z) (random : nat -> Q).
Context (action : string) (opts : RunOptions).

Definition max_attempts : Z := default (defaultMaxAttempts cfg) (maxAttempts opts).
Definition base_delay : Z := Z.max 0 (default (defaultBaseDelayMs cfg) (baseDelayMs opts)).
Definition max_delay : Z := Z.max 0 (default (defaultMaxDelayMs cfg) (maxDelayMs opts)).

(** The loop from attempt number [k + 1] on; the fuel is the number of
    attempts left.  Await number [2k+1] is the function, [2k+2] the sleep. *)
Fixpoint run_loop (fuel k : nat) (last : FaultClass * option Thrown) (bs : Breakers) : RunLog A :=
  match fuel with
  | O => mkRunLog (Throw (RetryExhaustedError last.1 max_attempts last.2)) 0 [] bs
  | S fuel' =>
      let bs := others (2 * k + 1) bs in
      let now := clock (2 * k + 1)%nat in
      match fn k with
      | Ok a => mkRunLog (Ok a) 1 [] (onSuccess action bs)
      | Throw err =>
          let c := classify err (classifier opts) in
          let bs := onFailure now action bs in
          if decide (c = terminal) then mkRunLog (Throw (Original err)) 1 [] bs
          else
            match fuel' with
            | O => mkRunLog (Throw (RetryExhaustedError c max_attempts (Some err))) 1 [] bs
            | S _ =>
                let delay := backoffDelay (random k) (Z.of_nat k + 1) base_delay max_delay c in
                let bs := others (2 * k + 2) bs in
                let '(pass, bs) := checkCircuit (clock (2 * k + 2)%nat) action bs in
                if pass then
                  let l := run_loop fuel' (S k) (c, Some err) bs in
                  mkRunLog (result l) (S (fn_calls l)) (delay :: waits l) (after l)
                else mkRunLog (Throw (CircuitOpenError action)) 1 [delay] bs
            end
      end
  end.

Definition run (bs : Breakers) : RunLog A :=
  let '(pass, bs) := checkCircuit (clock 0%nat) action bs in
  if pass then run_loop (Z.to_nat max_attempts) 0 (transient, None) bs
  else mkRunLog (Throw (CircuitOpenError action)) 0 [] bs.
End Run.
End Engine.

Arguments mkRunLog {A} _ _ _ _.
Arguments result {A} _.
Arguments fn_calls {A} _.
Arguments waits {A} _.
Arguments after {A} _.

(** [calculateBackoff] for tests. *)
Definition calculateBackoff (random : Q) (attempt baseMs maxMs : Z) (jitter : Q) (multiplier : Z) : Z :=
  Z.min maxMs (jittered jitter random (exponential attempt baseMs maxMs) * multiplier).

(** ** What a run does *)

Section RunFacts.
Context (cfg : EngineCfg) {A : Type} (fn : nat -> outcome Thrown A).
Context (others : nat -> Breakers -> Breakers) (clock : nat -> Z) (random : nat -> Q).
Context (action : string) (opts : RunOptions).

Notation loop := (run_loop cfg fn others clock random action opts).
Notation attempts_allowed := (Z.to_nat (max_attempts cfg opts)).

Lemma jm_get_on_breaker f a bs :
  exists b, jm_get a (on_breaker f a bs) = Some (f b).
Proof.
  unfold on_breaker, getBreaker. destruct (jm_get a bs) as [b|]; [exists b|exists new_breaker]; apply jm_get_set.
Qed.

(** A failure that is retried. *)
Definition retried (k : nat) : Prop :=
  exists e, fn k = Throw e /\ classify e (classifier opts) <> terminal.

(** How the run ends after [n] calls, the last of them call [n - 1]. *)
Definition run_end (n : nat) (last : FaultClass * option Thrown) (r : outcome RunError A) (bs : Breakers) : Prop :=
  match r with
  | Ok a =>
      exists k, n = S k /\ fn k = Ok a /\
      exists b, jm_get action bs = Some b /\ state b = closed /\ consecutiveFailures b = 0
  | Throw (Original e) => exists k, n = S k /\ fn k = Throw e /\ classify e (classifier opts) = terminal
  | Throw (RetryExhaustedError c m cause) =>
      n = attempts_allowed /\ m = max_attempts cfg opts /\
      match n with
      | O => (c, cause) = last
      | S k => exists e, cause = Some e /\ fn k = Throw e /\ classify e (classifier opts) = c
      end
  | Throw (CircuitOpenError a) => a = action
  end.

Lemma run_loop_spec fuel k last bs :
  (fuel + k = attempts_allowed)%nat -> (k = 0%nat \/ exists k', k = S k' /\ exists e, last.2 = Some e /\ fn k' = Throw e /\ classify e (classifier opts) = last.1) ->
  let l := loop fuel k last bs in
  (fn_calls l <= fuel)%nat /\ (forall i, (k <= i)%nat -> (S i < k + fn_calls l)%nat -> retried i) /\
  run_end (k + fn_calls l) last (result l) (after l).
Proof.
  revert k last bs. induction fuel as [|fuel IH]; intros k last bs Hk Hlast l.
  { unfold l. cbn [run_loop fn_calls result after]. split; [done|]. split; [lia|]. rewrite Nat.add_0_r. cbn. split_and!; [lia|done|].
    destruct Hlast as [->|(k' & -> & e & ? & ? & ?)]; [by destruct last|]. eauto. }
  unfold l. cbn [run_loop]. destruct (fn k) as [a|err] eqn:Ek.
  { split; [cbn; lia|]. split; [cbn; intros; lia|]. exists k. split; [cbn; lia|]. split; [done|].
    destruct (jm_get_on_breaker success_breaker action (others (2 * k + 1) bs)) as [b Hb].
    exists (success_breaker b). done. }
  set (c := classify err (classifier opts)). destruct (decide (c = terminal)) as [Hc|Hc].
  { split; [cbn; lia|]. split; [cbn; intros; lia|]. exists k. split_and!; [cbn; lia|done|done]. }
  destruct fuel as [|fuel].
  { split; [cbn; lia|]. split; [cbn; intros; lia|]. cbn [run_end fn_calls result after]. rewrite Nat.add_1_r.
    split_and!; [lia|done|]. by exists err. }
  destruct (checkCircuit _ _ _ _) as [[] bs'].
  - specialize (IH (S k) (c, Some err) bs' ltac:(lia)).
    destruct IH as (Hn & Hr & He); [right; by exists k; split; [|exists err]|].
    cbn [fn_calls result after]. split; [lia|]. split.
    + intros i Hi Hi'. destruct (decide (i = k)) as [->|]; [by exists err|]. apply Hr; lia.
    + rewrite Nat.add_succ_r, <- Nat.add_succ_l.
      revert He. unfold run_end. destruct (result _) as [a|[e|c' m cause|a]]; try done.
  - split; [cbn; lia|]. split; [cbn; intros; lia|done].
Qed.


(** Jitter is applied after the cap, so a delay can pass the cap by the
    jitter's share of it, and by half a millisecond of rounding. *)
Definition within_cap (d : Z) : Prop :=
  0 <= d /\ (inject_Z d <= inject_Z (max_delay cfg opts) * (1 + jitterFactor cfg) + (1 # 2))%Q.

Lemma jittered_bound j r e m :
  (0 <= j)%Q -> (r <= 1)%Q -> 0 <= e <= m ->
  (inject_Z (jittered j r e) <= inject_Z m * (1 + j) + (1 # 2))%Q.
Proof.
  intros Hj Hr He. unfold jittered.
  assert (0 <= inject_Z e)%Q as He0 by (change 0%Q with (inject_Z 0); rewrite <- Zle_Qle; lia).
  assert (inject_Z e <= inject_Z m)%Q as Hem by (rewrite <- Zle_Qle; lia).
  assert (0 <= inject_Z m * (1 + j) + (1 # 2))%Q as Hnn by nra.
  destruct (Z.max_spec 0 (Qfloor (inject_Z e + j * inject_Z e * (r - (1 # 2)) * 2 + (1 # 2))%Q)) as [[_ ->]|[_ ->]]; [|done].
  eapply Qle_trans; [apply Qfloor_le|]. set (x := inject_Z e) in *. set (y := inject_Z m) in *.
  assert (0 <= j * x)%Q by nra. assert (j * x <= j * y)%Q by nra.
  assert (0 <= (j * x) * (1 - r))%Q by nra. lra.
Qed.

Lemma backoff_bound r k c :
  (0 <= jitterFactor cfg)%Q -> (r <= 1)%Q -> 0 <= confirmationDelayMultiplier cfg ->
  within_cap (backoffDelay cfg r (Z.of_nat k + 1) (base_delay cfg opts) (max_delay cfg opts) c).
Proof.
  intros Hj Hr Hm. unfold within_cap, backoffDelay.
  assert (0 <= max_delay cfg opts) as Hmax by (unfold max_delay; lia).
  assert (0 <= exponential (Z.of_nat k + 1) (base_delay cfg opts) (max_delay cfg opts) <= max_delay cfg opts) as He.
  { unfold exponential. split; [|lia]. apply Z.min_glb; [done|]. apply Z.mul_nonneg_nonneg; [unfold base_delay; lia|].
    apply Z.pow_nonneg. lia. }
  assert (0 <= jittered (jitterFactor cfg) r (exponential (Z.of_nat k + 1) (base_delay cfg opts) (max_delay cfg opts))) as Hd
    by (unfold jittered; lia).
  destruct c; try (split; [done|by apply jittered_bound]). split; [nia|].
  assert (inject_Z (max_delay cfg opts) <= inject_Z (max_delay cfg opts) * (1 + jitterFactor cfg) + (1 # 2))%Q as Hle.
  { assert (0 <= inject_Z (max_delay cfg opts))%Q by (change 0%Q with (inject_Z 0); rewrite <- Zle_Qle; lia). nra. }
  eapply Qle_trans; [|exact Hle]. rewrite <- Zle_Qle. lia.
Qed.

Lemma run_loop_waits fuel k last bs :
  (0 <= jitterFactor cfg)%Q -> (forall i, random i <= 1)%Q -> 0 <= confirmationDelayMultiplier cfg ->
  Forall within_cap (waits (loop fuel k last bs)).
Proof.
  intros Hj Hr Hm. revert k last bs. induction fuel as [|fuel IH]; intros k last bs; [constructor|].
  cbn [run_loop]. destruct (fn k); [constructor|]. destruct (decide _); [constructor|].
  destruct fuel; [constructor|]. destruct (checkCircuit _ _ _ _) as [[] bs']; cbn [waits].
  - constructor; [by apply backoff_bound|apply IH].
  - constructor; [by apply backoff_bound|constructor].
Qed.
End RunFacts.

(** A run of the retry engine, whatever the wrapped function answers and
    however other runs change the breakers meanwhile: the function is called
    at most [maxAttempts] times, and again only after a failure that is not
    terminal; a returned value is the function's and leaves the action's
    breaker closed with no failures; a terminal fault is rethrown as it is;
    [RetryExhaustedError] means that all attempts were used and carries the
    last error and its class; a call the breaker rejects at the start never
    reaches the function; and no delay exceeds the cap by more than the jitter.
    Hypotheses: the configured jitter and multiplier are not negative and the
    random numbers are at most one. *)
Lemma retry_run (cfg : EngineCfg) (A : Type) (fn : nat -> outcome Thrown A) (others : nat -> Breakers -> Breakers)
    (clock : nat -> Z) (random : nat -> Q) (action : string) (opts : RunOptions) (bs : Breakers) :
  (0 <= jitterFactor cfg)%Q -> (forall i, random i <= 1)%Q -> 0 <= confirmationDelayMultiplier cfg ->
  let l := run cfg fn others clock random action opts bs in
  Z.of_nat (fn_calls l) <= Z.max 0 (max_attempts cfg opts) /\
  (forall i, (S i < fn_calls l)%nat -> retried fn opts i) /\
  run_end cfg fn action opts (fn_calls l) (transient, None) (result l) (after l) /\
  ((checkCircuit cfg (clock 0%nat) action bs).1 = false -> fn_calls l = 0%nat /\ result l = Throw (CircuitOpenError action)) /\
  Forall (within_cap cfg opts) (waits l).
Proof.
  intros Hj Hr Hm l. unfold l, run. destruct (checkCircuit cfg (clock 0%nat) action bs) as [[] bs'].
  - pose proof (run_loop_spec cfg fn others clock random action opts (Z.to_nat (max_attempts cfg opts)) 0 (transient, None) bs'
      ltac:(lia) ltac:(by left)) as (Hn & Hi & He).
    split_and!; [lia|intros i; apply Hi; lia|exact He|done|by apply run_loop_waits].
  - split_and!; [cbn; lia|cbn; intros; lia|done|done|constructor].
Qed.

(** Two rate-limit errors, then an answer. *)
Definition flaky (k : nat) : outcome Thrown Z :=
  match k with O => Throw (TError "429 rate limit") | S O => Throw (TError "nonce too low") | _ => Ok 42 end.

Definition plain_run : RunOptions := mkRunOptions None None None None.

Lemma retry_run_witness :
  let l := run default_engine flaky (fun _ bs => bs) (fun i => 1000 * Z.of_nat i) (fun _ => 1 # 2)%Q "rpc" plain_run [] in
  result l = Ok 42 /\ waits l = [1000; 6000] /\
  Z.of_nat (fn_calls l) <= Z.max 0 (max_attempts default_engine plain_run) /\
  (forall i, (S i < fn_calls l)%nat -> retried flaky plain_run i) /\
  run_end default_engine flaky "rpc" plain_run (fn_calls l) (transient, None) (result l) (after l) /\
  ((checkCircuit default_engine 0 "rpc" []).1 = false -> fn_calls l = 0%nat /\ result l = Throw (CircuitOpenError "rpc")) /\
  Forall (within_cap default_engine plain_run) (waits l).
Proof.
  intros l. split; [vm_compute; reflexivity|]. split; [vm_compute; reflexivity|].
  apply (retry_run default_engine Z flaky (fun _ bs => bs) (fun i => 1000 * Z.of_nat i) (fun _ => 1 # 2)%Q "rpc" plain_run []).
  - vm_compute. congruence.
  - intros i. vm_compute. congruence.
  - vm_compute. congruence.
Defined.

(** The cap is not hard: with the default jitter a transient delay reaches
    36 seconds under a cap of 30. *)
Example delay_above_cap :
  backoffDelay default_engine (1%Q) 10 1000 30000 transient = 36000 /\
  calculateBackoff (1%Q) 10 1000 30000 (1 # 5)%Q 1 = 30000.
Proof. vm_compute. done. Qed.

(** ** The life of one breaker

    The events of all runs of an action, in order. *)
Inductive BreakerEvent : Type := ECheck (now : Z) | ESuccess | EFailure (now : Z) | EReset.

Definition breaker_event (cfg : EngineCfg) (b : CircuitBreaker) (e : BreakerEvent) : CircuitBreaker :=
  match e with
  | ECheck now => (check_breaker cfg now b).2
  | ESuccess | EReset => success_breaker b
  | EFailure now => failure_breaker cfg now b
  end.

(** A closed breaker has fewer failures than the threshold; only a half-open
    one has a probe slot. *)
Definition breaker_ok (cfg : EngineCfg) (b : CircuitBreaker) : Prop :=
  0 <= consecutiveFailures b /\
  (state b = closed -> consecutiveFailures b < circuitBreakerThreshold cfg) /\
  (halfOpenAllowed b = true -> state b = half_open).

Lemma breaker_ok_event cfg b e :
  1 <= circuitBreakerThreshold cfg -> breaker_ok cfg b -> breaker_ok cfg (breaker_event cfg b e).
Proof.
  intros Ht (Hn & Hc & Hh). destruct b as [st n t h]; cbn in *.
  destruct e; cbn; unfold check_breaker, failure_breaker, success_breaker, breaker_ok; cbn;
    destruct st, h; cbn; repeat case_match; bools; cbn in *; split_and!; try done; try lia;
    try (by discriminate (Hh eq_refl)); auto.
Qed.

Lemma breaker_ok_run cfg events b :
  1 <= circuitBreakerThreshold cfg -> breaker_ok cfg b -> breaker_ok cfg (fold_left (breaker_event cfg) events b).
Proof. intros Ht. revert b. induction events as [|e es IH]; intros b Hb; [done|]. by apply IH, breaker_ok_event. Qed.

(** The answers to a series of checks with no outcome in between. *)
Fixpoint check_many (cfg : EngineCfg) (nows : list Z) (b : CircuitBreaker) : list bool :=
  match nows with
  | [] => []
  | now :: nows' => let '(pass, b') := check_breaker cfg now b in pass :: check_many cfg nows' b'
  end.

Definition passes (answers : list bool) : nat := length (List.filter (fun x => x) answers).

Lemma check_many_half cfg nows b :
  state b = half_open -> (passes (check_many cfg nows b) <= if halfOpenAllowed b then 1 else 0)%nat.
Proof.
  revert b. induction nows as [|now nows IH]; intros [st n t h] Hst; [cbn; lia|]. cbn in Hst. subst st.
  unfold passes in *. cbn. destruct h; cbn.
  - specialize (IH (mkCircuitBreaker half_open n t false) eq_refl). cbn in IH. lia.
  - specialize (IH (mkCircuitBreaker half_open n t false) eq_refl). cbn in IH. lia.
Qed.

Lemma check_many_open cfg nows b : state b = open -> (passes (check_many cfg nows b) <= 2)%nat.
Proof.
  revert b. induction nows as [|now nows IH]; intros [st n t h] Hst; [cbn; lia|]. cbn in Hst. subst st.
  unfold passes in *. cbn. destruct (_ <=? _); cbn.
  - pose proof (check_many_half cfg nows (mkCircuitBreaker half_open n t true) eq_refl) as H.
    unfold passes in H. cbn in H. lia.
  - apply (IH (mkCircuitBreaker open n t h) eq_refl).
Qed.

Lemma check_many_early cfg nows b :
  state b = open -> Forall (fun now => now - lastFailureAt b < circuitBreakerResetMs cfg) nows ->
  Forall (fun pass => pass = false) (check_many cfg nows b).
Proof.
  intros Hst. revert b Hst. induction nows as [|now nows IH]; intros [st n t h] Hst Hn; [constructor|].
  cbn in *. subst st. apply Forall_cons in Hn as [Hnow Hn]. cbn.
  destruct (Z.leb_spec (circuitBreakerResetMs cfg) (now - t)); [lia|]. constructor; [done|]. by apply IH.
Qed.

Lemma failure_event cfg b now :
  breaker_ok cfg b ->
  state (failure_breaker cfg now b) = (if decide (state b = closed) then
     if circuitBreakerThreshold cfg <=? consecutiveFailures b + 1 then open else closed else open) /\
  consecutiveFailures (failure_breaker cfg now b) = consecutiveFailures b + 1 /\
  lastFailureAt (failure_breaker cfg now b) = now.
Proof. intros _. destruct b as [[] n t h]; unfold failure_breaker; cbn; try done. by destruct (_ <=? _). Qed.

(** The discipline of a circuit breaker, over any history of checks,
    successes, failures and resets.  A closed breaker has fewer consecutive
    failures than the threshold, so the failure that reaches it opens the
    breaker, and any failure while half-open opens it again; while open, every
    check earlier than the reset time after the last failure is rejected; and
    from opening until the next outcome at most two calls pass - the call that
    makes it half-open and the one that takes the probe slot. *)
Lemma breaker_discipline (cfg : EngineCfg) (events : list BreakerEvent) (nows : list Z) (now : Z) :
  1 <= circuitBreakerThreshold cfg ->
  let b := fold_left (breaker_event cfg) events new_breaker in
  (state b = closed -> 0 <= consecutiveFailures b < circuitBreakerThreshold cfg) /\
  (let b' := failure_breaker cfg now b in
   state b' = open \/ state b' = closed /\ state b = closed /\ consecutiveFailures b' < circuitBreakerThreshold cfg) /\
  (state b = open -> Forall (fun t => t - lastFailureAt b < circuitBreakerResetMs cfg) nows ->
     Forall (fun pass => pass = false) (check_many cfg nows b)) /\
  (state b = open -> (passes (check_many cfg nows b) <= 2)%nat).
Proof.
  intros Ht b. assert (breaker_ok cfg b) as Hb by (apply breaker_ok_run; [done|]; split_and!; cbn; [lia|lia|done]).
  split_and!.
  - destruct Hb as (? & Hc & _). intros Hs. split; [done|by apply Hc].
  - destruct (failure_event cfg b now Hb) as (Hs & Hn & _). destruct (decide (state b = closed)) as [Hc|Hc]; [|by left].
    destruct (Z.leb_spec (circuitBreakerThreshold cfg) (consecutiveFailures b + 1)); [by left|right].
    split_and!; [done|done|lia].
  - by apply check_many_early.
  - by apply check_many_open.
Qed.

Lemma breaker_discipline_witness :
  let fails := [EFailure 1; EFailure 2; EFailure 3; EFailure 4; EFailure 5] in
  let b := fold_left (breaker_event default_engine) fails new_breaker in
  state b = open /\ check_many default_engine [60004; 60005; 60006; 60007] b = [false; true; true; false] /\
  Forall (fun pass => pass = false) (check_many default_engine [6; 60004] b).
Proof.
  split; [reflexivity|]. split; [reflexivity|].
  apply (breaker_discipline default_engine [EFailure 1; EFailure 2; EFailure 3; EFailure 4; EFailure 5] [6; 60004] 0).
  - vm_compute. congruence.
  - reflexivity.
  - repeat constructor.
Defined.
