(* ===== verification/TxStateStore.v ===== *)
(** * Transaction states

    relayer/src/services/tx-state-store.ts: one record per order follows its
    settlement transaction from submission to completion, with the history of
    its transitions; [reconcile] walks the open records after a restart or on
    schedule.  The chain provider is an oracle that may answer differently on
    every call; [asked] logs its calls.  Records are shared objects in the
    source; as no record is ever replaced, the record is identified by its
    order id. *)

From S2P Require Import Prelude JsMap FileStore.

Inductive TxState : Type :=
| pending_submission
| submission_acked
| chain_mined
| coordinator_recorded
| complete
| terminal_failure.

#[export] Instance TxState_eq_dec : EqDecision TxState.
Proof. solve_decision. Defined.

Definition state_name (s : TxState) : string :=
  match s with
  | pending_submission => "pending_submission"
  | submission_acked => "submission_acked"
  | chain_mined => "chain_mined"
  | coordinator_recorded => "coordinator_recorded"
  | complete => "complete"
  | terminal_failure => "terminal_failure"
  end.

Definition NON_TERMINAL_STATES : list TxState :=
  [pending_submission; submission_acked; chain_mined; coordinator_recorded].

Definition ALLOWED_TRANSITIONS (from : TxState) : list TxState :=
  match from with
  | pending_submission => [submission_acked; terminal_failure]
  | submission_acked => [chain_mined; terminal_failure]
  | chain_mined => [coordinator_recorded; terminal_failure]
  | coordinator_recorded => [complete; terminal_failure]
  | complete => []
  | terminal_failure => []
  end.

Definition isTerminalState (s : TxState) : bool :=
  bool_decide (s = complete) || bool_decide (s = terminal_failure).

Definition isTransitionAllowed (from to : TxState) : bool := bool_decide (to ∈ ALLOWED_TRANSITIONS from).

Record Transition : Type := mkTransition { t_from : TxState; t_to : TxState; t_at : Z; t_note : option string }.

Record TxStateRecord : Type := mkTxStateRecord {
  orderId : string;
  correlationId : string;
  route : string;
  state : TxState;
  txHash : option string;
  minedBlock : option Z;
  minedAt : option Z;
  confirmations : option Z;
  coordinatorRef : option string;
  createdAt : Z;
  updatedAt : Z;
  history : list Transition;
  failureReason : option string;
  recoveryAttempts : Z;
}.

(** [_filePath] cuts names at 120; [_isValidBlockNumber] is the loader's
    check on a typed record. *)
Definition isValidBlockNumber (b : option Z) : bool := match b with None => true | Some n => 0 <=? n end.
Definition tx_filed : Filed TxStateRecord :=
  mkFiled _ orderId (Some 120%nat) (fun r => isValidBlockNumber (minedBlock r)).
#[export] Existing Instance tx_filed.

Record TxReceipt : Type := mkTxReceipt {
  rc_hash : string;
  rc_blockNumber : Z;
  rc_status : Z;
  rc_confirmations : option Z;
}.

Inductive TxError : Type :=
| TxStateError (message code : string)
| ProviderError (message : string).

(** The options of the constructor, with their defaults applied. *)
Record TxConfig : Type := mkTxConfig { pendingTimeoutMs : Z; maxRecovery : Z }.
Definition default_tx_config : TxConfig := mkTxConfig (30 * 60 * 1000) 5.

Record TxWorld : Type := mkTxWorld { store : Store TxStateRecord; asked : list string }.
Definition TM (A : Type) : Type := ST TxWorld TxError A.

Definition with_store (f : Store TxStateRecord -> Store TxStateRecord) (w : TxWorld) : TxWorld :=
  mkTxWorld (f (store w)) (asked w).

(** Write a record back to the map and to disk. *)
Definition save (r : TxStateRecord) : TM unit := modify (with_store (fs_put r)).

(** ** Write API *)

Definition create (now : Z) (o corr rt : string) : TM TxStateRecord :=
  exists_ ← gets (fun w => jm_has o (mem (store w)));
  if exists_ : bool then
    throw (TxStateError ("[tx-state] Record already exists for orderId=" +:+ o) "ALREADY_EXISTS")
  else
    let r := mkTxStateRecord o corr rt pending_submission None None None None None now now [] None 0 in
    _ ← save r; mret r.

Definition getOrThrow (o : string) : TM TxStateRecord :=
  found ← gets (fun w => fs_get o (store w));
  match found with
  | Some r => mret r
  | None => throw (TxStateError ("[tx-state] No record found for orderId=" +:+ o) "NOT_FOUND")
  end.

(** The patch of a transition; an absent field keeps the record's. *)
Record TxPatch : Type := mkTxPatch {
  p_txHash : option string;
  p_minedBlock : option Z;
  p_minedAt : option Z;
  p_confirmations : option Z;
  p_coordinatorRef : option string;
  p_failureReason : option string;
}.
Definition no_patch : TxPatch := mkTxPatch None None None None None None.

Definition patched {A} (p old : option A) : option A := match p with Some x => Some x | None => old end.

Definition apply_transition (now : Z) (to : TxState) (p : TxPatch) (note : option string) (r : TxStateRecord)
    : TxStateRecord :=
  mkTxStateRecord (orderId r) (correlationId r) (route r) to
    (patched (p_txHash p) (txHash r)) (patched (p_minedBlock p) (minedBlock r)) (patched (p_minedAt p) (minedAt r))
    (patched (p_confirmations p) (confirmations r)) (patched (p_coordinatorRef p) (coordinatorRef r))
    (createdAt r) now (history r ++ [mkTransition (state r) to now note])
    (patched (p_failureReason p) (failureReason r)) (recoveryAttempts r).

Definition transition (now : Z) (o : string) (to : TxState) (p : TxPatch) (note : option string) : TM TxStateRecord :=
  r ← getOrThrow o;
  if negb (isTransitionAllowed (state r) to) then
    throw (TxStateError ("[tx-state] Invalid transition " +:+ state_name (state r) +:+ " → " +:+ state_name to +:+
                         " for orderId=" +:+ o) "INVALID_TRANSITION")
  else
    let r' := apply_transition now to p note r in
    _ ← save r'; mret r'.

Definition ackSubmission (now : Z) (o hash : string) : TM TxStateRecord :=
  transition now o submission_acked (mkTxPatch (Some hash) None None None None None) (Some "tx broadcast").

(** The record and whether the receipt was accepted. *)
Definition recordReceipt (now : Z) (o : string) (rc : TxReceipt) : TM (TxStateRecord * bool) :=
  r ← getOrThrow o;
  if negb (isTransitionAllowed (state r) chain_mined) then
    if bool_decide (txHash r = Some (rc_hash rc)) && negb (bool_decide (state r = pending_submission)) then mret (r, false)
    else throw (TxStateError ("[tx-state] Cannot record receipt for orderId=" +:+ o +:+ " in state=" +:+
                              state_name (state r)) "INVALID_TRANSITION")
  else
    r' ← transition now o chain_mined
           (mkTxPatch (Some (rc_hash rc)) (Some (rc_blockNumber rc)) (Some now)
              (Some (default 0 (rc_confirmations rc))) None None)
           (Some ("mined in block " +:+ pretty (rc_blockNumber rc)));
    mret (r', true).

Definition recordCoordinatorAck (now : Z) (o ref : string) : TM TxStateRecord :=
  transition now o coordinator_recorded (mkTxPatch None None None None (Some ref) None) (Some ("coordinator ref: " +:+ ref)).

Definition markComplete (now : Z) (o : string) : TM TxStateRecord :=
  transition now o complete no_patch (Some "relay complete").

Definition markFailed (now : Z) (o reason : string) : TM TxStateRecord :=
  transition now o terminal_failure (mkTxPatch None None None None None (Some reason)) (Some reason).

(** ** Read API *)

Definition tx_get (o : string) (s : Store TxStateRecord) : option TxStateRecord := fs_get o s.
Definition byState (st : TxState) (s : Store TxStateRecord) : list TxStateRecord :=
  List.filter (fun r => bool_decide (state r = st)) (jm_values (mem s)).
Definition stateCounts (s : Store TxStateRecord) (st : TxState) : Z :=
  Z.of_nat (length (byState st s)).
Definition tx_size (s : Store TxStateRecord) : Z := jm_size (mem s).
Definition tx_snapshot (s : Store TxStateRecord) : list TxStateRecord := jm_values (mem s).

(** ** Reconciliation *)

Inductive Reconciled : Type := advanced | failed | skipped.

Section Reconcile.
Context (cfg : TxConfig).
(** [None] is the source's [provider = null]; an answer [None] is "no
    receipt yet". *)
Context (provider : option (list string -> string -> outcome string (option TxReceipt))).

Definition ask (p : list string -> string -> outcome string (option TxReceipt)) (h : string) : TM (option TxReceipt) :=
  fun w =>
    let w' := mkTxWorld (store w) (asked w ++ [h]) in
    match p (asked w) h with Ok a => (Ok a, w') | Throw m => (Throw (ProviderError m), w') end.

Definition bump_recovery (r : TxStateRecord) : TxStateRecord :=
  mkTxStateRecord (orderId r) (correlationId r) (route r) (state r) (txHash r) (minedBlock r) (minedAt r)
    (confirmations r) (coordinatorRef r) (createdAt r) (updatedAt r) (history r) (failureReason r)
    (recoveryAttempts r + 1).

Definition fail_with (now : Z) (o reason : string) : TM Reconciled := _ ← markFailed now o reason; mret failed.

(** [Math.round(ms / 1000)]. *)
Definition round_seconds (ms : Z) : Z := (ms + 500) / 1000.

Definition reconcile_acked (now : Z) (r : TxStateRecord) : TM Reconciled :=
  match txHash r, provider with
  | Some h, Some p =>
      if negb (truthy_string h) then mret skipped
      else
        receipt ← ask p h;
        match receipt with
        | None => mret skipped
        | Some rc =>
            if rc_status rc =? 0 then fail_with now (orderId r) ("tx reverted on-chain: " +:+ h)
            else _ ← recordReceipt now (orderId r) rc; mret advanced
        end
  | _, _ => mret skipped
  end.

Definition reconcileRecord (now : Z) (r : TxStateRecord) : TM Reconciled :=
  if maxRecovery cfg <=? recoveryAttempts r then
    fail_with now (orderId r) ("max recovery attempts (" +:+ pretty (maxRecovery cfg) +:+ ") exceeded")
  else
    let r := bump_recovery r in
    _ ← save r;
    match state r with
    | pending_submission =>
        let age := now - createdAt r in
        if pendingTimeoutMs cfg <? age then
          fail_with now (orderId r) ("pending_submission timeout after " +:+ pretty (round_seconds age) +:+ "s")
        else mret skipped
    | submission_acked => reconcile_acked now r
    | chain_mined => mret skipped
    | coordinator_recorded => _ ← markComplete now (orderId r); mret advanced
    | _ => mret skipped
    end.

Record ReconcileSummary : Type := mkReconcileSummary { scanned : Z; n_advanced : Z; n_failed : Z; n_skipped : Z }.

Definition count_result (s : ReconcileSummary) (r : Reconciled) : ReconcileSummary :=
  match r with
  | advanced => mkReconcileSummary (scanned s) (n_advanced s + 1) (n_failed s) (n_skipped s)
  | failed => mkReconcileSummary (scanned s) (n_advanced s) (n_failed s + 1) (n_skipped s)
  | skipped => mkReconcileSummary (scanned s) (n_advanced s) (n_failed s) (n_skipped s + 1)
  end.

(** The loop over the records that were open at the start; an error counts
    as skipped. *)
Fixpoint reconcile_each (now : Z) (ids : list string) (s : ReconcileSummary) : TM ReconcileSummary :=
  match ids with
  | [] => mret s
  | o :: ids' =>
      res ← try_catch (r ← getOrThrow o; reconcileRecord now r) (fun _ => mret skipped);
      reconcile_each now ids' (count_result s res)
  end.

Definition open_ids (s : Store TxStateRecord) : list string :=
  orderId <$> List.filter (fun r => bool_decide (state r ∈ NON_TERMINAL_STATES)) (jm_values (mem s)).

Definition reconcile (now : Z) : TM ReconcileSummary :=
  ids ← gets (fun w => open_ids (store w));
  reconcile_each now ids (mkReconcileSummary (Z.of_nat (length ids)) 0 0 0).
End Reconcile.

(** ** The shape of a record *)

(** The state a history leads to, if every step is an allowed transition from
    the state before it. *)
Fixpoint path_end (s : TxState) (h : list Transition) : option TxState :=
  match h with
  | [] => Some s
  | t :: h' =>
      if bool_decide (t_from t = s) && isTransitionAllowed s (t_to t) then path_end (t_to t) h' else None
  end.

(** The record has been in the state, by its history. *)
Definition entered (s : TxState) (r : TxStateRecord) : Prop := exists t, t ∈ history r /\ t_to t = s.

(** The state before a state of the regular course. *)
Definition predecessor (s : TxState) : option TxState :=
  match s with
  | chain_mined => Some submission_acked
  | coordinator_recorded => Some chain_mined
  | complete => Some coordinator_recorded
  | _ => None
  end.

(** No state of the regular course is skipped, and each field is set exactly
    when the record has been in the state that sets it. *)
Record fields_ok (r : TxStateRecord) : Prop := mk_fields_ok {
  fo_course : forall s s', predecessor s = Some s' -> entered s r -> entered s' r;
  fo_txHash : is_Some (txHash r) <-> entered submission_acked r;
  fo_minedBlock : is_Some (minedBlock r) <-> entered chain_mined r;
  fo_minedAt : is_Some (minedAt r) <-> entered chain_mined r;
  fo_confirmations : is_Some (confirmations r) <-> entered chain_mined r;
  fo_coordinatorRef : is_Some (coordinatorRef r) <-> entered coordinator_recorded r;
  fo_failureReason : is_Some (failureReason r) <-> state r = terminal_failure
}.

Definition shape (cfg : TxConfig) (r : TxStateRecord) : Prop :=
  path_end pending_submission (history r) = Some (state r) /\ fields_ok r /\
  0 <= recoveryAttempts r <= Z.max 0 (maxRecovery cfg).

(** Every record in memory and on disk has the shape, and in memory it is
    stored under its order id. *)
Definition all_shaped (cfg : TxConfig) (w : TxWorld) : Prop :=
  (forall k r, fs_get k (store w) = Some r -> orderId r = k /\ shape cfg r) /\
  (forall f r, files (store w) !! f = Some (Some r) -> shape cfg r).

Lemma path_end_snoc s h t :
  path_end s (h ++ [t]) =
  match path_end s h with
  | Some s' => if bool_decide (t_from t = s') && isTransitionAllowed s' (t_to t) then Some (t_to t) else None
  | None => None
  end.
Proof.
  revert s. induction h as [|t' h IH]; intros s; cbn; [by destruct (_ && _)|]. destruct (_ && _); [apply IH|done].
Qed.

(** The last state of a history was entered. *)
Lemma path_end_entered s s' h : path_end s h = Some s' -> s' <> s -> exists t, t ∈ h /\ t_to t = s'.
Proof.
  destruct h as [|t h _] using rev_ind; [cbn; congruence|]. rewrite path_end_snoc. intros E _. exists t.
  split; [apply elem_of_app; right; by left|]. destruct (path_end s h); [|done]. destruct (_ && _); congruence.
Qed.

Lemma entered_transition s now to p note r :
  entered s (apply_transition now to p note r) <-> entered s r \/ s = to.
Proof.
  unfold entered. cbn. setoid_rewrite elem_of_app. setoid_rewrite list_elem_of_singleton. naive_solver.
Qed.

Lemma is_Some_patched {A} (p old : option A) : is_Some (patched p old) <-> is_Some old \/ is_Some p.
Proof. destruct p as [x|]; cbn; [split; [right|]; eauto|]. split; [by left|]. by intros [|[]]. Qed.

Lemma shape_transition cfg now to p note r :
  shape cfg r -> isTransitionAllowed (state r) to = true ->
  fields_ok (apply_transition now to p note r) -> shape cfg (apply_transition now to p note r).
Proof.
  intros (Hp & Hf & Hr) Ha Hf'. split_and!; [|done|apply Hr|apply Hr]. cbn. rewrite path_end_snoc, Hp. cbn.
  by rewrite bool_decide_true, Ha by done.
Qed.

Section Shaped.
Context (cfg : TxConfig).
Notation inv := (all_shaped cfg).

Lemma ensures_save r : shape cfg r -> ensures inv (save r) (fun _ => True).
Proof.
  intros Hr. apply ensures_modify; [|done]. intros w [Hm Hd]. split; cbn.
  - intros k r'. rewrite fs_get_put. case_decide; [by intros [= <-]|apply Hm].
  - intros f r'. unfold fs_put, persist. destruct (_ && _); cbn; [|apply Hd].
    rewrite lookup_insert_Some. intros [[_ [= <-]]|[_ H]]; [done|by eapply Hd].
Qed.

Lemma ensures_getOrThrow o : ensures inv (getOrThrow o) (shape cfg).
Proof.
  unfold getOrThrow. eapply ensures_bind; [apply (ensures_gets _ _ (fun f => forall r, f = Some r -> shape cfg r))|].
  - intros w [Hm _] r Hr. by apply Hm in Hr as [_ ?].
  - intros [r|] Hr; [by apply ensures_ret, Hr|apply ensures_throw].
Qed.

(** The states [to] can be entered from with patch [p] without losing the
    fields it needs. *)
Definition patch_fits (to : TxState) (p : TxPatch) : Prop :=
  forall now note r, shape cfg r -> isTransitionAllowed (state r) to = true ->
    fields_ok (apply_transition now to p note r).

Lemma ensures_transition now o to p note :
  patch_fits to p -> ensures inv (transition now o to p note) (shape cfg).
Proof.
  intros Hp. unfold transition. eapply ensures_bind; [apply ensures_getOrThrow|]. intros r Hr.
  destruct (isTransitionAllowed (state r) to) eqn:Ha; cbn [negb]; [|apply ensures_throw].
  assert (shape cfg (apply_transition now to p note r)) as Hr' by (apply shape_transition; auto).
  eapply ensures_bind; [by apply ensures_save|]. intros _ _. by apply ensures_ret.
Qed.

Lemma allowed_from from to : isTransitionAllowed from to = true -> to ∈ ALLOWED_TRANSITIONS from.
Proof. apply bool_decide_eq_true. Qed.

(** The predecessors of each state. *)
Ltac predecessors Ha :=
  apply allowed_from in Ha;
  match type of Ha with _ ∈ ALLOWED_TRANSITIONS (state ?r) => destruct (state r) eqn:?Est end;
  cbn in Ha; repeat (apply elem_of_cons in Ha as [?|Ha]; try discriminate); try (by apply elem_of_nil in Ha).

(** A patch fits when it sets the fields of the state it goes to, and the hash
    of a record that was submitted. *)
Lemma fits_fields to p :
  (is_Some (p_txHash p) <-> to = submission_acked \/ (to = chain_mined /\ is_Some (p_txHash p))) ->
  (is_Some (p_minedBlock p) <-> to = chain_mined) -> (is_Some (p_minedAt p) <-> to = chain_mined) ->
  (is_Some (p_confirmations p) <-> to = chain_mined) -> (is_Some (p_coordinatorRef p) <-> to = coordinator_recorded) ->
  (is_Some (p_failureReason p) <-> to = terminal_failure) -> patch_fits to p.
Proof.
  intros P1 P2 P3 P4 P5 P6 now note r (Hp & [F0 F1 F2 F3 F4 F5 F6] & _) Ha.
  assert (forall s', predecessor to = Some s' -> entered s' r) as Hs.
  { intros s' Es. apply (path_end_entered pending_submission); [|by intros ->; destruct to]. rewrite Hp.
    predecessors Ha; subst to; by simplify_eq. }
  assert (state r <> terminal_failure) as Hn by (intros E; by rewrite E in Ha).
  split.
  { intros s s' Es. rewrite !entered_transition. intros [Hs'| ->]; left; eauto. }
  all: cbn [apply_transition txHash minedBlock minedAt confirmations coordinatorRef failureReason state];
    rewrite ?entered_transition, is_Some_patched; naive_solver.
Qed.

Ltac fits := apply fits_fields; cbn; split; naive_solver eauto.

Lemma fits_ack h : patch_fits submission_acked (mkTxPatch (Some h) None None None None None).
Proof. fits. Qed.

Lemma fits_mined h b t c : patch_fits chain_mined (mkTxPatch (Some h) (Some b) (Some t) (Some c) None None).
Proof. fits. Qed.

Lemma fits_recorded ref : patch_fits coordinator_recorded (mkTxPatch None None None None (Some ref) None).
Proof. fits. Qed.

Lemma fits_complete : patch_fits complete no_patch.
Proof. fits. Qed.

Lemma fits_failed reason : patch_fits terminal_failure (mkTxPatch None None None None None (Some reason)).
Proof. fits. Qed.

Lemma fields_created now o corr rt : fields_ok (mkTxStateRecord o corr rt pending_submission None None None None None now now [] None 0).
Proof.
  split; [by intros s s' _ (t & Ht%not_elem_of_nil & _)|..];
    cbn; (split; [by intros []|]); try done; by intros (t & Ht%not_elem_of_nil & _).
Qed.

Lemma ensures_create now o corr rt : ensures inv (create now o corr rt) (shape cfg).
Proof.
  unfold create. eapply ensures_bind; [by apply (ensures_gets _ _ (fun _ => True))|]. intros [] _; [apply ensures_throw|].
  assert (shape cfg (mkTxStateRecord o corr rt pending_submission None None None None None now now [] None 0)) as Hr
    by (split; [done|]; split; [apply fields_created|]; cbn; lia).
  eapply ensures_bind; [by apply ensures_save|]. intros _ _. by apply ensures_ret.
Qed.

Lemma ensures_receipt now o rc : ensures inv (recordReceipt now o rc) (fun _ => True).
Proof.
  unfold recordReceipt. eapply ensures_bind; [apply ensures_getOrThrow|]. intros r Hr.
  destruct (negb _); [destruct (_ && _); [by apply ensures_ret|apply ensures_throw]|].
  eapply ensures_bind; [apply ensures_transition, fits_mined|]. intros r' _. by apply ensures_ret.
Qed.

Lemma ensures_fail_with now o reason : ensures inv (fail_with now o reason) (fun _ => True).
Proof.
  unfold fail_with, markFailed. eapply ensures_bind; [apply ensures_transition, fits_failed|].
  intros r _. by apply ensures_ret.
Qed.

Lemma ensures_ask p h : ensures inv (ask p h) (fun _ => True).
Proof. intros w Hw. unfold ask. destruct (p (asked w) h); cbn; split; auto. Qed.

Lemma ensures_reconcileRecord provider now r :
  shape cfg r -> ensures inv (reconcileRecord cfg provider now r) (fun _ => True).
Proof.
  intros Hr. unfold reconcileRecord. destruct (Z.leb_spec (maxRecovery cfg) (recoveryAttempts r)); [apply ensures_fail_with|].
  assert (shape cfg (bump_recovery r)) as Hb by (destruct Hr as (? & [] & ?); split; [done|]; split; [done|]; cbn; lia).
  eapply ensures_bind; [by apply ensures_save|]. intros _ _. destruct (state (bump_recovery r)); try by apply ensures_ret.
  - destruct (_ <? _); [apply ensures_fail_with|by apply ensures_ret].
  - unfold reconcile_acked. destruct (txHash _) as [h|]; [|by apply ensures_ret]. destruct provider as [p|]; [|by apply ensures_ret].
    destruct (negb _); [by apply ensures_ret|]. eapply ensures_bind; [apply ensures_ask|]. intros [rc|] _; [|by apply ensures_ret].
    destruct (_ =? _); [apply ensures_fail_with|]. eapply ensures_bind; [apply ensures_receipt|]. intros _ _. by apply ensures_ret.
  - unfold markComplete. eapply ensures_bind; [apply ensures_transition, fits_complete|]. intros _ _. by apply ensures_ret.
Qed.

Lemma ensures_reconcile provider now : ensures inv (reconcile cfg provider now) (fun _ => True).
Proof.
  unfold reconcile. eapply ensures_bind; [by apply (ensures_gets _ _ (fun _ => True))|]. intros ids _.
  generalize (mkReconcileSummary (Z.of_nat (length ids)) 0 0 0).
  induction ids as [|o ids IH]; intros s; [by apply ensures_ret|]. cbn.
  apply (ensures_bind _ _ _ (fun _ => True)); [|intros res _; apply IH]. apply ensures_try; [|intros; by apply ensures_ret].
  eapply ensures_bind; [apply ensures_getOrThrow|]. intros r Hr. by apply ensures_reconcileRecord.
Qed.
End Shaped.

(** ** Runs *)

Inductive TxOp : Type :=
| TCreate (now : Z) (o corr rt : string)
| TAck (now : Z) (o h : string)
| TReceipt (now : Z) (o : string) (rc : TxReceipt)
| TCoordinatorAck (now : Z) (o ref : string)
| TComplete (now : Z) (o : string)
| TFail (now : Z) (o reason : string)
| TReconcile (now : Z) (provider : option (list string -> string -> outcome string (option TxReceipt)))
| TDisk (works : bool)
| TReboot (readdir : gmap string (option TxStateRecord) -> list (string * option TxStateRecord)).

Definition set_writable (b : bool) (s : Store TxStateRecord) : Store TxStateRecord :=
  mkStore (mem s) (files s) (storage s) b.

Definition tx_op (cfg : TxConfig) (w : TxWorld) (op : TxOp) : TxWorld :=
  match op with
  | TCreate now o corr rt => (create now o corr rt w).2
  | TAck now o h => (ackSubmission now o h w).2
  | TReceipt now o rc => (recordReceipt now o rc w).2
  | TCoordinatorAck now o ref => (recordCoordinatorAck now o ref w).2
  | TComplete now o => (markComplete now o w).2
  | TFail now o reason => (markFailed now o reason w).2
  | TReconcile now provider => (reconcile cfg provider now w).2
  | TDisk works => with_store (set_writable works) w
  | TReboot readdir => with_store (reboot readdir) w
  end.

Definition tx_run (cfg : TxConfig) (ops : list TxOp) (w : TxWorld) : TxWorld := fold_left (tx_op cfg) ops w.

Definition tx_op_ok (op : TxOp) : Prop := match op with TReboot readdir => lists_all readdir | _ => True end.

Definition empty_tx : TxWorld := mkTxWorld fresh_store [].

Lemma shaped_op cfg w op : tx_op_ok op -> all_shaped cfg w -> all_shaped cfg (tx_op cfg w op).
Proof.
  intros Ho Hw. destruct op; cbn; try exact Hw.
  - by apply ensures_create.
  - by apply (ensures_transition cfg), Hw; apply fits_ack.
  - by apply ensures_receipt.
  - by apply (ensures_transition cfg), Hw; apply fits_recorded.
  - by apply (ensures_transition cfg), Hw; apply fits_complete.
  - by apply (ensures_transition cfg), Hw; apply fits_failed.
  - by apply ensures_reconcile.
  - destruct Hw as [Hm Hd]. split; [|exact Hd]. intros k r Hr.
    apply reboot_from_disk in Hr as (Hk & _ & f & Hf); [|exact Ho]. split; [exact Hk|by eapply Hd].
Qed.

Lemma shaped_run cfg ops w : Forall tx_op_ok ops -> all_shaped cfg w -> all_shaped cfg (tx_run cfg ops w).
Proof. intros Hops. revert w. induction Hops as [|op ops Ho _ IH]; intros w Hw; [done|]. by apply IH, shaped_op. Qed.

Lemma shaped_empty cfg : all_shaped cfg empty_tx.
Proof. by split. Qed.

(** ** What an operation does to one record *)

Lemma save_spec r w : save r w = (Ok tt, mkTxWorld (fs_put r (store w)) (asked w)).
Proof. done. Qed.

Lemma getOrThrow_spec o w r : fs_get o (store w) = Some r -> getOrThrow o w = (Ok r, w).
Proof. intros E. unfold getOrThrow. st_unfold. by rewrite E. Qed.

Lemma transition_spec now o to p note w r :
  fs_get o (store w) = Some r -> isTransitionAllowed (state r) to = true ->
  transition now o to p note w =
  (Ok (apply_transition now to p note r), mkTxWorld (fs_put (apply_transition now to p note r) (store w)) (asked w)).
Proof.
  intros E Ha. unfold transition. rewrite (bind_ok _ _ _ _ _ (getOrThrow_spec o w r E)), Ha. cbn [negb].
  by rewrite (bind_ok _ _ _ _ _ (save_spec _ w)).
Qed.

Lemma transition_refused now o to p note w r :
  fs_get o (store w) = Some r -> isTransitionAllowed (state r) to = false ->
  exists e, transition now o to p note w = (Throw e, w).
Proof.
  intros E Ha. unfold transition. rewrite (bind_ok _ _ _ _ _ (getOrThrow_spec o w r E)), Ha. cbn [negb]. by eexists.
Qed.

(** [w'] differs from [w] in the record of [o] only, which is now [r']. *)
Definition only_changes (o : string) (r' : TxStateRecord) (w w' : TxWorld) : Prop :=
  orderId r' = o /\ forall k, fs_get k (store w') = if decide (k = o) then Some r' else fs_get k (store w).

Lemma only_changes_refl o r w : orderId r = o -> fs_get o (store w) = Some r -> only_changes o r w w.
Proof. intros Ho E. split; [done|]. intros k. case_decide; [by subst|done]. Qed.

Lemma only_changes_trans o r1 r2 w1 w2 w3 :
  only_changes o r1 w1 w2 -> only_changes o r2 w2 w3 -> only_changes o r2 w1 w3.
Proof. intros [_ H1] [? H2]. split; [done|]. intros k. rewrite H2, H1. by case_decide. Qed.

Lemma only_changes_put r w a : only_changes (orderId r) r w (mkTxWorld (fs_put r (store w)) a).
Proof. split; [done|]. intros k. cbn. by rewrite fs_get_put. Qed.

(** Terminal states have no way out. *)
Lemma terminal_final s to : isTerminalState s = true -> isTransitionAllowed s to = false.
Proof. by destruct s, to. Qed.

Lemma failure_allowed s : isTerminalState s = false -> isTransitionAllowed s terminal_failure = true.
Proof. by destruct s. Qed.

Notation settled r := (isTerminalState (state r) = true).

(** [r'] is settled, or not behind [r]; what is settled stays so. *)
Definition later (r r' : TxStateRecord) : Prop :=
  (settled r' \/ recoveryAttempts r <= recoveryAttempts r') /\ (settled r -> settled r').

#[local] Instance later_preorder : PreOrder later.
Proof.
  split; [intros r; split; [right; lia|done]|]. intros r1 r2 r3 [[H1|H1] H1'] [[H2|H2] H2']; split; auto. right. lia.
Qed.

(** [m] changes the record of [o] at most, related by [P]. *)
Definition moves {A} (o : string) (P : TxStateRecord -> TxStateRecord -> Prop) (m : TM A) : Prop :=
  forall w r, orderId r = o -> fs_get o (store w) = Some r ->
    exists r', only_changes o r' w (m w).2 /\ P r r'.

Lemma only_changes_get o r w w' : only_changes o r w w' -> fs_get o (store w') = Some r.
Proof. intros [_ H]. by rewrite H, decide_True. Qed.

Section Moves.
Context (o : string).

Lemma moves_still {A} (m : TM A) : (forall w, store (m w).2 = store w) -> moves o later m.
Proof.
  intros Hm w r Ho E. exists r. split; [|reflexivity]. split; [done|]. intros k. rewrite Hm. case_decide; [by subst|done].
Qed.

Lemma moves_ret {A} (a : A) : moves o later (mret a : TM A).
Proof. by apply moves_still. Qed.

Lemma moves_throw {A} e : moves o later (throw e : TM A).
Proof. by apply moves_still. Qed.

Lemma moves_get o' : moves o later (getOrThrow o').
Proof. apply moves_still. intros w. unfold getOrThrow. st_unfold. by destruct (fs_get o' (store w)). Qed.

Lemma moves_ask p h : moves o later (ask p h).
Proof. apply moves_still. intros w. unfold ask. by destruct (p (asked w) h). Qed.

Lemma moves_bind {A B} (m : TM A) (k : A -> TM B) P :
  moves o P m -> (forall a, moves o later (k a)) -> (forall r1 r2 r3, P r1 r2 -> later r2 r3 -> P r1 r3) ->
  moves o P (m ≫= k).
Proof.
  intros Hm Hk Hp w r Ho E. destruct (Hm w r Ho E) as (r1 & Hc & H1). unfold mbind, st_bind.
  destruct (m w) as [[a|e] w1]; cbn in Hc |- *; [|by exists r1].
  destruct (Hk a w1 r1 ltac:(apply Hc) (only_changes_get _ _ _ _ Hc)) as (r2 & Hc2 & H2).
  exists r2. split; [by eapply only_changes_trans|eauto].
Qed.

Lemma moves_later {A B} (m : TM A) (k : A -> TM B) :
  moves o later m -> (forall a, moves o later (k a)) -> moves o later (m ≫= k).
Proof. intros Hm Hk. apply moves_bind; [done..|]. intros r1 r2 r3 H1 H2. by etrans. Qed.

Lemma moves_transition now to p note : moves o later (transition now o to p note).
Proof.
  intros w r Ho E. destruct (isTransitionAllowed (state r) to) eqn:Ha.
  - rewrite (transition_spec _ _ _ _ _ _ _ E Ha). exists (apply_transition now to p note r). subst o. cbn [snd].
    split; [apply (only_changes_put (apply_transition now to p note r))|]. split; [right; cbn; lia|].
    intros Ht. by rewrite terminal_final in Ha.
  - destruct (transition_refused now o to p note w r E Ha) as [e ->]. exists r. cbn [snd].
    split; [by apply only_changes_refl|reflexivity].
Qed.

Lemma moves_fail now reason : moves o (fun _ r' => settled r') (fail_with now o reason).
Proof.
  apply moves_bind; [|intros; apply moves_ret|by intros r1 r2 r3 ? [_ ?]; auto].
  intros w r Ho E. unfold markFailed. destruct (isTerminalState (state r)) eqn:Ht.
  - destruct (transition_refused now o terminal_failure (mkTxPatch None None None None None (Some reason)) (Some reason) w r E
      (terminal_final _ _ Ht)) as [e ->]. exists r. split; [by apply only_changes_refl|done].
  - rewrite (transition_spec _ _ _ _ _ _ _ E (failure_allowed _ Ht)). eexists. subst o.
    split; [apply (only_changes_put (apply_transition now terminal_failure _ _ r))|done].
Qed.

Lemma moves_weaken {A} (m : TM A) (P Q : TxStateRecord -> TxStateRecord -> Prop) :
  (forall r r', P r r' -> Q r r') -> moves o P m -> moves o Q m.
Proof. intros HPQ Hm w r Ho E. destruct (Hm w r Ho E) as (r' & Hc & Hp). eauto. Qed.

Lemma moves_fail_later now reason : moves o later (fail_with now o reason).
Proof. eapply moves_weaken; [|apply moves_fail]. intros r r' ?. split; auto. Qed.

Lemma moves_receipt now rc : moves o later (recordReceipt now o rc).
Proof.
  apply moves_later; [apply moves_get|]. intros r. destruct (negb _); [destruct (_ && _); [apply moves_ret|apply moves_throw]|].
  apply moves_later; [apply moves_transition|]. intros. apply moves_ret.
Qed.

(** One record's turn: settled, or one attempt closer to it. *)
Definition closer (r r' : TxStateRecord) : Prop :=
  (settled r' \/ recoveryAttempts r + 1 <= recoveryAttempts r') /\ (settled r -> settled r').

Lemma closer_later r1 r2 r3 : closer r1 r2 -> later r2 r3 -> closer r1 r3.
Proof. intros [[H1|H1] H1'] [[H2|H2] H2']; split; auto. right. lia. Qed.

Lemma reconcileRecord_closer cfg provider now w r :
  orderId r = o -> fs_get o (store w) = Some r ->
  exists r', only_changes o r' w (reconcileRecord cfg provider now r w).2 /\ closer r r'.
Proof.
  intros Ho E. unfold reconcileRecord. destruct (Z.leb_spec (maxRecovery cfg) (recoveryAttempts r)).
  { rewrite Ho. destruct (moves_fail now ("max recovery attempts (" +:+ pretty (maxRecovery cfg) +:+ ") exceeded") w r Ho E)
      as (r' & Hc & Ht). exists r'. split; [done|]. split; [by left|done]. }
  rewrite (bind_ok _ _ _ _ _ (save_spec (bump_recovery r) w)).
  set (b := bump_recovery r) in *. set (w1 := mkTxWorld (fs_put b (store w)) (asked w)).
  assert (only_changes o b w w1) as Hb by (subst o; apply (only_changes_put b w (asked w))).
  assert (orderId b = o) as Hob by done.
  match goal with |- context [(?m w1).2] => assert (moves o later m) as Hm end.
  { rewrite Hob. destruct (state b); try apply moves_ret.
    - destruct (_ <? _); [apply moves_fail_later|apply moves_ret].
    - unfold reconcile_acked. destruct (txHash b) as [h|]; [|apply moves_ret]. destruct provider as [p|]; [|apply moves_ret].
      destruct (negb _); [apply moves_ret|]. apply moves_later; [apply moves_ask|]. intros [rc|]; [|apply moves_ret]. rewrite Hob.
      destruct (_ =? _); [apply moves_fail_later|]. apply moves_later; [apply moves_receipt|]. intros. apply moves_ret.
    - apply moves_later; [apply moves_transition|]. intros. apply moves_ret. }
  destruct (Hm w1 b Hob (only_changes_get _ _ _ _ Hb)) as (r' & Hc & Hl).
  exists r'. split; [by eapply only_changes_trans|]. eapply closer_later; [|exact Hl]. split; [right; cbn; lia|done].
Qed.
End Moves.

(** A whole pass: every record stays, none appears, and each one is settled or
    one attempt closer to it. *)
Lemma reconcile_each_effect cfg provider now ids sum w :
  all_shaped cfg w ->
  let w' := (reconcile_each cfg provider now ids sum w).2 in
  forall k,
    match fs_get k (store w) with
    | Some r => exists r', fs_get k (store w') = Some r' /\ later r r' /\ (k ∈ ids -> closer r r')
    | None => fs_get k (store w') = None
    end.
Proof.
  revert sum w. induction ids as [|o ids IH]; intros sum w Hw w' k.
  { unfold w'. cbn. destruct (fs_get k (store w)) as [r|]; [|done]. exists r. split_and!; [done|reflexivity|by intros ?%elem_of_nil]. }
  unfold w'. cbn [reconcile_each].
  set (turn := try_catch (r ← getOrThrow o; reconcileRecord cfg provider now r) (fun _ => mret skipped)).
  assert (exists res w1, turn w = (Ok res, w1) /\ all_shaped cfg w1 /\
    match fs_get o (store w) with
    | Some r => exists r', only_changes o r' w w1 /\ closer r r'
    | None => w1 = w
    end) as (res & w1 & E1 & Hw1 & Heff).
  { destruct Hw as [Hm Hd]. unfold turn, try_catch. destruct (fs_get o (store w)) as [r|] eqn:Eo.
    - destruct (Hm _ _ Eo) as [Hk Hr]. rewrite (bind_ok _ _ _ _ _ (getOrThrow_spec o w r Eo)).
      destruct (reconcileRecord_closer o cfg provider now w r Hk Eo) as (r' & Hc & Hcl).
      destruct (ensures_reconcileRecord cfg provider now r Hr w (conj Hm Hd)) as [Hw1 _].
      destruct (reconcileRecord cfg provider now r w) as [[a|e] w1]; cbn in *; eexists _, _; (split; [done|split; [done|by exists r']]).
    - assert (exists e, getOrThrow o w = (Throw e, w)) as [e Ee] by (unfold getOrThrow; st_unfold; rewrite Eo; eauto).
      rewrite (bind_throw _ _ _ _ _ Ee). by exists skipped, w. }
  rewrite (bind_ok _ _ _ _ _ E1). specialize (IH (count_result sum res) w1 Hw1 k). cbn beta zeta in IH.
  destruct (fs_get o (store w)) as [r0|] eqn:Eo.
  - destruct Heff as (r0' & [_ Hch] & Hcl). rewrite Hch in IH. destruct (decide (k = o)) as [->|Hne].
    + rewrite Eo. destruct IH as (r' & Hg & Hl & _). exists r'. split; [done|].
      pose proof (closer_later _ _ _ Hcl Hl) as Hcl'. split; [|by intros _].
      destruct Hcl' as [[?|?] ?]; split; auto. right. lia.
    + destruct (fs_get k (store w)) as [r|]; [|exact IH]. destruct IH as (r' & Hg & Hl & Hc). exists r'.
      split_and!; [done|done|]. intros [?|?]%elem_of_cons; [done|auto].
  - subst w1. destruct (fs_get k (store w)) as [r|] eqn:Ek; [|exact IH]. destruct IH as (r' & Hg & Hl & Hc). exists r'.
    split_and!; [done|done|]. intros [->|?]%elem_of_cons; [congruence|auto].
Qed.

Lemma open_ids_spec cfg k r w :
  all_shaped cfg w -> fs_get k (store w) = Some r -> isTerminalState (state r) = false -> k ∈ open_ids (store w).
Proof.
  intros [Hm _] Hr Ht. destruct (Hm _ _ Hr) as [Hk _]. unfold open_ids. rewrite <- Hk. apply list_elem_of_fmap.
  exists r. split; [done|]. apply list_elem_of_In, filter_In. split.
  - apply list_elem_of_In, list_elem_of_fmap. exists (k, r). split; [done|by apply jm_get_elem].
  - apply bool_decide_true. unfold NON_TERMINAL_STATES. by destruct (state r); set_solver.
Qed.

Lemma reconcile_closer cfg provider now w k r :
  all_shaped cfg w -> fs_get k (store w) = Some r ->
  exists r', fs_get k (store (reconcile cfg provider now w).2) = Some r' /\ closer r r'.
Proof.
  intros Hw Hr. unfold reconcile, mbind, st_bind, gets.
  pose proof (reconcile_each_effect cfg provider now (open_ids (store w))
    (mkReconcileSummary (Z.of_nat (length (open_ids (store w)))) 0 0 0) w Hw k) as H. cbn zeta in H.
  rewrite Hr in H. destruct H as (r' & Hg & Hl & Hc). exists r'. split; [exact Hg|].
  destruct (isTerminalState (state r)) eqn:Ht; [|apply Hc; by eapply open_ids_spec].
  destruct Hl as [_ Hl]. split; [left; auto|auto].
Qed.

Lemma reconcile_no_new cfg provider now w k :
  all_shaped cfg w -> fs_get k (store w) = None -> fs_get k (store (reconcile cfg provider now w).2) = None.
Proof.
  intros Hw Hr. unfold reconcile, mbind, st_bind, gets.
  pose proof (reconcile_each_effect cfg provider now (open_ids (store w))
    (mkReconcileSummary (Z.of_nat (length (open_ids (store w)))) 0 0 0) w Hw k) as H. cbn zeta in H. by rewrite Hr in H.
Qed.

(** Reconciliations one after the other, each with its time and provider. *)
Definition passes (cfg : TxConfig) (rounds : list (Z * option (list string -> string -> outcome string (option TxReceipt))))
    (w : TxWorld) : TxWorld :=
  tx_run cfg ((fun x => TReconcile x.1 x.2) <$> rounds) w.

Lemma passes_closer cfg rounds w k r' :
  all_shaped cfg w -> fs_get k (store (passes cfg rounds w)) = Some r' ->
  settled r' \/ Z.of_nat (length rounds) <= recoveryAttempts r'.
Proof.
  unfold passes. revert w.
  assert (forall w r, all_shaped cfg w -> fs_get k (store w) = Some r ->
    exists r', fs_get k (store (passes cfg rounds w)) = Some r' /\
      (settled r' \/ recoveryAttempts r + Z.of_nat (length rounds) <= recoveryAttempts r') /\ (settled r -> settled r')) as Hex.
  { unfold passes. induction rounds as [|[now p] rounds IH]; intros w r Hw Hr.
    - exists r. cbn. split_and!; [done|right; lia|done].
    - destruct (reconcile_closer cfg p now w k r Hw Hr) as (r1 & H1 & [Hc1 Hc2]).
      destruct (IH (reconcile cfg p now w).2 r1 ltac:(by apply ensures_reconcile) H1) as (r2 & H2 & Hd1 & Hd2).
      exists r2. split; [exact H2|]. split; [|auto]. destruct Hc1 as [?|?]; [left; auto|].
      destruct Hd1 as [?|?]; [by left|right]. cbn [length]. lia. }
  assert (forall w, all_shaped cfg w -> fs_get k (store w) = None -> fs_get k (store (passes cfg rounds w)) = None) as Hno.
  { clear Hex. unfold passes. induction rounds as [|[now p] rounds IH]; intros w Hw Hr; [done|].
    apply IH; [by apply ensures_reconcile|by apply reconcile_no_new]. }
  intros w Hw Hr'. destruct (fs_get k (store w)) as [r|] eqn:Hr.
  - destruct (Hex w r Hw Hr) as (r2 & H2 & Hd & _). unfold passes in H2. rewrite H2 in Hr'. simplify_eq.
    destruct Hd as [?|?]; [by left|right]. destruct Hw as [Hm _]. destruct (Hm _ _ Hr) as [_ (_ & _ & ?)]. lia.
  - specialize (Hno w Hw Hr). unfold passes in Hno. congruence.
Qed.

(** C33.  The type of the transaction-state store: after any sequence of
    operations, reconciliations, disk failures and restarts (which read every
    file), every record in
    memory and on disk is well formed.  Its history is a path of allowed
    transitions from [pending_submission] to its state that skips none of
    submitted, mined, recorded on the way to complete; a field is set exactly when that history has been in the state that sets it (the hash when
    submitted; block, time and confirmations when mined; the coordinator's
    reference when recorded), and the reason exactly when the record has failed;
    and its recovery count is within the limit.  And
    reconciliation terminates every record: after [maxRecovery + 1]
    reconciliations with nothing else happening, whatever the providers
    answer, each record is complete or failed. *)
Theorem tx_records_well_formed (cfg : TxConfig) (ops : list TxOp)
    (rounds : list (Z * option (list string -> string -> outcome string (option TxReceipt)))) :
  Forall tx_op_ok ops ->
  let w := tx_run cfg ops empty_tx in
  all_shaped cfg w /\
  (Z.max 0 (maxRecovery cfg) < Z.of_nat (length rounds) ->
   forall k r, fs_get k (store (passes cfg rounds w)) = Some r -> isTerminalState (state r) = true).
Proof.
  intros Hops w. assert (all_shaped cfg w) as Hw by (apply shaped_run; [done|apply shaped_empty]).
  split; [done|]. intros Hlen k r Hr. destruct (passes_closer cfg rounds w k r Hw Hr) as [?|Hn]; [done|].
  assert (all_shaped cfg (passes cfg rounds w)) as [Hm _].
  { unfold passes. apply shaped_run; [|done]. apply Forall_fmap, Forall_true. done. }
  destruct (Hm _ _ Hr) as [_ (_ & _ & ?)]. lia.
Qed.

(** A provider with a receipt for every hash. *)
Definition mined_provider : option (list string -> string -> outcome string (option TxReceipt)) :=
  Some (fun _ h => Ok (Some (mkTxReceipt h 1234 1 None))).

Definition demo_tx_ops : list TxOp :=
  [TCreate 1 "o1" "c1" "xlm_to_eth"; TAck 2 "o1" "0xaa"; TReboot map_to_list; TReconcile 3 mined_provider;
   TCoordinatorAck 4 "o1" "ref"; TReconcile 5 None].

Lemma tx_records_well_formed_witness :
  (state <$> fs_get "o1" (store (tx_run default_tx_config demo_tx_ops empty_tx))) = Some complete /\
  all_shaped default_tx_config (tx_run default_tx_config demo_tx_ops empty_tx) /\
  forall k r, fs_get k (store (passes default_tx_config (replicate 6 (10, None)) (tx_run default_tx_config demo_tx_ops empty_tx))) = Some r ->
    isTerminalState (state r) = true.
Proof.
  split; [vm_compute; reflexivity|].
  assert (Forall tx_op_ok demo_tx_ops) as Hok.
  { repeat apply List.Forall_cons; try apply List.Forall_nil; try exact I. intros d. reflexivity. }
  split; [apply (tx_records_well_formed default_tx_config demo_tx_ops [] Hok)|].
  apply (tx_records_well_formed default_tx_config demo_tx_ops (replicate 6 (10, None)) Hok). vm_compute. reflexivity.
Defined.

(** A record that waited in [chain_mined] for five reconciliations and was
    then acknowledged by the coordinator is failed by the next one: the
    attempt limit is tested before the state. *)
Example acknowledged_settlement_failed :
  (fun r => (state r, failureReason r, coordinatorRef r)) <$>
  fs_get "o1" (store (tx_run default_tx_config
    ([TCreate 1 "o1" "c1" "xlm_to_eth"; TAck 2 "o1" "0xaa"; TReceipt 3 "o1" (mkTxReceipt "0xaa" 9 1 None)] ++
     replicate 5 (TReconcile 4 None) ++ [TCoordinatorAck 5 "o1" "ref"; TReconcile 6 None]) empty_tx))
  = Some (terminal_failure, Some "max recovery attempts (5) exceeded", Some "ref").
Proof. vm_compute. reflexivity. Qed.
