(* ===== verification/Idempotency.v ===== *)
(** * Idempotent actions

    relayer/src/idempotency.ts: [IdempotencyManager] keeps one record per
    order and action (claim, refund, ...) so that a retry, a restart or a
    redelivered event does not submit the same transaction twice, and
    [IdempotencyGuard] turns its records into assertions.  The attempt ids,
    which the source draws from the clock and [Math.random], are arguments. *)

From S2P Require Import Prelude JsMap FileStore.

Inductive IdempotentActionType : Type :=
| claim | refund | create_escrow | reveal_preimage | register_resolver | increase_stake.

#[export] Instance IdempotentActionType_eq_dec : EqDecision IdempotentActionType.
Proof. solve_decision. Defined.

Definition action_name (a : IdempotentActionType) : string :=
  match a with
  | claim => "claim"
  | refund => "refund"
  | create_escrow => "create_escrow"
  | reveal_preimage => "reveal_preimage"
  | register_resolver => "register_resolver"
  | increase_stake => "increase_stake"
  end.

Inductive AttemptState : Type := pending | submitted_ | completed | failed | abandoned.

#[export] Instance AttemptState_eq_dec : EqDecision AttemptState.
Proof. solve_decision. Defined.

Definition attempt_state_name (s : AttemptState) : string :=
  match s with
  | pending => "pending"
  | submitted_ => "submitted"
  | completed => "completed"
  | failed => "failed"
  | abandoned => "abandoned"
  end.

Record IdempotentActionRecord : Type := mkActionRecord {
  key : string;
  orderId : string;
  actionType : IdempotentActionType;
  state : AttemptState;
  attemptId : string;
  txHash : option string;
  minedBlock : option Z;
  failureReason : option string;
  retryCount : Z;
  createdAt : Z;
  updatedAt : Z;
  correlationId : option string;
}.

(** [_filePath] cuts names at 100; the loader wants a non-empty key. *)
Definition action_filed : Filed IdempotentActionRecord :=
  mkFiled _ key (Some 100%nat) (fun r => truthy_string (key r)).
#[export] Existing Instance action_filed.

Inductive IdempotencyError : Type :=
  mkIdempotencyError (ie_orderId : string) (ie_action : IdempotentActionType) (ie_message ie_code : string).

Definition Actions : Type := Store IdempotentActionRecord.
Definition IM (A : Type) : Type := ST Actions IdempotencyError A.

Record ManagerCfg : Type := mkManagerCfg { maxRetryCount : Z; pendingTimeoutMs : Z }.
Definition default_manager : ManagerCfg := mkManagerCfg 10 (15 * 60 * 1000).

Definition makeKey (o : string) (a : IdempotentActionType) : string := o +:+ ":" +:+ action_name a.

Definition action_get (o : string) (a : IdempotentActionType) (s : Actions) : option IdempotentActionRecord :=
  fs_get (makeKey o a) s.
Definition hasAttempted (o : string) (a : IdempotentActionType) (s : Actions) : bool := jm_has (makeKey o a) (mem s).

Definition truthy_opt (x : option string) : bool := match x with Some s => truthy_string s | None => false end.

(** [existing.retryCount++; existing.updatedAt = Date.now()]. *)
Definition bump_retry (now : Z) (r : IdempotentActionRecord) : IdempotentActionRecord :=
  mkActionRecord (key r) (orderId r) (actionType r) (state r) (attemptId r) (txHash r) (minedBlock r) (failureReason r)
    (retryCount r + 1) (createdAt r) now (correlationId r).

Definition put (r : IdempotentActionRecord) : IM unit := modify (fs_put r).

Definition new_attempt (now : Z) (attempt : string) (o : string) (a : IdempotentActionType) (corr : option string)
    : IM IdempotentActionRecord :=
  let r := mkActionRecord (makeKey o a) o a pending attempt None None None 0 now now corr in
  _ ← put r; mret r.

Definition record (now : Z) (attempt : string) (o : string) (a : IdempotentActionType) (corr : option string)
    (forceNew : bool) : IM IdempotentActionRecord :=
  existing ← gets (action_get o a);
  match existing with
  | Some r =>
      if forceNew then new_attempt now attempt o a corr
      else if bool_decide (state r = submitted_) && truthy_opt (txHash r) then mret r
      else if bool_decide (state r = completed) || bool_decide (state r = failed) then
        throw (mkIdempotencyError o a ("Action already " +:+ attempt_state_name (state r)) "ALREADY_COMPLETED")
      else if bool_decide (state r = pending) then
        let r' := bump_retry now r in _ ← put r'; mret r'
      else new_attempt now attempt o a corr
  | None => new_attempt now attempt o a corr
  end.

Definition getOrThrow (o : string) (a : IdempotentActionType) : IM IdempotentActionRecord :=
  existing ← gets (action_get o a);
  match existing with
  | Some r => mret r
  | None => throw (mkIdempotencyError o a "No record found" "NOT_FOUND")
  end.

Definition patched {A} (p old : option A) : option A := match p with Some x => Some x | None => old end.

(** [_update]: the new state and the fields the patch has. *)
Definition update (now : Z) (st : AttemptState) (hash : option string) (block : option Z) (reason : option string)
    (r : IdempotentActionRecord) : IM IdempotentActionRecord :=
  let r' := mkActionRecord (key r) (orderId r) (actionType r) st (attemptId r) (patched hash (txHash r))
              (patched block (minedBlock r)) (patched reason (failureReason r)) (retryCount r) (createdAt r) now
              (correlationId r) in
  _ ← put r'; mret r'.

Definition submitted (now : Z) (o : string) (a : IdempotentActionType) (hash : string) : IM IdempotentActionRecord :=
  r ← getOrThrow o a; update now submitted_ (Some hash) None None r.

Definition complete (now : Z) (o : string) (a : IdempotentActionType) (hash : string) (block : option Z)
    : IM IdempotentActionRecord :=
  r ← getOrThrow o a; update now completed (Some hash) block None r.

Definition fail (now : Z) (o : string) (a : IdempotentActionType) (reason : string) (isTerminal : bool)
    : IM IdempotentActionRecord :=
  r ← getOrThrow o a; update now (if isTerminal then failed else abandoned) None None (Some reason) r.

(** A block number is truthy when it is there and not zero. *)
Definition mined (r : IdempotentActionRecord) : bool := match minedBlock r with Some n => negb (n =? 0) | None => false end.

Section Manager.
Context (cfg : ManagerCfg).

Definition canRetry (now : Z) (o : string) (a : IdempotentActionType) (s : Actions) : bool :=
  match action_get o a s with
  | None => true
  | Some r =>
      match state r with
      | pending | abandoned => retryCount r <? maxRetryCount cfg
      | submitted_ => if mined r then false else now - updatedAt r <? pendingTimeoutMs cfg
      | _ => false
      end
  end.

Record RecoveryContext : Type := mkRecoveryContext {
  originalAttemptId : string;
  rc_orderId : string;
  rc_actionType : IdempotentActionType;
  rc_state : AttemptState;
  rc_canRetry : bool;
  retryReason : string;
}.

(** [Math.round(ms / 1000)]. *)
Definition round_seconds (ms : Z) : Z := (ms + 500) / 1000.

Definition getRecoveryContext (now : Z) (o : string) (a : IdempotentActionType) (s : Actions) : RecoveryContext :=
  match action_get o a s with
  | None => mkRecoveryContext "" o a pending true "No previous attempt found, safe to start new attempt"
  | Some r =>
      let ctx := mkRecoveryContext (attemptId r) (orderId r) (actionType r) (state r) in
      let left := retryCount r <? maxRetryCount cfg in
      let max := pretty (maxRetryCount cfg) in
      match state r with
      | completed => ctx false "Action already completed successfully"
      | failed => ctx false ("Action failed permanently: " +:+ default "undefined" (failureReason r))
      | pending =>
          ctx left (if left then "Retry attempt " +:+ pretty (retryCount r + 1) +:+ "/" +:+ max
                    else "Max retries (" +:+ max +:+ ") exceeded")
      | submitted_ =>
          if mined r then ctx false "Transaction already mined"
          else
            let age := now - updatedAt r in
            if pendingTimeoutMs cfg <? age then ctx true "Submission pending too long, safe to retry"
            else ctx true ("Submission pending " +:+ pretty (round_seconds age) +:+ "s, safe to retry")
      | abandoned => ctx left ("Abandoned attempt, " +:+ pretty (retryCount r) +:+ "/" +:+ max +:+ " retries")
      end
  end.

(** ** Reconciliation after a restart *)

Record ReconcileResult : Type := mkReconcileResult { scanned : Z; recovered : Z; n_failed : Z; n_skipped : Z }.

Definition abandon (now : Z) (r : IdempotentActionRecord) : IdempotentActionRecord :=
  mkActionRecord (key r) (orderId r) (actionType r) abandoned (attemptId r) (txHash r) (minedBlock r) (failureReason r)
    (retryCount r) (createdAt r) now (correlationId r).

(** A pending record older than the timeout, or a submitted one without a
    block that was not updated for that long. *)
Definition stale (now : Z) (r : IdempotentActionRecord) : bool :=
  match state r with
  | pending => pendingTimeoutMs cfg <? now - createdAt r
  | submitted_ => negb (mined r) && (pendingTimeoutMs cfg <? now - updatedAt r)
  | _ => false
  end.

Definition reconcile_one (now : Z) (acc : ReconcileResult * Actions) (r : IdempotentActionRecord) : ReconcileResult * Actions :=
  let '(res, s) := acc in
  if bool_decide (state r = completed) then
    (mkReconcileResult (scanned res + 1) (recovered res) (n_failed res) (n_skipped res + 1), s)
  else if stale now r then
    (mkReconcileResult (scanned res + 1) (recovered res) (n_failed res + 1) (n_skipped res), fs_put (abandon now r) s)
  else (mkReconcileResult (scanned res + 1) (recovered res + 1) (n_failed res) (n_skipped res), s).

(** The loop over the records; it only rewrites the record at hand. *)
Definition reconcile (now : Z) (s : Actions) : ReconcileResult * Actions :=
  fold_left (reconcile_one now) (jm_values (mem s)) (mkReconcileResult 0 0 0 0, s).

(** ** Queries and clean-up *)

Definition byState (st : AttemptState) (s : Actions) : list IdempotentActionRecord :=
  List.filter (fun r => bool_decide (state r = st)) (jm_values (mem s)).
Definition byOrderId (o : string) (s : Actions) : list IdempotentActionRecord :=
  List.filter (fun r => String.eqb (orderId r) o) (jm_values (mem s)).
Definition stateCounts (s : Actions) (st : AttemptState) : Z := Z.of_nat (length (byState st s)).
Definition remove (o : string) (a : IdempotentActionType) (s : Actions) : Actions := fs_remove (makeKey o a) s.
Definition clear (s : Actions) : Actions := mkStore [] (if storage s then ∅ else files s) (storage s) (writable s).

(** ** [IdempotencyGuard] *)

Definition assertCanAttempt (o : string) (a : IdempotentActionType) : IM unit :=
  existing ← gets (action_get o a);
  match existing with
  | Some r =>
      match state r with
      | completed => throw (mkIdempotencyError o a "Action already completed" "ALREADY_COMPLETED")
      | failed => throw (mkIdempotencyError o a ("Action permanently failed: " +:+ default "undefined" (failureReason r)) "PERMANENTLY_FAILED")
      | _ => mret tt
      end
  | None => mret tt
  end.

Definition assertCanRetry (now : Z) (o : string) (a : IdempotentActionType) : IM unit :=
  ok ← gets (canRetry now o a);
  if ok : bool then mret tt
  else
    ctx ← gets (getRecoveryContext now o a);
    throw (mkIdempotencyError o a ("Cannot retry: " +:+ retryReason ctx) "CANNOT_RETRY").

Definition assertCompleted (o : string) (a : IdempotentActionType) : IM unit :=
  existing ← gets (action_get o a);
  match existing with
  | Some r => if bool_decide (state r = completed) then mret tt else throw (mkIdempotencyError o a "Action not completed" "NOT_COMPLETED")
  | None => throw (mkIdempotencyError o a "Action not completed" "NOT_COMPLETED")
  end.

Definition assertSubmitted (o : string) (a : IdempotentActionType) : IM unit :=
  existing ← gets (action_get o a);
  match existing with
  | Some r =>
      if bool_decide (state r = submitted_) && truthy_opt (txHash r) then mret tt
      else throw (mkIdempotencyError o a "Action not submitted" "NOT_SUBMITTED")
  | None => throw (mkIdempotencyError o a "Action not submitted" "NOT_SUBMITTED")
  end.

(** [canAttempt] of the settlement service. *)
Definition canAttempt (o : string) (a : IdempotentActionType) (s : Actions) : bool :=
  match action_get o a s with
  | None => true
  | Some r => negb (bool_decide (state r = completed)) && negb (bool_decide (state r = failed))
  end.
End Manager.

(** The service and the guard ask the same question. *)
Lemma canAttempt_guard o a s : canAttempt o a s = true <-> assertCanAttempt o a s = (Ok tt, s).
Proof.
  unfold canAttempt, assertCanAttempt. change ((gets ?f ≫= ?k) s) with (k (f s) s). cbv beta.
  destruct (action_get o a s) as [r|]; [|by split]. destruct (state r); split; intros H; try done; discriminate H.
Qed.

(** ** File names of actions

    The colon of a key becomes an underscore in its file name; no action name
    ends in another one after an underscore, so the file still determines the
    action and the order. *)

Lemma all_safe_app a b : all_safe (a +:+ b) = all_safe a && all_safe b.
Proof.
  induction a as [|c a IH]; [done|]. change (safe_char c && all_safe (a +:+ b) = all_safe (String c a) && all_safe b).
  cbn. by rewrite IH, andb_assoc.
Qed.

Lemma replace_unsafe_app a b : replace_unsafe (a +:+ b) = replace_unsafe a +:+ replace_unsafe b.
Proof.
  induction a as [|c a IH]; [done|].
  change (String (if safe_char c then c else Ascii.ascii_of_nat 95) (replace_unsafe (a +:+ b)) =
          String (if safe_char c then c else Ascii.ascii_of_nat 95) (replace_unsafe a +:+ replace_unsafe b)). by rewrite IH.
Qed.

Lemma app_suffix a b s1 s2 :
  a +:+ s1 = b +:+ s2 -> (String.length s1 <= String.length s2)%nat -> endsWith s2 s1 = true.
Proof.
  revert a. induction b as [|c b IH]; intros a E Hl.
  - change (a +:+ s1 = s2) in E. rewrite <- E. apply endsWith_app.
  - destruct a as [|c' a].
    + change (s1 = String c (b +:+ s2)) in E. subst s1. cbn in Hl. rewrite length_string_app in Hl. lia.
    + injection E as _ E. by apply (IH a).
Qed.

Definition action_key_ok (k : string) : Prop :=
  exists o a, k = makeKey o a /\ all_safe o = true /\ (String.length k <= 100)%nat.

Lemma action_file_name o a :
  all_safe o = true -> (String.length (makeKey o a) <= 100)%nat ->
  json_name (Some 100%nat) (makeKey o a) = (o +:+ ("_" +:+ action_name a)) +:+ ".json".
Proof.
  intros Ho Hl. unfold json_name, safe_name. f_equal.
  assert (replace_unsafe (makeKey o a) = o +:+ "_" +:+ action_name a) as E.
  { unfold makeKey. rewrite !replace_unsafe_app, replace_safe by done. f_equal. by destruct a. }
  rewrite E. apply substring_all. etrans; [|exact Hl]. unfold makeKey. by rewrite !length_string_app.
Qed.

Lemma action_key_inj k k' :
  action_key_ok k -> action_key_ok k' -> json_name (Some 100%nat) k = json_name (Some 100%nat) k' -> k = k'.
Proof.
  intros (o & a & -> & Ho & Hl) (o' & a' & -> & Ho' & Hl'). rewrite !action_file_name by done.
  intros E%string_app_inj_r. assert (a = a') as ->; [|by apply string_app_inj_r in E as ->].
  destruct (Nat.le_ge_cases (String.length ("_" +:+ action_name a)) (String.length ("_" +:+ action_name a'))) as [Hle|Hle].
  - pose proof (app_suffix _ _ _ _ E Hle) as Hs. destruct a, a'; try done; vm_compute in Hs; discriminate.
  - pose proof (app_suffix _ _ _ _ (eq_sym E) Hle) as Hs. destruct a, a'; try done; vm_compute in Hs; discriminate.
Qed.

#[export] Instance action_keys : FileKeys IdempotentActionRecord := mkFileKeys _ _ action_key_ok action_key_inj.

(** ** Runs *)

Inductive ActionOp : Type :=
| ARecord (now : Z) (attempt o : string) (a : IdempotentActionType) (corr : option string) (forceNew : bool)
| ASubmitted (now : Z) (o : string) (a : IdempotentActionType) (hash : string)
| AComplete (now : Z) (o : string) (a : IdempotentActionType) (hash : string) (block : option Z)
| AFail (now : Z) (o : string) (a : IdempotentActionType) (reason : string) (isTerminal : bool)
| AReconcile (now : Z)
| ARemove (o : string) (a : IdempotentActionType)
| AReboot (readdir : gmap string (option IdempotentActionRecord) -> list (string * option IdempotentActionRecord)).

Definition action_op (cfg : ManagerCfg) (s : Actions) (op : ActionOp) : Actions :=
  match op with
  | ARecord now att o a corr force => (record now att o a corr force s).2
  | ASubmitted now o a hash => (submitted now o a hash s).2
  | AComplete now o a hash block => (complete now o a hash block s).2
  | AFail now o a reason t => (fail now o a reason t s).2
  | AReconcile now => (reconcile cfg now s).2
  | ARemove o a => remove o a s
  | AReboot readdir => reboot readdir s
  end.

Definition action_run (cfg : ManagerCfg) (ops : list ActionOp) (s : Actions) : Actions := fold_left (action_op cfg) ops s.

Definition action_op_ok (op : ActionOp) : Prop :=
  match op with
  | ARecord _ _ o a _ _ | ASubmitted _ o a _ | AComplete _ o a _ _ | AFail _ o a _ _ | ARemove o a =>
      action_key_ok (makeKey o a)
  | AReconcile _ => True
  | AReboot readdir => lists_all readdir
  end.

(** The operation left the store alone or rewrote the record of [k]. *)
Definition changes_only (k : string) (s s' : Actions) : Prop :=
  s' = s \/ exists r, key r = k /\ s' = fs_put r s.

Lemma changes_only_get k k' s s' : changes_only k s s' -> k' <> k -> fs_get k' s' = fs_get k' s.
Proof. intros [->|(r & Hk & ->)] Hne; [done|]. rewrite fs_get_put. cbn. by rewrite decide_False by congruence. Qed.

Lemma changes_only_durable k s s' : action_key_ok k -> changes_only k s s' -> durable s -> durable s'.
Proof. intros Hk [->|(r & <- & ->)] Hd; [done|]. by apply durable_put. Qed.

Lemma record_changes now att o a corr force s :
  durable s -> changes_only (makeKey o a) s (record now att o a corr force s).2.
Proof.
  intros Hd. unfold record, new_attempt, put. st_unfold. destruct (action_get o a s) as [r|] eqn:E; cbn.
  - pose proof (durable_key s _ r Hd E) as Hk. cbn in Hk.
    repeat (match goal with |- context [if ?b then _ else _] => destruct b end; cbn); try (by left);
      right; eexists; (split; [|reflexivity]); (exact Hk || reflexivity).
  - right. eexists. split; [|reflexivity]. reflexivity.
Qed.

Lemma update_changes now o a st hash block reason s :
  durable s -> changes_only (makeKey o a) s ((r ← getOrThrow o a; update now st hash block reason r) s).2.
Proof.
  intros Hd. unfold getOrThrow, update, put. st_unfold. destruct (action_get o a s) as [r|] eqn:E; cbn; [|by left].
  right. eexists. split; [|reflexivity]. exact (durable_key s _ r Hd E).
Qed.

(** Reconciliation rewrites the stale records and nothing else. *)
Lemma reconcile_fold cfg now rs res s :
  durable s -> Forall (fun r => exists k, key r = k /\ action_key_ok k) rs ->
  let s' := (fold_left (reconcile_one cfg now) rs (res, s)).2 in
  durable s' /\
  forall k r, fs_get k s = Some r -> Forall (fun r' => key r' = k -> stale cfg now r' = false) rs -> fs_get k s' = Some r.
Proof.
  intros Hd Hrs. revert res s Hd. induction Hrs as [|r0 rs (k0 & Hk0 & Hok) _ IH]; intros res s Hd; [done|].
  cbn [fold_left].
  assert (exists res' s1, reconcile_one cfg now (res, s) r0 = (res', s1) /\
            (s1 = s \/ stale cfg now r0 = true /\ s1 = fs_put (abandon now r0) s)) as (res' & s1 & -> & Hs1).
  { unfold reconcile_one. destruct (bool_decide _); [eexists _, _; split; [reflexivity|by left]|].
    destruct (stale cfg now r0); eexists _, _; (split; [reflexivity|]); [by right|by left]. }
  assert (durable s1) as Hd1 by (destruct Hs1 as [->|[_ ->]]; [done|by apply durable_put; cbn; subst k0]).
  destruct (IH res' s1 Hd1) as [Hd' Hget]. split; [done|]. intros k r Hr Hst. apply Forall_cons in Hst as [Hst0 Hst].
  apply Hget; [|done]. destruct Hs1 as [->|[Hstale ->]]; [done|]. rewrite fs_get_put. cbn.
  rewrite decide_False; [done|]. intros ->. rewrite Hst0 in Hstale by done. discriminate.
Qed.

Lemma reconcile_effect cfg now s :
  durable s ->
  durable (reconcile cfg now s).2 /\
  forall k r, fs_get k s = Some r -> stale cfg now r = false -> fs_get k (reconcile cfg now s).2 = Some r.
Proof.
  intros Hd. assert (forall r, r ∈ jm_values (mem s) -> fs_get (key r) s = Some r) as Hval.
  { intros r [k Hr]%jm_values_get; [|apply Hd]. pose proof (durable_key s k r Hd Hr) as Hk. cbn in Hk. by subst k. }
  destruct (reconcile_fold cfg now (jm_values (mem s)) (mkReconcileResult 0 0 0 0) s Hd) as [Hd' Hget].
  { apply Forall_forall. intros r Hr%Hval. exists (key r). split; [done|]. destruct Hd as (_ & _ & Hk). by eapply Hk. }
  split; [exact Hd'|]. intros k r Hr Hst. apply Hget; [done|]. apply Forall_forall. intros r' Hr'%Hval Hk. congruence.
Qed.

Lemma durable_action_op cfg s op : action_op_ok op -> durable s -> durable (action_op cfg s op).
Proof.
  intros Ho Hd. destruct op; cbn in *;
    try (eapply changes_only_durable; [exact Ho|by apply record_changes || by apply update_changes|done]).
  - by apply reconcile_effect.
  - by apply (durable_remove (makeKey o a)).
  - by apply durable_reboot.
Qed.

Lemma durable_action_run cfg ops s : Forall action_op_ok ops -> durable s -> durable (action_run cfg ops s).
Proof. intros Hops. revert s. induction Hops as [|op ops Ho _ IH]; intros s Hd; [done|]. by apply IH, durable_action_op. Qed.

(** ** Settled actions *)

(** Completed, failed for good, or submitted with a hash. *)
Definition settled (r : IdempotentActionRecord) : bool :=
  match state r with
  | completed | failed => true
  | submitted_ => truthy_opt (txHash r)
  | _ => false
  end.

Lemma record_settled now att o a corr r s :
  action_get o a s = Some r -> settled r = true ->
  record now att o a corr false s =
  (if bool_decide (state r = submitted_) then Ok r
   else Throw (mkIdempotencyError o a ("Action already " +:+ attempt_state_name (state r)) "ALREADY_COMPLETED"), s).
Proof.
  intros E Hs. unfold record. st_unfold. rewrite E. cbn. unfold settled in Hs. by destruct (state r); cbn; rewrite ?Hs.
Qed.

(** Operations that are told to change this action: a transition, a removal or
    a forced new attempt. *)
Definition overrides (o : string) (a : IdempotentActionType) (op : ActionOp) : bool :=
  match op with
  | ARecord _ _ o' a' _ force => force && bool_decide (makeKey o' a' = makeKey o a)
  | ASubmitted _ o' a' _ | AComplete _ o' a' _ _ | AFail _ o' a' _ _ | ARemove o' a' =>
      bool_decide (makeKey o' a' = makeKey o a)
  | AReconcile _ | AReboot _ => false
  end.

(** A reconciliation that does not find the record stale. *)
Definition in_time (cfg : ManagerCfg) (r : IdempotentActionRecord) (op : ActionOp) : Prop :=
  match op with AReconcile now => stale cfg now r = false | _ => True end.

Lemma settled_op cfg o a r s op :
  action_op_ok op -> durable s -> action_get o a s = Some r -> settled r = true ->
  overrides o a op = false -> in_time cfg r op -> action_get o a (action_op cfg s op) = Some r.
Proof.
  intros Ho Hd Hr Hs Hov Ht. unfold action_get in *. destruct op; cbn [action_op overrides in_time action_op_ok] in Hov, Ht, Ho |- *.
  - destruct (decide (makeKey o a = makeKey o0 a0)) as [E|Hne].
    + rewrite bool_decide_true, andb_true_r in Hov by done. subst forceNew.
      rewrite (record_settled now attempt o0 a0 corr r s); [done| |done]. unfold action_get. by rewrite <- E.
    + rewrite (changes_only_get (makeKey o0 a0) _ s); [done|by apply record_changes|done].
  - apply bool_decide_eq_false in Hov. rewrite (changes_only_get (makeKey o0 a0) _ s); [done|by apply update_changes|congruence].
  - apply bool_decide_eq_false in Hov. rewrite (changes_only_get (makeKey o0 a0) _ s); [done|by apply update_changes|congruence].
  - apply bool_decide_eq_false in Hov. rewrite (changes_only_get (makeKey o0 a0) _ s); [done|by apply update_changes|congruence].
  - by apply reconcile_effect.
  - apply bool_decide_eq_false in Hov. unfold remove. by rewrite fs_get_remove, decide_False by congruence.
  - rewrite durable_get_reboot by done. rewrite Hr. pose proof (durable_key s _ r Hd Hr) as Hk. cbn in Hk.
    change (loadable r) with (truthy_string (key r)). rewrite Hk.
    assert (truthy_string (makeKey o a) = true) as ->; [by destruct o|done].
Qed.

(** Actions are not repeated.  Once an action is completed, failed for
    good or submitted with a hash, it keeps exactly that record - through any
    number of [record] calls, operations on other actions, restarts with the
    directory read in any order, and reconciliations that do not find it
    stale - until an operation is told to change it; and every [record] call
    meanwhile changes nothing: it returns the submitted attempt, hash included,
    or refuses a finished action with ALREADY_COMPLETED.  Hypotheses: the disk
    accepts writes, order ids consist of file-name characters, and a key fits
    the 100 characters of a file name. *)
Lemma actions_not_repeated (cfg : ManagerCfg) (pre mid : list ActionOp) (o : string) (a : IdempotentActionType)
    (r : IdempotentActionRecord) (now : Z) (att : string) (corr : option string) :
  Forall action_op_ok pre -> Forall action_op_ok mid ->
  action_get o a (action_run cfg pre fresh_store) = Some r -> settled r = true ->
  Forall (fun op => overrides o a op = false /\ in_time cfg r op) mid ->
  let s := action_run cfg (pre ++ mid) fresh_store in
  action_get o a s = Some r /\
  record now att o a corr false s =
    (if bool_decide (state r = submitted_) then Ok r
     else Throw (mkIdempotencyError o a ("Action already " +:+ attempt_state_name (state r)) "ALREADY_COMPLETED"), s).
Proof.
  intros Hpre Hmid Hr Hs Hq s.
  assert (action_get o a s = Some r) as Hget; [|split; [done|by apply record_settled]].
  unfold s, action_run. rewrite fold_left_app.
  assert (durable (action_run cfg pre fresh_store)) as Hd by (apply durable_action_run; [done|apply durable_fresh]).
  revert Hr Hd. unfold action_run. generalize (fold_left (action_op cfg) pre fresh_store).
  induction mid as [|op mid IH]; intros s0 Hr Hd; [done|].
  apply Forall_cons in Hmid as [Ho Hmid]. apply Forall_cons in Hq as [[Hov Ht] Hq]. cbn.
  apply IH; [done|done|by apply settled_op|by apply durable_action_op].
Qed.

Definition demo_actions : list ActionOp :=
  [ARecord 1 "att-1" "order-1" claim None false; ASubmitted 2 "order-1" claim "0xaa"].

Definition demo_record : IdempotentActionRecord :=
  mkActionRecord "order-1:claim" "order-1" claim submitted_ "att-1" (Some "0xaa") None None 0 1 2 None.

Lemma action_key_ok_demo o a : all_safe o = true -> (String.length (makeKey o a) <= 100)%nat -> action_key_ok (makeKey o a).
Proof. intros. by exists o, a. Qed.

Lemma actions_not_repeated_witness :
  let mid := [AReboot map_to_list; AReconcile 1000; ARecord 3 "att-2" "order-1" claim None false;
              ARecord 4 "att-3" "order-2" refund None false] in
  record 5 "att-4" "order-1" claim None false (action_run default_manager (demo_actions ++ mid) fresh_store) =
  (Ok demo_record, action_run default_manager (demo_actions ++ mid) fresh_store).
Proof.
  intros mid.
  apply (actions_not_repeated default_manager demo_actions mid "order-1" claim demo_record 5 "att-4" None).
  - repeat apply List.Forall_cons; try apply List.Forall_nil; apply action_key_ok_demo; vm_compute; lia || reflexivity.
  - unfold mid. repeat apply List.Forall_cons; try apply List.Forall_nil; try exact I;
      try (apply action_key_ok_demo; vm_compute; lia || reflexivity). intros d. reflexivity.
  - vm_compute. reflexivity.
  - reflexivity.
  - unfold mid. repeat apply List.Forall_cons; try apply List.Forall_nil; split; try exact I; vm_compute; reflexivity.
Defined.

(** An abandoned attempt starts over with a fresh retry count, so the limit of
    [canRetry] never binds a caller that abandons: here the eleventh attempt. *)
Example abandoned_attempts_unlimited :
  let round := [ARecord 1 "att" "order-1" claim None false; AFail 2 "order-1" claim "rpc down" false] in
  canRetry default_manager 3 "order-1" claim
    (action_run default_manager (concat (replicate 11 round)) fresh_store) = true.
Proof. vm_compute. reflexivity. Qed.

(** A submission past the timeout: [canRetry] refuses, the recovery context
    calls it safe. *)
Example retry_answers_differ :
  let s := action_run default_manager demo_actions fresh_store in
  canRetry default_manager 1000000 "order-1" claim s = false /\
  rc_canRetry (getRecoveryContext default_manager 1000000 "order-1" claim s) = true.
Proof. vm_compute. done. Qed.

(** [submitted] reopens a completed action. *)
Example completed_reopened :
  (state <$> action_get "order-1" claim (action_run default_manager
    (demo_actions ++ [AComplete 3 "order-1" claim "0xaa" (Some 7); ASubmitted 4 "order-1" claim "0xbb"]) fresh_store))
  = Some submitted_.
Proof. vm_compute. reflexivity. Qed.
