(* ===== verification/EventOrdering.v ===== *)
(** * Event ordering of the resolver

    resolver/src/event-ordering.ts: [EventOrderGuard] keeps, per chain, the
    highest block seen, the order ids seen and the last timestamp of each
    order, and accepts or rejects events; [EventOrderMonitor] counts the
    verdicts.  A block number given as a fraction makes [BigInt] throw, which
    the monitor catches; that is [None]. *)

From S2P Require Import Prelude.

Inductive Chain : Type := ethereum | soroban | solana.
#[export] Instance Chain_eq_dec : EqDecision Chain.
Proof. solve_decision. Defined.
#[export] Instance Chain_countable : Countable Chain.
Proof.
  refine (inj_countable' (fun c => match c with ethereum => 0%nat | soroban => 1%nat | solana => 2%nat end)
    (fun n => match n with 0%nat => ethereum | 1%nat => soroban | _ => solana end) _). by intros [].
Defined.

Inductive EventType : Type := order_created | order_claimed | order_refunded.

Definition chain_name (c : Chain) : string :=
  match c with ethereum => "ethereum" | soroban => "soroban" | solana => "solana" end.
Definition event_name (e : EventType) : string :=
  match e with order_created => "order_created" | order_claimed => "order_claimed" | order_refunded => "order_refunded" end.

Record EventMetadata : Type := mkEventMetadata {
  chain : Chain;
  eventType : EventType;
  orderId : Z;
  blockNumber : option Z;
  timestamp : option Z;
}.

(** The verdict on an event. *)
Record EventRecord : Type := mkEventRecord {
  metadata : EventMetadata;
  receivedAt : Z;
  valid : bool;
  rejectionReason : option string;
  expectedBlockHeight : option Z;
  observedBlockHeight : option Z;
}.

Record ChainState : Type := mkChainState {
  maxHeight : Z;
  orderIdSequence : gmap Z Z;
  maxOrderId : Z;
  lastTimestamp : gmap Z Z;
}.

Definition new_chain_state : ChainState := mkChainState 0 ∅ 0 ∅.

Notation Guard := (gmap Chain ChainState).

Record GuardCfg : Type := mkGuardCfg { maxBlockAge : Z; orderBufferMs : Z }.
Definition default_guard : GuardCfg := mkGuardCfg 100 30000.

(** [getOrCreateChainState]; storing the created state is the caller's write. *)
Definition chain_state (c : Chain) (g : Guard) : ChainState := default new_chain_state (g !! c).

Definition updateChainHead (c : Chain) (h : Z) (g : Guard) : Guard :=
  let s := chain_state c g in
  <[c := if maxHeight s <? h then mkChainState h (orderIdSequence s) (maxOrderId s) (lastTimestamp s) else s]> g.

(** ** Checks *)

Definition staleness_message (c : Chain) (block max : Z) (reason : string) : string :=
  "[" +:+ chain_name c +:+ "] block=" +:+ pretty block +:+ " is stale (max=" +:+ pretty max +:+ "): " +:+ reason.

Definition ordering_message (m : EventMetadata) (reason : string) : string :=
  "[" +:+ chain_name (chain m) +:+ "] orderId=" +:+ pretty (orderId m) +:+ ", eventType=" +:+ event_name (eventType m) +:+
  ": " +:+ reason.

Section Guard.
Context (cfg : GuardCfg).

Definition checkStaleness (c : Chain) (block max : Z) : option string :=
  if max <? block then Some (staleness_message c block max "block is from the future")
  else
    let age := max - block in
    if maxBlockAge cfg <? age then
      Some (staleness_message c block max
              ("block is " +:+ pretty age +:+ " blocks old (max allowed: " +:+ pretty (maxBlockAge cfg) +:+ ")"))
    else None.

(** The ordering check: the message, if it fails. *)
Definition checkOrder (m : EventMetadata) (s : ChainState) : option string :=
  let lastOrderId := default 0 (orderIdSequence s !! orderId m) in
  let crossOrderRegression :=
    (orderId m <? maxOrderId s) && negb (bool_decide (is_Some (orderIdSequence s !! orderId m))) in
  if (orderId m <? lastOrderId) || crossOrderRegression then
    let from := if crossOrderRegression then maxOrderId s else lastOrderId in
    Some (ordering_message m ("order ID regressed from " +:+ pretty from +:+ " to " +:+ pretty (orderId m) +:+
                              " - possible fork or replay attack"))
  else None.

(** The order id is entered before the timestamp is checked. *)
Definition admit_order (m : EventMetadata) (s : ChainState) : ChainState :=
  mkChainState (maxHeight s) (<[orderId m := orderId m]> (orderIdSequence s))
    (if maxOrderId s <? orderId m then orderId m else maxOrderId s) (lastTimestamp s).

Definition checkTimestamp (m : EventMetadata) (s : ChainState) : option string * ChainState :=
  match timestamp m with
  | None => (None, s)
  | Some ts =>
      let lastTs := default 0 (lastTimestamp s !! orderId m) in
      if ts <? lastTs - orderBufferMs cfg then
        (Some (ordering_message m ("timestamp regressed from " +:+ pretty lastTs +:+ " to " +:+ pretty ts +:+
                                   " - possible stale data")), s)
      else (None, mkChainState (maxHeight s) (orderIdSequence s) (maxOrderId s) (<[orderId m := ts]> (lastTimestamp s)))
  end.

(** The checks in order; the message of the first that fails. *)
Definition run_checks (m : EventMetadata) (block : Z) (s : ChainState) : option string * ChainState :=
  match checkStaleness (chain m) block (maxHeight s) with
  | Some reason => (Some reason, s)
  | None =>
      match checkOrder m s with
      | Some reason => (Some reason, s)
      | None => checkTimestamp m (admit_order m s)
      end
  end.

(** [validateEvent]: [Throw] is the RangeError of [BigInt]. *)
Definition validateEvent (now : Z) (m : EventMetadata) : ST Guard string EventRecord := fun g =>
  let s := chain_state (chain m) g in
  match blockNumber m with
  | None => (Throw "The number cannot be converted to a BigInt because it is not an integer", <[chain m := s]> g)
  | Some block =>
      let '(reason, s') := run_checks m block s in
      (Ok (mkEventRecord m now (match reason with None => true | Some _ => false end) reason (Some (maxHeight s)) (Some block)),
       <[chain m := s']> g)
  end.

Definition getChainState (c : Chain) (g : Guard) : option ChainState := g !! c.
Definition resetChain (c : Chain) (g : Guard) : Guard := delete c g.
Definition resetAll (g : Guard) : Guard := ∅.

(** ** Monitor *)

Record Monitor : Type := mkMonitor {
  guard : Guard;
  validCount : Z;
  invalidCount : Z;
  rejectedCount : Z;
  staleCount : Z;
}.

Definition new_monitor : Monitor := mkMonitor ∅ 0 0 0 0.

Definition count_rejection (stale : bool) (n : Monitor) (g : Guard) : Monitor :=
  mkMonitor g (validCount n) (invalidCount n + if stale then 0 else 1) (rejectedCount n + 1)
    (staleCount n + if stale then 1 else 0).

Definition processEvent (now : Z) (m : EventMetadata) (n : Monitor) : EventRecord * Monitor :=
  match validateEvent now m (guard n) with
  | (Ok r, g) =>
      if valid r then (r, mkMonitor g (validCount n + 1) (invalidCount n) (rejectedCount n) (staleCount n))
      else
        let reason := default "" (rejectionReason r) in
        (r, count_rejection (includes reason "stale" || includes reason "block") n g)
  | (Throw e, g) =>
      (mkEventRecord m now false (Some e) (maxHeight <$> getChainState (chain m) g) (blockNumber m), count_rejection false n g)
  end.

Definition monitor_head (c : Chain) (h : Z) (n : Monitor) : Monitor :=
  mkMonitor (updateChainHead c h (guard n)) (validCount n) (invalidCount n) (rejectedCount n) (staleCount n).

Record Metrics : Type := mkMetrics { m_valid : Z; m_rejected : Z; m_invalid : Z; m_stale : Z; m_total : Z }.
Definition getMetrics (n : Monitor) : Metrics :=
  mkMetrics (validCount n) (rejectedCount n) (invalidCount n) (staleCount n) (validCount n + rejectedCount n).
Definition monitor_reset (n : Monitor) : Monitor := mkMonitor (resetAll (guard n)) 0 0 0 0.

(** ** Runs *)

Inductive MonitorOp : Type := MHead (c : Chain) (h : Z) | MEvent (now : Z) (m : EventMetadata).

(** The verdicts of a run, each with the chain state it was judged against. *)
Fixpoint monitor_run (ops : list MonitorOp) (n : Monitor) : list (ChainState * EventRecord) * Monitor :=
  match ops with
  | [] => ([], n)
  | MHead c h :: ops' => monitor_run ops' (monitor_head c h n)
  | MEvent now m :: ops' =>
      let '(r, n') := processEvent now m n in
      let '(rs, n'') := monitor_run ops' n' in
      ((chain_state (chain m) (guard n), r) :: rs, n'')
  end.
End Guard.

(** ** What the guard enforces *)

Definition seen (s : ChainState) (id : Z) : Prop := is_Some (orderIdSequence s !! id).

(** Order ids are entered under themselves, up to the maximum. *)
Definition cs_ok (s : ChainState) : Prop :=
  0 <= maxOrderId s /\ forall id v, orderIdSequence s !! id = Some v -> v = id /\ id <= maxOrderId s.

Definition guard_ok (g : Guard) : Prop := forall c, cs_ok (chain_state c g).

(** The states of a run only grow. *)
Definition grows (s s' : ChainState) : Prop :=
  maxHeight s <= maxHeight s' /\ forall id, seen s id -> seen s' id.

#[local] Instance grows_preorder : PreOrder grows.
Proof. split; [intros s; split; [lia|done]|]. intros s1 s2 s3 [? ?] [? ?]. split; [lia|auto]. Qed.

(** The condition for acceptance. *)
Definition acceptable (cfg : GuardCfg) (s : ChainState) (m : EventMetadata) : Prop :=
  exists block, blockNumber m = Some block /\
    maxHeight s - maxBlockAge cfg <= block <= maxHeight s /\
    (seen s (orderId m) \/ maxOrderId s <= orderId m) /\
    (forall ts, timestamp m = Some ts -> default 0 (lastTimestamp s !! orderId m) - orderBufferMs cfg <= ts).

Section Verdicts.
Context (cfg : GuardCfg).

Lemma checkOrder_spec m s : cs_ok s -> checkOrder m s = None <-> seen s (orderId m) \/ maxOrderId s <= orderId m.
Proof.
  intros [H0 Hs]. unfold checkOrder, seen. destruct (orderIdSequence s !! orderId m) as [v|] eqn:E.
  - destruct (Hs _ _ E) as [-> _]. rewrite (bool_decide_true (is_Some (Some (orderId m)))) by eauto. cbn.
    rewrite andb_false_r, orb_false_r, Z.ltb_irrefl. split; [left; eauto|done].
  - rewrite (bool_decide_false (is_Some None)) by (by intros [??]). cbn. rewrite andb_true_r.
    destruct (Z.ltb_spec (orderId m) (maxOrderId s)) as [Hlt|Hge].
    + rewrite orb_true_r. split; [done|]. intros [[??]|?]; [done|lia].
    + destruct (Z.ltb_spec (orderId m) 0); [lia|]. cbn. split; [by right|done].
Qed.

Lemma checkStaleness_spec c block max :
  checkStaleness cfg c block max = None <-> max - maxBlockAge cfg <= block <= max.
Proof.
  unfold checkStaleness. destruct (Z.ltb_spec max block); [split; [done|lia]|].
  destruct (Z.ltb_spec (maxBlockAge cfg) (max - block)); (split; [done|lia]) || (split; [lia|done]).
Qed.

Lemma run_checks_spec m block s :
  cs_ok s ->
  ((run_checks cfg m block s).1 = None <->
   maxHeight s - maxBlockAge cfg <= block <= maxHeight s /\ (seen s (orderId m) \/ maxOrderId s <= orderId m) /\
   (forall ts, timestamp m = Some ts -> default 0 (lastTimestamp s !! orderId m) - orderBufferMs cfg <= ts)).
Proof.
  intros Hs. unfold run_checks. rewrite <- (checkStaleness_spec (chain m)), <- (checkOrder_spec m s Hs).
  destruct (checkStaleness cfg (chain m) block (maxHeight s)); [naive_solver|].
  destruct (checkOrder m s); [naive_solver|]. unfold checkTimestamp. cbn.
  destruct (timestamp m) as [ts|]; [|naive_solver].
  destruct (Z.ltb_spec ts (default 0 (lastTimestamp s !! orderId m) - orderBufferMs cfg)); cbn; [|naive_solver lia].
  split; [done|]. intros (_ & _ & H'). specialize (H' ts eq_refl). lia.
Qed.

Lemma admit_ok m s : cs_ok s -> cs_ok (admit_order m s).
Proof.
  intros [H0 Hs]. split; cbn.
  - destruct (Z.ltb_spec (maxOrderId s) (orderId m)); lia.
  - intros id v. rewrite lookup_insert_Some. intros [[<- <-]|[_ H]].
    + destruct (Z.ltb_spec (maxOrderId s) (orderId m)); split; lia.
    + destruct (Hs _ _ H) as [-> ?]. destruct (Z.ltb_spec (maxOrderId s) (orderId m)); split; lia.
Qed.

Lemma run_checks_step m block s :
  cs_ok s ->
  let s' := (run_checks cfg m block s).2 in
  cs_ok s' /\ grows s s' /\ ((run_checks cfg m block s).1 = None -> seen s' (orderId m)).
Proof.
  intros Hs. unfold run_checks. destruct (checkStaleness _ _ _ _); [by split_and!|].
  destruct (checkOrder m s) eqn:Eo; [by split_and!|].
  assert (cs_ok (admit_order m s)) as Ha by (by apply admit_ok).
  assert (grows s (admit_order m s)) as Hg.
  { split; [cbn; lia|]. intros id [v Hv]. unfold seen. cbn. destruct (decide (id = orderId m)) as [->|].
    - rewrite lookup_insert_eq. eauto.
    - rewrite lookup_insert_ne by done. eauto. }
  assert (seen (admit_order m s) (orderId m)) as Hin by (unfold seen; cbn; rewrite lookup_insert_eq; eauto).
  unfold checkTimestamp. destruct (timestamp m) as [ts|]; [destruct (_ <? _)|]; cbn; by split_and!.
Qed.

(** One event: the monitor's record, counters and guard. *)
Lemma processEvent_spec now m n :
  guard_ok (guard n) ->
  let s := chain_state (chain m) (guard n) in
  let '(r, n') := processEvent cfg now m n in
  metadata r = m /\ (valid r = true <-> acceptable cfg s m) /\ guard_ok (guard n') /\
  (forall c, grows (chain_state c (guard n)) (chain_state c (guard n'))) /\
  (valid r = true -> seen (chain_state (chain m) (guard n')) (orderId m)) /\
  validCount n' = validCount n + (if valid r then 1 else 0) /\ rejectedCount n' = rejectedCount n + (if valid r then 0 else 1) /\
  invalidCount n' + staleCount n' - rejectedCount n' = invalidCount n + staleCount n - rejectedCount n.
Proof.
  intros Hg s. unfold processEvent, validateEvent. fold s.
  assert (forall s' : ChainState, cs_ok s' -> guard_ok (<[chain m := s']> (guard n))) as Hok.
  { intros s' Hs' c. unfold chain_state. destruct (decide (c = chain m)) as [->|]; [by rewrite lookup_insert_eq|].
    rewrite lookup_insert_ne by done. apply Hg. }
  assert (forall s' : ChainState, grows s s' -> forall c, grows (chain_state c (guard n)) (chain_state c (<[chain m := s']> (guard n)))) as Hgr.
  { intros s' Hs' c. unfold chain_state. destruct (decide (c = chain m)) as [->|]; [rewrite lookup_insert_eq; exact Hs'|].
    by rewrite lookup_insert_ne by done. }
  destruct (blockNumber m) as [block|] eqn:Eb.
  - pose proof (run_checks_spec m block s (Hg _)) as Hspec. pose proof (run_checks_step m block s (Hg _)) as (Hs' & Hgrow & Hin).
    destruct (run_checks cfg m block s) as [reason s'] eqn:E. cbn [fst snd] in *.
    assert (acceptable cfg s m <-> reason = None) as Hacc.
    { rewrite Hspec. unfold acceptable. rewrite Eb. naive_solver. }
    assert (chain_state (chain m) (<[chain m := s']> (guard n)) = s') as Hcs by (unfold chain_state; by rewrite lookup_insert_eq).
    destruct reason as [reason|]; cbn.
    + split_and!; [done|rewrite Hacc; by split|by apply Hok|by apply Hgr|done|lia|lia|].
      destruct (_ || _); lia.
    + split_and!; [done|rewrite Hacc; by split|by apply Hok|by apply Hgr|by rewrite Hcs; auto|lia|lia|lia].
  - cbn. split_and!; [done| |apply Hok, Hg|by apply Hgr; reflexivity|done|lia|lia|lia].
    split; [done|]. intros (b & ? & _). congruence.
Qed.
End Verdicts.

(** Verdicts that a run adds to the ones before it. *)
Lemma monitor_run_spec cfg ops n :
  guard_ok (guard n) ->
  let '(vs, n') := monitor_run cfg ops n in
  Forall (fun v => cs_ok v.1 /\ (valid v.2 = true <-> acceptable cfg v.1 (metadata v.2)) /\
                   grows (chain_state (chain (metadata v.2)) (guard n)) v.1) vs /\
  validCount n' = validCount n + Z.of_nat (length (List.filter (fun v => valid v.2) vs)) /\
  validCount n' + rejectedCount n' = validCount n + rejectedCount n + Z.of_nat (length vs) /\
  invalidCount n' + staleCount n' - rejectedCount n' = invalidCount n + staleCount n - rejectedCount n.
Proof.
  revert n. induction ops as [|[c h|now m] ops IH]; intros n Hg; cbn [monitor_run].
  { cbn. split_and!; [constructor|lia..]. }
  - assert (guard_ok (guard (monitor_head c h n)) /\
            forall c', grows (chain_state c' (guard n)) (chain_state c' (guard (monitor_head c h n)))) as [Hg' Hgr].
    { unfold monitor_head, updateChainHead. cbn. split; intros c'; unfold chain_state;
        (destruct (decide (c' = c)) as [->|]; [rewrite lookup_insert_eq|rewrite lookup_insert_ne by done; [apply Hg || reflexivity]]);
        cbn; destruct (Z.ltb_spec (maxHeight (default new_chain_state (guard n !! c))) h); try apply Hg; try reflexivity.
      split; [cbn; lia|done]. }
    specialize (IH _ Hg'). destruct (monitor_run cfg ops _) as [vs n']. cbn in IH. destruct IH as (Hv & ? & ? & ?).
    split_and!; [|lia..]. eapply Forall_impl; [exact Hv|]. intros v (? & ? & ?). split_and!; [done|done|]. by etrans; [apply Hgr|].
  - pose proof (processEvent_spec cfg now m n Hg) as Hp. destruct (processEvent cfg now m n) as [r n1].
    destruct Hp as (Em & Hacc & Hg1 & Hgr & _ & Hc1 & Hc2 & Hc3).
    specialize (IH n1 Hg1). destruct (monitor_run cfg ops n1) as [vs n']. destruct IH as (Hv & H1 & H2 & H3).
    split_and!; [|cbn; destruct (valid r); cbn [length]; lia|cbn [length]; destruct (valid r); lia|lia].
    constructor; [cbn; rewrite Em; split_and!; [apply Hg|done|reflexivity]|].
    eapply Forall_impl; [exact Hv|]. intros v (? & ? & ?). split_and!; [done|done|]. by etrans; [apply Hgr|].
Qed.

(** A verdict's order id is known to every later verdict of its chain. *)
Lemma accepted_is_seen cfg ops n i j v1 v2 :
  guard_ok (guard n) ->
  let vs := (monitor_run cfg ops n).1 in
  (i < j)%nat -> vs !! i = Some v1 -> vs !! j = Some v2 -> chain (metadata v1.2) = chain (metadata v2.2) ->
  valid v1.2 = true -> seen v2.1 (orderId (metadata v1.2)).
Proof.
  revert n i j. induction ops as [|[c h|now m] ops IH]; intros n i j Hg vs Hij Hi Hj Hc Hv.
  { unfold vs in Hi. cbn in Hi. by rewrite lookup_nil in Hi. }
  - unfold vs in Hi, Hj. cbn in Hi, Hj. eapply (IH (monitor_head c h n) i j); try done.
    intros c'. unfold monitor_head, updateChainHead, chain_state. cbn.
    destruct (decide (c' = c)) as [->|]; [rewrite lookup_insert_eq|rewrite lookup_insert_ne by done; apply Hg].
    cbn. destruct (_ <? _); apply Hg.
  - unfold vs in Hi, Hj. cbn [monitor_run] in Hi, Hj.
    pose proof (processEvent_spec cfg now m n Hg) as Hp. destruct (processEvent cfg now m n) as [r n1].
    destruct Hp as (Em & _ & Hg1 & _ & Hseen & _).
    pose proof (monitor_run_spec cfg ops n1 Hg1) as Hrest. specialize (IH n1).
    destruct (monitor_run cfg ops n1) as [vs' n'] eqn:E. cbn [fst] in *.
    destruct j as [|j]; [lia|]. destruct i as [|i].
    + simplify_eq/=. destruct Hrest as (Hf & _). rewrite Forall_forall in Hf.
      destruct (Hf v2 (list_elem_of_lookup_2 _ _ _ Hj)) as (_ & _ & Hgr). rewrite <- Hc in Hgr. apply Hgr. by apply Hseen.
    + cbn in Hi, Hj. apply (IH i j Hg1); try done. lia.
Qed.

(** The event-order guard, over any sequence of head updates and events
    on any chains.  An event is accepted exactly when its block is at most
    [maxBlockAge] behind the chain's highest block and not ahead of it, its
    order id was accepted for checking before or is not below every order id
    seen, and its timestamp is not more than the buffer behind the order's
    last one.  Hence an order id accepted on a chain for the first time is
    larger than every id accepted there before: a replayed or forked older
    order never enters.  And the metrics add up: every event is counted once,
    accepted ones as valid, the others as rejected, split into stale and
    invalid. *)
Lemma event_order_verdicts (cfg : GuardCfg) (ops : list MonitorOp) :
  let '(vs, n) := monitor_run cfg ops new_monitor in
  Forall (fun v => valid v.2 = true <-> acceptable cfg v.1 (metadata v.2)) vs /\
  (forall i j v1 v2, (i < j)%nat -> vs !! i = Some v1 -> vs !! j = Some v2 ->
     chain (metadata v1.2) = chain (metadata v2.2) -> valid v1.2 = true -> valid v2.2 = true ->
     seen v2.1 (orderId (metadata v2.2)) \/ orderId (metadata v1.2) < orderId (metadata v2.2)) /\
  m_total (getMetrics n) = Z.of_nat (length vs) /\
  m_valid (getMetrics n) = Z.of_nat (length (List.filter (fun v => valid v.2) vs)) /\
  m_rejected (getMetrics n) = m_stale (getMetrics n) + m_invalid (getMetrics n).
Proof.
  assert (guard_ok (guard new_monitor)) as Hg.
  { intros c. unfold chain_state. change (guard new_monitor) with (∅ : Guard). rewrite lookup_empty.
    split; [done|]. intros id v. change ((∅ : gmap Z Z) !! id = Some v -> v = id /\ id <= 0). by rewrite lookup_empty. }
  pose proof (monitor_run_spec cfg ops new_monitor Hg) as Hs.
  pose proof (fun i j v1 v2 => accepted_is_seen cfg ops new_monitor i j v1 v2 Hg) as Hseen.
  destruct (monitor_run cfg ops new_monitor) as [vs n]. destruct Hs as (Hv & H1 & H2 & H3). cbn in H1, H2, H3, Hseen.
  split_and!.
  - eapply Forall_impl; [exact Hv|]. by intros v (_ & ? & _).
  - intros i j v1 v2 Hij Hi Hj Hc Hv1 Hv2. rewrite Forall_forall in Hv.
    destruct (Hv v2 (list_elem_of_lookup_2 _ _ _ Hj)) as ([_ Hmax] & Hacc & _).
    apply Hacc in Hv2 as (b & _ & _ & [?|Hle] & _); [by left|].
    destruct (decide (orderId (metadata v1.2) = orderId (metadata v2.2))) as [E|Hne].
    + left. rewrite <- E. by eapply Hseen.
    + right. destruct (Hseen i j v1 v2 Hij Hi Hj Hc Hv1) as [x Hx]. apply Hmax in Hx as [_ ?]. lia.
  - cbn. lia.
  - cbn. lia.
  - cbn. lia.
Qed.

(** What the guard does not check: a claim of an order whose creation was
    never seen is accepted, and so is a creation after its claim. *)
Example claim_before_created :
  let event t := mkEventMetadata ethereum t 7 (Some 95) None in
  (valid ∘ snd) <$> (monitor_run default_guard
     [MHead ethereum 100; MEvent 1 (event order_claimed); MEvent 2 (event order_created)] new_monitor).1 = [true; true].
Proof. vm_compute. reflexivity. Qed.

(** An event refused for its timestamp still raises the chain's order id, and
    the next lower order is refused. *)
Example refused_event_raises_order_id :
  let event o ts := mkEventMetadata ethereum order_created o (Some 95) (Some ts) in
  (valid ∘ snd) <$> (monitor_run default_guard
     [MHead ethereum 100; MEvent 1 (event 9 (-40000)); MEvent 2 (event 8 50000)] new_monitor).1 = [false; false].
Proof. vm_compute. reflexivity. Qed.
