(* ===== verification/Listeners.v ===== *)
(** * What the chain listeners share.

    The in-process deduplication cache (coordinator/src/listeners), and the
    interface between a listener and the order service: a computation
    [follows] the service when the service state it leaves is one that a
    sequence of the listener's service calls reaches, so that every theorem
    about sequences of calls holds of the listeners. *)

From S2P Require Import Prelude OrderMachine TransactionContract OrderRow OrdersRepo OrdersRepoFacts.
From S2P Require Import OrdersRepoSpec HistoryCache Notifications OrderService OrderServiceFacts.
From S2P Require Import OrderServiceSpec.

Import Service.

(** ** The deduplication cache: a map from keys to [true], in insertion order,
    as the list of its keys *)

Definition DEDUP_CACHE_MAX : Z := 10000.

Definition is_processed (key : string) (cache : list string) : bool := bool_decide (key ∈ cache).

Definition mark_processed (key : string) (cache : list string) : list string :=
  if is_processed key cache then cache
  else (if DEDUP_CACHE_MAX <=? Z.of_nat (length cache) then tail cache else cache) ++ [key].

Definition cache_ok (cache : list string) : Prop := NoDup cache /\ Z.of_nat (length cache) <= DEDUP_CACHE_MAX.

Lemma cache_empty : cache_ok [].
Proof. split; [constructor|done]. Qed.

Lemma mark_cache_ok key cache : cache_ok cache -> cache_ok (mark_processed key cache).
Proof.
  intros [Hd Hl]. unfold mark_processed, is_processed. case_bool_decide as Hin; [done|].
  destruct (Z.leb_spec DEDUP_CACHE_MAX (Z.of_nat (length cache))) as [Hfull|Hroom].
  - destruct cache as [|k cache]; [unfold DEDUP_CACHE_MAX in Hfull; cbn in Hfull; lia|].
    apply NoDup_cons in Hd as [Hk Hd]. cbn [tail]. split; [|rewrite length_app; cbn in *; lia].
    apply NoDup_app. split_and!; [done|set_solver|apply NoDup_singleton].
  - split; [|rewrite length_app; cbn; lia]. apply NoDup_app. split_and!; [done|set_solver|apply NoDup_singleton].
Qed.

(** A key just marked is known; one that was known stays unless the cache was
    full and it was the oldest. *)
Lemma mark_known key cache : key ∈ mark_processed key cache.
Proof. unfold mark_processed, is_processed. case_bool_decide; [done|]. set_solver. Qed.

Lemma mark_keeps key k cache : Z.of_nat (length cache) < DEDUP_CACHE_MAX -> k ∈ cache -> k ∈ mark_processed key cache.
Proof.
  intros Hl Hk. unfold mark_processed. case_match; [done|].
  destruct (Z.leb_spec DEDUP_CACHE_MAX (Z.of_nat (length cache))); [lia|]. set_solver.
Qed.

(** ** Following the order service *)

(** The calls listeners make. *)
Definition listener_call (c : Call) : Prop :=
  match c with
  | CSrcLock _ | CSecret _ _ _ _ _ | CRollbackSrc _ | CSaveCheckpoint _ _ _ _ | CMarkRecovery _ _ => True
  | CMark _ to _ => to = refunded
  | _ => False
  end.

Section Follows.
Context {L : Type} (svc : L -> State) (cfg : Config).
Implicit Types (st : L).

(** The service state of [st'] is reached from that of [st]. *)
Definition follows (st st' : L) : Prop :=
  exists cs, svc st' = OrderServiceSpec.run cfg cs (svc st) /\ Forall (fun c => listener_call c.2) cs.

Lemma run_app cs cs' s : OrderServiceSpec.run cfg (cs ++ cs') s =
  OrderServiceSpec.run cfg cs' (OrderServiceSpec.run cfg cs s).
Proof. apply fold_left_app. Qed.

#[export] Instance follows_preorder : PreOrder follows.
Proof.
  split; [intros st; by exists []|]. intros st1 st2 st3 (cs & E & Hcs) (cs' & E' & Hcs').
  exists (cs ++ cs'). split; [by rewrite run_app, E', E|by apply Forall_app].
Qed.

Lemma follows_same st st' : svc st' = svc st -> follows st st'.
Proof. intros E. exists []. split; [done|constructor]. Qed.

Lemma follows_call now c st st' : listener_call c -> svc st' = run1 cfg now c (svc st) -> follows st st'.
Proof. intros Hc E. exists [(now, c)]. split; [done|by repeat constructor]. Qed.
End Follows.

(** ** What following gives *)

Lemma listener_marks cs :
  Forall (fun c : Z * Call => listener_call c.2) cs -> Forall (fun c => marks outcome_mark c.2) cs.
Proof.
  intros Hcs. eapply Forall_impl; [exact Hcs|]. intros [now c]. destruct c; cbn; try done. intros ->. by split_and!.
Qed.

(** From a state the service reaches, rows stay consistent and progress is
    one-way. *)
Lemma follows_orders {L} (svc : L -> State) cfg cs st st' :
  follows svc cfg st st' -> Forall (fun c => marks outcome_mark c.2) cs ->
  svc st = OrderServiceSpec.run cfg cs init ->
  Forall row_ok (orders (db (svc st'))) /\
  forall publicId r, row_of publicId (db (svc st)) = Some r ->
    exists r', row_of publicId (db (svc st')) = Some r' /\
      rtc (evolves life) r r' /\ (isTerminal (status r) = true -> frozen r r').
Proof.
  intros (cs' & E' & Hcs') Hcs E.
  assert (wf_db (db (svc st))) as Hwf by (rewrite E; apply run_wf, wf_emptyDb). split.
  - rewrite E', E, <- run_app. apply (rtc_rows_ok (db init)); [|apply wf_emptyDb|constructor].
    apply (run_steps outcome_mark keeps_ok); [|apply wf_emptyDb].
    apply Forall_app. split; [done|by apply listener_marks].
  - intros publicId r Hr. rewrite E'.
    destruct (rtc_row life (db (svc st)) (db (OrderServiceSpec.run cfg cs' (svc st))) publicId r)
      as (r' & Hr' & Hev); [apply (run_steps (fun _ => True) life); [apply any_mark|done]|done|done|].
    exists r'. eauto using terminal_frozen.
Qed.

(** A query of the repository leaves the service as it is. *)
Lemma repo_query {A} (m : Repo A) s : (forall d, (m d).2 = d) -> (repo m s).2 = s.
Proof. intros Hm. rewrite repo_eq, Hm. apply with_db_same. Qed.
