(* ===== verification/SorobanEvents.v ===== *)
(** * Decoding Soroban contract events (coordinator/src/soroban-events.ts).

    The decoder shared by the live listener and the reconciler.  Reading XDR
    is the Stellar SDK's [scValToNative], a parameter: it gives a JavaScript
    value or throws.  [wire] is the wire format (version 1) of the three
    lifecycle events as a relation, and the decoder is proved to accept exactly
    that. *)

From S2P Require Import Prelude Codec SecretCipher.

(** ** JavaScript values, as far as the decoders tell them apart.  A number has
    its value when that is a safe integer. *)

Inductive JsValue : Type :=
| JString (s : string)
| JBytes (b : bytes)
| JBigInt (n : Z)
| JNumber (safe : option Z)
| JArray (l : list JsValue)
| JOther.

(** The Stellar SDK: XDR values, their conversion, which throws with a message,
    and the first 16 hex digits of the SHA-256 digest of their XDR encoding. *)
Class StellarSdk : Type := {
  ScVal : Type;
  scValToNative : ScVal -> outcome string JsValue;
  xdr_digest : ScVal -> option string
}.

Definition as_string (v : JsValue) : option string := match v with JString s => Some s | _ => None end.
Definition as_bigint (v : JsValue) : option Z := match v with JBigInt n => Some n | _ => None end.
Definition as_bytes (v : JsValue) : option bytes := match v with JBytes b => Some b | _ => None end.

(** ** Hexadecimal *)

Definition is_hex_char (c : Ascii.ascii) : bool :=
  match hex_value c with Some _ => true | None => false end.

(** [value.replace(/^0x/i, "")]. *)
Definition strip_0x (s : string) : string :=
  if startsWith s "0x" || startsWith s "0X" then String.substring 2 (String.length s - 2) s else s.

Definition toHex (value : bytes + string) : outcome JsError string :=
  match value with
  | inl b => Ok (hex_encode b)
  | inr s =>
      let hex := strip_0x s in
      if negb (Nat.even (String.length hex)) || negb (all_chars is_hex_char hex) then
        Throw (PlainError None "Invalid hex string")
      else Ok (toLowerCase hex)
  end.

(** ** Events *)

Inductive DecodedHtlcEvent : Type :=
| CreatedEvent (orderId : Z) (hashlock : string) (timelock : Z) (sender beneficiary amount safetyDeposit : string)
| ClaimedEvent (orderId : Z) (hashlock preimage beneficiary : string)
| RefundedEvent (orderId : Z) (hashlock refundAddress : string).

Inductive MalformedReason : Type :=
| xdr_decode_error | topic_count_mismatch | topic_type_mismatch
| data_not_array | data_count_mismatch | data_type_mismatch.

Record MalformedEventError : Type := mkMalformedEventError {
  me_kind : string;
  me_reason : MalformedReason;
  me_detail : string
}.

(** The three answers of the decoder: an event, a malformed payload, [null]. *)
Inductive HtlcResult : Type :=
| Decoded (e : DecodedHtlcEvent)
| Malformed (e : MalformedEventError)
| Unknown.

Definition malformed (kind : string) (reason : MalformedReason) (detail : string) : HtlcResult :=
  Malformed (mkMalformedEventError kind reason detail).

Definition isMalformedEvent (r : HtlcResult) : bool := match r with Malformed _ => true | _ => false end.

Definition event_kind (e : DecodedHtlcEvent) : string :=
  match e with
  | CreatedEvent _ _ _ _ _ _ _ => "created"
  | ClaimedEvent _ _ _ _ => "claimed"
  | RefundedEvent _ _ _ => "refunded"
  end.

(** A field of the expected type, or a malformed event. *)
Definition field {A} (o : option A) (kind : string) (reason : MalformedReason) (what : string)
    (k : A -> HtlcResult) : HtlcResult :=
  match o with Some a => k a | None => malformed kind reason what end.

Definition count_message (n : string) (what : string) {A} (l : list A) : string :=
  "expected ≥" +:+ n +:+ " " +:+ what +:+ ", got " +:+ pretty (Z.of_nat (length l)).

Definition decode_created (topics data : list JsValue) : HtlcResult :=
  match topics with
  | _ :: sender :: beneficiary :: hashlockRaw :: _ =>
      field (as_string sender) "created" topic_type_mismatch "topics[1] (sender) is not a string" (fun sender =>
      field (as_string beneficiary) "created" topic_type_mismatch "topics[2] (beneficiary) is not a string" (fun beneficiary =>
      field (as_bytes hashlockRaw) "created" topic_type_mismatch "topics[3] (hashlock) is not Bytes" (fun lock =>
      match data with
      | orderId :: asset :: amount :: safetyDeposit :: timelock :: _ =>
          field (as_bigint orderId) "created" data_type_mismatch "data[0] (order_id) is not bigint" (fun orderId =>
          field (as_string asset) "created" data_type_mismatch "data[1] (asset) is not a string" (fun _ =>
          field (as_bigint amount) "created" data_type_mismatch "data[2] (amount) is not bigint" (fun amount =>
          field (as_bigint safetyDeposit) "created" data_type_mismatch "data[3] (safety_deposit) is not bigint" (fun deposit =>
          field (as_bigint timelock) "created" data_type_mismatch "data[4] (timelock) is not bigint" (fun timelock =>
          Decoded (CreatedEvent orderId (hex_encode lock) (Number_of timelock) sender beneficiary
                     (pretty amount) (pretty deposit)))))))
      | _ => malformed "created" data_count_mismatch (count_message "5" "data elements" data)
      end)))
  | _ => malformed "created" topic_count_mismatch (count_message "4" "topics" topics)
  end.

Definition decode_claimed (topics data : list JsValue) : HtlcResult :=
  match topics with
  | _ :: beneficiary :: hashlockRaw :: _ =>
      field (as_string beneficiary) "claimed" topic_type_mismatch "topics[1] (beneficiary) is not a string" (fun beneficiary =>
      field (as_bytes hashlockRaw) "claimed" topic_type_mismatch "topics[2] (hashlock) is not Bytes" (fun lock =>
      match data with
      | orderId :: caller :: preimageRaw :: amount :: safetyDeposit :: _ =>
          field (as_bigint orderId) "claimed" data_type_mismatch "data[0] (order_id) is not bigint" (fun orderId =>
          field (as_string caller) "claimed" data_type_mismatch "data[1] (caller) is not a string" (fun _ =>
          field (as_bytes preimageRaw) "claimed" data_type_mismatch "data[2] (preimage) is not Bytes" (fun pre =>
          if bool_decide (pre = []) then
            malformed "claimed" data_type_mismatch
              "data[2] (preimage) is zero-length; a valid HTLC preimage must be non-empty"
          else
          field (as_bigint amount) "claimed" data_type_mismatch "data[3] (amount) is not bigint" (fun _ =>
          field (as_bigint safetyDeposit) "claimed" data_type_mismatch "data[4] (safety_deposit) is not bigint" (fun _ =>
          Decoded (ClaimedEvent orderId (hex_encode lock) (hex_encode pre) beneficiary))))))
      | _ => malformed "claimed" data_count_mismatch (count_message "5" "data elements" data)
      end))
  | _ => malformed "claimed" topic_count_mismatch (count_message "3" "topics" topics)
  end.

Definition decode_refunded (topics data : list JsValue) : HtlcResult :=
  match topics with
  | _ :: refundAddress :: hashlockRaw :: _ =>
      field (as_string refundAddress) "refunded" topic_type_mismatch "topics[1] (refund_address) is not a string" (fun address =>
      field (as_bytes hashlockRaw) "refunded" topic_type_mismatch "topics[2] (hashlock) is not Bytes" (fun lock =>
      match data with
      | orderId :: caller :: amount :: safetyDeposit :: _ =>
          field (as_bigint orderId) "refunded" data_type_mismatch "data[0] (order_id) is not bigint" (fun orderId =>
          field (as_string caller) "refunded" data_type_mismatch "data[1] (caller) is not a string" (fun _ =>
          field (as_bigint amount) "refunded" data_type_mismatch "data[2] (amount) is not bigint" (fun _ =>
          field (as_bigint safetyDeposit) "refunded" data_type_mismatch "data[3] (safety_deposit) is not bigint" (fun _ =>
          Decoded (RefundedEvent orderId (hex_encode lock) address)))))
      | _ => malformed "refunded" data_count_mismatch (count_message "4" "data elements" data)
      end))
  | _ => malformed "refunded" topic_count_mismatch (count_message "3" "topics" topics)
  end.

(** After the conversion of the XDR values. *)
Definition decode_native (topics : list JsValue) (data : JsValue) : HtlcResult :=
  match topics with
  | JString kind :: _ =>
      if String.eqb kind "created" || String.eqb kind "claimed" || String.eqb kind "refunded" then
        match data with
        | JArray data =>
            if String.eqb kind "created" then decode_created topics data
            else if String.eqb kind "claimed" then decode_claimed topics data
            else decode_refunded topics data
        | _ => malformed kind data_not_array "data ScVal did not decode to an Array"
        end
      else Unknown
  | _ => Unknown
  end.

(** [topicScVals.map((t) => scValToNative(t))]. *)
Fixpoint native_topics {S : StellarSdk} (topics : list ScVal) : outcome string (list JsValue) :=
  match topics with
  | [] => Ok []
  | t :: ts =>
      match scValToNative t with
      | Throw m => Throw m
      | Ok v => match native_topics ts with Ok vs => Ok (v :: vs) | Throw m => Throw m end
      end
  end.

Definition decodeHtlcEvent {S : StellarSdk} (topics : list ScVal) (data : ScVal) : HtlcResult :=
  let threw m := malformed "xdr_decode_error" xdr_decode_error ("scValToNative threw: " +:+ m) in
  match native_topics topics with
  | Throw m => threw m
  | Ok topics =>
      match scValToNative data with
      | Throw m => threw m
      | Ok data => decode_native topics data
      end
  end.

(** ** The wire format, version 1 *)

Inductive wire : list JsValue -> JsValue -> DecodedHtlcEvent -> Prop :=
| wire_created sender beneficiary lock orderId asset amount deposit timelock ts ds :
    wire (JString "created" :: JString sender :: JString beneficiary :: JBytes lock :: ts)
      (JArray (JBigInt orderId :: JString asset :: JBigInt amount :: JBigInt deposit :: JBigInt timelock :: ds))
      (CreatedEvent orderId (hex_encode lock) (Number_of timelock) sender beneficiary (pretty amount) (pretty deposit))
| wire_claimed beneficiary lock orderId caller pre amount deposit ts ds :
    pre <> [] ->
    wire (JString "claimed" :: JString beneficiary :: JBytes lock :: ts)
      (JArray (JBigInt orderId :: JString caller :: JBytes pre :: JBigInt amount :: JBigInt deposit :: ds))
      (ClaimedEvent orderId (hex_encode lock) (hex_encode pre) beneficiary)
| wire_refunded address lock orderId caller amount deposit ts ds :
    wire (JString "refunded" :: JString address :: JBytes lock :: ts)
      (JArray (JBigInt orderId :: JString caller :: JBigInt amount :: JBigInt deposit :: ds))
      (RefundedEvent orderId (hex_encode lock) address).

(** A decoder branch answers [Decoded] only past all its tests. *)
Ltac decode_inv :=
  repeat match goal with
  | H : field ?o _ _ _ _ = Decoded _ |- _ =>
      let E := fresh "E" in destruct o eqn:E; cbn [field] in H; [|discriminate H]
  | H : as_string ?v = Some _ |- _ => destruct v; try discriminate H; cbn in H; simplify_eq
  | H : as_bigint ?v = Some _ |- _ => destruct v; try discriminate H; cbn in H; simplify_eq
  | H : as_bytes ?v = Some _ |- _ => destruct v; try discriminate H; cbn in H; simplify_eq
  | H : malformed _ _ _ = Decoded _ |- _ => discriminate H
  | H : (if bool_decide ?P then _ else _) = Decoded _ |- _ => case_bool_decide; [discriminate H|]
  | H : match ?l with [] => _ | _ :: _ => _ end = Decoded _ |- _ => destruct l; [discriminate H|]
  | H : Decoded _ = Decoded _ |- _ => injection H as <-
  end.

Lemma decode_created_wire ts data e :
  decode_created (JString "created" :: ts) data = Decoded e -> wire (JString "created" :: ts) (JArray data) e.
Proof. unfold decode_created. intros H. decode_inv. constructor. Qed.

Lemma decode_claimed_wire ts data e :
  decode_claimed (JString "claimed" :: ts) data = Decoded e -> wire (JString "claimed" :: ts) (JArray data) e.
Proof. unfold decode_claimed. intros H. decode_inv. by constructor. Qed.

Lemma decode_refunded_wire ts data e :
  decode_refunded (JString "refunded" :: ts) data = Decoded e -> wire (JString "refunded" :: ts) (JArray data) e.
Proof. unfold decode_refunded. intros H. decode_inv. constructor. Qed.

Lemma decode_native_wire topics data e : decode_native topics data = Decoded e <-> wire topics data e.
Proof.
  split.
  - unfold decode_native. destruct topics as [|[kind| | | | |] ts]; try done.
    destruct (String.eqb_spec kind "created") as [->|]; cbn [orb].
    { destruct data; try done. apply decode_created_wire. }
    destruct (String.eqb_spec kind "claimed") as [->|]; cbn [orb].
    { destruct data; try done. apply decode_claimed_wire. }
    destruct (String.eqb_spec kind "refunded") as [->|]; [|done].
    destruct data; try done. apply decode_refunded_wire.
  - destruct 1; cbn; [done| |done]. by rewrite bool_decide_eq_false_2.
Qed.

(** ** Hexadecimal facts *)

Lemma hex2_checks b :
  is_byte b = true ->
  hex_decode (hex2 b) = [b] /\ all_chars is_hex_char (hex2 b) = true /\ toLowerCase (hex2 b) = hex2 b.
Proof.
  intros Hb.
  pose proof (forall_byte (fun b => bool_decide (hex_decode (hex2 b) = [b]) && all_chars is_hex_char (hex2 b) &&
    String.eqb (toLowerCase (hex2 b)) (hex2 b)) ltac:(by vm_compute) b Hb) as H.
  cbn beta in H. bools. apply String.eqb_eq in H0. by split_and!.
Qed.

Lemma hex_decode_hex2 b s : is_byte b = true -> hex_decode (hex2 b +:+ s) = b :: hex_decode s.
Proof.
  intros (H & _ & _)%hex2_checks. unfold hex2 in *.
  change (hex_decode (String ?a (String ?c EmptyString) +:+ s)) with (hex_decode (String a (String c s))).
  cbn [hex_decode] in *.
  destruct (hex_value (hex_digit (b / 16))), (hex_value (hex_digit (b mod 16))); try discriminate H.
  by injection H as ->.
Qed.

Lemma all_chars_app p s t : all_chars p (s +:+ t) = all_chars p s && all_chars p t.
Proof.
  induction s as [|c s IH]; [done|]. change (String c s +:+ t) with (String c (s +:+ t)). cbn [all_chars].
  by rewrite IH, andb_assoc.
Qed.

Lemma toLowerCase_app s t : toLowerCase (s +:+ t) = toLowerCase s +:+ toLowerCase t.
Proof.
  induction s as [|c s IH]; [done|]. change (String c s +:+ t) with (String c (s +:+ t)). cbn [toLowerCase].
  by rewrite IH.
Qed.

Abbreviation octets := (Forall (fun x => is_byte x = true)).

Lemma hex_round b : octets b -> hex_decode (hex_encode b) = b.
Proof. induction 1 as [|x l Hx _ IH]; [done|]. cbn [hex_encode]. rewrite hex_decode_hex2 by done. by f_equal. Qed.

Lemma hex_encode_hex b : octets b -> all_chars is_hex_char (hex_encode b) = true.
Proof.
  induction 1 as [|x l Hx _ IH]; [done|]. cbn [hex_encode]. rewrite all_chars_app, IH.
  by destruct (hex2_checks x Hx) as (_ & -> & _).
Qed.

Lemma hex_encode_lower b : octets b -> toLowerCase (hex_encode b) = hex_encode b.
Proof.
  induction 1 as [|x l Hx _ IH]; [done|]. cbn [hex_encode]. rewrite toLowerCase_app, IH.
  by destruct (hex2_checks x Hx) as (_ & _ & ->).
Qed.

Lemma hex_encode_length b : String.length (hex_encode b) = (2 * length b)%nat.
Proof. induction b as [|x l IH]; [done|]. cbn [hex_encode]. rewrite length_string_app, IH. cbn. lia. Qed.

(** An [x] is not a hex digit. *)
Lemma hex_encode_no_prefix b s : octets b -> hex_encode b <> "0x" +:+ s.
Proof. intros H%hex_encode_hex E. rewrite E in H. discriminate H. Qed.

Lemma Number_of_exact n : Z.abs n <= 2 ^ 53 -> Number_of n = n.
Proof.
  intros Hn. unfold Number_of. destruct (Z.leb_spec (Z.log2 (Z.abs n) - 52) 0) as [_|Hk]; [done|].
  assert (Z.abs n = 2 ^ 53) as E.
  { destruct (Z.eq_dec (Z.abs n) 0) as [E0|]; [rewrite E0 in Hk; cbn in Hk; lia|].
    pose proof (Z.log2_spec (Z.abs n) ltac:(lia)) as [Hlo _].
    assert (2 ^ 53 <= 2 ^ Z.log2 (Z.abs n)) by (apply Z.pow_le_mono_r; lia). lia. }
  assert (n = 2 ^ 53 \/ n = - 2 ^ 53) as [-> | ->] by lia; by vm_compute.
Qed.

Lemma decode_native_unknown ts d :
  decode_native ts d = Unknown <->
  forall rest, ts <> JString "created" :: rest /\ ts <> JString "claimed" :: rest /\ ts <> JString "refunded" :: rest.
Proof.
  unfold decode_native. split.
  - intros H rest. split_and!; intros ->; cbn in H; destruct d; try done; revert H;
      unfold decode_created, decode_claimed, decode_refunded, field; repeat case_match; done.
  - intros H. destruct ts as [|[kind| | | | |] ts]; try done. destruct (H ts) as (H1 & H2 & H3).
    destruct (String.eqb_spec kind "created") as [->|]; [done|].
    destruct (String.eqb_spec kind "claimed") as [->|]; [done|].
    by destruct (String.eqb_spec kind "refunded") as [->|].
Qed.

Lemma substring_whole s : String.substring 0 (String.length s) s = s.
Proof. induction s as [|c s IH]; cbn; [done|]. by rewrite IH. Qed.

Lemma toHex_hex_encode b :
  octets b -> toHex (inr ("0x" +:+ hex_encode b)) = Ok (hex_encode b).
Proof.
  intros Hb. assert (strip_0x ("0x" +:+ hex_encode b) = hex_encode b) as E.
  { unfold strip_0x, startsWith. rewrite prefix_app. cbn [orb].
    rewrite length_string_app. cbn [String.length Nat.add Nat.sub]. rewrite Nat.sub_0_r.
    change (String.substring 0 (String.length (hex_encode b)) (hex_encode b) = hex_encode b).
    apply substring_whole. }
  unfold toHex. rewrite E, hex_encode_hex, hex_encode_lower by done.
  by rewrite hex_encode_length, Nat.even_mul.
Qed.

(** The decoder accepts exactly the wire format of the three lifecycle
    events: it answers an event iff the XDR values convert and have the topics
    and the data of that event, it ignores an event iff the first topic is not
    one of the three names, and everything else is reported as malformed.  The
    hashlock and the preimage of an accepted event are the lower-case
    hexadecimal form, without prefix, of the bytes on the wire, which can be
    read back; the timelock is exact up to 2^53. *)
Lemma decoder_accepts_wire_format {S : StellarSdk} (topics : list ScVal) (data : ScVal) :
  (forall e, decodeHtlcEvent topics data = Decoded e <->
     exists ts d, native_topics topics = Ok ts /\ scValToNative data = Ok d /\ wire ts d e) /\
  (decodeHtlcEvent topics data = Unknown <->
     exists ts d, native_topics topics = Ok ts /\ scValToNative data = Ok d /\
       forall rest, ts <> JString "created" :: rest /\ ts <> JString "claimed" :: rest /\
                    ts <> JString "refunded" :: rest) /\
  (forall b, octets b ->
     hex_decode (hex_encode b) = b /\ String.length (hex_encode b) = (2 * length b)%nat /\
     toHex (inr ("0x" +:+ hex_encode b)) = Ok (hex_encode b)) /\
  (forall n, Z.abs n <= 2 ^ 53 -> Number_of n = n).
Proof.
  split_and!.
  - intros e. unfold decodeHtlcEvent. destruct (native_topics topics) as [ts|m]; [|naive_solver].
    destruct (scValToNative data) as [d|m]; [|naive_solver]. rewrite decode_native_wire. naive_solver.
  - unfold decodeHtlcEvent. destruct (native_topics topics) as [ts|m]; [|naive_solver].
    destruct (scValToNative data) as [d|m]; [|naive_solver]. rewrite decode_native_unknown.
    split; [by exists ts, d|]. intros (? & ? & ? & ? & ?). by simplify_eq.
  - intros b Hb. split_and!; [by apply hex_round|apply hex_encode_length|by apply toHex_hex_encode].
  - apply Number_of_exact.
Qed.
