(* ===== verification/SorobanListener.v ===== *)
(** * The Soroban listener (coordinator/src/listeners/soroban-listener.ts).

    The poll loop with its guards, the bounded replay that recovers a missed
    range, the durable checkpoint and the dispatch of an event to the order
    service.  The RPC server is a function of the requests made so far, the
    current one last; [None] is a call that fails.  It also says when [stop]
    has been called, which can happen during any request.

    A ledger number comes from the RPC unchecked: [None] stands for [NaN] (or
    a missing number), which compares false with everything and which
    [Math.max] propagates.  Metrics and log lines are left out. *)

From Stdlib Require Import QArith_base.
From S2P Require Import Prelude OrderMachine TransactionContract OrderRow OrdersRepo OrdersRepoFacts.
From S2P Require Import OrdersRepoSpec HistoryCache Notifications OrderService OrderServiceFacts.
From S2P Require Import OrderServiceSpec Codec SecretCipher LedgerCursor Reconciler Listeners SorobanEvents.

Import Service.

(** ** Numbers that may be [NaN] *)

Abbreviation JsNum := (option Z).

Definition num_lt (a b : JsNum) : bool :=
  match a, b with Some x, Some y => x <? y | _, _ => false end.
Definition num_max (a b : JsNum) : JsNum :=
  match a, b with Some x, Some y => Some (Z.max x y) | _, _ => None end.
Definition num_add (a : JsNum) (n : Z) : JsNum := (fun x => x + n) <$> a.

(** ** Constants *)

Definition MAX_LEDGER_GAP : Z := 100.
Definition STALENESS_DEGRADED_THRESHOLD_MS : Z := 120000.
Definition STALENESS_STALE_THRESHOLD_MS : Z := 300000.
Definition MAX_REPLAY_LEDGERS : Z := 34560.
Definition REPLAY_PAGE_LIMIT : Z := 200.

Section Listener.
Context {S : StellarSdk} (cfg : Config).

(** ** Events, requests and the server *)

Record SorobanRpcEvent : Type := mkSorobanRpcEvent {
  ev_id : option string;
  ev_ledger : JsNum;
  ev_txHash : string;
  ev_topic : list ScVal;
  ev_value : ScVal;
  ev_eventIndex : option Z
}.

Record EventsPage : Type := mkEventsPage { ep_events : list SorobanRpcEvent; ep_cursor : option string }.

Inductive Request : Type :=
| QLatestLedger
| QEvents (startLedger : option JsNum) (cursor : option string) (limit : Z).

Record Server : Type := mkServer {
  latest_ledger : list Request -> option Z;
  events_page : list Request -> option EventsPage;
  stop_called : list Request -> bool
}.

(** ** State *)

Record LState : Type := mkLState {
  l_svc : State;
  l_cursor : option string;
  l_stopped : bool;
  l_started : bool;
  l_last : JsNum;                  (** [lastProcessedLedger] *)
  l_contract : option string;
  l_keys : list string;            (** [processedEventKeys] *)
  l_pollAt : Z;                    (** [lastPollTimestampMs] *)
  l_eventAt : Z;                   (** [lastEventTimestampMs] *)
  l_requests : list Request
}.

Abbreviation LM := (ST LState JsError).

Definition new_listener (s : State) : LState := mkLState s None false false (Some 0) None [] 0 0 [].

Definition with_l_svc (s : State) (st : LState) : LState :=
  mkLState s (l_cursor st) (l_stopped st) (l_started st) (l_last st) (l_contract st) (l_keys st) (l_pollAt st)
    (l_eventAt st) (l_requests st).
Definition with_cursor (c : option string) (st : LState) : LState :=
  mkLState (l_svc st) c (l_stopped st) (l_started st) (l_last st) (l_contract st) (l_keys st) (l_pollAt st)
    (l_eventAt st) (l_requests st).
Definition with_last (n : JsNum) (st : LState) : LState :=
  mkLState (l_svc st) (l_cursor st) (l_stopped st) (l_started st) n (l_contract st) (l_keys st) (l_pollAt st)
    (l_eventAt st) (l_requests st).
Definition with_keys (k : list string) (st : LState) : LState :=
  mkLState (l_svc st) (l_cursor st) (l_stopped st) (l_started st) (l_last st) (l_contract st) k (l_pollAt st)
    (l_eventAt st) (l_requests st).
Definition with_pollAt (t : Z) (st : LState) : LState :=
  mkLState (l_svc st) (l_cursor st) (l_stopped st) (l_started st) (l_last st) (l_contract st) (l_keys st) t
    (l_eventAt st) (l_requests st).
Definition with_eventAt (t : Z) (st : LState) : LState :=
  mkLState (l_svc st) (l_cursor st) (l_stopped st) (l_started st) (l_last st) (l_contract st) (l_keys st)
    (l_pollAt st) t (l_requests st).
Definition with_started (c : string) (st : LState) : LState :=
  mkLState (l_svc st) (l_cursor st) (l_stopped st) true (l_last st) (Some c) (l_keys st) (l_pollAt st)
    (l_eventAt st) (l_requests st).
Definition with_request (stopped : bool) (q : Request) (st : LState) : LState :=
  mkLState (l_svc st) (l_cursor st) stopped (l_started st) (l_last st) (l_contract st) (l_keys st) (l_pollAt st)
    (l_eventAt st) (l_requests st ++ [q]).

Definition service {A} (m : Svc A) : LM A := zoom l_svc with_l_svc m.

(** ** Health *)

Inductive Staleness : Type := connected | degraded | stale | inactive.

Record StalenessInfo : Type := mkStalenessInfo {
  si_state : Staleness;
  si_lastPollAgeSeconds : Q;
  si_lastEventAgeSeconds : Q;
  si_lastProcessedLedger : JsNum
}.

Definition getStalenessInfo (now : Z) (st : LState) : StalenessInfo :=
  if l_pollAt st =? 0 then mkStalenessInfo inactive (-1 # 1) (-1 # 1) (Some 0)
  else
    let pollAgeMs := now - l_pollAt st in
    mkStalenessInfo
      (if STALENESS_STALE_THRESHOLD_MS <=? pollAgeMs then stale
       else if STALENESS_DEGRADED_THRESHOLD_MS <=? pollAgeMs then degraded
       else connected)
      (pollAgeMs # 1000)
      (if 0 <? l_eventAt st then (now - l_eventAt st) # 1000 else (-1 # 1))
      (l_last st).

(** ** Deduplication *)

Definition getEventDiscriminator (ev : SorobanRpcEvent) : string :=
  match truthy_opt (ev_id ev) with
  | Some i => i
  | None =>
      match ev_eventIndex ev with
      | Some i => "idx:" +:+ pretty i
      | None => match xdr_digest (ev_value ev) with Some h => "val:" +:+ h | None => "" end
      end
  end.

Definition dedupKey (kind txHash discriminator : string) : string :=
  if truthy_string discriminator then kind +:+ ":" +:+ txHash +:+ ":" +:+ discriminator
  else kind +:+ ":" +:+ txHash.

Definition isDuplicate (key : string) (st : LState) : bool := is_processed key (l_keys st).

Definition markProcessed (key : string) : LM unit := modify (fun st => with_keys (mark_processed key (l_keys st)) st).

(** ** Dispatch of one event *)

(** The tail of every successful branch: the service call, then the event is
    marked and counted. *)
Definition apply_event (now : Z) (key : string) (m : Svc unit) : LM bool :=
  _ ← service m;
  _ ← markProcessed key;
  _ ← modify (with_eventAt now);
  mret true.

(** The order of a claim or a refund: by its on-chain id, else by hashlock. *)
Definition find_order (orderId : Z) (lock : string) : LM (option OrderRow) :=
  order ← service (Service.findBySrcOrderId stellar (pretty orderId));
  match order with
  | Some o => mret (Some o)
  | None => service (Service.findByHashlock ("0x" +:+ lock))
  end.

Definition on_created (now : Z) (path : WorkflowPath) (ledger : Z) (txHash key : string) (orderId : Z) (lock : string)
    (timelock : Z) : LM bool :=
  found ← service (Service.findByHashlock ("0x" +:+ lock));
  match found with
  | None => mret false
  | Some order =>
      if negb (decideDispatch path (Some ledger) (o_srcLockBlock order)
                 (negb (bool_decide (o_srcOrderId order = None)))).1 then mret false
      else apply_event now key (Service.recordSrcLock cfg now
             (mkLockInput (o_publicId order) (pretty orderId) txHash ledger timelock None (Some "soroban_listener")))
  end.

Definition on_claimed (now : Z) (path : WorkflowPath) (ledger : Z) (txHash key : string) (orderId : Z)
    (lock pre : string) : LM bool :=
  found ← find_order orderId lock;
  match found with
  | None => mret false
  | Some order =>
      if negb (decideDispatch path (Some ledger) None (negb (bool_decide (o_preimage order = None)))).1
      then mret false
      else apply_event now key (Service.recordSecret cfg now (o_publicId order) pre txHash None
             (Some "soroban_listener"))
  end.

Definition on_refunded (now : Z) (path : WorkflowPath) (ledger : Z) (key : string) (orderId : Z) (lock : string) : LM bool :=
  found ← find_order orderId lock;
  match found with
  | None => mret false
  | Some order =>
      if negb (decideDispatch path (Some ledger) (o_srcLockBlock order) (refund_applied order)).1
      then mret false
      else apply_event now key (Service.markStatus cfg now (o_publicId order) refunded "system")
  end.

Definition dispatch (now : Z) (path : WorkflowPath) (ledger : Z) (txHash key : string) (e : DecodedHtlcEvent)
    : LM bool :=
  match e with
  | CreatedEvent orderId lock timelock _ _ _ _ => on_created now path ledger txHash key orderId lock timelock
  | ClaimedEvent orderId lock pre _ => on_claimed now path ledger txHash key orderId lock pre
  | RefundedEvent orderId lock _ => on_refunded now path ledger key orderId lock
  end.

Definition valid_ledger (n : JsNum) : option Z :=
  match n with
  | Some x => if isSafeInteger x && (0 <=? x) then Some x else None
  | None => None
  end.

Definition processSorobanEvent (now : Z) (ev : SorobanRpcEvent) (path : WorkflowPath) : LM bool :=
  match valid_ledger (ev_ledger ev) with
  | None => mret false
  | Some ledger =>
      match decodeHtlcEvent (ev_topic ev) (ev_value ev) with
      | Malformed _ | Unknown => mret false
      | Decoded e =>
          let key := dedupKey (event_kind e) (ev_txHash ev) (getEventDiscriminator ev) in
          dup ← gets (isDuplicate key);
          if dup : bool then mret false
          else try_catch (dispatch now path ledger (ev_txHash ev) key e) (fun _ => mret false)
      end
  end.

(** ** Checkpoints *)

(** A [NaN] is bound as NULL, which the NOT NULL column refuses. *)
Definition not_null_error : JsError := PlainError None "NOT NULL constraint failed: soroban_checkpoints.last_safe_ledger".

Definition persistCheckpoint (now : Z) (marker : SorobanRecoveryMarker) : LM unit :=
  st ← gets (fun st => st);
  match l_contract st with
  | None => mret tt
  | Some contract =>
      try_catch
        (match l_last st with
         | Some ledger => service (Service.saveSorobanCheckpoint now contract ledger (l_cursor st) marker)
         | None => throw not_null_error
         end)
        (fun _ => mret tt)
  end.

(** ** The server's answers *)

Context (srv : Server).

Definition request {A} (q : Request) (answer : list Request -> option A) : LM (option A) := fun st =>
  let qs := l_requests st ++ [q] in
  (Ok (answer qs), with_request (l_stopped st || stop_called srv qs) q st).

Definition answered {A} (o : option A) : LM A := match o with Some a => mret a | None => throw rpc_error end.

Definition getLatestLedger : LM Z := a ← request QLatestLedger (latest_ledger srv); answered a.

(** ** Bounded replay *)

Definition replay_event (now : Z) (ev : SorobanRpcEvent) : LM unit :=
  _ ← processSorobanEvent now ev recovery;
  modify (fun st => with_last (num_max (l_last st) (ev_ledger ev)) st).

Definition adopt_cursor (c : option string) : LM unit :=
  match truthy_opt c with Some k => modify (with_cursor (Some k)) | None => mret tt end.

(** The page loop.  [fuel] is the number of calls that the server answers in one
    replay before it becomes unreachable: every behaviour but full pages without
    end is covered by some number. *)
Fixpoint replay_pages (fuel : nat) (now : Z) (startLedger : option JsNum) (pageCursor : option string) : LM unit :=
  match fuel with
  | O => throw rpc_error
  | Datatypes.S n =>
      a ← request (QEvents (match truthy_opt pageCursor with Some _ => None | None => startLedger end) pageCursor
                     REPLAY_PAGE_LIMIT) (events_page srv);
      page ← answered a;
      _ ← for_each (replay_event now) (ep_events page);
      _ ← adopt_cursor (ep_cursor page);
      if Z.of_nat (length (ep_events page)) <? REPLAY_PAGE_LIMIT then mret tt
      else
        stopped ← gets l_stopped;
        match truthy_opt (ep_cursor page), stopped with
        | Some c, false => replay_pages n now None (Some c)
        | _, _ => mret tt
        end
  end.

(** [runBoundedReplay]; its callers ignore the count it returns. *)
Definition bounded_from (fromLedger : JsNum) (tip : Z) : JsNum :=
  num_max (num_max (Some 0) fromLedger) (Some (tip - MAX_REPLAY_LEDGERS)).

Definition runBoundedReplay (fuel : nat) (now : Z) (fromLedger : JsNum) : LM unit :=
  try_catch
    (_ ← persistCheckpoint now recovering;
     tip ← getLatestLedger;
     _ ← replay_pages fuel now (Some (bounded_from fromLedger tip)) None;
     _ ← modify (fun st => with_last (num_max (l_last st) (Some tip)) st);
     persistCheckpoint now clean)
    (fun _ => mret tt).

(** ** The poll loop *)

(** The events of a live page; true when a ledger gap was met. *)
Fixpoint live_events (now : Z) (evs : list SorobanRpcEvent) : LM bool :=
  match evs with
  | [] => mret false
  | ev :: evs' =>
      last ← gets l_last;
      if num_lt (ev_ledger ev) last then live_events now evs'
      else if num_lt (Some 0) last && num_lt (num_add last MAX_LEDGER_GAP) (ev_ledger ev) then
        _ ← modify (with_cursor None); mret true
      else
        _ ← modify (fun st => with_last (num_max (l_last st) (ev_ledger ev)) st);
        _ ← processSorobanEvent now ev live;
        live_events now evs'
  end.

(** Flag the checkpoint, then replay from the last safe ledger. *)
Definition recover (fuel : nat) (now : Z) (contract : string) : LM unit :=
  _ ← try_catch (_ ← service (Service.markSorobanRecovery now contract pending_replay); mret tt) (fun _ => mret tt);
  last ← gets l_last;
  runBoundedReplay fuel now last.

(** One iteration of the loop. *)
Definition poll (fuel : nat) (now : Z) (contract : string) : LM unit :=
  try_catch
    (latest ← getLatestLedger;
     cursor ← gets l_cursor;
     a ← request (QEvents (match cursor with None => Some (Some (latest - 1)) | Some _ => None end) cursor 100)
           (events_page srv);
     match a with
     | None => _ ← modify (with_cursor None); recover fuel now contract
     | Some page =>
         gap ← live_events now (ep_events page);
         _ ← modify (with_pollAt now);
         if gap : bool then recover fuel now contract
         else
           _ ← adopt_cursor (ep_cursor page);
           persistCheckpoint now clean
     end)
    (fun _ => mret tt).

(** The loop, as far as the given times of its iterations. *)
Fixpoint loop (fuel : nat) (times : list Z) (contract : string) : LM unit :=
  match times with
  | [] => mret tt
  | now :: times' =>
      stopped ← gets l_stopped;
      if stopped : bool then mret tt
      else _ ← poll fuel now contract; loop fuel times' contract
  end.

Definition bootstrap (fuel : nat) (now : Z) (contract : string) : LM unit :=
  cp ← service (Service.getSorobanCheckpoint contract);
  match cp with
  | None => mret tt
  | Some cp =>
      _ ← modify (with_last (Some (lastSafeLedger cp)));
      if negb (bool_decide (recoveryMarker cp = clean)) then
        _ ← modify (with_cursor None);
        runBoundedReplay fuel now (Some (lastSafeLedger cp))
      else
        match truthy_opt (effectiveCursor cp) with
        | Some c => modify (with_cursor (Some c))
        | None =>
            if 0 <? lastSafeLedger cp then runBoundedReplay fuel now (Some (lastSafeLedger cp)) else mret tt
        end
  end.

Definition bootstrapAndLoop (fuel : nat) (now : Z) (times : list Z) (contract : string) : LM unit :=
  _ ← try_catch (bootstrap fuel now contract) (fun _ => modify (with_cursor None));
  loop fuel times contract.

(** [htlcContract] is the configured contract, if any. *)
Definition start (htlcContract : option string) (fuel : nat) (now : Z) (times : list Z) : LM unit :=
  started ← gets l_started;
  if started : bool then mret tt
  else match truthy_opt htlcContract with
       | None => mret tt
       | Some contract => _ ← modify (with_started contract); bootstrapAndLoop fuel now times contract
       end.
End Listener.

(** ** Steps of the listener *)

(** [NaN] is above everything, and stays. *)
Definition num_le (a b : JsNum) : Prop :=
  match a, b with
  | _, None => True
  | Some x, Some y => x <= y
  | None, Some _ => False
  end.

#[export] Instance num_le_preorder : PreOrder num_le.
Proof. split; [intros [x|]; cbn; done || lia|]. intros [x|] [y|] [z|]; cbn; done || lia. Qed.

Lemma num_max_l a b : num_le a (num_max a b).
Proof. destruct a, b; cbn; done || lia. Qed.

Section Steps.
Context {S : StellarSdk} (cfg : Config).

Record lstep (st st' : LState) : Prop := mk_lstep {
  ls_follows : follows l_svc cfg st st';
  ls_keys : cache_ok (l_keys st) -> cache_ok (l_keys st');
  ls_last : num_le (l_last st) (l_last st');
  ls_requests : l_requests st `prefix_of` l_requests st';
  ls_stopped : l_stopped st = true -> l_stopped st' = true;
  ls_contract : l_contract st' = l_contract st
}.

#[export] Instance lstep_preorder : PreOrder lstep.
Proof.
  split.
  - intros st. by split.
  - intros st1 st2 st3 [] []. split; [by etrans|by auto|by etrans|by etrans|by auto|congruence].
Qed.

Lemma service_step {A} (m : Svc A) now c :
  listener_call c -> (forall s, (m s).2 = run1 cfg now c s) -> respects lstep (service m).
Proof.
  intros Hc Hm st. unfold service, zoom. specialize (Hm (l_svc st)). destruct (m (l_svc st)) as [o s]. cbn in *.
  split; [by apply (follows_call _ _ now c)|done..].
Qed.

Lemma service_read {A} (m : Svc A) : (forall s, (m s).2 = s) -> respects lstep (service m).
Proof.
  intros Hm st. unfold service, zoom. specialize (Hm (l_svc st)). destruct (m (l_svc st)) as [o s]. cbn in *.
  split; [by apply follows_same|done..].
Qed.

Lemma srcLock_step now i : respects lstep (service (Service.recordSrcLock cfg now i)).
Proof. by apply (service_step _ now (CSrcLock i)). Qed.
Lemma secret_step now p pre t e a : respects lstep (service (Service.recordSecret cfg now p pre t e a)).
Proof. by apply (service_step _ now (CSecret p pre t e a)). Qed.
Lemma refund_step now p a : respects lstep (service (Service.markStatus cfg now p refunded a)).
Proof. by apply (service_step _ now (CMark p refunded a)). Qed.
Lemma save_step now c l cur m : respects lstep (service (Service.saveSorobanCheckpoint now c l cur m)).
Proof. by apply (service_step _ now (CSaveCheckpoint c l cur m)). Qed.
Lemma recovery_step now c m : respects lstep (service (Service.markSorobanRecovery now c m)).
Proof. by apply (service_step _ now (CMarkRecovery c m)). Qed.
Lemma hashlock_step h : respects lstep (service (Service.findByHashlock h)).
Proof. apply service_read. intros s. by apply repo_query. Qed.
Lemma srcOrder_step c i : respects lstep (service (Service.findBySrcOrderId c i)).
Proof. apply service_read. intros s. by apply repo_query. Qed.
Lemma checkpoint_step c : respects lstep (service (Service.getSorobanCheckpoint c)).
Proof. apply service_read. intros s. by apply repo_query. Qed.

(** Updates of the listener's own fields. *)
Lemma own_step (f : LState -> LState) :
  (forall st, l_svc (f st) = l_svc st /\ (cache_ok (l_keys st) -> cache_ok (l_keys (f st))) /\
     num_le (l_last st) (l_last (f st)) /\ l_requests (f st) = l_requests st /\
     l_stopped (f st) = l_stopped st /\ l_contract (f st) = l_contract st) ->
  respects (E := JsError) lstep (modify f).
Proof.
  intros Hf st. destruct (Hf st) as (? & ? & ? & Hr & Hs & Hc). cbn.
  split; [by apply follows_same|done|done|by rewrite Hr|by rewrite Hs|done].
Qed.

Lemma mark_step k : respects lstep (markProcessed k).
Proof. apply own_step. intros st. split_and!; [done|apply mark_cache_ok|reflexivity|done..]. Qed.
Lemma cursor_step c : respects (E := JsError) lstep (modify (with_cursor c)).
Proof. apply own_step. intros st. by split_and!. Qed.
Lemma pollAt_step t : respects (E := JsError) lstep (modify (with_pollAt t)).
Proof. apply own_step. intros st. by split_and!. Qed.
Lemma eventAt_step t : respects (E := JsError) lstep (modify (with_eventAt t)).
Proof. apply own_step. intros st. by split_and!. Qed.
Lemma last_step n : respects (E := JsError) lstep (modify (fun st => with_last (num_max (l_last st) n) st)).
Proof. apply own_step. intros st. split_and!; [done|done|apply num_max_l|done..]. Qed.

Lemma request_step srv {A} q (answer : list Request -> option A) : respects lstep (request srv q answer).
Proof.
  intros st. cbn. split; [by apply follows_same|done|reflexivity|by exists [q]| |done].
  cbn. by intros ->.
Qed.

#[local] Hint Resolve srcLock_step secret_step refund_step save_step recovery_step hashlock_step srcOrder_step
  checkpoint_step mark_step cursor_step pollAt_step eventAt_step last_step request_step : respects.

Lemma process_step now ev path : respects lstep (processSorobanEvent cfg now ev path).
Proof. unfold processSorobanEvent, dispatch, on_created, on_claimed, on_refunded, find_order, apply_event. respects_solve. Qed.

Lemma persist_step now marker : respects lstep (persistCheckpoint now marker).
Proof. unfold persistCheckpoint. respects_solve. Qed.

#[local] Hint Resolve process_step persist_step : respects.

Lemma replay_event_step now ev : respects lstep (replay_event cfg now ev).
Proof. unfold replay_event. respects_solve. Qed.

#[local] Hint Resolve replay_event_step : respects.

Context (srv : Server).

Lemma latest_step : respects lstep (getLatestLedger srv).
Proof. unfold getLatestLedger, answered. respects_solve. Qed.

#[local] Hint Resolve latest_step : respects.

Lemma replay_pages_step fuel now start cur : respects lstep (replay_pages cfg srv fuel now start cur).
Proof. revert start cur. induction fuel; intros start cur; cbn [replay_pages]; unfold answered, adopt_cursor; respects_solve. Qed.

#[local] Hint Resolve replay_pages_step : respects.

Lemma replay_step fuel now n : respects lstep (runBoundedReplay cfg srv fuel now n).
Proof. unfold runBoundedReplay. respects_solve. Qed.

#[local] Hint Resolve replay_step : respects.

Lemma live_events_step now evs : respects lstep (live_events cfg now evs).
Proof. induction evs as [|ev evs IH]; cbn [live_events]; respects_solve. Qed.

Lemma recover_step fuel now c : respects lstep (recover cfg srv fuel now c).
Proof. unfold recover. respects_solve. Qed.

#[local] Hint Resolve live_events_step recover_step : respects.

Lemma poll_step fuel now c : respects lstep (poll cfg srv fuel now c).
Proof. unfold poll, adopt_cursor. respects_solve. Qed.

#[local] Hint Resolve poll_step : respects.

Lemma loop_step fuel times c : respects lstep (loop cfg srv fuel times c).
Proof. induction times; cbn [loop]; respects_solve. Qed.

(** The loop only logs its errors. *)
Lemma loop_ok fuel times c : ok_always (loop cfg srv fuel times c).
Proof.
  induction times as [|now times IH]; cbn [loop]; [done|]. apply ok_bind; [done|]. intros [|]; [done|].
  apply ok_bind; [by apply ok_try|]. by intros _.
Qed.

(** *** Starting up, where the position is read back *)

Definition lweak (st st' : LState) : Prop :=
  follows l_svc cfg st st' /\ (cache_ok (l_keys st) -> cache_ok (l_keys st')).

#[export] Instance lweak_preorder : PreOrder lweak.
Proof.
  split; [by intros st|]. intros st1 st2 st3 [] []. split; [by etrans|by auto].
Qed.

Lemma weak {A} (m : ST LState JsError A) : respects lstep m -> respects lweak m.
Proof. intros Hm st. destruct (Hm st). by split. Qed.

Lemma weak_own (f : LState -> LState) :
  (forall st, l_svc (f st) = l_svc st /\ l_keys (f st) = l_keys st) -> respects (E := JsError) lweak (modify f).
Proof. intros Hf st. destruct (Hf st) as [Es Ek]. split; [by apply follows_same|]. cbn. by rewrite Ek. Qed.

Lemma bootstrap_weak fuel now c : respects lweak (bootstrap cfg srv fuel now c).
Proof.
  unfold bootstrap. apply respects_bind; [apply _|apply weak, checkpoint_step|]. intros [cp|]; [|apply weak, respects_ret; apply _].
  apply respects_bind; [apply _|by apply weak_own|]. intros _. apply weak.
  case_match; [apply respects_bind; [apply _|apply cursor_step|intros _; apply replay_step]|].
  case_match; [apply cursor_step|]. case_match; [apply replay_step|apply respects_ret; apply _].
Qed.

Lemma start_weak contract fuel now times : respects lweak (start cfg srv contract fuel now times).
Proof.
  unfold start, bootstrapAndLoop. apply respects_bind; [apply _|apply weak, respects_gets; apply _|].
  intros [|]; [apply weak, respects_ret; apply _|]. case_match; [|apply weak, respects_ret; apply _].
  apply respects_bind; [apply _|by apply weak_own|]. intros _. apply respects_bind; [apply _| |intros _; apply weak, loop_step].
  apply respects_try; [apply _|apply bootstrap_weak|]. intros _. apply weak, cursor_step.
Qed.

Lemma start_ok contract fuel now times : ok_always (start cfg srv contract fuel now times).
Proof.
  unfold start, bootstrapAndLoop. apply ok_bind; [done|]. intros [|]; [done|]. case_match; [|done].
  apply ok_bind; [done|]. intros _. apply ok_bind; [by apply ok_try|]. intros _. apply loop_ok.
Qed.
End Steps.

(** C26.  The Soroban listener is safe whatever its RPC server answers -
    failed calls, forged, repeated or reordered events, invalid ledger
    numbers, endless pages - and whenever it is stopped: starting it on a
    coordinator in a reachable state never throws; every order stays, moves
    only by lifecycle writes and holds what its status claims, and one that was
    terminal is frozen; the deduplication cache holds at most 10,000 distinct
    keys.  Each later poll keeps all of that and never moves the last processed
    ledger backwards (a [NaN] that got into it stays). *)
Theorem soroban_listener_is_safe {S : StellarSdk} (cfg : Config) (srv : Server) (cs : list (Z * Call))
    (contract : option string) (fuel : nat) (now : Z) (times : list Z) :
  Forall (fun c => marks outcome_mark c.2) cs ->
  let s := OrderServiceSpec.run cfg cs init in
  exists st', start cfg srv contract fuel now times (new_listener s) = (Ok tt, st') /\
    Forall row_ok (orders (db (l_svc st'))) /\
    (forall publicId r, row_of publicId (db s) = Some r ->
       exists r', row_of publicId (db (l_svc st')) = Some r' /\
         rtc (evolves life) r r' /\ (isTerminal (status r) = true -> frozen r r')) /\
    cache_ok (l_keys st') /\
    forall st now' c, exists st'', poll cfg srv fuel now' c st = (Ok tt, st'') /\
      follows l_svc cfg st st'' /\ (cache_ok (l_keys st) -> cache_ok (l_keys st'')) /\
      num_le (l_last st) (l_last st'').
Proof.
  intros Hcs s. pose proof (start_ok cfg srv contract fuel now times (new_listener s)) as Hok.
  destruct (start_weak cfg srv contract fuel now times (new_listener s)) as [Hf Hk].
  destruct (start cfg srv contract fuel now times (new_listener s)) as [[[]|e] st']; [|done]. exists st'.
  destruct (follows_orders l_svc cfg cs _ _ Hf Hcs eq_refl) as [Hrows Hlife].
  split_and!; [done|done|exact Hlife|apply Hk, cache_empty|].
  intros st now' c. pose proof (poll_step cfg srv fuel now' c st) as [].
  assert (ok_always (poll cfg srv fuel now' c)) as Hp by by apply ok_try. specialize (Hp st).
  destruct (poll cfg srv fuel now' c st) as [[[]|e] st'']; [|done]. by exists st''.
Qed.
