(* ===== verification/SorobanReplay.v ===== *)
(** * What the Soroban listener recovers.

    A replay against a server that is honest about the contract's log handles
    the whole missed window; a lock event is applied, once; and the cases in
    which events are lost. *)

From Stdlib Require Import Sorted.
From S2P Require Import Prelude OrderMachine TransactionContract OrderRow OrdersRepo OrdersRepoFacts.
From S2P Require Import OrdersRepoSpec HistoryCache Notifications OrderService OrderServiceFacts.
From S2P Require Import OrderServiceSpec Codec SecretCipher SecretService EventIdentity LedgerCursor Reconciler.
From S2P Require Import ReconcilerSpec ReconcilerSafety Listeners SorobanEvents SorobanListener.

Import Service.

(** ** Replay against an honest server *)

(** What an event can change, and what it cannot. *)
Definition core {S : StellarSdk} (st : LState) : State * JsNum * list string * Z :=
  (l_svc st, l_last st, l_keys st, l_eventAt st).
Definition surroundings {S : StellarSdk} (st : LState) : option string * bool * option string * list Request :=
  (l_cursor st, l_stopped st, l_contract st, l_requests st).

Section Honest.
Context {S : StellarSdk} (cfg : Config).

Lemma service_local {A} (m : Svc A) : local core (service m).
Proof.
  intros st1 st2 [=E ? ? ?]. unfold service, zoom. rewrite E. destruct (m (l_svc st2)). cbn. split; [done|].
  unfold core. cbn. congruence.
Qed.

Lemma service_keeps {A} (m : Svc A) : keeps surroundings (service m).
Proof. intros st. unfold service, zoom. by destruct (m (l_svc st)). Qed.

Lemma mark_local k : local core (markProcessed k).
Proof. apply local_modify. intros st1 st2 [=]. unfold core. cbn. congruence. Qed.
Lemma eventAt_local t : local (E := JsError) core (modify (with_eventAt t)).
Proof. apply local_modify. intros st1 st2 [=]. unfold core. cbn. congruence. Qed.
Lemma last_local n : local (E := JsError) core (modify (fun st => with_last (num_max (l_last st) n) st)).
Proof. apply local_modify. intros st1 st2 [=]. unfold core. cbn. congruence. Qed.
Lemma duplicate_local k : local (E := JsError) core (gets (isDuplicate k)).
Proof. apply local_gets. intros st1 st2 [=]. unfold isDuplicate. congruence. Qed.

#[local] Hint Resolve service_local mark_local eventAt_local last_local duplicate_local : local.
#[local] Hint Resolve service_keeps : keeps.

Lemma replay_event_local now ev : local core (replay_event cfg now ev).
Proof. unfold replay_event, processSorobanEvent, dispatch, on_created, on_claimed, on_refunded, find_order, apply_event. local_solve. Qed.

Lemma replay_event_keeps now ev : keeps surroundings (replay_event cfg now ev).
Proof.
  unfold replay_event, processSorobanEvent, dispatch, on_created, on_claimed, on_refunded, find_order, apply_event, markProcessed.
  keeps_solve; by apply keeps_modify.
Qed.

Lemma replay_event_ok now ev : ok_always (replay_event cfg now ev).
Proof.
  unfold replay_event, processSorobanEvent. apply ok_bind; [|done].
  repeat case_match; try done. apply ok_bind; [done|]. intros [|]; [done|]. by apply ok_try.
Qed.

(** The contract's events in ledger order, and the name of a position in it. *)
Context (log : list SorobanRpcEvent) (position : nat -> string).

Definition page_at (k : nat) (limit : Z) : EventsPage :=
  mkEventsPage (take (Z.to_nat limit) (drop k log)) (Some (position (Nat.min (length log) (k + Z.to_nat limit)))).

(** The number of events before ledger [n]. *)
Fixpoint before (n : Z) (l : list SorobanRpcEvent) : nat :=
  match l with
  | [] => O
  | ev :: l' => if num_lt (ev_ledger ev) (Some n) then Datatypes.S (before n l') else O
  end.

(** The server returns the events from a ledger or a position on, and the
    position after the last one it returns. *)
Record honest (srv : Server) : Prop := {
  honest_start : forall qs n limit,
    events_page srv (qs ++ [QEvents (Some (Some n)) None limit]) = Some (page_at (before n log) limit);
  honest_next : forall qs k limit,
    events_page srv (qs ++ [QEvents None (Some (position k)) limit]) = Some (page_at k limit);
  honest_position : forall k, position k <> ""
}.

Context (srv : Server) (Hsrv : honest srv) (Hrun : forall qs, stop_called srv qs = false).

Lemma pages_cover now fuel k start cursor st :
  (length log - k < fuel)%nat -> l_stopped st = false ->
  (forall qs, events_page srv (qs ++ [QEvents (match truthy_opt cursor with Some _ => None | None => start end)
                                        cursor REPLAY_PAGE_LIMIT]) = Some (page_at k REPLAY_PAGE_LIMIT)) ->
  exists st', replay_pages cfg srv fuel now start cursor st = (Ok tt, st') /\
    core st' = core (for_each (replay_event cfg now) (drop k log) st).2 /\
    l_cursor st' = Some (position (length log)) /\ l_stopped st' = false /\ l_contract st' = l_contract st.
Proof.
  revert k start cursor st. induction fuel as [|fuel IH]; intros k start cursor st Hf Hs Hq; [lia|].
  cbn [replay_pages]. set (q := QEvents _ _ _) in *.
  rewrite (bind_ok _ _ _ (Some (page_at k REPLAY_PAGE_LIMIT)) (with_request false q st))
    by (unfold request; by rewrite Hq, Hs, Hrun).
  cbn [answered]. rewrite (bind_ok _ _ _ (page_at k REPLAY_PAGE_LIMIT) _) by done.
  cbn [ep_events ep_cursor page_at]. set (pg := take _ _).
  pose proof (for_each_ok (replay_event cfg now) pg (replay_event_ok now) (with_request false q st)) as Hok.
  pose proof (local_for_each core (replay_event cfg now) pg (replay_event_local now) (with_request false q st) st eq_refl)
    as [_ Hcore].
  pose proof (keeps_for_each surroundings (replay_event cfg now) pg (replay_event_keeps now) (with_request false q st))
    as Hkeep.
  destruct (for_each (replay_event cfg now) pg (with_request false q st)) as [[[]|e] st1] eqn:E1; [|done].
  rewrite (bind_ok _ _ _ _ _ E1). cbn [snd] in Hcore, Hkeep. injection Hkeep as _ Hs1 Hc1 _.
  assert (forall n, truthy_opt (Some (position n)) = Some (position n)) as Ht.
  { intros n. cbn. unfold truthy_string. by destruct (String.eqb_spec (position n) "") as [?%(honest_position _ Hsrv)|]. }
  unfold adopt_cursor. rewrite Ht. rewrite (bind_ok _ _ _ tt _) by done. cbn beta.
  set (st2 := with_cursor _ st1). assert (core st2 = core st1) as E2 by done.
  destruct (Z.ltb_spec (Z.of_nat (length pg)) REPLAY_PAGE_LIMIT) as [Hshort|Hfull];
    unfold pg, REPLAY_PAGE_LIMIT in *; rewrite length_take, length_drop in *.
  - exists st2. rewrite take_ge in Hcore by (rewrite length_drop; lia). split_and!; [done|done| |done|done].
    cbn. do 2 f_equal. lia.
  - rewrite (bind_ok _ _ _ false st2) by (unfold gets, st2; cbn; by rewrite Hs1).
    destruct (IH (k + 200)%nat None (Some (position (k + 200)%nat)) st2) as (st' & E & Hc & Hcur & Hs' & Hct);
      [lia|done|rewrite Ht; intros qs; apply (honest_next _ Hsrv)|].
    exists st'. replace (Nat.min (length log) (k + Z.to_nat 200)) with (k + 200)%nat by lia.
    split_and!; [exact E| |done|done|by rewrite Hct].
    rewrite Hc. rewrite <- (take_drop 200 (drop k log)), for_each_app, drop_drop by apply replay_event_ok.
    apply local_for_each; [apply replay_event_local|]. by rewrite E2.
Qed.
End Honest.

(** The events of a log are numbered, in ledger order. *)
Definition in_order {S : StellarSdk} (log : list SorobanRpcEvent) : Prop :=
  exists ls, ev_ledger <$> log = Some <$> ls /\ StronglySorted Z.le ls.

Definition from_on {S : StellarSdk} (n : Z) (log : list SorobanRpcEvent) : list SorobanRpcEvent :=
  List.filter (fun ev => negb (num_lt (ev_ledger ev) (Some n))) log.

Lemma from_on_before {S : StellarSdk} n log : in_order log -> drop (before n log) log = from_on n log.
Proof.
  intros (ls & E & Hs). revert log E. induction Hs as [|x ls Hs IH Hx]; intros [|ev log] E; try discriminate E; [done|].
  cbn in E. injection E as E1 E2. cbn [before from_on List.filter]. rewrite E1. cbn [num_lt].
  destruct (Z.ltb_spec x n) as [Hlt|Hge]; cbn [negb drop]; [by apply IH|]. f_equal. clear IH E1 ev Hs.
  revert log E2. induction Hx as [|y ls Hy _ IH]; intros [|ev log] E; try discriminate E; [done|].
  cbn in E. injection E as E1 E2. cbn. rewrite E1. cbn. destruct (Z.ltb_spec y n); [lia|]. cbn. f_equal. by apply IH.
Qed.

Section Window.
Context {S : StellarSdk} (cfg : Config).

Lemma process_keeps_last now ev path : keeps l_last (processSorobanEvent cfg now ev path).
Proof.
  assert (forall A (m : Svc A), keeps l_last (service m)) as Hm.
  { intros A m st. unfold service, zoom. by destruct (m (l_svc st)). }
  unfold processSorobanEvent, dispatch, on_created, on_claimed, on_refunded, find_order, apply_event, markProcessed.
  keeps_solve; auto; by apply keeps_modify.
Qed.

Lemma replayed_last now evs st n :
  l_last st = Some n -> Forall (fun ev => is_Some (ev_ledger ev)) evs ->
  is_Some (l_last (for_each (replay_event cfg now) evs st).2).
Proof.
  intros Hn Hevs. revert st n Hn. induction Hevs as [|ev evs [x Hx] _ IH]; intros st n Hn; [by exists n|].
  cbn [for_each]. unfold mbind at 1, st_bind at 1. pose proof (replay_event_ok cfg now ev st) as Hok.
  assert (l_last (replay_event cfg now ev st).2 = Some (Z.max n x)) as Hl.
  { unfold replay_event, mbind, st_bind. pose proof (process_keeps_last now ev recovery st) as Hp.
    unfold replay_event, mbind, st_bind in Hok.
    destruct (processSorobanEvent cfg now ev recovery st) as [[b|e] st1]; [|done]. cbn in *. by rewrite Hp, Hn, Hx. }
  destruct (replay_event cfg now ev st) as [[[]|e] st1]; [|done]. by eapply IH.
Qed.

(** A checkpoint of a numbered position is written. *)
Lemma persist_eq now marker st contract n :
  l_contract st = Some contract -> l_last st = Some n ->
  persistCheckpoint now marker st =
    (Ok tt, with_l_svc (with_db (l_svc st)
       (OrdersRepo.saveSorobanCheckpoint now contract n (l_cursor st) marker (db (l_svc st))).2) st).
Proof.
  intros Hc Hn. unfold persistCheckpoint. rewrite (bind_ok _ _ _ st st) by done. rewrite Hc, Hn.
  unfold try_catch, service, zoom, Service.saveSorobanCheckpoint. by rewrite repo_eq.
Qed.
End Window.

(** C27.  A bounded replay recovers the whole window: when the server is
    honest about the contract's log and the listener is not stopped meanwhile,
    a replay from a ledger processes exactly the events from that ledger on (at
    most 34,560 ledgers back from the tip), each once, in order - the orders
    and the deduplication cache end as after handling these events one by one
    -, adopts the position after the last event, and leaves a clean checkpoint
    with that position and a safe ledger no lower than the tip.  It needs no
    more pages than there are events. *)
Theorem replay_recovers_window {S : StellarSdk} (cfg : Config) (log : list SorobanRpcEvent) (position : nat -> string)
    (srv : Server) (contract : string) (fuel : nat) (now from tip n : Z) (st : LState) :
  honest log position srv -> (forall qs, stop_called srv qs = false) -> (forall qs, latest_ledger srv qs = Some tip) ->
  in_order log -> (length log < fuel)%nat ->
  l_contract st = Some contract -> l_last st = Some n -> l_stopped st = false ->
  let window := from_on (Z.max (Z.max 0 from) (tip - MAX_REPLAY_LEDGERS)) log in
  let handled := (for_each (replay_event cfg now) window (persistCheckpoint now recovering st).2).2 in
  exists st' cp, runBoundedReplay cfg srv fuel now (Some from) st = (Ok tt, st') /\
    orders (db (l_svc st')) = orders (db (l_svc handled)) /\ l_keys st' = l_keys handled /\
    l_cursor st' = Some (position (length log)) /\
    soroban_checkpoints (db (l_svc st')) !! contract = Some cp /\ recoveryMarker cp = clean /\
    effectiveCursor cp = Some (position (length log)) /\ tip <= lastSafeLedger cp.
Proof.
  intros Hsrv Hrun Htip Hlog Hfuel Hc Hn Hs window handled.
  set (from' := Z.max _ _) in window. set (st1 := (persistCheckpoint now recovering st).2) in handled.
  assert (persistCheckpoint now recovering st = (Ok tt, st1)) as E1 by (unfold st1; by rewrite (persist_eq now recovering st contract n)).
  assert (surroundings st1 = surroundings st /\ l_last st1 = Some n) as [Hsur1 Hn1]
    by (unfold st1; by rewrite (persist_eq now recovering st contract n)).
  set (st2 := with_request false QLatestLedger st1).
  assert (getLatestLedger srv st1 = (Ok tip, st2)) as E2.
  { injection Hsur1 as _ Hs1 _ _. unfold getLatestLedger.
    rewrite (bind_ok _ _ _ (Some tip) st2); [done|]. unfold request, st2. by rewrite Htip, Hrun, Hs1, Hs. }
  destruct (pages_cover cfg log position srv Hsrv Hrun now fuel (before from' log) (Some (Some from')) None st2)
    as (st3 & E3 & Hcore & Hcur & Hs3 & Hc3); [lia|done|intros qs; apply Hsrv|].
  rewrite from_on_before in Hcore by done. fold window in Hcore.
  pose proof (local_for_each core (replay_event cfg now) window (replay_event_local cfg now) st2 st1 eq_refl) as [_ Hl].
  rewrite Hl in Hcore. fold handled in Hcore. injection Hcore as Hsvc3 Hlast3 Hkeys3 _.
  assert (is_Some (l_last st3)) as [n3 Hn3].
  { rewrite Hlast3. apply (replayed_last cfg now window st1 n Hn1). destruct Hlog as (ls & Els & _).
    apply Forall_forall. intros ev [Hin _]%list_elem_of_In%filter_In. apply list_elem_of_In in Hin.
    assert (ev_ledger ev ∈ ev_ledger <$> log) as Hin' by (apply list_elem_of_fmap; eauto).
    rewrite Els in Hin'. apply list_elem_of_fmap in Hin' as (x & -> & _). by eexists. }
  set (st4 := with_last (num_max (l_last st3) (Some tip)) st3).
  assert (l_contract st4 = Some contract) as Hc4 by (injection Hsur1 as _ _ Hc1 _; cbn; rewrite Hc3; cbn; congruence).
  assert (l_last st4 = Some (Z.max n3 tip)) as Hn4 by (cbn; by rewrite Hn3).
  eexists _, _. split.
  { unfold runBoundedReplay, try_catch. rewrite (bind_ok _ _ _ _ _ E1), (bind_ok _ _ _ _ _ E2).
    change (bounded_from (Some from) tip) with (Some from'). rewrite (bind_ok _ _ _ _ _ E3).
    rewrite (bind_ok _ _ _ tt st4) by done. by rewrite (persist_eq now clean st4 contract _ Hc4 Hn4). }
  cbn. rewrite lookup_insert_eq, Hsvc3, Hcur, Hkeys3. split_and!; try done. cbn. case_match; [case_match|]; lia.
Qed.

(** ** One lock event *)

(** A lock event is applied, exactly once: when a created event with a
    valid ledger and a known hashlock reaches the listener, live or in a
    replay, and the order waits in [announced], the order becomes [src_locked]
    with the event's order id, transaction, ledger and timelock; handling the
    same event again, on either path, changes nothing. *)
Lemma soroban_lock_applied {S : StellarSdk} (cfg : Config) (cs : list (Z * Call)) (now now' : Z)
    (path path' : WorkflowPath) (ev : SorobanRpcEvent) (ledger i t : Z) (lock sender beneficiary amount deposit : string)
    (r : OrderDbRow) (st : LState) :
  l_svc st = OrderServiceSpec.run cfg cs init ->
  valid_ledger (ev_ledger ev) = Some ledger ->
  decodeHtlcEvent (ev_topic ev) (ev_value ev) = Decoded (CreatedEvent i lock t sender beneficiary amount deposit) ->
  isDuplicate (dedupKey "created" (ev_txHash ev) (getEventDiscriminator ev)) st = false ->
  sql_get (fun r => bool_decide (hashlock r = "0x" +:+ lock)) (orders (db (l_svc st))) = Some r ->
  status r = announced -> src_order_id r = None -> src_lock_block r = None ->
  exists st' r', processSorobanEvent cfg now ev path st = (Ok true, st') /\
    row_of (public_id r) (db (l_svc st')) = Some r' /\ status r' = src_locked /\
    src_order_id r' = Some (pretty i) /\ src_lock_tx r' = Some (ev_txHash ev) /\
    src_lock_block r' = Some ledger /\ src_timelock r' = Some t /\
    processSorobanEvent cfg now' ev path' st' = (Ok false, st').
Proof.
  intros Hs Hl Hd Hk Hr Hst Hn Hb. set (key := dedupKey _ _ _) in Hk.
  assert (wf_db (db (l_svc st))) as Hwf by (rewrite Hs; apply run_wf, wf_emptyDb).
  assert (row_of (public_id r) (db (l_svc st)) = Some r) as Hrow.
  { apply sql_get_Some in Hr as [Hin _]. by apply NoDup_row_of; [apply Hwf|]. }
  destruct (srcLock_applied cfg now (mkLockInput (public_id r) (pretty i) (ev_txHash ev) ledger t None
    (Some "soroban_listener")) (l_svc st) r Hwf Hrow Hn) as (s2 & r2 & E2 & _ & Hrow2 & Hf2); [by rewrite Hst|].
  cbn in Hrow2. destruct Hf2 as (F1 & F2 & F3 & F4 & F5 & _). cbn in F1, F2, F3, F4, F5.
  set (st' := with_eventAt now (with_keys (mark_processed key (l_keys st)) (with_l_svc s2 st))).
  exists st', r2. split_and!; try done.
  - unfold processSorobanEvent. rewrite Hl, Hd. cbn [event_kind]. fold key.
    rewrite (bind_ok _ _ _ false st) by (unfold gets; by rewrite Hk). cbn beta iota. unfold try_catch, dispatch, on_created.
    rewrite (bind_ok _ _ st (Some (rowToOrder r)) st).
    2:{ unfold service, zoom, Service.findByHashlock. rewrite repo_eq. cbn. rewrite Hr. cbn. by destruct st as [[]]. }
    cbn [rowToOrder o_srcLockBlock o_srcOrderId o_publicId]. rewrite Hn, Hb.
    unfold decideDispatch. rewrite (bool_decide_true (None = None)), bool_decide_false by done. cbn [negb andb fst].
    unfold apply_event.
    rewrite (bind_ok _ _ st tt (with_l_svc s2 st)) by (unfold service, zoom; by rewrite E2). done.
  - unfold processSorobanEvent. rewrite Hl, Hd. cbn [event_kind]. fold key.
    rewrite (bind_ok _ _ _ true st'); [done|]. unfold gets, isDuplicate, is_processed. cbn.
    by rewrite bool_decide_true by apply mark_known.
Qed.

(** ** What the reconciler makes of the same event *)

(** The decoder gives hashlocks without prefix and the reconciler looks them up
    as they are, while orders are announced with 0x-prefixed hashlocks: a
    replay of a created event finds no order. *)
Lemma reconciler_misses_soroban_locks {H : Hashes} cfg now ledger txHash b i t st :
  Forall (fun x => is_byte x = true) b ->
  Forall (fun r => startsWith (hashlock r) "0x" = true) (orders (db (svc st))) ->
  sorobanBody cfg now (mkSorobanEvent ledger txHash (SorobanCreated (hex_encode b) i t)) st = (Ok 0, st).
Proof.
  intros Hb Hrows. unfold sorobanBody. cbn [sv_decoded sv_ledger]. unfold try_catch.
  assert (sql_get (fun r => bool_decide (hashlock r = hex_encode b)) (orders (db (svc st))) = None) as Hnone.
  { apply sql_get_None. eapply Forall_impl; [exact Hrows|]. intros r Hr. cbv beta in Hr |- *. apply bool_decide_false. intros E.
    rewrite E in Hr. apply prefix_inv in Hr as [s Es]. by apply (hex_encode_no_prefix b s Hb). }
  rewrite (bind_ok _ _ st None st); [done|]. rewrite orders_call_eq. unfold Service.findByHashlock. rewrite repo_eq.
  cbn. rewrite Hnone. cbn. by destruct st as [[]].
Qed.

(** ** Runs *)

(** XDR values that are their own native values. *)
Definition demo_sdk : StellarSdk := {| ScVal := JsValue; scValToNative := Ok; xdr_digest := fun _ => None |}.
#[local] Existing Instance demo_sdk.

Definition demo_lock_bytes : bytes := hex_decode (slice2 demo_hashlock).

(** The lock of the demo order, seen at a ledger. *)
Definition lock_event (ledger : JsNum) : SorobanRpcEvent :=
  @mkSorobanRpcEvent demo_sdk (Some "e1") ledger "st1"
    [JString "created"; JString "GS"; JString "GB"; JBytes demo_lock_bytes]
    (JArray [JBigInt 7; JString "native"; JBigInt 100; JBigInt 1; JBigInt 90000]) None.

(** A governance event, which the listener ignores. *)
Definition other_event (ledger : JsNum) : SorobanRpcEvent :=
  @mkSorobanRpcEvent demo_sdk None ledger "st0" [JString "config"] JOther None.

(** Positions in unary. *)
Fixpoint demo_position (n : nat) : string :=
  match n with O => "p" | Datatypes.S n' => "p" +:+ demo_position n' end.

Lemma demo_position_length n : String.length (demo_position n) = Datatypes.S n.
Proof. induction n as [|n IH]; [done|]. cbn [demo_position]. rewrite length_string_app, IH. done. Qed.

(** An honest server for a log; the answer depends on the last request. *)
Definition log_server (log : list SorobanRpcEvent) (tip : Z) (stop : list Request -> bool) : Server :=
  mkServer (fun _ => Some tip)
    (fun qs => match last qs with
               | Some (QEvents (Some (Some n)) None limit) => Some (page_at log demo_position (before n log) limit)
               | Some (QEvents None (Some c) limit) => Some (page_at log demo_position (String.length c - 1) limit)
               | _ => None
               end)
    stop.

Lemma log_server_honest log tip stop : honest log demo_position (log_server log tip stop).
Proof.
  split.
  - intros qs n limit. cbn [events_page log_server]. by rewrite last_snoc.
  - intros qs k limit. cbn [events_page log_server]. rewrite last_snoc, demo_position_length. cbn. by rewrite Nat.sub_0_r.
  - intros k E. pose proof (demo_position_length k) as Hl. by rewrite E in Hl.
Qed.

Definition announced_state : State := OrderServiceSpec.run demo_cfg announced_calls init.
Definition order_status (st : LState) : option OrderStatus := status <$> row_of demo_id (db (l_svc st)).
Definition checkpoint_of (st : LState) : option (Z * option string * SorobanRecoveryMarker) :=
  (fun cp => (lastSafeLedger cp, effectiveCursor cp, recoveryMarker cp)) <$> soroban_checkpoints (db (l_svc st)) !! "C".

Lemma soroban_listener_is_safe_witness :
  exists st', start demo_cfg (log_server [lock_event (Some 50)] 51 (fun _ => false)) (Some "C") 5 2000 [2000; 3000]
      (new_listener announced_state) = (Ok tt, st') /\
    Forall row_ok (orders (db (l_svc st'))) /\ order_status st' = Some src_locked.
Proof.
  destruct (soroban_listener_is_safe demo_cfg (log_server [lock_event (Some 50)] 51 (fun _ => false)) announced_calls
    (Some "C") 5 2000 [2000; 3000]) as (st' & E & Hrows & _); [by repeat constructor|].
  fold announced_state in E. exists st'. split_and!; [exact E|exact Hrows|].
  replace st' with (start demo_cfg (log_server [lock_event (Some 50)] 51 (fun _ => false)) (Some "C") 5 2000 [2000; 3000]
    (new_listener announced_state)).2 by (by rewrite E). by vm_compute.
Defined.

Lemma soroban_lock_applied_witness :
  exists st' r', processSorobanEvent demo_cfg 2000 (lock_event (Some 50)) live (new_listener announced_state) = (Ok true, st') /\
    row_of demo_id (db (l_svc st')) = Some r' /\ status r' = src_locked.
Proof.
  destruct (sql_get (fun r => bool_decide (hashlock r = "0x" +:+ hex_encode demo_lock_bytes))
    (orders (db announced_state))) as [r|] eqn:Hr; [|by vm_compute in Hr].
  assert (status r = announced /\ src_order_id r = None /\ src_lock_block r = None /\ public_id r = demo_id)
    as (E1 & E2 & E3 & E4) by (vm_compute in Hr; by injection Hr as <-).
  destruct (soroban_lock_applied demo_cfg announced_calls 2000 3000 live recovery (lock_event (Some 50)) 50 7 90000
    (hex_encode demo_lock_bytes) "GS" "GB" "100" "1" r (new_listener announced_state))
    as (st' & r' & A1 & A2 & A3 & _); [done..|by vm_compute|done|done|done|done|].
  exists st', r'. rewrite E4 in A2. by split_and!.
Defined.

(** A listener that resumes at ledger 10. *)
Definition resumed : LState := with_last (Some 10) (with_started "C" (new_listener announced_state)).

Lemma replay_recovers_window_witness :
  exists st', runBoundedReplay demo_cfg (log_server [other_event (Some 5); lock_event (Some 50)] 51 (fun _ => false)) 5 2000
      (Some 10) resumed = (Ok tt, st') /\
    l_cursor st' = Some (demo_position 2) /\ order_status st' = Some src_locked.
Proof.
  destruct (replay_recovers_window demo_cfg [other_event (Some 5); lock_event (Some 50)] demo_position
    (log_server [other_event (Some 5); lock_event (Some 50)] 51 (fun _ => false)) "C" 5 2000 10 51 10 resumed)
    as (st' & cp & E & _ & _ & Hc & _); try done; [apply log_server_honest| |cbn; lia|].
  - exists [5; 50]. split; [done|]. by repeat constructor.
  - exists st'. split_and!; [exact E|exact Hc|].
    replace st' with (runBoundedReplay demo_cfg (log_server [other_event (Some 5); lock_event (Some 50)] 51
      (fun _ => false)) 5 2000 (Some 10) resumed).2 by (by rewrite E). by vm_compute.
Defined.

(** ** How the listener loses events *)

(** Stopped in the middle of a replay, the listener still takes the tip for
    its safe ledger and marks the checkpoint clean.  After a restart it
    resumes at the right position, but the events there are below the safe
    ledger and are dropped as out of order: the lock at ledger 30 is never
    recorded. *)
Definition long_log : list SorobanRpcEvent := repeat (other_event (Some 20)) 200 ++ [lock_event (Some 30)].
Definition never : list Request -> bool := fun _ => false.

Definition stopped_replay : LState :=
  (runBoundedReplay demo_cfg (log_server long_log 100 (fun qs => Nat.leb 2 (length qs))) 5 2000 (Some 10) resumed).2.
Definition after_restart : LState :=
  (start demo_cfg (log_server long_log 101 never) (Some "C") 5 3000 [3000; 4000] (new_listener (l_svc stopped_replay))).2.

Example stopped_replay_skips_events :
  checkpoint_of stopped_replay = Some (100, Some (demo_position 200), clean) /\
  order_status stopped_replay = Some announced /\
  checkpoint_of after_restart = Some (100, Some (demo_position 201), clean) /\
  order_status after_restart = Some announced.
Proof. by vm_compute. Qed.

(** An event with an invalid ledger number is rejected, but only after the
    loop has moved the last processed ledger to it: later events are dropped
    as out of order, also after a restart, since the checkpoint never goes
    back.  A missing number turns the position into [NaN] and no checkpoint can
    be written any more. *)
Definition bad_log (n : JsNum) : list SorobanRpcEvent := [other_event n; lock_event (Some 50)].

(** A server that answers every request for events with the given page. *)
Definition page_server (evs : list SorobanRpcEvent) (tip : Z) : Server :=
  mkServer (fun _ => Some tip) (fun _ => Some (mkEventsPage evs (Some "p"))) never.

Definition polled (evs : list SorobanRpcEvent) : LState :=
  (start demo_cfg (page_server evs 51) (Some "C") 5 2000 [2000] (new_listener announced_state)).2.

Example bogus_ledger_blocks_listener :
  order_status (polled [lock_event (Some 50)]) = Some src_locked /\
  order_status (polled (bad_log (Some (2 ^ 60)))) = Some announced /\
  checkpoint_of (polled (bad_log (Some (2 ^ 60)))) = Some (2 ^ 60, Some "p", clean) /\
  order_status (start demo_cfg (page_server [lock_event (Some 50)] 51) (Some "C") 5 3000 [3000]
    (new_listener (l_svc (polled (bad_log (Some (2 ^ 60))))))).2 = Some announced /\
  l_last (polled (bad_log None)) = None /\ checkpoint_of (polled (bad_log None)) = None.
Proof. by vm_compute. Qed.

(** When the replay after a lost cursor fails, the next poll starts at the tip
    and writes a clean checkpoint: what lies between is never replayed. *)
Definition failing_server : Server :=
  mkServer (fun qs => if bool_decide (length qs = 3%nat) then None else Some 60)
    (fun qs => if bool_decide (length qs = 2%nat) then None else events_page (log_server [lock_event (Some 50)] 60 never) qs)
    never.

Definition recovered : LState := (loop demo_cfg failing_server 5 [2000; 3000; 4000] "C" (with_cursor (Some "gone") resumed)).2.

Example failed_replay_not_retried :
  order_status recovered = Some announced /\ checkpoint_of recovered = Some (10, Some (demo_position 1), clean).
Proof. by vm_compute. Qed.
