(* ===== verification/SupportPolicy.v ===== *)
(** * Support policy

    packages/config/src/support-policy.ts, with the placeholder detection of
    soroban-chain-config.ts and solana-placeholder.ts: what a runtime can do, as
    the intersection of what its code implements and what its configuration
    enables.  The chains, actions and asset classes are inductive types; the
    texts that clients pass in for them stay strings. *)

From S2P Require Import Prelude.

(** ** Axes *)

Inductive RuntimeKind : Type := relayer | resolver.
Inductive SupportedChain : Type := ethereum | stellar | solana.
Inductive SupportedAction : Type := observe | lock | claim | refund | settle | register.
Inductive TokenClass : Type := native | erc20 | stellar_asset | spl.
Inductive SupportLevel : Type := full | partial | observe_only | unconfigured | placeholder | unimplemented.
Inductive NetworkMode : Type := testnet | mainnet.

#[export] Instance RuntimeKind_eq_dec : EqDecision RuntimeKind. Proof. solve_decision. Defined.
#[export] Instance SupportedChain_eq_dec : EqDecision SupportedChain. Proof. solve_decision. Defined.
#[export] Instance SupportedAction_eq_dec : EqDecision SupportedAction. Proof. solve_decision. Defined.
#[export] Instance TokenClass_eq_dec : EqDecision TokenClass. Proof. solve_decision. Defined.
#[export] Instance SupportLevel_eq_dec : EqDecision SupportLevel. Proof. solve_decision. Defined.

Definition SUPPORTED_CHAINS : list SupportedChain := [ethereum; stellar; solana].
Definition SUPPORTED_ACTIONS : list SupportedAction := [observe; lock; claim; refund; settle; register].

Definition runtime_name (r : RuntimeKind) : string := match r with relayer => "relayer" | resolver => "resolver" end.
Definition chain_name (c : SupportedChain) : string :=
  match c with ethereum => "ethereum" | stellar => "stellar" | solana => "solana" end.
Definition act_name (a : SupportedAction) : string :=
  match a with
  | observe => "observe" | lock => "lock" | claim => "claim" | refund => "refund" | settle => "settle" | register => "register"
  end.
Definition class_name (t : TokenClass) : string :=
  match t with native => "native" | erc20 => "erc20" | stellar_asset => "stellar-asset" | spl => "spl" end.
Definition level_name (l : SupportLevel) : string :=
  match l with
  | full => "full" | partial => "partial" | observe_only => "observe-only"
  | unconfigured => "unconfigured" | placeholder => "placeholder" | unimplemented => "unimplemented"
  end.
Definition network_name (n : NetworkMode) : string := match n with testnet => "testnet" | mainnet => "mainnet" end.

(** [xs.includes(x)]. *)
Definition has {A} `{EqDecision A} (x : A) (xs : list A) : bool := existsb (fun y => bool_decide (y = x)) xs.

(** ** Chain names

    [CHAIN_ALIASES] is an object literal, so a name that every object inherits is
    found too: [constructor] and [__proto__] are the inherited names without upper
    case letters.  What is found then is neither a chain nor null. *)
Inductive Resolved : Type := RChain (c : SupportedChain) | RInherited (key : string) | RNull.

Definition CHAIN_ALIASES (key : string) : option SupportedChain :=
  if has key ["ethereum"; "eth"; "evm"; "sepolia"] then Some ethereum
  else if has key ["stellar"; "soroban"; "xlm"] then Some stellar
  else if has key ["solana"; "sol"; "svm"] then Some solana
  else None.

Definition normaliseChain (raw : option string) : Resolved :=
  match raw with
  | None => RNull
  | Some raw =>
      let key := toLowerCase (trim raw) in
      if negb (truthy_string key) then RNull
      else
        match CHAIN_ALIASES key with
        | Some c => RChain c
        | None => if has key ["constructor"; "__proto__"] then RInherited key else RNull
        end
  end.

Definition isSupportedChain (raw : string) : bool := has raw (chain_name <$> SUPPORTED_CHAINS).

(** ** What the code implements *)

Definition IMPLEMENTED_ACTIONS (r : RuntimeKind) (c : SupportedChain) : list SupportedAction :=
  match r, c with
  | relayer, ethereum => [observe; lock; claim; settle; refund]
  | relayer, stellar => [observe; lock; settle; refund]
  | relayer, solana => []
  | resolver, ethereum => [observe; claim; refund; register]
  | resolver, stellar => [observe; claim; refund]
  | resolver, solana => []
  end.

Definition IMPLEMENTED_TOKEN_CLASSES (r : RuntimeKind) (c : SupportedChain) : list TokenClass :=
  match r, c with
  | relayer, ethereum => [native]
  | relayer, stellar => [native]
  | relayer, solana => []
  | resolver, ethereum => [native; erc20]
  | resolver, stellar => [native; stellar_asset]
  | resolver, solana => []
  end.

(** Source and destination legs. *)
Definition ROUTE_ACTION_REQUIREMENTS (r : RuntimeKind) : list SupportedAction * list SupportedAction :=
  match r with relayer => ([lock], [settle]) | resolver => ([observe], [claim]) end.

(** ** Policies and verdicts *)

Record ChainSupport : Type := mkChainSupport {
  cs_chain : SupportedChain;
  cs_level : SupportLevel;
  cs_actions : list SupportedAction;
  cs_tokenClasses : list TokenClass;
  cs_reason : option string
}.

Record RouteSupport : Type := mkRoute {
  r_from : SupportedChain;
  r_to : SupportedChain;
  r_tokenClasses : list TokenClass
}.

Record SupportPolicy : Type := mkPolicy {
  runtime : RuntimeKind;
  network : NetworkMode;
  chains : SupportedChain -> ChainSupport;
  routes : list RouteSupport
}.

Inductive SupportDenialCode : Type :=
| CHAIN_UNKNOWN | CHAIN_UNIMPLEMENTED | CHAIN_UNCONFIGURED | CHAIN_PLACEHOLDER
| ACTION_UNSUPPORTED | TOKEN_CLASS_UNSUPPORTED | ROUTE_UNSUPPORTED | ROUTE_SAME_CHAIN.

#[export] Instance SupportDenialCode_eq_dec : EqDecision SupportDenialCode. Proof. solve_decision. Defined.

Inductive SupportVerdict : Type := SUPPORTED | deny (code : SupportDenialCode) (reason : string).

Definition supported (v : SupportVerdict) : bool := match v with SUPPORTED => true | deny _ _ => false end.

Definition levelDenialCode (l : SupportLevel) : SupportDenialCode :=
  match l with
  | unimplemented => CHAIN_UNIMPLEMENTED
  | placeholder => CHAIN_PLACEHOLDER
  | _ => CHAIN_UNCONFIGURED
  end.

(** A property of [undefined] was read, or a method of a value that has none. *)
Definition TypeError : string := "TypeError".

(** ** Queries *)

Definition expected_chains : string := join ", " (chain_name <$> SUPPORTED_CHAINS).

(** [undefined] is answered for an inherited name, [null] for an unknown one. *)
Definition getChainSupport (p : SupportPolicy) (chain : string) : option ChainSupport :=
  match normaliseChain (Some chain) with RChain c => Some (chains p c) | _ => None end.

Definition chain_verdict (p : SupportPolicy) (c : SupportedChain) : SupportVerdict :=
  let s := chains p c in
  match cs_actions s with
  | [] => deny (levelDenialCode (cs_level s))
            (default (runtime_name (runtime p) +:+ " has no capability on " +:+ chain_name c) (cs_reason s))
  | _ => SUPPORTED
  end.

(** A query by name: an inherited name finds no entry in [policy.chains]. *)
Definition by_name (chain : string) (k : SupportedChain -> SupportVerdict) : outcome string SupportVerdict :=
  match normaliseChain (Some chain) with
  | RNull => Ok (deny CHAIN_UNKNOWN (dquoted chain +:+ " is not a known chain (expected one of: " +:+ expected_chains +:+ ")"))
  | RInherited _ => Throw TypeError
  | RChain c => Ok (k c)
  end.

Definition supportsChain (p : SupportPolicy) (chain : string) : outcome string SupportVerdict := by_name chain (chain_verdict p).

Definition action_verdict (p : SupportPolicy) (a : SupportedAction) (c : SupportedChain) : SupportVerdict :=
  match chain_verdict p c with
  | deny code reason => deny code reason
  | SUPPORTED =>
      let s := chains p c in
      if has a (cs_actions s) then SUPPORTED
      else
        let detail :=
          if has a (IMPLEMENTED_ACTIONS (runtime p) c) then default "required configuration is absent" (cs_reason s)
          else "no " +:+ runtime_name (runtime p) +:+ " code path implements " +:+ dquoted (act_name a) +:+ " on " +:+ chain_name c in
        deny ACTION_UNSUPPORTED
          (runtime_name (runtime p) +:+ " cannot " +:+ dquoted (act_name a) +:+ " on " +:+ chain_name c +:+ ": " +:+ detail +:+
           " (available: " +:+ join_or "none" (act_name <$> cs_actions s) +:+ ")")
  end.

Definition supportsAction (p : SupportPolicy) (chain : string) (a : SupportedAction) : outcome string SupportVerdict :=
  by_name chain (action_verdict p a).

Definition class_verdict (p : SupportPolicy) (t : string) (c : SupportedChain) : SupportVerdict :=
  match chain_verdict p c with
  | deny code reason => deny code reason
  | SUPPORTED =>
      let s := chains p c in
      if has t (class_name <$> cs_tokenClasses s) then SUPPORTED
      else deny TOKEN_CLASS_UNSUPPORTED
             (runtime_name (runtime p) +:+ " cannot handle " +:+ dquoted t +:+ " assets on " +:+ chain_name c +:+
              " (supported: " +:+ join_or "none" (class_name <$> cs_tokenClasses s) +:+ ")")
  end.

Definition supportsTokenClass (p : SupportPolicy) (chain t : string) : outcome string SupportVerdict :=
  by_name chain (class_verdict p t).

Definition route_id (from to : SupportedChain) : string := chain_name from +:+ "→" +:+ chain_name to.

(** The first action of a leg that is refused. *)
Fixpoint leg_denied (p : SupportPolicy) (c : SupportedChain) (actions : list SupportedAction) : option (SupportDenialCode * string) :=
  match actions with
  | [] => None
  | a :: rest => match action_verdict p a c with deny code reason => Some (code, reason) | SUPPORTED => leg_denied p c rest end
  end.

Definition find_route (p : SupportPolicy) (from to : SupportedChain) : option RouteSupport :=
  List.find (fun r => bool_decide (r_from r = from) && bool_decide (r_to r = to)) (routes p).

Definition source_leg (p : SupportPolicy) (from : SupportedChain) : option (SupportDenialCode * string) :=
  leg_denied p from (ROUTE_ACTION_REQUIREMENTS (runtime p)).1.
Definition destination_leg (p : SupportPolicy) (to : SupportedChain) : option (SupportDenialCode * string) :=
  leg_denied p to (ROUTE_ACTION_REQUIREMENTS (runtime p)).2.

(** [supportsRoute] between two known chains. *)
Definition route_verdict (p : SupportPolicy) (from to : SupportedChain) (tokenClass : option string) : SupportVerdict :=
  if bool_decide (from = to) then
    deny ROUTE_SAME_CHAIN ("source and destination are both " +:+ chain_name from +:+ " — a bridge route must cross chains")
  else
    match source_leg p from with
    | Some (code, reason) => deny code ("route " +:+ route_id from to +:+ " unavailable on the source leg: " +:+ reason)
    | None =>
        match destination_leg p to with
        | Some (code, reason) => deny code ("route " +:+ route_id from to +:+ " unavailable on the destination leg: " +:+ reason)
        | None =>
            match find_route p from to with
            | None =>
                deny ROUTE_UNSUPPORTED
                  (runtime_name (runtime p) +:+ " does not declare route " +:+ route_id from to +:+ " (declared: " +:+
                   join_or "none" ((fun r => route_id (r_from r) (r_to r)) <$> routes p) +:+ ")")
            | Some r =>
                match tokenClass with
                | Some t =>
                    if has t (class_name <$> r_tokenClasses r) then SUPPORTED
                    else deny TOKEN_CLASS_UNSUPPORTED
                           ("route " +:+ route_id from to +:+ " does not accept " +:+ dquoted t +:+ " assets (accepted: " +:+
                            join_or "none" (class_name <$> r_tokenClasses r) +:+ ")")
                | None => SUPPORTED
                end
            end
        end
    end.

(** What [${from}] prints for an inherited name. *)
Definition inherited_text (key : string) : string :=
  if String.eqb key "constructor" then "function Object() { [native code] }" else "[object Object]".

Definition unknown_leg (leg : string) (name : string) : SupportVerdict :=
  deny CHAIN_UNKNOWN
    (leg +:+ " chain " +:+ dquoted name +:+ " is not a known chain (expected one of: " +:+ expected_chains +:+ ")").

(** [supportsRoute], with what it does for inherited names: the action query
    calls [trim] on something that is not a string. *)
Definition supportsRoute (p : SupportPolicy) (from to : string) (tokenClass : option string) : outcome string SupportVerdict :=
  match normaliseChain (Some from), normaliseChain (Some to) with
  | RNull, _ => Ok (unknown_leg "source" from)
  | _, RNull => Ok (unknown_leg "destination" to)
  | RChain a, RChain b => Ok (route_verdict p a b tokenClass)
  | RInherited k, RInherited k' =>
      if String.eqb k k' then
        Ok (deny ROUTE_SAME_CHAIN ("source and destination are both " +:+ inherited_text k +:+ " — a bridge route must cross chains"))
      else Throw TypeError
  | RInherited _, RChain _ => Throw TypeError
  | RChain a, RInherited k =>
      match source_leg p a with
      | Some (code, reason) => Ok (deny code ("route " +:+ chain_name a +:+ "→" +:+ inherited_text k +:+ " unavailable on the source leg: " +:+ reason))
      | None => Throw TypeError
      end
  end.

Definition isActionable (p : SupportPolicy) : bool := match routes p with [] => false | _ => true end.

(** ** Routes *)

Definition pairs : list (SupportedChain * SupportedChain) :=
  SUPPORTED_CHAINS ≫= fun from => (fun to => (from, to)) <$> SUPPORTED_CHAINS.

Definition every {A} `{EqDecision A} (needed available : list A) : bool := forallb (fun a => has a available) needed.

Definition generateRoutes (r : RuntimeKind) (cs : SupportedChain -> ChainSupport) : list RouteSupport :=
  pairs ≫= fun '(from, to) =>
    if bool_decide (from = to) then []
    else if negb (every (ROUTE_ACTION_REQUIREMENTS r).1 (cs_actions (cs from)))
         || negb (every (ROUTE_ACTION_REQUIREMENTS r).2 (cs_actions (cs to))) then []
    else match cs_tokenClasses (cs from) with
         | [] => []
         | ts => [mkRoute from to ts]
         end.

(** ** Validation *)

Inductive SupportPolicyErrorCode : Type :=
| NO_SUPPORTED_CHAIN | NO_SUPPORTED_ROUTE | ACTION_NOT_IMPLEMENTED | LEVEL_CONTRADICTS_ACTIONS
| MISSING_TOKEN_CLASS | ROUTE_CHAIN_INCAPABLE | REASON_MISSING.

#[export] Instance SupportPolicyErrorCode_eq_dec : EqDecision SupportPolicyErrorCode. Proof. solve_decision. Defined.

Inductive SupportPolicyWarningCode : Type :=
| W_OBSERVE_ONLY | W_PARTIAL | W_UNCONFIGURED | W_PLACEHOLDER | W_UNIMPLEMENTED | PARTIAL_ROUTE_COVERAGE.

Record Report (C : Type) : Type := mkReport { p_code : C; p_subject : string; p_message : string }.
Arguments mkReport {C} _ _ _.
Arguments p_code {C} _.
Arguments p_subject {C} _.
Arguments p_message {C} _.

Definition SupportPolicyError : Type := Report SupportPolicyErrorCode.
Definition SupportPolicyWarning : Type := Report SupportPolicyWarningCode.

Record SupportPolicyValidation : Type := mkValidation {
  ok : bool;
  errors : list SupportPolicyError;
  warnings : list SupportPolicyWarning
}.

Definition nonempty {A} (l : list A) : bool := match l with [] => false | _ => true end.
Definition only_if {A} (b : bool) (x : A) : list A := if b then [x] else [].

Definition unusable (l : SupportLevel) : bool := has l [unconfigured; placeholder; unimplemented].

Definition chain_errors (p : SupportPolicy) (c : SupportedChain) : list SupportPolicyError :=
  let s := chains p c in
  let implemented := IMPLEMENTED_ACTIONS (runtime p) c in
  let listed := join ", " (act_name <$> cs_actions s) in
  (cs_actions s ≫= fun a =>
     only_if (negb (has a implemented))
       (mkReport ACTION_NOT_IMPLEMENTED (chain_name c)
          (runtime_name (runtime p) +:+ " policy claims " +:+ dquoted (act_name a) +:+ " on " +:+ chain_name c +:+
           ", but no such code path is implemented (implemented: " +:+ join_or "none" (act_name <$> implemented) +:+ ")"))) ++
  only_if (unusable (cs_level s) && nonempty (cs_actions s))
    (mkReport LEVEL_CONTRADICTS_ACTIONS (chain_name c)
       (chain_name c +:+ " is marked " +:+ dquoted (level_name (cs_level s)) +:+ " but still lists actions [" +:+ listed +:+
        "] — level and actions must agree")) ++
  only_if (nonempty (cs_actions s) && negb (nonempty (cs_tokenClasses s)))
    (mkReport MISSING_TOKEN_CLASS (chain_name c)
       (chain_name c +:+ " offers actions [" +:+ listed +:+
        "] but declares no token class — there is no asset those actions could apply to")) ++
  only_if (negb (bool_decide (cs_level s = full)) && negb (truthy_string (default "" (cs_reason s))))
    (mkReport REASON_MISSING (chain_name c)
       (chain_name c +:+ " has reduced support level " +:+ dquoted (level_name (cs_level s)) +:+
        " but no reason — a limitation that cannot be explained cannot be operated")).

Definition chain_warnings (p : SupportPolicy) (c : SupportedChain) : list SupportPolicyWarning :=
  let s := chains p c in
  let warn code text absent := [mkReport code (chain_name c) (chain_name c +:+ text +:+ default absent (cs_reason s))] in
  match cs_level s with
  | observe_only => warn W_OBSERVE_ONLY " is observe-only: " "no signing capability"
  | partial =>
      warn W_PARTIAL (" is partially configured (available: " +:+ join ", " (act_name <$> cs_actions s) +:+ "): ") "some actions unavailable"
  | unconfigured => warn W_UNCONFIGURED " is unconfigured: " "required config absent"
  | placeholder => warn W_PLACEHOLDER " is a placeholder: " "placeholder config value"
  | unimplemented => warn W_UNIMPLEMENTED " is unimplemented: " "no code path"
  | full => []
  end.

Definition route_errors (p : SupportPolicy) (r : RouteSupport) : list SupportPolicyError :=
  let subject := route_id (r_from r) (r_to r) in
  let '(source, destination) := ROUTE_ACTION_REQUIREMENTS (runtime p) in
  (source ≫= fun a =>
     only_if (negb (has a (cs_actions (chains p (r_from r)))))
       (mkReport ROUTE_CHAIN_INCAPABLE subject
          ("route " +:+ subject +:+ " is declared, but source chain " +:+ chain_name (r_from r) +:+ " cannot " +:+
           dquoted (act_name a) +:+ " — the route could never complete"))) ++
  (destination ≫= fun a =>
     only_if (negb (has a (cs_actions (chains p (r_to r)))))
       (mkReport ROUTE_CHAIN_INCAPABLE subject
          ("route " +:+ subject +:+ " is declared, but destination chain " +:+ chain_name (r_to r) +:+ " cannot " +:+
           dquoted (act_name a) +:+ " — funds could be locked with no way to settle"))) ++
  only_if (negb (nonempty (r_tokenClasses r)))
    (mkReport MISSING_TOKEN_CLASS subject ("route " +:+ subject +:+ " accepts no token class, so no asset can cross it")).

Definition totalPairs : Z := 3 * (3 - 1).

Definition validateSupportPolicy (p : SupportPolicy) : SupportPolicyValidation :=
  let name := runtime_name (runtime p) in
  let '(source, destination) := ROUTE_ACTION_REQUIREMENTS (runtime p) in
  let es :=
    (SUPPORTED_CHAINS ≫= chain_errors p) ++ (routes p ≫= route_errors p) ++
    only_if (negb (existsb (fun c => nonempty (cs_actions (chains p c))) SUPPORTED_CHAINS))
      (mkReport NO_SUPPORTED_CHAIN name
         (name +:+ " has no capability on any chain — check RPC endpoints, contract addresses and signing keys")) ++
    only_if (negb (nonempty (routes p)))
      (mkReport NO_SUPPORTED_ROUTE name
         (name +:+ " cannot carry any route end to end — it would accept no work.  Required per route: source " +:+
          dquoted (join ", " (act_name <$> source)) +:+ ", destination " +:+ dquoted (join ", " (act_name <$> destination)))) in
  let n := Z.of_nat (length (routes p)) in
  let ws :=
    (SUPPORTED_CHAINS ≫= chain_warnings p) ++
    only_if ((0 <? n) && (n <? totalPairs))
      (mkReport PARTIAL_ROUTE_COVERAGE name
         (pretty n +:+ " of " +:+ pretty totalPairs +:+ " possible chain pairs are supported — unsupported pairs will be rejected at dispatch")) in
  mkValidation (negb (nonempty es)) es ws.

Definition error_code_name (c : SupportPolicyErrorCode) : string :=
  match c with
  | NO_SUPPORTED_CHAIN => "NO_SUPPORTED_CHAIN" | NO_SUPPORTED_ROUTE => "NO_SUPPORTED_ROUTE"
  | ACTION_NOT_IMPLEMENTED => "ACTION_NOT_IMPLEMENTED" | LEVEL_CONTRADICTS_ACTIONS => "LEVEL_CONTRADICTS_ACTIONS"
  | MISSING_TOKEN_CLASS => "MISSING_TOKEN_CLASS" | ROUTE_CHAIN_INCAPABLE => "ROUTE_CHAIN_INCAPABLE"
  | REASON_MISSING => "REASON_MISSING"
  end.

Definition newline : string := String (Ascii.ascii_of_nat 10) EmptyString.

(** The message of the error that [assertSupportPolicy] throws. *)
Definition assertSupportPolicy (p : SupportPolicy) : outcome string unit :=
  let v := validateSupportPolicy p in
  if ok v then Ok tt
  else Throw (runtime_name (runtime p) +:+ " support policy is invalid:" +:+ newline +:+
              join newline ((fun e => "  - [" +:+ error_code_name (p_code e) +:+ "] " +:+ p_message e) <$> errors v)).

(** ** Introspection *)

Record UnsupportedRoute : Type := mkUnsupported {
  u_from : SupportedChain; u_to : SupportedChain; u_code : SupportDenialCode; u_reason : string
}.

Record SupportPolicySummary : Type := mkSummary {
  sm_runtime : RuntimeKind;
  sm_network : NetworkMode;
  sm_actionable : bool;
  sm_chains : list ChainSupport;
  sm_routes : list (string * RouteSupport);
  sm_unsupported : list UnsupportedRoute
}.

Definition unsupported_routes (p : SupportPolicy) : list UnsupportedRoute :=
  pairs ≫= fun '(from, to) =>
    if bool_decide (from = to) then []
    else match route_verdict p from to None with
         | SUPPORTED => []
         | deny code reason => [mkUnsupported from to code reason]
         end.

Definition describeSupportPolicy (p : SupportPolicy) : SupportPolicySummary :=
  mkSummary (runtime p) (network p) (isActionable p)
    ((fun c => mkChainSupport c (cs_level (chains p c)) (cs_actions (chains p c)) (cs_tokenClasses (chains p c)) (cs_reason (chains p c)))
       <$> SUPPORTED_CHAINS)
    ((fun r => (route_id (r_from r) (r_to r), r)) <$> routes p)
    (unsupported_routes p).

Definition denial_code_name (c : SupportDenialCode) : string :=
  match c with
  | CHAIN_UNKNOWN => "CHAIN_UNKNOWN" | CHAIN_UNIMPLEMENTED => "CHAIN_UNIMPLEMENTED" | CHAIN_UNCONFIGURED => "CHAIN_UNCONFIGURED"
  | CHAIN_PLACEHOLDER => "CHAIN_PLACEHOLDER" | ACTION_UNSUPPORTED => "ACTION_UNSUPPORTED"
  | TOKEN_CLASS_UNSUPPORTED => "TOKEN_CLASS_UNSUPPORTED" | ROUTE_UNSUPPORTED => "ROUTE_UNSUPPORTED" | ROUTE_SAME_CHAIN => "ROUTE_SAME_CHAIN"
  end.

Definition formatSupportPolicy (p : SupportPolicy) : string :=
  let sm := describeSupportPolicy p in
  join newline
    ([runtime_name (sm_runtime sm) +:+ " support policy (" +:+ network_name (sm_network sm) +:+ ") — " +:+
      (if sm_actionable sm then "actionable" else "NOT ACTIONABLE")] ++
     (sm_chains sm ≫= fun c =>
        ("  chain " +:+ chain_name (cs_chain c) +:+ ": " +:+ level_name (cs_level c) +:+ " | actions: " +:+
         join_or "none" (act_name <$> cs_actions c) +:+ " | assets: " +:+ join_or "none" (class_name <$> cs_tokenClasses c)) ::
        only_if (truthy_string (default "" (cs_reason c))) ("    reason: " +:+ default "" (cs_reason c))) ++
     (match sm_routes sm with
      | [] => ["  route (none) — this runtime cannot carry any bridge leg"]
      | rs => (fun '(id, r) => "  route " +:+ id +:+ ": accepts " +:+ join ", " (class_name <$> r_tokenClasses r)) <$> rs
      end) ++
     ((fun u => "  route " +:+ route_id (u_from u) (u_to u) +:+ ": REJECTED [" +:+ denial_code_name (u_code u) +:+ "]") <$> sm_unsupported sm)).

(** ** Placeholders *)

Definition CONTRACT_PLACEHOLDER_VALUES : list string :=
  [""; "PLACEHOLDER"; "YOUR_CONTRACT_ID"; "YOUR_SOROBAN_CONTRACT"; "YOUR_SOROBAN_HTLC"; "YOUR_RESOLVER_REGISTRY";
   "YOUR_ETH_HTLC_ESCROW"; "YOUR_ETH_RESOLVER_REGISTRY"; "YOUR_SOLANA_HTLC_PROGRAM"; "YOUR_SOLANA_PROGRAM"; "YOUR_PROGRAM_ID";
   "CAAAAAAAAAAAAAAAAAAAAAAAAAAAAAAAAAAAAAAAAAAAAAAAAAAAB42222"; "11111111111111111111111111111111";
   "0X0000000000000000000000000000000000000000"; "0X1111111111111111111111111111111111111111";
   "0x0000000000000000000000000000000000000000"; "0x1111111111111111111111111111111111111111"].

Definition isPlaceholderValue (value : option string) : bool :=
  match value with
  | None => true
  | Some v =>
      let trimmed := trim v in
      if negb (truthy_string trimmed) then true
      else
        let upper := toUpperCase trimmed in
        has upper CONTRACT_PLACEHOLDER_VALUES || includes upper "PLACEHOLDER" || startsWith upper "YOUR_"
  end.

Definition normaliseContractId (raw : option string) : option string :=
  if isPlaceholderValue raw then None else trim <$> raw.

Definition isPresentButPlaceholder (value : option string) : bool :=
  match value with
  | Some v => truthy_string (trim v) && isPlaceholderValue value
  | None => false
  end.

Definition SOLANA_PLACEHOLDER_VALUES : list string :=
  ["PLACEHOLDER"; "YOUR_SOLANA_HTLC_PROGRAM"; "YOUR_SOLANA_PROGRAM"; "YOUR_PROGRAM_ID"; "11111111111111111111111111111111"].

Definition isSolanaPlaceholder (programId : option string) : bool :=
  match programId with
  | None => true
  | Some v =>
      if negb (truthy_string (trim v)) then true
      else
        let upper := toUpperCase (trim v) in
        has upper SOLANA_PLACEHOLDER_VALUES || includes upper "PLACEHOLDER" || startsWith upper "YOUR_"
  end.

(** ** Builders *)

Definition buildChainSupport (r : RuntimeKind) (c : SupportedChain) (available : list SupportedAction)
    (unavailableReason : option string) (isPlaceholder : bool) : ChainSupport :=
  let implemented := IMPLEMENTED_ACTIONS r c in
  let tokenClasses := IMPLEMENTED_TOKEN_CLASSES r c in
  if negb (nonempty implemented) then
    mkChainSupport c unimplemented [] []
      (Some (default ("no " +:+ runtime_name r +:+ " code path exists for " +:+ chain_name c) unavailableReason))
  else
    let actions := List.filter (fun a => has a available) implemented in
    if negb (nonempty actions) then
      mkChainSupport c (if isPlaceholder then placeholder else unconfigured) [] []
        (Some (default (chain_name c +:+ " configuration is absent") unavailableReason))
    else if Nat.eqb (length actions) (length implemented) then mkChainSupport c full actions tokenClasses None
    else
      let missing := List.filter (fun a => negb (has a actions)) implemented in
      mkChainSupport c (if bool_decide (actions = [observe]) then observe_only else partial) actions tokenClasses
        (Some (default ("unavailable actions on " +:+ chain_name c +:+ ": " +:+ join ", " (act_name <$> missing)) unavailableReason)).

Definition not_configured (missing : list string) : option string :=
  match missing with [] => None | _ => Some ("not configured: " +:+ join ", " missing) end.

Record ResolverSupportInput : Type := mkResolverInput {
  ri_network : NetworkMode;
  ri_ethRpcUrl : string;
  ri_ethHtlcEscrow : option string;
  ri_ethResolverRegistry : option string;
  ri_ethResolverPrivateKey : option string;
  ri_sorRpcUrl : string;
  ri_sorHtlc : option string;
  ri_sorResolverRegistry : option string;
  ri_sorResolverSecret : option string
}.

Definition policy_of (r : RuntimeKind) (n : NetworkMode) (cs : SupportedChain -> ChainSupport) : SupportPolicy :=
  mkPolicy r n cs (generateRoutes r cs).

Definition buildResolverSupportPolicy (i : ResolverSupportInput) : SupportPolicy :=
  let ethRpc := negb (isPlaceholderValue (Some (ri_ethRpcUrl i))) in
  let ethKey := negb (isPlaceholderValue (ri_ethResolverPrivateKey i)) in
  let ethEscrow := negb (isPlaceholderValue (ri_ethHtlcEscrow i)) in
  let ethRegistry := negb (isPlaceholderValue (ri_ethResolverRegistry i)) in
  let ethActions :=
    only_if ethRpc observe ++ (if ethRpc && ethKey && ethEscrow then [claim; refund] else []) ++
    only_if (ethRpc && ethKey && ethRegistry) register in
  let ethMissing :=
    only_if (negb ethRpc) "ETHEREUM_RPC_URL" ++ only_if (negb ethKey) "RESOLVER_ETH_PRIVATE_KEY" ++
    only_if (negb ethEscrow) "ETH_HTLC_ESCROW" ++ only_if (negb ethRegistry) "ETH_RESOLVER_REGISTRY" in
  let sorRpc := negb (isPlaceholderValue (Some (ri_sorRpcUrl i))) in
  let sorSecret := negb (isPlaceholderValue (ri_sorResolverSecret i)) in
  let sorHtlc := negb (isPlaceholderValue (ri_sorHtlc i)) in
  let stellarActions := only_if sorRpc observe ++ (if sorRpc && sorSecret && sorHtlc then [claim; refund] else []) in
  let stellarMissing :=
    only_if (negb sorRpc) "SOROBAN_RPC_URL" ++ only_if (negb sorSecret) "RESOLVER_STELLAR_SECRET" ++
    only_if (negb sorHtlc) "SOROBAN_HTLC_CONTRACT" in
  policy_of resolver (ri_network i) (fun c =>
    match c with
    | ethereum =>
        buildChainSupport resolver ethereum ethActions (not_configured ethMissing)
          (existsb isPresentButPlaceholder [Some (ri_ethRpcUrl i); ri_ethHtlcEscrow i; ri_ethResolverRegistry i])
    | stellar =>
        buildChainSupport resolver stellar stellarActions (not_configured stellarMissing)
          (existsb isPresentButPlaceholder [Some (ri_sorRpcUrl i); ri_sorHtlc i])
    | solana => buildChainSupport resolver solana [] None false
    end).

Record RelayerSupportInput : Type := mkRelayerInput {
  li_network : NetworkMode;
  li_ethRpcUrl : string;
  li_ethPrivateKey : string;
  li_escrowFactoryAddress : option string;
  li_horizonUrl : string;
  li_secretKey : string;
  li_solanaProgramId : option string
}.

Definition buildRelayerSupportPolicy (i : RelayerSupportInput) : SupportPolicy :=
  let ethRpc := negb (isPlaceholderValue (Some (li_ethRpcUrl i))) in
  let ethKey := negb (isPlaceholderValue (Some (li_ethPrivateKey i))) in
  let ethFactory := negb (isPlaceholderValue (li_escrowFactoryAddress i)) in
  let ethActions := only_if ethRpc observe ++ (if ethRpc && ethKey && ethFactory then [lock; claim; settle; refund] else []) in
  let ethMissing :=
    only_if (negb ethRpc) "ETHEREUM_RPC_URL" ++ only_if (negb ethKey) "RELAYER_PRIVATE_KEY" ++
    only_if (negb ethFactory) "ESCROW_FACTORY_ADDRESS" in
  let horizon := negb (isPlaceholderValue (Some (li_horizonUrl i))) in
  let stellarKey := negb (isPlaceholderValue (Some (li_secretKey i))) in
  let stellarActions := only_if horizon observe ++ (if horizon && stellarKey then [lock; settle; refund] else []) in
  let stellarMissing :=
    only_if (negb horizon) "STELLAR_HORIZON_URL" ++ only_if (negb stellarKey) "RELAYER_STELLAR_SECRET" in
  let solanaPlaceholder := isSolanaPlaceholder (li_solanaProgramId i) in
  policy_of relayer (li_network i) (fun c =>
    match c with
    | ethereum =>
        buildChainSupport relayer ethereum ethActions (not_configured ethMissing)
          (existsb isPresentButPlaceholder [Some (li_ethRpcUrl i); li_escrowFactoryAddress i])
    | stellar =>
        buildChainSupport relayer stellar stellarActions (not_configured stellarMissing)
          (isPresentButPlaceholder (Some (li_horizonUrl i)))
    | solana =>
        buildChainSupport relayer solana []
          (Some (if solanaPlaceholder then "SOLANA_HTLC_PROGRAM is a placeholder and no settlement path is implemented"
                 else "no relayer settlement path is implemented for Solana")) solanaPlaceholder
    end).

(** ** Facts: the tests of the source *)

#[global] Arguments isPlaceholderValue : simpl never.
#[global] Arguments isSolanaPlaceholder : simpl never.
#[global] Arguments buildChainSupport : simpl never.

Lemma has_spec {A} `{EqDecision A} (x : A) xs : has x xs = true <-> x ∈ xs.
Proof.
  unfold has. rewrite existsb_exists. setoid_rewrite bool_decide_eq_true. setoid_rewrite <-list_elem_of_In. naive_solver.
Qed.

Lemma every_spec {A} `{EqDecision A} (needed available : list A) : every needed available = true <-> needed ⊆ available.
Proof. unfold every. rewrite forallb_forall. setoid_rewrite has_spec. setoid_rewrite <-list_elem_of_In. done. Qed.

Lemma elem_of_only_if {A} (b : bool) (x y : A) : y ∈ only_if b x <-> b = true /\ y = x.
Proof. destruct b; cbn; rewrite ?list_elem_of_singleton, ?elem_of_nil; naive_solver. Qed.

Lemma nonempty_spec {A} (l : list A) : nonempty l = true <-> l <> [].
Proof. by destruct l. Qed.

Lemma bind_nil {A B} (f : A -> list B) l : (forall x, x ∈ l -> f x = []) -> l ≫= f = [].
Proof.
  induction l as [|x l IH]; intros H; [done|]. cbn. rewrite (H x) by constructor. apply IH. intros y Hy. apply H. by constructor.
Qed.

(** A canonical name is its own normal form. *)
Lemma normaliseChain_name c : normaliseChain (Some (chain_name c)) = RChain c.
Proof. by destruct c. Qed.

Lemma elem_of_pairs from to : (from, to) ∈ pairs.
Proof. apply (bool_decide_unpack _). by destruct from, to. Qed.

(** ** Facts: chains *)

(** What a builder promises of one chain: only implemented actions, and a level,
    asset classes and a reason that agree with them. *)
Record chain_sound (r : RuntimeKind) (c : SupportedChain) (s : ChainSupport) : Prop := {
  sound_implemented : cs_actions s ⊆ IMPLEMENTED_ACTIONS r c;
  sound_level : unusable (cs_level s) = negb (nonempty (cs_actions s));
  sound_classes : cs_tokenClasses s = if nonempty (cs_actions s) then IMPLEMENTED_TOKEN_CLASSES r c else [];
  sound_reason : cs_level s <> full -> exists t, cs_reason s = Some t /\ truthy_string t = true;
  sound_full : cs_level s = full -> cs_actions s = IMPLEMENTED_ACTIONS r c
}.

Lemma filter_full {A} (f : A -> bool) l : length (List.filter f l) = length l -> List.filter f l = l.
Proof.
  induction l as [|x l IH]; [done|]. cbn. destruct (f x); cbn; intros H; [f_equal; apply IH; lia|].
  pose proof (List.filter_length_le f l). lia.
Qed.

Lemma buildChainSupport_sound r c available reason ph :
  (forall t, reason = Some t -> truthy_string t = true) -> chain_sound r c (buildChainSupport r c available reason ph).
Proof.
  intros Hr.
  assert (forall d, truthy_string d = true -> exists t, Some (default d reason) = Some t /\ truthy_string t = true) as Hd.
  { intros d Hd. eexists. split; [done|]. destruct reason; [by apply Hr|done]. }
  assert (forall x, truthy_string (chain_name c +:+ x) = true) as Hc by (intros x; apply truthy_app; by destruct c).
  unfold buildChainSupport. destruct (nonempty (IMPLEMENTED_ACTIONS r c)) eqn:Hi; cbn [negb].
  2:{ split; cbn; first [done | by apply list_subseteq_nil | by intros _; apply Hd | idtac]. }
  set (actions := List.filter _ _).
  assert (actions ⊆ IMPLEMENTED_ACTIONS r c) as Hsub.
  { intros a. rewrite !list_elem_of_In. unfold actions. rewrite List.filter_In. tauto. }
  destruct (nonempty actions) eqn:Ha; cbn [negb].
  2:{ split; cbn; first [by destruct ph | by apply list_subseteq_nil | by intros _; apply Hd | idtac]. }
  destruct (Nat.eqb_spec (length actions) (length (IMPLEMENTED_ACTIONS r c))) as [Hl|Hl].
  - split; cbn; rewrite ?Ha; try done. intros _. by apply filter_full.
  - split; cbn; rewrite ?Ha; first [done | by destruct (bool_decide (actions = [observe])) | by intros _; apply Hd | idtac].
Qed.

Lemma not_configured_truthy ms t : not_configured ms = Some t -> truthy_string t = true.
Proof. destruct ms; [done|]. by intros [= <-]. Qed.

(** A policy as the builders make it. *)
Record coherent (p : SupportPolicy) : Prop := {
  coherent_chain c : chain_sound (runtime p) c (chains p c);
  coherent_routes : routes p = generateRoutes (runtime p) (chains p)
}.

Lemma resolver_coherent i : coherent (buildResolverSupportPolicy i).
Proof.
  split; [|done]. intros []; cbn; apply buildChainSupport_sound; try done; apply not_configured_truthy.
Qed.

Lemma relayer_coherent i : coherent (buildRelayerSupportPolicy i).
Proof.
  split; [|done]. intros []; cbn; apply buildChainSupport_sound; [apply not_configured_truthy..|].
  intros t [= <-]. by destruct (isSolanaPlaceholder _).
Qed.

(** ** Facts: routes *)

Definition leg_ok (p : SupportPolicy) (actions : list SupportedAction) (c : SupportedChain) : Prop :=
  actions ⊆ cs_actions (chains p c).

(** The chains of a route can carry both of its legs. *)
Definition carries (p : SupportPolicy) (from to : SupportedChain) : Prop :=
  from <> to /\ leg_ok p (ROUTE_ACTION_REQUIREMENTS (runtime p)).1 from /\ leg_ok p (ROUTE_ACTION_REQUIREMENTS (runtime p)).2 to.

Lemma requirements_nonempty r : nonempty (ROUTE_ACTION_REQUIREMENTS r).1 = true.
Proof. by destruct r. Qed.

Lemma leg_ok_actions p c :
  leg_ok p (ROUTE_ACTION_REQUIREMENTS (runtime p)).1 c -> nonempty (cs_actions (chains p c)) = true.
Proof.
  unfold leg_ok. pose proof (requirements_nonempty (runtime p)) as H. destruct ((ROUTE_ACTION_REQUIREMENTS _).1) as [|a l]; [done|].
  intros Hs. apply nonempty_spec. intros E. assert (a ∈ cs_actions (chains p c)) as Ha by (apply Hs; constructor).
  rewrite E in Ha. by apply elem_of_nil in Ha.
Qed.

Lemma coherent_classes p c :
  coherent p -> nonempty (cs_actions (chains p c)) = true ->
  cs_tokenClasses (chains p c) = IMPLEMENTED_TOKEN_CLASSES (runtime p) c /\ cs_tokenClasses (chains p c) <> [].
Proof.
  intros [Hc _] Ha. destruct (Hc c) as [H1 _ H3 _ _]. rewrite Ha in H3. split; [done|]. rewrite H3.
  apply nonempty_spec in Ha. destruct (runtime p), c; try done; exfalso; apply Ha; cbn in H1;
    destruct (cs_actions _) as [|a l]; try done; exfalso; assert (a ∈ @nil SupportedAction) as E by (apply H1; constructor);
    by apply elem_of_nil in E.
Qed.

Lemma elem_of_generateRoutes p r :
  coherent p -> r ∈ routes p <-> carries p (r_from r) (r_to r) /\ r_tokenClasses r = IMPLEMENTED_TOKEN_CLASSES (runtime p) (r_from r).
Proof.
  intros Hp. rewrite (coherent_routes p Hp). unfold generateRoutes. rewrite list_elem_of_bind. split.
  - intros ([from to] & Hr & _). case_bool_decide as Hne; [by apply elem_of_nil in Hr|].
    destruct (every _ (cs_actions (chains p from))) eqn:H1; [|by apply elem_of_nil in Hr].
    destruct (every _ (cs_actions (chains p to))) eqn:H2; [|by apply elem_of_nil in Hr]. cbn in Hr.
    apply every_spec in H1, H2. pose proof (leg_ok_actions p from H1) as Ha.
    destruct (coherent_classes p from Hp Ha) as [Ht Hn]. destruct (cs_tokenClasses (chains p from)) as [|t ts] eqn:E; [done|].
    apply list_elem_of_singleton in Hr as ->. cbn. split; [by split_and!|done].
  - intros ((Hne & H1 & H2) & Ht). exists (r_from r, r_to r). split; [|apply elem_of_pairs].
    rewrite bool_decide_eq_false_2 by done. pose proof (leg_ok_actions p _ H1) as Ha.
    apply every_spec in H1, H2. rewrite H1, H2. cbn. destruct (coherent_classes p _ Hp Ha) as [Hc Hn].
    destruct (cs_tokenClasses (chains p (r_from r))) as [|t ts] eqn:E; [done|].
    apply list_elem_of_singleton. destruct r; cbn in *. congruence.
Qed.

Lemma chain_verdict_spec p c : chain_verdict p c = SUPPORTED <-> nonempty (cs_actions (chains p c)) = true.
Proof. unfold chain_verdict. by destruct (cs_actions (chains p c)). Qed.

Lemma action_verdict_spec p a c : action_verdict p a c = SUPPORTED <-> a ∈ cs_actions (chains p c).
Proof.
  unfold action_verdict. destruct (chain_verdict p c) eqn:E.
  - rewrite <-has_spec. by destruct (has a (cs_actions (chains p c))).
  - split; [done|]. intros Ha. exfalso. assert (chain_verdict p c = SUPPORTED) as E'; [|congruence].
    apply chain_verdict_spec, nonempty_spec. intros E''. rewrite E'' in Ha. by apply elem_of_nil in Ha.
Qed.

Lemma leg_denied_spec p c l : leg_denied p c l = None <-> leg_ok p l c.
Proof.
  unfold leg_ok. induction l as [|a l IH]; cbn; [split; [intros _; apply list_subseteq_nil|done]|].
  destruct (action_verdict p a c) as [|code reason] eqn:E.
  - apply action_verdict_spec in E. rewrite IH. split; [|set_solver].
    intros Hl x Hx. apply elem_of_cons in Hx as [->|Hx]; [done|by apply Hl].
  - split; [done|]. intros Hl. assert (action_verdict p a c = SUPPORTED) as E'; [|congruence].
    apply action_verdict_spec, Hl. constructor.
Qed.

Lemma find_route_spec p from to r : find_route p from to = Some r -> r ∈ routes p /\ r_from r = from /\ r_to r = to.
Proof.
  intros H. apply List.find_some in H as [Hi H]. apply andb_prop in H as [H1 H2].
  apply bool_decide_eq_true in H1, H2. by rewrite list_elem_of_In.
Qed.

Lemma find_route_carries p from to :
  coherent p -> carries p from to -> find_route p from to = Some (mkRoute from to (IMPLEMENTED_TOKEN_CLASSES (runtime p) from)).
Proof.
  intros Hp Hc. set (r := mkRoute _ _ _). assert (r ∈ routes p) as Hr by by apply elem_of_generateRoutes.
  destruct (find_route p from to) as [r'|] eqn:E.
  - apply find_route_spec in E as (Hr' & Hf & Ht). apply (elem_of_generateRoutes p r' Hp) in Hr' as [_ Hc'].
    destruct r' as [f t ts]; cbn in *. by subst.
  - exfalso. pose proof (List.find_none _ _ E r (proj1 (list_elem_of_In _ _) Hr)) as H. cbn in H.
    by rewrite !bool_decide_eq_true_2 in H.
Qed.

(** A route is supported when its legs are carried and the class is accepted. *)
Lemma route_verdict_spec p from to tc :
  coherent p ->
  route_verdict p from to tc = SUPPORTED <->
  carries p from to /\ forall t, tc = Some t -> t ∈ class_name <$> IMPLEMENTED_TOKEN_CLASSES (runtime p) from.
Proof.
  intros Hp. unfold route_verdict, carries. case_bool_decide as Hne; [naive_solver|].
  destruct (source_leg p from) as [[code reason]|] eqn:Hs.
  { split; [done|]. intros ((_ & H1 & _) & _). apply leg_denied_spec in H1. unfold source_leg in Hs. congruence. }
  destruct (destination_leg p to) as [[code reason]|] eqn:Hd.
  { split; [done|]. intros ((_ & _ & H2) & _). apply leg_denied_spec in H2. unfold destination_leg in Hd. congruence. }
  apply leg_denied_spec in Hs, Hd. rewrite (find_route_carries p from to Hp) by (by split_and!). cbn [r_tokenClasses].
  destruct tc as [t|]; [|naive_solver].
  destruct (has t (class_name <$> IMPLEMENTED_TOKEN_CLASSES (runtime p) from)) eqn:Ht.
  - apply has_spec in Ht. split; [|done]. intros _. split; [by split_and!|]. by intros t' [= <-].
  - split; [done|]. intros [_ H]. specialize (H t eq_refl). apply has_spec in H. congruence.
Qed.

(** ** Facts: validation *)

Lemma chain_errors_nil p c : coherent p -> chain_errors p c = [].
Proof.
  intros Hp. destruct (coherent_chain p Hp c) as [H1 H2 _ H4 _]. unfold chain_errors.
  rewrite bind_nil; [|intros a Ha; apply H1, has_spec in Ha; by rewrite Ha]. rewrite H2.
  assert (nonempty (cs_actions (chains p c)) && negb (nonempty (cs_tokenClasses (chains p c))) = false) as ->.
  { destruct (nonempty (cs_actions _)) eqn:Ha; [|done]. destruct (coherent_classes p c Hp Ha) as [_ Hn]. by destruct (cs_tokenClasses _). }
  case_bool_decide as Hf; cbn; [by destruct (nonempty _)|]. destruct (H4 Hf) as (t & -> & Ht). cbn. rewrite Ht. by destruct (nonempty _).
Qed.

Lemma route_errors_nil p r : coherent p -> r ∈ routes p -> route_errors p r = [].
Proof.
  intros Hp Hr. apply (elem_of_generateRoutes p r Hp) in Hr as [(_ & H1 & H2) Ht]. unfold route_errors.
  destruct (coherent_classes p (r_from r) Hp (leg_ok_actions p _ H1)) as [E Hn]. rewrite <-E in Ht.
  destruct (ROUTE_ACTION_REQUIREMENTS (runtime p)) as [source destination]. cbn [fst snd] in *.
  rewrite !bind_nil; [|intros a Ha; apply H2, has_spec in Ha; by rewrite Ha|intros a Ha; apply H1, has_spec in Ha; by rewrite Ha].
  rewrite Ht. by destruct (cs_tokenClasses _).
Qed.

(** The only errors of a policy that was built are that it can do nothing. *)
Lemma built_errors p :
  coherent p ->
  (ok (validateSupportPolicy p) = true <-> routes p <> []) /\
  forall e, e ∈ errors (validateSupportPolicy p) -> p_code e = NO_SUPPORTED_CHAIN \/ p_code e = NO_SUPPORTED_ROUTE.
Proof.
  intros Hp. unfold validateSupportPolicy. destruct (ROUTE_ACTION_REQUIREMENTS (runtime p)) as [source destination].
  rewrite (bind_nil (chain_errors p)) by (intros c _; by apply chain_errors_nil).
  rewrite (bind_nil (route_errors p)) by (intros r Hr; by apply route_errors_nil). cbn [ok errors app]. split.
  - destruct (routes p) as [|r rs] eqn:E; cbn [nonempty negb only_if].
    { split; [|done]. by destruct (negb (existsb _ _)). }
    assert (r ∈ routes p) as Hr by (rewrite E; constructor).
    apply (elem_of_generateRoutes p r Hp) in Hr as [(_ & H1 & _) _]. apply leg_ok_actions in H1.
    assert (existsb (fun c => nonempty (cs_actions (chains p c))) SUPPORTED_CHAINS = true) as ->; [|done].
    apply existsb_exists. exists (r_from r). split; [|done]. destruct (r_from r); cbn; auto.
  - intros e He. apply elem_of_app in He as [He|He]; apply elem_of_only_if in He as [_ ->]; auto.
Qed.

(** A pair of chains is either a route or reported as refused. *)
Lemma summary_partition p a b :
  coherent p -> a <> b ->
  ((exists r, r ∈ routes p /\ r_from r = a /\ r_to r = b) <-> carries p a b) /\
  ((exists u, u ∈ unsupported_routes p /\ u_from u = a /\ u_to u = b) <-> ~ carries p a b).
Proof.
  intros Hp Hne. pose proof (route_verdict_spec p a b None Hp) as Hv. split.
  - split; [intros (r & Hr & <- & <-); by apply (elem_of_generateRoutes p r Hp) in Hr as [? _]|].
    intros Hc. exists (mkRoute a b (IMPLEMENTED_TOKEN_CLASSES (runtime p) a)). split; [|done]. by apply elem_of_generateRoutes.
  - unfold unsupported_routes. split.
    + intros (u & Hu & <- & <-). apply list_elem_of_bind in Hu as ([a' b'] & Hu & _).
      case_bool_decide; [by apply elem_of_nil in Hu|].
      destruct (route_verdict p a' b' None) eqn:E; [by apply elem_of_nil in Hu|]. apply list_elem_of_singleton in Hu as ->. cbn in *.
      intros Hc. destruct Hv as [_ Hv]. rewrite Hv in E; [done|]. by split.
    + intros Hc. destruct (route_verdict p a b None) as [|code reason] eqn:E; [exfalso; apply Hc, Hv; done|].
      exists (mkUnsupported a b code reason). split; [|done]. apply list_elem_of_bind. exists (a, b).
      rewrite bool_decide_eq_false_2 by done. rewrite E. split; [by apply list_elem_of_singleton|apply elem_of_pairs].
Qed.

(** A policy that one of the two builders made. *)
Definition built (p : SupportPolicy) : Prop :=
  (exists i, p = buildRelayerSupportPolicy i) \/ (exists i, p = buildResolverSupportPolicy i).

Lemma built_coherent p : built p -> coherent p.
Proof. intros [[i ->]|[i ->]]; [apply relayer_coherent|apply resolver_coherent]. Qed.

(** ** Facts: configuration *)

Lemma buildChainSupport_actions r c available reason ph :
  cs_actions (buildChainSupport r c available reason ph) = List.filter (fun a => has a available) (IMPLEMENTED_ACTIONS r c).
Proof.
  unfold buildChainSupport. destruct (IMPLEMENTED_ACTIONS r c) as [|a l]; [done|]. cbn [nonempty negb].
  destruct (List.filter _ (a :: l)); cbn [nonempty negb]; [done|]. by destruct (Nat.eqb _ _).
Qed.

Definition usable (v : option string) : Prop := isPlaceholderValue v = false.

(** The relayer carries both of its directions or none: every credential is
    needed in either. *)
Definition relayer_ready (i : RelayerSupportInput) : Prop :=
  usable (Some (li_ethRpcUrl i)) /\ usable (Some (li_ethPrivateKey i)) /\ usable (li_escrowFactoryAddress i) /\
  usable (Some (li_horizonUrl i)) /\ usable (Some (li_secretKey i)).

Ltac by_actions :=
  unfold carries, leg_ok, usable; rewrite <-!every_spec; cbn [chains runtime]; rewrite ?buildChainSupport_actions;
  repeat match goal with
  | |- context [isPlaceholderValue ?v] => destruct (isPlaceholderValue v)
  end; vm_compute; naive_solver.

Lemma relayer_carries i a b :
  carries (buildRelayerSupportPolicy i) a b <-> a <> b /\ a <> solana /\ b <> solana /\ relayer_ready i.
Proof. unfold relayer_ready, buildRelayerSupportPolicy, policy_of. destruct a, b; by_actions. Qed.

(** The resolver watches the source and claims on the destination. *)
Definition resolver_claims (i : ResolverSupportInput) (c : SupportedChain) : Prop :=
  match c with
  | ethereum => usable (Some (ri_ethRpcUrl i)) /\ usable (ri_ethResolverPrivateKey i) /\ usable (ri_ethHtlcEscrow i)
  | stellar => usable (Some (ri_sorRpcUrl i)) /\ usable (ri_sorResolverSecret i) /\ usable (ri_sorHtlc i)
  | solana => False
  end.
Definition resolver_observes (i : ResolverSupportInput) (c : SupportedChain) : Prop :=
  match c with
  | ethereum => usable (Some (ri_ethRpcUrl i))
  | stellar => usable (Some (ri_sorRpcUrl i))
  | solana => False
  end.

Lemma resolver_carries i a b :
  carries (buildResolverSupportPolicy i) a b <-> a <> b /\ resolver_observes i a /\ resolver_claims i b.
Proof. unfold resolver_claims, resolver_observes, buildResolverSupportPolicy, policy_of. destruct a, b; by_actions. Qed.

(** ** The policy says what the runtime can do *)

(** The policy built from a configuration is exact.  It never claims an action
    that is not implemented, never contradicts itself and explains every
    reduction: start-up refuses it only when no route can be carried, and reports
    then only that no chain or no route is supported.  A query by name is answered "supported" exactly
    when the two names denote different chains of which the first offers every
    source action and the second every destination action, and the asset class is
    one the runtime implements on the source.  Each pair of chains is listed once,
    as a route or as refused, and which one follows from the configured values:
    the relayer carries its two routes when all five values are usable, the
    resolver a route when it observes the source and can claim on the
    destination. *)
Lemma support_policy_exact (p : SupportPolicy) :
  built p ->
  ((ok (validateSupportPolicy p) = true <-> routes p <> []) /\
   (assertSupportPolicy p = Ok tt <-> routes p <> []) /\
   forall e, e ∈ errors (validateSupportPolicy p) -> p_code e = NO_SUPPORTED_CHAIN \/ p_code e = NO_SUPPORTED_ROUTE) /\
  (forall from to tc, supportsRoute p from to tc = Ok SUPPORTED <->
     exists a b, normaliseChain (Some from) = RChain a /\ normaliseChain (Some to) = RChain b /\ carries p a b /\
       forall t, tc = Some t -> t ∈ class_name <$> IMPLEMENTED_TOKEN_CLASSES (runtime p) a) /\
  (forall a b, a <> b ->
     ((exists r, r ∈ (sm_routes (describeSupportPolicy p)).*2 /\ r_from r = a /\ r_to r = b) <-> carries p a b) /\
     ((exists u, u ∈ sm_unsupported (describeSupportPolicy p) /\ u_from u = a /\ u_to u = b) <-> ~ carries p a b)) /\
  (forall i a b, p = buildRelayerSupportPolicy i ->
     carries p a b <-> a <> b /\ a <> solana /\ b <> solana /\ relayer_ready i) /\
  (forall i a b, p = buildResolverSupportPolicy i ->
     carries p a b <-> a <> b /\ resolver_observes i a /\ resolver_claims i b).
Proof.
  intros Hb. pose proof (built_coherent p Hb) as Hp. destruct (built_errors p Hp) as [Hok He]. split_and!; [done| |done|..].
  - rewrite <-Hok. unfold assertSupportPolicy. by destruct (ok _).
  - intros from to tc. unfold supportsRoute.
    destruct (normaliseChain (Some from)) as [a|k|]; destruct (normaliseChain (Some to)) as [b|k'|];
      try (split; [try done|intros (? & ? & ? & ? & _); done]).
    + split; [intros [= H]|intros (a' & b' & [= <-] & [= <-] & H1 & H2); f_equal; by apply route_verdict_spec].
      apply (route_verdict_spec p a b tc Hp) in H as [H1 H2]. by exists a, b.
    + by destruct (source_leg p a) as [[code reason]|].
    + by destruct (String.eqb k k').
  - intros a b Hne. cbn. rewrite <-list_fmap_compose. cbn. rewrite list_fmap_id. by apply summary_partition.
  - intros i a b ->. apply relayer_carries.
  - intros i a b ->. apply resolver_carries.
Qed.

Definition demo_relayer : RelayerSupportInput :=
  mkRelayerInput testnet "https://eth.example" "0xabc" (Some "0xdef") "https://horizon.example" "SABC" None.

Lemma support_policy_exact_witness :
  let p := buildRelayerSupportPolicy demo_relayer in
  (assertSupportPolicy p = Ok tt <-> routes p <> []) /\ length (routes p) = 2%nat /\
  supportsRoute p " ETH" "soroban" (Some "native") = Ok SUPPORTED.
Proof.
  intros p. split; [|by vm_compute]. assert (built p) as Hb by (left; by exists demo_relayer).
  apply (support_policy_exact p Hb).
Defined.

(** An inherited name is not refused as unknown: it makes the query throw. *)
Example inherited_chain_throws :
  supportsRoute (buildRelayerSupportPolicy demo_relayer) "constructor" "stellar" None = Throw TypeError /\
  supportsChain (buildRelayerSupportPolicy demo_relayer) "__proto__" = Throw TypeError.
Proof. by vm_compute. Qed.
