(* ===== verification/SolanaListener.v ===== *)
(** * The Solana listener (coordinator/src/listeners/solana-listener.ts).

    Signatures are queued by slot when they are confirmed, and handled when
    their slot is 32 slots behind the finalized one; a fall of the confirmed
    slot drops queued signatures and undoes recorded locks.  RPC calls go
    through the SDK's provider: its answers are functions of the requests made
    so far, the current one last, [None] for a call that fails on every
    endpoint.  Reading the JSON of a log line and checking a program id
    (web3.js's [PublicKey]) are parameters. *)

From S2P Require Import Prelude SupportPolicy OrderMachine TransactionContract OrderRow OrdersRepo OrdersRepoFacts.
From S2P Require Import OrdersRepoSpec HistoryCache Notifications OrderService OrderServiceFacts.
From S2P Require Import OrderServiceSpec EventIdentity Reconciler Listeners.

Import Service.

Definition FINALIZATION_SLOTS : Z := 32.
Definition REGRESSION_THRESHOLD : Z := 5.
Definition PROCESSED_SLOT_INDEX_MAX_AGE : Z := 200.

(** ** Maps from slots to lists, in insertion order *)

Abbreviation slot_map := (list (Z * list string)).

Fixpoint sm_get (k : Z) (m : slot_map) : option (list string) :=
  match m with
  | [] => None
  | (k', v) :: m' => if k' =? k then Some v else sm_get k m'
  end.

Fixpoint sm_set (k : Z) (v : list string) (m : slot_map) : slot_map :=
  match m with
  | [] => [(k, v)]
  | (k', v') :: m' => if k' =? k then (k', v) :: m' else (k', v') :: sm_set k v m'
  end.

Definition sm_delete (k : Z) (m : slot_map) : slot_map := List.filter (fun e => negb (e.1 =? k)) m.

(** [if (!m.has(k)) m.set(k, []); m.get(k).push(x)]. *)
Definition sm_push (k : Z) (x : string) (m : slot_map) : slot_map := sm_set k (default [] (sm_get k m) ++ [x]) m.

Definition sm_all (m : slot_map) : list string := m ≫= snd.

(** ** Payloads *)

Inductive Field (A : Type) : Type := Absent | Null | Value (a : A).
Arguments Absent {A}.
Arguments Null {A}.
Arguments Value {A} a.

(** The fields of the payload that the listener reads. *)
Record Payload : Type := mkPayload {
  py_hashlock : Field string;
  py_hash_lock : Field string;
  py_orderId : Field string;
  py_order_id : Field string;
  py_timelock : Field Z;
  py_time_lock : Field Z;
  py_preimage : Field string
}.

Definition no_payload : Payload := mkPayload Absent Absent Absent Absent Absent Absent Absent.

(** [Object.assign]: a field that is present wins, [null] included. *)
Definition assign_field {A} (old new : Field A) : Field A := match new with Absent => old | _ => new end.
Definition assign_payload (p q : Payload) : Payload :=
  mkPayload (assign_field (py_hashlock p) (py_hashlock q)) (assign_field (py_hash_lock p) (py_hash_lock q))
    (assign_field (py_orderId p) (py_orderId q)) (assign_field (py_order_id p) (py_order_id q))
    (assign_field (py_timelock p) (py_timelock q)) (assign_field (py_time_lock p) (py_time_lock q))
    (assign_field (py_preimage p) (py_preimage q)).

(** A field, or nothing when it is absent or [null]; [a ?? b]. *)
Definition value {A} (f : Field A) : option A := match f with Value a => Some a | _ => None end.
Definition coalesce {A} (f g : Field A) : option A := match f with Value a => Some a | _ => value g end.

(** ** Requests and the provider *)

Record SigInfo : Type := mkSigInfo { si_signature : string; si_slot : Z; si_err : bool }.
Record ParsedTx : Type := mkParsedTx { tx_err : bool; tx_logs : list string }.

Inductive SolRequest : Type := QFinalized | QConfirmed | QSignatures | QTransaction (sig : string).

Record Provider : Type := mkProvider {
  slot_answer : list SolRequest -> option Z;
  signatures_answer : list SolRequest -> option (list SigInfo);
  (** a transaction that is not indexed yet is [Some None] *)
  transaction_answer : list SolRequest -> option (option ParsedTx);
  sol_stop_called : list SolRequest -> bool
}.

(** ** State *)

Record SolState : Type := mkSolState {
  so_svc : State;
  so_stopped : bool;
  so_started : bool;
  so_lastSlot : Z;
  so_pending : slot_map;           (** [pendingSlots] *)
  so_bySlot : slot_map;            (** [processedBySlot] *)
  so_sigs : list string;           (** [processedSigs] *)
  so_requests : list SolRequest
}.

Abbreviation SM := (ST SolState JsError).

Definition new_solana (s : State) : SolState := mkSolState s false false 0 [] [] [] [].

Definition with_so_svc (s : State) (st : SolState) : SolState :=
  mkSolState s (so_stopped st) (so_started st) (so_lastSlot st) (so_pending st) (so_bySlot st) (so_sigs st) (so_requests st).
Definition with_so_started (st : SolState) : SolState :=
  mkSolState (so_svc st) (so_stopped st) true (so_lastSlot st) (so_pending st) (so_bySlot st) (so_sigs st) (so_requests st).
Definition with_lastSlot (n : Z) (st : SolState) : SolState :=
  mkSolState (so_svc st) (so_stopped st) (so_started st) n (so_pending st) (so_bySlot st) (so_sigs st) (so_requests st).
Definition with_pending (f : slot_map -> slot_map) (st : SolState) : SolState :=
  mkSolState (so_svc st) (so_stopped st) (so_started st) (so_lastSlot st) (f (so_pending st)) (so_bySlot st) (so_sigs st)
    (so_requests st).
Definition with_bySlot (f : slot_map -> slot_map) (st : SolState) : SolState :=
  mkSolState (so_svc st) (so_stopped st) (so_started st) (so_lastSlot st) (so_pending st) (f (so_bySlot st)) (so_sigs st)
    (so_requests st).
Definition with_sigs (l : list string) (st : SolState) : SolState :=
  mkSolState (so_svc st) (so_stopped st) (so_started st) (so_lastSlot st) (so_pending st) (so_bySlot st) l (so_requests st).
Definition with_so_request (stopped : bool) (q : SolRequest) (st : SolState) : SolState :=
  mkSolState (so_svc st) stopped (so_started st) (so_lastSlot st) (so_pending st) (so_bySlot st) (so_sigs st)
    (so_requests st ++ [q]).

Definition sol_service {A} (m : Svc A) : SM A := zoom so_svc with_so_svc m.

Definition getPendingSlotCount (st : SolState) : Z := Z.of_nat (length (so_pending st)).

(** ** Deduplication *)

Definition sol_isDuplicate (sig : string) (st : SolState) : bool := is_processed sig (so_sigs st).
Definition isInPendingSlots (sig : string) (st : SolState) : bool :=
  existsb (fun e => existsb (String.eqb sig) e.2) (so_pending st).
Definition markSigProcessed (sig : string) : SM unit := modify (fun st => with_sigs (mark_processed sig (so_sigs st)) st).
Definition completeSignature (sig : string) : SM bool := _ ← markSigProcessed sig; mret true.

Section SolanaListener.
Context (cfg : Config) (jsonFields : string -> option Payload).

(** ** One transaction *)

Definition payload_of (lines : list string) : Payload :=
  fold_left (fun p line => match jsonFields line with Some q => assign_payload p q | None => p end) lines no_payload.

Definition handle_created (now : Z) (sig : string) (slot : Z) (p : Payload) : SM bool :=
  match truthy_opt (coalesce (py_hashlock p) (py_hash_lock p)), truthy_opt (coalesce (py_orderId p) (py_order_id p)),
        coalesce (py_timelock p) (py_time_lock p) with
  | Some hashlock, Some orderId, Some timelock =>
      try_catch
        (found ← sol_service (Service.findByHashlock hashlock);
         match found with
         | None => completeSignature sig
         | Some order =>
             if negb (decideDispatch live (Some slot) (o_srcLockBlock order)
                        (negb (bool_decide (o_srcOrderId order = None)))).1 then completeSignature sig
             else
               _ ← sol_service (Service.recordSrcLock cfg now
                     (mkLockInput (o_publicId order) orderId sig slot timelock None (Some "solana_listener")));
               _ ← modify (with_bySlot (sm_push slot (o_publicId order)));
               completeSignature sig
         end)
        (fun _ => mret false)
  | _, _, _ => completeSignature sig
  end.

(** Of a claim only [payload.orderId] is read. *)
Definition handle_claimed (now : Z) (sig : string) (slot : Z) (p : Payload) : SM bool :=
  match truthy_opt (value (py_preimage p)), truthy_opt (value (py_orderId p)) with
  | Some pre, Some orderId =>
      try_catch
        (found ← sol_service (Service.findBySrcOrderId solana orderId);
         match found with
         | None => completeSignature sig
         | Some order =>
             if negb (decideDispatch live (Some slot) None (negb (bool_decide (o_preimage order = None)))).1
             then completeSignature sig
             else
               _ ← sol_service (Service.recordSecret cfg now (o_publicId order) pre sig None (Some "solana_listener"));
               completeSignature sig
         end)
        (fun _ => mret false)
  | _, _ => completeSignature sig
  end.

Definition handle_refunded (now : Z) (sig : string) (slot : Z) (p : Payload) : SM bool :=
  match truthy_opt (coalesce (py_orderId p) (py_order_id p)) with
  | Some orderId =>
      try_catch
        (found ← sol_service (Service.findBySrcOrderId solana orderId);
         match found with
         | None => completeSignature sig
         | Some order =>
             if negb (decideDispatch live (Some slot) (o_srcLockBlock order) (refund_applied order)).1
             then completeSignature sig
             else
               _ ← sol_service (Service.markStatus cfg now (o_publicId order) refunded "solana_listener");
               completeSignature sig
         end)
        (fun _ => mret false)
  | None => completeSignature sig
  end.

Definition handleLogs (now : Z) (sig : string) (lines : list string) (slot : Z) : SM bool :=
  dup ← gets (sol_isDuplicate sig);
  if dup : bool then completeSignature sig
  else
    let p := payload_of lines in
    match solana_event_type lines with
    | None => completeSignature sig
    | Some OrderCreated => handle_created now sig slot p
    | Some OrderClaimed => handle_claimed now sig slot p
    | Some OrderRefunded => handle_refunded now sig slot p
    end.

(** ** Regressions *)

Definition rollback_slot (now : Z) (slot : Z) : SM unit :=
  ids ← gets (fun st => default [] (sm_get slot (so_bySlot st)));
  match ids with
  | [] => mret tt
  | _ =>
      _ ← for_each (fun publicId => try_catch (sol_service (Service.rollbackSrcLock cfg now publicId)) (fun _ => mret tt)) ids;
      modify (with_bySlot (sm_delete slot))
  end.

Definition handleRegression (now : Z) (newConfirmedSlot : Z) : SM unit :=
  last ← gets so_lastSlot;
  let slots := seqZ (newConfirmedSlot + 1) (last - newConfirmedSlot) in
  _ ← for_each (fun slot => modify (with_pending (sm_delete slot))) slots;
  _ ← for_each (rollback_slot now) slots;
  modify (with_lastSlot newConfirmedSlot).

(** ** The poll *)

Context (srv : Provider).

Definition sol_request {A} (q : SolRequest) (answer : list SolRequest -> option A) : SM (option A) := fun st =>
  let qs := so_requests st ++ [q] in
  (Ok (answer qs), with_so_request (so_stopped st || sol_stop_called srv qs) q st).

Definition provided {A} (o : option A) : SM A := match o with Some a => mret a | None => throw rpc_error end.

(** Queue one signature. *)
Definition queue_sig (s : SigInfo) : SM unit :=
  st ← gets (fun st => st);
  if (si_slot s <=? so_lastSlot st) || si_err s then mret tt
  else if sol_isDuplicate (si_signature s) st then mret tt
  else if isInPendingSlots (si_signature s) st then mret tt
  else modify (with_pending (sm_push (si_slot s) (si_signature s))).

Definition advance_lastSlot (sigs : list SigInfo) (confirmedSlot : Z) : SM unit :=
  modify (fun st =>
    match sigs with
    | [] => if so_lastSlot st =? 0 then with_lastSlot confirmedSlot st else st
    | _ => with_lastSlot (foldr Z.max (so_lastSlot st) (si_slot <$> sigs)) st
    end).

(** One queued signature of a finalized slot; true to keep it queued. *)
Definition drain_sig (now slot : Z) (sig : string) : SM bool :=
  dup ← gets (sol_isDuplicate sig);
  if dup : bool then mret false
  else
    a ← sol_request (QTransaction sig) (transaction_answer srv);
    match a with
    | None | Some None => mret true
    | Some (Some tx) =>
        if tx_err tx then _ ← markSigProcessed sig; mret false
        else
          handled ← try_catch (handleLogs now sig (tx_logs tx) slot) (fun _ => mret false);
          if handled : bool then _ ← markSigProcessed sig; mret false else mret true
    end.

(** The signatures of a slot that stay queued. *)
Fixpoint drain_sigs (now slot : Z) (sigs : list string) : SM (list string) :=
  match sigs with
  | [] => mret []
  | sig :: sigs' =>
      keep ← drain_sig now slot sig;
      rest ← drain_sigs now slot sigs';
      mret (if keep : bool then sig :: rest else rest)
  end.

Definition drain_slot (now finalizedSlot : Z) (e : Z * list string) : SM unit :=
  let '(slot, sigs) := e in
  if finalizedSlot - FINALIZATION_SLOTS <? slot then mret tt
  else
    retry ← drain_sigs now slot sigs;
    modify (with_pending (match retry with [] => sm_delete slot | _ => sm_set slot retry end)).

Definition prune (finalizedSlot : Z) : SM unit :=
  modify (with_bySlot (List.filter (fun e => negb (e.1 <? finalizedSlot - PROCESSED_SLOT_INDEX_MAX_AGE)))).

(** Steps c to e of a poll: queue, drain, prune. *)
Definition sol_scan (now finalizedSlot confirmedSlot : Z) : SM unit :=
  s ← sol_request QSignatures (signatures_answer srv);
  sigs ← provided s;
  _ ← for_each queue_sig sigs;
  _ ← advance_lastSlot sigs confirmedSlot;
  pending ← gets so_pending;
  _ ← for_each (drain_slot now finalizedSlot) pending;
  prune finalizedSlot.

Definition sol_poll (now : Z) : SM unit :=
  f ← sol_request QFinalized (slot_answer srv);
  c ← sol_request QConfirmed (slot_answer srv);
  finalizedSlot ← provided f;
  confirmedSlot ← provided c;
  last ← gets so_lastSlot;
  _ ← (if (0 <? last) && (confirmedSlot <? last - REGRESSION_THRESHOLD) then handleRegression now confirmedSlot else mret tt);
  sol_scan now finalizedSlot confirmedSlot.

(** The iterations of the loop, as far as their given times. *)
Fixpoint sol_polls (times : list Z) : SM unit :=
  match times with
  | [] => mret tt
  | now :: times' =>
      stopped ← gets so_stopped;
      if stopped : bool then mret tt
      else _ ← try_catch (sol_poll now) (fun _ => mret tt); sol_polls times'
  end.

(** [new PublicKey(programId)] throws when the id is not a public key; the
    loop makes it before its first iteration, outside the [try]. *)
Context (isPublicKey : string -> bool).

Definition PublicKey (programId : string) : SM unit :=
  if isPublicKey programId then mret tt else throw (PlainError None "Invalid public key input").

Definition sol_loop (programId : string) (times : list Z) : SM unit := _ ← PublicKey programId; sol_polls times.

(** [start] leaves the loop running ([void this.loop()]): an error of the loop
    is the answer here, a rejection that nothing handles. *)
Definition sol_start (programId : string) (times : list Z) : SM (option JsError) :=
  started ← gets so_started;
  if started : bool then mret None
  else if isSolanaPlaceholder (Some programId) then mret None
  else _ ← modify with_so_started; try_catch (_ ← sol_loop programId times; mret None) (fun e => mret (Some e)).
End SolanaListener.

(** ** Steps of the listener *)

Section Steps.
Context (cfg : Config) (jsonFields : string -> option Payload).

Record sstep (st st' : SolState) : Prop := mk_sstep {
  ss_follows : follows so_svc cfg st st';
  ss_sigs : cache_ok (so_sigs st) -> cache_ok (so_sigs st');
  ss_requests : so_requests st `prefix_of` so_requests st'
}.

#[export] Instance sstep_preorder : PreOrder sstep.
Proof. split; [by intros st; split|]. intros st1 st2 st3 [] []. split; [by etrans|by auto|by etrans]. Qed.

Lemma sol_call_step {A} (m : Svc A) now c :
  listener_call c -> (forall s, (m s).2 = run1 cfg now c s) -> respects sstep (sol_service m).
Proof.
  intros Hc Hm st. unfold sol_service, zoom. specialize (Hm (so_svc st)). destruct (m (so_svc st)) as [o s]. cbn in *.
  split; [by apply (follows_call _ _ now c)|done..].
Qed.

Lemma sol_read_step {A} (m : Svc A) : (forall s, (m s).2 = s) -> respects sstep (sol_service m).
Proof.
  intros Hm st. unfold sol_service, zoom. specialize (Hm (so_svc st)). destruct (m (so_svc st)) as [o s]. cbn in *.
  split; [by apply follows_same|done..].
Qed.

Lemma sol_srcLock_step now i : respects sstep (sol_service (Service.recordSrcLock cfg now i)).
Proof. by apply (sol_call_step _ now (CSrcLock i)). Qed.
Lemma sol_secret_step now p pre t e a : respects sstep (sol_service (Service.recordSecret cfg now p pre t e a)).
Proof. by apply (sol_call_step _ now (CSecret p pre t e a)). Qed.
Lemma sol_refund_step now p a : respects sstep (sol_service (Service.markStatus cfg now p refunded a)).
Proof. by apply (sol_call_step _ now (CMark p refunded a)). Qed.
Lemma sol_rollback_step now p : respects sstep (sol_service (Service.rollbackSrcLock cfg now p)).
Proof. by apply (sol_call_step _ now (CRollbackSrc p)). Qed.
Lemma sol_hashlock_step h : respects sstep (sol_service (Service.findByHashlock h)).
Proof. apply sol_read_step. intros s. by apply repo_query. Qed.
Lemma sol_srcOrder_step c i : respects sstep (sol_service (Service.findBySrcOrderId c i)).
Proof. apply sol_read_step. intros s. by apply repo_query. Qed.

(** Updates of the listener's own fields. *)
Lemma sol_own_step (f : SolState -> SolState) :
  (forall st, so_svc (f st) = so_svc st /\ so_sigs (f st) = so_sigs st /\ so_requests (f st) = so_requests st) ->
  respects (E := JsError) sstep (modify f).
Proof.
  intros Hf st. destruct (Hf st) as (Es & Ek & Er). cbn. split; [by apply follows_same|by rewrite Ek|by rewrite Er].
Qed.

Lemma markSig_step sig : respects sstep (markSigProcessed sig).
Proof. intros st. cbn. split; [by apply follows_same|apply mark_cache_ok|done]. Qed.

Lemma complete_step sig : respects sstep (completeSignature sig).
Proof. apply respects_bind; [apply _|apply markSig_step|]. intros _. by apply respects_ret, _. Qed.

Lemma pending_step f : respects (E := JsError) sstep (modify (with_pending f)).
Proof. by apply sol_own_step. Qed.
Lemma bySlot_step f : respects (E := JsError) sstep (modify (with_bySlot f)).
Proof. by apply sol_own_step. Qed.
Lemma lastSlot_step n : respects (E := JsError) sstep (modify (with_lastSlot n)).
Proof. by apply sol_own_step. Qed.
Lemma sol_request_step srv {A} q (answer : list SolRequest -> option A) : respects sstep (sol_request srv q answer).
Proof. intros st. cbn. split; [by apply follows_same|done|by exists [q]]. Qed.

#[local] Hint Resolve sol_srcLock_step sol_secret_step sol_refund_step sol_rollback_step sol_hashlock_step
  sol_srcOrder_step markSig_step complete_step pending_step bySlot_step lastSlot_step sol_request_step : respects.

Lemma handleLogs_step now sig lines slot : respects sstep (handleLogs cfg jsonFields now sig lines slot).
Proof. unfold handleLogs, handle_created, handle_claimed, handle_refunded. respects_solve. Qed.

Lemma handleRegression_step now c : respects sstep (handleRegression cfg now c).
Proof. unfold handleRegression, rollback_slot. respects_solve. Qed.

#[local] Hint Resolve handleLogs_step handleRegression_step : respects.

Context (srv : Provider).

Lemma drain_sig_step now slot sig : respects sstep (drain_sig cfg jsonFields srv now slot sig).
Proof. unfold drain_sig. respects_solve. Qed.

#[local] Hint Resolve drain_sig_step : respects.

Lemma drain_sigs_step now slot sigs : respects sstep (drain_sigs cfg jsonFields srv now slot sigs).
Proof. induction sigs; cbn [drain_sigs]; respects_solve. Qed.

#[local] Hint Resolve drain_sigs_step : respects.

Lemma drain_slot_step now f e : respects sstep (drain_slot cfg jsonFields srv now f e).
Proof. unfold drain_slot. respects_solve. Qed.

#[local] Hint Resolve drain_slot_step : respects.

Lemma sol_poll_step now : respects sstep (sol_poll cfg jsonFields srv now).
Proof.
  unfold sol_poll, sol_scan, provided, queue_sig, advance_lastSlot, prune. respects_solve.
  apply sol_own_step. intros st. by repeat case_match.
Qed.

#[local] Hint Resolve sol_poll_step : respects.

Lemma sol_polls_step times : respects sstep (sol_polls cfg jsonFields srv times).
Proof. induction times; cbn [sol_polls]; respects_solve. Qed.

Lemma sol_polls_ok times : ok_always (sol_polls cfg jsonFields srv times).
Proof.
  induction times as [|now times IH]; cbn [sol_polls]; [done|]. apply ok_bind; [done|]. intros [|]; [done|].
  apply ok_bind; [by apply ok_try|]. by intros _.
Qed.

Lemma sol_start_step key p times : respects sstep (sol_start cfg jsonFields srv key p times).
Proof.
  unfold sol_start, sol_loop, PublicKey. pose proof (sol_polls_step times) as Hl. respects_solve. by apply sol_own_step.
Qed.

(** [start] does not throw, and its loop is rejected, before it does anything,
    exactly when the program id is neither a placeholder nor a public key. *)
Lemma sol_start_runs key p times s :
  exists rejected st', sol_start cfg jsonFields srv key p times (new_solana s) = (Ok rejected, st') /\
    (rejected = None <-> isSolanaPlaceholder (Some p) = true \/ key p = true) /\
    (rejected <> None -> so_svc st' = s /\ so_requests st' = []).
Proof.
  unfold sol_start, sol_loop, PublicKey, mbind, st_bind, gets, modify, try_catch. cbn [so_started new_solana].
  destruct (isSolanaPlaceholder (Some p)); [by eexists _, _; split_and!; [done|split; [by left|done]|done]|].
  destruct (key p); cbn; [|by eexists _, _; split_and!; [done|split; [done|by intros [|]]|]].
  pose proof (sol_polls_ok times (with_so_started (new_solana s))) as Hok.
  destruct (sol_polls _ _ _ _ _) as [[[]|e] st']; [|done]. exists None, st'. split_and!; [done|split; [by right|done]|done].
Qed.
End Steps.

(** C28.  The Solana listener is safe whatever its RPC provider answers - failed
    calls, forks, repeated or forged transactions - and whenever it is stopped.
    Starting it on a coordinator in a reachable state does not throw, and no
    answer ends its loop: the loop is rejected exactly when the program id is
    neither a placeholder nor a public key, and then nothing was requested and
    no order touched.  In every case each order stays, moves only by lifecycle
    writes or by undoing its last lock, and holds what its status claims; an
    order that was terminal is frozen; the cache of processed signatures holds
    at most 10,000 distinct ones. *)
Theorem solana_listener_is_safe (cfg : Config) (json : string -> option Payload) (srv : Provider)
    (isPublicKey : string -> bool) (cs : list (Z * Call)) (programId : string) (times : list Z) :
  Forall (fun c => marks outcome_mark c.2) cs ->
  let s := OrderServiceSpec.run cfg cs init in
  exists rejected st', sol_start cfg json srv isPublicKey programId times (new_solana s) = (Ok rejected, st') /\
    (rejected = None <-> isSolanaPlaceholder (Some programId) = true \/ isPublicKey programId = true) /\
    (rejected <> None -> so_svc st' = s /\ so_requests st' = []) /\
    Forall row_ok (orders (db (so_svc st'))) /\
    (forall publicId r, row_of publicId (db s) = Some r ->
       exists r', row_of publicId (db (so_svc st')) = Some r' /\
         rtc (evolves life) r r' /\ (isTerminal (status r) = true -> frozen r r')) /\
    cache_ok (so_sigs st').
Proof.
  intros Hcs s. pose proof (sol_start_step cfg json srv isPublicKey programId times (new_solana s)) as [Hf Hk _].
  destruct (sol_start_runs cfg json srv isPublicKey programId times s) as (rejected & st' & E & Hr & Hn).
  rewrite E in Hf, Hk. exists rejected, st'. destruct (follows_orders so_svc cfg cs _ _ Hf Hcs eq_refl) as [Hrows Hlife].
  split_and!; [done|exact Hr|exact Hn|done|exact Hlife|apply Hk, cache_empty].
Qed.

(** A provider whose answers are those of the given polls, each with its
    finalized and confirmed slot and its signatures; every transaction locks
    the demo order. *)
Record DemoPoll : Type := mkDemoPoll { dp_final : Z; dp_confirmed : Z; dp_sigs : list SigInfo }.

Definition polls_so_far (qs : list SolRequest) : nat :=
  length (List.filter (fun q => match q with QFinalized => true | _ => false end) qs).

Definition demo_provider (polls : list DemoPoll) : Provider :=
  let current qs := polls !! (polls_so_far qs - 1)%nat in
  mkProvider
    (fun qs => p ← current qs;
               match last qs with Some QFinalized => Some (dp_final p) | _ => Some (dp_confirmed p) end)
    (fun qs => dp_sigs <$> current qs)
    (fun _ => Some (Some (mkParsedTx false ["OrderCreated"])))
    (fun _ => false).

Definition demo_fields (line : string) : option Payload :=
  Some (mkPayload (Value demo_hashlock) Absent (Value "7") Absent (Value 90) Absent Absent).

(** A check of program ids: 32 to 44 characters, none of them 0, O, I or l. *)
Definition demo_key (p : string) : bool :=
  (32 <=? String.length p)%nat && (String.length p <=? 44)%nat &&
  forallb (fun c => negb (existsb (Ascii.eqb c) (String.list_ascii_of_string "0OIl"))) (String.list_ascii_of_string p).
Definition demo_program : string := "HTLC2xqYwGmVdfZ7TnbRk9ePcUs3aJ6tL4vNhEMgXyB5".

Definition sol_demo (polls : list DemoPoll) : SolState :=
  (sol_start demo_cfg demo_fields (demo_provider polls) demo_key demo_program (repeat 2000 (length polls))
     (new_solana (OrderServiceSpec.run demo_cfg [(1000, CAnnounce demo_input)] init))).2.

Definition demo_status (st : SolState) : option OrderStatus := status <$> row_of demo_id (db (so_svc st)).

Lemma solana_listener_is_safe_witness :
  let polls := [mkDemoPoll 1000 1010 [mkSigInfo "s1" 900 false]] in
  Forall row_ok (orders (db (so_svc (sol_demo polls)))) /\ demo_status (sol_demo polls) = Some src_locked.
Proof.
  intros polls. split; [|by vm_compute].
  destruct (solana_listener_is_safe demo_cfg demo_fields (demo_provider polls) demo_key [(1000, CAnnounce demo_input)]
    demo_program (repeat 2000 (length polls))) as (rejected & st' & E & _ & _ & Hrows & _); [by repeat constructor|].
  unfold sol_demo. by rewrite E.
Defined.

(** ** How the listener loses events *)

(** A program id that is neither a placeholder nor a public key ends the loop
    with a rejection that nothing handles; the listener counts as started, so
    starting it again does nothing. *)
Example malformed_program_id :
  let start := sol_start demo_cfg demo_fields (demo_provider []) demo_key "not-a-key" [2000] in
  let '(a, st) := start (new_solana init) in
  a = Ok (Some (PlainError None "Invalid public key input")) /\ so_requests st = [] /\ start st = (Ok None, st).
Proof. by vm_compute. Qed.

(** A signature of a slot that was already listed is skipped, even when it is
    new: the lock [s2] is never queued. *)
Example same_slot_signature_lost :
  let st := sol_demo [mkDemoPoll 800 900 [mkSigInfo "s1" 900 true];
                      mkDemoPoll 1000 1010 [mkSigInfo "s2" 900 false; mkSigInfo "s1" 900 true]] in
  so_pending st = [] /\ so_sigs st = [] /\ demo_status st = Some announced.
Proof. by vm_compute. Qed.

(** A lagging endpoint looks like a fork: the recorded lock is undone.  When
    the slots are back, the signature is still in the cache of processed ones,
    so the lock is not recorded again. *)
Example rolled_back_lock_not_recorded_again :
  let lock := mkSigInfo "s1" 900 false in
  demo_status (sol_demo [mkDemoPoll 1000 1010 [lock]]) = Some src_locked /\
  demo_status (sol_demo [mkDemoPoll 1000 1010 [lock]; mkDemoPoll 780 800 [lock]]) = Some announced /\
  demo_status (sol_demo [mkDemoPoll 1000 1010 [lock]; mkDemoPoll 780 800 [lock]; mkDemoPoll 1100 1110 [lock]])
    = Some announced.
Proof. by vm_compute. Qed.
