(* ===== verification/SolanaQueue.v ===== *)
(** * What the Solana listener's queue guarantees.

    A signature is queued at most once, leaves the queue only when its slot is
    finalized and its transaction was fetched, and orders are only touched
    after such a fetch. *)

From S2P Require Import Prelude OrderMachine TransactionContract OrderRow OrdersRepo OrdersRepoFacts.
From S2P Require Import OrdersRepoSpec HistoryCache Notifications OrderService OrderServiceFacts.
From S2P Require Import OrderServiceSpec SecretService EventIdentity LedgerCursor Reconciler ReconcilerSpec ReconcilerSafety.
From S2P Require Import Listeners SolanaListener.

Import Service.

(** ** Slot maps *)

Definition queued (slot : Z) (sig : string) (m : slot_map) : Prop := exists sigs, (slot, sigs) ∈ m /\ sig ∈ sigs.

Lemma queued_all slot sig m : queued slot sig m -> sig ∈ sm_all m.
Proof. intros (sigs & Hm & Hs). apply list_elem_of_bind. by exists (slot, sigs). Qed.

Lemma all_queued sig m : sig ∈ sm_all m -> exists slot, queued slot sig m.
Proof. intros ([slot sigs] & Hs & Hm)%list_elem_of_bind. by exists slot, sigs. Qed.

Lemma queued_app slot sig m n : queued slot sig (m ++ n) <-> queued slot sig m \/ queued slot sig n.
Proof. unfold queued. setoid_rewrite elem_of_app. naive_solver. Qed.

Lemma queued_cons slot sig k sigs m : queued slot sig ((k, sigs) :: m) <-> (slot = k /\ sig ∈ sigs) \/ queued slot sig m.
Proof. unfold queued. setoid_rewrite elem_of_cons. naive_solver. Qed.

Lemma sm_all_app m n : sm_all (m ++ n) = sm_all m ++ sm_all n.
Proof. apply bind_app. Qed.

Lemma sm_all_cons k sigs m : sm_all ((k, sigs) :: m) = sigs ++ sm_all m.
Proof. done. Qed.

Lemma sm_push_nil k x : sm_push k x [] = [(k, [x])].
Proof. done. Qed.

Lemma sm_push_cons k x k' v m :
  sm_push k x ((k', v) :: m) = if k' =? k then (k', v ++ [x]) :: m else (k', v) :: sm_push k x m.
Proof. unfold sm_push. cbn. by destruct (k' =? k). Qed.

Lemma sm_push_all k x m : sm_all (sm_push k x m) ≡ₚ x :: sm_all m.
Proof.
  induction m as [|[k' v] m IH]; [done|]. rewrite sm_push_cons. destruct (k' =? k); rewrite !sm_all_cons.
  - rewrite <- (app_assoc v). cbn. by rewrite Permutation_middle.
  - rewrite IH. by rewrite Permutation_middle.
Qed.

Lemma sm_push_keys k x m : fst <$> sm_push k x m = (fst <$> m) ++ (if bool_decide (k ∈ fst <$> m) then [] else [k]).
Proof.
  induction m as [|[k' v] m IH]; [done|]. rewrite sm_push_cons. cbn [fmap list_fmap fst].
  destruct (Z.eqb_spec k' k) as [->|Hne]; cbn [fmap list_fmap fst].
  - rewrite bool_decide_true by (left; done). by rewrite app_nil_r.
  - rewrite IH. cbn. f_equal. f_equal. repeat case_bool_decide; set_solver.
Qed.

Lemma sm_push_queued k x m slot sig :
  queued slot sig (sm_push k x m) <-> queued slot sig m \/ (slot = k /\ sig = x).
Proof.
  induction m as [|[k' v] m IH].
  - rewrite sm_push_nil, queued_cons, list_elem_of_singleton. unfold queued. set_solver.
  - rewrite sm_push_cons. destruct (Z.eqb_spec k' k) as [->|]; rewrite !queued_cons; [|rewrite IH; naive_solver].
    rewrite elem_of_app, list_elem_of_singleton. naive_solver.
Qed.

(** *** One entry of a map whose keys are distinct *)
Lemma sm_set_mid k v v' m n : k ∉ fst <$> m -> sm_set k v' (m ++ (k, v) :: n) = m ++ (k, v') :: n.
Proof.
  induction m as [|[k' w] m IH]; intros Hk; cbn; [by rewrite Z.eqb_refl|].
  cbn in Hk. apply not_elem_of_cons in Hk as [Hne Hk]. destruct (Z.eqb_spec k' k); [congruence|]. by rewrite IH.
Qed.

Lemma sm_delete_absent k m : k ∉ fst <$> m -> sm_delete k m = m.
Proof.
  unfold sm_delete. induction m as [|[k' w] m IH]; intros Hk; cbn; [done|].
  cbn in Hk. apply not_elem_of_cons in Hk as [Hne Hk]. destruct (Z.eqb_spec k' k); [congruence|]. cbn. by rewrite IH.
Qed.

Lemma sm_delete_mid k v m n : k ∉ fst <$> m -> k ∉ fst <$> n -> sm_delete k (m ++ (k, v) :: n) = m ++ n.
Proof.
  intros Hm Hn. unfold sm_delete. rewrite List.filter_app. cbn. rewrite Z.eqb_refl. cbn.
  f_equal; by apply sm_delete_absent.
Qed.

(** ** Handling a transaction touches neither the queue nor the requests, and
    marks the signature exactly when it answers true *)

Definition bookkeeping (st : SolState) : slot_map * list SolRequest * list string :=
  (so_pending st, so_requests st, so_sigs st).

Definition settles_at (sig : string) (m : ST SolState JsError bool) (st : SolState) : Prop :=
  so_pending (m st).2 = so_pending st /\ so_requests (m st).2 = so_requests st /\
  (((m st).1 = Ok true /\ so_sigs (m st).2 = mark_processed sig (so_sigs st)) \/
   ((m st).1 <> Ok true /\ so_sigs (m st).2 = so_sigs st)).
Definition settles (sig : string) (m : ST SolState JsError bool) : Prop := forall st, settles_at sig m st.

Lemma settles_complete sig : settles sig (completeSignature sig).
Proof. intros st. split_and!; [done|done|by left]. Qed.

Lemma settles_false sig : settles sig (mret false).
Proof. intros st. split_and!; [done|done|by right]. Qed.

Lemma settles_bind {A} sig (m : ST SolState JsError A) k :
  keeps bookkeeping m -> (forall a, settles sig (k a)) -> settles sig (m ≫= k).
Proof.
  intros Hm Hk st. specialize (Hm st). unfold settles_at, mbind, st_bind. destruct (m st) as [[a|e] st1]; injection Hm as E1 E2 E3.
  - destruct (Hk a st1) as (K1 & K2 & K3). rewrite K1, K2, <- E1, <- E2, <- E3. by split_and!.
  - cbn. rewrite E1, E2, E3. split_and!; [done|done|by right].
Qed.

Lemma settles_try sig m : settles sig m -> settles sig (try_catch m (fun _ => mret false)).
Proof.
  intros Hm st. specialize (Hm st). unfold settles_at, try_catch in *. destruct (m st) as [[[]|e] st1]; [done|done|].
  cbn in *. destruct Hm as (? & ? & [[? _]|[_ ?]]); [done|]. split_and!; [done|done|by right].
Qed.

Lemma sol_service_keeps {A} (m : Svc A) : keeps bookkeeping (sol_service m).
Proof. intros st. unfold sol_service, zoom. by destruct (m (so_svc st)). Qed.

Lemma handleLogs_settles cfg json now sig lines slot st :
  sig ∉ so_sigs st -> settles_at sig (handleLogs cfg json now sig lines slot) st.
Proof.
  intros Hs. unfold settles_at, handleLogs, gets, mbind, st_bind, sol_isDuplicate, is_processed.
  rewrite bool_decide_false by done. cbv zeta. set (p := payload_of json lines).
  assert (settles sig (match solana_event_type lines with
    | None => completeSignature sig
    | Some OrderCreated => handle_created cfg now sig slot p
    | Some OrderClaimed => handle_claimed cfg now sig slot p
    | Some OrderRefunded => handle_refunded cfg now sig slot p
    end)) as H; [|apply H].
  unfold handle_created, handle_claimed, handle_refunded.
  repeat first
    [ apply settles_complete | apply settles_false
    | apply settles_try
    | apply settles_bind; [solve [apply sol_service_keeps | by apply keeps_modify]|intros ?]
    | match goal with
      | |- settles _ (if ?b then _ else _) => destruct b
      | |- settles _ (match ?x with _ => _ end) => destruct x
      end ].
Qed.

(** ** Draining *)

Section Drain.
Context (cfg : Config) (json : string -> option Payload) (srv : Provider) (now : Z).

(** The transaction of [sig] was requested between two states, and served. *)
Definition fetched (sig : string) (st st' : SolState) : Prop :=
  exists qs tx, so_requests st `prefix_of` qs /\ qs ++ [QTransaction sig] `prefix_of` so_requests st' /\
    transaction_answer srv (qs ++ [QTransaction sig]) = Some (Some tx).

Lemma fetched_mono sig st0 st st' st1 :
  so_requests st0 `prefix_of` so_requests st -> so_requests st' `prefix_of` so_requests st1 ->
  fetched sig st st' -> fetched sig st0 st1.
Proof. intros H0 H1 (qs & tx & H2 & H3 & H4). exists qs, tx. split_and!; [by etrans|by etrans|done]. Qed.

(** What draining a signature, or several, does. *)
Record drained (sigs keep : list string) (st st' : SolState) : Prop := {
  dr_pending : so_pending st' = so_pending st;
  dr_requests : so_requests st `prefix_of` so_requests st';
  dr_sigs : forall x, x ∈ so_sigs st' -> x ∈ so_sigs st \/ x ∈ sigs /\ x ∉ keep;
  dr_keep : keep `sublist_of` sigs;
  dr_dropped : forall x, x ∈ sigs -> x ∉ keep -> x ∉ so_sigs st -> fetched x st st';
  dr_service : so_svc st' = so_svc st \/ exists x, x ∈ sigs /\ fetched x st st'
}.

Lemma mark_mem k x cache : x ∈ mark_processed k cache -> x ∈ cache \/ x = k.
Proof.
  unfold mark_processed. case_match; [by left|]. rewrite elem_of_app, list_elem_of_singleton. intros [H'|]; [|by right].
  left. case_match; [|done]. destruct cache; [done|]. by right.
Qed.

Lemma drain_sig_spec slot sig st :
  exists b st', drain_sig cfg json srv now slot sig st = (Ok b, st') /\
    drained [sig] (if b : bool then [sig] else []) st st'.
Proof.
  unfold drain_sig. unfold gets at 1, mbind at 1, st_bind at 1, sol_isDuplicate, is_processed.
  case_bool_decide as Hdup.
  { exists false, st. split; [done|]. split; [done|done|by left|apply sublist_nil_l| |by left]. set_solver. }
  unfold sol_request, mbind at 1, st_bind at 1. set (qs := so_requests st ++ _). set (st1 := with_so_request _ _ st).
  assert (drained [sig] [sig] st st1) as Hkeep.
  { split; [done|by exists [QTransaction sig]|by left|done| |by left]. set_solver. }
  destruct (transaction_answer srv qs) as [[tx|]|] eqn:Ha; [|by exists true, st1..].
  assert (forall st2, so_requests st2 = so_requests st1 -> fetched sig st st2) as Hf.
  { intros st2 E. exists (so_requests st), tx. by rewrite E. }
  destruct (tx_err tx).
  { eexists false, _. split; [done|]. split; [done|by exists [QTransaction sig]| |apply sublist_nil_l| |by left].
    - intros x [?|?]%mark_mem; set_solver.
    - intros x ->%list_elem_of_singleton _ _. by apply Hf. }
  unfold mbind, st_bind, try_catch.
  destruct (handleLogs_settles cfg json now sig (tx_logs tx) slot st1 Hdup) as (Hp & Hr & Hsig).
  destruct (handleLogs cfg json now sig (tx_logs tx) slot st1) as [[[]|e] st2]; cbn in Hp, Hr, Hsig;
    (destruct Hsig as [[? Hsig]|[? Hsig]]; try done).
  - eexists false, _. split; [done|]. split; cbn; [done|by exists [QTransaction sig]; rewrite Hr| |apply sublist_nil_l| |].
    + intros x [Hx|?]%mark_mem; [rewrite Hsig in Hx; apply mark_mem in Hx as [?|?]|]; set_solver.
    + intros x ->%list_elem_of_singleton _ _. by apply Hf.
    + right. exists sig. split; [by left|]. by apply Hf.
  - exists true, st2. split; [done|]. split; [done|by exists [QTransaction sig]; rewrite Hr|rewrite Hsig; by left|done| |].
    + set_solver.
    + right. exists sig. split; [by left|]. by apply Hf.
  - exists true, st2. split; [done|]. split; [done|by exists [QTransaction sig]; rewrite Hr|rewrite Hsig; by left|done| |].
    + set_solver.
    + right. exists sig. split; [by left|]. by apply Hf.
Qed.

Lemma drained_nil st : drained [] [] st st.
Proof. split; [done|done|by left|done|set_solver|by left]. Qed.

Lemma drained_app l1 k1 l2 k2 st st1 st2 :
  NoDup (l1 ++ l2) -> drained l1 k1 st st1 -> drained l2 k2 st1 st2 -> drained (l1 ++ l2) (k1 ++ k2) st st2.
Proof.
  intros (_ & Hd & _)%NoDup_app [P1 R1 S1 K1 D1 V1] [P2 R2 S2 K2 D2 V2].
  assert (forall x, x ∈ l1 -> x ∈ k2 -> False) as Hx by (intros x H1 H2; eapply Hd, elem_of_sublist; eauto).
  assert (forall x, x ∈ l2 -> x ∈ k1 -> False) as Hy by (intros x H1 H2; eapply Hd; [eapply elem_of_sublist|]; eauto).
  split; [congruence|by etrans| |by apply sublist_app| |].
  - intros x [[?|[? ?]]%S1|[? ?]]%S2; [by left|right; set_solver|right]. rewrite !elem_of_app. naive_solver.
  - intros x Hin Hk Hs. apply not_elem_of_app in Hk as [Hk1 Hk2]. apply elem_of_app in Hin as [Hin|Hin].
    + eapply fetched_mono; [reflexivity|done|]. by apply D1.
    + eapply fetched_mono; [done|reflexivity|]. apply D2; [done..|]. intros [?|[? ?]]%S1; [done|]. by apply (Hd x).
  - destruct V2 as [E2|(x & Hin & Hf)].
    + destruct V1 as [E1|(x & Hin & Hf)]; [left; congruence|]. right. exists x. split; [set_solver|].
      by eapply fetched_mono; [reflexivity|..].
    + right. exists x. split; [set_solver|]. by eapply fetched_mono; [|reflexivity|].
Qed.

Lemma drain_sigs_spec slot sigs st :
  NoDup sigs -> exists keep st', drain_sigs cfg json srv now slot sigs st = (Ok keep, st') /\ drained sigs keep st st'.
Proof.
  revert st. induction sigs as [|sig sigs IH]; intros st Hd; [exists [], st; by split; [|apply drained_nil]|].
  cbn [drain_sigs]. destruct (drain_sig_spec slot sig st) as (b & st1 & E1 & H1). rewrite (bind_ok _ _ _ _ _ E1).
  destruct (IH st1) as (keep & st2 & E2 & H2); [by apply NoDup_cons in Hd as [_ ?]|]. rewrite (bind_ok _ _ _ _ _ E2).
  eexists _, st2. split; [done|].
  replace (if b then sig :: keep else keep) with ((if b then [sig] else []) ++ keep) by by destruct b.
  by apply (drained_app [sig] _ sigs keep st st1 st2).
Qed.

(** *** All finalized slots *)

Context (fin : Z).

(** From a queue to what is left of it. *)
Record drained_slots (m m' : slot_map) (st st' : SolState) : Prop := {
  ds_requests : so_requests st `prefix_of` so_requests st';
  ds_keys : fst <$> m' `sublist_of` fst <$> m;
  ds_all : sm_all m' `sublist_of` sm_all m;
  ds_sigs : forall x, x ∈ so_sigs st' -> x ∈ so_sigs st \/ x ∈ sm_all m /\ x ∉ sm_all m';
  ds_left : forall slot x, queued slot x m -> x ∉ so_sigs st ->
    queued slot x m' \/ slot <= fin - FINALIZATION_SLOTS /\ fetched x st st';
  ds_service : so_svc st' = so_svc st \/
    exists slot x, queued slot x m /\ slot <= fin - FINALIZATION_SLOTS /\ fetched x st st'
}.

Lemma drain_slot_spec done slot sigs rest st :
  so_pending st = done ++ (slot, sigs) :: rest -> NoDup (fst <$> so_pending st) -> NoDup sigs ->
  exists st' m, drain_slot cfg json srv now fin (slot, sigs) st = (Ok tt, st') /\
    so_pending st' = done ++ m ++ rest /\ drained_slots [(slot, sigs)] m st st'.
Proof.
  intros Hp Hk Hd. unfold drain_slot. destruct (Z.ltb_spec (fin - FINALIZATION_SLOTS) slot) as [Hlt|Hle].
  { exists st, [(slot, sigs)]. split_and!; [done|done|]. split; [done|done|done|by left|by left|by left]. }
  destruct (drain_sigs_spec slot sigs st Hd) as (keep & st1 & E1 & [P R S K D V]). rewrite (bind_ok _ _ _ _ _ E1).
  rewrite Hp, fmap_app, fmap_cons in Hk. apply NoDup_app in Hk as (_ & Hk1 & Hk2). apply NoDup_cons in Hk2 as [Hk2 _].
  cbn [fst] in *. assert (slot ∉ fst <$> done) as Hnot by (intros Hin; by apply (Hk1 slot Hin); left).
  assert (forall m, m = match keep with [] => [] | _ => [(slot, keep)] end ->
    drained_slots [(slot, sigs)] m st (with_pending (match keep with [] => sm_delete slot | _ => sm_set slot keep end) st1))
    as Hds.
  { intros m ->. assert (forall x, x ∈ sm_all (match keep with [] => [] | _ => [(slot, keep)] end) <-> x ∈ keep) as Hall.
    { intros x. destruct keep; [done|]. cbn. by rewrite app_nil_r. }
    split; [done| | | | |].
    - destruct keep; [apply sublist_nil_l|done].
    - cbn. rewrite app_nil_r. destruct keep; [apply sublist_nil_l|]. cbn. by rewrite app_nil_r.
    - intros x Hx. cbn in Hx. setoid_rewrite Hall. cbn. rewrite app_nil_r. auto.
    - intros sl x [[-> Hx]|Hx]%queued_cons Hs; [|by destruct Hx as (? & ?%elem_of_nil & _)].
      destruct (decide (x ∈ keep)) as [Hin|Hin]; [left|right; split; [done|by apply D]].
      destruct keep; [by apply elem_of_nil in Hin|]. apply queued_cons. by left.
    - destruct V as [?|(x & Hx & Hf)]; [by left|]. right. exists slot, x. split_and!; [|done|done].
      apply queued_cons. by left. }
  eexists _, _. split; [done|]. split; [|by apply Hds]. cbn. rewrite P, Hp.
  destruct keep; cbn [app]; [by apply sm_delete_mid|by apply sm_set_mid].
Qed.

Lemma drained_slots_app m1 n1 m2 n2 st st1 st2 :
  NoDup (sm_all (m1 ++ m2)) -> drained_slots m1 n1 st st1 -> drained_slots m2 n2 st1 st2 ->
  drained_slots (m1 ++ m2) (n1 ++ n2) st st2.
Proof.
  rewrite sm_all_app. intros (_ & Hd & _)%NoDup_app [R1 K1 A1 S1 D1 V1] [R2 K2 A2 S2 D2 V2].
  assert (forall x, x ∈ sm_all m1 -> x ∉ sm_all n2) as Hx by (intros x H1 H2; eapply Hd, elem_of_sublist; eauto).
  assert (forall x, x ∈ sm_all m2 -> x ∉ sm_all n1) as Hy by (intros x H1 H2; eapply Hd; [eapply elem_of_sublist|]; eauto).
  split; [by etrans|rewrite !fmap_app; by apply sublist_app|rewrite !sm_all_app; by apply sublist_app| | |].
  - rewrite !sm_all_app. setoid_rewrite elem_of_app.
    intros x [[?|[? ?]]%S1|[? ?]]%S2; [by left|right; naive_solver..].
  - intros slot x Hq Hs. rewrite queued_app in Hq |- *. destruct Hq as [Hq|Hq].
    + destruct (D1 slot x Hq Hs) as [?|[? Hf]]; [by left; left|]. right. split; [done|].
      by eapply fetched_mono; [reflexivity|..].
    + destruct (D2 slot x Hq) as [?|[? Hf]]; [|by left; right|].
      * intros [?|[? _]]%S1; [done|]. apply (Hd x); [done|]. by eapply queued_all.
      * right. split; [done|]. by eapply fetched_mono; [|reflexivity|].
  - destruct V2 as [E2|(sl & x & Hin & Hle & Hf)].
    + destruct V1 as [E1|(sl & x & Hin & Hle & Hf)]; [left; congruence|]. right. exists sl, x. rewrite queued_app.
      split_and!; [by left|done|]. by eapply fetched_mono; [reflexivity|..].
    + right. exists sl, x. rewrite queued_app. split_and!; [by right|done|]. by eapply fetched_mono; [|reflexivity|].
Qed.

Lemma drain_all done entries st :
  so_pending st = done ++ entries -> NoDup (fst <$> so_pending st) -> NoDup (sm_all entries) ->
  exists st' m, for_each (drain_slot cfg json srv now fin) entries st = (Ok tt, st') /\
    so_pending st' = done ++ m /\ drained_slots entries m st st'.
Proof.
  revert done st. induction entries as [|[slot sigs] entries IH]; intros done st Hp Hk Hd.
  - exists st, []. split_and!; [done|done|]. split; [done|done|done|by left|by left|by left].
  - rewrite sm_all_cons in Hd. pose proof Hd as (Hd1 & _ & Hd2)%NoDup_app.
    destruct (drain_slot_spec done slot sigs entries st Hp Hk Hd1) as (st1 & m1 & E1 & Hp1 & H1).
    destruct (IH (done ++ m1) st1) as (st2 & m2 & E2 & Hp2 & H2); [by rewrite Hp1, app_assoc| |done|].
    { eapply sublist_NoDup; [exact Hk|]. rewrite Hp, Hp1, !fmap_app, fmap_cons.
      apply sublist_app; [done|]. change (m1.*1 ++ entries.*1 `sublist_of` [slot] ++ entries.*1).
      apply sublist_app; [apply (ds_keys _ _ _ _ H1)|done]. }
    exists st2, (m1 ++ m2). cbn [for_each]. rewrite (bind_ok _ _ _ _ _ E1). rewrite Hp2, app_assoc.
    split_and!; [done|done|]. by apply (drained_slots_app [(slot, sigs)] m1 entries m2 st st1 st2).
Qed.
End Drain.

(** ** Queueing *)

(** Distinct slots, each signature queued once, none of them processed. *)
Definition queue_ok (st : SolState) : Prop :=
  NoDup (fst <$> so_pending st) /\ NoDup (sm_all (so_pending st)) /\
  forall x, x ∈ sm_all (so_pending st) -> x ∉ so_sigs st.

Definition unqueued (st : SolState) : State * list string * list SolRequest * Z :=
  (so_svc st, so_sigs st, so_requests st, so_lastSlot st).

Lemma isInPendingSlots_all sig st : isInPendingSlots sig st = false -> sig ∉ sm_all (so_pending st).
Proof.
  intros H (slot & sigs & Hm & Hs)%all_queued. unfold isInPendingSlots in H.
  apply not_true_iff_false in H. apply H, existsb_exists. exists (slot, sigs). split; [by apply list_elem_of_In|].
  apply existsb_exists. exists sig. split; [by apply list_elem_of_In|apply String.eqb_refl].
Qed.

Definition wanted (st : SolState) (s : SigInfo) : Prop := so_lastSlot st < si_slot s /\ si_err s = false.

Lemma queue_sig_spec s st :
  queue_ok st -> exists st', queue_sig s st = (Ok tt, st') /\ queue_ok st' /\ unqueued st' = unqueued st /\
    (forall slot x, queued slot x (so_pending st) -> queued slot x (so_pending st')) /\
    (wanted st s -> si_signature s ∈ so_sigs st \/ si_signature s ∈ sm_all (so_pending st')).
Proof.
  intros (Hk & Ha & Hs). unfold queue_sig, wanted. rewrite (bind_ok _ _ _ st st) by done.
  destruct (Z.leb_spec (si_slot s) (so_lastSlot st)) as [Hle|Hlt]; cbn [orb].
  { exists st. split_and!; [done..|]. lia. }
  destruct (si_err s). { exists st. split_and!; [done..|]. by intros [_ ?]. }
  unfold sol_isDuplicate, is_processed. case_bool_decide as Hdup. { exists st. split_and!; [done..|]. by left. }
  destruct (isInPendingSlots (si_signature s) st) eqn:Hin.
  { exists st. split_and!; [done..|]. intros _. right. unfold isInPendingSlots in Hin.
    apply existsb_exists in Hin as ([slot sigs] & Hm & (x & Hx & ->%String.eqb_eq)%existsb_exists).
    apply (queued_all slot). exists sigs. by split; apply list_elem_of_In. }
  apply isInPendingSlots_all in Hin. eexists. split; [done|]. cbn.
  assert (forall x, x ∈ sm_all (sm_push (si_slot s) (si_signature s) (so_pending st)) <->
    x = si_signature s \/ x ∈ sm_all (so_pending st)) as Hall by (intros x; by rewrite sm_push_all, elem_of_cons).
  split_and!; [|done| |].
  - split_and!; cbn.
    + rewrite sm_push_keys. case_bool_decide; [by rewrite app_nil_r|]. apply NoDup_app. split_and!; [done|set_solver|].
      apply NoDup_singleton.
    + rewrite sm_push_all. by constructor.
    + intros x [->|?]%Hall; auto.
  - intros slot x Hq. apply sm_push_queued. by left.
  - intros _. right. apply Hall. by left.
Qed.

Lemma queue_all_spec sigs st :
  queue_ok st -> exists st', for_each queue_sig sigs st = (Ok tt, st') /\ queue_ok st' /\ unqueued st' = unqueued st /\
    (forall slot x, queued slot x (so_pending st) -> queued slot x (so_pending st')) /\
    (forall s, s ∈ sigs -> wanted st s -> si_signature s ∈ so_sigs st \/ si_signature s ∈ sm_all (so_pending st')).
Proof.
  revert st. induction sigs as [|s sigs IH]; intros st Hq; [exists st; split_and!; try done; set_solver|].
  destruct (queue_sig_spec s st Hq) as (st1 & E1 & Hq1 & U1 & M1 & W1).
  destruct (IH st1 Hq1) as (st2 & E2 & Hq2 & U2 & M2 & W2). exists st2. cbn [for_each].
  rewrite (bind_ok _ _ _ _ _ E1). split_and!; [done|done|congruence|auto|].
  injection U1 as _ Es _ El. unfold wanted in *. rewrite El, Es in W2.
  intros s' [->|Hin]%elem_of_cons Hw; [|by apply W2]. destruct (W1 Hw) as [?|(slot & Hsl)%all_queued]; [by left|right].
  apply (queued_all slot). by apply M2.
Qed.

(** ** Regressions only drop *)

Lemma sm_delete_sublist k m : (fst <$> sm_delete k m) `sublist_of` (fst <$> m) /\ sm_all (sm_delete k m) `sublist_of` sm_all m.
Proof.
  unfold sm_delete. induction m as [|[k' v] m [IH1 IH2]]; [done|]. cbn [List.filter fst]. destruct (k' =? k); cbn [negb].
  - split; [by apply sublist_cons|]. rewrite sm_all_cons. by apply sublist_inserts_l.
  - split; [by apply sublist_skip|]. rewrite !sm_all_cons. by apply sublist_app.
Qed.

Lemma queue_ok_delete k st : queue_ok st -> queue_ok (with_pending (sm_delete k) st).
Proof.
  intros (Hk & Ha & Hs). destruct (sm_delete_sublist k (so_pending st)) as [H1 H2].
  split_and!; cbn; [by eapply sublist_NoDup|by eapply sublist_NoDup|]. intros x Hx. apply Hs. by eapply elem_of_sublist.
Qed.

Definition keeps_queue (st st' : SolState) : Prop :=
  (queue_ok st -> queue_ok st') /\ so_requests st' = so_requests st.

#[export] Instance keeps_queue_preorder : PreOrder keeps_queue.
Proof. split; [by intros st|]. intros st1 st2 st3 [] []. split; [by auto|congruence]. Qed.

Lemma handleRegression_queue cfg now c : respects keeps_queue (handleRegression cfg now c).
Proof.
  assert (forall A (m : Svc A), respects keeps_queue (sol_service m)) as Hm.
  { intros A m st. unfold sol_service, zoom. by destruct (m (so_svc st)). }
  assert (forall f, respects (E := JsError) keeps_queue (modify (with_bySlot f))) as Hb by (intros f st; done).
  assert (forall k, respects (E := JsError) keeps_queue (modify (with_pending (sm_delete k)))) as Hp.
  { intros k st. split; [apply queue_ok_delete|done]. }
  unfold handleRegression, rollback_slot. respects_solve. by intros st.
Qed.

Lemma handleRegression_ok cfg now c : ok_always (handleRegression cfg now c).
Proof.
  unfold handleRegression, rollback_slot. apply ok_bind; [done|]. intros last.
  apply ok_bind; [by apply for_each_ok|]. intros _. apply ok_bind; [|done]. apply for_each_ok. intros slot.
  apply ok_bind; [done|]. intros [|id ids]; [done|]. apply ok_bind; [|done]. apply for_each_ok. intros p. by apply ok_try.
Qed.

(** ** A poll *)

Section Poll.
Context (cfg : Config) (json : string -> option Payload) (srv : Provider).

(** What a scan does to the queue it starts from. *)
Record scanned (fin : Z) (sigs : list SigInfo) (st st' : SolState) : Prop := {
  sc_ok : queue_ok st';
  sc_requests : so_requests st `prefix_of` so_requests st';
  sc_left : forall slot x, queued slot x (so_pending st) ->
    queued slot x (so_pending st') \/ slot <= fin - FINALIZATION_SLOTS /\ fetched srv x st st';
  sc_new : forall s, s ∈ sigs -> wanted st s -> si_signature s ∈ so_sigs st \/
    exists slot, queued slot (si_signature s) (so_pending st') \/
                 slot <= fin - FINALIZATION_SLOTS /\ fetched srv (si_signature s) st st';
  sc_service : so_svc st' = so_svc st \/
    exists slot x, slot <= fin - FINALIZATION_SLOTS /\ fetched srv x st st'
}.

Lemma advance_spec sigs c st :
  exists st', advance_lastSlot sigs c st = (Ok tt, st') /\ so_pending st' = so_pending st /\ so_svc st' = so_svc st /\
    so_sigs st' = so_sigs st /\ so_requests st' = so_requests st.
Proof. eexists. split; [done|]. cbn. by repeat case_match. Qed.

Lemma sol_scan_spec now fin conf st :
  queue_ok st ->
  let sigs := signatures_answer srv (so_requests st ++ [QSignatures]) in
  exists st', sol_scan cfg json srv now fin conf st = (match sigs with Some _ => Ok tt | None => Throw rpc_error end, st') /\
    scanned fin (default [] sigs) st st'.
Proof.
  intros Hq sigs. unfold sol_scan. set (st0 := with_so_request (so_stopped st || sol_stop_called srv (so_requests st ++ [QSignatures])) QSignatures st).
  rewrite (bind_ok _ _ _ sigs st0) by done.
  assert (so_requests st `prefix_of` so_requests st0) as Hreq by by exists [QSignatures].
  destruct sigs as [sigs|].
  2:{ exists st0. split; [done|]. split; [done|done|by left|set_solver|by left]. }
  rewrite (bind_ok _ _ st0 sigs st0) by done.
  destruct (queue_all_spec sigs st0 Hq) as (st1 & E1 & Hq1 & U1 & M1 & W1). rewrite (bind_ok _ _ _ _ _ E1).
  injection U1 as Us Ug Ur Ul. destruct (advance_spec sigs conf st1) as (st2 & E2 & P2 & S2 & G2 & R2).
  rewrite (bind_ok _ _ _ _ _ E2). rewrite (bind_ok _ _ st2 (so_pending st2) st2) by done.
  destruct Hq1 as (Hk1 & Ha1 & Hs1). rewrite <- P2 in Hk1, Ha1, Hs1, M1, W1.
  destruct (drain_all cfg json srv now fin [] (so_pending st2) st2 eq_refl Hk1 Ha1) as (st3 & m & E3 & P3 & [R K A S D V]).
  rewrite (bind_ok _ _ _ _ _ E3). eexists. split; [done|]. cbn [app] in P3.
  assert (forall x, fetched srv x st2 st3 -> fetched srv x st st3) as Hf.
  { intros x. apply fetched_mono; [|done]. rewrite R2, Ur. exact Hreq. }
  assert (forall slot x, queued slot x (so_pending st2) ->
    queued slot x (so_pending st3) \/ slot <= fin - FINALIZATION_SLOTS /\ fetched srv x st st3) as Hleft.
  { intros slot x Hx. rewrite P3. destruct (D slot x Hx) as [?|[? ?]]; [|by left|right; auto].
    rewrite G2. by eapply Hs1, queued_all. }
  split; cbn.
  - split_and!; cbn; rewrite P3; [by eapply sublist_NoDup|by eapply sublist_NoDup|].
    intros x Hx [Hin|[_ Hn]]%S; [|done]. rewrite G2 in Hin. apply (Hs1 x); [|done].
    eapply elem_of_sublist; [exact Hx|exact A].
  - etrans; [exact Hreq|]. change (so_requests st0) with (so_requests st ++ [QSignatures]). by rewrite <- Ur, <- R2.
  - intros slot x Hx. by apply Hleft, M1.
  - intros s Hs Hw. destruct (W1 s Hs) as [?|(slot & Hsl)%all_queued]; [done|by left|right]. exists slot. by apply Hleft.
  - destruct V as [V|(slot & x & _ & ? & ?)]; [left; congruence|right; exists slot, x; split; [done|by apply Hf]].
Qed.
End Poll.

(** The Solana queue discipline: whatever the provider answers, a poll
    keeps the queue in order - distinct slots, every signature queued once, none
    of them processed.  When both slots are known and the confirmed slot has not
    fallen, a queued signature is still queued after the poll, under its slot,
    or its slot is at least 32 behind the finalized one and its transaction was
    fetched; a successful signature of a new slot that the provider lists was
    already processed, is queued, or was fetched after finalization; and the
    coordinator's state changes only if some finalized transaction was fetched. *)
Lemma solana_queue_discipline (cfg : Config) (json : string -> option Payload) (srv : Provider) (now : Z)
    (st : SolState) :
  queue_ok st ->
  let st' := (sol_poll cfg json srv now st).2 in
  let qs := so_requests st ++ [QFinalized; QConfirmed] in
  queue_ok st' /\
  forall fin conf,
    slot_answer srv (so_requests st ++ [QFinalized]) = Some fin -> slot_answer srv qs = Some conf ->
    so_lastSlot st <= 0 \/ so_lastSlot st - REGRESSION_THRESHOLD <= conf ->
    (forall slot x, queued slot x (so_pending st) ->
       queued slot x (so_pending st') \/ slot <= fin - FINALIZATION_SLOTS /\ fetched srv x st st') /\
    (forall sigs s, signatures_answer srv (qs ++ [QSignatures]) = Some sigs -> s ∈ sigs -> wanted st s ->
       si_signature s ∈ so_sigs st \/
       exists slot, queued slot (si_signature s) (so_pending st') \/
                    slot <= fin - FINALIZATION_SLOTS /\ fetched srv (si_signature s) st st') /\
    (so_svc st' = so_svc st \/ exists slot x, slot <= fin - FINALIZATION_SLOTS /\ fetched srv x st st').
Proof.
  intros Hq st' qs. pose proof (eq_refl (sol_poll cfg json srv now st)) as Hp. unfold sol_poll in Hp at 2.
  set (st1 := with_so_request (so_stopped st || sol_stop_called srv (so_requests st ++ [QFinalized])) QFinalized st) in *.
  set (st2 := with_so_request (so_stopped st1 || sol_stop_called srv (so_requests st1 ++ [QConfirmed])) QConfirmed st1) in *.
  assert (so_requests st2 = qs) as Eqs by (cbn; by rewrite <- app_assoc).
  assert (so_requests st `prefix_of` so_requests st2) as Hpre by (rewrite Eqs; by exists [QFinalized; QConfirmed]).
  rewrite (bind_ok _ _ st (slot_answer srv (so_requests st ++ [QFinalized])) st1) in Hp by done.
  rewrite (bind_ok _ _ st1 (slot_answer srv qs) st2) in Hp by (unfold sol_request; by rewrite <- Eqs).
  destruct (slot_answer srv (so_requests st ++ [QFinalized])) as [f|]; [|unfold st'; rewrite Hp; by split; [|naive_solver]].
  rewrite (bind_ok _ _ st2 f st2) in Hp by done.
  destruct (slot_answer srv qs) as [c|]; [|unfold st'; rewrite Hp; by split; [|naive_solver]].
  rewrite (bind_ok _ _ st2 c st2) in Hp by done.
  rewrite (bind_ok _ _ st2 (so_lastSlot st) st2) in Hp by done.
  destruct ((0 <? so_lastSlot st) && (c <? so_lastSlot st - REGRESSION_THRESHOLD)) eqn:Hreg.
  - pose proof (handleRegression_ok cfg now c st2) as Hok. destruct (handleRegression_queue cfg now c st2) as [Hq3 _].
    destruct (handleRegression cfg now c st2) as [[[]|e] st3] eqn:E3; [|done].
    rewrite (bind_ok _ _ st2 tt st3) in Hp by done. cbn [snd] in Hq3.
    destruct (sol_scan_spec cfg json srv now f c st3 (Hq3 Hq)) as (st4 & E4 & [Hok4 _ _ _ _]).
    unfold st'. rewrite Hp, E4. split; [done|]. intros ? ? [= <-] [= <-] Hlast. bools. lia.
  - rewrite (bind_ok _ _ st2 tt st2) in Hp by done.
    destruct (sol_scan_spec cfg json srv now f c st2 Hq) as (st4 & E4 & [Hok4 _ HL HN HS]).
    assert (forall x, fetched srv x st2 st4 -> fetched srv x st st4) as Hf by (intros x; by apply fetched_mono).
    unfold st'. rewrite Hp, E4. cbn [snd]. rewrite Eqs in HN. split; [done|]. intros ? ? [= <-] [= <-] _. split_and!.
    + intros slot x Hx. destruct (HL slot x Hx) as [?|[? ?]]; auto.
    + intros sigs s Hsigs Hs Hw. rewrite Hsigs in HN. destruct (HN s Hs Hw) as [?|(slot & [?|[? ?]])]; [by left| |];
        right; exists slot; auto.
    + destruct HS as [?|(slot & x & ? & ?)]; [by left|right]. exists slot, x. auto.
Qed.

Lemma solana_queue_discipline_witness :
  let st := (sol_poll demo_cfg demo_fields (demo_provider [mkDemoPoll 900 910 [mkSigInfo "s1" 905 false]]) 2000
               (new_solana init)).2 in
  queue_ok st /\ queued 905 "s1" (so_pending st).
Proof.
  intros st. split; [|exists ["s1"]; by split; vm_compute; left].
  apply (solana_queue_discipline demo_cfg demo_fields (demo_provider [mkDemoPoll 900 910 [mkSigInfo "s1" 905 false]]) 2000
    (new_solana init)).
  split_and!; cbn; [constructor|constructor|set_solver].
Defined.
