(* ===== verification/KyselyRepo.v ===== *)
(** * The Kysely orders repository
    (coordinator/src/persistence/orders-repo-kysely.ts).

    A second implementation of the repository on a query builder, advertised
    with the same API.  One definition per method, over the same tables.  It
    runs its statements without a transaction, appends no event for a
    rollback, and has no case for a status update that changes nothing.  The
    theorem relates it to the repository of OrdersRepo.v: run the same calls
    on both, and they answer alike and hold the same orders up to the
    modification time.  The event trails differ, as the examples show. *)

From S2P Require Import Prelude Text Json PageCursor OrderMachine TransactionContract OrderRow OrdersRepo.
From S2P Require Import OrdersRepoFacts OrdersRepoSpec.

Module Kysely.

(** [rowToOrder]: the cancellation reason is not among its columns. *)
Definition rowToOrder (r : OrderDbRow) : OrderRow := {|
  o_id := row_id r;
  o_publicId := public_id r;
  o_direction := direction r;
  o_status := status r;
  o_hashlock := hashlock r;
  o_srcChain := src_chain r;
  o_srcAddress := src_address r;
  o_srcAsset := src_asset r;
  o_srcAmount := src_amount r;
  o_srcSafetyDeposit := src_safety_deposit r;
  o_srcOrderId := src_order_id r;
  o_srcLockTx := src_lock_tx r;
  o_srcLockBlock := src_lock_block r;
  o_srcTimelock := src_timelock r;
  o_dstChain := dst_chain r;
  o_dstAddress := dst_address r;
  o_dstAsset := dst_asset r;
  o_dstAmount := dst_amount r;
  o_dstOrderId := dst_order_id r;
  o_dstLockTx := dst_lock_tx r;
  o_dstLockBlock := dst_lock_block r;
  o_dstTimelock := dst_timelock r;
  o_preimage := preimage r;
  o_preimageEncVersion := preimage_enc_version r;
  o_secretRevealedTx := secret_revealed_tx r;
  o_resolverAddress := resolver_address r;
  o_lastEthBlock := last_eth_block r;
  o_lastSorobanLedger := last_soroban_ledger r;
  o_lastSolanaSlot := last_solana_slot r;
  o_createdAt := created_at r;
  o_updatedAt := updated_at r;
  o_archivedAt := archived_at r;
  o_cancellationReason := None
|}.

(** ** Writes *)

Definition announce (now : Z) (input : AnnounceOrderInput) : Repo OrderRow := fun d =>
  match orderIdFromHashlock (a_hashlock input) with
  | Throw e => (Throw e, d)
  | Ok publicId =>
      match sql_get (by_public_id publicId) (orders d) with
      | Some _ => (Throw (PlainError (Some "ERR_SQLITE_ERROR")
                            "UNIQUE constraint failed: orders.public_id"), d)
      | None =>
          let d' := mkDb (orders d ++ [insertRow (next_order_id d) publicId input (seconds now)])
                         (order_events d) (processed_events d) (chain_cursors d)
                         (soroban_checkpoints d) (next_order_id d + 1) (next_event_id d) in
          match sql_get (by_public_id publicId) (orders d') with
          | None => (Throw (PlainError None "Failed to insert order"), d')
          | Some row => (Ok (rowToOrder row), d')
          end
      end
  end.

Definition setStatus (now : Z) (publicId : string) (s : OrderStatus) (actor : string)
    (expectedStatus : option OrderStatus) : Repo unit :=
  order ← select_public publicId;
  changes ← run_update (fun r => by_public_id publicId r &&
                match expectedStatus with Some e => bool_decide (status r = e) | None => true end)
              (set_status s (seconds now));
  if changes =? 0 then
    match order with
    | None => throw (NOT_FOUND publicId)
    | Some o => throw (STALE_STATUS publicId (status o) expectedStatus)
    end
  else
    match order with
    | Some o => appendTransitionEvent now (row_id o) "status.transitioned"
                  (payload actor (status o) s "transitioned" None None None now)
    | None => mret tt
    end.

Definition recordSrcLock (now : Z) (input : LockInput) : Repo unit :=
  order ← select_public (l_publicId input);
  match order with
  | None => mret tt
  | Some o =>
      let actor := default "system" (l_actor input) in
      let event (kind : string) (to : OrderStatus) (outcome_ : string) :=
        appendTransitionEvent now (row_id o) kind
          (payload actor (status o) to outcome_ (Some (l_txHash input))
             (Some (l_blockNumber input)) None now) in
      if isTerminal (status o) then event "src_lock.no_op" (status o) "no_op:terminal"
      else
        let nextStatus := if canTransition (status o) src_locked then src_locked else status o in
        _ ← run_update (by_public_id (l_publicId input))
              (set_src_lock (Some (l_orderId input)) (Some (l_txHash input))
                 (Some (l_blockNumber input)) (Some (l_timelock input)) nextStatus (seconds now));
        let outcome_ := if bool_decide (nextStatus = status o) then "no_op:already_at_target" else "transitioned" in
        event (if bool_decide (nextStatus = status o) then "src_lock.no_op" else "src_lock.transitioned")
          nextStatus outcome_
  end.

Definition recordDstLock (now : Z) (input : LockInput) : Repo unit :=
  order ← select_public (l_publicId input);
  match order with
  | None => mret tt
  | Some o =>
      let actor := default "system" (l_actor input) in
      let event (kind : string) (to : OrderStatus) (outcome_ : string) :=
        appendTransitionEvent now (row_id o) kind
          (payload actor (status o) to outcome_ (Some (l_txHash input))
             (Some (l_blockNumber input)) None now) in
      if isTerminal (status o) then event "dst_lock.no_op" (status o) "no_op:terminal"
      else
        let nextStatus := if canTransition (status o) dst_locked then dst_locked else status o in
        _ ← run_update (by_public_id (l_publicId input))
              (set_dst_lock (Some (l_orderId input)) (Some (l_txHash input))
                 (Some (l_blockNumber input)) (Some (l_timelock input)) (l_resolver input) nextStatus
                 (seconds now));
        let outcome_ := if bool_decide (nextStatus = status o) then "no_op:already_at_target" else "transitioned" in
        event (if bool_decide (nextStatus = status o) then "dst_lock.no_op" else "dst_lock.transitioned")
          nextStatus outcome_
  end.

Definition recordSecretRevealed (now : Z) (publicId pre txHash : string) (encVersion : option Z)
    (actor_ : option string) : Repo unit :=
  order ← select_public publicId;
  match order with
  | None => mret tt
  | Some o =>
      let actor := default "system" actor_ in
      let event (kind : string) (to : OrderStatus) (outcome_ : string) :=
        appendTransitionEvent now (row_id o) kind
          (payload actor (status o) to outcome_ (Some txHash) None None now) in
      if isTerminal (status o) then event "secret_revealed.no_op" (status o) "no_op:terminal"
      else if bool_decide (preimage o = Some pre)
      then event "secret_revealed.no_op" (status o) "no_op:idempotent"
      else
        _ ← run_update (by_public_id publicId) (set_secret pre encVersion txHash (seconds now));
        event "secret_revealed.transitioned" secret_revealed "transitioned"
  end.

Definition archiveOrder (now : Z) (publicId : string) : Repo unit :=
  _ ← run_update (fun r => by_public_id publicId r && bool_decide (archived_at r = None))
        (set_archived (Some (seconds now)) (seconds now));
  mret tt.

Definition unarchiveOrder (now : Z) (publicId : string) : Repo unit :=
  _ ← run_update (fun r => by_public_id publicId r && bool_decide (is_Some (archived_at r)))
        (set_archived None (seconds now));
  mret tt.

Definition rollbackSrcLock (now : Z) (publicId : string) : Repo unit :=
  _ ← run_update (fun r => by_public_id publicId r && bool_decide (status r = src_locked))
        (set_src_lock None None None None announced (seconds now));
  mret tt.

Definition rollbackDstLock (now : Z) (publicId : string) : Repo unit :=
  _ ← run_update (fun r => by_public_id publicId r && bool_decide (status r = dst_locked))
        (set_dst_lock None None None None None src_locked (seconds now));
  mret tt.

(** [MAX(chain_cursors.position, excluded.position)]. *)
Definition setChainCursor (now : Z) (chain : Chain) (position : Z) : Repo unit :=
  modify (fun d =>
    let p := match chain_cursors d !! chain with
             | Some (old, _) => Z.max old position
             | None => position
             end in
    with_cursors d (<[chain := (p, seconds now)]> (chain_cursors d))).

Definition saveSorobanCheckpoint (now : Z) (contract : string) (ledger : Z) (cur : option string)
    (marker : SorobanRecoveryMarker) : Repo unit :=
  modify (fun d =>
    let l := match soroban_checkpoints d !! contract with
             | Some old => if lastSafeLedger old <? ledger then ledger else lastSafeLedger old
             | None => ledger
             end in
    with_checkpoints d
      (<[contract := mkSorobanCheckpoint contract l cur marker (seconds now)]> (soroban_checkpoints d))).

Definition markSorobanRecovery (now : Z) (contract : string) (marker : SorobanRecoveryMarker)
  : Repo Z := fun d =>
  match soroban_checkpoints d !! contract with
  | None => (Ok 0, d)
  | Some old =>
      (Ok 1, with_checkpoints d
        (<[contract := mkSorobanCheckpoint (contractId old) (lastSafeLedger old) (effectiveCursor old)
                         marker (seconds now)]> (soroban_checkpoints d)))
  end.

(** The [sets] object holds [updated_at] and one entry per usable position. *)
Definition advanceOrderLedgerCursor (now : Z) (publicId : string) (update : OrderLedgerCursor)
  : Repo unit :=
  let sets := List.filter usable [lastEthBlock update; lastSorobanLedger update; lastSolanaSlot update] in
  if Nat.leb (S (length sets)) 1 then mret tt
  else
    _ ← run_update (by_public_id publicId) (fun r =>
          set_cursors (advance_col (lastEthBlock update) (last_eth_block r))
                      (advance_col (lastSorobanLedger update) (last_soroban_ledger r))
                      (advance_col (lastSolanaSlot update) (last_solana_slot r)) (seconds now) r);
    mret tt.

Definition updateOrderCursor (now : Z) (publicId : string) (chain : Chain) (position : Z) : Repo unit :=
  _ ← run_update (by_public_id publicId) (fun r =>
        set_cursor_col chain (Some (Z.max (default 0 (cursor_col chain r)) position)) (seconds now) r);
  mret tt.

(** ** Reads *)

Definition findByPublicId (publicId : string) : Repo (option OrderRow) :=
  gets (fun d => rowToOrder <$> sql_get (by_public_id publicId) (orders d)).

Definition findByHashlock (h : string) : Repo (option OrderRow) :=
  gets (fun d => rowToOrder <$> sql_get (fun r => bool_decide (hashlock r = h)) (orders d)).

Definition findBySrcOrderId (chain : Chain) (orderId : string) : Repo (option OrderRow) :=
  gets (fun d => rowToOrder <$> sql_get (fun r =>
    bool_decide (src_chain r = chain) && bool_decide (src_order_id r = Some orderId)) (orders d)).

Definition findByDstOrderId (chain : Chain) (orderId : string) : Repo (option OrderRow) :=
  gets (fun d => rowToOrder <$> sql_get (fun r =>
    bool_decide (dst_chain r = chain) && bool_decide (dst_order_id r = Some orderId)) (orders d)).

Definition findByAddress (addr : string) (limit offset : Z) : Repo (list OrderRow) :=
  gets (fun d => rowToOrder <$>
    sql_limit limit (sql_offset offset (sql_order newer (sql_select (has_address addr) (orders d))))).

(** The rows of a page and the cursor after it. *)
Definition history_page (limit : Z) (rows : list OrderDbRow) : OrderHistoryResult :=
  let hasMore := limit <? Z.of_nat (length rows) in
  let page := rowToOrder <$> (if hasMore then take (Z.to_nat limit) rows else rows) in
  mkOrderHistoryResult page
    (if hasMore then (fun o => encodeCursor (o_createdAt o) (o_id o)) <$> last page else None).

Definition findByAddressWithCursor (addr : string) (limit : Z) (cursor : option string)
  : Repo OrderHistoryResult :=
  if bool_decide (cursor = Some "") then
    throw (PlainError None "Invalid cursor: empty string is not a valid cursor")
  else
    match cursor with
    | None =>
        gets (fun d => history_page limit
          (sql_limit (limit + 1) (sql_order newer_id (sql_select (has_address addr) (orders d)))))
    | Some c =>
        match decodeCursor c with
        | Throw e => throw e
        | Ok i => gets (fun d => history_page limit
            (sql_limit (limit + 1) (sql_order newer_id
               (sql_select (fun r => has_address addr r && after_cursor i r) (orders d)))))
        end
    end.

(** [findTransitionEvents], by a join on the order id. *)
Definition findTransitionEvents (publicId : string) : Repo (list OrderEvent) :=
  gets (fun d => sql_select (fun e =>
    existsb (fun r => (row_id r =? oe_order_id e) && by_public_id publicId r) (orders d)) (order_events d)).

Definition findStaleAnnounced (now retentionWindowSeconds : Z) : Repo (list OrderRow) :=
  gets (fun d =>
    let cutoff := seconds now - retentionWindowSeconds in
    rowToOrder <$> sql_select (fun r =>
      bool_decide (status r = announced) && bool_decide (src_order_id r = None) &&
      bool_decide (archived_at r = None) && (created_at r <? cutoff)) (orders d)).

Definition getChainCursor (chain : Chain) : Repo Z :=
  gets (fun d => default 0 (fst <$> chain_cursors d !! chain)).

Definition getLastProcessedBlock (chain : Chain) : Repo Z :=
  gets (fun d =>
    let srcMax := default 0 (sql_max src_lock_block
                    (sql_select (fun r => bool_decide (src_chain r = chain)) (orders d))) in
    let dstMax := default 0 (sql_max dst_lock_block
                    (sql_select (fun r => bool_decide (dst_chain r = chain)) (orders d))) in
    Z.max srcMax dstMax).

Definition listChainCursors : Repo (list (Chain * Z * Z)) :=
  gets (fun d =>
    omap (fun c => (fun '(p, u) => (c, p, u)) <$> chain_cursors d !! c) [ethereum; solana; stellar]).

Definition getSorobanCheckpoint (contract : string) : Repo (option SorobanCheckpoint) :=
  gets (fun d => soroban_checkpoints d !! contract).

Definition findExpiredCandidates (nowSeconds : Z) : Repo (list OrderRow) :=
  gets (fun d => rowToOrder <$> sql_select (fun r =>
    bool_decide (status r ∈ [src_locked; dst_locked]) &&
    (match src_timelock r with Some t => t <? nowSeconds | None => false end ||
     match dst_timelock r with Some t => t <? nowSeconds | None => false end)) (orders d)).

Definition findOrdersMissingSecret : Repo (list (string * option string * string * string)) :=
  gets (fun d =>
    (fun r => (public_id r, src_order_id r, hashlock r, status_str (status r))) <$>
    sql_select (fun r => bool_decide (status r ∈ [src_locked; dst_locked]) &&
                         bool_decide (preimage r = None)) (orders d)).

Definition findNonTerminalSample (limit : Z) : Repo (list OrderRow) :=
  gets (fun d => rowToOrder <$>
    sql_limit (clamp1000 limit) (sql_order updated_later (sql_select (fun r =>
      negb (bool_decide (status r ∈ [completed; refunded; failed])) &&
      bool_decide (archived_at r = None)) (orders d)))).

Definition getOrderLedgerCursor (publicId : string) : Repo (option OrderLedgerCursor) :=
  gets (fun d =>
    (fun r => mkOrderLedgerCursor (last_eth_block r) (last_soroban_ledger r) (last_solana_slot r)) <$>
    sql_get (by_public_id publicId) (orders d)).

Definition listOrderLedgerCursors (limit : Z)
  : Repo (list (string * OrderStatus * OrderLedgerCursor * Z)) :=
  gets (fun d =>
    (fun r => (public_id r, status r,
               mkOrderLedgerCursor (last_eth_block r) (last_soroban_ledger r) (last_solana_slot r),
               updated_at r)) <$>
    sql_limit (clamp1000 limit) (sql_order updated_later (sql_select (fun r =>
      bool_decide (archived_at r = None) &&
      (bool_decide (is_Some (last_eth_block r)) || bool_decide (is_Some (last_soroban_ledger r)) ||
       bool_decide (is_Some (last_solana_slot r)))) (orders d)))).

Definition getMinActiveOrderCursor (chain : Chain) : Repo (option Z) :=
  gets (fun d => sql_min (cursor_col chain) (sql_select (fun r =>
    (bool_decide (src_chain r = chain) || bool_decide (dst_chain r = chain)) &&
    negb (bool_decide (status r ∈ [completed; refunded; failed; expired])) &&
    match cursor_col chain r with Some c => 0 <? c | None => false end) (orders d))).
End Kysely.

(** ** Running the same calls on both *)

Inductive CallResult : Type :=
| RUnit
| ROrder (o : OrderRow)
| RCount (n : Z).

Definition unit_call (m : Repo unit) : Repo CallResult := _ ← m; mret RUnit.
Definition order_call (m : Repo OrderRow) : Repo CallResult := o ← m; mret (ROrder o).
Definition count_call (m : Repo Z) : Repo CallResult := n ← m; mret (RCount n).

(** A call of the repository of OrdersRepo.v with its answer. *)
Definition serve (now : Z) (c : RepoCall) : Repo CallResult :=
  match c with
  | CallAnnounce input => order_call (announce now input)
  | CallSetStatus p s a e => unit_call (setStatus now p s a e)
  | CallRecordSrcLock i => unit_call (recordSrcLock now i)
  | CallRecordDstLock i => unit_call (recordDstLock now i)
  | CallRecordSecret p pre t e a => unit_call (recordSecretRevealed now p pre t e a)
  | CallRollbackSrc p a => unit_call (rollbackSrcLock now p a)
  | CallRollbackDst p a => unit_call (rollbackDstLock now p a)
  | CallCancel p r a => unit_call (cancelOrder now p r a)
  | CallAbandon p r a => unit_call (abandonOrder now p r a)
  | CallArchive p => unit_call (archiveOrder now p)
  | CallUnarchive p => unit_call (unarchiveOrder now p)
  | CallClaimEvent k c e o => claimEvent k c e o ≫= fun b : bool => mret (RCount (if b then 1 else 0))
  | CallSetChainCursor c p => unit_call (setChainCursor now c p)
  | CallUpdateOrderCursor p c x => unit_call (updateOrderCursor now p c x)
  | CallAdvanceCursor p u => unit_call (advanceOrderLedgerCursor now p u)
  | CallSaveCheckpoint c l cur m => unit_call (saveSorobanCheckpoint now c l cur m)
  | CallMarkRecovery c m => count_call (markSorobanRecovery now c m)
  end.

(** The same call of the Kysely repository; it has no [cancelOrder],
    [abandonOrder] and [claimEvent]. *)
Definition kysely_serve (now : Z) (c : RepoCall) : Repo CallResult :=
  match c with
  | CallAnnounce input => order_call (Kysely.announce now input)
  | CallSetStatus p s a e => unit_call (Kysely.setStatus now p s a e)
  | CallRecordSrcLock i => unit_call (Kysely.recordSrcLock now i)
  | CallRecordDstLock i => unit_call (Kysely.recordDstLock now i)
  | CallRecordSecret p pre t e a => unit_call (Kysely.recordSecretRevealed now p pre t e a)
  | CallRollbackSrc p _ => unit_call (Kysely.rollbackSrcLock now p)
  | CallRollbackDst p _ => unit_call (Kysely.rollbackDstLock now p)
  | CallArchive p => unit_call (Kysely.archiveOrder now p)
  | CallUnarchive p => unit_call (Kysely.unarchiveOrder now p)
  | CallSetChainCursor c p => unit_call (Kysely.setChainCursor now c p)
  | CallUpdateOrderCursor p c x => unit_call (Kysely.updateOrderCursor now p c x)
  | CallAdvanceCursor p u => unit_call (Kysely.advanceOrderLedgerCursor now p u)
  | CallSaveCheckpoint c l cur m => unit_call (Kysely.saveSorobanCheckpoint now c l cur m)
  | CallMarkRecovery c m => count_call (Kysely.markSorobanRecovery now c m)
  | CallCancel _ _ _ => throw (PlainError None "repo.cancelOrder is not a function")
  | CallAbandon _ _ _ => throw (PlainError None "repo.abandonOrder is not a function")
  | CallClaimEvent _ _ _ _ => throw (PlainError None "repo.claimEvent is not a function")
  end.

Definition shared (c : RepoCall) : bool :=
  match c with
  | CallCancel _ _ _ | CallAbandon _ _ _ | CallClaimEvent _ _ _ _ => false
  | _ => true
  end.

(** The answers to a list of calls, and the database they leave. *)
Fixpoint serve_all (srv : Z -> RepoCall -> Repo CallResult) (cs : list (Z * RepoCall)) (d : Db)
  : list (outcome JsError CallResult) * Db :=
  match cs with
  | [] => ([], d)
  | (now, c) :: cs' =>
      let '(r, d1) := srv now c d in
      let '(rs, d2) := serve_all srv cs' d1 in
      (r :: rs, d2)
  end.

(** ** Databases that agree *)

(** A row without its modification time. *)
Definition strip (r : OrderDbRow) : OrderDbRow := set_status (status r) 0 r.

(** Everything but the modification times and the event trail. *)
Definition view (d : Db) :=
  (strip <$> orders d, processed_events d, chain_cursors d, soroban_checkpoints d, next_order_id d).

Definition agree (d k : Db) : Prop := view d = view k.

(** A function that does not look at the modification time. *)
Definition timeless {A} (g : OrderDbRow -> A) : Prop := forall r, g (strip r) = g r.

Lemma timeless_eq {A} (g : OrderDbRow -> A) r r' : timeless g -> strip r = strip r' -> g r = g r'.
Proof. intros Hg H. by rewrite <- (Hg r), <- (Hg r'), H. Qed.

Lemma agree_orders d k : agree d k -> strip <$> orders d = strip <$> orders k.
Proof. intros H. exact (f_equal (fun v => v.1.1.1.1) H). Qed.

Lemma cons_parts {A} (x y : A) l m : x :: l = y :: m -> x = y /\ l = m.
Proof. by intros [= -> ->]. Qed.

(** Updating alike. *)
Lemma update_agree p f t t' :
  timeless p -> timeless (fun r => strip (f r)) -> strip <$> t = strip <$> t' ->
  strip <$> sql_update p f t = strip <$> sql_update p f t'.
Proof.
  intros Hp Hf. revert t'. induction t as [|r t IH]; intros [|r' t']; try done.
  rewrite !fmap_cons. intros [Hr Ht]%cons_parts. rewrite !sql_update_cons, !fmap_cons. f_equal; [|by apply IH].
  rewrite (timeless_eq p r r') by done. destruct (p r'); [|done]. exact (timeless_eq (fun r => strip (f r)) r r' Hf Hr).
Qed.

(** Writing back what is there changes modification times only. *)
Lemma update_same p f t : (forall r, r ∈ t -> p r = true -> strip (f r) = strip r) -> strip <$> sql_update p f t = strip <$> t.
Proof.
  intros H. induction t as [|r t IH]; [done|]. rewrite sql_update_cons, !fmap_cons. f_equal.
  - destruct (p r) eqn:E; [|done]. apply H; [left|done].
  - apply IH. intros r' Hr'. apply H. by right.
Qed.

Lemma changes_agree p t t' : timeless p -> strip <$> t = strip <$> t' -> sql_changes p t = sql_changes p t'.
Proof.
  intros Hp. unfold sql_changes. revert t'. induction t as [|r t IH]; intros [|r' t']; try done.
  rewrite !fmap_cons. intros [Hr Ht]%cons_parts. specialize (IH t' Ht). cbn.
  rewrite (timeless_eq p r r') by done. destruct (p r'); cbn; lia.
Qed.

Lemma get_agree p t t' :
  timeless p -> strip <$> t = strip <$> t' -> strip <$> sql_get p t = strip <$> sql_get p t'.
Proof.
  intros Hp. revert t'. induction t as [|r t IH]; intros [|r' t']; try done.
  rewrite !fmap_cons. intros [Hr Ht]%cons_parts. cbn. rewrite (timeless_eq p r r') by done.
  destruct (p r'); [cbn; by rewrite Hr|by apply IH].
Qed.

(** The row of an order in two databases that agree. *)
Lemma row_agree p d k :
  agree d k ->
  match sql_get (by_public_id p) (orders d), sql_get (by_public_id p) (orders k) with
  | Some r, Some r' => strip r = strip r'
  | None, None => True
  | _, _ => False
  end.
Proof.
  intros H%agree_orders. apply (get_agree (by_public_id p)) in H; [|done].
  destruct (sql_get _ _), (sql_get _ _); try done. cbn in H. by apply (inj Some) in H.
Qed.

Lemma agree_with_orders d k t t' :
  agree d k -> strip <$> t = strip <$> t' -> agree (with_orders d t) (with_orders k t').
Proof. unfold agree, view. cbn. intros H ->. by injection H as _ -> -> -> ->. Qed.

Lemma agree_update d k p f :
  agree d k -> timeless p -> timeless (fun r => strip (f r)) ->
  agree (with_orders d (sql_update p f (orders d))) (with_orders k (sql_update p f (orders k))).
Proof. intros H Hp Hf. apply agree_with_orders; [done|]. apply update_agree; [done|done|by apply agree_orders]. Qed.

(** Events are not part of the view. *)
Lemma agree_event_l d k es : agree d k -> agree (with_events d es) k.
Proof. done. Qed.
Lemma agree_event_r d k es : agree d k -> agree d (with_events k es).
Proof. done. Qed.

(** Two methods that answer alike and keep the databases in agreement. *)
Definition alike {A} (m m' : Repo A) : Prop :=
  forall d k, agree d k -> (m d).1 = (m' k).1 /\ agree (m d).2 (m' k).2.

Lemma alike_bind {A B} (m m' : Repo A) (f f' : A -> Repo B) :
  alike m m' -> (forall a, alike (f a) (f' a)) -> alike (m ≫= f) (m' ≫= f').
Proof.
  intros Hm Hf d k H. unfold mbind, st_bind. destruct (Hm d k H) as [H1 H2].
  destruct (m d) as [[a|e] d1], (m' k) as [[a'|e'] k1]; simplify_eq/=; [by apply Hf|done].
Qed.

Lemma alike_ret {A} (a : A) : alike (mret a) (mret a).
Proof. done. Qed.

Lemma alike_update p f :
  timeless p -> timeless (fun r => strip (f r)) -> alike (run_update p f) (run_update p f).
Proof.
  intros Hp Hf d k H. split; [|by apply agree_update].
  cbn. f_equal. apply changes_agree; [done|by apply agree_orders].
Qed.

Lemma alike_atomic {A} (m m' : Repo A) :
  alike m m' -> (forall d, is_ok (m d).1 = true) -> alike (atomic m) m'.
Proof.
  intros Hm Hok d k H. destruct (Hm d k H) as [H1 H2]. specialize (Hok d).
  unfold atomic, atomically. destruct (m d) as [[a|e] d1]; [done|done].
Qed.

Create HintDb alike.
#[export] Hint Resolve alike_ret alike_bind alike_update : alike.

Lemma alike_event now i i' t t' p p' : alike (appendTransitionEvent now i t p) (appendTransitionEvent now i' t' p').
Proof. done. Qed.

(** Looking an order up gives rows that agree. *)
Lemma alike_select {B} p (f f' : option OrderDbRow -> Repo B) :
  alike (f None) (f' None) -> (forall r r', strip r = strip r' -> alike (f (Some r)) (f' (Some r'))) ->
  alike (select_public p ≫= f) (select_public p ≫= f').
Proof.
  intros H0 H1 d k H. pose proof (row_agree p d k H) as Hr. unfold mbind, st_bind, select_public, gets.
  destruct (sql_get _ (orders d)) as [r|], (sql_get _ (orders k)) as [r'|]; try done; [by apply H1|by apply H0].
Qed.

Lemma strip_status r r' : strip r = strip r' -> status r = status r'.
Proof. by apply timeless_eq. Qed.

#[export] Hint Resolve alike_event : alike.

Ltac alike_solve := repeat first [done | by auto with alike | apply alike_bind; [|intros ?] | case_match].

Lemma recordSrcLock_alike now i : alike (recordSrcLock now i) (Kysely.recordSrcLock now i).
Proof.
  apply alike_atomic.
  - apply alike_select; [done|]. intros r r' Hr. rewrite <- (strip_status r r' Hr). unfold nextLockStatus.
    destruct (isTerminal (status r)); [apply alike_event|].
    apply alike_bind; [by apply alike_update|]. intros n. case_bool_decide; apply alike_event.
  - intros d. st_unfold. unfold select_public, gets. cbn. repeat case_match; done.
Qed.

Lemma recordDstLock_alike now i : alike (recordDstLock now i) (Kysely.recordDstLock now i).
Proof.
  apply alike_atomic.
  - apply alike_select; [done|]. intros r r' Hr. rewrite <- (strip_status r r' Hr). unfold nextLockStatus.
    destruct (isTerminal (status r)); [apply alike_event|].
    apply alike_bind; [by apply alike_update|]. intros n. case_bool_decide; apply alike_event.
  - intros d. st_unfold. unfold select_public, gets. cbn. repeat case_match; done.
Qed.

Lemma recordSecretRevealed_alike now p pre t e a :
  alike (recordSecretRevealed now p pre t e a) (Kysely.recordSecretRevealed now p pre t e a).
Proof.
  apply alike_atomic.
  - apply alike_select; [done|]. intros r r' Hr. rewrite <- (strip_status r r' Hr).
    rewrite <- (timeless_eq preimage r r') by done.
    destruct (isTerminal (status r)); [apply alike_event|]. case_bool_decide; [apply alike_event|].
    apply alike_bind; [by apply alike_update|]. intros n. apply alike_event.
  - intros d. st_unfold. unfold select_public, gets. cbn. repeat case_match; done.
Qed.

(** An update of an order that is not there changes nothing. *)
Lemma update_absent q p f d :
  sql_get (by_public_id p) (orders d) = None ->
  with_orders d (sql_update (fun r => by_public_id p r && q r) f (orders d)) = d.
Proof.
  intros H%sql_get_None. rewrite sql_update_none; [by destruct d|].
  eapply Forall_impl; [done|]. intros r ->. done.
Qed.

(** A guarded update followed by an event or not. *)
Lemma rollback_alike p q f (ev : OrderDbRow -> Z -> Repo unit) :
  timeless q -> timeless (fun r => strip (f r)) ->
  (forall r n d, (ev r n d).1 = Ok () /\ agree (ev r n d).2 d) ->
  alike
    (atomic (order ← select_public p;
             match order with
             | None => mret tt
             | Some o => n ← run_update (fun r => by_public_id p r && q r) f; ev o n
             end))
    (_ ← run_update (fun r => by_public_id p r && q r) f; mret tt).
Proof.
  intros Hq Hf Hev d k H.
  assert (timeless (fun r => by_public_id p r && q r)) as Hp by (intros r; by rewrite Hq).
  pose proof (agree_update d k _ f H Hp Hf) as Hu.
  unfold atomic, atomically. st_unfold. unfold select_public, gets.
  destruct (sql_get _ (orders d)) as [r|] eqn:Ed; cbn.
  - match goal with |- context [ev r ?n ?d'] => destruct (Hev r n d') as [H1 H2]; destruct (ev r n d') as [[[]|e] d1] end;
      [|done]. split; [done|]. by etrans.
  - split; [done|]. by rewrite update_absent in Hu.
Qed.

Lemma rollbackSrcLock_alike now p a : alike (rollbackSrcLock now p a) (Kysely.rollbackSrcLock now p).
Proof.
  apply (rollback_alike p (fun r => bool_decide (status r = src_locked))); [done|done|].
  intros r n d. by destruct (n =? 0).
Qed.

Lemma rollbackDstLock_alike now p a : alike (rollbackDstLock now p a) (Kysely.rollbackDstLock now p).
Proof.
  apply (rollback_alike p (fun r => bool_decide (status r = dst_locked))); [done|done|].
  intros r n d. by destruct (n =? 0).
Qed.

Lemma update_zero p f d : sql_changes p (orders d) = 0 -> with_orders d (sql_update p f (orders d)) = d.
Proof. intros H%sql_changes_zero%sql_get_None. rewrite sql_update_none by done. by destruct d. Qed.

(** Only the original skips an update that changes nothing. *)
Lemma setStatus_alike now p s a e d k :
  wf_db d -> agree d k ->
  (setStatus now p s a e d).1 = (Kysely.setStatus now p s a e k).1 /\
  agree (setStatus now p s a e d).2 (Kysely.setStatus now p s a e k).2.
Proof.
  intros Hwf H. pose proof (row_agree p d k H) as Hr.
  set (q := fun r => match e with Some e => bool_decide (status r = e) | None => true end).
  set (pq := fun r => by_public_id p r && q r).
  assert (timeless pq) as Hp by (intros r; by destruct e).
  pose proof (agree_update d k pq (set_status s (seconds now)) H Hp ltac:(done)) as Hu.
  pose proof (changes_agree pq _ _ Hp (agree_orders d k H)) as Hn.
  assert (Kysely.setStatus now p s a e k =
    (if sql_changes pq (orders d) =? 0
     then (Throw (match sql_get (by_public_id p) (orders d) with
                  | Some o => STALE_STATUS p (status o) e | None => NOT_FOUND p end), k)
     else match sql_get (by_public_id p) (orders k) with
          | Some o => appendTransitionEvent now (row_id o) "status.transitioned"
              (payload a (status o) s "transitioned" None None None now)
              (with_orders k (sql_update pq (set_status s (seconds now)) (orders k)))
          | None => (Ok (), with_orders k (sql_update pq (set_status s (seconds now)) (orders k)))
          end)) as Hk.
  { unfold Kysely.setStatus. st_unfold. unfold select_public, gets. cbn.
    change (fun r => by_public_id p r && match e with Some e => bool_decide (status r = e) | None => true end) with pq.
    rewrite Hn.
    destruct (sql_changes pq (orders k) =? 0) eqn:E; bools.
    - rewrite update_zero by done.
      destruct (sql_get _ (orders d)) as [r|], (sql_get _ (orders k)) as [r'|]; try done.
      by rewrite (strip_status r r' Hr).
    - by destruct (sql_get _ (orders k)). }
  rewrite Hk. clear Hk Hn.
  unfold setStatus, atomic, atomically. st_unfold. unfold select_public, gets.
  destruct e as [e|].
  - cbn. change (fun r => by_public_id p r && bool_decide (status r = e)) with pq.
    destruct (sql_get _ (orders d)) as [r|], (sql_get _ (orders k)) as [r'|]; try done;
      by destruct (sql_changes pq (orders d) =? 0).
  - assert (forall t, sql_changes (by_public_id p) t = sql_changes pq t) as Hc.
    { intros t. unfold sql_changes, pq, q. do 2 f_equal. apply List.filter_ext. intros r. by rewrite andb_true_r. }
    assert (forall f t, sql_update (by_public_id p) f t = sql_update pq f t) as Huq.
    { intros f t. apply map_ext. intros r. unfold pq, q. by rewrite andb_true_r. }
    destruct (sql_get _ (orders d)) as [r|] eqn:Ed, (sql_get _ (orders k)) as [r'|] eqn:Ek; try done; cbn.
    + case_bool_decide as Hs.
      * assert (sql_changes pq (orders d) =? 0 = false) as ->.
        { apply Z.eqb_neq. rewrite <- Hc. intros Hz%sql_changes_zero. congruence. }
        split; [done|]. apply agree_event_l, agree_event_r. etrans; [|exact Hu].
        unfold agree, view. cbn. do 4 f_equal. symmetry. apply update_same. intros r0 Hr0 Hb.
        unfold pq, q in Hb. rewrite andb_true_r in Hb.
        rewrite (not_by_other d p r r0 (wf_public _ Hwf) Ed Hr0 Hb). by subst s.
      * cbn. rewrite Hc, Huq. by destruct (sql_changes pq (orders d) =? 0).
    + rewrite Hc, Huq. by destruct (sql_changes pq (orders d) =? 0).
Qed.

(** ** Writes agree *)

Lemma serve_run now c d : (serve now c d).2 = run_call now c d.
Proof.
  assert (forall A B (m : Repo A) (f : A -> B), ((a ← m; mret (f a)) d).2 = (m d).2) as H
    by (intros A B m f; unfold mbind, st_bind; by destruct (m d) as [[a|e] d']).
  destruct c; apply H.
Qed.

Lemma announce_alike now i : alike (order_call (announce now i)) (order_call (Kysely.announce now i)).
Proof.
  intros d k H. unfold order_call, mbind, st_bind, announce, Kysely.announce.
  destruct (orderIdFromHashlock (a_hashlock i)) as [p|e]; [|done].
  pose proof (row_agree p d k H) as Hr.
  destruct (sql_get _ (orders d)) as [r|] eqn:Ed, (sql_get _ (orders k)) as [r'|] eqn:Ek; try done.
  assert (next_order_id d = next_order_id k) as Hn by exact (f_equal snd H).
  cbn. rewrite !sql_get_app, Ed, Ek. cbn. unfold by_public_id. rewrite !bool_decide_true by done. cbn. rewrite Hn.
  split; [done|]. unfold agree, view in *. cbn. rewrite !fmap_app. injection H as H1 -> -> -> _. by rewrite H1.
Qed.

Lemma advance_alike now p u :
  alike (advanceOrderLedgerCursor now p u) (Kysely.advanceOrderLedgerCursor now p u).
Proof.
  unfold advanceOrderLedgerCursor, Kysely.advanceOrderLedgerCursor. cbn [List.filter].
  destruct (usable (lastEthBlock u)), (usable (lastSorobanLedger u)), (usable (lastSolanaSlot u)); cbn;
    try done; (apply alike_bind; [by apply alike_update|done]).
Qed.

Lemma updateOrderCursor_alike now p c x :
  alike (updateOrderCursor now p c x) (Kysely.updateOrderCursor now p c x).
Proof. apply alike_bind; [apply alike_update; [done|by destruct c]|done]. Qed.

Lemma setChainCursor_alike now c p : alike (setChainCursor now c p) (Kysely.setChainCursor now c p).
Proof.
  intros d k H. split; [done|]. unfold agree, view in *. cbn. by injection H as -> -> -> -> ->.
Qed.

Lemma saveCheckpoint_alike now c l cur m :
  alike (saveSorobanCheckpoint now c l cur m) (Kysely.saveSorobanCheckpoint now c l cur m).
Proof.
  intros d k H. split; [done|]. unfold agree, view in *. cbn. by injection H as -> -> -> -> ->.
Qed.

Lemma markRecovery_alike now c m : alike (markSorobanRecovery now c m) (Kysely.markSorobanRecovery now c m).
Proof.
  intros d k H. unfold markSorobanRecovery, Kysely.markSorobanRecovery.
  assert (soroban_checkpoints d = soroban_checkpoints k) as -> by exact (f_equal (fun v => v.1.2) H).
  destruct (soroban_checkpoints k !! c); [|done]. split; [done|].
  unfold agree, view in *. cbn. by injection H as -> -> -> _ ->.
Qed.

(** One call on each. *)
Lemma serve_alike now c d k :
  shared c = true -> wf_db d -> agree d k ->
  (serve now c d).1 = (kysely_serve now c k).1 /\ agree (serve now c d).2 (kysely_serve now c k).2.
Proof.
  intros Hs Hwf H.
  assert (forall (m m' : Repo unit), alike m m' -> alike (unit_call m) (unit_call m')) as Hu
    by (intros m m' Hm; by apply alike_bind).
  destruct c; try done; cbn [serve kysely_serve].
  - by apply announce_alike.
  - destruct (setStatus_alike now publicId s actor expected d k Hwf H) as [H1 H2]. unfold unit_call, mbind, st_bind.
    by destruct (setStatus _ _ _ _ _ _) as [[a|e] d1], (Kysely.setStatus _ _ _ _ _ _) as [[a'|e'] k1]; simplify_eq/=.
  - apply Hu; [apply recordSrcLock_alike|done].
  - apply Hu; [apply recordDstLock_alike|done].
  - apply Hu; [apply recordSecretRevealed_alike|done].
  - apply Hu; [apply rollbackSrcLock_alike|done].
  - apply Hu; [apply rollbackDstLock_alike|done].
  - apply Hu; [|done]. by apply alike_bind; [apply alike_update|].
  - apply Hu; [|done]. by apply alike_bind; [apply alike_update|].
  - apply Hu; [apply setChainCursor_alike|done].
  - apply Hu; [apply updateOrderCursor_alike|done].
  - apply Hu; [apply advance_alike|done].
  - apply Hu; [apply saveCheckpoint_alike|done].
  - apply alike_bind; [apply markRecovery_alike|done|done].
Qed.

Lemma serve_all_alike cs d k :
  Forall (fun c => shared c.2 = true) cs -> wf_db d -> agree d k ->
  (serve_all serve cs d).1 = (serve_all kysely_serve cs k).1 /\
  agree (serve_all serve cs d).2 (serve_all kysely_serve cs k).2.
Proof.
  intros Hcs. revert d k. induction Hcs as [|[now c] cs Hc _ IH]; intros d k Hwf H; [done|]. cbn.
  destruct (serve_alike now c d k Hc Hwf H) as [H1 H2].
  pose proof (run_call_step now c d Hwf) as Hst. rewrite <- serve_run in Hst.
  destruct (serve now c d) as [r d1], (kysely_serve now c k) as [r' k1]. cbn in H1, H2, Hst. subst r'.
  destruct (IH d1 k1 (repo_step_wf _ _ _ Hst Hwf) H2) as [H3 H4].
  destruct (serve_all serve cs d1), (serve_all kysely_serve cs k1). cbn in *. by subst.
Qed.

(** ** Reads agree *)

(** An order without its modification time and cancellation reason. *)
Definition strip_order (o : OrderRow) : OrderRow := {|
  o_id := o_id o;
  o_publicId := o_publicId o;
  o_direction := o_direction o;
  o_status := o_status o;
  o_hashlock := o_hashlock o;
  o_srcChain := o_srcChain o;
  o_srcAddress := o_srcAddress o;
  o_srcAsset := o_srcAsset o;
  o_srcAmount := o_srcAmount o;
  o_srcSafetyDeposit := o_srcSafetyDeposit o;
  o_srcOrderId := o_srcOrderId o;
  o_srcLockTx := o_srcLockTx o;
  o_srcLockBlock := o_srcLockBlock o;
  o_srcTimelock := o_srcTimelock o;
  o_dstChain := o_dstChain o;
  o_dstAddress := o_dstAddress o;
  o_dstAsset := o_dstAsset o;
  o_dstAmount := o_dstAmount o;
  o_dstOrderId := o_dstOrderId o;
  o_dstLockTx := o_dstLockTx o;
  o_dstLockBlock := o_dstLockBlock o;
  o_dstTimelock := o_dstTimelock o;
  o_preimage := o_preimage o;
  o_preimageEncVersion := o_preimageEncVersion o;
  o_secretRevealedTx := o_secretRevealedTx o;
  o_resolverAddress := o_resolverAddress o;
  o_lastEthBlock := o_lastEthBlock o;
  o_lastSorobanLedger := o_lastSorobanLedger o;
  o_lastSolanaSlot := o_lastSolanaSlot o;
  o_createdAt := o_createdAt o;
  o_updatedAt := 0;
  o_archivedAt := o_archivedAt o;
  o_cancellationReason := None
|}.

Lemma strip_orders_eq r r' : strip r = strip r' -> strip_order (rowToOrder r) = strip_order (Kysely.rowToOrder r').
Proof. intros H. by rewrite <- (timeless_eq (fun r => strip_order (Kysely.rowToOrder r)) r r'). Qed.

Lemma select_agree p t t' :
  timeless p -> strip <$> t = strip <$> t' -> strip <$> sql_select p t = strip <$> sql_select p t'.
Proof.
  intros Hp. revert t'. induction t as [|r t IH]; intros [|r' t']; try done.
  rewrite !fmap_cons. intros [Hr Ht]%cons_parts. rewrite !sql_select_cons, (timeless_eq p r r') by done.
  destruct (p r'); [|by apply IH]. rewrite !fmap_cons. f_equal; [done|by apply IH].
Qed.

(** An order of rows that does not look at modification times. *)
Definition timeless2 (b : OrderDbRow -> OrderDbRow -> bool) : Prop := forall x y, b (strip x) (strip y) = b x y.

Lemma order_strip b t : timeless2 b -> strip <$> sql_order b t = sql_order b (strip <$> t).
Proof.
  intros Hb.
  assert (forall x l, strip <$> sql_insert b x l = sql_insert b (strip x) (strip <$> l)) as Hi.
  { intros x l. induction l as [|y l IH]; [done|]. cbn. rewrite Hb. destruct (b y x); cbn; [|done]. by rewrite IH. }
  induction t as [|x t IH]; [done|].
  change (strip <$> sql_insert b x (sql_order b t) = sql_insert b (strip x) (sql_order b (strip <$> t))).
  by rewrite Hi, IH.
Qed.

Lemma order_agree b t t' :
  timeless2 b -> strip <$> t = strip <$> t' -> strip <$> sql_order b t = strip <$> sql_order b t'.
Proof. intros Hb H. by rewrite !order_strip, H. Qed.

Lemma limit_agree n t t' : strip <$> t = strip <$> t' -> strip <$> sql_limit n t = strip <$> sql_limit n t'.
Proof. intros H. unfold sql_limit. destruct (n <? 0); [done|]. by rewrite !fmap_take, H. Qed.

Lemma offset_agree n t t' : strip <$> t = strip <$> t' -> strip <$> sql_offset n t = strip <$> sql_offset n t'.
Proof. intros H. unfold sql_offset. by rewrite !fmap_drop, H. Qed.

Lemma rows_agree (t t' : list OrderDbRow) :
  strip <$> t = strip <$> t' -> strip_order <$> (rowToOrder <$> t) = strip_order <$> (Kysely.rowToOrder <$> t').
Proof.
  revert t'. induction t as [|r t IH]; intros [|r' t']; try done.
  rewrite !fmap_cons. intros [Hr Ht]%cons_parts. f_equal; [by apply strip_orders_eq|by apply IH].
Qed.

Lemma row_agree1 (x x' : option OrderDbRow) :
  strip <$> x = strip <$> x' -> strip_order <$> (rowToOrder <$> x) = strip_order <$> (Kysely.rowToOrder <$> x').
Proof. destruct x as [r|], x' as [r'|]; try done. cbn. intros H%(inj Some). f_equal. by apply strip_orders_eq. Qed.

(** The answer to a query, up to [f]. *)
Definition answer {A B} (f : A -> B) (r : outcome JsError A * Db) : outcome JsError B :=
  match r.1 with Ok a => Ok (f a) | Throw e => Throw e end.

Definition one : option OrderRow -> option OrderRow := fmap strip_order.
Definition many : list OrderRow -> list OrderRow := fmap strip_order.
Definition page (h : OrderHistoryResult) : OrderHistoryResult :=
  mkOrderHistoryResult (many (hr_orders h)) (hr_nextCursor h).

(** The queries that answer alike on databases that agree. *)
Definition reads_agree (d k : Db) : Prop :=
  (forall p, answer one (findByPublicId p d) = answer one (Kysely.findByPublicId p k)) /\
  (forall h, answer one (findByHashlock h d) = answer one (Kysely.findByHashlock h k)) /\
  (forall c i, answer one (findBySrcOrderId c i d) = answer one (Kysely.findBySrcOrderId c i k)) /\
  (forall c i, answer one (findByDstOrderId c i d) = answer one (Kysely.findByDstOrderId c i k)) /\
  (forall a l o, answer many (findByAddress a l o d) = answer many (Kysely.findByAddress a l o k)) /\
  (forall a l c, answer page (findByAddressWithCursor a l c d) = answer page (Kysely.findByAddressWithCursor a l c k)) /\
  (forall now w, answer many (findStaleAnnounced now w d) = answer many (Kysely.findStaleAnnounced now w k)) /\
  (forall t, answer many (findExpiredCandidates t d) = answer many (Kysely.findExpiredCandidates t k)) /\
  answer id (findOrdersMissingSecret d) = answer id (Kysely.findOrdersMissingSecret k) /\
  (forall c, answer id (getChainCursor c d) = answer id (Kysely.getChainCursor c k)) /\
  (forall c, answer id (getLastProcessedBlock c d) = answer id (Kysely.getLastProcessedBlock c k)) /\
  answer id (listChainCursors d) = answer id (Kysely.listChainCursors k) /\
  (forall c, answer id (getSorobanCheckpoint c d) = answer id (Kysely.getSorobanCheckpoint c k)) /\
  (forall p, answer id (getOrderLedgerCursor p d) = answer id (Kysely.getOrderLedgerCursor p k)) /\
  (Forall (fun r => status r <> cancelled /\ status r <> abandoned) (orders d) ->
   forall c, answer id (getMinActiveOrderCursor c d) = answer id (Kysely.getMinActiveOrderCursor c k)).

(** Columns read from rows that agree. *)
Lemma columns_agree {B} (g : OrderDbRow -> B) (t t' : list OrderDbRow) :
  timeless g -> strip <$> t = strip <$> t' -> g <$> t = g <$> t'.
Proof.
  intros Hg. revert t'. induction t as [|r t IH]; intros [|r' t']; try done.
  rewrite !fmap_cons. intros [Hr Ht]%cons_parts. f_equal; [by apply timeless_eq|by apply IH].
Qed.

Lemma fold_agree op e t t' : timeless e -> strip <$> t = strip <$> t' -> sql_fold op e t = sql_fold op e t'.
Proof.
  intros He H. unfold sql_fold.
  assert (forall l, foldr (fun r acc => match e r, acc with
     | Some x, Some y => Some (op x y) | Some x, None => Some x | None, _ => acc end) None l =
    foldr (fun x acc => match x, acc with
     | Some x, Some y => Some (op x y) | Some x, None => Some x | None, _ => acc end) None (e <$> l)) as Hf
    by (induction l as [|r l IH]; [done|]; cbn; by rewrite IH).
  by rewrite !Hf, (columns_agree e t t').
Qed.

(** The active orders of a chain are the same when none was cancelled or abandoned. *)
Lemma active_agree c d k :
  agree d k -> Forall (fun r => status r <> cancelled /\ status r <> abandoned) (orders d) ->
  answer id (getMinActiveOrderCursor c d) = answer id (Kysely.getMinActiveOrderCursor c k).
Proof.
  intros H%agree_orders Hn. unfold answer. cbn. f_equal. unfold id.
  transitivity (sql_min (cursor_col c) (sql_select (fun r => (bool_decide (src_chain r = c) || bool_decide (dst_chain r = c)) &&
    negb (bool_decide (status r ∈ [completed; refunded; failed; expired])) && match cursor_col c r with Some x => 0 <? x | None => false end) (orders d))).
  - f_equal. unfold sql_select. clear H. induction Hn as [|r t [H1 H2] _ IH]; [done|]. cbn. rewrite IH.
    replace (bool_decide (status r ∈ [completed; refunded; failed; expired; cancelled; abandoned])) with (bool_decide (status r ∈ [completed; refunded; failed; expired])); [done|].
    apply bool_decide_ext. rewrite !elem_of_cons. naive_solver.
  - apply fold_agree; [by destruct c|]. apply select_agree; [by destruct c|done].
Qed.

Lemma page_agree addr limit p d k :
  agree d k ->
  page (history_page addr limit p (orders d)) =
  page (Kysely.history_page limit (sql_limit (limit + 1) (sql_order newer_id
    (sql_select (fun r => has_address addr r && match p with Some c => after_cursor c r | None => true end) (orders k))))).
Proof.
  intros H%agree_orders.
  set (q := fun r => has_address addr r && match p with Some c => after_cursor c r | None => true end).
  assert (history_page addr limit p (orders d) =
    let rows := sql_limit (limit + 1) (sql_order newer_id (sql_select q (orders d))) in
    let hasMore := limit <? Z.of_nat (length rows) in
    let pg := rowToOrder <$> (if hasMore then take (Z.to_nat limit) rows else rows) in
    mkOrderHistoryResult pg (if hasMore then (fun o => encodeCursor (o_createdAt o) (o_id o)) <$> last pg else None)) as ->.
  { unfold history_page, q. destruct p; [done|]. cbv zeta.
    assert (sql_select (fun r => has_address addr r && true) (orders d) = sql_select (has_address addr) (orders d)) as ->
      by (apply List.filter_ext; intros r; by rewrite andb_true_r). done. }
  cbv zeta. unfold Kysely.history_page.
  assert (strip <$> sql_limit (limit + 1) (sql_order newer_id (sql_select q (orders d))) =
          strip <$> sql_limit (limit + 1) (sql_order newer_id (sql_select q (orders k)))) as Hrows
    by (apply limit_agree, order_agree; [done|]; apply select_agree; [by destruct p|done]).
  set (rows := sql_limit _ (sql_order _ (sql_select q (orders d)))) in *.
  set (rows' := sql_limit _ (sql_order _ (sql_select q (orders k)))) in *.
  assert (length rows = length rows') as -> by (rewrite <- (length_fmap strip rows), Hrows; apply length_fmap).
  destruct (limit <? _); cbn; unfold page; cbn.
  - assert (strip <$> take (Z.to_nat limit) rows = strip <$> take (Z.to_nat limit) rows') as Ht
      by by rewrite !fmap_take, Hrows.
    f_equal; [by apply rows_agree|]. rewrite !fmap_last.
    assert (strip <$> last (take (Z.to_nat limit) rows) = strip <$> last (take (Z.to_nat limit) rows')) as Hl
      by by rewrite <- !fmap_last, Ht.
    destruct (last (take _ rows)) as [r|], (last (take _ rows')) as [r'|]; try done. cbn in Hl |- *.
    apply (inj Some) in Hl. f_equal.
    by rewrite <- (timeless_eq created_at r r'), <- (timeless_eq row_id r r').
  - f_equal. by apply rows_agree.
Qed.

Lemma agree_reads d k : agree d k -> reads_agree d k.
Proof.
  intros Hv. pose proof (agree_orders d k Hv) as H. split_and!; intros; unfold answer; cbn.
  1-4: f_equal; by apply row_agree1, get_agree.
  - f_equal. apply rows_agree, limit_agree, offset_agree, order_agree; [done|by apply select_agree].
  - unfold findByAddressWithCursor, Kysely.findByAddressWithCursor. case_bool_decide; [done|]. st_unfold.
    destruct c as [c|].
    + destruct (decodeCursor c) as [i|e]; [|done]. cbn. f_equal. by apply (page_agree a l (Some i)).
    + cbn. f_equal. rewrite (page_agree a l None d k Hv). do 4 f_equal. apply List.filter_ext. intros r.
      by rewrite andb_true_r.
  - f_equal. by apply rows_agree, select_agree.
  - f_equal. by apply rows_agree, select_agree.
  - f_equal. by apply columns_agree; [|apply select_agree].
  - by rewrite (f_equal (fun v => v.1.1.2) Hv : chain_cursors d = chain_cursors k).
  - do 2 f_equal; f_equal; by apply fold_agree; [|apply select_agree].
  - by rewrite (f_equal (fun v => v.1.1.2) Hv : chain_cursors d = chain_cursors k).
  - by rewrite (f_equal (fun v => v.1.2) Hv : soroban_checkpoints d = soroban_checkpoints k).
  - f_equal. unfold id. pose proof (get_agree (by_public_id p) _ _ ltac:(done) H) as Hg.
    destruct (sql_get _ (orders d)) as [r|], (sql_get _ (orders k)) as [r'|]; try done. cbn in Hg |- *.
    apply (inj Some) in Hg. f_equal.
    by rewrite <- (timeless_eq last_eth_block r r'), <- (timeless_eq last_soroban_ledger r r'),
      <- (timeless_eq last_solana_slot r r').
  - by apply active_agree.
Qed.

(** ** The two repositories, call for call *)



(** The event trail is what the two do not share.  A rollback leaves no event
    in the Kysely repository, so an order's trail no longer replays to the
    status its row holds. *)
Definition rollback_calls : list (Z * RepoCall) := take 3 demo_calls.

Example kysely_rollback_breaks_trail :
  let trail_of db := match (Kysely.findTransitionEvents demo_id db).1 with Ok es => trail_run announced es | Throw _ => None end in
  let d := (serve_all serve rollback_calls emptyDb).2 in
  let k := (serve_all kysely_serve rollback_calls emptyDb).2 in
  (status <$> row_of demo_id d, trail_of d) = (Some announced, Some announced) /\
  (status <$> row_of demo_id k, trail_of k) = (Some announced, Some src_locked).
Proof. by vm_compute. Qed.

(** Setting the status an order already has is logged as a no-op by the
    transactional repository and as one more transition by the Kysely one. *)
Example kysely_repeats_event :
  let cs := [(1000, CallAnnounce demo_input);
             (2000, CallSetStatus demo_id expired "system" None);
             (3000, CallSetStatus demo_id expired "system" None)] in
  oe_event_type <$> order_events (serve_all serve cs emptyDb).2 =
    ["status.transitioned"; "status.no_op"] /\
  oe_event_type <$> order_events (serve_all kysely_serve cs emptyDb).2 =
    ["status.transitioned"; "status.transitioned"].
Proof. by vm_compute. Qed.

(** An order the Kysely repository's own callers cancelled through
    [setStatus] is still sampled by its reconciler query. *)
Example kysely_samples_cancelled :
  let cs := [(1000, CallAnnounce demo_input); (2000, CallSetStatus demo_id cancelled "user" None)] in
  let ids r := match r with (Ok os, _) => o_publicId <$> os | _ => [] end in
  ids (findNonTerminalSample 10 (serve_all serve cs emptyDb).2) = [] /\
  ids (Kysely.findNonTerminalSample 10 (serve_all kysely_serve cs emptyDb).2) = [demo_id].
Proof. by vm_compute. Qed.
