(* ===== verification/Lifecycle.v ===== *)
(** * The resolver's lifecycle (resolver/src/lifecycle.ts).

    [ResolverLifecycle] keeps the resolver's phase and lets it move only along
    [LIFECYCLE_TRANSITIONS]; [LifecycleGuard] turns the phase into
    permissions.  The prom-client gauge a transition sets is a parameter: it
    may return or throw. *)

From S2P Require Import Prelude.

Inductive LifecycleState : Type :=
| idle | starting | running | pausing | paused | restarting | stopping | stopped | failed.

#[export] Instance LifecycleState_eq_dec : EqDecision LifecycleState.
Proof. solve_decision. Defined.

Definition LIFECYCLE_TRANSITIONS (s : LifecycleState) : list LifecycleState :=
  match s with
  | idle => [starting]
  | starting => [running; stopping; failed]
  | running => [pausing; restarting; stopping; failed]
  | pausing => [paused; stopping]
  | paused => [restarting; stopping]
  | restarting => [starting; stopping; failed]
  | stopping => [stopped; failed]
  | stopped | failed => []
  end.

Inductive LifecycleError : Type :=
| InvalidLifecycleTransitionError (from to : LifecycleState) (allowed : list LifecycleState)
| StateNotAllowedError (state : LifecycleState) (operation : string)
| ReferenceError (name : string)
| GaugeError (message : string).

#[export] Instance LifecycleError_eq_dec : EqDecision LifecycleError.
Proof. solve_decision. Defined.

Record ResolverLifecycle : Type := mkLifecycle {
  lc_state : LifecycleState;
  lc_stateStartedAt : Z;
  lc_transitionCount : Z
}.

Definition newLifecycle (now : Z) : ResolverLifecycle := mkLifecycle idle now 0.

Definition isSafeToStop (l : ResolverLifecycle) : bool :=
  bool_decide (lc_state l ∈ [stopped; failed; pausing; stopping]).
Definition isProcessingEvents (l : ResolverLifecycle) : bool := bool_decide (lc_state l = running).
Definition isPaused (l : ResolverLifecycle) : bool := bool_decide (lc_state l = paused).
Definition isRunning (l : ResolverLifecycle) : bool :=
  bool_decide (lc_state l ∈ [running; starting; restarting]).
Definition isTerminal (l : ResolverLifecycle) : bool := bool_decide (lc_state l ∈ [stopped; failed]).
Definition nextPossibleStates (l : ResolverLifecycle) : list LifecycleState :=
  LIFECYCLE_TRANSITIONS (lc_state l).

(** [validateTransition(from, to)]. *)
Definition validateTransition (from to : LifecycleState) : outcome LifecycleError unit :=
  if negb (bool_decide (from = running)) && bool_decide (to = paused) then
    Throw (StateNotAllowedError from "pause")
  else if bool_decide (from = failed) && bool_decide (to = restarting) then
    Throw (StateNotAllowedError from "restart")
  else if bool_decide (from ∈ [stopped; failed]) && bool_decide (to = starting) then
    Throw (StateNotAllowedError from "start")
  else Ok tt.

Section Gauge.
(** [lifecycleStateGauge.set(nextState)] of prom-client. *)
Context (gauge_set : LifecycleState -> outcome LifecycleError unit).

(** The end of [transition] and [forceTransition]: the gauge, then
    [lifecycleTransitionsCounter.inc], a name lifecycle.ts neither declares nor
    imports (it imports [lifecycleTransitionsTotal]). *)
Definition update_metrics (next : LifecycleState) : ST ResolverLifecycle LifecycleError unit := fun l =>
  match gauge_set next with
  | Throw e => (Throw e, l)
  | Ok _ => (Throw (ReferenceError "lifecycleTransitionsCounter"), l)
  end.

Definition enter (now : Z) (next : LifecycleState) (l : ResolverLifecycle) : ResolverLifecycle :=
  mkLifecycle next now (lc_transitionCount l + 1).

Definition transition (now : Z) (next : LifecycleState) : ST ResolverLifecycle LifecycleError unit := fun l =>
  let allowed := LIFECYCLE_TRANSITIONS (lc_state l) in
  if negb (bool_decide (next ∈ allowed)) then
    (Throw (InvalidLifecycleTransitionError (lc_state l) next allowed), l)
  else
    match validateTransition (lc_state l) next with
    | Throw e => (Throw e, l)
    | Ok _ => update_metrics next (enter now next l)
    end.

Definition forceTransition (now : Z) (next : LifecycleState) (reason : string)
  : ST ResolverLifecycle LifecycleError unit := fun l =>
  update_metrics next (enter now next l).

Definition reset (now : Z) : ST ResolverLifecycle LifecycleError unit := fun _ => (Ok tt, mkLifecycle idle now 0).

(** [LifecycleGuard]: the operation is refused unless the phase is listed. *)
Definition assert_in (allowed : list LifecycleState) (operation : string) : ST ResolverLifecycle LifecycleError unit :=
  fun l => if bool_decide (lc_state l ∈ allowed) then (Ok tt, l)
           else (Throw (StateNotAllowedError (lc_state l) operation), l).
Definition assertCanProcessEvents := assert_in [running] "process_events".
Definition assertCanStart := assert_in [idle; paused; restarting] "start".
Definition assertCanStop := assert_in [running; pausing; paused; starting; restarting] "stop".
Definition assertCanPause := assert_in [running] "pause".
Definition assertCanRestart := assert_in [running; pausing; paused] "restart".

(** A caller that drives the lifecycle with any requests, catching what they
    throw. *)
Fixpoint transitions (reqs : list (Z * LifecycleState)) (l : ResolverLifecycle) : ResolverLifecycle :=
  match reqs with
  | [] => l
  | (now, next) :: reqs' => transitions reqs' (transition now next l).2
  end.

(** ** Facts *)

Definition reaches : relation LifecycleState := fun x y => y ∈ LIFECYCLE_TRANSITIONS x /\ y <> paused.

Lemma transition_cases now next l :
  (transition now next l).2 = l \/
  (reaches (lc_state l) next /\ (transition now next l).2 = enter now next l).
Proof.
  unfold transition, update_metrics. case_bool_decide as Hin; cbn; [|by left].
  destruct (validateTransition (lc_state l) next) as [u|e] eqn:Hv; [|by left]. right. split.
  - split; [done|]. intros ->. unfold validateTransition in Hv.
    destruct (decide (lc_state l = running)) as [E|E]; [|by rewrite bool_decide_false in Hv].
    rewrite E in Hin. set_solver.
  - by destruct (gauge_set next).
Qed.

(** A transition never returns: it is refused, or made and then followed by
    the error of its metrics call. *)
Lemma transition_throws now next l : exists e, (transition now next l).1 = Throw e.
Proof.
  unfold transition, update_metrics. case_bool_decide; cbn; [|by eexists].
  destruct (validateTransition _ _); [|by eexists]. destruct (gauge_set next); by eexists.
Qed.

Lemma transitions_reach reqs l : rtc reaches (lc_state l) (lc_state (transitions reqs l)).
Proof.
  revert l. induction reqs as [|[now next] reqs IH]; intros l; [done|]. cbn.
  destruct (transition_cases now next l) as [->|[Hr ->]]; [apply IH|].
  eapply rtc_l; [exact Hr|]. exact (IH (enter now next l)).
Qed.

(** The table is respected, and a phase that is [stopped] or [failed] is
    final; [paused] is never entered, because [pausing -> paused] is in the
    table but [validateTransition] refuses [paused] from every phase but
    [running]. *)
Lemma transitions_sound reqs now0 :
  let l := transitions reqs (newLifecycle now0) in
  lc_state l <> paused /\
  (isTerminal l = true -> forall reqs', transitions reqs' l = l).
Proof.
  intros l. split.
  - pose proof (transitions_reach reqs (newLifecycle now0)) as H. fold l in H. cbn in H.
    assert (idle <> paused) as Hne by done. revert Hne. generalize (lc_state l) H. clear.
    intros y H. induction H as [|x y z [_ Hy] _ IH]; [done|]. intros _. by apply IH.
  - unfold isTerminal. rewrite bool_decide_eq_true. intros Ht reqs'. revert Ht. generalize l. clear.
    intros l Ht. induction reqs' as [|[now next] reqs' IH]; [done|]. cbn.
    assert ((transition now next l).2 = l) as ->; [|done].
    destruct (transition_cases now next l) as [->|[[Hr _] _]]; [done|].
    exfalso. rewrite !elem_of_cons in Ht. destruct Ht as [E|[E|E]]; [..|by apply elem_of_nil in E];
      rewrite E in Hr; by apply elem_of_nil in Hr.
Qed.

(** The guard lets events be processed in [running] only, and [running] is
    only entered from [starting]. *)
Lemma guard_processes l : is_ok (assertCanProcessEvents l).1 = isProcessingEvents l.
Proof.
  unfold assertCanProcessEvents, assert_in, isProcessingEvents. rewrite (bool_decide_ext _ (lc_state l = running)) by set_solver.
  by case_bool_decide.
Qed.

Lemma running_from x : reaches x running -> x = starting.
Proof. intros [H _]. by destruct x; cbn in H; repeat (apply elem_of_cons in H as [H|H]; [try done|]); try (apply elem_of_nil in H). Qed.
End Gauge.
