(* ===== verification/Supervisor.v ===== *)
(** * The resolver's supervisor (resolver/src/supervisor.ts).

    [run()] starts a listener set and restarts it with growing delays;
    [stop()] may be called at any moment.  An [async] method is cut at its
    [await]s: [Pc] is the point [run()] waits at, and each code segment between
    two awaits is a computation that returns the next point.  The events -
    [run()] and [stop()] being called, a listener's promise settling, the
    restart timer firing, [run()] resuming from its sleep - come in any order;
    an event [run()] does not wait for has no effect. *)

From S2P Require Import Prelude.
From S2P Require Import Lifecycle.

Inductive SupError : Type :=
| ListenerError (fatal : bool) (tag : Z)
| MaxRestartsExceeded (n : Z)
| FromLifecycle (e : LifecycleError).

Record SupervisorOptions : Type := mkOptions {
  maxRestarts : Z;
  restartDelayMs : Z;
  maxRestartDelayMs : Z
}.

(** [new Supervisor({...})] fills in what the caller leaves out. *)
Definition supervisorOptions (n d m : option Z) : SupervisorOptions :=
  mkOptions (default 5 n) (default 5000 d) (default 60000 m).

(** Where [run()] is. *)
Inductive Pc : Type :=
| NotRun
| AwaitStartup
| AwaitStart
| AwaitSleep
| AwaitAbsorb (in_try : bool)
| Settled (r : outcome SupError unit).

(** The calls [run()] makes: [listeners.start()], [listeners.stop()] and
    [sleep(ms)]. *)
Inductive Call : Type := CStart | CStop | CSleep (ms : Z).

Record Supervisor : Type := mkSup {
  sv_stopped : bool;
  sv_state : LifecycleState;
  restartCount : Z;
  lifecycle : option ResolverLifecycle;
  sleepReject : bool;
  sleepResolved : bool;
  pc : Pc;
  calls : list Call
}.

Definition fresh (l : option ResolverLifecycle) : Supervisor := mkSup false idle 0 l false false NotRun [].

Definition with_state (x : LifecycleState) (s : Supervisor) : Supervisor :=
  mkSup (sv_stopped s) x (restartCount s) (lifecycle s) (sleepReject s) (sleepResolved s) (pc s) (calls s).
Definition with_lifecycle (l : ResolverLifecycle) (s : Supervisor) : Supervisor :=
  mkSup (sv_stopped s) (sv_state s) (restartCount s) (Some l) (sleepReject s) (sleepResolved s) (pc s) (calls s).
Definition with_pc (p : Pc) (s : Supervisor) : Supervisor :=
  mkSup (sv_stopped s) (sv_state s) (restartCount s) (lifecycle s) (sleepReject s) (sleepResolved s) p (calls s).
Definition with_call (c : Call) (s : Supervisor) : Supervisor :=
  mkSup (sv_stopped s) (sv_state s) (restartCount s) (lifecycle s) (sleepReject s) (sleepResolved s) (pc s) (c :: calls s).
Definition with_restart (s : Supervisor) : Supervisor :=
  mkSup (sv_stopped s) (sv_state s) (restartCount s + 1) (lifecycle s) (sleepReject s) (sleepResolved s) (pc s) (calls s).
Definition with_stopped (s : Supervisor) : Supervisor :=
  mkSup true (sv_state s) (restartCount s) (lifecycle s) (sleepReject s) (sleepResolved s) (pc s) (calls s).
Definition with_sleep (armed resolved : bool) (s : Supervisor) : Supervisor :=
  mkSup (sv_stopped s) (sv_state s) (restartCount s) (lifecycle s) armed resolved (pc s) (calls s).

Definition isRecoverable (e : SupError) : bool :=
  match e with ListenerError fatal _ => negb fatal | _ => true end.

(** The getter [lifecycleState]. *)
Definition lifecycleState (s : Supervisor) : LifecycleState :=
  match lifecycle s with
  | Some l => lc_state l
  | None => match sv_state s with pausing | paused => failed | x => x end
  end.

(** [Math.min(restartDelayMs * Math.pow(2, n - 1), maxRestartDelayMs)]. *)
Definition restartDelay (o : SupervisorOptions) (n : Z) : Z :=
  Z.min (restartDelayMs o * 2 ^ (n - 1)) (maxRestartDelayMs o).

Section Run.
Context (gauge_set : LifecycleState -> outcome LifecycleError unit) (o : SupervisorOptions).

Definition Seg := ST Supervisor SupError.

(** [this._state = x; this.lifecycle?.transition(x)]. *)
Definition go (now : Z) (x : LifecycleState) : Seg unit := fun s =>
  let s1 := with_state x s in
  match lifecycle s1 with
  | None => (Ok tt, s1)
  | Some l =>
      match transition gauge_set now x l with
      | (Ok _, l') => (Ok tt, with_lifecycle l' s1)
      | (Throw e, l') => (Throw (FromLifecycle e), with_lifecycle l' s1)
      end
  end.

Definition call (c : Call) : Seg unit := modify (with_call c).

(** [absorbLateStartup] up to [await listeners.stop()]; the flag says whether
    it was called inside the loop's [try]. *)
Definition absorb (now : Z) (in_try : bool) : Seg Pc :=
  _ ← go now stopping; _ ← call CStop; mret (AwaitAbsorb in_try).

(** The test of [while (!this._stopped)] and what follows it. *)
Definition loop_head (now : Z) : Seg Pc :=
  stp ← gets sv_stopped;
  if stp : bool then _ ← go now stopped; mret (Settled (Ok tt))
  else _ ← call CStart; mret AwaitStart.

(** The loop's [catch (err)] up to [await this.sleep(delay)]. *)
Definition catch_block (now : Z) (e : SupError) : Seg Pc :=
  stp ← gets sv_stopped;
  if stp : bool then _ ← go now stopped; mret (Settled (Ok tt))
  else if negb (isRecoverable e) then _ ← go now failed; throw e
  else
    _ ← modify with_restart;
    n ← gets restartCount;
    if maxRestarts o <? n then _ ← go now failed; throw (MaxRestartsExceeded (maxRestarts o))
    else
      _ ← go now restarting;
      _ ← call (CSleep (restartDelay o n));
      _ ← modify (with_sleep true false);
      mret AwaitSleep.

(** [run()] up to the first await. *)
Definition run_begin (now : Z) : Seg Pc :=
  _ ← go now starting; _ ← call CStart; mret AwaitStartup.

Definition after_startup (now : Z) (r : outcome SupError unit) : Seg Pc :=
  match r with
  | Throw e => _ ← go now failed; throw e
  | Ok _ =>
      stp ← gets sv_stopped;
      if stp : bool then absorb now false else _ ← go now running; loop_head now
  end.

Definition after_start (now : Z) (r : outcome SupError unit) : Seg Pc :=
  try_catch
    (match r with
     | Throw e => throw e
     | Ok _ =>
         stp ← gets sv_stopped;
         if stp : bool then absorb now true else _ ← go now stopped; mret (Settled (Ok tt))
     end)
    (catch_block now).

Definition after_sleep (now : Z) : Seg Pc :=
  stp ← gets sv_stopped;
  _ ← (if stp : bool then mret tt else go now running);
  loop_head now.

(** The rest of [absorbLateStartup]; a failing [listeners.stop()] is only
    logged. *)
Definition after_absorb (now : Z) (in_try : bool) : Seg Pc :=
  let rest : Seg Pc := _ ← go now stopped; mret (Settled (Ok tt)) in
  if in_try then try_catch rest (catch_block now) else rest.

(** Run a segment to the next await, or settle [run()]'s promise. *)
Definition resume (seg : Seg Pc) (s : Supervisor) : Supervisor :=
  match seg s with
  | (Ok p, s') => with_pc p s'
  | (Throw e, s') => with_pc (Settled (Throw e)) s'
  end.

(** [stop()]. *)
Definition stop (now : Z) : Seg unit := fun s =>
  if sv_stopped s then (Ok tt, s)
  else
    match go now stopping (with_stopped s) with
    | (Throw e, s') => (Throw e, s')
    | (Ok _, s') => (Ok tt, with_sleep false (sleepReject s' || sleepResolved s') s')
    end.

Inductive Event : Type :=
| ERun
| EStop
| EStart (r : outcome SupError unit)
| ETimer
| EResume
| EListenersStopped (r : outcome SupError unit).

Definition step (now : Z) (e : Event) (s : Supervisor) : Supervisor :=
  match e, pc s with
  | EStop, _ => (stop now s).2
  | ERun, NotRun => resume (run_begin now) s
  | EStart r, AwaitStartup => resume (after_startup now r) s
  | EStart r, AwaitStart => resume (after_start now r) s
  | ETimer, AwaitSleep => with_sleep (sleepReject s) true s
  | EResume, AwaitSleep => if sleepResolved s then resume (after_sleep now) s else s
  | EListenersStopped _, AwaitAbsorb in_try => resume (after_absorb now in_try) s
  | _, _ => s
  end.

Fixpoint steps (evs : list (Z * Event)) (s : Supervisor) : Supervisor :=
  match evs with
  | [] => s
  | (now, e) :: evs' => steps evs' (step now e s)
  end.

(** [stopAll]: every listener's [stop()] is awaited; [rs] are their
    results, the first failure is rethrown. *)
Definition stopAll (now : Z) (rs : list (outcome SupError unit)) : Seg unit := fun s =>
  let errors := omap (fun r => match r with Throw e => Some e | Ok _ => None end) rs in
  let s1 := foldl (fun acc _ => with_call CStop acc) s rs in
  match errors with
  | e :: _ => (Throw e, with_state failed (go now failed s1).2)
  | [] => (Ok tt, (go now stopped s1).2)
  end.

(** ** Facts *)

Definition is_start (c : Call) : bool := match c with CStart => true | _ => false end.
Definition starts (s : Supervisor) : Z := Z.of_nat (length (List.filter is_start (calls s))).

Definition sleeps (s : Supervisor) : list Z :=
  omap (fun c => match c with CSleep ms => Some ms | _ => None end) (calls s).

(** The delays of the first [n] restarts, the latest first. *)
Fixpoint delays (n : nat) : list Z :=
  match n with
  | O => []
  | S m => restartDelay o (Z.of_nat n) :: delays m
  end.

Lemma starts_call c s : starts (with_call c s) = starts s + (if is_start c then 1 else 0).
Proof. unfold starts. destruct c; cbn; lia. Qed.

(** What holds between two events: the listeners were started once per
    restart and twice at the beginning, the delays follow the schedule, and
    the state tells the await [run()] is at and whether [stop()] was
    called. *)
Definition phase_ok (s : Supervisor) : Prop :=
  let n := restartCount s in
  let unless_stopped x := sv_state s = if sv_stopped s then stopping else x in
  match pc s with
  | NotRun => starts s = 0 /\ n = 0 /\ unless_stopped idle
  | AwaitStartup => starts s = 1 /\ n = 0 /\ (sv_state s = starting \/ sv_stopped s = true /\ sv_state s = stopping)
  | AwaitStart => starts s = n + 2 /\ n <= maxRestarts o /\ unless_stopped running
  | AwaitSleep => starts s = n + 1 /\ n <= maxRestarts o /\ unless_stopped restarting /\
                  sleepReject s || sleepResolved s = true /\ (sv_stopped s = true -> sleepResolved s = true)
  | AwaitAbsorb in_try => starts s = (if in_try then n + 2 else n + 1) /\ n <= maxRestarts o /\
                          sv_stopped s = true /\ sv_state s = stopping
  | Settled r => starts s <= maxRestarts o + 2 /\ n <= maxRestarts o + 1 /\
                 (sv_state s = (if is_ok r then stopped else failed) \/ sv_stopped s = true /\ sv_state s = stopping)
  end.

Definition sup_ok (s : Supervisor) : Prop :=
  lifecycle s = None /\ 0 <= restartCount s /\
  sleeps s = delays (Z.to_nat (Z.min (restartCount s) (maxRestarts o))) /\ phase_ok s.

Lemma delays_next n : 0 <= n -> n + 1 <= maxRestarts o ->
  delays (Z.to_nat (Z.min (n + 1) (maxRestarts o))) =
  restartDelay o (n + 1) :: delays (Z.to_nat (Z.min n (maxRestarts o))).
Proof.
  intros H0 H1. rewrite !Z.min_l by lia. replace (Z.to_nat (n + 1)) with (S (Z.to_nat n)) by lia. cbn.
  do 2 f_equal; lia.
Qed.

Lemma delays_full n : maxRestarts o <= n ->
  delays (Z.to_nat (Z.min (n + 1) (maxRestarts o))) = delays (Z.to_nat (Z.min n (maxRestarts o))).
Proof. intros H. by rewrite !Z.min_r by lia. Qed.

Ltac sup_cases s :=
  destruct s as [stp st n lc rej rslv p cs]; cbn in *.

(** Run the segments on a state that is a record of values. *)
Ltac segments :=
  unfold stop, resume, run_begin, after_startup, after_start, after_sleep, after_absorb, absorb, loop_head,
    catch_block, go, call; st_unfold; cbn.

(** Close a case of the invariant. *)
Ltac phase :=
  unfold starts in *; cbn in *; destruct_and?; simplify_eq; split_and?;
  try done; try lia; try (by left); try (by right); try (by f_equal).

Lemma sup_step_ok now e s : 0 <= maxRestarts o -> sup_ok s -> sup_ok (step now e s).
Proof.
  intros Hm. sup_cases s. intros (Hl & Hn & Hd & Hp). unfold sup_ok, phase_ok in *; cbn in *. subst lc.
  destruct e as [| |r| | |r]; cbn.
  - destruct p; segments; phase.
  - destruct stp; segments; [done|]. destruct p; phase; intuition.
  - destruct p; try done; [destruct r, stp; segments; phase|].
    destruct r as [|e], stp; segments; try (by phase).
    destruct (isRecoverable e); cbn; [|by phase].
    destruct (maxRestarts o <? n + 1) eqn:Hlt; bools; cbn; phase; rewrite Hd; [symmetry; apply delays_full; lia|].
    rewrite delays_next by lia. done.
  - destruct p; try done. phase.
  - destruct p; try done. destruct rslv; [|done]. destruct stp; segments; phase.
  - destruct p; try done. destruct in_try, stp; segments; phase.
Qed.

Lemma sup_steps_ok evs s : 0 <= maxRestarts o -> sup_ok s -> sup_ok (steps evs s).
Proof.
  intros Hm. revert s. induction evs as [|[now e] evs IH]; intros s H; [done|]. cbn. by apply IH, sup_step_ok.
Qed.

Lemma fresh_ok : 0 <= maxRestarts o -> sup_ok (fresh None).
Proof. intros H. unfold sup_ok, sleeps; cbn. by rewrite Z.min_l by lia. Qed.
Lemma delays_length n : length (delays n) = n.
Proof. induction n as [|n IH]; [done|]. cbn. by rewrite IH. Qed.

Lemma delays_capped n : Forall (fun d => d <= maxRestartDelayMs o) (delays n).
Proof. induction n as [|n IH]; constructor; [apply Z.le_min_r|done]. Qed.

(** The promise [run()] waits for settles with [r]. *)
Definition awaited (p : Pc) (r : outcome SupError unit) : Event :=
  match p with
  | AwaitStartup | AwaitStart => EStart r
  | AwaitSleep => EResume
  | AwaitAbsorb _ => EListenersStopped r
  | NotRun | Settled _ => ETimer
  end.
Definition settle (now : Z) (r : outcome SupError unit) (s : Supervisor) : Supervisor :=
  step now (awaited (pc s) r) s.
Definition in_progress (p : Pc) : bool := match p with NotRun | Settled _ => false | _ => true end.

(** The stopped supervisor drains: what its next two settlements leave. *)
Lemma stopped_drains s t1 r1 t2 r2 :
  sup_ok s -> sv_stopped s = true -> in_progress (pc s) = true ->
  let s2 := settle t2 r2 (settle t1 r1 s) in
  match pc s, r1 with
  | AwaitStartup, Throw e => pc s2 = Settled (Throw e) /\ sv_state s2 = failed /\ calls s2 = calls s
  | AwaitStartup, Ok _ | AwaitStart, Ok _ =>
      pc s2 = Settled (Ok tt) /\ sv_state s2 = stopped /\ calls s2 = CStop :: calls s
  | _, _ => pc s2 = Settled (Ok tt) /\ sv_state s2 = stopped /\ calls s2 = calls s
  end.
Proof.
  sup_cases s. intros (Hl & Hn & Hd & Hp) Hs Hin. unfold phase_ok in Hp. cbn in *. subst lc stp.
  unfold settle. destruct p; try done; cbn; [destruct r1; by segments| destruct r1; by segments| | ].
  - destruct Hp as (_ & _ & _ & _ & Hr). rewrite (Hr eq_refl). by segments.
  - by destruct in_try; segments.
Qed.

(** With a lifecycle manager nothing is ever started: its first transition
    throws. *)
Lemma run_with_lifecycle now l :
  exists e, pc (step now ERun (fresh (Some l))) = Settled (Throw (FromLifecycle e)) /\
            calls (step now ERun (fresh (Some l))) = [].
Proof.
  destruct (transition_throws gauge_set now starting l) as [e He]. exists e. cbn. segments.
  destruct (transition gauge_set now starting l) as [[?|?] l']; cbn in He; by simplify_eq.
Qed.
End Run.

(** Restarts are bounded and scheduled: whatever the listeners do and
    whenever [stop()] is called, [run()] calls [listeners.start()] at most
    [maxRestarts + 2] times, sleeps at most [maxRestarts] times, the k-th time
    for [min(restartDelayMs * 2^(k-1), maxRestartDelayMs)] milliseconds, is
    never marked [running] after [stop()], and when it settles without a
    [stop()] its state is [stopped] exactly if it resolved and [failed] if it
    rejected. *)
Lemma supervisor_bounded (gauge_set : LifecycleState -> outcome LifecycleError unit)
    (o : SupervisorOptions) (evs : list (Z * Event)) :
  0 <= maxRestarts o ->
  let s := steps gauge_set o evs (fresh None) in
  starts s <= maxRestarts o + 2 /\
  Z.of_nat (length (sleeps s)) <= maxRestarts o /\
  sleeps s = delays o (length (sleeps s)) /\
  Forall (fun d => d <= maxRestartDelayMs o) (sleeps s) /\
  (sv_stopped s = true -> sv_state s <> running) /\
  (forall r, pc s = Settled r -> sv_stopped s = false -> sv_state s = if is_ok r then stopped else failed).
Proof.
  intros Hm s. destruct (sup_steps_ok gauge_set o evs (fresh None) Hm (fresh_ok o Hm)) as (_ & Hn & Hd & Hp).
  fold s in Hn, Hd, Hp. rewrite Hd, delays_length. unfold phase_ok in Hp.
  split_and!; [|lia|done|apply delays_capped| |].
  - destruct (pc s) as [| | | |b|r]; [..|destruct b|]; lia.
  - intros Hs. rewrite Hs in Hp. destruct (pc s) as [| | | |?|[|]]; cbn in Hp; intuition congruence.
  - intros r E Hs. rewrite E, Hs in Hp. destruct Hp as (_ & _ & [H|[H _]]); done.
Qed.

Definition flaky_schedule : list (Z * Event) :=
  [(0, ERun); (1, EStart (Ok tt)); (2, EStart (Throw (ListenerError false 1))); (3, ETimer); (4, EResume);
   (5, EStart (Throw (ListenerError false 2)))].
Definition default_gauge : LifecycleState -> outcome LifecycleError unit := fun _ => Ok tt.
Definition production_options : SupervisorOptions := supervisorOptions (Some 5) (Some 5000) (Some 60000).

Lemma supervisor_bounded_witness :
  let s := steps default_gauge production_options flaky_schedule (fresh None) in
  starts s = 3 /\ sleeps s = [10000; 5000] /\ starts s <= 5 + 2.
Proof.
  split; [done|]. split; [done|].
  apply (supervisor_bounded default_gauge production_options flaky_schedule). done.
Defined.

(** [stop()] is prompt and leaks no listener: once it was called,
    wherever [run()] is waiting - a start, the restart delay, a teardown - the
    next two promises it waits for settle it, in [stopped] and without an
    error, the restart timer not among them; a listener whose [start()]
    resolves late is stopped, and nothing is started again.  The one
    exception is a startup that fails after [stop()]: [run()] then rejects
    and the state is [failed]. *)
Lemma supervisor_stop_drains (gauge_set : LifecycleState -> outcome LifecycleError unit)
    (o : SupervisorOptions) (evs : list (Z * Event)) (t t1 t2 : Z) (r1 r2 : outcome SupError unit) :
  0 <= maxRestarts o ->
  let s := step gauge_set o t EStop (steps gauge_set o evs (fresh None)) in
  in_progress (pc s) = true ->
  let s2 := settle gauge_set o t2 r2 (settle gauge_set o t1 r1 s) in
  match pc s, r1 with
  | AwaitStartup, Throw e => pc s2 = Settled (Throw e) /\ sv_state s2 = failed /\ calls s2 = calls s
  | AwaitStartup, Ok _ | AwaitStart, Ok _ =>
      pc s2 = Settled (Ok tt) /\ sv_state s2 = stopped /\ calls s2 = CStop :: calls s
  | _, _ => pc s2 = Settled (Ok tt) /\ sv_state s2 = stopped /\ calls s2 = calls s
  end.
Proof.
  intros Hm s Hin. assert (sup_ok o s) as Hok by (apply sup_step_ok, sup_steps_ok, fresh_ok; done).
  apply stopped_drains; [done| |done]. unfold s, step. destruct Hok as (Hl & _). 
  set (s0 := steps gauge_set o evs (fresh None)) in *.
  destruct (sup_steps_ok gauge_set o evs (fresh None) Hm (fresh_ok o Hm)) as (Hl0 & _). fold s0 in Hl0.
  unfold stop. destruct (sv_stopped s0) eqn:E; [done|]. unfold go. cbn. by rewrite Hl0.
Qed.

Lemma supervisor_stop_drains_witness :
  let s := step default_gauge production_options 9 EStop
             (steps default_gauge production_options flaky_schedule (fresh None)) in
  let s2 := settle default_gauge production_options 11 (Ok tt) (settle default_gauge production_options 10 (Ok tt) s) in
  pc s = AwaitSleep /\ pc s2 = Settled (Ok tt) /\ sv_state s2 = stopped /\ calls s2 = calls s.
Proof.
  split; [done|].
  apply (supervisor_stop_drains default_gauge production_options flaky_schedule 9 10 11 (Ok tt) (Ok tt)); done.
Defined.

(** A listener set whose [start()] resolves once its subscriptions are
    attached - the one commands/run.ts passes - is started twice and then left
    alone in [stopped], never torn down. *)
Example attached_listeners_start_twice :
  let s := steps default_gauge production_options
             [(0, ERun); (1, EStart (Ok tt)); (2, EStart (Ok tt))] (fresh None) in
  calls s = [CStart; CStart] /\ pc s = Settled (Ok tt) /\ sv_state s = stopped.
Proof. done. Qed.

(** A transient error of the first start is not retried. *)
Example startup_error_not_retried :
  let s := steps default_gauge production_options
             [(0, ERun); (1, EStart (Throw (ListenerError false 1)))] (fresh None) in
  calls s = [CStart] /\ pc s = Settled (Throw (ListenerError false 1)) /\ sv_state s = failed.
Proof. done. Qed.

(** [stop()] after [run()] has failed reports [stopping] for ever. *)
Example stop_after_failure :
  let s := steps default_gauge production_options
             [(0, ERun); (1, EStart (Throw (ListenerError true 1))); (2, EStop)] (fresh None) in
  sv_state s = stopping /\ pc s = Settled (Throw (ListenerError true 1)).
Proof. done. Qed.
