(* ===== verification/Backlog.v ===== *)
(** * The coordinator's backlog scheduler
    (coordinator/src/backlog/backlog-scheduler.ts and
    services/pressure-controller.ts).

    Four FIFO queues, one per priority class.  [run()] is asynchronous and the
    coordinator calls it without awaiting it (every maintenance tick and every
    reconciliation tick does), so several runs share the queues; a run is cut
    at the await of a job, and [Settle i] lets the i-th run continue after its
    job resolved, rejected or timed out. *)

From S2P Require Import Prelude.
From Stdlib Require Import QArith.QArith_base.
#[local] Open Scope Z_scope.

(** ** Pressure controller *)

Inductive PressureMode : Type := NORMAL | RESTRAINED.

#[export] Instance PressureMode_eq_dec : EqDecision PressureMode.
Proof. solve_decision. Defined.

Record PressureController : Type := mkPressure {
  pc_mode : PressureMode;
  maxInFlightListeners : Z;
  maxInFlightReconciliations : Z;
  maxInFlightRecoveries : Z
}.

Definition newPressureController (l r v : option Z) : PressureController :=
  mkPressure NORMAL (default 8 l) (default 4 r) (default 3 v).

(** The double nearest to 0.3. *)
Definition failure_threshold : Q := 5404319552844595 # 18014398509481984.

Definition overload (queueDepth lag : Z) (failureRate : Q) : bool :=
  (32 <? queueDepth) || (50 <? lag) || negb (Qle_bool failureRate failure_threshold).

Definition observe (queueDepth lag : Z) (failureRate : Q) (c : PressureController) : PressureController :=
  mkPressure (if overload queueDepth lag failureRate then RESTRAINED else NORMAL)
    (maxInFlightListeners c) (maxInFlightReconciliations c) (maxInFlightRecoveries c).

(** [getLimits()]: listeners, reconciliations, recoveries. *)
Definition getLimits (c : PressureController) : Z * Z * Z :=
  let limit n := match pc_mode c with RESTRAINED => Z.max 1 (n / 2) | NORMAL => n end in
  (limit (maxInFlightListeners c), limit (maxInFlightReconciliations c), limit (maxInFlightRecoveries c)).

(** ** Backlog scheduler *)

Inductive Priority : Type := LIVE_EVENT | REPLAY_JOB | SECRET_RECOVERY | STALE_CLEANUP.

#[export] Instance Priority_eq_dec : EqDecision Priority.
Proof. solve_decision. Defined.

Definition PRIORITY_LABELS (p : Priority) : string :=
  match p with
  | LIVE_EVENT => "live_event"
  | REPLAY_JOB => "replay_job"
  | SECRET_RECOVERY => "secret_recovery"
  | STALE_CLEANUP => "stale_cleanup"
  end.

Definition DEFAULT_TIMEOUTS_MS (p : Priority) : Z :=
  match p with
  | LIVE_EVENT => 60000
  | REPLAY_JOB => 120000
  | SECRET_RECOVERY => 90000
  | STALE_CLEANUP => 60000
  end.

(** [Object.values(Priority).sort((a, b) => a - b)]. *)
Definition sortedPriorities : list Priority := [LIVE_EVENT; REPLAY_JOB; SECRET_RECOVERY; STALE_CLEANUP].

(** [work] identifies the closure [execute]. *)
Record ScheduledJob : Type := mkJob {
  job_name : string;
  priority : Priority;
  timeoutMs : option Z;
  work : string
}.

#[export] Instance ScheduledJob_eq_dec : EqDecision ScheduledJob.
Proof. solve_decision. Defined.

Definition effective_timeout (j : ScheduledJob) : Z := default (DEFAULT_TIMEOUTS_MS (priority j)) (timeoutMs j).

Definition Queues : Type := Priority -> list ScheduledJob.
Definition set_queue (p : Priority) (q : list ScheduledJob) (qs : Queues) : Queues :=
  fun x => if decide (x = p) then q else qs x.

(** A call of [run()]: the classes it has not passed yet, the one it drains
    first, the job it awaits and the jobs it has executed. *)
Record Run : Type := mkRun {
  run_at : list Priority;
  run_job : option ScheduledJob;
  run_total : Z
}.

(** The scheduler, its queue-depth gauge, and what it has accepted, started
    and counted so far, oldest first. *)
Record Backlog : Type := mkBacklog {
  queues : Queues;
  pressureMode : PressureMode;
  runs : list Run;
  queueDepth : Priority -> Z;
  accepted : list ScheduledJob;
  started : list ScheduledJob;
  executed : list (Priority * bool);
  timeouts : list ScheduledJob;
  dropped : list ScheduledJob
}.

Definition emptyBacklog : Backlog :=
  mkBacklog (fun _ => []) NORMAL [] (fun _ => 0) [] [] [] [] [].

(** How the awaited job ended: [_executeWithTimeout] resolves on a timeout. *)
Inductive Settlement : Type := Resolved | Rejected | TimedOut.

#[export] Instance Settlement_eq_dec : EqDecision Settlement.
Proof. solve_decision. Defined.

Inductive Event : Type :=
| Enqueue (j : ScheduledJob)
| SetPressure (m : PressureMode)
| RunCall
| Settle (i : nat) (h : Settlement).

Section Scheduler.
Context (maxQueueDepth : Z) (singleStep : bool).

Definition setPressureMode (m : PressureMode) (b : Backlog) : Backlog :=
  mkBacklog (queues b) m (runs b) (queueDepth b) (accepted b) (started b) (executed b) (timeouts b) (dropped b).

Definition set_depth (p : Priority) (n : Z) (g : Priority -> Z) : Priority -> Z :=
  fun x => if decide (x = p) then n else g x.

Definition drop_job (j : ScheduledJob) (b : Backlog) : Backlog :=
  mkBacklog (queues b) (pressureMode b) (runs b) (queueDepth b) (accepted b) (started b) (executed b) (timeouts b)
    (dropped b ++ [j]).

Definition enqueue (j : ScheduledJob) (b : Backlog) : bool * Backlog :=
  let queue := queues b (priority j) in
  if bool_decide (pressureMode b = RESTRAINED) && bool_decide (priority j = STALE_CLEANUP) then
    (false, drop_job j b)
  else if (0 <? maxQueueDepth) && (maxQueueDepth <=? Z.of_nat (length queue)) then (false, drop_job j b)
  else
    (true, mkBacklog (set_queue (priority j) (queue ++ [j]) (queues b)) (pressureMode b) (runs b)
             (set_depth (priority j) (Z.of_nat (length (queue ++ [j]))) (queueDepth b))
             (accepted b ++ [j]) (started b) (executed b) (timeouts b) (dropped b)).

(** [queue.shift()], the gauge, and the job's start. *)
Definition shift (p : Priority) (j : ScheduledJob) (q : list ScheduledJob) (b : Backlog) : Backlog :=
  mkBacklog (set_queue p q (queues b)) (pressureMode b) (runs b)
    (set_depth p (Z.of_nat (length q)) (queueDepth b)) (accepted b) (started b ++ [j])
    (executed b) (timeouts b) (dropped b).

(** The [for]/[while] heads of [run()]: shift the next job of the class being
    drained, or go on to the next class. *)
Fixpoint next_job (ps : list Priority) (b : Backlog) : Run -> Run * Backlog := fun r =>
  match ps with
  | [] => (mkRun [] None (run_total r), b)
  | p :: ps' =>
      match queues b p with
      | [] => next_job ps' b r
      | j :: q =>
          (mkRun ps (Some j) (run_total r), shift p j q b)
      end
  end.

Definition with_runs (rs : list Run) (b : Backlog) : Backlog :=
  mkBacklog (queues b) (pressureMode b) rs (queueDepth b) (accepted b) (started b) (executed b) (timeouts b) (dropped b).

(** [run()] up to its first await; the new run is the last of [runs]. *)
Definition run_call (b : Backlog) : Backlog :=
  let '(r, b') := next_job sortedPriorities b (mkRun sortedPriorities None 0) in
  with_runs (runs b ++ [r]) b'.

Definition count_job (j : ScheduledJob) (h : Settlement) (b : Backlog) : Backlog :=
  mkBacklog (queues b) (pressureMode b) (runs b) (queueDepth b) (accepted b) (started b)
    (executed b ++ [(priority j, match h with Rejected => false | _ => true end)])
    (match h with TimedOut => timeouts b ++ [j] | _ => timeouts b end) (dropped b).

(** The rest of the loop body after the await, to the next await or the
    return. *)
Definition settle (i : nat) (h : Settlement) (b : Backlog) : Backlog :=
  match runs b !! i with
  | Some (mkRun ps (Some j) n) =>
      if bool_decide (h = TimedOut) && (effective_timeout j <=? 0) then b
      else
        let b1 := count_job j h b in
        if singleStep then with_runs (<[i := mkRun [] None (n + 1)]> (runs b)) b1
        else
          let '(r, b2) := next_job ps b1 (mkRun ps None (n + 1)) in
          with_runs (<[i := r]> (runs b)) b2
  | _ => b
  end.

Definition getTotalDepth (b : Backlog) : Z :=
  foldr (fun p n => Z.of_nat (length (queues b p)) + n) 0 sortedPriorities.

Definition clear (b : Backlog) : Backlog :=
  mkBacklog (fun _ => []) (pressureMode b) (runs b) (fun _ => 0) (accepted b) (started b) (executed b) (timeouts b)
    (dropped b).

Definition step (e : Event) (b : Backlog) : Backlog :=
  match e with
  | Enqueue j => (enqueue j b).2
  | SetPressure m => setPressureMode m b
  | RunCall => run_call b
  | Settle i h => settle i h b
  end.

Definition steps (es : list Event) (b : Backlog) : Backlog := foldl (fun b e => step e b) b es.
(** ** Facts *)

Definition of_class (p : Priority) (l : list ScheduledJob) : list ScheduledJob :=
  List.filter (fun j => bool_decide (priority j = p)) l.

Definition busy (p : Priority) (r : Run) : Z :=
  match run_job r with Some j => if bool_decide (priority j = p) then 1 else 0 | None => 0 end.
Definition executing (p : Priority) (rs : list Run) : Z := foldr (fun r n => busy p r + n) 0 rs.
Definition counted (p : Priority) (l : list (Priority * bool)) : Z :=
  Z.of_nat (length (List.filter (fun x => bool_decide (x.1 = p)) l)).

#[local] Arguments executing : simpl never.
#[local] Arguments counted : simpl never.
#[local] Arguments of_class : simpl never.

Record bl_ok (b : Backlog) : Prop := {
  bl_fifo : forall p, of_class p (accepted b) = of_class p (started b) ++ queues b p;
  bl_class : forall p j, j ∈ queues b p -> priority j = p;
  bl_depth : 0 < maxQueueDepth -> forall p, Z.of_nat (length (queues b p)) <= maxQueueDepth;
  bl_gauge : forall p, queueDepth b p = Z.of_nat (length (queues b p));
  bl_counted : forall p, counted p (executed b) + executing p (runs b) = Z.of_nat (length (of_class p (started b)))
}.

Lemma of_class_app p l m : of_class p (l ++ m) = of_class p l ++ of_class p m.
Proof. apply List.filter_app. Qed.

Lemma of_class_one p j : of_class p [j] = if decide (priority j = p) then [j] else [].
Proof. unfold of_class. cbn. by case_bool_decide; case_decide. Qed.

Lemma executing_app p rs rs' : executing p (rs ++ rs') = executing p rs + executing p rs'.
Proof.
  induction rs as [|r rs IH]; [done|].
  change (busy p r + executing p (rs ++ rs') = busy p r + executing p rs + executing p rs'). rewrite IH. lia.
Qed.

Lemma executing_insert p i r r' rs :
  rs !! i = Some r -> executing p (<[i := r']> rs) = executing p rs - busy p r + busy p r'.
Proof.
  revert i. induction rs as [|r0 rs IH]; intros [|i] H; simplify_eq/=; [unfold executing; cbn; lia|].
  change (busy p r0 + executing p (<[i := r']> rs) = busy p r0 + executing p rs - busy p r + busy p r').
  rewrite (IH i H). lia.
Qed.

Lemma counted_app p l x : counted p (l ++ [x]) = counted p l + (if bool_decide (x.1 = p) then 1 else 0).
Proof. unfold counted. rewrite List.filter_app, length_app. cbn. case_bool_decide; cbn; lia. Qed.

(** What [next_job] does: it passes the empty classes and shifts the first
    job it meets. *)
Lemma next_job_cases ps b r :
  (Forall (fun p => queues b p = []) ps /\ next_job ps b r = (mkRun [] None (run_total r), b)) \/
  exists pre p post j q, ps = pre ++ p :: post /\ Forall (fun p => queues b p = []) pre /\
    queues b p = j :: q /\ next_job ps b r = (mkRun (p :: post) (Some j) (run_total r), shift p j q b).
Proof.
  induction ps as [|p ps IH]; [by left|]. cbn. destruct (queues b p) as [|j q] eqn:E.
  - destruct IH as [[H1 ->]|(pre & p' & post & j & q & -> & H1 & H2 & ->)]; [left; by split; [constructor|]|].
    right. exists (p :: pre), p', post, j, q. by split_and!; [|constructor|..].
  - right. by exists [], p, ps, j, q.
Qed.

(** Shifting keeps the bookkeeping, the run that will await the job being
    accounted for separately. *)
Lemma shift_ok b p j q :
  bl_ok b -> queues b p = j :: q ->
  (forall x, of_class x (accepted b) = of_class x (started b ++ [j]) ++ queues (shift p j q b) x) /\
  (forall x k, k ∈ queues (shift p j q b) x -> priority k = x) /\
  (0 < maxQueueDepth -> forall x, Z.of_nat (length (queues (shift p j q b) x)) <= maxQueueDepth) /\
  (forall x, queueDepth (shift p j q b) x = Z.of_nat (length (queues (shift p j q b) x))) /\
  priority j = p.
Proof.
  intros H Hq. assert (priority j = p) as Hp by (apply (bl_class b H); rewrite Hq; left).
  split_and!; [intros x|intros x k|intros Hm x|intros x|done]; cbn; unfold set_queue, set_depth.
  - rewrite (bl_fifo b H), of_class_app, of_class_one. subst p.
    destruct (decide (x = priority j)) as [->|Hne]; [rewrite decide_True by done; rewrite Hq; by rewrite <- app_assoc|].
    rewrite decide_False by done. by rewrite app_nil_r.
  - destruct (decide (x = p)) as [->|_]; [|apply (bl_class b H)].
    intros Hk. apply (bl_class b H). rewrite Hq. by right.
  - pose proof (bl_depth b H Hm x) as Hd. destruct (decide (x = p)) as [->|_]; [|done].
    rewrite Hq in Hd. cbn in Hd. lia.
  - destruct (decide (x = p)); [done|apply (bl_gauge b H)].
Qed.

Lemma busy_job p ps j n : busy p (mkRun ps (Some j) n) = if bool_decide (priority j = p) then 1 else 0.
Proof. done. Qed.

(** Putting the run that [next_job] leaves back among the runs. *)
Lemma next_job_ok b ps r rs r' b' :
  bl_ok (with_runs rs b) -> next_job ps b r = (r', b') ->
  forall rs', (forall p, executing p rs' = executing p rs + busy p r') -> bl_ok (with_runs rs' b').
Proof.
  intros H Hn rs' Hrs.
  destruct (next_job_cases ps b r) as [[_ E]|(pre & p & post & j & q & -> & _ & Hq & E)]; rewrite Hn in E;
    injection E as -> ->.
  - destruct H as [H1 H2 H3 H4 H5]. constructor; try done. intros p. specialize (H5 p). cbn in *. rewrite Hrs. cbn. lia.
  - destruct (shift_ok (with_runs rs b) p j q H Hq) as (S1 & S2 & S3 & S4 & S5).
    constructor; try done. intros y. cbn. rewrite Hrs, of_class_app, length_app, of_class_one.
    pose proof (bl_counted _ H y) as Hc. cbn in Hc. rewrite busy_job.
    case_bool_decide; [rewrite decide_True by done|rewrite decide_False by done]; cbn; lia.
Qed.

Lemma enqueue_ok j b : bl_ok b -> bl_ok (enqueue j b).2.
Proof.
  intros H. unfold enqueue. destruct (_ && _); [by destruct H; constructor|].
  destruct ((0 <? maxQueueDepth) && _) eqn:Hf; [by destruct H; constructor|]. cbn.
  destruct H as [H1 H2 H3 H4 H5]. constructor; cbn; unfold set_queue, set_depth; [intros p|intros p k|intros Hm p|intros p|done].
  - rewrite of_class_app, of_class_one, H1, <- app_assoc. f_equal.
    destruct (decide (p = priority j)) as [->|Hne]; [by rewrite decide_True by done|].
    rewrite decide_False by done. apply app_nil_r.
  - destruct (decide (p = priority j)) as [->|_]; [|apply H2].
    intros [Hk|Hk]%elem_of_app; [by apply H2|]. by apply list_elem_of_singleton in Hk as ->.
  - destruct (decide (p = priority j)) as [->|_]; [|by apply H3]. rewrite length_app. cbn.
    apply andb_false_iff in Hf as [Hf|Hf]; bools; lia.
  - destruct (decide (p = priority j)) as [->|_]; [done|apply H4].
Qed.

Lemma scheduler_step_ok e b : bl_ok b -> bl_ok (step e b).
Proof.
  intros H. destruct e as [j|m| |i h]; cbn.
  - by apply enqueue_ok.
  - by destruct H; constructor.
  - unfold run_call. destruct (next_job _ b _) as [r b'] eqn:E.
    apply (next_job_ok b _ _ (runs b) _ _ ltac:(by destruct H; constructor) E).
    intros p. rewrite executing_app. unfold executing; cbn. lia.
  - unfold settle. destruct (runs b !! i) as [[ps [j|] n]|] eqn:Hi; [|done..].
    destruct (bool_decide (h = TimedOut) && _); [done|].
    assert (forall r0, busy (priority j) r0 = 0 -> run_job r0 = None ->
      bl_ok (with_runs (<[i := r0]> (runs b)) (count_job j h b))) as Hok.
    { intros r0 _ Hr0. destruct H as [H1 H2 H3 H4 H5]. constructor; try done. intros p. cbn.
      rewrite counted_app, (executing_insert p i _ _ _ Hi), busy_job. unfold busy. rewrite Hr0. cbn.
      specialize (H5 p). lia. }
    destruct singleStep; [by apply Hok|].
    destruct (next_job ps _ _) as [r b2] eqn:E.
    refine (next_job_ok _ ps _ (<[i := mkRun [] None 0]> (runs b)) r b2 (Hok (mkRun [] None 0) eq_refl eq_refl) E _ _).
    intros p. rewrite !(executing_insert p i _ _ _ Hi). unfold busy at 4. cbn. lia.
Qed.

Lemma scheduler_steps_ok es b : bl_ok b -> bl_ok (steps es b).
Proof. revert b. induction es as [|e es IH]; intros b H; [done|]. cbn. by apply IH, scheduler_step_ok. Qed.

Lemma empty_ok : bl_ok emptyBacklog.
Proof. constructor; try done; cbn; [by intros p j ?%elem_of_nil|lia]. Qed.
(** The jobs queued in the classes [ps], in the order a run takes them. *)
Fixpoint pending (ps : list Priority) (b : Backlog) : list ScheduledJob :=
  match ps with [] => [] | p :: ps' => queues b p ++ pending ps' b end.

Lemma pending_app ps ps' b : pending (ps ++ ps') b = pending ps b ++ pending ps' b.
Proof. induction ps as [|p ps IH]; [done|]. cbn. by rewrite IH, app_assoc. Qed.

Lemma pending_nil ps b : Forall (fun p => queues b p = []) ps -> pending ps b = [].
Proof. induction 1 as [|p ps Hp _ IH]; [done|]. cbn. by rewrite Hp, IH. Qed.

Lemma pending_ext ps b b' : (forall p, p ∈ ps -> queues b p = queues b' p) -> pending ps b = pending ps b'.
Proof.
  induction ps as [|p ps IH]; intros H; [done|]. cbn. rewrite (H p) by left. f_equal. apply IH. intros x Hx.
  apply H. by right.
Qed.

Lemma pending_shift p post j q b :
  p ∉ post -> queues b p = j :: q ->
  pending (p :: post) b = j :: pending (p :: post) (shift p j q b).
Proof.
  intros Hp Hq. cbn. unfold set_queue at 1. rewrite Hq, decide_True by done. cbn. do 2 f_equal.
  apply pending_ext. intros x Hx. cbn. unfold set_queue. rewrite decide_False; [done|]. by intros ->.
Qed.

(** The run number [i] is left alone and its jobs settle one after the
    other. *)
Definition settle_all (i : nat) (hs : list Settlement) (b : Backlog) : Backlog :=
  foldl (fun b h => settle i h b) b hs.

Definition no_stall (ps : list Priority) (b : Backlog) : Prop :=
  forall p j, p ∈ ps -> j ∈ queues b p -> 0 < effective_timeout j.

Lemma no_stall_shift pre p post j q b :
  no_stall (pre ++ p :: post) b -> queues b p = j :: q -> no_stall (p :: post) (shift p j q b) /\ 0 < effective_timeout j.
Proof.
  intros H Hq. split.
  - intros x k Hx Hk. cbn in Hk. unfold set_queue in Hk.
    apply (H x k); [by apply elem_of_app; right|]. destruct (decide (x = p)) as [->|]; [rewrite Hq; by right|done].
  - apply (H p j); [apply elem_of_app; right; left|]. rewrite Hq. left.
Qed.

Lemma settle_next i h b ps j n :
  singleStep = false -> runs b !! i = Some (mkRun ps (Some j) n) -> 0 < effective_timeout j ->
  settle i h b = (let '(r, b2) := next_job ps (count_job j h b) (mkRun ps None (n + 1)) in
                  with_runs (<[i := r]> (runs b)) b2).
Proof.
  intros Hss Hr Ht. unfold settle. by rewrite Hr, Hss, (proj2 (Z.leb_gt _ _) Ht), andb_false_r.
Qed.

Lemma settle_all_drains i hs b ps j n :
  singleStep = false -> runs b !! i = Some (mkRun ps (Some j) n) -> NoDup ps ->
  no_stall ps b -> 0 < effective_timeout j -> length hs = S (length (pending ps b)) ->
  let b' := settle_all i hs b in
  started b' = started b ++ pending ps b /\
  (forall p, queues b' p = if decide (p ∈ ps) then [] else queues b p) /\
  runs b' !! i = Some (mkRun [] None (n + Z.of_nat (length hs))).
Proof.
  intros Hss. revert b ps j n.
  induction hs as [|h hs IH]; intros b ps j n Hr Hnd Hst Ht Hl; [done|]. injection Hl as Hl.
  change (settle_all i (h :: hs) b) with (settle_all i hs (settle i h b)).
  assert (i < length (runs b))%nat as Hi by by apply lookup_lt_Some in Hr.
  rewrite (settle_next i h b ps j n Hss Hr Ht).
  destruct (next_job_cases ps (count_job j h b) (mkRun ps None (n + 1)))
    as [[He ->]|(pre & p & post & j' & q & -> & He & Hq & ->)]; cbn [run_total].
  - assert (Forall (fun p => queues b p = []) ps) as He' by done. rewrite (pending_nil ps b He') in Hl |- *.
    destruct hs; [|done]. cbn. split_and!; [by rewrite app_nil_r| |].
    2: { rewrite list_lookup_insert_eq by done. done. }
    intros p. case_decide as Hp; [|done]. rewrite Forall_forall in He'. by apply He'.
  - assert (queues b p = j' :: q) as Hq' by done. assert (Forall (fun p => queues b p = []) pre) as He' by done.
    set (b1 := with_runs _ _).
    destruct (no_stall_shift pre p post j' q b Hst Hq') as [Hst' Ht'].
    apply NoDup_app in Hnd as (_ & Hdis & Hnd'). pose proof Hnd' as [Hp _]%NoDup_cons.
    assert (pending (pre ++ p :: post) b = j' :: pending (p :: post) b1) as Hpe.
    { rewrite pending_app, (pending_nil _ _ He'). cbn [app]. rewrite (pending_shift p post j' q b Hp Hq').
      f_equal. by apply pending_ext. }
    rewrite Hpe in Hl |- *.
    destruct (IH b1 (p :: post) j' (n + 1)) as (H1 & H2 & H3); [|done|exact Hst'|done|done|].
    { cbn. by rewrite list_lookup_insert_eq. }
    split_and!.
    + rewrite H1. cbn. by rewrite <- app_assoc.
    + intros x. rewrite H2. destruct (decide (x ∈ p :: post)) as [Hx|Hx].
      * rewrite decide_True; [done|]. apply elem_of_app. by right.
      * cbn. unfold set_queue. rewrite decide_False by (intros ->; apply Hx; left).
        case_decide as Hx'; [|done]. apply elem_of_app in Hx' as [Hx'|]; [|done].
        rewrite Forall_forall in He'. by apply He'.
    + rewrite H3. do 2 f_equal. rewrite length_cons. lia.
Qed.

Lemma run_drains b hs :
  singleStep = false -> no_stall sortedPriorities b ->
  length hs = length (pending sortedPriorities b) ->
  let i := length (runs b) in
  let b' := settle_all i hs (run_call b) in
  started b' = started b ++ pending sortedPriorities b /\
  (forall p, queues b' p = []) /\
  runs b' !! i = Some (mkRun [] None (Z.of_nat (length hs))).
Proof.
  intros Hss Hst Hl i. unfold run_call.
  assert (forall p, p ∈ sortedPriorities) as Hall by (intros []; cbn; set_solver).
  destruct (next_job_cases sortedPriorities b (mkRun sortedPriorities None 0))
    as [[He ->]|(pre & p & post & j & q & Hs & He & Hq & ->)]; cbn [run_total].
  - rewrite (pending_nil _ _ He) in Hl |- *. destruct hs; [|done]. cbn. split_and!; [by rewrite app_nil_r| |].
    + intros p. rewrite Forall_forall in He. by apply He.
    + by rewrite lookup_app_r, Nat.sub_diag by (unfold i; lia).
  - assert (NoDup sortedPriorities) as Hnd by (by apply (bool_decide_unpack _)).
    set (b1 := with_runs _ _).
    assert (pending sortedPriorities b = j :: pending (p :: post) b1) as Hpe.
    { rewrite Hs in Hnd |- *. rewrite pending_app, (pending_nil _ _ He). cbn [app].
      apply NoDup_app in Hnd as (_ & _ & [Hp _]%NoDup_cons). rewrite (pending_shift p post j q b Hp Hq).
      f_equal. by apply pending_ext. }
    rewrite Hpe in Hl |- *.
    rewrite Hs in Hst, Hnd, Hall. destruct (no_stall_shift pre p post j q b Hst Hq) as [Hst' Ht'].
    apply NoDup_app in Hnd as (_ & _ & Hnd').
    destruct (settle_all_drains i hs b1 (p :: post) j 0 Hss) as (H1 & H2 & H3); [|done|exact Hst'|done|done|].
    { cbn. by rewrite lookup_app_r, Nat.sub_diag by (unfold i; lia). }
    split_and!; [rewrite H1; cbn; by rewrite <- app_assoc| |done].
    intros x. rewrite H2. case_decide as Hx; [done|]. cbn. unfold set_queue.
    rewrite decide_False by (intros ->; apply Hx; left). rewrite Forall_forall in He. apply He.
    by destruct (proj1 (elem_of_app _ _ _) (Hall x)).
Qed.
End Scheduler.

(** The backlog is four FIFO queues whatever the interleaving: after
    any sequence of enqueues, pressure changes, calls of [run()] - several of
    them in progress at once - and job settlements, each class's accepted jobs
    are, in order, the started ones followed by the queued ones, so no job is
    lost, duplicated or reordered within its class; a class never holds more
    than [maxQueueDepth] jobs; the depth gauge is the queue's length; and every
    started job is awaited by a run or counted exactly once. *)
Lemma backlog_fifo (maxQueueDepth : Z) (singleStep : bool) (es : list Event) (p : Priority) :
  let b := steps maxQueueDepth singleStep es emptyBacklog in
  of_class p (accepted b) = of_class p (started b) ++ queues b p /\
  (0 < maxQueueDepth -> Z.of_nat (length (queues b p)) <= maxQueueDepth) /\
  queueDepth b p = Z.of_nat (length (queues b p)) /\
  counted p (executed b) + executing p (runs b) = Z.of_nat (length (of_class p (started b))).
Proof.
  intros b. destruct (scheduler_steps_ok maxQueueDepth singleStep es _ (empty_ok maxQueueDepth)) as [H1 H2 H3 H4 H5].
  split_and!; [apply H1|intros Hm; by apply H3|apply H4|apply H5].
Qed.

(** A run drains the backlog in strict priority order and returns,
    hung jobs included: when nothing is enqueued while it runs, [run()] starts
    exactly the queued jobs, all live events before all replay jobs before all
    secret recoveries before all cleanups, first in first out within a class,
    needs one settlement per job - resolved, rejected or timed out - and
    returns their number with every queue empty. *)
Lemma run_drains_in_order (maxQueueDepth : Z) (es : list Event) (hs : list Settlement) :
  let b := steps maxQueueDepth false es emptyBacklog in
  let i := length (runs b) in
  let jobs := queues b LIVE_EVENT ++ queues b REPLAY_JOB ++ queues b SECRET_RECOVERY ++ queues b STALE_CLEANUP in
  Forall (fun j => 0 < effective_timeout j) jobs -> length hs = length jobs ->
  let b' := settle_all false i hs (run_call b) in
  started b' = started b ++ jobs /\ (forall p, queues b' p = []) /\
  runs b' !! i = Some (mkRun [] None (Z.of_nat (length jobs))).
Proof.
  intros b i jobs Hj Hl. assert (jobs = pending sortedPriorities b) as E by (cbn; by rewrite app_nil_r).
  assert (no_stall sortedPriorities b) as Hst.
  { intros p j _ Hq. rewrite Forall_forall in Hj. apply Hj. unfold jobs. rewrite !elem_of_app. destruct p; tauto. }
  rewrite E in Hl |- *. rewrite <- Hl. by apply run_drains.
Qed.

Definition sample_job (n : string) (p : Priority) : ScheduledJob := mkJob n p None n.
Definition sample_events : list Event :=
  [Enqueue (sample_job "cleanup" STALE_CLEANUP); Enqueue (sample_job "replay1" REPLAY_JOB);
   Enqueue (sample_job "live" LIVE_EVENT); Enqueue (sample_job "replay2" REPLAY_JOB)].

Lemma run_drains_in_order_witness :
  let b := steps 1000 false sample_events emptyBacklog in
  let b' := settle_all false 0 [Resolved; TimedOut; Rejected; Resolved] (run_call b) in
  job_name <$> started b' = ["live"; "replay1"; "replay2"; "cleanup"] /\ queues b' STALE_CLEANUP = [].
Proof.
  destruct (run_drains_in_order 1000 sample_events [Resolved; TimedOut; Rejected; Resolved]) as (H1 & H2 & _);
    [by repeat constructor|done|].
  split; [etrans; [exact (f_equal (fmap job_name) H1)|done]|exact (H2 STALE_CLEANUP)].
Defined.

(** A live event that arrives while a run executes a replay job is not taken
    by that run: it has passed the class, drains the cleanup behind it and
    returns with the event still queued. *)
Example live_event_waits_for_next_run :
  let b := steps 1000 false (sample_events ++ [RunCall; Settle 0 Resolved; Enqueue (sample_job "urgent" LIVE_EVENT);
             Settle 0 Resolved; Settle 0 Resolved; Settle 0 Resolved]) emptyBacklog in
  runs b = [mkRun [] None 4] /\ job_name <$> queues b LIVE_EVENT = ["urgent"].
Proof. by vm_compute. Qed.

(** Two runs in progress at once start a cleanup while a replay job is
    executing: the priority order is kept within one run only. *)
Example runs_overlap :
  let b := steps 1000 false [Enqueue (sample_job "reconciler:startup" REPLAY_JOB); RunCall;
                             Enqueue (sample_job "maintenance:stale_cleanup" STALE_CLEANUP); RunCall] emptyBacklog in
  executing REPLAY_JOB (runs b) = 1 /\ executing STALE_CLEANUP (runs b) = 1.
Proof. by vm_compute. Qed.

(** ** Pressure policy of the coordinator *)

(** The double nearest to 0.05. *)
Definition nominal_failure_rate : Q := 3602879701896397 # 72057594037927936.

(** [applyPressurePolicy] of coordinator/src/index.ts. *)
Definition applyPressurePolicy (pollIntervalMs : Z) (c : PressureController) (b : Backlog)
  : PressureController * Backlog :=
  let c' := observe (getTotalDepth b) (Z.max 0 (pollIntervalMs - 15000)) nominal_failure_rate c in
  (c', setPressureMode (pc_mode c') b).

Lemma applyPressurePolicy_mode poll c b :
  pressureMode (applyPressurePolicy poll c b).2 = RESTRAINED <-> 32 < getTotalDepth b \/ 15050 < poll.
Proof.
  unfold applyPressurePolicy, observe, overload. cbn [snd pressureMode setPressureMode pc_mode].
  change (negb (Qle_bool nominal_failure_rate failure_threshold)) with false. rewrite orb_false_r.
  destruct ((32 <? getTotalDepth b) || (50 <? Z.max 0 (poll - 15000))) eqn:E;
    [|apply orb_false_iff in E as [E1 E2]; bools; split; [done|intros [?|?]; lia]].
  split; [|done]. intros _. apply orb_true_iff in E as [E|E]; bools; [by left|right; lia].
Qed.

(** The lag term is the configured poll interval, so a coordinator that polls
    less often than every 15.05 seconds is under pressure for ever and never
    accepts a cleanup job, however empty its queues. *)
Lemma slow_poll_drops_cleanup maxQueueDepth poll c b j :
  15050 < poll -> priority j = STALE_CLEANUP ->
  (enqueue maxQueueDepth j (applyPressurePolicy poll c b).2).1 = false.
Proof.
  intros Hp Hj. unfold enqueue. rewrite Hj, (bool_decide_true (_ = RESTRAINED)); [done|].
  apply applyPressurePolicy_mode. by right.
Qed.
