(* ===== verification/StaleCleanup.v ===== *)
(** * Stale-order cleanup and archival
    (coordinator/src/services/stale-cleanup.ts and
    coordinator/src/archival/archival-policy.ts).

    Both look for announced orders that never saw a source lock within the
    retention window and take the first [batchSize] of them: the cleanup
    abandons them, the archival policy stamps [archived_at].  Between two
    awaits other tasks may call the repository; [others i] are the calls that
    arrive before the i-th order of the batch is handled. *)

From S2P Require Import Prelude OrderMachine TransactionContract OrderRow OrdersRepo OrdersRepoFacts.
From S2P Require Import OrdersRepoSpec.

(** [retentionDays * 24 * 60 * 60]. *)
Definition retentionWindowSeconds (retentionDays : Z) : Z := retentionDays * 24 * 60 * 60.

Definition disturb (cs : list (Z * RepoCall)) : Repo unit := modify (run_calls cs).

(** [for (const order of batch) await body(order)], disturbed. *)
Fixpoint for_batch (body : OrderRow -> Repo unit) (others : nat -> list (Z * RepoCall)) (batch : list OrderRow)
  : Repo unit :=
  match batch with
  | [] => mret tt
  | o :: batch' =>
      _ ← disturb (others O);
      _ ← body o;
      for_batch body (fun i => others (S i)) batch'
  end.

Definition undisturbed : nat -> list (Z * RepoCall) := fun _ => [].

(** The number of orders of a direction, as the gauges count them. *)
Definition in_direction (dir : Direction) (os : list OrderRow) : Z :=
  Z.of_nat (length (List.filter (fun o => bool_decide (o_direction o = dir)) os)).

Module StaleCleanup.

Record Result : Type := mkResult {
  archivedCount : Z;
  backlog : Direction -> Z;
  remaining : Direction -> Z
}.

(** [StaleCleanupService.run]; the gauges are part of the result. *)
Definition run (retentionDays batchSize : Z) (others : nat -> list (Z * RepoCall)) (now : Z) : Repo Result :=
  stale ← findStaleAnnounced now (retentionWindowSeconds retentionDays);
  let batch := slice0 batchSize stale in
  _ ← for_batch (fun o => abandonOrder now (o_publicId o) "stale:no_src_lock" "stale-cleanup") others batch;
  mret (mkResult (Z.of_nat (length batch)) (fun dir => in_direction dir stale)
          (fun dir => in_direction dir stale - in_direction dir batch)).
End StaleCleanup.

Module ArchivalPolicy.

Definition runArchival (retentionDays batchSize : Z) (others : nat -> list (Z * RepoCall)) (now : Z) : Repo Z :=
  candidates ← findStaleAnnounced now (retentionWindowSeconds retentionDays);
  let batch := slice0 batchSize candidates in
  _ ← for_batch (fun o => archiveOrder now (o_publicId o)) others batch;
  mret (Z.of_nat (length batch)).

Definition reactivateOrder (now : Z) (publicId : string) : Repo bool :=
  order ← findByPublicId publicId;
  match order with
  | None => mret false
  | Some o =>
      if bool_decide (o_archivedAt o = None) then mret false
      else if negb (bool_decide (o_status o = announced)) then mret false
      else _ ← unarchiveOrder now publicId; mret true
  end.

Definition isArchivalWorthy (retentionDays now : Z) (o : OrderRow) : bool :=
  let cutoff := seconds now - retentionWindowSeconds retentionDays in
  bool_decide (o_status o = announced) && bool_decide (o_srcOrderId o = None) &&
  bool_decide (o_archivedAt o = None) && (o_createdAt o <? cutoff).
End ArchivalPolicy.

(** ** Facts *)

(** The [WHERE] clause of [findStaleAnnounced]. *)
Definition is_stale (retentionDays now : Z) (r : OrderDbRow) : bool :=
  bool_decide (status r = announced) && bool_decide (src_order_id r = None) &&
  bool_decide (archived_at r = None) && (created_at r <? seconds now - retentionWindowSeconds retentionDays).

Lemma is_stale_worthy days now r : is_stale days now r = ArchivalPolicy.isArchivalWorthy days now (rowToOrder r).
Proof. done. Qed.

(** Handling the orders of a batch one by one, when handling one order
    replaces its row and no other. *)
Section Batch.
Context (now : Z) (body : OrderRow -> Repo unit) (f : OrderDbRow -> OrderDbRow) (ok : OrderDbRow -> Prop).
Context (body_ok : forall d r, wf_db d -> row_of (public_id r) d = Some r -> ok r ->
  exists d', body (rowToOrder r) d = (Ok tt, d') /\ wf_db d' /\
    orders d' = sql_update (by_public_id (public_id r)) f (orders d)).
Context (f_ids : forall r, same_ids r (f r)).

Lemma batch_run cs d :
  wf_db d -> NoDup (public_id <$> cs) ->
  Forall (fun r => row_of (public_id r) d = Some r /\ ok r) cs ->
  exists d', for_batch body undisturbed (rowToOrder <$> cs) d = (Ok tt, d') /\ wf_db d' /\
    orders d' = (fun r => if bool_decide (public_id r ∈ public_id <$> cs) then f r else r) <$> orders d.
Proof.
  revert d. induction cs as [|r cs IH]; intros d Hwf Hnd Hcs.
  - exists d. split_and!; [done|done|]. symmetry. apply list_fmap_id.
  - apply Forall_cons in Hcs as [[Hr Hok] Hcs]. rewrite fmap_cons in Hnd. apply NoDup_cons in Hnd as [Hnin Hnd].
    destruct (body_ok d r Hwf Hr Hok) as (d1 & E1 & Hwf1 & H1).
    destruct (IH d1 Hwf1 Hnd) as (d2 & E2 & Hwf2 & H2).
    { rewrite Forall_forall in Hcs |- *. intros x Hx. destruct (Hcs x Hx) as [Hx1 Hx2]. split; [|done].
      unfold row_of. rewrite H1, (row_of_write d (public_id r) r f _ (wf_public _ Hwf) Hr (f_ids r)).
      rewrite bool_decide_false; [done|]. intros Heq. apply Hnin. rewrite <- Heq. by apply list_elem_of_fmap_2. }
    exists d2. split_and!; [|done|].
    + cbn. st_unfold. cbn. change (run_calls [] d) with d. rewrite E1. exact E2.
    + rewrite H2, H1. unfold sql_update. rewrite <- list_fmap_compose. apply list_fmap_ext. intros i x _. cbn.
      unfold by_public_id. destruct (decide (public_id x = public_id r)) as [E|E].
      * rewrite (bool_decide_true _ E). destruct (f_ids x) as (_ & Hx & _). rewrite Hx, E.
        rewrite (bool_decide_false (_ ∈ public_id <$> cs)) by done. by rewrite bool_decide_true by set_solver.
      * rewrite (bool_decide_false _ E). by rewrite (bool_decide_ext (public_id x ∈ public_id r :: _) (public_id x ∈ public_id <$> cs)) by set_solver.
Qed.
End Batch.

(** Replacing the first [k] selected rows by rows that are not selected
    leaves the others selected. *)
Lemma select_after_batch (p : OrderDbRow -> bool) f k t :
  NoDup (public_id <$> t) -> (forall r, p (f r) = false) ->
  sql_select p ((fun r => if bool_decide (public_id r ∈ public_id <$> take k (sql_select p t)) then f r else r) <$> t) =
  drop k (sql_select p t).
Proof.
  intros Hnd Hf. revert k. induction t as [|r t IH]; intros k; [by destruct k|].
  rewrite fmap_cons in Hnd. apply NoDup_cons in Hnd as [Hr Hnd]. specialize (IH Hnd).
  assert (forall l : list OrderDbRow, (forall x, x ∈ l -> x ∈ t) -> public_id r ∉ public_id <$> l) as Hnot.
  { intros l Hl (x & Hx & Hin)%list_elem_of_fmap. apply Hr. rewrite Hx. by apply list_elem_of_fmap_2, Hl. }
  assert (forall k x, x ∈ take k (sql_select p t) -> x ∈ t) as Htake.
  { intros k' x (i & Hi & _)%elem_of_take. apply list_elem_of_lookup_2, elem_of_select in Hi as [? _]. done. }
  assert (forall l, (fun x => if bool_decide (public_id x ∈ public_id <$> (r :: l)) then f x else x) <$> t =
                    (fun x => if bool_decide (public_id x ∈ public_id <$> l) then f x else x) <$> t) as Hext.
  { intros l. apply list_fmap_ext. intros i x Hx%list_elem_of_lookup_2.
    rewrite (bool_decide_ext _ (public_id x ∈ public_id <$> l)); [done|].
    rewrite fmap_cons, elem_of_cons. split; [intros [E|]; [|done]|by right].
    exfalso. apply Hr. rewrite <- E. by apply list_elem_of_fmap_2. }
  rewrite fmap_cons, !sql_select_cons. destruct (p r) eqn:Ep.
  - destruct k as [|k].
    + cbn [take fmap list_fmap]. rewrite bool_decide_false, Ep by set_solver. cbn [drop]. f_equal. exact (IH 0%nat).
    + cbn [take drop]. rewrite bool_decide_true, Hf by set_solver. by rewrite Hext, IH.
  - rewrite bool_decide_false, Ep by (apply Hnot; intros x Hx; by apply (Htake k)). apply IH.
Qed.

Lemma drop_length_take {A} k (l : list A) : drop (length (take k l)) l = drop k l.
Proof. rewrite length_take. destruct (Nat.min_spec k (length l)) as [[? ->]|[? ->]]; [done|]. by rewrite drop_all, drop_ge. Qed.

Lemma in_direction_app dir l m : in_direction dir (l ++ m) = in_direction dir l + in_direction dir m.
Proof. unfold in_direction. rewrite List.filter_app, length_app. lia. Qed.

(** The batch of a run over a well-formed database. *)
Lemma batch_of_rows days now k d body f :
  wf_db d -> (forall r, same_ids r (f r)) -> (forall r, is_stale days now (f r) = false) ->
  (forall d r, wf_db d -> row_of (public_id r) d = Some r -> is_stale days now r = true ->
     exists d', body (rowToOrder r) d = (Ok tt, d') /\ wf_db d' /\
       orders d' = sql_update (by_public_id (public_id r)) f (orders d)) ->
  let stale := sql_select (is_stale days now) (orders d) in
  exists d', for_batch body undisturbed (rowToOrder <$> take k stale) d = (Ok tt, d') /\ wf_db d' /\
    orders d' = (fun r => if bool_decide (public_id r ∈ public_id <$> take k stale) then f r else r) <$> orders d /\
    sql_select (is_stale days now) (orders d') = drop k stale.
Proof.
  intros Hwf Hids Hf Hbody stale. assert (NoDup (public_id <$> stale)) as Hnd by by apply NoDup_select, Hwf.
  destruct (batch_run body f (fun r => is_stale days now r = true) Hbody Hids (take k stale) d Hwf)
    as (d' & E & Hwf' & Ho).
  - rewrite fmap_take. eapply sublist_NoDup; [exact Hnd|apply sublist_take].
  - apply Forall_forall. intros r (i & Hi & _)%elem_of_take. apply list_elem_of_lookup_2, elem_of_select in Hi as [Hr Hs].
    split; [|done]. by apply NoDup_row_of; [apply Hwf|].
  - exists d'. split_and!; [done|done|done|]. rewrite Ho. by apply select_after_batch; [apply Hwf|].
Qed.

Definition abandon_row (now : Z) : OrderDbRow -> OrderDbRow :=
  set_cancelled abandoned "stale:no_src_lock" (Some (seconds now)) (seconds now).

Lemma abandon_one days now d r :
  wf_db d -> row_of (public_id r) d = Some r -> is_stale days now r = true ->
  exists d', abandonOrder now (public_id r) "stale:no_src_lock" "stale-cleanup" d = (Ok tt, d') /\ wf_db d' /\
    orders d' = sql_update (by_public_id (public_id r)) (abandon_row now) (orders d).
Proof.
  intros Hwf Hr Hs. unfold is_stale in Hs. bools.
  assert (wf_db (abandonOrder now (public_id r) "stale:no_src_lock" "stale-cleanup" d).2) as Hwf'.
  { eapply repo_step_wf; [|exact Hwf]. by apply (abandonOrder_step (fun _ _ => True)); [apply Hwf|]. }
  rewrite (abandonOrder_eq now d (public_id r) r (wf_public _ Hwf) Hr) in Hwf' |- *.
  replace (status r) with announced in Hwf' |- * by done. by eexists.
Qed.

Lemma archive_one days now d r :
  wf_db d -> row_of (public_id r) d = Some r -> is_stale days now r = true ->
  exists d', archiveOrder now (public_id r) d = (Ok tt, d') /\ wf_db d' /\
    orders d' = sql_update (by_public_id (public_id r)) (set_archived (Some (seconds now)) (seconds now)) (orders d).
Proof.
  intros Hwf Hr Hs. unfold is_stale in Hs. bools.
  assert (wf_db (archiveOrder now (public_id r) d).2) as Hwf'.
  { eapply repo_step_wf; [|exact Hwf]. by apply (archiveOrder_step (fun _ _ => True)). }
  assert (archiveOrder now (public_id r) d =
    (Ok tt, with_orders d (sql_update (by_public_id (public_id r)) (set_archived (Some (seconds now)) (seconds now)) (orders d))))
    as E.
  { pose proof (run_update_guarded d _ r (fun x => bool_decide (archived_at x = None))
      (set_archived (Some (seconds now)) (seconds now)) (wf_public _ Hwf) Hr) as Hu. cbn in Hu.
    rewrite bool_decide_true in Hu by done. unfold archiveOrder. by rewrite (bind_ok _ _ _ _ _ Hu). }
  rewrite E in Hwf' |- *. by eexists.
Qed.

(** A cleanup run is exact and makes progress: in any state the
    repository can reach, a run that no other task disturbs never fails,
    abandons exactly the first [batchSize] announced, never-locked, unarchived
    orders older than the retention window - stamping their archive time and
    reason - leaves every other row as it was, reports their number and the
    per-direction backlog before and after, and what is stale afterwards is
    what the batch did not reach. *)
Lemma stale_cleanup_exact (cs : list (Z * RepoCall)) (retentionDays batchSize now : Z) :
  let d := run_calls cs emptyDb in
  let stale := sql_select (is_stale retentionDays now) (orders d) in
  let batch := slice0 batchSize stale in
  let rest := drop (length batch) stale in
  exists d' res, StaleCleanup.run retentionDays batchSize undisturbed now d = (Ok res, d') /\
    StaleCleanup.archivedCount res = Z.of_nat (length batch) /\
    (forall dir, StaleCleanup.backlog res dir = in_direction dir (rowToOrder <$> stale) /\
                 StaleCleanup.remaining res dir = in_direction dir (rowToOrder <$> rest)) /\
    orders d' = (fun r => if bool_decide (public_id r ∈ public_id <$> batch) then abandon_row now r else r) <$> orders d /\
    sql_select (is_stale retentionDays now) (orders d') = rest.
Proof.
  intros d stale batch rest. assert (wf_db d) as Hwf by (apply run_calls_wf, wf_emptyDb).
  unfold batch, slice0 in *. set (k := Z.to_nat _) in *.
  destruct (batch_of_rows retentionDays now k d
    (fun o => abandonOrder now (o_publicId o) "stale:no_src_lock" "stale-cleanup") (abandon_row now) Hwf)
    as (d' & E & Hwf' & Ho & Hrest); [done| |apply abandon_one|].
  { intros r. unfold is_stale. cbn. by rewrite bool_decide_false. }
  exists d', (StaleCleanup.mkResult (Z.of_nat (length (rowToOrder <$> take k stale)))
    (fun dir => in_direction dir (rowToOrder <$> stale))
    (fun dir => in_direction dir (rowToOrder <$> stale) - in_direction dir (rowToOrder <$> take k stale))).
  split_and!; [|cbn; by rewrite length_fmap| |done|unfold rest; by rewrite drop_length_take].
  - unfold StaleCleanup.run. erewrite bind_ok by done. cbv zeta. unfold slice0. rewrite length_fmap, <- fmap_take.
    erewrite bind_ok by exact E. done.
  - intros dir. cbn. split; [done|]. unfold rest. rewrite drop_length_take.
    rewrite <- (take_drop k stale) at 1. rewrite fmap_app, in_direction_app. lia.
Qed.

(** The archival policy handles the same orders the same way, stamping
    [archived_at] and leaving their status. *)
Lemma archival_exact (cs : list (Z * RepoCall)) (retentionDays batchSize now : Z) :
  let d := run_calls cs emptyDb in
  let stale := sql_select (is_stale retentionDays now) (orders d) in
  let batch := slice0 batchSize stale in
  exists d', ArchivalPolicy.runArchival retentionDays batchSize undisturbed now d =
               (Ok (Z.of_nat (length batch)), d') /\
    orders d' = (fun r => if bool_decide (public_id r ∈ public_id <$> batch)
                          then set_archived (Some (seconds now)) (seconds now) r else r) <$> orders d /\
    sql_select (is_stale retentionDays now) (orders d') = drop (length batch) stale.
Proof.
  intros d stale batch. assert (wf_db d) as Hwf by (apply run_calls_wf, wf_emptyDb).
  unfold batch, slice0 in *. set (k := Z.to_nat _) in *.
  destruct (batch_of_rows retentionDays now k d (fun o => archiveOrder now (o_publicId o))
    (set_archived (Some (seconds now)) (seconds now)) Hwf) as (d' & E & Hwf' & Ho & Hrest); [done| |apply archive_one|].
  { intros r. unfold is_stale. cbn. by rewrite andb_false_r. }
  exists d'. split_and!; [|done|by rewrite drop_length_take].
  unfold ArchivalPolicy.runArchival. erewrite bind_ok by done. cbv zeta. unfold slice0. rewrite length_fmap, <- fmap_take.
  erewrite bind_ok by exact E. cbn. by rewrite length_fmap.
Qed.

(** Reactivation undoes an archival of an announced order. *)
Lemma reactivate_archived now d p r :
  wf_db d -> row_of p d = Some r -> status r = announced -> archived_at r <> None ->
  exists d', ArchivalPolicy.reactivateOrder now p d = (Ok true, d') /\
    row_of p d' = Some (set_archived None (seconds now) r).
Proof.
  intros Hwf Hr Hs Ha. unfold ArchivalPolicy.reactivateOrder.
  erewrite bind_ok by (unfold findByPublicId, gets; fold (row_of p d); rewrite Hr; reflexivity). cbn [fmap option_fmap option_map].
  cbn [o_archivedAt o_status rowToOrder]. rewrite bool_decide_false, bool_decide_true by done. cbn [negb].
  pose proof (run_update_guarded d p r (fun x => bool_decide (is_Some (archived_at x)))
    (set_archived None (seconds now)) (wf_public _ Hwf) Hr) as Hu. cbn in Hu.
  rewrite bool_decide_true in Hu by (by apply not_eq_None_Some).
  eexists. split.
  - unfold unarchiveOrder. rewrite (bind_ok _ _ _ _ _ (bind_ok _ _ _ _ _ Hu)). done.
  - unfold row_of. cbn. rewrite (row_of_write d p r) by (apply Hwf || done). by rewrite bool_decide_true.
Qed.

(** ** Races *)

Definition race_calls : list (Z * RepoCall) := [(1000, CallAnnounce demo_input)].
Definition race_lock : nat -> list (Z * RepoCall) :=
  fun i => match i with O => [(31 * 86400 * 1000, CallRecordSrcLock (mkLockInput demo_id "7" "0xt1" 100 90000 None None))] | _ => [] end.

(** An order that is locked between the query and its turn in the batch is
    left alone by the cleanup, whose write is guarded by the state machine; it
    is still counted. *)
Example cleanup_spares_locked_order :
  let r := StaleCleanup.run 30 100 race_lock (31 * 86400 * 1000) (run_calls race_calls emptyDb) in
  (match r.1 with Ok x => StaleCleanup.archivedCount x | Throw _ => -1 end, status <$> row_of demo_id r.2,
   row_of demo_id r.2 ≫= archived_at) = (1, Some src_locked, None).
Proof. by vm_compute. Qed.

(** The archival policy archives it: [archiveOrder] does not look at the
    status, and the locked order drops out of the coordinator's scans. *)
Example archival_hides_locked_order :
  let r := ArchivalPolicy.runArchival 30 100 race_lock (31 * 86400 * 1000) (run_calls race_calls emptyDb) in
  (status <$> row_of demo_id r.2, row_of demo_id r.2 ≫= archived_at,
   match (findNonTerminalSample 10 r.2).1 with Ok l => length l | Throw _ => 99%nat end) =
  (Some src_locked, Some (31 * 86400), 0%nat).
Proof. by vm_compute. Qed.

(** A lock recorded on an archived order leaves it archived, and then
    [reactivateOrder] declines to bring it back. *)
Example reactivation_declines_locked_order :
  let d := (ArchivalPolicy.runArchival 30 100 undisturbed (31 * 86400 * 1000) (run_calls race_calls emptyDb)).2 in
  let d1 := run_calls (race_lock O) d in
  (ArchivalPolicy.reactivateOrder (32 * 86400 * 1000) demo_id d1).1 = Ok false /\
  (row_of demo_id d1 ≫= archived_at) = Some (31 * 86400).
Proof. by vm_compute. Qed.
