(* ===== verification/Maintenance.v ===== *)
(** * The maintenance scheduler
    (coordinator/src/services/maintenance-scheduler.ts) on top of the backlog.

    Every registered job has an interval; a tick enqueues the job in the
    backlog and calls [run()] without awaiting it, so several runs are in
    progress and the same job may be started again while an earlier execution
    is in flight; the [inFlight] guard of [_executeJob] is what keeps the two
    apart.  An execution is cut at the await of the job's work: [End name]
    lets one execution in flight finish. *)

From S2P Require Import Prelude.
From S2P Require Import Backlog.

Record MaintenanceJob : Type := mkMJob {
  m_name : string;
  cadenceMultiplier : Z;
  m_priority : Priority;
  m_skip : option bool
}.

(** [{ skipIfRunning: true, ...job }]. *)
Definition skipIfRunning (j : MaintenanceJob) : bool := default true (m_skip j).

Record JobState : Type := mkJobState {
  js_job : MaintenanceJob;
  tickCount : Z;
  inFlight : bool;
  handle : bool
}.

(** The scheduler, the backlog it shares, the executions in flight by job
    name, and the skip and run counters. *)
Record Sys : Type := mkSys {
  jobs : list JobState;
  m_running : bool;
  backlog : Backlog;
  active : list string;
  skipped : list string;
  ran : list (string * bool)
}.

Definition newSys : Sys := mkSys [] false emptyBacklog [] [] [].

Definition job_key (s : JobState) : string := m_name (js_job s).
Definition find_job (name : string) (js : list JobState) : option JobState :=
  List.find (fun s => bool_decide (job_key s = name)) js.
Definition update_job (name : string) (f : JobState -> JobState) (js : list JobState) : list JobState :=
  (fun s => if bool_decide (job_key s = name) then f s else s) <$> js.

Definition with_jobs (js : list JobState) (s : Sys) : Sys :=
  mkSys js (m_running s) (backlog s) (active s) (skipped s) (ran s).
Definition with_backlog (b : Backlog) (s : Sys) : Sys :=
  mkSys (jobs s) (m_running s) b (active s) (skipped s) (ran s).

(** [register(job)]: a name is registered once. *)
Definition register (j : MaintenanceJob) (s : Sys) : outcome string unit * Sys :=
  match find_job (m_name j) (jobs s) with
  | Some _ => (Throw ("MaintenanceScheduler: job " +:+ dquoted (m_name j) +:+ " is already registered"), s)
  | None => (Ok tt, with_jobs (jobs s ++ [mkJobState j 0 false false]) s)
  end.

Definition set_in_flight (b : bool) (j : JobState) : JobState := mkJobState (js_job j) (tickCount j) b (handle j).
Definition set_handle (b : bool) (j : JobState) : JobState := mkJobState (js_job j) (tickCount j) (inFlight j) b.
Definition tick_job (j : JobState) : JobState := mkJobState (js_job j) (tickCount j + 1) (inFlight j) (handle j).

(** [_executeJob] up to the await of the work; [true] when it was skipped. *)
Definition execute_begin (name : string) (s : Sys) : bool * Sys :=
  match find_job name (jobs s) with
  | None => (false, s)
  | Some j =>
      if skipIfRunning (js_job j) && inFlight j then
        (true, mkSys (jobs s) (m_running s) (backlog s) (active s) (skipped s ++ [name]) (ran s))
      else
        (false, mkSys (update_job name (set_in_flight true) (jobs s)) (m_running s) (backlog s)
                  (name :: active s) (skipped s) (ran s))
  end.

(** One occurrence less. *)
Fixpoint remove_one (n : string) (l : list string) : list string :=
  match l with
  | [] => []
  | x :: l' => if bool_decide (x = n) then l' else x :: remove_one n l'
  end.

(** The rest of [_executeJob], its [finally] included, when work in flight
    settles. *)
Definition execute_end (name : string) (ok : bool) (s : Sys) : Sys :=
  if bool_decide (name ∈ active s) then
    mkSys (update_job name (set_in_flight false) (jobs s)) (m_running s) (backlog s) (remove_one name (active s))
      (skipped s) (ran s ++ [(name, ok)])
  else s.

Section System.
Context (maxQueueDepth : Z).

(** A step of the backlog, and the executions of the jobs it starts: the
    closure of a maintenance job is [_executeJob(state)]. *)
Definition backlog_step (e : Event) (s : Sys) : Sys :=
  let b' := step maxQueueDepth false e (backlog s) in
  let new := drop (length (started (backlog s))) (started b') in
  foldl (fun s j => (execute_begin (work j) s).2) (with_backlog b' s) new.

Definition job_of (j : JobState) : ScheduledJob :=
  mkJob ("maintenance:" +:+ job_key j) (m_priority (js_job j)) None (job_key j).

(** [_scheduleJob(state)]. *)
Definition scheduleJob (j : JobState) (s : Sys) : Sys :=
  backlog_step RunCall (backlog_step (Enqueue (job_of j)) s).

(** The interval of a job fires: only while it has a handle. *)
Definition tick (name : string) (s : Sys) : Sys :=
  match find_job name (jobs s) with
  | Some j => if handle j then scheduleJob j (with_jobs (update_job name tick_job (jobs s)) s) else s
  | None => s
  end.

(** [start()]: set the interval of every job and run its first tick at
    once. *)
Definition start_job (s : Sys) (j : JobState) : Sys :=
  scheduleJob j (with_jobs (update_job (job_key j) (fun x => tick_job (set_handle true x)) (jobs s)) s).
Definition start (s : Sys) : Sys :=
  if m_running s then s
  else foldl start_job (mkSys (jobs s) true (backlog s) (active s) (skipped s) (ran s)) (jobs s).

Definition stop (s : Sys) : Sys :=
  if negb (m_running s) then s
  else mkSys (set_handle false <$> jobs s) false (backlog s) (active s) (skipped s) (ran s).

(** [runJob(name)] up to the await of the work. *)
Definition runJob (name : string) (s : Sys) : outcome string bool * Sys :=
  match find_job name (jobs s) with
  | None => (Throw ("MaintenanceScheduler: unknown job " +:+ dquoted name), s)
  | Some _ => let '(skip, s') := execute_begin name s in (Ok skip, s')
  end.

Inductive MEvent : Type :=
| MRegister (j : MaintenanceJob)
| MStart
| MStop
| MTick (name : string)
| MRunJob (name : string)
| MEnd (name : string) (ok : bool)
| MBacklog (e : Event).

Definition mstep (s : Sys) (e : MEvent) : Sys :=
  match e with
  | MRegister j => (register j s).2
  | MStart => start s
  | MStop => stop s
  | MTick n => tick n s
  | MRunJob n => (runJob n s).2
  | MEnd n ok => execute_end n ok s
  | MBacklog e => backlog_step e s
  end.

Definition mrun (es : list MEvent) : Sys := foldl mstep newSys es.

(** ** Facts *)

Definition flights (name : string) (s : Sys) : nat := count_occ String.string_dec (active s) name.

Record sys_ok (s : Sys) : Prop := {
  so_keys : NoDup (job_key <$> jobs s);
  so_guard : forall j, j ∈ jobs s -> skipIfRunning (js_job j) = true ->
    flights (job_key j) s = (if inFlight j then 1%nat else 0%nat);
  so_known : forall n, n ∈ active s -> n ∈ job_key <$> jobs s;
  so_handles : m_running s = false -> Forall (fun j => handle j = false) (jobs s)
}.

Lemma find_job_Some n js j : find_job n js = Some j -> j ∈ js /\ job_key j = n.
Proof.
  unfold find_job. intros [H1 H2]%List.find_some. split; [by apply list_elem_of_In|by apply bool_decide_eq_true in H2].
Qed.

Lemma update_keys n f js : (forall j, job_key (f j) = job_key j) -> job_key <$> update_job n f js = job_key <$> js.
Proof.
  intros Hf. unfold update_job. rewrite <- list_fmap_compose. apply list_fmap_ext. intros i j _. cbn.
  by case_bool_decide.
Qed.

Lemma elem_of_update n f js j :
  j ∈ update_job n f js <-> exists i, i ∈ js /\ j = if bool_decide (job_key i = n) then f i else i.
Proof. unfold update_job. rewrite list_elem_of_fmap. naive_solver. Qed.

Lemma remove_one_same n l : count_occ String.string_dec (remove_one n l) n = (count_occ String.string_dec l n - 1)%nat.
Proof.
  induction l as [|x l IH]; [done|]. cbn. case_bool_decide as E; destruct (String.string_dec x n); try done; [lia|].
  cbn. destruct (String.string_dec x n); [done|]. by rewrite IH.
Qed.

Lemma remove_one_other n m l : m <> n -> count_occ String.string_dec (remove_one n l) m = count_occ String.string_dec l m.
Proof.
  intros Hne. induction l as [|x l IH]; [done|]. cbn. case_bool_decide as E.
  - subst x. by destruct (String.string_dec n m).
  - cbn. by destruct (String.string_dec x m); rewrite IH.
Qed.

Lemma remove_one_sub n l x : x ∈ remove_one n l -> x ∈ l.
Proof. induction l as [|y l IH]; [done|]. cbn. case_bool_decide; set_solver. Qed.

Lemma job_unique s i j : sys_ok s -> i ∈ jobs s -> j ∈ jobs s -> job_key i = job_key j -> i = j.
Proof.
  intros [Hk _ _ _]. revert Hk. induction (jobs s) as [|x l IH]; [by intros _ ?%elem_of_nil|].
  rewrite fmap_cons. intros [Hx Hnd]%NoDup_cons [->|Hi]%elem_of_cons [->|Hj]%elem_of_cons E; try done.
  - exfalso. apply Hx. rewrite E. by apply list_elem_of_fmap_2.
  - exfalso. apply Hx. rewrite <- E. by apply list_elem_of_fmap_2.
  - by apply IH.
Qed.

(** Changing a job's counters or handle. *)
Lemma with_jobs_ok s n f :
  sys_ok s -> (forall j, js_job (f j) = js_job j /\ inFlight (f j) = inFlight j) ->
  (m_running s = false -> forall j, handle (f j) = handle j) ->
  sys_ok (with_jobs (update_job n f (jobs s)) s).
Proof.
  intros [H1 H2 H3 H4] Hf Hh. assert (forall j, job_key (f j) = job_key j) as Hk
    by (intros j; unfold job_key; by destruct (Hf j) as [-> _]).
  constructor; cbn.
  - by rewrite update_keys.
  - intros j (i & Hi & ->)%elem_of_update. case_bool_decide; [|by apply H2]. rewrite Hk.
    destruct (Hf i) as [-> ->]. by apply H2.
  - by rewrite update_keys.
  - intros Hr. specialize (H4 Hr). rewrite Forall_forall in H4 |- *. intros j (i & Hi & ->)%elem_of_update.
    case_bool_decide; [|by apply H4]. rewrite Hh by done. by apply H4.
Qed.

Lemma execute_begin_ok n s : sys_ok s -> sys_ok (execute_begin n s).2.
Proof.
  intros H. unfold execute_begin. destruct (find_job n (jobs s)) as [j|] eqn:Ej; [|done].
  apply find_job_Some in Ej as [Hj Hn]. destruct (skipIfRunning (js_job j) && inFlight j) eqn:E; [by destruct H; constructor|].
  pose proof H as [H1 H2 H3 H4]. constructor; cbn.
  - by rewrite update_keys.
  - intros k (i & Hi & ->)%elem_of_update Hs. unfold flights. cbn. case_bool_decide as Ek.
    + assert (i = j) as -> by (apply (job_unique s); [done..|by rewrite Ek]). change (job_key (set_in_flight true j)) with (job_key j).
      destruct (String.string_dec n (job_key j)) as [_|[]]; [|done]. cbn. f_equal.
      change (flights (job_key j) s = 0%nat). rewrite (H2 j Hj Hs). cbn in Hs. rewrite Hs in E. cbn in E. by rewrite E.
    + destruct (String.string_dec n (job_key i)) as [->|_]; [done|]. by apply H2.
  - intros m [->|Hm]%elem_of_cons; rewrite update_keys by done; [|by apply H3]. rewrite <- Hn. by apply list_elem_of_fmap_2.
  - intros Hr. specialize (H4 Hr). rewrite Forall_forall in H4 |- *. intros k (i & Hi & ->)%elem_of_update.
    case_bool_decide; exact (H4 i Hi).
Qed.

Lemma execute_end_ok n ok s : sys_ok s -> sys_ok (execute_end n ok s).
Proof.
  intros H. unfold execute_end. case_bool_decide as Ha; [|done]. pose proof H as [H1 H2 H3 H4]. constructor; cbn.
  - by rewrite update_keys.
  - intros k (i & Hi & ->)%elem_of_update Hs. unfold flights. cbn. case_bool_decide as Ek.
    + change (job_key (set_in_flight false i)) with (job_key i). rewrite <- Ek, remove_one_same.
      change (flights (job_key i) s - 1 = 0)%nat. rewrite (H2 i Hi Hs). by destruct (inFlight i).
    + rewrite remove_one_other by done. by apply H2.
  - intros m Hm%remove_one_sub. rewrite update_keys by done. by apply H3.
  - intros Hr. specialize (H4 Hr). rewrite Forall_forall in H4 |- *. intros k (i & Hi & ->)%elem_of_update.
    case_bool_decide; exact (H4 i Hi).
Qed.

Lemma begin_running n s : m_running (execute_begin n s).2 = m_running s.
Proof. unfold execute_begin. destruct (find_job n (jobs s)); [|done]. by destruct (_ && _). Qed.

Lemma backlog_step_ok e s : sys_ok s -> sys_ok (backlog_step e s) /\ m_running (backlog_step e s) = m_running s.
Proof.
  intros H. unfold backlog_step. generalize (drop (length (started (backlog s))) (started (step maxQueueDepth false e (backlog s)))).
  intros l. assert (sys_ok (with_backlog (step maxQueueDepth false e (backlog s)) s)) as H0 by by destruct H; constructor.
  change (m_running s) with (m_running (with_backlog (step maxQueueDepth false e (backlog s)) s)).
  revert H0. generalize (with_backlog (step maxQueueDepth false e (backlog s)) s). clear s H.
  induction l as [|j l IH]; intros s H; [done|]. cbn.
  destruct (IH (execute_begin (work j) s).2) as [H1 H2]; [by apply execute_begin_ok|]. split; [done|].
  by rewrite H2, begin_running.
Qed.

Lemma scheduleJob_ok j s : sys_ok s -> sys_ok (scheduleJob j s) /\ m_running (scheduleJob j s) = m_running s.
Proof.
  intros H. unfold scheduleJob. destruct (backlog_step_ok (Enqueue (job_of j)) s H) as [H1 E1].
  destruct (backlog_step_ok RunCall _ H1) as [H2 E2]. split; [done|]. by rewrite E2.
Qed.

Lemma sys_start_ok s : sys_ok s -> sys_ok (start s).
Proof.
  intros H. unfold start. destruct (m_running s) eqn:Er; [done|].
  assert (forall l s, sys_ok s -> m_running s = true -> sys_ok (foldl start_job s l)) as Hl.
  { induction l as [|j l IH]; intros s' H' Hr; [done|]. cbn.
    assert (sys_ok (with_jobs (update_job (job_key j) (fun x => tick_job (set_handle true x)) (jobs s')) s')) as Hw
      by (apply with_jobs_ok; [done|done|congruence]).
    destruct (scheduleJob_ok j _ Hw) as [H1 E1]. apply IH; [done|]. unfold start_job. by rewrite E1. }
  apply Hl; [|done]. destruct H as [H1 H2 H3 H4]. by constructor.
Qed.

Lemma mstep_ok s e : sys_ok s -> sys_ok (mstep s e).
Proof.
  intros H. destruct e as [j| | |n|n|n ok|e]; cbn.
  - unfold register. destruct (find_job (m_name j) (jobs s)) eqn:Ef; [done|]. destruct H as [H1 H2 H3 H4].
    assert (m_name j ∉ job_key <$> jobs s) as Hnew.
    { intros (i & Hi & Hin)%list_elem_of_fmap. unfold find_job in Ef.
      apply list_elem_of_In in Hin. apply (List.find_none _ _ Ef) in Hin. apply bool_decide_eq_false in Hin. by apply Hin. }
    constructor; cbn.
    + rewrite fmap_app. apply NoDup_app. split_and!; [done| |apply NoDup_singleton].
      intros x Hx Hx'. apply list_elem_of_singleton in Hx'. subst x. done.
    + intros i [Hi|Hi]%elem_of_app Hs; [by apply H2|]. apply list_elem_of_singleton in Hi as ->. cbn.
      unfold flights. apply count_occ_not_In. intros Hin. apply Hnew, H3. by apply list_elem_of_In.
    + intros n Hn. rewrite fmap_app. apply elem_of_app. left. by apply H3.
    + intros Hr. apply Forall_app. split; [by apply H4|by constructor].
  - by apply sys_start_ok.
  - unfold stop. destruct (m_running s); [|done]. destruct H as [H1 H2 H3 H4]. constructor; cbn.
    + by rewrite <- list_fmap_compose.
    + intros j (i & -> & Hi)%list_elem_of_fmap Hs. by apply (H2 i).
    + by rewrite <- list_fmap_compose.
    + intros _. apply Forall_forall. by intros j (i & -> & _)%list_elem_of_fmap.
  - unfold tick. destruct (find_job n (jobs s)) as [j|]; [|done]. destruct (handle j); [|done].
    apply scheduleJob_ok, with_jobs_ok; done.
  - unfold runJob. destruct (find_job n (jobs s)); [|done].
    pose proof (execute_begin_ok n s H) as Hb. by destruct (execute_begin n s).
  - by apply execute_end_ok.
  - by apply backlog_step_ok.
Qed.

Lemma mrun_ok es : sys_ok (mrun es).
Proof.
  unfold mrun. assert (sys_ok newSys) as H.
  { constructor; cbn; [by apply NoDup_nil|by intros ? ?%elem_of_nil|by intros ? ?%elem_of_nil|by constructor]. }
  revert H. generalize newSys. induction es as [|e es IH]; intros s H; [done|]. cbn. by apply IH, mstep_ok.
Qed.
End System.

(** A maintenance job never overlaps itself: whatever ticks, admin
    triggers, backlog runs (several at once) and job timeouts happen, a
    registered job with the skip guard has at most one execution in flight, the
    flag says exactly whether it has one, names stay unique, and while the
    scheduler is stopped no interval is armed, so a tick does nothing. *)
Lemma maintenance_exclusive (maxQueueDepth : Z) (es : list MEvent) :
  let s := mrun maxQueueDepth es in
  NoDup (job_key <$> jobs s) /\
  (forall j, j ∈ jobs s -> skipIfRunning (js_job j) = true ->
     flights (job_key j) s = if inFlight j then 1%nat else 0%nat) /\
  (m_running s = false -> forall name, tick maxQueueDepth name s = s).
Proof.
  intros s. destruct (mrun_ok maxQueueDepth es) as [H1 H2 H3 H4]. fold s in H1, H2, H3, H4.
  split_and!; [done|done|]. intros Hr name. unfold tick. destruct (find_job name (jobs s)) as [j|] eqn:Ej; [|done].
  apply find_job_Some in Ej as [Hj _]. specialize (H4 Hr). rewrite Forall_forall in H4. by rewrite (H4 j Hj).
Qed.

(** The coordinator's jobs (coordinator/src/index.ts). *)
Definition expiry_scan : MaintenanceJob := mkMJob "expiry_scan" 4 REPLAY_JOB None.
Definition stale_cleanup : MaintenanceJob := mkMJob "stale_cleanup" 240 STALE_CLEANUP None.
Definition archival_policy : MaintenanceJob := mkMJob "archival_policy" 240 STALE_CLEANUP None.
Definition coordinator_start : list MEvent :=
  [MRegister expiry_scan; MRegister stale_cleanup; MRegister archival_policy; MStart].

(** [start()] runs all three at once, each in a backlog run of its own; an
    expiry scan that is triggered while one is in flight is skipped. *)
Example coordinator_first_ticks :
  let s := mrun 1000 coordinator_start in
  active s = ["archival_policy"; "stale_cleanup"; "expiry_scan"] /\
  length (runs (backlog s)) = 3%nat /\
  skipped (mrun 1000 (coordinator_start ++ [MTick "expiry_scan"; MRunJob "expiry_scan"])) =
    ["expiry_scan"; "expiry_scan"].
Proof. by vm_compute. Qed.
