(* ===== verification/QuoteService.v ===== *)
(** * The quote service (coordinator/src/services/quote-service.ts).

    A stale-while-revalidate cache of price pairs.  [getQuote] is answered from
    the cache or waits for an upstream call; the upstream call is cut from the
    rest of [_fetchAndStore] at its await, so that any number of callers, cache
    invalidations and answers of the price API interleave.  Prices are
    rationals; the source's quotient is rounded to a double. *)

From S2P Require Import Prelude.
From Stdlib Require Import QArith.QArith_base.
#[local] Open Scope Z_scope.

Inductive QuoteSource : Type := coingecko | fallback_source | cache_source.
Inductive QuoteStaleness : Type := fresh | stale | fallback.

#[export] Instance QuoteStaleness_eq_dec : EqDecision QuoteStaleness.
Proof. solve_decision. Defined.

Record CacheEntry : Type := mkEntry {
  ce_pair : string;
  ce_srcUsd : option Q;
  ce_dstUsd : option Q;
  ce_rate : option Q;
  ce_fetchedAt : Z;
  ce_isFallback : bool
}.

Record QuoteSnapshot : Type := mkSnapshot {
  q_pair : string;
  q_srcUsd : option Q;
  q_dstUsd : option Q;
  q_rate : option Q;
  q_source : QuoteSource;
  q_staleness : QuoteStaleness;
  q_fetchedAt : Z;
  q_ageMs : Z
}.

Record Ttls : Type := mkTtls { freshTtlMs : Z; staleTtlMs : Z; maxStaleTtlMs : Z }.

Definition DEFAULT_FRESH_TTL_MS : Z := 15000.
Definition DEFAULT_STALE_TTL_MS : Z := 60000.
Definition DEFAULT_MAX_STALE_TTL_MS : Z := 5 * 60000.

(** [assertPositiveTtl], and the constructor: a window that is not positive
    is a [RangeError]. *)
Definition assertPositiveTtl (name : string) (dflt : Z) (value : option Z) : outcome string Z :=
  let resolved := default dflt value in
  if resolved <=? 0 then Throw (name +:+ " must be a positive number, got " +:+ pretty resolved) else Ok resolved.

Definition newQuoteService (f s m : option Z) : outcome string Ttls :=
  match assertPositiveTtl "freshTtlMs" DEFAULT_FRESH_TTL_MS f with
  | Throw e => Throw e
  | Ok f' =>
      match assertPositiveTtl "staleTtlMs" DEFAULT_STALE_TTL_MS s with
      | Throw e => Throw e
      | Ok s' =>
          match assertPositiveTtl "maxStaleTtlMs" DEFAULT_MAX_STALE_TTL_MS m with
          | Throw e => Throw e
          | Ok m' => Ok (mkTtls f' s' m')
          end
      end
  end.

(** 0.12 is the nearest double. *)
Definition FALLBACK_PRICES (pair : string) : option (Q * Q) :=
  if bool_decide (pair = "ETH-XLM") then Some (3500 # 1, 1080863910568919 # 9007199254740992)%Q
  else if bool_decide (pair = "ETH-SOL") then Some (3500 # 1, 150 # 1)%Q
  else None.

Definition geckoIdPair (pair : string) : option (string * string) :=
  if bool_decide (pair = "ETH-XLM") then Some ("ethereum", "stellar")
  else if bool_decide (pair = "ETH-SOL") then Some ("ethereum", "solana")
  else None.

Definition positive (x : option Q) : bool :=
  match x with Some q => negb (Qle_bool q 0) | None => false end.

Definition hardcodedFallback (now : Z) (pair : string) : CacheEntry :=
  match FALLBACK_PRICES pair with
  | Some (s, d) =>
      mkEntry pair (Some s) (Some d) (if positive (Some d) then Some (s / d)%Q else None) now true
  | None => mkEntry pair None None None now true
  end.

(** What the price API answers: an HTTP status that is not ok or a failing
    request, or the two [usd] fields when they are numbers. *)
Inductive Upstream : Type :=
| Unavailable
| Prices (src dst : option Q).

(** [_fetchFromUpstream] once the answer is there; [None] when it throws. *)
Definition fetchFromUpstream (now : Z) (pair : string) (u : Upstream) : option CacheEntry :=
  match geckoIdPair pair, u with
  | Some _, Prices (Some s) (Some d) =>
      if positive (Some s) && positive (Some d) then
        Some (mkEntry pair (Some s) (Some d) (Some (s / d)%Q) now false)
      else None
  | _, _ => None
  end.

(** [_toSnapshot]. *)
Definition toSnapshot (t : Ttls) (now : Z) (e : CacheEntry) : QuoteSnapshot :=
  let ageMs := now - ce_fetchedAt e in
  let staleness := if ce_isFallback e then fallback else if ageMs <? freshTtlMs t then fresh else stale in
  let source := if ce_isFallback e then fallback_source
                else if ageMs <? freshTtlMs t then coingecko else cache_source in
  mkSnapshot (ce_pair e) (ce_srcUsd e) (ce_dstUsd e) (ce_rate e) source staleness (ce_fetchedAt e) ageMs.

(** The service: the cache, the pairs with an upstream call in flight, the
    callers waiting for one, the answers given so far with their time, and a
    log of the upstream calls begun and of the prices they brought. *)
Record State : Type := mkState {
  cache : gmap string CacheEntry;
  inflight : gset string;
  waiting : list (Z * string);
  answers : list (Z * Z * QuoteSnapshot);
  begun : list string;
  brought : list (Z * string * Q * Q);
  ended : list string
}.

Definition init : State := mkState ∅ ∅ [] [] [] [] [].

Section Service.
Context (t : Ttls).

(** [inflight.set(pair, this._fetchAndStore(pair))], up to the await of the
    upstream call. *)
Definition begin_fetch (pair : string) (s : State) : State :=
  mkState (cache s) ({[pair]} ∪ inflight s) (waiting s) (answers s) (begun s ++ [pair]) (brought s) (ended s).

Definition triggerBackgroundRefresh (pair : string) (s : State) : State :=
  if decide (pair ∈ inflight s) then s else begin_fetch pair s.

Definition answer (now id : Z) (e : CacheEntry) (s : State) : State :=
  mkState (cache s) (inflight s) (waiting s) (answers s ++ [(now, id, toSnapshot t now e)]) (begun s) (brought s) (ended s).

(** [getQuote(pair)] of the caller [id], to its answer or its wait. *)
Definition block (id : Z) (pair : string) (s : State) : State :=
  let s1 := if decide (pair ∈ inflight s) then s else begin_fetch pair s in
  mkState (cache s1) (inflight s1) (waiting s1 ++ [(id, pair)]) (answers s1) (begun s1) (brought s1) (ended s1).

Definition getQuote (now id : Z) (pair : string) (s : State) : State :=
  match cache s !! pair with
  | Some e =>
      let age := now - ce_fetchedAt e in
      if age <? freshTtlMs t then answer now id e s
      else if age <? staleTtlMs t then answer now id e (triggerBackgroundRefresh pair s)
      else if age <? maxStaleTtlMs t then answer now id e (triggerBackgroundRefresh pair s)
      else block id pair s
  | None => block id pair s
  end.

Definition quoteEthXlm (now id : Z) : State -> State := getQuote now id "ETH-XLM".

(** The rest of [_fetchAndStore] once the upstream call settles: the entry it
    returns and the cache it leaves. *)
Definition fetchAndStore (now : Z) (pair : string) (u : Upstream) (c : gmap string CacheEntry)
  : CacheEntry * gmap string CacheEntry :=
  match fetchFromUpstream now pair u with
  | Some e => (e, <[pair := e]> c)
  | None =>
      match c !! pair with
      | Some st =>
          let refreshed := mkEntry (ce_pair st) (ce_srcUsd st) (ce_dstUsd st) (ce_rate st) now true in
          (refreshed, <[pair := refreshed]> c)
      | None => (hardcodedFallback now pair, c)
      end
  end.

(** The upstream call of [pair] settles: the cache, the [finally] that drops
    the promise, and the callers that waited for it. *)
Definition settle (now : Z) (pair : string) (u : Upstream) (s : State) : State :=
  if decide (pair ∈ inflight s) then
    let '(e, c) := fetchAndStore now pair u (cache s) in
    let mine := List.filter (fun w => bool_decide (w.2 = pair)) (waiting s) in
    mkState c (inflight s ∖ {[pair]}) (List.filter (fun w => negb (bool_decide (w.2 = pair))) (waiting s))
      (answers s ++ ((fun w => (now, w.1, toSnapshot t now e)) <$> mine)) (begun s)
      (match fetchFromUpstream now pair u, u with
       | Some _, Prices (Some p) (Some q) => brought s ++ [(now, pair, p, q)]
       | _, _ => brought s
       end) (ended s ++ [pair])
  else s.

Definition invalidate (pair : string) (s : State) : State :=
  mkState (delete pair (cache s)) (inflight s) (waiting s) (answers s) (begun s) (brought s) (ended s).

(** [getCacheStats]. *)
Definition getCacheStats (now : Z) (s : State) : gmap string (Z * bool * QuoteStaleness) :=
  (fun e => (now - ce_fetchedAt e, ce_isFallback e,
             if ce_isFallback e then fallback
             else if now - ce_fetchedAt e <? freshTtlMs t then fresh else stale)) <$> cache s.

Inductive Event : Type :=
| Get (id : Z) (pair : string)
| Settle (pair : string) (u : Upstream)
| Invalidate (pair : string).

Definition step (s : State) (e : Z * Event) : State :=
  match e.2 with
  | Get id p => getQuote e.1 id p s
  | Settle p u => settle e.1 p u s
  | Invalidate p => invalidate p s
  end.

Definition run (es : list (Z * Event)) : State := foldl step init es.
(** ** Facts *)

Definition calls (p : string) (l : list string) : nat := count_occ String.string_dec l p.

(** The prices of an entry or snapshot came from upstream at [at_]. *)
Definition came_at (s : State) (p : string) (at_ : Z) (src dst rate : option Q) : Prop :=
  exists a b, (at_, p, a, b) ∈ brought s /\ src = Some a /\ dst = Some b /\ rate = Some (a / b)%Q.

Definition entry_ok (s : State) (p : string) (e : CacheEntry) : Prop :=
  ce_pair e = p /\
  (if ce_isFallback e
   then exists at_, came_at s p at_ (ce_srcUsd e) (ce_dstUsd e) (ce_rate e)
   else came_at s p (ce_fetchedAt e) (ce_srcUsd e) (ce_dstUsd e) (ce_rate e)).

(** What an answer at [now] claims is true. *)
Definition honest (s : State) (now : Z) (q : QuoteSnapshot) : Prop :=
  let came at_ := came_at s (q_pair q) at_ (q_srcUsd q) (q_dstUsd q) (q_rate q) in
  q_ageMs q = now - q_fetchedAt q /\
  match q_staleness q with
  | fresh => came (q_fetchedAt q) /\ q_ageMs q < freshTtlMs t
  | stale => came (q_fetchedAt q) /\ freshTtlMs t <= q_ageMs q /\
             (q_ageMs q < Z.max (staleTtlMs t) (maxStaleTtlMs t))
  | fallback => (exists at_, came at_) \/
                (exists now', q_srcUsd q = ce_srcUsd (hardcodedFallback now' (q_pair q)) /\
                              q_dstUsd q = ce_dstUsd (hardcodedFallback now' (q_pair q)))
  end.

Record qs_ok (s : State) : Prop := {
  qs_flight : forall p, calls p (begun s) = (calls p (ended s) + if decide (p ∈ inflight s) then 1 else 0)%nat;
  qs_waiting : Forall (fun w => w.2 ∈ inflight s) (waiting s);
  qs_cache : forall p e, cache s !! p = Some e -> entry_ok s p e;
  qs_answers : Forall (fun a => honest s a.1.1 a.2) (answers s)
}.

Lemma came_mono s s' p at_ a b c :
  (forall x, x ∈ brought s -> x ∈ brought s') -> came_at s p at_ a b c -> came_at s' p at_ a b c.
Proof. intros H (x & y & Hin & ?). exists x, y. split; [by apply H|done]. Qed.

Lemma entry_mono s s' p e : (forall x, x ∈ brought s -> x ∈ brought s') -> entry_ok s p e -> entry_ok s' p e.
Proof.
  intros H [H1 H2]. split; [done|]. destruct (ce_isFallback e); [destruct H2 as [x Hx]; exists x|]; by eapply came_mono.
Qed.

Lemma honest_mono s s' now q : (forall x, x ∈ brought s -> x ∈ brought s') -> honest s now q -> honest s' now q.
Proof.
  intros H [H1 H2]. split; [done|]. destruct (q_staleness q).
  - destruct H2 as [H2 ?]. split; [by eapply came_mono|done].
  - destruct H2 as [H2 ?]. split; [by eapply came_mono|done].
  - destruct H2 as [[x Hx]|?]; [left; exists x; by eapply came_mono|by right].
Qed.

(** Answering with an entry that is right and not too old. *)
Lemma snapshot_honest s p now e :
  entry_ok s p e -> now - ce_fetchedAt e < freshTtlMs t \/ now - ce_fetchedAt e < Z.max (staleTtlMs t) (maxStaleTtlMs t) ->
  honest s now (toSnapshot t now e).
Proof.
  intros [Hp He] Hage. split; [done|]. cbn. rewrite Hp. destruct (ce_isFallback e); [by left|].
  destruct (now - ce_fetchedAt e <? freshTtlMs t) eqn:E; bools; cbn; [done|]. split_and!; [done|lia|lia].
Qed.

Lemma fallback_honest s now pr : honest s now (toSnapshot t now (hardcodedFallback now pr)).
Proof.
  split; [done|]. unfold toSnapshot, hardcodedFallback. destruct (FALLBACK_PRICES pr) as [[a b]|] eqn:E; cbn; right;
    exists now; unfold hardcodedFallback; by rewrite E.
Qed.

Lemma answer_qs_ok now id p e s :
  qs_ok s -> entry_ok s p e ->
  now - ce_fetchedAt e < freshTtlMs t \/ now - ce_fetchedAt e < Z.max (staleTtlMs t) (maxStaleTtlMs t) ->
  qs_ok (answer now id e s).
Proof.
  intros [H1 H2 H3 H4] He Hage. constructor; try done. cbn. apply Forall_app. split.
  - eapply Forall_impl; [exact H4|]. intros a. by apply honest_mono.
  - constructor; [|done]. cbn. eapply honest_mono; [|by apply (snapshot_honest s p)]. done.
Qed.

Lemma begin_ok p s : qs_ok s -> p ∉ inflight s -> qs_ok (begin_fetch p s).
Proof.
  intros [H1 H2 H3 H4] Hp. constructor; try done; cbn.
  - intros x. unfold calls. rewrite count_occ_app. cbn. specialize (H1 x). unfold calls in H1. rewrite H1.
    destruct (String.string_dec p x) as [->|Hne].
    + rewrite decide_False by done. rewrite decide_True by set_solver. lia.
    + destruct (decide (x ∈ inflight s)); [rewrite decide_True by set_solver|rewrite decide_False by set_solver]; lia.
  - eapply Forall_impl; [exact H2|]. cbn. set_solver.
Qed.

Lemma trigger_ok p s : qs_ok s -> qs_ok (triggerBackgroundRefresh p s).
Proof. intros H. unfold triggerBackgroundRefresh. case_decide; [done|]. by apply begin_ok. Qed.

Lemma trigger_cache p s : cache (triggerBackgroundRefresh p s) = cache s.
Proof. unfold triggerBackgroundRefresh. by case_decide. Qed.

Lemma block_ok id p s : qs_ok s -> qs_ok (block id p s).
Proof.
  intros H. unfold block. pose proof (trigger_ok p s H) as H'. unfold triggerBackgroundRefresh in H'.
  assert (p ∈ inflight (if decide (p ∈ inflight s) then s else begin_fetch p s)) as Hin by (case_decide; set_solver).
  destruct H' as [H1 H2 H3 H4]. constructor; try done. cbn. apply Forall_app. by split; [|constructor].
Qed.

Lemma getQuote_ok now id p s : qs_ok s -> qs_ok (getQuote now id p s).
Proof.
  intros H. unfold getQuote. destruct (cache s !! p) as [e|] eqn:E; [|by apply block_ok].
  pose proof (qs_cache s H p e E) as He.
  destruct (_ <? freshTtlMs t) eqn:E1; bools; [apply (answer_qs_ok now id p); [done|done|by left]|].
  assert (forall x, now - ce_fetchedAt e < x -> x <= Z.max (staleTtlMs t) (maxStaleTtlMs t) ->
    qs_ok (answer now id e (triggerBackgroundRefresh p s))) as Hb.
  { intros x Hx Hm. apply (answer_qs_ok now id p); [by apply trigger_ok| |right; lia].
    eapply entry_mono; [|exact He]. intros y Hy. unfold triggerBackgroundRefresh. by case_decide. }
  destruct (_ <? staleTtlMs t) eqn:E2; bools; [by eapply Hb; [exact E2|lia]|].
  destruct (_ <? maxStaleTtlMs t) eqn:E3; bools; [by eapply Hb; [exact E3|lia]|]. by apply block_ok.
Qed.
Lemma fetch_Some now p u e :
  fetchFromUpstream now p u = Some e ->
  exists a b, u = Prices (Some a) (Some b) /\ e = mkEntry p (Some a) (Some b) (Some (a / b)%Q) now false.
Proof.
  unfold fetchFromUpstream. destruct (geckoIdPair p); [|done]. destruct u as [|[a|] [b|]]; try done.
  destruct (_ && _); [|done]. intros [=<-]. by exists a, b.
Qed.

(** What [_fetchAndStore] returns and stores is right in the state that has
    the new prices. *)
Lemma fetchAndStore_ok now p u s s' :
  0 < freshTtlMs t -> qs_ok s -> (forall x, x ∈ brought s -> x ∈ brought s') ->
  (forall a b, fetchFromUpstream now p u <> None -> u = Prices (Some a) (Some b) -> (now, p, a, b) ∈ brought s') ->
  let r := fetchAndStore now p u (cache s) in
  honest s' now (toSnapshot t now r.1) /\ forall x e, r.2 !! x = Some e -> entry_ok s' x e.
Proof.
  intros Hf [_ _ Hc _] Hsub Hnew r. unfold r, fetchAndStore.
  assert (forall x e, cache s !! x = Some e -> entry_ok s' x e) as Hc' by (intros x e Hx; by eapply entry_mono, Hc).
  assert (forall e0, entry_ok s' p e0 -> now - ce_fetchedAt e0 = 0 ->
    honest s' now (toSnapshot t now e0) /\ forall x e, <[p := e0]> (cache s) !! x = Some e -> entry_ok s' x e) as Hput.
  { intros e0 He0 H0. split; [apply (snapshot_honest s' p); [done|left; lia]|].
    intros x e [[<- <-]|[_ Hx]]%lookup_insert_Some; [done|by apply Hc']. }
  destruct (fetchFromUpstream now p u) as [e|] eqn:E.
  - destruct (fetch_Some now p u e E) as (a & b & -> & ->). apply Hput; [|cbn; lia].
    split; [done|]. exists a, b. split_and!; try done. by apply Hnew.
  - destruct (cache s !! p) as [st|] eqn:Est; [|split; [apply fallback_honest|done]].
    apply Hput; [|cbn; lia]. destruct (Hc' p st Est) as [Hp Hst]. split; [done|]. cbn.
    destruct (ce_isFallback st); [done|]. by eexists.
Qed.

Lemma settle_qs_ok now p u s : 0 < freshTtlMs t -> qs_ok s -> qs_ok (settle now p u s).
Proof.
  intros Hf H. unfold settle. case_decide as Hp; [|done].
  set (s' := let '(e, c) := fetchAndStore now p u (cache s) in _).
  assert (forall x, x ∈ brought s -> x ∈ brought s') as Hsub.
  { unfold s'. destruct (fetchAndStore _ _ _ _). cbn. destruct (fetchFromUpstream now p u); [|done].
    destruct u as [|[?|] [?|]]; try done. intros x Hx. apply elem_of_app. by left. }
  assert (forall a b, fetchFromUpstream now p u <> None -> u = Prices (Some a) (Some b) -> (now, p, a, b) ∈ brought s') as Hnew.
  { intros a b Hne ->. unfold s'. destruct (fetchAndStore _ _ _ _). cbn.
    destruct (fetchFromUpstream now p (Prices (Some a) (Some b))); [|done]. apply elem_of_app. right. by left. }
  destruct (fetchAndStore_ok now p u s s' Hf H Hsub Hnew) as [Hh Hc]. destruct H as [H1 H2 H3 H4].
  unfold s' in *. destruct (fetchAndStore now p u (cache s)) as [e c]. cbn in Hh, Hc. constructor; cbn.
  - intros x. specialize (H1 x). unfold calls in *. rewrite count_occ_app. cbn.
    destruct (String.string_dec p x) as [<-|Hne].
    + rewrite decide_True in H1 by done. rewrite decide_False by set_solver. lia.
    + destruct (decide (x ∈ inflight s)); [rewrite decide_True by set_solver|rewrite decide_False by set_solver]; lia.
  - apply Forall_forall. intros w Hw%elem_of_select. destruct Hw as [Hw Hne]. bools.
    rewrite Forall_forall in H2. specialize (H2 w Hw). set_solver.
  - done.
  - apply Forall_app. split; [eapply Forall_impl; [exact H4|]; intros a; by apply honest_mono|].
    apply Forall_forall. by intros a (w & -> & _)%list_elem_of_fmap.
Qed.

Lemma quote_step_ok s e : 0 < freshTtlMs t -> qs_ok s -> qs_ok (step s e).
Proof.
  intros Hf H. destruct e as [now [id p|p u|p]]; cbn; [by apply getQuote_ok|by apply settle_qs_ok|].
  destruct H as [H1 H2 H3 H4]. constructor; try done. cbn. intros x e [_ Hx]%lookup_delete_Some. by apply H3.
Qed.

Lemma quote_run_ok es : 0 < freshTtlMs t -> qs_ok (run es).
Proof.
  intros Hf. unfold run. assert (qs_ok init) as H by (constructor; try done; constructor).
  revert H. generalize init. induction es as [|e es IH]; intros s H; [done|]. cbn. by apply IH, quote_step_ok.
Qed.

(** Callers: every [getQuote] is answered or waits. *)
Definition is_get (e : Z * Event) : bool := match e.2 with Get _ _ => true | _ => false end.

Lemma filter_split {A} (f : A -> bool) l :
  (length (List.filter f l) + length (List.filter (fun x => negb (f x)) l))%nat = length l.
Proof. induction l as [|x l IH]; [done|]. cbn. destruct (f x); cbn; lia. Qed.

Lemma step_callers s e :
  (length (answers (step s e)) + length (waiting (step s e)) =
   length (answers s) + length (waiting s) + if is_get e then 1 else 0)%nat.
Proof.
  destruct e as [now [id p|p u|p]]; cbn; [| |lia].
  - assert (length (waiting (triggerBackgroundRefresh p s)) = length (waiting s) /\
            length (answers (triggerBackgroundRefresh p s)) = length (answers s)) as [Hw Ha]
      by (unfold triggerBackgroundRefresh; by case_decide).
    unfold getQuote, block, answer. destruct (cache s !! p); [|case_decide; cbn; rewrite length_app; cbn; lia].
    repeat (destruct (_ <? _); [cbn; rewrite ?length_app, ?Hw, ?Ha; cbn; lia|]).
    case_decide; cbn; rewrite length_app; cbn; lia.
  - unfold settle. case_decide; [|lia]. destruct (fetchAndStore _ _ _ _). cbn. rewrite length_app, length_fmap.
    pose proof (filter_split (fun w : Z * string => bool_decide (w.2 = p)) (waiting s)). lia.
Qed.

Lemma run_callers es :
  (length (answers (run es)) + length (waiting (run es)) = length (List.filter is_get es))%nat.
Proof.
  assert (forall s, length (answers (foldl step s es)) + length (waiting (foldl step s es)) =
    length (answers s) + length (waiting s) + length (List.filter is_get es))%nat as H; [|apply (H init)].
  induction es as [|e es IH]; intros s; [cbn; lia|]. cbn [foldl]. rewrite IH, step_callers. cbn.
  destruct (is_get e); cbn; lia.
Qed.
End Service.

(** Quotes are honest about their age: for any interleaving of
    callers, upstream answers and invalidations, an answer marked [fresh]
    carries prices the price API returned at [fetchedAt], less than
    [freshTtlMs] before the answer, with their quotient as the rate; one marked
    [stale] carries prices returned at [fetchedAt], no older than the larger
    stale window; prices that are older, or hard-coded, are only ever marked
    [fallback]. *)
Lemma quotes_honest (t : Ttls) (es : list (Z * Event)) :
  0 < freshTtlMs t -> Forall (fun a => honest t (run t es) a.1.1 a.2) (answers (run t es)).
Proof. intros H. apply (qs_answers t). by apply quote_run_ok. Qed.

Definition default_ttls : Ttls := mkTtls DEFAULT_FRESH_TTL_MS DEFAULT_STALE_TTL_MS DEFAULT_MAX_STALE_TTL_MS.
Definition quote_demo : list (Z * Event) :=
  [(0, Get 1 "ETH-SOL"); (5, Get 2 "ETH-SOL"); (10, Settle "ETH-SOL" (Prices (Some 3000%Q) (Some 150%Q)));
   (20, Get 3 "ETH-SOL"); (20010, Get 4 "ETH-SOL")].

Lemma quotes_honest_witness :
  (fun a => (a.1.2, q_staleness a.2)) <$> answers (run default_ttls quote_demo) =
    [(1, fresh); (2, fresh); (3, fresh); (4, stale)] /\
  Forall (fun a => honest default_ttls (run default_ttls quote_demo) a.1.1 a.2)
    (answers (run default_ttls quote_demo)).
Proof. split; [done|]. apply (quotes_honest default_ttls quote_demo). done. Defined.

(** One upstream call per pair at a time, and no caller is lost: at
    every moment the calls begun for a pair exceed those that settled by one if
    the pair is in flight and by none if it is not; every caller that waits,
    waits for a pair in flight; and every [getQuote] so far has been answered
    or is waiting. *)
Lemma quotes_single_flight (t : Ttls) (es : list (Z * Event)) :
  0 < freshTtlMs t ->
  let s := run t es in
  (forall p, calls p (begun s) = (calls p (ended s) + if decide (p ∈ inflight s) then 1 else 0)%nat) /\
  Forall (fun w => w.2 ∈ inflight s) (waiting s) /\
  (length (answers s) + length (waiting s) = length (List.filter is_get es))%nat.
Proof.
  intros Hf s. destruct (quote_run_ok t es Hf) as [H1 H2 _ _]. split_and!; [done|done|apply run_callers].
Qed.

Lemma quotes_single_flight_witness :
  calls "ETH-SOL" (begun (run default_ttls quote_demo)) = 2%nat /\
  (length (answers (run default_ttls quote_demo)) + length (waiting (run default_ttls quote_demo)) = 4)%nat.
Proof. split; [done|]. apply (quotes_single_flight default_ttls quote_demo). done. Defined.

(** A failing refresh stamps the old prices with the current time: an hour
    of failures later they are still served with an age of seconds, marked
    [fallback]. *)
Example failed_refresh_restamps :
  let fail n := [(n, Get n "ETH-SOL"); (n + 1, Settle "ETH-SOL" Unavailable)] in
  let es := [(0, Get 0 "ETH-SOL"); (0, Settle "ETH-SOL" (Prices (Some 3000%Q) (Some 150%Q)))] ++
            fail 290000 ++ fail 580000 ++ fail 3500000 ++ [(3600000, Get 9 "ETH-SOL")] in
  (fun a => (q_srcUsd a.2, q_ageMs a.2, q_staleness a.2)) <$> last (answers (run default_ttls es)) =
  Some (Some 3000%Q, 99999, fallback).
Proof. by vm_compute. Qed.

(** Prices past [staleTtlMs] but within [maxStaleTtlMs] are served without
    waiting. *)
Example past_stale_not_blocked :
  let es := [(0, Get 0 "ETH-SOL"); (0, Settle "ETH-SOL" (Prices (Some 3000%Q) (Some 150%Q))); (200000, Get 1 "ETH-SOL")] in
  (fun a => (a.1.2, q_ageMs a.2, q_staleness a.2)) <$> last (answers (run default_ttls es)) = Some (1, 200000, stale).
Proof. by vm_compute. Qed.
