(* ===== verification/SettlementFailures.v ===== *)
(** * Settlement failures of the relayer
    (relayer/src/services/settlement-failure-store.ts and
    settlement-retry-policy.ts).

    The store keeps one failure record per order - an append-only list of
    failure events and a recovery status - in memory and on disk
    (FileStore.v), and a gauge of the orders still to be dealt with.  The
    policy classifies errors for the retry engine and for the store.  The ISO
    time of an event is its millisecond time. *)

From S2P Require Import Prelude JsMap FileStore.
From Stdlib Require Import Ascii.

(** ** Cleaning error messages

    [sanitiseErrorMessage]: two regular expressions are replaced globally and the
    text is cut to 500 characters.  A match is greedy, so it is described by its
    length; the global replacement walks the text once and skips what a match
    covers. *)

Definition between (a b : nat) (c : ascii) : bool :=
  let n := nat_of_ascii c in Nat.leb a n && Nat.leb n b.

(** [[0-9a-fA-F]] and [[A-Z0-9]]. *)
Definition hex_digit (c : ascii) : bool := between 48 57 c || between 97 102 c || between 65 70 c.
Definition upper_digit (c : ascii) : bool := between 65 90 c || between 48 57 c.

(** The length of the leading run of a character class. *)
Fixpoint lead (cls : ascii -> bool) (s : string) : nat :=
  match s with
  | EmptyString => O
  | String c s' => if cls c then S (lead cls s') else O
  end.

(** The match of a regular expression at the start of a text: its length. *)
Definition eth_match (s : string) : option nat :=
  match s with
  | String a (String b t) =>
      if Ascii.eqb a "0" && Ascii.eqb b "x" && Nat.leb 40 (lead hex_digit t) then Some (2 + lead hex_digit t)%nat
      else None
  | _ => None
  end.

Definition stellar_match (s : string) : option nat :=
  match s with
  | String a t =>
      if (Ascii.eqb a "S" || Ascii.eqb a "G") && Nat.leb 54 (lead upper_digit t) then Some (1 + lead upper_digit t)%nat
      else None
  | EmptyString => None
  end.

(** [s.replace(/m/g, text)]; [skip] characters are still covered by the last
    match. *)
Fixpoint replace_all (m : string -> option nat) (text : string) (skip : nat) (s : string) : string :=
  match s with
  | EmptyString => EmptyString
  | String c s' =>
      match skip with
      | S k => replace_all m text k s'
      | O =>
          match m s with
          | Some n => text +:+ replace_all m text (n - 1) s'
          | None => String c (replace_all m text 0 s')
          end
      end
  end.

Definition sanitiseErrorMessage (msg : string) : string :=
  String.substring 0 500
    (replace_all stellar_match "[stellar-key]" 0 (replace_all eth_match "[address/hash]" 0 msg)).

(** Some position of the text matches. *)
Fixpoint occurs (m : string -> option nat) (s : string) : bool :=
  match m s with Some _ => true | None => false end ||
  match s with EmptyString => false | String _ s' => occurs m s' end.

(** ** Facts *)

#[local] Arguments Nat.leb : simpl never.

(** A replacement that starts with a bracket ends every run of digits and
    letters. *)
Definition bracketed (text : string) : Prop := exists t, text = String "[" t.

Lemma replace_lead cls m text s :
  bracketed text -> cls "["%char = false -> (lead cls (replace_all m text 0 s) <= lead cls s)%nat.
Proof.
  intros [t ->] Hc. induction s as [|c s IH]; [done|]. cbn [replace_all].
  destruct (m (String c s)) as [n|].
  - change (String "[" t +:+ replace_all m (String "[" t) (n - 1) s) with (String "[" (t +:+ replace_all m (String "[" t) (n - 1) s)).
    cbn. rewrite Hc. lia.
  - cbn. destruct (cls c); lia.
Qed.

(** The text after a copied character starts with a bracket or with the
    character that followed it. *)
Lemma replace_head m text c s b r :
  bracketed text -> replace_all m text 0 (String c s) = String b r ->
  b = "["%char \/ (b = c /\ r = replace_all m text 0 s).
Proof.
  intros [t ->]. cbn [replace_all]. destruct (m (String c s)) as [n|]; [|intros [= -> ->]; by right].
  change (String "[" t +:+ replace_all m (String "[" t) (n - 1) s) with (String "[" (t +:+ replace_all m (String "[" t) (n - 1) s)).
  intros [= <- _]. by left.
Qed.

Lemma eth_match_copy m text c s :
  bracketed text -> eth_match (String c s) = None -> eth_match (String c (replace_all m text 0 s)) = None.
Proof.
  intros Ht H. cbn. destruct (replace_all m text 0 s) as [|b r] eqn:E; [done|].
  destruct s as [|b0 s0]; [done|]. destruct (replace_head m text b0 s0 b r Ht E) as [->|[-> ->]]; [by rewrite andb_false_r|].
  cbn in H. destruct (Ascii.eqb c "0" && Ascii.eqb b0 "x"); [|done]. cbn in H |- *.
  destruct (Nat.leb 40 (lead hex_digit s0)) eqn:E1; [done|]. apply Nat.leb_gt in E1.
  pose proof (replace_lead hex_digit m text s0 Ht eq_refl). by rewrite (proj2 (Nat.leb_gt _ _)) by lia.
Qed.

Lemma stellar_match_copy m text c s :
  bracketed text -> stellar_match (String c s) = None -> stellar_match (String c (replace_all m text 0 s)) = None.
Proof.
  intros Ht H. cbn in H |- *. destruct (Ascii.eqb c "S" || Ascii.eqb c "G"); [|done]. cbn in H |- *.
  destruct (Nat.leb 54 (lead upper_digit s)) eqn:E1; [done|]. apply Nat.leb_gt in E1.
  pose proof (replace_lead upper_digit m text s Ht eq_refl). by rewrite (proj2 (Nat.leb_gt _ _)) by lia.
Qed.

(** Replacing the matches of [m] leaves none of [p], if [p] does not match
    where [m] does not and the inserted text has no match of its own. *)
Section Clean.
Context (p m : string -> option nat) (text : string).
Context (p_copy : forall c s, p (String c s) = None -> p (String c (replace_all m text 0 s)) = None).
Context (p_text : forall u, occurs p u = false -> occurs p (text +:+ u) = false).
Context (p_nil : p EmptyString = None).

Lemma replace_clean k s :
  (forall s', m s' = None -> p s' = None) \/ occurs p s = false -> occurs p (replace_all m text k s) = false.
Proof.
  revert k. induction s as [|c s IH]; intros k H; [cbn; by rewrite p_nil|].
  assert ((forall s', m s' = None -> p s' = None) \/ occurs p s = false) as H'.
  { destruct H as [H|H]; [by left|right]. cbn in H. by apply orb_false_iff in H as [_ ?]. }
  cbn [replace_all]. destruct k as [|k]; [|by apply IH].
  destruct (m (String c s)) as [n|] eqn:E; [apply p_text; by apply IH|].
  cbn [occurs]. rewrite p_copy; [cbn; by apply IH|]. destruct H as [H|H]; [by apply H|].
  cbn in H. apply orb_false_iff in H as [H _]. by destruct (p (String c s)).
Qed.
End Clean.

Lemma lead_cut cls n s : (lead cls (String.substring 0 n s) <= lead cls s)%nat.
Proof. revert n. induction s as [|c s IH]; intros [|n]; cbn; try lia. specialize (IH n). destruct (cls c); lia. Qed.

(** Cutting a text creates no match. *)
Lemma cut_clean p n s :
  (forall n s, p s = None -> p (String.substring 0 n s) = None) -> occurs p s = false ->
  occurs p (String.substring 0 n s) = false.
Proof.
  intros Hp. revert n. induction s as [|c s IH]; intros n H; cbn in H; apply orb_false_iff in H as [H1 H2].
  - destruct n; cbn; by rewrite H1.
  - destruct (p (String c s)) eqn:E; [done|]. pose proof (Hp n _ E) as Hc. destruct n as [|n]; cbn in Hc |- *; rewrite Hc; [done|].
    cbn. by apply IH.
Qed.

Lemma eth_match_cut n s : eth_match s = None -> eth_match (String.substring 0 n s) = None.
Proof.
  destruct s as [|a [|b t]]; destruct n as [|[|n]]; try done. cbn. destruct (Ascii.eqb a "0" && Ascii.eqb b "x"); [|done]. cbn.
  destruct (Nat.leb 40 (lead hex_digit t)) eqn:E; [done|]. intros _. apply Nat.leb_gt in E.
  pose proof (lead_cut hex_digit n t). by rewrite (proj2 (Nat.leb_gt _ _)) by lia.
Qed.

Lemma stellar_match_cut n s : stellar_match s = None -> stellar_match (String.substring 0 n s) = None.
Proof.
  destruct s as [|a t]; destruct n as [|n]; try done. cbn. destruct (_ || _); [|done]. cbn.
  destruct (Nat.leb 54 (lead upper_digit t)) eqn:E; [done|]. intros _. apply Nat.leb_gt in E.
  pose proof (lead_cut upper_digit n t). by rewrite (proj2 (Nat.leb_gt _ _)) by lia.
Qed.

(** No match starts inside a text. *)
Fixpoint no_start (p : string -> option nat) (text : string) : Prop :=
  match text with
  | EmptyString => True
  | String c t => (forall s, p (String c s) = None) /\ no_start p t
  end.

Lemma text_clean p text u : no_start p text -> occurs p u = false -> occurs p (text +:+ u) = false.
Proof.
  intros H Hu. induction text as [|c t IH]; [done|]. destruct H as [Hc Ht].
  change (String c t +:+ u) with (String c (t +:+ u)). cbn [occurs]. rewrite Hc. by apply IH.
Qed.

Lemma eth_no_start : no_start eth_match "[address/hash]" /\ no_start eth_match "[stellar-key]".
Proof. split; cbn [no_start]; split_and!; try done; by intros []. Qed.

Lemma stellar_no_start : no_start stellar_match "[stellar-key]".
Proof. cbn [no_start]. split_and!; done. Qed.

Lemma sanitised_clean msg :
  occurs eth_match (sanitiseErrorMessage msg) = false /\ occurs stellar_match (sanitiseErrorMessage msg) = false.
Proof.
  assert (bracketed "[stellar-key]" /\ bracketed "[address/hash]") as [B1 B2] by (split; by eexists).
  unfold sanitiseErrorMessage. split.
  - apply cut_clean; [apply eth_match_cut|].
    apply replace_clean; [|intros u; apply text_clean, eth_no_start|done|].
    + intros c s. by apply eth_match_copy.
    + right. apply replace_clean; [|intros u; apply text_clean, eth_no_start|done|by left].
      intros c s. by apply eth_match_copy.
  - apply cut_clean; [apply stellar_match_cut|].
    apply replace_clean; [|intros u; apply text_clean, stellar_no_start|done|by left].
    intros c s. by apply stellar_match_copy.
Qed.

Lemma length_cut n s : (String.length (String.substring 0 n s) <= n)%nat.
Proof. revert n. induction s as [|c s IH]; intros [|n]; cbn; try lia. specialize (IH n). lia. Qed.

(** ** The store *)

Inductive FailureCategory : Type :=
| rpc_rate_limit | rpc_timeout | horizon_timeout | horizon_transient | eth_nonce_conflict | eth_gas_too_low
| stellar_bad_seq | stellar_fee_too_low | insufficient_balance | auth_failure | terminal_unknown | partial_settlement.

Inductive Recoverability : Type := recoverable | ambiguous | terminal | needs_review.

#[export] Instance FailureCategory_eq_dec : EqDecision FailureCategory.
Proof. solve_decision. Defined.
#[export] Instance Recoverability_eq_dec : EqDecision Recoverability.
Proof. solve_decision. Defined.

Definition CATEGORY_RECOVERABILITY (c : FailureCategory) : Recoverability :=
  match c with
  | rpc_rate_limit | rpc_timeout | horizon_transient | eth_nonce_conflict | eth_gas_too_low | stellar_bad_seq
  | stellar_fee_too_low => recoverable
  | horizon_timeout => ambiguous
  | insufficient_balance | auth_failure | terminal_unknown => terminal
  | partial_settlement => needs_review
  end.

Inductive RecoveryStatus : Type := pending | recovering | recovered | failed | requires_review.

#[export] Instance RecoveryStatus_eq_dec : EqDecision RecoveryStatus.
Proof. solve_decision. Defined.

Inductive FailureChain : Type := on_ethereum | on_stellar | on_unknown.

Record FailureEvent : Type := mkFailureEvent {
  fe_at : Z;
  fe_category : FailureCategory;
  fe_recoverability : Recoverability;
  fe_errorMessage : string;
  fe_direction : string;
  fe_chain : FailureChain;
  fe_attempt : Z;
  fe_recoveryAction : option string
}.

Record OrderFailureRecord : Type := mkFailureRecord {
  f_orderId : string;
  f_direction : string;
  recoveryStatus : RecoveryStatus;
  failureCount : Z;
  f_recoveryAttempts : Z;
  firstFailedAt : Z;
  lastUpdatedAt : Z;
  f_events : list FailureEvent;
  recoveredTxHash : option string;
  terminalReason : option string
}.

(** [_filePath] cuts names at 120; of a record of the right types the loader
    checks that the order id is not empty. *)
Definition failure_filed : Filed OrderFailureRecord :=
  mkFiled _ f_orderId (Some 120%nat) (fun r => truthy_string (f_orderId r)).
#[export] Existing Instance failure_filed.

Record FailureStore : Type := mkFailureStore {
  fstore : Store OrderFailureRecord;
  pendingGauge : Z
}.

Definition with_fstore (f : Store OrderFailureRecord -> Store OrderFailureRecord) (w : FailureStore) : FailureStore :=
  mkFailureStore (f (fstore w)) (pendingGauge w).

Definition is_open (r : OrderFailureRecord) : bool :=
  bool_decide (recoveryStatus r ∈ [pending; recovering; requires_review]).

(** [_updatePendingGauge]. *)
Definition updatePendingGauge (w : FailureStore) : FailureStore :=
  mkFailureStore (fstore w) (Z.of_nat (length (List.filter (fun kr => is_open kr.2) (mem (fstore w))))).

Record FailureInput : Type := mkFailureInput {
  i_orderId : string;
  i_direction : string;
  i_category : FailureCategory;
  i_errorMessage : string;
  i_chain : option FailureChain;
  i_recoveryAction : option string
}.

Definition new_record (now : Z) (i : FailureInput) : OrderFailureRecord :=
  mkFailureRecord (i_orderId i) (i_direction i) pending 0 0 now now [] None None.

(** The update of a record by [recordFailure]. *)
Definition add_failure (now : Z) (i : FailureInput) (r : OrderFailureRecord) : OrderFailureRecord :=
  let recoverability := CATEGORY_RECOVERABILITY (i_category i) in
  let msg := sanitiseErrorMessage (i_errorMessage i) in
  let ev := mkFailureEvent now (i_category i) recoverability msg (i_direction i) (default on_unknown (i_chain i))
              (failureCount r + 1) (i_recoveryAction i) in
  mkFailureRecord (f_orderId r) (f_direction r)
    (match recoverability with terminal => failed | needs_review => requires_review | _ => recoveryStatus r end)
    (failureCount r + 1) (f_recoveryAttempts r) (firstFailedAt r) now (f_events r ++ [ev]) (recoveredTxHash r)
    (match recoverability with terminal => Some msg | _ => terminalReason r end).

Definition recordFailure (now : Z) (i : FailureInput) (w : FailureStore) : OrderFailureRecord * FailureStore :=
  let r := default (new_record now i) (fs_get (i_orderId i) (fstore w)) in
  let r' := add_failure now i r in
  let w1 := with_fstore (fun s => with_mem (jm_set (i_orderId i) r' (mem s)) s) w in
  (r', with_fstore (persist r') (updatePendingGauge w1)).

Definition start_recovery (now : Z) (r : OrderFailureRecord) : OrderFailureRecord :=
  mkFailureRecord (f_orderId r) (f_direction r) recovering (failureCount r) (f_recoveryAttempts r + 1)
    (firstFailedAt r) now (f_events r) (recoveredTxHash r) (terminalReason r).

Definition markRecovering (now : Z) (o : string) (w : FailureStore) : FailureStore :=
  match fs_get o (fstore w) with
  | None => w
  | Some r =>
      if bool_decide (recoveryStatus r ∈ [failed; recovered]) then w else with_fstore (fs_put (start_recovery now r)) w
  end.

Definition end_recovery (now : Z) (txHash : string) (r : OrderFailureRecord) : OrderFailureRecord :=
  mkFailureRecord (f_orderId r) (f_direction r) recovered (failureCount r) (f_recoveryAttempts r)
    (firstFailedAt r) now (f_events r) (Some txHash) (terminalReason r).

Definition markRecovered (now : Z) (o txHash : string) (w : FailureStore) : FailureStore :=
  match fs_get o (fstore w) with
  | None => w
  | Some r =>
      let r' := end_recovery now txHash r in
      let w1 := with_fstore (fun s => with_mem (jm_set o r' (mem s)) s) w in
      with_fstore (persist r') (updatePendingGauge w1)
  end.

Definition ask_review (now : Z) (reason : string) (r : OrderFailureRecord) : OrderFailureRecord :=
  mkFailureRecord (f_orderId r) (f_direction r) requires_review (failureCount r) (f_recoveryAttempts r)
    (firstFailedAt r) now (f_events r) (recoveredTxHash r) (Some reason).

Definition markRequiresReview (now : Z) (o reason : string) (w : FailureStore) : FailureStore :=
  match fs_get o (fstore w) with
  | None => w
  | Some r => with_fstore (fs_put (ask_review now reason r)) w
  end.

(** [byStatus], [summary] and [size]. *)
Definition byStatus (st : RecoveryStatus) (w : FailureStore) : list OrderFailureRecord :=
  List.filter (fun r => bool_decide (recoveryStatus r = st)) (snd <$> mem (fstore w)).
Definition summary (w : FailureStore) (st : RecoveryStatus) : Z := Z.of_nat (length (byStatus st w)).
Definition failures_size (w : FailureStore) : Z := Z.of_nat (length (mem (fstore w))).

(** A new process: the constructor loads the directory and sets the gauge. *)
Definition failures_reboot (readdir : gmap string (option OrderFailureRecord) -> list (string * option OrderFailureRecord))
    (w : FailureStore) : FailureStore := updatePendingGauge (with_fstore (reboot readdir) w).

Inductive FailureOp : Type :=
| FRecord (now : Z) (i : FailureInput)
| FRecovering (now : Z) (o : string)
| FRecovered (now : Z) (o txHash : string)
| FReview (now : Z) (o reason : string)
| FReboot (readdir : gmap string (option OrderFailureRecord) -> list (string * option OrderFailureRecord))
| FDisk (works : bool).

Definition failure_step (w : FailureStore) (op : FailureOp) : FailureStore :=
  match op with
  | FRecord now i => (recordFailure now i w).2
  | FRecovering now o => markRecovering now o w
  | FRecovered now o h => markRecovered now o h w
  | FReview now o reason => markRequiresReview now o reason w
  | FReboot rd => failures_reboot rd w
  | FDisk b => with_fstore (fun s => mkStore (mem s) (files s) (storage s) b) w
  end.

Definition failure_run (ops : list FailureOp) : FailureStore :=
  foldl failure_step (mkFailureStore fresh_store 0) ops.

(** ** Facts *)

(** A failure event of the k-th attempt. *)
Definition event_ok (k : Z) (e : FailureEvent) : Prop :=
  fe_attempt e = k /\ fe_recoverability e = CATEGORY_RECOVERABILITY (fe_category e) /\
  occurs eth_match (fe_errorMessage e) = false /\ occurs stellar_match (fe_errorMessage e) = false /\
  (String.length (fe_errorMessage e) <= 500)%nat.

Record failure_ok (r : OrderFailureRecord) : Prop := {
  fo_count : failureCount r = Z.of_nat (length (f_events r));
  fo_some : f_events r <> [];
  fo_events : forall k e, f_events r !! k = Some e -> event_ok (Z.of_nat k + 1) e;
  fo_attempts : 0 <= f_recoveryAttempts r;
  fo_failed : recoveryStatus r = failed ->
    terminalReason r <> None /\ Exists (fun e => fe_recoverability e = terminal) (f_events r);
  fo_recovered : recoveryStatus r = recovered -> recoveredTxHash r <> None
}.

Definition all_failures_ok (w : FailureStore) : Prop :=
  (forall k r, fs_get k (fstore w) = Some r -> f_orderId r = k /\ failure_ok r) /\
  (forall f r, files (fstore w) !! f = Some (Some r) -> failure_ok r).

Lemma add_failure_ok now i r :
  failureCount r = Z.of_nat (length (f_events r)) -> (forall k e, f_events r !! k = Some e -> event_ok (Z.of_nat k + 1) e) ->
  0 <= f_recoveryAttempts r ->
  (recoveryStatus r = failed -> terminalReason r <> None /\ Exists (fun e => fe_recoverability e = terminal) (f_events r)) ->
  (recoveryStatus r = recovered -> recoveredTxHash r <> None) ->
  failure_ok (add_failure now i r).
Proof.
  intros H1 H2 H3 H4 H5. pose proof (sanitised_clean (i_errorMessage i)) as [C1 C2].
  constructor; cbn; [rewrite length_app; cbn; lia|by destruct (f_events r)| |done| |].
  - intros k e [Hk|[Hle Hk]]%lookup_app_Some; [by apply H2|].
    destruct (k - length (f_events r))%nat as [|n] eqn:Ek; [|done]. cbn in Hk. injection Hk as <-.
    unfold event_ok. cbn. split_and!; [lia|done|done|done|apply length_cut].
  - destruct (CATEGORY_RECOVERABILITY (i_category i)) eqn:E; intros Hs; try done;
      [destruct (H4 Hs) as [? ?]; split; [done|apply Exists_app; by left]..|].
    split; [done|]. apply Exists_app. right. by constructor.
  - destruct (CATEGORY_RECOVERABILITY (i_category i)); try done.
Qed.

(** Memory and disk after a write. *)
Lemma put_all_ok w r :
  all_failures_ok w -> failure_ok r -> all_failures_ok (with_fstore (fs_put r) w).
Proof.
  intros [Hm Hd] Hr. split; cbn.
  - intros k r'. rewrite fs_get_put. case_decide; [|apply Hm]. intros [= ->]. done.
  - intros f r'. unfold fs_put, persist. cbn. destruct (_ && _); cbn; [|apply Hd].
    intros [[_ [= <-]]|[_ Hf]]%lookup_insert_Some; [done|by eapply Hd].
Qed.

Lemma put_gauge_ok w o r :
  f_orderId r = o -> all_failures_ok w -> failure_ok r ->
  all_failures_ok (with_fstore (persist r) (updatePendingGauge (with_fstore (fun s => with_mem (jm_set o r (mem s)) s) w))).
Proof. intros <- H Hr. exact (put_all_ok w r H Hr). Qed.

Lemma failure_step_ok w op :
  match op with FReboot rd => lists_all rd | _ => True end -> all_failures_ok w -> all_failures_ok (failure_step w op).
Proof.
  intros Hop H. pose proof H as [Hm Hd].
  destruct op as [now i|now o|now o h|now o reason|rd|b]; cbn.
  - destruct (fs_get (i_orderId i) (fstore w)) as [r|] eqn:Er; cbn.
    + destruct (Hm _ _ Er) as [Hk [H1 H2 H3 H4 H5 H6]]. apply put_gauge_ok; [done|done|]. by apply add_failure_ok.
    + apply put_gauge_ok; [done|done|]. apply add_failure_ok; cbn; try done.
  - unfold markRecovering. destruct (fs_get o (fstore w)) as [r|] eqn:Er; [|done]. case_bool_decide; [done|].
    destruct (Hm _ _ Er) as [Hk [H1 H2 H3 H4 H5 H6]]. apply put_all_ok; [done|]. constructor; cbn; try done. lia.
  - unfold markRecovered. destruct (fs_get o (fstore w)) as [r|] eqn:Er; [|done].
    destruct (Hm _ _ Er) as [Hk [H1 H2 H3 H4 H5 H6]]. apply put_gauge_ok; [done|done|]. by constructor.
  - unfold markRequiresReview. destruct (fs_get o (fstore w)) as [r|] eqn:Er; [|done].
    destruct (Hm _ _ Er) as [Hk [H1 H2 H3 H4 H5 H6]]. apply put_all_ok; [done|]. by constructor.
  - split; cbn; [|exact Hd]. intros k r (Hk & _ & f & Hf)%reboot_from_disk; [|done]. split; [done|by eapply Hd].
  - done.
Qed.

(** The history of an order is append-only, and [failed] and [recovered]
    records are not reopened by a retry. *)
Lemma history_append_only w op k r :
  match op with FReboot _ => False | _ => True end ->
  (forall k r, fs_get k (fstore w) = Some r -> f_orderId r = k) ->
  fs_get k (fstore w) = Some r ->
  exists r', fs_get k (fstore (failure_step w op)) = Some r' /\ f_events r `prefix_of` f_events r' /\
    f_recoveryAttempts r <= f_recoveryAttempts r' /\ firstFailedAt r' = firstFailedAt r /\
    (recoveryStatus r ∈ [failed; recovered] -> recoveryStatus r' ∉ [pending; recovering]).
Proof.
  intros Hop Hk Hr.
  assert (forall r0, fs_get k (fstore (with_fstore (fs_put r0) w)) =
    if decide (k = f_orderId r0) then Some r0 else Some r) as Hput by (intros r0; cbn; by rewrite fs_get_put, Hr).
  assert (forall o r0, f_orderId r0 = o ->
    fs_get k (fstore (with_fstore (persist r0) (updatePendingGauge (with_fstore (fun s => with_mem (jm_set o r0 (mem s)) s) w)))) =
    if decide (k = o) then Some r0 else Some r) as Hput' by (intros o r0 <-; exact (Hput r0)).
  set (good := fun r' : OrderFailureRecord => f_events r `prefix_of` f_events r' /\
    f_recoveryAttempts r <= f_recoveryAttempts r' /\ firstFailedAt r' = firstFailedAt r /\
    (recoveryStatus r ∈ [failed; recovered] -> recoveryStatus r' ∉ [pending; recovering])).
  assert (good r) as Hsame by (split_and!; [done|done|done|]; intros Hs; destruct (recoveryStatus r); set_solver).
  assert (forall o r0, (k = o -> good r0) -> exists r', (if decide (k = o) then Some r0 else Some r) = Some r' /\ good r')
    as Hcase by (intros o r0 Hg; case_decide; [exists r0; auto|by exists r]).
  assert (forall o, fs_get o (fstore w) = None -> k <> o) as Hne by (intros o Ho ->; congruence).
  destruct op as [now i|now o|now o h|now o reason|rd|b]; cbn [failure_step].
  - unfold recordFailure. cbn [snd]. destruct (fs_get (i_orderId i) (fstore w)) as [r1|] eqn:E1; cbn [default].
    + rewrite (Hput' (i_orderId i)) by (exact (Hk _ _ E1)). apply Hcase. intros ->. rewrite E1 in Hr. simplify_eq.
      split_and!; cbn; [by eexists|done|done|]. intros Hs.
      destruct (CATEGORY_RECOVERABILITY (i_category i)), (recoveryStatus r); set_solver.
    + rewrite (Hput' (i_orderId i)) by done. apply Hcase. intros ->. by apply Hne in E1.
  - unfold markRecovering. destruct (fs_get o (fstore w)) as [r1|] eqn:E1; [|exists r; auto].
    case_bool_decide as Hs; [exists r; auto|]. rewrite Hput. cbn. rewrite (Hk _ _ E1). apply Hcase. intros ->.
    rewrite E1 in Hr. simplify_eq. split_and!; cbn; [done|lia|done|done].
  - unfold markRecovered. destruct (fs_get o (fstore w)) as [r1|] eqn:E1; [|exists r; auto].
    rewrite (Hput' o) by (exact (Hk _ _ E1)). apply Hcase. intros ->. rewrite E1 in Hr. simplify_eq.
    split_and!; cbn; [done|done|done|set_solver].
  - unfold markRequiresReview. destruct (fs_get o (fstore w)) as [r1|] eqn:E1; [|exists r; auto].
    rewrite Hput. cbn. rewrite (Hk _ _ E1). apply Hcase. intros ->. rewrite E1 in Hr. simplify_eq.
    split_and!; cbn; [done|done|done|set_solver].
  - done.
  - exists r. auto.
Qed.

Lemma failure_run_ok ops :
  Forall (fun op => match op with FReboot rd => lists_all rd | _ => True end) ops -> all_failures_ok (failure_run ops).
Proof.
  intros Hops. unfold failure_run. assert (all_failures_ok (mkFailureStore fresh_store 0)) as H by (split; done).
  revert H. generalize (mkFailureStore fresh_store 0).
  induction Hops as [|op ops Hop _ IH]; intros w H; [done|]. cbn. by apply IH, failure_step_ok.
Qed.

(** The failure log is well formed, append-only and free of secrets:
    after any sequence of failures, recovery marks, disk failures and
    restarts, every record in memory and on disk counts exactly its events,
    numbers them 1, 2, ..., carries the recoverability of each category, and
    no stored message contains an Ethereum address, key or hash (0x and 40 or
    more hex digits) or a Stellar key, or exceeds 500 characters; a [failed]
    order has a terminal event and a reason, a [recovered] one a transaction;
    and the next operation only appends to an order's events and never
    takes a failed or recovered order back to [pending] or [recovering]. *)
Lemma failure_log_sound (ops : list FailureOp) (op : FailureOp) (k : string) (r : OrderFailureRecord) :
  Forall (fun op => match op with FReboot rd => lists_all rd | _ => True end) ops ->
  let w := failure_run ops in
  all_failures_ok w /\
  (match op with FReboot _ => False | _ => True end -> fs_get k (fstore w) = Some r ->
   exists r', fs_get k (fstore (failure_step w op)) = Some r' /\ f_events r `prefix_of` f_events r' /\
     f_recoveryAttempts r <= f_recoveryAttempts r' /\ firstFailedAt r' = firstFailedAt r /\
     (recoveryStatus r ∈ [failed; recovered] -> recoveryStatus r' ∉ [pending; recovering])).
Proof.
  intros Hops w. pose proof (failure_run_ok ops Hops) as Hw. split; [done|]. intros Hop Hr.
  apply history_append_only; [done| |done]. intros k' r' Hr'. by destruct Hw as [Hm _]; apply Hm in Hr' as [? _].
Qed.

Definition demo_failure (c : FailureCategory) (msg : string) : FailureInput :=
  mkFailureInput "o1" "eth_to_xlm" c msg (Some on_ethereum) None.
Definition demo_failures : list FailureOp :=
  [FRecord 1 (demo_failure rpc_timeout "timeout at 0x00112233445566778899aabbccddeeff00112233"); FRecovering 2 "o1";
   FReboot map_to_list; FRecord 3 (demo_failure insufficient_balance "no funds")].

Lemma failure_log_sound_witness :
  (fe_errorMessage <$> match fs_get "o1" (fstore (failure_run demo_failures)) with Some r => f_events r | None => [] end) =
    ["timeout at [address/hash]"; "no funds"] /\
  all_failures_ok (failure_run demo_failures).
Proof.
  split; [vm_compute; reflexivity|].
  apply (failure_log_sound demo_failures (FDisk true) "o1" (new_record 0 (demo_failure rpc_timeout ""))).
  repeat apply List.Forall_cons; try apply List.Forall_nil; try exact I. intros d. reflexivity.
Defined.

(** A failed order can be retried after all: a partial settlement reopens it
    for review, and a retry is then not refused. *)
Example failed_order_retried :
  (fun r => (recoveryStatus r, terminalReason r)) <$>
  fs_get "o1" (fstore (failure_run (demo_failures ++
    [FRecord 4 (demo_failure partial_settlement "one leg"); FRecovering 5 "o1"]))) = Some (recovering, Some "no funds").
Proof. vm_compute. reflexivity. Qed.

(** A new failure of a recovered order leaves it [recovered]. *)
Example failure_after_recovery_hidden :
  (fun r => (recoveryStatus r, failureCount r)) <$>
  fs_get "o1" (fstore (failure_run [FRecord 1 (demo_failure rpc_timeout "t"); FRecovered 2 "o1" "0xh";
    FRecord 3 (demo_failure rpc_timeout "t")])) = Some (recovered, 2).
Proof. vm_compute. reflexivity. Qed.

(** [markRequiresReview] does not refresh the gauge of open orders. *)
Example review_not_counted :
  let w := failure_run [FRecord 1 (demo_failure auth_failure "a"); FReview 2 "o1" "check"] in
  (pendingGauge w, pendingGauge (updatePendingGauge w)) = (0, 1).
Proof. vm_compute. reflexivity. Qed.

(** A Stellar transaction hash, which has no 0x prefix, is kept. *)
Example bare_hash_kept :
  sanitiseErrorMessage "tx 00112233445566778899aabbccddeeff00112233445566778899aabbccddeeff failed" =
  "tx 00112233445566778899aabbccddeeff00112233445566778899aabbccddeeff failed".
Proof. vm_compute. reflexivity. Qed.
