(* ===== verification/SettlementPolicy.v ===== *)
(** * Classifying settlement errors
    (relayer/src/services/settlement-retry-policy.ts).

    An error is what the classifiers look at: its class among the typed
    Horizon errors, its message, its [code] and nested [error.code], and the
    HTTP status and result codes of a Horizon response.  The source's regular
    expressions are fixed words matched without regard to case. *)

From S2P Require Import Prelude RetryEngine.
From S2P Require Import SettlementFailures.

Inductive HorizonError : Type :=
| HorizonTimeoutError
| HorizonTerminalError (resultCode : string)
| HorizonTransientError.

Inductive ErrorCode : Type := NumCode (n : Z) | TextCode (s : string).

#[export] Instance ErrorCode_eq_dec : EqDecision ErrorCode.
Proof. solve_decision. Defined.

Record RawError : Type := mkRawError {
  e_horizon : option HorizonError;
  e_message : string;
  e_code : option ErrorCode;
  e_nestedCode : option Z;
  e_httpStatus : Z;
  e_txCode : option string;
  e_opCodes : list string
}.

(** [/w1/i.test(msg) || /w2/i.test(msg) || ...]. *)
Definition mentions (msg : string) (words : list string) : bool :=
  existsb (fun w => includes (toLowerCase msg) w) words.

Definition extractResultCodes (e : RawError) : list string :=
  match e_txCode e with Some c => if truthy_string c then [c] else [] | None => [] end ++ e_opCodes e.

Definition rate_limited (e : RawError) : bool :=
  bool_decide (e_code e = Some (NumCode 429)) ||
  (bool_decide (e_code e = Some (TextCode "UNKNOWN_ERROR")) && bool_decide (e_nestedCode e = Some 429)).

Definition ethRpcClassifier (e : RawError) : option FaultClass :=
  let msg := e_message e in
  if mentions msg ["insufficient funds"; "execution reverted"; "invalid signature"; "bad auth"; "not authorized";
                   "nonce too high"; "gas limit exceeded"; "replacement transaction underpriced";
                   "transaction underpriced"] then Some RetryEngine.terminal
  else if mentions msg ["nonce too low"; "already known"; "known transaction"; "transaction not found"; "pending"]
  then Some confirmation_delay
  else if rate_limited e ||
          mentions msg ["rate limit"; "compute units"; "exceeded"; "timeout"; "etimedout"; "econnreset"; "socket hang up";
                        "server error"; "503"; "502"] then Some transient
  else None.

Definition horizonClassifier (e : RawError) : option FaultClass :=
  match e_horizon e with
  | Some HorizonTimeoutError => Some transient
  | Some (HorizonTerminalError _) => Some RetryEngine.terminal
  | Some HorizonTransientError => Some transient
  | None =>
      let status := e_httpStatus e in
      if (status =? 504) || (status =? 408) then Some transient
      else if status =? 400 then
        let codes := extractResultCodes e in
        if bool_decide ("tx_bad_auth" ∈ codes) || bool_decide ("op_no_destination" ∈ codes) ||
           bool_decide ("op_no_trust" ∈ codes) || bool_decide ("tx_insufficient_balance" ∈ codes)
        then Some RetryEngine.terminal else Some transient
      else if 500 <=? status then Some transient
      else if mentions (e_message e) ["timeout"; "etimedout"; "econnreset"] then Some transient
      else None
  end.

(** [/insufficient.*(fund|balance)/i] on a lower-case text; [.] does not
    match a line break. *)
Fixpoint first_line (s : string) : string :=
  match s with
  | EmptyString => EmptyString
  | String c s' =>
      if (Ascii.eqb c (Ascii.ascii_of_nat 10) || Ascii.eqb c (Ascii.ascii_of_nat 13))%bool then EmptyString
      else String c (first_line s')
  end.
Fixpoint insufficient_of (s : string) : bool :=
  (startsWith s "insufficient" &&
   let rest := first_line (String.substring 12 (String.length s) s) in includes rest "fund" || includes rest "balance") ||
  match s with EmptyString => false | String _ s' => insufficient_of s' end.

Definition generic_category (e : RawError) : FailureCategory :=
  let msg := e_message e in
  if mentions msg ["rate limit"; "429"] then rpc_rate_limit
  else if mentions msg ["timeout"; "etimedout"; "econnreset"] then rpc_timeout
  else if insufficient_of (toLowerCase msg) then insufficient_balance
  else if mentions msg ["auth"; "permission"; "not authorized"] then auth_failure
  else terminal_unknown.

Definition classifyFailureCategory (e : RawError) (chain : FailureChain) : FailureCategory :=
  let msg := e_message e in
  let status := e_httpStatus e in
  match e_horizon e with
  | Some HorizonTimeoutError => horizon_timeout
  | Some (HorizonTerminalError rc) =>
      if bool_decide (rc = "tx_bad_seq") then stellar_bad_seq
      else if bool_decide (rc = "tx_insufficient_fee") then stellar_fee_too_low
      else if bool_decide (rc = "tx_insufficient_balance") || bool_decide (rc = "tx_no_source_account")
      then insufficient_balance
      else if bool_decide (rc = "tx_bad_auth") then auth_failure
      else terminal_unknown
  | Some HorizonTransientError => horizon_transient
  | None =>
      match chain with
      | on_stellar =>
          let codes := extractResultCodes e in
          if (status =? 504) || (status =? 408) then horizon_timeout
          else if 500 <=? status then horizon_transient
          else if bool_decide ("tx_bad_seq" ∈ codes) then stellar_bad_seq
          else if bool_decide ("tx_insufficient_fee" ∈ codes) then stellar_fee_too_low
          else if bool_decide ("tx_insufficient_balance" ∈ codes) then insufficient_balance
          else if bool_decide ("tx_bad_auth" ∈ codes) then auth_failure
          else generic_category e
      | on_ethereum =>
          if rate_limited e || mentions msg ["rate limit"; "compute units"] then rpc_rate_limit
          else if mentions msg ["timeout"; "etimedout"; "econnreset"; "socket hang up"] then rpc_timeout
          else if mentions msg ["nonce too low"] then eth_nonce_conflict
          else if mentions msg ["gas"] && mentions msg ["low"; "limit"] then eth_gas_too_low
          else if mentions msg ["insufficient funds"] then insufficient_balance
          else if mentions msg ["execution reverted"; "invalid signature"] then auth_failure
          else generic_category e
      | on_unknown => generic_category e
      end
  end.

(** ** Facts *)

(** The outcome of a submission is unknown to Horizon's caller. *)
Definition unknown_outcome (e : RawError) (chain : FailureChain) : bool :=
  match e_horizon e, chain with
  | Some HorizonTimeoutError, _ => true
  | None, on_stellar => (e_httpStatus e =? 504) || (e_httpStatus e =? 408)
  | _, _ => false
  end.

Lemma generic_not_ambiguous e : CATEGORY_RECOVERABILITY (generic_category e) <> ambiguous.
Proof. unfold generic_category. repeat case_match; done. Qed.

(** Exactly the unknown outcomes are recorded as ambiguous, and the retry
    engine is never told that they are terminal. *)
Lemma ambiguous_iff_unknown e chain :
  (CATEGORY_RECOVERABILITY (classifyFailureCategory e chain) = ambiguous <-> unknown_outcome e chain = true) /\
  (unknown_outcome e chain = true -> horizonClassifier e = Some transient).
Proof.
  pose proof (generic_not_ambiguous e) as Hg. unfold unknown_outcome. split.
  - unfold classifyFailureCategory. destruct (e_horizon e) as [[| |]|]; [done| |done|].
    + split; [|done]. repeat case_match; done.
    + destruct chain; [split; [|done]; repeat case_match; done| |by split].
      destruct ((e_httpStatus e =? 504) || (e_httpStatus e =? 408)); [done|]. split; [|done]. repeat case_match; done.
  - unfold horizonClassifier. destruct (e_horizon e) as [[| |]|], chain; try done. by intros ->.
Qed.

(** The two classifications of one error can disagree: a bad sequence number
    is terminal for the retry engine and recoverable for the store, and so is a
    gas limit that is too low. *)
Example classifications_disagree :
  let seq := mkRawError (Some (HorizonTerminalError "tx_bad_seq")) "" None None 0 None [] in
  let gas := mkRawError None "gas limit exceeded" None None 0 None [] in
  horizonClassifier seq = Some RetryEngine.terminal /\
  CATEGORY_RECOVERABILITY (classifyFailureCategory seq on_stellar) = recoverable /\
  ethRpcClassifier gas = Some RetryEngine.terminal /\
  CATEGORY_RECOVERABILITY (classifyFailureCategory gas on_ethereum) = recoverable.
Proof. vm_compute. done. Qed.
