(* ===== verification/SolanaAccount.v ===== *)
(** * Solana accounts and instructions of the HTLC program
    (packages/sdk/src/solana/account-sizing.ts, solana/idl/htlc.ts,
    solana/index.ts, shared-utils/index.ts and the encoder of
    fixtures/solana-wire.ts).

    The SDK derives account sizes from a table of fields, reads an order account
    at fixed offsets, and writes the data of three instructions.  Buffers are
    lists of bytes; an integer that does not fit the field it is written to is
    a [RangeError], as in Node.  The base-58 text of a public key is
    @solana/web3.js: a parameter. *)

From S2P Require Import Prelude Codec.
From Stdlib Require Import Ascii.

(** ** Buffers *)

Inductive SolError : Type :=
| RangeError (message : string)
| SdkError (message : string).

(** [buf.readUInt8], [readUInt32LE], [readInt32LE] within the buffer. *)
Definition readUInt8 (buf : bytes) (off : nat) : Z := default 0 (buf !! off).
Definition readUInt32LE (buf : bytes) (off : nat) : Z :=
  readUInt8 buf off + readUInt8 buf (off + 1) * 2 ^ 8 + readUInt8 buf (off + 2) * 2 ^ 16 + readUInt8 buf (off + 3) * 2 ^ 24.
Definition readInt32LE (buf : bytes) (off : nat) : Z :=
  let u := readUInt32LE buf off in if u <? 2 ^ 31 then u else u - 2 ^ 32.

(** [src.copy(buf, off)] of bytes that fit. *)
Definition write_at (off : nat) (src buf : bytes) : bytes :=
  take off buf ++ src ++ drop (off + length src) buf.

Definition u32_bytes (n : Z) : bytes :=
  [Z.land n 255; Z.land (Z.shiftr n 8) 255; Z.land (Z.shiftr n 16) 255; Z.land (Z.shiftr n 24) 255].

Definition writeUInt8 (v : Z) (off : nat) (buf : bytes) : outcome SolError bytes :=
  if (0 <=? v) && (v <? 256) then Ok (write_at off [v] buf) else Throw (RangeError "value out of range").

Definition writeUInt32LE (v : Z) (off : nat) (buf : bytes) : outcome SolError bytes :=
  if (0 <=? v) && (v <? 2 ^ 32) then Ok (write_at off (u32_bytes v) buf) else Throw (RangeError "value out of range").

(** ** shared-utils *)

Definition writeU64LE (value : Z) (off : nat) (buf : bytes) : outcome SolError bytes :=
  let lo := Z.land value (2 ^ 32 - 1) in
  let hi := Z.shiftr value 32 in
  match writeUInt32LE lo off buf with
  | Throw e => Throw e
  | Ok b => writeUInt32LE hi (off + 4) b
  end.

Definition readU64LE (buf : bytes) (off : nat) : Z :=
  Z.lor (Z.shiftl (readUInt32LE buf (off + 4)) 32) (readUInt32LE buf off).
Definition readI64LE (buf : bytes) (off : nat) : Z :=
  Z.lor (Z.shiftl (readInt32LE buf (off + 4)) 32) (readUInt32LE buf off).

Definition bufferToHex (bs : bytes) : string := "0x" +:+ hex_encode bs.

(** [/^0x[0-9a-fA-F]{64}$/]. *)
Definition validateHashlock (s : string) : bool :=
  startsWith s "0x" &&
  let digits := String.substring 2 (String.length s) s in
  all_chars (fun c => bool_decide (is_Some (hex_value c))) digits && Nat.eqb (String.length digits) 64.

Definition hex32ToBuffer (hex label : string) : outcome SolError bytes :=
  if validateHashlock hex then Ok (hex_decode (String.substring 2 (String.length hex) hex))
  else Throw (SdkError (label +:+ " must be 0x + 64 hex chars (32 bytes)")).

(** ** Layouts *)

Definition ANCHOR_DISCRIMINATOR_SIZE : nat := 8.
Definition size_u8 : nat := 1.
Definition size_u64 : nat := 8.
Definition size_pubkey : nat := 32.
Definition size_bytes32 : nat := 32.
Definition optionSize (inner : nat) : nat := size_u8 + inner.

Record AccountLayoutSpec : Type := mkLayout {
  label : string;
  anchorAccountName : string;
  seedLabel : string;
  layout_fields : list (string * nat)
}.

Definition htlcOrder : AccountLayoutSpec :=
  mkLayout "HtlcOrder" "HtlcOrder" "order"
    [("version", size_u8); ("sender", size_pubkey); ("beneficiary", size_pubkey); ("refundAddress", size_pubkey);
     ("mint", size_pubkey); ("amount", size_u64); ("safetyDeposit", size_u64); ("hashlock", size_bytes32);
     ("timelock", size_u64); ("status", size_u8); ("preimage", optionSize size_bytes32)].
Definition orderRegistry : AccountLayoutSpec :=
  mkLayout "OrderRegistry" "State" "state" [("orderCount", size_u64)].
Definition SOLANA_ANCHOR_ACCOUNT_LAYOUTS : list (string * AccountLayoutSpec) :=
  [("htlcOrder", htlcOrder); ("orderRegistry", orderRegistry)].

Definition fieldsSizeFor (l : AccountLayoutSpec) : nat := foldr (fun f n => f.2 + n)%nat O (layout_fields l).
Definition accountSizeFor (l : AccountLayoutSpec) : nat := ANCHOR_DISCRIMINATOR_SIZE + fieldsSizeFor l.
Definition HTLC_ORDER_ACCOUNT_SIZE : nat := accountSizeFor htlcOrder.

(** [validateAccountLayouts]: the problems of each layout, by name. *)
Definition layout_problems (name : string) (l : AccountLayoutSpec) : list string :=
  (if bool_decide (layout_fields l = []) then [name +:+ ": declares no fields"] else []) ++
  (fix go (seen : list string) (fs : list (string * nat)) : list string :=
     match fs with
     | [] => []
     | f :: fs' =>
         (if Nat.ltb 0 f.2 then [] else [name +:+ "." +:+ f.1 +:+ ": size must be a positive integer, got " +:+ pretty f.2]) ++
         (if bool_decide (f.1 ∈ seen) then [name +:+ ": duplicate field name " +:+ dquoted f.1] else []) ++
         go (f.1 :: seen) fs'
     end) [] (layout_fields l) ++
  (if Nat.leb (accountSizeFor l) ANCHOR_DISCRIMINATOR_SIZE then [name +:+ ": total size " +:+ pretty (accountSizeFor l) +:+ " is not greater than the " +:+
     pretty ANCHOR_DISCRIMINATOR_SIZE +:+ "-byte discriminator alone"]
   else []).
Definition validateAccountLayouts : list string :=
  mjoin ((fun nl => layout_problems nl.1 nl.2) <$> SOLANA_ANCHOR_ACCOUNT_LAYOUTS).

(** [FIELD_OFFSET] of the IDL, relative to the end of the discriminator. *)
Module FIELD_OFFSET.
Definition version : nat := 0.
Definition sender : nat := 1.
Definition beneficiary : nat := 33.
Definition refundAddress : nat := 65.
Definition mint : nat := 97.
Definition amount : nat := 129.
Definition safetyDeposit : nat := 137.
Definition hashlock : nat := 145.
Definition timelock : nat := 177.
Definition status : nat := 185.
Definition preimage : nat := 186.
End FIELD_OFFSET.

Definition HTLC_ORDER_DISCRIMINATOR : bytes := [0x17; 0x4c; 0x3d; 0x91; 0x5f; 0xa8; 0x2b; 0xe1].
Definition IDL_VERSION : Z := 0.

(** ** Order accounts *)

Record OrderFields : Type := mkOrderFields {
  of_version : Z;
  of_sender : string;
  of_beneficiary : string;
  of_refundAddress : string;
  of_mint : string;
  of_amount : Z;
  of_safetyDeposit : Z;
  of_hashlock : string;
  of_timelock : Z;
  of_status : Z;
  of_preimage : option string
}.

Record SolanaOrderData : Type := mkOrderData {
  so_orderId : string;
  so_sender : string;
  so_beneficiary : string;
  so_refundAddress : string;
  so_mint : string;
  so_amount : Z;
  so_safetyDeposit : Z;
  so_hashlock : string;
  so_timelock : Z;
  so_status : Z;
  so_preimage : option string
}.

Section Keys.
Context (toBase58 : bytes -> string) (fromBase58 : string -> bytes).

(** [buf.subarray(off, off + n)]. *)
Definition subarray (off n : nat) (buf : bytes) : bytes := take n (drop off buf).

Definition key_at (off : nat) (buf : bytes) : string := toBase58 (subarray off 32 buf).

Definition deserialiseOrderAccount (data : bytes) (orderId : string) : outcome SolError SolanaOrderData :=
  if Nat.ltb (length data) HTLC_ORDER_ACCOUNT_SIZE then Throw (SdkError ("HTLCOrder account data too small: expected >= " +:+ pretty HTLC_ORDER_ACCOUNT_SIZE +:+ " bytes, got " +:+ pretty (length data)))
  else if negb (bool_decide (subarray 0 8 data = HTLC_ORDER_DISCRIMINATOR)) then
    Throw (SdkError ("Invalid HTLCOrder discriminator: " +:+ hex_encode (subarray 0 8 data)))
  else
    let fields := drop 8 data in
    let version := readUInt8 fields FIELD_OFFSET.version in
    if IDL_VERSION <? version then Throw (SdkError ("HTLCOrder account version " +:+ pretty version +:+ " is newer than SDK IDL version " +:+ pretty IDL_VERSION +:+ ". Update the SDK to parse this account."))
    else
      let statusByte := readUInt8 fields FIELD_OFFSET.status in
      if negb (bool_decide (statusByte ∈ [0; 1; 2])) then Throw (SdkError ("Unknown HTLCOrder status byte: " +:+ pretty statusByte))
      else
        let preimageTag := readUInt8 fields FIELD_OFFSET.preimage in
        Ok (mkOrderData orderId (key_at FIELD_OFFSET.sender fields) (key_at FIELD_OFFSET.beneficiary fields)
              (key_at FIELD_OFFSET.refundAddress fields) (key_at FIELD_OFFSET.mint fields)
              (readU64LE fields FIELD_OFFSET.amount) (readU64LE fields FIELD_OFFSET.safetyDeposit)
              (bufferToHex (subarray FIELD_OFFSET.hashlock 32 fields))
              (Number_of (readI64LE fields FIELD_OFFSET.timelock)) statusByte
              (if preimageTag =? 1 then Some (bufferToHex (subarray (FIELD_OFFSET.preimage + 1) 32 fields)) else None)).

Notation "'let!' x := m 'in' k" := (match m with Ok x => k | Throw e => Throw e end)
  (at level 200, x name, m at level 100, k at level 200, only parsing).

(** [buildOrderAccount]: the encoder of the fixtures. *)
Definition buildOrderAccount (f : OrderFields) : outcome SolError bytes :=
  let body := replicate (HTLC_ORDER_ACCOUNT_SIZE - 8) 0 in
  let! body := writeUInt8 (of_version f) FIELD_OFFSET.version body in
  let body := write_at FIELD_OFFSET.sender (fromBase58 (of_sender f)) body in
  let body := write_at FIELD_OFFSET.beneficiary (fromBase58 (of_beneficiary f)) body in
  let body := write_at FIELD_OFFSET.refundAddress (fromBase58 (of_refundAddress f)) body in
  let body := write_at FIELD_OFFSET.mint (fromBase58 (of_mint f)) body in
  let! body := writeU64LE (of_amount f) FIELD_OFFSET.amount body in
  let! body := writeU64LE (of_safetyDeposit f) FIELD_OFFSET.safetyDeposit body in
  let! h := hex32ToBuffer (of_hashlock f) "hashlock" in
  let body := write_at FIELD_OFFSET.hashlock h body in
  let! body := writeU64LE (of_timelock f) FIELD_OFFSET.timelock body in
  let! body := writeUInt8 (of_status f) FIELD_OFFSET.status body in
  match of_preimage f with
  | None =>
      let! body := writeUInt8 0 FIELD_OFFSET.preimage body in
      Ok (HTLC_ORDER_DISCRIMINATOR ++ body)
  | Some p =>
      let! body := writeUInt8 1 FIELD_OFFSET.preimage body in
      let! b := hex32ToBuffer p "preimage" in
      Ok (HTLC_ORDER_DISCRIMINATOR ++ write_at (FIELD_OFFSET.preimage + 1) b body)
  end.
End Keys.

(** ** Facts about buffers *)

Lemma write_next off src acc k :
  length acc = off -> write_at off src (acc ++ replicate (length src + k) 0) = (acc ++ src) ++ replicate k 0.
Proof.
  intros <-. unfold write_at. rewrite take_app_length. rewrite drop_app_ge by lia.
  replace (length acc + length src - length acc)%nat with (length src) by lia.
  rewrite drop_replicate. replace (length src + k - length src)%nat with k by lia. by rewrite app_assoc.
Qed.

Lemma subarray_mid off n pre x post :
  length pre = off -> length x = n -> subarray off n (pre ++ x ++ post) = x.
Proof. intros <- <-. unfold subarray. by rewrite drop_app_length, take_app_length. Qed.

Lemma read8_mid off pre x post : length pre = off -> readUInt8 (pre ++ x :: post) off = x.
Proof. intros <-. unfold readUInt8. by rewrite lookup_app_r, Nat.sub_diag by lia. Qed.

Lemma read32_mid off pre a b c d post :
  length pre = off -> readUInt32LE (pre ++ a :: b :: c :: d :: post) off = a + b * 2 ^ 8 + c * 2 ^ 16 + d * 2 ^ 24.
Proof.
  intros <-. unfold readUInt32LE, readUInt8. rewrite !lookup_app_r by lia.
  replace (length pre + 1 - length pre)%nat with 1%nat by lia.
  replace (length pre + 2 - length pre)%nat with 2%nat by lia.
  replace (length pre + 3 - length pre)%nat with 3%nat by lia. by rewrite Nat.sub_diag.
Qed.

Lemma u32_value n : 0 <= n < 2 ^ 32 ->
  Z.land n 255 + Z.land (Z.shiftr n 8) 255 * 2 ^ 8 + Z.land (Z.shiftr n 16) 255 * 2 ^ 16 +
  Z.land (Z.shiftr n 24) 255 * 2 ^ 24 = n.
Proof.
  intros H. change 255 with (Z.ones 8). rewrite !Z.land_ones, !Z.shiftr_div_pow2 by lia.
  change (2 ^ 8) with 256. change (2 ^ 16) with 65536. change (2 ^ 24) with 16777216. change (2 ^ 32) with 4294967296 in H.
  Z.to_euclidean_division_equations. lia.
Qed.

(** A high and a low half. *)
Lemma lor_halves hi lo : 0 <= lo < 2 ^ 32 -> Z.lor (Z.shiftl hi 32) lo = hi * 2 ^ 32 + lo.
Proof.
  intros H. set (x := Z.lor (Z.shiftl hi 32) lo).
  assert (x / 2 ^ 32 = hi) as Hd.
  { unfold x. rewrite <- Z.shiftr_div_pow2, Z.shiftr_lor, Z.shiftr_shiftl_l by lia. rewrite Z.sub_diag, Z.shiftl_0_r.
    rewrite (Z.shiftr_div_pow2 lo), Z.div_small, Z.lor_0_r by lia. done. }
  assert (x mod 2 ^ 32 = lo) as Hm.
  { unfold x. rewrite <- Z.land_ones, Z.land_lor_distr_l, !Z.land_ones by lia.
    rewrite Z.shiftl_mul_pow2, Z.mod_mul, Z.lor_0_l, Z.mod_small by lia. done. }
  rewrite (Z.div_mod x (2 ^ 32)), Hd, Hm by lia. lia.
Qed.

Definition u64_bytes (v : Z) : bytes := u32_bytes (Z.land v (2 ^ 32 - 1)) ++ u32_bytes (Z.shiftr v 32).

Lemma u64_halves v : 0 <= v < 2 ^ 64 ->
  0 <= Z.land v (2 ^ 32 - 1) < 2 ^ 32 /\ 0 <= Z.shiftr v 32 < 2 ^ 32 /\
  Z.shiftr v 32 * 2 ^ 32 + Z.land v (2 ^ 32 - 1) = v.
Proof.
  intros H. change (2 ^ 32 - 1) with (Z.ones 32). rewrite Z.land_ones, Z.shiftr_div_pow2 by lia.
  change (2 ^ 32) with 4294967296. change (2 ^ 64) with 18446744073709551616 in H.
  Z.to_euclidean_division_equations. lia.
Qed.

Lemma writeU64_next v off acc k :
  0 <= v < 2 ^ 64 -> length acc = off ->
  writeU64LE v off (acc ++ replicate (8 + k) 0) = Ok ((acc ++ u64_bytes v) ++ replicate k 0).
Proof.
  intros Hv Hoff. destruct (u64_halves v Hv) as (H1 & H2 & _). unfold writeU64LE, writeUInt32LE.
  rewrite (proj2 (Z.leb_le 0 _)), (proj2 (Z.ltb_lt _ (2 ^ 32))) by lia. cbn [andb].
  change (8 + k)%nat with (length (u32_bytes (Z.land v (2 ^ 32 - 1))) + (4 + k))%nat. rewrite write_next by done.
  rewrite (proj2 (Z.leb_le 0 _)), (proj2 (Z.ltb_lt _ (2 ^ 32))) by lia. cbn [andb].
  change (4 + k)%nat with (length (u32_bytes (Z.shiftr v 32)) + k)%nat.
  rewrite write_next by (rewrite length_app; cbn; lia). unfold u64_bytes. by rewrite app_assoc.
Qed.

Lemma read_u64 v off pre post :
  0 <= v < 2 ^ 64 -> length pre = off -> readU64LE (pre ++ u64_bytes v ++ post) off = v.
Proof.
  intros Hv Hoff. destruct (u64_halves v Hv) as (H1 & H2 & H3). unfold readU64LE, u64_bytes, u32_bytes.
  rewrite <- app_assoc. cbn [app]. rewrite (read32_mid off) by done.
  assert (forall a b c d rest, pre ++ a :: b :: c :: d :: rest = (pre ++ [a; b; c; d]) ++ rest) as E
    by (intros; by rewrite <- app_assoc).
  rewrite E, (read32_mid (off + 4)) by (rewrite length_app; cbn; lia).
  rewrite !u32_value by done. by rewrite lor_halves.
Qed.

(** A signed read of a value that fits 63 bits. *)
Lemma read_i64 v off pre post :
  0 <= v < 2 ^ 63 -> length pre = off -> readI64LE (pre ++ u64_bytes v ++ post) off = v.
Proof.
  intros Hv Hoff. rewrite <- (read_u64 v off pre post) at 2 by (done || lia). unfold readI64LE, readU64LE. do 2 f_equal.
  unfold readInt32LE. destruct (readUInt32LE _ (off + 4) <? 2 ^ 31) eqn:E; [done|]. exfalso. bools.
  assert (readUInt32LE (pre ++ u64_bytes v ++ post) (off + 4) = Z.shiftr v 32) as Hr.
  { destruct (u64_halves v) as (H1 & H2 & H3); [lia|]. unfold u64_bytes, u32_bytes. rewrite <- app_assoc. cbn [app].
    assert (forall a b c d rest, pre ++ a :: b :: c :: d :: rest = (pre ++ [a; b; c; d]) ++ rest) as E'
      by (intros; by rewrite <- app_assoc).
    rewrite E', (read32_mid (off + 4)) by (rewrite length_app; cbn; lia). by rewrite u32_value. }
  rewrite Hr, Z.shiftr_div_pow2 in E by lia.
  assert (v / 2 ^ 32 < 2 ^ 31) by (apply Z.div_lt_upper_bound; lia). lia.
Qed.

(** ** Hexadecimal *)

Lemma hex_value_digit a x : hex_value a = Some x -> 0 <= x < 16 /\ hex_digit x = lowerAscii a.
Proof.
  assert (forall a, match hex_value a with Some x => ((0 <=? x) && (x <? 16)) && Ascii.eqb (hex_digit x) (lowerAscii a) | None => true end = true) as H
    by (intros [[] [] [] [] [] [] [] []]; vm_compute; reflexivity).
  intros E. specialize (H a). rewrite E in H. bools. apply Ascii.eqb_eq in H0. split; [lia|done].
Qed.

Lemma hex_decode_round n s :
  String.length s = (2 * n)%nat -> all_chars (fun c => bool_decide (is_Some (hex_value c))) s = true ->
  hex_encode (hex_decode s) = toLowerCase s /\ length (hex_decode s) = n.
Proof.
  revert s. induction n as [|n IH]; intros [|a [|b s]] Hl Hs; try done; [cbn in Hl; lia|].
  cbn in Hl, Hs. apply andb_true_iff in Hs as [[x Hx]%bool_decide_eq_true Hs].
  apply andb_true_iff in Hs as [[y Hy]%bool_decide_eq_true Hs].
  destruct (hex_value_digit a x Hx) as [Hx16 Ex], (hex_value_digit b y Hy) as [Hy16 Ey].
  destruct (IH s) as [H1 H2]; [lia|done|]. cbn [hex_decode]. rewrite Hx, Hy. cbn [hex_encode toLowerCase length]. unfold hex2.
  replace ((16 * x + y) / 16) with x by (Z.to_euclidean_division_equations; lia).
  replace ((16 * x + y) mod 16) with y by (Z.to_euclidean_division_equations; lia).
  rewrite Ex, Ey, H1, H2. done.
Qed.

Lemma startsWith_0x s : startsWith s "0x" = true -> exists t, s = String "0" (String "x" t).
Proof.
  unfold startsWith. destruct s as [|a [|b t]]; cbn -[Ascii.ascii_dec]; [done|by destruct (Ascii.ascii_dec "0" a)|].
  destruct (Ascii.ascii_dec "0" a) as [<-|]; [|done]. destruct (Ascii.ascii_dec "x" b) as [<-|]; [|done]. by exists t.
Qed.

Lemma substring_tail t : String.substring 0 (S (S (String.length t))) t = t.
Proof.
  assert (forall n, (String.length t <= n)%nat -> String.substring 0 n t = t) as H; [|apply H; lia].
  induction t as [|c t IH]; intros [|n] Hn; cbn in *; try done; [lia|]. rewrite IH; [done|lia].
Qed.

Lemma hex32_round h l :
  validateHashlock h = true ->
  exists bs, hex32ToBuffer h l = Ok bs /\ length bs = 32%nat /\ bufferToHex bs = toLowerCase h.
Proof.
  intros Hv. unfold hex32ToBuffer. rewrite Hv. eexists. split; [done|]. unfold validateHashlock in Hv.
  apply andb_true_iff in Hv as [H0 Hv]. apply startsWith_0x in H0 as [t ->].
  change (String.substring 2 (String.length (String "0" (String "x" t))) (String "0" (String "x" t)))
    with (String.substring 0 (S (S (String.length t))) t) in *.
  rewrite substring_tail in Hv |- *. apply andb_true_iff in Hv as [Hh Hl%Nat.eqb_eq].
  destruct (hex_decode_round 32 t) as [H1 H2]; [lia|done|]. split; [done|]. unfold bufferToHex. rewrite H1. done.
Qed.

(** ** The account round trip *)

Lemma writeUInt8_next v off acc k :
  0 <= v < 256 -> length acc = off -> writeUInt8 v off (acc ++ replicate (1 + k) 0) = Ok ((acc ++ [v]) ++ replicate k 0).
Proof.
  intros Hv Hoff. unfold writeUInt8. rewrite (proj2 (Z.leb_le 0 _)), (proj2 (Z.ltb_lt _ 256)) by lia. cbn [andb].
  f_equal. exact (write_next off [v] acc k Hoff).
Qed.

(** The same with the sizes as they come. *)
Lemma put_key off src acc m k :
  length src = 32%nat -> length acc = off -> m = (32 + k)%nat ->
  write_at off src (acc ++ replicate m 0) = (acc ++ src) ++ replicate k 0.
Proof. intros H Hoff ->. rewrite <- H at 1. by apply write_next. Qed.

Lemma put_u8 off v acc m k :
  0 <= v < 256 -> length acc = off -> m = (1 + k)%nat ->
  writeUInt8 v off (acc ++ replicate m 0) = Ok ((acc ++ [v]) ++ replicate k 0).
Proof. intros H Hoff ->. by apply writeUInt8_next. Qed.

Lemma put_u64 off v acc m k :
  0 <= v < 2 ^ 64 -> length acc = off -> m = (8 + k)%nat ->
  writeU64LE v off (acc ++ replicate m 0) = Ok ((acc ++ u64_bytes v) ++ replicate k 0).
Proof. intros H Hoff ->. by apply writeU64_next. Qed.

Section RoundTrip.
Context (toBase58 : bytes -> string) (fromBase58 : string -> bytes).

(** The text of a public key: 32 bytes that print as it. *)
Definition key_text (s : string) : Prop := length (fromBase58 s) = 32%nat /\ toBase58 (fromBase58 s) = s.

Record fields_ok (f : OrderFields) : Prop := {
  ok_version : of_version f = IDL_VERSION;
  ok_keys : Forall key_text [of_sender f; of_beneficiary f; of_refundAddress f; of_mint f];
  ok_amount : 0 <= of_amount f < 2 ^ 64;
  ok_deposit : 0 <= of_safetyDeposit f < 2 ^ 64;
  ok_hashlock : validateHashlock (of_hashlock f) = true;
  ok_timelock : 0 <= of_timelock f <= MAX_SAFE_INTEGER;
  ok_status : of_status f ∈ [0; 1; 2];
  ok_preimage : forall p, of_preimage f = Some p -> validateHashlock p = true
}.

(** Lengths of concatenated fields. *)
Ltac len :=
  rewrite ?length_app; cbn [length]; rewrite ?length_app; cbn [length];
  repeat match goal with H : length _ = 32%nat |- _ => rewrite H end; reflexivity.

(** The bytes of an order account, field after field. *)
Lemma buildOrderAccount_eq f h :
  fields_ok f -> hex32ToBuffer (of_hashlock f) "hashlock" = Ok h -> length h = 32%nat ->
  exists tag pre, buildOrderAccount fromBase58 f =
    Ok (HTLC_ORDER_DISCRIMINATOR ++ of_version f :: fromBase58 (of_sender f) ++ fromBase58 (of_beneficiary f) ++
        fromBase58 (of_refundAddress f) ++ fromBase58 (of_mint f) ++ u64_bytes (of_amount f) ++
        u64_bytes (of_safetyDeposit f) ++ h ++ u64_bytes (of_timelock f) ++ of_status f :: tag :: pre) /\
    length pre = 32%nat /\
    match of_preimage f with
    | None => tag = 0
    | Some p => tag = 1 /\ bufferToHex pre = toLowerCase p
    end.
Proof.
  intros [Hv Hk Ha Hd Hh Ht Hs Hp] Eh Lh. rewrite !Forall_cons in Hk. destruct Hk as ([K1 _] & [K2 _] & [K3 _] & [K4 _] & _).
  assert (0 <= of_timelock f < 2 ^ 64) as Ht' by (unfold MAX_SAFE_INTEGER in Ht; lia).
  assert (0 <= of_status f < 256) as Hs' by (rewrite !elem_of_cons, elem_of_nil in Hs; lia).
  unfold buildOrderAccount. change (HTLC_ORDER_ACCOUNT_SIZE - 8)%nat with (1 + 218)%nat.
  change (replicate (1 + 218) 0) with ([] ++ replicate 219 0).
  rewrite (put_u8 _ _ _ _ 218) by (len || (rewrite Hv; done)).
  rewrite (put_key _ _ _ _ 186) by len. rewrite (put_key _ _ _ _ 154) by len.
  rewrite (put_key _ _ _ _ 122) by len. rewrite (put_key _ _ _ _ 90) by len.
  rewrite (put_u64 _ _ _ _ 82) by (done || len). rewrite (put_u64 _ _ _ _ 74) by (done || len).
  rewrite Eh, (put_key _ _ _ _ 42) by len. rewrite (put_u64 _ _ _ _ 34) by (done || len).
  rewrite (put_u8 _ _ _ _ 33) by (done || len).
  destruct (of_preimage f) as [p|].
  - destruct (hex32_round p "preimage" (Hp p eq_refl)) as (b & Eb & Lb & Hb). rewrite Eb.
    rewrite (put_u8 _ _ _ _ 32) by (done || len). rewrite (put_key _ _ _ _ 0) by len.
    exists 1, b. split_and!; [|done|done|done]. f_equal. rewrite <- !app_assoc. cbn [app]. by rewrite app_nil_r.
  - rewrite (put_u8 _ _ _ _ 32) by (done || len).
    exists 0, (replicate 32 0). split_and!; [|done|done]. f_equal. rewrite <- !app_assoc. done.
Qed.
(** Every field of a body at its offset. *)
Lemma body_reads v k1 k2 k3 k4 a dep h tl st tag pre :
  length k1 = 32%nat -> length k2 = 32%nat -> length k3 = 32%nat -> length k4 = 32%nat -> length h = 32%nat ->
  length pre = 32%nat -> 0 <= a < 2 ^ 64 -> 0 <= dep < 2 ^ 64 -> 0 <= tl < 2 ^ 63 ->
  let body := v :: k1 ++ k2 ++ k3 ++ k4 ++ u64_bytes a ++ u64_bytes dep ++ h ++ u64_bytes tl ++ st :: tag :: pre in
  subarray 1 32 body = k1 /\ subarray 33 32 body = k2 /\ subarray 65 32 body = k3 /\ subarray 97 32 body = k4 /\
  readU64LE body 129 = a /\ readU64LE body 137 = dep /\ subarray 145 32 body = h /\ readI64LE body 177 = tl /\
  readUInt8 body 185 = st /\ readUInt8 body 186 = tag /\ subarray 187 32 body = pre.
Proof.
  intros L1 L2 L3 L4 Lh Lp Ha Hd Ht body.
  assert (forall p x post (E : body = p ++ x ++ post), length x = 32%nat -> subarray (length p) 32 body = x) as Hsub
    by (intros p x post -> Hx; by apply subarray_mid).
  assert (forall p w post (E : body = p ++ u64_bytes w ++ post), 0 <= w < 2 ^ 64 -> readU64LE body (length p) = w) as Hu
    by (intros p w post -> Hx; by apply read_u64).
  assert (forall p x post (E : body = p ++ x :: post), readUInt8 body (length p) = x) as H8
    by (intros p x post ->; by apply read8_mid).
  assert (forall p w post (E : body = p ++ u64_bytes w ++ post), 0 <= w < 2 ^ 63 -> readI64LE body (length p) = w) as Hi
    by (intros p w post -> Hx; by apply read_i64).
  assert (forall p q, length (p ++ q : bytes) = (length p + length q)%nat) as La by apply length_app.
  set (p2 := v :: k1) in *. set (p3 := p2 ++ k2). set (p4 := p3 ++ k3). set (p5 := p4 ++ k4).
  set (p6 := p5 ++ u64_bytes a). set (p7 := p6 ++ u64_bytes dep). set (p8 := p7 ++ h). set (p9 := p8 ++ u64_bytes tl).
  assert (body = p2 ++ k2 ++ k3 ++ k4 ++ u64_bytes a ++ u64_bytes dep ++ h ++ u64_bytes tl ++ st :: tag :: pre) as B2 by done.
  assert (length p2 = 33%nat) as N2 by (unfold p2; len).
  assert (length p3 = 65%nat) as N3 by (unfold p3; by rewrite La, N2, L2).
  assert (length p4 = 97%nat) as N4 by (unfold p4; by rewrite La, N3, L3).
  assert (length p5 = 129%nat) as N5 by (unfold p5; by rewrite La, N4, L4).
  assert (length p6 = 137%nat) as N6 by (unfold p6; by rewrite La, N5).
  assert (length p7 = 145%nat) as N7 by (unfold p7; by rewrite La, N6).
  assert (length p8 = 177%nat) as N8 by (unfold p8; by rewrite La, N7, Lh).
  assert (length p9 = 185%nat) as N9 by (unfold p9; by rewrite La, N8).
  pose proof B2 as B3. rewrite app_assoc in B3. fold p3 in B3. pose proof B3 as B4. rewrite app_assoc in B4. fold p4 in B4.
  pose proof B4 as B5. rewrite app_assoc in B5. fold p5 in B5. pose proof B5 as B6. rewrite app_assoc in B6. fold p6 in B6.
  pose proof B6 as B7. rewrite app_assoc in B7. fold p7 in B7. pose proof B7 as B8. rewrite app_assoc in B8. fold p8 in B8.
  pose proof B8 as B9. rewrite app_assoc in B9. fold p9 in B9.
  split_and!.
  - exact (Hsub [v] k1 _ eq_refl L1).
  - rewrite <- N2. exact (Hsub p2 k2 _ B2 L2).
  - rewrite <- N3. exact (Hsub p3 k3 _ B3 L3).
  - rewrite <- N4. exact (Hsub p4 k4 _ B4 L4).
  - rewrite <- N5. exact (Hu p5 a _ B5 Ha).
  - rewrite <- N6. exact (Hu p6 dep _ B6 Hd).
  - rewrite <- N7. exact (Hsub p7 h _ B7 Lh).
  - rewrite <- N8. exact (Hi p8 tl _ B8 Ht).
  - rewrite <- N9. exact (H8 p9 st _ B9).
  - replace 186%nat with (length (p9 ++ [st])) by (by rewrite La, N9).
    refine (H8 (p9 ++ [st]) tag pre _). by rewrite <- app_assoc.
  - replace 187%nat with (length (p9 ++ [st; tag])) by (by rewrite La, N9).
    refine (Hsub (p9 ++ [st; tag]) pre [] _ Lp). rewrite app_nil_r, <- app_assoc. exact B9.
Qed.

Lemma account_reads f id :
  fields_ok f ->
  exists data, buildOrderAccount fromBase58 f = Ok data /\ length data = HTLC_ORDER_ACCOUNT_SIZE /\
    deserialiseOrderAccount toBase58 data id =
    Ok (mkOrderData id (of_sender f) (of_beneficiary f) (of_refundAddress f) (of_mint f) (of_amount f)
          (of_safetyDeposit f) (toLowerCase (of_hashlock f)) (of_timelock f) (of_status f)
          (toLowerCase <$> of_preimage f)).
Proof.
  intros Hf. pose proof Hf as [Hv Hk Ha Hd Hh Ht Hs Hp].
  destruct (hex32_round _ "hashlock" Hh) as (h & Eh & Lh & Hhex).
  destruct (buildOrderAccount_eq f h Hf Eh Lh) as (tag & pre & E & Lp & Htag).
  rewrite !Forall_cons in Hk. destruct Hk as ([K1 T1] & [K2 T2] & [K3 T3] & [K4 T4] & _).
  assert (0 <= of_timelock f < 2 ^ 63) as Ht' by (unfold MAX_SAFE_INTEGER in Ht; lia).
  destruct (body_reads (of_version f) _ _ _ _ (of_amount f) (of_safetyDeposit f) h (of_timelock f) (of_status f) tag pre
    K1 K2 K3 K4 Lh Lp Ha Hd Ht') as (R1 & R2 & R3 & R4 & R5 & R6 & R7 & R8 & R9 & R10 & R11).
  rewrite E. eexists. split; [done|].
  set (body := of_version f :: _) in *.
  assert (length (HTLC_ORDER_DISCRIMINATOR ++ body) = HTLC_ORDER_ACCOUNT_SIZE) as Hl by (unfold body; len).
  split; [done|]. unfold deserialiseOrderAccount, key_at. rewrite Hl, Nat.ltb_irrefl.
  change (subarray 0 8 (HTLC_ORDER_DISCRIMINATOR ++ body)) with HTLC_ORDER_DISCRIMINATOR.
  rewrite bool_decide_true by done. change (drop 8 (HTLC_ORDER_DISCRIMINATOR ++ body)) with body. cbn [negb].
  change (readUInt8 body FIELD_OFFSET.version) with (of_version f). rewrite Hv. cbn [IDL_VERSION Z.ltb Z.compare].
  unfold FIELD_OFFSET.status, FIELD_OFFSET.sender, FIELD_OFFSET.beneficiary, FIELD_OFFSET.refundAddress,
    FIELD_OFFSET.mint, FIELD_OFFSET.amount, FIELD_OFFSET.safetyDeposit, FIELD_OFFSET.hashlock, FIELD_OFFSET.timelock,
    FIELD_OFFSET.preimage. cbn [Nat.add].
  rewrite R1, R2, R3, R4, R5, R6, R7, R8, R9, R10, R11, T1, T2, T3, T4, Hhex, bool_decide_true by done. cbn [negb].
  rewrite (Number_of_safe (of_timelock f)) by (unfold isSafeInteger, MAX_SAFE_INTEGER in *; apply andb_true_iff; split; lia).
  destruct (of_preimage f) as [p|]; [destruct Htag as [-> ->]|rewrite Htag]; done.
Qed.
End RoundTrip.

(** ** The tables agree *)

(** The offset of a field: the sizes of the fields before it. *)
Fixpoint offset_in (name : string) (fs : list (string * nat)) : option nat :=
  match fs with
  | [] => None
  | f :: fs' => if bool_decide (f.1 = name) then Some O else Nat.add f.2 <$> offset_in name fs'
  end.

(** The offsets the reader uses are those of the layout table, the last field
    ends where the account ends, and the table passes its own check. *)
Lemma offsets_from_layout :
  (fun f => offset_in f.1 (layout_fields htlcOrder)) <$> layout_fields htlcOrder =
  Some <$> [FIELD_OFFSET.version; FIELD_OFFSET.sender; FIELD_OFFSET.beneficiary; FIELD_OFFSET.refundAddress;
            FIELD_OFFSET.mint; FIELD_OFFSET.amount; FIELD_OFFSET.safetyDeposit; FIELD_OFFSET.hashlock;
            FIELD_OFFSET.timelock; FIELD_OFFSET.status; FIELD_OFFSET.preimage] /\
  HTLC_ORDER_ACCOUNT_SIZE = 227%nat /\ accountSizeFor orderRegistry = 16%nat /\ validateAccountLayouts = [].
Proof. by vm_compute. Qed.

(** An order account survives the wire: for fields of the declared widths
    (a 32-byte key text per address, amounts in 64 bits, a time a number holds
    exactly, 32-byte hex digests), the encoder succeeds, its bytes have exactly
    the size derived from the layout table, and the reader returns every field as
    given, the two digests in lower case and an absent preimage as absent. *)
Lemma solana_account_round_trip toBase58 fromBase58 f id :
  fields_ok toBase58 fromBase58 f ->
  exists data, buildOrderAccount fromBase58 f = Ok data /\ length data = HTLC_ORDER_ACCOUNT_SIZE /\
    deserialiseOrderAccount toBase58 data id =
    Ok (mkOrderData id (of_sender f) (of_beneficiary f) (of_refundAddress f) (of_mint f) (of_amount f)
          (of_safetyDeposit f) (toLowerCase (of_hashlock f)) (of_timelock f) (of_status f)
          (toLowerCase <$> of_preimage f)).
Proof. apply account_reads. Qed.

Lemma solana_account_round_trip_witness :
  let key := "000102030405060708090a0b0c0d0e0f101112131415161718191a1b1c1d1e1f" in
  let f := mkOrderFields 0 key key key key (2 ^ 64 - 1) 5000 ("0x" +:+ key) 1900000000 1 (Some ("0x" +:+ key)) in
  exists data, buildOrderAccount hex_decode f = Ok data /\ length data = HTLC_ORDER_ACCOUNT_SIZE /\
    deserialiseOrderAccount hex_encode data "order" =
    Ok (mkOrderData "order" key key key key (2 ^ 64 - 1) 5000 ("0x" +:+ key) 1900000000 1 (Some ("0x" +:+ key))).
Proof.
  intros key f. apply (solana_account_round_trip hex_encode hex_decode f "order"). split.
  - reflexivity.
  - assert (key_text hex_encode hex_decode key) by (split; vm_compute; reflexivity). repeat constructor; done.
  - cbn. lia.
  - cbn. lia.
  - vm_compute. reflexivity.
  - unfold MAX_SAFE_INTEGER. cbn. lia.
  - cbn. set_solver.
  - intros p [= <-]. vm_compute. reflexivity.
Defined.

(** What the reader refuses: short data, another discriminator, a newer version
    and an unknown status. *)
Lemma deserialise_guards toBase58 data id d :
  deserialiseOrderAccount toBase58 data id = Ok d ->
  (HTLC_ORDER_ACCOUNT_SIZE <= length data)%nat /\ take 8 data = HTLC_ORDER_DISCRIMINATOR /\
  readUInt8 (drop 8 data) FIELD_OFFSET.version <= IDL_VERSION /\ so_status d ∈ [0; 1; 2] /\
  so_status d = readUInt8 (drop 8 data) FIELD_OFFSET.status /\
  so_hashlock d = bufferToHex (subarray FIELD_OFFSET.hashlock 32 (drop 8 data)).
Proof.
  unfold deserialiseOrderAccount. destruct (Nat.ltb _ _) eqn:E1; [done|]. apply Nat.ltb_ge in E1.
  destruct (negb _) eqn:E2; [done|]. apply negb_false_iff, bool_decide_eq_true in E2.
  destruct (IDL_VERSION <? _) eqn:E3; [done|]. apply Z.ltb_ge in E3.
  destruct (negb (bool_decide (_ ∈ _))) eqn:E4; [done|]. apply negb_false_iff, bool_decide_eq_true in E4.
  intros [= <-]. unfold subarray in E2. rewrite drop_0 in E2. done.
Qed.
