(* ===== verification/SolanaClient.v ===== *)
(** * Solana instructions, account checks and the SDK client
    (packages/sdk/src/solana/index.ts, idl/htlc.ts, account-sizing.ts and
    account-validation.ts).

    The client builds three instructions, may check the escrow account before a
    submission and verifies a new account after it.  @solana/web3.js (keys,
    derived addresses) and the cluster (account reads, rent, submission) are
    parameters; an error is represented by its class and code, without the text
    that repeats its inputs. *)

From S2P Require Import Prelude Codec SolanaAccount.

(** ** Instructions *)

Record AccountMeta : Type := mkMeta { pubkey : bytes; isSigner : bool; isWritable : bool }.

Record TransactionInstruction : Type := mkInstruction {
  ix_keys : list AccountMeta;
  ix_programId : bytes;
  ix_data : bytes
}.

(** @solana/web3.js. *)
Class Web3 : Type := {
  toBase58 : bytes -> string;
  newPublicKey : string -> option bytes;
  findProgramAddressSync : list bytes -> bytes -> outcome SolError (bytes * Z);
  SystemProgram_programId : bytes;
  SYSVAR_CLOCK_PUBKEY : bytes
}.

Definition IX_CREATE_ORDER : bytes := [0x9f; 0x04; 0x18; 0xd1; 0x6a; 0x7e; 0x59; 0x3c].
Definition IX_CLAIM_ORDER : bytes := [0x3c; 0xa0; 0x5f; 0xd2; 0x11; 0x8b; 0x4a; 0xef].
Definition IX_REFUND_ORDER : bytes := [0x5e; 0x2d; 0x87; 0x3f; 0x44; 0xc1; 0x7b; 0x22].
(** The bytes of "order". *)
Definition ORDER_SEED : bytes := [111; 114; 100; 101; 114].

(** [src.copy(buf, off)]: as many bytes as fit. *)
Definition copy_into (src : bytes) (off : nat) (buf : bytes) : bytes :=
  let n := Nat.min (length src) (length buf - off) in
  take off buf ++ take n src ++ drop (off + n) buf.

Section Builders.
Context {W3 : Web3}.

Definition deriveOrderPda (hashlockBytes programId : bytes) : outcome SolError (bytes * Z) :=
  findProgramAddressSync [ORDER_SEED; hashlockBytes] programId.

Record CreateInput : Type := mkCreateInput {
  ci_payer : bytes;
  ci_beneficiary : bytes;
  ci_refundAddress : bytes;
  ci_mint : bytes;
  ci_amount : Z;
  ci_safetyDeposit : Z;
  ci_hashlockBytes : bytes;
  ci_timelockAbsolute : Z
}.

(** [junk] is what [Buffer.allocUnsafe] returns: that many bytes of old memory. *)
Definition buildCreateOrderInstruction (junk : bytes) (programId : bytes) (input : CreateInput)
  : outcome SolError (TransactionInstruction * bytes) :=
  match deriveOrderPda (ci_hashlockBytes input) programId with
  | Throw e => Throw e
  | Ok (orderPda, _) =>
      let data := copy_into IX_CREATE_ORDER 0 junk in
      match writeU64LE (ci_amount input) 8 data with
      | Throw e => Throw e
      | Ok data =>
          match writeU64LE (ci_safetyDeposit input) 16 data with
          | Throw e => Throw e
          | Ok data =>
              let data := copy_into (ci_hashlockBytes input) 24 data in
              let tl := ci_timelockAbsolute input in
              match writeU64LE (if tl <? 0 then tl + Z.shiftl 1 64 else tl) 56 data with
              | Throw e => Throw e
              | Ok data =>
                  let keys := [mkMeta (ci_payer input) true true; mkMeta orderPda false true;
                               mkMeta (ci_mint input) false false; mkMeta (ci_beneficiary input) false false;
                               mkMeta (ci_refundAddress input) false false;
                               mkMeta SystemProgram_programId false false; mkMeta SYSVAR_CLOCK_PUBKEY false false] in
                  Ok (mkInstruction keys programId data, orderPda)
              end
          end
      end
  end.

Definition buildClaimOrderInstruction (junk programId claimer orderPda beneficiaryAccount preimageBytes : bytes)
  : TransactionInstruction :=
  let data := copy_into preimageBytes 8 (copy_into IX_CLAIM_ORDER 0 junk) in
  mkInstruction [mkMeta claimer true true; mkMeta orderPda false true; mkMeta beneficiaryAccount false true;
                 mkMeta SystemProgram_programId false false] programId data.

Definition buildRefundOrderInstruction (programId refunder orderPda refundAccount : bytes) : TransactionInstruction :=
  mkInstruction [mkMeta refunder true true; mkMeta orderPda false true; mkMeta refundAccount false true;
                 mkMeta SystemProgram_programId false false; mkMeta SYSVAR_CLOCK_PUBKEY false false]
    programId IX_REFUND_ORDER.
End Builders.

(** ** The instruction schema *)

Inductive InstructionName : Type := CreateOrder | ClaimOrder | RefundOrder.

Definition instruction_text (i : InstructionName) : string :=
  match i with CreateOrder => "createOrder" | ClaimOrder => "claimOrder" | RefundOrder => "refundOrder" end.

(** Name, signer, writable. *)
Definition CANONICAL_ACCOUNT_ORDERING (i : InstructionName) : list (string * bool * bool) :=
  match i with
  | CreateOrder =>
      [("payer", true, true); ("order_pda", false, true); ("mint", false, false); ("beneficiary", false, false);
       ("refund_address", false, false); ("system_program", false, false); ("clock", false, false)]
  | ClaimOrder =>
      [("claimer", true, true); ("order_pda", false, true); ("beneficiary_token_account", false, true);
       ("system_program", false, false)]
  | RefundOrder =>
      [("refunder", true, true); ("order_pda", false, true); ("refund_account", false, true);
       ("system_program", false, false); ("clock", false, false)]
  end.

Definition INSTRUCTION_DATA_SIZES (i : InstructionName) : nat :=
  match i with CreateOrder => 64 | ClaimOrder => 40 | RefundOrder => 8 end.

Definition DISCRIMINATORS (i : InstructionName) : bytes :=
  match i with CreateOrder => IX_CREATE_ORDER | ClaimOrder => IX_CLAIM_ORDER | RefundOrder => IX_REFUND_ORDER end.

Definition bool_text (b : bool) : string := if b then "true" else "false".

(** One turn of the loop over the accounts. *)
Definition account_errors (i : InstructionName) (n : nat) (exp : string * bool * bool) (act : AccountMeta) : list string :=
  let '(name, signer, writable) := exp in
  let here := instruction_text i +:+ ": account[" +:+ pretty n +:+ "] (" +:+ name +:+ ")" in
  (if Bool.eqb signer (isSigner act) then [] else
     [here +:+ " signer mismatch — expected " +:+ bool_text signer +:+ ", got " +:+ bool_text (isSigner act)]) ++
  (if Bool.eqb writable (isWritable act) then [] else
     [here +:+ " writable mismatch — expected " +:+ bool_text writable +:+ ", got " +:+ bool_text (isWritable act)]).

Fixpoint accounts_errors (i : InstructionName) (n : nat) (exps : list (string * bool * bool)) (acts : list AccountMeta)
  : list string :=
  match exps, acts with
  | exp :: exps', act :: acts' => account_errors i n exp act ++ accounts_errors i (S n) exps' acts'
  | _, _ => []
  end.

Definition validateInstructionSchema (i : InstructionName) (data : bytes) (keys : list AccountMeta) : list string :=
  (if Nat.eqb (length data) (INSTRUCTION_DATA_SIZES i) then [] else
     [instruction_text i +:+ ": instruction data size mismatch — expected " +:+ pretty (INSTRUCTION_DATA_SIZES i) +:+
      " bytes, got " +:+ pretty (length data)]) ++
  (if bool_decide (subarray 0 8 data = DISCRIMINATORS i) then [] else
     [instruction_text i +:+ ": discriminator mismatch — expected " +:+ hex_encode (DISCRIMINATORS i) +:+ ", got " +:+
      hex_encode (subarray 0 8 data)]) ++
  (let expectedAccounts := CANONICAL_ACCOUNT_ORDERING i in
   if negb (Nat.eqb (length keys) (length expectedAccounts)) then
     [instruction_text i +:+ ": account count mismatch — expected " +:+ pretty (length expectedAccounts) +:+ ", got " +:+
      pretty (length keys)]
   else accounts_errors i 0 expectedAccounts keys).

Record IdlCompatibilityResult : Type := mkCompat {
  compatible : bool;
  idl_errors : list string;
  idl_warnings : list string
}.

Definition assertIdlCompatibility (onChainVersion : Z) : IdlCompatibilityResult :=
  let errors :=
    if IDL_VERSION <? onChainVersion then
      ["On-chain account version " +:+ pretty onChainVersion +:+ " is newer than SDK IDL version " +:+
       pretty IDL_VERSION +:+ ". Update @wafflefinance/sdk to read this account."]
    else [] in
  let warnings :=
    if onChainVersion <? IDL_VERSION then
      ["On-chain account version " +:+ pretty onChainVersion +:+ " is older than SDK IDL version " +:+
       pretty IDL_VERSION +:+
       ". The account was created with an older program version; all known fields remain readable."]
    else [] in
  mkCompat (bool_decide (errors = [])) errors warnings.

(** ** Account initialisation checks *)

Inductive InitErrorCode : Type :=
| InvalidAccountSize
| InsufficientRent
| AccountAlreadyInitialized
| UnexpectedAccountBalance
| UnexpectedAccountOwner
| AccountNotRentExempt
| AccountInitVerificationFailed
| SimulationFailed.

Inductive AccountValidationCode : Type :=
| pda_mismatch | wrong_owner | discriminator_mismatch | already_claimed | already_refunded | wrong_status
| idl_version_too_new | account_not_found | rpc_unavailable | insufficient_lamports | stale_account | program_mismatch
| invalid_address | hashlock_mismatch | already_initialized | unexpected_account_balance.

Inductive ClientError : Type :=
| PlainSdkError (e : SolError)
| RpcError (message : string)
| InvalidPublicKey
| SolanaAccountInitError (code : InitErrorCode)
| AccountValidationError (code : AccountValidationCode).

Record AccountInfo : Type := mkAccountInfo { ai_lamports : Z; ai_owner : bytes; ai_data : bytes }.

Inductive SizeMode : Type := exact | at_least.

Definition assertAccountSize (layout : AccountLayoutSpec) (actualSize : nat) (mode : SizeMode) : outcome ClientError nat :=
  let expected := accountSizeFor layout in
  let mismatch :=
    match mode with exact => negb (Nat.eqb actualSize expected) | at_least => Nat.ltb actualSize expected end in
  if mismatch then Throw (SolanaAccountInitError InvalidAccountSize) else Ok expected.

Definition BASE_TRANSACTION_FEE_LAMPORTS : Z := 5000.
Definition DEFAULT_SIGNATURE_FEE_LAMPORTS : Z := 5000.
Definition transactionFee (signatureCount perSignature : Z) : Z :=
  BASE_TRANSACTION_FEE_LAMPORTS + perSignature * signatureCount.

(** A result of [assertPayerCanFund]: required, available, shortfall. *)
Definition assertPayerCanFund (rentLamports : Z) (amountLamports safetyDepositLamports signatureCount : option Z)
    (balanceLamports : Z) : outcome ClientError (Z * Z * Z) :=
  let amount := default 0 amountLamports in
  let deposit := default 0 safetyDepositLamports in
  let fee := transactionFee (default 1 signatureCount) DEFAULT_SIGNATURE_FEE_LAMPORTS in
  let required := rentLamports + amount + deposit + fee in
  if balanceLamports <? required then Throw (SolanaAccountInitError InsufficientRent)
  else Ok (required, balanceLamports, 0).

Inductive UninitialisedState : Type :=
| Absent
| Initialised (lamports : Z) (dataLength : nat) (owner : bytes)
| Prefunded (lamports : Z) (owner : bytes)
| Foreign (lamports : Z) (dataLength : nat) (owner : bytes).

Definition classifyUninitialisedAccount (info : option AccountInfo) (expectedOwner : option bytes) : UninitialisedState :=
  match info with
  | None => Absent
  | Some a =>
      let n := length (ai_data a) in
      if Nat.eqb n 0 then Prefunded (ai_lamports a) (ai_owner a)
      else
        match expectedOwner with
        | Some o => if bool_decide (ai_owner a = o) then Initialised (ai_lamports a) n (ai_owner a)
                    else Foreign (ai_lamports a) n (ai_owner a)
        | None => Initialised (ai_lamports a) n (ai_owner a)
        end
  end.

Definition assertAccountIsUninitialised (state : UninitialisedState) : outcome ClientError unit :=
  match state with
  | Absent => Ok tt
  | Initialised _ _ _ => Throw (SolanaAccountInitError AccountAlreadyInitialized)
  | Prefunded _ _ => Throw (SolanaAccountInitError UnexpectedAccountBalance)
  | Foreign _ _ _ => Throw (SolanaAccountInitError UnexpectedAccountOwner)
  end.

(** [MAINNET_RENT] and the reference minimum, for a size that is not negative. *)
Definition lamportsPerByteYear : Z := 3480.
Definition exemptionThresholdYears : Z := 2.
Definition zeroByteExemption : Z := 890880.
Definition referenceRentExemptMinimum (size : nat) : Z :=
  zeroByteExemption + Z.of_nat size * lamportsPerByteYear * exemptionThresholdYears.

(** The cluster seen through a [Connection]: what it answers in a state, and the
    state a submission leaves. *)
Class Cluster (W : Type) : Type := {
  getAccountInfo : W -> bytes -> outcome string (option AccountInfo);
  getMinimumBalanceForRentExemption : W -> nat -> outcome string Z;
  getBalance : W -> bytes -> outcome string Z;
  signSendConfirm : list TransactionInstruction -> W -> outcome string string * W
}.

Section Client.
Context {W3 : Web3} {W : Type} {CL : Cluster W}.

Definition M := ST W ClientError.

Definition rpc {A} (q : W -> outcome string A) : M A := fun w =>
  match q w with Ok a => (Ok a, w) | Throw e => (Throw (RpcError e), w) end.

Definition lift {A} (o : outcome ClientError A) : M A := fun w => (o, w).
Definition lift_sdk {A} (o : outcome SolError A) : M A := fun w =>
  (match o with Ok a => Ok a | Throw e => Throw (PlainSdkError e) end, w).

Definition getRentExemptMinimum (size : nat) : M Z := rpc (fun w => getMinimumBalanceForRentExemption w size).

Record VerifiedAccount : Type := mkVerified {
  va_address : string;
  va_owner : string;
  va_dataLength : nat;
  va_lamports : Z;
  va_rentExemptMinimum : Z
}.

Definition verifyInitialisedAccount (address : bytes) (layout : AccountLayoutSpec) (expectedOwner : bytes)
    (expectedExtraLamports : option Z) : M VerifiedAccount :=
  let expectedSize := accountSizeFor layout in
  info ← rpc (fun w => getAccountInfo w address);
  match info with
  | None => throw (SolanaAccountInitError AccountInitVerificationFailed)
  | Some a =>
      if negb (bool_decide (ai_owner a = expectedOwner)) then throw (SolanaAccountInitError UnexpectedAccountOwner)
      else if negb (Nat.eqb (length (ai_data a)) expectedSize) then throw (SolanaAccountInitError InvalidAccountSize)
      else
        rent ← getRentExemptMinimum expectedSize;
        let required := rent + default 0 expectedExtraLamports in
        if ai_lamports a <? required then throw (SolanaAccountInitError AccountNotRentExempt)
        else mret (mkVerified (toBase58 address) (toBase58 (ai_owner a)) (length (ai_data a)) (ai_lamports a) rent)
  end.

(** *** Validation before submission *)

Record AccountValidationResult : Type := mkResult {
  valid : bool;
  vr_errors : list AccountValidationCode;
  vr_warnings : list string
}.

Inductive Operation : Type := claim | refund | read.
#[export] Instance Operation_eq_dec : EqDecision Operation.
Proof. solve_decision. Defined.

Definition validateOrderPda (orderId : string) (hashlockBytes programId : bytes) : outcome ClientError unit :=
  match findProgramAddressSync [ORDER_SEED; hashlockBytes] programId with
  | Throw e => Throw (PlainSdkError e)
  | Ok (derived, _) => if bool_decide (toBase58 derived = orderId) then Ok tt else Throw (AccountValidationError pda_mismatch)
  end.

Definition status_errors (operation : Operation) (statusByte : Z) : list AccountValidationCode :=
  match operation with
  | claim | refund =>
      if statusByte =? 1 then [already_claimed] else if statusByte =? 2 then [already_refunded] else []
  | read => []
  end.

(** The checks of an account that exists, given its lamports, owner and data. *)
Definition account_checks (orderId : string) (programId : bytes) (operation : Operation) (hashlockBytes : option bytes)
    (minLamports : option Z) (strict : bool) (a : AccountInfo) : AccountValidationResult :=
  let data := ai_data a in
  let e1 := if bool_decide (ai_owner a = programId) then [] else [wrong_owner] in
  if strict && negb (bool_decide (e1 = [])) then mkResult false e1 []
  else if Nat.ltb (length data) 8 then mkResult false (e1 ++ [discriminator_mismatch]) []
  else
    let e2 := if bool_decide (subarray 0 8 data = HTLC_ORDER_DISCRIMINATOR) then [] else [discriminator_mismatch] in
    if strict && negb (bool_decide (e2 = [])) then mkResult false (e1 ++ e2) []
    else if Nat.ltb (length data) HTLC_ORDER_ACCOUNT_SIZE then mkResult false (e1 ++ e2 ++ [stale_account]) []
    else
      let fields := drop 8 data in
      let compat := assertIdlCompatibility (readUInt8 fields FIELD_OFFSET.version) in
      let e3 := if compatible compat then [] else [idl_version_too_new] in
      if strict && negb (bool_decide (e3 = [])) then mkResult false (e1 ++ e2 ++ e3) []
      else
        let e4 :=
          match hashlockBytes with
          | Some h => if bool_decide (subarray FIELD_OFFSET.hashlock 32 fields = h) then [] else [hashlock_mismatch]
          | None => []
          end in
        if strict && negb (bool_decide (e4 = [])) then mkResult false (e1 ++ e2 ++ e3 ++ e4) (idl_warnings compat)
        else
          let statusByte := readUInt8 fields FIELD_OFFSET.status in
          let known := (statusByte =? 0) || (statusByte =? 1) || (statusByte =? 2) in
          let w5 :=
            if known then [] else
              ["Unknown status byte " +:+ pretty statusByte +:+ " on order " +:+ orderId +:+ " — account may be malformed"] in
          let e5 := if known then status_errors operation statusByte else [] in
          let e6 :=
            match minLamports with
            | Some m => if (0 <? m) && (ai_lamports a <? m) then [insufficient_lamports] else []
            | None => []
            end in
          let errors := e1 ++ e2 ++ e3 ++ e4 ++ e5 ++ e6 in
          mkResult (bool_decide (errors = [])) errors (idl_warnings compat ++ w5).

(** No RPC failure escapes: it is the error [rpc_unavailable]. *)
Definition validateOrderAccountOnChain (w : W) (orderId : string) (programId : bytes) (operation : Operation)
    (hashlockBytes : option bytes) (minLamports : option Z) (strict : bool) : AccountValidationResult :=
  match newPublicKey orderId with
  | None => mkResult false [invalid_address] []
  | Some pk =>
      match getAccountInfo w pk with
      | Throw _ => mkResult false [rpc_unavailable] []
      | Ok None => mkResult false [account_not_found] []
      | Ok (Some a) => account_checks orderId programId operation hashlockBytes minLamports strict a
      end
  end.

Definition address_errors (addrs : list string) : list AccountValidationCode :=
  mjoin ((fun a => match newPublicKey a with Some _ => [] | None => [invalid_address] end) <$> addrs).

Definition validateCreateOrderParams (w : W) (programId : bytes) (sender beneficiary refundAddress mint : string)
    (hashlockBytes : bytes) (expectedOrderId : option string) : outcome SolError AccountValidationResult :=
  let errors := address_errors [sender; beneficiary; refundAddress; mint] in
  if negb (bool_decide (errors = [])) then Ok (mkResult false errors [])
  else
    match findProgramAddressSync [ORDER_SEED; hashlockBytes] programId with
    | Throw e => Throw e
    | Ok (expectedPda, _) =>
        let e1 :=
          match expectedOrderId with
          | Some id => if truthy_string id && negb (bool_decide (id = toBase58 expectedPda)) then [pda_mismatch] else []
          | None => []
          end in
        let e2 :=
          match getAccountInfo w expectedPda with
          | Throw _ => [rpc_unavailable]
          | Ok None => []
          | Ok (Some a) => if Nat.eqb (length (ai_data a)) 0 then [unexpected_account_balance] else [already_initialized]
          end in
        Ok (mkResult (bool_decide (e1 ++ e2 = [])) (e1 ++ e2) [])
    end.

Definition validateClaimOrderParams (w : W) (programId : bytes) (orderId : string) (hashlockBytes : option bytes)
    (minLamports : option Z) : AccountValidationResult :=
  validateOrderAccountOnChain w orderId programId claim hashlockBytes minLamports false.

Definition validateRefundOrderParams (w : W) (programId : bytes) (orderId : string) : AccountValidationResult :=
  validateOrderAccountOnChain w orderId programId refund None None false.

(** *** The client *)

Record SolanaHTLCClient : Type := mkClient {
  programPk : option bytes;  (** [None] in simulation mode *)
  validateBeforeSubmit : bool;
  verifyAfterInit : bool
}.

Record SolanaCreateOrderInput : Type := mkSolanaInput {
  in_sender : string;
  in_beneficiary : string;
  in_refundAddress : string;
  in_mint : string;
  in_amount : Z;
  in_safetyDeposit : Z;
  in_hashlockHex : string;
  in_timelockSeconds : Z
}.

Record CreateResult : Type := mkCreated {
  txSignature : string;
  cr_orderId : string;
  cr_account : option VerifiedAccount
}.

Definition publicKey (s : string) : M bytes := fun w =>
  (match newPublicKey s with Some k => Ok k | None => Throw InvalidPublicKey end, w).

(** The first error of an invalid result is thrown. *)
Definition require_valid (r : AccountValidationResult) : M unit :=
  if valid r then mret tt
  else match vr_errors r with code :: _ => throw (AccountValidationError code) | [] => mret tt end.

Definition read_world : M W := fun w => (Ok w, w).

Definition getOrder (c : SolanaHTLCClient) (orderId : string) : M (option SolanaOrderData) :=
  match programPk c with
  | None => mret None
  | Some _ =>
      pda ← publicKey orderId;
      info ← rpc (fun w => getAccountInfo w pda);
      match info with
      | None => mret None
      | Some a => d ← lift_sdk (deserialiseOrderAccount toBase58 (ai_data a) orderId); mret (Some d)
      end
  end.

Definition _buildSignSend (instructions : list TransactionInstruction) : M string := fun w =>
  match signSendConfirm instructions w with
  | (Ok sig, w') => (Ok sig, w')
  | (Throw e, w') => (Throw (RpcError e), w')
  end.

Definition createOrder (c : SolanaHTLCClient) (junk : bytes) (nowMs : Z) (input : SolanaCreateOrderInput) (signer : bytes)
  : M CreateResult :=
  match programPk c with
  | None =>
      let digits := String.substring 2 16 (in_hashlockHex input) in
      mret (mkCreated ("SIMULATION_" +:+ digits) ("sim-" +:+ digits) None)
  | Some programPk =>
      hashlockBytes ← lift_sdk (hex32ToBuffer (in_hashlockHex input) "hashlock");
      let timelockAbsolute := seconds nowMs + in_timelockSeconds input in
      _ ← (if validateBeforeSubmit c then
             w ← read_world;
             r ← lift_sdk (validateCreateOrderParams w programPk (in_sender input) (in_beneficiary input)
                             (in_refundAddress input) (in_mint input) hashlockBytes None);
             require_valid r
           else mret tt);
      beneficiary ← publicKey (in_beneficiary input);
      refundAddress ← publicKey (in_refundAddress input);
      mint ← publicKey (in_mint input);
      built ← lift_sdk (buildCreateOrderInstruction junk programPk
                          (mkCreateInput signer beneficiary refundAddress mint (in_amount input) (in_safetyDeposit input)
                             hashlockBytes timelockAbsolute));
      sig ← _buildSignSend [built.1];
      account ← (if verifyAfterInit c then v ← verifyInitialisedAccount built.2 htlcOrder programPk None; mret (Some v)
                 else mret None);
      mret (mkCreated sig (toBase58 built.2) account)
  end.

(** Declared, and called by no method. *)
Definition _preflightCreateOrder (programPk orderPda payer : bytes) (amount safetyDeposit : Z) : M Z :=
  rentLamports ← getRentExemptMinimum HTLC_ORDER_ACCOUNT_SIZE;
  balanceLamports ← rpc (fun w => getBalance w payer);
  _ ← lift (assertPayerCanFund rentLamports (Some amount) (Some safetyDeposit) (Some 1) balanceLamports);
  existing ← rpc (fun w => getAccountInfo w orderPda);
  _ ← lift (assertAccountIsUninitialised (classifyUninitialisedAccount existing (Some programPk)));
  mret rentLamports.

Definition claimOrder (c : SolanaHTLCClient) (junk : bytes) (orderId preimage : string) (signer : bytes) : M string :=
  match programPk c with
  | None => mret ("SIMULATION_CLAIM_" +:+ String.substring 0 8 orderId)
  | Some programPk =>
      orderPda ← publicKey orderId;
      preimageBytes ← lift_sdk (hex32ToBuffer preimage "preimage");
      _ ← (if validateBeforeSubmit c then
             w ← read_world; require_valid (validateClaimOrderParams w programPk orderId None None)
           else mret tt);
      _buildSignSend [buildClaimOrderInstruction junk programPk signer orderPda signer preimageBytes]
  end.

Definition refundOrder (c : SolanaHTLCClient) (orderId : string) (signer : bytes) : M string :=
  match programPk c with
  | None => mret ("SIMULATION_REFUND_" +:+ String.substring 0 8 orderId)
  | Some programPk =>
      orderPda ← publicKey orderId;
      _ ← (if validateBeforeSubmit c then
             w ← read_world; require_valid (validateRefundOrderParams w programPk orderId)
           else mret tt);
      _buildSignSend [buildRefundOrderInstruction programPk signer orderPda signer]
  end.
End Client.

(** ** Facts: instructions *)

Lemma copy_exact src off buf :
  (off + length src <= length buf)%nat -> copy_into src off buf = write_at off src buf.
Proof.
  intros H. unfold copy_into, write_at. rewrite Nat.min_l by lia. by rewrite (take_ge src).
Qed.

Lemma length_write_at off src buf : (off + length src <= length buf)%nat -> length (write_at off src buf) = length buf.
Proof. intros H. unfold write_at. rewrite !length_app, length_take, length_drop. lia. Qed.

(** Writing over old memory, front to back. *)
Lemma write_over off src acc old :
  length acc = off -> (length src <= length old)%nat ->
  write_at off src (acc ++ old) = (acc ++ src) ++ drop (length src) old.
Proof.
  intros <- H. unfold write_at. rewrite take_app_length, drop_app_ge by lia.
  replace (length acc + length src - length acc)%nat with (length src) by lia. by rewrite app_assoc.
Qed.

Lemma writeU64_over v off acc old :
  0 <= v < 2 ^ 64 -> length acc = off -> (8 <= length old)%nat ->
  writeU64LE v off (acc ++ old) = Ok ((acc ++ u64_bytes v) ++ drop 8 old).
Proof.
  intros Hv Hoff Ho. destruct (u64_halves v Hv) as (H1 & H2 & _). unfold writeU64LE, writeUInt32LE.
  rewrite (proj2 (Z.leb_le 0 _)), (proj2 (Z.ltb_lt _ (2 ^ 32))) by lia. cbn [andb].
  rewrite write_over by (done || (cbn; lia)).
  rewrite (proj2 (Z.leb_le 0 _)), (proj2 (Z.ltb_lt _ (2 ^ 32))) by lia. cbn [andb].
  rewrite write_over by (rewrite ?length_app, ?length_drop; cbn; lia).
  rewrite drop_drop. unfold u64_bytes. by rewrite !app_assoc.
Qed.

(** A signed read of a value written in two's complement. *)
Lemma read_i64_wrap v off pre post :
  - 2 ^ 63 <= v < 2 ^ 63 -> length pre = off -> readI64LE (pre ++ u64_bytes (v mod 2 ^ 64) ++ post) off = v.
Proof.
  intros Hv Hoff. destruct (Z.ltb_spec v 0) as [Hn|Hp]; [|rewrite Z.mod_small by lia; apply read_i64; done || lia].
  replace (v mod 2 ^ 64) with (v + 2 ^ 64) by (apply (Z.mod_unique _ _ (-1)); lia). set (u := v + 2 ^ 64).
  destruct (u64_halves u) as (H1 & H2 & H3); [lia|]. unfold readI64LE, readInt32LE, u64_bytes, u32_bytes.
  rewrite <- app_assoc. cbn [app]. rewrite (read32_mid off) by done.
  assert (forall a b c d rest, pre ++ a :: b :: c :: d :: rest = (pre ++ [a; b; c; d]) ++ rest) as E
    by (intros; by rewrite <- app_assoc).
  rewrite E, (read32_mid (off + 4)) by (rewrite length_app; cbn; lia). rewrite !u32_value by done.
  assert (2 ^ 31 <= Z.shiftr u 32) by (rewrite Z.shiftr_div_pow2 by lia; apply Z.div_le_lower_bound; lia).
  rewrite (proj2 (Z.ltb_ge _ _)) by lia. rewrite lor_halves by done. lia.
Qed.

(** Roles of an account list, and of the canonical ordering. *)
Definition roles (keys : list AccountMeta) : list (bool * bool) := (fun k => (isSigner k, isWritable k)) <$> keys.
Definition canonical_roles (i : InstructionName) : list (bool * bool) :=
  (fun e => (e.1.2, e.2)) <$> CANONICAL_ACCOUNT_ORDERING i.

Lemma accounts_errors_nil i exps : forall n acts, length acts = length exps ->
  (accounts_errors i n exps acts = [] <-> roles acts = (fun e => (e.1.2, e.2)) <$> exps).
Proof.
  induction exps as [|[[name s] w] exps IH]; intros n [|a acts] Hl; try done.
  cbn [accounts_errors roles fmap list_fmap fst snd] in *. specialize (IH (S n) acts ltac:(cbn in Hl; lia)).
  unfold roles in IH. rewrite app_nil, IH. unfold account_errors.
  destruct s, w, (isSigner a), (isWritable a); cbn [Bool.eqb app]; split; intros H; simplify_eq; try done; try (by destruct H);
    try (split; [done|congruence]); destruct H as [H1 H2]; simplify_eq; by rewrite H2.
Qed.

(** The schema check passes exactly on the declared size, discriminator and
    account roles. *)
Lemma schema_iff i data keys :
  validateInstructionSchema i data keys = [] <->
  length data = INSTRUCTION_DATA_SIZES i /\ take 8 data = DISCRIMINATORS i /\ roles keys = canonical_roles i.
Proof.
  unfold validateInstructionSchema, subarray. rewrite drop_0, !app_nil.
  assert (forall (b : bool) (s : string), (if b then [] else [s]) = [] <-> b = true) as Hif by (by intros []).
  rewrite !Hif, Nat.eqb_eq, bool_decide_eq_true.
  destruct (Nat.eqb (length keys) (length (CANONICAL_ACCOUNT_ORDERING i))) eqn:E; cbn [negb].
  - apply Nat.eqb_eq in E. by rewrite accounts_errors_nil.
  - apply Nat.eqb_neq in E. split; [by intros (_ & _ & ?)|]. intros (_ & _ & H). destruct E.
    apply (f_equal length) in H. unfold roles, canonical_roles in H. by rewrite !length_fmap in H.
Qed.

Section InstructionFacts.
Context `{W3 : Web3}.

(** Every argument of [create_order] is read back from its data, a negative time
    included; the bytes do not depend on the memory the buffer was made of. *)
Lemma create_instruction junk programId input pda bump :
  length junk = 64%nat -> deriveOrderPda (ci_hashlockBytes input) programId = Ok (pda, bump) ->
  length (ci_hashlockBytes input) = 32%nat -> 0 <= ci_amount input < 2 ^ 64 -> 0 <= ci_safetyDeposit input < 2 ^ 64 ->
  - 2 ^ 63 <= ci_timelockAbsolute input < 2 ^ 63 ->
  exists ix, buildCreateOrderInstruction junk programId input = Ok (ix, pda) /\
    ix_data ix = IX_CREATE_ORDER ++ u64_bytes (ci_amount input) ++ u64_bytes (ci_safetyDeposit input) ++
                 ci_hashlockBytes input ++ u64_bytes (ci_timelockAbsolute input mod 2 ^ 64) /\
    validateInstructionSchema CreateOrder (ix_data ix) (ix_keys ix) = [] /\
    readU64LE (ix_data ix) 8 = ci_amount input /\ readU64LE (ix_data ix) 16 = ci_safetyDeposit input /\
    subarray 24 32 (ix_data ix) = ci_hashlockBytes input /\ readI64LE (ix_data ix) 56 = ci_timelockAbsolute input.
Proof.
  intros Hj Hpda Hh Ha Hd Ht. unfold buildCreateOrderInstruction. rewrite Hpda.
  rewrite copy_exact by (rewrite Hj; cbn; lia). change junk with ([] ++ junk) at 1.
  rewrite write_over by (done || (rewrite Hj; cbn; lia)). rewrite app_nil_l.
  change (length IX_CREATE_ORDER) with 8%nat.
  rewrite (writeU64_over _ 8) by (done || (rewrite length_drop, Hj; lia)). rewrite drop_drop.
  rewrite (writeU64_over _ 16) by (done || (rewrite ?length_drop, ?Hj; lia)). rewrite drop_drop.
  rewrite copy_exact by (rewrite !length_app, length_drop, Hj, Hh; cbn; lia).
  rewrite (write_over 24) by (done || (rewrite length_drop, Hj, Hh; lia)). rewrite Hh, drop_drop.
  set (tl := ci_timelockAbsolute input) in *.
  assert ((if tl <? 0 then tl + Z.shiftl 1 64 else tl) = tl mod 2 ^ 64) as ->.
  { change (Z.shiftl 1 64) with (2 ^ 64). destruct (tl <? 0) eqn:E; bools.
    - apply (Z.mod_unique _ _ (-1)); lia.
    - rewrite Z.mod_small by lia. done. }
  rewrite (writeU64_over _ 56); [|apply Z.mod_pos_bound; lia|by rewrite !length_app, Hh|by rewrite length_drop, Hj].
  rewrite drop_drop, drop_ge by (rewrite Hj; lia). rewrite app_nil_r, <- !app_assoc.
  eexists. split; [done|]. cbn [ix_data ix_keys]. split; [done|].
  assert (0 <= tl mod 2 ^ 64 < 2 ^ 64) as Hm by (apply Z.mod_pos_bound; lia).
  split; [|split; [|split; [|split]]].
  - apply schema_iff. split; [by rewrite !length_app, Hh|done].
  - by apply (read_u64 (ci_amount input) 8 IX_CREATE_ORDER).
  - rewrite app_assoc. by apply (read_u64 (ci_safetyDeposit input) 16).
  - rewrite 2!app_assoc. by apply subarray_mid.
  - rewrite 3!app_assoc, <- (app_nil_r (_ ++ u64_bytes (tl mod _))), <- (app_assoc _ (u64_bytes (tl mod _))).
    apply read_i64_wrap; [done|]. by rewrite !length_app, Hh.
Qed.

Lemma claim_instruction junk programId claimer pda acct preimage :
  length junk = 40%nat -> length preimage = 32%nat ->
  let ix := buildClaimOrderInstruction junk programId claimer pda acct preimage in
  ix_data ix = IX_CLAIM_ORDER ++ preimage /\ validateInstructionSchema ClaimOrder (ix_data ix) (ix_keys ix) = [].
Proof.
  intros Hj Hp ix. assert (ix_data ix = IX_CLAIM_ORDER ++ preimage) as E.
  { unfold ix, buildClaimOrderInstruction. cbn [ix_data]. rewrite (copy_exact IX_CLAIM_ORDER) by (rewrite Hj; cbn; lia).
    change junk with ([] ++ junk) at 1. rewrite (write_over 0) by (done || (rewrite Hj; cbn; lia)).
    rewrite app_nil_l, copy_exact by (rewrite length_app, length_drop, Hj, Hp; cbn; lia).
    rewrite (write_over 8) by (done || (rewrite length_drop, Hj, Hp; cbn; lia)).
    rewrite drop_drop, Hp, drop_ge by (rewrite Hj; cbn; lia). by rewrite app_nil_r. }
  split; [done|]. rewrite E. apply schema_iff. split; [by rewrite length_app, Hp|done].
Qed.

Lemma refund_instruction programId refunder pda acct :
  let ix := buildRefundOrderInstruction programId refunder pda acct in
  validateInstructionSchema RefundOrder (ix_data ix) (ix_keys ix) = [].
Proof. by apply schema_iff. Qed.
End InstructionFacts.

(** ** Facts: validation and submission *)

Section ClientFacts.
Context `{W3 : Web3} {W : Type} `{CL : Cluster W}.

(** What a claim or a refund needs of the escrow account: an order account of the
    program, readable by this version, that is still active.  A status byte that
    is none of the three is let through with a warning. *)
Definition escrow_open (programId : bytes) (orderId : string) (a : AccountInfo) : Prop :=
  ai_owner a = programId /\ (HTLC_ORDER_ACCOUNT_SIZE <= length (ai_data a))%nat /\
  match deserialiseOrderAccount toBase58 (ai_data a) orderId with
  | Ok d => so_status d = 0
  | Throw _ => readUInt8 (drop 8 (ai_data a)) FIELD_OFFSET.status ∉ [0; 1; 2]
  end.

Lemma compatible_iff v : compatible (assertIdlCompatibility v) = (v <=? IDL_VERSION).
Proof. unfold assertIdlCompatibility. cbn [compatible]. rewrite Z.leb_antisym. by destruct (IDL_VERSION <? v). Qed.

Lemma account_checks_sound orderId programId op h m strict a :
  op <> read -> valid (account_checks orderId programId op h m strict a) = true ->
  escrow_open programId orderId a /\
  (forall hb, h = Some hb -> subarray FIELD_OFFSET.hashlock 32 (drop 8 (ai_data a)) = hb) /\
  (forall n, m = Some n -> n <= 0 \/ n <= ai_lamports a).
Proof.
  intros Hop. unfold account_checks.
  destruct (strict && _); [done|]. destruct (Nat.ltb (length (ai_data a)) 8) eqn:L1; [done|].
  destruct (strict && _); [done|]. destruct (Nat.ltb _ HTLC_ORDER_ACCOUNT_SIZE) eqn:L2; [done|].
  apply Nat.ltb_ge in L2. destruct (strict && _); [done|]. destruct (strict && _); [done|].
  cbn [valid]. intros V%bool_decide_eq_true. rewrite !app_nil in V. destruct V as (V1 & V2 & V3 & V4 & V5 & V6).
  assert (forall (b : bool) (c : AccountValidationCode), (if b then [] else [c]) = [] -> b = true) as Hif by (by intros []).
  apply Hif, bool_decide_eq_true in V1. apply Hif in V2. apply Hif in V3. rewrite compatible_iff in V3.
  pose proof V2 as V2'. apply bool_decide_eq_true in V2'.
  split; [|split].
  - split; [done|split; [done|]]. unfold deserialiseOrderAccount. rewrite (proj2 (Nat.ltb_ge _ _)) by done.
    rewrite V2. cbn [negb]. rewrite Z.ltb_antisym, V3. cbn [negb].
    revert V5. set (st := readUInt8 (drop 8 (ai_data a)) FIELD_OFFSET.status). intros V5.
    destruct (bool_decide (st ∈ [0; 1; 2])) eqn:B; cbn [negb].
    + cbn [so_status]. apply bool_decide_eq_true in B. rewrite !elem_of_cons, elem_of_nil in B.
      destruct B as [B|[B|[B|[]]]]; [done|exfalso..]; rewrite B in V5; by destruct op.
    + by apply bool_decide_eq_false in B.
  - intros hb ->. by apply Hif, bool_decide_eq_true in V4.
  - intros n ->. destruct ((0 <? n) && (ai_lamports a <? n)) eqn:B; [done|]. lia.
Qed.

Lemma checks_world w orderId programId op h m strict :
  op <> read -> valid (validateOrderAccountOnChain w orderId programId op h m strict) = true ->
  exists pda a, newPublicKey orderId = Some pda /\ getAccountInfo w pda = Ok (Some a) /\ escrow_open programId orderId a /\
    (forall hb, h = Some hb -> subarray FIELD_OFFSET.hashlock 32 (drop 8 (ai_data a)) = hb).
Proof.
  intros Hop. unfold validateOrderAccountOnChain. destruct (newPublicKey orderId) as [pk|]; [|done].
  destruct (getAccountInfo w pk) as [[a|]|] eqn:E; try done. intros V.
  destruct (account_checks_sound _ _ _ _ _ _ _ Hop V) as (H1 & H2 & _). by exists pk, a.
Qed.

(** A result is invalid only with an error to show. *)
Lemma invalid_has_error w orderId programId op h m strict :
  let r := validateOrderAccountOnChain w orderId programId op h m strict in valid r = true \/ vr_errors r <> [].
Proof.
  unfold validateOrderAccountOnChain. destruct (newPublicKey orderId) as [pk|]; [|by right].
  destruct (getAccountInfo w pk) as [[a|]|]; [|by right..]. unfold account_checks.
  assert (forall (l : list AccountValidationCode), strict && negb (bool_decide (l = [])) = true -> l <> []) as Hs
    by (intros l Hl ->; by destruct strict).
  destruct (strict && _) eqn:S1; [right; exact (Hs _ S1)|clear S1]. destruct (Nat.ltb _ 8); [right; intros [_ [=]]%app_nil|].
  destruct (strict && _) eqn:S2; [right; intros [_ H]%app_nil; exact (Hs _ S2 H)|clear S2].
  destruct (Nat.ltb _ HTLC_ORDER_ACCOUNT_SIZE); [right; intros [_ [_ [=]]%app_nil]%app_nil|].
  destruct (strict && _) eqn:S3; [right; intros [_ [_ H]%app_nil]%app_nil; exact (Hs _ S3 H)|clear S3].
  destruct (strict && _) eqn:S4; [right; intros [_ [_ [_ H]%app_nil]%app_nil]%app_nil; exact (Hs _ S4 H)|clear S4].
  cbn [valid vr_errors]. match goal with |- context[bool_decide (?l = [])] => destruct l end; [by left|by right].
Qed.

Lemma require_valid_inv w orderId programId op h m strict (w0 : W) r w1 :
  require_valid (validateOrderAccountOnChain w orderId programId op h m strict) w0 = (r, w1) ->
  w1 = w0 /\ ((exists e, r = Throw e) \/
    (r = Ok tt /\ valid (validateOrderAccountOnChain w orderId programId op h m strict) = true)).
Proof.
  unfold require_valid. pose proof (invalid_has_error w orderId programId op h m strict) as Hi. cbn in Hi.
  destruct (valid _) eqn:V; [intros [= <- <-]; by eauto|]. destruct Hi as [?|Hi]; [done|].
  destruct (vr_errors _) as [|c cs]; [done|]. intros [= <- <-]. by eauto.
Qed.

(** A claim with checks: nothing is sent, or the escrow is open and one
    conforming instruction that carries the preimage is. *)
Lemma claim_checked c p junk orderId preimage signer w r w' :
  programPk c = Some p -> validateBeforeSubmit c = true -> length junk = 40%nat ->
  claimOrder c junk orderId preimage signer w = (r, w') ->
  (w' = w /\ exists e, r = Throw e) \/
  exists pda a ix, newPublicKey orderId = Some pda /\ getAccountInfo w pda = Ok (Some a) /\ escrow_open p orderId a /\
    validateInstructionSchema ClaimOrder (ix_data ix) (ix_keys ix) = [] /\
    bufferToHex (drop 8 (ix_data ix)) = toLowerCase preimage /\ _buildSignSend [ix] w = (r, w').
Proof.
  intros Hp Hv Hj. unfold claimOrder, mbind, st_bind, publicKey, lift_sdk, read_world, mret, st_ret. rewrite Hp, Hv.
  destruct (newPublicKey orderId) as [pda|] eqn:K; [|intros [= <- <-]; left; eauto].
  destruct (hex32ToBuffer preimage "preimage") as [pre|] eqn:P; [|intros [= <- <-]; left; eauto].
  assert (validateHashlock preimage = true) as Hh by (unfold hex32ToBuffer in P; by destruct (validateHashlock _)).
  destruct (hex32_round preimage "preimage" Hh) as (pre' & P' & Lp & Hx). rewrite P in P'. injection P' as <-.
  destruct (require_valid _ w) as [r1 w1] eqn:R. apply require_valid_inv in R as [-> [[e ->]|[-> V]]];
    [intros [= <- <-]; left; eauto|].
  intros S. right. apply checks_world in V as (pda' & a & K' & A & H1 & _); [|done]. rewrite K in K'. injection K' as <-.
  destruct (claim_instruction junk p signer pda signer pre Hj Lp) as [D1 D2].
  exists pda, a. eexists. split; [done|split; [done|split; [done|split; [exact D2|split; [|exact S]]]]].
  rewrite D1. by rewrite <- Hx.
Qed.

(** The same of a refund. *)
Lemma refund_checked c p orderId signer w r w' :
  programPk c = Some p -> validateBeforeSubmit c = true ->
  refundOrder c orderId signer w = (r, w') ->
  (w' = w /\ exists e, r = Throw e) \/
  exists pda a ix, newPublicKey orderId = Some pda /\ getAccountInfo w pda = Ok (Some a) /\ escrow_open p orderId a /\
    validateInstructionSchema RefundOrder (ix_data ix) (ix_keys ix) = [] /\ _buildSignSend [ix] w = (r, w').
Proof.
  intros Hp Hv. unfold refundOrder, mbind, st_bind, publicKey, read_world, mret, st_ret. rewrite Hp, Hv.
  destruct (newPublicKey orderId) as [pda|] eqn:K; [|intros [= <- <-]; left; eauto].
  destruct (require_valid _ w) as [r1 w1] eqn:R. apply require_valid_inv in R as [-> [[e ->]|[-> V]]];
    [intros [= <- <-]; left; eauto|].
  intros S. right. apply checks_world in V as (pda' & a & K' & A & H1 & _); [|done]. rewrite K in K'. injection K' as <-.
  exists pda, a. eexists. split; [done|split; [done|split; [done|split; [|exact S]]]]. apply refund_instruction.
Qed.

Lemma verify_ok address layout owner extra (w : W) v w' :
  verifyInitialisedAccount address layout owner extra w = (Ok v, w') ->
  w' = w /\ exists a rent, getAccountInfo w address = Ok (Some a) /\ ai_owner a = owner /\
    length (ai_data a) = accountSizeFor layout /\
    getMinimumBalanceForRentExemption w (accountSizeFor layout) = Ok rent /\
    rent + default 0 extra <= ai_lamports a /\ va_lamports v = ai_lamports a /\ va_rentExemptMinimum v = rent.
Proof.
  unfold verifyInitialisedAccount, getRentExemptMinimum, mbind, st_bind, rpc, throw, mret, st_ret.
  destruct (getAccountInfo w address) as [[a|]|]; try done.
  destruct (bool_decide (ai_owner a = owner)) eqn:O; cbn [negb]; [|done]. apply bool_decide_eq_true in O.
  destruct (Nat.eqb _ _) eqn:L; cbn [negb]; [|done]. apply Nat.eqb_eq in L.
  destruct (getMinimumBalanceForRentExemption w _) as [rent|]; [|done].
  destruct (ai_lamports a <? _) eqn:B; [done|]. intros [= <- <-]. split; [done|]. exists a, rent. bools. done.
Qed.

(** An order reported with an account was verified in the state the submission
    left: its address is derived from the hashlock, its owner is the program, its
    size is the layout's and its balance covers the rent. *)
Lemma created_verified c p junk now input signer (w : W) res w' v :
  programPk c = Some p -> createOrder c junk now input signer w = (Ok res, w') -> cr_account res = Some v ->
  exists h pda bump a rent, hex32ToBuffer (in_hashlockHex input) "hashlock" = Ok h /\ deriveOrderPda h p = Ok (pda, bump) /\
    cr_orderId res = toBase58 pda /\ getAccountInfo w' pda = Ok (Some a) /\ ai_owner a = p /\
    length (ai_data a) = HTLC_ORDER_ACCOUNT_SIZE /\
    getMinimumBalanceForRentExemption w' HTLC_ORDER_ACCOUNT_SIZE = Ok rent /\ rent <= ai_lamports a.
Proof.
  intros Hp. unfold createOrder, mbind, st_bind, publicKey, lift_sdk, read_world, mret, st_ret. rewrite Hp.
  destruct (hex32ToBuffer _ _) as [h|]; [|done].
  match goal with |- context[let (_, _) := ?t in _] => destruct t as [[u|e] w1]; [|by intros [=]] end.
  destruct (newPublicKey (in_beneficiary input)) as [b|]; [|done].
  destruct (newPublicKey (in_refundAddress input)) as [ra|]; [|done].
  destruct (newPublicKey (in_mint input)) as [mi|]; [|done].
  destruct (buildCreateOrderInstruction _ _ _) as [[ix pda]|] eqn:B; [|done].
  destruct (_buildSignSend _ w1) as [[sig|] w2] eqn:S; [|done]. cbn [fst snd].
  destruct (verifyAfterInit c); [|by intros [= <- _]].
  destruct (verifyInitialisedAccount _ _ _ _ w2) as [[v'|] w3] eqn:V; [|done]. intros [= <- <-] _.
  apply verify_ok in V as (-> & a & rent & H1 & H2 & H3 & H4 & H5 & _). cbn in H5. rewrite Z.add_0_r in H5.
  unfold buildCreateOrderInstruction in B. cbn [ci_hashlockBytes] in B.
  destruct (deriveOrderPda h p) as [[pda' bump]|] eqn:D; [|done].
  repeat (case_match; [|done]). injection B as _ <-. by exists h, pda', bump, a, rent.
Qed.
End ClientFacts.

(** ** The client's guarantees *)

(** A claim submitted with validation on is a claim of a live escrow: either
    nothing reaches the cluster and the call throws, or the account at the order's
    address is owned by the program, is at least as large as the layout, carries
    the order discriminator and a readable version, and is still active (or has a
    status byte the reader itself refuses), and exactly one instruction is sent,
    which passes the schema check and carries the given preimage. *)
Lemma claim_submits_checked `{W3 : Web3} {W : Type} `{CL : Cluster W} c p junk orderId preimage signer w r w' :
  programPk c = Some p -> validateBeforeSubmit c = true -> length junk = 40%nat ->
  claimOrder c junk orderId preimage signer w = (r, w') ->
  (w' = w /\ exists e, r = Throw e) \/
  exists pda a ix, newPublicKey orderId = Some pda /\ getAccountInfo w pda = Ok (Some a) /\ escrow_open p orderId a /\
    validateInstructionSchema ClaimOrder (ix_data ix) (ix_keys ix) = [] /\
    bufferToHex (drop 8 (ix_data ix)) = toLowerCase preimage /\ _buildSignSend [ix] w = (r, w').
Proof. apply claim_checked. Qed.

(** A cluster that keeps accounts and the instructions it was sent, and keys
    written in hexadecimal. *)
Module Demo.
Record Ledger : Type := mkLedger { accounts : list (bytes * AccountInfo); sent : list TransactionInstruction }.

#[export] Instance hex_keys : Web3 := {
  toBase58 := hex_encode;
  newPublicKey s := let b := hex_decode s in if Nat.eqb (length b) 32 then Some b else None;
  findProgramAddressSync seeds _ := Ok (default [] (seeds !! 1%nat), 255);
  SystemProgram_programId := replicate 32 0;
  SYSVAR_CLOCK_PUBKEY := replicate 32 6
}.

#[export] Instance ledger_cluster : Cluster Ledger := {
  getAccountInfo l k := Ok (snd <$> List.find (fun e => bool_decide (e.1 = k)) (accounts l));
  getMinimumBalanceForRentExemption _ n := Ok (referenceRentExemptMinimum n);
  getBalance _ _ := Ok 0;
  signSendConfirm ixs l := (Ok "sig", mkLedger (accounts l) (sent l ++ ixs))
}.

Definition program : bytes := replicate 32 7.
Definition hash : string := "0x000102030405060708090a0b0c0d0e0f101112131415161718191a1b1c1d1e1f".
Definition order : bytes := hex_decode (String.substring 2 64 hash).
Definition order_account (status : Z) : AccountInfo :=
  let key := hex_encode (replicate 32 9) in
  match buildOrderAccount hex_decode (mkOrderFields 0 key key key key 1000 10 hash 1900000000 status None) with
  | Ok data => mkAccountInfo 2470800 program data
  | Throw _ => mkAccountInfo 0 [] []
  end.
Definition holding (status : Z) : Ledger := mkLedger [(order, order_account status)] [].
Definition careful : SolanaHTLCClient := mkClient (Some program) true true.
Definition ordinary : SolanaHTLCClient := mkClient (Some program) false true.
End Demo.
Import Demo.

Lemma claim_submits_checked_witness :
  let w := holding 0 in
  let w' := (claimOrder careful (replicate 40 0) (hex_encode order) hash (replicate 32 1) w).2 in
  length (sent w') = 1%nat /\
  ((w' = w /\ exists e, (Ok "sig" : outcome ClientError string) = Throw e) \/
   exists pda a ix, newPublicKey (hex_encode order) = Some pda /\ getAccountInfo w pda = Ok (Some a) /\
     escrow_open program (hex_encode order) a /\ validateInstructionSchema ClaimOrder (ix_data ix) (ix_keys ix) = [] /\
     bufferToHex (drop 8 (ix_data ix)) = toLowerCase hash /\ _buildSignSend [ix] w = (Ok "sig", w')).
Proof.
  intros w w'. split; [vm_compute; reflexivity|].
  apply (claim_submits_checked careful program (replicate 40 0) (hex_encode order) hash (replicate 32 1));
    [reflexivity|reflexivity|reflexivity|vm_compute; reflexivity].
Defined.

(** Claims against a settled, foreign or missing escrow send nothing. *)
Example settled_escrow_refused :
  claimOrder careful (replicate 40 0) (hex_encode order) hash (replicate 32 1) (holding 1) =
    (Throw (AccountValidationError already_claimed), holding 1) /\
  claimOrder careful (replicate 40 0) (hex_encode order) hash (replicate 32 1) (holding 2) =
    (Throw (AccountValidationError already_refunded), holding 2) /\
  claimOrder careful (replicate 40 0) (hex_encode order) hash (replicate 32 1) (mkLedger [] []) =
    (Throw (AccountValidationError account_not_found), mkLedger [] []).
Proof. by vm_compute. Qed.

(** The solvency and re-initialisation checks are not on the path of a creation:
    a payer that holds nothing, creating an order at an address that already holds
    one, is submitted, although the preflight refuses it. *)
Example create_skips_preflight :
  let input := mkSolanaInput (hex_encode (replicate 32 1)) (hex_encode (replicate 32 2)) (hex_encode (replicate 32 1))
                 (hex_encode (replicate 32 3)) 1000 10 hash 3600 in
  (_preflightCreateOrder program order (replicate 32 1) 1000 10 (holding 0)).1 = Throw (SolanaAccountInitError InsufficientRent) /\
  is_ok (createOrder ordinary (replicate 64 0) 1700000000000 input (replicate 32 1) (holding 0)).1 = true /\
  length (sent (createOrder ordinary (replicate 64 0) 1700000000000 input (replicate 32 1) (holding 0)).2) = 1%nat.
Proof. by vm_compute. Qed.

(** The documented rent of the three account sizes. *)
Example documented_rent :
  referenceRentExemptMinimum 0 = 890880 /\ referenceRentExemptMinimum (accountSizeFor orderRegistry) = 1002240 /\
  referenceRentExemptMinimum HTLC_ORDER_ACCOUNT_SIZE = 2470800.
Proof. by vm_compute. Qed.
