(* ===== verification/Settlement.v ===== *)
(** * Settlement service

    relayer/src/services/settlement-service.ts: a settlement action is run
    through the retry engine, with a record of its transaction in the
    transaction-state store, so that an order is not submitted twice.

    [settle] is a state machine that stops at its awaits: the action, and the
    sleep between two attempts.  Any number of calls may be in flight, sharing
    the store, the breakers of the engine and the index of contract keys, and a
    restart may come at any moment: it loses the calls in flight, the breakers
    and the index, and reads the store back from disk. *)

From S2P Require Import Prelude JsMap FileStore RetryEngine TxStateStore.

#[export] Instance tx_keys : FileKeys TxStateRecord := plain_keys _.

(** ** Calls *)

(** [onTxHash] may read and change the store, and may throw. *)
Record SettleOptions : Type := mkSettle {
  so_orderId : string;
  so_direction : string;
  so_correlationId : string;
  so_route : option string;
  so_onTxHash : option (Z -> string -> ST TxWorld Thrown unit);
  so_classifier : option FaultClassifier;
  so_maxAttempts : option Z;
  so_contractKey : option string
}.

Record SettleResult : Type := mkSettleResult {
  sr_txHash : string;
  sr_attempts : Z;
  sr_lastFaultClass : option FaultClass
}.

Inductive SettleError : Type :=
| SettlementError (orderId message : string) (faultCategory : FaultClass) (attempts : Z)
| StoreError (e : TxError).

(** Where a call in flight stands. *)
Inductive Stage : Type := InAction | Sleeping | Answered.

#[export] Instance Stage_eq_dec : EqDecision Stage.
Proof. solve_decision. Defined.

Record Flight : Type := mkFlight {
  fl_opts : SettleOptions;
  fl_attempts : Z;
  fl_lastFault : FaultClass;
  fl_stage : Stage
}.

(** The service, and a log of what happened: the actions begun, by order, the
    hashes they returned, and the answers of [settle]. *)
Record Service : Type := mkService {
  sv_world : TxWorld;
  sv_breakers : Breakers;
  sv_index : list (string * string);
  sv_flights : list Flight;
  sv_begun : list string;
  sv_sent : list (string * string);
  sv_answers : list (string * outcome SettleError SettleResult)
}.

Definition newService : Service := mkService empty_tx [] [] [] [] [] [].

Definition with_world (w : TxWorld) (s : Service) : Service :=
  mkService w (sv_breakers s) (sv_index s) (sv_flights s) (sv_begun s) (sv_sent s) (sv_answers s).
Definition with_breakers (b : Breakers) (s : Service) : Service :=
  mkService (sv_world s) b (sv_index s) (sv_flights s) (sv_begun s) (sv_sent s) (sv_answers s).
Definition with_flights (fs : list Flight) (s : Service) : Service :=
  mkService (sv_world s) (sv_breakers s) (sv_index s) fs (sv_begun s) (sv_sent s) (sv_answers s).
Definition add_begun (o : string) (s : Service) : Service :=
  mkService (sv_world s) (sv_breakers s) (sv_index s) (sv_flights s) (sv_begun s ++ [o]) (sv_sent s) (sv_answers s).
Definition add_sent (o h : string) (s : Service) : Service :=
  mkService (sv_world s) (sv_breakers s) (sv_index s) (sv_flights s) (sv_begun s) (sv_sent s ++ [(o, h)]) (sv_answers s).
Definition answer (o : string) (a : outcome SettleError SettleResult) (s : Service) : Service :=
  mkService (sv_world s) (sv_breakers s) (sv_index s) (sv_flights s) (sv_begun s) (sv_sent s) (sv_answers s ++ [(o, a)]).
Definition set_index (k o : string) (s : Service) : Service :=
  mkService (sv_world s) (sv_breakers s) (jm_set k o (sv_index s)) (sv_flights s) (sv_begun s) (sv_sent s) (sv_answers s).

(** Run a store operation whose errors are ignored. *)
Definition quietly {A} (m : TM A) (s : Service) : Service := with_world (m (sv_world s)).2 s.

Definition truthy (x : option string) : option string :=
  match x with Some h => if truthy_string h then Some h else None | None => None end.

Section Settle.
Context (cfg : EngineCfg) (serviceMaxAttempts : Z).

Definition action_name (o : SettleOptions) : string := "settlement:" +:+ so_direction o.
Definition allowed_attempts (o : SettleOptions) : Z := default serviceMaxAttempts (so_maxAttempts o).

(** The classifier handed to the engine. *)
Definition classify_fault (o : SettleOptions) (e : Thrown) : FaultClass := classify e (so_classifier o).

Definition class_text (c : FaultClass) : string :=
  match c with transient => "transient" | confirmation_delay => "confirmation_delay" | terminal => "terminal" end.

Definition run_error_text (e : RunError) (action : string) : string :=
  match e with
  | Original t => thrown_text t
  | RetryExhaustedError c n _ =>
      "[retry-engine] '" +:+ action +:+ "' exhausted " +:+ pretty n +:+ " attempts (last fault: " +:+ class_text c +:+ ")"
  | CircuitOpenError a => "[retry-engine] Circuit for '" +:+ a +:+ "' is open — fast-failing"
  end.

Definition failure_category (e : RunError) : FaultClass :=
  match e with
  | RetryExhaustedError c _ _ => c
  | CircuitOpenError _ => transient
  | Original t => defaultClassifier t
  end.

(** The [catch] of [settle]: mark the record failed unless it is terminal. *)
Definition fail_settle (now : Z) (f : Flight) (e : RunError) (s : Service) : Service :=
  let o := so_orderId (fl_opts f) in
  let message := run_error_text e (action_name (fl_opts f)) in
  let s1 :=
    match tx_get o (store (sv_world s)) with
    | Some r => if isTerminalState (state r) then s else quietly (markFailed now o message) s
    | None => s
    end in
  answer o (Throw (SettlementError o message (failure_category e) (fl_attempts f))) s1.

Definition closed_flight (f : Flight) : Flight := mkFlight (fl_opts f) (fl_attempts f) (fl_lastFault f) Answered.

(** The head of the engine's loop: start the action, or give up. *)
Definition attempt (now : Z) (f : Flight) (s : Service) : Flight * Service :=
  let '(pass, bs) := checkCircuit cfg now (action_name (fl_opts f)) (sv_breakers s) in
  let s := with_breakers bs s in
  if negb pass then (closed_flight f, fail_settle now f (CircuitOpenError (action_name (fl_opts f))) s)
  else if fl_attempts f <? allowed_attempts (fl_opts f) then
    (mkFlight (fl_opts f) (fl_attempts f + 1) (fl_lastFault f) InAction, add_begun (so_orderId (fl_opts f)) s)
  else
    (closed_flight f, fail_settle now f (RetryExhaustedError (fl_lastFault f) (allowed_attempts (fl_opts f)) None) s).

Definition add_flight (fs : Flight * Service) : Service := with_flights (sv_flights fs.2 ++ [fs.1]) fs.2.

(** The contract key names an order whose transaction is known. *)
Definition known_by_key (o : SettleOptions) (s : Service) : option string :=
  match truthy (so_contractKey o) with
  | None => None
  | Some k =>
      match truthy (jm_get k (sv_index s)) with
      | None => None
      | Some known => match tx_get known (store (sv_world s)) with Some r => truthy (txHash r) | None => None end
      end
  end.

(** Create the record and start the first attempt.  A record that appeared
    meanwhile answers with its hash. *)
Definition begin_settle (now : Z) (opts : SettleOptions) (s : Service) : Service :=
  let o := so_orderId opts in
  match create now o (so_correlationId opts) (default (so_direction opts) (so_route opts)) (sv_world s) with
  | (Throw e, w) =>
      match e, truthy (tx_get o (store w) ≫= txHash) with
      | TxStateError _ "ALREADY_EXISTS", Some h => answer o (Ok (mkSettleResult h 0 None)) s
      | _, _ => answer o (Throw (StoreError e)) s
      end
  | (Ok _, w) => add_flight (attempt now (mkFlight opts 0 transient InAction) (with_world w s))
  end.

(** [settle] up to its first await. *)
Definition settle (now : Z) (opts : SettleOptions) (s : Service) : Service :=
  let o := so_orderId opts in
  match known_by_key opts s with
  | Some h => answer o (Ok (mkSettleResult h 0 None)) s
  | None =>
      match tx_get o (store (sv_world s)) with
      | None => begin_settle now opts s
      | Some r =>
          if bool_decide (state r = complete) || bool_decide (state r = chain_mined) then
            answer o (Ok (mkSettleResult (default "undefined" (txHash r)) 0 None)) s
          else if bool_decide (state r = terminal_failure) then
            answer o (Throw (SettlementError o
              ("Order " +:+ o +:+ " is already in terminal_failure: " +:+ default "undefined" (failureReason r)) terminal 0)) s
          else
            match truthy (txHash r) with
            | Some h => answer o (Ok (mkSettleResult h 0 None)) s
            | None => begin_settle now opts s
            end
      end
  end.

(** What the engine does when the wrapped function throws. *)
Definition on_throw (now : Z) (f : Flight) (e : Thrown) (s : Service) : Flight * Service :=
  let c := classify_fault (fl_opts f) e in
  let f := mkFlight (fl_opts f) (fl_attempts f) c (fl_stage f) in
  let s := with_breakers (onFailure cfg now (action_name (fl_opts f)) (sv_breakers s)) s in
  if bool_decide (c = terminal) then (closed_flight f, fail_settle now f (Original e) s)
  else if fl_attempts f =? allowed_attempts (fl_opts f) then
    (closed_flight f, fail_settle now f (RetryExhaustedError c (allowed_attempts (fl_opts f)) (Some e)) s)
  else (mkFlight (fl_opts f) (fl_attempts f) c Sleeping, s).

(** The rest of [settle] after [engine.run] has returned a hash. *)
Definition succeed (now : Z) (f : Flight) (h : string) (s : Service) : Flight * Service :=
  let o := so_orderId (fl_opts f) in
  let finish (s : Service) : Service :=
    let s := match truthy (so_contractKey (fl_opts f)) with Some k => set_index k o s | None => s end in
    answer o (Ok (mkSettleResult h (fl_attempts f) (if 1 <? fl_attempts f then Some (fl_lastFault f) else None))) s in
  match tx_get o (store (sv_world s)) with
  | Some r =>
      if bool_decide (state r = pending_submission) then
        match ackSubmission now o h (sv_world s) with
        | (Ok _, w) => (closed_flight f, finish (with_world w s))
        | (Throw e, w) =>
            (closed_flight f, fail_settle now f (Original (TError (match e with TxStateError m _ => m | ProviderError m => m end)))
                       (with_world w s))
        end
      else (closed_flight f, finish s)
  | None => (closed_flight f, finish s)
  end.

(** The action of a call settles. *)
Definition action_settles (now : Z) (f : Flight) (r : outcome Thrown string) (s : Service) : Flight * Service :=
  let o := so_orderId (fl_opts f) in
  match r with
  | Throw e => on_throw now f e s
  | Ok h =>
      let s := quietly (ackSubmission now o h) (add_sent o h s) in
      let '(cb, w) := match so_onTxHash (fl_opts f) with Some k => k now h (sv_world s) | None => (Ok tt, sv_world s) end in
      let s := with_world w s in
      match cb with
      | Throw e => on_throw now f e s
      | Ok _ => succeed now f h (with_breakers (onSuccess (action_name (fl_opts f)) (sv_breakers s)) s)
      end
  end.

Definition on_flight (i : nat) (stage : Stage) (k : Flight -> Service -> Flight * Service) (s : Service) : Service :=
  match sv_flights s !! i with
  | Some f =>
      if decide (fl_stage f = stage) then
        let '(f', s') := k f s in with_flights (<[i := f']> (sv_flights s')) s'
      else s
  | None => s
  end.

(** ** Events *)

Inductive SettleEvent : Type :=
| SCall (now : Z) (opts : SettleOptions)
| SAction (now : Z) (i : nat) (r : outcome Thrown string)
| SWake (now : Z) (i : nat)
| SReceipt (now : Z) (o : string) (rc : TxReceipt)
| SCoordinatorAck (now : Z) (o ref : string)
| SComplete (now : Z) (o : string)
| SReconcile (now : Z) (provider : option (list string -> string -> outcome string (option TxReceipt)))
| SReboot (readdir : gmap string (option TxStateRecord) -> list (string * option TxStateRecord)).

Definition settle_step (tc : TxConfig) (s : Service) (e : SettleEvent) : Service :=
  match e with
  | SCall now opts => settle now opts s
  | SAction now i r => on_flight i InAction (fun f => action_settles now f r) s
  | SWake now i => on_flight i Sleeping (attempt now) s
  | SReceipt now o rc => quietly (recordReceipt now o rc) s
  | SCoordinatorAck now o ref => quietly (recordCoordinatorAck now o ref) s
  | SComplete now o => quietly (markComplete now o) s
  | SReconcile now p => quietly (reconcile tc p now) s
  | SReboot readdir =>
      mkService (TxStateStore.with_store (reboot readdir) (sv_world s)) [] [] [] (sv_begun s) (sv_sent s) (sv_answers s)
  end.

Definition settle_run (tc : TxConfig) (es : list SettleEvent) : Service := foldl (settle_step tc) newService es.
End Settle.

(** ** Facts: the store *)

(** A record that a restart finds again. *)
Definition lasting (r : TxStateRecord) : Prop := key_ok (orderId r) /\ isValidBlockNumber (minedBlock r) = true.

(** The store is durable, every record lasts, and the orders of [P] have one. *)
Definition keeps (P : string -> Prop) (w : TxWorld) : Prop :=
  durable (store w) /\ (forall k r, fs_get k (store w) = Some r -> lasting r) /\
  (forall k, P k -> is_Some (fs_get k (store w))).

Definition honest (p : option (list string -> string -> outcome string (option TxReceipt))) : Prop :=
  forall q asked h rc, p = Some q -> q asked h = Ok (Some rc) -> 0 <= rc_blockNumber rc.

Section Keeps.
Context (P : string -> Prop).

Lemma keeps_save r : lasting r -> ensures (keeps P) (save r) (fun _ => True).
Proof.
  intros Hr. apply ensures_modify; [|exact I]. intros w (Hd & Hl & Hp). split; [|split]; cbn.
  - apply durable_put; [apply Hr|exact Hd].
  - intros k r'. rewrite fs_get_put. case_decide; [by intros [= <-]|apply Hl].
  - intros k Hk. rewrite fs_get_put. case_decide; [by eexists|by apply Hp].
Qed.

Lemma keeps_get o : ensures (keeps P) (getOrThrow o) lasting.
Proof.
  unfold getOrThrow. eapply ensures_bind; [apply (ensures_gets _ _ (fun f => forall r, f = Some r -> lasting r))|].
  - intros w (_ & Hl & _) r Hr. by eapply Hl.
  - intros [r|] Hr; [by apply ensures_ret, Hr|apply ensures_throw].
Qed.

Lemma keeps_transition now o to p note :
  isValidBlockNumber (p_minedBlock p) = true -> ensures (keeps P) (transition now o to p note) lasting.
Proof.
  intros Hb. unfold transition. eapply ensures_bind; [apply keeps_get|]. intros r [Hk Hv].
  destruct (negb _); [apply ensures_throw|].
  assert (lasting (apply_transition now to p note r)) as Hr by (split; [exact Hk|cbn; by destruct (p_minedBlock p)]).
  eapply ensures_bind; [by apply keeps_save|]. intros _ _. by apply ensures_ret.
Qed.

Lemma keeps_receipt now o rc : 0 <= rc_blockNumber rc -> ensures (keeps P) (recordReceipt now o rc) (fun _ => True).
Proof.
  intros Hb. unfold recordReceipt. eapply ensures_bind; [apply keeps_get|]. intros r _.
  destruct (negb _); [destruct (_ && _); [by apply ensures_ret|apply ensures_throw]|].
  eapply ensures_bind; [apply keeps_transition; by apply Z.leb_le|]. intros. by apply ensures_ret.
Qed.

Lemma keeps_fail now o reason : ensures (keeps P) (fail_with now o reason) (fun _ => True).
Proof. eapply ensures_bind; [by apply keeps_transition|]. intros. by apply ensures_ret. Qed.

Lemma keeps_reconcileRecord tc provider now r :
  honest provider -> lasting r -> ensures (keeps P) (reconcileRecord tc provider now r) (fun _ => True).
Proof.
  intros Hp Hr. unfold reconcileRecord. destruct (_ <=? _); [apply keeps_fail|].
  eapply ensures_bind; [by apply (keeps_save (bump_recovery r))|]. intros _ _.
  destruct (state (bump_recovery r)); try by apply ensures_ret.
  - destruct (_ <? _); [apply keeps_fail|by apply ensures_ret].
  - unfold reconcile_acked. destruct (txHash _) as [h|]; [|by apply ensures_ret]. destruct provider as [p|]; [|by apply ensures_ret].
    destruct (negb _); [by apply ensures_ret|].
    apply (ensures_bind _ _ _ (fun a => forall rc, a = Some rc -> 0 <= rc_blockNumber rc)).
    { intros w Hw. unfold ask. destruct (p (asked w) h) as [a|m] eqn:E; cbn; split; auto; intros a' [= <-] rc ->. by eapply Hp. }
    intros [rc|] Ha; [|by apply ensures_ret]. destruct (_ =? _); [apply keeps_fail|].
    eapply ensures_bind; [by apply keeps_receipt, Ha|]. intros. by apply ensures_ret.
  - eapply ensures_bind; [by apply keeps_transition|]. intros. by apply ensures_ret.
Qed.

Lemma keeps_reconcile tc provider now : honest provider -> ensures (keeps P) (reconcile tc provider now) (fun _ => True).
Proof.
  intros Hp. unfold reconcile. eapply ensures_bind; [by apply (ensures_gets _ _ (fun _ => True))|]. intros ids _.
  generalize (mkReconcileSummary (Z.of_nat (length ids)) 0 0 0).
  induction ids as [|o ids IH]; intros sm; [by apply ensures_ret|]. cbn.
  apply (ensures_bind _ _ _ (fun _ => True)); [|intros res _; apply IH]. apply ensures_try; [|intros; by apply ensures_ret].
  eapply ensures_bind; [apply keeps_get|]. intros r Hr. by apply keeps_reconcileRecord.
Qed.

Lemma keeps_reboot readdir w : lists_all readdir -> keeps P w -> keeps P (TxStateStore.with_store (reboot readdir) w).
Proof.
  intros Hl (Hd & Hr & Hp).
  assert (forall k, fs_get k (store (TxStateStore.with_store (reboot readdir) w)) = fs_get k (store w)) as Hg.
  { intros k. unfold TxStateStore.with_store. cbn [store]. rewrite durable_get_reboot by done. destruct (fs_get k (store w)) as [r|] eqn:E; [|done].
    destruct (Hr k r E) as [_ Hv]. change (loadable r) with (isValidBlockNumber (minedBlock r)). by rewrite Hv. }
  split; [by apply durable_reboot|]. split; intros k; rewrite Hg; [apply Hr|apply Hp].
Qed.
End Keeps.

(** ** Facts: one settlement per order *)

Definition order_of (f : Flight) : string := so_orderId (fl_opts f).
Definition begun_of (o : string) (s : Service) : Z := Z.of_nat (count_occ String.string_dec (sv_begun s) o).
Definition sent_of (o : string) (s : Service) : list string :=
  snd <$> List.filter (fun e => bool_decide (e.1 = o)) (sv_sent s).

(** A callback that does not throw and only adds to the store. *)
Definition callback_ok (k : Z -> string -> ST TxWorld Thrown unit) : Prop :=
  forall P now h w, keeps P w -> keeps P (k now h w).2 /\ (k now h w).1 = Ok tt.

Section Once.
Context (cfg : EngineCfg) (serviceMax N : Z).

(** A call still in flight: its order has a record, it made every attempt of its
    order, within its limit, and none returned a hash. *)
Record flying (s : Service) (f : Flight) : Prop := {
  fy_record : is_Some (fs_get (order_of f) (store (sv_world s)));
  fy_attempts : fl_attempts f = begun_of (order_of f) s;
  fy_limit : fl_attempts f <= Z.max 0 (allowed_attempts serviceMax (fl_opts f)) /\ allowed_attempts serviceMax (fl_opts f) <= N;
  fy_unsent : sent_of (order_of f) s = [];
  fy_callback : forall k, so_onTxHash (fl_opts f) = Some k -> callback_ok k
}.

Definition live (f : Flight) : bool := negb (bool_decide (fl_stage f = Answered)).

(** Orders whose action was begun, or returned a hash. *)
Definition tried (s : Service) (o : string) : Prop := o ∈ sv_begun s \/ o ∈ (sv_sent s).*1.

Record sv_ok (s : Service) : Prop := {
  ok_store : keeps (tried s) (sv_world s);
  ok_once : forall o, (length (sent_of o s) <= 1)%nat;
  ok_bound : forall o, begun_of o s <= Z.max 0 N;
  ok_live : forall i f, sv_flights s !! i = Some f -> live f = true -> flying s f;
  ok_distinct : forall i j f g, sv_flights s !! i = Some f -> sv_flights s !! j = Some g ->
    live f = true -> live g = true -> order_of f = order_of g -> i = j
}.

Definition event_ok (e : SettleEvent) : Prop :=
  match e with
  | SCall _ o =>
      key_ok (so_orderId o) /\ allowed_attempts serviceMax o <= N /\ forall k, so_onTxHash o = Some k -> callback_ok k
  | SReceipt _ _ rc => 0 <= rc_blockNumber rc
  | SReconcile _ p => honest p
  | SReboot readdir => lists_all readdir
  | _ => True
  end.

(** What a step of a call in flight may do to the service. *)
Definition effect (f : Flight) (s : Service) (r : Flight * Service) : Prop :=
  let '(f', s') := r in
  sv_flights s' = sv_flights s /\ (forall P, keeps P (sv_world s) -> keeps P (sv_world s')) /\
  ((sv_begun s' = sv_begun s /\ sv_sent s' = sv_sent s /\
    (live f' = false \/ fl_opts f' = fl_opts f /\ fl_attempts f' = fl_attempts f)) \/
   (sv_begun s' = sv_begun s ++ [order_of f] /\ sv_sent s' = sv_sent s /\ fl_opts f' = fl_opts f /\
    fl_attempts f' = fl_attempts f + 1 /\ fl_attempts f < allowed_attempts serviceMax (fl_opts f)) \/
   (sv_begun s' = sv_begun s /\ (exists h, sv_sent s' = sv_sent s ++ [(order_of f, h)]) /\ live f' = false)).

Lemma quietly_keeps {A} (m : TM A) s :
  (forall P, exists Q, ensures (keeps P) m Q) -> forall P, keeps P (sv_world s) -> keeps P (sv_world (quietly m s)).
Proof. intros Hm P Hs. destruct (Hm P) as [Q HQ]. by apply HQ. Qed.

Lemma fail_settle_effect now f e s :
  let s' := fail_settle now f e s in
  sv_flights s' = sv_flights s /\ (forall P, keeps P (sv_world s) -> keeps P (sv_world s')) /\
  sv_begun s' = sv_begun s /\ sv_sent s' = sv_sent s.
Proof.
  unfold fail_settle. destruct (tx_get _ _) as [r|]; [destruct (isTerminalState (state r))|]; [done| |done].
  split; [done|split; [|done]]. intros P HP. cbn. apply (quietly_keeps (markFailed now _ _)); [|done].
  intros Q. eexists. by apply keeps_transition.
Qed.

Lemma closed_not_live f : live (closed_flight f) = false.
Proof. done. Qed.

Lemma fail_effect now f f1 e s bs : effect f s (closed_flight f1, fail_settle now f1 e (with_breakers bs s)).
Proof.
  destruct (fail_settle_effect now f1 e (with_breakers bs s)) as (H1 & H2 & H3 & H4).
  split; [done|split; [done|]]. left. rewrite H3, H4. by auto.
Qed.

Lemma attempt_effect now f s : effect f s (attempt cfg serviceMax now f s).
Proof.
  unfold attempt. destruct (checkCircuit _ _ _ _) as [pass bs]. destruct pass; cbn [negb]; [|apply fail_effect].
  destruct (fl_attempts f <? allowed_attempts serviceMax (fl_opts f)) eqn:E; [|apply fail_effect].
  split; [done|split; [done|]]. right; left. bools. done.
Qed.

Lemma on_throw_effect now f e s : effect f s (on_throw cfg serviceMax now f e s).
Proof.
  unfold on_throw. cbn zeta. destruct (bool_decide _); [apply fail_effect|]. destruct (_ =? _); [apply fail_effect|].
  split; [done|split; [done|]]. left. split; [done|split; [done|by right]].
Qed.

Lemma succeed_effect now f h s :
  let '(f', s') := succeed now f h s in
  sv_flights s' = sv_flights s /\ (forall P, keeps P (sv_world s) -> keeps P (sv_world s')) /\
  sv_begun s' = sv_begun s /\ sv_sent s' = sv_sent s /\ live f' = false.
Proof.
  unfold succeed. destruct (tx_get _ _) as [r|]; [destruct (bool_decide _)|]; [|by destruct (truthy _)..].
  pose proof (fun P => keeps_transition P now (so_orderId (fl_opts f)) submission_acked
    (mkTxPatch (Some h) None None None None None) (Some "tx broadcast") eq_refl (sv_world s)) as Hk.
  unfold ackSubmission. destruct (transition _ _ _ _ _ _) as [[r'|e] w].
  - destruct (truthy _); (split; [done|split; [|done]]); intros P HP; by destruct (Hk P HP) as [? _].
  - set (ev := Original _). destruct (fail_settle_effect now f ev (with_world w s)) as (H1 & H2 & H3 & H4).
    split; [done|split; [|done]]. intros P HP. apply H2. by destruct (Hk P HP).
Qed.

Lemma action_effect now f r s :
  (forall k, so_onTxHash (fl_opts f) = Some k -> callback_ok k) -> keeps (fun _ => False) (sv_world s) ->
  effect f s (action_settles cfg serviceMax now f r s).
Proof.
  intros Hc Hs. unfold action_settles. destruct r as [h|e]; [|apply on_throw_effect].
  set (s1 := quietly _ _).
  assert (forall P, keeps P (sv_world s) -> keeps P (sv_world s1)) as H1.
  { apply (quietly_keeps (ackSubmission now (so_orderId (fl_opts f)) h) (add_sent (so_orderId (fl_opts f)) h s)).
    intros P. eexists. by apply keeps_transition. }
  assert (exists w, match so_onTxHash (fl_opts f) with Some k => k now h (sv_world s1) | None => (Ok tt, sv_world s1) end = (Ok tt, w) /\
    forall P, keeps P (sv_world s1) -> keeps P w) as (w & -> & Hw).
  { destruct (so_onTxHash (fl_opts f)) as [k|] eqn:E; [|by eexists].
    exists (k now h (sv_world s1)).2. destruct (Hc k eq_refl _ now h _ (H1 _ Hs)) as [_ Hr]. split.
    - destruct (k now h (sv_world s1)); cbn in *. by rewrite Hr.
    - intros P HP. by apply (Hc k eq_refl). }
  set (s2 := with_breakers _ _). pose proof (succeed_effect now f h s2) as H.
  destruct (succeed now f h s2) as [f' s']. destruct H as (F1 & F2 & F3 & F4 & F5).
  split; [done|split; [by auto|]]. right; right. split; [done|split; [|done]]. exists h. by rewrite F4.
Qed.

Lemma begun_app o x s s' : sv_begun s' = sv_begun s ++ [x] ->
  begun_of o s' = begun_of o s + (if decide (o = x) then 1 else 0).
Proof.
  intros E. unfold begun_of. rewrite E, count_occ_app. cbn.
  destruct (String.string_dec x o), (decide (o = x)); try congruence; lia.
Qed.

Lemma begun_eq o s s' : sv_begun s' = sv_begun s -> begun_of o s' = begun_of o s.
Proof. intros E. unfold begun_of. by rewrite E. Qed.

Lemma sent_eq o s s' : sv_sent s' = sv_sent s -> sent_of o s' = sent_of o s.
Proof. intros E. unfold sent_of. by rewrite E. Qed.

Lemma sent_app o x h s s' : sv_sent s' = sv_sent s ++ [(x, h)] ->
  sent_of o s' = sent_of o s ++ (if decide (o = x) then [h] else []).
Proof.
  intros E. unfold sent_of. rewrite E, List.filter_app, fmap_app. f_equal. cbn.
  case_bool_decide as H1; case_decide; cbn; congruence || done.
Qed.

Lemma begun_zero o s : o ∉ sv_begun s -> begun_of o s = 0.
Proof.
  intros H. unfold begun_of. rewrite (proj1 (count_occ_not_In String.string_dec _ _)); [done|].
  by rewrite <- list_elem_of_In.
Qed.

(** Only the order of [f] is affected. *)
Lemma effect_others f s f' s' p :
  effect f s (f', s') -> p <> order_of f -> begun_of p s' = begun_of p s /\ sent_of p s' = sent_of p s.
Proof.
  intros (_ & _ & [(Hb & Hs & _)|[(Hb & Hs & _)|(Hb & [h Hs] & _)]]) Hp.
  - by rewrite (begun_eq p s), (sent_eq p s).
  - by rewrite (begun_app p _ s s' Hb), (sent_eq p s), decide_False, Z.add_0_r.
  - by rewrite (begun_eq p s), (sent_app p _ h s s' Hs), decide_False, app_nil_r.
Qed.

Lemma effect_keeps f s f' s' :
  is_Some (fs_get (order_of f) (store (sv_world s))) -> effect f s (f', s') ->
  keeps (tried s) (sv_world s) -> keeps (tried s') (sv_world s').
Proof.
  intros Hr (_ & Hk & Hcases) (K1 & K2 & K3).
  assert (keeps (fun o => tried s o \/ o = order_of f) (sv_world s')) as (L1 & L2 & L3).
  { apply Hk. split; [done|split; [done|]]. intros k [?| ->]; [by apply K3|done]. }
  split; [done|split; [done|]]. intros k Ht. apply L3. unfold tried in *.
  destruct Hcases as [(Hb & Hs & _)|[(Hb & Hs & _)|(Hb & [h Hs] & _)]]; rewrite Hb, Hs in Ht; [by left| |].
  - destruct Ht as [[?|?%list_elem_of_singleton]%elem_of_app|?]; auto.
  - rewrite fmap_app in Ht. destruct Ht as [?|[?|?%list_elem_of_singleton]%elem_of_app]; auto.
Qed.

Lemma keeps_iff P Q w : (forall k, Q k -> P k) -> keeps P w -> keeps Q w.
Proof. intros H (K1 & K2 & K3). split; [done|split; [done|]]. auto. Qed.

(** Records are not lost. *)
Lemma keeps_record k w w' :
  (forall P, keeps P w -> keeps P w') -> keeps (fun _ => False) w ->
  is_Some (fs_get k (store w)) -> is_Some (fs_get k (store w')).
Proof.
  intros Hk (K1 & K2 & _) Hr. destruct (Hk (fun o => o = k)) as (_ & _ & H); [|by apply H].
  split; [done|split; [done|]]. by intros ? ->.
Qed.

Lemma flying_after f s f' s' :
  keeps (fun _ => False) (sv_world s) -> flying s f -> effect f s (f', s') -> live f' = true ->
  flying s' f' /\ order_of f' = order_of f.
Proof.
  intros Hw [F1 F2 F3 F4 F5] (_ & Hk & Hcases) Hl.
  assert (fl_opts f' = fl_opts f /\ fl_attempts f' = begun_of (order_of f) s' /\
          fl_attempts f' <= Z.max 0 (allowed_attempts serviceMax (fl_opts f)) /\ sv_sent s' = sv_sent s) as (E1 & E2 & E3 & E4).
  { destruct Hcases as [(Hb & Hs & [?|[Ho Ha]])|[(Hb & Hs & Ho & Ha & Hlt)|(Hb & _ & ?)]]; [congruence| | |congruence].
    - rewrite (begun_eq _ s) by done. rewrite Ha. split; [done|split; [done|split; [lia|done]]].
    - rewrite (begun_app _ _ s s' Hb), decide_True by done. split; [done|split; [lia|split; [lia|done]]]. }
  assert (order_of f' = order_of f) as Eo by (unfold order_of; by rewrite E1).
  split; [|done]. split; rewrite ?Eo, ?E1; [by eapply keeps_record|done|lia|by rewrite (sent_eq _ s)|done].
Qed.

(** Another call is not affected. *)
Lemma flying_other f g s f' s' :
  keeps (fun _ => False) (sv_world s) -> flying s g -> effect f s (f', s') -> order_of g <> order_of f -> flying s' g.
Proof.
  intros Hw [F1 F2 F3 F4 F5] He Hne. destruct (effect_others f s f' s' (order_of g) He Hne) as [Eb Es].
  destruct He as (_ & Hk & _). split; [by eapply keeps_record|by rewrite Eb|done|by rewrite Es|done].
Qed.

(** A step of a call in flight keeps the books. *)
Lemma effect_ok i f s f' s' :
  sv_ok s -> sv_flights s !! i = Some f -> live f = true -> effect f s (f', s') ->
  sv_ok (with_flights (<[i := f']> (sv_flights s')) s').
Proof.
  intros [O1 O2 O3 O4 O5] Hi Hl He. pose proof (O4 i f Hi Hl) as Hf.
  assert (keeps (fun _ => False) (sv_world s)) as Hw by (by eapply keeps_iff; [|exact O1]).
  assert (sv_flights s' = sv_flights s) as Efs by apply He.
  assert (i < length (sv_flights s))%nat as Hlen by (by eapply lookup_lt_Some).
  assert (forall j g, <[i := f']> (sv_flights s') !! j = Some g -> live g = true ->
    flying s' g /\ exists g0, sv_flights s !! j = Some g0 /\ live g0 = true /\ order_of g = order_of g0) as Hfly.
  { intros j g Hj Hg. rewrite Efs in Hj. destruct (decide (j = i)) as [->|Hne].
    - rewrite list_lookup_insert_eq in Hj by done. injection Hj as <-.
      destruct (flying_after f s f' s' Hw Hf He Hg) as [? ?]. split; [done|]. by exists f.
    - rewrite list_lookup_insert_ne in Hj by done. split; [|by exists g].
      apply (flying_other f g s f' s' Hw (O4 j g Hj Hg) He). intros E. destruct Hne. by eapply O5. }
  split; cbn [sv_world sv_begun sv_sent sv_flights with_flights].
  - apply (effect_keeps f s f' s'); [apply Hf|done|done].
  - intros o. change (sent_of o (with_flights (<[i := f']> (sv_flights s')) s')) with (sent_of o s').
    destruct (decide (o = order_of f)) as [->|Hne]; [|destruct (effect_others f s f' s' o He Hne) as [_ ->]; apply O2].
    destruct Hf as [_ _ _ F4 _]. destruct He as (_ & _ & [(_ & Hs & _)|[(_ & Hs & _)|(_ & [h Hs] & _)]]).
    + rewrite (sent_eq _ s), F4 by done. cbn. lia.
    + rewrite (sent_eq _ s), F4 by done. cbn. lia.
    + rewrite (sent_app _ _ h s s' Hs), F4, decide_True by done. done.
  - intros o. change (begun_of o (with_flights (<[i := f']> (sv_flights s')) s')) with (begun_of o s').
    destruct (decide (o = order_of f)) as [->|Hne]; [|destruct (effect_others f s f' s' o He Hne) as [-> _]; apply O3].
    destruct Hf as [_ F2 F3 _ _]. specialize (O3 (order_of f)).
    destruct He as (_ & _ & [(Hb & _)|[(Hb & _ & _ & _ & Hlt)|(Hb & _)]]); [by rewrite (begun_eq _ s)| |by rewrite (begun_eq _ s)].
    rewrite (begun_app _ _ s s' Hb), decide_True by done. lia.
  - intros j g Hj Hg. destruct (Hfly j g Hj Hg) as [[F1 F2 F3 F4 F5] _]. by split.
  - intros j1 j2 g1 g2 H1 H2 L1 L2 E. destruct (Hfly j1 g1 H1 L1) as (_ & h1 & A1 & B1 & C1).
    destruct (Hfly j2 g2 H2 L2) as (_ & h2 & A2 & B2 & C2). eapply O5; eauto. congruence.
Qed.

Lemma world_ok w s : (forall P, keeps P (sv_world s) -> keeps P w) -> sv_ok s -> sv_ok (with_world w s).
Proof.
  intros Hk [O1 O2 O3 O4 O5]. split; [by apply Hk|done|done| |done].
  intros i f Hi Hl. destruct (O4 i f Hi Hl) as [F1 F2 F3 F4 F5]. split; [|done..].
  apply (keeps_record _ (sv_world s)); [done|by eapply keeps_iff; [|exact O1]|done].
Qed.

Lemma quietly_ok {A} (m : TM A) s : (forall P, exists Q, ensures (keeps P) m Q) -> sv_ok s -> sv_ok (quietly m s).
Proof. intros Hm Hs. apply world_ok; [|done]. by apply quietly_keeps. Qed.

Lemma answer_sv_ok o a s : sv_ok s -> sv_ok (answer o a s).
Proof. intros [O1 O2 O3 O4 O5]. split; try done. intros i f Hi Hl. destruct (O4 i f Hi Hl). by split. Qed.

Lemma attempt_flights now f fs s :
  attempt cfg serviceMax now f (with_flights fs s) =
  ((attempt cfg serviceMax now f s).1, with_flights fs (attempt cfg serviceMax now f s).2).
Proof.
  unfold attempt. cbn [sv_breakers with_flights]. destruct (checkCircuit _ _ _ _) as [[] bs]; cbn [negb].
  - destruct (_ <? _); [done|]. unfold fail_settle. cbn [sv_world with_flights with_breakers fst snd]. by repeat case_match.
  - unfold fail_settle. cbn [sv_world with_flights with_breakers fst snd]. by repeat case_match.
Qed.

(** A call for an order without a record takes off. *)
Lemma launch_ok now opts s w f :
  sv_ok s -> tx_get (so_orderId opts) (store (sv_world s)) = None ->
  f = mkFlight opts 0 transient InAction ->
  allowed_attempts serviceMax opts <= N -> (forall k, so_onTxHash opts = Some k -> callback_ok k) ->
  (forall P, keeps P (sv_world s) -> keeps P w) -> is_Some (fs_get (so_orderId opts) (store w)) ->
  sv_ok (add_flight (attempt cfg serviceMax now f (with_world w s))).
Proof.
  intros Hs Hnew -> HN Hcb Hk Hrec. pose proof (world_ok w s Hk Hs) as Hw. destruct Hs as [O1 O2 O3 O4 O5].
  set (f := mkFlight opts 0 transient InAction). set (o := so_orderId opts) in *.
  assert (~ tried s o) as Hnt.
  { intros Ht. destruct O1 as (_ & _ & K3). destruct (K3 o Ht) as [r Hr]. unfold tx_get in Hnew. congruence. }
  assert (flying (with_world w s) f) as Hf.
  { split; [done| | | |done].
    - cbn. rewrite (begun_eq _ s) by done. rewrite begun_zero; [done|]. intros ?. apply Hnt. by left.
    - cbn. lia.
    - rewrite (sent_eq _ s) by done. unfold sent_of. destruct (List.filter _ (sv_sent s)) as [|[o' h] l] eqn:E; [done|exfalso].
      assert ((o', h) ∈ List.filter (fun e => bool_decide (e.1 = order_of f)) (sv_sent s)) as Hin by (rewrite E; left).
      apply list_elem_of_In, filter_In in Hin as [Hin Ho]. apply bool_decide_eq_true in Ho. cbn in Ho.
      apply Hnt. right. apply list_elem_of_fmap. exists (o', h). split; [done|by apply list_elem_of_In]. }
  set (s2 := with_flights (sv_flights s ++ [f]) (with_world w s)).
  assert (sv_ok s2) as Hs2.
  { destruct Hw as [W1 W2 W3 W4 W5]. split; [done|done|done| |].
    - intros i g Hi Hl. cbn in Hi. apply lookup_snoc_Some in Hi as [[_ Hi]|[_ <-]].
      + destruct (W4 i g Hi Hl). by split.
      + destruct Hf. by split.
    - assert (forall i g, sv_flights s !! i = Some g -> live g = true -> order_of g <> o) as Hdiff.
      { intros i g Hi Hl E. destruct (O4 i g Hi Hl) as [[r Hr] _ _ _ _]. rewrite E in Hr. unfold tx_get in Hnew. congruence. }
      intros i j g h Hi Hj L1 L2 E. cbn in Hi, Hj.
      apply lookup_snoc_Some in Hi as [[_ Hi]|[-> <-]], Hj as [[_ Hj]|[-> <-]]; [by eapply O5|exfalso|exfalso|done].
      + by eapply Hdiff.
      + by eapply Hdiff. }
  pose proof (attempt_effect now f s2) as He. unfold s2 in He at 2. rewrite attempt_flights in He.
  destruct (attempt cfg serviceMax now f (with_world w s)) as [f' s'] eqn:Ea. cbn [fst snd] in He.
  assert (sv_flights s' = sv_flights s) as Efs.
  { pose proof (attempt_effect now f (with_world w s)) as H. rewrite Ea in H. apply H. }
  pose proof (effect_ok (length (sv_flights s)) f s2 f' _ Hs2 ltac:(by apply list_lookup_middle) eq_refl He) as Hok.
  unfold add_flight. cbn [fst snd sv_flights with_flights] in *. rewrite Efs.
  rewrite insert_app_r_alt, Nat.sub_diag in Hok by done. exact Hok.
Qed.

Lemma settle_sv_ok now opts s : event_ok (SCall now opts) -> sv_ok s -> sv_ok (settle cfg serviceMax now opts s).
Proof.
  intros (Hkey & HN & Hcb) Hs. unfold settle. destruct (known_by_key opts s); [by apply answer_sv_ok|].
  assert (sv_ok (begin_settle cfg serviceMax now opts s)) as Hbegin.
  { unfold begin_settle, create, mbind, st_bind, gets. rewrite jm_has_get.
    destruct (jm_get (so_orderId opts) (mem (store (sv_world s)))) as [r|] eqn:Hr.
    - unfold throw. cbn. destruct (truthy _); by apply answer_sv_ok.
    - cbn [bool_decide]. unfold save, modify, mret, st_ret. cbn [is_Some_dec].
      set (r := mkTxStateRecord _ _ _ _ _ _ _ _ _ _ _ _ _ _).
      assert (lasting r) as Hl by (split; [exact Hkey|done]).
      apply (launch_ok now opts s); [done|done|done|done|done| |].
      + intros P HP. by apply (keeps_save P r Hl).
      + cbn. rewrite fs_get_put. cbn. rewrite decide_True by done. by eexists. }
  destruct (tx_get (so_orderId opts) (store (sv_world s))) as [r|] eqn:Hr; [|done].
  destruct (_ || _); [by apply answer_sv_ok|]. destruct (bool_decide _); [by apply answer_sv_ok|].
  destruct (truthy (txHash r)); [by apply answer_sv_ok|done].
Qed.

Lemma on_flight_ok i stage k s :
  stage <> Answered -> sv_ok s ->
  (forall f, sv_flights s !! i = Some f -> live f = true -> effect f s (k f s)) ->
  sv_ok (on_flight i stage k s).
Proof.
  intros Hst Hs Hk. unfold on_flight. destruct (sv_flights s !! i) as [f|] eqn:Hi; [|done].
  case_decide as E; [|done]. assert (live f = true) as Hl by (unfold live; by rewrite bool_decide_false by congruence).
  specialize (Hk f eq_refl Hl). destruct (k f s) as [f' s']. by apply (effect_ok i f s).
Qed.

Lemma settle_step_ok tc s e : event_ok e -> sv_ok s -> sv_ok (settle_step cfg serviceMax tc s e).
Proof.
  intros He Hs. destruct e as [now opts|now i r|now i|now o rc|now o ref|now o|now p|readdir]; cbn [settle_step].
  - by apply settle_sv_ok.
  - apply on_flight_ok; [done|done|]. intros f Hi Hl. destruct Hs as [O1 _ _ O4 _].
    apply action_effect; [apply (O4 i f Hi Hl)|by eapply keeps_iff; [|exact O1]].
  - apply on_flight_ok; [done|done|]. intros f _ _. apply attempt_effect.
  - apply quietly_ok; [|done]. intros P. eexists. by apply keeps_receipt.
  - apply quietly_ok; [|done]. intros P. eexists. by apply keeps_transition.
  - apply quietly_ok; [|done]. intros P. eexists. by apply keeps_transition.
  - apply quietly_ok; [|done]. intros P. eexists. by apply keeps_reconcile.
  - destruct Hs as [O1 O2 O3 _ _]. split; [by apply keeps_reboot|done|done|by intros i f|by intros i j f g].
Qed.

Lemma newService_ok : sv_ok newService.
Proof.
  split; [|intros o; cbn; lia|intros o; unfold begun_of; cbn; lia|by intros i f|by intros i j f g].
  split; [apply durable_fresh|]. split; [by intros k r|]. intros k [H|H]; by apply elem_of_nil in H.
Qed.

Lemma settle_run_ok tc es : Forall event_ok es -> sv_ok (settle_run cfg serviceMax tc es).
Proof.
  intros Hes. unfold settle_run. assert (sv_ok newService) as H by apply newService_ok. revert H. generalize newService.
  induction Hes as [|e es He _ IH]; intros s Hs; [done|]. cbn. apply IH. by apply settle_step_ok.
Qed.
End Once.

(** C34.  An order is settled once.  For any number of [settle] calls, in any
    interleaving of their actions, sleeps, receipts, acknowledgements and
    reconciliations, and across restarts that lose the calls in flight and read
    the directory in any order: the actions of one order are started at most as
    often as one call is allowed attempts, and at most one of them ever returns a
    transaction hash.  Hypotheses: the disk accepts writes, order ids are file-name
    characters that fit a file name, block numbers are not negative, and the
    callback [onTxHash] does not throw. *)
Theorem settled_once (cfg : EngineCfg) (serviceMax N : Z) (tc : TxConfig) (es : list SettleEvent) (o : string) :
  Forall (event_ok serviceMax N) es ->
  let s := settle_run cfg serviceMax tc es in
  begun_of o s <= Z.max 0 N /\ (length (sent_of o s) <= 1)%nat.
Proof. intros Hes s. pose proof (settle_run_ok cfg serviceMax N tc es Hes) as [_ H2 H3 _ _]. done. Qed.

(** Two calls for one order, a transient failure, a restart after the submission
    and a third call. *)
Definition demo_settle (cb : option (Z -> string -> ST TxWorld Thrown unit)) : SettleOptions :=
  mkSettle "order-1" "xlm_to_eth" "cid" None cb None None None.
Definition in_any_order (d : gmap string (option TxStateRecord)) : list (string * option TxStateRecord) := map_to_list d.
Definition demo_settles : list SettleEvent :=
  [SCall 1 (demo_settle None); SCall 2 (demo_settle None); SAction 3 0 (Throw (TError "ETIMEDOUT")); SWake 4 0;
   SAction 5 0 (Ok "0xaa"); SReboot in_any_order; SCall 6 (demo_settle None)].

Lemma settled_once_witness :
  let s := settle_run default_engine 5 default_tx_config demo_settles in
  (begun_of "order-1" s <= Z.max 0 5 /\ (length (sent_of "order-1" s) <= 1)%nat) /\
  sent_of "order-1" s = ["0xaa"] /\ begun_of "order-1" s = 2 /\ length (sv_answers s) = 3%nat.
Proof.
  intros s. split; [|subst s; vm_compute; split_and!; reflexivity].
  apply (settled_once default_engine 5 5 default_tx_config demo_settles "order-1").
  assert (forall now, event_ok 5 5 (SCall now (demo_settle None))) as Hc by (intros; split; [done|split; [cbn; lia|done]]).
  unfold demo_settles. repeat (apply Forall_cons; split; [first [apply Hc|exact I|intros d; reflexivity]|]). apply Forall_nil. exact I.
Defined.

(** The usage the file documents, [onTxHash: hash => txStateStore.ackSubmission(...)],
    acknowledges a second time: the store refuses, the refusal is thrown inside
    the retried function, and the action is run again. *)
Definition documented_callback (now : Z) (h : string) : ST TxWorld Thrown unit := fun w =>
  match ackSubmission now "order-1" h w with
  | (Ok _, w') => (Ok tt, w')
  | (Throw (TxStateError m _), w') | (Throw (ProviderError m), w') => (Throw (TError m), w')
  end.
Example documented_callback_submits_twice :
  sent_of "order-1" (settle_run default_engine 5 default_tx_config
    [SCall 1 (demo_settle (Some documented_callback)); SAction 2 0 (Ok "0xaa"); SWake 3 0; SAction 4 0 (Ok "0xbb")])
  = ["0xaa"; "0xbb"].
Proof. by vm_compute. Qed.

(** A process that dies between the record and the submission leaves an order that
    cannot be settled any more: a later call is refused because the record
    exists, until reconciliation fails it for good. *)
Example crash_before_submission_is_final :
  (fun a => match a.2 with Ok r => inl (sr_txHash r) | Throw e => inr e end) <$>
  sv_answers (settle_run default_engine 5 default_tx_config
    [SCall 1 (demo_settle None); SReboot in_any_order; SCall 2 (demo_settle None);
     SReconcile 1800002 None; SCall 1800003 (demo_settle None)])
  = [inr (StoreError (TxStateError "[tx-state] Record already exists for orderId=order-1" "ALREADY_EXISTS"));
     inr (SettlementError "order-1"
       "Order order-1 is already in terminal_failure: pending_submission timeout after 1800s" terminal 0)].
Proof. by vm_compute. Qed.
