(* ===== verification/SettlementPermissions.v ===== *)
(** * Settlement permissions

    relayer/src/support.ts and relayer/src/settlement-permissions.ts: which
    orders the relayer accepts and which settlement commands it may run, decided
    from the support policy and the configured accounts; and the gate that
    [POST /api/orders/create] of relayer/src/routes/orders.ts puts in front of
    an order.  The handler holds one policy, built from the configuration it
    also passes to the permission check. *)

From S2P Require Import Prelude SupportPolicy.

(** ** Configuration *)

Record RelayerConfig : Type := mkConfig {
  cfg_network : NetworkMode;
  cfg_rpcUrl : string;
  cfg_privateKey : string;
  cfg_escrowFactoryAddress : option string;
  cfg_horizonUrl : string;
  cfg_secretKey : string
}.

Definition support_input (cfg : RelayerConfig) (solanaProgramId : option string) : RelayerSupportInput :=
  mkRelayerInput (cfg_network cfg) (cfg_rpcUrl cfg) (cfg_privateKey cfg) (cfg_escrowFactoryAddress cfg)
    (cfg_horizonUrl cfg) (cfg_secretKey cfg) solanaProgramId.

Definition buildSupportPolicy (cfg : RelayerConfig) (solanaProgramId : option string) : SupportPolicy :=
  buildRelayerSupportPolicy (support_input cfg solanaProgramId).

(** ** Directions

    The tables are object literals: a name every object inherits is found, with
    neither a source nor a destination. *)

Definition inherited_names : list string :=
  ["constructor"; "__proto__"; "toString"; "toLocaleString"; "valueOf"; "hasOwnProperty"; "isPrototypeOf";
   "propertyIsEnumerable"; "__defineGetter__"; "__defineSetter__"; "__lookupGetter__"; "__lookupSetter__"].

Inductive Direction : Type := DRoute (from to : SupportedChain) | DInherited | DUnknown.

Definition DIRECTION_ROUTES (direction : string) : Direction :=
  if String.eqb direction "eth_to_xlm" then DRoute ethereum stellar
  else if String.eqb direction "xlm_to_eth" then DRoute stellar ethereum
  else if has direction inherited_names then DInherited
  else DUnknown.

Definition DIRECTION_COMMAND_CHAINS (direction : string) : Direction :=
  if String.eqb direction "eth_to_xlm" then DRoute ethereum stellar
  else if String.eqb direction "xlm_to_eth" then DRoute stellar ethereum
  else if has direction inherited_names then DInherited
  else DUnknown.

Definition declared_directions : string := join ", " ["eth_to_xlm"; "xlm_to_eth"].

(** ** Order requests *)

(** A field of a request body: missing or null, a string, or another value with
    its text and its truth value. *)
Inductive Field : Type := Missing | Text (s : string) | Other (text : string) (truthy : bool).

Definition field_text (f : Field) : option string :=
  match f with Missing => None | Text s => Some s | Other t _ => Some t end.

Definition NATIVE_SYMBOLS (c : SupportedChain) : string :=
  match c with ethereum => "ETH" | stellar => "XLM" | solana => "SOL" end.

Definition classifyToken (c : SupportedChain) (symbol : string) : TokenClass :=
  if String.eqb (toUpperCase (trim symbol)) (NATIVE_SYMBOLS c) then native
  else match c with ethereum => erc20 | stellar => stellar_asset | solana => spl end.

Inductive OrderRouteDecision : Type :=
| Accept (from to : SupportedChain) (tokenClass : TokenClass)
| Reject (code reason : string).

(** The chain a client names must be the one of the direction. *)
Definition declared_chain (field : string) (f : Field) (expected : option SupportedChain) (direction verb : string) :
    option OrderRouteDecision :=
  match field_text f with
  | None => None
  | Some text =>
      let wrong name :=
        Some (Reject "ROUTE_INCONSISTENT"
          (field +:+ " " +:+ dquoted name +:+ " contradicts direction " +:+ dquoted direction +:+ ", which " +:+ verb +:+ " on " +:+
           match expected with Some c => chain_name c | None => "undefined" end)) in
      match normaliseChain (Some text) with
      | RNull => Some (Reject "CHAIN_UNKNOWN" (field +:+ " " +:+ dquoted text +:+ " is not a known chain"))
      | RInherited k => wrong (inherited_text k)
      | RChain c => if bool_decide (Some c = expected) then None else wrong (chain_name c)
      end
  end.

Record OrderRouteRequest : Type := mkOrderRequest {
  rq_direction : Field;
  rq_fromChain : Field;
  rq_toChain : Field;
  rq_fromToken : Field
}.

Definition token_class (from : SupportedChain) (fromToken : Field) : TokenClass :=
  match fromToken with
  | Text t => if truthy_string (trim t) then classifyToken from t else native
  | _ => native
  end.

Definition direction_of (f : Field) : string := match f with Text d => trim d | _ => "" end.

Definition decideOrderRoute (p : SupportPolicy) (rq : OrderRouteRequest) : OrderRouteDecision :=
  let direction := direction_of (rq_direction rq) in
  let checked (from to : option SupportedChain) (rest : OrderRouteDecision) : OrderRouteDecision :=
    match declared_chain "fromChain" (rq_fromChain rq) from direction "starts" with
    | Some d => d
    | None => match declared_chain "toChain" (rq_toChain rq) to direction "ends" with Some d => d | None => rest end
    end in
  match DIRECTION_ROUTES direction with
  | DUnknown =>
      Reject "DIRECTION_UNSUPPORTED"
        ("direction " +:+ dquoted direction +:+ " is not supported (expected one of: " +:+ declared_directions +:+ ")")
  | DInherited =>
      checked None None
        (Reject "CHAIN_UNKNOWN"
           ("source chain " +:+ dquoted "undefined" +:+ " is not a known chain (expected one of: " +:+ expected_chains +:+ ")"))
  | DRoute from to =>
      checked (Some from) (Some to)
        (let t := token_class from (rq_fromToken rq) in
         match route_verdict p from to (Some (class_name t)) with
         | deny code reason => Reject (denial_code_name code) reason
         | SUPPORTED => Accept from to t
         end)
  end.

(** ** Settlement commands *)

Inductive SettlementCommand : Type := c_lock | c_settle | c_refund | c_verify.

#[export] Instance SettlementCommand_eq_dec : EqDecision SettlementCommand. Proof. solve_decision. Defined.

Definition command_name (c : SettlementCommand) : string :=
  match c with c_lock => "lock" | c_settle => "settle" | c_refund => "refund" | c_verify => "verify" end.

Definition SETTLEMENT_COMMANDS : list SettlementCommand := [c_lock; c_settle; c_refund; c_verify].

(** The command a text names. *)
Definition recognized (command : string) : option SettlementCommand :=
  List.find (fun c => String.eqb (command_name c) command) SETTLEMENT_COMMANDS.

Definition COMMAND_REQUIRED_ACTION (c : SettlementCommand) : SupportedAction :=
  match c with c_lock => lock | c_settle => settle | c_refund => refund | c_verify => observe end.

Definition resolveCommandChain (direction : string) (c : SettlementCommand) : option SupportedChain :=
  match DIRECTION_COMMAND_CHAINS direction with
  | DRoute source destination =>
      match c with
      | c_lock | c_refund | c_verify => Some source
      | c_settle => Some destination
      end
  | _ => None
  end.

Definition replace_0X (v : string) : string := if startsWith v "0X" then String.substring 2 (String.length v - 2) v else v.
Definition all_zeros (v : string) : bool := truthy_string v && forallb (fun c => Nat.eqb (Ascii.nat_of_ascii c) 48) (String.list_ascii_of_string v).

Definition isAbsentOrPlaceholder (value : option string) : bool :=
  match value with
  | None => true
  | Some value =>
      let v := toUpperCase (trim value) in
      negb (truthy_string (trim value)) || startsWith v "YOUR_" || startsWith v "REPLACE_" ||
      String.eqb v "0X0000000000000000000000000000000000000000000000000000000000000001" || all_zeros (replace_0X v)
  end.

Definition describeAccount (c : SupportedChain) (key : option string) : string :=
  match key with
  | Some k =>
      if isAbsentOrPlaceholder key then chain_name c +:+ " (no signer)"
      else chain_name c +:+ " (key: " +:+ (if Nat.ltb 6 (String.length k) then String.substring 0 6 k else k) +:+ "…)"
  | None => chain_name c +:+ " (no signer)"
  end.

Inductive PermissionDenialCode : Type :=
| DIRECTION_UNSUPPORTED | COMMAND_UNKNOWN | CHAIN_MISMATCH | P_ROUTE_UNSUPPORTED | ACTION_UNAVAILABLE | ACCOUNT_NOT_READY.

Record AuthorizationDenial : Type := mkDenial {
  d_code : PermissionDenialCode;
  d_reason : string;
  d_command : string;
  d_chain : option SupportedChain
}.

Inductive SettlementAuthorization : Type :=
| Grant (command : SettlementCommand) (chain : SupportedChain) (accountDescription : string)
| Denied (d : AuthorizationDenial).

(** The signing key of a chain, and what is missing to use it. *)
Definition signer_key (cfg : RelayerConfig) (c : SupportedChain) : option string :=
  match c with ethereum => Some (cfg_privateKey cfg) | stellar => Some (cfg_secretKey cfg) | solana => None end.

Definition account_missing (cfg : RelayerConfig) (c : SupportedChain) (command : SettlementCommand) : option string :=
  match c with
  | ethereum =>
      if isAbsentOrPlaceholder (Some (cfg_privateKey cfg)) then Some "RELAYER_PRIVATE_KEY is absent or placeholder"
      else if negb (bool_decide (command = c_verify)) && isAbsentOrPlaceholder (cfg_escrowFactoryAddress cfg)
      then Some "ESCROW_FACTORY_ADDRESS is absent or placeholder"
      else None
  | stellar =>
      if isAbsentOrPlaceholder (Some (cfg_secretKey cfg)) then Some "RELAYER_STELLAR_SECRET is absent or placeholder"
      else if isAbsentOrPlaceholder (Some (cfg_horizonUrl cfg)) then Some "STELLAR_HORIZON_URL is absent or placeholder"
      else None
  | solana => Some ("no account configuration exists for chain " +:+ dquoted (chain_name c) +:+ " in the relayer")
  end.

(** An explicit chain must be the one the direction resolves to. *)
Definition chain_mismatch (direction : string) (command : SettlementCommand) (target : SupportedChain) (chain : option string) :
    option string :=
  match chain with
  | None => None
  | Some text =>
      let wrong name :=
        Some ("command " +:+ dquoted (command_name command) +:+ " for direction " +:+ dquoted direction +:+ " must execute on " +:+
              chain_name target +:+ ", but the request specifies " +:+ name +:+ " — the chain is inconsistent with the direction") in
      match normaliseChain (Some text) with
      | RNull => Some ("chain " +:+ dquoted text +:+ " is not a known chain identifier")
      | RInherited k => wrong (inherited_text k)
      | RChain c => if bool_decide (c = target) then None else wrong (chain_name c)
      end
  end.

(** The route of the direction; a direction without one is not checked. *)
Definition route_denied (p : SupportPolicy) (direction : string) (command : SettlementCommand) : option string :=
  match DIRECTION_ROUTES direction with
  | DRoute from to =>
      match route_verdict p from to None with
      | deny _ reason =>
          Some ("settlement command " +:+ dquoted (command_name command) +:+ " denied: route " +:+ route_id from to +:+
                " is not supported by the current policy — " +:+ reason)
      | SUPPORTED => None
      end
  | DInherited =>
      Some ("settlement command " +:+ dquoted (command_name command) +:+ " denied: route undefined→undefined is not supported by the current policy — " +:+
            "source chain " +:+ dquoted "undefined" +:+ " is not a known chain (expected one of: " +:+ expected_chains +:+ ")")
  | DUnknown => None
  end.

(** Checks 2 to 6, for a command that is recognized. *)
Definition authorize (p : SupportPolicy) (cfg : RelayerConfig) (command : SettlementCommand) (direction : string)
    (chain : option string) : SettlementAuthorization :=
  let name := command_name command in
  let denied code reason target := Denied (mkDenial code reason name target) in
  match DIRECTION_COMMAND_CHAINS direction with
  | DUnknown =>
      denied DIRECTION_UNSUPPORTED
        ("direction " +:+ dquoted direction +:+ " has no settlement command mapping (declared directions: " +:+ declared_directions +:+ ")") None
  | _ =>
      match resolveCommandChain direction command with
      | None =>
          denied DIRECTION_UNSUPPORTED
            ("cannot resolve target chain for command " +:+ dquoted name +:+ " on direction " +:+ dquoted direction) None
      | Some target =>
          match chain_mismatch direction command target chain with
          | Some reason => denied CHAIN_MISMATCH reason (Some target)
          | None =>
              match route_denied p direction command with
              | Some reason => denied P_ROUTE_UNSUPPORTED reason (Some target)
              | None =>
                  match action_verdict p (COMMAND_REQUIRED_ACTION command) target with
                  | deny _ reason =>
                      denied ACTION_UNAVAILABLE
                        ("settlement command " +:+ dquoted name +:+ " requires action " +:+
                         dquoted (act_name (COMMAND_REQUIRED_ACTION command)) +:+ " on " +:+ chain_name target +:+
                         ", which is not available: " +:+ reason) (Some target)
                  | SUPPORTED =>
                      match account_missing cfg target command with
                      | Some detail =>
                          denied ACCOUNT_NOT_READY
                            ("settlement command " +:+ dquoted name +:+ " on " +:+ chain_name target +:+ " cannot proceed: " +:+ detail)
                            (Some target)
                      | None => Grant command target (describeAccount target (signer_key cfg target))
                      end
                  end
              end
          end
      end
  end.

Definition authorizeSettlementCommand (p : SupportPolicy) (cfg : RelayerConfig) (command : string) (direction : string)
    (chain : option string) : SettlementAuthorization :=
  match recognized command with
  | None =>
      Denied (mkDenial COMMAND_UNKNOWN
        (dquoted command +:+ " is not a recognized settlement command (expected one of: " +:+
         join ", " (command_name <$> SETTLEMENT_COMMANDS) +:+ ")") command None)
  | Some c => authorize p cfg c direction chain
  end.

Definition authorizeAllCommands (p : SupportPolicy) (cfg : RelayerConfig) (direction : string) :
    list (SettlementCommand * SettlementAuthorization) :=
  (fun c => (c, authorizeSettlementCommand p cfg (command_name c) direction None)) <$> SETTLEMENT_COMMANDS.

(** The first denial of the two legs. *)
Definition checkOrderSettleable (p : SupportPolicy) (cfg : RelayerConfig) (direction : string) : option AuthorizationDenial :=
  match authorizeSettlementCommand p cfg "lock" direction None with
  | Denied d => Some d
  | Grant _ _ _ =>
      match authorizeSettlementCommand p cfg "settle" direction None with
      | Denied d => Some d
      | Grant _ _ _ => None
      end
  end.

(** ** The gate of [POST /api/orders/create] *)

Record CreateRequest : Type := mkCreateRequest {
  cr_route : OrderRouteRequest;
  cr_toToken : Field;
  cr_amount : Field;
  cr_ethAddress : Field;
  cr_stellarAddress : Field
}.

Inductive Gate : Type :=
| MissingFields
| UnsupportedRoute (code details : string)
| PermissionDenied (d : AuthorizationDenial)
| Passed.

Definition truthy_field (f : Field) : bool :=
  match f with Missing => false | Text s => truthy_string s | Other _ b => b end.

(** The permission check reads [direction] as it came.  Another value than a
    string has been refused by then. *)
Definition create_gate (p : SupportPolicy) (cfg : RelayerConfig) (rq : CreateRequest) : Gate :=
  if negb (forallb truthy_field
             [rq_fromChain (cr_route rq); rq_toChain (cr_route rq); rq_fromToken (cr_route rq); cr_toToken rq; cr_amount rq;
              cr_ethAddress rq; cr_stellarAddress rq])
  then MissingFields
  else
    match decideOrderRoute p (cr_route rq) with
    | Reject code reason => UnsupportedRoute code reason
    | Accept _ _ _ =>
        match checkOrderSettleable p cfg (default "undefined" (field_text (rq_direction (cr_route rq)))) with
        | Some d => PermissionDenied d
        | None => Passed
        end
    end.

(** ** Facts *)

#[global] Arguments isAbsentOrPlaceholder : simpl never.

(** An account of the relayer can sign on a chain. *)
Definition account_ready (cfg : RelayerConfig) (c : SupportedChain) (command : SettlementCommand) : Prop :=
  account_missing cfg c command = None.

Lemma direction_tables_agree direction : DIRECTION_COMMAND_CHAINS direction = DIRECTION_ROUTES direction.
Proof. done. Qed.

(** What a grant means, for any policy. *)
Lemma authorize_granted p cfg command direction chain target account :
  authorize p cfg command direction chain = Grant command target account <->
  exists from to,
    DIRECTION_ROUTES direction = DRoute from to /\ resolveCommandChain direction command = Some target /\
    chain_mismatch direction command target chain = None /\ route_verdict p from to None = SUPPORTED /\
    COMMAND_REQUIRED_ACTION command ∈ cs_actions (chains p target) /\ account_ready cfg target command /\
    account = describeAccount target (signer_key cfg target).
Proof.
  unfold authorize, route_denied, account_ready. rewrite direction_tables_agree. split.
  - destruct (DIRECTION_ROUTES direction) as [from to| |] eqn:Hd; [|by unfold resolveCommandChain; rewrite direction_tables_agree, Hd|done].
    destruct (resolveCommandChain direction command) as [c|] eqn:Hr; [|done].
    destruct (chain_mismatch direction command c chain) eqn:Hm; [done|].
    destruct (route_verdict p from to None) eqn:Hv; [|done].
    destruct (action_verdict p (COMMAND_REQUIRED_ACTION command) c) eqn:Ha; [|done]. apply action_verdict_spec in Ha.
    destruct (account_missing cfg c command) eqn:Hacc; [done|]. intros [= <- <-]. exists from, to. by split_and!.
  - intros (from & to & -> & -> & -> & -> & Ha & -> & ->). apply action_verdict_spec in Ha. by rewrite Ha.
Qed.

(** A command is granted or denied, and a grant is for that command. *)
Lemma authorize_cases p cfg command direction chain :
  (exists target account, authorize p cfg command direction chain = Grant command target account) \/
  (exists d, authorize p cfg command direction chain = Denied d).
Proof.
  unfold authorize. destruct (DIRECTION_COMMAND_CHAINS direction); [..|by right; eexists];
    (destruct (resolveCommandChain _ _); [|by right; eexists]); (destruct (chain_mismatch _ _ _ _); [by right; eexists|]);
    (destruct (route_denied _ _ _); [by right; eexists|]); (destruct (action_verdict _ _ _); [|by right; eexists]);
    (destruct (account_missing _ _ _); [by right; eexists|]); by left; do 2 eexists.
Qed.

(** Both legs of an order are granted. *)
Lemma checkOrderSettleable_None p cfg direction :
  runtime p = relayer ->
  checkOrderSettleable p cfg direction = None <->
  exists from to,
    DIRECTION_ROUTES direction = DRoute from to /\ route_verdict p from to None = SUPPORTED /\
    lock ∈ cs_actions (chains p from) /\ settle ∈ cs_actions (chains p to) /\
    account_ready cfg from c_lock /\ account_ready cfg to c_settle.
Proof.
  intros Hr. unfold checkOrderSettleable.
  change (authorizeSettlementCommand p cfg "lock" direction None) with (authorize p cfg c_lock direction None).
  change (authorizeSettlementCommand p cfg "settle" direction None) with (authorize p cfg c_settle direction None).
  assert (forall command from to, DIRECTION_ROUTES direction = DRoute from to ->
    resolveCommandChain direction command = Some (if bool_decide (command = c_settle) then to else from)) as Hc.
  { intros command from to H. unfold resolveCommandChain. rewrite direction_tables_agree, H. by destruct command. }
  split.
  - destruct (authorize_cases p cfg c_lock direction None) as [(t & acc & El)|(d & ->)]; [rewrite El|done].
    destruct (authorize_cases p cfg c_settle direction None) as [(t' & acc' & Es)|(d & ->)]; [rewrite Es|done]. intros _.
    apply authorize_granted in El as (from & to & Hd & Ht & _ & Hv & Ha & Hacc & _).
    apply authorize_granted in Es as (from' & to' & Hd' & Ht' & _ & _ & Ha' & Hacc' & _).
    rewrite Hd in Hd'. injection Hd' as <- <-. rewrite (Hc _ _ _ Hd) in Ht. rewrite (Hc _ _ _ Hd) in Ht'. cbn in Ht, Ht'. simplify_eq. by exists from, to.
  - intros (from & to & Hd & Hv & Hl & Hs & H1 & H2).
    assert (authorize p cfg c_lock direction None = Grant c_lock from (describeAccount from (signer_key cfg from))) as ->.
    { apply authorize_granted. exists from, to. rewrite (Hc _ _ _ Hd). by split_and!. }
    assert (authorize p cfg c_settle direction None = Grant c_settle to (describeAccount to (signer_key cfg to))) as ->; [|done].
    apply authorize_granted. exists from, to. rewrite (Hc _ _ _ Hd). by split_and!.
Qed.

(** The RPC URL is usable by the shared placeholder test; the keys, the escrow
    factory and the Horizon URL by that one and by the local one. *)
Definition accounts_configured (cfg : RelayerConfig) : Prop :=
  usable (Some (cfg_rpcUrl cfg)) /\
  (usable (Some (cfg_privateKey cfg)) /\ isAbsentOrPlaceholder (Some (cfg_privateKey cfg)) = false) /\
  (usable (cfg_escrowFactoryAddress cfg) /\ isAbsentOrPlaceholder (cfg_escrowFactoryAddress cfg) = false) /\
  (usable (Some (cfg_horizonUrl cfg)) /\ isAbsentOrPlaceholder (Some (cfg_horizonUrl cfg)) = false) /\
  (usable (Some (cfg_secretKey cfg)) /\ isAbsentOrPlaceholder (Some (cfg_secretKey cfg)) = false).

Definition is_direction (direction : string) (from to : SupportedChain) : Prop :=
  (direction = "eth_to_xlm" /\ from = ethereum /\ to = stellar) \/ (direction = "xlm_to_eth" /\ from = stellar /\ to = ethereum).

Lemma DIRECTION_ROUTES_spec direction from to : DIRECTION_ROUTES direction = DRoute from to <-> is_direction direction from to.
Proof.
  unfold DIRECTION_ROUTES, is_direction. destruct (String.eqb_spec direction "eth_to_xlm") as [->|]; [naive_solver|].
  destruct (String.eqb_spec direction "xlm_to_eth") as [->|]; [naive_solver|]. destruct (has direction inherited_names); naive_solver.
Qed.

Lemma relayer_leg_actions p from to :
  runtime p = relayer -> carries p from to -> lock ∈ cs_actions (chains p from) /\ settle ∈ cs_actions (chains p to).
Proof. intros Hr (_ & H1 & H2). unfold leg_ok in *. rewrite Hr in H1, H2. cbn in *. split; [apply H1|apply H2]; constructor. Qed.

(** The permission check on the policy of the same configuration. *)
Lemma settleable_exact cfg program direction :
  checkOrderSettleable (buildSupportPolicy cfg program) cfg direction = None <->
  (exists from to, is_direction direction from to) /\ accounts_configured cfg.
Proof.
  set (p := buildSupportPolicy cfg program). assert (coherent p) as Hp by apply relayer_coherent.
  rewrite (checkOrderSettleable_None p cfg direction) by done. setoid_rewrite DIRECTION_ROUTES_spec.
  setoid_rewrite (fun a b => route_verdict_spec p a b None Hp). split.
  - intros (from & to & Hd & [Hc _] & _ & _ & H1 & H2). split; [by exists from, to|]. apply relayer_carries in Hc as (_ & _ & _ & Hr).
    destruct Hr as (R1 & R2 & R3 & R4 & R5). unfold accounts_configured. cbn in *. unfold account_ready, account_missing in *.
    destruct Hd as [(_ & -> & ->)|(_ & -> & ->)]; cbn in H1, H2;
      destruct (isAbsentOrPlaceholder (Some (cfg_privateKey cfg))), (isAbsentOrPlaceholder (cfg_escrowFactoryAddress cfg)),
        (isAbsentOrPlaceholder (Some (cfg_secretKey cfg))), (isAbsentOrPlaceholder (Some (cfg_horizonUrl cfg))); try done; by split_and!.
  - intros ((from & to & Hd) & H0 & [K1 K2] & [F1 F2] & [Z1 Z2] & [S1 S2]). exists from, to.
    assert (carries p from to) as Hc.
    { apply relayer_carries. assert (relayer_ready (support_input cfg program)) by (by split_and!).
      destruct Hd as [(_ & -> & ->)|(_ & -> & ->)]; by split_and!. }
    split; [done|]. split; [by split|]. destruct (relayer_leg_actions p from to eq_refl Hc) as [Hl Hs]. split_and!; [done..| |];
      unfold account_ready, account_missing; destruct Hd as [(_ & -> & ->)|(_ & -> & ->)]; by rewrite ?K2, ?F2, ?Z2, ?S2.
Qed.

Lemma declared_chain_None name f expected direction verb :
  declared_chain name f (Some expected) direction verb = None <->
  forall text, field_text f = Some text -> normaliseChain (Some text) = RChain expected.
Proof.
  unfold declared_chain. destruct (field_text f) as [text|]; [|naive_solver].
  destruct (normaliseChain (Some text)) as [c|k|] eqn:E; [case_bool_decide as Hc|..];
    (split; [intros H t [= <-]; try discriminate H; rewrite E; by injection Hc as ->|]);
    intros H; try done; specialize (H text eq_refl); rewrite E in H; by simplify_eq.
Qed.

Lemma declared_chain_rejects name f direction verb d : declared_chain name f None direction verb = Some d -> exists code reason, d = Reject code reason.
Proof.
  unfold declared_chain. destruct (field_text f) as [text|]; [|done].
  destruct (normaliseChain (Some text)) as [c|k|]; intros [= <-]; by do 2 eexists.
Qed.

(** When an order request is accepted, on the policy of a configuration. *)
Lemma decideOrderRoute_accepts cfg program rq from to t :
  decideOrderRoute (buildSupportPolicy cfg program) rq = Accept from to t ->
  is_direction (direction_of (rq_direction rq)) from to /\ t = native /\ token_class from (rq_fromToken rq) = native /\
  (forall text, field_text (rq_fromChain rq) = Some text -> normaliseChain (Some text) = RChain from) /\
  (forall text, field_text (rq_toChain rq) = Some text -> normaliseChain (Some text) = RChain to) /\
  carries (buildSupportPolicy cfg program) from to.
Proof.
  unfold decideOrderRoute. destruct (DIRECTION_ROUTES _) as [a b| |] eqn:Hd; [| |done].
  - destruct (declared_chain "fromChain" _ _ _ _) as [d|] eqn:H1.
    { unfold declared_chain in H1. destruct (field_text _) as [x|]; [|done]. destruct (normaliseChain _); [case_bool_decide|..]; by simplify_eq. }
    destruct (declared_chain "toChain" _ _ _ _) as [d|] eqn:H2.
    { unfold declared_chain in H2. destruct (field_text _) as [x|]; [|done]. destruct (normaliseChain _); [case_bool_decide|..]; by simplify_eq. }
    destruct (route_verdict _ _ _ _) eqn:Hv; [|done]. intros [= -> -> <-].
    apply route_verdict_spec in Hv as [Hc Ht]; [|apply relayer_coherent]. specialize (Ht _ eq_refl).
    apply DIRECTION_ROUTES_spec in Hd. pose proof (proj1 (declared_chain_None _ _ _ _ _) H1). pose proof (proj1 (declared_chain_None _ _ _ _ _) H2).
    assert (token_class from (rq_fromToken rq) = native) as Hn; [|by split_and!].
    destruct Hd as [(_ & -> & ->)|(_ & -> & ->)]; cbn in Ht; apply list_elem_of_singleton in Ht; by destruct (token_class _ _).
  - destruct (declared_chain "fromChain" _ _ _ _) as [d|] eqn:H1; [apply declared_chain_rejects in H1 as (? & ? & ->); done|].
    destruct (declared_chain "toChain" _ _ _ _) as [d|] eqn:H2; [apply declared_chain_rejects in H2 as (? & ? & ->); done|]. done.
Qed.

Lemma trim_direction d from to : is_direction d from to -> trim d = d.
Proof. by intros [(-> & _)|(-> & _)]. Qed.

Lemma is_direction_unique d a b a' b' : is_direction d a b -> is_direction d a' b' -> a = a' /\ b = b'.
Proof. intros [(-> & -> & ->)|(-> & -> & ->)] [(? & -> & ->)|(? & -> & ->)]; by split. Qed.

(** The asset of a request is native, unless a text that is not blank names
    another one. *)
Lemma token_class_native c f :
  token_class c f = native <->
  forall t, f = Text t -> trim t <> "" -> toUpperCase (trim t) = NATIVE_SYMBOLS c.
Proof.
  unfold token_class, classifyToken, truthy_string. destruct f as [|t|t b]; [naive_solver| |naive_solver].
  destruct (String.eqb_spec (trim t) "") as [E|E]; cbn [negb]; [naive_solver|].
  destruct (String.eqb_spec (toUpperCase (trim t)) (NATIVE_SYMBOLS c)); [naive_solver|]. split; [by destruct c|naive_solver].
Qed.

(** The seven fields the handler requires. *)
Definition required (rq : CreateRequest) : list Field :=
  [rq_fromChain (cr_route rq); rq_toChain (cr_route rq); rq_fromToken (cr_route rq); cr_toToken rq; cr_amount rq;
   cr_ethAddress rq; cr_stellarAddress rq].

Lemma required_spec rq : forallb truthy_field (required rq) = true <-> Forall (fun f => truthy_field f = true) (required rq).
Proof. rewrite forallb_forall, Forall_forall. by setoid_rewrite <-list_elem_of_In. Qed.

Lemma truthy_text f : truthy_field f = true -> exists t, field_text f = Some t.
Proof. destruct f; cbn; eauto; done. Qed.

(** The conditions under which an order passes. *)
Definition admissible (cfg : RelayerConfig) (rq : OrderRouteRequest) : Prop :=
  exists direction from to,
    rq_direction rq = Text direction /\ is_direction direction from to /\
    normaliseChain (field_text (rq_fromChain rq)) = RChain from /\ normaliseChain (field_text (rq_toChain rq)) = RChain to /\
    token_class from (rq_fromToken rq) = native /\ accounts_configured cfg.

Lemma admissible_accepted cfg program rq :
  admissible cfg rq -> exists from to, decideOrderRoute (buildSupportPolicy cfg program) rq = Accept from to native.
Proof.
  intros (d & from & to & Hd & Hdir & H1 & H2 & Ht & Ha). exists from, to. set (p := buildSupportPolicy cfg program).
  unfold decideOrderRoute. rewrite Hd. cbn [direction_of]. rewrite (trim_direction d from to Hdir).
  rewrite (proj2 (DIRECTION_ROUTES_spec d from to) Hdir).
  rewrite (proj2 (declared_chain_None "fromChain" _ from d "starts")) by (intros x Hx; by rewrite Hx in H1).
  rewrite (proj2 (declared_chain_None "toChain" _ to d "ends")) by (intros x Hx; by rewrite Hx in H2).
  rewrite Ht. cbn [class_name]. assert (checkOrderSettleable p cfg d = None) as Hs by (apply settleable_exact; eauto).
  apply checkOrderSettleable_None in Hs as (f' & t' & Hd' & Hv & _); [|done]. apply DIRECTION_ROUTES_spec in Hd'.
  destruct (is_direction_unique d _ _ _ _ Hdir Hd') as [<- <-].
  assert (coherent p) as Hp by apply relayer_coherent. apply (route_verdict_spec p from to None Hp) in Hv as [Hv _].
  rewrite (proj2 (route_verdict_spec p from to (Some "native") Hp)); [done|]. split; [done|]. intros x [= <-].
  destruct Hdir as [(_ & -> & ->)|(_ & -> & ->)]; by apply list_elem_of_singleton.
Qed.

Lemma gate_passed cfg program rq :
  create_gate (buildSupportPolicy cfg program) cfg rq = Passed ->
  Forall (fun f => truthy_field f = true) (required rq) /\ admissible cfg (cr_route rq).
Proof.
  unfold create_gate. fold (required rq). destruct (forallb truthy_field (required rq)) eqn:Hf; [|done]. cbn [negb].
  apply required_spec in Hf. destruct (decideOrderRoute _ _) as [from to t|] eqn:Hdec; [|done].
  apply decideOrderRoute_accepts in Hdec as (Hdir & _ & Ht & H1 & H2 & _).
  destruct (checkOrderSettleable _ _ _) eqn:Hs; [done|]. apply settleable_exact in Hs as [(f' & t' & Hd') Ha]. intros _. split; [done|].
  destruct (rq_direction (cr_route rq)) as [|d|d b] eqn:Hd; [by destruct Hdir as [(? & _)|(? & _)]| |by destruct Hdir as [(? & _)|(? & _)]].
  cbn in Hdir, Hd'. rewrite (trim_direction d f' t' Hd') in Hdir. apply Forall_cons in Hf as [F1 Hf]. apply Forall_cons in Hf as [F2 _].
  destruct (truthy_text _ F1) as [x1 E1], (truthy_text _ F2) as [x2 E2]. exists d, from, to. rewrite E1, E2. split_and!; auto.
Qed.

Lemma gate_passes cfg program rq :
  Forall (fun f => truthy_field f = true) (required rq) -> admissible cfg (cr_route rq) ->
  create_gate (buildSupportPolicy cfg program) cfg rq = Passed.
Proof.
  intros Hf Ha. unfold create_gate. fold (required rq). apply required_spec in Hf. rewrite Hf. cbn [negb].
  destruct (admissible_accepted cfg program _ Ha) as (from & to & ->). destruct Ha as (d & a & b & -> & Hd & _ & _ & _ & Hc). cbn.
  by rewrite (proj2 (settleable_exact cfg program d)) by eauto.
Qed.

(** C38.  The order gate is exact.  The relayer takes an order through it exactly
    when the seven required fields have truthy values, the direction is one of
    the two it implements, the chains the client names are the chains of that
    direction, no text names an asset other than the native one of the source
    chain (a blank text, or a value that is not a text, counts as native), and
    the configuration is complete: the RPC URL passes the shared placeholder
    test, and the two keys, the escrow factory and the Horizon URL pass both that
    test and the local one.  And a lock is never granted, with or without an
    order, unless the source chain can be locked and the destination chain can be
    settled on. *)
Theorem orders_gated (cfg : RelayerConfig) (program : option string) :
  let p := buildSupportPolicy cfg program in
  (forall rq, create_gate p cfg rq = Passed <->
     Forall (fun f => truthy_field f = true) (required rq) /\
     exists direction from to,
       rq_direction (cr_route rq) = Text direction /\ is_direction direction from to /\
       normaliseChain (field_text (rq_fromChain (cr_route rq))) = RChain from /\
       normaliseChain (field_text (rq_toChain (cr_route rq))) = RChain to /\
       (forall t, rq_fromToken (cr_route rq) = Text t -> trim t <> "" -> toUpperCase (trim t) = NATIVE_SYMBOLS from) /\
       accounts_configured cfg) /\
  (forall direction chain target account,
     authorizeSettlementCommand p cfg "lock" direction chain = Grant c_lock target account ->
     exists to, is_direction direction target to /\ lock ∈ cs_actions (chains p target) /\ settle ∈ cs_actions (chains p to)).
Proof.
  intros p. split.
  - intros rq. setoid_rewrite <- token_class_native. split; [apply gate_passed|]. intros [Hf Ha]. by apply gate_passes.
  - intros direction chain target account Hg. change (authorize p cfg c_lock direction chain = Grant c_lock target account) in Hg.
    apply authorize_granted in Hg as (from & to & Hd & Ht & _ & Hv & _). unfold resolveCommandChain in Ht.
    rewrite direction_tables_agree, Hd in Ht. injection Ht as <-. exists to. split; [by apply DIRECTION_ROUTES_spec|].
    apply route_verdict_spec in Hv as [Hv _]; [|apply relayer_coherent]. by apply relayer_leg_actions.
Qed.

Definition demo_config : RelayerConfig :=
  mkConfig testnet "https://eth.example" "0x59c6995e998f97a5a0044966f0945389" (Some "0xdef") "https://horizon.example" "SABCDEFGH".
Definition demo_request : CreateRequest :=
  mkCreateRequest (mkOrderRequest (Text "eth_to_xlm") (Text "Ethereum") (Text "soroban") (Text "eth")) (Text "XLM") (Text "1")
    (Text "0x1") (Text "G1").

Lemma orders_gated_witness :
  let p := buildSupportPolicy demo_config None in
  create_gate p demo_config demo_request = Passed /\
  exists to, is_direction "eth_to_xlm" ethereum to /\ lock ∈ cs_actions (chains p ethereum) /\ settle ∈ cs_actions (chains p to).
Proof.
  intros p. split; [by vm_compute|].
  apply (proj2 (orders_gated demo_config None) "eth_to_xlm" None ethereum (describeAccount ethereum (signer_key demo_config ethereum))).
  by vm_compute.
Defined.

(** A log line of a granted command shows the first characters of the key. *)
Example key_prefix_exposed :
  authorizeSettlementCommand (buildSupportPolicy demo_config None) demo_config "lock" "eth_to_xlm" None
  = Grant c_lock ethereum "ethereum (key: 0x59c6…)".
Proof. by vm_compute. Qed.

(** A refund on the source chain is denied when the destination cannot be
    settled on, which is when it is needed. *)
Example refund_needs_destination :
  let cfg := mkConfig testnet "https://eth.example" "0xabc" (Some "0xdef") "https://horizon.example" "" in
  let p := buildSupportPolicy cfg None in
  refund ∈ cs_actions (chains p ethereum) /\
  match authorizeSettlementCommand p cfg "refund" "eth_to_xlm" None with Denied d => d_code d = P_ROUTE_UNSUPPORTED | Grant _ _ _ => False end.
Proof. split; [apply has_spec|]; by vm_compute. Qed.

(** The local test of a placeholder is not the shared one. *)
Example placeholder_tests_differ :
  isPlaceholderValue (Some "PLACEHOLDER") = true /\ isAbsentOrPlaceholder (Some "PLACEHOLDER") = false /\
  isPlaceholderValue (Some "REPLACE_ME") = false /\ isAbsentOrPlaceholder (Some "REPLACE_ME") = true.
Proof. by vm_compute. Qed.

(** The RPC URL is not put to the local test: an order passes with a placeholder
    that the other values are refused for. *)
Example rpc_placeholder_passes :
  let cfg rpc key := mkConfig testnet rpc key (Some "0xdef") "https://horizon.example" "SABCDEFGH" in
  let gate c := create_gate (buildSupportPolicy c None) c demo_request in
  gate (cfg "REPLACE_ME" "0x59c6") = Passed /\ gate (cfg "https://eth.example" "REPLACE_ME") <> Passed.
Proof. by vm_compute. Qed.

(** An asset that is not given as a text is taken for the native one. *)
Example object_token_is_native :
  let rq token := mkCreateRequest (mkOrderRequest (Text "eth_to_xlm") (Text "ethereum") (Text "stellar") token) (Text "XLM") (Text "1")
                    (Text "0x1") (Text "G1") in
  let gate token := create_gate (buildSupportPolicy demo_config None) demo_config (rq token) in
  gate (Other "USDC" true) = Passed /\ gate (Text "USDC") <> Passed.
Proof. by vm_compute. Qed.

(** A policy can advertise routes of which no order passes. *)
Example advertised_but_refused :
  let cfg := mkConfig testnet "https://eth.example" "REPLACE_ME" (Some "0xdef") "https://horizon.example" "SABCDEFGH" in
  let p := buildSupportPolicy cfg None in
  assertSupportPolicy p = Ok tt /\ length (routes p) = 2%nat /\
  match create_gate p cfg demo_request with PermissionDenied d => d_code d = ACCOUNT_NOT_READY | _ => False end.
Proof. by vm_compute. Qed.
