(* ===== verification/PaymentGate.v ===== *)
(** * Checks before a settlement

    The three checks the relayer makes before it releases funds: the payment is
    on chain (relayer/src/services/horizon-verifier.ts), the route is one the
    relayer settles (services/route-validator.ts) and the coordinator is there
    to be asked (services/coordinator-client.ts, with its safe mode).  What
    Horizon and the coordinator answer is an input. *)

From S2P Require Import Prelude SupportPolicy SettlementPermissions.

(** ** Incoming payments *)

Inductive VerifyError : Type :=
| StellarTxNotFoundError (hash : string)
| StellarTxFailedError (hash resultCode : string)
| StellarPaymentMismatch (reason : string)
| HorizonUnavailable (message : string).

Record HorizonTxRecord : Type := mkTxRecord { ht_successful : bool; ht_ledger : Z; ht_memo : option string }.

Record HorizonOpRecord : Type := mkOpRecord {
  ho_type : string;
  ho_from : option string;
  ho_to : option string;
  ho_amount : option string;
  ho_asset_type : option string
}.

Record VerifiedStellarPayment : Type := mkVerified {
  vp_amount : string;
  vp_from : string;
  vp_to : string;
  vp_ledgerSequence : Z;
  vp_memo : option string
}.

(** [defaultFetch], on the answers of the two requests: an error of the first by
    its HTTP status and message, of the second by itself. *)
Definition defaultFetch (hash : string) (tx : outcome (Z * string) HorizonTxRecord) (ops : outcome string (list HorizonOpRecord)) :
    outcome VerifyError (HorizonTxRecord * list HorizonOpRecord) :=
  match tx with
  | Throw (status, message) => Throw (if status =? 404 then StellarTxNotFoundError hash else HorizonUnavailable message)
  | Ok tx => Ok (tx, match ops with Ok ops => ops | Throw _ => [] end)
  end.

Fixpoint span_digits (s : string) : string * string :=
  match s with
  | EmptyString => (EmptyString, EmptyString)
  | String c s' =>
      let n := Ascii.nat_of_ascii c in
      if Nat.leb 48 n && Nat.leb n 57 then let '(d, r) := span_digits s' in (String c d, r) else (EmptyString, s)
  end.

Definition zeros_only (s : string) : bool := forallb (fun c => Nat.eqb (Ascii.nat_of_ascii c) 48) (String.list_ascii_of_string s).

(** [parseFloat(s) <= 0], for texts without an exponent: a sign, digits and a
    fraction, or Infinity; what is no number is not at most zero. *)
Definition parseFloat_at_most_0 (s : string) : bool :=
  let s := trimStart s in
  let negative := startsWith s "-" in
  let r := if negative || startsWith s "+" then String.substring 1 (String.length s - 1) s else s in
  if startsWith r "Infinity" then negative
  else
    let '(i, r1) := span_digits r in
    let f := if startsWith r1 "." then (span_digits (String.substring 1 (String.length r1 - 1) r1)).1 else "" in
    truthy_string (i +:+ f) && (negative || (zeros_only i && zeros_only f)).

Definition native_payment_to (relayer : string) (op : HorizonOpRecord) : bool :=
  String.eqb (ho_type op) "payment" && bool_decide (ho_asset_type op = Some "native") && bool_decide (ho_to op = Some relayer).

Definition verifyIncomingStellarPayment (hash relayer : string) (expectedSourceAccount : option string)
    (fetched : outcome VerifyError (HorizonTxRecord * list HorizonOpRecord)) : outcome VerifyError VerifiedStellarPayment :=
  match fetched with
  | Throw e => Throw e
  | Ok (tx, ops) =>
      if negb (ht_successful tx) then Throw (StellarTxFailedError hash "tx_not_successful")
      else
        match List.find (native_payment_to relayer) ops with
        | None =>
            Throw (StellarPaymentMismatch ("No native XLM payment to relayer (" +:+ relayer +:+ ") found in transaction " +:+ hash))
        | Some op =>
            let amount := default "" (ho_amount op) in
            if negb (truthy_string amount) || parseFloat_at_most_0 amount then
              Throw (StellarPaymentMismatch ("Payment amount is missing or zero in transaction " +:+ hash))
            else if truthy_string (default "" expectedSourceAccount) && negb (bool_decide (ho_from op = expectedSourceAccount)) then
              Throw (StellarPaymentMismatch
                ("Payment source account mismatch: expected " +:+ default "" expectedSourceAccount +:+ ", got " +:+
                 default "unknown" (ho_from op) +:+ " in transaction " +:+ hash))
            else Ok (mkVerified amount (default "" (ho_from op)) (default relayer (ho_to op)) (ht_ledger tx) (ht_memo tx))
        end
  end.

(** ** Settlement routes *)

Record SettlementRoute : Type := mkSettlementRoute {
  sr_direction : string;
  sr_fromChain : string;
  sr_toChain : string;
  sr_fromAssets : list string;
  sr_toAssets : list string
}.

Definition SUPPORTED_SETTLEMENT_ROUTES : list SettlementRoute :=
  [mkSettlementRoute "eth_to_xlm" "ethereum" "stellar" ["ETH"] ["XLM"];
   mkSettlementRoute "xlm_to_eth" "stellar" "ethereum" ["XLM"] ["ETH"]].

Definition normalise (f : Field) : string := match f with Text s => toLowerCase (trim s) | _ => "" end.
Definition normaliseAsset (f : Field) : string := match f with Text s => toUpperCase (trim s) | _ => "" end.

Inductive RouteValidationResult : Type := ValidRoute (r : SettlementRoute) | InvalidRoute (code reason : string).

Definition chain_contradicts (field : string) (f : Field) (expected label direction : string) : option RouteValidationResult :=
  let declared := normalise f in
  if truthy_string declared && negb (String.eqb declared expected) then
    Some (InvalidRoute "CHAIN_MISMATCH"
      (field +:+ " " +:+ dquoted declared +:+ " contradicts direction " +:+ dquoted direction +:+ " (expected " +:+ label +:+
       " chain: " +:+ expected +:+ ")"))
  else None.

Definition validateSettlementRoute (rq : OrderRouteRequest) : RouteValidationResult :=
  let direction := normalise (rq_direction rq) in
  match List.find (fun r => String.eqb (sr_direction r) direction) SUPPORTED_SETTLEMENT_ROUTES with
  | None =>
      InvalidRoute "DIRECTION_UNSUPPORTED"
        ("direction " +:+ dquoted direction +:+ " is not a supported settlement route (supported: " +:+
         join ", " (sr_direction <$> SUPPORTED_SETTLEMENT_ROUTES) +:+ ")")
  | Some route =>
      match chain_contradicts "fromChain" (rq_fromChain rq) (sr_fromChain route) "source" direction with
      | Some bad => bad
      | None =>
          match chain_contradicts "toChain" (rq_toChain rq) (sr_toChain route) "destination" direction with
          | Some bad => bad
          | None =>
              let asset := normaliseAsset (rq_fromToken rq) in
              if truthy_string asset && negb (has asset (sr_fromAssets route)) then
                InvalidRoute "ASSET_UNSUPPORTED"
                  ("asset " +:+ dquoted asset +:+ " is not supported on " +:+ sr_fromChain route +:+ " for direction " +:+
                   dquoted direction +:+ " (supported: " +:+ join ", " (sr_fromAssets route) +:+ ")")
              else ValidRoute route
          end
      end
  end.

(** [assertSettlementRoute] is the same with one more log line. *)
Definition assertSettlementRoute : OrderRouteRequest -> RouteValidationResult := validateSettlementRoute.

(** ** The coordinator *)

Definition MAX_CONSECUTIVE_FAILURES : Z := 3.
Definition STALE_THRESHOLD_MS : Z := 30000.

Record CoordinatorClient : Type := mkClient {
  consecutiveFailures : Z;
  lastSuccessAt : option Z;
  safeModeActive : bool;
  safeModeReason : option string
}.

Definition newClient : CoordinatorClient := mkClient 0 None false None.

Definition isAvailable (now : Z) (c : CoordinatorClient) : bool :=
  negb (safeModeActive c) && match lastSuccessAt c with Some t => now - t <? STALE_THRESHOLD_MS | None => false end.

Definition recordSuccess (now : Z) (c : CoordinatorClient) : CoordinatorClient := mkClient 0 (Some now) false
  (if safeModeActive c then None else safeModeReason c).

Definition recordFailure (maxFailures : Z) (reason : string) (c : CoordinatorClient) : CoordinatorClient :=
  let n := consecutiveFailures c + 1 in
  if negb (safeModeActive c) && (maxFailures <=? n) then
    mkClient n (lastSuccessAt c) true (Some (pretty n +:+ " consecutive failures (last: " +:+ reason +:+ ")"))
  else mkClient n (lastSuccessAt c) (safeModeActive c) (safeModeReason c).

(** What a request of the coordinator ends with: a body, an HTTP status that is
    not 2xx, or an error that is a timeout or is not. *)
Inductive FetchEnd (A : Type) : Type := Body (a : A) | NotOk (status : Z) | FetchError (isTimeout : bool).
Arguments Body {A} _.
Arguments NotOk {A} _.
Arguments FetchError {A} _.

Definition fetched {A} (maxFailures now : Z) (r : FetchEnd A) (c : CoordinatorClient) : option A * CoordinatorClient :=
  match r with
  | Body a => (Some a, recordSuccess now c)
  | NotOk status => (None, recordFailure maxFailures ("http_" +:+ pretty status) c)
  | FetchError t => (None, recordFailure maxFailures (if t then "timeout" else "connection_error") c)
  end.

Record CoordinatorOrderMetadata : Type := mkMetadata { md_orderId : string; md_status : string }.

(** [getOrderMetadata] makes a request unless the client is in safe mode. *)
Definition asks_coordinator (c : CoordinatorClient) : bool := negb (safeModeActive c).

Definition getOrderMetadata (maxFailures now : Z) (r : FetchEnd CoordinatorOrderMetadata) (c : CoordinatorClient) :
    option CoordinatorOrderMetadata * CoordinatorClient :=
  if safeModeActive c then (None, c) else fetched maxFailures now r c.

Definition probe (maxFailures now : Z) (r : FetchEnd unit) (c : CoordinatorClient) : bool * CoordinatorClient :=
  let '(a, c') := fetched maxFailures now r c in (bool_decide (is_Some a), c').

(** [None] is [{ safe: true }]. *)
Definition assertCoordinatorSafe (now : Z) (c : CoordinatorClient) (metadata : option CoordinatorOrderMetadata) : option string :=
  if negb (isAvailable now c) then Some (default "coordinator_unreachable" (safeModeReason c))
  else match metadata with None => Some "null_metadata" | Some _ => None end.

(** ** Facts *)

(** A verified payment is a native payment to the relayer of a transaction that
    succeeded, from the expected account when there is one. *)
Lemma verified_payment hash relayer expected fetched v :
  verifyIncomingStellarPayment hash relayer expected fetched = Ok v ->
  exists tx ops op, fetched = Ok (tx, ops) /\ ht_successful tx = true /\ op ∈ ops /\ native_payment_to relayer op = true /\
    ho_amount op = Some (vp_amount v) /\ truthy_string (vp_amount v) = true /\ vp_to v = relayer /\
    (forall a, expected = Some a -> truthy_string a = true -> ho_from op = Some a /\ vp_from v = a).
Proof.
  unfold verifyIncomingStellarPayment. destruct fetched as [[tx ops]|e]; [|done].
  destruct (ht_successful tx) eqn:Hs; [|done]. cbn [negb]. destruct (List.find _ ops) as [op|] eqn:Hf; [|done].
  apply List.find_some in Hf as [Hin Hop]. destruct (truthy_string (default "" (ho_amount op))) eqn:Ht; [|done].
  destruct (parseFloat_at_most_0 _); [done|]. cbn [negb orb].
  destruct (truthy_string (default "" expected) && _) eqn:Hx; [done|]. intros [= <-]. exists tx, ops, op. cbn.
  assert (ho_to op = Some relayer) as Hto.
  { unfold native_payment_to in Hop. apply andb_prop in Hop as [_ Hop]. by apply bool_decide_eq_true in Hop. }
  split_and!; [done|done|by apply list_elem_of_In|done|by destruct (ho_amount op)|done|by rewrite Hto|].
  intros a -> Ha. cbn in Hx. rewrite Ha in Hx. cbn in Hx. apply negb_false_iff, bool_decide_eq_true in Hx. by rewrite Hx.
Qed.

(** The handlers validate a constant route: only the direction is in question. *)
Lemma route_of_xlm_to_eth direction :
  (exists r, assertSettlementRoute (mkOrderRequest (Text direction) (Text "stellar") (Text "ethereum") Missing) = ValidRoute r) <->
  toLowerCase (trim direction) = "xlm_to_eth".
Proof.
  unfold assertSettlementRoute, validateSettlementRoute. cbn [normalise rq_direction rq_fromChain rq_toChain rq_fromToken normaliseAsset].
  set (d := toLowerCase (trim direction)). unfold SUPPORTED_SETTLEMENT_ROUTES. cbn [List.find sr_direction].
  destruct (String.eqb_spec "eth_to_xlm" d) as [<-|]; [split; [by intros [r Hr]|done]|].
  destruct (String.eqb_spec "xlm_to_eth" d) as [<-|Hn]; [split; [done|by eexists]|].
  split; [by intros [r Hr]|]. intros E. by destruct Hn.
Qed.

(** The state of a client: safe mode has a reason, and is reached after the
    failures that call for it. *)
Definition client_ok (maxFailures : Z) (c : CoordinatorClient) : Prop :=
  0 <= consecutiveFailures c /\ (safeModeActive c = true <-> is_Some (safeModeReason c)) /\
  (safeModeActive c = true <-> maxFailures <= consecutiveFailures c).

Lemma fetched_ok {A} maxFailures now (r : FetchEnd A) c :
  0 < maxFailures -> client_ok maxFailures c -> client_ok maxFailures (fetched maxFailures now r c).2.
Proof.
  intros Hm (H0 & H1 & H2).
  assert (forall reason, client_ok maxFailures (recordFailure maxFailures reason c)) as Hf.
  { intros reason. unfold recordFailure. destruct (safeModeActive c) eqn:Hs; cbn [negb andb].
    - split_and!; cbn; [lia|done|]. split; [|done]. intros _. assert (maxFailures <= consecutiveFailures c) by by apply H2. lia.
    - destruct (Z.leb_spec maxFailures (consecutiveFailures c + 1)) as [Hl|Hl]; split_and!; cbn; try lia; try done; split; try done; lia. }
  destruct r; cbn; [|apply Hf..]. split_and!; cbn; [lia| |lia]. split; [done|]. intros Hr.
  destruct (safeModeActive c) eqn:Hs; [by destruct Hr|]. by apply H1 in Hr.
Qed.

(** Nothing is settled unless the coordinator has answered for this order, and
    within the last thirty seconds. *)
Lemma coordinator_safe now c metadata :
  assertCoordinatorSafe now c metadata = None ->
  is_Some metadata /\ safeModeActive c = false /\ exists t, lastSuccessAt c = Some t /\ now - t < STALE_THRESHOLD_MS.
Proof.
  unfold assertCoordinatorSafe, isAvailable. destruct (safeModeActive c); [done|]. destruct (lastSuccessAt c) as [t|]; [|done].
  destruct (Z.ltb_spec (now - t) STALE_THRESHOLD_MS); [|done]. destruct metadata; [|done]. intros _. split_and!; [done..|by exists t].
Qed.

(** Safe mode ends by a probe only: a request for an order does not ask. *)
Lemma safe_mode_sticky maxFailures now r c :
  safeModeActive c = true -> getOrderMetadata maxFailures now r c = (None, c).
Proof. intros H. unfold getOrderMetadata. by rewrite H. Qed.

(** Three orders the coordinator does not know, and settlement is blocked for all
    the others: a 404 counts as the coordinator being away. *)
Example unknown_orders_trip_safe_mode :
  let ask now c := (getOrderMetadata MAX_CONSECUTIVE_FAILURES now (NotOk 404) c).2 in
  let c := ask 3 (ask 2 (ask 1 newClient)) in
  let good := Body (mkMetadata "order-1" "announced") in
  safeModeReason c = Some "3 consecutive failures (last: http_404)" /\
  assertCoordinatorSafe 5 (getOrderMetadata MAX_CONSECUTIVE_FAILURES 4 good c).2 (getOrderMetadata MAX_CONSECUTIVE_FAILURES 4 good c).1
  = Some "3 consecutive failures (last: http_404)".
Proof. by vm_compute. Qed.
