(* ===== verification/EthRelease.v ===== *)
(** * Release of ETH for a Stellar payment

    relayer/src/routes/orders.ts: the handlers [POST /api/orders/xlm-to-eth] and
    [POST /api/orders/process], which pay out, and [POST
    /api/orders/manual-refund].  A request is a state machine that stops at its
    awaits - Horizon, the coordinator, each attempt of a retried action, the
    sleep between two - so that any number of requests interleave on the
    relayer's orders, its proof ledger, refund ledger, failure store, breakers
    and coordinator client; a restart loses what is in memory.  A refund, once
    it starts, runs as one step.

    The order fields are those the handlers read or write; a response is its
    status.  Keys, wallets and the Stellar SDK are parameters, and so is the
    amount of XLM that [process] computes in floating point.  Log lines and
    metrics are left out. *)

From S2P Require Import Prelude JsMap FileStore XlmAmounts RefundLedger XlmRefund RefundWatchdog.
From S2P Require Import SettlementFailures SettlementPolicy SupportPolicy SettlementPermissions PaymentGate ProofLedger RetryEngine.
From Stdlib Require Import QArith.
#[local] Open Scope Z_scope.

(** ** State *)

(** An order: what the watchdog sees of it, and the fields only the handlers use.
    The rate is [Number(exchangeRate)], when that is finite. *)
Record StoredOrder : Type := mkOrder {
  so_watch : WatchdogOrder;
  so_ethAddress : option string;
  so_networkMode : option string;
  so_contractType : option string;
  so_exchangeRate : option Q;
  so_ethTxHash : option string
}.

Inductive Handler : Type := HXlmToEth | HProcess | HEscrow | HEthToXlm | HManualRefund.

(** Where a request waits.  The stages that pay carry the amount in wei. *)
Inductive Stage : Type :=
| Verifying
| AskingCoordinator
| Balancing | BalanceSleep
| Sending (wei : Z) | SendSleep (wei : Z)
| Confirming | ConfirmSleep
| PayingXlm
| Answered (status : Z).

Record Request : Type := mkRequest {
  q_handler : Handler;
  q_orderId : string;
  q_hash : string;
  q_dest : string;
  q_address : option string;
  q_secret : string;
  q_relayer : string;
  q_paid : option VerifiedStellarPayment;
  q_wei : option Z;
  q_attempts : Z;
  q_lastFault : FaultClass;
  q_ethTx : string;
  q_stage : Stage
}.

(** A started [sendTransaction]: for which payment, to whom and how much. *)
Record Send : Type := mkSend {
  sd_hash : string;
  sd_orderId : string;
  sd_to : string;
  sd_wei : Z
}.

Record Relayer : Type := mkRelayer {
  w_orders : list (string * StoredOrder);
  w_proofs : ProofLedger;
  w_refunds : World;
  w_failures : FailureStore;
  w_breakers : Breakers;
  w_coordinator : CoordinatorClient;
  w_requests : list Request;
  w_horizon : list (string * (HorizonTxRecord * list HorizonOpRecord));
  w_sends : list Send;
  w_acks : list (string * string);
  w_payouts : list (string * string)
}.

Definition newRelayer : Relayer :=
  mkRelayer [] fresh_store (mkWorld [] fresh_store) (mkFailureStore fresh_store 0) [] newClient [] [] [] [] [].

Record Env : Type := mkEnv {
  ev_privateKey : option string;
  ev_walletValid : bool;
  ev_secret : bool -> option string;
  ev_publicKey : string -> option string;
  ev_defaultNetwork : string;
  ev_policy : SupportPolicy;
  ev_config : RelayerConfig;
  ev_horizon : Horizon;
  ev_engine : EngineCfg;
  ev_maxFailures : Z
}.

Definition set_orders (os : list (string * StoredOrder)) (w : Relayer) : Relayer :=
  mkRelayer os (w_proofs w) (w_refunds w) (w_failures w) (w_breakers w) (w_coordinator w) (w_requests w) (w_horizon w) (w_sends w)
    (w_acks w) (w_payouts w).
Definition set_proofs (p : ProofLedger) (w : Relayer) : Relayer :=
  mkRelayer (w_orders w) p (w_refunds w) (w_failures w) (w_breakers w) (w_coordinator w) (w_requests w) (w_horizon w) (w_sends w)
    (w_acks w) (w_payouts w).
Definition set_refunds (r : World) (w : Relayer) : Relayer :=
  mkRelayer (w_orders w) (w_proofs w) r (w_failures w) (w_breakers w) (w_coordinator w) (w_requests w) (w_horizon w) (w_sends w)
    (w_acks w) (w_payouts w).
Definition set_failures (f : FailureStore) (w : Relayer) : Relayer :=
  mkRelayer (w_orders w) (w_proofs w) (w_refunds w) f (w_breakers w) (w_coordinator w) (w_requests w) (w_horizon w) (w_sends w)
    (w_acks w) (w_payouts w).
Definition set_breakers (b : Breakers) (w : Relayer) : Relayer :=
  mkRelayer (w_orders w) (w_proofs w) (w_refunds w) (w_failures w) b (w_coordinator w) (w_requests w) (w_horizon w) (w_sends w)
    (w_acks w) (w_payouts w).
Definition set_coordinator (c : CoordinatorClient) (w : Relayer) : Relayer :=
  mkRelayer (w_orders w) (w_proofs w) (w_refunds w) (w_failures w) (w_breakers w) c (w_requests w) (w_horizon w) (w_sends w)
    (w_acks w) (w_payouts w).
Definition set_requests (rs : list Request) (w : Relayer) : Relayer :=
  mkRelayer (w_orders w) (w_proofs w) (w_refunds w) (w_failures w) (w_breakers w) (w_coordinator w) rs (w_horizon w) (w_sends w)
    (w_acks w) (w_payouts w).
Definition add_horizon (h : string) (a : HorizonTxRecord * list HorizonOpRecord) (w : Relayer) : Relayer :=
  mkRelayer (w_orders w) (w_proofs w) (w_refunds w) (w_failures w) (w_breakers w) (w_coordinator w) (w_requests w)
    (w_horizon w ++ [(h, a)]) (w_sends w) (w_acks w) (w_payouts w).
Definition add_send (s : Send) (w : Relayer) : Relayer :=
  mkRelayer (w_orders w) (w_proofs w) (w_refunds w) (w_failures w) (w_breakers w) (w_coordinator w) (w_requests w)
    (w_horizon w) (w_sends w ++ [s]) (w_acks w) (w_payouts w).
Definition add_ack (h tx : string) (w : Relayer) : Relayer :=
  mkRelayer (w_orders w) (w_proofs w) (w_refunds w) (w_failures w) (w_breakers w) (w_coordinator w) (w_requests w)
    (w_horizon w) (w_sends w) (w_acks w ++ [(h, tx)]) (w_payouts w).
Definition add_payout (o dest : string) (w : Relayer) : Relayer :=
  mkRelayer (w_orders w) (w_proofs w) (w_refunds w) (w_failures w) (w_breakers w) (w_coordinator w) (w_requests w)
    (w_horizon w) (w_sends w) (w_acks w) (w_payouts w ++ [(o, dest)]).

Definition with_stage (st : Stage) (q : Request) : Request :=
  mkRequest (q_handler q) (q_orderId q) (q_hash q) (q_dest q) (q_address q) (q_secret q) (q_relayer q) (q_paid q) (q_wei q)
    (q_attempts q) (q_lastFault q) (q_ethTx q) st.
Definition with_engine (n : Z) (c : FaultClass) (q : Request) : Request :=
  mkRequest (q_handler q) (q_orderId q) (q_hash q) (q_dest q) (q_address q) (q_secret q) (q_relayer q) (q_paid q) (q_wei q)
    n c (q_ethTx q) (q_stage q).
Definition with_paid (v : VerifiedStellarPayment) (q : Request) : Request :=
  mkRequest (q_handler q) (q_orderId q) (q_hash q) (q_dest q) (q_address q) (q_secret q) (q_relayer q) (Some v) (q_wei q)
    (q_attempts q) (q_lastFault q) (q_ethTx q) (q_stage q).
Definition with_wei (n : Z) (q : Request) : Request :=
  mkRequest (q_handler q) (q_orderId q) (q_hash q) (q_dest q) (q_address q) (q_secret q) (q_relayer q) (q_paid q) (Some n)
    (q_attempts q) (q_lastFault q) (q_ethTx q) (q_stage q).
Definition with_ethTx (h : string) (q : Request) : Request :=
  mkRequest (q_handler q) (q_orderId q) (q_hash q) (q_dest q) (q_address q) (q_secret q) (q_relayer q) (q_paid q) (q_wei q)
    (q_attempts q) (q_lastFault q) h (q_stage q).

Definition answer (status : Z) (q : Request) : Request := with_stage (Answered status) q.

(** ** Orders *)

Definition upd_order (id : string) (f : StoredOrder -> StoredOrder) (w : Relayer) : Relayer :=
  match jm_get id (w_orders w) with
  | Some o => set_orders (jm_set id (f o) (w_orders w)) w
  | None => w
  end.

Definition set_watch (f : WatchdogOrder -> WatchdogOrder) (o : StoredOrder) : StoredOrder :=
  mkOrder (f (so_watch o)) (so_ethAddress o) (so_networkMode o) (so_contractType o) (so_exchangeRate o) (so_ethTxHash o).
Definition set_status (status : string) (o : StoredOrder) : StoredOrder :=
  set_watch (fun v => mkWatchdogOrder (RefundWatchdog.direction v) (Some status) (stellarAddress v) (RefundWatchdog.stellarTxHash v)
    (xlmReceivedAt v) (created v) (amount v) (refundTxHash v) (refundedAt v) (watchdogFailedAt v)) o.
Definition set_stellarTx (h : string) (o : StoredOrder) : StoredOrder :=
  set_watch (fun v => mkWatchdogOrder (RefundWatchdog.direction v) (wo_status v) (stellarAddress v) (Some h)
    (xlmReceivedAt v) (created v) (amount v) (refundTxHash v) (refundedAt v) (watchdogFailedAt v)) o.
Definition set_ethTx (h : option string) (o : StoredOrder) : StoredOrder :=
  mkOrder (so_watch o) (so_ethAddress o) (so_networkMode o) (so_contractType o) (so_exchangeRate o) h.

(** The fields [xlm-to-eth] sets before it checks anything else. *)
Definition receive_payment (now : Z) (hash : string) (address : option string) (reqNet : string) (o : StoredOrder) : StoredOrder :=
  let v := so_watch o in
  mkOrder
    (mkWatchdogOrder (RefundWatchdog.direction v) (wo_status v) (if truthy_opt address then address else stellarAddress v)
       (Some hash) (Some (default (TNumber now) (xlmReceivedAt v))) (created v) (amount v) (refundTxHash v) (refundedAt v)
       (watchdogFailedAt v))
    (so_ethAddress o) (Some (default reqNet (so_networkMode o))) (so_contractType o) (so_exchangeRate o) (so_ethTxHash o).

Definition order_direction (w : Relayer) (id : string) : string :=
  default "xlm_to_eth" (jm_get id (w_orders w) ≫= fun o => RefundWatchdog.direction (so_watch o)).

(** ** Amounts *)

Inductive Amount : Type := Wei (n : Z) | BadRequest | AmountError.

(** The first two parts of [text.split('.')]. *)
Definition split_parts (text : string) : string * string :=
  match split_dot text with
  | None => (text, "")
  | Some (i, rest) => (i, match split_dot rest with Some (f, _) => f | None => rest end)
  end.

Definition stroops_of (text : string) : option Z :=
  let '(iPart, fPart) := split_parts text in
  match BigInt_of iPart, BigInt_of (String.substring 0 7 (padEnd 7 fPart)) with
  | Some i, Some f => Some (i * 10000000 + f)
  | _, _ => None
  end.

Definition release_amount (rate : option Q) (verified : string) : Amount :=
  match rate with
  | None => BadRequest
  | Some q =>
      if Qle_bool q 0 then BadRequest
      else
        match stroops_of verified with
        | None => AmountError
        | Some stroops =>
            let rateBig := Math_round q in
            if negb (isSafeInteger rateBig) then BadRequest
            else if rateBig =? 0 then BadRequest
            else
              let wei := (stroops * 10 ^ 18) ÷ (rateBig * 10000000) in
              if wei =? 0 then BadRequest else Wei wei
        end
  end.

Definition gasCost : Z := 21000 * (20 * 10 ^ 9).

(** The XLM [processEscrowToStellar] pays for an escrow, in stroops. *)
Definition escrow_stroops (wei : Z) (rate : Q) : option Z :=
  if isSafeInteger (Math_round rate) then Some ((wei * Math_round rate) ÷ 10 ^ 18) else None.

(** ** The retried actions *)

Section Handlers.
Context (env : Env).

Definition plain_error (message : string) : SettlementPolicy.RawError := SettlementPolicy.mkRawError None message None None 0 None [].

Definition ETH_BALANCE_ATTEMPTS : Z := 4.
Definition ETH_SEND_ATTEMPTS : Z := 3.
Definition ETH_CONFIRM_ATTEMPTS : Z := 5.

Definition fault_class (e : SettlementPolicy.RawError) : FaultClass :=
  default (defaultClassifier (TError (e_message e))) (ethRpcClassifier e).

Definition class_text (c : FaultClass) : string :=
  match c with transient => "transient" | confirmation_delay => "confirmation_delay" | RetryEngine.terminal => "terminal" end.

Definition exhausted (action : string) (n : Z) (c : FaultClass) : SettlementPolicy.RawError :=
  plain_error ("[retry-engine] '" +:+ action +:+ "' exhausted " +:+ pretty n +:+ " attempts (last fault: " +:+ class_text c +:+ ")").
Definition circuit_open (action : string) : SettlementPolicy.RawError :=
  plain_error ("[retry-engine] Circuit for '" +:+ action +:+ "' is open — fast-failing").

Definition hasFailed (id : string) (w : Relayer) : bool := bool_decide (is_Some (fs_get id (fstore (w_failures w)))).

Definition record_failure (now : Z) (q : Request) (e : SettlementPolicy.RawError) (recoveryAction : string) (w : Relayer) : Relayer :=
  set_failures (SettlementFailures.recordFailure now
    (mkFailureInput (q_orderId q) (order_direction w (q_orderId q)) (classifyFailureCategory e on_ethereum) (e_message e)
       (Some on_ethereum) (Some recoveryAction)) (w_failures w)).2 w.

(** The [catch] around the release: [xlm-to-eth] tries to refund, both answer 500. *)
Definition release_failed (now : Z) (q : Request) (e : SettlementPolicy.RawError) (w : Relayer) : Request * Relayer :=
  match q_handler q, jm_get (q_orderId q) (w_orders w) with
  | HXlmToEth, Some o =>
      let '((_, v), r) := automatic_refund (ev_horizon env) (q_orderId q) (q_secret q) (default "" (q_address q)) (q_hash q)
                            (default "" (vp_amount <$> q_paid q)) (so_watch o) (w_refunds w) in
      let w := upd_order (q_orderId q) (set_watch (fun _ => v)) (set_refunds r w) in
      (answer 500 q, record_failure now q e "XLM refund attempted; watchdog will follow up" w)
  | _, _ => (answer 500 q, w)
  end.

(** The [catch] of [runWithSettlementRetry]. *)
Definition engine_failed (now : Z) (action : string) (q : Request) (e : SettlementPolicy.RawError) (w : Relayer) : Request * Relayer :=
  release_failed now q e (record_failure now q e ("RetryEngine exhausted for action=" +:+ action) w).

(** The head of the engine's loop. *)
Definition start_attempt (now : Z) (action : string) (maxAttempts : Z) (st : Stage) (q : Request) (w : Relayer) : Request * Relayer :=
  let '(pass, bs) := checkCircuit (ev_engine env) now action (w_breakers w) in
  let w := set_breakers bs w in
  if negb pass then engine_failed now action q (circuit_open action) w
  else if q_attempts q <? maxAttempts then
    let q := with_stage st (with_engine (q_attempts q + 1) (q_lastFault q) q) in
    (q, match st with Sending wei => add_send (mkSend (q_hash q) (q_orderId q) (q_dest q) wei) w | _ => w end)
  else engine_failed now action q (exhausted action maxAttempts (q_lastFault q)) w.

Definition enter_action (now : Z) (action : string) (maxAttempts : Z) (st : Stage) (q : Request) (w : Relayer) : Request * Relayer :=
  let w := if hasFailed (q_orderId q) w then set_failures (markRecovering now (q_orderId q) (w_failures w)) w else w in
  start_attempt now action maxAttempts st (with_engine 0 transient q) w.

Definition action_threw (now : Z) (action : string) (maxAttempts : Z) (sleep : Stage) (e : SettlementPolicy.RawError) (q : Request)
    (w : Relayer) : Request * Relayer :=
  let c := fault_class e in
  let w := set_breakers (onFailure (ev_engine env) now action (w_breakers w)) w in
  let q := with_engine (q_attempts q) c q in
  if bool_decide (c = RetryEngine.terminal) then engine_failed now action q e w
  else if q_attempts q =? maxAttempts then engine_failed now action q (exhausted action maxAttempts c) w
  else (with_stage sleep q, w).

Definition action_done (now : Z) (action txHash : string) (q : Request) (w : Relayer) : Relayer :=
  let w := set_breakers (onSuccess action (w_breakers w)) w in
  if hasFailed (q_orderId q) w then set_failures (markRecovered now (q_orderId q) txHash (w_failures w)) w else w.

(** ** From the verification to the release *)

Definition amount_of (q : Request) (w : Relayer) : Amount :=
  release_amount (jm_get (q_orderId q) (w_orders w) ≫= so_exchangeRate) (default "" (vp_amount <$> q_paid q)).

(** After the coordinator: permission, wallet, balance. *)
Definition after_coordinator (now : Z) (metadata : option CoordinatorOrderMetadata) (q : Request) (w : Relayer) : Request * Relayer :=
  match assertCoordinatorSafe now (w_coordinator w) metadata with
  | Some _ => (answer 503 q, w)
  | None =>
      match authorizeSettlementCommand (ev_policy env) (ev_config env) "settle" (order_direction w (q_orderId q)) (Some "ethereum") with
      | Denied _ => (answer 403 q, w)
      | Grant _ _ _ =>
          if negb (ev_walletValid env) then release_failed now q (plain_error "invalid private key") w
          else enter_action now "eth-balance" ETH_BALANCE_ATTEMPTS Balancing q w
      end
  end.

(** The route check, and the question to the coordinator unless it is in safe
    mode. *)
Definition check_route (now : Z) (q : Request) (w : Relayer) : Request * Relayer :=
  match assertSettlementRoute (mkOrderRequest (Text (order_direction w (q_orderId q))) (Text "stellar") (Text "ethereum") Missing) with
  | InvalidRoute _ _ => (answer 400 q, w)
  | ValidRoute _ =>
      if asks_coordinator (w_coordinator w) then (with_stage AskingCoordinator q, w) else after_coordinator now None q w
  end.

Definition verify_status (e : VerifyError) : Z :=
  match e with
  | StellarTxNotFoundError _ => 404
  | StellarTxFailedError _ _ | StellarPaymentMismatch _ => 400
  | HorizonUnavailable _ => 503
  end.

(** The payment is verified: consume the proof and go on.  [process] computes the
    amount first. *)
Definition release_verified (now : Z) (v : VerifiedStellarPayment) (q : Request) (w : Relayer) : Request * Relayer :=
  let '(granted, proofs) := consume now (q_hash q) (mkProofMeta (q_orderId q) (vp_amount v) (Some (vp_ledgerSequence v))) (w_proofs w) in
  let w := set_proofs proofs w in
  let q := with_paid v q in
  if negb granted then (answer 409 q, w)
  else
    match q_handler q with
    | HProcess =>
        match amount_of q w with
        | BadRequest => (answer 400 q, w)
        | AmountError => release_failed now q (plain_error "Cannot convert to a BigInt") w
        | Wei n => check_route now (with_wei n q) w
        end
    | _ => check_route now q w
    end.

(** [manual-refund] after the verification, under the claim it has taken. *)
Definition manual_refund_verified (v : VerifiedStellarPayment) (q : Request) (w : Relayer) : Request * Relayer :=
  let id := q_orderId q in
  let args := mkRefundXlmArgs id (default "" (q_address q)) (Some (q_hash q)) (q_secret q) (Some (FString (vp_amount v))) true 2
                DEFAULT_FEE_BUMP_CAP_STROOPS in
  match refundXlmToUser (ev_horizon env) args (w_refunds w) with
  | (Ok res, r) =>
      (answer 200 q, upd_order id (set_watch (mark_refunded_inline (rx_hash res))) (set_refunds r w))
  | (Throw (Typed (XlmRefund.HorizonTimeoutError m)), r) =>
      (answer 202 q, set_refunds (with_ledger (markAmbiguous (clock (ev_horizon env) (calls r)) id m) r) w)
  | (Throw _, r) => (answer 500 q, set_refunds (with_ledger (release id) r) w)
  end.

Definition on_verified (now : Z) (r : outcome VerifyError (HorizonTxRecord * list HorizonOpRecord)) (q : Request) (w : Relayer) :
    Request * Relayer :=
  let w := match r with Ok a => add_horizon (q_hash q) a w | Throw _ => w end in
  match q_handler q, verifyIncomingStellarPayment (q_hash q) (q_relayer q) (q_address q) r with
  | HManualRefund, Throw e =>
      (answer (match e with HorizonUnavailable _ => 404 | _ => verify_status e end) q,
       set_refunds (with_ledger (release (q_orderId q)) (w_refunds w)) w)
  | HManualRefund, Ok v => manual_refund_verified v q w
  | _, Throw e => (answer (verify_status e) q, w)
  | _, Ok v => release_verified now v q w
  end.

Definition on_coordinator (now : Z) (r : FetchEnd CoordinatorOrderMetadata) (q : Request) (w : Relayer) : Request * Relayer :=
  let '(metadata, c) := fetched (ev_maxFailures env) now r (w_coordinator w) in
  after_coordinator now metadata q (set_coordinator c w).

(** The balance is known: [xlm-to-eth] computes the amount now. *)
Definition pay (now balance wei : Z) (q : Request) (w : Relayer) : Request * Relayer :=
  if balance <? wei + gasCost then (answer 400 q, w)
  else enter_action now "eth-send" ETH_SEND_ATTEMPTS (Sending wei) q w.

Definition on_balance (now : Z) (r : outcome SettlementPolicy.RawError Z) (q : Request) (w : Relayer) : Request * Relayer :=
  match r with
  | Throw e => action_threw now "eth-balance" ETH_BALANCE_ATTEMPTS BalanceSleep e q w
  | Ok balance =>
      let w := action_done now "eth-balance" "" q w in
      match q_wei q with
      | Some wei => pay now balance wei q w
      | None =>
          match amount_of q w with
          | BadRequest => (answer 400 q, w)
          | AmountError => release_failed now q (plain_error "Cannot convert to a BigInt") w
          | Wei wei => pay now balance wei q w
          end
      end
  end.

Definition on_sent (now wei : Z) (r : outcome SettlementPolicy.RawError string) (q : Request) (w : Relayer) : Request * Relayer :=
  match r with
  | Throw e => action_threw now "eth-send" ETH_SEND_ATTEMPTS (SendSleep wei) e q w
  | Ok h =>
      let w := action_done now "eth-send" h q (add_ack (q_hash q) h w) in
      match q_handler q with
      | HProcess => enter_action now "eth-confirm" ETH_CONFIRM_ATTEMPTS Confirming (with_ethTx h q) w
      | _ => (answer 200 q, upd_order (q_orderId q) (fun o => set_ethTx (Some h) (set_status "eth_tx_sent" o)) w)
      end
  end.

Definition on_confirmed (now : Z) (r : outcome SettlementPolicy.RawError (option string)) (q : Request) (w : Relayer) : Request * Relayer :=
  match r with
  | Throw e => action_threw now "eth-confirm" ETH_CONFIRM_ATTEMPTS ConfirmSleep e q w
  | Ok receipt =>
      let w := action_done now "eth-confirm" "" q w in
      (answer 200 q, upd_order (q_orderId q) (fun o => set_ethTx receipt (set_status "completed" o)) w)
  end.

(** The XLM payment of the other direction ends. *)
Definition on_paid (r : outcome string string) (q : Request) (w : Relayer) : Request * Relayer :=
  match q_handler q, r with
  | HEscrow, Throw _ => (answer 200 q, upd_order (q_orderId q) (set_status "stellar_transfer_failed") w)
  | HEscrow, Ok h =>
      (answer 200 q, upd_order (q_orderId q) (fun o => set_stellarTx h (set_status "completed" o)) (add_payout (q_orderId q) (q_dest q) w))
  | _, Throw _ => (answer 502 q, w)
  | _, Ok h =>
      (answer 200 q, upd_order (q_orderId q) (fun o => set_stellarTx h (set_status "completed" o)) (add_payout (q_orderId q) (q_dest q) w))
  end.

Definition on_wake (now : Z) (q : Request) (w : Relayer) : Request * Relayer :=
  match q_stage q with
  | BalanceSleep => start_attempt now "eth-balance" ETH_BALANCE_ATTEMPTS Balancing q w
  | SendSleep wei => start_attempt now "eth-send" ETH_SEND_ATTEMPTS (Sending wei) q w
  | ConfirmSleep => start_attempt now "eth-confirm" ETH_CONFIRM_ATTEMPTS Confirming q w
  | _ => (q, w)
  end.

(** ** The requests *)

Record Body : Type := mkBody {
  b_orderId : option string;
  b_stellarTxHash : option string;
  b_txHash : option string;
  b_stellarAddress : option string;
  b_ethAddress : option string;
  b_networkMode : option string;
  b_queryNetwork : option string
}.

Definition known_network (n : string) : bool := has n ["testnet"; "mainnet"].
Definition truthy_text (o : option string) : option string := match o with Some s => if truthy_string s then Some s else None | None => None end.

(** The relayer's Stellar secret and public key for a network. *)
Definition relayer_keys (net : string) : option (option string * string) :=
  match truthy_text (ev_secret env (String.eqb net "mainnet")) with
  | None => None
  | Some s => Some (ev_publicKey env s, s)
  end.

Definition new_request (h : Handler) (id hash dest : string) (address : option string) (secret relayer : string) (st : Stage) : Request :=
  mkRequest h id hash dest address secret relayer None None 0 transient "" st.
Definition refused (h : Handler) (id : string) (status : Z) : Request := new_request h id "" "" None "" "" (Answered status).

Definition status_in (l : list string) (o : StoredOrder) : bool :=
  match wo_status (so_watch o) with Some s => has s l | None => false end.

(** [POST /api/orders/xlm-to-eth], up to the request to Horizon. *)
Definition post_xlm_to_eth (now : Z) (b : Body) (w : Relayer) : Request * Relayer :=
  let reqNet := match b_networkMode b, b_queryNetwork b with Some n, _ => n | None, Some n => n | None, None => ev_defaultNetwork env end in
  match truthy_text (b_orderId b), truthy_text (b_stellarTxHash b), truthy_text (b_ethAddress b) with
  | Some id, Some hash, Some dest =>
      let no status := refused HXlmToEth id status in
      if isConsumed hash (w_proofs w) then (no 409, w)
      else
        match jm_get id (w_orders w) with
        | None => (no 404, w)
        | Some o0 =>
            let o := receive_payment now hash (b_stellarAddress b) reqNet o0 in
            let w := set_orders (jm_set id o (w_orders w)) w in
            let orderNet := if truthy_string reqNet then reqNet else default "mainnet" (truthy_text (so_networkMode o)) in
            if negb (truthy_opt (ev_privateKey env)) then (no 500, w)
            else if truthy_opt (RefundWatchdog.direction (so_watch o)) && negb (bool_decide (RefundWatchdog.direction (so_watch o) = Some "xlm_to_eth"))
            then (no 400, w)
            else if status_in ["eth_tx_sent"; "completed"] o then (no 200, w)
            else if status_in ["refunded"; "stellar_transfer_failed"] o then (no 409, w)
            else if negb (known_network orderNet) then (no 500, w)
            else
              match relayer_keys orderNet with
              | Some (Some key, secret) => (new_request HXlmToEth id hash dest (b_stellarAddress b) secret key Verifying, w)
              | _ => (no 500, w)
              end
        end
  | id, _, _ => (refused HXlmToEth (default "" id) 400, w)
  end.

(** The XLM-to-ETH part of [process], up to the request to Horizon. *)
Definition process_xlm_to_eth (id hash : string) (o : StoredOrder) (b : Body) (w : Relayer) : Request :=
  let no status := refused HProcess id status in
  let orderNet := default "mainnet" (so_networkMode o) in
  let userStellar := match stellarAddress (so_watch o) with Some a => Some a | None => b_stellarAddress b end in
  let userEth := default "undefined" (match so_ethAddress o with Some a => Some a | None => b_ethAddress b end) in
  if negb (truthy_opt (ev_privateKey env)) then no 500
  else if isConsumed hash (w_proofs w) then no 409
  else if negb (known_network orderNet) then no 500
  else
    match relayer_keys orderNet with
    | Some (Some key, secret) =>
        if negb (truthy_opt userStellar) then no 400
        else new_request HProcess id hash userEth userStellar secret key Verifying
    | _ => no 500
    end.

(** [POST /api/orders/process]. *)
Definition post_process (b : Body) (w : Relayer) : Request * Relayer :=
  match truthy_text (b_orderId b) with
  | None => (refused HProcess "" 400, w)
  | Some id =>
      match jm_get id (w_orders w) with
      | None => (refused HProcess id 404, w)
      | Some o =>
          let userStellar := default "undefined" (match stellarAddress (so_watch o) with Some a => Some a | None => b_stellarAddress b end) in
          if bool_decide (so_contractType o = Some "ONEINCH_ESCROW_FACTORY") && status_in ["pending_escrow_deployment"] o then
            (new_request HEscrow id "" (default "undefined" (stellarAddress (so_watch o))) None "" "" PayingXlm,
             upd_order id (fun o => set_ethTx (b_txHash b) (set_status "escrow_deployed" o)) w)
          else
            match truthy_text (b_stellarTxHash b), truthy_text (b_txHash b) with
            | Some hash, None => (process_xlm_to_eth id hash o b w, w)
            | None, Some _ => (new_request HEthToXlm id "" userStellar None "" "" PayingXlm, w)
            | _, _ => (refused HProcess id 500, w)
            end
      end
  end.

(** The order a manual refund is about: named, found by its payment, or the hash
    itself. *)
Definition refund_order (b : Body) (hash : string) (w : Relayer) : string :=
  match b_orderId b with
  | Some id => id
  | None =>
      match List.find (fun e : string * StoredOrder => bool_decide (RefundWatchdog.stellarTxHash (so_watch e.2) = Some hash)) (w_orders w) with
      | Some (id, _) => id
      | None => hash
      end
  end.

(** [POST /api/orders/manual-refund], up to the request to Horizon. *)
Definition post_manual_refund (b : Body) (w : Relayer) : Request * Relayer :=
  match truthy_text (b_stellarTxHash b), truthy_text (b_stellarAddress b) with
  | Some hash, Some address =>
      let net := if bool_decide (b_networkMode b = Some "mainnet") then "mainnet" else "testnet" in
      let id := refund_order b hash w in
      let no status := refused HManualRefund id status in
      match phase <$> (re_state <$> getEntry id (ledger (w_refunds w))) with
      | Some committed => (no 200, w)
      | Some _ => (no 409, w)
      | None =>
          let '(granted, l) := RefundLedger.claim id (ledger (w_refunds w)) in
          if negb granted then (no 409, w)
          else
            let w := set_refunds (mkWorld (calls (w_refunds w)) l) w in
            match relayer_keys net with
            | None => (no 500, set_refunds (with_ledger (release id) (w_refunds w)) w)
            | Some (None, _) => (no 500, w)
            | Some (Some key, secret) => (new_request HManualRefund id hash "" (Some address) secret key Verifying, w)
            end
      end
  | _, _ => (refused HManualRefund "" 400, w)
  end.

(** ** Events *)

Inductive Event : Type :=
| EOrder (id : string) (o : StoredOrder)
| EXlmToEth (now : Z) (b : Body)
| EProcess (b : Body)
| EManualRefund (b : Body)
| EVerified (now : Z) (i : nat) (r : outcome VerifyError (HorizonTxRecord * list HorizonOpRecord))
| ECoordinator (now : Z) (i : nat) (r : FetchEnd CoordinatorOrderMetadata)
| EBalance (now : Z) (i : nat) (r : outcome SettlementPolicy.RawError Z)
| ESent (now : Z) (i : nat) (r : outcome SettlementPolicy.RawError string)
| EConfirmed (now : Z) (i : nat) (r : outcome SettlementPolicy.RawError (option string))
| EPaid (i : nat) (r : outcome string string)
| EWake (now : Z) (i : nat)
| EProbe (now : Z) (r : FetchEnd unit)
| EDisk (works : bool)
| EReboot (listing : gmap string (option ConsumedProofEntry) -> list (string * option ConsumedProofEntry))
    (refunds : gmap string (option RefundEntry) -> list (string * option RefundEntry))
    (failures : gmap string (option OrderFailureRecord) -> list (string * option OrderFailureRecord)).

Definition admit_request (qw : Request * Relayer) : Relayer := set_requests (w_requests qw.2 ++ [qw.1]) qw.2.

(** Writing the proof ledger's files fails from now on, or works again. *)
Definition set_disk (works : bool) (l : ProofLedger) : ProofLedger := mkStore (mem l) (files l) (storage l) works.

(** Resume request [i] if it waits at the stage the event is for. *)
Definition resume (i : nat) (here : Stage -> bool) (k : Request -> Relayer -> Request * Relayer) (w : Relayer) : Relayer :=
  match w_requests w !! i with
  | Some q => if here (q_stage q) then let '(q', w') := k q w in set_requests (<[i := q']> (w_requests w')) w' else w
  | None => w
  end.

Definition step (w : Relayer) (e : Event) : Relayer :=
  match e with
  | EOrder id o => set_orders (jm_set id o (w_orders w)) w
  | EXlmToEth now b => admit_request (post_xlm_to_eth now b w)
  | EProcess b => admit_request (post_process b w)
  | EManualRefund b => admit_request (post_manual_refund b w)
  | EVerified now i r => resume i (fun s => match s with Verifying => true | _ => false end) (on_verified now r) w
  | ECoordinator now i r => resume i (fun s => match s with AskingCoordinator => true | _ => false end) (on_coordinator now r) w
  | EBalance now i r => resume i (fun s => match s with Balancing => true | _ => false end) (on_balance now r) w
  | ESent now i r =>
      resume i (fun s => match s with Sending _ => true | _ => false end)
        (fun q => on_sent now (match q_stage q with Sending wei => wei | _ => 0 end) r q) w
  | EConfirmed now i r => resume i (fun s => match s with Confirming => true | _ => false end) (on_confirmed now r) w
  | EPaid i r => resume i (fun s => match s with PayingXlm => true | _ => false end) (on_paid r) w
  | EWake now i => resume i (fun s => match s with BalanceSleep | SendSleep _ | ConfirmSleep => true | _ => false end) (on_wake now) w
  | EProbe now r => set_coordinator (probe (ev_maxFailures env) now r (w_coordinator w)).2 w
  | EDisk works => set_proofs (set_disk works (w_proofs w)) w
  | EReboot ps rs fs =>
      mkRelayer [] (reboot ps (w_proofs w)) (with_ledger (reboot rs) (w_refunds w)) (failures_reboot fs (w_failures w)) [] newClient []
        (w_horizon w) (w_sends w) (w_acks w) (w_payouts w)
  end.

Definition run (es : list Event) : Relayer := foldl step newRelayer es.
End Handlers.
