(* ===== verification/EthReleaseSpec.v ===== *)
(** * One payment, one release

    Facts about EthRelease.v: whatever the interleaving of requests, retries and
    restarts, the ETH released for a Stellar payment is released by one request,
    for a payment that was verified, in the amount it is worth. *)

From S2P Require Import Prelude JsMap FileStore XlmAmounts RefundLedger XlmRefund RefundWatchdog.
From S2P Require Import SettlementFailures SettlementPolicy SupportPolicy SettlementPermissions PaymentGate ProofLedger RetryEngine.
From S2P Require Import EthRelease.
From Stdlib Require Import QArith Qround.
#[local] Open Scope Z_scope.

(** ** Vocabulary *)

Definition sends_of (h : string) (w : Relayer) : list Send := List.filter (fun s => String.eqb (sd_hash s) h) (w_sends w).
Definition acks_of (h : string) (w : Relayer) : list (string * string) := List.filter (fun a => String.eqb a.1 h) (w_acks w).

Section Spec.
Context (env : Env).

(** The rates that orders were stored with. *)
Context (rates : string -> Q -> Prop).

Definition rated (w : Relayer) : Prop :=
  forall id o rate, jm_get id (w_orders w) = Some o -> so_exchangeRate o = Some rate -> rates id rate.

(** A Stellar account the relayer has the secret of. *)
Definition own_account (k : string) : Prop := exists b s, ev_secret env b = Some s /\ ev_publicKey env s = Some k.

(** Horizon has shown the payment [v] of transaction [h] to an account of the
    relayer. *)
Definition shown (h : string) (v : VerifiedStellarPayment) (w : Relayer) : Prop :=
  exists a k expected, (h, a) ∈ w_horizon w /\ own_account k /\ verifyIncomingStellarPayment h k expected (Ok a) = Ok v.

(** An amount of wei a payment is worth at a rate of the order. *)
Definition worth (id : string) (v : VerifiedStellarPayment) (wei : Z) : Prop :=
  exists rate, rates id rate /\ release_amount (Some rate) (vp_amount v) = Wei wei.

Definition backed (s : Send) (w : Relayer) : Prop := exists v, shown (sd_hash s) v w /\ worth (sd_orderId s) v (sd_wei s).

Record hash_ok (h : string) (w : Relayer) : Prop := {
  hash_same s s' : s ∈ sends_of h w -> s' ∈ sends_of h w -> s = s';
  hash_sends : Z.of_nat (length (sends_of h w)) <= ETH_SEND_ATTEMPTS;
  hash_acks : (length (acks_of h w) <= 1)%nat;
  hash_backed s : s ∈ sends_of h w -> backed s w
}.

(** The request holds the proof of its payment. *)
Definition owns (q : Request) : bool :=
  match q_stage q with
  | AskingCoordinator | Balancing | BalanceSleep | Sending _ | SendSleep _ | Confirming | ConfirmSleep => true
  | _ => false
  end.

Definition paid_ok (w : Relayer) (q : Request) : Prop :=
  exists v, q_paid q = Some v /\ shown (q_hash q) v w /\ forall n, q_wei q = Some n -> worth (q_orderId q) v n.

Definition sending_ok (w : Relayer) (q : Request) (wei : Z) : Prop :=
  (exists v, q_paid q = Some v /\ shown (q_hash q) v w /\ worth (q_orderId q) v wei) /\ acks_of (q_hash q) w = [] /\
  Forall (fun s => s = mkSend (q_hash q) (q_orderId q) (q_dest q) wei) (sends_of (q_hash q) w) /\
  Z.of_nat (length (sends_of (q_hash q) w)) = q_attempts q.

(** What is true of a request at each stage. *)
Definition stage_ok (w : Relayer) (q : Request) : Prop :=
  match q_stage q with
  | Verifying => own_account (q_relayer q) /\ (q_handler q = HManualRefund \/ plain (Some 80%nat) (q_hash q) = true) /\ q_wei q = None
  | AskingCoordinator | Balancing | BalanceSleep =>
      paid_ok w q /\ sends_of (q_hash q) w = [] /\ acks_of (q_hash q) w = []
  | Sending wei => sending_ok w q wei /\ q_attempts q <= ETH_SEND_ATTEMPTS
  | SendSleep wei => sending_ok w q wei /\ q_attempts q < ETH_SEND_ATTEMPTS
  | _ => True
  end.

(** Two worlds that agree on everything the facts are about. *)
Record quiet (w w' : Relayer) : Prop := {
  quiet_proofs : w_proofs w' = w_proofs w;
  quiet_requests : w_requests w' = w_requests w;
  quiet_horizon : w_horizon w' = w_horizon w;
  quiet_sends : w_sends w' = w_sends w;
  quiet_acks : w_acks w' = w_acks w;
  quiet_rated : rated w -> rated w'
}.

#[local] Instance quiet_po : PreOrder quiet.
Proof. split; [by intros w; split|]. intros a b c [] []. split; [congruence..|auto]. Qed.

Lemma quiet_hash_ok w w' h : quiet w w' -> hash_ok h w -> hash_ok h w'.
Proof.
  intros [Q1 Q2 Q3 Q4 Q5 Qr] [H1 H2 H3 H4]. assert (sends_of h w' = sends_of h w) as E by (unfold sends_of; by rewrite Q4).
  split; rewrite ?E; [done..|unfold acks_of in *; by rewrite Q5|].
  intros s Hs. destruct (H4 s Hs) as (v & (a & k & ex & Ha & Hr) & Hw). exists v. split; [|done]. exists a, k, ex. by rewrite Q3.
Qed.

(** What one resumption does: only the sends and acknowledgements of its own
    payment change, and they stay in order. *)
Record advance (q : Request) (w : Relayer) (r : Request * Relayer) : Prop := {
  adv_requests : w_requests r.2 = w_requests w;
  adv_horizon : forall x, x ∈ w_horizon w -> x ∈ w_horizon r.2;
  adv_sends h : h <> q_hash q -> sends_of h r.2 = sends_of h w;
  adv_acks h : h <> q_hash q -> acks_of h r.2 = acks_of h w;
  adv_rated : rated w -> rated r.2;
  adv_hash : q_hash r.1 = q_hash q;
  adv_ok : hash_ok (q_hash q) r.2;
  adv_stage : stage_ok r.2 r.1
}.

Definition keeps_proofs (w : Relayer) (r : Request * Relayer) : Prop := w_proofs r.2 = w_proofs w.

(** Ended: the request is answered and nothing was sent. *)
Definition ended (q : Request) (w : Relayer) (r : Request * Relayer) : Prop :=
  quiet w r.2 /\ q_hash r.1 = q_hash q /\ exists status, q_stage r.1 = Answered status.

Lemma ended_advance q w r : hash_ok (q_hash q) w -> ended q w r -> advance q w r /\ keeps_proofs w r.
Proof.
  intros Hh (Hq & He & st & Hst). split; [|apply Hq]. pose proof (quiet_hash_ok w r.2 _ Hq Hh). destruct Hq as [Q1 Q2 Q3 Q4 Q5 Qr].
  split; try done; [by rewrite Q3|intros h _; unfold sends_of; by rewrite Q4|intros h _; unfold acks_of; by rewrite Q5|].
  unfold stage_ok. by rewrite Hst.
Qed.

Lemma ended_quiet q q' w w' r : quiet w w' -> q_hash q' = q_hash q -> ended q' w' r -> ended q w r.
Proof. intros Hq He (Hr & Hh & Hs). split; [by etransitivity|]. split; [congruence|done]. Qed.

Lemma answer_ended status q q' w w' : quiet w w' -> q_hash q' = q_hash q -> ended q w (answer status q', w').
Proof. intros Hq He. split; [done|]. split; [done|by exists status]. Qed.

Lemma set_orders_rated id o w :
  rated w -> (forall rate, so_exchangeRate o = Some rate -> rates id rate) -> rated (set_orders (jm_set id o (w_orders w)) w).
Proof.
  intros Hw Ho id' o' rate. cbn. destruct (decide (id' = id)) as [->|]; [rewrite jm_get_set|rewrite jm_get_set_ne by done; apply Hw].
  intros [= <-]. apply Ho.
Qed.

(** Changing an order whose rate stays. *)
Lemma store_order_quiet id o o' w :
  jm_get id (w_orders w) = Some o -> so_exchangeRate o' = so_exchangeRate o ->
  quiet w (set_orders (jm_set id o' (w_orders w)) w).
Proof. intros E Er. split; [done..|]. intros Hw. apply set_orders_rated; [done|]. rewrite Er. intros rate. by apply Hw. Qed.

Lemma upd_order_quiet id f w : (forall o, so_exchangeRate (f o) = so_exchangeRate o) -> quiet w (upd_order id f w).
Proof. intros Hf. unfold upd_order. destruct (jm_get id (w_orders w)) eqn:E; [by eapply store_order_quiet|done]. Qed.

Lemma record_failure_quiet now q e a w : quiet w (record_failure now q e a w).
Proof. done. Qed.

Lemma release_failed_ended now q e w : ended q w (release_failed env now q e w).
Proof.
  unfold release_failed. destruct (q_handler q), (jm_get (q_orderId q) (w_orders w)) as [o|]; try by apply answer_ended.
  destruct (automatic_refund _ _ _ _ _ _ _ _) as [[rep v] r]. apply answer_ended; [|done].
  etransitivity; [|apply record_failure_quiet]. etransitivity; [|by apply upd_order_quiet]. done.
Qed.

Lemma engine_failed_ended now action q q' e w w' : quiet w w' -> q_hash q' = q_hash q -> ended q w (engine_failed env now action q' e w').
Proof.
  intros Hq He. unfold engine_failed. eapply ended_quiet; [|exact He|apply release_failed_ended].
  etransitivity; [exact Hq|apply record_failure_quiet].
Qed.

(** The head of the engine's loop either gives up or starts the action. *)
Lemma start_attempt_cases now action n st q w :
  let r := start_attempt env now action n st q w in
  ended q w r \/
  (q_attempts q < n /\ r.1 = with_stage st (with_engine (q_attempts q + 1) (q_lastFault q) q) /\
   exists w', quiet w w' /\
     r.2 = match st with Sending wei => add_send (mkSend (q_hash q) (q_orderId q) (q_dest q) wei) w' | _ => w' end).
Proof.
  unfold start_attempt. destruct (checkCircuit _ _ _ _) as [pass bs]. destruct pass; cbn [negb]; [|by left; apply engine_failed_ended].
  destruct (Z.ltb_spec (q_attempts q) n) as [Hn|Hn]; [|by left; apply engine_failed_ended].
  right. split; [done|]. split; [done|]. by exists (set_breakers bs w).
Qed.

Lemma action_done_quiet now action tx q w : quiet w (action_done now action tx q w).
Proof. unfold action_done. by destruct (hasFailed _ _). Qed.

Lemma action_threw_cases now action n sleep e q w :
  let r := action_threw env now action n sleep e q w in
  ended q w r \/ (q_attempts q <> n /\ r.1 = with_stage sleep (with_engine (q_attempts q) (fault_class e) q) /\ quiet w r.2).
Proof.
  unfold action_threw. case_bool_decide; [by left; apply engine_failed_ended|].
  destruct (Z.eqb_spec (q_attempts q) n) as [Hn|Hn]; cbn [q_attempts with_engine] in *.
  - left. rewrite Hn, Z.eqb_refl. by apply engine_failed_ended.
  - right. destruct (Z.eqb_spec (q_attempts q) n); [done|]. done.
Qed.

(** ** Resumptions *)

Lemma quiet_advance q q' w w' r :
  quiet w w' -> q_hash q' = q_hash q -> advance q' w' r /\ keeps_proofs w' r -> advance q w r /\ keeps_proofs w r.
Proof.
  intros [Q1 Q2 Q3 Q4 Q5 Qr] He [[A1 A2 A3 A4 Ar A5 A6 A7] A8]. unfold keeps_proofs in *. split; [|congruence].
  split; rewrite <-?He; try done; try congruence.
  - intros x. rewrite <-Q3. apply A2.
  - intros h Hh. rewrite A3 by congruence. unfold sends_of. by rewrite Q4.
  - intros h Hh. rewrite A4 by congruence. unfold acks_of. by rewrite Q5.
  - auto.
Qed.

(** A move that sends nothing. *)
Lemma moved_advance q q' w w' :
  quiet w w' -> q_hash q' = q_hash q -> hash_ok (q_hash q) w -> stage_ok w' q' -> advance q w (q', w') /\ keeps_proofs w (q', w').
Proof.
  intros Hq He Hh Hs. pose proof (quiet_hash_ok w w' _ Hq Hh). split; [|apply Hq]. destruct Hq as [Q1 Q2 Q3 Q4 Q5 Qr].
  split; cbn; try done; [by rewrite Q3|intros h _; unfold sends_of; by rewrite Q4|intros h _; unfold acks_of; by rewrite Q5].
Qed.

Lemma quiet_shown h v w w' : quiet w w' -> shown h v w -> shown h v w'.
Proof. intros [_ _ Q3 _ _ _] (a & k & ex & Ha & Hr). exists a, k, ex. by rewrite Q3. Qed.

Lemma quiet_logs w w' h : quiet w w' -> sends_of h w' = sends_of h w /\ acks_of h w' = acks_of h w.
Proof. intros [_ _ _ Q4 Q5 _]. unfold sends_of, acks_of. by rewrite Q4, Q5. Qed.

Definition idle (w : Relayer) (q : Request) : Prop :=
  paid_ok w q /\ sends_of (q_hash q) w = [] /\ acks_of (q_hash q) w = [].

Lemma quiet_idle w w' q : quiet w w' -> idle w q -> idle w' q.
Proof.
  intros Hq ((v & Hv & Hs & Hw) & H1 & H2). destruct (quiet_logs w w' (q_hash q) Hq) as [E1 E2].
  split; [|by rewrite E1, E2]. exists v. split; [done|]. split; [by eapply quiet_shown|done].
Qed.

(** Start an action that is not the payment. *)
Lemma start_idle now action n st q w :
  hash_ok (q_hash q) w -> idle w q \/ st = Confirming -> st = Balancing \/ st = Confirming ->
  advance q w (start_attempt env now action n st q w) /\ keeps_proofs w (start_attempt env now action n st q w).
Proof.
  intros Hh Hi Hst. destruct (start_attempt_cases now action n st q w) as [He|(_ & E1 & w' & Hq & E2)]; [by apply ended_advance|].
  destruct (start_attempt env now action n st q w) as [q1 w1]. cbn in E1, E2. subst q1.
  assert (w1 = w') as -> by (by destruct Hst as [-> | ->]). apply moved_advance; [done..|].
  destruct Hst as [-> | ->]; [|done]. destruct Hi as [Hi|]; [|done]. apply (quiet_idle w w' q Hq Hi).
Qed.

Lemma sends_of_add h s w :
  sends_of h (add_send s w) = sends_of h w ++ (if String.eqb (sd_hash s) h then [s] else []).
Proof. unfold sends_of. cbn. rewrite List.filter_app. cbn. by destruct (String.eqb (sd_hash s) h). Qed.

Lemma acks_of_add h h' tx w : acks_of h (add_ack h' tx w) = acks_of h w ++ (if String.eqb h' h then [(h', tx)] else []).
Proof. unfold acks_of. cbn. rewrite List.filter_app. cbn. by destruct (String.eqb h' h). Qed.

Lemma quiet_sending w w' q wei : quiet w w' -> sending_ok w q wei -> sending_ok w' q wei.
Proof.
  intros Hq ((v & Hv & Hs & Hw) & H1 & H2 & H3). destruct (quiet_logs w w' (q_hash q) Hq) as [E1 E2]. unfold sending_ok. rewrite E1, E2.
  split; [|done]. exists v. split; [done|]. split; [by eapply quiet_shown|done].
Qed.

(** Start another attempt of the payment. *)
Lemma start_sending now q w wei :
  hash_ok (q_hash q) w -> sending_ok w q wei ->
  let r := start_attempt env now "eth-send" ETH_SEND_ATTEMPTS (Sending wei) q w in advance q w r /\ keeps_proofs w r.
Proof.
  intros Hh Hs r. destruct (start_attempt_cases now "eth-send" ETH_SEND_ATTEMPTS (Sending wei) q w) as [He|(Hn & E1 & w' & Hq & E2)];
    [by apply ended_advance|]. fold r in E1, E2. destruct r as [q1 w1]. cbn in E1, E2. subst q1 w1.
  pose proof (quiet_sending w w' q wei Hq Hs) as ((v & Hv & Hsh & Hw) & Ha & Hf & Hl). set (s := mkSend _ _ _ _).
  assert (sends_of (q_hash q) (add_send s w') = sends_of (q_hash q) w' ++ [s]) as Es by (rewrite sends_of_add; cbn; by rewrite String.eqb_refl).
  assert (Forall (fun x => x = s) (sends_of (q_hash q) (add_send s w'))) as Hf'.
  { rewrite Es. apply Forall_app. split; [exact Hf|by constructor]. }
  assert (Z.of_nat (length (sends_of (q_hash q) (add_send s w'))) = q_attempts q + 1) as Hl'.
  { rewrite Es, length_app. cbn. lia. }
  split; [|apply Hq]. split; cbn [fst snd]; try done.
  - by destruct Hq.
  - destruct Hq as [_ _ Q3 _ _ _]. change (w_horizon (add_send s w')) with (w_horizon w'). by rewrite Q3.
  - intros h Hne. rewrite sends_of_add. change (sd_hash s) with (q_hash q). destruct (String.eqb_spec (q_hash q) h) as [E|]; [by rewrite E in Hne|].
    rewrite app_nil_r. by apply quiet_logs.
  - intros h Hne. by apply (quiet_logs w w' h Hq).
  - intros Hr. apply (quiet_rated _ _ Hq Hr).
  - split.
    + intros x x' Hx Hx'. rewrite Forall_forall in Hf'. by rewrite (Hf' x Hx), (Hf' x' Hx').
    + unfold ETH_SEND_ATTEMPTS in *. lia.
    + change (acks_of (q_hash q) (add_send s w')) with (acks_of (q_hash q) w'). rewrite Ha. cbn. lia.
    + intros x Hx. rewrite Forall_forall in Hf'. rewrite (Hf' x Hx). by exists v.
  - unfold stage_ok. cbn. split; [|lia]. split; [by exists v|]. done.
Qed.

(** The action failed: sleep, or give up. *)
Lemma threw_idle now action n e q w :
  hash_ok (q_hash q) w -> idle w q -> let r := action_threw env now action n BalanceSleep e q w in advance q w r /\ keeps_proofs w r.
Proof.
  intros Hh Hi r. destruct (action_threw_cases now action n BalanceSleep e q w) as [He|(_ & E1 & Hq)]; [by apply ended_advance|].
  fold r in E1, Hq. destruct r as [q1 w1]. cbn in E1, Hq. subst q1. apply moved_advance; [done..|]. by apply (quiet_idle w w1 q).
Qed.

Lemma threw_confirm now e q w :
  hash_ok (q_hash q) w -> let r := action_threw env now "eth-confirm" ETH_CONFIRM_ATTEMPTS ConfirmSleep e q w in advance q w r /\ keeps_proofs w r.
Proof.
  intros Hh r. destruct (action_threw_cases now "eth-confirm" ETH_CONFIRM_ATTEMPTS ConfirmSleep e q w) as [He|(_ & E1 & Hq)];
    [by apply ended_advance|].
  fold r in E1, Hq. destruct r as [q1 w1]. cbn in E1, Hq. subst q1. by apply moved_advance.
Qed.

Lemma threw_sending now e q w wei :
  hash_ok (q_hash q) w -> sending_ok w q wei -> q_attempts q <= ETH_SEND_ATTEMPTS ->
  let r := action_threw env now "eth-send" ETH_SEND_ATTEMPTS (SendSleep wei) e q w in advance q w r /\ keeps_proofs w r.
Proof.
  intros Hh Hs Hle r. destruct (action_threw_cases now "eth-send" ETH_SEND_ATTEMPTS (SendSleep wei) e q w) as [He|(Hn & E1 & Hq)];
    [by apply ended_advance|]. fold r in E1, Hq. destruct r as [q1 w1]. cbn in E1, Hq. subst q1. apply moved_advance; [done..|].
  unfold stage_ok. cbn. split; [by apply (quiet_sending w w1 q)|lia].
Qed.

Lemma enter_quiet now id w :
  quiet w (if hasFailed id w then set_failures (markRecovering now id (w_failures w)) w else w).
Proof. by destruct (hasFailed id w). Qed.

Lemma enter_idle now action n st q w :
  hash_ok (q_hash q) w -> idle w q \/ st = Confirming -> st = Balancing \/ st = Confirming ->
  let r := enter_action env now action n st q w in advance q w r /\ keeps_proofs w r.
Proof.
  intros Hh Hi Hst r. pose proof (enter_quiet now (q_orderId q) w) as Hq.
  apply (quiet_advance q (with_engine 0 transient q) w _ r Hq eq_refl). apply start_idle; [by eapply quiet_hash_ok| |done].
  destruct Hi as [Hi|]; [|by right]. left. by apply (quiet_idle w _ q).
Qed.

Lemma enter_sending now q w wei v :
  hash_ok (q_hash q) w -> idle w q -> q_paid q = Some v -> worth (q_orderId q) v wei ->
  let r := enter_action env now "eth-send" ETH_SEND_ATTEMPTS (Sending wei) q w in advance q w r /\ keeps_proofs w r.
Proof.
  intros Hh Hi Hv Hw r. pose proof (enter_quiet now (q_orderId q) w) as Hq.
  pose proof (quiet_idle _ _ _ Hq Hi) as ((v' & Hv' & Hs & _) & H1 & H2).
  apply (quiet_advance q (with_engine 0 transient q) w _ r Hq eq_refl). apply start_sending; [by eapply quiet_hash_ok|]. simplify_eq. split; [by exists v|]. cbn. rewrite H1, H2. done.
Qed.

(** ** Stages *)

Lemma after_coordinator_advance now md q w :
  hash_ok (q_hash q) w -> idle w q -> let r := after_coordinator env now md q w in advance q w r /\ keeps_proofs w r.
Proof.
  intros Hh Hi r. subst r. unfold after_coordinator. destruct (assertCoordinatorSafe _ _ _); [by apply ended_advance, answer_ended|].
  destruct (authorizeSettlementCommand _ _ _ _ _); [|by apply ended_advance, answer_ended].
  destruct (ev_walletValid env); cbn [negb]; [|by apply ended_advance, release_failed_ended]. apply enter_idle; auto.
Qed.

Lemma on_coordinator_advance now a q w :
  hash_ok (q_hash q) w -> idle w q -> let r := on_coordinator env now a q w in advance q w r /\ keeps_proofs w r.
Proof.
  intros Hh Hi r. subst r. unfold on_coordinator. destruct (fetched _ _ _ _) as [md c].
  assert (quiet w (set_coordinator c w)) as Hq by done. apply (quiet_advance q q w (set_coordinator c w)); [done..|].
  apply after_coordinator_advance; [by eapply quiet_hash_ok|by eapply quiet_idle].
Qed.

Lemma pay_advance now balance wei q w v :
  hash_ok (q_hash q) w -> idle w q -> q_paid q = Some v -> worth (q_orderId q) v wei ->
  let r := pay env now balance wei q w in advance q w r /\ keeps_proofs w r.
Proof.
  intros Hh Hi Hv Hw r. subst r. unfold pay. destruct (balance <? wei + gasCost); [by apply ended_advance, answer_ended|].
  by apply (enter_sending now q w wei v).
Qed.

Lemma amount_worth q w v n : rated w -> q_paid q = Some v -> amount_of q w = Wei n -> worth (q_orderId q) v n.
Proof.
  intros Hr Hv H. unfold amount_of in H. rewrite Hv in H. cbn in H.
  destruct (jm_get (q_orderId q) (w_orders w)) as [o|] eqn:E; [|done]. cbn in H.
  destruct (so_exchangeRate o) as [rate|] eqn:Eo; [|done]. exists rate. split; [by eapply Hr|done].
Qed.

Lemma on_balance_advance now a q w :
  rated w -> hash_ok (q_hash q) w -> idle w q -> let r := on_balance env now a q w in advance q w r /\ keeps_proofs w r.
Proof.
  intros Hr Hh Hi r. subst r. unfold on_balance. destruct a as [balance|e]; [|by apply threw_idle].
  pose proof (action_done_quiet now "eth-balance" "" q w) as Hq. apply (quiet_advance q q w _ _ Hq eq_refl).
  pose proof (quiet_hash_ok _ _ _ Hq Hh) as Hh'. pose proof (quiet_idle _ _ _ Hq Hi) as Hi'.
  pose proof (quiet_rated _ _ Hq Hr) as Hr'. revert Hh' Hi' Hr'.
  generalize (action_done now "eth-balance" "" q w) as w'. intros w' Hh' Hi' Hr'. pose proof Hi' as ((v & Hv & _ & Hw) & _).
  destruct (q_wei q) as [n|]; [by apply (pay_advance now balance n q w' v); auto|].
  destruct (amount_of q w') as [n| |] eqn:Ha; [|by apply ended_advance, answer_ended|by apply ended_advance, release_failed_ended].
  apply (pay_advance now balance n q w' v); auto. by eapply amount_worth.
Qed.

(** The payment was acknowledged: the first time for this transaction. *)
Lemma ack_advance q tx w r :
  advance q (add_ack (q_hash q) tx w) r /\ keeps_proofs (add_ack (q_hash q) tx w) r -> advance q w r /\ keeps_proofs w r.
Proof.
  intros [[A1 A2 A3 A4 Ar A5 A6 A7] A8]. split; [|exact A8]. split; try done.
  intros h Hh. rewrite A4 by done. rewrite acks_of_add. destruct (String.eqb_spec (q_hash q) h); [congruence|]. by rewrite app_nil_r.
Qed.

Lemma ack_hash_ok q tx w wei : hash_ok (q_hash q) w -> sending_ok w q wei -> hash_ok (q_hash q) (add_ack (q_hash q) tx w).
Proof.
  intros [H1 H2 H3 H4] (_ & Ha & _). split; [exact H1|exact H2| |exact H4]. rewrite acks_of_add, Ha, String.eqb_refl. done.
Qed.

Lemma on_sent_advance now wei a q w :
  hash_ok (q_hash q) w -> sending_ok w q wei -> q_attempts q <= ETH_SEND_ATTEMPTS ->
  let r := on_sent env now wei a q w in advance q w r /\ keeps_proofs w r.
Proof.
  intros Hh Hs Hn r. subst r. unfold on_sent. destruct a as [tx|e]; [|by apply threw_sending].
  apply (ack_advance q tx). pose proof (ack_hash_ok q tx w wei Hh Hs) as Hh'. set (w0 := add_ack (q_hash q) tx w) in *.
  pose proof (action_done_quiet now "eth-send" tx q w0) as Hq. apply (quiet_advance q q w0 _ _ Hq eq_refl).
  pose proof (quiet_hash_ok _ _ _ Hq Hh') as Hh''. revert Hh''. generalize (action_done now "eth-send" tx q w0) as w1. intros w1 Hh''.
  destruct (q_handler q);
    try (apply ended_advance; [done|]; apply answer_ended; [by apply upd_order_quiet|done]).
  apply (quiet_advance q (with_ethTx tx q) w1 w1); [done..|]. apply enter_idle; auto.
Qed.

Lemma on_confirmed_advance now a q w :
  hash_ok (q_hash q) w -> let r := on_confirmed env now a q w in advance q w r /\ keeps_proofs w r.
Proof.
  intros Hh r. subst r. unfold on_confirmed. destruct a as [receipt|e]; [|by apply threw_confirm].
  apply ended_advance; [done|]. apply answer_ended; [|done]. etransitivity; [apply action_done_quiet|by apply upd_order_quiet].
Qed.

Lemma on_paid_ended a q w : ended q w (on_paid a q w).
Proof.
  unfold on_paid. destruct (q_handler q), a; (apply answer_ended; [|done]); try done; try (by apply upd_order_quiet);
    (etransitivity; [|by apply upd_order_quiet]); done.
Qed.

Lemma on_wake_advance now q w :
  hash_ok (q_hash q) w -> stage_ok w q -> match q_stage q with BalanceSleep | SendSleep _ | ConfirmSleep => True | _ => False end ->
  let r := on_wake env now q w in advance q w r /\ keeps_proofs w r.
Proof.
  intros Hh Hs Hw r. subst r. unfold on_wake, stage_ok in *. destruct (q_stage q) eqn:E; try done.
  - apply start_idle; auto.
  - destruct Hs as [Hs _]. by apply start_sending.
  - apply start_idle; auto.
Qed.

Lemma check_route_advance now q w :
  hash_ok (q_hash q) w -> idle w q -> let r := check_route env now q w in advance q w r /\ keeps_proofs w r.
Proof.
  intros Hh Hi r. subst r. unfold check_route. destruct (assertSettlementRoute _); [|by apply ended_advance, answer_ended].
  destruct (asks_coordinator _); [by apply moved_advance|by apply after_coordinator_advance].
Qed.

(** ** Verification *)

(** Changes that neither send nor acknowledge. *)
Record grows (w w' : Relayer) : Prop := {
  grows_requests : w_requests w' = w_requests w;
  grows_horizon : forall x, x ∈ w_horizon w -> x ∈ w_horizon w';
  grows_sends : w_sends w' = w_sends w;
  grows_acks : w_acks w' = w_acks w;
  grows_rated : rated w -> rated w'
}.

Lemma grows_hash_ok w w' h : grows w w' -> hash_ok h w -> hash_ok h w'.
Proof.
  intros [G1 G2 G3 G4 Gr] [H1 H2 H3 H4]. assert (sends_of h w' = sends_of h w) as E by (unfold sends_of; by rewrite G3).
  split; rewrite ?E; [done..|unfold acks_of in *; by rewrite G4|].
  intros s Hs. destruct (H4 s Hs) as (v & (a & k & ex & Ha & Hr) & Hw). exists v. split; [|done]. exists a, k, ex. auto.
Qed.

Lemma grows_advance q w w' r : grows w w' -> advance q w' r -> advance q w r.
Proof.
  intros [G1 G2 G3 G4 Gr] [A1 A2 A3 A4 Ar A5 A6 A7]. split; try done; [congruence|auto|..|auto]; intros h Hh;
    [rewrite A3 by done; unfold sends_of; by rewrite G3|rewrite A4 by done; unfold acks_of; by rewrite G4].
Qed.

Lemma ended_quiet_owns q w r : ended q w r -> owns r.1 = false.
Proof. intros (_ & _ & st & E). unfold owns. by rewrite E. Qed.

Lemma release_verified_spec now v q w :
  rated w -> hash_ok (q_hash q) w -> shown (q_hash q) v w -> q_wei q = None ->
  (isConsumed (q_hash q) (w_proofs w) = false -> sends_of (q_hash q) w = [] /\ acks_of (q_hash q) w = []) ->
  let r := release_verified env now v q w in
  advance q w r /\ (exists meta, w_proofs r.2 = (consume now (q_hash q) meta (w_proofs w)).2) /\
  (owns r.1 = true -> isConsumed (q_hash q) (w_proofs w) = false) /\ (isConsumed (q_hash q) (w_proofs w) = true -> grows w r.2).
Proof.
  intros Hrw Hh Hv Hn Hfree r. subst r. unfold release_verified. set (meta := mkProofMeta _ _ _).
  destruct (consume now (q_hash q) meta (w_proofs w)) as [granted pl] eqn:Ec.
  assert (pl = (consume now (q_hash q) meta (w_proofs w)).2) as Epl by (by rewrite Ec).
  assert (grows w (set_proofs pl w)) as Hg by done. pose proof (grows_hash_ok _ _ _ Hg Hh) as Hh'.
  assert (forall r, advance q (set_proofs pl w) r /\ keeps_proofs (set_proofs pl w) r ->
    advance q w r /\ (exists meta, w_proofs r.2 = (consume now (q_hash q) meta (w_proofs w)).2)) as Hlift.
  { intros r [Ha Hk]. split; [by eapply grows_advance|]. exists meta. by rewrite Hk, Epl. }
  destruct granted; cbn [negb].
  2:{ destruct (Hlift (answer 409 (with_paid v q), set_proofs pl w)) as [H1 H2]; [by apply ended_advance, answer_ended|]. by split_and!. }
  assert (isConsumed (q_hash q) (w_proofs w) = false) as Hc.
  { unfold consume in Ec. unfold isConsumed. by destruct (jm_has (q_hash q) (mem (w_proofs w))). }
  destruct (Hfree Hc) as [F1 F2].
  assert (forall q', q_hash q' = q_hash q -> q_paid q' = Some v -> q_orderId q' = q_orderId q -> (forall n, q_wei q' = Some n -> worth (q_orderId q) v n) -> idle (set_proofs pl w) q') as Hidle.
  { intros q' E1 E2 E3 E4. split; [|by rewrite E1]. exists v. by rewrite E1, E3. }
  assert (forall r, advance q (set_proofs pl w) r /\ keeps_proofs (set_proofs pl w) r ->
    advance q w r /\ (exists meta, w_proofs r.2 = (consume now (q_hash q) meta (w_proofs w)).2) /\
    (owns r.1 = true -> isConsumed (q_hash q) (w_proofs w) = false) /\ (isConsumed (q_hash q) (w_proofs w) = true -> grows w r.2)) as Hlift'.
  { intros r Hr. destruct (Hlift r Hr). split_and!; [done..|]. intros Hc'. congruence. }
  assert (forall q', q_hash q' = q_hash q -> q_paid q' = Some v -> q_orderId q' = q_orderId q -> (forall n, q_wei q' = Some n -> worth (q_orderId q) v n) ->
    let r := check_route env now q' (set_proofs pl w) in advance q (set_proofs pl w) r /\ keeps_proofs (set_proofs pl w) r) as Hroute.
  { intros q' E1 E2 E3 E4. apply (quiet_advance q q' (set_proofs pl w) (set_proofs pl w)); [done|done|].
    apply check_route_advance; [by rewrite E1|by apply Hidle]. }
  apply Hlift'. change (q_handler (with_paid v q)) with (q_handler q).
  destruct (q_handler q); try (apply Hroute; [done|done|done|cbn; by rewrite Hn]).
  destruct (amount_of (with_paid v q) (set_proofs pl w)) as [n| |] eqn:Ha;
    [|by apply ended_advance, answer_ended|apply ended_advance; [done|]; apply (release_failed_ended now (with_paid v q))].
  apply Hroute; [done..|]. intros m [= <-]. by eapply (amount_worth (with_paid v q)).
Qed.

Lemma manual_refund_ended v q w : ended q w (manual_refund_verified env v q w).
Proof.
  unfold manual_refund_verified. destruct (refundXlmToUser _ _ _) as [[res|e] r].
  - apply answer_ended; [|done]. etransitivity; [|by apply upd_order_quiet]. done.
  - destruct e as [[]| |]; by apply answer_ended.
Qed.

(** The proofs change only by a [consume], and a request that goes on has just
    been granted the proof. *)
Definition after_verification (now : Z) (q : Request) (w : Relayer) (r : Request * Relayer) : Prop :=
  let consumed := plain (Some 80%nat) (q_hash q) = true /\ exists meta, w_proofs r.2 = (consume now (q_hash q) meta (w_proofs w)).2 in
  advance q w r /\ ((w_proofs r.2 = w_proofs w /\ grows w r.2) \/ consumed) /\
  (owns r.1 = true -> isConsumed (q_hash q) (w_proofs w) = false /\ consumed) /\
  (isConsumed (q_hash q) (w_proofs w) = true -> grows w r.2).

(** The whole step of a request that waits for Horizon. *)
Lemma on_verified_spec now a q w :
  rated w -> hash_ok (q_hash q) w -> stage_ok w q -> q_stage q = Verifying ->
  (isConsumed (q_hash q) (w_proofs w) = false -> sends_of (q_hash q) w = [] /\ acks_of (q_hash q) w = []) ->
  after_verification now q w (on_verified env now a q w).
Proof.
  intros Hrw Hh Hs Hst Hfree. unfold stage_ok in Hs. rewrite Hst in Hs. destruct Hs as (Hk & Hp & Hw). unfold on_verified.
  set (w1 := match a with Ok a => _ | Throw _ => _ end).
  assert (grows w w1) as Hg.
  { unfold w1. destruct a; [|by split]. split; [done| |done|done|done]. intros x Hx. cbn. by apply elem_of_app; left. }
  assert (w_proofs w1 = w_proofs w) as Ep by (unfold w1; by destruct a).
  pose proof (grows_hash_ok _ _ _ Hg Hh) as Hh'. pose proof (grows_rated _ _ Hg Hrw) as Hrw'.
  assert (forall r, ended q w1 r -> after_verification now q w r) as Hend.
  { intros r Hr. destruct (ended_advance q w1 r Hh' Hr) as [Ha Hkp]. split; [by eapply grows_advance|].
    assert (grows w r.2) as Hgr.
    { destruct Hr as [[Q1 Q2 Q3 Q4 Q5 Qr] _], Hg as [G1 G2 G3 G4 Gr]. split; [congruence|intros y; rewrite Q3; auto|congruence..|auto]. }
    split; [left; by rewrite Hkp|]. split; [intros Ho; apply ended_quiet_owns in Hr; congruence|done]. }
  destruct (verifyIncomingStellarPayment (q_hash q) (q_relayer q) (q_address q) a) as [v|e] eqn:Hv.
  2:{ destruct (q_handler q); apply Hend; by apply answer_ended. }
  assert (exists x, a = Ok x) as [x ->] by (destruct a; [by eexists|done]).
  assert (shown (q_hash q) v w1) as Hshown.
  { exists x, (q_relayer q), (q_address q). split; [|done]. unfold w1. cbn. apply elem_of_app. right. by apply list_elem_of_singleton. }
  assert (q_handler q <> HManualRefund -> let r := release_verified env now v q w1 in after_verification now q w r) as Hrel.
  { intros Hne. destruct Hp as [Hp|Hp]; [done|].
    destruct (release_verified_spec now v q w1) as (A1 & A2 & A3 & A4); [done..| |].
    { rewrite Ep. intros Hc. destruct Hg as [_ _ G3 G4 _]. unfold sends_of, acks_of. rewrite G3, G4. by apply Hfree. }
    rewrite Ep in A2, A3, A4. split; [by eapply grows_advance|]. split; [by right|]. split; [intros Ho; split_and!; auto|]. intros Hc.
    destruct (A4 Hc) as [Q1 Q2 Q3 Q4 Qr], Hg as [G1 G2 G3 G4 Gr]. split; [congruence|auto|congruence..|auto]. }
  destruct (q_handler q); try (by apply Hrel). apply Hend, manual_refund_ended.
Qed.

(** ** The invariant *)

Record inv (w : Relayer) : Prop := {
  inv_durable : durable (w_proofs w);
  inv_rated : rated w;
  inv_hash h : hash_ok h w;
  inv_consumed h : isConsumed h (w_proofs w) = false -> sends_of h w = [] /\ acks_of h w = [];
  inv_stage i q : w_requests w !! i = Some q -> stage_ok w q;
  inv_owner i q : w_requests w !! i = Some q -> owns q = true -> isConsumed (q_hash q) (w_proofs w) = true;
  inv_unique i j q q' :
    w_requests w !! i = Some q -> w_requests w !! j = Some q' -> owns q = true -> owns q' = true -> q_hash q = q_hash q' -> i = j
}.

Lemma inv_new : inv newRelayer.
Proof.
  split; [apply durable_fresh|done| |done|by intros i q|by intros i q|by intros i j q q'].
  intros h. split; [intros s s' H; by apply elem_of_nil in H|done|cbn; lia|intros s H; by apply elem_of_nil in H].
Qed.

(** What a stage says of the world is about its own payment. *)
Lemma stage_ok_mono w w' q :
  (forall x, x ∈ w_horizon w -> x ∈ w_horizon w') ->
  (owns q = true -> sends_of (q_hash q) w' = sends_of (q_hash q) w /\ acks_of (q_hash q) w' = acks_of (q_hash q) w) ->
  stage_ok w q -> stage_ok w' q.
Proof.
  intros Hh Hl. assert (forall v, shown (q_hash q) v w -> shown (q_hash q) v w') as Hs.
  { intros v (a & k & ex & Ha & Hr). exists a, k, ex. auto. }
  unfold stage_ok, sending_ok, paid_ok, owns in *. destruct (q_stage q); try done; destruct Hl as [E1 E2]; try done; rewrite E1, E2;
    naive_solver.
Qed.

Lemma set_requests_hash_ok rs w h : hash_ok h w -> hash_ok h (set_requests rs w).
Proof. intros [H1 H2 H3 H4]. by split. Qed.

(** Resuming a request preserves the invariant. *)
Lemma resume_inv w i q r :
  inv w -> w_requests w !! i = Some q -> advance q w r -> durable (w_proofs r.2) ->
  (forall h, isConsumed h (w_proofs w) = true -> isConsumed h (w_proofs r.2) = true) ->
  (isConsumed (q_hash q) (w_proofs r.2) = false -> sends_of (q_hash q) r.2 = [] /\ acks_of (q_hash q) r.2 = []) ->
  (owns r.1 = true -> isConsumed (q_hash q) (w_proofs r.2) = true /\ (owns q = true \/ isConsumed (q_hash q) (w_proofs w) = false)) ->
  (owns q = false -> isConsumed (q_hash q) (w_proofs w) = true -> grows w r.2) ->
  inv (set_requests (<[i := r.1]> (w_requests r.2)) r.2).
Proof.
  intros [I1 Ir I2 I3 I4 I5 I6] Hi [A1 A2 A3 A4 Ar A5 A6 A7] Hd Hmono Hfree Hown Hgrow. pose proof (lookup_lt_Some _ _ _ Hi) as Hlt.
  assert (forall j q', <[i := r.1]> (w_requests r.2) !! j = Some q' -> (j = i /\ q' = r.1) \/ (j <> i /\ w_requests w !! j = Some q')) as Hcase.
  { intros j q' H. rewrite A1 in H. destruct (decide (j = i)) as [->|Hj].
    - rewrite list_lookup_insert_eq in H by done. left. naive_solver.
    - rewrite list_lookup_insert_ne in H by done. by right. }
  assert (forall j q', j <> i -> w_requests w !! j = Some q' -> owns q' = true -> owns r.1 = true -> q_hash q' <> q_hash q) as Hother.
  { intros j q' Hj Hq' Ho Hr E. destruct (Hown Hr) as [_ [Hq|Hc]]; [by apply Hj, (I6 j i q' q)|].
    pose proof (I5 j q' Hq' Ho). rewrite E in *. congruence. }
  split; cbn [w_proofs set_requests w_requests].
  - done.
  - by apply Ar.
  - intros h. apply set_requests_hash_ok. destruct (decide (h = q_hash q)) as [->|Hne]; [done|]. destruct (I2 h) as [H1 H2 H3 H4].
    split; rewrite ?A3, ?A4 by done; [done..|]. intros s Hs. destruct (H4 s Hs) as (v & (a & k & ex & Ha & Hr) & Hw).
    exists v. split; [|done]. exists a, k, ex. auto.
  - intros h Hc. change (sends_of h r.2 = [] /\ acks_of h r.2 = []). destruct (decide (h = q_hash q)) as [->|Hne]; [by apply Hfree|].
    rewrite A3, A4 by done. apply I3. destruct (isConsumed h (w_proofs w)) eqn:E; [|done]. apply Hmono in E. congruence.
  - intros j q' Hq'. destruct (Hcase j q' Hq') as [[-> ->]|[Hj Hw]]; [exact A7|].
    change (stage_ok r.2 q'). apply (stage_ok_mono w); [done| |by eapply I4]. intros Ho. destruct (decide (q_hash q' = q_hash q)) as [E|E]; [|by rewrite A3, A4].
    destruct (owns q) eqn:Hoq; [by destruct Hj; apply (I6 j i q' q)|].
    assert (isConsumed (q_hash q) (w_proofs w) = true) as Hc by (rewrite <-E; by eapply I5).
    destruct (Hgrow eq_refl Hc) as [_ _ G3 G4 _]. unfold sends_of, acks_of. by rewrite G3, G4.
  - intros j q' Hq' Ho. destruct (Hcase j q' Hq') as [[-> ->]|[Hj Hw]]; [rewrite A5; by apply Hown|]. apply Hmono. by eapply I5.
  - intros j k qj qk Hj Hk Hoj Hok E. destruct (Hcase j qj Hj) as [[-> ->]|[Nj Hj']], (Hcase k qk Hk) as [[-> ->]|[Nk Hk']]; [done|..].
    + rewrite A5 in E. by destruct (Hother k qk Nk Hk' Hok Hoj).
    + rewrite A5 in E. by destruct (Hother j qj Nj Hj' Hoj Hok).
    + by eapply I6.
Qed.

(** A request that holds its proof, or one that only ends, keeps the proofs. *)
Lemma owner_resume w i q r :
  inv w -> w_requests w !! i = Some q -> owns q = true -> advance q w r /\ keeps_proofs w r ->
  inv (set_requests (<[i := r.1]> (w_requests r.2)) r.2).
Proof.
  intros Hw Hi Ho [Ha Hk]. assert (isConsumed (q_hash q) (w_proofs w) = true) as Hc by (by eapply (inv_owner w Hw)).
  apply (resume_inv w i q r Hw Hi Ha); rewrite ?Hk; try done; [apply Hw|intros; congruence|auto|intros; congruence].
Qed.

Lemma ended_resume w i q r :
  inv w -> w_requests w !! i = Some q -> ended q w r -> inv (set_requests (<[i := r.1]> (w_requests r.2)) r.2).
Proof.
  intros Hw Hi He. destruct (ended_advance q w r (inv_hash w Hw _) He) as [Ha Hk]. pose proof (ended_quiet_owns _ _ _ He) as Ho.
  destruct He as [Hq _]. apply (resume_inv w i q r Hw Hi Ha); rewrite ?Hk; try done; [apply Hw|..|intros; congruence|].
  - destruct (quiet_logs w r.2 (q_hash q) Hq) as [-> ->]. apply Hw.
  - intros _ _. destruct Hq as [Q1 Q2 Q3 Q4 Q5 Qr]. split; [done|by rewrite Q3|done..].
Qed.

Lemma verified_resume now a w i q :
  inv w -> w_requests w !! i = Some q -> q_stage q = Verifying ->
  let r := on_verified env now a q w in inv (set_requests (<[i := r.1]> (w_requests r.2)) r.2).
Proof.
  intros Hw Hi Hst r. destruct (on_verified_spec now a q w (inv_rated w Hw) (inv_hash w Hw _) (inv_stage w Hw i q Hi) Hst (inv_consumed w Hw _))
    as (Ha & Hp & Ho & Hg). fold r in Ha, Hp, Ho, Hg.
  assert (forall h, isConsumed h (w_proofs w) = true -> isConsumed h (w_proofs r.2) = true) as Hmono.
  { intros h Hh. destruct Hp as [[-> _]|(_ & meta & ->)]; [done|]. unfold isConsumed in *. by rewrite consume_has, Hh. }
  assert (forall meta, w_proofs r.2 = (consume now (q_hash q) meta (w_proofs w)).2 -> isConsumed (q_hash q) (w_proofs r.2) = true) as Hcons.
  { intros meta E. unfold isConsumed. by rewrite E, consume_has, String.eqb_refl, orb_true_r. }
  apply (resume_inv w i q r Hw Hi Ha); try done.
  - destruct Hp as [[-> _]|(Hplain & meta & ->)]; [apply Hw|]. by apply durable_consume, Hw.
  - intros Hc. destruct Hp as [[Hp [_ _ G3 G4 _]]|(_ & meta & Hp)]; [|apply Hcons in Hp; congruence].
    unfold sends_of, acks_of. rewrite G3, G4. apply (inv_consumed w Hw). by rewrite <-Hp.
  - intros Hr. destruct (Ho Hr) as (Hc & _ & meta & E). split; [by eapply Hcons|by right].
Qed.

(** ** Steps *)

Lemma admit_inv w q w' :
  inv w -> quiet w w' -> owns q = false -> stage_ok w' q -> inv (admit_request (q, w')).
Proof.
  intros [I1 Ir I2 I3 I4 I5 I6] Hq Ho Hs. pose proof Hq as [Q1 Q2 Q3 Q4 Q5 Qr].
  assert (forall j q', (w_requests w' ++ [q]) !! j = Some q' -> owns q' = true -> w_requests w !! j = Some q') as Hcase.
  { intros j q' H Ho'. rewrite Q2 in H. apply lookup_snoc_Some in H as [[_ H]|[_ <-]]; [done|congruence]. }
  split; cbn [admit_request set_requests w_proofs w_requests fst snd].
  - by rewrite Q1.
  - by apply Qr.
  - intros h. apply set_requests_hash_ok. by eapply quiet_hash_ok.
  - intros h Hc. rewrite Q1 in Hc. change (sends_of h w' = [] /\ acks_of h w' = []). destruct (quiet_logs w w' h Hq) as [-> ->]. by apply I3.
  - intros j q' H. change (stage_ok w' q'). rewrite Q2 in H. apply lookup_snoc_Some in H as [[_ H]|[_ <-]]; [|done].
    apply (stage_ok_mono w); [by rewrite Q3|intros _; by apply quiet_logs|by eapply I4].
  - intros j q' H Ho'. rewrite Q1. eapply I5; eauto.
  - intros j k qj qk Hj Hk Hoj Hok. eapply I6; eauto.
Qed.

(** Requests carry hashes that are file names as they are, the proof ledger's
    disk can be written, and a restart finds every file. *)
Definition event_ok (e : Event) : Prop :=
  match e with
  | EDisk works => works = true
  | EXlmToEth _ b | EProcess b => forall h, b_stellarTxHash b = Some h -> plain (Some 80%nat) h = true
  | EReboot ps _ _ => lists_all ps
  | _ => True
  end.

Lemma truthy_text_Some o s : truthy_text o = Some s -> o = Some s.
Proof. destruct o as [t|]; [|done]. cbn. destruct (truthy_string t); [|done]. by intros [= <-]. Qed.

Lemma relayer_keys_own net k secret : relayer_keys env net = Some (Some k, secret) -> own_account k.
Proof.
  unfold relayer_keys. destruct (truthy_text _) as [s|] eqn:E; [|done]. intros [= H <-]. apply truthy_text_Some in E. by exists (String.eqb net "mainnet"), s.
Qed.

(** A post is refused, or waits for Horizon or for a payment of XLM. *)
Definition posted (w : Relayer) (r : Request * Relayer) : Prop := quiet w r.2 /\ owns r.1 = false /\ stage_ok r.2 r.1.

Lemma posted_inv w r : inv w -> posted w r -> inv (admit_request r).
Proof. destruct r as [q w']. intros Hw (H1 & H2 & H3). by eapply admit_inv. Qed.

Lemma refused_posted w w' h id status : quiet w w' -> posted w (refused h id status, w').
Proof. done. Qed.

Lemma verifying_posted w w' h id hash dest address secret k :
  quiet w w' -> own_account k -> h = HManualRefund \/ plain (Some 80%nat) hash = true ->
  posted w (new_request h id hash dest address secret k Verifying, w').
Proof. intros Hq Hk Hp. split; [done|]. split; [done|]. by split_and!. Qed.

Lemma post_xlm_to_eth_posted now b w :
  (forall h, b_stellarTxHash b = Some h -> plain (Some 80%nat) h = true) -> posted w (post_xlm_to_eth env now b w).
Proof.
  intros Hb. unfold post_xlm_to_eth. destruct (truthy_text (b_orderId b)) as [id|]; [|by apply refused_posted].
  destruct (truthy_text (b_stellarTxHash b)) as [hash|] eqn:Eh; [|by apply refused_posted]. apply truthy_text_Some, Hb in Eh.
  destruct (truthy_text (b_ethAddress b)) as [dest|]; [|by apply refused_posted].
  destruct (isConsumed hash (w_proofs w)); [by apply refused_posted|].
  destruct (jm_get id (w_orders w)) as [o0|] eqn:Eo; [|by apply refused_posted].
  set (o := receive_payment now hash _ _ o0).
  assert (quiet w (set_orders (jm_set id o (w_orders w)) w)) as Hq by (by eapply store_order_quiet).
  repeat (match goal with |- posted w (if ?c then _ else _) => destruct c; [by apply refused_posted|] end).
  destruct (relayer_keys env _) as [[[k|] secret]|] eqn:Ek; [|by apply refused_posted..].
  apply verifying_posted; [done|by eapply relayer_keys_own|by right].
Qed.

Lemma post_process_posted b w :
  (forall h, b_stellarTxHash b = Some h -> plain (Some 80%nat) h = true) -> posted w (post_process env b w).
Proof.
  intros Hb. unfold post_process. destruct (truthy_text (b_orderId b)) as [id|]; [|by apply refused_posted].
  destruct (jm_get id (w_orders w)) as [o|]; [|by apply refused_posted].
  destruct (bool_decide _ && _); [split; [by apply upd_order_quiet|done]|].
  destruct (truthy_text (b_stellarTxHash b)) as [hash|] eqn:Eh, (truthy_text (b_txHash b)); try by apply refused_posted.
  2: { by split_and!. }
  apply truthy_text_Some, Hb in Eh. unfold process_xlm_to_eth.
  repeat (match goal with |- posted w (if ?c then _ else _, _) => destruct c; [by apply refused_posted|] end).
  destruct (relayer_keys env _) as [[[k|] secret]|] eqn:Ek; [|by apply refused_posted..].
  destruct (negb _); [by apply refused_posted|]. apply verifying_posted; [done|by eapply relayer_keys_own|by right].
Qed.

Lemma post_manual_refund_posted b w : posted w (post_manual_refund env b w).
Proof.
  unfold post_manual_refund. destruct (truthy_text (b_stellarTxHash b)) as [hash|]; [|by apply refused_posted].
  destruct (truthy_text (b_stellarAddress b)) as [address|]; [|by apply refused_posted].
  destruct (phase <$> _) as [[]|]; try by apply refused_posted.
  destruct (RefundLedger.claim _ _) as [granted l]. destruct granted; cbn [negb]; [|by apply refused_posted].
  destruct (relayer_keys env _) as [[[k|] secret]|] eqn:Ek; [|by apply refused_posted..].
  apply verifying_posted; [done|by eapply relayer_keys_own|by left].
Qed.

Lemma quiet_inv w w' : quiet w w' -> inv w -> inv w'.
Proof.
  intros Hq [I1 Ir I2 I3 I4 I5 I6]. pose proof Hq as [Q1 Q2 Q3 Q4 Q5 Qr]. split; rewrite ?Q1, ?Q2; try done.
  - by apply Qr.
  - intros h. by eapply quiet_hash_ok.
  - intros h. destruct (quiet_logs w w' h Hq) as [-> ->]. apply I3.
  - intros i q H. apply (stage_ok_mono w); [by rewrite Q3|intros _; by apply quiet_logs|by eapply I4].
Qed.

Lemma reboot_inv ps rs fs w : lists_all ps -> inv w -> inv (step env w (EReboot ps rs fs)).
Proof.
  intros Hl [I1 Ir I2 I3 I4 I5 I6]. split; cbn [step w_proofs w_requests]; try by intros i.
  - by apply durable_reboot.
  - intros h. destruct (I2 h) as [H1 H2 H3 H4]. by split.
  - intros h Hc. apply I3. unfold isConsumed in *. by rewrite reboot_has in Hc.
Qed.

Lemma step_inv w e :
  event_ok e -> (forall id o rate, e = EOrder id o -> so_exchangeRate o = Some rate -> rates id rate) ->
  inv w -> inv (step env w e).
Proof.
  intros He Hr Hw. destruct e as [id o|now b|b|b|now i a|now i a|now i a|now i a|now i a|i a|now i|now a|works|ps rs fs]; cbn [step].
  - destruct Hw as [I1 Ir I2 I3 I4 I5 I6]. split; try done; [apply set_orders_rated; [done|by eauto]|].
    intros h. destruct (I2 h) as [H1 H2 H3 H4]. by split.
  - by apply (posted_inv w), post_xlm_to_eth_posted.
  - by apply (posted_inv w), post_process_posted.
  - by apply (posted_inv w), post_manual_refund_posted.
  - unfold resume. destruct (w_requests w !! i) as [q|] eqn:Hi; [|done]. destruct (q_stage q) eqn:Hst; try done.
    pose proof (verified_resume now a w i q Hw Hi Hst) as H. by destruct (on_verified env now a q w).
  - unfold resume. destruct (w_requests w !! i) as [q|] eqn:Hi; [|done]. pose proof (inv_stage w Hw i q Hi) as Hs.
    destruct (q_stage q) eqn:Hst; try done. pose proof (owner_resume w i q (on_coordinator env now a q w) Hw Hi) as H.
    unfold stage_ok, owns in Hs, H. rewrite Hst in Hs, H. specialize (H eq_refl (on_coordinator_advance now a q w (inv_hash w Hw _) Hs)).
    by destruct (on_coordinator env now a q w).
  - unfold resume. destruct (w_requests w !! i) as [q|] eqn:Hi; [|done]. pose proof (inv_stage w Hw i q Hi) as Hs.
    destruct (q_stage q) eqn:Hst; try done. pose proof (owner_resume w i q (on_balance env now a q w) Hw Hi) as H.
    unfold stage_ok, owns in Hs, H. rewrite Hst in Hs, H. specialize (H eq_refl (on_balance_advance now a q w (inv_rated w Hw) (inv_hash w Hw _) Hs)).
    by destruct (on_balance env now a q w).
  - unfold resume. destruct (w_requests w !! i) as [q|] eqn:Hi; [|done]. pose proof (inv_stage w Hw i q Hi) as Hs.
    destruct (q_stage q) as [| | | |wei| | | | |] eqn:Hst; try done. pose proof (owner_resume w i q (on_sent env now wei a q w) Hw Hi) as H.
    unfold stage_ok, owns in Hs, H. rewrite Hst in Hs, H. destruct Hs as [Hs Hn].
    specialize (H eq_refl (on_sent_advance now wei a q w (inv_hash w Hw _) Hs Hn)). by destruct (on_sent env now wei a q w).
  - unfold resume. destruct (w_requests w !! i) as [q|] eqn:Hi; [|done].
    destruct (q_stage q) eqn:Hst; try done. pose proof (owner_resume w i q (on_confirmed env now a q w) Hw Hi) as H.
    unfold owns in H. rewrite Hst in H. specialize (H eq_refl (on_confirmed_advance now a q w (inv_hash w Hw _))).
    by destruct (on_confirmed env now a q w).
  - unfold resume. destruct (w_requests w !! i) as [q|] eqn:Hi; [|done]. destruct (q_stage q) eqn:Hst; try done.
    pose proof (ended_resume w i q (on_paid a q w) Hw Hi (on_paid_ended a q w)) as H. by destruct (on_paid a q w).
  - unfold resume. destruct (w_requests w !! i) as [q|] eqn:Hi; [|done]. pose proof (inv_stage w Hw i q Hi) as Hs.
    pose proof (owner_resume w i q (on_wake env now q w) Hw Hi) as H. pose proof (on_wake_advance now q w (inv_hash w Hw _) Hs) as Ha.
    unfold owns in H. destruct (q_stage q) eqn:Hst; try done; specialize (H eq_refl (Ha I)); by destruct (on_wake env now q w).
  - by apply (quiet_inv w).
  - apply (quiet_inv w); [|done]. cbn in He. subst works. destruct (inv_durable w Hw) as [[_ Hd] _].
    split; [|done..]. cbn. unfold set_disk. rewrite <- Hd. by destruct (w_proofs w).
  - by apply reboot_inv.
Qed.

Lemma run_inv es :
  Forall event_ok es -> (forall id o rate, EOrder id o ∈ es -> so_exchangeRate o = Some rate -> rates id rate) ->
  inv (run env es).
Proof.
  intros Hes. unfold run. assert (inv newRelayer) as H by apply inv_new. revert H. generalize newRelayer.
  induction Hes as [|e es He _ IH]; intros w Hw Hr; [done|]. cbn. apply IH.
  - apply step_inv; [done| |done]. intros id o rate ->. apply Hr. by left.
  - intros id o rate Ho. apply Hr. by right.
Qed.
End Spec.

(** ** What is released *)

(** The amount is the payment divided by the rounded rate, rounded down. *)
Lemma release_amount_exact rate text n :
  release_amount rate text = Wei n ->
  exists q stroops, rate = Some q /\ (0 < q)%Q /\ stroops_of text = Some stroops /\ 0 < Math_round q /\ n <> 0 /\
    (0 <= stroops -> n * (Math_round q * 10000000) <= stroops * 10 ^ 18 < (n + 1) * (Math_round q * 10000000)).
Proof.
  unfold release_amount. destruct rate as [q|]; [|done]. destruct (Qle_bool q 0) eqn:Hq; [done|].
  destruct (stroops_of text) as [st|]; [|done]. destruct (negb _); [done|].
  destruct (Math_round q =? 0) eqn:Hr; [done|]. destruct (_ ÷ _ =? 0) eqn:Hn; [done|]. intros [= <-].
  apply Z.eqb_neq in Hn, Hr. assert (0 < q)%Q as Hpos.
  { apply Qnot_le_lt. intros H. apply Qle_bool_iff in H. congruence. }
  assert (0 < Math_round q) as Hround.
  { enough (0 <= Math_round q) by lia. unfold Math_round. apply (Qfloor_resp_le 0). apply Qlt_le_weak. by apply (Qlt_trans _ q); [|apply Qlt_minus_iff; ring_simplify]. }
  exists q, st. split_and!; try done. intros Hst.
  pose proof (Z.quot_div_nonneg (st * 10 ^ 18) (Math_round q * 10000000) ltac:(lia) ltac:(lia)) as ->.
  pose proof (Z.mul_div_le (st * 10 ^ 18) (Math_round q * 10000000) ltac:(lia)).
  pose proof (Z.mul_succ_div_gt (st * 10 ^ 18) (Math_round q * 10000000) ltac:(lia)). lia.
Qed.

(** The rates the events store an order with. *)
Definition stored_rates (es : list Event) (id : string) (rate : Q) : Prop :=
  exists o, EOrder id o ∈ es /\ so_exchangeRate o = Some rate.

(** C35.  However requests, retries and restarts interleave, the ETH released
    for a Stellar payment is started at most three times and acknowledged at most
    once, always for the same order, to the same address and in the same amount.
    Horizon has shown the transaction to be successful, with a native payment to
    an account of the relayer, and what is sent is the amount of that payment at
    a rate the very order was stored with: divided by the rounded rate and
    rounded down, when the payment is not negative.  This is for payment hashes
    that are file names of the proof ledger as they are (at most 80 characters
    that need no replacement), a disk the ledger can write, and restarts that
    read every file. *)
Theorem eth_released_once env es h :
  Forall event_ok es ->
  let w := EthRelease.run env es in
  (Z.of_nat (length (sends_of h w)) <= ETH_SEND_ATTEMPTS /\ (length (acks_of h w) <= 1)%nat) /\
  (forall s s', s ∈ sends_of h w -> s' ∈ sends_of h w -> s = s') /\
  forall s, s ∈ sends_of h w ->
    exists tx ops op k amount rate stroops,
      (h, (tx, ops)) ∈ w_horizon w /\ ht_successful tx = true /\ op ∈ ops /\
      native_payment_to k op = true /\ own_account env k /\ ho_amount op = Some amount /\
      stored_rates es (sd_orderId s) rate /\ stroops_of amount = Some stroops /\
      (0 <= stroops ->
       sd_wei s * (Math_round rate * 10000000) <= stroops * 10 ^ 18 < (sd_wei s + 1) * (Math_round rate * 10000000)).
Proof.
  intros Hes w. assert (inv env (stored_rates es) w) as Hw by (apply run_inv; [done|by intros id o rate; exists o]).
  destruct (inv_hash env _ _ Hw h) as [Hsame Hsends Hacks Hback]. split_and!; [done..|].
  intros s Hs. destruct (Hback s Hs) as (v & (a & k & ex & Ha & Hk & Hv) & rate & Hrate & Hr).
  assert (sd_hash s = h) as <-. { apply list_elem_of_In, List.filter_In in Hs as [_ Hs]. by apply String.eqb_eq. }
  apply verified_payment in Hv as (tx & ops & op & [= ->] & ? & ? & ? & ? & _).
  apply release_amount_exact in Hr as (q & stroops & [= <-] & _ & Hst & _ & _ & Hx).
  by exists tx, ops, op, k, (vp_amount v), rate, stroops.
Qed.

(** ** Scenarios *)

Definition demo_env : Env :=
  mkEnv (Some "0xkey") true (fun _ => Some "SECRET") (fun _ => Some "GRELAYER") "testnet"
    (SettlementPermissions.buildSupportPolicy demo_config None) demo_config demo_horizon default_engine 3.
Definition demo_stored : StoredOrder :=
  mkOrder (mkWatchdogOrder (Some "xlm_to_eth") (Some "awaiting_xlm_payment") (Some "GUSER") None None None None None None None)
    (Some "0xuser") None (Some "XLM_TO_ETH_PENDING") (Some (10000 # 1)) None.
Definition paid_100 : HorizonTxRecord * list HorizonOpRecord :=
  (mkTxRecord true 7 None, [mkOpRecord "payment" (Some "GUSER") (Some "GRELAYER") (Some "100.0000000") (Some "native")]).
Definition demo_body (address : option string) (eth : string) : Body := mkBody (Some "order-1") (Some "tx1") None address (Some eth) None None.
Definition known : FetchEnd CoordinatorOrderMetadata := PaymentGate.Body (mkMetadata "order-1" "announced").
Definition demo_release : list Event :=
  [EOrder "order-1" demo_stored; EXlmToEth 1 (demo_body (Some "GUSER") "0xuser"); EProcess (demo_body None "0xuser");
   EVerified 2 0 (Ok paid_100); EVerified 2 1 (Ok paid_100);
   ECoordinator 3 0 known; EBalance 4 0 (Ok (10 ^ 18)); ESent 5 0 (Ok "0xeth")].

Lemma eth_released_once_witness :
  let w := EthRelease.run demo_env demo_release in
  sends_of "tx1" w = [mkSend "tx1" "order-1" "0xuser" (10 ^ 16)] /\ acks_of "tx1" w = [("tx1", "0xeth")] /\
  map q_stage (w_requests w) = [Answered 200; Answered 409] /\ Z.of_nat (length (sends_of "tx1" w)) <= ETH_SEND_ATTEMPTS.
Proof.
  assert (Forall event_ok demo_release) as H by (repeat constructor; by intros h [= <-]).
  split_and!; [by vm_compute..|]. exact (proj1 (proj1 (eth_released_once demo_env demo_release "tx1" H))).
Defined.

(** The coordinator is away when the payment has been verified: the release is
    refused, nothing is refunded, and asking again is a replay. *)
Example outage_strands_payment :
  let es := [EOrder "order-1" demo_stored; EXlmToEth 1 (demo_body (Some "GUSER") "0xuser"); EVerified 2 0 (Ok paid_100);
             ECoordinator 3 0 (NotOk 503); EXlmToEth 100 (demo_body (Some "GUSER") "0xuser")] in
  let w := EthRelease.run demo_env es in
  map q_stage (w_requests w) = [Answered 503; Answered 409] /\ w_sends w = [] /\ calls (w_refunds w) = [].
Proof. by vm_compute. Qed.

(** The proof cannot be written, and after a restart the payment is released
    again. *)
Example unwritten_proof_released_twice :
  let round i := [EOrder "order-1" demo_stored; EXlmToEth 1 (demo_body (Some "GUSER") "0xuser"); EVerified 2 0 (Ok paid_100);
    ECoordinator 3 0 known; EBalance 4 0 (Ok (10 ^ 18)); ESent 5 0 (Ok i)] in
  acks_of "tx1" (EthRelease.run demo_env ([EDisk false] ++ round "0x1" ++ [EReboot map_to_list map_to_list map_to_list] ++ round "0x2"))
  = [("tx1", "0x1"); ("tx1", "0x2")].
Proof. by vm_compute. Qed.

(** A timeout says nothing about the transaction, and the transfer is sent again. *)
Example timed_out_send_repeated :
  let late := Throw (plain_error "sendTransaction timeout") in
  let es := [EOrder "order-1" demo_stored; EXlmToEth 1 (demo_body (Some "GUSER") "0xuser"); EVerified 2 0 (Ok paid_100);
             ECoordinator 3 0 known; EBalance 4 0 (Ok (10 ^ 18)); ESent 5 0 late; EWake 6 0; ESent 7 0 late; EWake 8 0;
             ESent 9 0 (Ok "0xeth")] in
  let w := EthRelease.run demo_env es in
  sends_of "tx1" w = replicate 3 (mkSend "tx1" "order-1" "0xuser" (10 ^ 16)) /\ acks_of "tx1" w = [("tx1", "0xeth")].
Proof. by vm_compute. Qed.

(** The destination is the request's: whoever names the hash first is paid. *)
Example payment_of_another_user :
  let es := [EOrder "order-1" demo_stored; EXlmToEth 1 (demo_body None "0xthief"); EVerified 2 0 (Ok paid_100);
             ECoordinator 3 0 known; EBalance 4 0 (Ok (10 ^ 18)); ESent 5 0 (Ok "0xeth")] in
  map sd_to (w_sends (EthRelease.run demo_env es)) = ["0xthief"].
Proof. by vm_compute. Qed.

(** In the other direction nothing is verified, and XLM is paid as often as it is
    asked for. *)
Example unverified_xlm_paid_twice :
  let b := mkBody (Some "order-1") None (Some "0xanything") None None None None in
  let es := [EOrder "order-1" demo_stored; EProcess b; EPaid 0 (Ok "s1"); EProcess b; EPaid 1 (Ok "s2")] in
  w_payouts (EthRelease.run demo_env es) = [("order-1", "GUSER"); ("order-1", "GUSER")].
Proof. by vm_compute. Qed.

(** One ETH at 10000 XLM is paid 10000 stroops, not 10000 XLM. *)
Example escrow_pays_stroops : escrow_stroops (10 ^ 18) (10000 # 1) = Some 10000.
Proof. done. Qed.

(** The manual refund claims the order before the refund routine does, which then
    refuses to run. *)
Example manual_refund_never_pays :
  let es := [EManualRefund (demo_body (Some "GUSER") ""); EVerified 2 0 (Ok paid_100)] in
  let w := EthRelease.run demo_env es in
  map q_stage (w_requests w) = [Answered 500] /\ is_ok (refundXlmToUser demo_horizon (demo_args false) empty_world).1 = true.
Proof. by vm_compute. Qed.
