(* ===== verification/RpcRetry.v ===== *)
(** * Retried RPC calls of the resolver

    resolver/src/retry.ts: the classification of errors, the backoff that
    depends on it, and the retry loop with its abort signal.  The world is a
    parameter: the call, the sleep, the [onRetry] callback and the signal read
    and change it.  Random numbers are arguments; delays are rationals until
    [Math.round]. *)

From S2P Require Import Prelude XlmAmounts.
From Stdlib Require Import QArith Qround Qminmax Lqa.
#[local] Open Scope Z_scope.

(** ** Errors *)

Inductive ErrorKind : Type := PlainKind | TransientKind | CancelledKind.

#[export] Instance ErrorKind_eq_dec : EqDecision ErrorKind.
Proof. solve_decision. Defined.

(** A thrown value: an [Error] with its class, message and [code], a string, or
    anything else with its [String(...)] text. *)
Inductive Rejection : Type :=
| RError (kind : ErrorKind) (message : string) (code : option string)
| RString (s : string)
| ROther (text : string).

Definition RetryCancelledError : Rejection := RError CancelledKind "Retry cancelled" None.

Definition is_cancelled (e : Rejection) : bool := match e with RError CancelledKind _ _ => true | _ => false end.

(** [err instanceof Error ? err : new Error(String(err))]. *)
Definition as_error (e : Rejection) : Rejection :=
  match e with RError _ _ _ => e | RString t | ROther t => RError PlainKind t None end.

Inductive RpcErrorClass : Type := timeout | reset | unavailable | rate_limited | partial | transient | unknown.

#[export] Instance RpcErrorClass_eq_dec : EqDecision RpcErrorClass.
Proof. solve_decision. Defined.

Definition ERROR_CLASS_MULTIPLIER (c : RpcErrorClass) : Q :=
  match c with
  | timeout | partial => 1 # 2
  | reset => 3 # 4
  | transient | unknown => 1
  | unavailable => 3 # 2
  | rate_limited => 2
  end.

Definition error_text (e : Rejection) : string :=
  match e with
  | RError _ m code => toLowerCase (m +:+ " " +:+ default "" code)
  | RString s => toLowerCase s
  | ROther _ => ""
  end.

Definition mentions (patterns : list string) (e : Rejection) : bool := existsb (includes (error_text e)) patterns.

Definition classifyRpcError (e : Rejection) : RpcErrorClass :=
  if mentions ["429"; "rate limit"; "too many requests"] e then rate_limited
  else if mentions ["econnrefused"; "ehostunreach"; "enetunreach"; "fetch failed"; "failed to fetch"; "503";
                    "service unavailable"; "network error"] e then unavailable
  else if mentions ["econnreset"; "socket hang up"; "connection reset"] e then reset
  else if mentions ["etimedout"; "timed out"; "timeout"; "abort"] e then timeout
  else if mentions ["parse"; "json"; "unexpected end"; "invalid response"; "unexpected token"] e then partial
  else match e with RError TransientKind _ _ => transient | _ => unknown end.

(** ** Delays *)

Definition effectiveBaseDelay (c : RpcErrorClass) (baseDelayMs maxDelayMs : Z) : Q :=
  Qmin (inject_Z maxDelayMs) (Qmax 0 (inject_Z baseDelayMs * ERROR_CLASS_MULTIPLIER c)).

Definition calculateBackoff (random : Q) (attempt : nat) (baseDelayMs : Q) (maxDelayMs : Z) (jitterFactor : Q) : Z :=
  let exponential := Qmin (inject_Z maxDelayMs) (baseDelayMs * inject_Z (2 ^ Z.of_nat attempt)) in
  let jitter := (jitterFactor * exponential * (random - (1 # 2)))%Q in
  Z.max 0 (Math_round (exponential + jitter)).

(** ** Options *)

Record RetryOptions : Type := mkRetryOptions {
  o_maxAttempts : option Z;
  o_baseDelayMs : option Z;
  o_maxDelayMs : option Z;
  o_jitterFactor : option Q;
  o_noRetry : option bool
}.

Record Normalized : Type := mkNormalized {
  maxAttempts : Z;
  baseDelayMs : Z;
  maxDelayMs : Z;
  jitterFactor : Q;
  noRetry : bool
}.

Inductive OptionError : Type := NegativeBaseDelay (n : Z) | NegativeJitter (q : Q).

Definition normalizeRetryOptions (o : RetryOptions) : outcome OptionError Normalized :=
  let n := mkNormalized (default 5 (o_maxAttempts o)) (default 1000 (o_baseDelayMs o)) (default 30000 (o_maxDelayMs o))
             (default (1 # 5) (o_jitterFactor o)) (default false (o_noRetry o)) in
  let n := if maxAttempts n <? 1 then mkNormalized 1 (baseDelayMs n) (maxDelayMs n) (jitterFactor n) (noRetry n) else n in
  if baseDelayMs n <? 0 then Throw (NegativeBaseDelay (baseDelayMs n))
  else if negb (Qle_bool 0 (jitterFactor n)) then Throw (NegativeJitter (jitterFactor n))
  else Ok n.

(** [retryRpcCall] passes these, under what its caller gives. *)
Definition rpc_options (o : RetryOptions) : RetryOptions :=
  mkRetryOptions (Some (default 5 (o_maxAttempts o))) (Some (default 1000 (o_baseDelayMs o))) (Some (default 30000 (o_maxDelayMs o)))
    (Some (default (1 # 5) (o_jitterFactor o))) (o_noRetry o).

Definition no_options : RetryOptions := mkRetryOptions None None None None None.

(** ** The loop *)

Section Loop.
Context {W A : Type} (fn : W -> outcome Rejection A * W).
Context (aborted : W -> bool) (sleep : Z -> W -> W) (onRetry : Z -> Z -> Rejection -> W -> W) (random : W -> Q).

(** [sleepCancellable] rejects when the signal is or gets aborted. *)
Definition sleepCancellable (ms : Z) (w : W) : bool * W :=
  if aborted w then (false, w) else let w := sleep ms w in (negb (aborted w), w).

(** [tries] attempts remain after [attempt] of them. *)
Fixpoint retry_loop (n : Normalized) (tries attempt : nat) (lastError : Rejection) (w : W) : outcome Rejection A * W :=
  match tries with
  | O => (Throw (if aborted w then RetryCancelledError else lastError), w)
  | S tries =>
      if aborted w then (Throw RetryCancelledError, w)
      else
        match fn w with
        | (Ok v, w) => (Ok v, w)
        | (Throw e, w) =>
            if is_cancelled e then (Throw e, w)
            else if aborted w then (Throw RetryCancelledError, w)
            else if noRetry n then (Throw (as_error e), w)
            else
              let base := effectiveBaseDelay (classifyRpcError e) (baseDelayMs n) (maxDelayMs n) in
              let delay := calculateBackoff (random w) attempt base (maxDelayMs n) (jitterFactor n) in
              let '(awake, w) := sleepCancellable delay (onRetry (Z.of_nat attempt + 1) delay (as_error e) w) in
              if awake then retry_loop n tries (S attempt) (as_error e) w else (Throw RetryCancelledError, w)
        end
  end.

Definition withRetry (o : RetryOptions) (w : W) : outcome (OptionError + Rejection) A * W :=
  match normalizeRetryOptions o with
  | Throw e => (Throw (inl e), w)
  | Ok n =>
      let '(r, w) := retry_loop n (Z.to_nat (maxAttempts n)) 0 RetryCancelledError w in
      (match r with Ok v => Ok v | Throw e => Throw (inr e) end, w)
  end.

Definition retryRpcCall (o : RetryOptions) (w : W) : outcome (OptionError + Rejection) A * W := withRetry (rpc_options o) w.
End Loop.

(** [withTimeout]: whichever of the promise and the timer settles first. *)
Definition withTimeout {A} (timeoutMs settlesAt : Z) (r : outcome Rejection A) : outcome Rejection A :=
  if settlesAt <=? timeoutMs then r
  else Throw (RError PlainKind ("Operation timed out after " +:+ pretty timeoutMs +:+ "ms") None).

(** ** Facts *)

Lemma normalized_ok o n :
  normalizeRetryOptions o = Ok n -> 1 <= maxAttempts n /\ 0 <= baseDelayMs n /\ (0 <= jitterFactor n)%Q.
Proof.
  unfold normalizeRetryOptions. cbv zeta. cbn [maxAttempts]. destruct (_ <? 1) eqn:E1; cbn [maxAttempts baseDelayMs jitterFactor];
    destruct (_ <? 0) eqn:E2; try done; destruct (Qle_bool 0 _) eqn:E3; try done; intros [= <-];
    cbn [maxAttempts baseDelayMs jitterFactor]; apply Qle_bool_iff in E3; split_and!; try done; lia.
Qed.

Lemma Qmin_nonneg a b : (0 <= a)%Q -> (0 <= b)%Q -> (0 <= Qmin a b)%Q.
Proof. intros Ha Hb. by apply Q.min_glb. Qed.

Lemma effectiveBaseDelay_bounds c base m : 0 <= m -> (0 <= effectiveBaseDelay c base m <= inject_Z m)%Q.
Proof.
  intros Hm. unfold effectiveBaseDelay. split; [|apply Q.le_min_l]. apply Qmin_nonneg; [|apply Q.le_max_l].
  change 0%Q with (inject_Z 0). by rewrite <-Zle_Qle.
Qed.

(** A delay exceeds the cap by at most half the jitter. *)
Lemma calculateBackoff_bounds random attempt base m jitter :
  (0 <= random <= 1)%Q -> (0 <= jitter)%Q -> (0 <= base)%Q -> 0 <= m ->
  0 <= calculateBackoff random attempt base m jitter /\
  (inject_Z (calculateBackoff random attempt base m jitter) <= inject_Z m * (1 + jitter * (1 # 2)) + (1 # 2))%Q.
Proof.
  intros [Hr0 Hr] Hj Hb Hm. unfold calculateBackoff. set (p := inject_Z (2 ^ Z.of_nat attempt)).
  assert (0 <= p)%Q as Hp. { change 0%Q with (inject_Z 0). unfold p. rewrite <-Zle_Qle. lia. }
  assert (0 <= inject_Z m)%Q as Hm'. { change 0%Q with (inject_Z 0). by rewrite <-Zle_Qle. }
  assert (0 <= base * p)%Q as Hbp by nra. pose proof (Qmin_nonneg _ _ Hm' Hbp) as He0.
  pose proof (Q.le_min_l (inject_Z m) (base * p)) as He. set (x := Qmin _ _) in *. split; [lia|].
  assert (0 <= inject_Z m * (1 + jitter * (1 # 2)) + (1 # 2))%Q as Hnn by nra.
  destruct (Z.max_spec 0 (Math_round (x + jitter * x * (random - (1 # 2))))) as [[_ ->]|[_ ->]]; [|done].
  unfold Math_round. eapply Qle_trans; [apply Qfloor_le|].
  assert (0 <= jitter * x)%Q by nra. assert (jitter * x <= jitter * inject_Z m)%Q by nra.
  assert (0 <= (jitter * x) * (1 - random))%Q by nra. lra.
Qed.

Section Facts.
Context {W A : Type} (fn : W -> outcome Rejection A * W).
Context (aborted : W -> bool) (sleep : Z -> W -> W) (onRetry : Z -> Z -> Rejection -> W -> W) (random : W -> Q).
Abbreviation loop := (retry_loop fn aborted sleep onRetry random).

(** Whatever the call and the callbacks keep, the loop keeps. *)
Lemma retry_keeps (R : W -> W -> Prop) `{!PreOrder R} :
  (forall w, R w (fn w).2) -> (forall d w, R w (sleep d w)) -> (forall i d e w, R w (onRetry i d e w)) ->
  forall n tries attempt last w, R w (loop n tries attempt last w).2.
Proof.
  intros Hfn Hsleep Hon n tries. induction tries as [|tries IH]; intros attempt last w; [done|]. cbn [retry_loop].
  destruct (aborted w); [done|]. pose proof (Hfn w) as H. destruct (fn w) as [[v|e] w1]; cbn [snd] in *; [done|].
  destruct (is_cancelled e); [done|]. destruct (aborted w1); [done|]. destruct (noRetry n); [done|].
  unfold sleepCancellable. set (d := calculateBackoff _ _ _ _ _). set (w2 := onRetry _ d _ w1).
  assert (R w w2) as H2 by (etransitivity; [done|apply Hon]).
  destruct (aborted w2); [done|]. assert (R w (sleep d w2)) as H3 by (by etransitivity).
  destruct (aborted (sleep d w2)); cbn [negb]; [done|]. etransitivity; [done|apply IH].
Qed.

(** At most [tries] calls, and none once the signal is aborted. *)
Lemma retry_calls (calls : W -> Z) :
  (forall w, calls (fn w).2 = calls w + 1) -> (forall d w, calls (sleep d w) = calls w) ->
  (forall i d e w, calls (onRetry i d e w) = calls w) ->
  forall n tries attempt last w,
    0 <= calls (loop n tries attempt last w).2 - calls w <= Z.of_nat tries /\
    (aborted w = true -> calls (loop n tries attempt last w).2 = calls w).
Proof.
  intros Hfn Hsleep Hon n tries. induction tries as [|tries IH]; intros attempt last w; [cbn; lia|]. cbn [retry_loop].
  destruct (aborted w) eqn:Hab; [cbn; lia|]. split; [|done]. pose proof (Hfn w) as H.
  destruct (fn w) as [[v|e] w1]; cbn [snd] in *; [lia|].
  destruct (is_cancelled e); [cbn; lia|]. destruct (aborted w1); [cbn; lia|]. destruct (noRetry n); [cbn; lia|].
  unfold sleepCancellable. set (d := calculateBackoff _ _ _ _ _). set (w2 := onRetry _ d _ w1).
  assert (calls w2 = calls w + 1) as H2 by (unfold w2; rewrite Hon; lia).
  destruct (aborted w2); [cbn; lia|]. destruct (aborted (sleep d w2)) eqn:Ha; cbn [negb]; [cbn; rewrite Hsleep; lia|].
  destruct (IH (S attempt) (as_error e) (sleep d w2)) as [IH1 _]. rewrite Hsleep in IH1. lia.
Qed.

(** What is returned is what a call answered. *)
Lemma retry_ok n tries attempt last w v w' :
  loop n tries attempt last w = (Ok v, w') -> exists w0, fn w0 = (Ok v, w') /\ aborted w0 = false.
Proof.
  revert attempt last w. induction tries as [|tries IH]; intros attempt last w; cbn [retry_loop]; [done|].
  destruct (aborted w) eqn:Hab; [done|]. destruct (fn w) as [[v1|e] w1] eqn:Hf; [intros [= -> ->]; by exists w|].
  destruct (is_cancelled e); [done|]. destruct (aborted w1); [done|]. destruct (noRetry n); [done|].
  destruct (sleepCancellable _ _ _ _) as [[] w2]; [apply IH|done].
Qed.

(** A call that fails fewer times than there are attempts succeeds. *)
Lemma retry_succeeds n (P : nat -> W -> Prop) (Q : A -> W -> Prop) :
  noRetry n = false -> (forall w, aborted w = false) ->
  (forall w, P 0%nat w -> exists v w', fn w = (Ok v, w') /\ Q v w') ->
  (forall k w, P (S k) w -> exists e w', fn w = (Throw e, w') /\ is_cancelled e = false /\
     forall i d e, P k (sleep d (onRetry i d e w'))) ->
  forall k tries attempt last w, (k < tries)%nat -> P k w -> exists v w', loop n tries attempt last w = (Ok v, w') /\ Q v w'.
Proof.
  intros Hn Hab H0 HS k. induction k as [|k IH]; intros [|tries] attempt last w Hk Hp; try lia; cbn [retry_loop]; rewrite Hab.
  - destruct (H0 w Hp) as (v & w' & -> & Hq). by exists v, w'.
  - destruct (HS k w Hp) as (e & w' & -> & -> & Hnext). rewrite Hab, Hn. unfold sleepCancellable. rewrite !Hab. cbn [negb].
    apply IH; [lia|]. apply Hnext.
Qed.
End Facts.

(** A repeated outage: five calls, and a last sleep that no attempt follows. *)
Definition outage_log : Type := list (string + Z).
Example last_failure_sleeps :
  let fn (w : outage_log) := (Throw (RError PlainKind "ECONNREFUSED" None) : outcome Rejection Z, w ++ [inl "call"]) in
  let sleep d (w : outage_log) := w ++ [inr d] in
  (retryRpcCall fn (fun _ => false) sleep (fun _ _ _ w => w) (fun _ => 1 # 2) no_options []).2
  = [inl "call"; inr 1500; inl "call"; inr 3000; inl "call"; inr 6000; inl "call"; inr 12000; inl "call"; inr 24000].
Proof. by vm_compute. Qed.

(** A [TransientError] that mentions JSON is retried twice as fast as one that
    does not. *)
Example class_with_shorter_backoff :
  classifyRpcError (RError TransientKind "invalid JSON" None) = partial /\
  (ERROR_CLASS_MULTIPLIER partial < ERROR_CLASS_MULTIPLIER transient)%Q.
Proof. by vm_compute. Qed.
