(* ===== verification/ListenerState.v ===== *)
(** * Bounded state of the resolver's listeners

    resolver/src/listener-state.ts: [BoundedSet], [BoundedMap],
    [TimedEvictionMap] and [RetryContextStore]; and the deduplication set that
    listeners/ethereum.ts and listeners/soroban.ts keep, whose older half goes
    when it is full.  Sets and maps are in insertion order; each bounded
    structure keeps its queue beside the container, as the source does. *)

From S2P Require Import Prelude JsMap.

Definition is_in (k : string) (l : list string) : bool := bool_decide (k ∈ l).

(** ** Deduplication by halves *)

Definition DEDUP_MAX_SIZE : Z := 10000.

Definition dedupKey (txHash eventType : string) : string := txHash +:+ ":" +:+ eventType.

Definition isDuplicate (txHash eventType : string) (processedEvents : list string) : bool * list string :=
  let key := dedupKey txHash eventType in
  if is_in key processedEvents then (true, processedEvents)
  else
    let kept := if DEDUP_MAX_SIZE <=? Z.of_nat (length processedEvents)
                then drop (Z.to_nat (DEDUP_MAX_SIZE / 2)) processedEvents else processedEvents in
    (false, kept ++ [key]).

(** ** BoundedSet *)

Record BoundedSet : Type := mkBoundedSet { bs_set : list string; bs_queue : list string }.

Definition newSet : BoundedSet := mkBoundedSet [] [].

Definition without (k : string) (l : list string) : list string := List.filter (fun x => negb (String.eqb x k)) l.

(** [indexOf] and [splice]. *)
Fixpoint remove_first (k : string) (l : list string) : list string :=
  match l with
  | [] => []
  | x :: l => if String.eqb x k then l else x :: remove_first k l
  end.

Definition set_add (maxSize : Z) (key : string) (s : BoundedSet) : BoundedSet :=
  if is_in key (bs_set s) then s
  else
    let s := if maxSize <=? Z.of_nat (length (bs_queue s)) then
               match bs_queue s with
               | evicted :: q => mkBoundedSet (without evicted (bs_set s)) q
               | [] => s
               end
             else s in
    mkBoundedSet (bs_set s ++ [key]) (bs_queue s ++ [key]).

Definition set_delete (key : string) (s : BoundedSet) : bool * BoundedSet :=
  if is_in key (bs_set s) then (true, mkBoundedSet (without key (bs_set s)) (remove_first key (bs_queue s))) else (false, s).

(** ** BoundedMap *)

Section BoundedMap.
Context {V : Type}.

Record BoundedMap : Type := mkBoundedMap { bm_map : list (string * V); bm_queue : list string }.

Definition newMap : BoundedMap := mkBoundedMap [] [].

Definition map_set (maxSize : Z) (key : string) (value : V) (m : BoundedMap) : BoundedMap :=
  if jm_has key (bm_map m) then mkBoundedMap (jm_set key value (bm_map m)) (bm_queue m)
  else
    let m := if maxSize <=? Z.of_nat (length (bm_queue m)) then
               match bm_queue m with
               | evicted :: q => mkBoundedMap (jm_delete evicted (bm_map m)) q
               | [] => m
               end
             else m in
    mkBoundedMap (jm_set key value (bm_map m)) (bm_queue m ++ [key]).

Definition map_get (key : string) (m : BoundedMap) : option V := jm_get key (bm_map m).

Definition map_delete (key : string) (m : BoundedMap) : bool * BoundedMap :=
  if jm_has key (bm_map m) then (true, mkBoundedMap (jm_delete key (bm_map m)) (remove_first key (bm_queue m))) else (false, m).

(** Assigning to a field of a stored object. *)
Definition map_mutate (key : string) (f : V -> V) (m : BoundedMap) : BoundedMap :=
  match jm_get key (bm_map m) with
  | Some v => mkBoundedMap (jm_set key (f v) (bm_map m)) (bm_queue m)
  | None => m
  end.

(** ** TimedEvictionMap *)

Record TimedEntry : Type := mkTimed { te_value : V; expiresAt : Z }.

Definition timed_set (ttlMs now : Z) (key : string) (value : V) (m : list (string * TimedEntry)) : list (string * TimedEntry) :=
  jm_set key (mkTimed value (now + ttlMs)) m.

Definition timed_get (now : Z) (key : string) (m : list (string * TimedEntry)) : option V * list (string * TimedEntry) :=
  match jm_get key m with
  | None => (None, m)
  | Some e => if expiresAt e <=? now then (None, jm_delete key m) else (Some (te_value e), m)
  end.

Definition expired (now : Z) (e : string * TimedEntry) : bool := expiresAt e.2 <=? now.

Definition timed_purge (now : Z) (m : list (string * TimedEntry)) : Z * list (string * TimedEntry) :=
  (Z.of_nat (length (List.filter (expired now) m)), List.filter (fun e => negb (expired now e)) m).
End BoundedMap.
Arguments BoundedMap : clear implicits.
Arguments TimedEntry : clear implicits.

(** ** RetryContextStore *)

Record RetryContext : Type := mkContext {
  rc_key : string;
  rc_attempts : Z;
  startedAt : Z;
  lastAttemptAt : Z;
  lastError : option string
}.

Record StoreOptions : Type := mkStoreOptions { maxContexts : Z; maxAttempts : Z; staleTtlMs : Z }.

Definition store_defaults (contexts attempts ttl : option Z) : StoreOptions :=
  mkStoreOptions (default 1000 contexts) (default 10 attempts) (default (5 * 60 * 1000) ttl).

Section Store.
Context (opts : StoreOptions).

Definition attempt_again (now : Z) (error : option string) (c : RetryContext) : RetryContext :=
  mkContext (rc_key c) (rc_attempts c + 1) (startedAt c) now error.

Definition record (now : Z) (key : string) (error : option string) (s : BoundedMap RetryContext) : bool * BoundedMap RetryContext :=
  match map_get key s with
  | Some c =>
      let s := map_mutate key (attempt_again now error) s in
      if maxAttempts opts <=? rc_attempts c + 1 then (false, (map_delete key s).2) else (true, s)
  | None => (true, map_set (maxContexts opts) key (mkContext key 1 now now error) s)
  end.

Definition remove (key : string) (s : BoundedMap RetryContext) : BoundedMap RetryContext := (map_delete key s).2.

Definition attempts (key : string) (s : BoundedMap RetryContext) : Z := default 0 (rc_attempts <$> map_get key s).

Definition stale (now : Z) (e : string * RetryContext) : bool := staleTtlMs opts <? now - lastAttemptAt e.2.

(** The iterator meets each entry once, also while entries are deleted. *)
Definition purgeStale (now : Z) (s : BoundedMap RetryContext) : Z * BoundedMap RetryContext :=
  let keys := fst <$> List.filter (stale now) (bm_map s) in
  (Z.of_nat (length keys), foldl (fun s k => (map_delete k s).2) s keys).
End Store.

(** ** What is accepted between two occurrences of a key *)

(** The keys a set lets pass, in order, of those it is offered. *)
Fixpoint accepted (offers : list (string * string)) (s : list string) : list string * list string :=
  match offers with
  | [] => ([], s)
  | (tx, ty) :: offers =>
      let '(dup, s) := isDuplicate tx ty s in
      let '(acc, s) := accepted offers s in
      (if dup then acc else dedupKey tx ty :: acc, s)
  end.

(** Equal keys are more than half the capacity apart. *)
Definition spaced (acc : list string) : Prop :=
  forall i j k, (i < j)%nat -> acc !! i = Some k -> acc !! j = Some k -> DEDUP_MAX_SIZE / 2 < Z.of_nat (j - i).

(** The set holds the latest keys accepted, and once it has forgotten any, more
    than half its capacity. *)
Definition recent (acc s : list string) : Prop :=
  exists forgotten, acc = forgotten ++ s /\ NoDup s /\ Z.of_nat (length s) <= DEDUP_MAX_SIZE /\
    (forgotten = [] \/ DEDUP_MAX_SIZE / 2 < Z.of_nat (length s)).

Lemma isDuplicate_spec tx ty acc s :
  spaced acc -> recent acc s ->
  match isDuplicate tx ty s with
  | (true, s') => s' = s /\ dedupKey tx ty ∈ s
  | (false, s') => dedupKey tx ty ∉ s /\ spaced (acc ++ [dedupKey tx ty]) /\ recent (acc ++ [dedupKey tx ty]) s'
  end.
Proof.
  intros Hsp (old & -> & Hnd & Hlen & Hold). unfold isDuplicate, is_in. set (k := dedupKey tx ty).
  case_bool_decide as Hin; [done|]. split; [done|]. split.
  - intros i j x Hij Hi Hj. apply lookup_snoc_Some in Hj as [[Hj1 Hj]|[Hj ->]].
    + apply lookup_snoc_Some in Hi as [[_ Hi]|[Hi _]]; [by eapply Hsp|lia].
    + apply lookup_snoc_Some in Hi as [[_ Hi]|[Hi _]]; [|lia]. rewrite length_app in *.
      destruct (decide (i < length old)%nat) as [Hi'|Hi'].
      * destruct Hold as [-> | Hold]; [cbn in Hi'; lia|]. lia.
      * rewrite lookup_app_r in Hi by lia. by apply list_elem_of_lookup_2 in Hi.
  - destruct (Z.leb_spec DEDUP_MAX_SIZE (Z.of_nat (length s))) as [Hfull|Hroom].
    + exists (old ++ take (Z.to_nat (DEDUP_MAX_SIZE / 2)) s). unfold DEDUP_MAX_SIZE in *. change (10000 / 2) with 5000 in *.
      assert (Z.of_nat (length (drop (Z.to_nat 5000) s ++ [k])) = Z.of_nat (length s) - 5000 + 1) as E.
      { rewrite length_app, length_drop. cbn [length]. lia. }
      split_and!; [|apply NoDup_app; split_and!|lia|right; lia].
      * rewrite <-!(assoc_L (++)). f_equal. rewrite (assoc_L (++)). by rewrite take_drop.
      * by eapply sublist_NoDup, sublist_drop.
      * intros x Hx ->%list_elem_of_singleton. apply Hin. rewrite <-(take_drop (Z.to_nat 5000) s). by apply elem_of_app; right.
      * apply NoDup_singleton.
    + exists old. rewrite <-(assoc_L (++)). split_and!; [done|apply NoDup_app; split_and!| |].
      * done.
      * intros x Hx ->%list_elem_of_singleton. done.
      * apply NoDup_singleton.
      * rewrite length_app. cbn [length]. lia.
      * rewrite length_app. destruct Hold as [->|]; [by left|right; lia].
Qed.

(** ** The bounded structures *)

Lemma without_remove_first k l : NoDup l -> without k l = remove_first k l.
Proof.
  unfold without. induction 1 as [|x l Hx _ IH]; [done|]. cbn. destruct (String.eqb_spec x k) as [->|]; cbn; [|by f_equal].
  clear IH. induction l as [|y l IH]; [done|]. apply not_elem_of_cons in Hx as [Hy Hl]. cbn.
  destruct (String.eqb_spec y k); cbn; [congruence|]. by rewrite IH.
Qed.

Lemma without_absent k l : k ∉ l -> without k l = l.
Proof.
  unfold without. induction l as [|x l IH]; [done|]. intros [Hx Hl]%not_elem_of_cons. cbn.
  destruct (String.eqb_spec x k); cbn; [congruence|]. by rewrite IH.
Qed.

Lemma without_head k l : NoDup (k :: l) -> without k (k :: l) = l.
Proof. intros [Hk _]%NoDup_cons. unfold without. cbn. rewrite String.eqb_refl. by apply without_absent. Qed.

Lemma without_NoDup k l : NoDup l -> NoDup (without k l).
Proof. intros H. apply NoDup_ListNoDup, List.NoDup_filter. by apply NoDup_ListNoDup. Qed.

Lemma without_length k l : (length (without k l) <= length l)%nat.
Proof. apply List.filter_length_le. Qed.

Lemma elem_of_without k x l : x ∈ without k l <-> x ∈ l /\ x <> k.
Proof.
  unfold without. rewrite !list_elem_of_In, List.filter_In, negb_true_iff, String.eqb_neq. done.
Qed.

(** Container and queue agree, and there are never more than [maxSize] keys. *)
Definition bounded (maxSize : Z) (keys queue : list string) : Prop :=
  keys = queue /\ NoDup keys /\ Z.of_nat (length keys) <= maxSize.

(** The queue after the oldest key had to make room. *)
Definition make_room (maxSize : Z) (queue : list string) : list string :=
  if maxSize <=? Z.of_nat (length queue) then tail queue else queue.

Lemma make_room_bounded maxSize k q :
  1 <= maxSize -> bounded maxSize q q -> k ∉ q -> bounded maxSize (make_room maxSize q ++ [k]) (make_room maxSize q ++ [k]).
Proof.
  intros Hm (_ & Hnd & Hlen) Hk. split; [done|]. unfold make_room. destruct (Z.leb_spec maxSize (Z.of_nat (length q))) as [Hfull|Hroom].
  - destruct q as [|x q]; [cbn in Hfull; lia|]. apply NoDup_cons in Hnd as [Hx Hnd]. apply not_elem_of_cons in Hk as [_ Hk].
    cbn [tail]. split; [|rewrite length_app; cbn in *; lia].
    apply NoDup_app. split_and!; [done|by intros y Hy ->%list_elem_of_singleton|apply NoDup_singleton].
  - split; [|rewrite length_app; cbn in *; lia].
    apply NoDup_app. split_and!; [done|by intros y Hy ->%list_elem_of_singleton|apply NoDup_singleton].
Qed.

Lemma set_add_spec maxSize k s :
  1 <= maxSize -> bounded maxSize (bs_set s) (bs_queue s) ->
  bounded maxSize (bs_set (set_add maxSize k s)) (bs_queue (set_add maxSize k s)) /\ k ∈ bs_set (set_add maxSize k s) /\
  bs_set (set_add maxSize k s) = if is_in k (bs_set s) then bs_set s else make_room maxSize (bs_set s) ++ [k].
Proof.
  intros Hm Hb. destruct s as [l q]. cbn [bs_set bs_queue] in *. pose proof Hb as (-> & Hnd & Hlen). unfold set_add, is_in. cbn [bs_set bs_queue].
  case_bool_decide as Hin; [done|]. pose proof (make_room_bounded maxSize k q Hm Hb Hin) as Hr. unfold make_room in *.
  destruct (maxSize <=? Z.of_nat (length q)); [destruct q as [|x q]|]; cbn [bs_set bs_queue tail] in *;
    rewrite ?without_head by done; split_and!; try done; set_solver.
Qed.

Lemma set_delete_spec maxSize k s :
  bounded maxSize (bs_set s) (bs_queue s) ->
  bounded maxSize (bs_set (set_delete k s).2) (bs_queue (set_delete k s).2) /\
  forall x, x ∈ bs_set (set_delete k s).2 <-> x ∈ bs_set s /\ x <> k.
Proof.
  intros (E & Hnd & Hlen). unfold set_delete, is_in. case_bool_decide as Hin; cbn [snd bs_set bs_queue].
  - split; [|intros x; apply elem_of_without]. split_and!; [|by apply without_NoDup|pose proof (without_length k (bs_set s)); lia].
    rewrite <-E. by apply without_remove_first.
  - split; [done|]. set_solver.
Qed.

Section MapFacts.
Context {V : Type}.
Implicit Types (m : BoundedMap V).

Definition map_ok (maxSize : Z) m : Prop := bounded maxSize (jm_keys (bm_map m)) (bm_queue m).

Lemma jm_keys_without k (l : list (string * V)) : jm_keys (jm_delete k l) = without k (jm_keys l).
Proof. apply jm_keys_delete. Qed.

Lemma map_ok_new maxSize : 0 <= maxSize -> map_ok maxSize newMap.
Proof. intros H. split_and!; [done|constructor|done]. Qed.

Lemma map_set_ok maxSize k v m : 1 <= maxSize -> map_ok maxSize m -> map_ok maxSize (map_set maxSize k v m).
Proof.
  intros Hm Hb. destruct m as [l q]. pose proof Hb as (E & Hnd & Hlen). unfold map_ok in *. cbn [bm_map bm_queue] in *.
  unfold map_set. cbn [bm_map bm_queue]. destruct (jm_has k l) eqn:Hk; cbn [bm_map bm_queue].
  { by rewrite jm_keys_set, Hk. }
  assert (k ∉ jm_keys l) as Hin. { rewrite jm_has_get in Hk. apply jm_get_None. by destruct (jm_get k l). }
  rewrite E in Hb. rewrite E in Hin. pose proof (make_room_bounded maxSize k q Hm Hb Hin) as Hr. unfold make_room in Hr.
  destruct (maxSize <=? Z.of_nat (length q)); [destruct q as [|x q]|]; cbn [bm_map bm_queue tail] in *;
    rewrite jm_keys_set, jm_has_get.
  - rewrite (proj2 (jm_get_None k l)) by (by rewrite E). by rewrite E.
  - apply not_elem_of_cons in Hin as [Hkx Hin]. rewrite jm_get_delete_ne by done.
    rewrite (proj2 (jm_get_None k l)) by (rewrite E; by apply not_elem_of_cons).
    rewrite jm_keys_without, E. destruct Hb as (_ & Hq & _). by rewrite without_head.
  - rewrite (proj2 (jm_get_None k l)) by (by rewrite E). by rewrite E.
Qed.

Lemma map_delete_ok maxSize k m : map_ok maxSize m -> map_ok maxSize (map_delete k m).2.
Proof.
  intros (E & Hnd & Hlen). unfold map_delete, map_ok. destruct (jm_has k (bm_map m)); cbn [snd bm_map bm_queue]; [|done].
  rewrite jm_keys_without. split_and!; [|by apply without_NoDup|pose proof (without_length k (jm_keys (bm_map m))); lia].
  rewrite <-E. by apply without_remove_first.
Qed.

Lemma map_delete_get k k' m : map_get k' (map_delete k m).2 = if String.eqb k' k then None else map_get k' m.
Proof.
  unfold map_delete, map_get. rewrite jm_has_get. destruct (jm_get k (bm_map m)) eqn:Hk; cbn [snd bm_map];
    destruct (String.eqb_spec k' k) as [->|]; try done; [apply jm_get_delete|by apply jm_get_delete_ne].
Qed.

Lemma map_mutate_get k k' f m : map_get k' (map_mutate k f m) = if String.eqb k' k then f <$> map_get k m else map_get k' m.
Proof.
  unfold map_mutate, map_get. destruct (jm_get k (bm_map m)) eqn:Hk; cbn [bm_map]; destruct (String.eqb_spec k' k) as [->|]; try done.
  - apply jm_get_set.
  - by apply jm_get_set_ne.
Qed.

Lemma map_mutate_ok maxSize k f m : map_ok maxSize m -> map_ok maxSize (map_mutate k f m).
Proof.
  intros (E & Hnd & Hlen). unfold map_mutate, map_ok. destruct (jm_get k (bm_map m)) eqn:Hk; cbn [bm_map bm_queue]; [|done].
  rewrite jm_keys_set, jm_has_get, Hk. done.
Qed.

(** A new key is there; another one stays unless it was the oldest and had to
    make room. *)
Lemma map_set_get maxSize k v m :
  1 <= maxSize -> map_get k (map_set maxSize k v m) = Some v /\
  forall k', k' <> k -> map_get k' (map_set maxSize k v m) = map_get k' m \/
    (maxSize <= Z.of_nat (length (bm_queue m)) /\ head (bm_queue m) = Some k' /\ map_get k' (map_set maxSize k v m) = None).
Proof.
  intros Hm. unfold map_get. unfold map_set. rewrite jm_has_get. destruct (jm_get k (bm_map m)) eqn:Hk; cbn [bm_map].
  { split; [apply jm_get_set|]. intros k' Hne. left. by apply jm_get_set_ne. }
  split; [apply jm_get_set|]. intros k' Hne. rewrite jm_get_set_ne by done.
  destruct (Z.leb_spec maxSize (Z.of_nat (length (bm_queue m)))) as [Hfull|]; [|by left].
  destruct (bm_queue m) as [|x q] eqn:Eq; [by left|]. cbn [bm_map head].
  destruct (decide (k' = x)) as [->|]; [right|left; by apply jm_get_delete_ne].
  split_and!; [done..|]. apply jm_get_delete.
Qed.
End MapFacts.

(** ** The retry budget *)

(** A context is below the limit, or has its first attempt. *)
Definition within (opts : StoreOptions) (c : RetryContext) : Prop := rc_attempts c = 1 \/ 1 < rc_attempts c < maxAttempts opts.

Definition store_ok (opts : StoreOptions) (s : BoundedMap RetryContext) : Prop :=
  map_ok (maxContexts opts) s /\ forall k c, map_get k s = Some c -> within opts c.

(** One more attempt of [key]: how many there have been, and the verdict. *)
Lemma record_spec opts now key error s :
  1 <= maxContexts opts -> store_ok opts s ->
  let n := attempts key s in
  let '(again, s') := record opts now key error s in
  store_ok opts s' /\ again = (n =? 0) || (n + 1 <? maxAttempts opts) /\ attempts key s' = if again then n + 1 else 0.
Proof.
  intros Hc (Hok & Hw). unfold record, attempts. destruct (map_get key s) as [c|] eqn:Hk; cbn [default fmap option_fmap option_map from_option id].
  - pose proof (Hw key c Hk) as Hwc. assert (1 <= rc_attempts c) as H1 by (destruct Hwc; lia).
    destruct (Z.eqb_spec (rc_attempts c) 0); [lia|]. cbn [orb]. set (s1 := map_mutate key (attempt_again now error) s).
    assert (map_ok (maxContexts opts) s1) as Hok1 by by apply map_mutate_ok.
    assert (forall k, map_get k s1 = if String.eqb k key then Some (attempt_again now error c) else map_get k s) as Hg.
    { intros k. unfold s1. rewrite map_mutate_get, Hk. done. }
    destruct (Z.leb_spec (maxAttempts opts) (rc_attempts c + 1)) as [Hle|Hlt].
    + split_and!; [split; [by apply map_delete_ok|]| |].
      * intros k c'. rewrite map_delete_get, Hg. destruct (String.eqb k key); [done|]. apply Hw.
      * symmetry. by apply Z.ltb_ge.
      * by rewrite map_delete_get, String.eqb_refl.
    + split_and!; [split; [done|]| |].
      * intros k c'. rewrite Hg. destruct (String.eqb k key); [|apply Hw]. intros [= <-]. right. cbn. lia.
      * symmetry. by apply Z.ltb_lt.
      * by rewrite Hg, String.eqb_refl.
  - set (c := mkContext key 1 now now error). pose proof (map_set_get (maxContexts opts) key c s Hc) as [Hg Ho].
    split_and!; [split; [by apply map_set_ok|]|done|by rewrite Hg].
    intros k c' Hk'. destruct (decide (k = key)) as [->|Hne]; [rewrite Hg in Hk'; simplify_eq; by left|].
    destruct (Ho k Hne) as [E|(_ & _ & E)]; rewrite E in Hk'; [by eapply Hw|done].
Qed.

Lemma delete_keys_get {V} keys (s : BoundedMap V) k :
  map_get k (foldl (fun s k => (map_delete k s).2) s keys) = if is_in k keys then None else map_get k s.
Proof.
  unfold is_in. revert s. induction keys as [|x keys IH]; intros s; [done|]. cbn [foldl]. rewrite IH, map_delete_get.
  destruct (String.eqb_spec k x) as [->|Hne].
  - rewrite (bool_decide_eq_true_2 (x ∈ x :: keys)) by (by left). by case_bool_decide.
  - case_bool_decide as H1; case_bool_decide as H2; set_solver.
Qed.

(** A purge removes the stale contexts and no others, and counts them. *)
Lemma purgeStale_spec opts now s :
  map_ok (maxContexts opts) s ->
  (purgeStale opts now s).1 = Z.of_nat (length (List.filter (stale opts now) (bm_map s))) /\
  forall k, map_get k (purgeStale opts now s).2 =
    match map_get k s with Some c => if staleTtlMs opts <? now - lastAttemptAt c then None else Some c | None => None end.
Proof.
  intros (_ & Hnd & _). split; [unfold purgeStale; cbn [fst]; by rewrite length_fmap|]. intros k. unfold purgeStale. cbn [snd].
  rewrite delete_keys_get. unfold is_in, map_get in *. destruct (jm_get k (bm_map s)) as [c|] eqn:Hk.
  - destruct (_ <? _) eqn:Hs.
    + rewrite bool_decide_eq_true_2; [done|]. apply list_elem_of_fmap. exists (k, c). split; [done|].
      apply list_elem_of_In, List.filter_In. split; [by apply list_elem_of_In, jm_get_elem|done].
    + rewrite bool_decide_eq_false_2; [done|]. intros ([k' c'] & -> & H)%list_elem_of_fmap.
      apply list_elem_of_In, List.filter_In in H as [H1 H2]. apply list_elem_of_In in H1.
      assert (jm_get k' (bm_map s) = Some c') as E by (by apply jm_get_in). cbn in Hk. unfold stale in H2. cbn in H2. congruence.
  - by case_bool_decide.
Qed.

Lemma accepted_spaced offers :
  spaced (accepted offers []).1 /\ recent (accepted offers []).1 (accepted offers []).2.
Proof.
  enough (forall offers acc s, spaced acc -> recent acc s ->
    spaced (acc ++ (accepted offers s).1) /\ recent (acc ++ (accepted offers s).1) (accepted offers s).2) as H.
  { apply (H offers [] []); [by intros i|]. exists []. split_and!; [done|constructor|done|by left]. }
  clear offers. intros offers. induction offers as [|[tx ty] offers IH]; intros acc s Hs Hr; cbn [accepted].
  { cbn [fst snd]. by rewrite app_nil_r. }
  pose proof (isDuplicate_spec tx ty acc s Hs Hr) as H. destruct (isDuplicate tx ty s) as [[] s'].
  - destruct H as [-> _]. specialize (IH acc s Hs Hr). by destruct (accepted offers s).
  - destruct H as (_ & Hs' & Hr'). specialize (IH _ s' Hs' Hr'). destruct (accepted offers s') as [a t]. cbn [fst snd] in *.
    by rewrite <-(assoc_L (++)) in IH.
Qed.

(** With a limit of one attempt, a second one is still allowed. *)
Example limit_of_one_allows_two :
  (record (mkStoreOptions 10 1 1000) 0 "order" None newMap).1 = true.
Proof. done. Qed.

(** An expired value is gone, read or not. *)
Lemma timed_get_spec {V} ttl now now' k (v : V) m :
  (timed_get now' k (timed_set ttl now k v m)).1 = if now' <? now + ttl then Some v else None.
Proof.
  unfold timed_get, timed_set. rewrite jm_get_set. cbn [expiresAt te_value].
  destruct (Z.leb_spec (now + ttl) now'), (Z.ltb_spec now' (now + ttl)); try lia; done.
Qed.
