(* ===== verification/ResolverEvents.v ===== *)
(** * The resolver's decoder of Soroban events

    resolver/src/listeners/soroban-events.ts, and its agreement with the
    coordinator's decoder ([SorobanEvents]).  Topics and value arrive as base64
    XDR: the SDK's [ScVal.fromXDR] and [toXDR] are parameters beside
    [scValToNative].  A decode error keeps its event name and the step that
    failed; the text of its reason is left out. *)

From S2P Require Import Prelude Codec SecretCipher SorobanEvents.

Class Xdr {S : StellarSdk} : Type := {
  toXDR : ScVal -> string;
  fromXDR : string -> option ScVal
}.

(** What is encoded is read back. *)
Class XdrLaws {S : StellarSdk} (X : Xdr) : Prop := {
  fromXDR_toXDR v : fromXDR (toXDR v) = Some v
}.

(** ** Events *)

Record EventMeta : Type := mkMeta { em_ledger : Z; em_txHash : string; em_contractId : string }.

Inductive SorobanHtlcEvent : Type :=
| SorobanOrderCreated (m : EventMeta) (orderId : Z) (sender beneficiary asset : string) (amount safetyDeposit : Z) (hashlock : string)
    (timelock : Z)
| SorobanOrderClaimed (m : EventMeta) (orderId : Z) (beneficiary caller preimage : string) (amount safetyDeposit : Z) (hashlock : string)
| SorobanOrderRefunded (m : EventMeta) (orderId : Z) (refundAddress caller : string) (amount safetyDeposit : Z) (hashlock : string).

Definition event_type (e : SorobanHtlcEvent) : string :=
  match e with
  | SorobanOrderCreated _ _ _ _ _ _ _ _ _ => "created"
  | SorobanOrderClaimed _ _ _ _ _ _ _ _ => "claimed"
  | SorobanOrderRefunded _ _ _ _ _ _ _ => "refunded"
  end.

Inductive DecodeStep : Type := TopicCount (got : nat) | TopicDecode | ValueDecode | FieldDecode.

Record SorobanEventDecodeError : Type := mkDecodeError { de_eventName : string; de_reason : DecodeStep }.

(** ** Conversions; [None] is a thrown error *)

Section Decoder.
Context {S : StellarSdk} {X : Xdr}.

Definition decodeScVal (base64 : string) : option JsValue :=
  match fromXDR base64 with
  | Some v => match scValToNative v with Ok j => Some j | Throw _ => None end
  | None => None
  end.

Definition toHexText (raw : JsValue) : option string :=
  match raw with JString s => Some s | JBytes b => Some (hex_encode b) | _ => None end.

Definition toNonEmptyHex (raw : JsValue) : option string :=
  match toHexText raw with Some h => if truthy_string h then Some h else None | None => None end.

Definition toBigInt (v : JsValue) : option Z :=
  match v with JBigInt n => Some n | JNumber (Some n) => Some n | _ => None end.

Definition toStr (v : JsValue) : option string :=
  match v with JString s => if truthy_string s then Some s else None | _ => None end.

Definition toArray (v : JsValue) (minLen : nat) : option (list JsValue) :=
  match v with JArray l => if (minLen <=? length l)%nat then Some l else None | _ => None end.

Definition item (l : list JsValue) (i : nat) : JsValue := default JOther (l !! i).
Definition topic (topics : list string) (i : nat) : option JsValue := topics !! i ≫= decodeScVal.

(** [try { ... } catch { throw new SorobanEventDecodeError(...) }]. *)
Definition step {A B} (name : string) (why : DecodeStep) (o : option A) (k : A -> outcome SorobanEventDecodeError B) :
    outcome SorobanEventDecodeError B :=
  match o with Some a => k a | None => Throw (mkDecodeError name why) end.

Definition decodeCreated (topics : list string) (valueB64 : string) (meta : EventMeta) : outcome SorobanEventDecodeError SorobanHtlcEvent :=
  if (length topics <? 4)%nat then Throw (mkDecodeError "created" (TopicCount (length topics)))
  else
    step "created" TopicDecode
      (sender ← topic topics 1 ≫= toStr; beneficiary ← topic topics 2 ≫= toStr; hashlock ← topic topics 3 ≫= toHexText;
       Some (sender, beneficiary, hashlock))
      (fun '(sender, beneficiary, hashlock) =>
    step "created" ValueDecode (decodeScVal valueB64 ≫= fun v => toArray v 5) (fun val =>
    step "created" FieldDecode
      (orderId ← toBigInt (item val 0); asset ← toStr (item val 1); amount ← toBigInt (item val 2);
       safetyDeposit ← toBigInt (item val 3); timelock ← toBigInt (item val 4);
       Some (SorobanOrderCreated meta orderId sender beneficiary asset amount safetyDeposit hashlock timelock)) Ok)).

Definition decodeClaimed (topics : list string) (valueB64 : string) (meta : EventMeta) : outcome SorobanEventDecodeError SorobanHtlcEvent :=
  if (length topics <? 3)%nat then Throw (mkDecodeError "claimed" (TopicCount (length topics)))
  else
    step "claimed" TopicDecode
      (beneficiary ← topic topics 1 ≫= toStr; hashlock ← topic topics 2 ≫= toHexText; Some (beneficiary, hashlock))
      (fun '(beneficiary, hashlock) =>
    step "claimed" ValueDecode (decodeScVal valueB64 ≫= fun v => toArray v 5) (fun val =>
    step "claimed" FieldDecode
      (orderId ← toBigInt (item val 0); caller ← toStr (item val 1); preimage ← toNonEmptyHex (item val 2);
       amount ← toBigInt (item val 3); safetyDeposit ← toBigInt (item val 4);
       Some (SorobanOrderClaimed meta orderId beneficiary caller preimage amount safetyDeposit hashlock)) Ok)).

Definition decodeRefunded (topics : list string) (valueB64 : string) (meta : EventMeta) : outcome SorobanEventDecodeError SorobanHtlcEvent :=
  if (length topics <? 3)%nat then Throw (mkDecodeError "refunded" (TopicCount (length topics)))
  else
    step "refunded" TopicDecode
      (refundAddress ← topic topics 1 ≫= toStr; hashlock ← topic topics 2 ≫= toHexText; Some (refundAddress, hashlock))
      (fun '(refundAddress, hashlock) =>
    step "refunded" ValueDecode (decodeScVal valueB64 ≫= fun v => toArray v 4) (fun val =>
    step "refunded" FieldDecode
      (orderId ← toBigInt (item val 0); caller ← toStr (item val 1); amount ← toBigInt (item val 2);
       safetyDeposit ← toBigInt (item val 3);
       Some (SorobanOrderRefunded meta orderId refundAddress caller amount safetyDeposit hashlock)) Ok)).

Definition decodeSorobanHtlcEvent (topics : list string) (value : string) (meta : EventMeta) :
    outcome SorobanEventDecodeError (option SorobanHtlcEvent) :=
  let event r := match r with Ok e => Ok (Some e) | Throw e => Throw e end in
  match topics with
  | [] => Ok None
  | first :: _ =>
      match decodeScVal first with
      | Some (JString name) =>
          if String.eqb name "created" then event (decodeCreated topics value meta)
          else if String.eqb name "claimed" then event (decodeClaimed topics value meta)
          else if String.eqb name "refunded" then event (decodeRefunded topics value meta)
          else Ok None
      | _ => Ok None
      end
  end.
End Decoder.

(** ** Agreement of the two decoders *)

(** The coordinator's event and the resolver's say the same; the coordinator
    keeps the timelock as a number and the amounts as text. *)
Definition agrees (c : DecodedHtlcEvent) (r : SorobanHtlcEvent) : Prop :=
  match c, r with
  | CreatedEvent orderId hashlock timelock sender beneficiary amount deposit, SorobanOrderCreated _ id s b _ a d h t =>
      orderId = id /\ hashlock = h /\ timelock = Number_of t /\ sender = s /\ beneficiary = b /\ amount = pretty a /\ deposit = pretty d
  | ClaimedEvent orderId hashlock preimage beneficiary, SorobanOrderClaimed _ id b _ p _ _ h =>
      orderId = id /\ hashlock = h /\ preimage = p /\ beneficiary = b
  | RefundedEvent orderId hashlock address, SorobanOrderRefunded _ id a _ _ _ h => orderId = id /\ hashlock = h /\ address = a
  | _, _ => False
  end.

(** An empty text where an address is expected. *)
Definition empty_address (topics : list JsValue) (data : JsValue) : Prop :=
  JString "" ∈ topics \/ exists l, data = JArray l /\ JString "" ∈ l.

Section Agreement.
Context {S : StellarSdk} {X : Xdr} `{!XdrLaws X}.

Lemma decode_toXDR v j : scValToNative v = Ok j -> decodeScVal (toXDR v) = Some j.
Proof. intros H. unfold decodeScVal. by rewrite fromXDR_toXDR, H. Qed.

Lemma native_topics_topic topics vs i j :
  native_topics topics = Ok vs -> vs !! i = Some j -> topic (toXDR <$> topics) i = Some j.
Proof.
  revert vs i. induction topics as [|t topics IH]; intros vs i; cbn [native_topics]; [by intros [= <-]|].
  destruct (scValToNative t) as [v|] eqn:Et; [|done]. destruct (native_topics topics) as [vs'|]; [|done]. intros [= <-].
  destruct i as [|i]; cbn; [intros [= <-]; by apply decode_toXDR|]. by apply IH.
Qed.

Lemma native_topics_length topics vs : native_topics topics = Ok vs -> length vs = length topics.
Proof.
  revert vs. induction topics as [|t topics IH]; intros vs; cbn [native_topics]; [by intros [= <-]|].
  destruct (scValToNative t); [|done]. destruct (native_topics topics); [|done]. intros [= <-]. cbn. by rewrite IH.
Qed.

Lemma toStr_text s : toStr (JString s) = if truthy_string s then Some s else None.
Proof. done. Qed.

Lemma truthy_hex b : b <> [] -> truthy_string (hex_encode b) = true.
Proof. by destruct b. Qed.

Lemma empty_text s : truthy_string s = false -> s = "".
Proof. by destruct s. Qed.
Lemma decodeCreated_ok topics value meta sender beneficiary lock orderId asset amount deposit timelock ds :
  (4 <= length topics)%nat -> topic topics 1 = Some (JString sender) -> topic topics 2 = Some (JString beneficiary) ->
  topic topics 3 = Some (JBytes lock) ->
  decodeScVal value = Some (JArray (JBigInt orderId :: JString asset :: JBigInt amount :: JBigInt deposit :: JBigInt timelock :: ds)) ->
  truthy_string sender = true -> truthy_string beneficiary = true -> truthy_string asset = true ->
  decodeCreated topics value meta
  = Ok (SorobanOrderCreated meta orderId sender beneficiary asset amount deposit (hex_encode lock) timelock).
Proof.
  intros Hl H1 H2 H3 Hv Hs Hb Ha. unfold decodeCreated. destruct (Nat.ltb_spec (length topics) 4); [lia|].
  rewrite H1, H2, H3, Hv. cbn -[truthy_string]. by rewrite Hs, Hb; cbn -[truthy_string]; rewrite Ha.
Qed.

Lemma decodeClaimed_ok topics value meta beneficiary lock orderId caller pre amount deposit ds :
  (3 <= length topics)%nat -> topic topics 1 = Some (JString beneficiary) -> topic topics 2 = Some (JBytes lock) ->
  decodeScVal value = Some (JArray (JBigInt orderId :: JString caller :: JBytes pre :: JBigInt amount :: JBigInt deposit :: ds)) ->
  truthy_string beneficiary = true -> truthy_string caller = true -> pre <> [] ->
  decodeClaimed topics value meta
  = Ok (SorobanOrderClaimed meta orderId beneficiary caller (hex_encode pre) amount deposit (hex_encode lock)).
Proof.
  intros Hl H1 H2 Hv Hb Hc Hp%truthy_hex. unfold decodeClaimed. destruct (Nat.ltb_spec (length topics) 3); [lia|].
  rewrite H1, H2, Hv. cbn -[truthy_string hex_encode]. rewrite Hb; cbn -[truthy_string hex_encode]. rewrite Hc; cbn -[truthy_string hex_encode].
  unfold toNonEmptyHex; cbn -[truthy_string hex_encode]. by rewrite Hp.
Qed.

Lemma decodeRefunded_ok topics value meta address lock orderId caller amount deposit ds :
  (3 <= length topics)%nat -> topic topics 1 = Some (JString address) -> topic topics 2 = Some (JBytes lock) ->
  decodeScVal value = Some (JArray (JBigInt orderId :: JString caller :: JBigInt amount :: JBigInt deposit :: ds)) ->
  truthy_string address = true -> truthy_string caller = true ->
  decodeRefunded topics value meta = Ok (SorobanOrderRefunded meta orderId address caller amount deposit (hex_encode lock)).
Proof.
  intros Hl H1 H2 Hv Ha Hc. unfold decodeRefunded. destruct (Nat.ltb_spec (length topics) 3); [lia|].
  rewrite H1, H2, Hv. cbn -[truthy_string]. by rewrite Ha; cbn -[truthy_string]; rewrite Hc.
Qed.

Lemma dispatch_name topics value meta name :
  topic topics 0 = Some (JString name) ->
  decodeSorobanHtlcEvent topics value meta =
    let event r := match r with Ok e => Ok (Some e) | Throw e => Throw e end in
    if String.eqb name "created" then event (decodeCreated topics value meta)
    else if String.eqb name "claimed" then event (decodeClaimed topics value meta)
    else if String.eqb name "refunded" then event (decodeRefunded topics value meta) else Ok None.
Proof. destruct topics as [|t topics]; [done|]. cbn. by intros ->. Qed.

(** What the coordinator reads the resolver reads as well, unless a text of the
    event is empty. *)
Lemma wire_decoded topics data ts d c meta :
  native_topics topics = Ok ts -> scValToNative data = Ok d -> wire ts d c -> ~ empty_address ts d ->
  exists r, decodeSorobanHtlcEvent (toXDR <$> topics) (toXDR data) meta = Ok (Some r) /\ agrees c r.
Proof.
  intros Ht Hd Hw Hne. pose proof (native_topics_length topics ts Ht) as Hlen.
  pose proof (fun i j => native_topics_topic topics ts i j Ht) as Hat. apply decode_toXDR in Hd.
  assert (forall s, JString s ∈ ts -> truthy_string s = true) as Hts.
  { intros s Hs. destruct (truthy_string s) eqn:E; [done|]. apply empty_text in E as ->. destruct Hne. by left. }
  assert (forall l s, d = JArray l -> JString s ∈ l -> truthy_string s = true) as Hds.
  { intros l s -> Hs. destruct (truthy_string s) eqn:E; [done|]. apply empty_text in E as ->. destruct Hne. right. by exists l. }
  destruct Hw; rewrite (dispatch_name _ _ _ _ (Hat 0%nat _ eq_refl)); cbn [length] in Hlen.
  - eexists. split; [|shelve]. cbn -[decodeCreated].
    erewrite decodeCreated_ok; [done|rewrite length_fmap; lia|by apply Hat|by apply Hat|by apply Hat|done|apply Hts; set_solver|apply Hts; set_solver|eapply Hds; [done|set_solver]].
    Unshelve. by split_and!.
  - eexists. split; [|shelve]. cbn -[decodeClaimed].
    erewrite decodeClaimed_ok; [done|rewrite length_fmap; lia|by apply Hat|by apply Hat|done|apply Hts; set_solver|eapply Hds; [done|set_solver]|done].
    Unshelve. by split_and!.
  - eexists. split; [|shelve]. cbn -[decodeRefunded].
    erewrite decodeRefunded_ok; [done|rewrite length_fmap; lia|by apply Hat|by apply Hat|done|apply Hts; set_solver|eapply Hds; [done|set_solver]].
    Unshelve. by split_and!.
Qed.

(** When both read an event, they read the same. *)
Lemma wire_same topics data ts d c meta r :
  native_topics topics = Ok ts -> scValToNative data = Ok d -> wire ts d c ->
  decodeSorobanHtlcEvent (toXDR <$> topics) (toXDR data) meta = Ok (Some r) -> agrees c r.
Proof.
  intros Ht Hd Hw. pose proof (native_topics_length topics ts Ht) as Hlen.
  pose proof (fun i j => native_topics_topic topics ts i j Ht) as Hat. apply decode_toXDR in Hd.
  destruct Hw as [sender beneficiary lock orderId asset amount deposit timelock ts ds
    |beneficiary lock orderId caller pre amount deposit ts ds Hpre|address lock orderId caller amount deposit ts ds];
    rewrite (dispatch_name _ _ _ _ (Hat 0%nat _ eq_refl)); cbn -[decodeCreated decodeClaimed decodeRefunded].
  - unfold decodeCreated. rewrite length_fmap, <-Hlen, (Hat 1%nat _ eq_refl), (Hat 2%nat _ eq_refl), (Hat 3%nat _ eq_refl), Hd.
    cbn -[truthy_string]. destruct (truthy_string sender), (truthy_string beneficiary); cbn -[truthy_string]; try done.
    destruct (truthy_string asset); cbn; [|done]. intros [= <-]. by split_and!.
  - unfold decodeClaimed. rewrite length_fmap, <-Hlen, (Hat 1%nat _ eq_refl), (Hat 2%nat _ eq_refl), Hd.
    cbn -[truthy_string hex_encode]. destruct (truthy_string beneficiary); cbn -[truthy_string hex_encode]; [|done].
    destruct (truthy_string caller); cbn -[truthy_string hex_encode]; [|done]. unfold toNonEmptyHex; cbn -[truthy_string hex_encode].
    destruct (truthy_string (hex_encode pre)); cbn -[hex_encode]; [|done]. intros [= <-]. by split_and!.
  - unfold decodeRefunded. rewrite length_fmap, <-Hlen, (Hat 1%nat _ eq_refl), (Hat 2%nat _ eq_refl), Hd.
    cbn -[truthy_string]. destruct (truthy_string address); cbn -[truthy_string]; [|done].
    destruct (truthy_string caller); cbn; [|done]. intros [= <-]. by split_and!.
Qed.
End Agreement.

(** The two decoders of Soroban events agree: what the coordinator ignores the
    resolver ignores; what the coordinator reads the resolver reads as well,
    unless a text where an address is expected is empty; and whenever both read
    an event they read the same order, hashlock, preimage, accounts and
    amounts. *)
Lemma decoders_agree {S : StellarSdk} (X : Xdr) `{!XdrLaws X} (topics : list ScVal) (data : ScVal) (meta : EventMeta) :
  let resolver := decodeSorobanHtlcEvent (toXDR <$> topics) (toXDR data) meta in
  (decodeHtlcEvent topics data = Unknown -> resolver = Ok None) /\
  (forall c, decodeHtlcEvent topics data = Decoded c ->
     (forall r, resolver = Ok (Some r) -> agrees c r) /\
     forall ts d, native_topics topics = Ok ts -> scValToNative data = Ok d -> ~ empty_address ts d ->
       exists r, resolver = Ok (Some r) /\ agrees c r).
Proof.
  cbv zeta. unfold decodeHtlcEvent. destruct (native_topics topics) as [ts|] eqn:Ht; [|done].
  destruct (scValToNative data) as [d|] eqn:Hd; [|done]. split.
  - rewrite decode_native_unknown. intros Hu. destruct ts as [|t0 ts].
    { pose proof (native_topics_length topics [] Ht) as Hl. by destruct topics. }
    pose proof (native_topics_topic topics _ 0 t0 Ht eq_refl) as H0. destruct topics as [|x topics]; [done|].
    unfold topic in H0. cbn in H0. cbn [fmap list_fmap decodeSorobanHtlcEvent]. rewrite H0. destruct t0 as [name| | | | |]; try done.
    destruct (Hu ts) as (H1 & H2 & H3).
    destruct (String.eqb_spec name "created") as [->|]; [done|]. destruct (String.eqb_spec name "claimed") as [->|]; [done|].
    by destruct (String.eqb_spec name "refunded") as [->|].
  - intros c Hc%decode_native_wire. split; [by intros r; eapply wire_same|].
    intros ts' d' [= <-] [= <-] Hne. by eapply wire_decoded.
Qed.
