(* ===== verification/ResolverTelemetry.v ===== *)
(** * Runtime state of the resolver as its operators see it

    resolver/src/telemetry.ts: the staleness monitor that the listeners feed,
    the state computed from it, and the collector; resolver/src/health.ts: the
    verdicts of its endpoints.  Counters and gauges are left out but for those
    the collector reads, which are arguments. *)

From S2P Require Import Prelude JsMap Lifecycle Supervisor SupportPolicy SettlementPermissions.

(** ** Per-chain health *)

Inductive ListenerHealthState : Type := hs_healthy | hs_stale | hs_degraded | hs_stopped.

#[export] Instance ListenerHealthState_eq_dec : EqDecision ListenerHealthState.
Proof. solve_decision. Defined.

(** [nowSeconds - last], not negative, where there is a [last]. *)
Definition seconds_since (nowSeconds : Z) (last : option Z) : option Z := (fun t => Z.max 0 (nowSeconds - t)) <$> last.

Definition older_than (limit : Z) (since : option Z) : bool := match since with None => true | Some s => limit <? s end.

Definition computeChainHealthState (isActive : bool) (sinceHealthyTick : option Z) (consecutiveFailures staleAfterSeconds : Z) :
    ListenerHealthState :=
  if negb isActive then hs_stopped
  else if 3 <=? consecutiveFailures then hs_degraded
  else if older_than staleAfterSeconds sinceHealthyTick then hs_stale
  else hs_healthy.

(** ** The staleness monitor *)

Record StalenessMonitor : Type := mkMonitor {
  lastHealthyTick : list (string * Z);
  failuresInARow : list (string * Z);
  missedBatches : list (string * Z);
  activeState : list (string * bool);
  prevHealthState : list (string * ListenerHealthState)
}.

Definition newMonitor : StalenessMonitor := mkMonitor [] [] [] [] [].

Definition publishHealthState (chain : string) (h : ListenerHealthState) (m : StalenessMonitor) : StalenessMonitor :=
  mkMonitor (lastHealthyTick m) (failuresInARow m) (missedBatches m) (activeState m) (jm_set chain h (prevHealthState m)).

Definition recordHealthyTick (nowSeconds : Z) (chain : string) (m : StalenessMonitor) : StalenessMonitor :=
  publishHealthState chain hs_healthy
    (mkMonitor (jm_set chain nowSeconds (lastHealthyTick m)) (jm_set chain 0 (failuresInARow m)) (missedBatches m)
       (jm_set chain true (activeState m)) (prevHealthState m)).

Definition recordFailure (chain : string) (m : StalenessMonitor) : StalenessMonitor :=
  let next := default 0 (jm_get chain (failuresInARow m)) + 1 in
  let m := mkMonitor (lastHealthyTick m) (jm_set chain next (failuresInARow m)) (missedBatches m) (activeState m) (prevHealthState m) in
  if 3 <=? next then publishHealthState chain hs_degraded m else m.

Definition recordMissedBatch (chain : string) (m : StalenessMonitor) : StalenessMonitor :=
  publishHealthState chain hs_degraded
    (mkMonitor (lastHealthyTick m) (failuresInARow m) (jm_set chain (default 0 (jm_get chain (missedBatches m)) + 1) (missedBatches m))
       (activeState m) (prevHealthState m)).

Definition recordStopped (chain : string) (m : StalenessMonitor) : StalenessMonitor :=
  publishHealthState chain hs_stopped
    (mkMonitor (lastHealthyTick m) (failuresInARow m) (missedBatches m) (jm_set chain false (activeState m)) (prevHealthState m)).

Definition recordStarted (chain : string) (m : StalenessMonitor) : StalenessMonitor :=
  mkMonitor (lastHealthyTick m) (failuresInARow m) (missedBatches m) (jm_set chain true (activeState m)) (prevHealthState m).

Definition updateStalenessGauges (nowSeconds staleAfterSeconds : Z) (m : StalenessMonitor) : StalenessMonitor :=
  foldl (fun m' (e : string * Z) =>
    publishHealthState e.1
      (computeChainHealthState (default true (jm_get e.1 (activeState m'))) (seconds_since nowSeconds (Some e.2))
         (default 0 (jm_get e.1 (failuresInARow m'))) staleAfterSeconds) m') m (lastHealthyTick m).

Record ChainData : Type := mkChainData {
  cd_chain : string;
  cd_lastHealthyTick : option Z;
  cd_failures : Z;
  cd_missed : Z;
  cd_active : bool
}.

(** [new Set([...])] of the keys of the maps. *)
Fixpoint dedup (seen l : list string) : list string :=
  match l with
  | [] => []
  | x :: l => if bool_decide (x ∈ seen) then dedup seen l else x :: dedup (x :: seen) l
  end.

Definition snapshotChainData (m : StalenessMonitor) : list ChainData :=
  (fun chain => mkChainData chain (jm_get chain (lastHealthyTick m)) (default 0 (jm_get chain (failuresInARow m)))
                  (default 0 (jm_get chain (missedBatches m))) (default true (jm_get chain (activeState m))))
  <$> dedup [] (jm_keys (lastHealthyTick m) ++ jm_keys (failuresInARow m) ++ jm_keys (missedBatches m) ++ jm_keys (activeState m)).

(** ** The state of the resolver *)

Inductive ResolverTelemetryState : Type := ts_connected | ts_degraded | ts_stale | ts_inactive.

#[export] Instance ResolverTelemetryState_eq_dec : EqDecision ResolverTelemetryState.
Proof. solve_decision. Defined.

Definition INACTIVE_SUPERVISOR_STATES : list LifecycleState := [idle; stopping; stopped; failed].

Record ChainTelemetry : Type := mkChainTelemetry {
  ct_chain : string;
  secondsSinceLastEvent : option Z;
  live : bool;
  secondsSinceLastHealthyTick : option Z;
  healthState : ListenerHealthState;
  ct_consecutiveFailures : Z;
  ct_missedEventBatches : Z
}.

Record TelemetryInput : Type := mkInput {
  supervisorState : LifecycleState;
  restarts : Z;
  nowSeconds : Z;
  chainLastEventSeconds : list (string * option Z);
  staleAfterSeconds : Z;
  recentFailureCount : Z;
  degradedFailureThreshold : Z;
  consecutiveRpcErrors : option Z;
  consecutiveRpcErrorThreshold : option Z;
  chainHealthData : list ChainData
}.

Record Snapshot : Type := mkSnapshot {
  ss_state : ResolverTelemetryState;
  ss_reason : string;
  ss_chains : list ChainTelemetry;
  totalMissedEventBatches : Z;
  unhealthyChains : list string
}.

(** [new Map(data.map((d) => [d.chain, d]))]. *)
Definition healthMap (l : list ChainData) : list (string * ChainData) := foldl (fun m d => jm_set (cd_chain d) d m) [] l.

Definition chain_telemetry (i : TelemetryInput) (c : string * option Z) : ChainTelemetry :=
  let '(chain, last) := c in
  let health := jm_get chain (healthMap (chainHealthData i)) in
  let sinceEvent := seconds_since (nowSeconds i) last in
  let sinceTick := seconds_since (nowSeconds i) (health ≫= cd_lastHealthyTick) in
  let failures := default 0 (cd_failures <$> health) in
  let active := default true (cd_active <$> health) in
  mkChainTelemetry chain sinceEvent (negb (older_than (staleAfterSeconds i) sinceEvent)) sinceTick
    (computeChainHealthState active sinceTick failures (staleAfterSeconds i)) failures (default 0 (cd_missed <$> health)).

Definition state_text (s : LifecycleState) : string :=
  match s with
  | idle => "idle" | starting => "starting" | running => "running" | pausing => "pausing" | paused => "paused"
  | restarting => "restarting" | stopping => "stopping" | stopped => "stopped" | failed => "failed"
  end.

Definition stale_detail (limit : Z) (c : ChainTelemetry) : string :=
  match secondsSinceLastEvent c with
  | Some s => ct_chain c +:+ " (" +:+ pretty s +:+ "s ago, threshold " +:+ pretty limit +:+ "s)"
  | None => ct_chain c +:+ " (no events yet)"
  end.

Definition in_trouble (c : ChainTelemetry) : bool := bool_decide (healthState c = hs_degraded) || (0 <? ct_missedEventBatches c).

Definition computeResolverTelemetry (i : TelemetryInput) : Snapshot :=
  let rpcErrors := default 0 (consecutiveRpcErrors i) in
  let rpcThreshold := default 3 (consecutiveRpcErrorThreshold i) in
  let cs := chain_telemetry i <$> chainLastEventSeconds i in
  let total := foldr (fun c n => ct_missedEventBatches c + n) 0 cs in
  let unhealthy := ct_chain <$> List.filter (fun c => negb (bool_decide (healthState c = hs_healthy))) cs in
  let make state reason := mkSnapshot state reason cs total unhealthy in
  let staleChains := List.filter (fun c => negb (live c)) cs in
  let degradedChains := List.filter in_trouble cs in
  if bool_decide (supervisorState i ∈ INACTIVE_SUPERVISOR_STATES) then
    make ts_inactive ("supervisor is " +:+ state_text (supervisorState i))
  else if bool_decide (supervisorState i = restarting) then
    make ts_degraded ("supervisor is restarting (restart " +:+ pretty (restarts i) +:+ ")")
  else if degradedFailureThreshold i <=? recentFailureCount i then
    make ts_degraded ("elevated failure count since last check (" +:+ pretty (recentFailureCount i) +:+ " >= threshold " +:+
      pretty (degradedFailureThreshold i) +:+ ")")
  else if rpcThreshold <=? rpcErrors then
    make ts_degraded ("consecutive RPC errors (" +:+ pretty rpcErrors +:+ " >= threshold " +:+ pretty rpcThreshold +:+ ")")
  else if negb (bool_decide (staleChains = [])) then
    make ts_stale ("no recent events from: " +:+ join "; " (stale_detail (staleAfterSeconds i) <$> staleChains))
  else if negb (bool_decide (degradedChains = [])) then
    make ts_degraded ("chain health issues on: " +:+ join ", " (ct_chain <$> degradedChains))
  else make ts_connected "all chains live, no elevated failures".

(** ** The collector *)

Record Collector : Type := mkCollector {
  lastFailureTotal : Z;
  lastRetryTotal : Z;
  lastState : option ResolverTelemetryState
}.

Definition newCollector : Collector := mkCollector 0 0 None.

(** What the metrics registry holds when the collector asks. *)
Record Gauges : Type := mkGauges {
  lastEventSeconds : string -> option Z;
  failureTotal : Z;
  retryTotal : Z
}.

(** One collection, with the number of retries since the one before. *)
Definition collect (nowSeconds : Z) (sup : LifecycleState) (restarts : Z) (chains : list string) (staleAfter threshold : option Z)
    (g : Gauges) (c : Collector) (m : StalenessMonitor) : Snapshot * Z * (Collector * StalenessMonitor) :=
  let staleAfter := default 300 staleAfter in
  let data := snapshotChainData m in
  let snapshot := computeResolverTelemetry
    (mkInput sup restarts nowSeconds ((fun c => (c, lastEventSeconds g c)) <$> chains) staleAfter
       (Z.max 0 (failureTotal g - lastFailureTotal c)) (default 3 threshold) None None data) in
  (snapshot, Z.max 0 (retryTotal g - lastRetryTotal c),
   (mkCollector (failureTotal g) (retryTotal g) (Some (ss_state snapshot)), updateStalenessGauges nowSeconds staleAfter m)).

(** ** The endpoints *)

Record HealthDeps : Type := mkDeps {
  hd_lifecycle : option LifecycleState;
  hd_supervisor : LifecycleState;
  hd_policy : SupportPolicy;
  hd_ethKey : option string;
  hd_sorobanSecret : option string
}.

Definition effectiveState (d : HealthDeps) : LifecycleState := default (hd_supervisor d) (hd_lifecycle d).

Inductive CheckName : Type := ethereum_config | soroban_config | supervisor_check.

(** The three checks; the support query cannot throw on these names. *)
Definition can_claim (p : SupportPolicy) (chain : string) : bool :=
  match supportsAction p chain claim with Ok SUPPORTED => true | _ => false end.

Definition readinessChecks (d : HealthDeps) : list (CheckName * bool) :=
  [(ethereum_config, can_claim (hd_policy d) "ethereum"); (soroban_config, can_claim (hd_policy d) "stellar");
   (supervisor_check, bool_decide (effectiveState d ∈ [idle; running; restarting; stopping; stopped]))].

Definition intentional (key : option string) : bool := match key with Some k => truthy_string k | None => false end.

Definition check_passes (d : HealthDeps) (c : CheckName * bool) : bool :=
  let '(name, ok) := c in
  if ok then true
  else match name with
       | ethereum_config => negb (intentional (hd_ethKey d))
       | soroban_config => negb (intentional (hd_sorobanSecret d))
       | supervisor_check => false
       end.

Definition readyz (d : HealthDeps) : Z :=
  if forallb (check_passes d) (readinessChecks d) && negb (bool_decide (hd_supervisor d ∈ [stopping; stopped; failed]))
  then 200 else 503.

Definition health (d : HealthDeps) : Z * string :=
  let s := effectiveState d in
  (if bool_decide (s = failed) then 503 else 200,
   if bool_decide (s = failed) then "unhealthy"
   else if bool_decide (s ∈ [stopping; stopped]) then "stopping"
   else if forallb snd (readinessChecks d) then "healthy" else "degraded").

Definition telemetry_status (s : Snapshot) : Z := if bool_decide (ss_state s = ts_inactive) then 503 else 200.

(** [GET /listener-health]: 200 when every chain is healthy. *)
Definition listener_stale_after (pollIntervalMs : option Z) : Z :=
  match pollIntervalMs with Some n => if n =? 0 then 300 else Z.max 300 (n / 100) | None => 300 end.

Definition listener_health (nowSeconds limit : Z) (m : StalenessMonitor) : Z * list (string * ListenerHealthState) * Z :=
  let data := snapshotChainData m in
  let chains := (fun d => (cd_chain d, computeChainHealthState (cd_active d) (seconds_since nowSeconds (cd_lastHealthyTick d))
                             (cd_failures d) limit)) <$> data in
  (if forallb (fun c => bool_decide (c.2 = hs_healthy)) chains then 200 else 503, chains, foldr (fun d n => cd_missed d + n) 0 data).

(** ** Facts *)

(** Connected means what it says: the supervisor works, nothing fails too often,
    every chain is live, none is degraded and none has missed events. *)
Lemma connected_iff i :
  ss_state (computeResolverTelemetry i) = ts_connected <->
  supervisorState i ∉ restarting :: INACTIVE_SUPERVISOR_STATES /\ recentFailureCount i < degradedFailureThreshold i /\
  default 0 (consecutiveRpcErrors i) < default 3 (consecutiveRpcErrorThreshold i) /\
  Forall (fun c => live c = true /\ healthState c <> hs_degraded /\ ct_missedEventBatches c <= 0) (chain_telemetry i <$> chainLastEventSeconds i).
Proof.
  unfold computeResolverTelemetry. set (cs := chain_telemetry i <$> chainLastEventSeconds i). cbv zeta.
  assert (Forall (fun c => live c = true /\ healthState c <> hs_degraded /\ ct_missedEventBatches c <= 0) cs <->
    List.filter (fun c => negb (live c)) cs = [] /\ List.filter in_trouble cs = []) as ->.
  { clearbody cs. induction cs as [|c cs IH]; [by split|]. rewrite Forall_cons, IH. cbn [List.filter].
    unfold in_trouble at 2. destruct (live c); cbn [negb]; [|split; [by intros [[? _] _]|by intros [? _]]].
    case_bool_decide; cbn [orb]; [split; [by intros [(_ & ? & _) _]|by intros [_ ?]]|].
    destruct (Z.ltb_spec 0 (ct_missedEventBatches c)); [split; [intros [(_ & _ & ?) _]; lia|by intros [_ ?]]|]. naive_solver. }
  rewrite not_elem_of_cons. case_bool_decide as H1; [cbn; naive_solver|]. case_bool_decide as H2; [cbn; naive_solver|].
  destruct (Z.leb_spec (degradedFailureThreshold i) (recentFailureCount i)); [cbn; split; [done|intros (_ & ? & _); lia]|].
  destruct (Z.leb_spec (default 3 (consecutiveRpcErrorThreshold i)) (default 0 (consecutiveRpcErrors i)));
    [cbn; split; [done|intros (_ & _ & ? & _); lia]|].
  case_bool_decide as H3; cbn [negb]; [|cbn; naive_solver]. case_bool_decide as H4; cbn [negb]; [|cbn; naive_solver]. cbn. naive_solver.
Qed.

(** A chain stays out of "connected" for ever once a batch was missed. *)
Lemma missed_for_ever chain m :
  0 < default 0 (jm_get chain (missedBatches m)) ->
  (forall now, 0 < default 0 (jm_get chain (missedBatches (recordHealthyTick now chain m)))) /\
  0 < default 0 (jm_get chain (missedBatches (recordStarted chain (recordStopped chain m)))).
Proof. done. Qed.

Definition quiet_input (sup : LifecycleState) (rpcThreshold : option Z) (last : option Z) (d : ChainData) : TelemetryInput :=
  mkInput sup 0 1000 [("soroban", last)] 300 0 3 None rpcThreshold [d].

(** A paused resolver counts as connected. *)
Example paused_is_connected :
  ss_state (computeResolverTelemetry (quiet_input paused None (Some 990) (mkChainData "soroban" (Some 990) 0 0 true))) = ts_connected.
Proof. by vm_compute. Qed.

(** A threshold of 0, documented to disable the check, trips it at once. *)
Example zero_threshold_degrades :
  ss_state (computeResolverTelemetry (quiet_input running (Some 0) (Some 990) (mkChainData "soroban" (Some 990) 0 0 true))) = ts_degraded.
Proof. by vm_compute. Qed.

(** A quiet chain hides that its listener fails: the state is stale, not
    degraded. *)
Example stale_hides_degraded :
  ss_state (computeResolverTelemetry (quiet_input running None (Some 100) (mkChainData "soroban" (Some 100) 9 2 true))) = ts_stale.
Proof. by vm_compute. Qed.

(** The supervisor calls itself stopped once its listeners are attached, so the
    probe answers 503 while they run. *)
Example attached_resolver_not_ready :
  let s := steps (fun _ => Ok tt) (supervisorOptions None None None)
             [(0, ERun); (1, EStart (Ok tt)); (2, EStart (Ok tt))] (fresh None) in
  let d st := mkDeps None st (buildSupportPolicy demo_config None) None None in
  sv_state s = stopped /\ readyz (d (sv_state s)) = 503 /\ readyz (d running) = 200.
Proof. by vm_compute. Qed.
