(* ===== verification/ResolverPolicy.v ===== *)
(** * What the resolver may do

    resolver/src/chain-fallback.ts (suspension of failing chains),
    registry-status.ts (standing in the on-chain registries) and
    capability-check.ts, which asks the support policy and both of them.  The
    registry probes are parameters: what they return, [None] for a chain that is
    not configured, or an error.  Log lines and metrics are left out. *)

From S2P Require Import Prelude JsMap XlmAmounts SupportPolicy.

(** ** Chain fallback *)

Inductive ChainHealthState : Type := healthy | degraded | suspended.

#[export] Instance ChainHealthState_eq_dec : EqDecision ChainHealthState.
Proof. solve_decision. Defined.

Record ChainHealthEntry : Type := mkEntry {
  che_state : ChainHealthState;
  consecutiveFailures : Z;
  lastFailureAt : option Z;
  enteredStateAt : Z
}.

Record FallbackOptions : Type := mkFallback { suspendThreshold : Z; degradeThreshold : Z }.

Definition fallback_options (suspend degrade : option Z) : FallbackOptions := mkFallback (default 5 suspend) (default 2 degrade).

Definition Chains : Type := list (string * ChainHealthEntry).

Section Fallback.
Context (o : FallbackOptions).

Definition getOrCreate (now : Z) (chain : string) (m : Chains) : ChainHealthEntry * Chains :=
  match jm_get chain m with
  | Some e => (e, m)
  | None => let e := mkEntry healthy 0 None now in (e, jm_set chain e m)
  end.

Definition reportSuccess (now : Z) (chain : string) (m : Chains) : Chains :=
  let '(e, m) := getOrCreate now chain m in
  if (consecutiveFailures e =? 0) && bool_decide (che_state e = healthy) then m
  else jm_set chain (mkEntry healthy 0 (lastFailureAt e) now) m.

Definition reportFailure (now : Z) (chain : string) (m : Chains) : ChainHealthState * Chains :=
  let '(e, m) := getOrCreate now chain m in
  let n := consecutiveFailures e + 1 in
  let next := if suspendThreshold o <=? n then suspended else if degradeThreshold o <=? n then degraded else che_state e in
  let e' := if bool_decide (next = che_state e) then mkEntry (che_state e) n (Some now) (enteredStateAt e)
            else mkEntry next n (Some now) now in
  (che_state e', jm_set chain e' m).

Definition canAct (now : Z) (chain : string) (m : Chains) : bool * Chains :=
  let '(e, m) := getOrCreate now chain m in (negb (bool_decide (che_state e = suspended)), m).

Definition getState (chain : string) (m : Chains) : ChainHealthState := default healthy (che_state <$> jm_get chain m).

Definition allHealthy (m : Chains) : bool := forallb (fun e => bool_decide (che_state e.2 = healthy)) m.
Definition hasAnySuspended (m : Chains) : bool := existsb (fun e => bool_decide (che_state e.2 = suspended)) m.

(** What the policy is told, and asked. *)
Inductive Report : Type := Success (now : Z) (chain : string) | Failure (now : Z) (chain : string) | Ask (now : Z) (chain : string).

Definition report_chain (r : Report) : string := match r with Success _ c | Failure _ c | Ask _ c => c end.

Definition fb_step (m : Chains) (r : Report) : Chains :=
  match r with
  | Success now c => reportSuccess now c m
  | Failure now c => (reportFailure now c m).2
  | Ask now c => (canAct now c m).2
  end.

Definition fb_run (rs : list Report) : Chains := foldl fb_step [] rs.

(** The failures of a chain since its last success. *)
Definition failures_since (chain : string) (rs : list Report) : Z :=
  foldl (fun n r => match r with
                    | Success _ c => if String.eqb c chain then 0 else n
                    | Failure _ c => if String.eqb c chain then n + 1 else n
                    | Ask _ _ => n
                    end) 0 rs.

(** The state that number of failures stands for. *)
Definition state_of (n : Z) : ChainHealthState :=
  if suspendThreshold o <=? n then suspended else if degradeThreshold o <=? n then degraded else healthy.

Lemma state_of_0 : 1 <= suspendThreshold o -> 1 <= degradeThreshold o -> state_of 0 = healthy.
Proof. intros H1 H2. unfold state_of. destruct (Z.leb_spec (suspendThreshold o) 0); [lia|]. by destruct (Z.leb_spec (degradeThreshold o) 0); [lia|]. Qed.

Lemma state_of_mono n : 1 <= suspendThreshold o -> 1 <= degradeThreshold o ->
  state_of (n + 1) = if suspendThreshold o <=? n + 1 then suspended else if degradeThreshold o <=? n + 1 then degraded else state_of n.
Proof.
  intros H1 H2. unfold state_of. destruct (Z.leb_spec (suspendThreshold o) (n + 1)); [done|].
  destruct (Z.leb_spec (degradeThreshold o) (n + 1)); [done|].
  destruct (Z.leb_spec (suspendThreshold o) n); [lia|]. by destruct (Z.leb_spec (degradeThreshold o) n); [lia|].
Qed.

Lemma getOrCreate_get now chain m c :
  (getOrCreate now chain m).1 = default (mkEntry healthy 0 None now) (jm_get chain m) /\
  (c <> chain -> jm_get c (getOrCreate now chain m).2 = jm_get c m) /\
  jm_get chain (getOrCreate now chain m).2 = Some (getOrCreate now chain m).1.
Proof.
  unfold getOrCreate. destruct (jm_get chain m) eqn:E; cbn [fst snd]; [done|].
  split_and!; [done|intros; by apply jm_get_set_ne|apply jm_get_set].
Qed.

(** A chain's entry counts the failures since its last success, and its state is
    the one that number stands for - whatever happens to other chains. *)
Lemma fallback_counts rs chain :
  1 <= suspendThreshold o -> 1 <= degradeThreshold o ->
  let n := default 0 (consecutiveFailures <$> jm_get chain (fb_run rs)) in
  n = failures_since chain rs /\ getState chain (fb_run rs) = state_of n.
Proof.
  intros H1 H2. cbv zeta. induction rs as [|r rs IH] using rev_ind; [cbn; by rewrite state_of_0|].
  unfold fb_run, failures_since in *. rewrite !foldl_snoc. set (m := foldl fb_step [] rs) in *. set (k := foldl _ 0 rs) in *.
  destruct IH as [IHn IHs]. unfold getState in *.
  assert (forall now, consecutiveFailures (getOrCreate now chain m).1 = k /\ che_state (getOrCreate now chain m).1 = state_of k) as Hg.
  { intros now. destruct (getOrCreate_get now chain m chain) as [-> _]. destruct (jm_get chain m); cbn in *; by rewrite <-IHn. }
  destruct r as [now c|now c|now c]; cbn [fb_step]; unfold reportSuccess, reportFailure, canAct;
    destruct (getOrCreate_get now c m chain) as (_ & Hne & Heq); destruct (String.eqb_spec c chain) as [->|Hc].
  - specialize (Hg now). destruct (getOrCreate now chain m) as [e m']. cbn [fst snd] in *. destruct Hg as [Hg1 Hg2].
    destruct (Z.eqb_spec (consecutiveFailures e) 0) as [E|E]; cbn [andb]; [case_bool_decide as Eh|].
    + rewrite Heq. cbn. rewrite E. split; [done|]. by rewrite Eh, state_of_0.
    + rewrite jm_get_set. cbn. by rewrite state_of_0.
    + rewrite jm_get_set. cbn. by rewrite state_of_0.
  - destruct (getOrCreate now c m) as [e m']. cbn [fst snd] in *. destruct (_ && _); [|rewrite jm_get_set_ne by done]; rewrite Hne by done; done.
  - specialize (Hg now). destruct (getOrCreate now chain m) as [e m']. cbn [fst snd] in *. destruct Hg as [Hg1 Hg2].
    rewrite jm_get_set. cbn [fmap option_fmap option_map default from_option id]. rewrite Hg1, Hg2.
    case_bool_decide as Eb; cbn [consecutiveFailures che_state]; (split; [done|]); rewrite state_of_mono by done; [by rewrite Eb|done].
  - destruct (getOrCreate now c m) as [e m']. cbn [fst snd] in *. rewrite jm_get_set_ne by done. rewrite Hne by done. done.
  - specialize (Hg now). destruct (getOrCreate now chain m) as [e m']. cbn [fst snd] in *. rewrite Heq. cbn. destruct Hg as [Hg1 Hg2].
    by rewrite Hg1, Hg2.
  - destruct (getOrCreate now c m) as [e m']. cbn [fst snd] in *. rewrite Hne by done. done.
Qed.
End Fallback.

(** ** Standing in the registries *)

Inductive ResolverLifecycleState : Type := unregistered | active | low_stake | slashed | unbonding | inactive.

#[export] Instance ResolverLifecycleState_eq_dec : EqDecision ResolverLifecycleState.
Proof. solve_decision. Defined.

Record RawRegistryInfo : Type := mkRawInfo {
  ri_registered : bool;
  ri_active : bool;
  ri_stake : Z;
  ri_minStake : Z;
  ri_totalSlashed : Z;
  ri_unbondingAt : option Z
}.

Definition deriveLifecycleState (i : RawRegistryInfo) : ResolverLifecycleState :=
  if negb (ri_registered i) then unregistered
  else if bool_decide (is_Some (ri_unbondingAt i)) then unbonding
  else if ri_stake i <? ri_minStake i then (if 0 <? ri_totalSlashed i then slashed else low_stake)
  else if ri_active i then active
  else inactive.

Definition isOperationallyReady (s : ResolverLifecycleState) : bool := match s with active | unregistered => true | _ => false end.

(** A decoded on-chain integer: a bigint, a text, or a number with its value when
    that is a safe integer. *)
Inductive OnChain : Type := OBig (n : Z) | OText (s : string) | ONumber (safe : option Z).

(** [None] is a thrown error. *)
Definition toBigIntSafe (v : OnChain) : option Z :=
  match v with OBig n => Some n | OText s => BigInt_of s | ONumber o => o end.

(** What the EVM registry's [get] and [minStake] return. *)
Definition evm_info (stake registeredAt totalSlashed minStake : Z) (isActive : bool) : RawRegistryInfo :=
  mkRawInfo (0 <? registeredAt) isActive stake minStake totalSlashed None.

Record SorobanInfo : Type := mkSorobanInfo {
  si_stake : OnChain;
  si_totalSlashed : option OnChain;
  si_active : bool;
  si_unbondingAt : option OnChain
}.

(** What the Soroban registry's [get] and [min_stake] return. *)
Definition soroban_info (minStake : OnChain) (info : option SorobanInfo) : option RawRegistryInfo :=
  minStake ← toBigIntSafe minStake;
  match info with
  | None => Some (mkRawInfo false false 0 minStake 0 None)
  | Some i =>
      stake ← toBigIntSafe (si_stake i);
      totalSlashed ← match si_totalSlashed i with Some v => toBigIntSafe v | None => Some 0 end;
      match si_unbondingAt i with
      | Some v => n ← toBigIntSafe v; Some (mkRawInfo true (si_active i) stake minStake totalSlashed (Some n))
      | None => Some (mkRawInfo true (si_active i) stake minStake totalSlashed None)
      end
  end.

Record StatusMonitor : Type := mkStatusMonitor {
  lastStates : list (string * ResolverLifecycleState);
  lastUpdates : list (string * Z)
}.

Definition newStatusMonitor : StatusMonitor := mkStatusMonitor [] [].

Definition DEFAULT_STATUS_POLL_INTERVAL_MS : Z := 60000.
Definition DEFAULT_STATUS_STALE_AFTER_MS : Z := 2 * DEFAULT_STATUS_POLL_INTERVAL_MS.

(** One probe: it throws, finds the chain not configured, or answers. *)
Definition checkChain (now : Z) (chain : string) (probe : outcome string (option RawRegistryInfo)) (m : StatusMonitor) : StatusMonitor :=
  match probe with
  | Throw _ | Ok None => m
  | Ok (Some info) => mkStatusMonitor (jm_set chain (deriveLifecycleState info) (lastStates m)) (jm_set chain now (lastUpdates m))
  end.

Definition registry_state (chain : string) (m : StatusMonitor) : option ResolverLifecycleState := jm_get chain (lastStates m).

Definition isStale (staleAfterMs now : Z) (chain : string) (m : StatusMonitor) : bool :=
  match jm_get chain (lastStates m), jm_get chain (lastUpdates m) with
  | Some _, Some t => staleAfterMs <? now - t
  | _, _ => true
  end.

Definition isReady (m : StatusMonitor) : bool := forallb (fun e => isOperationallyReady e.2) (lastStates m).

Definition getStatusSnapshot (staleAfterMs now : Z) (m : StatusMonitor) : list (string * ResolverLifecycleState * option Z * bool) :=
  (fun e : string * ResolverLifecycleState =>
     let t := jm_get e.1 (lastUpdates m) in
     (e.1, e.2, t, match t with Some t => staleAfterMs <? now - t | None => true end)) <$> lastStates m.

(** ** Capabilities *)

Inductive ResolverAction : Type := Supported (a : SupportedAction) | Unregister.

Inductive Denial : Type := policy_unsupported | chain_suspended | registry_not_ready.

Record Checker : Type := mkChecker {
  ck_policy : SupportPolicy;
  ck_fallback : option Chains;
  ck_status : option StatusMonitor
}.

(** Whether the policy supports the action; no chain lists [unregister].  A throw
    is the lookup of an inherited name. *)
Definition policy_allows (p : SupportPolicy) (chain : string) (a : ResolverAction) : outcome string bool :=
  match a with
  | Supported a => match supportsAction p chain a with Ok v => Ok (supported v) | Throw e => Throw e end
  | Unregister => match supportsChain p chain with Ok _ => Ok false | Throw e => Throw e end
  end.

(** [check]: [None] when every layer lets the action pass. *)
Definition check (now : Z) (c : Checker) (policyChain : string) (a : ResolverAction) (runtimeChain : option string) :
    outcome string (option Denial) :=
  let chain := default policyChain runtimeChain in
  match policy_allows (ck_policy c) policyChain a with
  | Throw e => Throw e
  | Ok false => Ok (Some policy_unsupported)
  | Ok true =>
      if match ck_fallback c with Some m => negb (canAct now chain m).1 | None => false end then Ok (Some chain_suspended)
      else if match ck_status c with
              | Some m => negb (isReady m) &&
                  match registry_state chain m with
                  | Some s => negb (bool_decide (s = active)) && negb (bool_decide (s = unregistered))
                  | None => false
                  end
              | None => false
              end then Ok (Some registry_not_ready)
      else Ok None
  end.

(** [checkAll]: the denials among the requirements; a throw ends it. *)
Fixpoint checkAll (now : Z) (c : Checker) (rs : list (string * ResolverAction * option string)) : outcome string (list Denial) :=
  match rs with
  | [] => Ok []
  | (p, a, r) :: rs =>
      match check now c p a r, checkAll now c rs with
      | Throw e, _ | _, Throw e => Throw e
      | Ok None, Ok l => Ok l
      | Ok (Some d), Ok l => Ok (d :: l)
      end
  end.

(** An action passes exactly when the policy supports it, its chain is not
    suspended and its registry, where its state is known, does not speak against
    it.  The state of other chains does not matter. *)
Lemma check_passes_iff now c policyChain a runtimeChain :
  check now c policyChain a runtimeChain = Ok None <->
  policy_allows (ck_policy c) policyChain a = Ok true /\
  (forall m, ck_fallback c = Some m -> getState (default policyChain runtimeChain) m <> suspended) /\
  (forall m s, ck_status c = Some m -> registry_state (default policyChain runtimeChain) m = Some s -> isOperationallyReady s = true).
Proof.
  unfold check. set (chain := default policyChain runtimeChain).
  destruct (policy_allows _ _ _) as [[]|]; [|split; [done|by intros [? _]]..].
  assert (match ck_fallback c with Some m => negb (canAct now chain m).1 | None => false end = false <->
    forall m, ck_fallback c = Some m -> getState chain m <> suspended) as Hf.
  { destruct (ck_fallback c) as [m|]; [|done]. assert ((canAct now chain m).1 = negb (bool_decide (getState chain m = suspended))) as ->.
    { unfold canAct, getState, getOrCreate. by destruct (jm_get chain m). }
    rewrite negb_involutive, bool_decide_eq_false. split; [by intros H m' [= <-]|intros H; by apply H]. }
  destruct (match ck_fallback c with Some m => _ | None => _ end).
  { split; [done|]. intros (_ & H & _). by apply Hf in H. }
  assert (forall m, ck_fallback c = Some m -> getState chain m <> suspended) as Hok by by apply Hf.
  destruct (ck_status c) as [m|]; [|naive_solver].
  destruct (registry_state chain m) as [s|] eqn:Es; [|rewrite andb_false_r; naive_solver].
  assert (isOperationallyReady s = false -> isReady m = false) as Hr.
  { intros Hs. apply not_true_iff_false. intros Ht. unfold isReady in Ht. rewrite forallb_forall in Ht.
    unfold registry_state in Es. apply jm_get_elem, list_elem_of_In in Es. specialize (Ht _ Es). cbn in Ht. congruence. }
  split; [intros H; split_and!; [done..|]|intros (_ & _ & H)].
  - intros m' s' [= <-] E. rewrite Es in E. injection E as <-. destruct (isOperationallyReady s) eqn:Eo; [done|].
    rewrite Hr in H by done. by destruct s.
  - specialize (H m s eq_refl Es). destruct s; try done; by rewrite andb_false_r.
Qed.

(** A failed probe changes nothing, so a state that is not ready blocks until a
    probe answers otherwise. *)
Lemma failed_probe_keeps now chain e m : checkChain now chain (Throw e) m = m.
Proof. done. Qed.

(** The action [unregister] is never allowed. *)
Lemma unregister_denied now c chain runtimeChain : check now c chain Unregister runtimeChain <> Ok None.
Proof. unfold check, policy_allows. by destruct (supportsChain _ _). Qed.
