(* ===== verification/ResolverListener.v ===== *)
(** * The resolver's Soroban listener

    resolver/src/listeners/soroban.ts and utils/cursor-store.ts.  [start] begins
    a tick and every tick schedules the next; since the supervisor starts its
    listeners twice and [stop] cannot end a tick that awaits an answer, several
    loops may run at once.  So a tick is a stage it waits at - its timer, the
    ledger head, a page of events - and events resume ticks in any order.  An
    answer is the end of a retried RPC call ([RpcRetry]).  Handlers are
    synchronous and may throw; a write of the cursor file may fail; a restart of
    the process keeps the file only.

    In one process no event that was handled is handled again within 5000 handler
    calls, and a cursor, in memory or on disk, never stands past an event whose
    handler was not called - across overlapping loops, failed polls and restarts,
    as long as the server is honest.  A handler that threw is not called again
    for its event. *)

From S2P Require Import Prelude JsMap Codec SecretCipher SorobanEvents ResolverEvents ListenerState ResolverTelemetry RpcRetry.

Definition CHAIN : string := "soroban".
Definition DEDUP_WINDOW_SIZE : Z := 500.

(** ** History-window errors *)

Fixpoint line (s : string) : string :=
  match s with
  | EmptyString => EmptyString
  | String c s => if Nat.eqb (Ascii.nat_of_ascii c) 10 || Nat.eqb (Ascii.nat_of_ascii c) 13 then EmptyString else String c (line s)
  end.

(** [/a.*b/.test(s)]. *)
Fixpoint test_seq (a b s : string) : bool :=
  (startsWith s a && includes (line (String.substring (String.length a) (String.length s) s)) b) ||
  match s with EmptyString => false | String _ s => test_seq a b s end.

Definition isHistoryWindowError (message : string) : bool :=
  let msg := toLowerCase message in
  includes msg "start ledger must be within" || includes msg "startledger must be within" ||
  test_seq "ledger" "out of range" msg || includes msg "requested ledger is older" ||
  test_seq "ledger" "not available" msg || test_seq "cursor" "too old" msg || includes msg "oldest ledger".

(** ** The cursor store: the cache and the files, [None] for one that cannot be
    read as a record *)

Record CursorStore : Type := mkStore { cs_cache : list (string * string); cs_files : list (string * option string) }.

Definition safe_char (c : Ascii.ascii) : bool :=
  let n := Ascii.nat_of_ascii c in
  (Nat.leb 48 n && Nat.leb n 57) || (Nat.leb 65 n && Nat.leb n 90) || (Nat.leb 97 n && Nat.leb n 122) || Nat.eqb n 95 || Nat.eqb n 45.

Fixpoint safe_label (s : string) : string :=
  match s with EmptyString => EmptyString | String c s => String (if safe_char c then c else Ascii.ascii_of_nat 95) (safe_label s) end.

Definition filePath (label : string) : string := safe_label label +:+ ".json".

(** [save]: the cache is set even when the write throws. *)
Definition store_save (written : bool) (label cursor : string) (s : CursorStore) : CursorStore :=
  mkStore (jm_set label cursor (cs_cache s))
    (if written then jm_set (filePath label) (Some cursor) (cs_files s) else cs_files s).

Definition store_load (label : string) (s : CursorStore) : option string * CursorStore :=
  match jm_get label (cs_cache s) with
  | Some c => (Some c, s)
  | None =>
      match jm_get (filePath label) (cs_files s) with
      | Some (Some c) => if truthy_string c then (Some c, mkStore (jm_set label c (cs_cache s)) (cs_files s)) else (None, s)
      | _ => (None, s)
      end
  end.

Section Listener.
Context {S : StellarSdk} {X : Xdr}.

(** ** State *)

Record RpcEvent : Type := mkRpcEvent {
  re_ledger : Z;
  re_txHash : string;
  re_topics : list ScVal;
  re_value : ScVal;
  re_contractId : option string
}.

Record Page : Type := mkPage { pg_events : list RpcEvent; pg_cursor : string }.

(** Where a tick waits. *)
Inductive Stage : Type :=
| Timer
| AskLatest
| AskEvents (startLedger : option Z) (cursor : option string)
| AskClamp
| AskClamped (clampedLedger : Z)
| Gone.

Record Listener : Type := mkListener {
  l_htlc : option string;
  l_label : string;
  l_cursor : option string;
  l_stopped : bool;
  l_timeoutId : option nat;
  l_processed : list string;
  l_window : BoundedSet;
  l_ticks : list Stage;
  l_store : CursorStore;
  l_monitor : StalenessMonitor;
  l_calls : list (SorobanHtlcEvent * bool);
  l_history : list (SorobanHtlcEvent * bool)
}.

(** [l_calls] are the handler calls of this process, [l_history] those of the
    processes before. *)
Definition new_listener (htlc : option string) (label : string) (files : list (string * option string))
    (history : list (SorobanHtlcEvent * bool)) : Listener :=
  mkListener htlc label None false None [] newSet [] (mkStore [] files) newMonitor [] history.

Definition set_cursor (c : option string) (l : Listener) : Listener :=
  mkListener (l_htlc l) (l_label l) c (l_stopped l) (l_timeoutId l) (l_processed l) (l_window l) (l_ticks l) (l_store l) (l_monitor l) (l_calls l) (l_history l).
Definition set_stopped (b : bool) (l : Listener) : Listener :=
  mkListener (l_htlc l) (l_label l) (l_cursor l) b (l_timeoutId l) (l_processed l) (l_window l) (l_ticks l) (l_store l) (l_monitor l) (l_calls l) (l_history l).
Definition set_timeoutId (t : option nat) (l : Listener) : Listener :=
  mkListener (l_htlc l) (l_label l) (l_cursor l) (l_stopped l) t (l_processed l) (l_window l) (l_ticks l) (l_store l) (l_monitor l) (l_calls l) (l_history l).
Definition set_processed (p : list string) (l : Listener) : Listener :=
  mkListener (l_htlc l) (l_label l) (l_cursor l) (l_stopped l) (l_timeoutId l) p (l_window l) (l_ticks l) (l_store l) (l_monitor l) (l_calls l) (l_history l).
Definition set_window (w : BoundedSet) (l : Listener) : Listener :=
  mkListener (l_htlc l) (l_label l) (l_cursor l) (l_stopped l) (l_timeoutId l) (l_processed l) w (l_ticks l) (l_store l) (l_monitor l) (l_calls l) (l_history l).
Definition set_ticks (t : list Stage) (l : Listener) : Listener :=
  mkListener (l_htlc l) (l_label l) (l_cursor l) (l_stopped l) (l_timeoutId l) (l_processed l) (l_window l) t (l_store l) (l_monitor l) (l_calls l) (l_history l).
Definition set_store (s : CursorStore) (l : Listener) : Listener :=
  mkListener (l_htlc l) (l_label l) (l_cursor l) (l_stopped l) (l_timeoutId l) (l_processed l) (l_window l) (l_ticks l) s (l_monitor l) (l_calls l) (l_history l).
Definition set_monitor (f : StalenessMonitor -> StalenessMonitor) (l : Listener) : Listener :=
  mkListener (l_htlc l) (l_label l) (l_cursor l) (l_stopped l) (l_timeoutId l) (l_processed l) (l_window l) (l_ticks l) (l_store l)
    (f (l_monitor l)) (l_calls l) (l_history l).
Definition add_call (e : SorobanHtlcEvent) (ok : bool) (l : Listener) : Listener :=
  mkListener (l_htlc l) (l_label l) (l_cursor l) (l_stopped l) (l_timeoutId l) (l_processed l) (l_window l) (l_ticks l) (l_store l) (l_monitor l)
    (l_calls l ++ [(e, ok)]) (l_history l).

(** ** One event *)

Definition firstTopicRaw (ev : RpcEvent) : string := match re_topics ev with t :: _ => toXDR t | [] => "undefined" end.

Definition windowKey (ev : RpcEvent) : string := pretty (re_ledger ev) +:+ ":" +:+ re_txHash ev +:+ ":" +:+ firstTopicRaw ev.

Definition _trackDedup (key : string) (l : Listener) : Listener := set_window (set_add DEDUP_WINDOW_SIZE key (l_window l)) l.

Definition decode_event (contractId : string) (ev : RpcEvent) : outcome SorobanEventDecodeError (option SorobanHtlcEvent) :=
  decodeSorobanHtlcEvent (toXDR <$> re_topics ev) (toXDR (re_value ev))
    (mkMeta (re_ledger ev) (re_txHash ev) (default contractId (re_contractId ev))).

(** [false] when a handler threw, which ends the batch.  [throws None] is the
    handler of unknown events. *)
Definition process_event (throws : option SorobanHtlcEvent -> bool) (contractId : string) (ev : RpcEvent) (l : Listener) : bool * Listener :=
  let key := windowKey ev in
  if is_in key (bs_set (l_window l)) then (true, l)
  else
    match decode_event contractId ev with
    | Throw _ => (true, _trackDedup key l)
    | Ok None => if throws None then (false, l) else (true, _trackDedup key l)
    | Ok (Some typed) =>
        let '(dup, processed) := isDuplicate (re_txHash ev) (event_type typed) (l_processed l) in
        if dup then (true, l)
        else
          let l := set_processed processed l in
          if throws (Some typed) then (false, add_call typed false l) else (true, _trackDedup key (add_call typed true l))
    end.

Fixpoint process_events (throws : option SorobanHtlcEvent -> bool) (contractId : string) (evs : list RpcEvent) (l : Listener) : bool * Listener :=
  match evs with
  | [] => (true, l)
  | ev :: evs =>
      let '(ok, l) := process_event throws contractId ev l in
      if ok then process_events throws contractId evs l else (false, l)
  end.

(** ** Ticks *)

Definition set_tick (i : nat) (s : Stage) (l : Listener) : Listener := set_ticks (<[i := s]> (l_ticks l)) l.

(** The [finally] of a tick. *)
Definition tick_end (i : nat) (l : Listener) : Listener :=
  if l_stopped l then set_tick i Gone l else set_timeoutId (Some i) (set_tick i Timer l).

Definition tick_failed (i : nat) (l : Listener) : Listener := tick_end i (set_monitor (recordFailure CHAIN) l).

(** [fetchAndProcess] up to its first await. *)
Definition first_request (l : Listener) : Stage :=
  match l_cursor l with None => AskLatest | Some c => AskEvents None (Some c) end.

(** The page has arrived: its events, then the cursor. *)
Definition on_page (throws : option SorobanHtlcEvent -> bool) (written : bool) (nowSeconds : Z) (i : nat) (p : Page) (l : Listener) : Listener :=
  let contractId := default "" (l_htlc l) in
  match process_events throws contractId (pg_events p) l with
  | (false, l) => tick_failed i l
  | (true, l) =>
      let l := if truthy_string (pg_cursor p) then
                 set_store (store_save written (l_label l) (pg_cursor p) (l_store l)) (set_cursor (Some (pg_cursor p)) l)
               else l in
      tick_end i (set_monitor (recordHealthyTick nowSeconds CHAIN) l)
  end.

Definition stop (l : Listener) : Listener :=
  let l := set_stopped true l in
  let l := match l_timeoutId l with
           | Some i =>
               let l := set_timeoutId None l in
               match l_ticks l !! i with Some Timer => set_tick i Gone l | _ => l end
           | None => l
           end in
  set_monitor (recordStopped CHAIN) l.

Definition start (l : Listener) : Listener :=
  match l_htlc l with
  | None | Some "" => l
  | Some _ =>
      let l := set_stopped false (stop l) in
      let '(persisted, s) := store_load (l_label l) (l_store l) in
      let l := set_monitor (recordStarted CHAIN) (set_cursor persisted (set_store s l)) in
      set_ticks (l_ticks l ++ [first_request l]) l
  end.

Inductive Event : Type :=
| EStart
| EStop
| ETimer (i : nat)
| ELatest (i : nat) (r : outcome string Z)
| EEvents (i : nat) (throws : option SorobanHtlcEvent -> bool) (written : bool) (nowSeconds : Z) (r : outcome string Page)
| EReboot.

Definition step (l : Listener) (e : Event) : Listener :=
  match e with
  | EStart => start l
  | EStop => stop l
  | ETimer i =>
      match l_ticks l !! i with
      | Some Timer => if l_stopped l then set_tick i Gone l else set_tick i (first_request l) l
      | _ => l
      end
  | ELatest i r =>
      match l_ticks l !! i, r with
      | Some AskLatest, Ok n => set_tick i (AskEvents (Some (n - 1)) (l_cursor l)) l
      | Some AskClamp, Ok n => set_tick i (AskClamped (n - 1)) (set_cursor None (set_monitor (recordMissedBatch CHAIN) l))
      | Some AskLatest, Throw _ | Some AskClamp, Throw _ => tick_failed i l
      | _, _ => l
      end
  | EEvents i throws written now r =>
      match l_ticks l !! i, r with
      | Some (AskEvents _ _), Ok p | Some (AskClamped _), Ok p => on_page throws written now i p l
      | Some (AskEvents _ _), Throw m => if isHistoryWindowError m then set_tick i AskClamp l else tick_failed i l
      | Some (AskClamped _), Throw _ => tick_failed i l
      | _, _ => l
      end
  | EReboot => new_listener (l_htlc l) (l_label l) (cs_files (l_store l)) (l_history l ++ l_calls l)
  end.

Definition run (htlc : option string) (label : string) (es : list Event) : Listener := foldl step (new_listener htlc label [] []) es.
End Listener.

(** ** What is dispatched *)

Definition event_meta (e : SorobanHtlcEvent) : EventMeta :=
  match e with SorobanOrderCreated m _ _ _ _ _ _ _ _ | SorobanOrderClaimed m _ _ _ _ _ _ _ | SorobanOrderRefunded m _ _ _ _ _ _ => m end.

Definition event_key (e : SorobanHtlcEvent) : string := dedupKey (em_txHash (event_meta e)) (event_type e).

Section Spec.
Context {S : StellarSdk} {X : Xdr}.
Implicit Types (l : Listener) (ev : RpcEvent).

Lemma step_ok {A B} name why (o : option A) (k : A -> outcome SorobanEventDecodeError B) b :
  ResolverEvents.step name why o k = Ok b -> exists a, o = Some a /\ k a = Ok b.
Proof. destruct o as [a|]; [|done]. by exists a. Qed.

Lemma decode_meta topics value meta e : decodeSorobanHtlcEvent topics value meta = Ok (Some e) -> event_meta e = meta.
Proof.
  unfold decodeSorobanHtlcEvent. destruct topics as [|t topics]; [done|]. destruct (decodeScVal t) as [[name| | | | |]|]; try done.
  assert (forall r : outcome SorobanEventDecodeError SorobanHtlcEvent, (forall x, r = Ok x -> event_meta x = meta) ->
    match r with Ok e => Ok (Some e) | Throw e => Throw e end = Ok (Some e) -> event_meta e = meta) as H.
  { intros [x|] Hx; [|done]. intros [= <-]. by apply Hx. }
  destruct (String.eqb name "created"); [|destruct (String.eqb name "claimed"); [|destruct (String.eqb name "refunded"); [|done]]];
    apply H; intros x; unfold decodeCreated, decodeClaimed, decodeRefunded; (destruct (_ <? _)%nat; [done|]).
  - intros ([[? ?] ?] & _ & (? & _ & (y & Hy & [= <-])%step_ok)%step_ok)%step_ok.
    repeat (apply bind_Some in Hy as (? & _ & Hy)). by simplify_eq.
  - intros ([? ?] & _ & (? & _ & (y & Hy & [= <-])%step_ok)%step_ok)%step_ok.
    repeat (apply bind_Some in Hy as (? & _ & Hy)). by simplify_eq.
  - intros ([? ?] & _ & (? & _ & (y & Hy & [= <-])%step_ok)%step_ok)%step_ok.
    repeat (apply bind_Some in Hy as (? & _ & Hy)). by simplify_eq.
Qed.

Lemma decode_event_key contract ev e :
  decode_event contract ev = Ok (Some e) -> event_key e = dedupKey (re_txHash ev) (event_type e).
Proof. intros H%decode_meta. unfold event_key. by rewrite H. Qed.

(** ** No event twice in a row *)

(** The keys of the handler calls of this process. *)
Definition call_keys l : list string := (fun c => event_key c.1) <$> l_calls l.

Definition deduped l : Prop := spaced (call_keys l) /\ recent (call_keys l) (l_processed l).

Lemma deduped_same l l' : l_calls l' = l_calls l -> l_processed l' = l_processed l -> deduped l -> deduped l'.
Proof. intros H1 H2. unfold deduped, call_keys. by rewrite H1, H2. Qed.

Lemma deduped_new htlc label files h : deduped (new_listener htlc label files h).
Proof. split; [by intros i|]. exists []. split_and!; [done|constructor|done|by left]. Qed.

Lemma process_event_deduped throws contract ev l : deduped l -> deduped (process_event throws contract ev l).2.
Proof.
  intros Hd. unfold process_event. destruct (is_in _ _); [done|].
  destruct (decode_event contract ev) as [[e|]|] eqn:He; [|destruct (throws None); [done|by eapply deduped_same]|by eapply deduped_same].
  destruct Hd as [Hs Hr]. pose proof (isDuplicate_spec (re_txHash ev) (event_type e) _ _ Hs Hr) as H.
  destruct (isDuplicate _ _ _) as [[] p]; [done|]. destruct H as (_ & Hs' & Hr').
  rewrite <-(decode_event_key contract ev e He) in Hs', Hr'.
  assert (forall ok, deduped (add_call e ok (set_processed p l))) as Hc.
  { intros ok. unfold deduped, call_keys. cbn [add_call set_processed l_calls l_processed]. by rewrite fmap_app. }
  destruct (throws (Some e)); cbn [snd]; [apply Hc|]. eapply deduped_same; [..|by apply (Hc true)]; done.
Qed.

Lemma process_events_deduped throws contract evs l : deduped l -> deduped (process_events throws contract evs l).2.
Proof.
  revert l. induction evs as [|ev evs IH]; intros l Hl; [done|]. cbn [process_events].
  pose proof (process_event_deduped throws contract ev l Hl). destruct (process_event throws contract ev l) as [[] l1]; [by apply IH|done].
Qed.

Lemma tick_end_same i l : l_calls (tick_end i l) = l_calls l /\ l_processed (tick_end i l) = l_processed l.
Proof. unfold tick_end. by destruct (l_stopped l). Qed.

Lemma tick_failed_deduped i l : deduped l -> deduped (tick_failed i l).
Proof. intros H. unfold tick_failed. by eapply deduped_same; [apply tick_end_same..|]. Qed.

Lemma on_page_deduped throws written now i p l : deduped l -> deduped (on_page throws written now i p l).
Proof.
  intros Hl. unfold on_page. pose proof (process_events_deduped throws (default "" (l_htlc l)) (pg_events p) l Hl) as H.
  destruct (process_events _ _ _ _) as [[] l1]; cbn [snd] in H; [|by apply tick_failed_deduped].
  eapply deduped_same; [apply tick_end_same..|]. by destruct (truthy_string _).
Qed.

Lemma stop_same l : l_calls (stop l) = l_calls l /\ l_processed (stop l) = l_processed l.
Proof. unfold stop. cbn. destruct (l_timeoutId l); [|done]. cbn. by destruct (_ !! _) as [[]|]. Qed.

Lemma start_same l : l_calls (start l) = l_calls l /\ l_processed (start l) = l_processed l.
Proof.
  unfold start. destruct (l_htlc l) as [[|]|]; try done. destruct (stop_same l) as [H1 H2].
  destruct (store_load _ _) as [c st]. by split.
Qed.

Lemma step_deduped l e : deduped l -> deduped (step l e).
Proof.
  intros Hl. destruct e as [| |i|i r|i throws written now r|]; cbn [step].
  - by eapply deduped_same; [apply start_same..|].
  - by eapply deduped_same; [apply stop_same..|].
  - destruct (_ !! _) as [[]|]; try done. by destruct (l_stopped l).
  - destruct (_ !! _) as [[]|], r; try done; by apply tick_failed_deduped.
  - destruct (_ !! _) as [[]|], r; try done; try (by apply on_page_deduped); [|by apply tick_failed_deduped].
    destruct (isHistoryWindowError _); [done|by apply tick_failed_deduped].
  - apply deduped_new.
Qed.

(** ** Nothing behind a cursor is lost *)

Section Coverage.
(** The contract's events in the order of the chain, the place a cursor stands
    for, and the places where a page that was asked for by ledger begins. *)
Context (contract label : string) (log : list RpcEvent) (pos : string -> nat) (anchor : nat -> Prop).

(** Events are told apart by the keys the listener uses. *)
Definition distinct_keys : Prop :=
  (forall i j a b, log !! i = Some a -> log !! j = Some b -> windowKey a = windowKey b -> i = j) /\
  (forall i j a b d e, log !! i = Some a -> log !! j = Some b -> decode_event contract a = Ok (Some d) ->
     decode_event contract b = Ok (Some e) -> event_key d = event_key e -> i = j).

(** A page of consecutive events from [start], and its cursor behind them. *)
Definition honest_from (start : nat) (p : Page) : Prop :=
  (exists n, pg_events p = take n (drop start log)) /\
  (truthy_string (pg_cursor p) = true -> pos (pg_cursor p) = (start + length (pg_events p))%nat).

(** What the answer to a request may be. *)
Definition honest (s : Stage) (p : Page) : Prop :=
  match s with
  | AskEvents _ (Some c) => honest_from (pos c) p
  | AskEvents _ None | AskClamped _ => exists a, anchor a /\ honest_from a p
  | _ => True
  end.

Definition event_ok l (e : Event) : Prop :=
  match e with EEvents i _ _ _ (Ok p) => forall s, l_ticks l !! i = Some s -> honest s p | _ => True end.

Fixpoint valid l (es : list Event) : Prop :=
  match es with [] => True | e :: es => event_ok l e /\ valid (step l e) es end.

(** A handler call for the event, which may have thrown, was made in this process or an earlier one. *)
Definition called l (e : SorobanHtlcEvent) : Prop := e ∈ fst <$> l_history l ++ l_calls l.

Definition handled l ev : Prop := forall e, decode_event contract ev = Ok (Some e) -> called l e.

(** All events from an anchor up to the cursor are handled. *)
Definition covered l (c : string) : Prop :=
  exists a, anchor a /\ (a <= pos c)%nat /\ forall k ev, (a <= k < pos c)%nat -> log !! k = Some ev -> handled l ev.

(** A cursor the listener may use. *)
Definition known l (c : string) : Prop :=
  l_cursor l = Some c \/ jm_get label (cs_cache (l_store l)) = Some c \/ jm_get (filePath label) (cs_files (l_store l)) = Some (Some c) \/
  exists i s, l_ticks l !! i = Some (AskEvents s (Some c)).

Record dedup_sound l : Prop := {
  window_sound k ev : log !! k = Some ev -> windowKey ev ∈ bs_set (l_window l) -> handled l ev;
  processed_sound k ev e : log !! k = Some ev -> decode_event contract ev = Ok (Some e) -> event_key e ∈ l_processed l -> called l e
}.

Record inv l : Prop := {
  inv_htlc : default "" (l_htlc l) = contract;
  inv_label : l_label l = label;
  inv_dedup : dedup_sound l;
  inv_known c : known l c -> covered l c
}.

Definition more l l' : Prop := forall e, called l e -> called l' e.

#[local] Instance more_po : PreOrder more.
Proof. split; [by intros l e|intros a b c H1 H2 e He; auto]. Qed.

Lemma handled_more l l' ev : more l l' -> handled l ev -> handled l' ev.
Proof. intros Hm Hh e He. by apply Hm, Hh. Qed.

Lemma covered_more l l' c : more l l' -> covered l c -> covered l' c.
Proof. intros Hm (a & Ha & Hle & H). exists a. split_and!; [done..|]. intros k ev Hk He. eapply handled_more; eauto. Qed.

Lemma elem_of_set_add m k x s : x ∈ bs_set (set_add m k s) -> x ∈ bs_set s \/ x = k.
Proof.
  unfold set_add. destruct (is_in k (bs_set s)); [by left|]. intros H. cbn [bs_set] in H. apply elem_of_app in H as [H|H%list_elem_of_singleton]; [left|by right].
  destruct (m <=? _); [|done]. destruct (bs_queue s) as [|y q]; [done|]. cbn [bs_set] in H. by apply elem_of_without in H as [H _].
Qed.

Lemma isDuplicate_elem tx ty s :
  match isDuplicate tx ty s with
  | (true, s') => s' = s /\ dedupKey tx ty ∈ s
  | (false, s') => forall x, x ∈ s' -> x ∈ s \/ x = dedupKey tx ty
  end.
Proof.
  unfold isDuplicate, is_in. case_bool_decide; [done|]. intros x Hx. apply elem_of_app in Hx as [Hx|Hx%list_elem_of_singleton]; [left|by right].
  destruct (_ <=? _); [|done]. rewrite <-(take_drop (Z.to_nat (DEDUP_MAX_SIZE / 2)) s). by apply elem_of_app; right.
Qed.

Lemma track_sound ev k l :
  distinct_keys -> log !! k = Some ev -> dedup_sound l -> handled l ev -> dedup_sound (_trackDedup (windowKey ev) l).
Proof.
  intros [Hw _] Hlog [D1 D2] Hh. split; [|done]. intros j ev' Hj Hx. cbn [_trackDedup set_window l_window] in Hx.
  apply elem_of_set_add in Hx as [Hx|Hx]; [by eapply D1|].
  assert (j = k) as -> by (by eapply Hw). rewrite Hlog in Hj. by injection Hj as <-.
Qed.

(** A first call of the handler of an event. *)
Lemma call_sound ev k e ok p l :
  distinct_keys -> log !! k = Some ev -> dedup_sound l -> decode_event contract ev = Ok (Some e) ->
  (forall x, x ∈ p -> x ∈ l_processed l \/ x = event_key e) ->
  let l' := add_call e ok (set_processed p l) in dedup_sound l' /\ more l l' /\ handled l' ev.
Proof.
  intros [_ Hk] Hlog [D1 D2] He Hp l'.
  assert (more l l') as Hm.
  { intros x. unfold called. cbn [l' add_call set_processed l_history l_calls]. rewrite !fmap_app, !elem_of_app. tauto. }
  assert (called l' e) as Hd.
  { unfold called. cbn [l' add_call set_processed l_history l_calls]. rewrite !fmap_app, !elem_of_app. right. right. by left. }
  split_and!; [split|done|intros e' H; by assert (e' = e) as -> by congruence].
  - intros j ev' Hj Hx. apply (handled_more l); [done|]. by eapply D1.
  - intros j ev' e' Hj Hdec Hx. destruct (Hp _ Hx) as [Hx'|Hx']; [apply Hm; by eapply D2|].
    assert (j = k) as -> by (eapply Hk; eauto). rewrite Hlog in Hj. injection Hj as <-. by assert (e' = e) as -> by congruence.
Qed.

(** One event of the log: it is handled unless its handler threw, and the
    deduplication state stays sound. *)
Lemma process_event_sound throws ev k l :
  distinct_keys -> log !! k = Some ev -> dedup_sound l ->
  let '(ok, l') := process_event throws contract ev l in
  dedup_sound l' /\ more l l' /\ (ok = true -> handled l' ev).
Proof.
  intros Hk Hlog HD. pose proof HD as [D1 D2]. unfold process_event, is_in.
  case_bool_decide as Hin; [split_and!; [done..|by intros _; eapply D1]|].
  destruct (decode_event contract ev) as [[e|]|] eqn:He.
  - pose proof (isDuplicate_elem (re_txHash ev) (event_type e) (l_processed l)) as Hd.
    rewrite <-(decode_event_key contract ev e He) in Hd. destruct (isDuplicate _ _ _) as [[] p].
    { destruct Hd as [_ Hd]. split_and!; [done..|]. intros _ e' He'. assert (e' = e) as -> by congruence. by eapply D2. }
    destruct (throws (Some e)).
    + destruct (call_sound ev k e false p l Hk Hlog HD He Hd) as (C1 & C2 & _). by split_and!.
    + destruct (call_sound ev k e true p l Hk Hlog HD He Hd) as (C1 & C2 & C3). split_and!; [|done..]. by eapply track_sound.
  - assert (handled l ev) as Hh by (intros e'; congruence). destruct (throws None); [by split_and!|].
    split_and!; [by eapply track_sound|by intros x|by intros _].
  - assert (handled l ev) as Hh by (intros e'; congruence). split_and!; [by eapply track_sound|by intros x|by intros _].
Qed.

Lemma process_events_sound throws evs start l :
  distinct_keys -> (forall i ev, evs !! i = Some ev -> log !! (start + i)%nat = Some ev) -> dedup_sound l ->
  let '(ok, l') := process_events throws contract evs l in
  dedup_sound l' /\ more l l' /\ (ok = true -> Forall (handled l') evs).
Proof.
  intros Hk. revert start l. induction evs as [|ev evs IH]; intros start l Hlog HD; [by split_and!|]. cbn [process_events].
  pose proof (Hlog 0%nat ev eq_refl) as H0. pose proof (process_event_sound throws ev (start + 0)%nat l Hk H0 HD) as H1.
  destruct (process_event throws contract ev l) as [[] l1]; [|by destruct H1 as (? & ? & _)]. destruct H1 as (D1 & M1 & H1).
  assert (forall i x, evs !! i = Some x -> log !! (Datatypes.S start + i)%nat = Some x) as Hlog'.
  { intros i x Hx. rewrite Nat.add_succ_comm. by apply Hlog. }
  specialize (IH (Datatypes.S start) l1 Hlog' D1). destruct (process_events throws contract evs l1) as [ok l2]. destruct IH as (D2 & M2 & H2).
  split_and!; [done|by etransitivity|]. intros Hok. constructor; [|by apply H2]. eapply handled_more; eauto.
Qed.

(** ** The invariant *)

(** What only the handling of events changes. *)
Record same_core l l' : Prop := {
  sc_htlc : l_htlc l' = l_htlc l;
  sc_label : l_label l' = l_label l;
  sc_window : l_window l' = l_window l;
  sc_processed : l_processed l' = l_processed l;
  sc_calls : l_calls l' = l_calls l;
  sc_history : l_history l' = l_history l
}.

Lemma core_inv l l' : same_core l l' -> inv l -> (forall c, known l' c -> covered l c) -> inv l'.
Proof.
  intros [C1 C2 C3 C4 C5 C6] [I1 I2 [D1 D2] I4] Hk. assert (forall e, called l e <-> called l' e) as Hd.
  { intros e. unfold called. by rewrite C5, C6. }
  split; [by rewrite C1|by rewrite C2|split|].
  - intros k ev Hlog Hw e He. rewrite C3 in Hw. apply Hd. by eapply D1.
  - intros k ev e Hlog He Hp. rewrite C4 in Hp. apply Hd. by eapply D2.
  - intros c Hc. apply (covered_more l); [intros e; apply Hd|auto].
Qed.

Lemma core_inv' l l' : same_core l l' -> inv l -> (forall c, known l' c -> known l c) -> inv l'.
Proof. intros Hs Hi Hk. apply (core_inv l); [done..|]. intros c Hc. by apply Hi, Hk. Qed.

Lemma known_set_tick i s l c : known (set_tick i s l) c -> known l c \/ exists sl, s = AskEvents sl (Some c).
Proof.
  intros [H|[H|[H|(j & sl & H)]]]; [left; by left|left; by right; left|left; by right; right; left|].
  cbn [set_tick set_ticks l_ticks] in H. apply list_lookup_insert_Some in H as [(-> & -> & _)|[_ H]]; [right; by exists sl|].
  left. right. right. right. by exists j, sl.
Qed.

Lemma tick_end_inv i l : inv l -> inv (tick_end i l).
Proof.
  intros Hi. unfold tick_end. destruct (l_stopped l); (apply (core_inv' l); [done..|]); intros c Hc.
  - by apply known_set_tick in Hc as [|[? ?]].
  - assert (known (set_tick i Timer l) c) as Hc' by exact Hc. by apply known_set_tick in Hc' as [|[? ?]].
Qed.

Lemma tick_failed_inv i l : inv l -> inv (tick_failed i l).
Proof. intros Hi. apply tick_end_inv. by apply (core_inv' l). Qed.

Lemma set_tick_inv i s l :
  inv l -> (forall sl c, s = AskEvents sl (Some c) -> known l c) -> inv (set_tick i s l).
Proof. intros Hi Hs. apply (core_inv' l); [done..|]. intros c [Hc|[sl Hc]]%known_set_tick; [done|eauto]. Qed.

Lemma stop_inv l : inv l -> inv (stop l).
Proof.
  intros Hi. unfold stop. apply (core_inv' l); [|done|].
  - cbn. destruct (l_timeoutId l) as [i|]; [|done]. cbn. by destruct (l_ticks l !! i) as [[]|].
  - cbn. destruct (l_timeoutId l) as [i|]; [|done]. cbn. destruct (l_ticks l !! i) as [[]|] eqn:Ht; try done.
    intros c Hc. assert (known (set_tick i Gone l) c) as Hc' by exact Hc. by apply known_set_tick in Hc' as [|[? ?]].
Qed.

Lemma store_load_known l :
  l_label l = label ->
  let '(c, s) := store_load (l_label l) (l_store l) in
  (forall x, c = Some x -> known l x) /\
  (forall x, jm_get label (cs_cache s) = Some x \/ jm_get (filePath label) (cs_files s) = Some (Some x) -> known l x).
Proof.
  intros ->. unfold store_load. destruct (jm_get label (cs_cache (l_store l))) as [x|] eqn:Hc.
  { split; [intros y [= <-]; by right; left|]. intros y [H|H]; [right; by left|right; right; by left]. }
  destruct (jm_get (filePath label) (cs_files (l_store l))) as [[x|]|] eqn:Hf; [destruct (truthy_string x)|..]; cbn [cs_cache cs_files].
  2-4: split; [done|]; intros y [H|H]; simplify_eq; right; right; by left.
  split; [intros y [= <-]; right; right; by left|]. rewrite jm_get_set. intros y [H|H]; simplify_eq; right; right; by left.
Qed.

Lemma start_inv l : inv l -> inv (start l).
Proof.
  intros Hi. unfold start. destruct (l_htlc l) as [h|]; [|done]. destruct h as [|a h]; [done|].
  pose proof (stop_inv l Hi) as H1. set (l1 := set_stopped false (stop l)). assert (inv l1) as H2 by (by apply (core_inv' (stop l))).
  pose proof (store_load_known l1 (inv_label _ H2)) as Hl. destruct (store_load (l_label l1) (l_store l1)) as [persisted st]. destruct Hl as [L1 L2].
  apply (core_inv' l1); [done..|]. intros c [H|[H|[H|(i & s & H)]]].
  - by apply L1.
  - apply L2. by left.
  - apply L2. by right.
  - cbn [set_ticks set_monitor set_cursor set_store l_ticks] in H. apply lookup_snoc_Some in H as [[_ H]|[_ H]].
    + right. right. right. by exists i, s.
    + unfold first_request in H. cbn [set_monitor set_cursor l_cursor] in H. destruct persisted as [x|]; [|done].
      injection H as <- ->. by apply L1.
Qed.

Lemma process_event_frame throws ev l :
  let l' := (process_event throws contract ev l).2 in
  l_cursor l' = l_cursor l /\ l_store l' = l_store l /\ l_ticks l' = l_ticks l /\ l_htlc l' = l_htlc l /\ l_label l' = l_label l.
Proof.
  unfold process_event. destruct (is_in _ _); [done|]. destruct (decode_event contract ev) as [[e|]|]; [|by destruct (throws None)|done].
  destruct (isDuplicate _ _ _) as [[] p]; [done|]. by destruct (throws (Some e)).
Qed.

Lemma process_events_frame throws evs l :
  let l' := (process_events throws contract evs l).2 in
  l_cursor l' = l_cursor l /\ l_store l' = l_store l /\ l_ticks l' = l_ticks l /\ l_htlc l' = l_htlc l /\ l_label l' = l_label l.
Proof.
  revert l. induction evs as [|ev evs IH]; intros l; [done|]. cbn [process_events].
  pose proof (process_event_frame throws ev l) as H. destruct (process_event throws contract ev l) as [[] l1]; [|done].
  destruct (IH l1) as (? & ? & ? & ? & ?), H as (? & ? & ? & ? & ?). cbn [snd] in *. split_and!; congruence.
Qed.

Lemma same_known l l' c : l_cursor l' = l_cursor l -> l_store l' = l_store l -> l_ticks l' = l_ticks l -> known l' c -> known l c.
Proof. intros H1 H2 H3. unfold known. by rewrite H1, H2, H3. Qed.

(** The events of a page, for a request that starts at a covered place. *)
Lemma on_page_inv throws written now i p start l :
  distinct_keys -> inv l -> honest_from start p ->
  (exists a, anchor a /\ (a <= start)%nat /\ forall k ev, (a <= k < start)%nat -> log !! k = Some ev -> handled l ev) ->
  inv (on_page throws written now i p l).
Proof.
  intros Hk Hi [[n Hev] Hpos] (a & Ha & Has & Hcov). pose proof Hi as [I1 I2 I3 I4]. unfold on_page. rewrite I1.
  assert (forall j x, pg_events p !! j = Some x -> log !! (start + j)%nat = Some x) as Hlog.
  { intros j x Hx. rewrite Hev in Hx. apply lookup_take_Some in Hx as [Hx _]. by rewrite lookup_drop in Hx. }
  pose proof (process_events_sound throws (pg_events p) start l Hk Hlog I3) as Hs.
  pose proof (process_events_frame throws (pg_events p) l) as Hf.
  destruct (process_events throws contract (pg_events p) l) as [ok l1]. destruct Hs as (D1 & M1 & H1). cbn [snd] in Hf.
  destruct Hf as (F1 & F2 & F3 & F4 & F5).
  assert (inv l1) as Hi1.
  { split; [by rewrite F4|by rewrite F5|done|]. intros c Hc. apply (covered_more l); [done|]. apply I4. by eapply same_known. }
  destruct ok; [|by apply tick_failed_inv]. apply tick_end_inv. specialize (H1 eq_refl).
  destruct (truthy_string (pg_cursor p)) eqn:Ht; [|by apply (core_inv' l1)].
  set (c0 := pg_cursor p) in *. apply (core_inv l1); [done..|]. intros c Hc.
  assert (c = c0 \/ known l1 c) as [->|Hc']; [| |by apply Hi1].
  { destruct Hc as [[= <-]|[Hc|[Hc|Hc]]]; [by left| | |right; right; right; right; exact Hc].
    - cbn [set_monitor set_store l_store] in Hc. unfold store_save in Hc. cbn [cs_cache] in Hc.
      change (l_label (set_cursor (Some c0) l1)) with (l_label l1) in Hc. rewrite F5, I2, jm_get_set in Hc. injection Hc as <-. by left.
    - cbn [set_monitor set_store l_store] in Hc. unfold store_save in Hc. cbn [cs_files] in Hc.
      change (l_label (set_cursor (Some c0) l1)) with (l_label l1) in Hc. rewrite F5, I2 in Hc.
      destruct written; [rewrite jm_get_set in Hc; injection Hc as <-; by left|]. right. right. right. by left. }
  exists a. rewrite (Hpos eq_refl). split_and!; [done|lia|]. intros k ev Hr Hlk.
  destruct (decide (k < start)%nat) as [Hlt|Hge]; [apply (handled_more l); [done|]; apply (Hcov k); [lia|done]|].
  assert (k - start < length (pg_events p))%nat as Hl by lia. destruct (lookup_lt_is_Some_2 (pg_events p) (k - start)%nat Hl) as [x Hx]. pose proof (Hlog _ _ Hx) as Hx'.
  replace (start + (k - start))%nat with k in Hx' by lia. assert (ev = x) as -> by congruence.
  eapply Forall_lookup_1; [exact H1|exact Hx].
Qed.

Lemma tick_covered i s c l : inv l -> l_ticks l !! i = Some (AskEvents s (Some c)) -> covered l c.
Proof. intros Hi Ht. apply Hi. right. right. right. by exists i, s. Qed.

Lemma listener_step_inv l e : distinct_keys -> inv l -> event_ok l e -> inv (step l e).
Proof.
  intros Hk Hi He. destruct e as [| |i|i r|i throws written now r|]; cbn [step].
  - by apply start_inv.
  - by apply stop_inv.
  - destruct (l_ticks l !! i) as [[]|]; try done. destruct (l_stopped l); apply set_tick_inv; try done.
    intros sl c. unfold first_request. destruct (l_cursor l) as [x|] eqn:Hc; [|done]. intros [= <- <-]. by left.
  - destruct (l_ticks l !! i) as [[]|], r as [n|m]; try done; try by apply tick_failed_inv.
    + apply set_tick_inv; [done|]. intros sl c [= _ Hc]. by left.
    + apply set_tick_inv; [|done]. apply (core_inv' l); [done..|]. intros c [H|H]; [done|by right].
  - destruct (l_ticks l !! i) as [s|] eqn:Ht; [|done]. destruct r as [p|m].
    + specialize (He s Ht). destruct s as [| |sl [c|]| |n|]; try done; cbn [honest] in He.
      * eapply on_page_inv; [done..|]. by eapply tick_covered.
      * destruct He as (a & Ha & He). eapply on_page_inv; [done..|]. exists a. split_and!; [done..|lia].
      * destruct He as (a & Ha & He). eapply on_page_inv; [done..|]. exists a. split_and!; [done..|lia].
    + destruct s as [| |sl c| |n|]; try done; [|by apply tick_failed_inv].
      destruct (isHistoryWindowError m); [by apply set_tick_inv|by apply tick_failed_inv].
  - destruct Hi as [I1 I2 I3 I4]. split; [done..|split|].
    + by intros k ev _ ?%elem_of_nil.
    + by intros k ev e _ _ ?%elem_of_nil.
    + intros c [H|[H|[H|(i & s & H)]]]; [done|done| |done]. apply (covered_more l); [|apply I4; right; right; by left].
      intros e. unfold called. cbn [new_listener l_history l_calls]. by rewrite app_nil_r.
Qed.

Lemma listener_run_inv htlc es :
  distinct_keys -> default "" htlc = contract -> valid (new_listener htlc label [] []) es -> inv (run htlc label es).
Proof.
  intros Hk Hh. unfold run. assert (inv (new_listener htlc label [] [])) as Hi.
  { split; [done..|split|].
    - by intros k ev _ ?%elem_of_nil.
    - by intros k ev e _ _ ?%elem_of_nil.
    - by intros c [H|[H|[H|(i & s & H)]]]. }
  revert Hi. generalize (new_listener htlc label [] []). induction es as [|e es IH]; intros l Hi Hv; [done|].
  destruct Hv as [He Hv]. cbn [foldl]. apply IH; [by apply listener_step_inv|done].
Qed.
End Coverage.

(** A handler is recorded as having thrown only when it did. *)
Definition threw_on (e : SorobanHtlcEvent) (es : list Event) : Prop :=
  exists i throws written now r, EEvents i throws written now r ∈ es /\ throws (Some e) = true.

Definition outcomes l : list (SorobanHtlcEvent * bool) := l_history l ++ l_calls l.

Lemma process_event_threw throws contract ev l e :
  (e, false) ∈ outcomes (process_event throws contract ev l).2 -> (e, false) ∈ outcomes l \/ throws (Some e) = true.
Proof.
  unfold process_event. destruct (is_in _ _); [by left|].
  destruct (decode_event contract ev) as [[d|]|]; [|destruct (throws None); by left|by left].
  destruct (isDuplicate _ _ _) as [[] p]; [by left|].
  destruct (throws (Some d)) eqn:Et; unfold outcomes; cbn; rewrite !elem_of_app, list_elem_of_singleton; naive_solver.
Qed.

Lemma process_events_threw throws contract evs l e :
  (e, false) ∈ outcomes (process_events throws contract evs l).2 -> (e, false) ∈ outcomes l \/ throws (Some e) = true.
Proof.
  revert l. induction evs as [|ev evs IH]; intros l; [by left|]. cbn [process_events].
  pose proof (process_event_threw throws contract ev l e) as H. destruct (process_event throws contract ev l) as [[] l1]; [|done].
  intros [H1|]%IH; [auto|by right].
Qed.

Lemma tick_end_outcomes i l : outcomes (tick_end i l) = outcomes l.
Proof. unfold tick_end. by destruct (l_stopped l). Qed.

Lemma stop_outcomes l : outcomes (stop l) = outcomes l.
Proof. unfold stop. cbn. destruct (l_timeoutId l) as [i|]; [|done]. cbn. by destruct (l_ticks l !! i) as [[]|]. Qed.

Lemma on_page_threw throws written now i p l e :
  (e, false) ∈ outcomes (on_page throws written now i p l) -> (e, false) ∈ outcomes l \/ throws (Some e) = true.
Proof.
  intros H. apply (process_events_threw throws (default "" (l_htlc l)) (pg_events p) l). revert H. unfold on_page.
  destruct (process_events _ _ _ _) as [[] l1]; [|unfold tick_failed; by rewrite tick_end_outcomes].
  rewrite tick_end_outcomes. by destruct (truthy_string _).
Qed.

Lemma step_threw l (ev : Event) e :
  (e, false) ∈ outcomes (step l ev) -> (e, false) ∈ outcomes l \/ threw_on e [ev].
Proof.
  assert (forall i, (e, false) ∈ outcomes (tick_failed i l) -> (e, false) ∈ outcomes l) as Hf.
  { intros i. unfold tick_failed. by rewrite tick_end_outcomes. }
  assert (forall i throws written now r p, (e, false) ∈ outcomes (on_page throws written now i p l) ->
    (e, false) ∈ outcomes l \/ threw_on e [EEvents i throws written now r]) as Hp.
  { intros i throws written now r p [?|?]%on_page_threw; [by left|]. right. exists i, throws, written, now, r. split; [by left|done]. }
  destruct ev as [| |i|i r|i throws written now r|]; cbn [step].
  - unfold start. destruct (l_htlc l) as [[|]|]; [by left| |by left].
    pose proof (stop_outcomes l) as E. unfold outcomes in *. destruct (store_load _ _). cbn in *. rewrite E. by left.
  - rewrite stop_outcomes. by left.
  - destruct (_ !! _) as [[]|]; try by left. destruct (l_stopped l); by left.
  - destruct (_ !! _) as [[]|], r; try (by left); by intros ?%Hf; left.
  - destruct (_ !! _) as [[]|], r; try (by left); try (by apply Hp); [|by intros ?%Hf; left].
    destruct (isHistoryWindowError _); [by left|]. by intros ?%Hf; left.
  - unfold outcomes. cbn. rewrite app_nil_r. by left.
Qed.

Lemma run_threw htlc label es e : (e, false) ∈ outcomes (run htlc label es) -> threw_on e es.
Proof.
  induction es as [|ev es IH] using rev_ind; [by intros ?%elem_of_nil|]. unfold run. rewrite foldl_app.
  intros [H|H]%step_threw; [apply IH in H|]; destruct H as (i & throws & written & now & r & H & ?);
    exists i, throws, written, now, r; (split; [|done]); apply elem_of_app; auto.
Qed.

Lemma run_deduped htlc label es : deduped (run htlc label es).
Proof.
  unfold run. assert (deduped (new_listener htlc label [] [])) as H by apply deduped_new. revert H. generalize (new_listener htlc label [] []).
  induction es as [|e es IH]; intros l Hl; [done|]. cbn [foldl]. by apply IH, step_deduped.
Qed.
End Spec.

(** C36.  The Soroban listener of the resolver does not soon repeat an event it has
    handled, and its cursor passes over none.  In one process, after a handler call that returned,
    the next call for the same transaction and kind of event is more than 5000
    calls away.  And when events can be told apart by the listener's keys and the
    server answers requests with consecutive events, every event between a
    place where a page asked for by ledger began (at the first start, or after the
    history window was overrun) and the cursor - in memory or on disk - has had
    its handler called, and the call returned unless the handler threw on that
    very event; this however ticks overlap, polls and other handlers fail, cursor
    files cannot be written and the process restarts.  An event whose own handler
    threw is not promised a second call. *)
Theorem resolver_dispatches_events {S : StellarSdk} {X : Xdr} (contract label : string) (log : list RpcEvent) (pos : string -> nat)
    (anchor : nat -> Prop) (es : list Event) :
  distinct_keys contract log -> valid log pos anchor (new_listener (Some contract) label [] []) es ->
  let l := run (Some contract) label es in
  (forall i j e ok e', (i < j)%nat -> l_calls l !! i = Some (e, true) -> l_calls l !! j = Some (e', ok) ->
     event_key e = event_key e' -> 5000 < Z.of_nat (j - i)) /\
  forall c, l_cursor l = Some c \/ jm_get (filePath label) (cs_files (l_store l)) = Some (Some c) ->
    exists a, anchor a /\ (a <= pos c)%nat /\
      forall k ev e, (a <= k < pos c)%nat -> log !! k = Some ev -> decode_event contract ev = Ok (Some e) ->
        (e, true) ∈ outcomes l \/ ((e, false) ∈ outcomes l /\ threw_on e es).
Proof.
  intros Hk Hv l. split.
  - intros i j e ok e' Hij Hi Hj E. destruct (run_deduped (Some contract) label es) as [Hs _].
    apply (Hs i j (event_key e)); [done|..]; unfold call_keys; rewrite list_lookup_fmap; fold l; [by rewrite Hi|by rewrite Hj, E].
  - intros c Hc.
    destruct (inv_known _ _ _ _ _ _ (listener_run_inv contract label log pos anchor (Some contract) es Hk eq_refl Hv) c) as (a & Ha & Hle & H).
    { destruct Hc as [Hc|Hc]; [by left|right; right; by left]. }
    exists a. split_and!; [done..|]. intros k ev e Hr Hlog Hd. specialize (H k ev Hr Hlog e Hd).
    apply list_elem_of_fmap in H as ([e' []] & -> & Hin); [by left|right]. split; [done|by eapply run_threw].
Qed.

(** ** Scenarios *)

(** XDR as text: each value is named. *)
Definition demo_native (v : string) : outcome string JsValue :=
  if String.eqb v "created" then Ok (JString "created")
  else if String.eqb v "lock" then Ok (JBytes [7])
  else if String.eqb v "one" then Ok (JArray [JBigInt 1; JString "asset"; JBigInt 10; JBigInt 0; JBigInt 99])
  else if String.eqb v "two" then Ok (JArray [JBigInt 2; JString "asset"; JBigInt 10; JBigInt 0; JBigInt 99])
  else Ok (JString v).
Definition demo_stellar : StellarSdk := {| ScVal := string; scValToNative := demo_native; xdr_digest := fun _ => None |}.
Definition demo_xdr : @Xdr demo_stellar := @Build_Xdr demo_stellar (fun v => v) (fun v => Some v).

Definition created_in (tx : string) (value : string) : @RpcEvent demo_stellar :=
  @mkRpcEvent demo_stellar 10 tx ["created"; "GA"; "GB"; "lock"] value None.
Definition demo_log : list (@RpcEvent demo_stellar) := [created_in "tx1" "one"; created_in "tx2" "two"].
Definition demo_pos (c : string) : nat := if String.eqb c "c1" then 1 else if String.eqb c "c2" then 2 else 0.
Definition page (evs : list (@RpcEvent demo_stellar)) (c : string) : outcome string (@Page demo_stellar) := Ok (@mkPage demo_stellar evs c).
Definition quiet_handlers (o : option SorobanHtlcEvent) : bool := false.

(** The supervisor starts twice, the second loop meets a failing disk, and the
    process restarts. *)
Definition demo_run : list (@Event demo_stellar) :=
  [EStart; EStart; ELatest 0 (Ok 10); ELatest 1 (Ok 10);
   EEvents 0 quiet_handlers true 100 (page [created_in "tx1" "one"] "c1"); EEvents 1 quiet_handlers false 100 (page demo_log "c2");
   EReboot; EStart; EEvents 0 quiet_handlers true 200 (page [created_in "tx2" "two"] "c2")].

Lemma demo_keys : @distinct_keys demo_stellar demo_xdr "CHTLC" demo_log.
Proof.
  split.
  - intros [|[|i]] [|[|j]] a b; try done; intros [= <-] [= <-] H; vm_compute in H; discriminate H.
  - intros [|[|i]] [|[|j]] a b d e; try done; intros [= <-] [= <-] Hd He; vm_compute in Hd, He; injection Hd as <-; injection He as <-;
      intros H; vm_compute in H; discriminate H.
Qed.

Lemma demo_valid :
  @valid demo_stellar demo_xdr demo_log demo_pos (fun a => a = 0%nat) (new_listener (Some "CHTLC") "label" [] []) demo_run.
Proof.
  unfold demo_run. cbn [valid event_ok page]. split_and!; try exact I; intros s Hs; vm_compute in Hs; injection Hs as <-; cbn [honest].
  - exists 0%nat. split; [done|]. split; [by exists 1%nat|done].
  - exists 0%nat. split; [done|]. split; [by exists 2%nat|done].
  - split; [by exists 1%nat|done].
Qed.

Lemma resolver_dispatches_events_witness :
  let l := @run demo_stellar demo_xdr (Some "CHTLC") "label" demo_run in
  (l_cursor l = Some "c2" /\ length (l_history l) = 2%nat /\ length (l_calls l) = 1%nat) /\
  exists a, a = 0%nat /\ (a <= demo_pos "c2")%nat /\
    forall k ev e, (a <= k < demo_pos "c2")%nat -> demo_log !! k = Some ev -> @decode_event demo_stellar demo_xdr "CHTLC" ev = Ok (Some e) ->
      (e, true) ∈ outcomes l \/ ((e, false) ∈ outcomes l /\ threw_on e demo_run).
Proof.
  split; [by vm_compute|]. apply (resolver_dispatches_events (X := demo_xdr) "CHTLC" "label" demo_log demo_pos (fun a => a = 0%nat) demo_run).
  - apply demo_keys.
  - apply demo_valid.
  - by left.
Defined.

(** A handler that throws once loses its event: the key is already in the set
    when the batch is read again, and the cursor moves on. *)
Example thrown_event_is_lost :
  let es := [EStart; ELatest 0 (Ok 10); EEvents 0 (fun _ => true) true 100 (page [created_in "tx1" "one"] "c1"); ETimer 0;
             ELatest 0 (Ok 10); EEvents 0 quiet_handlers true 110 (page [created_in "tx1" "one"] "c1")] in
  let l := @run demo_stellar demo_xdr (Some "CHTLC") "label" es in
  (snd <$> l_calls l) = [false] /\ l_cursor l = Some "c1".
Proof. by vm_compute. Qed.

(** Of two orders created in one transaction only the first is seen. *)
Example second_order_of_transaction_lost :
  let es := [EStart; ELatest 0 (Ok 10); EEvents 0 quiet_handlers true 100 (page [created_in "tx1" "one"; created_in "tx1" "two"] "c1")] in
  let l := @run demo_stellar demo_xdr (Some "CHTLC") "label" es in
  length (l_calls l) = 1%nat /\ l_cursor l = Some "c1".
Proof. by vm_compute. Qed.

(** Started twice while the first tick waits, the listener polls in two loops
    from then on; stopping it cancels the timer of one of them. *)
Example two_loops :
  let es := [EStart; EStart; ELatest 0 (Ok 10); ELatest 1 (Ok 10); EEvents 0 quiet_handlers true 100 (page [] "c1");
             EEvents 1 quiet_handlers true 100 (page [] "c1")] in
  let l := @run demo_stellar demo_xdr (Some "CHTLC") "label" es in
  l_ticks l = [Timer; Timer] /\ l_ticks (stop l) = [Timer; Gone].
Proof. by vm_compute. Qed.
