(* ===== verification/ResolverEthereum.v ===== *)
(** * The resolver's Ethereum listener

    resolver/src/listeners/ethereum.ts: three subscriptions of the escrow
    contract's events, one deduplication set for all of them.  viem's
    [watchEvent] is a parameter: it calls back with batches of logs, of any of the
    three kinds, in any order, repeated or not; handlers may throw, which is
    logged. *)

From S2P Require Import Prelude JsMap ListenerState ResolverTelemetry.

Definition ETH_CHAIN : string := "ethereum".

Inductive EthKind : Type := order_created | order_claimed | order_refunded.

Definition kind_text (k : EthKind) : string :=
  match k with order_created => "order_created" | order_claimed => "order_claimed" | order_refunded => "order_refunded" end.

(** A log as far as the listener reads it; [el_args] stands for the rest of what
    it hands on. *)
Record EthLog : Type := mkEthLog { el_txHash : option string; el_args : string }.

Record EthListener : Type := mkEthListener {
  el_escrow : option string;
  el_watching : bool;
  el_processed : list string;
  el_monitor : StalenessMonitor;
  el_calls : list (EthKind * EthLog * bool)
}.

Definition eth_tx (g : EthLog) : string := default "" (el_txHash g).

(** One log of a batch. *)
Definition on_log (throws : EthLog -> bool) (nowSeconds : Z) (k : EthKind) (l : EthListener) (g : EthLog) : EthListener :=
  match isDuplicate (eth_tx g) (kind_text k) (el_processed l) with
  | (true, _) => l
  | (false, p) =>
      mkEthListener (el_escrow l) (el_watching l) p (recordHealthyTick nowSeconds ETH_CHAIN (el_monitor l))
        (el_calls l ++ [(k, g, negb (throws g))])
  end.

Definition onLogs (throws : EthLog -> bool) (nowSeconds : Z) (k : EthKind) (logs : list EthLog) (l : EthListener) : EthListener :=
  foldl (on_log throws nowSeconds k) l logs.

Definition eth_stop (l : EthListener) : EthListener :=
  mkEthListener (el_escrow l) false (el_processed l) (recordStopped ETH_CHAIN (el_monitor l)) (el_calls l).

Definition eth_start (l : EthListener) : EthListener :=
  match el_escrow l with
  | None | Some "" => l
  | Some _ =>
      let l := eth_stop l in
      mkEthListener (el_escrow l) true (el_processed l) (recordStarted ETH_CHAIN (el_monitor l)) (el_calls l)
  end.

Inductive EthEvent : Type :=
| EthStart
| EthStop
| EthLogs (throws : EthLog -> bool) (nowSeconds : Z) (k : EthKind) (logs : list EthLog).

Definition eth_step (l : EthListener) (e : EthEvent) : EthListener :=
  match e with
  | EthStart => eth_start l
  | EthStop => eth_stop l
  | EthLogs throws now k logs => if el_watching l then onLogs throws now k logs l else l
  end.

Definition eth_run (escrow : option string) (es : list EthEvent) : EthListener :=
  foldl eth_step (mkEthListener escrow false [] newMonitor []) es.

(** ** Facts *)

Definition eth_key (c : EthKind * EthLog * bool) : string := dedupKey (eth_tx c.1.2) (kind_text c.1.1).
Definition eth_keys (l : EthListener) : list string := eth_key <$> el_calls l.

Definition eth_ok (l : EthListener) : Prop := spaced (eth_keys l) /\ recent (eth_keys l) (el_processed l).

Lemma on_log_ok throws now k l g : eth_ok l -> eth_ok (on_log throws now k l g).
Proof.
  intros [Hs Hr]. unfold on_log. pose proof (isDuplicate_spec (eth_tx g) (kind_text k) _ _ Hs Hr) as H.
  destruct (isDuplicate _ _ _) as [[] p]; [done|]. destruct H as (_ & H1 & H2).
  unfold eth_ok, eth_keys. cbn [el_calls el_processed]. by rewrite fmap_app.
Qed.

(** A log that passes was not among the latest ones, and is dispatched at once. *)
Lemma on_log_dispatches throws now k l g :
  dedupKey (eth_tx g) (kind_text k) ∉ el_processed l -> el_calls (on_log throws now k l g) = el_calls l ++ [(k, g, negb (throws g))].
Proof. intros H. unfold on_log, isDuplicate, is_in. by rewrite bool_decide_eq_false_2. Qed.

Lemma eth_run_ok escrow es : eth_ok (eth_run escrow es).
Proof.
  unfold eth_run. set (l0 := mkEthListener _ _ _ _ _).
  assert (eth_ok l0) as H0. { split; [by intros i|]. exists []. split_and!; [done|constructor|done|by left]. }
  revert H0. generalize l0. induction es as [|e es IH]; intros l Hl; [done|]. cbn [foldl]. apply IH.
  destruct e as [| |throws now k logs]; cbn [eth_step].
  - unfold eth_start. by destruct (el_escrow l) as [[]|].
  - done.
  - destruct (el_watching l); [|done]. unfold onLogs. clear IH. revert l Hl. induction logs as [|g logs IH]; intros l Hl; [done|].
    cbn [foldl]. by apply IH, on_log_ok.
Qed.

(** Two orders created in one transaction, and a handler that throws. *)
Example ethereum_loses_events :
  let logs := [mkEthLog (Some "0x1") "order 1"; mkEthLog (Some "0x1") "order 2"] in
  let l := eth_run (Some "0xescrow") [EthStart; EthLogs (fun _ => true) 1 order_created logs; EthLogs (fun _ => false) 2 order_created logs] in
  el_calls l = [(order_created, mkEthLog (Some "0x1") "order 1", false)].
Proof. by vm_compute. Qed.
