(* ===== verification/CacheVerifier.v ===== *)
(** * The cache verifier (coordinator/src/reconciliation/cache-verifier.ts).

    Compares a sample of orders with the events of their source chain and
    reports what disagrees.  RPC answers are inputs: [None] is a failed call,
    and the page loop consumes a list of answers and fails past its end.
    [discrepancy] says in terms of the chain's events alone when an order is out
    of line; the verifier is proved to report exactly that.  Metrics and log
    lines are left out. *)

From S2P Require Import Prelude JsMap Codec OrderMachine OrderRow OrdersRepo SecretCipher SorobanEvents.

Inductive MismatchType : Type :=
| src_lock_missing | src_lock_unexpected | claimed_missing | refunded_missing | status_stale.

#[export] Instance MismatchType_eq_dec : EqDecision MismatchType.
Proof. solve_decision. Defined.

Record CacheMismatch : Type := mkMismatch {
  cm_publicId : string;
  cm_hashlock : string;
  cm_chain : Chain;
  mismatchType : MismatchType;
  cachedStatus : OrderStatus;
  cm_detail : string
}.

Record CacheVerificationStatus : Type := mkStatus {
  lastRunOk : option bool;
  lastRunAt : option Z;
  cv_sampleSize : Z;
  mismatches : list CacheMismatch;
  aligned : bool;
  incompleteEvents : Z
}.

Definition initial_status : CacheVerificationStatus := mkStatus None None 0 [] true 0.

Definition ETH_VERIFY_LOOKBACK : Z := 7200.
Definition SOROBAN_VERIFY_LOOKBACK : Z := 17280.

(** A loop that pushes mismatches and counts incomplete events. *)
Fixpoint scan {A} (f : A -> list CacheMismatch * Z) (l : list A) : list CacheMismatch * Z :=
  match l with
  | [] => ([], 0)
  | a :: l => let '(m, n) := f a in let '(ms, ns) := scan f l in (m ++ ms, n + ns)
  end.

Definition mismatch (o : OrderRow) (chain : Chain) (t : MismatchType) (detail : string) : CacheMismatch :=
  mkMismatch (o_publicId o) (o_hashlock o) chain t (o_status o) detail.

(** [new Map(orders.map((o) => [key(o), o]))]. *)
Definition index_by (key : OrderRow -> string) (orders : list OrderRow) : list (string * OrderRow) :=
  foldl (fun m o => jm_set (key o) o m) [] orders.

Definition lock_key (o : OrderRow) : string := toLowerCase (o_hashlock o).
Definition preimage_absent (o : OrderRow) : bool := match o_preimage o with Some p => negb (truthy_string p) | None => true end.
Definition unsettled (o : OrderRow) : bool := negb (bool_decide (o_status o ∈ [refunded; completed; failed])).

(** ** Ethereum *)

(** The arguments of a decoded log that are read; absent ones are [None]. *)
Record Log : Type := mkLog { lg_hashlock : option string; lg_orderId : option Z }.

Record EthProbe : Type := mkEthProbe {
  getBlockNumber : option Z;
  getLogs : Z -> Z -> option (list Log * list Log * list Log)
}.

Definition created_log (byHashlock : list (string * OrderRow)) (g : Log) : list CacheMismatch * Z :=
  match lg_hashlock g with
  | Some h =>
      if truthy_string h then
        match jm_get (toLowerCase h) byHashlock with
        | Some o =>
            if bool_decide (o_status o = announced) then
              ([mismatch o ethereum src_lock_unexpected
                  ("DB status is " +:+ dquoted "announced" +:+ " but on-chain OrderCreated event exists for hashlock " +:+
                   o_hashlock o +:+ ". The src lock was likely missed by the listener. Run reconciliation to repair.")], 0)
            else ([], 0)
        | None => ([], 0)
        end
      else ([], 1)
  | None => ([], 1)
  end.

Definition createdHashlocks (logs : list Log) : list string :=
  omap (fun g => match lg_hashlock g with Some h => if truthy_string h then Some (toLowerCase h) else None | None => None end) logs.

(** More than 300 seconds since the last update; [now] is in milliseconds. *)
Definition old_enough (now : Z) (o : OrderRow) : bool := 300000 <? now - 1000 * o_updatedAt o.

Definition missing_lock (now : Z) (onChain : list string) (e : string * OrderRow) : list CacheMismatch * Z :=
  let '(hl, o) := e in
  if negb (bool_decide (o_srcChain o = ethereum)) then ([], 0)
  else if bool_decide (o_status o = src_locked) && negb (bool_decide (hl ∈ onChain)) && old_enough now o then
    ([mismatch o ethereum src_lock_missing
        ("DB status is " +:+ dquoted "src_locked" +:+ " but no on-chain OrderCreated event was found in the lookback window for hashlock " +:+
         o_hashlock o +:+ ". The cache may have been updated without a corresponding chain event.")], 0)
  else ([], 0).

(** [if (!args?.orderId)]: absent or zero. *)
Definition log_orderId (g : Log) : option Z := match lg_orderId g with Some 0 => None | o => o end.

Definition by_srcOrderId (orders : list OrderRow) (id : string) : option OrderRow :=
  List.find (fun o => bool_decide (o_srcOrderId o = Some id)) orders.

Definition claimed_log (orders : list OrderRow) (g : Log) : list CacheMismatch * Z :=
  match log_orderId g with
  | None => ([], 1)
  | Some id =>
      match by_srcOrderId orders (pretty id) with
      | Some o =>
          if preimage_absent o then
            ([mismatch o ethereum claimed_missing
                ("On-chain OrderClaimed event found for orderId " +:+ pretty id +:+
                 " but DB has no preimage. Run reconciliation to recover the secret.")], 0)
          else ([], 0)
      | None => ([], 0)
      end
  end.

Definition refunded_log (orders : list OrderRow) (g : Log) : list CacheMismatch * Z :=
  match log_orderId g with
  | None => ([], 1)
  | Some id =>
      match by_srcOrderId orders (pretty id) with
      | Some o =>
          if unsettled o then
            ([mismatch o ethereum refunded_missing
                ("On-chain OrderRefunded event found for orderId " +:+ pretty id +:+ " but DB status is " +:+
                 dquoted (status_str (o_status o)) +:+ ". Run reconciliation to advance the order to refunded.")], 0)
          else ([], 0)
      | None => ([], 0)
      end
  end.

Definition verify_logs (now : Z) (orders : list OrderRow) (createdLogs claimedLogs refundedLogs : list Log) : list CacheMismatch * Z :=
  let byHashlock := index_by lock_key orders in
  let hashlocks := jm_keys byHashlock in
  let '(m1, n1) := scan (created_log byHashlock) createdLogs in
  let '(m2, _) := scan (missing_lock now (createdHashlocks createdLogs)) byHashlock in
  let '(m3, n3) := scan (claimed_log orders) claimedLogs in
  let '(m4, n4) := scan (refunded_log orders) refundedLogs in
  (List.filter (fun m => existsb (fun hl => String.eqb (toLowerCase hl) (toLowerCase (cm_hashlock m))) hashlocks) (m1 ++ m2 ++ m3 ++ m4),
   n1 + n3 + n4).

Definition verifyEthereum (now : Z) (p : EthProbe) (orders : list OrderRow) : list CacheMismatch * Z :=
  match getBlockNumber p with
  | None => ([], 0)
  | Some latest =>
      let fromBlock := if ETH_VERIFY_LOOKBACK <? latest then latest - ETH_VERIFY_LOOKBACK else 0 in
      match getLogs p fromBlock latest with
      | None => ([], 0)
      | Some (createdLogs, claimedLogs, refundedLogs) => verify_logs now orders createdLogs claimedLogs refundedLogs
      end
  end.

(** ** Soroban *)

Section Soroban.
Context {S : StellarSdk}.

Record Event : Type := mkEvent { ev_topic : list ScVal; ev_value : ScVal }.
Record Page : Type := mkPage { pg_events : list Event; pg_cursor : option string }.

(** A request has a start ledger or a cursor. *)
Record SorobanProbe : Type := mkSorobanProbe {
  getLatestLedger : option Z;
  getEvents : list (option Z -> option string -> option Page)
}.

(** Bytes, or nothing usable as a hashlock. *)
Definition lock_topic (topics : list JsValue) : option string :=
  match topics !! 3%nat with Some (JBytes b) => Some ("0x" +:+ hex_encode b) | _ => None end.

(** The order id of a payload: [None] when the conversion throws. *)
Definition value_orderId (v : ScVal) : option (option string) :=
  match scValToNative v with
  | Throw _ => None
  | Ok (JArray (JBigInt n :: _)) => Some (Some (pretty n))
  | Ok _ => Some None
  end.

Definition soroban_event (byHashlock byOrderId : list (string * OrderRow)) (ev : Event) : list CacheMismatch * Z :=
  match native_topics (ev_topic ev) with
  | Throw _ | Ok [] => ([], 0)
  | Ok ((kind :: _) as topics) =>
      let eventKind := match kind with JString k => k | _ => "" end in
      if String.eqb eventKind "created" then
        match lock_topic topics with
        | None => ([], 1)
        | Some h =>
            match jm_get (toLowerCase h) byHashlock with
            | Some o =>
                if bool_decide (o_status o = announced) then
                  ([mismatch o stellar src_lock_unexpected
                      ("DB status is " +:+ dquoted "announced" +:+ " but Soroban " +:+ dquoted "created" +:+
                       " event exists for hashlock " +:+ h +:+ ". Run reconciliation to repair.")], 0)
                else ([], 0)
            | None => ([], 0)
            end
        end
      else if String.eqb eventKind "claimed" then
        match value_orderId (ev_value ev) with
        | None => ([], 0)
        | Some None => ([], 1)
        | Some (Some id) =>
            match jm_get id byOrderId with
            | Some o =>
                if preimage_absent o then
                  ([mismatch o stellar claimed_missing
                      ("Soroban " +:+ dquoted "claimed" +:+ " event found for orderId " +:+ id +:+
                       " but DB has no preimage. Run reconciliation to recover the secret.")], 0)
                else ([], 0)
            | None => ([], 0)
            end
        end
      else if String.eqb eventKind "refunded" then
        match value_orderId (ev_value ev) with
        | None => ([], 0)
        | Some None => ([], 1)
        | Some (Some id) =>
            match jm_get id byOrderId with
            | Some o =>
                if unsettled o then
                  ([mismatch o stellar refunded_missing
                      ("Soroban " +:+ dquoted "refunded" +:+ " event found for orderId " +:+ id +:+ " but DB status is " +:+
                       dquoted (status_str (o_status o)) +:+ ". Run reconciliation to advance to refunded.")], 0)
                else ([], 0)
            | None => ([], 0)
            end
        end
      else ([], 0)
  end.

(** The page loop: it stops at a short page or when no cursor comes back.  The call
    after the listed ones fails, so every behaviour of the endpoint is such a list,
    except full pages without end. *)
Fixpoint fetch_pages (calls : list (option Z -> option string -> option Page)) (startLedger : Z) (cursor : option string) : option (list Event) :=
  let more := match cursor with Some c => truthy_string c | None => false end in
  match calls with
  | [] => None
  | call :: calls =>
      match call (if more then None else Some startLedger) cursor with
      | None => None
      | Some page =>
          if (Z.of_nat (length (pg_events page)) <? 200) || negb (match pg_cursor page with Some c => truthy_string c | None => false end)
          then Some (pg_events page)
          else app (pg_events page) <$> fetch_pages calls startLedger (pg_cursor page)
      end
  end.

Definition verify_events (orders : list OrderRow) (events : list Event) : list CacheMismatch * Z :=
  let byOrderId := index_by (fun o => default "" (o_srcOrderId o)) (List.filter (fun o => bool_decide (is_Some (o_srcOrderId o))) orders) in
  scan (soroban_event (index_by lock_key orders) byOrderId) events.

Definition verifySoroban (p : SorobanProbe) (orders : list OrderRow) : list CacheMismatch * Z :=
  match getLatestLedger p with
  | None => ([], 0)
  | Some latest =>
      match fetch_pages (getEvents p) (Z.max 0 (latest - SOROBAN_VERIFY_LOOKBACK)) None with
      | None => ([], 0)
      | Some events => verify_events orders events
      end
  end.

(** ** A run *)

Record VerifierConfig : Type := mkVerifierConfig { htlcEscrow : bool; htlcContract : bool }.

Fixpoint find_all (ids : list string) : Repo (list OrderRow) :=
  match ids with
  | [] => mret []
  | id :: ids => o ← findByPublicId id; rest ← find_all ids; mret (match o with Some o => o :: rest | None => rest end)
  end.

Definition selectSample (targetOrderIds : list string) (sampleSize : Z) : Repo (list OrderRow) :=
  match targetOrderIds with [] => findNonTerminalSample sampleSize | ids => find_all ids end.

Definition on_chain (c : Chain) (orders : list OrderRow) : list OrderRow := List.filter (fun o => bool_decide (o_srcChain o = c)) orders.

Definition verify_sample (now : Z) (cfg : VerifierConfig) (eth : EthProbe) (sor : SorobanProbe) (orders : list OrderRow) : list CacheMismatch * Z :=
  let ethOrders := on_chain ethereum orders in
  let stellarOrders := on_chain stellar orders in
  let '(m1, n1) := if htlcEscrow cfg && (0 <? Z.of_nat (length ethOrders)) then verifyEthereum now eth ethOrders else ([], 0) in
  let '(m2, n2) := if htlcContract cfg && (0 <? Z.of_nat (length stellarOrders)) then verifySoroban sor stellarOrders else ([], 0) in
  (m1 ++ m2, n1 + n2).

Definition run (now : Z) (cfg : VerifierConfig) (eth : EthProbe) (sor : SorobanProbe) (targetOrderIds : list string) (sampleSize : option Z)
    (d : Db) : CacheVerificationStatus * Db :=
  match selectSample targetOrderIds (default 50 sampleSize) d with
  | (Throw _, d) => (mkStatus (Some false) (Some now) 0 [] false 0, d)
  | (Ok [], d) => (mkStatus (Some true) (Some now) 0 [] true 0, d)
  | (Ok orders, d) =>
      let '(ms, n) := verify_sample now cfg eth sor orders in
      (mkStatus (Some true) (Some now) (Z.of_nat (length orders)) ms (bool_decide (length ms = 0%nat)) n, d)
  end.
End Soroban.

(** ** What the events of a chain say of an order *)

Record Evidence : Type := mkEvidence {
  locked : string -> Prop;
  claimed : string -> Prop;
  was_refunded : string -> Prop
}.

(** [strict]: a lock without an event counts, once it is old enough. *)
Definition discrepancy (strict : bool) (now : Z) (e : Evidence) (t : MismatchType) (o : OrderRow) : Prop :=
  match t with
  | src_lock_unexpected => o_status o = announced /\ locked e (lock_key o)
  | src_lock_missing => strict = true /\ o_status o = src_locked /\ old_enough now o = true /\ ~ locked e (lock_key o)
  | claimed_missing => preimage_absent o = true /\ exists id, o_srcOrderId o = Some id /\ claimed e id
  | refunded_missing => o_status o ∉ [refunded; completed; failed] /\ exists id, o_srcOrderId o = Some id /\ was_refunded e id
  | status_stale => False
  end.

Definition eth_evidence (createdLogs claimedLogs refundedLogs : list Log) : Evidence := {|
  locked h := exists g l, g ∈ createdLogs /\ lg_hashlock g = Some l /\ toLowerCase l = h;
  claimed id := exists g n, g ∈ claimedLogs /\ lg_orderId g = Some n /\ pretty n = id;
  was_refunded id := exists g n, g ∈ refundedLogs /\ lg_orderId g = Some n /\ pretty n = id
|}.

(** The part of it that the truthiness tests of the verifier let through. *)
Definition eth_visible (createdLogs claimedLogs refundedLogs : list Log) : Evidence := {|
  locked h := exists g l, g ∈ createdLogs /\ lg_hashlock g = Some l /\ l <> "" /\ toLowerCase l = h;
  claimed id := exists g n, g ∈ claimedLogs /\ lg_orderId g = Some n /\ n <> 0 /\ pretty n = id;
  was_refunded id := exists g n, g ∈ refundedLogs /\ lg_orderId g = Some n /\ n <> 0 /\ pretty n = id
|}.

(** The order has a hashlock, and its id on the source chain is not zero. *)
Definition visible (o : OrderRow) : Prop := o_hashlock o <> "" /\ o_srcOrderId o <> Some "0".

Definition soroban_evidence {S : StellarSdk} (events : list Event) : Evidence :=
  let of_kind (k : string) (ev : Event) ts := ev ∈ events /\ native_topics (ev_topic ev) = Ok (JString k :: ts) in
  let by_id (k : string) (id : string) :=
    exists ev ts n data, of_kind k ev ts /\ scValToNative (ev_value ev) = Ok (JArray (JBigInt n :: data)) /\ pretty n = id in
  {| locked h := exists ev ts b, of_kind "created" ev ts /\ (JString "created" :: ts) !! 3%nat = Some (JBytes b) /\
                                 toLowerCase ("0x" +:+ hex_encode b) = h;
     claimed := by_id "claimed";
     was_refunded := by_id "refunded" |}.

(** The orders of a chain can be told apart. *)
Definition distinct (orders : list OrderRow) : Prop :=
  NoDup (lock_key <$> orders) /\ NoDup (o_publicId <$> orders) /\ NoDup (omap o_srcOrderId orders).

(** The report names the order with the kind of mismatch. *)
Definition reported (ms : list CacheMismatch) (t : MismatchType) (o : OrderRow) : Prop :=
  exists m, m ∈ ms /\ cm_publicId m = o_publicId o /\ mismatchType m = t.

(** ** Facts *)

Lemma toLowerCase_idem s : toLowerCase (toLowerCase s) = toLowerCase s.
Proof.
  induction s as [|c s IH]; [done|]. cbn. rewrite IH. f_equal. clear. destruct c as [[] [] [] [] [] [] [] []]; reflexivity.
Qed.

Lemma NoDup_fmap_eq {A B} (f : A -> B) l x y : NoDup (f <$> l) -> x ∈ l -> y ∈ l -> f x = f y -> x = y.
Proof.
  induction l as [|a l IH]; [by intros _ ?%not_elem_of_nil|]. rewrite fmap_cons, NoDup_cons, !elem_of_cons, list_elem_of_fmap.
  intros [Ha Hl] [->|Hx] [->|Hy] E; [done|destruct Ha; eauto..|by apply IH].
Qed.

Lemma index_by_ok (key : OrderRow -> string) orders m : jm_ok m -> jm_ok (foldl (fun m o => jm_set (key o) o m) m orders).
Proof. revert m. induction orders as [|o orders IH]; [done|]. intros m Hm. cbn. apply IH. auto. Qed.

Lemma index_by_get key orders k o :
  NoDup (key <$> orders) -> jm_get k (index_by key orders) = Some o <-> o ∈ orders /\ key o = k.
Proof.
  unfold index_by. intros Hd. enough (forall m, (forall k, k ∈ jm_keys m -> k ∉ key <$> orders) ->
    jm_get k (foldl (fun m o => jm_set (key o) o m) m orders) = Some o <-> jm_get k m = Some o \/ (o ∈ orders /\ key o = k)) as H.
  { rewrite H; [naive_solver|]. by intros k' ?%not_elem_of_nil. }
  induction orders as [|a orders IH]; intros m Hm; cbn.
  { rewrite elem_of_nil. naive_solver. }
  apply NoDup_cons in Hd as [Ha Hd]. rewrite IH, elem_of_cons; [|done|].
  - assert (jm_get (key a) m = None) as Hn. { apply jm_get_None. intros Hin. apply (Hm _ Hin). cbn. by left. }
    destruct (decide (k = key a)) as [->|Hne].
    + rewrite jm_get_set, Hn. split; [naive_solver|]. intros [?|[[->|Ho] E]]; [done|by left|].
      destruct Ha. rewrite <- E. by apply list_elem_of_fmap_2.
    + rewrite (jm_get_set_ne k (key a)) by done. naive_solver.
  - intros k' Hk'. rewrite jm_keys_set in Hk'. destruct (jm_has (key a) m) eqn:E; [specialize (Hm _ Hk'); cbn in Hm; set_solver|].
    apply elem_of_app in Hk' as [Hk'|Hk']; [specialize (Hm _ Hk'); cbn in Hm; set_solver|]. apply list_elem_of_singleton in Hk' as ->. done.
Qed.

Lemma index_by_entries key orders k o :
  NoDup (key <$> orders) -> (k, o) ∈ index_by key orders <-> o ∈ orders /\ key o = k.
Proof. intros Hd. rewrite <- (index_by_get key) by done. rewrite jm_get_in by (by apply index_by_ok). done. Qed.

Lemma elem_of_scan {A} (f : A -> list CacheMismatch * Z) l m : m ∈ (scan f l).1 <-> exists a, a ∈ l /\ m ∈ (f a).1.
Proof.
  induction l as [|a l IH]; cbn.
  { setoid_rewrite elem_of_nil. naive_solver. }
  destruct (f a) as [x n] eqn:E, (scan f l) as [xs ns]. cbn in *. rewrite elem_of_app, IH. setoid_rewrite elem_of_cons. split.
  - intros [H|(b & H1 & H2)]; [exists a; rewrite E; auto|exists b; auto].
  - intros (b & [->|H1] & H2); [left; by rewrite E in H2|right; eauto].
Qed.

Lemma reported_scan {A} (f : A -> list CacheMismatch * Z) l t o :
  reported (scan f l).1 t o <-> exists a, a ∈ l /\ reported (f a).1 t o.
Proof. unfold reported. setoid_rewrite elem_of_scan. naive_solver. Qed.

Lemma reported_app x y t o : reported (x ++ y) t o <-> reported x t o \/ reported y t o.
Proof. unfold reported. setoid_rewrite elem_of_app. naive_solver. Qed.

Lemma reported_nil t o : reported [] t o <-> False.
Proof. unfold reported. setoid_rewrite elem_of_nil. naive_solver. Qed.

Lemma reported_one o' c t' d t o : reported [mismatch o' c t' d] t o <-> o_publicId o' = o_publicId o /\ t' = t.
Proof. unfold reported. setoid_rewrite list_elem_of_singleton. naive_solver. Qed.

Section Exact.
Context (orders : list OrderRow) (Hd : distinct orders).

Lemma lock_found h o : jm_get h (index_by lock_key orders) = Some o <-> o ∈ orders /\ lock_key o = h.
Proof. apply index_by_get, Hd. Qed.

Lemma same_order o o' : o ∈ orders -> o' ∈ orders -> o_publicId o = o_publicId o' -> o = o'.
Proof. destruct Hd as (_ & Hp & _). by apply NoDup_fmap_eq. Qed.

Lemma same_srcOrderId o o' id :
  o ∈ orders -> o' ∈ orders -> o_srcOrderId o = Some id -> o_srcOrderId o' = Some id -> o = o'.
Proof.
  destruct Hd as (_ & _ & Hi). revert Hi. generalize orders as l. induction l as [|a l IH]; [by intros _ ?%not_elem_of_nil|].
  rewrite !elem_of_cons. cbn. intros Hn [->|H] [->|H'] E E'; [done| | |].
  - rewrite E in Hn. apply NoDup_cons in Hn as [Hn _]. destruct Hn. apply list_elem_of_omap. eauto.
  - rewrite E' in Hn. apply NoDup_cons in Hn as [Hn _]. destruct Hn. apply list_elem_of_omap. eauto.
  - apply IH; try done. destruct (o_srcOrderId a); [by apply NoDup_cons in Hn as [_ Hn]|done].
Qed.

Lemma id_found id o : by_srcOrderId orders id = Some o <-> o ∈ orders /\ o_srcOrderId o = Some id.
Proof.
  unfold by_srcOrderId. split.
  - intros [H1 H2]%List.find_some. apply bool_decide_eq_true in H2. by rewrite list_elem_of_In.
  - intros [H1 H2]. destruct (List.find _ orders) as [o'|] eqn:E.
    + apply List.find_some in E as [H3 H4]. apply bool_decide_eq_true in H4. f_equal. eapply same_srcOrderId; try done. by apply list_elem_of_In.
    + apply list_elem_of_In in H1. apply (List.find_none _ _ E) in H1. by rewrite bool_decide_eq_false in H1.
Qed.

Context (o : OrderRow) (Ho : o ∈ orders).

(** What a lookup followed by a test reports of [o]. *)
Lemma reported_lookup (found : option OrderRow) (P : OrderRow -> Prop) (test : OrderRow -> bool) c t' d t :
  (forall o', found = Some o' <-> o' ∈ orders /\ P o') ->
  reported (match found with Some o' => if test o' then ([mismatch o' c t' (d o')], 0) else ([], 0) | None => ([], 0) end).1 t o <->
  t = t' /\ P o /\ test o = true.
Proof.
  intros Hf. destruct found as [o'|].
  - destruct (Hf o') as [[Ho' HP] _]; [done|]. destruct (test o') eqn:Et; cbn [fst].
    + rewrite reported_one. split.
      * intros [E <-]. apply same_order in E; [|done..]. by subst.
      * intros (-> & HPo & _). assert (Some o' = Some o) as [= ->] by (by apply Hf). done.
    + rewrite reported_nil. split; [done|]. intros (_ & HPo & H). assert (Some o' = Some o) as [= ->] by (by apply Hf). congruence.
  - cbn. rewrite reported_nil. split; [done|]. intros (_ & HPo & _). by assert (None = Some o) by (by apply Hf).
Qed.

Lemma reported_created g t :
  reported (created_log (index_by lock_key orders) g).1 t o <->
  t = src_lock_unexpected /\ (exists l, lg_hashlock g = Some l /\ l <> "" /\ toLowerCase l = lock_key o) /\ o_status o = announced.
Proof.
  unfold created_log. destruct (lg_hashlock g) as [h|]; [|cbn; rewrite reported_nil; naive_solver].
  unfold truthy_string. destruct (String.eqb_spec h "") as [->|Hh]; cbn [negb]; [cbn; rewrite reported_nil; naive_solver|].
  rewrite (reported_lookup _ (fun o' => lock_key o' = toLowerCase h)) by (intros; by apply lock_found).
  rewrite bool_decide_eq_true. naive_solver.
Qed.

Lemma reported_by_id (f : OrderRow -> bool) g t' c (d : Z -> OrderRow -> string) t :
  reported (match log_orderId g with
            | None => ([], 1)
            | Some id => match by_srcOrderId orders (pretty id) with
                         | Some o' => if f o' then ([mismatch o' c t' (d id o')], 0) else ([], 0)
                         | None => ([], 0) end end).1 t o <->
  t = t' /\ (exists n, lg_orderId g = Some n /\ n <> 0 /\ o_srcOrderId o = Some (pretty n)) /\ f o = true.
Proof.
  assert (forall n, log_orderId g = Some n <-> lg_orderId g = Some n /\ n <> 0) as Hl.
  { intros n. unfold log_orderId. destruct (lg_orderId g) as [[]|]; naive_solver. }
  destruct (log_orderId g) as [n|] eqn:E.
  - rewrite (reported_lookup _ (fun o' => o_srcOrderId o' = Some (pretty n))) by (intros; by apply id_found).
    destruct (Hl n) as [[En Hn] _]; [done|]. rewrite En. naive_solver.
  - cbn. rewrite reported_nil. split; [done|]. intros (_ & (n & H1 & H2 & _) & _). by assert (@None Z = Some n) by (by apply Hl).
Qed.

Lemma reported_missing now onChain t :
  (forall o', o' ∈ orders -> o_srcChain o' = ethereum) ->
  reported (scan (missing_lock now onChain) (index_by lock_key orders)).1 t o <->
  t = src_lock_missing /\ o_status o = src_locked /\ lock_key o ∉ onChain /\ old_enough now o = true.
Proof.
  intros Hc. rewrite reported_scan. split.
  - intros ([hl o'] & Hin & H). apply index_by_entries in Hin as [Ho' <-]; [|apply Hd]. cbn in H.
    rewrite bool_decide_eq_true_2 in H by auto. cbn [negb] in H. destruct (_ && _) eqn:E; [|by apply reported_nil in H].
    apply reported_one in H as [Hp <-]. apply same_order in Hp; [|done..]. subst o'.
    rewrite !andb_true_iff, negb_true_iff, bool_decide_eq_true, bool_decide_eq_false in E. tauto.
  - intros (-> & Hs & Hn & Ha). exists (lock_key o, o). split; [by apply index_by_entries; [apply Hd|]|]. cbn.
    rewrite (bool_decide_eq_true_2 (o_srcChain o = ethereum)) by auto. cbn [negb].
    rewrite (bool_decide_eq_true_2 (o_status o = src_locked)), (bool_decide_eq_false_2 (_ ∈ _)), Ha by done. by apply reported_one.
Qed.
End Exact.

Lemma elem_of_createdHashlocks logs h :
  h ∈ createdHashlocks logs <-> exists g l, g ∈ logs /\ lg_hashlock g = Some l /\ l <> "" /\ toLowerCase l = h.
Proof.
  unfold createdHashlocks. rewrite list_elem_of_omap. split.
  - intros (g & Hg & E). destruct (lg_hashlock g) as [l|] eqn:El; [|done]. unfold truthy_string in E.
    destruct (String.eqb_spec l "") as [->|Hl]; [done|]. cbn in E. injection E as <-. by exists g, l.
  - intros (g & l & Hg & El & Hl & <-). exists g. split; [done|]. rewrite El. unfold truthy_string.
    destruct (String.eqb_spec l ""); done.
Qed.

(** Every mismatch is about one of the orders. *)
Definition about (orders : list OrderRow) (f : list CacheMismatch) : Prop :=
  forall m, m ∈ f -> exists o, o ∈ orders /\ cm_hashlock m = o_hashlock o /\ cm_publicId m = o_publicId o.

Lemma about_nil orders : about orders [].
Proof. by intros m ?%not_elem_of_nil. Qed.
Lemma about_one orders o c t d : o ∈ orders -> about orders [mismatch o c t d].
Proof. intros Ho m ->%list_elem_of_singleton. by exists o. Qed.
Lemma about_app orders x y : about orders x -> about orders y -> about orders (x ++ y).
Proof. intros Hx Hy m [?|?]%elem_of_app; auto. Qed.
Lemma about_scan {A} orders (f : A -> list CacheMismatch * Z) l : (forall a, a ∈ l -> about orders (f a).1) -> about orders (scan f l).1.
Proof. intros H m (a & Ha & Hm)%elem_of_scan. by eapply H. Qed.
#[local] Hint Resolve about_nil about_one about_app : about.

Lemma verify_logs_about now orders cr cl rf :
  distinct orders ->
  about orders ((scan (created_log (index_by lock_key orders)) cr).1 ++
    (scan (missing_lock now (createdHashlocks cr)) (index_by lock_key orders)).1 ++
    (scan (claimed_log orders) cl).1 ++ (scan (refunded_log orders) rf).1).
Proof.
  intros Hd. repeat apply about_app; apply about_scan.
  - intros g _. unfold created_log. destruct (lg_hashlock g) as [h|]; [|auto with about]. destruct (truthy_string h); [|auto with about].
    destruct (jm_get _ _) as [o'|] eqn:E; [|auto with about]. apply lock_found in E as [? _]; [|done]. destruct (bool_decide _); cbn; auto with about.
  - intros [hl o'] [Hin _]%index_by_entries; [|apply Hd]. cbn. destruct (negb _); [|destruct (_ && _)]; cbn; auto with about.
  - intros g _. unfold claimed_log. destruct (log_orderId g) as [n|]; [|auto with about].
    destruct (by_srcOrderId _ _) as [o'|] eqn:E; [|auto with about]. apply id_found in E as [? _]; [|done]. destruct (preimage_absent o'); cbn; auto with about.
  - intros g _. unfold refunded_log. destruct (log_orderId g) as [n|]; [|auto with about].
    destruct (by_srcOrderId _ _) as [o'|] eqn:E; [|auto with about]. apply id_found in E as [? _]; [|done]. destruct (unsettled o'); cbn; auto with about.
Qed.

(** The last filter of the source keeps everything. *)
Lemma filter_about orders ms :
  distinct orders -> about orders ms ->
  List.filter (fun m => existsb (fun hl => String.eqb (toLowerCase hl) (toLowerCase (cm_hashlock m))) (jm_keys (index_by lock_key orders))) ms = ms.
Proof.
  intros Hd. induction ms as [|m ms IH]; intros Ha; [done|]. cbn [List.filter].
  assert (existsb (fun hl => String.eqb (toLowerCase hl) (toLowerCase (cm_hashlock m))) (jm_keys (index_by lock_key orders)) = true) as ->.
  { destruct (Ha m) as (o & Ho & -> & _); [by left|]. apply List.existsb_exists. exists (lock_key o). split.
    - apply list_elem_of_In. unfold jm_keys. apply list_elem_of_fmap. exists (lock_key o, o). split; [done|]. by apply index_by_entries; [apply Hd|].
    - apply String.eqb_eq, toLowerCase_idem. }
  f_equal. apply IH. intros m' Hm'. apply Ha. by right.
Qed.

Lemma unsettled_iff o : unsettled o = true <-> o_status o ∉ [refunded; completed; failed].
Proof. unfold unsettled. by rewrite negb_true_iff, bool_decide_eq_false. Qed.

Lemma verify_logs_exact now orders cr cl rf t o :
  distinct orders -> (forall o', o' ∈ orders -> o_srcChain o' = ethereum) -> o ∈ orders ->
  reported (verify_logs now orders cr cl rf).1 t o <-> discrepancy true now (eth_visible cr cl rf) t o.
Proof.
  intros Hd Hc Ho. pose proof (filter_about orders _ Hd (verify_logs_about now orders cr cl rf Hd)) as Hf.
  pose proof (reported_missing orders Hd o Ho now (createdHashlocks cr) t Hc) as H2. rewrite elem_of_createdHashlocks in H2.
  pose proof (reported_scan (created_log (index_by lock_key orders)) cr t o) as H1. setoid_rewrite reported_created in H1; [|done..].
  pose proof (reported_scan (claimed_log orders) cl t o) as H3. unfold claimed_log in H3 at 2. setoid_rewrite reported_by_id in H3; [|done..].
  pose proof (reported_scan (refunded_log orders) rf t o) as H4. unfold refunded_log in H4 at 2. setoid_rewrite reported_by_id in H4; [|done..].
  setoid_rewrite unsettled_iff in H4. unfold verify_logs. revert Hf H1 H2 H3 H4.
  destruct (scan _ cr) as [m1 n1], (scan _ (index_by _ _)) as [m2 n2], (scan _ cl) as [m3 n3], (scan _ rf) as [m4 n4].
  cbn [fst]. intros -> H1 H2 H3 H4. rewrite !reported_app, H1, H2, H3, H4. clear. destruct t; cbn; naive_solver.
Qed.

Lemma visible_id {A} (P : A -> Z -> Prop) o id :
  visible o -> o_srcOrderId o = Some id ->
  (exists g n, P g n /\ n <> 0 /\ pretty n = id) <-> (exists g n, P g n /\ pretty n = id).
Proof.
  intros [_ Hz] E. split; [naive_solver|]. intros (g & n & HP & Hn). exists g, n. split_and!; [done| |done].
  intros ->. apply Hz. rewrite E, <- Hn. reflexivity.
Qed.

Lemma visible_all now cr cl rf t o :
  visible o -> discrepancy true now (eth_visible cr cl rf) t o <-> discrepancy true now (eth_evidence cr cl rf) t o.
Proof.
  intros Hv. assert (locked (eth_visible cr cl rf) (lock_key o) <-> locked (eth_evidence cr cl rf) (lock_key o)) as Hl.
  { split; [cbn; naive_solver|]. intros (g & l & Hg & El & Hk). exists g, l. split_and!; [done..| |done].
    intros ->. apply (proj1 Hv). unfold lock_key in Hk. by destruct (o_hashlock o). }
  assert (forall (logs : list Log) id, o_srcOrderId o = Some id ->
    (exists g n, g ∈ logs /\ lg_orderId g = Some n /\ n <> 0 /\ pretty n = id) <->
    (exists g n, g ∈ logs /\ lg_orderId g = Some n /\ pretty n = id)) as Hi.
  { intros logs id Ei. pose proof (visible_id (fun g n => g ∈ logs /\ lg_orderId g = Some n) o id Hv Ei). naive_solver. }
  destruct t; cbn [discrepancy]; [by rewrite Hl..| | |done]; cbn; naive_solver.
Qed.

Definition id_index (orders : list OrderRow) : list (string * OrderRow) :=
  index_by (fun o => default "" (o_srcOrderId o)) (List.filter (fun o => bool_decide (is_Some (o_srcOrderId o))) orders).

Lemma id_index_get orders id o :
  distinct orders -> jm_get id (id_index orders) = Some o <-> o ∈ orders /\ o_srcOrderId o = Some id.
Proof.
  intros (_ & _ & Hi). unfold id_index. rewrite index_by_get.
  - rewrite list_elem_of_In, List.filter_In, <- list_elem_of_In, bool_decide_eq_true. split.
    + intros ([Ho [x Hx]] & <-). rewrite Hx. done.
    + intros [Ho E]. rewrite E. split; [split; [done|eauto]|done].
  - enough ((fun o => default "" (o_srcOrderId o)) <$> List.filter (fun o => bool_decide (is_Some (o_srcOrderId o))) orders = omap o_srcOrderId orders) as -> by done.
    clear. induction orders as [|a l IH]; [done|]. cbn [List.filter]. destruct (o_srcOrderId a) as [x|] eqn:E.
    + rewrite bool_decide_eq_true_2 by eauto. cbn. rewrite E. cbn. by f_equal.
    + rewrite bool_decide_eq_false_2 by (by intros []). cbn. by rewrite E.
Qed.

Section SorobanExact.
Context {S : StellarSdk} (orders : list OrderRow) (Hd : distinct orders) (o : OrderRow) (Ho : o ∈ orders).

Lemma value_orderId_iff v id :
  value_orderId v = Some (Some id) <-> exists n data, scValToNative v = Ok (JArray (JBigInt n :: data)) /\ pretty n = id.
Proof.
  unfold value_orderId. destruct (scValToNative v) as [[| | | |[|[] l]|]|m]; naive_solver.
Qed.

Lemma reported_by_value (f : OrderRow -> bool) v t' c (d : string -> OrderRow -> string) t :
  reported (match value_orderId v with
            | None => ([], 0)
            | Some None => ([], 1)
            | Some (Some id) => match jm_get id (id_index orders) with
                                | Some o' => if f o' then ([mismatch o' c t' (d id o')], 0) else ([], 0)
                                | None => ([], 0) end end).1 t o <->
  t = t' /\ (exists n data, scValToNative v = Ok (JArray (JBigInt n :: data)) /\ o_srcOrderId o = Some (pretty n)) /\ f o = true.
Proof.
  pose proof (value_orderId_iff v) as Hv. destruct (value_orderId v) as [[id|]|].
  - rewrite (reported_lookup orders Hd o Ho _ (fun o' => o_srcOrderId o' = Some id)) by (intros; by apply id_index_get).
    destruct (Hv id) as [(n & data & Hn & <-) _]; [done|]. rewrite Hn. naive_solver.
  - cbn. rewrite reported_nil. split; [done|]. intros (_ & (n & data & Hn & _) & _). destruct (Hv (pretty n)) as [_ H]. by discriminate H; eauto.
  - cbn. rewrite reported_nil. split; [done|]. intros (_ & (n & data & Hn & _) & _). destruct (Hv (pretty n)) as [_ H]. by discriminate H; eauto.
Qed.

Lemma reported_event ev t :
  reported (soroban_event (index_by lock_key orders) (id_index orders) ev).1 t o <->
  exists k ts, native_topics (ev_topic ev) = Ok (JString k :: ts) /\
    ((k = "created" /\ t = src_lock_unexpected /\ o_status o = announced /\
      exists b, (JString k :: ts) !! 3%nat = Some (JBytes b) /\ toLowerCase ("0x" +:+ hex_encode b) = lock_key o) \/
     (k = "claimed" /\ t = claimed_missing /\ preimage_absent o = true /\
      exists n data, scValToNative (ev_value ev) = Ok (JArray (JBigInt n :: data)) /\ o_srcOrderId o = Some (pretty n)) \/
     (k = "refunded" /\ t = refunded_missing /\ o_status o ∉ [refunded; completed; failed] /\
      exists n data, scValToNative (ev_value ev) = Ok (JArray (JBigInt n :: data)) /\ o_srcOrderId o = Some (pretty n))).
Proof.
  unfold soroban_event. destruct (native_topics (ev_topic ev)) as [[|kind ts]|m];
    [cbn; rewrite reported_nil; naive_solver| |cbn; rewrite reported_nil; naive_solver].
  destruct kind as [k| | | | |]; cbn [String.eqb]; try (cbn; rewrite reported_nil; naive_solver).
  destruct (String.eqb_spec k "created") as [->|H1].
  - unfold lock_topic. destruct ((JString "created" :: ts) !! 3%nat) as [[|b| | | |]|] eqn:E;
      try (cbn [fst]; rewrite reported_nil; split; [done|]; intros (k' & ts' & Hk & [(_ & _ & _ & b' & Hb & _)|[(-> & _)|(-> & _)]]); [|done..]; injection Hk as <- <-; congruence).
    rewrite (reported_lookup orders Hd o Ho _ (fun o' => lock_key o' = toLowerCase ("0x" +:+ hex_encode b))) by (intros; by apply lock_found).
    rewrite bool_decide_eq_true. split.
    + intros (-> & HP & Hs). exists "created", ts. split; [done|]. left. split_and!; [done..|]. exists b. done.
    + intros (? & ? & [= <- <-] & [(_ & -> & Hs & b' & Hb & HP)|[(? & _)|(? & _)]]); [|done..]. rewrite E in Hb. injection Hb as <-. done.
  - destruct (String.eqb_spec k "claimed") as [->|H2]; [rewrite reported_by_value; naive_solver|].
    destruct (String.eqb_spec k "refunded") as [->|H3]; [rewrite reported_by_value, unsettled_iff; naive_solver|].
    cbn. rewrite reported_nil. naive_solver.
Qed.

Lemma verify_events_exact now events t :
  reported (verify_events orders events).1 t o <-> discrepancy false now (soroban_evidence events) t o.
Proof.
  unfold verify_events. fold (id_index orders). rewrite reported_scan. setoid_rewrite reported_event.
  unfold discrepancy, soroban_evidence. cbn. destruct t; cbn; naive_solver.
Qed.
End SorobanExact.

Section Run.
Context {S : StellarSdk}.

Lemma verify_events_about orders events : distinct orders -> about orders (verify_events orders events).1.
Proof.
  intros Hd. unfold verify_events. fold (id_index orders). apply about_scan. intros ev _. unfold soroban_event.
  destruct (native_topics _) as [[|kind ts]|m]; [auto with about| |auto with about].
  destruct (String.eqb _ "created").
  - destruct (lock_topic _) as [h|]; [|auto with about]. destruct (jm_get _ _) as [o'|] eqn:E; [|auto with about].
    apply lock_found in E as [? _]; [|done]. destruct (bool_decide _); cbn; auto with about.
  - destruct (String.eqb _ "claimed"); [|destruct (String.eqb _ "refunded"); [|auto with about]];
      (destruct (value_orderId _) as [[id|]|]; [|auto with about..]; destruct (jm_get _ _) as [o'|] eqn:E; [|auto with about];
       apply id_index_get in E as [? _]; [|done]; destruct (_ o'); cbn; auto with about).
Qed.

(** What the endpoints answered in a run, if they did. *)
Definition eth_answer (p : EthProbe) : option (list Log * list Log * list Log) :=
  latest ← getBlockNumber p; getLogs p (if ETH_VERIFY_LOOKBACK <? latest then latest - ETH_VERIFY_LOOKBACK else 0) latest.
Definition soroban_answer (p : SorobanProbe) : option (list Event) :=
  latest ← getLatestLedger p; fetch_pages (getEvents p) (Z.max 0 (latest - SOROBAN_VERIFY_LOOKBACK)) None.

(** What the chains say against an order of the sample. *)
Definition out_of_line (now : Z) (cfg : VerifierConfig) (logs : list Log * list Log * list Log) (events : list Event)
    (t : MismatchType) (o : OrderRow) : Prop :=
  match o_srcChain o with
  | ethereum => htlcEscrow cfg = true /\ discrepancy true now (eth_evidence logs.1.1 logs.1.2 logs.2) t o
  | stellar => htlcContract cfg = true /\ discrepancy false now (soroban_evidence events) t o
  | solana => False
  end.

Lemma elem_of_on_chain c orders o : o ∈ on_chain c orders <-> o ∈ orders /\ o_srcChain o = c.
Proof. unfold on_chain. by rewrite list_elem_of_In, List.filter_In, <- list_elem_of_In, bool_decide_eq_true. Qed.

Lemma on_chain_nonempty c orders o : o ∈ on_chain c orders -> (0 <? Z.of_nat (length (on_chain c orders))) = true.
Proof. intros H. destruct (on_chain c orders); [by apply not_elem_of_nil in H|]. done. Qed.

Lemma about_reported orders ms m : about orders ms -> m ∈ ms -> exists o, o ∈ orders /\ reported ms (mismatchType m) o.
Proof. intros Ha Hm. destruct (Ha m Hm) as (o & Ho & _ & Hp). exists o. split; [done|]. by exists m. Qed.

Context (now : Z) (cfg : VerifierConfig) (eth : EthProbe) (sor : SorobanProbe) (orders : list OrderRow).
Context (logs : list Log * list Log * list Log) (events : list Event).
Context (Hp : NoDup (o_publicId <$> orders)) (Hc : forall c, distinct (on_chain c orders)).
Context (Hv : Forall visible (on_chain ethereum orders)).
Context (He : eth_answer eth = Some logs) (Hs : soroban_answer sor = Some events).

Lemma not_reported_elsewhere c ms t o : about (on_chain c orders) ms -> o ∈ orders -> o_srcChain o <> c -> ~ reported ms t o.
Proof.
  intros Ha Ho Hne (m & Hm & E & _). destruct (Ha m Hm) as (o' & [Ho' Hc']%elem_of_on_chain & _ & E').
  assert (o' = o) as -> by (eapply NoDup_fmap_eq; [exact Hp|done|done|congruence]). done.
Qed.

(** The two halves of a run. *)
Definition eth_part : list CacheMismatch * Z :=
  if htlcEscrow cfg && (0 <? Z.of_nat (length (on_chain ethereum orders))) then verifyEthereum now eth (on_chain ethereum orders) else ([], 0).
Definition soroban_part : list CacheMismatch * Z :=
  if htlcContract cfg && (0 <? Z.of_nat (length (on_chain stellar orders))) then verifySoroban sor (on_chain stellar orders) else ([], 0).

Lemma verifyEthereum_eq l : verifyEthereum now eth l = verify_logs now l logs.1.1 logs.1.2 logs.2.
Proof.
  unfold eth_answer in He. unfold verifyEthereum. destruct (getBlockNumber eth) as [latest|]; [|done]. cbn in He. rewrite He. by destruct logs as [[? ?] ?].
Qed.

Lemma verifySoroban_eq l : verifySoroban sor l = verify_events l events.
Proof. unfold soroban_answer in Hs. unfold verifySoroban. destruct (getLatestLedger sor) as [latest|]; [|done]. cbn in Hs. by rewrite Hs. Qed.

Lemma parts_about : about (on_chain ethereum orders) eth_part.1 /\ about (on_chain stellar orders) soroban_part.1.
Proof.
  unfold eth_part, soroban_part. rewrite verifyEthereum_eq, verifySoroban_eq. split.
  - destruct (_ && _); [|auto with about]. pose proof (verify_logs_about now _ logs.1.1 logs.1.2 logs.2 (Hc ethereum)) as Ha.
    pose proof (filter_about _ _ (Hc ethereum) Ha) as Hf. unfold verify_logs. revert Ha Hf.
    destruct (scan _ logs.1.1), (scan _ (index_by _ _)), (scan _ logs.1.2), (scan _ logs.2). cbn [fst]. by intros Ha ->.
  - destruct (_ && _); [|auto with about]. by apply verify_events_about.
Qed.

Lemma parts_exact t o : o ∈ orders -> reported (eth_part.1 ++ soroban_part.1) t o <-> out_of_line now cfg logs events t o.
Proof.
  intros Ho. destruct parts_about as [A1 A2]. rewrite reported_app. unfold out_of_line.
  pose proof (not_reported_elsewhere ethereum _ t o A1 Ho) as N1. pose proof (not_reported_elsewhere stellar _ t o A2 Ho) as N2.
  destruct (o_srcChain o) eqn:E.
  - specialize (N2 ltac:(done)). assert (o ∈ on_chain ethereum orders) as Hi by (by apply elem_of_on_chain).
    enough (reported eth_part.1 t o <-> htlcEscrow cfg = true /\ discrepancy true now (eth_evidence logs.1.1 logs.1.2 logs.2) t o) by tauto.
    unfold eth_part. rewrite (on_chain_nonempty _ _ _ Hi), verifyEthereum_eq. destruct (htlcEscrow cfg); cbn [andb].
    + rewrite verify_logs_exact, visible_all; [naive_solver| |done| |done]; [|by intros o' [_ H]%elem_of_on_chain].
      by eapply (Forall_forall visible) in Hv.
    + cbn. rewrite reported_nil. naive_solver.
  - specialize (N1 ltac:(done)). assert (o ∈ on_chain stellar orders) as Hi by (by apply elem_of_on_chain).
    enough (reported soroban_part.1 t o <-> htlcContract cfg = true /\ discrepancy false now (soroban_evidence events) t o) by tauto.
    unfold soroban_part. rewrite (on_chain_nonempty _ _ _ Hi), verifySoroban_eq. destruct (htlcContract cfg); cbn [andb].
    + rewrite (verify_events_exact _ (Hc stellar) _ Hi now). naive_solver.
    + cbn. rewrite reported_nil. naive_solver.
  - specialize (N1 ltac:(done)). specialize (N2 ltac:(done)). tauto.
Qed.

Lemma aligned_iff :
  eth_part.1 ++ soroban_part.1 = [] <-> forall o t, o ∈ orders -> ~ out_of_line now cfg logs events t o.
Proof.
  split.
  - intros E o t Ho H. apply parts_exact in H; [|done]. rewrite E in H. by apply reported_nil in H.
  - intros H. destruct (_ ++ _) as [|m ms] eqn:E; [done|]. exfalso.
    assert (about orders (eth_part.1 ++ soroban_part.1)) as Ha.
    { destruct parts_about as [A1 A2]. intros m' [Hm|Hm]%elem_of_app; [apply A1 in Hm|apply A2 in Hm];
        destruct Hm as (o & [Ho _]%elem_of_on_chain & Hr); by exists o. }
    destruct (about_reported orders _ m Ha) as (o & Ho & Hr); [rewrite E; by left|]. apply parts_exact in Hr; [|done]. by eapply H.
Qed.
End Run.

Lemma find_all_reads ids d : (find_all ids d).2 = d.
Proof.
  revert d. induction ids as [|id ids IH]; [done|]. intros d. specialize (IH d). cbn. unfold mbind, st_bind. cbn.
  destruct (find_all ids d) as [[rest|e] d']; cbn in *; by subst.
Qed.

Lemma selectSample_reads ids n d : (selectSample ids n d).2 = d.
Proof. destruct ids; [done|]. unfold selectSample. apply find_all_reads. Qed.

(** C29.  A verification pass changes nothing in the database.  When both
    endpoints answer, it reports of the sampled orders exactly what is
    contradicted by the logs of the last 7,200 blocks and by the events of the
    last 17,280 ledgers: a lock there of an order that is only announced, an
    order source-locked, not updated for more than five minutes, whose lock
    those Ethereum logs do not show, a claim there without a stored preimage, a refund there of an order that is
    not refunded, completed or failed; and it calls the cache aligned when and
    only when there is nothing of that kind.  This is for samples whose orders
    can be told apart - no public id twice, and on a chain no hashlock (letter
    case aside) and no source id twice - and whose Ethereum orders have a
    hashlock and a source id other than 0, for 0 is taken as absent. *)
Theorem cache_verifier_exact {S : StellarSdk} (now : Z) (cfg : VerifierConfig) (eth : EthProbe) (sor : SorobanProbe)
    (ids : list string) (n : option Z) (d : Db) (orders : list OrderRow) (logs : list Log * list Log * list Log) (events : list Event) :
  (selectSample ids (default 50 n) d).1 = Ok orders ->
  NoDup (o_publicId <$> orders) -> (forall c, distinct (on_chain c orders)) -> Forall visible (on_chain ethereum orders) ->
  eth_answer eth = Some logs -> soroban_answer sor = Some events ->
  let '(s, d') := run now cfg eth sor ids n d in
  d' = d /\ lastRunOk s = Some true /\
  (forall o t, o ∈ orders -> reported (mismatches s) t o <-> out_of_line now cfg logs events t o) /\
  (aligned s = true <-> forall o t, o ∈ orders -> ~ out_of_line now cfg logs events t o).
Proof.
  intros Ho Hp Hc Hv He Hs. pose proof (selectSample_reads ids (default 50 n) d) as Hd. unfold run.
  destruct (selectSample _ _ d) as [[os|e] d']; [|done]. cbn in Ho, Hd. injection Ho as ->. subst d'.
  pose proof (parts_exact now cfg eth sor orders logs events Hp Hc Hv He Hs) as Hx.
  pose proof (aligned_iff now cfg eth sor orders logs events Hp Hc Hv He Hs) as Ha.
  destruct orders as [|o0 os] eqn:E.
  - split_and!; [done..| |]; cbn; [by intros o t ?%not_elem_of_nil|]. split; [by intros _ o t ?%not_elem_of_nil|done].
  - rewrite <- E in *. unfold verify_sample. fold (eth_part now cfg eth orders) (soroban_part cfg sor orders).
    revert Hx Ha. destruct (eth_part _ _ _ _) as [m1 n1], (soroban_part _ _ _) as [m2 n2]. cbn [fst]. intros Hx Ha.
    split_and!; [done..| |]; cbn [mismatches aligned]; [by intros o t; apply Hx|].
    rewrite bool_decide_eq_true, length_zero_iff_nil. exact Ha.
Qed.

(** ** Scenarios *)

Definition native_sdk : StellarSdk := {| ScVal := JsValue; scValToNative := Ok; xdr_digest := fun _ => None |}.

Definition demo_input (src dst : Chain) (dir : Direction) (h : string) : AnnounceOrderInput :=
  mkAnnounceOrderInput dir h src "A" "native" "10" "0" dst "B" "native" "20".

(** An order on Ethereum whose lock was missed, and one on Stellar in line. *)
Definition demo_db : Db :=
  with_orders emptyDb [insertRow 1 "p1" (demo_input ethereum stellar eth_to_xlm "0xAA") 0; insertRow 2 "p2" (demo_input stellar ethereum xlm_to_eth "0xBB") 0].
Definition demo_orders : list OrderRow := rowToOrder <$> orders demo_db.
Definition demo_logs : list Log * list Log * list Log := ([mkLog (Some "0xaa") (Some 7)], [], []).
Definition demo_eth : EthProbe := mkEthProbe (Some 9000) (fun _ _ => Some demo_logs).
Definition demo_soroban : @SorobanProbe native_sdk := @mkSorobanProbe native_sdk (Some 50) [fun _ _ => Some (@mkPage native_sdk [] None)].
Definition demo_config : VerifierConfig := mkVerifierConfig true true.

Lemma demo_distinct c : distinct (on_chain c demo_orders).
Proof. destruct c; split_and!; vm_compute; repeat constructor; by intros ?%not_elem_of_nil. Qed.

Lemma cache_verifier_exact_witness :
  let s := (@run native_sdk 1000000 demo_config demo_eth demo_soroban [] None demo_db).1 in
  aligned s = false /\ mismatchType <$> mismatches s = [src_lock_unexpected] /\
  forall o t, o ∈ demo_orders -> reported (mismatches s) t o <-> @out_of_line native_sdk 1000000 demo_config demo_logs [] t o.
Proof.
  split; [by vm_compute|]. split; [by vm_compute|].
  apply (@cache_verifier_exact native_sdk 1000000 demo_config demo_eth demo_soroban [] None demo_db demo_orders demo_logs []).
  - by vm_compute.
  - vm_compute. repeat constructor; set_solver.
  - apply demo_distinct.
  - vm_compute. by repeat constructor.
  - reflexivity.
  - reflexivity.
Defined.

(** An endpoint that cannot be reached is skipped: the pass is successful and the
    cache is called aligned, whatever the chain says. *)
Example outage_reported_aligned :
  let s := (@run native_sdk 1000000 demo_config (mkEthProbe None (fun _ _ => None)) demo_soroban [] None demo_db).1 in
  lastRunOk s = Some true /\ aligned s = true.
Proof. by vm_compute. Qed.

(** A sample size of zero, documented as a dry run without chain queries, checks
    an order. *)
Example zero_sample_checks_one :
  let s := (@run native_sdk 1000000 demo_config demo_eth demo_soroban [] (Some 0) demo_db).1 in
  cv_sampleSize s = 1.
Proof. by vm_compute. Qed.

(** A claim of the Ethereum order number zero counts as an incomplete event. *)
Example order_zero_incomplete : claimed_log demo_orders (mkLog None (Some 0)) = ([], 1).
Proof. reflexivity. Qed.

(** An old lock that has left the window of blocks that is queried is reported
    missing. *)
Definition windowed_eth (latest : Z) : EthProbe :=
  mkEthProbe (Some latest) (fun fromBlock _ => Some (if fromBlock <=? 100 then [mkLog (Some "0xaa") (Some 7)] else [], [], [])).

Example old_lock_reported_missing :
  let d := (recordSrcLock 0 (mkLockInput "p1" "7" "0xtx" 100 500000 None None) demo_db).2 in
  let report latest := mismatchType <$> mismatches (@run native_sdk 90000000 demo_config (windowed_eth latest) demo_soroban [] None d).1 in
  report 7300 = [] /\ report 7301 = [src_lock_missing].
Proof. by vm_compute. Qed.
