(* ===== verification/RelayerPolling.v ===== *)
(** * The relayer's pollers

    relayer/src/utils/adaptive-poll.ts (the loop every poller runs in),
    utils/cursor-store.ts, utils/retry-policy.ts and
    listeners/contract-event-poller.ts.  A poller is a state machine between its
    awaits: timers fire, ticks wait for the head of the chain and for the logs of
    one event after the other, and the process may restart at any moment.  What
    the RPC endpoint answers after its retries is an input ([None] when the
    retries are used up), and so are the random numbers of the jitter and whether
    orders are active and visitors present.  Handlers are recorded when they are
    called; a handler that throws is only logged. *)

From S2P Require Import Prelude JsMap XlmAmounts.
From Stdlib Require Import QArith Qround Lqa.
#[local] Open Scope Z_scope.

(** ** Retries (utils/retry-policy.ts) *)

Definition calculateDelay (random : Q) (attempt : nat) (baseMs maxMs : Z) (jitterFactor : Q) : Z :=
  let exponential := Z.min maxMs (baseMs * 2 ^ Z.of_nat attempt) in
  Z.max 0 (Math_round (inject_Z exponential + jitterFactor * inject_Z exponential * (random - (1 # 2)))%Q).

Section Retry.
Context {W A E : Type} (fn : W -> outcome E A * W) (sleep : Z -> W -> W) (random : W -> Q) (baseDelayMs maxDelayMs : Z) (jitterFactor : Q).

(** [retries] more tries after this one. *)
Fixpoint withRetry (retries attempt : nat) (w : W) : outcome E A * W :=
  match fn w with
  | (Ok v, w) => (Ok v, w)
  | (Throw e, w) =>
      match retries with
      | O => (Throw e, w)
      | S retries => withRetry retries (S attempt) (sleep (calculateDelay (random w) attempt baseDelayMs maxDelayMs jitterFactor) w)
      end
  end.
End Retry.

(** ** The loop (utils/adaptive-poll.ts) *)

Record PollOptions : Type := mkPollOptions { activeIntervalMs : Z; idleIntervalMs : Z; maxBackoffMs : Z }.
Definition poll_options (active : Z) (idle backoff : option Z) : PollOptions :=
  mkPollOptions active (default 120000 idle) (default 30000 backoff).

(** Pending timeouts by number; [p_timer] is the variable that holds one. *)
Record Poll : Type := mkPoll {
  p_stopped : bool;
  p_timers : list (nat * Z);
  p_timer : option nat;
  p_next : nat;
  p_running : bool;
  p_failures : Z
}.

Definition calculateBackoff (o : PollOptions) (random : Q) (failures : Z) : Z :=
  if failures =? 0 then 0
  else
    let delay := Z.min (maxBackoffMs o) (1000 * 2 ^ (failures - 1)) in
    Math_round (inject_Z delay + (1 # 5) * inject_Z delay * (random - (1 # 2)))%Q.

Definition schedule (delayMs : Z) (p : Poll) : Poll :=
  if p_stopped p then p
  else mkPoll false (p_timers p ++ [(p_next p, delayMs)]) (Some (p_next p)) (S (p_next p)) (p_running p) (p_failures p).

Definition drop_timer (id : nat) (l : list (nat * Z)) : list (nat * Z) := List.filter (fun t => negb (Nat.eqb t.1 id)) l.

Definition clear_timer (p : Poll) : Poll :=
  match p_timer p with
  | Some id => mkPoll (p_stopped p) (drop_timer id (p_timers p)) (p_timer p) (p_next p) (p_running p) (p_failures p)
  | None => p
  end.

Definition startAdaptivePoll : Poll := schedule 0 (mkPoll false [] None 0 false 0).

Definition poll_stop (p : Poll) : Poll :=
  clear_timer (mkPoll true (p_timers p) (p_timer p) (p_next p) (p_running p) (p_failures p)).

Definition poll_wake (p : Poll) : Poll :=
  if p_stopped p || p_running p then p
  else
    let p := clear_timer p in
    schedule 0 (mkPoll (p_stopped p) (p_timers p) (p_timer p) (p_next p) (p_running p) 0).

(** The [finally] of a run. *)
Definition end_run (o : PollOptions) (random : Q) (active attentive : bool) (p : Poll) : Poll :=
  let p := mkPoll (p_stopped p) (p_timers p) (p_timer p) (p_next p) false (p_failures p) in
  if 0 <? p_failures p then schedule (calculateBackoff o random (p_failures p)) p
  else schedule (if active || attentive then activeIntervalMs o else idleIntervalMs o) p.

(** A timeout fires; the answer says whether a tick starts. *)
Definition poll_fire (o : PollOptions) (random : Q) (active attentive : bool) (id : nat) (p : Poll) : bool * Poll :=
  if existsb (fun t => Nat.eqb t.1 id) (p_timers p) then
    let p := mkPoll (p_stopped p) (drop_timer id (p_timers p)) (p_timer p) (p_next p) (p_running p) (p_failures p) in
    if p_stopped p || p_running p then (false, p)
    else
      let p := mkPoll (p_stopped p) (p_timers p) (p_timer p) (p_next p) true (p_failures p) in
      if active then (true, p) else (false, end_run o random active attentive p)
  else (false, p).

(** The tick has settled; its run was an active one. *)
Definition poll_settle (o : PollOptions) (random : Q) (ok : bool) (p : Poll) : Poll :=
  end_run o random true false
    (mkPoll (p_stopped p) (p_timers p) (p_timer p) (p_next p) (p_running p) (if ok then 0 else p_failures p + 1)).

(** One run at a time: a live loop is either in a tick or waits for one timeout,
    which [wake] and [stop] can cancel. *)
Definition poll_ok (p : Poll) : Prop :=
  if p_stopped p then p_timers p = []
  else if p_running p then p_timers p = []
  else exists id d, p_timers p = [(id, d)] /\ p_timer p = Some id.

Lemma drop_timer_one id d : drop_timer id [(id, d)] = [].
Proof. unfold drop_timer. cbn. by rewrite Nat.eqb_refl. Qed.

Lemma schedule_ok d p : p_timers p = [] -> p_running p = false -> poll_ok (schedule d p).
Proof.
  intros Ht Hr. unfold schedule, poll_ok. destruct (p_stopped p) eqn:Es; [by rewrite Es|]. cbn. rewrite Hr, Ht. cbn. eauto.
Qed.

Lemma end_run_ok o r a t p : p_timers p = [] -> poll_ok (end_run o r a t p).
Proof. intros Ht. unfold end_run. cbn [p_failures]. destruct (0 <? _); by apply schedule_ok. Qed.

Lemma start_poll_ok : poll_ok startAdaptivePoll.
Proof. by apply schedule_ok. Qed.

Lemma poll_stop_ok p : poll_ok p -> poll_ok (poll_stop p).
Proof.
  unfold poll_ok, poll_stop, clear_timer. cbn [p_timer p_timers p_stopped]. destruct (p_stopped p) eqn:Es; [intros ->; by destruct (p_timer p)|].
  destruct (p_running p) eqn:Er; [intros ->; by destruct (p_timer p)|]. intros (id & d & -> & ->). cbn. by rewrite Nat.eqb_refl.
Qed.

Lemma poll_wake_ok p : poll_ok p -> poll_ok (poll_wake p).
Proof.
  intros H. unfold poll_wake. destruct (p_stopped p) eqn:Es; [done|]. destruct (p_running p) eqn:Er; [done|]. cbn [orb].
  unfold poll_ok in H. rewrite Es, Er in H. destruct H as (id & d & Ht & Hi). unfold clear_timer. rewrite Hi. apply schedule_ok; [|done].
  cbn. by rewrite Ht, drop_timer_one.
Qed.

Lemma poll_fire_ok o r a t id p :
  poll_ok p -> let '(b, p') := poll_fire o r a t id p in poll_ok p' /\ (b = true -> p_running p = false /\ p_running p' = true /\ p_stopped p' = p_stopped p).
Proof.
  intros H. unfold poll_fire. destruct (existsb _ (p_timers p)) eqn:Ex; [|done].
  assert (p_stopped p = false /\ p_running p = false /\ drop_timer id (p_timers p) = []) as (Es & Er & Ed).
  { unfold poll_ok in H. destruct (p_stopped p); [by rewrite H in Ex|]. destruct (p_running p); [by rewrite H in Ex|].
    destruct H as (id' & d & Ht & _). rewrite Ht in Ex |- *. cbn in Ex. rewrite orb_false_r in Ex. apply Nat.eqb_eq in Ex as ->. by rewrite drop_timer_one. }
  cbn [p_stopped p_running p_timers]. rewrite Es, Er, Ed. cbn [orb]. destruct a; [done|]. split; [|done]. by apply end_run_ok.
Qed.

Lemma poll_settle_ok o r ok p : poll_ok p -> p_running p = true -> poll_ok (poll_settle o r ok p).
Proof.
  intros H Hr. apply end_run_ok. cbn. unfold poll_ok in H. rewrite Hr in H. by destruct (p_stopped p).
Qed.

(** A delay is positive and exceeds the cap by at most a tenth. *)
Lemma backoff_bounds o r n :
  (0 <= r <= 1)%Q -> 0 < n -> 2 <= maxBackoffMs o ->
  0 < calculateBackoff o r n /\ (inject_Z (calculateBackoff o r n) <= inject_Z (maxBackoffMs o) * (11 # 10) + (1 # 2))%Q.
Proof.
  intros [Hr0 Hr] Hn Hm. unfold calculateBackoff. destruct (Z.eqb_spec n 0); [lia|]. set (d := Z.min _ _).
  assert (2 <= d <= maxBackoffMs o) as [Hd1 Hd2].
  { unfold d. split; [|lia]. apply Z.min_glb; [done|]. assert (1 <= 2 ^ (n - 1)) by (apply (Z.pow_le_mono_r 2 0); lia). lia. }
  rewrite Zle_Qle in Hd1, Hd2. change (inject_Z 2) with 2%Q in Hd1. clearbody d.
  assert (0 <= inject_Z d * r)%Q by nra. assert (0 <= inject_Z d * (1 - r))%Q by nra. split.
  - apply Z.lt_le_trans with (m := Qfloor 1%Q); [done|]. unfold Math_round. apply Qfloor_resp_le. lra.
  - unfold Math_round. eapply Qle_trans; [apply Qfloor_le|]. lra.
Qed.

(** ** The cursor of a poller (utils/cursor-store.ts)

    The cache, and the file of the label's path: unreadable, or a record with the
    label it was written for, since labels may share a path. *)

Record CursorStore : Type := mkCursorStore { cs_cache : option Z; cs_file : option (option (string * Z)) }.

(** [save]: the cache is set even when the write throws. *)
Definition store_save (written : bool) (label : string) (cursor : Z) (s : CursorStore) : CursorStore :=
  mkCursorStore (Some cursor) (if written then Some (Some (label, cursor)) else cs_file s).

Definition store_load (label : string) (s : CursorStore) : option Z * CursorStore :=
  match cs_cache s with
  | Some c => (Some c, s)
  | None =>
      match cs_file s with
      | Some (Some (l, c)) => if String.eqb l label then (Some c, mkCursorStore (Some c) (cs_file s)) else (None, s)
      | _ => (None, s)
      end
  end.

(** ** Contract events (listeners/contract-event-poller.ts) *)

(** A log of the chain; [lg_args] when it was decoded with arguments. *)
Record Log : Type := mkLog { lg_event : string; lg_block : Z; lg_index : Z; lg_args : bool }.

Inductive Stage : Type :=
| Unstarted
| AwaitStart
| Waiting
| AwaitHead
| AwaitLogs (fromBlock toBlock : Z) (event : string) (rest : list string)
| Failed.

Record Poller : Type := mkPoller {
  pl_poll : Poll;
  pl_last : Z;
  pl_isPolling : bool;
  pl_stage : Stage;
  pl_store : CursorStore;
  pl_handled : list Log;
  pl_windows : list (Z * Z)
}.

Section Poller.
Context (opts : PollOptions) (label : string) (maxWindow : Z) (startBlock : option Z).
(** The names of the bindings, and which of them the contract's ABI knows. *)
Context (bindings : list string) (known : string -> bool).

Definition with_poll (f : Poll -> Poll) (p : Poller) : Poller :=
  mkPoller (f (pl_poll p)) (pl_last p) (pl_isPolling p) (pl_stage p) (pl_store p) (pl_handled p) (pl_windows p).
Definition with_stage (b : bool) (s : Stage) (p : Poller) : Poller :=
  mkPoller (pl_poll p) (pl_last p) b s (pl_store p) (pl_handled p) (pl_windows p).

(** The cursor is known: the loop starts. *)
Definition begin_polling (last : Z) (p : Poller) : Poller :=
  mkPoller startAdaptivePoll last false Waiting (pl_store p) (pl_handled p) (pl_windows p).

Definition startContractEventPoller (p : Poller) : Poller :=
  if maxWindow <=? 0 then with_stage (pl_isPolling p) Failed p
  else
    let '(persisted, s) := store_load label (pl_store p) in
    let p := mkPoller (pl_poll p) (pl_last p) (pl_isPolling p) (pl_stage p) s (pl_handled p) (pl_windows p) in
    match persisted, startBlock with
    | Some c, _ => begin_polling c p
    | None, Some b => begin_polling b p
    | None, None => with_stage false AwaitStart p
    end.

Definition persistCursor (written : bool) (block : Z) (p : Poller) : Poller :=
  mkPoller (pl_poll p) block (pl_isPolling p) (pl_stage p) (store_save written label block (pl_store p)) (pl_handled p) (pl_windows p).

(** A tick never rejects: it catches its errors. *)
Definition tick_end (random : Q) (p : Poller) : Poller := with_poll (poll_settle opts random true) (with_stage false Waiting p).

(** The next binding, skipping events the contract does not know. *)
Fixpoint next_binding (random : Q) (written : bool) (fromBlock toBlock : Z) (rest : list string) (p : Poller) : Poller :=
  match rest with
  | [] => tick_end random (persistCursor written toBlock p)
  | e :: rest => if known e then with_stage true (AwaitLogs fromBlock toBlock e rest) p else next_binding random written fromBlock toBlock rest p
  end.

Definition tick (random : Q) (p : Poller) : Poller :=
  if pl_isPolling p then with_poll (poll_settle opts random true) p else with_stage true AwaitHead p.

Definition on_head (random : Q) (written : bool) (head : Z) (p : Poller) : Poller :=
  if head <=? pl_last p then tick_end random p
  else
    let fromBlock := pl_last p + 1 in
    let toBlock := Z.min head (fromBlock + maxWindow - 1) in
    if toBlock <? fromBlock then tick_end random p
    else
      next_binding random written fromBlock toBlock bindings
        (mkPoller (pl_poll p) (pl_last p) (pl_isPolling p) (pl_stage p) (pl_store p) (pl_handled p) (pl_windows p ++ [(fromBlock, toBlock)])).

Definition handle (logs : list Log) (p : Poller) : Poller :=
  mkPoller (pl_poll p) (pl_last p) (pl_isPolling p) (pl_stage p) (pl_store p) (pl_handled p ++ List.filter lg_args logs) (pl_windows p).

Inductive Event : Type :=
| ETimer (id : nat) (random : Q) (active attentive : bool)
| EHead (answer : option Z) (random : Q) (written : bool)
| ELogs (answer : option (list Log)) (random : Q) (written : bool)
| EWake
| EStop
| EForeign (file : option (option (string * Z)))
| EReboot.

Definition step (p : Poller) (e : Event) : Poller :=
  match e, pl_stage p with
  | ETimer id r a t, (Waiting | AwaitHead | AwaitLogs _ _ _ _) =>
      let '(starts, poll) := poll_fire opts r a t id (pl_poll p) in
      let p := with_poll (fun _ => poll) p in if starts then tick r p else p
  | EHead (Some h) _ _, AwaitStart => begin_polling h p
  | EHead None _ _, AwaitStart => with_stage false Failed p
  | EHead (Some h) r w, AwaitHead => on_head r w h p
  | EHead None r _, AwaitHead => tick_end r p
  | ELogs (Some logs) r w, AwaitLogs f t ev rest => next_binding r w f t rest (handle logs p)
  | ELogs None r _, AwaitLogs _ _ _ _ => tick_end r p
  | EWake, (Waiting | AwaitHead | AwaitLogs _ _ _ _) => with_poll poll_wake p
  | EStop, (Waiting | AwaitHead | AwaitLogs _ _ _ _) => with_poll poll_stop p
  | EForeign file, _ => mkPoller (pl_poll p) (pl_last p) (pl_isPolling p) (pl_stage p) (mkCursorStore (cs_cache (pl_store p)) file) (pl_handled p) (pl_windows p)
  | EReboot, _ =>
      startContractEventPoller (mkPoller startAdaptivePoll 0 false Unstarted (mkCursorStore None (cs_file (pl_store p))) (pl_handled p) (pl_windows p))
  | _, _ => p
  end.

Definition boot (file : option (option (string * Z))) : Poller :=
  startContractEventPoller (mkPoller startAdaptivePoll 0 false Unstarted (mkCursorStore None file) [] []).
Definition run (es : list Event) : Poller := foldl step (boot None) es.
End Poller.

Lemma poll_settle_running o r ok p : p_running (poll_settle o r ok p) = false.
Proof. unfold poll_settle, end_run. cbn. destruct (0 <? _); unfold schedule; cbn; by destruct (p_stopped p). Qed.

#[local] Arguments poll_settle : simpl never.
#[local] Arguments poll_ok : simpl never.
#[local] Arguments poll_fire : simpl never.
#[local] Arguments poll_wake : simpl never.
#[local] Arguments poll_stop : simpl never.
#[local] Arguments startAdaptivePoll : simpl never.

(** ** What the poller guarantees *)

Section Spec.
Context (opts : PollOptions) (label : string) (maxWindow : Z) (startBlock : option Z) (bindings : list string) (known : string -> bool).
(** The logs of the chain, and the blocks at which listening began. *)
Context (chain : list Log) (anchor : Z -> Prop).

#[local] Notation step := (step opts label maxWindow startBlock bindings known).
#[local] Notation run := (run opts label maxWindow startBlock bindings known).

(** A log some binding waits for. *)
Definition wanted (g : Log) : Prop := g ∈ chain /\ lg_event g ∈ bindings /\ known (lg_event g) = true /\ lg_args g = true.

Definition covered (p : Poller) (c : Z) : Prop :=
  exists a, anchor a /\ a <= c /\ forall g, wanted g -> a < lg_block g <= c -> g ∈ pl_handled p.

(** The endpoint returns every log of the event and range it was asked for; the
    other writers of the cursor file use other labels. *)
Definition event_ok (p : Poller) (e : Event) : Prop :=
  match e, pl_stage p with
  | EHead (Some h) _ _, AwaitStart => anchor h
  | ELogs (Some logs) _ _, AwaitLogs f t ev _ => forall g, g ∈ chain -> lg_event g = ev -> f <= lg_block g <= t -> g ∈ logs
  | EForeign (Some (Some (l, _))), _ => l <> label
  | _, _ => True
  end.

Fixpoint valid (p : Poller) (es : list Event) : Prop :=
  match es with [] => True | e :: es => event_ok p e /\ valid (step p e) es end.

Definition awaiting (s : Stage) : bool := match s with AwaitHead | AwaitLogs _ _ _ _ => true | _ => false end.
Definition live (s : Stage) : bool := match s with Waiting | AwaitHead | AwaitLogs _ _ _ _ => true | _ => false end.

(** What is left to ask of a window. *)
Definition todo (p : Poller) (f t : Z) (names : list string) : Prop :=
  forall g, wanted g -> f <= lg_block g <= t -> g ∈ pl_handled p \/ lg_event g ∈ names.

Definition window_ok (w : Z * Z) : Prop := w.1 <= w.2 < w.1 + maxWindow.

Record data_ok (p : Poller) : Prop := mkDataOk {
  ok_cache : forall c, cs_cache (pl_store p) = Some c -> covered p c;
  ok_file : forall c, cs_file (pl_store p) = Some (Some (label, c)) -> covered p c;
  ok_windows : Forall window_ok (pl_windows p)
}.

Record inv (p : Poller) : Prop := mkInv {
  inv_data : data_ok p;
  inv_last : live (pl_stage p) = true -> covered p (pl_last p);
  inv_poll : live (pl_stage p) = true -> poll_ok (pl_poll p) /\ p_running (pl_poll p) = awaiting (pl_stage p) /\ pl_isPolling p = awaiting (pl_stage p);
  inv_logs : forall f t ev rest, pl_stage p = AwaitLogs f t ev rest -> f = pl_last p + 1 /\ f <= t /\ todo p f t (ev :: rest)
}.

Lemma poll_covered_more p p' c : (forall g, g ∈ pl_handled p -> g ∈ pl_handled p') -> covered p c -> covered p' c.
Proof. intros Hh (a & Ha & Hle & H). exists a. split_and!; [done..|]. eauto. Qed.

(** A window handled to its end moves what is covered. *)
Lemma covered_window p f t : covered p (f - 1) -> f <= t -> todo p f t [] -> covered p t.
Proof.
  intros (a & Ha & Hle & H) Hft Ht. exists a. split_and!; [done|lia|]. intros g Hg Hb.
  destruct (Z.lt_ge_cases (lg_block g) f); [apply H; [done|lia]|]. destruct (Ht g Hg ltac:(lia)) as [?|?%not_elem_of_nil]; done.
Qed.

(** Steps that leave the data alone. *)
Lemma data_ok_same p p' :
  pl_store p' = pl_store p -> pl_handled p' = pl_handled p -> pl_windows p' = pl_windows p -> data_ok p -> data_ok p'.
Proof.
  intros Es Eh Ew [Hc Hf Hw]. assert (forall c, covered p c -> covered p' c) as Hm by (intros c; apply poll_covered_more; rewrite Eh; done).
  split; [rewrite Es; eauto..|by rewrite Ew].
Qed.

Lemma poll_tick_end_inv r p :
  data_ok p -> covered p (pl_last p) -> poll_ok (pl_poll p) -> p_running (pl_poll p) = true -> inv (tick_end opts r p).
Proof.
  intros Hd Hl Hp Hr. split; cbn.
  - by apply (data_ok_same p).
  - intros _. revert Hl. by apply poll_covered_more.
  - intros _. split_and!; [by apply poll_settle_ok|apply poll_settle_running|done].
  - done.
Qed.

Lemma next_binding_inv r w f t rest p :
  data_ok p -> covered p (pl_last p) -> poll_ok (pl_poll p) -> p_running (pl_poll p) = true ->
  f = pl_last p + 1 -> f <= t -> todo p f t rest -> inv (next_binding opts label known r w f t rest p).
Proof.
  intros Hd Hl Hp Hr Hf Hft. induction rest as [|e rest IH]; intros Ht; cbn.
  - assert (covered p t) as Hc by (apply (covered_window p f); [subst f; by replace (pl_last p + 1 - 1) with (pl_last p) by lia|done|done]).
    apply poll_tick_end_inv; try done. split; cbn.
    + intros c [= <-]. revert Hc. by apply poll_covered_more.
    + destruct w; [intros c [= <-]; revert Hc; by apply poll_covered_more|]. intros c H. apply (ok_file _ Hd) in H. revert H. by apply poll_covered_more.
    + apply Hd.
  - destruct (known e) eqn:Ek.
    + split; cbn; [by apply (data_ok_same p)| |done|].
      * intros _. revert Hl. by apply poll_covered_more.
      * intros ???? [= <- <- <- <-]. done.
    + apply IH. intros g Hg Hb. destruct (Ht g Hg Hb) as [?|[E|?]%elem_of_cons]; [by left| |by right].
      destruct Hg as (_ & _ & Hk & _). congruence.
Qed.

Lemma poll_start_inv p :
  data_ok p -> (forall b, startBlock = Some b -> anchor b) -> live (pl_stage p) = false -> inv (startContractEventPoller label maxWindow startBlock p).
Proof.
  intros Hd Hb Hs. unfold startContractEventPoller. destruct (maxWindow <=? 0). { split; cbn; try done. by apply (data_ok_same p). }
  assert (forall c s, store_load label (pl_store p) = (c, s) -> (forall c', c = Some c' -> covered p c') /\
    (forall c', cs_cache s = Some c' -> covered p c') /\ cs_file s = cs_file (pl_store p)) as Hload.
  { intros c s. unfold store_load. destruct (cs_cache (pl_store p)) as [x|] eqn:Ec.
    - intros [= <- <-]. split_and!; [|by apply Hd|done]. intros ? [= <-]. by apply (ok_cache _ Hd).
    - destruct (cs_file (pl_store p)) as [[[l x]|]|] eqn:Ef; [|intros [= <- <-]; by rewrite Ec, Ef..].
      destruct (String.eqb_spec l label) as [->|]; [|intros [= <- <-]; by rewrite Ec, Ef]. intros [= <- <-].
      split_and!; [|cbn|done]; intros ? [= <-]; by apply (ok_file _ Hd). }
  destruct (store_load _ _) as [c s]. destruct (Hload c s eq_refl) as (H1 & H2 & H3). clear Hload.
  assert (forall st b q, data_ok (mkPoller q b (pl_isPolling p) st s (pl_handled p) (pl_windows p))) as Hd'.
  { intros st b q. split; cbn; [intros c' Hc'; apply H2 in Hc'; revert Hc'; by apply poll_covered_more| |apply Hd].
    rewrite H3. intros c' Hc'. apply (ok_file _ Hd) in Hc'. revert Hc'. by apply poll_covered_more. }
  destruct c as [c|]; [|destruct startBlock as [b|]].
  - split; cbn; [by eapply data_ok_same; [..|apply (Hd' Waiting 0 startAdaptivePoll)]|intros _; specialize (H1 c eq_refl); revert H1; by apply poll_covered_more| |done].
    intros _. split_and!; [apply start_poll_ok|done..].
  - split; cbn; [by eapply data_ok_same; [..|apply (Hd' Waiting 0 startAdaptivePoll)]| | |done].
    + intros _. exists b. split_and!; [auto|lia|]. intros; lia.
    + intros _. split_and!; [apply start_poll_ok|done..].
  - split; cbn; try done. by eapply data_ok_same; [..|apply (Hd' AwaitStart 0 startAdaptivePoll)].
Qed.

(** Steps of the loop that are not a tick. *)
Lemma with_poll_inv f p :
  inv p -> (poll_ok (pl_poll p) -> poll_ok (f (pl_poll p))) -> p_running (f (pl_poll p)) = p_running (pl_poll p) -> inv (with_poll f p).
Proof.
  intros [Hd Hl Hp Hg] Hf Hr. split; cbn.
  - by apply (data_ok_same p).
  - intros Hv. specialize (Hl Hv). revert Hl. by apply poll_covered_more.
  - intros Hv. destruct (Hp Hv) as (H1 & H2 & H3). rewrite Hr. auto.
  - done.
Qed.

Lemma poll_wake_running q : p_running (poll_wake q) = p_running q.
Proof.
  unfold poll_wake. destruct (p_stopped q) eqn:Es; [done|]. destruct (p_running q) eqn:Er; [done|]. cbn. unfold clear_timer, schedule.
  destruct (p_timer q); cbn; rewrite ?Es; cbn; done.
Qed.

Lemma poll_stop_running q : p_running (poll_stop q) = p_running q.
Proof. unfold poll_stop, clear_timer. cbn. by destruct (p_timer q). Qed.

Lemma poll_fire_running o r a t id q : poll_ok q -> (poll_fire o r a t id q).1 = false -> p_running (poll_fire o r a t id q).2 = p_running q.
Proof.
  intros Hq. unfold poll_fire. destruct (existsb _ _); [|done]. cbn. destruct (p_stopped q) eqn:Es; [done|]. destruct (p_running q) eqn:Er; [done|].
  cbn. destruct a; [done|]. intros _. unfold end_run, schedule. cbn. destruct (0 <? _); by rewrite ?Es.
Qed.

Lemma fire_inv r a t id p : inv p -> live (pl_stage p) = true ->
  inv (let '(starts, poll) := poll_fire opts r a t id (pl_poll p) in
       let p := with_poll (fun _ => poll) p in if starts then tick opts r p else p).
Proof.
  intros Hi Hv. destruct (inv_poll _ Hi Hv) as (Hp & Hr & Hb). pose proof (poll_fire_ok opts r a t id _ Hp) as Hf.
  pose proof (poll_fire_running opts r a t id _ Hp) as Hn. destruct (poll_fire _ _ _ _ _ _) as [[|] q]; cbn in Hn.
  - destruct Hf as [Hq H]. destruct (H eq_refl) as (E & Hq' & _). rewrite Hr in E. rewrite E in Hb. unfold tick. cbn [pl_isPolling with_poll]. rewrite Hb.
    split; cbn; [by apply (data_ok_same p), Hi| |auto|done]. intros _. generalize (inv_last _ Hi Hv). by apply poll_covered_more.
  - apply with_poll_inv; [done|by intros _; apply Hf|auto].
Qed.

Lemma on_head_inv r w h p : inv p -> pl_stage p = AwaitHead -> inv (on_head opts label maxWindow bindings known r w h p).
Proof.
  intros Hi Hs. assert (live (pl_stage p) = true) as Hv by (by rewrite Hs). pose proof (inv_last _ Hi Hv) as Hl.
  destruct (inv_poll _ Hi Hv) as (Hp & Hr & Hb). rewrite Hs in Hr. cbn in Hr. unfold on_head.
  destruct (h <=? pl_last p) eqn:Eh; [apply poll_tick_end_inv; [apply Hi|done..]|].
  destruct (Z.min h (pl_last p + 1 + maxWindow - 1) <? pl_last p + 1) eqn:Et; [apply poll_tick_end_inv; [apply Hi|done..]|].
  apply next_binding_inv; cbn.
  - destruct (inv_data _ Hi) as [Hc Hf Hw]. split; cbn; [intros c Hx; apply Hc in Hx; revert Hx; by apply poll_covered_more|
      intros c Hx; apply Hf in Hx; revert Hx; by apply poll_covered_more|]. apply Forall_app. split; [done|]. constructor; [|done]. unfold window_ok. cbn. lia.
  - revert Hl. by apply poll_covered_more.
  - done.
  - done.
  - done.
  - lia.
  - intros g (_ & Hg & _) _. by right.
Qed.

Lemma logs_inv r w f t ev rest logs p :
  inv p -> pl_stage p = AwaitLogs f t ev rest ->
  (forall g, g ∈ chain -> lg_event g = ev -> f <= lg_block g <= t -> g ∈ logs) ->
  inv (next_binding opts label known r w f t rest (handle logs p)).
Proof.
  intros Hi Hs Ho. assert (live (pl_stage p) = true) as Hv by (by rewrite Hs). pose proof (inv_last _ Hi Hv) as Hl.
  destruct (inv_poll _ Hi Hv) as (Hp & Hr & Hb). rewrite Hs in Hr. cbn in Hr. destruct (inv_logs _ Hi _ _ _ _ Hs) as (Hf & Hft & Ht).
  assert (forall g, g ∈ pl_handled p -> g ∈ pl_handled (handle logs p)) as Hm by (intros g Hg; cbn; apply elem_of_app; by left).
  apply next_binding_inv; try done.
  - destruct (inv_data _ Hi) as [Hc Hff Hw]. split; cbn; [intros c Hx; apply Hc in Hx|intros c Hx; apply Hff in Hx|done]; revert Hx; by apply poll_covered_more.
  - revert Hl. by apply poll_covered_more.
  - intros g Hg Hbl. destruct (Ht g Hg Hbl) as [?|[E|?]%elem_of_cons]; [left; auto| |by right]. left. cbn. apply elem_of_app. right.
    rewrite list_elem_of_In, List.filter_In, <- list_elem_of_In. destruct Hg as (Hg & _ & _ & Ha). split; [by apply Ho|done].
Qed.

Lemma poller_step_inv p e : (forall b, startBlock = Some b -> anchor b) -> inv p -> event_ok p e -> inv (step p e).
Proof.
  intros Hb Hi Ho. destruct e as [id r a t|[h|] r w|[logs|] r w| | |file|]; cbn [RelayerPolling.step]; unfold event_ok in Ho.
  - destruct (pl_stage p) eqn:Es; try done; (apply fire_inv; [done|by rewrite Es]).
  - destruct (pl_stage p) eqn:Es; try done.
    + split; cbn; [by apply (data_ok_same p), Hi| | |done].
      * intros _. exists h. split_and!; [done|lia|]. intros; lia.
      * intros _. split_and!; [apply start_poll_ok|done..].
    + by apply on_head_inv.
  - destruct (pl_stage p) eqn:Es; try done.
    + split; cbn; try done. by apply (data_ok_same p), Hi.
    + destruct (inv_poll _ Hi) as (Hp & Hr & _); [by rewrite Es|]. rewrite Es in Hr. apply poll_tick_end_inv; try done; [apply Hi|]. apply (inv_last _ Hi). by rewrite Es.
  - destruct (pl_stage p) eqn:Es; try done. by eapply logs_inv.
  - destruct (pl_stage p) eqn:Es; try done.
    destruct (inv_poll _ Hi) as (Hp & Hr & _); [by rewrite Es|]. rewrite Es in Hr. apply poll_tick_end_inv; try done; [apply Hi|]. apply (inv_last _ Hi). by rewrite Es.
  - destruct (pl_stage p) eqn:Es; try done; (apply with_poll_inv; [done|apply poll_wake_ok|apply poll_wake_running]).
  - destruct (pl_stage p) eqn:Es; try done; (apply with_poll_inv; [done|apply poll_stop_ok|apply poll_stop_running]).
  - assert (forall c, file = Some (Some (label, c)) -> False) as Hn by (intros c ->; by destruct (pl_stage p)).
    destruct Hi as [[Hc Hf Hw] Hl Hp Hg]. assert (inv (mkPoller (pl_poll p) (pl_last p) (pl_isPolling p) (pl_stage p) (mkCursorStore (cs_cache (pl_store p)) file) (pl_handled p) (pl_windows p))) as H.
    { split; cbn; [split; cbn| |done|done].
      - intros c Hx. apply Hc in Hx. revert Hx. by apply poll_covered_more.
      - intros c Hx. by destruct (Hn c).
      - done.
      - intros Hv. specialize (Hl Hv). revert Hl. by apply poll_covered_more. }
    by destruct (pl_stage p).
  - assert (inv (startContractEventPoller label maxWindow startBlock
        (mkPoller startAdaptivePoll 0 false Unstarted (mkCursorStore None (cs_file (pl_store p))) (pl_handled p) (pl_windows p)))) as H.
    { apply poll_start_inv; [|done|done]. destruct (inv_data _ Hi) as [_ Hf Hw]. split; cbn; [done| |done].
      intros c Hx. apply Hf in Hx. revert Hx. by apply poll_covered_more. }
    by destruct (pl_stage p).
Qed.

Lemma poller_run_inv es : (forall b, startBlock = Some b -> anchor b) -> valid (boot label maxWindow startBlock None) es -> inv (run es).
Proof.
  intros Hb. unfold run. assert (inv (boot label maxWindow startBlock None)) as H0 by (apply poll_start_inv; [by split; cbn|done|done]).
  revert H0. generalize (boot label maxWindow startBlock None). induction es as [|e es IH]; intros p Hp Hv; [done|]. destruct Hv as [He Hv].
  cbn. apply IH; [by apply poller_step_inv|done].
Qed.
End Spec.

(** C40.  The contract event poller loses no event and never stands still.  When
    the endpoint returns every log it is asked for, each log that a binding waits
    for, between a block where listening began and the cursor - the one in use or
    the one in the file -, has been handed to its handler, however calls fail,
    cursor files cannot be written or are overwritten by another poller, and the
    process restarts.  No query spans more than the allowed number of blocks.  And
    a loop that was not stopped is either in a tick or waits for exactly one
    timeout. *)
Theorem poller_misses_nothing (opts : PollOptions) (label : string) (maxWindow : Z) (startBlock : option Z)
    (bindings : list string) (known : string -> bool) (chain : list Log) (anchor : Z -> Prop) (es : list Event) :
  (forall b, startBlock = Some b -> anchor b) ->
  valid opts label maxWindow startBlock bindings known chain anchor (boot label maxWindow startBlock None) es ->
  let p := run opts label maxWindow startBlock bindings known es in
  (forall c, (live (pl_stage p) = true /\ c = pl_last p) \/ cs_file (pl_store p) = Some (Some (label, c)) ->
     exists a, anchor a /\ a <= c /\
       forall g, g ∈ chain -> lg_event g ∈ bindings -> known (lg_event g) = true -> lg_args g = true -> a < lg_block g <= c -> g ∈ pl_handled p) /\
  (forall w, w ∈ pl_windows p -> w.1 <= w.2 < w.1 + maxWindow) /\
  (live (pl_stage p) = true -> p_stopped (pl_poll p) = false ->
     if awaiting (pl_stage p) then p_timers (pl_poll p) = []
     else exists id d, p_timers (pl_poll p) = [(id, d)] /\ p_timer (pl_poll p) = Some id).
Proof.
  intros Hb Hv p. destruct (poller_run_inv opts label maxWindow startBlock bindings known chain anchor es Hb Hv) as [[Hc Hf Hw] Hl Hp Hg].
  fold p in Hc, Hf, Hw, Hl, Hp, Hg. split_and!.
  - intros c Hx. assert (covered bindings known chain anchor p c) as (a & Ha & Hle & H) by (destruct Hx as [[Hx ->]|Hx]; auto).
    exists a. split_and!; [done..|]. intros g H1 H2 H3 H4. by apply H.
  - by apply Forall_forall.
  - intros Hx Hs. destruct (Hp Hx) as (Hq & Hr & _). unfold poll_ok in Hq. rewrite Hs, Hr in Hq. done.
Qed.

(** *** A scenario: two events, a failing query, a restart. *)
Definition demo_options : PollOptions := poll_options 15000 None None.
Definition demo_known (e : string) : bool := negb (String.eqb e "Absent").
Definition demo_chain : list Log := [mkLog "Created" 101 0 true; mkLog "Funded" 102 0 true; mkLog "Created" 103 0 true].
Definition demo_bindings : list string := ["Created"; "Absent"; "Funded"].
Definition half : Q := 1 # 2.

Definition demo_events : list Event :=
  [EHead (Some 100) half true; ETimer 0 half true true; EHead (Some 102) half true; ELogs (Some [mkLog "Created" 101 0 true]) half true;
   ELogs None half true; ETimer 1 half true true; EHead (Some 102) half true; ELogs (Some [mkLog "Created" 101 0 true]) half true;
   ELogs (Some [mkLog "Funded" 102 0 true]) half true; EReboot; ETimer 0 half true true; EHead (Some 110) half true;
   ELogs (Some [mkLog "Created" 103 0 true]) half false; ELogs (Some []) half false].

(** The state is evaluated before each event is looked at. *)
Ltac eval_state :=
  match goal with |- valid _ _ _ _ _ _ _ _ ?p _ => let q := eval vm_compute in p in replace p with q by (vm_compute; reflexivity) end.

Lemma demo_poll_valid :
  valid demo_options "escrow" 5 None demo_bindings demo_known demo_chain (fun a => a = 100) (boot "escrow" 5 None None) demo_events.
Proof.
  unfold demo_events. repeat (eval_state; split; [cbn; try done|]); [..|exact I];
    (intros g Hg He Hb; unfold demo_chain in Hg; rewrite !elem_of_cons in Hg; destruct Hg as [->|[->|[->|?%not_elem_of_nil]]];
     [..|done]; try discriminate He; cbn [lg_block] in Hb; try lia; set_solver).
Qed.

Lemma poller_misses_nothing_witness :
  let p := run demo_options "escrow" 5 None demo_bindings demo_known demo_events in
  (pl_last p = 107 /\ pl_windows p = [(101, 102); (101, 102); (103, 107)] /\ cs_file (pl_store p) = Some (Some ("escrow", 102))) /\
  exists a, a = 100 /\ a <= 107 /\ forall g, g ∈ demo_chain -> lg_event g ∈ demo_bindings -> demo_known (lg_event g) = true -> lg_args g = true ->
    a < lg_block g <= 107 -> g ∈ pl_handled p.
Proof.
  split; [by vm_compute|].
  destruct (poller_misses_nothing demo_options "escrow" 5 None demo_bindings demo_known demo_chain (fun a => a = 100) demo_events) as [H _].
  - intros b [=].
  - apply demo_poll_valid.
  - apply H. left. split; vm_compute; reflexivity.
Defined.
