(* ===== verification/RelayerOrchestrator.v ===== *)
(** * The relayer's chain monitoring

    relayer/src/core/event-orchestrator.ts with utils/order-poll-utils.ts,
    utils/site-presence.ts and listeners/eth-incoming-monitor.ts.  Orders are
    objects of a heap that the map of active orders points to, since handlers keep
    a reference across their awaits.  Each start of the monitoring is a
    generation with its own pair of pollers; a poller runs one tick at a time
    (proved of the loop in [RelayerPolling]) and a tick stops at its awaits, so
    generations, reconciliation, contract events and the routes interleave.

    RPC answers are inputs.  The comparison of two XLM amounts in floating point,
    the safety deposit, keys and contract addresses are parameters or inputs; the
    answer of a retried send says whether the retry engine tries again, at most
    [ETH_SEND_ATTEMPTS] times.  Log lines and metrics are left out. *)

From S2P Require Import Prelude JsMap.

(** ** Order statuses (utils/order-poll-utils.ts) *)

Definition TERMINAL_STATUSES : list string := ["completed"; "cancelled"; "failed"; "refunded"; "expired"; "escrow_creation_failed"].
Definition MOCK_STATUSES : list string := ["mock_escrow_created"; "mock_htlc_created"].
Definition PRE_DEPOSIT_STATUSES : list string :=
  ["pending_relayer_escrow"; "pending_direct_escrow"; "pending_dst_escrow_deployment"; "awaiting_xlm_payment"].
Definition DEFAULT_ABANDON_MS : Z := 30 * 60000.

(** The fields the orchestrator reads and writes.  [or_created] is the parsed
    time; amounts are [None] when [BigInt] throws on them. *)
Record Order : Type := mkOrder {
  or_status : string;
  or_created : option Z;
  or_ethAddress : string;
  or_amount : option Z;
  or_hashLock : string;
  or_escrowId : option string;
  or_escrowAddress : option string;
  or_orderHash : option string;
  or_xlmAmount : option string;
  or_ethAmount : option Z;
  or_tx : option string
}.

Definition set_status (s : string) (o : Order) : Order :=
  mkOrder s (or_created o) (or_ethAddress o) (or_amount o) (or_hashLock o) (or_escrowId o) (or_escrowAddress o) (or_orderHash o)
    (or_xlmAmount o) (or_ethAmount o) (or_tx o).
Definition set_tx (tx : string) (o : Order) : Order :=
  mkOrder (or_status o) (or_created o) (or_ethAddress o) (or_amount o) (or_hashLock o) (or_escrowId o) (or_escrowAddress o) (or_orderHash o)
    (or_xlmAmount o) (or_ethAmount o) (Some tx).
Definition set_escrow (id address : option string) (o : Order) : Order :=
  mkOrder (or_status o) (or_created o) (or_ethAddress o) (or_amount o) (or_hashLock o) id address (or_orderHash o)
    (or_xlmAmount o) (or_ethAmount o) (or_tx o).
Definition set_orderHash (h : string) (o : Order) : Order :=
  mkOrder (or_status o) (or_created o) (or_ethAddress o) (or_amount o) (or_hashLock o) (or_escrowId o) (or_escrowAddress o) (Some h)
    (or_xlmAmount o) (or_ethAmount o) (or_tx o).

Definition is_one_of (s : string) (l : list string) : bool := bool_decide (s ∈ l).

Definition hasPendingRelayerEscrow (orders : list Order) : bool := existsb (fun o => String.eqb (or_status o) "pending_relayer_escrow") orders.
Definition hasAwaitingXlmPayment (orders : list Order) : bool := existsb (fun o => String.eqb (or_status o) "awaiting_xlm_payment") orders.

Definition needs_monitoring (o : Order) : bool :=
  truthy_string (or_status o) && negb (is_one_of (or_status o) TERMINAL_STATUSES) && negb (is_one_of (or_status o) MOCK_STATUSES).
Definition needsChainMonitoring (orders : list Order) : bool := existsb needs_monitoring orders.

Definition abandoned (now maxAgeMs : Z) (o : Order) : bool :=
  is_one_of (or_status o) PRE_DEPOSIT_STATUSES && match or_created o with Some c => maxAgeMs <=? now - c | None => false end.

(** ** Visitors (utils/site-presence.ts) *)

Record Presence : Type := mkPresence { lastVisitorAt : Z; visitorTtlMs : Z }.
Definition new_presence : Presence := mkPresence 0 (5 * 60000).
Definition configureSitePresence (ttlMs : Z) (p : Presence) : Presence := mkPresence (lastVisitorAt p) ttlMs.
Definition markVisitorPresent (now : Z) (p : Presence) : Presence := mkPresence now (visitorTtlMs p).
Definition hasRecentVisitor (now : Z) (p : Presence) : bool := (0 <? lastVisitorAt p) && (now - lastVisitorAt p <? visitorTtlMs p).

(** ** Incoming ETH (listeners/eth-incoming-monitor.ts) *)

Record Tx : Type := mkTx { tx_hash : option string; tx_from : string; tx_to : option string; tx_value : Z }.
Record IncomingEthPayment : Type := mkPayment { pm_hash : string; pm_from : string; pm_value : Z; pm_block : Z }.
Definition DEFAULT_MAX_BLOCK_WINDOW : Z := 50.

(** A block holds transactions, or hashes of them ([None]), which are skipped. *)
Definition incoming (relayerLower : string) (block : Z) (entry : option Tx) : option IncomingEthPayment :=
  match entry with
  | Some t =>
      match tx_to t, tx_hash t with
      | Some to, Some h =>
          if truthy_string to && String.eqb (toLowerCase to) relayerLower && (0 <? tx_value t) && truthy_string h
          then Some (mkPayment h (tx_from t) (tx_value t) block) else None
      | _, _ => None
      end
  | None => None
  end.

Definition block_numbers (fromBlock toBlock : Z) : list Z := (fun i => fromBlock + Z.of_nat i) <$> seq 0 (Z.to_nat (toBlock - fromBlock + 1)).

(** [chain] are the blocks as the endpoint gives them; [None] for a missing one. *)
Definition fetchIncomingEthPayments (relayerAddress : string) (lastProcessedBlock maxBlockWindow head : Z) (chain : Z -> option (list (option Tx))) :
    list IncomingEthPayment * Z :=
  if head <=? lastProcessedBlock then ([], lastProcessedBlock)
  else
    let fromBlock := lastProcessedBlock + 1 in
    let toBlock := Z.min head (fromBlock + maxBlockWindow - 1) in
    (n ← block_numbers fromBlock toBlock; omap (incoming (toLowerCase relayerAddress) n) (default [] (chain n)), toBlock).

(** ** State *)

(** A tick of the poller for incoming ETH; [ref] is the order it works on. *)
Inductive EthTick : Type :=
| EthIdle
| EthFetching
| EthDeposit (ref : nat) (amount : Z) (rest : list IncomingEthPayment)
| EthSending (ref : nat) (rest : list IncomingEthPayment)
| EthMining (ref : nat) (rest : list IncomingEthPayment) (tx : string).

Record XlmPayment : Type := mkXlmPayment { xp_type : string; xp_asset : string; xp_to : string; xp_amount : string; xp_hash : string }.

(** A tick of the poller for incoming XLM, with the ledger it read. *)
Inductive XlmTick : Type :=
| XlmIdle
| XlmLedger
| XlmPayments (ledger : Z)
| XlmMemo (ledger : Z) (p : XlmPayment) (rest : list XlmPayment)
| XlmBalance (ledger : Z) (ref : nat) (rest : list XlmPayment)
| XlmSend (ledger : Z) (ref : nat) (wei : Z) (attempts : Z) (rest : list XlmPayment)
| XlmMining (ledger : Z) (ref : nat) (tx : string) (rest : list XlmPayment).

(** How far the start of a generation has come. *)
Inductive StartStage : Type := StartBlock | StartFactory | StartListener | StartDone | StartFailed.

Record Generation : Type := mkGeneration {
  g_start : StartStage;
  g_listed : bool;
  g_stopped : bool;
  g_eth : EthTick;
  g_lastBlock : Z;
  g_xlm : XlmTick;
  g_lastLedger : Z
}.

Record World : Type := mkWorld {
  w_heap : list Order;
  w_active : list (string * nat);
  w_gens : list Generation;
  w_started : bool;
  w_stopping : nat;
  w_escrows : list (nat * nat * Z);
  w_htlcs : list (nat * nat * Z);
  w_failures : list nat;
  w_routed : list (nat * Z)
}.

(** [w_stopping] counts the stops that await the listener; [w_routed] are the
    ETH payments the routes make themselves. *)
Definition new_world : World := mkWorld [] [] [] false 0 [] [] [] [].

Definition set_heap (h : list Order) (w : World) : World :=
  mkWorld h (w_active w) (w_gens w) (w_started w) (w_stopping w) (w_escrows w) (w_htlcs w) (w_failures w) (w_routed w).
Definition set_gens (g : list Generation) (w : World) : World :=
  mkWorld (w_heap w) (w_active w) g (w_started w) (w_stopping w) (w_escrows w) (w_htlcs w) (w_failures w) (w_routed w).
Definition set_started (b : bool) (w : World) : World :=
  mkWorld (w_heap w) (w_active w) (w_gens w) b (w_stopping w) (w_escrows w) (w_htlcs w) (w_failures w) (w_routed w).
Definition set_stopping (n : nat) (w : World) : World :=
  mkWorld (w_heap w) (w_active w) (w_gens w) (w_started w) n (w_escrows w) (w_htlcs w) (w_failures w) (w_routed w).
Definition add_escrow (e : nat * nat * Z) (w : World) : World :=
  mkWorld (w_heap w) (w_active w) (w_gens w) (w_started w) (w_stopping w) (w_escrows w ++ [e]) (w_htlcs w) (w_failures w) (w_routed w).
Definition add_htlc (e : nat * nat * Z) (w : World) : World :=
  mkWorld (w_heap w) (w_active w) (w_gens w) (w_started w) (w_stopping w) (w_escrows w) (w_htlcs w ++ [e]) (w_failures w) (w_routed w).
Definition add_failure (r : nat) (w : World) : World :=
  mkWorld (w_heap w) (w_active w) (w_gens w) (w_started w) (w_stopping w) (w_escrows w) (w_htlcs w) (w_failures w ++ [r]) (w_routed w).
Definition add_routed (e : nat * Z) (w : World) : World :=
  mkWorld (w_heap w) (w_active w) (w_gens w) (w_started w) (w_stopping w) (w_escrows w) (w_htlcs w) (w_failures w) (w_routed w ++ [e]).

Definition upd (r : nat) (f : Order -> Order) (w : World) : World := set_heap (alter f r (w_heap w)) w.

(** The values of the map, in its order. *)
Definition active_orders (w : World) : list (string * nat * Order) :=
  omap (fun '(id, r) => (fun o => (id, r, o)) <$> w_heap w !! r) (w_active w).

(** The first order of the map that fits. *)
Definition find_order (test : string -> Order -> bool) (w : World) : option nat :=
  (fun '(_, r, _) => r) <$> List.find (fun '(id, _, o) => test id o) (active_orders w).

Definition upd_gen (g : nat) (f : Generation -> Generation) (w : World) : World := set_gens (alter f g (w_gens w)) w.
Definition with_eth (t : EthTick) (x : Generation) : Generation :=
  mkGeneration (g_start x) (g_listed x) (g_stopped x) t (g_lastBlock x) (g_xlm x) (g_lastLedger x).
Definition with_block (b : Z) (x : Generation) : Generation :=
  mkGeneration (g_start x) (g_listed x) (g_stopped x) (g_eth x) b (g_xlm x) (g_lastLedger x).
Definition with_xlm (t : XlmTick) (x : Generation) : Generation :=
  mkGeneration (g_start x) (g_listed x) (g_stopped x) (g_eth x) (g_lastBlock x) t (g_lastLedger x).
Definition with_ledger (l : Z) (x : Generation) : Generation :=
  mkGeneration (g_start x) (g_listed x) (g_stopped x) (g_eth x) (g_lastBlock x) (g_xlm x) l.
Definition with_start (s : StartStage) (x : Generation) : Generation :=
  mkGeneration s (g_listed x) (g_stopped x) (g_eth x) (g_lastBlock x) (g_xlm x) (g_lastLedger x).

Section Orchestrator.
Context (relayerAddress relayerStellar : string) (mainnet hasKey : bool) (close : string -> option string -> bool).

(** *** ETH transfers *)

Fixpoint next_payment (g : nat) (payments : list IncomingEthPayment) (w : World) : World :=
  match payments with
  | [] => upd_gen g (with_eth EthIdle) w
  | p :: rest =>
      match find_order (fun _ o => String.eqb (or_ethAddress o) (pm_from p) && String.eqb (or_status o) "pending_relayer_escrow") w with
      | None => next_payment g rest w
      | Some r =>
          match w_heap w !! r ≫= or_amount with
          | None => next_payment g rest (upd r (set_status "escrow_creation_failed") w)
          | Some amount => upd_gen g (with_eth (EthDeposit r amount rest)) w
          end
      end
  end.

Definition escrow_failed (g r : nat) (rest : list IncomingEthPayment) (w : World) : World :=
  next_payment g rest (upd r (set_status "escrow_creation_failed") w).

(** The safety deposit is known; the call carries the amount and the deposit. *)
Definition on_deposit (g r : nat) (amount : Z) (rest : list IncomingEthPayment) (deposit : option Z) (w : World) : World :=
  match deposit with
  | None => escrow_failed g r rest w
  | Some d => upd_gen g (with_eth (EthSending r rest)) (add_escrow (g, r, amount + d) w)
  end.

Definition on_mined (g r : nat) (rest : list IncomingEthPayment) (tx : string) (ok : bool) (w : World) : World :=
  if ok then next_payment g rest (upd r (fun o => set_tx tx (set_status "escrow_created_by_relayer" o)) w) else escrow_failed g r rest w.

Definition on_eth (g : nat) (lastBlock : Z) (answer : option (Z * (Z -> option (list (option Tx))))) (w : World) : World :=
  match answer with
  | None => upd_gen g (with_eth EthIdle) w
  | Some (head, chain) =>
      let '(payments, cursor) := fetchIncomingEthPayments relayerAddress lastBlock DEFAULT_MAX_BLOCK_WINDOW head chain in
      next_payment g payments (upd_gen g (with_block cursor) w)
  end.

(** *** XLM payments *)

Definition is_payment (p : XlmPayment) : bool :=
  String.eqb (xp_type p) "payment" && String.eqb (xp_asset p) "native" && String.eqb (xp_to p) relayerStellar.

Fixpoint next_xlm (g : nat) (ledger : Z) (records : list XlmPayment) (w : World) : World :=
  match records with
  | [] => upd_gen g (fun x => with_xlm XlmIdle (with_ledger ledger x)) w
  | p :: rest => if is_payment p then upd_gen g (with_xlm (XlmMemo ledger p rest)) w else next_xlm g ledger rest w
  end.

Definition htlc_failed (g : nat) (ledger : Z) (r : nat) (rest : list XlmPayment) (w : World) : World :=
  next_xlm g ledger rest (add_failure r (upd r (set_status "eth_htlc_failed") w)).

Definition on_memo (g : nat) (ledger : Z) (p : XlmPayment) (rest : list XlmPayment) (memo : option string) (w : World) : World :=
  match memo with
  | Some m =>
      if startsWith m "XLM-ETH-" then
        let orderPrefix := String.substring 8 (String.length m - 8) m in
        match find_order (fun id o => includes id orderPrefix && String.eqb (or_status o) "awaiting_xlm_payment") w with
        | Some r =>
            if close (xp_amount p) (w_heap w !! r ≫= or_xlmAmount) then upd_gen g (with_xlm (XlmBalance ledger r rest)) w
            else next_xlm g ledger rest w
        | None => next_xlm g ledger rest w
        end
      else next_xlm g ledger rest w
  | None => next_xlm g ledger rest w
  end.

Definition estimatedGasCost : Z := 2 * 10 ^ 15.
Definition ETH_SEND_ATTEMPTS : Z := 3.

Definition send_htlc (g : nat) (ledger : Z) (r : nat) (wei attempts : Z) (rest : list XlmPayment) (w : World) : World :=
  upd_gen g (with_xlm (XlmSend ledger r wei attempts rest)) (add_htlc (g, r, wei) w).

(** [admitted]: the circuit breaker of the retry engine lets the call through. *)
Definition on_balance (g : nat) (ledger : Z) (r : nat) (rest : list XlmPayment) (balance : option Z) (admitted : bool) (w : World) : World :=
  match balance, w_heap w !! r ≫= or_ethAmount with
  | Some b, Some wei =>
      if (b <? wei + estimatedGasCost) || negb admitted then htlc_failed g ledger r rest w else send_htlc g ledger r wei 1 rest w
  | _, _ => htlc_failed g ledger r rest w
  end.

Definition on_sent (g : nat) (ledger : Z) (r : nat) (wei attempts : Z) (rest : list XlmPayment) (answer : outcome bool string) (w : World) : World :=
  match answer with
  | Ok tx => upd_gen g (with_xlm (XlmMining ledger r tx rest)) w
  | Throw again =>
      if again && (attempts <? ETH_SEND_ATTEMPTS) then send_htlc g ledger r wei (attempts + 1) rest w else htlc_failed g ledger r rest w
  end.

Definition on_receipt (g : nat) (ledger : Z) (r : nat) (tx : string) (rest : list XlmPayment) (ok : bool) (w : World) : World :=
  if ok then next_xlm g ledger rest (upd r (fun o => set_tx tx (set_status "eth_htlc_created" o)) w) else htlc_failed g ledger r rest w.

(** *** Start and stop *)

Definition ensureChainMonitoring (w : World) : World :=
  if w_started w then w
  else if negb hasKey then w
  else set_started true (set_gens (w_gens w ++ [mkGeneration StartBlock false false EthIdle 0 XlmIdle 0]) w).

(** Up to the wait for the listener to stop, and from there. *)
Definition stopChainMonitoring (w : World) : World :=
  if w_started w then
    set_stopping (S (w_stopping w))
      (set_gens ((fun x => mkGeneration (g_start x) (g_listed x) (g_stopped x || g_listed x) (g_eth x) (g_lastBlock x) (g_xlm x) (g_lastLedger x)) <$> w_gens w) w)
  else w.

Definition on_listener_stopped (w : World) : World :=
  match w_stopping w with O => w | S n => set_stopping n (set_started false w) end.

Definition values (w : World) : list Order := (fun '(_, _, o) => o) <$> active_orders w.

Definition expireAbandonedOrders (now : Z) (w : World) : World :=
  foldl (fun w e => match w_heap w !! e.2 with
                    | Some o => if abandoned now DEFAULT_ABANDON_MS o then upd e.2 (set_status "expired") w else w
                    | None => w
                    end) w (w_active w).

Definition reconcileChainMonitoring (now : Z) (w : World) : World :=
  let w := expireAbandonedOrders now w in
  if w_started w && negb (needsChainMonitoring (values w)) then stopChainMonitoring w else w.

Definition storeActiveOrder (id : string) (o : Order) (w : World) : World :=
  let w := mkWorld (w_heap w ++ [o]) (jm_set id (length (w_heap w)) (w_active w)) (w_gens w) (w_started w) (w_stopping w) (w_escrows w)
             (w_htlcs w) (w_failures w) (w_routed w) in
  if needsChainMonitoring (values w) then ensureChainMonitoring w else w.

Definition start_failed (g : nat) (w : World) : World := set_started false (upd_gen g (with_start StartFailed) w).

(** *** Contract events *)

Definition on_contract (test : Order -> bool) (f : Order -> Order) (w : World) : World :=
  match find_order (fun _ => test) w with Some r => upd r f w | None => w end.

Definition srcEscrowCreated (hashlock orderHash : string) : World -> World :=
  on_contract (fun o => String.eqb (or_hashLock o) hashlock) (fun o => set_status "src_escrow_created" (set_orderHash orderHash o)).
Definition dstEscrowCreated (hashlock address : string) : World -> World :=
  on_contract (fun o => String.eqb (or_hashLock o) hashlock) (fun o => set_status "dst_escrow_created" (set_escrow (or_escrowId o) (Some address) o)).
Definition escrowCreated (id address hashLock : string) : World -> World :=
  on_contract (fun o => String.eqb (or_hashLock o) hashLock) (fun o => set_status "escrow_active" (set_escrow (Some id) (Some address) o)).
Definition escrowFunded (id : string) : World -> World :=
  on_contract (fun o => bool_decide (or_escrowId o = Some id)) (set_status "escrow_funded").

(** *** Steps *)

Inductive Event : Type :=
| EStore (id : string) (o : Order)
| ERoute (r : nat) (status : string)
| ERoutePays (r : nat) (wei : Z)
| EReconcile (now : Z)
| EShutdown
| EListenerStopped
| EBlock (g : nat) (answer : option Z)
| EFactory (g : nat) (ok : bool)
| EListener (g : nat) (ok : bool)
| ETickEth (g : nat)
| EEthBlocks (g : nat) (answer : option (Z * (Z -> option (list (option Tx)))))
| EDeposit (g : nat) (deposit : option Z)
| EEscrowSent (g : nat) (tx : option string)
| EEscrowMined (g : nat) (ok : bool)
| ETickXlm (g : nat)
| ELedger (g : nat) (answer : option Z)
| EPayments (g : nat) (answer : option (list XlmPayment))
| EMemo (g : nat) (answer : option (option string))
| EBalance (g : nat) (balance : option Z) (admitted : bool)
| ESent (g : nat) (answer : outcome bool string)
| EReceipt (g : nat) (ok : bool)
| ESrcEscrow (hashlock orderHash : string)
| EDstEscrow (hashlock address : string)
| EEscrowCreated (id address hashLock : string)
| EEscrowFunded (id : string).

Definition polling (x : Generation) : bool := g_listed x && negb (g_stopped x).

Definition gen_step (g : nat) (x : Generation) (e : Event) (w : World) : World :=
  match e with
  | EBlock _ answer =>
      match g_start x, answer with
      | StartBlock, Some b => upd_gen g (fun x => mkGeneration StartFactory true (g_stopped x) (g_eth x) b (g_xlm x) 0) w
      | StartBlock, None => start_failed g w
      | _, _ => w
      end
  | EFactory _ ok =>
      match g_start x with
      | StartFactory => if ok then upd_gen g (with_start (if mainnet then StartDone else StartListener)) w else start_failed g w
      | _ => w
      end
  | EListener _ ok =>
      match g_start x with StartListener => if ok then upd_gen g (with_start StartDone) w else start_failed g w | _ => w end
  | ETickEth _ =>
      match g_eth x with EthIdle => if polling x && hasPendingRelayerEscrow (values w) then upd_gen g (with_eth EthFetching) w else w | _ => w end
  | EEthBlocks _ answer => match g_eth x with EthFetching => on_eth g (g_lastBlock x) answer w | _ => w end
  | EDeposit _ d => match g_eth x with EthDeposit r amount rest => on_deposit g r amount rest d w | _ => w end
  | EEscrowSent _ tx =>
      match g_eth x with
      | EthSending r rest => match tx with Some t => upd_gen g (with_eth (EthMining r rest t)) w | None => escrow_failed g r rest w end
      | _ => w
      end
  | EEscrowMined _ ok => match g_eth x with EthMining r rest t => on_mined g r rest t ok w | _ => w end
  | ETickXlm _ =>
      match g_xlm x with XlmIdle => if polling x && hasAwaitingXlmPayment (values w) then upd_gen g (with_xlm XlmLedger) w else w | _ => w end
  | ELedger _ answer =>
      match g_xlm x, answer with
      | XlmLedger, None => upd_gen g (with_xlm XlmIdle) w
      | XlmLedger, Some l =>
          if g_lastLedger x =? 0 then upd_gen g (fun x => with_xlm XlmIdle (with_ledger (l - 10) x)) w else upd_gen g (with_xlm (XlmPayments l)) w
      | _, _ => w
      end
  | EPayments _ answer =>
      match g_xlm x, answer with
      | XlmPayments l, Some ps => next_xlm g l ps w
      | XlmPayments _, None => upd_gen g (with_xlm XlmIdle) w
      | _, _ => w
      end
  | EMemo _ answer =>
      match g_xlm x, answer with
      | XlmMemo l p rest, Some memo => on_memo g l p rest memo w
      | XlmMemo _ _ _, None => upd_gen g (with_xlm XlmIdle) w
      | _, _ => w
      end
  | EBalance _ b a => match g_xlm x with XlmBalance l r rest => on_balance g l r rest b a w | _ => w end
  | ESent _ answer => match g_xlm x with XlmSend l r wei n rest => on_sent g l r wei n rest answer w | _ => w end
  | EReceipt _ ok => match g_xlm x with XlmMining l r t rest => on_receipt g l r t rest ok w | _ => w end
  | _ => w
  end.

Definition step (w : World) (e : Event) : World :=
  match e with
  | EStore id o => storeActiveOrder id o w
  | ERoute r status => upd r (set_status status) w
  | ERoutePays r wei => add_routed (r, wei) w
  | EReconcile now => reconcileChainMonitoring now w
  | EShutdown => stopChainMonitoring w
  | EListenerStopped => on_listener_stopped w
  | ESrcEscrow h oh => srcEscrowCreated h oh w
  | EDstEscrow h a => dstEscrowCreated h a w
  | EEscrowCreated id a h => escrowCreated id a h w
  | EEscrowFunded id => escrowFunded id w
  | EBlock g _ | EFactory g _ | EListener g _ | ETickEth g | EEthBlocks g _ | EDeposit g _ | EEscrowSent g _ | EEscrowMined g _
  | ETickXlm g | ELedger g _ | EPayments g _ | EMemo g _ | EBalance g _ _ | ESent g _ | EReceipt g _ =>
      match w_gens w !! g with Some x => gen_step g x e w | None => w end
  end.

Definition run (es : list Event) : World := foldl step new_world es.
End Orchestrator.

(** ** What can be said of the payments *)

(** How often generation [g] called for order [r]. *)
Definition calls (g r : nat) (l : list (nat * nat * Z)) : nat := length (filter (fun e => e.1 = (g, r)) l).

Lemma calls_app g r l l' : calls g r (l ++ l') = (calls g r l + calls g r l')%nat.
Proof. unfold calls. by rewrite filter_app, length_app. Qed.

Lemma calls_one g r g' r' z : calls g r [(g', r', z)] = if decide ((g', r') = (g, r)) then 1%nat else 0%nat.
Proof. unfold calls. rewrite filter_cons, filter_nil. cbn. by destruct (decide ((g', r') = (g, r))). Qed.

Lemma calls_pos g r l : (0 < calls g r l)%nat -> exists z, (g, r, z) ∈ l.
Proof.
  unfold calls. intros H. destruct (filter _ l) as [|[[g' r'] z] l'] eqn:E; [cbn in H; lia|].
  assert ((g', r', z) ∈ filter (fun e => e.1 = (g, r)) l) as Hi by (rewrite E; by left). apply list_elem_of_filter in Hi as [[= -> ->] Hi]. eauto.
Qed.

(** The statuses that invite a payment. *)
Definition inviting (s : string) : Prop := s = "pending_relayer_escrow" \/ s = "awaiting_xlm_payment".

(** Orders stay, keep their amounts, and are not offered again. *)
Definition heap_le (h h' : list Order) : Prop :=
  forall r o, h !! r = Some o -> exists o', h' !! r = Some o' /\ or_ethAmount o' = or_ethAmount o /\ or_amount o' = or_amount o /\
    forall s, inviting s -> or_status o' = s -> or_status o = s.

#[export] Instance heap_le_preorder : PreOrder heap_le.
Proof.
  split.
  - intros h r o Ho. eauto.
  - intros h1 h2 h3 H12 H23 r o Ho. destruct (H12 r o Ho) as (o2 & Ho2 & E2 & A2 & S2). destruct (H23 r o2 Ho2) as (o3 & Ho3 & E3 & A3 & S3).
    exists o3. split_and!; [done|congruence|congruence|eauto].
Qed.

(** A change that withdraws the invitation. *)
Definition settles (f : Order -> Order) : Prop :=
  forall o, ~ inviting (or_status (f o)) /\ or_ethAmount (f o) = or_ethAmount o /\ or_amount (f o) = or_amount o.

Lemma settles_status s f : ~ inviting s -> (forall o, or_status (f o) = s /\ or_ethAmount (f o) = or_ethAmount o /\ or_amount (f o) = or_amount o) -> settles f.
Proof. intros Hs Hf o. destruct (Hf o) as (-> & ? & ?). done. Qed.

Ltac not_inviting := by intros [?|?].

Lemma heap_le_alter r f h : settles f -> heap_le h (alter f r h).
Proof.
  intros Hf r' o Ho. destruct (decide (r = r')) as [->|Hne].
  - exists (f o). rewrite list_lookup_alter_eq, Ho. destruct (Hf o) as (H1 & H2 & H3). split_and!; [done..|]. intros s Hs <-. by destruct H1.
  - exists o. by rewrite list_lookup_alter_ne.
Qed.

Lemma heap_le_app h l : heap_le h (h ++ l).
Proof. intros r o Ho. exists o. split_and!; [by apply lookup_app_l_Some|done..]. Qed.

(** The order exists and does not have the status [s] any more. *)
Definition used (h : list Order) (s : string) (r : nat) : Prop := exists o, h !! r = Some o /\ or_status o <> s.

Lemma used_le h h' s r : inviting s -> heap_le h h' -> used h s r -> used h' s r.
Proof. intros Hs Hle (o & Ho & Hn). destruct (Hle r o Ho) as (o' & Ho' & _ & _ & H). exists o'. split; [done|]. intros E. by apply Hn, H. Qed.

Lemma used_alter h s r f : inviting s -> settles f -> is_Some (h !! r) -> used (alter f r h) s r.
Proof.
  intros Hs Hf [o Ho]. exists (f o). rewrite list_lookup_alter_eq, Ho. split; [done|]. intros E. destruct (Hf o) as [H _]. apply H. by rewrite E.
Qed.

(** *** One poller at work: [n] counts its calls for each order, [busy] is the
    order it works on and, where known, the calls made for it. *)

Record job_ok (s : string) (limit : nat) (n : nat -> nat) (busy : option (nat * option nat)) (h : list Order) : Prop := mkJobOk {
  jo_limit : forall r, (n r <= limit)%nat;
  jo_used : forall r, (0 < n r)%nat -> used h s r \/ exists k, busy = Some (r, k);
  jo_busy : forall r k, busy = Some (r, k) -> is_Some (h !! r) /\ match k with Some k => n r = k | None => True end
}.

Section Job.
Context (s : string) (limit : nat) (Hs : inviting s).
#[local] Notation job_ok := (job_ok s limit).

Lemma job_le n b h h' : heap_le h h' -> job_ok n b h -> job_ok n b h'.
Proof.
  intros Hle [H1 H2 H3]. split; [done| |].
  - intros r Hr. destruct (H2 r Hr) as [Hu|?]; [left; by eapply used_le|by right].
  - intros r k E. destruct (H3 r k E) as [[o Ho] Hk]. destruct (Hle r o Ho) as (o' & Ho' & _). split; [by eexists|done].
Qed.

Lemma job_start n h r o : job_ok n None h -> h !! r = Some o -> or_status o = s -> job_ok n (Some (r, Some 0%nat)) h.
Proof.
  intros [H1 H2 H3] Ho Es. split; [done| |].
  - intros r' Hr. destruct (H2 r' Hr) as [?|[k ?]]; [by left|done].
  - intros r' k [= <- <-]. split; [by eexists|]. destruct (n r) as [|m] eqn:E; [done|]. exfalso.
    destruct (H2 r) as [(o' & Ho' & Hn)|[k ?]]; [lia| |done]. congruence.
Qed.

Lemma job_end n r k h : job_ok n (Some (r, k)) h -> used h s r -> job_ok n None h.
Proof.
  intros [H1 H2 H3] Hu. split; [done| |done]. intros r' Hr. left. destruct (H2 r' Hr) as [?|[k' [= <- _]]]; done.
Qed.

Lemma job_forget n r k h : job_ok n (Some (r, k)) h -> job_ok n (Some (r, None)) h.
Proof.
  intros [H1 H2 H3]. split; [done| |].
  - intros r' Hr. destruct (H2 r' Hr) as [?|[k' [= <- _]]]; [by left|eauto].
  - intros r' k' [= <- <-]. destruct (H3 r k eq_refl) as [? _]. done.
Qed.

Lemma job_call n n' r k h :
  (k < limit)%nat -> (forall r', n' r' = (n r' + if decide (r = r') then 1 else 0)%nat) ->
  job_ok n (Some (r, Some k)) h -> job_ok n' (Some (r, Some (S k))) h.
Proof.
  intros Hk Hn [H1 H2 H3]. destruct (H3 r _ eq_refl) as [Ho E]. split.
  - intros r'. rewrite Hn. destruct (decide (r = r')) as [<-|]; [lia|]. rewrite Nat.add_0_r. apply H1.
  - intros r'. rewrite Hn. destruct (decide (r = r')) as [<-|]; [eauto|]. rewrite Nat.add_0_r. intros Hr.
    destruct (H2 r' Hr) as [?|[k' [= <- _]]]; [by left|done].
  - intros r' k' [= <- <-]. split; [done|]. rewrite Hn, E. destruct (decide (r = r)); [lia|done].
Qed.

Lemma job_new n h : (forall r, n r = 0%nat) -> job_ok n None h.
Proof. intros E. split; [intros r; rewrite E; lia|intros r; rewrite E; lia|done]. Qed.

Lemma job_ext n n' b h : (forall r, n' r = n r) -> job_ok n b h -> job_ok n' b h.
Proof. intros E [H1 H2 H3]. split; [intros r; rewrite E; auto|intros r; rewrite E; auto|]. intros r k Hb. rewrite E. auto. Qed.
End Job.

(** *** All generations *)

Definition busy_eth (t : EthTick) : option (nat * option nat) :=
  match t with
  | EthDeposit r _ _ => Some (r, Some 0%nat)
  | EthSending r _ | EthMining r _ _ => Some (r, Some 1%nat)
  | _ => None
  end.

Definition busy_xlm (t : XlmTick) : option (nat * option nat) :=
  match t with
  | XlmBalance _ r _ => Some (r, Some 0%nat)
  | XlmSend _ r _ n _ => Some (r, Some (Z.to_nat n))
  | XlmMining _ r _ _ => Some (r, None)
  | _ => None
  end.

Section Books.
(** The safety deposits that were computed for a generation. *)
Context (deposits : nat -> Z -> Prop).

Definition amount_is (h : list Order) (r : nat) (wei : Z) : Prop := exists o, h !! r = Some o /\ or_ethAmount o = Some wei.

(** What a pending send holds. *)
Definition send_ok (h : list Order) (t : XlmTick) : Prop :=
  match t with XlmSend _ r wei n _ => 1 <= n <= ETH_SEND_ATTEMPTS /\ amount_is h r wei | _ => True end.

(** The amount an escrow is created for. *)
Definition escrow_of (h : list Order) (r : nat) (amount : Z) : Prop := exists o, h !! r = Some o /\ or_amount o = Some amount.

Definition deposit_ok (h : list Order) (t : EthTick) : Prop :=
  match t with EthDeposit r amount _ => escrow_of h r amount | _ => True end.

Definition eth_job (w : World) (g : nat) (b : option (nat * option nat)) : Prop :=
  job_ok "pending_relayer_escrow" 1 (fun r => calls g r (w_escrows w)) b (w_heap w).
Definition xlm_job (w : World) (g : nat) (b : option (nat * option nat)) : Prop :=
  job_ok "awaiting_xlm_payment" 3 (fun r => calls g r (w_htlcs w)) b (w_heap w).

Definition gen_ok (w : World) (g : nat) (x : Generation) : Prop :=
  eth_job w g (busy_eth (g_eth x)) /\ xlm_job w g (busy_xlm (g_xlm x)) /\ send_ok (w_heap w) (g_xlm x) /\
  deposit_ok (w_heap w) (g_eth x).

Record books_ok (w : World) : Prop := mkBooksOk {
  bk_escrows : forall g r z, (g, r, z) ∈ w_escrows w ->
    (g < length (w_gens w))%nat /\ exists amount d, escrow_of (w_heap w) r amount /\ deposits g d /\ z = amount + d;
  bk_htlcs : forall g r z, (g, r, z) ∈ w_htlcs w -> (g < length (w_gens w))%nat /\ amount_is (w_heap w) r z
}.

Definition inv (w : World) : Prop := books_ok w /\ forall g x, w_gens w !! g = Some x -> gen_ok w g x.

(** The invariant but for generation [g], which is in between. *)
Definition inv_but (w : World) (g : nat) : Prop := books_ok w /\ forall g' x, g' <> g -> w_gens w !! g' = Some x -> gen_ok w g' x.

Lemma amount_le h h' r z : heap_le h h' -> amount_is h r z -> amount_is h' r z.
Proof. intros Hle (o & Ho & E). destruct (Hle r o Ho) as (o' & Ho' & E' & _). exists o'. split; [done|congruence]. Qed.

Lemma escrow_le h h' r z : heap_le h h' -> escrow_of h r z -> escrow_of h' r z.
Proof. intros Hle (o & Ho & E). destruct (Hle r o Ho) as (o' & Ho' & _ & E' & _). exists o'. split; [done|congruence]. Qed.

Lemma deposit_le h h' t : heap_le h h' -> deposit_ok h t -> deposit_ok h' t.
Proof. intros Hle. destruct t; cbn; try done. by apply escrow_le. Qed.

Lemma send_le h h' t : heap_le h h' -> send_ok h t -> send_ok h' t.
Proof. intros Hle. destruct t; cbn; try done. intros [? ?]. split; [done|]. by eapply amount_le. Qed.

Lemma inviting_eth : inviting "pending_relayer_escrow". Proof. by left. Qed.
Lemma inviting_xlm : inviting "awaiting_xlm_payment". Proof. by right. Qed.
#[local] Hint Resolve inviting_eth inviting_xlm : core.

(** The heap changes, nothing else. *)
Section HeapOnly.
Context (w w' : World) (Hle : heap_le (w_heap w) (w_heap w')).
Context (He : w_escrows w' = w_escrows w) (Hh : w_htlcs w' = w_htlcs w) (Hg : length (w_gens w') = length (w_gens w)).

Lemma books_le : books_ok w -> books_ok w'.
Proof.
  intros [H1 H2]. split; rewrite ?He, ?Hh, Hg; intros g r z Hz.
  - destruct (H1 g r z Hz) as [? (a & d & Ha & ?)]. split; [done|]. exists a, d. split; [by eapply escrow_le|done].
  - destruct (H2 g r z Hz). split; [done|by eapply amount_le].
Qed.
Lemma eth_job_le g b : eth_job w g b -> eth_job w' g b.
Proof. unfold eth_job. rewrite He. by apply job_le. Qed.
Lemma xlm_job_le g b : xlm_job w g b -> xlm_job w' g b.
Proof. unfold xlm_job. rewrite Hh. by apply job_le. Qed.
Lemma gen_ok_le g x : gen_ok w g x -> gen_ok w' g x.
Proof.
  intros (H1 & H2 & H3 & H4). split_and!; [by apply eth_job_le|by apply xlm_job_le|by eapply send_le|by eapply deposit_le].
Qed.
End HeapOnly.

Lemma inv_but_upd w g r f : settles f -> inv_but w g -> inv_but (upd r f w) g.
Proof.
  intros Hf [Hb Hi]. assert (heap_le (w_heap w) (w_heap (upd r f w))) as Hle by (by apply heap_le_alter).
  split; [by apply (books_le w)|]. intros g' x Hne Hx. by eapply (gen_ok_le w), Hi.
Qed.

(** Generation [g] settles in its new state. *)
Lemma inv_close w g f x :
  inv_but w g -> w_gens w !! g = Some x -> gen_ok w g (f x) -> inv (upd_gen g f w).
Proof.
  intros [Hb Hi] Hx Hok. assert (length (w_gens (upd_gen g f w)) = length (w_gens w)) as Hl by (cbn; apply length_alter).
  split; [by apply (books_le w)|]. intros g' x' Hx'. apply (gen_ok_le w); [done..|]. cbn in Hx'. destruct (decide (g = g')) as [<-|Hne].
  - rewrite list_lookup_alter_eq, Hx in Hx'. by injection Hx' as <-.
  - rewrite list_lookup_alter_ne in Hx' by done. by eapply Hi.
Qed.

Lemma inv_open w g : inv w -> inv_but w g.
Proof. intros [Hb Hi]. split; [done|]. intros g' x _. apply Hi. Qed.

Lemma find_order_some test w r :
  find_order test w = Some r -> exists id o, w_heap w !! r = Some o /\ test id o = true.
Proof.
  unfold find_order. destruct (List.find _ _) as [[[id r'] o]|] eqn:E; [|done]. intros [= <-]. apply List.find_some in E as [Hin Ht].
  apply list_elem_of_In in Hin. unfold active_orders in Hin. apply list_elem_of_omap in Hin as ([id' r''] & _ & Hin).
  destruct (w_heap w !! r'') as [o'|] eqn:Eo; [|done]. injection Hin as <- <- <-. eauto.
Qed.

Lemma settles_set s : ~ inviting s -> settles (set_status s).
Proof. intros Hs. by apply (settles_status s). Qed.
#[local] Hint Extern 1 (settles _) => (apply settles_set; not_inviting) : core.

Lemma next_payment_inv g ps w x :
  inv_but w g -> w_gens w !! g = Some x -> eth_job w g None -> xlm_job w g (busy_xlm (g_xlm x)) -> send_ok (w_heap w) (g_xlm x) ->
  inv (next_payment g ps w).
Proof.
  revert w. induction ps as [|p ps IH]; intros w Hi Hx He Hh Hs; cbn [next_payment].
  { by apply (inv_close w g _ x). }
  destruct (find_order _ w) as [r|] eqn:Ef; [|by apply IH]. apply find_order_some in Ef as (id & o & Ho & Ht).
  apply andb_true_iff in Ht as [_ Ht%String.eqb_eq]. rewrite Ho. cbn. destruct (or_amount o) as [amount|] eqn:Ea.
  - apply (inv_close w g _ x); [done..|]. split_and!; [cbn; by eapply job_start|done..|by exists o].
  - assert (heap_le (w_heap w) (w_heap (upd r (set_status "escrow_creation_failed") w))) as Hle by (by apply heap_le_alter; auto).
    apply IH; [by apply inv_but_upd; auto|done|by apply (eth_job_le w)|by apply (xlm_job_le w)|by eapply send_le].
Qed.

Section Steps.
Context (relayerAddress relayerStellar : string) (mainnet hasKey : bool) (close : string -> option string -> bool).
#[local] Notation step := (step relayerAddress relayerStellar mainnet hasKey close).
#[local] Notation gen_step := (gen_step relayerAddress relayerStellar mainnet close).

Lemma next_xlm_inv g l ps w x :
  inv_but w g -> w_gens w !! g = Some x -> eth_job w g (busy_eth (g_eth x)) -> xlm_job w g None ->
  deposit_ok (w_heap w) (g_eth x) -> inv (next_xlm relayerStellar g l ps w).
Proof.
  revert w. induction ps as [|p ps IH]; intros w Hi Hx He Hh Hd; cbn [next_xlm].
  { by apply (inv_close w g _ x). }
  destruct (is_payment _ p); [|by apply IH]. by apply (inv_close w g _ x).
Qed.

(** The order a poller worked on gets a final status, and the poller goes on. *)
Lemma eth_settled g r k rest w x f :
  settles f -> inv w -> w_gens w !! g = Some x -> busy_eth (g_eth x) = Some (r, k) -> inv (next_payment g rest (upd r f w)).
Proof.
  intros Hf Hi Hx Hb. destruct Hi as [Hbk Hg]. destruct (Hg g x Hx) as (He & Hh & Hs & Hd). rewrite Hb in He.
  assert (heap_le (w_heap w) (w_heap (upd r f w))) as Hle by (by apply heap_le_alter).
  apply (next_payment_inv g rest _ x); [apply inv_but_upd; [done|by apply inv_open]|done| |by apply (xlm_job_le w)|by eapply send_le].
  apply (eth_job_le w (upd r f w)) in He; [|done..]. eapply job_end; [exact He|]. apply used_alter; [auto|done|]. by destruct (jo_busy _ _ _ _ _ (proj1 (Hg g x Hx)) r k Hb).
Qed.

Lemma xlm_settled g l r k rest w x f fail :
  settles f -> inv w -> w_gens w !! g = Some x -> busy_xlm (g_xlm x) = Some (r, k) ->
  inv (next_xlm relayerStellar g l rest (mkWorld (w_heap (upd r f w)) (w_active w) (w_gens w) (w_started w) (w_stopping w) (w_escrows w)
         (w_htlcs w) fail (w_routed w))).
Proof.
  intros Hf Hi Hx Hb. pose proof Hi as [Hbk Hg]. destruct (Hg g x Hx) as (He & Hh & Hs & Hd).
  set (w' := mkWorld _ _ _ _ _ _ _ _ _). assert (heap_le (w_heap w) (w_heap w')) as Hle by (by apply heap_le_alter).
  apply (next_xlm_inv g l rest w' x); [|done|by apply (eth_job_le w)| |by eapply deposit_le].
  - split; [by apply (books_le w)|]. intros g' x' Hne Hx'. by apply (gen_ok_le w), Hg.
  - pose proof Hh as Hh'. apply (xlm_job_le w w') in Hh'; [|done..]. rewrite Hb in Hh'. eapply job_end; [exact Hh'|].
    apply used_alter; [auto|done|]. by destruct (jo_busy _ _ _ _ _ Hh r k Hb).
Qed.

(** A call is made. *)
Lemma eth_called g r amount d rest w x :
  deposits g d -> inv w -> w_gens w !! g = Some x -> g_eth x = EthDeposit r amount rest ->
  inv (upd_gen g (with_eth (EthSending r rest)) (add_escrow (g, r, amount + d) w)).
Proof.
  intros Hdep [[Hb1 Hb2] Hg] Hx Ex. destruct (Hg g x Hx) as (He & Hh & Hs & Hd). rewrite Ex in He, Hd.
  apply (inv_close _ g _ x); [|done|].
  - split; [split; cbn; [|done]|].
    + intros g' r' z' [H|[= -> -> ->]%list_elem_of_singleton]%elem_of_app; [by eapply Hb1|]. split; [by eapply lookup_lt_Some|by exists amount, d].
    + intros g' x' Hne Hx'. destruct (Hg g' x' Hx') as (He' & Hh' & Hs' & Hd'). split_and!; [|done..]. unfold eth_job. cbn [w_escrows add_escrow w_heap].
      eapply job_ext; [|exact He']. intros r'. cbn [w_escrows w_htlcs add_escrow add_htlc]. rewrite calls_app, calls_one, decide_False by congruence. lia.
  - split_and!; [|done..]. unfold eth_job. cbn [w_escrows add_escrow w_heap g_eth with_eth busy_eth]. eapply job_call; [|..|exact He]; [lia|]. intros r'. cbn [w_escrows w_htlcs add_escrow add_htlc]. rewrite calls_app, calls_one.
    f_equal. destruct (decide (r = r')) as [->|]; [by rewrite decide_True|rewrite decide_False; congruence].
Qed.

Lemma xlm_called g l r k wei rest w x :
  inv w -> w_gens w !! g = Some x -> busy_xlm (g_xlm x) = Some (r, Some (Z.to_nat k)) -> 0 <= k < ETH_SEND_ATTEMPTS ->
  amount_is (w_heap w) r wei -> inv (send_htlc g l r wei (k + 1) rest w).
Proof.
  intros [[Hb1 Hb2] Hg] Hx Ex Hk Ha. destruct (Hg g x Hx) as (He & Hh & Hs & Hd). rewrite Ex in Hh. unfold ETH_SEND_ATTEMPTS in Hk.
  apply (inv_close _ g _ x); [|done|].
  - split; [split; cbn; [done|]|].
    + intros g' r' z' [H|[= -> -> ->]%list_elem_of_singleton]%elem_of_app; [by eapply Hb2|]. split; [by eapply lookup_lt_Some|done].
    + intros g' x' Hne Hx'. destruct (Hg g' x' Hx') as (He' & Hh' & Hs' & Hd'). split_and!; [done| |done..]. unfold xlm_job. cbn [w_htlcs add_htlc w_heap].
      eapply job_ext; [|exact Hh']. intros r'. cbn [w_escrows w_htlcs add_escrow add_htlc]. rewrite calls_app, calls_one, decide_False by congruence. lia.
  - split_and!; [done| |cbn; unfold ETH_SEND_ATTEMPTS; split; [lia|done]|done]. unfold xlm_job. cbn [g_xlm with_xlm busy_xlm w_htlcs add_htlc w_heap].
    replace (Z.to_nat (k + 1)) with (S (Z.to_nat k)) by lia. eapply job_call; [|..|exact Hh]; [lia|]. intros r'. cbn [w_escrows w_htlcs add_escrow add_htlc]. rewrite calls_app, calls_one.
    f_equal. destruct (decide (r = r')) as [->|]; [by rewrite decide_True|rewrite decide_False; congruence].
Qed.

(** Changes outside the pollers. *)
Lemma orch_inv_le w w' :
  heap_le (w_heap w) (w_heap w') -> w_escrows w' = w_escrows w -> w_htlcs w' = w_htlcs w -> w_gens w' = w_gens w -> inv w -> inv w'.
Proof.
  intros Hle He Hh Hg [Hb Hi]. split; [apply (books_le w); [done..|by rewrite Hg|done]|].
  intros g x Hx. rewrite Hg in Hx. by apply (gen_ok_le w), Hi.
Qed.

(** A poller moves on without touching orders or books. *)
Lemma gen_moves g f w x : inv w -> w_gens w !! g = Some x -> gen_ok w g (f x) -> inv (upd_gen g f w).
Proof. intros Hi Hx Hok. apply (inv_close w g f x); [by apply inv_open|done..]. Qed.

Lemma start_failed_inv g w x : inv w -> w_gens w !! g = Some x -> inv (start_failed g w).
Proof. intros Hi Hx. apply (orch_inv_le (upd_gen g (with_start StartFailed) w)); [done..|]. apply (gen_moves g _ w x Hi Hx); exact (proj2 Hi g x Hx). Qed.

Lemma escrow_failed_inv g r k rest w x :
  inv w -> w_gens w !! g = Some x -> busy_eth (g_eth x) = Some (r, k) -> inv (escrow_failed g r rest w).
Proof. intros Hi Hx Hb. eapply eth_settled; eauto. Qed.

Lemma htlc_failed_inv g l r k rest w x :
  inv w -> w_gens w !! g = Some x -> busy_xlm (g_xlm x) = Some (r, k) -> inv (htlc_failed relayerStellar g l r rest w).
Proof. intros Hi Hx Hb. eapply (xlm_settled g l r k rest w x); eauto. Qed.

Lemma settles_tx s tx : ~ inviting s -> settles (fun o => set_tx tx (set_status s o)).
Proof. intros Hs. by apply (settles_status s). Qed.

Lemma on_eth_inv g b answer w x : inv w -> w_gens w !! g = Some x -> busy_eth (g_eth x) = None -> inv (on_eth relayerAddress g b answer w).
Proof.
  intros Hi Hx Hb. destruct (proj2 Hi g x Hx) as (He & Hh & Hs & Hd). rewrite Hb in He. unfold on_eth.
  destruct answer as [[head chain]|]; [|by apply (gen_moves g _ w x Hi Hx)]. destruct (fetchIncomingEthPayments _ _ _ _ _) as [ps c].
  assert (inv (upd_gen g (with_block c) w)) as Hi' by (apply (gen_moves g _ w x Hi Hx); exact (proj2 Hi g x Hx)).
  apply (next_payment_inv g ps _ (with_block c x)); [by apply inv_open| |done..]. cbn. by rewrite list_lookup_alter_eq, Hx.
Qed.

Lemma on_memo_inv g l p rest memo w x :
  inv w -> w_gens w !! g = Some x -> busy_xlm (g_xlm x) = None -> inv (on_memo relayerStellar close g l p rest memo w).
Proof.
  intros Hi Hx Hb. destruct (proj2 Hi g x Hx) as (He & Hh & Hs & Hd). rewrite Hb in Hh.
  assert (inv (next_xlm relayerStellar g l rest w)) as Hn by (apply (next_xlm_inv g l rest w x); [by apply inv_open|done..]).
  unfold on_memo. destruct memo as [m|]; [|done]. destruct (startsWith m _); [|done]. cbv zeta. destruct (find_order _ w) as [r|] eqn:Ef; [|done].
  destruct (close _ _); [|done]. apply find_order_some in Ef as (id & o & Ho & Ht). apply andb_true_iff in Ht as [_ Ht%String.eqb_eq].
  apply (gen_moves g _ w x Hi Hx). split_and!; [done| |done..]. cbn. by eapply job_start.
Qed.

Lemma on_balance_inv g l r rest b a w x :
  inv w -> w_gens w !! g = Some x -> g_xlm x = XlmBalance l r rest -> inv (on_balance relayerStellar g l r rest b a w).
Proof.
  intros Hi Hx Ex. assert (inv (htlc_failed relayerStellar g l r rest w)) as Hf by (eapply htlc_failed_inv; [done..|by rewrite Ex]).
  unfold on_balance. destruct b as [b|]; [|done]. destruct (w_heap w !! r) as [o|] eqn:Ho; [|done]. cbn. destruct (or_ethAmount o) as [wei|] eqn:Ea; [|done].
  destruct (_ || _); [done|]. apply (xlm_called g l r 0 wei rest w x); [done..|by rewrite Ex|done|by exists o].
Qed.

Lemma on_sent_inv g l r wei n rest answer w x :
  inv w -> w_gens w !! g = Some x -> g_xlm x = XlmSend l r wei n rest -> inv (on_sent relayerStellar g l r wei n rest answer w).
Proof.
  intros Hi Hx Ex. destruct (proj2 Hi g x Hx) as (He & Hh & Hs & Hd). rewrite Ex in Hh, Hs. destruct Hs as [Hn Ha]. unfold on_sent. destruct answer as [tx|again].
  - apply (gen_moves g _ w x Hi Hx). split_and!; [done| |done..]. cbn. by eapply job_forget.
  - destruct (again && (n <? ETH_SEND_ATTEMPTS)) eqn:E.
    + apply andb_true_iff in E as [_ E%Z.ltb_lt]. apply (xlm_called g l r n wei rest w x); [done..|by rewrite Ex|lia|done].
    + eapply htlc_failed_inv; [done..|by rewrite Ex].
Qed.

Lemma gen_step_inv g x e w :
  (forall g' d, e = EDeposit g' (Some d) -> deposits g d) -> inv w -> w_gens w !! g = Some x -> inv (gen_step g x e w).
Proof.
  intros Hdep Hi Hx. pose proof (proj2 Hi g x Hx) as Hok. pose proof Hok as (He & Hh & Hs & Hd).
  assert (forall f, g_eth (f x) = g_eth x -> g_xlm (f x) = g_xlm x -> inv (upd_gen g f w)) as Hsame.
  { intros f E1 E2. apply (gen_moves g f w x Hi Hx). unfold gen_ok. by rewrite E1, E2. }
  assert (inv (start_failed g w)) as Hsf by (by eapply start_failed_inv).
  destruct e; cbn [gen_step]; try done.
  - destruct (g_start x), answer; auto.
  - destruct (g_start x), ok; auto.
  - destruct (g_start x), ok; auto.
  - destruct (g_eth x) eqn:E; try done. destruct (_ && _); [|done]. apply (gen_moves g _ w x Hi Hx). by split_and!.
  - destruct (g_eth x) eqn:E; try done. apply (on_eth_inv g _ _ w x); [done..|by rewrite E].
  - destruct (g_eth x) eqn:E; try done. destruct deposit as [d|]; [by apply (eth_called g ref amount d rest w x); eauto|].
    eapply escrow_failed_inv; [done..|by rewrite E].
  - destruct (g_eth x) eqn:E; try done. destruct tx; [|eapply escrow_failed_inv; [done..|by rewrite E]].
    apply (gen_moves g _ w x Hi Hx). by split_and!.
  - destruct (g_eth x) eqn:E; try done. destruct ok; [|eapply escrow_failed_inv; [done..|by rewrite E]].
    eapply eth_settled; [|done..|by rewrite E]. apply settles_tx. not_inviting.
  - destruct (g_xlm x) eqn:E; try done. destruct (_ && _); [|done]. apply (gen_moves g _ w x Hi Hx). by split_and!.
  - destruct (g_xlm x) eqn:E, answer; try done; [destruct (_ =? _)|]; apply (gen_moves g _ w x Hi Hx); by split_and!.
  - destruct (g_xlm x) eqn:E, answer; try done; [|apply (gen_moves g _ w x Hi Hx); by split_and!].
    apply (next_xlm_inv g _ _ w x); [by apply inv_open|done..].
  - destruct (g_xlm x) eqn:E, answer; try done; [|apply (gen_moves g _ w x Hi Hx); by split_and!].
    apply (on_memo_inv g _ _ _ _ w x); [done..|by rewrite E].
  - destruct (g_xlm x) eqn:E; try done. by apply (on_balance_inv g _ _ _ _ _ w x).
  - destruct (g_xlm x) eqn:E; try done. by apply (on_sent_inv g _ _ _ _ _ _ w x).
  - destruct (g_xlm x) eqn:E; try done. destruct ok; [|eapply htlc_failed_inv; [done..|by rewrite E]].
    eapply (xlm_settled g ledger ref None rest w x); [|done..|by rewrite E]. apply settles_tx. not_inviting.
Qed.

Lemma inv_upd r f w : settles f -> inv w -> inv (upd r f w).
Proof. intros Hf. apply orch_inv_le; [by apply heap_le_alter|done..]. Qed.

Lemma on_contract_inv test f w : settles f -> inv w -> inv (on_contract test f w).
Proof. intros Hf Hi. unfold on_contract. destruct (find_order _ w); [by apply inv_upd|done]. Qed.

Lemma listener_stopped_inv w : inv w -> inv (on_listener_stopped w).
Proof. intros Hi. unfold on_listener_stopped. destruct (w_stopping w); [done|]. by apply (orch_inv_le w). Qed.

Lemma orch_stop_inv w : inv w -> inv (stopChainMonitoring w).
Proof.
  intros [Hb Hi]. unfold stopChainMonitoring. destruct (w_started w); [|done].
  split; [apply (books_le w); [done..|cbn; by rewrite length_fmap|done]|].
  intros g x Hx. cbn in Hx. rewrite list_lookup_fmap in Hx. destruct (w_gens w !! g) as [x'|] eqn:Ex; [|done]. injection Hx as <-.
  by apply (gen_ok_le w), (Hi g x').
Qed.

Lemma ensure_inv w : inv w -> inv (ensureChainMonitoring hasKey w).
Proof.
  intros [Hb Hi]. unfold ensureChainMonitoring. destruct (w_started w); [done|]. destruct (negb hasKey); [done|].
  pose proof Hb as [H1 H2]. split.
  - split; cbn; rewrite length_app; intros g r z Hz; [destruct (H1 g r z Hz)|destruct (H2 g r z Hz)]; (split; [lia|done]).
  - intros g x Hx. cbn in Hx. apply lookup_app_Some in Hx as [Hx|[Hl Hx]]; [by apply Hi|].
    assert (g = length (w_gens w) /\ x = mkGeneration StartBlock false false EthIdle 0 XlmIdle 0) as [-> ->].
    { destruct (g - length (w_gens w))%nat as [|n] eqn:En; [|by destruct n]. injection Hx as <-. split; [lia|done]. }
    assert (forall r l, (forall g r z, (g, r, z) ∈ l -> (g < length (w_gens w))%nat) -> calls (length (w_gens w)) r l = 0%nat) as H0.
    { intros r l Hlt. destruct (calls (length (w_gens w)) r l) as [|n] eqn:E; [done|]. destruct (calls_pos (length (w_gens w)) r l) as [z Hz]; [lia|].
      specialize (Hlt _ _ _ Hz). lia. }
    split_and!; [| |done|done]; apply job_new; intros r; apply H0; intros g r' z Hz; [by destruct (H1 g r' z Hz)|by destruct (H2 g r' z Hz)].
Qed.

Lemma expire_inv now l w : inv w ->
  inv (foldl (fun w (e : string * nat) => match w_heap w !! e.2 with
                     | Some o => if abandoned now DEFAULT_ABANDON_MS o then upd e.2 (set_status "expired") w else w
                     | None => w end) w l).
Proof.
  revert w. induction l as [|e l IH]; intros w Hi; [done|]. cbn [foldl]. apply IH. destruct (w_heap w !! e.2); [|done].
  destruct (abandoned _ _ _); [|done]. apply inv_upd; auto.
Qed.

Lemma settles_hash s oh : ~ inviting s -> settles (fun o => set_status s (set_orderHash oh o)).
Proof. intros Hs. by apply (settles_status s). Qed.
Lemma settles_escrow s id address : ~ inviting s -> settles (fun o => set_status s (set_escrow (id o) address o)).
Proof. intros Hs. by apply (settles_status s). Qed.

Lemma store_inv id o w : inv w -> inv (storeActiveOrder hasKey id o w).
Proof.
  intros Hi. unfold storeActiveOrder. cbv zeta. set (w' := mkWorld _ _ _ _ _ _ _ _ _).
  assert (inv w') as Hi' by (apply (orch_inv_le w); [apply heap_le_app|done..]). destruct (needsChainMonitoring _); [by apply ensure_inv|done].
Qed.

Lemma reconcile_inv now w : inv w -> inv (reconcileChainMonitoring now w).
Proof.
  intros Hi. unfold reconcileChainMonitoring. cbv zeta. pose proof (expire_inv now (w_active w) w Hi) as Hi'.
  destruct (_ && _); [by apply orch_stop_inv|done].
Qed.

(** The routes never offer an order again. *)
Definition event_ok (e : Event) : Prop := match e with ERoute _ s => ~ inviting s | _ => True end.

Lemma orch_step_inv w e :
  event_ok e -> (forall g d, e = EDeposit g (Some d) -> deposits g d) -> inv w -> inv (step w e).
Proof.
  intros He Hdep Hi. destruct e; cbn [step];
    try (destruct (w_gens w !! g) as [x|] eqn:Hx; [apply (gen_step_inv g x _ w); [by intros g' d [= <- ->]; apply Hdep|done..]|done]).
  - by apply store_inv.
  - apply inv_upd; [by apply settles_set|done].
  - by apply (orch_inv_le w).
  - by apply reconcile_inv.
  - by apply orch_stop_inv.
  - by apply listener_stopped_inv.
  - apply on_contract_inv; [|done]. apply settles_hash. not_inviting.
  - apply on_contract_inv; [|done]. apply (settles_escrow _ or_escrowId). not_inviting.
  - apply on_contract_inv; [|done]. apply (settles_escrow _ (fun _ => Some id)). not_inviting.
  - apply on_contract_inv; [|done]. auto.
Qed.

Lemma new_inv : inv new_world.
Proof. split; [split; intros g r z Hz; by apply elem_of_nil in Hz|done]. Qed.

Lemma run_inv_orch es :
  Forall event_ok es -> (forall g d, EDeposit g (Some d) ∈ es -> deposits g d) ->
  inv (run relayerAddress relayerStellar mainnet hasKey close es).
Proof.
  unfold run. generalize new_inv. generalize new_world. induction es as [|e es IH]; intros w Hi Hes Hd; [done|].
  apply Forall_cons in Hes as [He Hes]. cbn [foldl]. apply IH; [|done|].
  - apply orch_step_inv; [done| |done]. intros g d ->. apply Hd. by left.
  - intros g d Hin. apply Hd. by right.
Qed.
End Steps.
End Books.

(** All the calls for order [r]. *)
Definition paid (r : nat) (l : list (nat * nat * Z)) : nat := length (filter (fun e => e.1.2 = r) l).

Lemma paid_split g r l : paid r l = (calls g r l + paid r (filter (fun e => e.1.1 <> g) l))%nat.
Proof.
  unfold paid, calls. induction l as [|[[g' r'] z] l IH]; [done|]. rewrite !filter_cons. cbn [fst snd].
  repeat case_decide; rewrite ?filter_cons; cbn [fst snd]; repeat case_decide; simplify_eq; try done; cbn; lia.
Qed.

Lemma calls_filter g r P `{!forall e, Decision (P e)} l : (calls g r (filter P l) <= calls g r l)%nat.
Proof.
  unfold calls. rewrite !list_filter_filter. induction l as [|e l IH]; [done|]. rewrite !filter_cons.
  destruct (decide (e.1 = (g, r) /\ P e)) as [[H1 H2]|]; [rewrite decide_True by done; cbn; lia|]. destruct (decide (e.1 = (g, r))); cbn; lia.
Qed.

(** With [n] pollers of at most [k] calls for an order each. *)
Lemma paid_bound n k r l :
  (forall g r z, (g, r, z) ∈ l -> (g < n)%nat) -> (forall g, (calls g r l <= k)%nat) -> (paid r l <= n * k)%nat.
Proof.
  revert l. induction n as [|n IH]; intros l Hl Hc.
  - destruct l as [|[[g r'] z] l]; [done|]. specialize (Hl g r' z ltac:(by left)). lia.
  - rewrite (paid_split n). specialize (IH (filter (fun e => e.1.1 <> n) l)). specialize (Hc n) as Hn. cbn. apply Nat.add_le_mono; [done|]. apply IH.
    + intros g r' z [Hne Hz]%list_elem_of_filter. specialize (Hl g r' z Hz). cbn in Hne. lia.
    + intros g. etrans; [apply calls_filter|done].
Qed.

(** The order exists, is no longer offered with status [s], or the poller is at it. *)
Definition settled_or (w : World) (s : string) (r : nat) (busy : option (nat * option nat)) : Prop :=
  used (w_heap w) s r \/ exists k, busy = Some (r, k).

(** C39.  The relayer's chain monitoring takes up an order for payment at most once
    for each of its starts.  For every interleaving of the two pollers of every generation with
    the routes, the reconciliation, overlapping stops and the contract events,
    where no route offers an order again: a generation calls createEscrow for an
    order at most once, with the order's amount plus a safety deposit that was
    computed for that generation, and createOrder on the bridge at most three times
    (the retries of one send), always with the order's own ETH amount; an order it
    called for is no longer offered unless the call is still in progress; so over
    all generations there are at most as many createEscrow calls for an order as
    generations, and at most three times as many createOrder calls.  ETH that the
    routes send themselves is not counted here. *)
Theorem orders_paid_once relayerAddress relayerStellar mainnet hasKey close es :
  Forall event_ok es ->
  let w := run relayerAddress relayerStellar mainnet hasKey close es in
  (forall g x r, w_gens w !! g = Some x ->
     (calls g r (w_escrows w) <= 1)%nat /\ (calls g r (w_htlcs w) <= Z.to_nat ETH_SEND_ATTEMPTS)%nat /\
     ((0 < calls g r (w_escrows w))%nat -> settled_or w "pending_relayer_escrow" r (busy_eth (g_eth x))) /\
     ((0 < calls g r (w_htlcs w))%nat -> settled_or w "awaiting_xlm_payment" r (busy_xlm (g_xlm x)))) /\
  (forall g r value, (g, r, value) ∈ w_escrows w ->
     exists o amount d, w_heap w !! r = Some o /\ or_amount o = Some amount /\ EDeposit g (Some d) ∈ es /\ value = amount + d) /\
  (forall g r wei, (g, r, wei) ∈ w_htlcs w -> exists o, w_heap w !! r = Some o /\ or_ethAmount o = Some wei) /\
  forall r, (paid r (w_escrows w) <= length (w_gens w))%nat /\ (paid r (w_htlcs w) <= 3 * length (w_gens w))%nat.
Proof.
  intros Hes w. pose (deposits g d := EDeposit g (Some d) ∈ es).
  destruct (run_inv_orch deposits relayerAddress relayerStellar mainnet hasKey close es Hes) as [[H1 H2] Hg]; [done|]. fold w in H1, H2, Hg.
  assert (forall g r, (calls g r (w_escrows w) <= 1)%nat /\ (calls g r (w_htlcs w) <= 3)%nat) as Hc.
  { intros g r. destruct (w_gens w !! g) as [x|] eqn:Hx.
    - destruct (Hg g x Hx) as (He & Hh & _ & _). split; [apply (jo_limit _ _ _ _ _ He)|apply (jo_limit _ _ _ _ _ Hh)].
    - apply lookup_ge_None in Hx. split; apply Nat.le_ngt; intros Hp.
      + destruct (calls_pos g r (w_escrows w)) as [z Hz]; [lia|]. destruct (H1 _ _ _ Hz). lia.
      + destruct (calls_pos g r (w_htlcs w)) as [z Hz]; [lia|]. destruct (H2 _ _ _ Hz). lia. }
  split_and!.
  - intros g x r Hx. destruct (Hc g r). destruct (Hg g x Hx) as (He & Hh & _ & _). split_and!; [done|done|apply (jo_used _ _ _ _ _ He)|apply (jo_used _ _ _ _ _ Hh)].
  - intros g r z Hz. destruct (H1 _ _ _ Hz) as [_ (amount & d & (o & Ho & Ha) & Hd & ->)]. by exists o, amount, d.
  - intros g r wei Hz. by destruct (H2 _ _ _ Hz).
  - intros r. split.
    + rewrite <- (Nat.mul_1_r (length _)). apply paid_bound; [|intros g; apply Hc]. intros g r' z Hz. by destruct (H1 _ _ _ Hz).
    + rewrite Nat.mul_comm. apply paid_bound; [|intros g; apply Hc]. intros g r' z Hz. by destruct (H2 _ _ _ Hz).
Qed.

(** ** Runs *)

Definition demo_close (received : string) (expected : option string) : bool := bool_decide (Some received = expected).
Definition demo_run : list Event -> World := run "0xRelayer" "GRELAYER" true true demo_close.
Definition xlm_order (wei : Z) : Order :=
  mkOrder "awaiting_xlm_payment" (Some 0) "0xuser" None "hash" None None None (Some "10") (Some wei) None.
Definition eth_order (amount : Z) : Order :=
  mkOrder "pending_relayer_escrow" (Some 0) "0xuser" (Some amount) "hash" None None None None None None.
Definition xlm_payment : XlmPayment := mkXlmPayment "payment" "native" "GRELAYER" "10" "tx1".

(** The start of generation [g], its first look at the ledger, a payment and its memo. *)
Definition starts (g : nat) : list Event := [EBlock g (Some 5); EFactory g true].
Definition first_ledger (g : nat) : list Event := [ETickXlm g; ELedger g (Some 20)].
Definition pays (g : nat) (ledger : Z) (memo : string) : list Event :=
  [ETickXlm g; ELedger g (Some ledger); EPayments g (Some [xlm_payment]); EMemo g (Some (Some memo))].
Definition sends (g : nat) : list Event := [EBalance g (Some (10 ^ 18)) true; ESent g (Ok "0xt"); EReceipt g true].

Definition demo_events : list Event :=
  EStore "order-abc" (xlm_order 100) :: starts 0 ++ first_ledger 0 ++ pays 0 21 "XLM-ETH-abc" ++
  [EBalance 0 (Some (10 ^ 18)) true; ESent 0 (Throw true); ESent 0 (Ok "0xt"); EReceipt 0 true].

Lemma orders_paid_once_witness :
  let w := demo_run demo_events in
  w_htlcs w = [(0%nat, 0%nat, 100); (0%nat, 0%nat, 100)] /\ or_status <$> w_heap w = ["eth_htlc_created"] /\ (paid 0 (w_htlcs w) <= 3 * length (w_gens w))%nat.
Proof.
  split; [vm_compute; reflexivity|]. split; [vm_compute; reflexivity|].
  destruct (orders_paid_once "0xRelayer" "GRELAYER" true true demo_close demo_events) as (_ & _ & _ & H).
  - unfold demo_events, starts, first_ledger, pays. cbn [app]. repeat constructor.
  - apply (H 0%nat).
Defined.

(** A transfer of one wei from the order's address has the relayer lock the whole
    amount and the deposit: the value received is not compared with the order's. *)
Example dust_locks_escrow :
  let w := demo_run (EStore "o" (eth_order (10 ^ 18)) :: starts 0 ++
             [ETickEth 0; EEthBlocks 0 (Some (6, fun _ => Some [Some (mkTx (Some "0xh") "0xuser" (Some "0xrelayer") 1)])); EDeposit 0 (Some 7);
              EEscrowSent 0 (Some "0xe"); EEscrowMined 0 true]) in
  w_escrows w = [(0%nat, 0%nat, 10 ^ 18 + 7)] /\ or_status <$> w_heap w = ["escrow_created_by_relayer"].
Proof. vm_compute. done. Qed.

(** A memo without an order id settles the first order that awaits the amount. *)
Example empty_memo_matches :
  w_htlcs (demo_run (EStore "order-abc" (xlm_order 100) :: starts 0 ++ first_ledger 0 ++ pays 0 21 "XLM-ETH-" ++ sends 0)) = [(0%nat, 0%nat, 100)].
Proof. vm_compute. done. Qed.

(** A payment that two ticks read settles two orders. *)
Example one_payment_two_orders :
  w_htlcs (demo_run (EStore "order-abc" (xlm_order 100) :: EStore "order-def" (xlm_order 100) :: starts 0 ++ first_ledger 0 ++
             pays 0 21 "XLM-ETH-order" ++ sends 0 ++ pays 0 22 "XLM-ETH-order" ++ sends 0)) = [(0%nat, 0%nat, 100); (0%nat, 1%nat, 100)].
Proof. vm_compute. done. Qed.

(** A start that fails after its pollers run leaves them running; the next start
    adds its own, and both pay for the same order. *)
Example failed_start_pays_twice :
  let w := demo_run ([EStore "order-abc" (xlm_order 100); EBlock 0 (Some 5); EFactory 0 false; EStore "order-def" (xlm_order 100)] ++
             starts 1 ++ first_ledger 0 ++ first_ledger 1 ++ pays 0 21 "XLM-ETH-abc" ++ pays 1 21 "XLM-ETH-abc" ++ sends 0 ++ sends 1) in
  w_htlcs w = [(0%nat, 0%nat, 100); (1%nat, 0%nat, 100)] /\ or_status <$> w_heap w = ["eth_htlc_created"; "awaiting_xlm_payment"].
Proof. vm_compute. done. Qed.

(** A route that sends ETH for the payment does not look at the payment of the
    monitoring, nor the other way round: both pay. *)
Example route_pays_again :
  let w := demo_run (EStore "order-abc" (xlm_order 100) :: starts 0 ++ first_ledger 0 ++ pays 0 21 "XLM-ETH-abc" ++ sends 0 ++
             [ERoutePays 0 100; ERoute 0 "eth_tx_sent"]) in
  w_htlcs w = [(0%nat, 0%nat, 100)] /\ w_routed w = [(0%nat, 100)].
Proof. vm_compute. done. Qed.

(** Two stops overlap: the second ends after a new start and declares the
    monitoring stopped while its pollers run, so the next order starts another. *)
Example overlapping_stops :
  let w := demo_run ([EStore "o" (xlm_order 100)] ++ starts 0 ++ [EShutdown; EShutdown; EListenerStopped; EStore "p" (xlm_order 100)] ++
             starts 1 ++ [EListenerStopped; EStore "q" (xlm_order 100)] ++ starts 2) in
  polling <$> w_gens w = [false; true; true].
Proof. vm_compute. done. Qed.

(** A stop while a start awaits its first block does not stop that start's pollers. *)
Example stop_during_start_leaks :
  polling <$> w_gens (demo_run ([EStore "o" (xlm_order 100); ERoute 0 "cancelled"; EReconcile 0] ++ starts 0)) = [true].
Proof. vm_compute. done. Qed.

(** ** The memo of an order (POST /api/orders/create) *)

(** [`order_${Date.now()}_${random}`], where [now] is the text of the time. *)
Definition new_order_id (now random : string) : string := "order_" ++ now ++ "_" ++ random.
Definition order_memo (orderId : string) : string := "XLM-ETH-" ++ String.substring 0 8 orderId.

(** The eight characters hold two digits of the time: the orders of more than three
    years, 2023-11-14 to 2027-01-15, share one memo, which fits each of them. *)
Lemma memo_shared t t' r r' :
  order_memo (new_order_id ("17" ++ t) r) = order_memo (new_order_id ("17" ++ t') r') /\
  includes (new_order_id ("17" ++ t') r') (String.substring 0 8 (new_order_id ("17" ++ t) r)) = true.
Proof.
  assert (forall t r, new_order_id ("17" ++ t) r = "order_17" ++ (t ++ "_" ++ r))%string as E by done. unfold order_memo. rewrite !E.
  generalize (t ++ "_" ++ r)%string, (t' ++ "_" ++ r')%string. intros u u'. by destruct u, u'.
Qed.

Definition first_id : string := new_order_id "1750000000000" "aaaaaa".
Definition second_id : string := new_order_id "1750000000001" "bbbbbb".
Definition order_of (address amount : string) : Order :=
  mkOrder "awaiting_xlm_payment" (Some 0) address None "hash" None None None (Some amount) (Some 100) None.

(** The payment for the second order settles the first, whose owner paid nothing. *)
Example payment_settles_other_order :
  or_status <$> w_heap (demo_run (EStore first_id (order_of "0xfirst" "10") :: EStore second_id (order_of "0xsecond" "10") :: starts 0 ++
                                  first_ledger 0 ++ pays 0 21 (order_memo second_id) ++ sends 0)) = ["eth_htlc_created"; "awaiting_xlm_payment"].
Proof. vm_compute. done. Qed.

(** When the amounts differ, the payment is compared with the first order only and
    is passed over, together with its ledger. *)
Example payment_passed_over :
  let w := demo_run (EStore first_id (order_of "0xfirst" "25") :: EStore second_id (order_of "0xsecond" "10") :: starts 0 ++
                     first_ledger 0 ++ pays 0 21 (order_memo second_id)) in
  w_htlcs w = [] /\ or_status <$> w_heap w = ["awaiting_xlm_payment"; "awaiting_xlm_payment"] /\ g_lastLedger <$> w_gens w = [21].
Proof. vm_compute. done. Qed.
