(* ===== verification/OrderStream.v ===== *)
(** * The client's event stream

    frontend/src/lib/orderEvents.ts, lib/orderEventStream.ts, lib/sseTransport.ts,
    hooks/useOrderSubscription.ts and useOrderStream.ts.  A subscription is one
    state; its operations are what its transports report, what the poll timer and
    the EventSource do, and [unsubscribe].  The consumer of the events is a
    function of the events seen so far that says whether it unsubscribes inside
    its handler, which it can do once [subscribeToOrderEvents] has returned;
    exceptions it throws are swallowed.  Subscriptions share nothing but the
    channel, which calls each of them.

    The answers of the coordinator and the frames of the stream are inputs.  The
    bag of further fields ([details]) is carried along.  A status that names a
    member of [Object.prototype] finds that member in the table of statuses; it is
    the constructor [Inherited]. *)

From S2P Require Import Prelude JsMap OrderMachine Notifications.

(** ** Statuses *)

Inductive OrderEventStatus : Type :=
| ui_pending | ui_confirmed | ui_completed | ui_cancelled | ui_failed | ui_refunded | ui_expired | ui_timed_out
| Inherited (member : string).
#[export] Instance OrderEventStatus_eq_dec : EqDecision OrderEventStatus.
Proof. solve_decision. Defined.

Definition ORDER_EVENT_STATUSES : list (string * OrderEventStatus) :=
  [("pending", ui_pending); ("confirmed", ui_confirmed); ("completed", ui_completed); ("cancelled", ui_cancelled);
   ("failed", ui_failed); ("refunded", ui_refunded); ("expired", ui_expired); ("timed_out", ui_timed_out)].

Definition COORDINATOR_STATUS_MAP : list (string * OrderEventStatus) :=
  [("announced", ui_pending); ("src_locked", ui_pending); ("dst_locked", ui_confirmed); ("secret_revealed", ui_confirmed);
   ("completed", ui_completed); ("refunded", ui_refunded); ("failed", ui_failed); ("expired", ui_expired);
   ("cancelled", ui_cancelled); ("abandoned", ui_cancelled)].

Definition coordinator_lookup (raw : string) : option OrderEventStatus :=
  match jm_get raw COORDINATOR_STATUS_MAP with
  | Some s => Some s
  | None => if bool_decide (raw ∈ PROTOTYPE_MEMBERS) then Some (Inherited raw) else None
  end.

(** [None] stands for a value that is not a string. *)
Definition isOrderEventStatus (raw : option string) : bool :=
  match raw with Some s => jm_has s ORDER_EVENT_STATUSES | None => false end.

Definition isTerminalOrderStatus (s : OrderEventStatus) : bool :=
  bool_decide (s ∈ [ui_completed; ui_cancelled; ui_failed; ui_refunded; ui_expired; ui_timed_out]).
Definition isFailureStatus (s : OrderEventStatus) : bool := bool_decide (s ∈ [ui_failed; ui_expired; ui_timed_out]).

Definition normalizeOrderStatus (raw : option string) : OrderEventStatus :=
  match raw with
  | Some s =>
      match jm_get s ORDER_EVENT_STATUSES with
      | Some st => st
      | None => match coordinator_lookup s with Some st => st | None => ui_pending end
      end
  | None => ui_pending
  end.

Definition isKnownOrderStatusInput (raw : option string) : bool :=
  isOrderEventStatus raw || match raw with Some s => bool_decide (is_Some (coordinator_lookup s)) | None => false end.

(** ** Errors *)

Inductive OrderEventErrorCode : Type := err_network | err_http | err_parse | err_order_failed | err_exhausted | err_unknown.
#[export] Instance OrderEventErrorCode_eq_dec : EqDecision OrderEventErrorCode.
Proof. solve_decision. Defined.

Record OrderEventError : Type := mkError { er_code : OrderEventErrorCode; er_message : string; er_retryable : bool }.

(** What can be thrown or reported: an [Error], a string, an object that is already
    an [OrderEventError], anything else. *)
Inductive Cause : Type := AnError (message : string) | AString (s : string) | AnEventError (e : OrderEventError) | Something.

Definition RETRYABLE_CODES : list OrderEventErrorCode := [err_network; err_http; err_unknown].

Definition toOrderEventError (cause : Cause) (code : OrderEventErrorCode) : OrderEventError :=
  let message :=
    match cause with
    | AnError m => m
    | AString s => if truthy_string (trim s) then s else "Unknown subscription error"
    | _ => "Unknown subscription error"
    end in
  mkError code message (bool_decide (code ∈ RETRYABLE_CODES)).

(** ** Payloads and events *)

Inductive OrderEventSource : Type := src_poll | src_live | src_local | src_cache.
Inductive OrderUnsubscribeReason : Type := manual | settled | exhausted.

Section Stream.
Context {Bag : Type} (no_details : Bag).

Record OrderEventPayload : Type := mkPayload {
  ep_orderId : string;
  ep_status : OrderEventStatus;
  ep_previousStatus : option OrderEventStatus;
  ep_source : OrderEventSource;
  ep_at : Z;
  ep_srcTxHash : option string;
  ep_dstTxHash : option string;
  ep_error : option OrderEventError;
  ep_details : Bag
}.

Inductive OrderEvent : Type :=
| Subscribed (at_ : Z) (subscriptionId : string)
| Snapshot (at_ : Z) (source : OrderEventSource) (orders : list OrderEventPayload)
| StatusEvent (at_ : Z) (order : OrderEventPayload)
| StreamError (at_ : Z) (error : OrderEventError) (consecutiveFailures : Z)
| Unsubscribed (at_ : Z) (subscriptionId : string) (reason : OrderUnsubscribeReason).

(** Used in the message of a failure only. *)
Definition status_text (s : OrderEventStatus) : string :=
  match s with
  | ui_pending => "pending" | ui_confirmed => "confirmed" | ui_completed => "completed" | ui_cancelled => "cancelled"
  | ui_failed => "failed" | ui_refunded => "refunded" | ui_expired => "expired" | ui_timed_out => "timed_out" | Inherited m => m
  end.
Definition dq : string := String (Ascii.ascii_of_nat 34) EmptyString.

Definition createOrderEventPayload (now : Z) (orderId : string) (raw : option string) (source : OrderEventSource)
    (previousStatus : option OrderEventStatus) (at_ : option Z) (srcTxHash dstTxHash : option string) (error : option OrderEventError)
    (details : option Bag) : OrderEventPayload :=
  let status := normalizeOrderStatus raw in
  let error :=
    if isFailureStatus status then
      Some (default (mkError err_order_failed ("Order " +:+ orderId +:+ " ended in state " +:+ dq +:+ status_text status +:+ dq +:+ ".") false) error)
    else None in
  mkPayload orderId status previousStatus source (default now at_) srcTxHash dstTxHash error (default no_details details).

(** A row of the history, with the fields that are promoted. *)
Record HistoryRow : Type := mkHistoryRow {
  hr_id : string; hr_status : option string; hr_txHash : option string; hr_ethTxHash : option string;
  hr_stellarTxHash : option string; hr_direction : option string; hr_rest : Bag
}.

Definition or_else {A} (x y : option A) : option A := match x with Some _ => x | None => y end.

Definition orderEventFromHistoryRow (now : Z) (row : HistoryRow) (source : OrderEventSource) (previousStatus : option OrderEventStatus) : OrderEventPayload :=
  let isEthSource := match hr_direction row with Some d => startsWith d "eth" | None => false end in
  let srcTxHash := or_else (if isEthSource then hr_ethTxHash row else hr_stellarTxHash row) (hr_txHash row) in
  let dstTxHash := if isEthSource then hr_stellarTxHash row else hr_ethTxHash row in
  createOrderEventPayload now (hr_id row) (hr_status row) source previousStatus None srcTxHash dstTxHash None (Some (hr_rest row)).

(** A record of the coordinator; [updatedAt] is in seconds. *)
Definition orderEventFromCoordinatorRecord (now : Z) (id : string) (status : option string) (updatedAt : option Z) (srcLockTx dstLockTx : option string)
    (details : Bag) (source : OrderEventSource) (previousStatus : option OrderEventStatus) : OrderEventPayload :=
  createOrderEventPayload now id status source previousStatus ((fun t => t * 1000) <$> updatedAt) srcLockTx dstLockTx None (Some details).

(** ** A subscription *)

(** Leaves of a transport: the in-app channel, a poll timer, an EventSource, and
    a transport whose [start] throws. *)
Inductive LeafKind : Type := ChannelLeaf | PollLeaf (immediate : bool) | SseLeaf (orderId : string) (environment : SseStart) | BrokenLeaf (cause : Cause)
with SseStart : Type := NoEventSource | OpenFails (message : option string) | Opens.

Record Leaf : Type := mkLeaf { lf_kind : LeafKind; lf_released : bool; lf_inFlight : bool }.

Record Sub : Type := mkSub {
  s_id : string;
  s_max : Z;
  s_stopWhenAllSettled : bool;
  s_lastStatus : list (string * OrderEventStatus);
  s_failures : Z;
  s_active : bool;
  s_returned : bool;
  s_teardown : bool;
  s_leaves : list Leaf;
  s_trace : list OrderEvent
}.

Definition set_last (m : list (string * OrderEventStatus)) (s : Sub) : Sub :=
  mkSub (s_id s) (s_max s) (s_stopWhenAllSettled s) m (s_failures s) (s_active s) (s_returned s) (s_teardown s) (s_leaves s) (s_trace s).
Definition set_failures (n : Z) (s : Sub) : Sub :=
  mkSub (s_id s) (s_max s) (s_stopWhenAllSettled s) (s_lastStatus s) n (s_active s) (s_returned s) (s_teardown s) (s_leaves s) (s_trace s).
Definition set_leaves (l : list Leaf) (s : Sub) : Sub :=
  mkSub (s_id s) (s_max s) (s_stopWhenAllSettled s) (s_lastStatus s) (s_failures s) (s_active s) (s_returned s) (s_teardown s) l (s_trace s).
Definition add_event (e : OrderEvent) (s : Sub) : Sub :=
  mkSub (s_id s) (s_max s) (s_stopWhenAllSettled s) (s_lastStatus s) (s_failures s) (s_active s) (s_returned s) (s_teardown s) (s_leaves s) (s_trace s ++ [e]).

Definition release (l : Leaf) : Leaf := mkLeaf (lf_kind l) true (lf_inFlight l).

(** [finish]: [teardown] is called when it is set, which it is once [start] returned. *)
Definition finish (now : Z) (reason : OrderUnsubscribeReason) (s : Sub) : Sub :=
  if s_active s then
    mkSub (s_id s) (s_max s) (s_stopWhenAllSettled s) (s_lastStatus s) (s_failures s) false (s_returned s) (s_teardown s)
      (if s_teardown s then release <$> s_leaves s else s_leaves s) (s_trace s ++ [Unsubscribed now (s_id s) reason])
  else s.

Context (react : list OrderEvent -> option OrderUnsubscribeReason).

Definition emit (now : Z) (e : OrderEvent) (s : Sub) : Sub :=
  let s := add_event e s in
  if s_returned s then match react (s_trace s) with Some reason => finish now reason s | None => s end else s.

Definition reconcile (now : Z) (order : OrderEventPayload) (s : Sub) : Sub :=
  let previous := jm_get (ep_orderId order) (s_lastStatus s) in
  let s := set_last (jm_set (ep_orderId order) (ep_status order) (s_lastStatus s)) s in
  if bool_decide (previous = Some (ep_status order)) then s
  else
    emit now (StatusEvent (ep_at order)
      (mkPayload (ep_orderId order) (ep_status order) previous (ep_source order) (ep_at order) (ep_srcTxHash order) (ep_dstTxHash order)
         (ep_error order) (ep_details order))) s.

Definition allSettled (s : Sub) : bool :=
  match s_lastStatus s with [] => false | m => forallb isTerminalOrderStatus (jm_values m) end.

Definition settle (now : Z) (s : Sub) : Sub := if s_stopWhenAllSettled s && allSettled s then finish now settled s else s.

Definition sourceOf (orders : list OrderEventPayload) : OrderEventSource := match orders with o :: _ => ep_source o | [] => src_poll end.

Definition snapshot (now : Z) (orders : list OrderEventPayload) (s : Sub) : Sub :=
  if s_active s then
    settle now (foldl (fun s o => reconcile now o s) (emit now (Snapshot now (sourceOf orders) orders) (set_failures 0 s)) orders)
  else s.

Definition update (now : Z) (order : OrderEventPayload) (s : Sub) : Sub :=
  if s_active s then settle now (reconcile now order (set_failures 0 s)) else s.

Definition fail (now : Z) (cause : Cause) (s : Sub) : Sub :=
  if s_active s then
    let n := s_failures s + 1 in
    let error := match cause with AnEventError e => e | _ => toOrderEventError cause err_unknown end in
    let s := emit now (StreamError now error n) (set_failures n s) in
    if (0 <? s_max s) && (s_max s <=? s_failures s) then finish now exhausted s else s
  else s.

(** ** Transports *)

Definition set_leaf (i : nat) (f : Leaf -> Leaf) (s : Sub) : Sub := set_leaves (alter f i (s_leaves s)) s.
Definition in_flight (b : bool) (l : Leaf) : Leaf := mkLeaf (lf_kind l) (lf_released l) b.

(** [start] of a leaf: [Throw] when it throws. *)
Definition start_leaf (now : Z) (k : LeafKind) (s : Sub) : outcome Cause Sub :=
  match k with
  | ChannelLeaf => Ok (set_leaves (s_leaves s ++ [mkLeaf k false false]) s)
  | PollLeaf immediate => Ok (set_leaves (s_leaves s ++ [mkLeaf k false immediate]) s)
  | SseLeaf _ Opens => Ok (set_leaves (s_leaves s ++ [mkLeaf k false false]) s)
  | SseLeaf _ NoEventSource => Ok (fail now (AnEventError (mkError err_network "EventSource is not available in this environment" false)) s)
  | SseLeaf _ (OpenFails m) => Ok (fail now (AnEventError (mkError err_network (default "Failed to open SSE connection" m) true)) s)
  | BrokenLeaf cause => Throw cause
  end.

(** [mergeTransports]. *)
Fixpoint start_merged (now : Z) (leaves : list LeafKind) (s : Sub) : Sub :=
  match leaves with
  | [] => s
  | k :: rest =>
      start_merged now rest
        match start_leaf now k s with Ok s => s | Throw cause => fail now (AnEventError (toOrderEventError cause err_network)) s end
  end.

Inductive Transport : Type := Single (k : LeafKind) | Merged (leaves : list LeafKind).

Definition with_teardown (s : Sub) : Sub :=
  mkSub (s_id s) (s_max s) (s_stopWhenAllSettled s) (s_lastStatus s) (s_failures s) (s_active s) (s_returned s) true (s_leaves s) (s_trace s).
Definition returned (s : Sub) : Sub :=
  mkSub (s_id s) (s_max s) (s_stopWhenAllSettled s) (s_lastStatus s) (s_failures s) (s_active s) true (s_teardown s) (s_leaves s) (s_trace s).

Definition subscribeToOrderEvents (now : Z) (counter : Z) (t : Transport) (maxConsecutiveFailures : option Z) (stopWhenAllSettled : bool) : Sub :=
  let id := "sub_" +:+ pretty (counter + 1) in
  let s := mkSub id (default 5 maxConsecutiveFailures) stopWhenAllSettled [] 0 true false false [] [] in
  let s := emit now (Subscribed now id) s in
  returned
    match t with
    | Merged leaves => with_teardown (start_merged now leaves s)
    | Single k =>
        match start_leaf now k s with
        | Ok s => with_teardown s
        | Throw cause => finish now exhausted (fail now (AnEventError (toOrderEventError cause err_network)) s)
        end
    end.

Definition unsubscribe (now : Z) (reason : OrderUnsubscribeReason) (s : Sub) : Sub := finish now reason s.

(** The channel calls the subscriptions whose emitter it holds. *)
Definition on_channel (s : Sub) : bool := existsb (fun l => match lf_kind l with ChannelLeaf => negb (lf_released l) | _ => false end) (s_leaves s).

(** The poll timer of a leaf fires; a poll settles. *)
Definition poll_tick (i : nat) (s : Sub) : Sub :=
  match s_leaves s !! i with
  | Some l => match lf_kind l with
              | PollLeaf _ => if lf_released l || lf_inFlight l then s else set_leaf i (in_flight true) s
              | _ => s
              end
  | None => s
  end.

Definition poll_done (now : Z) (i : nat) (answer : outcome Cause (list OrderEventPayload)) (s : Sub) : Sub :=
  match s_leaves s !! i with
  | Some l =>
      if lf_inFlight l then
        set_leaf i (in_flight false)
          (if lf_released l then s
           else match answer with Ok orders => snapshot now orders s | Throw cause => fail now (AnEventError (toOrderEventError cause err_network)) s end)
      else s
  | None => s
  end.

Definition EVENT_NAME_TO_STATUS : list (string * string) :=
  [("OrderCreated", "src_locked"); ("OrderClaimed", "dst_locked"); ("OrderRefunded", "refunded"); ("SecretRevealed", "secret_revealed"); ("StatusChanged", "")].

(** What the transport reads of a frame; [None] when the JSON does not parse. *)
Record Frame : Type := mkFrame { fr_status : option string; fr_srcTxHash : option string; fr_dstTxHash : option string; fr_raw : Bag }.

Definition frame_status (eventName : string) (f : Frame) : string :=
  let named := match jm_get eventName EVENT_NAME_TO_STATUS with Some s => if truthy_string s then s else eventName | None => eventName end in
  match fr_status f with Some s => if truthy_string s then s else named | None => named end.

Definition sse_payload (now : Z) (orderId eventName : string) (f : Frame) : OrderEventPayload :=
  createOrderEventPayload now orderId (Some (frame_status eventName f)) src_live None None (fr_srcTxHash f) (fr_dstTxHash f) None (Some (fr_raw f)).

Definition sse_open (i : nat) (s : Sub) : option string :=
  match s_leaves s !! i with
  | Some l => match lf_kind l with SseLeaf orderId _ => if lf_released l then None else Some orderId | _ => None end
  | None => None
  end.

Definition sse_message (now : Z) (i : nat) (eventName : string) (data : option Frame) (s : Sub) : Sub :=
  match sse_open i s, data with
  | Some orderId, Some f => if jm_has eventName EVENT_NAME_TO_STATUS then update now (sse_payload now orderId eventName f) s else s
  | _, _ => s
  end.

Definition sse_error (now : Z) (i : nat) (online : bool) (s : Sub) : Sub :=
  match sse_open i s with
  | Some _ => fail now (AnEventError (mkError err_network "SSE connection error" (negb online))) s
  | None => s
  end.

Inductive Op : Type :=
| OPublish (order : OrderEventPayload)
| OPublishAll (orders : list OrderEventPayload)
| OChannelFail (cause : Cause)
| OPollTick (i : nat)
| OPollDone (i : nat) (answer : outcome Cause (list OrderEventPayload))
| OSse (i : nat) (eventName : string) (data : option Frame)
| OSseError (i : nat) (online : bool)
| OUnsubscribe (reason : OrderUnsubscribeReason).

Definition step (now : Z) (o : Op) (s : Sub) : Sub :=
  match o with
  | OPublish p => if on_channel s then update now p s else s
  | OPublishAll ps => if on_channel s then snapshot now ps s else s
  | OChannelFail c => if on_channel s then fail now c s else s
  | OPollTick i => poll_tick i s
  | OPollDone i a => poll_done now i a s
  | OSse i e d => sse_message now i e d s
  | OSseError i b => sse_error now i b s
  | OUnsubscribe r => unsubscribe now r s
  end.

Definition run (s : Sub) (ops : list (Z * Op)) : Sub := foldl (fun s o => step o.1 o.2 s) s ops.

(** ** The channel and the hooks *)

(** The channel, with the subscriptions opened so far in their order. *)
Definition publish (now : Z) (order : OrderEventPayload) (subs : list Sub) : list Sub := step now (OPublish order) <$> subs.
Definition publishAll (now : Z) (orders : list OrderEventPayload) (subs : list Sub) : list Sub := step now (OPublishAll orders) <$> subs.
Definition channel_fail (now : Z) (cause : Cause) (subs : list Sub) : list Sub := step now (OChannelFail cause) <$> subs.
Definition subscriberCount (subs : list Sub) : nat := length (List.filter on_channel subs).

Definition publishLocalOrderStatus (now : Z) (orderId : string) (status : option string) (source : option OrderEventSource)
    (srcTxHash dstTxHash : option string) (error : option OrderEventError) (details : option Bag) (subs : list Sub) : list Sub :=
  publish now (createOrderEventPayload now orderId status (default src_local source) None None srcTxHash dstTxHash error details) subs.

(** [useOrderStream]: the poll reads the order, and both transports run under one
    subscription. *)
Definition poll_payload (now : Z) (orderId : string) (status srcLockTx dstLockTx : option string) (data : Bag) : OrderEventPayload :=
  createOrderEventPayload now orderId status src_poll None None srcLockTx dstLockTx None (Some data).
Definition useOrderStream (now counter : Z) (orderId : string) (environment : SseStart) : Sub :=
  subscribeToOrderEvents now counter (Merged [SseLeaf orderId environment; PollLeaf true]) (Some 5) true.

(** ** The hook's state (useOrderSubscription) *)

Inductive Phase : Type := ph_idle | ph_active | ph_closed.
Record SubscriptionState : Type := mkState {
  st_orders : list (string * OrderEventPayload);
  st_lastEvent : option OrderEvent;
  st_phase : Phase;
  st_error : option OrderEventError;
  st_failures : Z;
  st_closedReason : option OrderUnsubscribeReason
}.
Definition INITIAL_STATE : SubscriptionState := mkState [] None ph_idle None 0 None.

Definition reduce (st : SubscriptionState) (e : OrderEvent) : SubscriptionState :=
  match e with
  | Subscribed _ _ => mkState (st_orders st) (Some e) ph_active (st_error st) (st_failures st) None
  | Snapshot _ _ orders =>
      mkState (foldl (fun m o => jm_set (ep_orderId o) o m) (st_orders st) orders) (Some e) (st_phase st) None 0 (st_closedReason st)
  | StatusEvent _ o => mkState (jm_set (ep_orderId o) o (st_orders st)) (Some e) (st_phase st) None 0 (st_closedReason st)
  | StreamError _ err n => mkState (st_orders st) (Some e) (st_phase st) (Some err) n (st_closedReason st)
  | Unsubscribed _ _ r => mkState (st_orders st) (Some e) ph_closed (st_error st) (st_failures st) (Some r)
  end.

(** The consumer's own handler is called before the state is set: an event in whose
    call it throws - [throws] of the events up to it - is not folded in.  The state
    [st] is the one an earlier subscription left.  (When the consumer ends the
    subscription inside its call, React folds the end before that event; the orders
    do not depend on it.) *)
Fixpoint hook_fold (throws : list OrderEvent -> bool) (pre : list OrderEvent) (st : SubscriptionState) (t : list OrderEvent) : SubscriptionState :=
  match t with
  | [] => st
  | e :: t' => hook_fold throws (pre ++ [e]) (if throws (pre ++ [e]) then st else reduce st e) t'
  end.
Definition hook_state (throws : list OrderEvent -> bool) (st : SubscriptionState) (s : Sub) : SubscriptionState := hook_fold throws [] st (s_trace s).
End Stream.

(** ** The contract of a subscription *)

Section Contract.
Context {Bag : Type}.
#[local] Notation Sub := (@Sub Bag).
#[local] Notation OrderEvent := (@OrderEvent Bag).
#[local] Notation Payload := (@OrderEventPayload Bag).
Implicit Types (s : Sub) (e : OrderEvent) (o : Payload).

Definition is_subscribed (e : OrderEvent) : bool := match e with Subscribed _ _ => true | _ => false end.
Definition is_unsubscribed (e : OrderEvent) : bool := match e with Unsubscribed _ _ _ => true | _ => false end.
Definition is_status (e : OrderEvent) : bool := match e with StatusEvent _ _ => true | _ => false end.
Definition none_of (f : OrderEvent -> bool) (t : list OrderEvent) : Prop := forall e, e ∈ t -> f e = false.

(** The status last reported for an order. *)
Definition last_of (id : string) (t : list OrderEvent) : option OrderEventStatus :=
  foldl (fun acc e => match e with StatusEvent _ o => if String.eqb (ep_orderId o) id then Some (ep_status o) else acc | _ => acc end) None t.

#[local] Arguments last_of : simpl never.

(** Each status event names the status before it, which differs. *)
Definition linked (t : list OrderEvent) : Prop :=
  forall pre a o post, t = pre ++ StatusEvent a o :: post ->
    ep_previousStatus o = last_of (ep_orderId o) pre /\ ep_previousStatus o <> Some (ep_status o).

(** The end of a stream: nothing follows but the rest of the snapshot being delivered. *)
Definition ended (id : string) (t : list OrderEvent) : Prop :=
  exists pre a r post, t = pre ++ Unsubscribed a id r :: post /\ none_of is_unsubscribed pre /\ forall e, e ∈ post -> is_status e = true.

Record core (s : Sub) : Prop := mkCore {
  c_first : exists a rest, s_trace s = Subscribed a (s_id s) :: rest /\ none_of is_subscribed rest;
  c_open : s_active s = true -> none_of is_unsubscribed (s_trace s);
  c_closed : s_active s = false -> ended (s_id s) (s_trace s);
  c_last : forall id, jm_get id (s_lastStatus s) = last_of id (s_trace s);
  c_linked : linked (s_trace s)
}.

Lemma last_of_app id t e :
  last_of id (t ++ [e]) = match e with StatusEvent _ o => if String.eqb (ep_orderId o) id then Some (ep_status o) else last_of id t | _ => last_of id t end.
Proof. unfold last_of. by rewrite foldl_app. Qed.

Lemma linked_app t e :
  linked t ->
  match e with StatusEvent _ o => ep_previousStatus o = last_of (ep_orderId o) t /\ ep_previousStatus o <> Some (ep_status o) | _ => True end ->
  linked (t ++ [e]).
Proof.
  intros Ht He pre a o post E. destruct (decide (post = [])) as [->|Hne].
  - apply app_inj_tail in E as [<- ->]. done.
  - destruct (exists_last Hne) as [post' [x ->]]. rewrite app_comm_cons, app_assoc in E. apply app_inj_tail in E as [-> ->]. by apply (Ht pre a o post').
Qed.

Lemma none_of_app f t e : none_of f t -> f e = false -> none_of f (t ++ [e]).
Proof. intros Ht He x [Hx| ->%list_elem_of_singleton]%elem_of_app; auto. Qed.

(** One more event. *)
Lemma core_add s e :
  core s -> is_subscribed e = false -> is_unsubscribed e = false ->
  (is_status e = false -> s_active s = true) ->
  match e with StatusEvent _ o => ep_previousStatus o = last_of (ep_orderId o) (s_trace s) /\ ep_previousStatus o <> Some (ep_status o) | _ => True end ->
  forall m, (forall id, jm_get id m = last_of id (s_trace s ++ [e])) -> core (set_last m (add_event e s)).
Proof.
  intros [(a & rest & Ef & Hf) Ho Hc Hl Hk] H1 H2 H3 H4 m Hm. split; cbn; [|..|done|by apply linked_app].
  - exists a, (rest ++ [e]). split; [by rewrite Ef|by apply none_of_app].
  - intros Ha. apply none_of_app; auto.
  - intros Ha. destruct (Hc Ha) as (pre & b & r & post & E & Hp & Hq). exists pre, b, r, (post ++ [e]).
    split_and!; [by rewrite E, <- app_assoc|done|]. intros x [Hx| ->%list_elem_of_singleton]%elem_of_app; [auto|].
    destruct (is_status e) eqn:Es; [done|]. specialize (H3 eq_refl). congruence.
Qed.

Lemma set_last_same s : set_last (s_lastStatus s) s = s.
Proof. by destruct s. Qed.

Lemma core_finish now r s : core s -> core (finish now r s).
Proof.
  intros Hs. pose proof Hs as [(a & rest & Ef & Hf) Ho Hc Hl Hk]. unfold finish. destruct (s_active s) eqn:Ea; [|done].
  split; cbn; [|done|..].
  - exists a, (rest ++ [Unsubscribed now (s_id s) r]). split; [by rewrite Ef|by apply none_of_app].
  - intros _. exists (s_trace s), now, r, []. split_and!; [done|auto|by intros ? ?%elem_of_nil].
  - intros id. by rewrite Hl, last_of_app.
  - by apply linked_app.
Qed.

Lemma core_same s s' :
  s_trace s' = s_trace s -> s_id s' = s_id s -> s_active s' = s_active s -> s_lastStatus s' = s_lastStatus s -> core s -> core s'.
Proof. intros Et Ei Ea El [H1 H2 H3 H4 H5]. split; rewrite ?Et, ?Ei, ?Ea, ?El; done. Qed.

Section Consumer.
Context (react : list OrderEvent -> option OrderUnsubscribeReason).

Lemma core_emit now e s :
  core s -> s_active s = true -> is_subscribed e = false -> is_unsubscribed e = false -> is_status e = false -> core (emit react now e s).
Proof.
  intros Hs Ha H1 H2 H3. assert (core (add_event e s)) as Hc.
  { rewrite <- (set_last_same (add_event e s)). apply core_add; [done..| |]; [by destruct e|].
    intros id. rewrite last_of_app. cbn. rewrite (c_last _ Hs). by destruct e. }
  unfold emit. destruct (s_returned _); [|done]. destruct (react _); [by apply core_finish|done].
Qed.

Lemma reconcile_cases now o s :
  reconcile react now o s =
    let previous := jm_get (ep_orderId o) (s_lastStatus s) in
    let m := jm_set (ep_orderId o) (ep_status o) (s_lastStatus s) in
    if bool_decide (previous = Some (ep_status o)) then set_last m s
    else
      let s' := set_last m (add_event (StatusEvent (ep_at o) (mkPayload (ep_orderId o) (ep_status o) previous (ep_source o) (ep_at o)
                   (ep_srcTxHash o) (ep_dstTxHash o) (ep_error o) (ep_details o))) s) in
      if s_returned s then match react (s_trace s') with Some r => finish now r s' | None => s' end else s'.
Proof. unfold reconcile. cbv zeta. by case_bool_decide. Qed.

Lemma jm_get_set_if {V} k k' (v : V) m : jm_get k (jm_set k' v m) = if String.eqb k' k then Some v else jm_get k m.
Proof. destruct (String.eqb_spec k' k) as [->|Hne]; [apply jm_get_set|apply jm_get_set_ne; congruence]. Qed.

Lemma core_reconcile now o s : core s -> core (reconcile react now o s).
Proof.
  intros Hs. rewrite reconcile_cases. cbv zeta. case_bool_decide as Hp.
  - destruct Hs as [H1 H2 H3 H4 H5]. split; cbn; [done..| |done]. intros id. rewrite jm_get_set_if.
    destruct (String.eqb_spec (ep_orderId o) id) as [<-|]; [by rewrite <- H4|done].
  - set (e := StatusEvent _ _). set (m := jm_set _ _ _). assert (core (set_last m (add_event e s))) as Hc.
    { apply core_add; [done..| |].
      - cbn. split; [by rewrite (c_last _ Hs)|done].
      - intros id. rewrite last_of_app. cbn. unfold m. rewrite jm_get_set_if. by rewrite (c_last _ Hs). }
    destruct (s_returned s); [|done]. destruct (react _); [by apply core_finish|done].
Qed.

Lemma core_foldl now l s : core s -> core (foldl (fun s o => reconcile react now o s) s l).
Proof. revert s. induction l as [|o l IH]; intros s Hs; [done|]. cbn. by apply IH, core_reconcile. Qed.

Lemma core_settle now s : core s -> core (settle now s).
Proof. intros Hs. unfold settle. destruct (_ && _); [by apply core_finish|done]. Qed.

Lemma core_snapshot now l s : core s -> core (snapshot react now l s).
Proof.
  intros Hs. unfold snapshot. destruct (s_active s) eqn:Ea; [|done]. apply core_settle, core_foldl, core_emit; [|done..]. by apply (core_same s).
Qed.
Lemma core_update now o s : core s -> core (update react now o s).
Proof. intros Hs. unfold update. destruct (s_active s) eqn:Ea; [|done]. apply core_settle, core_reconcile. by apply (core_same s). Qed.
Lemma core_fail now c s : core s -> core (fail react now c s).
Proof.
  intros Hs. unfold fail. destruct (s_active s) eqn:Ea; [|done]. cbv zeta. set (s' := emit _ _ _ _).
  assert (core s') as Hc by (apply core_emit; [by apply (core_same s)|done..]). destruct (_ && _); [by apply core_finish|done].
Qed.

(** *** What every operation leaves alone *)

Definition is_error (e : OrderEvent) : bool := match e with StreamError _ _ _ => true | _ => false end.

Record ext s s' : Prop := mkExt {
  x_id : s_id s' = s_id s;
  x_max : s_max s' = s_max s;
  x_returned : s_returned s' = s_returned s;
  x_teardown : s_teardown s' = s_teardown s;
  x_failures : s_failures s' = s_failures s;
  x_end : s_active s' = s_active s /\ s_leaves s' = s_leaves s \/
          s_active s = true /\ s_active s' = false /\ s_leaves s' = (if s_teardown s then release <$> s_leaves s else s_leaves s);
  x_errors : forall e, e ∈ s_trace s' -> is_error e = true -> e ∈ s_trace s
}.

#[local] Instance ext_preorder : PreOrder ext.
Proof.
  split.
  - intros s. split; eauto.
  - intros s1 s2 s3 [A1 A2 A4 A5 A6 A7 A8] [B1 B2 B4 B5 B6 B7 B8]. split; [congruence..| |eauto].
    destruct A7 as [[E1 E2]|(E1 & E2 & E3)], B7 as [[F1 F2]|(F1 & F2 & F3)]; [left|right|right|]; try congruence.
    + split; congruence.
    + rewrite F3, E2, A5. split_and!; congruence.
    + rewrite F2, E3. split_and!; congruence.
Qed.

Lemma ext_add e s : is_error e = false -> ext s (add_event e s).
Proof. intros He. split; cbn; auto. intros x [Hx| ->%list_elem_of_singleton]%elem_of_app Hr; [done|congruence]. Qed.

Lemma ext_finish now r s : ext s (finish now r s).
Proof.
  unfold finish. destruct (s_active s) eqn:Ea; [|done]. split; cbn; auto.
  intros x [Hx| ->%list_elem_of_singleton]%elem_of_app Hr; done.
Qed.

Lemma ext_emit now e s : is_error e = false -> ext s (emit react now e s).
Proof.
  intros He. unfold emit. etrans; [by apply (ext_add e)|]. destruct (s_returned _); [|done]. destruct (react _); [apply ext_finish|done].
Qed.

Lemma ext_reconcile now o s : ext s (reconcile react now o s).
Proof. unfold reconcile. cbv zeta. case_bool_decide; [by split; auto|]. etrans; [|by apply ext_emit]. by split; auto. Qed.

Lemma ext_foldl now l s : ext s (foldl (fun s o => reconcile react now o s) s l).
Proof. revert s. induction l as [|o l IH]; intros s; [done|]. cbn. etrans; [apply ext_reconcile|apply IH]. Qed.

Lemma ext_settle now s : ext s (settle now s).
Proof. unfold settle. destruct (_ && _); [apply ext_finish|done]. Qed.

(** *** The state the hook renders *)

Definition folded (st : SubscriptionState) (t : list OrderEvent) : SubscriptionState := foldl reduce st t.
Definition shown s (id : string) : option OrderEventStatus := ep_status <$> jm_get id (st_orders (folded INITIAL_STATE (s_trace s))).

Lemma hook_fold_quiet throws pre st t :
  (forall t', t' `prefix_of` pre ++ t -> throws t' = false) -> hook_fold throws pre st t = folded st t.
Proof.
  revert pre st. induction t as [|e t IH]; intros pre st Hq; [done|]. cbn. rewrite (Hq (pre ++ [e])) by (exists t; by rewrite <- app_assoc).
  apply IH. intros t' Ht. apply Hq. by rewrite <- app_assoc in Ht.
Qed.

(** What an earlier subscription left shows through where nothing was reported. *)
Lemma folded_orders st t id :
  ep_status <$> jm_get id (st_orders (folded st t)) =
    match ep_status <$> jm_get id (st_orders (folded INITIAL_STATE t)) with Some x => Some x | None => ep_status <$> jm_get id (st_orders st) end.
Proof.
  unfold folded. induction t as [|e t IH] using rev_ind; [done|]. rewrite !foldl_app. cbn [foldl].
  set (a := foldl reduce st t) in *. set (b := foldl reduce INITIAL_STATE t) in *. destruct e as [| now' sid orders|now' o| |]; cbn [reduce st_orders]; try done.
  - revert IH. generalize (st_orders a), (st_orders b). induction orders as [|o l IHl]; intros m m' Hm; [done|]. cbn. apply IHl.
    rewrite !jm_get_set_if. by destruct (String.eqb _ _).
  - rewrite !jm_get_set_if. by destruct (String.eqb _ _).
Qed.

Definition occ (id : string) (acc : option OrderEventStatus) (l : list Payload) : option OrderEventStatus :=
  foldl (fun acc o => if String.eqb (ep_orderId o) id then Some (ep_status o) else acc) acc l.

Lemma shown_add e s id :
  shown (add_event e s) id =
    match e with
    | StatusEvent _ o => if String.eqb (ep_orderId o) id then Some (ep_status o) else shown s id
    | Snapshot _ _ l => occ id (shown s id) l
    | _ => shown s id
    end.
Proof.
  unfold shown, folded. cbn [s_trace add_event]. rewrite foldl_app. cbn [foldl]. set (st := foldl reduce _ _). destruct e; try done; cbn [reduce st_orders].
  - generalize (st_orders st). induction orders as [|o l IH]; intros m; [done|]. cbn. rewrite IH. unfold occ. f_equal.
    rewrite jm_get_set_if. by destruct (String.eqb _ _).
  - rewrite jm_get_set_if. by destruct (String.eqb _ _).
Qed.

Lemma shown_finish now r s id : shown (finish now r s) id = shown s id.
Proof.
  unfold finish. destruct (s_active s); [|done].
  transitivity (shown (add_event (Unsubscribed now (s_id s) r) s) id); [done|apply shown_add].
Qed.

Lemma last_finish now r s : s_lastStatus (finish now r s) = s_lastStatus s.
Proof. unfold finish. by destruct (s_active s). Qed.

Lemma shown_emit now e s id : shown (emit react now e s) id = shown (add_event e s) id.
Proof. unfold emit. cbv zeta. destruct (s_returned _); [|done]. destruct (react _); [apply shown_finish|done]. Qed.

Lemma last_emit now e s : s_lastStatus (emit react now e s) = s_lastStatus s.
Proof. unfold emit. cbv zeta. destruct (s_returned _); [|done]. destruct (react _); [by rewrite last_finish|done]. Qed.

Lemma last_reconcile now o s id :
  jm_get id (s_lastStatus (reconcile react now o s)) = if String.eqb (ep_orderId o) id then Some (ep_status o) else jm_get id (s_lastStatus s).
Proof. unfold reconcile. cbv zeta. case_bool_decide; [|rewrite last_emit]; apply jm_get_set_if. Qed.

Lemma shown_reconcile now o s id :
  shown (reconcile react now o s) id =
    if String.eqb (ep_orderId o) id && negb (bool_decide (jm_get (ep_orderId o) (s_lastStatus s) = Some (ep_status o)))
    then Some (ep_status o) else shown s id.
Proof.
  unfold reconcile. cbv zeta. case_bool_decide; [by rewrite andb_false_r|]. rewrite shown_emit, shown_add. cbn. by rewrite andb_true_r.
Qed.

(** While a snapshot is delivered, an order is shown with the status last observed
    or with the one of the snapshot. *)
Definition behind s (l : list Payload) : Prop :=
  forall id, shown s id = jm_get id (s_lastStatus s) \/ shown s id = occ id (jm_get id (s_lastStatus s)) l.

Lemma behind_reconcile now o l s : behind s (o :: l) -> behind (reconcile react now o s) l.
Proof.
  intros H id. rewrite shown_reconcile, last_reconcile. specialize (H id). cbn in H.
  destruct (String.eqb_spec (ep_orderId o) id) as [->|]; [|done]. cbn. case_bool_decide as E; [|by left]. cbn. rewrite E in H.
  destruct H as [H|H]; [by left|by right].
Qed.

Lemma behind_foldl now l s : behind s l -> behind (foldl (fun s o => reconcile react now o s) s l) [].
Proof. revert s. induction l as [|o l IH]; intros s H; [done|]. cbn. by apply IH, behind_reconcile. Qed.

Definition in_step s : Prop := forall id, shown s id = jm_get id (s_lastStatus s).

Lemma in_step_nil s : in_step s <-> behind s [].
Proof. split; intros H id; [by left|]. by destruct (H id). Qed.

Lemma in_step_finish now r s : in_step s -> in_step (finish now r s).
Proof. intros H id. by rewrite shown_finish, last_finish. Qed.

Lemma in_step_settle now s : in_step s -> in_step (settle now s).
Proof. intros H. unfold settle. destruct (_ && _); [by apply in_step_finish|done]. Qed.

(** *** The invariant *)

Record inv s : Prop := mkInv {
  i_core : core s;
  i_shown : in_step s;
  i_failures : 0 <= s_failures s /\ (0 < s_max s -> s_active s = true -> s_failures s < s_max s);
  i_errors : forall a er n, StreamError a er n ∈ s_trace s -> 1 <= n /\ (0 < s_max s -> n <= s_max s)
}.

Definition passive : Prop := forall h, react h = None.
Definition tidy s : Prop := s_active s = false -> exists pre a r, s_trace s = pre ++ [Unsubscribed a (s_id s) r].

Lemma ext_errors s s' : ext s s' -> (forall a er n, StreamError a er n ∈ s_trace s -> 1 <= n /\ (0 < s_max s -> n <= s_max s)) ->
  forall a er n, StreamError a er n ∈ s_trace s' -> 1 <= n /\ (0 < s_max s' -> n <= s_max s').
Proof. intros Hx H a er n Hi. rewrite (x_max _ _ Hx). eapply H, (x_errors _ _ Hx); done. Qed.

(** An observation: the failures are forgotten, then only reports that are not errors. *)
Lemma observed_inv s s' : inv s -> ext (set_failures 0 s) s' -> core s' -> in_step s' -> inv s'.
Proof.
  intros [Hc Hh Hf He] Hx Hc' Hh'. split; [done..| |by eapply ext_errors].
  rewrite (x_failures _ _ Hx), (x_max _ _ Hx). cbn. lia.
Qed.

Lemma snapshot_inv now l s : inv s -> inv (snapshot react now l s).
Proof.
  intros Hi. unfold snapshot. destruct (s_active s) eqn:Ea; [|done]. set (s1 := set_failures 0 s). set (s2 := emit react now _ s1).
  assert (core s1) as Hc1 by (by apply (core_same s); try apply Hi). assert (core s2) as Hc2 by (by apply core_emit).
  apply (observed_inv s); [done| |by apply core_settle, core_foldl|].
  - etrans; [|apply ext_settle]. etrans; [|apply ext_foldl]. by apply ext_emit.
  - apply in_step_settle, in_step_nil, behind_foldl. intros id. right. unfold s2. rewrite shown_emit, shown_add, last_emit. f_equal. apply (i_shown _ Hi).
Qed.

Lemma update_inv now o s : inv s -> inv (update react now o s).
Proof.
  intros Hi. unfold update. destruct (s_active s) eqn:Ea; [|done]. set (s1 := set_failures 0 s).
  assert (core s1) as Hc1 by (by apply (core_same s); try apply Hi).
  apply (observed_inv s); [done| |by apply core_settle, core_reconcile|].
  - etrans; [|apply ext_settle]. apply ext_reconcile.
  - apply in_step_settle, in_step_nil, behind_reconcile. intros id. left. apply (i_shown _ Hi).
Qed.

Lemma finish_inv now r s : inv s -> inv (finish now r s).
Proof.
  intros [Hc Hh Hf He]. pose proof (ext_finish now r s) as Hx. split; [by apply core_finish|by apply in_step_finish| |by eapply ext_errors].
  rewrite (x_failures _ _ Hx), (x_max _ _ Hx). split; [lia|]. intros Hm Ha. apply Hf; [done|]. by destruct (x_end _ _ Hx) as [[E _]|(E & _)]; [rewrite <- E|].
Qed.

Lemma finish_inactive now r s : s_active (finish now r s) = false.
Proof. unfold finish. by destruct (s_active s) eqn:E. Qed.

Lemma fail_inv now c s : inv s -> inv (fail react now c s).
Proof.
  intros Hi. pose proof Hi as [Hc Hh Hf He]. unfold fail. destruct (s_active s) eqn:Ea; [|done]. cbv zeta. set (er := match c with AnEventError _ => _ | _ => _ end).
  set (n := s_failures s + 1). set (s1 := add_event (StreamError now er n) (set_failures n s)). clear Hi. set (s2 := emit react now _ _).
  assert (ext s1 s2) as Hx by (unfold s2, emit; fold s1; cbv zeta; destruct (s_returned s1); [destruct (react _); [apply ext_finish|done]|done]).
  assert (core s2) as Hc2 by (apply core_emit; [by apply (core_same s)|done..]).
  assert (in_step s2) as Hh2 by (intros id; unfold s2; rewrite shown_emit, shown_add, last_emit; apply Hh).
  assert (forall a er n, StreamError a er n ∈ s_trace s2 -> 1 <= n /\ (0 < s_max s2 -> n <= s_max s2)) as He2.
  { apply (ext_errors s1); [done|]. cbn. intros a er' n' [Hi|[= -> -> ->]%list_elem_of_singleton]%elem_of_app; [by eapply He|]. lia. }
  pose proof (x_failures _ _ Hx) as Hfx. pose proof (x_max _ _ Hx) as Hmx. cbn in Hfx, Hmx. rewrite Hmx, Hfx.
  destruct ((0 <? s_max s) && (s_max s <=? n)) eqn:E.
  - pose proof (ext_finish now exhausted s2) as Hy. split; [by apply core_finish|by apply in_step_finish| |by eapply ext_errors].
    rewrite (x_failures _ _ Hy), Hfx, finish_inactive. lia.
  - split; [done..| |done]. rewrite Hfx, Hmx. lia.
Qed.

Lemma inv_same s s' :
  s_trace s' = s_trace s -> s_id s' = s_id s -> s_active s' = s_active s -> s_lastStatus s' = s_lastStatus s -> s_max s' = s_max s ->
  s_failures s' = s_failures s -> inv s -> inv s'.
Proof.
  intros Et Ei Ea El Em Ef [Hc Hh Hf He]. split; [by apply (core_same s)|..]; rewrite ?Et, ?Em, ?Ef, ?Ea; [|done..].
  intros id. unfold shown. rewrite Et, El. apply Hh.
Qed.

Context (no_details : Bag).

(** What holds of the operations of the core holds of every step. *)
Lemma step_closure (Q : Sub -> Prop) :
  (forall now o s, Q s -> Q (update react now o s)) -> (forall now l s, Q s -> Q (snapshot react now l s)) ->
  (forall now c s, Q s -> Q (fail react now c s)) -> (forall now r s, Q s -> Q (finish now r s)) ->
  (forall i b s, Q s -> Q (set_leaf i (in_flight b) s)) ->
  forall now (op : Op) s, Q s -> Q (step no_details react now op s).
Proof.
  intros Hu Hsn Hf He Hl now op s H. destruct op; cbn [step]; [destruct (on_channel s); [auto|done]..| | | | |].
  - unfold poll_tick. destruct (s_leaves s !! i) as [l|]; [|done]. destruct (lf_kind l); try done. destruct (_ || _); auto.
  - unfold poll_done. destruct (s_leaves s !! i) as [l|]; [|done]. destruct (lf_inFlight l); [|done]. apply Hl. destruct (lf_released l); [done|].
    destruct answer; auto.
  - unfold sse_message. destruct (sse_open i s), data; try done. destruct (jm_has _ _); auto.
  - unfold sse_error. destruct (sse_open i s); auto.
  - by apply He.
Qed.

Lemma run_closure (Q : Sub -> Prop) :
  (forall now (op : Op) s, Q s -> Q (step no_details react now op s)) -> forall ops s, Q s -> Q (run no_details react s ops).
Proof. intros Hs ops. induction ops as [|[now op] ops IH]; intros s H; [done|]. cbn. by apply IH, Hs. Qed.

Lemma step_inv_sub now (op : Op) s : inv s -> inv (step no_details react now op s).
Proof.
  apply step_closure; [apply update_inv|apply snapshot_inv|apply fail_inv|apply finish_inv|]. intros i b s' H. by apply (inv_same s').
Qed.

(** *** Nothing happens after the end *)

Lemma fail_closed now c s : s_active s = false -> fail react now c s = s.
Proof. intros E. unfold fail. by rewrite E. Qed.
Lemma snapshot_closed now l s : s_active s = false -> snapshot react now l s = s.
Proof. intros E. unfold snapshot. by rewrite E. Qed.
Lemma update_closed now o s : s_active s = false -> update react now o s = s.
Proof. intros E. unfold update. by rewrite E. Qed.
Lemma finish_closed now r s : s_active s = false -> finish now r s = s.
Proof. intros E. unfold finish. by rewrite E. Qed.

Lemma step_closed now (op : Op) s :
  s_active s = false -> s_trace (step no_details react now op s) = s_trace s.
Proof.
  intros E. apply (step_closure (fun s' => s_active s' = false /\ s_trace s' = s_trace s)); [..|done|done]; intros ? ? s' [Ha Ht].
  - by rewrite update_closed.
  - by rewrite snapshot_closed.
  - by rewrite fail_closed.
  - by rewrite finish_closed.
Qed.

(** *** A consumer that does not act in its handler *)

Section Passive.
Context (Hp : passive).

Lemma passive_emit now e s : s_active (emit react now e s) = s_active s.
Proof. unfold emit. cbv zeta. destruct (s_returned _); [|done]. by rewrite Hp. Qed.
Lemma passive_foldl now l s : s_active (foldl (fun s o => reconcile react now o s) s l) = s_active s.
Proof.
  revert s. induction l as [|o l IH]; intros s; [done|]. cbn. rewrite IH. unfold reconcile. cbv zeta. case_bool_decide; [done|]. by rewrite passive_emit.
Qed.
Lemma tidy_finish now r s : tidy s -> tidy (finish now r s).
Proof. intros Ht. unfold finish. destruct (s_active s) eqn:E; [|done]. intros _. cbn. eauto. Qed.
Lemma tidy_active s : s_active s = true -> tidy s.
Proof. intros E E'. congruence. Qed.
Lemma tidy_settle now s : s_active s = true -> tidy (settle now s).
Proof. intros E. unfold settle. destruct (_ && _); [apply tidy_finish|]; by apply tidy_active. Qed.
Lemma tidy_snapshot now l s : tidy s -> tidy (snapshot react now l s).
Proof. intros Ht. unfold snapshot. destruct (s_active s) eqn:E; [|done]. apply tidy_settle. by rewrite passive_foldl, passive_emit. Qed.
Lemma tidy_update now o s : tidy s -> tidy (update react now o s).
Proof. intros Ht. unfold update. destruct (s_active s) eqn:E; [|done]. apply tidy_settle. etrans; [exact (passive_foldl now [o] (set_failures 0 s))|done]. Qed.
Lemma tidy_fail now c s : tidy s -> tidy (fail react now c s).
Proof.
  intros Ht. unfold fail. destruct (s_active s) eqn:E; [|done]. cbv zeta. destruct (_ && _); [apply tidy_finish|]; apply tidy_active; by rewrite passive_emit.
Qed.
Lemma tidy_same s s' : s_trace s' = s_trace s -> s_id s' = s_id s -> s_active s' = s_active s -> tidy s -> tidy s'.
Proof. intros Et Ei Ea Ht E. rewrite Et, Ei. apply Ht. congruence. Qed.
Lemma tidy_step now (op : Op) s : tidy s -> tidy (step no_details react now op s).
Proof.
  apply step_closure; [apply tidy_update|apply tidy_snapshot|apply tidy_fail|apply tidy_finish|]. intros i b s' H. by apply (tidy_same s').
Qed.
End Passive.

(** *** Timers, connections and listeners *)

Definition all_leaves (b : bool) s : Prop := forall l, l ∈ s_leaves s -> lf_released l = b.
Definition held s : Prop := s_teardown s = true /\ all_leaves (negb (s_active s)) s.

Lemma all_released l b : (forall x, x ∈ release <$> l -> lf_released x = b) <-> l = [] \/ b = true.
Proof.
  split.
  - intros H. destruct l as [|y l]; [by left|right]. symmetry. by apply (H (release y)); left.
  - intros [-> | ->] x Hx; [by apply elem_of_nil in Hx|]. by apply list_elem_of_fmap in Hx as (y & -> & _).
Qed.

Lemma held_ext s s' : ext s s' -> held s -> held s'.
Proof.
  intros Hx [Ht Hl]. split; [by rewrite (x_teardown _ _ Hx)|]. destruct (x_end _ _ Hx) as [[E1 E2]|(E1 & E2 & E3)]; unfold all_leaves.
  - by rewrite E1, E2.
  - rewrite E2, E3, Ht. apply all_released. by right.
Qed.

Lemma snapshot_ext now l s : ext (if s_active s then set_failures 0 s else s) (snapshot react now l s).
Proof. unfold snapshot. destruct (s_active s); [|done]. etrans; [|apply ext_settle]. etrans; [|apply ext_foldl]. by apply ext_emit. Qed.
Lemma update_ext now o s : ext (if s_active s then set_failures 0 s else s) (update react now o s).
Proof. unfold update. destruct (s_active s); [|done]. etrans; [|apply ext_settle]. apply ext_reconcile. Qed.
Lemma fail_ext now c s : exists s1, s_leaves s1 = s_leaves s /\ s_active s1 = s_active s /\ s_teardown s1 = s_teardown s /\ ext s1 (fail react now c s).
Proof.
  unfold fail. destruct (s_active s) eqn:Ea; [|by exists s]. cbv zeta. set (e := StreamError _ _ _). set (s0 := set_failures _ _).
  exists (add_event e s0). split_and!; [done|done|done|]. unfold emit. cbv zeta. set (s1 := add_event e s0).
  assert (ext s1 (if s_returned s1 then match react (s_trace s1) with Some reason => finish now reason s1 | None => s1 end else s1)) as Hx
    by (destruct (s_returned s1); [destruct (react _); [apply ext_finish|done]|done]).
  destruct (_ && _); [etrans; [exact Hx|apply ext_finish]|exact Hx].
Qed.

Lemma held_same s s' : s_leaves s' = s_leaves s -> s_active s' = s_active s -> s_teardown s' = s_teardown s -> held s -> held s'.
Proof. intros El Ea Et [H1 H2]. split; [congruence|]. unfold all_leaves. by rewrite El, Ea. Qed.

Lemma held_snapshot now l s : held s -> held (snapshot react now l s).
Proof. intros H. eapply held_ext; [apply snapshot_ext|]. by destruct (s_active s) eqn:E; [apply (held_same s)|]. Qed.
Lemma held_update now o s : held s -> held (update react now o s).
Proof. intros H. eapply held_ext; [apply update_ext|]. by destruct (s_active s) eqn:E; [apply (held_same s)|]. Qed.
Lemma held_fail now c s : held s -> held (fail react now c s).
Proof. intros H. destruct (fail_ext now c s) as (s1 & E1 & E2 & E3 & Hx). eapply held_ext; [exact Hx|]. by apply (held_same s). Qed.
Lemma held_leaf i b s : held s -> held (set_leaf i (in_flight b) s).
Proof.
  intros [Ht Hl]. split; [done|]. intros l Hi. cbn in Hi. apply list_elem_of_lookup in Hi as [j Hj]. destruct (decide (i = j)) as [->|Hne].
  - rewrite list_lookup_alter_eq in Hj. destruct (s_leaves s !! j) as [l0|] eqn:E; [|done]. injection Hj as <-. cbn. eapply Hl, list_elem_of_lookup_2, E.
  - rewrite list_lookup_alter_ne in Hj by done. by eapply Hl, list_elem_of_lookup_2.
Qed.
Lemma held_finish now r s : held s -> held (finish now r s).
Proof. apply held_ext, ext_finish. Qed.
Lemma held_step now (op : Op) s : held s -> held (step no_details react now op s).
Proof. apply step_closure; [apply held_update|apply held_snapshot|apply held_fail|apply held_finish|apply held_leaf]. Qed.

(** *** The start *)

Definition opened (now : Z) (id : string) (max : Z) (stop : bool) : Sub := mkSub id max stop [] 0 true false false [] [Subscribed now id].

Lemma opened_inv now id max stop : inv (opened now id max stop).
Proof.
  split; [split|..]; cbn.
  - exists now, []. split; [done|]. intros e He. by apply elem_of_nil in He.
  - intros _ e He. apply list_elem_of_singleton in He. by subst.
  - done.
  - done.
  - intros pre a o post E. destruct pre as [|e [|e' pre]]; done.
  - done.
  - lia.
  - intros a er n He. by apply list_elem_of_singleton in He.
Qed.

(** Before [start] has returned nothing is released. *)
Definition fresh s : Prop := s_teardown s = false /\ all_leaves false s.

Lemma fresh_fail now c s : fresh s -> fresh (fail react now c s).
Proof.
  intros [Ht Hl]. destruct (fail_ext now c s) as (s1 & E1 & E2 & E3 & Hx). split; [rewrite (x_teardown _ _ Hx); congruence|].
  unfold all_leaves. destruct (x_end _ _ Hx) as [[_ E]|(_ & _ & E)]; rewrite E, ?E3, ?Ht, E1; done.
Qed.

(** What [start] of a leaf keeps. *)
Definition starting (Q : Sub -> Prop) : Prop :=
  (forall now c s, Q s -> Q (fail react now c s)) /\ (forall k b s, Q s -> Q (set_leaves (s_leaves s ++ [mkLeaf k false b]) s)).

Lemma start_leaf_keeps Q now k s : starting Q -> Q s -> match start_leaf react now k s with Ok s' => Q s' | Throw _ => True end.
Proof. intros [Hf Hl] H. destruct k as [| |? []|]; cbn; auto. Qed.

Lemma start_merged_keeps Q now ks s : starting Q -> Q s -> Q (start_merged react now ks s).
Proof.
  intros HQ. revert s. induction ks as [|k ks IH]; intros s H; [done|]. cbn. apply IH. pose proof (start_leaf_keeps Q now k s HQ H) as Hk.
  destruct (start_leaf react now k s); [done|by apply HQ].
Qed.

Lemma starting_inv : starting inv.
Proof. split; [apply fail_inv|]. intros k b s H. by apply (inv_same s). Qed.
Lemma starting_fresh : starting fresh.
Proof.
  split; [apply fresh_fail|]. intros k b s [Ht Hl]. split; [done|]. intros l [H| ->%list_elem_of_singleton]%elem_of_app; [by apply Hl|done].
Qed.
Lemma starting_tidy : passive -> starting tidy.
Proof. intros Hp. split; [by intros; apply tidy_fail|]. intros k b s H. by apply (tidy_same s). Qed.

(** *** A new subscription *)

Section New.
Context (now counter : Z) (t : Transport) (max : option Z) (stop : bool).
#[local] Notation s0 := (subscribeToOrderEvents react now counter t max stop).

Lemma subscribe_keeps Q :
  starting Q -> (forall now r s, Q s -> Q (finish now r s)) -> (forall s, Q s -> Q (with_teardown s)) -> (forall s, Q s -> Q (returned s)) ->
  (forall id max stop, Q (opened now id max stop)) -> Q s0.
Proof.
  intros HQ Hf Ht Hr Ho. unfold subscribeToOrderEvents. cbv zeta. apply Hr.
  set (s := emit react now _ _). assert (Q s) as Hs by apply Ho. destruct t as [k|ks].
  - pose proof (start_leaf_keeps Q now k s HQ Hs) as Hk. destruct (start_leaf react now k s); [by apply Ht|by apply Hf, HQ].
  - by apply Ht, start_merged_keeps.
Qed.

Lemma subscribe_inv : inv s0.
Proof.
  apply (subscribe_keeps inv); [apply starting_inv|apply finish_inv|..|intros; apply opened_inv]; intros s H; by apply (inv_same s).
Qed.

Lemma subscribe_tidy : passive -> tidy s0.
Proof.
  intros Hp. apply (subscribe_keeps tidy); [by apply starting_tidy|apply tidy_finish|..|by intros; apply tidy_active]; intros s H; by apply (tidy_same s).
Qed.

Lemma subscribe_held : s_active s0 = true -> held s0.
Proof.
  unfold subscribeToOrderEvents. cbv zeta. set (s := emit react now _ _).
  assert (fresh s) as Hs by (split; [done|intros l Hl; by apply elem_of_nil in Hl]). destruct t as [k|ks].
  - pose proof (start_leaf_keeps fresh now k s starting_fresh Hs) as Hk. destruct (start_leaf react now k s) as [s'|c].
    + intros Ha. split; [done|]. rewrite Ha. apply Hk.
    + cbn. by rewrite finish_inactive.
  - pose proof (start_merged_keeps fresh now ks s starting_fresh Hs) as Hk. intros Ha. split; [done|]. rewrite Ha. apply Hk.
Qed.
End New.
End Consumer.
End Contract.

(** C23.  The contract of an order event subscription, for every transport, every
    sequence of observations, timer ticks, frames and calls of [unsubscribe], and
    every consumer.  The acknowledgement comes first and once; the end is reported
    once, and after it nothing comes but status events of the snapshot that was
    being delivered when the consumer unsubscribed inside its handler, and nothing
    at all when it does not do that; later observations are dropped.  Each status
    event names the status reported before it, which differs; and unless the
    consumer's handler throws, the hook shows for each order the status last
    reported, or what it showed before the subscription when none was.  Failures are counted from one and
    never beyond the limit, and an open subscription is below it.  When the
    transport started without ending the subscription, its timers, connections
    and listeners are held while it is open and released when it has ended. *)
Theorem subscription_contract {Bag : Type} (no_details : Bag) react now counter t max stop ops :
  let s0 := subscribeToOrderEvents react now counter t max stop in
  let s := run no_details react s0 ops in
  (exists a rest, s_trace s = Subscribed a (s_id s) :: rest /\ none_of is_subscribed rest) /\
  (if s_active s then none_of is_unsubscribed (s_trace s) else ended (s_id s) (s_trace s)) /\
  ((forall h, react h = None) -> s_active s = false -> exists pre a r, s_trace s = pre ++ [Unsubscribed a (s_id s) r]) /\
  (s_active s = false -> forall now op, s_trace (step no_details react now op s) = s_trace s) /\
  linked (s_trace s) /\
  (forall throws st, (forall t', t' `prefix_of` s_trace s -> throws t' = false) ->
     forall id, ep_status <$> jm_get id (st_orders (hook_state throws st s)) =
       match last_of id (s_trace s) with Some x => Some x | None => ep_status <$> jm_get id (st_orders st) end) /\
  (forall a er n, StreamError a er n ∈ s_trace s -> 1 <= n /\ (0 < s_max s -> n <= s_max s)) /\
  (s_active s = true -> 0 < s_max s -> s_failures s < s_max s) /\
  (s_active s0 = true -> forall l, l ∈ s_leaves s -> lf_released l = negb (s_active s)).
Proof.
  intros s0 s. assert (inv s) as Hi by (apply run_closure; [apply step_inv_sub|apply subscribe_inv]). pose proof Hi as [Hc Hh Hf He].
  split_and!.
  - apply Hc.
  - destruct (s_active s) eqn:E; [by apply Hc|by apply Hc].
  - intros Hp. apply (run_closure react no_details tidy); [by intros; apply tidy_step|by apply subscribe_tidy].
  - intros E now' op. by apply step_closed.
  - apply Hc.
  - intros throws st Hq id. unfold hook_state. rewrite hook_fold_quiet by done. rewrite folded_orders. fold (shown s id). by rewrite Hh, (c_last _ Hc).
  - done.
  - intros Ha Hm. by apply Hf.
  - intros Ha. apply (run_closure react no_details held); [apply held_step|by apply subscribe_held].
Qed.

(** ** The statuses of the coordinator *)

(** Every status of the coordinator is known to the client, and a client's status
    is final exactly when the coordinator's is, but for [expired], which the
    coordinator may still turn into [refunded] or [failed]. *)
Lemma statuses_conform st :
  isKnownOrderStatusInput (Some (status_str st)) = true /\
  isTerminalOrderStatus (normalizeOrderStatus (Some (status_str st))) = isTerminal st || bool_decide (st = expired).
Proof. destruct st; vm_compute; done. Qed.

(** What is seen as final stays: after [confirmed] an order never looks [pending]
    again. *)
Lemma statuses_advance st st' :
  canTransition st st' = true -> normalizeOrderStatus (Some (status_str st)) = ui_confirmed -> normalizeOrderStatus (Some (status_str st')) <> ui_pending.
Proof. destruct st, st'; vm_compute; done. Qed.

(** The frame the transport reads of an event of the broker; [bag] is the JSON. *)
Definition frame_of {Bag : Type} (bag : Bag) (d : SseEventData) : @Frame Bag :=
  match d with
  | OrderCreatedData _ _ tx _ _ _ => mkFrame (Some (status_str src_locked)) tx None bag
  | OrderClaimedData _ st _ tx _ _ _ _ => mkFrame (Some (status_str st)) None tx bag
  | OrderRefundedData _ _ _ => mkFrame (Some (status_str refunded)) None None bag
  | StatusChangedData _ st _ _ => mkFrame (Some st) None None bag
  | SecretRevealedData _ _ _ _ | ReplayGapData _ | ShutdownData => mkFrame None None None bag
  end.

(** The status an event of the order service stands for. *)
Inductive announces : SsePayload -> OrderStatus -> Prop :=
| ann_created now id chain tx b t : announces (buildOrderCreatedPayload now id chain tx b t) src_locked
| ann_claimed now id st chain tx b t r : st <> secret_revealed -> announces (buildOrderClaimedPayload now id st chain tx b t r) dst_locked
| ann_claimed_late now id chain tx b t r : announces (buildOrderClaimedPayload now id secret_revealed chain tx b t r) secret_revealed
| ann_refunded now id tx : announces (buildOrderRefundedPayload now id tx) refunded
| ann_secret now id pre tx : announces (buildSecretRevealedPayload now id pre tx) secret_revealed
| ann_status now id st previous : announces (buildStatusChangedPayload now id (status_str st) previous) st.

Lemma stream_conforms {Bag : Type} (no_details bag : Bag) now id p st :
  announces p st ->
  jm_has (ev_event p) EVENT_NAME_TO_STATUS = true /\
  ep_status (sse_payload no_details now id (ev_event p) (frame_of bag (ev_data p))) = normalizeOrderStatus (Some (status_str st)).
Proof.
  intros []; split; try (vm_compute; reflexivity).
  - cbn. by rewrite bool_decide_false.
  - by destruct st0.
Qed.

(** Frames of an open stream are applied in order. *)
Section Frames.
Context {Bag : Type} (no_details bag : Bag) (id : string) (i : nat).
#[local] Notation quiet := (fun _ : list (@OrderEvent Bag) => None).

Definition frames (ps : list SsePayload) : list (Z * @Op Bag) := (fun p => (ev_timestamp p, OSse i (ev_event p) (Some (frame_of bag (ev_data p))))) <$> ps.

Definition listening (s : @Sub Bag) : Prop := s_active s = true /\ s_stopWhenAllSettled s = false /\ sse_open i s = Some id.

Lemma quiet_update now o s : listening s ->
  listening (update quiet now o s) /\
  forall k, jm_get k (s_lastStatus (update quiet now o s)) = if String.eqb (ep_orderId o) k then Some (ep_status o) else jm_get k (s_lastStatus s).
Proof.
  intros (Ha & Hs & Ho). unfold update. rewrite Ha. assert (forall s' : @Sub Bag, s_stopWhenAllSettled s' = false -> settle now s' = s') as Hst.
  { intros s' E. unfold settle. by rewrite E. }
  set (s1 := set_failures 0 s). assert (s_stopWhenAllSettled (reconcile quiet now o s1) = false /\ s_active (reconcile quiet now o s1) = true /\
    s_leaves (reconcile quiet now o s1) = s_leaves s) as (E1 & E2 & E3).
  { unfold reconcile, emit. cbv zeta. case_bool_decide; [done|]. by destruct (s_returned _). }
  rewrite Hst by done. split; [split_and!; [done..|]; unfold sse_open in *; by rewrite E3|]. intros k. by rewrite last_reconcile.
Qed.

Lemma frames_applied ps p st s :
  listening s -> Forall (fun p => exists st, announces p st) ps -> announces p st ->
  jm_get id (s_lastStatus (run no_details quiet s (frames (ps ++ [p])))) = Some (normalizeOrderStatus (Some (status_str st))).
Proof.
  intros Hl Hps Hp. revert s Hl. induction Hps as [|q ps [st' Hq] _ IH]; intros s Hl; cbn [frames app fmap list_fmap run foldl fst snd step].
  - destruct (stream_conforms no_details bag (ev_timestamp p) id p st Hp) as [Hn He]. unfold sse_message. destruct Hl as (Ha & Hs & Ho). rewrite Ho, Hn.
    destruct (quiet_update (ev_timestamp p) (sse_payload no_details (ev_timestamp p) id (ev_event p) (frame_of bag (ev_data p))) s) as [_ ->]; [done|].
    cbn [ep_orderId sse_payload createOrderEventPayload]. rewrite String.eqb_refl. by rewrite <- He.
  - apply IH. unfold sse_message. destruct (stream_conforms no_details bag (ev_timestamp q) id q st' Hq) as [Hn _].
    pose proof Hl as (Ha & Hs & Ho). rewrite Ho, Hn. by apply quiet_update.
Qed.
End Frames.

(** ** Runs *)

Definition never : list (@OrderEvent unit) -> option OrderUnsubscribeReason := fun _ => None.
Definition started (react : list (@OrderEvent unit) -> option OrderUnsubscribeReason) : @Sub unit := useOrderStream react 0 0 "wf_1" Opens.
Definition polled (status : string) : @OrderEventPayload unit := poll_payload tt 1 "wf_1" (Some status) None None tt.
Definition reasons (t : list (@OrderEvent unit)) : list OrderUnsubscribeReason := omap (fun e => match e with Unsubscribed _ _ r => Some r | _ => None end) t.

Example stream_runs :
  let s := run tt never (started never) [(1, OPollDone 1 (Ok [polled "src_locked"])); (2, OSse 0 "OrderClaimed" (Some (mkFrame None None None tt))); (3, OPollTick 1);
                                         (4, OPollDone 1 (Ok [polled "completed"]))] in
  shown s "wf_1" = Some ui_completed /\ reasons (s_trace s) = [settled] /\ lf_released <$> s_leaves s = [true; true].
Proof. vm_compute. done. Qed.

(** Five connection errors between two polls end the polling too. *)
Example errors_end_polling :
  let s := run tt never (started never) ((1, OPollDone 1 (Ok [polled "src_locked"])) :: replicate 5 (2, OSseError 0 true)) in
  reasons (s_trace s) = [exhausted] /\ lf_released <$> s_leaves s = [true; true].
Proof. vm_compute. done. Qed.

(** An expired order counts as settled: its refund is not shown. *)
Example expired_order_refund_missed :
  let s := run tt never (started never) [(1, OPollDone 1 (Ok [polled "expired"])); (2, OSse 0 "OrderRefunded" (Some (mkFrame (Some "refunded") None None tt)))] in
  shown s "wf_1" = Some ui_expired /\ canTransition expired refunded = true.
Proof. vm_compute. done. Qed.

(** A consumer that unsubscribes on the snapshot still gets its status events. *)
Example event_after_end :
  let react h := match List.rev h with Snapshot _ _ _ :: _ => Some manual | _ => None end in
  let s := run tt react (started react) [(1, OPollDone 1 (Ok [polled "src_locked"]))] in
  is_unsubscribed <$> s_trace s = [false; false; true; false].
Proof. vm_compute. done. Qed.

(** A subscription that ends while its transports start never releases them. *)
Example ended_in_start_leaks :
  let s := subscribeToOrderEvents never 0 0 (Merged [BrokenLeaf Something; ChannelLeaf]) (Some 1) false in
  s_active s = false /\ on_channel s = true.
Proof. vm_compute. done. Qed.

(** Each subscriber of the channel gets what is published. *)
Example channel_delivers :
  let sub := subscribeToOrderEvents never 0 0 (Single ChannelLeaf) None false in
  let subs := publishLocalOrderStatus tt never 5 "wf_1" (Some "completed") None None None None None [sub; unsubscribe 4 manual sub; sub] in
  subscriberCount subs = 2%nat /\ (fun s => shown s "wf_1") <$> subs = [Some ui_completed; None; Some ui_completed].
Proof. vm_compute. done. Qed.

(** A status that is the name of an inherited member is not a status. *)
Example inherited_status : normalizeOrderStatus (Some "constructor") = Inherited "constructor" /\ isKnownOrderStatusInput (Some "constructor") = true.
Proof. vm_compute. done. Qed.

(** The broker's notice that events were missed is not listened to. *)
Lemma replay_gap_ignored {Bag : Type} (no_details : Bag) react now i data s : sse_message no_details react now i "replay-gap" data s = s.
Proof. unfold sse_message. destruct (sse_open i s), data; done. Qed.

(** A consumer that throws at the second status keeps the hook at the first one. *)
Example throwing_consumer_stale :
  let s := run tt (fun _ => None) (started (fun _ => None)) [(1, OPollDone 1 (Ok [polled "announced"])); (2, OPollTick 1); (3, OPollDone 1 (Ok [polled "completed"]))] in
  let seen throws := (fun e => ep_status e.2) <$> st_orders (hook_state throws INITIAL_STATE s) in
  seen (fun _ => false) = [ui_completed] /\ seen (fun h => (3 <? Z.of_nat (length h))) = [ui_pending].
Proof. vm_compute. done. Qed.
