(* ===== verification/AuditLog.v ===== *)
(** * The audit log

    coordinator/src/audit/audit-log.ts, audit-repo.ts, audit-repo-kysely.ts,
    audit-exporter.ts and [sanitizeAuditPayload] of utils/sanitize-for-log.ts.
    JSON texts are represented by the values they denote, [None] for a text that
    does not parse.  Rows lie in the table in the order of their ids; queries
    select, order and limit as the SQL says.  The table may grow between two
    queries of one export. *)

From S2P Require Import Prelude JsMap Json Text Notifications.

(** ** Entries *)

Definition AUDIT_SCHEMA_VERSION : Z := 1.
Definition AUDIT_EVENT_TYPES : list string :=
  ["order.announced"; "order.src_locked"; "order.dst_locked"; "order.secret_revealed"; "order.completed"; "order.refunded"; "order.failed";
   "order.expired"; "order.src_lock_rolled_back"; "order.dst_lock_rolled_back"; "order.secret_recovered"; "order.stale_archived";
   "reconciliation.started"; "reconciliation.completed"; "reconciliation.gap_detected"; "reconciliation.order_repaired";
   "system.startup"; "system.shutdown"; "system.listener_error"; "system.db_migration"].

Inductive AuditError : Type := SyntaxError (message : string) | RangeError (message : string).

(** What a caller gives to [append]. *)
Record EntryInput : Type := mkInput { in_eventType : string; in_orderId : option string; in_requestId : option string; in_payload : option json }.

Record AuditEntry : Type := mkEntry {
  en_id : Z;
  en_schemaVersion : Z;
  en_eventType : string;
  en_orderId : option string;
  en_requestId : option string;
  en_payload : json;
  en_createdAt : Z
}.

Definition nullable (s : option string) : json := match s with Some s => JString s | None => JNull end.
Definition nullable_int (n : option Z) : json := match n with Some n => JNumber (Dyadic n 0) | None => JNull end.

(** The payload of an order event, member by member. *)
Definition order_payload (p : AuditPayload) : json :=
  JObject [("orderId", JString (au_orderId p)); ("hashlock", JString (au_hashlock p)); ("direction", JString (au_direction p));
           ("fromStatus", nullable (au_fromStatus p)); ("toStatus", JString (au_toStatus p)); ("srcChain", JString (au_srcChain p));
           ("dstChain", JString (au_dstChain p)); ("txHash", nullable (au_txHash p)); ("blockNumber", nullable_int (au_blockNumber p));
           ("resolverAddress", nullable (au_resolverAddress p)); ("detail", nullable (au_detail p))].
Definition order_input (e : AuditEntryInput) : EntryInput :=
  mkInput (ae_eventType e) (ae_orderId e) (ae_requestId e) (Some (order_payload (ae_payload e))).

Definition buildReconciliationAuditEntry (eventType chain : string) (blocksScanned ordersInspected ordersRepaired gapStartBlock gapEndBlock durationMs : option Z)
    (detail requestId : option string) : EntryInput :=
  mkInput eventType None requestId
    (Some (JObject [("chain", JString chain); ("blocksScanned", nullable_int blocksScanned); ("ordersInspected", nullable_int ordersInspected);
                    ("ordersRepaired", nullable_int ordersRepaired); ("gapStartBlock", nullable_int gapStartBlock); ("gapEndBlock", nullable_int gapEndBlock);
                    ("durationMs", nullable_int durationMs); ("detail", nullable detail)])).

Definition buildSystemAuditEntry (eventType detail : string) (errorMessage serviceVersion requestId : option string) : EntryInput :=
  mkInput eventType None requestId
    (Some (JObject [("detail", JString detail); ("errorMessage", nullable errorMessage); ("serviceVersion", nullable serviceVersion)])).

(** ** Redaction *)

Definition SECRET_KEYS : list string :=
  ["preimage"; "secret"; "privatekey"; "authorization"; "proxyauthorization"; "password"; "accesstoken"; "refreshtoken"; "apikey"; "secretstoragekey"].

(** [key.replace(/[-_]/g, "")]. *)
Fixpoint strip_separators (s : string) : string :=
  match s with
  | EmptyString => EmptyString
  | String c s' => if Ascii.eqb c (Ascii.ascii_of_nat 45) || Ascii.eqb c (Ascii.ascii_of_nat 95) then strip_separators s' else String c (strip_separators s')
  end.

Definition is_secret_key (key : string) : bool := bool_decide (toLowerCase (strip_separators key) ∈ SECRET_KEYS).

(** The replacer of [JSON.stringify]; numbers that are not finite are written as
    null.  Indices of arrays are no secret keys. *)
Fixpoint redact (v : json) : json :=
  match v with
  | JNumber (Infinite _) => JNull
  | JArray items => JArray (map redact items)
  | JObject members => JObject (map (fun '(k, x) => (k, if is_secret_key k then JString "[REDACTED_SECRET]" else redact x)) members)
  | _ => v
  end.

Definition sanitizeAuditPayload (payloadJson : option json) : option json := redact <$> payloadJson.

(** ** The table *)

Record AuditDb : Type := mkAuditDb { ad_rows : list AuditEntry; ad_next : Z }.
Definition empty_audit : AuditDb := mkAuditDb [] 1.

(** [created_at] is the database's clock; the new id is returned. *)
Definition append (now : Z) (input : EntryInput) (d : AuditDb) : outcome AuditError Z * AuditDb :=
  match sanitizeAuditPayload (in_payload input) with
  | None => (Throw (SyntaxError "AuditRepository.append: payloadJson is not valid JSON"), d)
  | Some payload =>
      (Ok (ad_next d),
       mkAuditDb (ad_rows d ++ [mkEntry (ad_next d) AUDIT_SCHEMA_VERSION (in_eventType input) (in_orderId input) (in_requestId input) payload now]) (ad_next d + 1))
  end.

Fixpoint append_all (now : Z) (inputs : list EntryInput) (d : AuditDb) : outcome AuditError (list Z) * AuditDb :=
  match inputs with
  | [] => (Ok [], d)
  | i :: rest =>
      match append now i d with
      | (Ok id, d) => match append_all now rest d with (Ok ids, d) => (Ok (id :: ids), d) | (Throw e, d) => (Throw e, d) end
      | (Throw e, d) => (Throw e, d)
      end
  end.

(** BEGIN, the entries, COMMIT or ROLLBACK; the ids of a rolled-back batch are free again. *)
Definition appendBatch (now : Z) (inputs : list EntryInput) (d : AuditDb) : outcome AuditError (list Z) * AuditDb :=
  match append_all now inputs d with (Ok ids, d') => (Ok ids, d') | (Throw e, _) => (Throw e, d) end.

(** ** Queries *)

Record QueryOptions : Type := mkQuery {
  q_orderId : option string; q_eventTypes : list string; q_since : option Z; q_until : option Z; q_limit : option Z; q_cursor : option Z; q_includeCount : bool
}.
Record AuditPage : Type := mkPage { pg_entries : list AuditEntry; pg_nextCursor : option Z; pg_totalCount : option Z }.

(** The conditions but for the one of the cursor. *)
Definition matches (q : QueryOptions) (e : AuditEntry) : bool :=
  match q_orderId q with Some o => if truthy_string o then bool_decide (en_orderId e = Some o) else true | None => true end &&
  match q_eventTypes q with [] => true | types => bool_decide (en_eventType e ∈ types) end &&
  match q_since q with Some t => t <=? en_createdAt e | None => true end && match q_until q with Some t => en_createdAt e <=? t | None => true end.
Definition past_cursor (q : QueryOptions) (e : AuditEntry) : bool := match q_cursor q with Some c => c <? en_id e | None => true end.
Definition where_ (q : QueryOptions) (e : AuditEntry) : bool := past_cursor q e && matches q e.

Definition id_asc (a b : AuditEntry) : bool := en_id a <? en_id b.
Definition id_desc (a b : AuditEntry) : bool := en_id b <? en_id a.

Definition query_page (q : QueryOptions) (d : AuditDb) : list AuditEntry * option Z :=
  let limit := Z.min (default 100 (q_limit q)) 1000 in
  let rows := sql_limit (limit + 1) (sql_order id_asc (sql_select (where_ q) (ad_rows d))) in
  let hasMore := limit <? Z.of_nat (length rows) in
  let entries := if hasMore then take (Z.to_nat limit) rows else rows in
  (entries, if hasMore then en_id <$> last entries else None).

Definition query (q : QueryOptions) (d : AuditDb) : outcome AuditError AuditPage :=
  if match q_limit q with Some l => l <=? 0 | None => false end then
    Throw (RangeError ("AuditRepository.query: limit must be a positive integer, got " +:+ pretty (default 0 (q_limit q))))
  else
    let '(entries, next) := query_page q d in
    Ok (mkPage entries next (if q_includeCount q then Some (sql_changes (where_ q) (ad_rows d)) else None)).

(** The second repository counts without the cursor. *)
Definition kysely_query (q : QueryOptions) (d : AuditDb) : outcome AuditError AuditPage :=
  if match q_limit q with Some l => l <=? 0 | None => false end then
    Throw (RangeError ("KyselyAuditRepository.query: limit must be a positive integer, got " +:+ pretty (default 0 (q_limit q))))
  else
    let '(entries, next) := query_page q d in
    Ok (mkPage entries next (if q_includeCount q then Some (sql_changes (matches q) (ad_rows d)) else None)).

Definition forOrder (orderId : string) (d : AuditDb) : list AuditEntry :=
  sql_order id_asc (sql_select (fun e => bool_decide (en_orderId e = Some orderId)) (ad_rows d)).
Definition tail (n : Z) (d : AuditDb) : list AuditEntry := List.rev (sql_limit n (sql_order id_desc (ad_rows d))).

(** ** Export *)

Definition MAX_PAGE_SIZE : Z := 1000.
Record ExportOptions : Type := mkExport {
  x_orderId : option string; x_eventTypes : list string; x_since : option Z; x_until : option Z; x_pageSize : option Z; x_resumeCursor : option Z
}.

Definition export_query (o : ExportOptions) (cursor : option Z) : QueryOptions :=
  mkQuery (x_orderId o) (x_eventTypes o) (x_since o) (x_until o) (Some (Z.min (default 500 (x_pageSize o)) MAX_PAGE_SIZE)) cursor false.

(** The entries given to the handler and the final cursor; the tables the
    successive queries see are [dbs], and [None] means that they do not suffice. *)
Fixpoint replay (o : ExportOptions) (cursor : option Z) (dbs : list AuditDb) : option (outcome AuditError (list AuditEntry * option Z)) :=
  match dbs with
  | [] => None
  | d :: rest =>
      match query (export_query o cursor) d with
      | Throw e => Some (Throw e)
      | Ok page =>
          match pg_nextCursor page with
          | None => Some (Ok (pg_entries page, en_id <$> last (pg_entries page)))
          | Some c =>
              match replay o (Some c) rest with
              | Some (Ok (more, final)) =>
                  Some (Ok (pg_entries page ++ more, match final with Some _ => final | None => en_id <$> last (pg_entries page) end))
              | r => r
              end
          end
      end
  end.

(** A line of the NDJSON file: a payload of null is written as its text. *)
Definition ndjson (e : AuditEntry) : AuditEntry :=
  mkEntry (en_id e) (en_schemaVersion e) (en_eventType e) (en_orderId e) (en_requestId e)
    (match en_payload e with JNull => JString "null" | p => p end) (en_createdAt e).
Definition exportNdjson (o : ExportOptions) (dbs : list AuditDb) : option (outcome AuditError (list AuditEntry * option Z)) :=
  match replay o (x_resumeCursor o) dbs with Some (Ok (es, c)) => Some (Ok (ndjson <$> es, c)) | r => r end.

(** ** The check of order sequences *)

Definition TERMINAL : list string := ["completed"; "refunded"; "failed"; "expired"].

(** One entry: the issue texts are kept as the kind of issue; a payload in the
    table always parses. *)
Inductive Issue : Type := NoEntries | MissingToStatus (id : Z) | InvalidFromStatus (id : Z) | FirstNotAnnounced (toStatus : string)
| FromMismatch (id : Z) (fromStatus lastStatus : string) | AfterTerminal (id : Z) (lastStatus : option string).

Definition check_entry (e : AuditEntry) (lastStatus : option string) (seenTerminal : bool) : list Issue * option string * bool :=
  match member "toStatus" (en_payload e) with
  | Some (JString to) =>
      match member "fromStatus" (en_payload e) with
      | Some JNull | None | Some (JString _) =>
          let from := match member "fromStatus" (en_payload e) with Some (JString f) => Some f | _ => None end in
          ((if bool_decide (lastStatus = None) && negb (String.eqb to "announced") then [FirstNotAnnounced to] else []) ++
           match lastStatus, from with Some l, Some f => if String.eqb f l then [] else [FromMismatch (en_id e) f l] | _, _ => [] end ++
           (if seenTerminal then [AfterTerminal (en_id e) lastStatus] else []),
           Some to, seenTerminal || bool_decide (to ∈ TERMINAL))
      | Some _ => ([InvalidFromStatus (en_id e)], lastStatus, seenTerminal)
      end
  | _ => ([MissingToStatus (en_id e)], lastStatus, seenTerminal)
  end.

Fixpoint check_entries (es : list AuditEntry) (lastStatus : option string) (seenTerminal : bool) : list Issue :=
  match es with
  | [] => []
  | e :: rest => let '(issues, l, t) := check_entry e lastStatus seenTerminal in issues ++ check_entries rest l t
  end.

Definition validateOrder (orderId : string) (d : AuditDb) : list Issue :=
  match List.filter (fun e => startsWith (en_eventType e) "order.") (forOrder orderId d) with
  | [] => [NoEntries]
  | es => check_entries es None false
  end.

Definition validateOrderSequences (orderIds : list string) (d : AuditDb) : list (string * Issue) :=
  o ← orderIds; (fun i => (o, i)) <$> validateOrder o d.

(** ** The table stays in order *)

Fixpoint ascending (l : list AuditEntry) : Prop :=
  match l with [] => True | e :: l' => (forall x, x ∈ l' -> en_id e < en_id x) /\ ascending l' end.

Record audit_ok (d : AuditDb) : Prop := mkAuditOk { ao_ids : forall e, e ∈ ad_rows d -> 0 < en_id e < ad_next d; ao_asc : ascending (ad_rows d); ao_next : 0 < ad_next d }.

Lemma ascending_app l1 l2 : ascending (l1 ++ l2) <-> ascending l1 /\ ascending l2 /\ forall x y, x ∈ l1 -> y ∈ l2 -> en_id x < en_id y.
Proof.
  induction l1 as [|e l1 IH]; cbn.
  - split; [intros H; split_and!; [done..|by intros ? ? ?%elem_of_nil]|by intros (_ & ? & _)].
  - rewrite IH. split.
    + intros (H1 & H2 & H3 & H4). split_and!; [intros x Hx; apply H1, elem_of_app; by left|done..|].
      intros x y [->|Hx]%elem_of_cons Hy; [apply H1, elem_of_app; by right|by apply H4].
    + intros ((H1 & H2) & H3 & H4). split_and!; [|done..|intros; apply H4; [by right|done]].
      intros x [Hx|Hx]%elem_of_app; [by apply H1|apply H4; [by left|done]].
Qed.

Lemma elem_filter (p : AuditEntry -> bool) l x : x ∈ List.filter p l <-> p x = true /\ x ∈ l.
Proof. rewrite !list_elem_of_In, filter_In. tauto. Qed.

Lemma ascending_filter p l : ascending l -> ascending (List.filter p l).
Proof.
  induction l as [|e l IH]; [done|]. intros [H1 H2]. cbn. destruct (p e); [|by apply IH]. split; [|by apply IH].
  intros x [_ Hx]%elem_filter. by apply H1.
Qed.

Lemma order_ascending l : ascending l -> sql_order id_asc l = l.
Proof.
  induction l as [|e l IH]; [done|]. intros [H1 H2]. unfold sql_order in *. cbn. rewrite IH by done. destruct l as [|y l]; [done|]. cbn.
  unfold id_asc at 1. specialize (H1 y ltac:(by left)). by rewrite (proj2 (Z.ltb_ge _ _)) by lia.
Qed.

Lemma append_ok now i d : audit_ok d -> audit_ok (append now i d).2.
Proof.
  intros [H1 H2 H3]. unfold append. destruct (sanitizeAuditPayload _) as [p|]; [|done]. split; cbn.
  - intros e [He|He%list_elem_of_singleton]%elem_of_app; [specialize (H1 e He); lia|]. subst. cbn. lia.
  - apply ascending_app. split_and!; [done|split; [by intros ? ?%elem_of_nil|done]|]. intros x y Hx Hy%list_elem_of_singleton. subst. cbn. apply H1, Hx.
  - lia.
Qed.

Lemma empty_audit_ok : audit_ok empty_audit.
Proof. split; [by intros ? ?%elem_of_nil|done..]. Qed.

(** ** Exports *)

(** What a query selects. *)
Definition selection (q : QueryOptions) (d : AuditDb) : list AuditEntry := List.filter (where_ q) (ad_rows d).
Definition at_cursor (c : option Z) (q : QueryOptions) : QueryOptions :=
  mkQuery (q_orderId q) (q_eventTypes q) (q_since q) (q_until q) (q_limit q) c (q_includeCount q).
Definition last_id (l : list AuditEntry) : option Z := en_id <$> last l.
Definition grows (d d' : AuditDb) : Prop := exists more, ad_rows d' = ad_rows d ++ more.

Lemma query_page_eq q d n :
  audit_ok d -> Z.min (default 100 (q_limit q)) 1000 = n -> 0 < n ->
  query_page q d =
    if n <? Z.of_nat (length (selection q d)) then (take (Z.to_nat n) (selection q d), last_id (take (Z.to_nat n) (selection q d)))
    else (selection q d, None).
Proof.
  intros Hd E Hn. unfold query_page. rewrite E. cbv zeta. unfold sql_select. fold (selection q d).
  rewrite order_ascending by (apply ascending_filter, Hd). unfold sql_limit. rewrite (proj2 (Z.ltb_ge (n + 1) 0)) by lia. rewrite length_take.
  destruct (Z.ltb_spec n (Z.of_nat (length (selection q d)))) as [Hlt|Hge].
  - rewrite (proj2 (Z.ltb_lt _ _)) by lia. rewrite take_take. by replace (Z.to_nat n `min` Z.to_nat (n + 1))%nat with (Z.to_nat n) by lia.
  - rewrite (proj2 (Z.ltb_ge _ _)) by lia. by rewrite take_ge by lia.
Qed.

Lemma filter_all (p : AuditEntry -> bool) l : (forall x, x ∈ l -> p x = true) -> List.filter p l = l.
Proof. induction l as [|e l IH]; intros H; [done|]. cbn. rewrite (H e ltac:(by left)). f_equal. apply IH. intros x Hx. apply H. by right. Qed.
Lemma filter_none (p : AuditEntry -> bool) l : (forall x, x ∈ l -> p x = false) -> List.filter p l = [].
Proof. induction l as [|e l IH]; intros H; [done|]. cbn. rewrite (H e ltac:(by left)). apply IH. intros x Hx. apply H. by right. Qed.
Lemma filter_entries (p p' : AuditEntry -> bool) l : List.filter p (List.filter p' l) = List.filter (fun x => p' x && p x) l.
Proof. induction l as [|e l IH]; [done|]. cbn. destruct (p' e); cbn; [destruct (p e); by rewrite IH|done]. Qed.

(** A query from the last entry of a beginning of the selection gives the rest,
    also when the table has grown. *)
Lemma selection_resume q d d' es rest c :
  audit_ok d' -> grows d d' -> selection q d = es ++ rest -> last_id es = Some c ->
  selection q d' = es ++ selection (at_cursor (Some c) q) d'.
Proof.
  intros Hok [more Hm] Hs Hc. assert (exists rest', selection q d' = es ++ rest') as [rest' Hs'].
  { exists (rest ++ List.filter (where_ q) more). unfold selection in *. by rewrite Hm, List.filter_app, Hs, app_assoc. }
  rewrite Hs'. f_equal. unfold last_id in Hc. destruct (last es) as [el|] eqn:El; [|done]. injection Hc as <-.
  apply last_Some in El as [es0 ->].
  assert (ascending (es0 ++ [el] ++ rest')) as Ha by (rewrite app_assoc, <- Hs'; apply ascending_filter, Hok).
  assert (where_ q el = true) as Hel.
  { assert (el ∈ selection q d') as H by (rewrite Hs'; apply elem_of_app; left; apply elem_of_app; right; by left). by apply elem_filter in H as [? _]. }
  assert (selection (at_cursor (Some (en_id el)) q) d' = List.filter (fun e => en_id el <? en_id e) (selection q d')) as ->.
  { unfold selection. rewrite filter_entries. apply List.filter_ext. intros e. unfold where_, past_cursor in *. cbn.
    destruct (q_cursor q) as [c0|]; [|by rewrite andb_comm]. apply andb_true_iff in Hel as [Hel _]. apply Z.ltb_lt in Hel.
    destruct (Z.ltb_spec (en_id el) (en_id e)); [|by rewrite andb_false_r]. rewrite (proj2 (Z.ltb_lt c0 (en_id e))) by lia.
    by rewrite andb_true_r. }
  apply ascending_app in Ha as (_ & Ha2 & Ha3). cbn in Ha2. rewrite Hs', List.filter_app, filter_none, filter_all; [done|..].
  - intros x Hx. apply Z.ltb_lt, Ha2, Hx.
  - intros x [Hx| ->%list_elem_of_singleton]%elem_of_app; apply Z.ltb_ge; [|done]. specialize (Ha3 x el Hx ltac:(by left)). lia.
Qed.

Definition page_size (o : ExportOptions) : Z := Z.min (default 500 (x_pageSize o)) MAX_PAGE_SIZE.

Lemma export_page o c d :
  audit_ok d -> 0 < page_size o ->
  query (export_query o c) d =
    let l := selection (export_query o c) d in
    let n := Z.to_nat (page_size o) in
    Ok (if page_size o <? Z.of_nat (length l) then mkPage (take n l) (last_id (take n l)) None else mkPage l None None).
Proof.
  intros Hd Hn. unfold query. cbn [q_limit export_query]. fold (page_size o). rewrite (proj2 (Z.leb_gt _ _)) by lia.
  rewrite (query_page_eq _ _ (page_size o)); [|done| |done].
  - cbv zeta. by destruct (_ <? _).
  - cbn [q_limit export_query default]. fold (page_size o). unfold page_size, MAX_PAGE_SIZE. change (Z.min (page_size o) 1000 = page_size o). unfold page_size, MAX_PAGE_SIZE. lia.
Qed.

Inductive growing : list AuditDb -> Prop :=
| growing_nil : growing []
| growing_one d : audit_ok d -> growing [d]
| growing_cons d d' ds : audit_ok d -> grows d d' -> growing (d' :: ds) -> growing (d :: d' :: ds).

Lemma growing_ok ds d : growing ds -> d ∈ ds -> audit_ok d.
Proof. induction 1 as [|d0 H|d0 d1 ds H Hg Hd IH]; [by intros ?%elem_of_nil|by intros ->%list_elem_of_singleton|]. intros [->|Hi]%elem_of_cons; auto. Qed.

Lemma growing_first d ds d' : growing (d :: ds) -> d' ∈ d :: ds -> grows d d'.
Proof.
  revert d. induction ds as [|d1 ds IH]; intros d H Hi.
  - apply list_elem_of_singleton in Hi as ->. exists []. by rewrite app_nil_r.
  - apply elem_of_cons in Hi as [->|Hi]; [exists []; by rewrite app_nil_r|]. inversion H as [| |? ? ? Ho [m1 Hm1] Hg]; subst.
    destruct (IH d1 Hg Hi) as [m2 Hm2]. exists (m1 ++ m2). by rewrite Hm2, Hm1, app_assoc.
Qed.

Lemma last_id_app l1 l2 : last_id (l1 ++ l2) = match last_id l2 with Some c => Some c | None => last_id l1 end.
Proof. unfold last_id. rewrite last_app. by destruct (last l2). Qed.

Lemma last_id_take n l : (0 < n)%nat -> (0 < length l)%nat -> exists c, last_id (take n l) = Some c.
Proof.
  intros Hn Hl. unfold last_id. destruct (last (take n l)) eqn:E; [by eexists|]. apply last_None in E. apply (f_equal length) in E. rewrite length_take in E. cbn in E. lia.
Qed.

Lemma replay_complete o c dbs d_last :
  0 < page_size o -> growing dbs -> last dbs = Some d_last -> (length (selection (export_query o c) d_last) < length dbs)%nat ->
  exists d, d ∈ dbs /\ replay o c dbs = Some (Ok (selection (export_query o c) d, last_id (selection (export_query o c) d))).
Proof.
  intros Hn. revert c. induction dbs as [|d dbs IH]; intros c Hg Hl Hlen; [done|]. cbn [replay].
  assert (audit_ok d) as Hd by (apply (growing_ok _ _ Hg); by left). rewrite export_page by done. cbv zeta.
  set (q := export_query o c). set (l := selection q d). destruct (Z.ltb_spec (page_size o) (Z.of_nat (length l))) as [Hmore|Hend]; cbn [pg_nextCursor pg_entries].
  - destruct (last_id_take (Z.to_nat (page_size o)) l) as [c' Hc']; [lia..|]. rewrite Hc'.
    assert (forall d', d' ∈ d :: dbs -> selection q d' = take (Z.to_nat (page_size o)) l ++ selection (export_query o (Some c')) d') as Hres.
    { intros d' Hd'. apply (selection_resume q d d' _ (drop (Z.to_nat (page_size o)) l) c'); [by apply (growing_ok (d :: dbs))|by eapply growing_first| |done].
      by rewrite take_drop. }
    destruct dbs as [|d1 dbs]; [cbn in Hlen, Hl; injection Hl as <-; fold q l in Hlen; lia|].
    assert (last (d1 :: dbs) = Some d_last) as Hl' by (by rewrite last_cons_cons in Hl).
    destruct (IH (Some c')) as (dk & Hdk & Hr); [by inversion Hg|done| |].
    + assert (d_last ∈ d1 :: dbs) as Hin by (by apply last_Some_elem_of). fold q in Hlen.
      rewrite (Hres d_last) in Hlen by (by right). rewrite length_app, length_take in Hlen. cbn [length] in *. lia.
    + exists dk. split; [by right|]. rewrite Hr. rewrite (Hres dk) by (by right). rewrite last_id_app.
      destruct (last_id (selection (export_query o (Some c')) dk)) eqn:E; [done|]. done.
  - exists d. split; [by left|done].
Qed.

(** ** Redaction leaves no secret *)

Fixpoint clean (v : json) : bool :=
  match v with
  | JNumber (Infinite _) => false
  | JArray items => forallb clean items
  | JObject members => forallb (fun '(k, x) => if is_secret_key k then match x with JString s => String.eqb s "[REDACTED_SECRET]" | _ => false end else clean x) members
  | _ => true
  end.

Lemma redact_clean : forall v, clean (redact v) = true.
Proof.
  fix IH 1. intros [| |x| |items|members]; cbn; try done.
  - by destruct x.
  - induction items as [|x items IHl]; [done|]. cbn. by rewrite IH, IHl.
  - induction members as [|[k x] members IHl]; [done|]. cbn. rewrite IHl, andb_true_r. destruct (is_secret_key k); [done|apply IH].
Qed.

Lemma clean_redact : forall v, clean v = true -> redact v = v.
Proof.
  fix IH 1. intros [| |x| |items|members]; cbn; try done.
  - by destruct x.
  - intros H. f_equal. induction items as [|x items IHl]; [done|]. cbn in *. apply andb_true_iff in H as [H1 H2]. by rewrite IH, IHl.
  - intros H. f_equal. induction members as [|[k x] members IHl]; [done|]. cbn in *. apply andb_true_iff in H as [H1 H2]. rewrite IHl by done.
    destruct (is_secret_key k); [|by rewrite IH]. destruct x as [| | |s| |]; try done. apply String.eqb_eq in H1. by subst.
Qed.

(** An order event holds nothing to redact: it is stored as it was built. *)
Lemma order_payload_kept p : redact (order_payload p) = order_payload p.
Proof. apply clean_redact. by destruct p as [a h d [f|] t s c [x|] [n|] [r|] [l|]]. Qed.

Lemma append_order now e d :
  (append now (order_input e) d).2 =
    mkAuditDb (ad_rows d ++ [mkEntry (ad_next d) AUDIT_SCHEMA_VERSION (ae_eventType e) (ae_orderId e) (ae_requestId e) (order_payload (ae_payload e)) now]) (ad_next d + 1).
Proof. unfold append, sanitizeAuditPayload. cbn [in_payload order_input fmap option_fmap option_map]. by rewrite order_payload_kept. Qed.

(** Only clean payloads are in the table, and a batch is written whole or not at all. *)
Definition audit_clean (d : AuditDb) : Prop := forall e, e ∈ ad_rows d -> clean (en_payload e) = true.

Lemma append_clean now i d : audit_clean d -> audit_clean (append now i d).2.
Proof.
  intros H. unfold append. destruct (sanitizeAuditPayload (in_payload i)) as [p|] eqn:E; [|done]. cbn.
  intros e [He|He%list_elem_of_singleton]%elem_of_app; [by apply H|]. subst. cbn. unfold sanitizeAuditPayload in E.
  destruct (in_payload i); [|done]. injection E as <-. apply redact_clean.
Qed.

Lemma append_all_ok now ins d : audit_ok d -> audit_clean d -> audit_ok (append_all now ins d).2 /\ audit_clean (append_all now ins d).2.
Proof.
  revert d. induction ins as [|i ins IH]; intros d Ho Hc; [done|]. cbn. pose proof (append_ok now i d Ho) as Ho'. pose proof (append_clean now i d Hc) as Hc'.
  destruct (append now i d) as [[id|e] d']; [|done]. destruct (IH d' Ho' Hc') as [H1 H2]. by destruct (append_all now ins d') as [[ids|e] d''].
Qed.

Lemma batch_all_or_nothing now ins d :
  let '(r, d') := appendBatch now ins d in
  match r with
  | Ok ids => length ids = length ins /\ exists new, ad_rows d' = ad_rows d ++ new /\ en_id <$> new = ids
  | Throw _ => d' = d
  end.
Proof.
  unfold appendBatch. destruct (append_all now ins d) as [[ids|e] d'] eqn:E; [|done].
  revert d ids E. induction ins as [|i ins IH]; intros d ids E; cbn in E.
  { injection E as <- <-. split; [done|]. exists []. by rewrite app_nil_r. }
  destruct (append now i d) as [[id|e] d1] eqn:E1; [|done]. destruct (append_all now ins d1) as [[ids'|e] d2] eqn:E2; [|done].
  injection E as <- <-. destruct (IH d1 ids' E2) as [Hl (new & Hr & Hi)]. split; [cbn; by rewrite Hl|].
  unfold append in E1. destruct (sanitizeAuditPayload _) as [p|]; [|done]. injection E1 as <- <-. cbn in Hr.
  eexists (_ :: new). rewrite Hr, <- app_assoc. split; [done|]. cbn. by rewrite Hi.
Qed.

(** ** The tail *)

Lemma order_descending l : ascending l -> sql_order id_desc l = List.rev l.
Proof.
  assert (forall e t, (forall x, x ∈ t -> en_id e < en_id x) -> sql_insert id_desc e t = t ++ [e]) as Hi.
  { intros e t. induction t as [|y t IHt]; intros H; [done|]. cbn. unfold id_desc at 1. rewrite (proj2 (Z.ltb_lt _ _)) by (apply H; by left).
    f_equal. apply IHt. intros x Hx. apply H. by right. }
  induction l as [|e l IH]; [done|]. intros [H1 H2]. unfold sql_order in *. cbn. rewrite IH by done. apply Hi. intros x Hx. apply H1.
  by apply list_elem_of_In, in_rev, list_elem_of_In in Hx.
Qed.

(** The last entries, oldest first. *)
Lemma tail_eq n d : audit_ok d -> 0 <= n -> tail n d = drop (length (ad_rows d) - Z.to_nat n) (ad_rows d).
Proof.
  intros Hd Hn. unfold tail. rewrite order_descending by apply Hd. unfold sql_limit. rewrite (proj2 (Z.ltb_ge _ _)) by lia.
  rewrite firstn_skipn_rev, !rev_involutive, length_rev. done.
Qed.

(** ** Two repositories *)

Definition page_of (r : outcome AuditError AuditPage) : option (list AuditEntry * option Z) :=
  match r with Ok p => Some (pg_entries p, pg_nextCursor p) | Throw _ => None end.

Lemma kysely_pages_agree q d : page_of (kysely_query q d) = page_of (query q d).
Proof. unfold kysely_query, query. destruct (match q_limit q with Some l => l <=? 0 | None => false end); [done|]. by destruct (query_page q d). Qed.

(** C24.  An export of the audit log is complete and can be continued.  For every
    page size and filter, over a table that grows between the queries, once there
    are more queries than selected entries the export ends; it has handed over,
    in the order of their ids, exactly the entries that the filter selects of the
    table as the last query saw it, and its cursor is the last of them.  A later
    export that resumes from that cursor gives exactly the entries that came
    since: nothing is lost and nothing repeated. *)
Theorem audit_export_complete (o : ExportOptions) (dbs : list AuditDb) (latest : AuditDb) :
  0 < page_size o -> growing dbs -> last dbs = Some latest ->
  (length (selection (export_query o (x_resumeCursor o)) latest) < length dbs)%nat ->
  exists d, d ∈ dbs /\
    let es := selection (export_query o (x_resumeCursor o)) d in
    exportNdjson o dbs = Some (Ok (ndjson <$> es, last_id es)) /\
    forall c d', last_id es = Some c -> audit_ok d' -> grows d d' ->
      selection (export_query o (x_resumeCursor o)) d' = es ++ selection (export_query o (Some c)) d'.
Proof.
  intros Hn Hg Hl Hlen. destruct (replay_complete o (x_resumeCursor o) dbs latest Hn Hg Hl Hlen) as (d & Hd & Hr).
  exists d. split; [done|]. cbv zeta. unfold exportNdjson. rewrite Hr. split; [done|]. intros c d' Hc Ho Hgr.
  apply (selection_resume (export_query o (x_resumeCursor o)) d d' _ [] c); [done..| |done]. by rewrite app_nil_r.
Qed.

(** ** Runs *)

Definition demo_inputs : list EntryInput :=
  [buildSystemAuditEntry "system.startup" "up" None None None; mkInput "order.announced" (Some "o1") None (Some (JObject [("secret", JString "s")]));
   mkInput "order.failed" (Some "o1") None (Some JNull)].
Definition demo_audit (n : nat) : AuditDb := (append_all 7 (take n demo_inputs) empty_audit).2.
Definition demo_export : ExportOptions := mkExport None [] None None (Some 2) None.

Lemma demo_growing : growing [demo_audit 2; demo_audit 3; demo_audit 3; demo_audit 3].
Proof.
  assert (forall n, audit_ok (demo_audit n)) as H by (intros n; apply append_all_ok; [apply empty_audit_ok|by intros ? ?%elem_of_nil]).
  repeat (constructor; [apply H|eexists; (cbn; reflexivity) || (symmetry; apply app_nil_r)|]). constructor. apply H.
Qed.

Lemma audit_export_complete_witness :
  let dbs := [demo_audit 2; demo_audit 3; demo_audit 3; demo_audit 3] in
  (exists r, exportNdjson demo_export dbs = Some (Ok r)) /\ length (selection (export_query demo_export None) (demo_audit 3)) = 3%nat.
Proof.
  split; [|reflexivity].
  destruct (audit_export_complete demo_export [demo_audit 2; demo_audit 3; demo_audit 3; demo_audit 3] (demo_audit 3)) as (d & _ & H & _);
    [reflexivity|apply demo_growing|reflexivity|cbn; lia|]. eexists. exact H.
Defined.

(** A secret in the payload is not stored; a payload of null is exported as text. *)
Example exported_payloads :
  match exportNdjson demo_export [demo_audit 3; demo_audit 3] with
  | Some (Ok (es, c)) => en_payload <$> drop 1 es = [JObject [("secret", JString "[REDACTED_SECRET]")]; JString "null"] /\ c = Some 3
  | _ => False
  end.
Proof. vm_compute. done. Qed.

(** The repositories count differently once there is a cursor. *)
Example counts_differ :
  let q := mkQuery None [] None None None (Some 2) true in
  match query q (demo_audit 3), kysely_query q (demo_audit 3) with Ok p, Ok p' => pg_totalCount p = Some 1 /\ pg_totalCount p' = Some 3 | _, _ => False end.
Proof. vm_compute. done. Qed.

(** An export that finds nothing returns no cursor: the position is lost. *)
Example empty_export_forgets : exportNdjson (mkExport None [] None None None (Some 3)) [demo_audit 3] = Some (Ok ([], None)).
Proof. vm_compute. done. Qed.
