(* ===== verification/AuditTrail.v ===== *)
(** * The audit log follows the orders

    The entries that the order service gives to the audit repository, for all runs
    of its calls: they chain up to the status of each order, and the exporter's
    check of them ([validateOrderSequences]) objects to nothing but an order that
    leaves [expired].  Cancel and abandon bypass the service, and a rollback that
    finds nothing to undo is audited all the same; such calls are outside. *)

From S2P Require Import Prelude JsMap Json OrderMachine TransactionContract OrderRow OrdersRepo OrdersRepoFacts.
From S2P Require Import OrdersRepoSpec HistoryCache Notifications OrderService OrderServiceFacts.
From S2P Require Import OrderServiceSpec CacheCoherence AuditLog.

Import Service.

(** The status of an order. *)
Definition status_of (publicId : string) (d : Db) : option OrderStatus := status <$> row_of publicId d.

(** The entries of an order, and that they lead from one status to another. *)
Definition trail_of (publicId : string) (es : list AuditEntryInput) : list AuditPayload :=
  List.filter (fun p => bool_decide (au_orderId p = publicId)) (ae_payload <$> es).

Definition leaves (from : option string) (p : AuditPayload) : Prop :=
  match from with None => au_toStatus p = "announced" | Some f => exists a, f = status_str a /\ isTerminal a = false end.

Fixpoint chained (from : option string) (ps : list AuditPayload) (to : option string) : Prop :=
  match ps with
  | [] => from = to
  | p :: ps' => au_fromStatus p = from /\ leaves from p /\ chained (Some (au_toStatus p)) ps' to
  end.

Lemma chained_snoc from ps to p :
  chained from ps to -> au_fromStatus p = to -> leaves to p -> chained from (ps ++ [p]) (Some (au_toStatus p)).
Proof. revert from. induction ps as [|q ps IH]; intros from; cbn; [intros ->; done|]. intros (H1 & H2 & H3) Hp Hl. split_and!; auto. Qed.

Definition entry_ok (e : AuditEntryInput) : Prop := ae_orderId e = Some (au_orderId (ae_payload e)) /\ startsWith (ae_eventType e) "order." = true.

(** The log chains up to the statuses. *)
Record audited (d : Db) (log : list AuditEntryInput) : Prop := mkAudited {
  ad_entries : Forall entry_ok log;
  ad_chain : forall p, chained None (trail_of p log) (status_str <$> status_of p d)
}.

Lemma trail_of_app p es es' : trail_of p (es ++ es') = trail_of p es ++ trail_of p es'.
Proof. unfold trail_of. by rewrite fmap_app, List.filter_app. Qed.

(** An order moves and the move is logged. *)
Lemma audited_move d d' log e p to :
  audited d log -> entry_ok e -> au_orderId (ae_payload e) = p -> au_fromStatus (ae_payload e) = status_str <$> status_of p d ->
  leaves (status_str <$> status_of p d) (ae_payload e) -> au_toStatus (ae_payload e) = status_str to ->
  (forall p', status_of p' d' = if bool_decide (p' = p) then Some to else status_of p' d) -> audited d' (log ++ [e]).
Proof.
  intros [He Hc] Hok Hp Hf Hl Ht Hd. split; [by apply Forall_app; split; [|constructor]|]. intros p'. rewrite trail_of_app, Hd.
  unfold trail_of at 2. cbn. rewrite Hp. case_bool_decide as E; case_bool_decide; try congruence.
  - subst p'. change (status_str <$> Some to) with (Some (status_str to)). rewrite <- Ht. by eapply chained_snoc.
  - rewrite app_nil_r. apply Hc.
Qed.

(** Nothing moves. *)
Lemma audited_same d d' log : audited d log -> (forall p, status_of p d' = status_of p d) -> audited d' log.
Proof. intros [He Hc] Hd. split; [done|]. intros p. rewrite Hd. apply Hc. Qed.

(** ** Statuses after a write *)

Lemma status_of_update p q f d d' :
  orders d' = sql_update q f (orders d) -> (forall r, public_id (f r) = public_id r /\ status (f r) = status r) -> status_of p d' = status_of p d.
Proof.
  intros E Hf. unfold status_of, row_of. rewrite E. clear E. induction (orders d) as [|r t IH]; [done|]. rewrite sql_update_cons. cbn.
  assert (by_public_id p (if q r then f r else r) = by_public_id p r) as ->.
  { destruct (q r); [|done]. unfold by_public_id. by rewrite (proj1 (Hf r)). }
  destruct (by_public_id p r); [|exact IH]. cbn. destruct (q r); [by rewrite (proj2 (Hf r))|done].
Qed.

Lemma status_of_write now publicId o f kind pl d p :
  wf_db d -> row_of publicId d = Some o -> same_ids o (f o) ->
  status_of p (write now publicId o f kind pl d) = if bool_decide (p = publicId) then Some (status (f o)) else status_of p d.
Proof.
  intros Hwf Ho Hid. unfold status_of, row_of, write. cbn. rewrite (row_of_write d publicId o) by (apply Hwf || done). by case_bool_decide.
Qed.

Lemma status_of_bump now publicId chain block d p : status_of p (bump_cursor now publicId chain block d) = status_of p d.
Proof.
  unfold bump_cursor. destruct (0 <? block); [|done]. eapply status_of_update; [done|]. intros r. by destruct chain.
Qed.

(** ** The handlers *)

Section Handlers.
Context (cfg : Config) (now : Z) (s : State).
Context (Hcfg : hasAuditRepo cfg = true) (Hwf : wf_db (db s)) (Ha : audited (db s) (auditLog s)).
Notation ok s' := (audited (db s') (auditLog s')).

(** The bookkeeping after a write. *)
Lemma after_write_audited d' o to ev e publicId :
  row_of publicId (db s) = Some o -> isTerminal (status o) = false -> entry_ok e -> au_orderId (ae_payload e) = publicId ->
  au_fromStatus (ae_payload e) = Some (status_str (status o)) -> au_toStatus (ae_payload e) = status_str to ->
  (forall p, status_of p d' = if bool_decide (p = publicId) then Some to else status_of p (db s)) -> ok (after_write cfg d' o to ev e s).
Proof.
  intros Ho Ht He Hp Hf Hto Hd. cbn. rewrite Hcfg. assert (status_of publicId (db s) = Some (status o)) as Hs by (unfold status_of; by rewrite Ho).
  apply (audited_move (db s) d' (auditLog s) e publicId to); try done; rewrite Hs; [done|]. cbn. eauto.
Qed.

Lemma entry_by_builder t p r : startsWith t "order." = true -> entry_ok (buildOrderAuditEntry t p r).
Proof. done. Qed.

Lemma recordSrcLock_audited i : ok (Service.recordSrcLock cfg now i s).2.
Proof.
  rewrite (recordSrcLock_service cfg now s (l_publicId i) Hwf i eq_refl).
  destruct (row_of (l_publicId i) (db s)) as [o|] eqn:Ho; [|done]. destruct (is_dup_src o i); [done|]. case_match eqn:Hc; [|done]. bools.
  pose proof (recordSrcLock_eq now (db s) _ o (wf_public _ Hwf) Ho i eq_refl) as Hw. cbv zeta in Hw.
  rewrite (lifecycle_not_terminal _ _ H0), (nextLockStatus_accepts _ _ H0) in Hw. pose proof (row_of_Some _ _ _ Ho) as [_ Hid].
  eapply after_write_audited; [done|by eapply lifecycle_not_terminal|done|done|done|done|].
  intros p. rewrite status_of_bump, Hw. by apply status_of_write.
Qed.

Lemma recordDstLock_audited i : ok (Service.recordDstLock cfg now i s).2.
Proof.
  rewrite (recordDstLock_service cfg now s (l_publicId i) Hwf i eq_refl).
  destruct (row_of (l_publicId i) (db s)) as [o|] eqn:Ho; [|done]. destruct (is_dup_dst o i); [done|]. case_match eqn:Hc; [|done]. bools.
  pose proof (recordDstLock_eq now (db s) _ o (wf_public _ Hwf) Ho i eq_refl) as Hw. cbv zeta in Hw.
  rewrite (lifecycle_not_terminal _ _ H0), (nextLockStatus_accepts _ _ H0) in Hw. pose proof (row_of_Some _ _ _ Ho) as [_ Hid].
  eapply after_write_audited; [done|by eapply lifecycle_not_terminal|done|done|done|done|].
  intros p. rewrite status_of_bump, Hw. by apply status_of_write.
Qed.

Lemma recordSecret_audited publicId pre txHash enc actor : ok (Service.recordSecret cfg now publicId pre txHash enc actor s).2.
Proof.
  rewrite (recordSecret_service cfg now s publicId Hwf). destruct (row_of publicId (db s)) as [o|] eqn:Ho; [|done].
  destruct (bool_decide (preimage o = Some pre)) eqn:Hd; [done|]. case_match eqn:Hc; [|done]. bools.
  rewrite (recordSecretRevealed_eq now (db s) _ o (wf_public _ Hwf) Ho).
  rewrite (lifecycle_not_terminal _ _ H0), bool_decide_false by done. pose proof (row_of_Some _ _ _ Ho) as [_ Hid].
  eapply after_write_audited; [done|by eapply lifecycle_not_terminal|done|done|done|done|]. intros p. by apply status_of_write.
Qed.

Lemma markStatus_audited publicId to actor : ok (Service.markStatus cfg now publicId to actor s).2.
Proof.
  rewrite (markStatus_service cfg now s publicId Hwf). destruct (row_of publicId (db s)) as [o|] eqn:Ho; [|done].
  destruct (bool_decide (status o = to)) eqn:Hd; [done|]. case_match eqn:Hc; [|done]. bools.
  rewrite (setStatus_eq now (db s) _ o (wf_public _ Hwf) Ho), bool_decide_false by done. pose proof (row_of_Some _ _ _ Ho) as [_ Hid].
  assert (isTerminal (status o) = false) as Hterm by (destruct (isTerminal (status o)) eqn:E; [by rewrite (isTerminal_no_step _ _ E) in Hc|done]).
  eapply after_write_audited; [done|done| |done|done|done|].
  - apply entry_by_builder. by repeat case_bool_decide.
  - intros p. by apply status_of_write.
Qed.

Lemma announce_audited input : ok (Service.announce cfg now input s).2.
Proof.
  unfold Service.announce. st_unfold. rewrite repo_eq. cbn. rewrite with_db_same.
  destruct (sql_get _ _) eqn:Hh; [done|]. cbn. rewrite repo_eq. unfold OrdersRepo.announce.
  destruct (orderIdFromHashlock (a_hashlock input)) as [publicId|e]; [|done].
  destruct (sql_get (by_public_id publicId) (orders (db s))) eqn:Hn; [done|].
  cbn. rewrite sql_get_app, Hn. cbn. unfold by_public_id. rewrite bool_decide_true by done.
  unfold audit, invalidateParties. rewrite Hcfg. st_unfold. cbn. assert (status_of publicId (db s) = None) as Hs by (unfold status_of, row_of; by rewrite Hn).
  eapply (audited_move (db s) _ (auditLog s) _ publicId announced); [done|done|done|by rewrite Hs|by rewrite Hs|done|].
  intros p. unfold status_of, row_of. cbn. rewrite sql_get_app. case_bool_decide as E.
  - subst p. rewrite Hn. cbn. unfold by_public_id. by rewrite bool_decide_true.
  - destruct (sql_get (by_public_id p) (orders (db s))); [done|]. cbn. unfold by_public_id. by rewrite bool_decide_false.
Qed.

(** A rollback that undoes something. *)
Lemma rollbackSrcLock_audited publicId : status_of publicId (db s) = Some src_locked -> ok (Service.rollbackSrcLock cfg now publicId s).2.
Proof.
  intros Hst. unfold Service.rollbackSrcLock, mbind, st_bind. rewrite repo_eq. unfold status_of in Hst.
  destruct (row_of publicId (db s)) as [o|] eqn:Ho; [|done]. injection Hst as Hst. pose proof (row_of_Some _ _ _ Ho) as [_ Hid].
  rewrite (rollbackSrcLock_eq now (db s) _ o (wf_public _ Hwf) Ho), bool_decide_true by done. cbn [fst snd]. unfold audit. rewrite Hcfg. cbn.
  assert (status_of publicId (db s) = Some src_locked) as Hs by (unfold status_of; by rewrite Ho, <- Hst).
  eapply (audited_move (db s) _ (auditLog s) _ publicId announced); [done|done|done|by rewrite Hs|rewrite Hs; by exists src_locked|done|].
  intros p. by apply status_of_write.
Qed.

Lemma rollbackDstLock_audited publicId : status_of publicId (db s) = Some dst_locked -> ok (Service.rollbackDstLock cfg now publicId s).2.
Proof.
  intros Hst. unfold Service.rollbackDstLock, mbind, st_bind. rewrite repo_eq. unfold status_of in Hst.
  destruct (row_of publicId (db s)) as [o|] eqn:Ho; [|done]. injection Hst as Hst. pose proof (row_of_Some _ _ _ Ho) as [_ Hid].
  rewrite (rollbackDstLock_eq now (db s) _ o (wf_public _ Hwf) Ho), bool_decide_true by done. cbn [fst snd]. unfold audit. rewrite Hcfg. cbn.
  assert (status_of publicId (db s) = Some dst_locked) as Hs by (unfold status_of; by rewrite Ho, <- Hst).
  eapply (audited_move (db s) _ (auditLog s) _ publicId src_locked); [done|done|done|by rewrite Hs|rewrite Hs; by exists dst_locked|done|].
  intros p. by apply status_of_write.
Qed.

Lemma repo_audited {A} (m : Repo A) : (forall p, status_of p (m (db s)).2 = status_of p (db s)) -> ok (repo m s).2.
Proof. intros H. rewrite repo_eq. cbn. by eapply audited_same. Qed.
End Handlers.

Lemma expireStaleOrders_audited cfg now secs s :
  hasAuditRepo cfg = true -> wf_db (db s) -> audited (db s) (auditLog s) ->
  audited (db (expireStaleOrders cfg now secs s).2) (auditLog (expireStaleOrders cfg now secs s).2).
Proof.
  intros Hcfg Hwf Hs. unfold expireStaleOrders, mbind, st_bind. rewrite repo_eq.
  unfold findExpiredCandidates, gets. cbn [fst snd]. rewrite with_db_same.
  match goal with |- context [sum_each _ ?l] => generalize l end.
  intros cs. revert s Hwf Hs. induction cs as [|c cs IH]; intros s Hwf Hs; [done|].
  cbn [sum_each]. st_unfold.
  assert (audited (db (expireOne cfg now c s).2) (auditLog (expireOne cfg now c s).2)) as H1.
  { unfold expireOne. destruct (bool_decide _); [done|]. destruct (isTerminal _); [done|].
    pose proof (markStatus_audited cfg now s Hcfg Hwf Hs (o_publicId c) expired "expiry_scan") as H. st_unfold.
    by destruct (Service.markStatus _ _ _ _ _ s) as [[[]|e] s']. }
  pose proof (expireOne_steps (fun _ => True) life cfg now c s I Hwf) as Hst.
  destruct (expireOne cfg now c s) as [[n|e] s1]; [|done]. cbn in H1, Hst.
  specialize (IH s1 (repo_step_wf_rtc _ _ _ Hst Hwf) H1).
  by destruct (sum_each (expireOne cfg now) cs s1) as [[m|e] s2].
Qed.

(** ** Runs *)

(** The calls that the log accounts for. *)
Definition accounted (s : State) (c : Call) : bool :=
  match c with
  | CRollbackSrc p => bool_decide (status_of p (db s) = Some src_locked)
  | CRollbackDst p => bool_decide (status_of p (db s) = Some dst_locked)
  | CCancel _ _ _ | CAbandon _ _ _ => false
  | _ => true
  end.

Fixpoint accounted_run (cfg : Config) (cs : list (Z * Call)) (s : State) : bool :=
  match cs with [] => true | (now, c) :: rest => accounted s c && accounted_run cfg rest (run1 cfg now c s) end.

Lemma reads_audited {A} (m : Svc A) s :
  keeps db m -> keeps auditLog m -> audited (db s) (auditLog s) -> audited (db (m s).2) (auditLog (m s).2).
Proof. intros H1 H2 Hs. by rewrite H1, H2. Qed.

Lemma run1_audited cfg now c s :
  hasAuditRepo cfg = true -> accounted s c = true -> wf_db (db s) -> audited (db s) (auditLog s) ->
  audited (db (run1 cfg now c s)) (auditLog (run1 cfg now c s)).
Proof.
  intros Hcfg Hi Hwf Hs. destruct c; cbn [run1]; cbn [accounted] in Hi; bools; try done.
  - by apply announce_audited.
  - by apply recordSrcLock_audited.
  - by apply recordDstLock_audited.
  - by apply recordSecret_audited.
  - by apply markStatus_audited.
  - by apply rollbackSrcLock_audited.
  - by apply rollbackDstLock_audited.
  - by apply expireStaleOrders_audited.
  - by apply reads_audited; [apply history_keeps|apply history_keeps|].
  - by apply reads_audited; [apply historyWithCursor_keeps|apply historyWithCursor_keeps|].
  - apply repo_audited; [done|]. intros. unfold OrdersRepo.claimEvent. by destruct (_ !! key).
  - by apply repo_audited.
  - apply repo_audited; [done|]. intros. unfold OrdersRepo.advanceOrderLedgerCursor.
    destruct (negb _); [done|]. by eapply status_of_update.
  - apply repo_audited; [done|]. intros. eapply status_of_update; [done|]. intros r. by destruct chain.
  - by apply repo_audited.
  - apply repo_audited; [done|]. intros. unfold OrdersRepo.markSorobanRecovery. by destruct (_ !! contract).
  - apply repo_audited; [done|]. intros. by eapply status_of_update.
  - apply repo_audited; [done|]. intros. by eapply status_of_update.
Qed.

Lemma run_audited cfg cs s :
  hasAuditRepo cfg = true -> accounted_run cfg cs s = true -> wf_db (db s) -> audited (db s) (auditLog s) ->
  audited (db (run cfg cs s)) (auditLog (run cfg cs s)).
Proof.
  intros Hcfg. revert s. induction cs as [|[now c] cs IH]; intros s Hacc Hwf Hs; [done|]. cbn in Hacc. bools.
  change (run cfg ((now, c) :: cs) s) with (run cfg cs (run1 cfg now c s)). apply IH; [done|apply (run_wf cfg [(now, c)] s Hwf)|by apply run1_audited].
Qed.

(** ** The stored entries *)

(** The table after the repository appended the entries, each at its time. *)
Definition stored (log : list (Z * AuditEntryInput)) : AuditDb :=
  foldl (fun d '(now, e) => (append now (order_input e) d).2) empty_audit log.

(** A row that holds an entry. *)
Definition holds_entry (e : AuditEntryInput) (r : AuditEntry) : Prop :=
  en_eventType r = ae_eventType e /\ en_orderId r = ae_orderId e /\ en_payload r = order_payload (ae_payload e).

Lemma stored_rows log : audit_ok (stored log) /\ Forall2 holds_entry (snd <$> log) (ad_rows (stored log)).
Proof.
  induction log as [|[now e] log [IHo IHr]] using rev_ind; [split; [apply empty_audit_ok|constructor]|].
  unfold stored in *. rewrite foldl_app. cbn [foldl]. split; [by apply append_ok|].
  rewrite append_order, fmap_app. cbn. apply Forall2_app; [done|]. by repeat constructor.
Qed.

(** The lifecycle rows of an order hold its trail. *)
Lemma rows_of_trail p log rows :
  Forall entry_ok log -> Forall2 holds_entry log rows ->
  Forall2 (fun a r => en_payload r = order_payload a) (trail_of p log)
    (List.filter (fun r => startsWith (en_eventType r) "order.") (List.filter (fun r => bool_decide (en_orderId r = Some p)) rows)).
Proof.
  intros Hok Hh. unfold trail_of. induction Hh as [|e r log rows (H1 & H2 & H3) Hh IH]; [constructor|]. inversion_clear Hok as [|? ? [Ho Ht] Hok'].
  cbn. rewrite H2, Ho. destruct (decide (au_orderId (ae_payload e) = p)) as [->|Hne].
  - rewrite !bool_decide_true by done. cbn. rewrite H1, Ht. constructor; auto.
  - rewrite !bool_decide_false by congruence. auto.
Qed.

Definition leaves_expired (a : AuditPayload) : Prop := au_fromStatus a = Some "expired".

Definition settled_status (from : option string) : bool := match from with Some f => bool_decide (f ∈ TERMINAL) | None => false end.

Lemma check_chained from ps to rows :
  chained from ps to -> Forall2 (fun a r => en_payload r = order_payload a) ps rows ->
  check_entries rows from (settled_status from) = [] <-> Forall (fun a => ~ leaves_expired a) ps.
Proof.
  intros Hc Hr. revert from Hc. induction Hr as [|a r ps rows Ha _ IH]; intros from Hc; [done|]. destruct Hc as (Hf & Hl & Hc). specialize (IH _ Hc).
  cbn [check_entries]. unfold check_entry. rewrite Ha. unfold order_payload, member. cbn -[TERMINAL]. rewrite Hf, Forall_cons. unfold leaves_expired at 1. rewrite Hf.
  destruct from as [f|]; cbn -[TERMINAL] in *.
  - destruct Hl as (st & -> & Hst). rewrite String.eqb_refl. cbn -[TERMINAL].
    assert (bool_decide (status_str st ∈ TERMINAL) = bool_decide (st = expired)) as Hx by (by destruct st).
    rewrite Hx. destruct (decide (st = expired)) as [->|E]; [|rewrite (bool_decide_false (st = expired)) by done]; cbn -[TERMINAL].
    + split; [done|]. by intros [H _].
    + rewrite IH. split; [|tauto]. intros H. split; [|done]. by destruct st.
  - rewrite Hl in *. cbn -[TERMINAL]. rewrite IH. naive_solver.
Qed.

Lemma validate_chained p log to :
  Forall entry_ok (snd <$> log) -> chained None (trail_of p (snd <$> log)) (Some to) ->
  validateOrder p (stored log) = [] <-> Forall (fun a => ~ leaves_expired a) (trail_of p (snd <$> log)).
Proof.
  intros Hok Hc. destruct (stored_rows log) as [Hd Hr]. unfold validateOrder, forOrder, sql_select.
  rewrite order_ascending by (apply ascending_filter, Hd). pose proof (rows_of_trail p _ _ Hok Hr) as Ht.
  rewrite <- (check_chained None _ _ _ Hc Ht). cbn [settled_status].
  destruct (List.filter _ (List.filter _ _)); [|done]. inversion Ht as [E|]. by rewrite <- E in Hc.
Qed.

(** C13.  The audit log is the history of the orders, and the exporter's check
    accepts it.  After any run of the service's calls, the audited entries of an
    existing order start at its announcement with no previous status, each names as
    its previous status the one that the entry before it led to, none leaves a
    terminal status, and the last leads to the status the order has.  Stored by
    the repository at any times, [validateOrderSequences] reports nothing for the
    order if and only if none of its entries leaves [expired].  (A rollback counts
    as such a call when there is something to undo; cancel and abandon are not
    calls of the service.) *)
Theorem audit_trail_validates (cfg : Config) (cs : list (Z * Call)) (log : list (Z * AuditEntryInput)) (publicId : string) (o : OrderDbRow) :
  hasAuditRepo cfg = true -> accounted_run cfg cs init = true ->
  let s := run cfg cs init in
  snd <$> log = auditLog s -> row_of publicId (db s) = Some o ->
  chained None (trail_of publicId (auditLog s)) (Some (status_str (status o))) /\
  (validateOrderSequences [publicId] (stored log) = [] <-> Forall (fun a => ~ leaves_expired a) (trail_of publicId (auditLog s))).
Proof.
  intros Hcfg Hacc s Hlog Ho. assert (audited (db s) (auditLog s)) as [He Hc].
  { apply run_audited; [done|done|apply wf_emptyDb|]. split; [constructor|done]. }
  specialize (Hc publicId). unfold status_of in Hc. rewrite Ho in Hc. split; [done|]. rewrite <- Hlog in *.
  rewrite <- (validate_chained publicId log _ He Hc). cbn. rewrite app_nil_r. by destruct (validateOrder publicId (stored log)).
Qed.

(** ** Runs with names *)

Definition audited_calls : list (Z * Call) :=
  [(1000, CAnnounce demo_input); (2000, CSrcLock (mkLockInput demo_id "7" "0xt1" 100 90 None None)); (3000, CRollbackSrc demo_id);
   (4000, CSrcLock (mkLockInput demo_id "7" "0xt2" 101 90 None None)); (5000, CExpire (Some 9000))].
Definition at_time (now : Z) (es : list AuditEntryInput) : list (Z * AuditEntryInput) := (fun e => (now, e)) <$> es.

Lemma audit_trail_validates_witness :
  let s := run demo_cfg audited_calls init in
  chained None (trail_of demo_id (auditLog s)) (Some "expired") /\ validateOrderSequences [demo_id] (stored (at_time 7 (auditLog s))) = [].
Proof.
  intros s. destruct (row_of demo_id (db s)) as [o|] eqn:Ho; [|vm_compute in Ho; discriminate].
  destruct (audit_trail_validates demo_cfg audited_calls (at_time 7 (auditLog s)) demo_id o) as [H1 H2];
    [reflexivity|vm_compute; reflexivity|unfold at_time; rewrite <- list_fmap_compose; apply list_fmap_id|exact Ho|].
  split.
  - assert (status_str (status o) = "expired") as <-; [|exact H1]. vm_compute in Ho. injection Ho as <-. reflexivity.
  - apply H2. fold s. assert (trail_of demo_id (auditLog s) = ltac:(let x := eval vm_compute in (trail_of demo_id (auditLog s)) in exact x)) as -> by (vm_compute; reflexivity).
    repeat (constructor; [discriminate|]). constructor.
Defined.

(** The machine lets an expired order be refunded, and so does the service: the
    check then reports the entry of the refund. *)
Example refund_reported :
  let s := run demo_cfg (audited_calls ++ [(9000, CMark demo_id refunded "watchdog")]) init in
  (status <$> row_of demo_id (db s)) = Some refunded /\ validateOrder demo_id (stored (at_time 7 (auditLog s))) = [AfterTerminal 6 (Some "expired")].
Proof. vm_compute. done. Qed.

(** A rollback of an order that is not locked changes nothing and is audited; the
    log of the order no longer chains. *)
Example phantom_rollback :
  let s := run demo_cfg [(1000, CAnnounce demo_input); (2000, CRollbackSrc demo_id)] init in
  (status <$> row_of demo_id (db s)) = Some announced /\ (ae_eventType <$> auditLog s) = ["order.announced"; "order.src_lock_rolled_back"] /\
  validateOrder demo_id (stored (at_time 7 (auditLog s))) = [FromMismatch 2 "src_locked" "announced"].
Proof. vm_compute. done. Qed.

(** An order cancelled through the service is audited as failed, and one that is
    cancelled in the repository is not audited. *)
Example cancellations_audited :
  let kinds c := ae_eventType <$> auditLog (run demo_cfg [(1000, CAnnounce demo_input); (2000, c)] init) in
  kinds (CMark demo_id cancelled "user") = ["order.announced"; "order.failed"] /\ kinds (CCancel demo_id "no" "user") = ["order.announced"].
Proof. vm_compute. done. Qed.
