(* ===== verification/ResolverSolana.v ===== *)
(** * The resolver's Solana listener

    resolver/src/listeners/solana.ts and solana-config.ts.  As in the Soroban
    listener, [start] begins a tick, every tick schedules the next, and a tick that
    awaits an answer goes on after [stop]; so a tick is the stage it waits at and
    the answers of the RPC node resume ticks in any order.  Log lines are texts,
    and the JSON in them is parsed.  Handlers are synchronous and may throw. *)

From Stdlib Require Import Ascii.
From S2P Require Import Prelude JsMap Json SolanaClient ResolverTelemetry.

Definition CHAIN : string := "solana".
Definition FINALIZATION_SLOTS : Z := 32.
Definition REGRESSION_THRESHOLD : Z := 5.
Definition PENDING_SLOTS_MAX_AGE : Z := 200.
Definition DEDUP_CACHE_MAX : Z := 10000.

(** ** Configuration *)

Definition isSolanaProgramIdPlaceholder (programId : option string) : bool :=
  match programId with
  | None => true
  | Some p =>
      if negb (truthy_string (trim p)) then true
      else
        let upper := toUpperCase (trim p) in
        bool_decide (upper ∈ ["PLACEHOLDER"; "YOUR_SOLANA_HTLC_PROGRAM"; "YOUR_SOLANA_PROGRAM"; "YOUR_PROGRAM_ID"; "11111111111111111111111111111111"]) ||
        includes upper "PLACEHOLDER" || startsWith upper "YOUR_"
  end.

Inductive SolanaListenerMode : Type := mode_disabled | mode_simulation | mode_live.

(** [None]: it throws. *)
Definition resolveSolanaListenerConfig {W : Web3} (programId : option string) (simulationMode : bool) : option SolanaListenerMode :=
  if isSolanaProgramIdPlaceholder programId then Some mode_disabled
  else if simulationMode then Some mode_simulation
  else match newPublicKey (trim (default "" programId)) with Some _ => Some mode_live | None => None end.

(** ** The payload of the log lines *)

(** What [.] matches: up to a line terminator. *)
Fixpoint rest_of_line (s : string) : string :=
  match s with
  | EmptyString => EmptyString
  | String c s' =>
      let n := Ascii.nat_of_ascii c in
      let separator := match s' with
                       | String d (String e _) => Nat.eqb n 226 && Nat.eqb (Ascii.nat_of_ascii d) 128 &&
                                                  (Nat.eqb (Ascii.nat_of_ascii e) 168 || Nat.eqb (Ascii.nat_of_ascii e) 169)
                       | _ => false
                       end in
      if Nat.eqb n 10 || Nat.eqb n 13 || separator then EmptyString else String c (rest_of_line s')
  end.

(** Up to the last closing brace. *)
Fixpoint to_last_brace (s : string) : option string :=
  match s with
  | EmptyString => None
  | String c s' =>
      match to_last_brace s' with
      | Some t => Some (String c t)
      | None => if Ascii.eqb c "}"%char then Some (String c EmptyString) else None
      end
  end.

(** [line.match(/\{.*\}/)]. *)
Fixpoint json_match (s : string) : option string :=
  match s with
  | EmptyString => None
  | String c s' =>
      if Ascii.eqb c "{"%char then
        match to_last_brace (rest_of_line s') with Some t => Some (String c t) | None => json_match s' end
      else json_match s'
  end.

(** The object [payload]: its own members and the prototype that an assignment to
    [__proto__] has given it. *)
Inductive Proto : Type := ObjectPrototype | NoPrototype | AnObject (members : list (string * json)).
Record Payload : Type := mkPayload { pl_own : list (string * json); pl_proto : Proto }.
Definition no_payload : Payload := mkPayload [] ObjectPrototype.

(** Of members of the same name an object keeps the last. *)
Definition own_members (ms : list (string * json)) : list (string * json) := foldl (fun m '(k, v) => jm_set k v m) [] ms.

(** The setter of [Object.prototype] is found. *)
Definition setter_found (p : Payload) : bool :=
  negb (jm_has "__proto__" (pl_own p)) &&
  match pl_proto p with ObjectPrototype => true | NoPrototype => false | AnObject ms => negb (jm_has "__proto__" ms) end.

Definition assign_member (p : Payload) (m : string * json) : Payload :=
  let '(k, v) := m in
  if String.eqb k "__proto__" && setter_found p then
    match v with
    | JObject ms => mkPayload (pl_own p) (AnObject (own_members ms))
    | JArray _ => mkPayload (pl_own p) (AnObject [])
    | JNull => mkPayload (pl_own p) NoPrototype
    | _ => p
    end
  else mkPayload (jm_set k v (pl_own p)) (pl_proto p).

Definition assign (p : Payload) (v : json) : Payload := match v with JObject ms => foldl assign_member p (own_members ms) | _ => p end.

Definition field (k : string) (p : Payload) : option json :=
  match jm_get k (pl_own p) with
  | Some v => Some v
  | None => match pl_proto p with AnObject ms => jm_get k ms | _ => None end
  end.

(** [a ?? b] and truth. *)
Definition nullish (v : option json) : bool := match v with None | Some JNull => true | _ => false end.
Definition coalesce (a b : option json) : option json := if nullish a then b else a.
Definition truthy (v : option json) : bool :=
  match v with
  | None | Some JNull | Some (JBool false) => false
  | Some (JNumber (Dyadic m _)) => negb (m =? 0)
  | Some (JString s) => truthy_string s
  | _ => true
  end.
Definition if_truthy (v : option json) : option json := if truthy v then v else None.

(** [String(v)] throws for an object with a member [toString], in an array too; it
    is empty for an empty string and for an array of one such. *)
Fixpoint unprintable (v : json) : bool :=
  match v with
  | JObject ms => existsb (fun m => String.eqb m.1 "toString") ms
  | JArray items => existsb unprintable items
  | _ => false
  end.
Fixpoint prints_empty (v : json) : bool :=
  match v with
  | JString s => negb (truthy_string s)
  | JArray items => match items with [] => true | [JNull] => true | [x] => prints_empty x | _ => false end
  | _ => false
  end.

(** An amount is kept as the value that [String] renders. *)
Definition amount_of (v : option json) : outcome unit (option json) :=
  match v with
  | None | Some JNull => Ok None
  | Some x => if unprintable x then Throw tt else Ok (if prints_empty x then None else Some x)
  end.

(** ** Events *)

Inductive EventType : Type := created | claimed | refunded.

Inductive SolanaHtlcEvent : Type :=
| OrderCreated (txSig : string) (orderId hashlock timelock : json) (slot : Z) (sender beneficiary refundAddress mint amount safetyDeposit : option json)
| OrderClaimed (txSig : string) (orderId preimage : json) (slot : Z) (claimer hashlock amount : option json)
| OrderRefunded (txSig : string) (orderId : json) (slot : Z) (refunder refundAddress hashlock amount : option json).

Definition ev_sig (e : SolanaHtlcEvent) : string :=
  match e with OrderCreated s _ _ _ _ _ _ _ _ _ _ | OrderClaimed s _ _ _ _ _ _ | OrderRefunded s _ _ _ _ _ _ => s end.
Definition ev_slot (e : SolanaHtlcEvent) : Z :=
  match e with OrderCreated _ _ _ _ s _ _ _ _ _ _ | OrderClaimed _ _ _ s _ _ _ | OrderRefunded _ _ s _ _ _ _ => s end.

(** One line; a text that is not JSON is counted and skipped. *)
Definition read_line (acc : option EventType * Payload) (line : string) : option EventType * Payload :=
  let '(t, p) := acc in
  let t := if includes line "OrderCreated" then Some created else t in
  let t := if includes line "OrderClaimed" then Some claimed else t in
  let t := if includes line "OrderRefunded" then Some refunded else t in
  (t, match json_match line with Some text => match JSON_parse text with Some v => assign p v | None => p end | None => p end).

Definition build_event (sig : string) (slot : Z) (t : EventType) (p : Payload) : outcome unit (option SolanaHtlcEvent) :=
  let hashlock := coalesce (field "hashlock" p) (field "hash_lock" p) in
  let orderId := coalesce (field "orderId" p) (field "order_id" p) in
  let refundAddress := coalesce (field "refundAddress" p) (field "refund_address" p) in
  match t with
  | created =>
      let timelock := coalesce (field "timelock" p) (field "time_lock" p) in
      match if_truthy hashlock, if_truthy orderId, timelock with
      | Some h, Some o, Some tl =>
          if nullish timelock then Ok None
          else
            match amount_of (field "amount" p) with
            | Throw e => Throw e
            | Ok amount =>
                match amount_of (coalesce (field "safetyDeposit" p) (field "safety_deposit" p)) with
                | Throw e => Throw e
                | Ok deposit =>
                    Ok (Some (OrderCreated sig o h tl slot (if_truthy (coalesce (field "sender" p) (field "payer" p))) (if_truthy (field "beneficiary" p))
                                (if_truthy refundAddress)
                                (if_truthy (coalesce (coalesce (field "mint" p) (field "token_mint" p)) (field "token" p))) amount deposit))
                end
            end
      | _, _, _ => Ok None
      end
  | claimed =>
      match if_truthy (field "preimage" p), if_truthy orderId with
      | Some pre, Some o =>
          match amount_of (field "amount" p) with
          | Throw e => Throw e
          | Ok amount => Ok (Some (OrderClaimed sig o pre slot (if_truthy (coalesce (field "claimer" p) (field "beneficiary" p))) (if_truthy hashlock) amount))
          end
      | _, _ => Ok None
      end
  | refunded =>
      match if_truthy orderId with
      | Some o =>
          match amount_of (field "amount" p) with
          | Throw e => Throw e
          | Ok amount =>
              Ok (Some (OrderRefunded sig o slot
                          (if_truthy (coalesce (coalesce (field "refunder" p) (field "refund_address" p)) (field "refundAddress" p)))
                          (if_truthy refundAddress) (if_truthy hashlock) amount))
          end
      | None => Ok None
      end
  end.

(** [Throw]: [String] threw a TypeError. *)
Definition parseSolanaHtlcLogs (sig : string) (logs : list string) (slot : Z) : outcome unit (option SolanaHtlcEvent) :=
  match foldl read_line (None, no_payload) logs with
  | (None, _) => Ok None
  | (Some t, p) => build_event sig slot t p
  end.

(** ** State *)

Definition Tx : Type := string * list string.
Record SigInfo : Type := mkSig { si_signature : string; si_slot : Z; si_err : bool }.

(** Where a tick waits: its timer, both slots, the signatures, the transaction of
    the first of the signatures that are left. *)
Inductive Stage : Type :=
| Timer
| AskSlots
| AskSigs (finalizedSlot confirmedSlot : Z)
| AskTx (finalizedSlot confirmedSlot : Z) (sigs : list SigInfo) (first : SigInfo) (rest : list SigInfo)
| Gone.

(** A call of a handler, and whether it returned. *)
Inductive Call : Type := Known (e : SolanaHtlcEvent) (ok : bool) | Unknown (sig : string) (slot : Z) (ok : bool).

Record Listener : Type := mkListener {
  l_programId : option string;
  l_lastSlot : Z;
  l_pending : list (Z * list Tx);
  l_processed : list string;
  l_stopped : bool;
  l_timeoutId : option nat;
  l_ticks : list Stage;
  l_monitor : StalenessMonitor;
  l_calls : list Call
}.

Definition new_listener (programId : option string) : Listener := mkListener programId 0 [] [] false None [] newMonitor [].

Definition set_lastSlot (n : Z) (l : Listener) : Listener :=
  mkListener (l_programId l) n (l_pending l) (l_processed l) (l_stopped l) (l_timeoutId l) (l_ticks l) (l_monitor l) (l_calls l).
Definition set_pending (m : list (Z * list Tx)) (l : Listener) : Listener :=
  mkListener (l_programId l) (l_lastSlot l) m (l_processed l) (l_stopped l) (l_timeoutId l) (l_ticks l) (l_monitor l) (l_calls l).
Definition set_processed (p : list string) (l : Listener) : Listener :=
  mkListener (l_programId l) (l_lastSlot l) (l_pending l) p (l_stopped l) (l_timeoutId l) (l_ticks l) (l_monitor l) (l_calls l).
Definition set_stopped (b : bool) (l : Listener) : Listener :=
  mkListener (l_programId l) (l_lastSlot l) (l_pending l) (l_processed l) b (l_timeoutId l) (l_ticks l) (l_monitor l) (l_calls l).
Definition set_timeoutId (t : option nat) (l : Listener) : Listener :=
  mkListener (l_programId l) (l_lastSlot l) (l_pending l) (l_processed l) (l_stopped l) t (l_ticks l) (l_monitor l) (l_calls l).
Definition set_ticks (t : list Stage) (l : Listener) : Listener :=
  mkListener (l_programId l) (l_lastSlot l) (l_pending l) (l_processed l) (l_stopped l) (l_timeoutId l) t (l_monitor l) (l_calls l).
Definition set_monitor (f : StalenessMonitor -> StalenessMonitor) (l : Listener) : Listener :=
  mkListener (l_programId l) (l_lastSlot l) (l_pending l) (l_processed l) (l_stopped l) (l_timeoutId l) (l_ticks l) (f (l_monitor l)) (l_calls l).
Definition add_call (c : Call) (l : Listener) : Listener :=
  mkListener (l_programId l) (l_lastSlot l) (l_pending l) (l_processed l) (l_stopped l) (l_timeoutId l) (l_ticks l) (l_monitor l) (l_calls l ++ [c]).

(** ** The queue: a map from slots to lists *)

Definition push_tx (slot : Z) (tx : Tx) (m : list (Z * list Tx)) : list (Z * list Tx) :=
  if existsb (fun e => e.1 =? slot) m then (fun e => if e.1 =? slot then (e.1, e.2 ++ [tx]) else e) <$> m else m ++ [(slot, [tx])].
Definition keep_slots (f : Z -> bool) (m : list (Z * list Tx)) : list (Z * list Tx) := List.filter (fun e => f e.1) m.

(** ** Dispatch *)

(** The handlers: [throws] of an event, or of an unknown transaction, which none
    may be interested in ([None]). *)
Record Handlers : Type := mkHandlers { h_throws : SolanaHtlcEvent -> bool; h_unknown : option (string -> Z -> bool) }.

Definition markSigProcessed (sig : string) (p : list string) : list string :=
  if bool_decide (sig ∈ p) then p
  else (if DEDUP_CACHE_MAX <=? Z.of_nat (length p) then List.tl p else p) ++ [sig].

(** [false]: it threw. *)
Definition dispatch (h : Handlers) (sig : string) (logs : list string) (slot : Z) (l : Listener) : bool * Listener :=
  if bool_decide (sig ∈ l_processed l) then (true, l)
  else
    match parseSolanaHtlcLogs sig logs slot with
    | Throw _ => (false, l)
    | Ok None =>
        match h_unknown h with
        | None => (true, l)
        | Some throws => (negb (throws sig slot), add_call (Unknown sig slot (negb (throws sig slot))) l)
        end
    | Ok (Some e) =>
        if h_throws h e then (true, add_call (Known e false) l)
        else (true, set_processed (markSigProcessed sig (l_processed l)) (add_call (Known e true) l))
    end.

Fixpoint dispatch_all (h : Handlers) (slot : Z) (txs : list Tx) (l : Listener) : bool * Listener :=
  match txs with
  | [] => (true, l)
  | (sig, logs) :: rest => let '(ok, l) := dispatch h sig logs slot l in if ok then dispatch_all h slot rest l else (false, l)
  end.

(** The slots below the watermark, in the order of the map. *)
Fixpoint drain (h : Handlers) (drainBefore : Z) (queue : list (Z * list Tx)) (l : Listener) : bool * Listener :=
  match queue with
  | [] => (true, l)
  | (slot, txs) :: rest =>
      if drainBefore <? slot then drain h drainBefore rest l
      else
        let '(ok, l) := dispatch_all h slot txs l in
        if ok then drain h drainBefore rest (set_pending (keep_slots (fun s => negb (s =? slot)) (l_pending l)) l) else (false, l)
  end.

Definition handleRegression (newConfirmedSlot : Z) (l : Listener) : Listener :=
  let inside s := (newConfirmedSlot + 1 <=? s) && (s <=? l_lastSlot l) in
  let dropped := length (concat (snd <$> keep_slots inside (l_pending l))) in
  let l := set_pending (keep_slots (fun s => negb (inside s)) (l_pending l)) l in
  set_lastSlot newConfirmedSlot (if (0 <? dropped)%nat then set_monitor (recordMissedBatch CHAIN) l else l).

(** ** Ticks *)

Definition set_tick (i : nat) (s : Stage) (l : Listener) : Listener := set_ticks (<[i := s]> (l_ticks l)) l.

Definition tick_end (i : nat) (l : Listener) : Listener :=
  if l_stopped l then set_tick i Gone l else set_timeoutId (Some i) (set_tick i Timer l).
Definition tick_failed (i : nat) (l : Listener) : Listener := tick_end i (set_monitor (recordFailure CHAIN) l).

(** After the signatures: the new [lastSlot], the drain and the pruning. *)
Definition advance_lastSlot (sigs : list SigInfo) (confirmedSlot : Z) (l : Listener) : Listener :=
  match sigs with
  | [] => if l_lastSlot l =? 0 then set_lastSlot confirmedSlot l else l
  | _ => set_lastSlot (foldl Z.max (l_lastSlot l) (si_slot <$> sigs)) l
  end.

Definition finish_poll (h : Handlers) (now : Z) (i : nat) (finalizedSlot confirmedSlot : Z) (sigs : list SigInfo) (l : Listener) : Listener :=
  let l := advance_lastSlot sigs confirmedSlot l in
  let '(ok, l) := drain h (finalizedSlot - FINALIZATION_SLOTS) (l_pending l) l in
  if ok then
    let l := set_pending (keep_slots (fun s => negb (s <? finalizedSlot - PENDING_SLOTS_MAX_AGE)) (l_pending l)) l in
    tick_end i (set_monitor (recordHealthyTick now CHAIN) l)
  else tick_failed i l.

(** On to the next signature that is new. *)
Fixpoint scan (h : Handlers) (now : Z) (i : nat) (finalizedSlot confirmedSlot : Z) (sigs rest : list SigInfo) (l : Listener) : Listener :=
  match rest with
  | [] => finish_poll h now i finalizedSlot confirmedSlot sigs l
  | s :: rest =>
      if (si_slot s <=? l_lastSlot l) || si_err s then scan h now i finalizedSlot confirmedSlot sigs rest l
      else set_tick i (AskTx finalizedSlot confirmedSlot sigs s rest) l
  end.

Section Live.
Context {W : Web3}.

(** A tick begins: [new PublicKey(programId)] is inside the try block. *)
Definition begin_tick (i : nat) (l : Listener) : Listener :=
  if l_stopped l then set_tick i Gone l
  else match newPublicKey (default "" (l_programId l)) with Some _ => set_tick i AskSlots l | None => tick_failed i l end.

Definition stop (l : Listener) : Listener :=
  let l := set_stopped true l in
  let l := match l_timeoutId l with
           | Some i =>
               let l := set_timeoutId None l in
               match l_ticks l !! i with Some Timer => set_tick i Gone l | _ => l end
           | None => l
           end in
  set_monitor (recordStopped CHAIN) l.

(** A malformed program id throws, which changes nothing. *)
Definition start (l : Listener) : Listener :=
  match resolveSolanaListenerConfig (l_programId l) false with
  | Some mode_live =>
      let l := set_stopped false (stop l) in
      let l := set_monitor (recordStarted CHAIN) l in
      begin_tick (length (l_ticks l)) (set_ticks (l_ticks l ++ [Timer]) l)
  | _ => l
  end.

Inductive Event : Type :=
| EStart
| EStop
| ETimer (i : nat)
| ESlots (i : nat) (r : option (Z * Z))
| ESigs (i : nat) (h : Handlers) (now : Z) (r : option (list SigInfo))
| ETx (i : nat) (h : Handlers) (now : Z) (sig : string) (r : option (option (list string))).

(** [ETx]: the call failed, the transaction has no logs, or its logs. *)
Definition step (l : Listener) (e : Event) : Listener :=
  match e with
  | EStart => start l
  | EStop => stop l
  | ETimer i => match l_ticks l !! i with Some Timer => begin_tick i l | _ => l end
  | ESlots i r =>
      match l_ticks l !! i, r with
      | Some AskSlots, Some (finalizedSlot, confirmedSlot) =>
          let l := if (0 <? l_lastSlot l) && (confirmedSlot <? l_lastSlot l - REGRESSION_THRESHOLD) then handleRegression confirmedSlot l else l in
          set_tick i (AskSigs finalizedSlot confirmedSlot) l
      | Some AskSlots, None => tick_failed i l
      | _, _ => l
      end
  | ESigs i h now r =>
      match l_ticks l !! i, r with
      | Some (AskSigs f c), Some sigs => scan h now i f c sigs sigs l
      | Some (AskSigs _ _), None => tick_failed i l
      | _, _ => l
      end
  | ETx i h now sig r =>
      match l_ticks l !! i with
      | Some (AskTx f c sigs first rest) =>
          if String.eqb sig (si_signature first) then
            scan h now i f c sigs rest
              (match r with Some (Some logs) => set_pending (push_tx (si_slot first) (sig, logs) (l_pending l)) l | _ => l end)
          else l
      | _ => l
      end
  end.

Definition run (programId : option string) (es : list Event) : Listener := foldl step (new_listener programId) es.
End Live.

(** ** The queue *)

Definition in_queue (l : Listener) (slot : Z) (tx : Tx) : Prop := exists txs, (slot, txs) ∈ l_pending l /\ tx ∈ txs.

Lemma elem_keep f m slot txs : (slot, txs) ∈ keep_slots f m <-> (slot, txs) ∈ m /\ f slot = true.
Proof. unfold keep_slots. rewrite !list_elem_of_In, filter_In. done. Qed.

Lemma keep_all f m : (forall e, e ∈ m -> f e.1 = true) -> keep_slots f m = m.
Proof.
  induction m as [|e m IH]; intros H; [done|]. cbn. rewrite (H e) by (by left). f_equal. apply IH. intros x Hx. apply H. by right.
Qed.

Definition slots_of (m : list (Z * list Tx)) : list Z := fst <$> m.

Lemma keep_NoDup f m : NoDup (slots_of m) -> NoDup (slots_of (keep_slots f m)).
Proof.
  induction m as [|e m IH]; [done|]. intros [H1 H2]%NoDup_cons. cbn. destruct (f e.1); [|by apply IH].
  apply NoDup_cons. split; [|by apply IH]. intros (x & Hx & Hin)%list_elem_of_fmap. apply H1. rewrite Hx.
  destruct x as [s t]. apply elem_keep in Hin as [Hin _]. apply list_elem_of_fmap. by exists (s, t).
Qed.

Lemma slot_unique m slot t t' : NoDup (slots_of m) -> (slot, t) ∈ m -> (slot, t') ∈ m -> t = t'.
Proof.
  induction m as [|[s u] m IH]; [by intros _ ?%elem_of_nil|]. intros [Hs Hm]%NoDup_cons [[= -> ->]|H1]%elem_of_cons [H2|H2]%elem_of_cons.
  - by injection H2 as ->.
  - destruct Hs. apply list_elem_of_fmap. by exists (s, t').
  - injection H2 as -> ->. destruct Hs. apply list_elem_of_fmap. by exists (s, t).
  - by apply IH.
Qed.

Lemma push_slots slot tx m : slots_of (push_tx slot tx m) = if existsb (fun e => e.1 =? slot) m then slots_of m else slots_of m ++ [slot].
Proof.
  unfold push_tx, slots_of. destruct (existsb _ m); [|by rewrite fmap_app]. rewrite <- list_fmap_compose. apply list_fmap_ext.
  intros _ e _. cbn. by destruct (e.1 =? slot).
Qed.

Lemma push_NoDup slot tx m : NoDup (slots_of m) -> NoDup (slots_of (push_tx slot tx m)).
Proof.
  intros H. rewrite push_slots. destruct (existsb _ m) eqn:E; [done|]. apply NoDup_app. split_and!; [done| |apply NoDup_singleton].
  intros x Hx ->%list_elem_of_singleton. apply list_elem_of_fmap in Hx as (e & -> & He).
  assert (existsb (fun e0 => e0.1 =? e.1) m = true) as Hc; [|congruence].
  apply existsb_exists. exists e. split; [by apply list_elem_of_In|]. apply Z.eqb_refl.
Qed.

Lemma elem_push slot tx m s txs :
  (s, txs) ∈ push_tx slot tx m -> (s, txs) ∈ m \/ s = slot /\ exists old, txs = old ++ [tx] /\ (old = [] \/ (s, old) ∈ m).
Proof.
  unfold push_tx. destruct (existsb _ m).
  - intros ([s' t'] & Heq & Hin)%list_elem_of_fmap. cbn in Heq. destruct (Z.eqb_spec s' slot) as [->|]; injection Heq as -> ->; [|by left].
    right. split; [done|]. exists t'. auto.
  - intros [H|H%list_elem_of_singleton]%elem_of_app; [by left|]. injection H as -> ->. right. split; [done|]. exists []. auto.
Qed.

Lemma push_in_queue slot tx l : in_queue (set_pending (push_tx slot tx (l_pending l)) l) slot tx.
Proof.
  unfold in_queue, push_tx. cbn. destruct (existsb _ _) eqn:E.
  - apply existsb_exists in E as ([s t] & Hin & Hs%Z.eqb_eq). cbn in Hs. subst s. exists (t ++ [tx]). split; [|apply elem_of_app; right; by left].
    apply list_elem_of_fmap. exists (slot, t). cbn. rewrite Z.eqb_refl. split; [done|by apply list_elem_of_In].
  - exists [tx]. split; [apply elem_of_app; right|]; by left.
Qed.

Lemma push_keeps_queue slot tx l s t : in_queue l s t -> in_queue (set_pending (push_tx slot tx (l_pending l)) l) s t.
Proof.
  intros (txs & Hin & Ht). unfold in_queue, push_tx. cbn. destruct (existsb _ _) eqn:E.
  - destruct (Z.eqb_spec s slot) as [->|Hne].
    + exists (txs ++ [tx]). split; [|apply elem_of_app; by left]. apply list_elem_of_fmap. exists (slot, txs). cbn. by rewrite Z.eqb_refl.
    + exists txs. split; [|done]. apply list_elem_of_fmap. exists (s, txs). cbn. by rewrite (proj2 (Z.eqb_neq _ _) Hne).
  - exists txs. split; [|done]. apply elem_of_app. by left.
Qed.

(** ** What a drain does *)

Definition call_sig (c : Call) : string := match c with Known e _ => ev_sig e | Unknown sig _ _ => sig end.

(** A handler was called for the signature, or there was nothing to call it for. *)
Definition attended (l : Listener) (slot : Z) (tx : Tx) : Prop :=
  tx.1 ∈ call_sig <$> l_calls l \/ parseSolanaHtlcLogs tx.1 tx.2 slot = Ok None.

(** A change of the state by dispatches: calls are added. *)
Definition calls_more (l l' : Listener) : Prop := exists more, l_calls l' = l_calls l ++ more.

#[local] Instance calls_more_po : PreOrder calls_more.
Proof.
  split; [intros l; exists []; by rewrite app_nil_r|]. intros a b c [m Hm] [n Hn]. exists (m ++ n). by rewrite Hn, Hm, app_assoc.
Qed.

Lemma attended_more l l' slot tx : calls_more l l' -> attended l slot tx -> attended l' slot tx.
Proof. intros [m Hm] [H|H]; [left|by right]. rewrite Hm, fmap_app. apply elem_of_app. by left. Qed.

(** The processed signatures are the latest successes. *)
Definition successes (l : Listener) : list string := omap (fun c => match c with Known e true => Some (ev_sig e) | _ => None end) (l_calls l).

Record deduped (l : Listener) : Prop := mkDeduped {
  dd_recent : exists old, successes l = old ++ l_processed l /\ NoDup (l_processed l) /\ Z.of_nat (length (l_processed l)) <= DEDUP_CACHE_MAX /\
                (old = [] \/ Z.of_nat (length (l_processed l)) = DEDUP_CACHE_MAX);
  dd_spaced : forall i j sig, (i < j)%nat -> successes l !! i = Some sig -> successes l !! j = Some sig -> DEDUP_CACHE_MAX < Z.of_nat (j - i)
}.

Lemma event_sig sig slot t p e : build_event sig slot t p = Ok (Some e) -> ev_sig e = sig /\ ev_slot e = slot.
Proof. unfold build_event. intros H. repeat case_match; simplify_eq; done. Qed.

Lemma parse_sig sig logs slot e : parseSolanaHtlcLogs sig logs slot = Ok (Some e) -> ev_sig e = sig /\ ev_slot e = slot.
Proof. unfold parseSolanaHtlcLogs. destruct (foldl _ _ _) as [[t|] p]; [|done]. apply event_sig. Qed.

Lemma processed_attended l slot tx : deduped l -> tx.1 ∈ l_processed l -> attended l slot tx.
Proof.
  intros [(old & Hs & _) _] Hin. left. assert (tx.1 ∈ successes l) as H by (rewrite Hs; apply elem_of_app; by right).
  unfold successes in H. apply list_elem_of_omap in H as (c & Hc & He). apply list_elem_of_fmap. exists c. split; [|done].
  destruct c as [e []|]; [|done..]. by injection He as <-.
Qed.

Lemma deduped_success l e :
  deduped l -> ev_sig e ∉ l_processed l ->
  deduped (set_processed (markSigProcessed (ev_sig e) (l_processed l)) (add_call (Known e true) l)).
Proof.
  intros [(old & Hs & Hnd & Hlen & Hold) Hsp] Hnew. set (l' := set_processed _ _).
  assert (successes l' = successes l ++ [ev_sig e]) as Hs' by (unfold successes; cbn; by rewrite omap_app).
  assert (l_processed l' = (if DEDUP_CACHE_MAX <=? Z.of_nat (length (l_processed l)) then List.tl (l_processed l) else l_processed l) ++ [ev_sig e]) as Hp.
  { cbn. unfold markSigProcessed. by rewrite bool_decide_false. }
  split; unfold DEDUP_CACHE_MAX in *.
  - rewrite Hs', Hs, Hp. destruct (Z.leb_spec 10000 (Z.of_nat (length (l_processed l)))) as [Hfull|Hroom].
    + destruct (l_processed l) as [|x p] eqn:E; [cbn in Hfull; lia|]. cbn [List.tl]. exists (old ++ [x]). apply NoDup_cons in Hnd as [Hx Hnd].
      apply not_elem_of_cons in Hnew as [_ Hnew]. cbn [length] in Hfull, Hlen. split_and!; [by rewrite <- !app_assoc| |rewrite length_app; cbn [length]; lia|right; rewrite length_app; cbn [length]; lia].
      apply NoDup_app. split_and!; [done|by intros y Hy ->%list_elem_of_singleton|apply NoDup_singleton].
    + exists old. split_and!; [by rewrite app_assoc| |rewrite length_app; cbn [length]; lia|left; destruct Hold; [done|lia]].
      apply NoDup_app. split_and!; [done|by intros y Hy ->%list_elem_of_singleton|apply NoDup_singleton].
  - intros i j sig Hij. rewrite Hs', !lookup_app_Some. intros [Hi|[Hi1 Hi2]] [Hj|[Hj1 Hj2]].
    + by apply Hsp with sig.
    + apply list_lookup_singleton_Some in Hj2 as [Hj2 <-]. rewrite Hs in Hi. apply lookup_app_Some in Hi as [Hi|[_ Hi]].
      * apply lookup_lt_Some in Hi. rewrite Hs, length_app in Hj1, Hj2. destruct Hold as [->|Hf]; [cbn in Hi; lia|]. lia.
      * exfalso. apply Hnew. by apply list_elem_of_lookup_2 in Hi.
    + apply lookup_lt_Some in Hj. lia.
    + apply list_lookup_singleton_Some in Hi2 as [? _], Hj2 as [? _]. lia.
Qed.

Lemma sol_deduped_same l l' : l_calls l' = l_calls l -> l_processed l' = l_processed l -> deduped l -> deduped l'.
Proof. intros H1 H2 [A B]. unfold successes in *. by split; unfold successes; rewrite H1, ?H2. Qed.

Lemma deduped_other l c : (forall e, c <> Known e true) -> deduped l -> deduped (add_call c l).
Proof.
  intros Hc [A B]. assert (successes (add_call c l) = successes l) as H.
  { unfold successes. cbn. rewrite omap_app. cbn. destruct c as [e []|]; [by destruct (Hc e)|by rewrite app_nil_r..]. }
  by split; rewrite H.
Qed.

(** What dispatching a transaction leaves as it was, and what it guarantees. *)
Record dispatched (l l' : Listener) : Prop := mkDispatched {
  di_calls : calls_more l l';
  di_lastSlot : l_lastSlot l' = l_lastSlot l;
  di_ticks : l_ticks l' = l_ticks l;
  di_dedup : deduped l -> deduped l'
}.

#[local] Instance dispatched_po : PreOrder dispatched.
Proof. split; [by intros l; split|]. intros a b c [] []. split; [by etransitivity|congruence..|auto]. Qed.

Lemma dispatch_spec h sig logs slot l :
  let '(ok, l') := dispatch h sig logs slot l in
  dispatched l l' /\ l_pending l' = l_pending l /\ (deduped l -> ok = true -> attended l' slot (sig, logs)).
Proof.
  assert (forall c, calls_more l (add_call c l)) as Hm by (intros c; by exists [c]).
  unfold dispatch. case_bool_decide as Hin; [split_and!; [done..|]; intros Hd _; by apply processed_attended|].
  destruct (parseSolanaHtlcLogs sig logs slot) as [[e|]|] eqn:Hp; [| |done].
  - pose proof (parse_sig _ _ _ _ Hp) as [Hsig _]. destruct (h_throws h e).
    + split_and!; [split; [done..|intros; by apply deduped_other]|done|]. intros _ _. left. cbn. rewrite fmap_app. apply elem_of_app. right. cbn. rewrite Hsig. by left.
    + split_and!; [split; [exact (Hm (Known e true))|done..|]|done|].
      * intros Hd. rewrite <- Hsig. apply deduped_success; [done|by rewrite Hsig].
      * intros _ _. left. cbn. rewrite fmap_app. apply elem_of_app. right. cbn. rewrite Hsig. by left.
  - destruct (h_unknown h) as [throws|].
    + split_and!; [split; [done..|intros; by apply deduped_other]|done|]. intros _ _. by right.
    + split_and!; [done..|]. intros _ _. by right.
Qed.

Lemma dispatch_all_spec h slot txs l :
  let '(ok, l') := dispatch_all h slot txs l in
  dispatched l l' /\ l_pending l' = l_pending l /\ (deduped l -> ok = true -> forall tx, tx ∈ txs -> attended l' slot tx).
Proof.
  revert l. induction txs as [|[sig logs] txs IH]; intros l; [split_and!; [done..|by intros _ _ ? ?%elem_of_nil]|]. cbn [dispatch_all].
  pose proof (dispatch_spec h sig logs slot l) as H. destruct (dispatch h sig logs slot l) as [[] l1].
  - destruct H as (D1 & P1 & A1). specialize (IH l1). destruct (dispatch_all h slot txs l1) as [ok l2]. destruct IH as (D2 & P2 & A2).
    split_and!; [by etransitivity|congruence|]. intros Hd Hok tx [->|Htx]%elem_of_cons.
    + eapply attended_more; [apply D2|]. by apply A1.
    + apply A2; [by apply D1|done..].
  - destruct H as (D1 & P1 & _). by split_and!.
Qed.

(** A drain attends to what leaves the queue; when it ends well, everything up to
    the watermark has left. *)
Lemma drain_spec h w queue l :
  let '(ok, l') := drain h w queue l in
  dispatched l l' /\
  (forall slot txs, (slot, txs) ∈ l_pending l' -> (slot, txs) ∈ l_pending l) /\
  (NoDup (slots_of (l_pending l)) -> NoDup (slots_of (l_pending l'))) /\
  (deduped l -> NoDup (slots_of (l_pending l)) -> (forall e, e ∈ queue -> e ∈ l_pending l) -> NoDup (slots_of queue) ->
   (forall slot tx, in_queue l slot tx -> in_queue l' slot tx \/ attended l' slot tx) /\
   (ok = true -> forall slot txs, (slot, txs) ∈ l_pending l' -> slot ∈ slots_of queue -> w < slot)).
Proof.
  revert l. induction queue as [|[slot txs] queue IH]; intros l.
  { cbn. split_and!; [done..|]. intros _ _ _ _. split; [by left|by intros _ ? ? _ ?%elem_of_nil]. }
  cbn [drain]. destruct (Z.ltb_spec w slot) as [Hw|Hw].
  - specialize (IH l). destruct (drain h w queue l) as [ok l']. destruct IH as (D & Hsub & Hnd & H). split_and!; [done..|].
    intros Hd Hn Hq [Hn1 Hn2]%NoDup_cons. destruct (H Hd Hn) as [H1 H2]; [intros e He; apply Hq; by right|done|]. split; [done|].
    intros Hok s t Hin [->|Hs]%elem_of_cons; [done|]. by eapply H2.
  - pose proof (dispatch_all_spec h slot txs l) as HD. destruct (dispatch_all h slot txs l) as [[] l1].
    2: { destruct HD as (D1 & P1 & _). split_and!; [done|by rewrite P1..|]. intros _ _ _ _. split; [|done]. intros s tx Hin. left. unfold in_queue. by rewrite P1. }
    destruct HD as (D1 & P1 & A1). set (l2 := set_pending _ l1). assert (dispatched l1 l2) as D12.
    { split; [exists []; by rewrite app_nil_r|done..|]. by apply sol_deduped_same. }
    assert (forall s t, (s, t) ∈ l_pending l2 <-> (s, t) ∈ l_pending l /\ s <> slot) as Hp2.
    { intros s t. unfold l2. cbn. rewrite elem_keep, P1, negb_true_iff, Z.eqb_neq. done. }
    specialize (IH l2). destruct (drain h w queue l2) as [ok l']. destruct IH as (D2 & Hsub & Hnd & H).
    assert (dispatched l l') as Dall by (etransitivity; [exact D1|]; by etransitivity). split_and!; [done|intros s t Hin; by apply Hsub, Hp2 in Hin as [? _]| |].
    { intros Hn. apply Hnd. unfold l2. cbn. rewrite P1. by apply keep_NoDup. }
    intros Hd Hn Hq [Hn1 Hn2]%NoDup_cons. cbn in Hn1. destruct H as [H1 H2]; [by apply D12, D1|unfold l2; cbn; rewrite P1; by apply keep_NoDup| |done|].
    { intros [s t] He. apply Hp2. split; [apply Hq; by right|]. intros ->. apply Hn1. apply list_elem_of_fmap. by exists (slot, t). }
    split.
    + intros s tx (t & Hin & Htx). destruct (Z.eqb_spec s slot) as [->|Hne].
      * right. assert (t = txs) as -> by (apply (slot_unique (l_pending l) slot); [done..|apply Hq; by left]).
        eapply attended_more; [apply D2|]. eapply attended_more; [apply D12|]. by apply A1.
      * apply H1. exists t. split; [|done]. by apply Hp2.
    + intros Hok s t Hin [->|Hs]%elem_of_cons; [|by eapply H2]. exfalso. apply Hsub, Hp2 in Hin as [_ ?]. done.
Qed.

(** ** Steps *)

(** The stages that have nothing to vouch for. *)
Definition idle_stage (s : Stage) : Prop := match s with AskSigs _ _ | AskTx _ _ _ _ _ => False | _ => True end.

(** The work is as it was; ticks went to a harmless stage at most. *)
Record at_rest (l l' : Listener) : Prop := mkAtRest {
  ar_pending : l_pending l' = l_pending l;
  ar_calls : l_calls l' = l_calls l;
  ar_processed : l_processed l' = l_processed l;
  ar_ticks : forall i s, l_ticks l' !! i = Some s -> l_ticks l !! i = Some s \/ idle_stage s
}.

#[local] Instance at_rest_po : PreOrder at_rest.
Proof.
  split; [intros l; split; auto|]. intros a b c [A1 A2 A3 A4] [B1 B2 B3 B4]. split; [congruence..|].
  intros i s [H|H]%B4; [by apply A4|by right].
Qed.

Lemma set_tick_rest i s l : idle_stage s -> at_rest l (set_tick i s l).
Proof.
  intros Hs. split; [done..|]. intros j s' H. cbn in H. apply list_lookup_insert_Some in H as [(_ & -> & _)|[_ H]]; [by right|by left].
Qed.

Lemma tick_end_rest i l : at_rest l (tick_end i l).
Proof. unfold tick_end. destruct (l_stopped l); [by apply set_tick_rest|]. destruct (set_tick_rest i Timer l) as [A B C D]; [done|]. by split. Qed.

Lemma tick_failed_rest i l : at_rest l (tick_failed i l).
Proof. destruct (tick_end_rest i (set_monitor (recordFailure CHAIN) l)) as [A B C D]. by split. Qed.

Lemma stop_rest l : at_rest l (stop l).
Proof.
  unfold stop. destruct (l_timeoutId (set_stopped true l)) as [i|]; [|by split; auto]. cbn.
  destruct (l_ticks l !! i) as [[]|]; try (split; auto; fail). split; [done..|]. cbn.
  intros j s H. apply list_lookup_insert_Some in H as [(_ & <- & _)|[_ H]]; [by right|by left].
Qed.

Section Steps.
Context {W : Web3}.

Lemma begin_tick_rest i l : at_rest l (begin_tick i l).
Proof.
  unfold begin_tick. destruct (l_stopped l); [by apply set_tick_rest|]. destruct (newPublicKey _); [by apply set_tick_rest|apply tick_failed_rest].
Qed.

Lemma start_rest l : at_rest l (start l).
Proof.
  unfold start. destruct (resolveSolanaListenerConfig _ _) as [[]|]; try done. etransitivity; [|apply begin_tick_rest].
  destruct (stop_rest l) as [A B C D]. split; [done..|]. cbn. intros i s [H|[_ H]]%lookup_app_Some; [by apply D|].
  apply list_lookup_singleton_Some in H as [_ <-]. by right.
Qed.

Lemma scan_cases h now i f c sigs rest l :
  scan h now i f c sigs rest l = finish_poll h now i f c sigs l \/
  exists s rest', (forall x, x ∈ s :: rest' -> x ∈ rest) /\ si_err s = false /\ scan h now i f c sigs rest l = set_tick i (AskTx f c sigs s rest') l.
Proof.
  induction rest as [|s rest IH]; [by left|]. cbn [scan]. destruct (_ || si_err s) eqn:E.
  - destruct IH as [->|(x & rest' & H1 & H2 & ->)]; [by left|]. right. exists x, rest'. split_and!; [|done..]. intros y Hy. right. by apply H1.
  - apply orb_false_iff in E as [_ E]. right. by exists s, rest.
Qed.

(** What a whole poll leaves behind. *)
Record polled (l l' : Listener) : Prop := mkPolled {
  po_dedup : deduped l';
  po_slots : NoDup (slots_of (l_pending l'));
  po_calls : calls_more l l';
  po_queue : forall slot tx, in_queue l slot tx -> in_queue l' slot tx \/ attended l' slot tx;
  po_old : forall slot txs, (slot, txs) ∈ l_pending l' -> (slot, txs) ∈ l_pending l;
  po_ticks : forall i s, l_ticks l' !! i = Some s -> l_ticks l !! i = Some s \/ idle_stage s
}.

Lemma rest_polled l l' : deduped l -> NoDup (slots_of (l_pending l)) -> at_rest l l' -> polled l l'.
Proof.
  intros Hd Hn [A B C D]. split; [by eapply sol_deduped_same|by rewrite A|exists []; by rewrite B, app_nil_r| |by rewrite A|done].
  intros slot tx H. left. unfold in_queue. by rewrite A.
Qed.

Lemma polled_rest l l' l'' : polled l l' -> at_rest l' l'' -> polled l l''.
Proof.
  intros [A1 A2 A3 A4 A5 A6] H. destruct (rest_polled l' l'' A1 A2 H) as [B1 B2 B3 B4 B5 B6]. split; [done..| | | |].
  - by etransitivity.
  - intros slot tx [Hq|Hq]%A4; [by apply B4|]. right. by eapply attended_more.
  - auto.
  - intros i s [Hs|Hs]%B6; auto.
Qed.

Lemma advance_work sigs c l : at_rest l (advance_lastSlot sigs c l).
Proof. unfold advance_lastSlot. destruct sigs; [destruct (_ =? _)|]; split; auto. Qed.

(** The watermark of a poll is below the age at which slots are pruned. *)
Lemma drain_polled h w l :
  deduped l -> NoDup (slots_of (l_pending l)) ->
  let '(ok, l') := drain h w (l_pending l) l in
  polled l l' /\ (ok = true -> forall slot txs, (slot, txs) ∈ l_pending l' -> w < slot).
Proof.
  intros Hd Hn. pose proof (drain_spec h w (l_pending l) l) as H. destruct (drain h w (l_pending l) l) as [ok l'].
  destruct H as ([D1 D2 D3 D4] & Hs & Hnd & H). destruct (H Hd Hn) as [H1 H2]; [done..|]. split.
  - split; [by apply D4|by apply Hnd|done|done|done|]. intros i s. rewrite D3. by left.
  - intros Hok slot txs Hin. eapply H2; [done..|]. apply list_elem_of_fmap. exists (slot, txs). split; [done|by apply Hs].
Qed.

Lemma prune_all f m :
  (forall slot txs, (slot, txs) ∈ m -> f - FINALIZATION_SLOTS < slot) -> keep_slots (fun s => negb (s <? f - PENDING_SLOTS_MAX_AGE)) m = m.
Proof.
  intros Hw. apply keep_all. intros [s t] Hin%Hw. unfold FINALIZATION_SLOTS, PENDING_SLOTS_MAX_AGE in *. cbn.
  rewrite negb_true_iff. apply Z.ltb_ge. lia.
Qed.

Lemma finish_polled h now i f c sigs l :
  deduped l -> NoDup (slots_of (l_pending l)) -> polled l (finish_poll h now i f c sigs l).
Proof.
  intros Hd Hn. unfold finish_poll. pose proof (advance_work sigs c l) as Ha. set (l1 := advance_lastSlot sigs c l) in *.
  pose proof (rest_polled l l1 Hd Hn Ha) as P1. pose proof (drain_polled h (f - FINALIZATION_SLOTS) l1 (po_dedup _ _ P1) (po_slots _ _ P1)) as P2.
  destruct (drain _ _ _ l1) as [ok l2]. destruct P2 as [P2 Hw].
  assert (polled l l2) as P by (destruct Ha as [A B C D], P2 as [Q1 Q2 Q3 Q4 Q5 Q6]; split; [done..|
    by unfold calls_more in *; rewrite B in Q3|by unfold in_queue in *; rewrite A in Q4|by rewrite A in Q5|intros j s [Hs|Hs]%Q6; auto]).
  destruct ok; [|by eapply polled_rest; [|apply tick_failed_rest]].
  eapply polled_rest; [|apply tick_end_rest]. cbn. rewrite prune_all by (by apply Hw). eapply polled_rest; [exact P|]. by split; auto.
Qed.

(** The pruning of old slots never finds any. *)
Lemma prune_finds_nothing h f l l' :
  deduped l -> NoDup (slots_of (l_pending l)) -> drain h (f - FINALIZATION_SLOTS) (l_pending l) l = (true, l') ->
  keep_slots (fun s => negb (s <? f - PENDING_SLOTS_MAX_AGE)) (l_pending l') = l_pending l'.
Proof.
  intros Hd Hn E. pose proof (drain_polled h (f - FINALIZATION_SLOTS) l Hd Hn) as H. rewrite E in H. destruct H as [_ Hw].
  by apply prune_all, Hw.
Qed.

(** A reading of the slots, which may find a regression. *)
Lemma regression_work c l :
  deduped l -> NoDup (slots_of (l_pending l)) ->
  let l' := handleRegression c l in
  deduped l' /\ NoDup (slots_of (l_pending l')) /\ l_calls l' = l_calls l /\ l_ticks l' = l_ticks l /\
  (forall slot txs, (slot, txs) ∈ l_pending l' -> (slot, txs) ∈ l_pending l) /\
  (forall slot tx, in_queue l slot tx -> in_queue l' slot tx \/ c < slot <= l_lastSlot l).
Proof.
  intros Hd Hn l'. assert (l_pending l' = keep_slots (fun s => negb ((c + 1 <=? s) && (s <=? l_lastSlot l))) (l_pending l) /\
    l_calls l' = l_calls l /\ l_processed l' = l_processed l /\ l_ticks l' = l_ticks l) as (Hp & H1 & H2 & H3).
  { unfold l', handleRegression. by destruct (0 <? _)%nat. }
  split_and!; [by apply (sol_deduped_same l)|rewrite Hp; by apply keep_NoDup|done..| |].
  - intros slot txs. rewrite Hp, elem_keep. tauto.
  - intros slot tx (txs & Hin & Htx). destruct (decide (c < slot <= l_lastSlot l)) as [|Hout]; [by right|]. left. exists txs. split; [|done].
    rewrite Hp, elem_keep. split; [done|]. apply negb_true_iff, andb_false_iff. rewrite !Z.leb_gt. lia.
Qed.

(** The reading of slots finds the chain behind [slot]. *)
Definition regresses (slot : Z) (l : Listener) (e : Event) : Prop :=
  exists i f c, e = ESlots i (Some (f, c)) /\ c < l_lastSlot l - REGRESSION_THRESHOLD /\ c < slot <= l_lastSlot l.

(** What a step keeps. *)
Record stepped (l l' : Listener) (e : Event) : Prop := mkStepped {
  st_dedup : deduped l';
  st_slots : NoDup (slots_of (l_pending l'));
  st_calls : calls_more l l';
  st_queue : forall slot tx, in_queue l slot tx -> in_queue l' slot tx \/ attended l' slot tx \/ regresses slot l e
}.

Lemma polled_stepped l l' e : polled l l' -> stepped l l' e.
Proof. intros [A B C D _ _]. split; [done..|]. intros slot tx [H|H]%D; auto. Qed.

Lemma scan_stepped h now i f c sigs rest l e :
  deduped l -> NoDup (slots_of (l_pending l)) -> stepped l (scan h now i f c sigs rest l) e.
Proof.
  intros Hd Hn. destruct (scan_cases h now i f c sigs rest l) as [->|(s & rest' & _ & _ & ->)].
  - by apply polled_stepped, finish_polled.
  - split; [by apply (sol_deduped_same l)|done|exists []; by rewrite app_nil_r|]. by left.
Qed.

Lemma step_stepped l e : deduped l -> NoDup (slots_of (l_pending l)) -> stepped l (step l e) e.
Proof.
  intros Hd Hn. assert (forall l', at_rest l l' -> stepped l l' e) as Hr by (intros l' H; by apply polled_stepped, rest_polled).
  destruct e as [| |i|i r|i h now r|i h now sig r]; cbn [step].
  - apply Hr, start_rest.
  - apply Hr, stop_rest.
  - destruct (l_ticks l !! i) as [[]|]; apply Hr; try done. apply begin_tick_rest.
  - destruct (l_ticks l !! i) as [[]|], r as [[f c]|]; try (by apply Hr); [|apply Hr, tick_failed_rest].
    destruct (_ && _) eqn:E; [|split; [by apply (sol_deduped_same l)|done|exists []; by rewrite app_nil_r|by left]].
    apply andb_true_iff in E as [_ E%Z.ltb_lt]. destruct (regression_work c l Hd Hn) as (A & B & C & _ & _ & D).
    split; [by apply (sol_deduped_same (handleRegression c l))|done|exists []; cbn; by rewrite app_nil_r|]. intros slot tx [H|H]%D; [by left|]. right. right. by exists i, f, c.
  - destruct (l_ticks l !! i) as [[]|], r as [answer|]; try (by apply Hr); [|apply Hr, tick_failed_rest]. by apply scan_stepped.
  - destruct (l_ticks l !! i) as [[]|]; try (by apply Hr). destruct (String.eqb _ _); [|by apply Hr].
    destruct r as [[logs|]|]; [|by apply scan_stepped..]. set (l1 := set_pending _ l).
    assert (deduped l1) as Hd1 by (by apply (sol_deduped_same l)). assert (NoDup (slots_of (l_pending l1))) as Hn1 by (by apply push_NoDup).
    destruct (scan_stepped h now i finalizedSlot confirmedSlot sigs rest l1 (ETx i h now sig (Some (Some logs))) Hd1 Hn1) as [A B C D].
    split; [done..|]. intros slot tx Hq. destruct (D slot tx (push_keeps_queue _ _ l _ _ Hq)) as [H|[H|H]]; auto.
Qed.

(** ** Where the calls come from *)

Definition told (es : list Event) (f c : Z) : Prop := exists i, ESlots i (Some (f, c)) ∈ es.
Definition listed (es : list Event) (s : SigInfo) : Prop := exists i h now sigs, ESigs i h now (Some sigs) ∈ es /\ s ∈ sigs.
Definition fetched (es : list Event) (tx : Tx) : Prop := exists i h now, ETx i h now tx.1 (Some (Some tx.2)) ∈ es.

(** A transaction the node listed without an error at a slot, with its logs. *)
Definition sourced (es : list Event) (slot : Z) (tx : Tx) : Prop := listed es (mkSig tx.1 slot false) /\ fetched es tx.

(** A slot the node reported to lie deep enough below the finalized one. *)
Definition final (es : list Event) (slot : Z) : Prop := exists f c, told es f c /\ slot + FINALIZATION_SLOTS <= f.

Definition call_ok (es : list Event) (c : Call) : Prop :=
  match c with
  | Known e _ => exists logs, sourced es (ev_slot e) (ev_sig e, logs) /\ final es (ev_slot e) /\ parseSolanaHtlcLogs (ev_sig e) logs (ev_slot e) = Ok (Some e)
  | Unknown sig slot _ => exists logs, sourced es slot (sig, logs) /\ final es slot /\ parseSolanaHtlcLogs sig logs slot = Ok None
  end.

Definition stage_ok (es : list Event) (s : Stage) : Prop :=
  match s with
  | AskSigs f c => told es f c
  | AskTx f c _ first rest => told es f c /\ (forall x, x ∈ first :: rest -> listed es x) /\ si_err first = false
  | _ => True
  end.

Record traced (es : list Event) (l : Listener) : Prop := mkTraced {
  tr_ticks : forall i s, l_ticks l !! i = Some s -> stage_ok es s;
  tr_queue : forall slot tx, in_queue l slot tx -> sourced es slot tx;
  tr_calls : forall c, c ∈ l_calls l -> call_ok es c
}.

Section Mono.
Context (es es' : list Event) (Hes : forall e, e ∈ es -> e ∈ es').

Lemma told_more f c : told es f c -> told es' f c.
Proof. intros [i H]. exists i. auto. Qed.
Lemma listed_more s : listed es s -> listed es' s.
Proof. intros (i & h & now & sigs & H & Hs). exists i, h, now, sigs. auto. Qed.
Lemma sourced_more slot tx : sourced es slot tx -> sourced es' slot tx.
Proof. intros [H1 (i & h & now & H2)]. split; [by apply listed_more|]. exists i, h, now. auto. Qed.
Lemma final_more slot : final es slot -> final es' slot.
Proof. intros (f & c & H & Hs). exists f, c. split; [by apply told_more|done]. Qed.

Lemma traced_mono l : traced es l -> traced es' l.
Proof.
  intros [A B C]. split.
  - intros i s H%A. destruct s; cbn in *; auto using told_more. destruct H as (H1 & H2 & H3). split_and!; auto using told_more, listed_more.
  - auto using sourced_more.
  - intros [e ok|sig slot ok] H%C; destruct H as (logs & H1 & H2 & H3); exists logs; auto using sourced_more, final_more.
Qed.
End Mono.

Section Traced.
Context (es : list Event).

Lemma traced_rest l l' : at_rest l l' -> traced es l -> traced es l'.
Proof.
  intros [A B C D] [T1 T2 T3]. split.
  - intros i s [H|H]%D; [by apply (T1 i)|by destruct s].
  - unfold in_queue. rewrite A. apply T2.
  - by rewrite B.
Qed.

Lemma traced_set_tick i s l : stage_ok es s -> traced es l -> traced es (set_tick i s l).
Proof.
  intros Hs [T1 T2 T3]. split; [|done..]. intros j s' H. cbn in H. apply list_lookup_insert_Some in H as [(_ & -> & _)|[_ H]]; [done|by apply (T1 j)].
Qed.

(** A new call is for a transaction of the queue, below the watermark. *)
Lemma dispatch_calls h slot txs l :
  (forall tx, tx ∈ txs -> sourced es slot tx) -> final es slot -> (forall c, c ∈ l_calls l -> call_ok es c) ->
  forall c, c ∈ l_calls (dispatch_all h slot txs l).2 -> call_ok es c.
Proof.
  intros Hs Hf. revert l. induction txs as [|[sig logs] txs IH]; intros l Hc; [done|]. cbn [dispatch_all].
  assert (forall c, c ∈ l_calls (dispatch h sig logs slot l).2 -> call_ok es c) as H1.
  { unfold dispatch. destruct (bool_decide _); [done|]. specialize (Hs (sig, logs) ltac:(by left)).
    destruct (parseSolanaHtlcLogs sig logs slot) as [[e|]|] eqn:Hp; [| |done].
    - pose proof (parse_sig _ _ _ _ Hp) as [<- <-].
      destruct (h_throws h e); intros c [H| ->%list_elem_of_singleton]%elem_of_app; try (by apply Hc); by exists logs.
    - destruct (h_unknown h); [|done]. intros c [H| ->%list_elem_of_singleton]%elem_of_app; [by apply Hc|by exists logs]. }
  destruct (dispatch h sig logs slot l) as [[] l1]; [|done]. apply IH; [|done]. intros tx Htx. apply Hs. by right.
Qed.

Lemma drain_calls h w queue l :
  (forall slot txs tx, (slot, txs) ∈ queue -> tx ∈ txs -> sourced es slot tx) -> (forall slot, slot <= w -> final es slot) ->
  (forall c, c ∈ l_calls l -> call_ok es c) -> forall c, c ∈ l_calls (drain h w queue l).2 -> call_ok es c.
Proof.
  intros Hs Hf. revert l. induction queue as [|[slot txs] queue IH]; intros l Hc; [done|]. cbn [drain].
  assert (forall s t tx, (s, t) ∈ queue -> tx ∈ t -> sourced es s tx) as Hs' by (intros s t tx H; apply Hs; by right).
  destruct (Z.ltb_spec w slot); [by apply IH|].
  assert (forall c, c ∈ l_calls (dispatch_all h slot txs l).2 -> call_ok es c) as H1.
  { apply dispatch_calls; [|by apply Hf|done]. intros tx. apply Hs. by left. }
  destruct (dispatch_all h slot txs l) as [[] l1]; [|done]. by apply IH.
Qed.

Lemma traced_finish h now i f c sigs l :
  deduped l -> NoDup (slots_of (l_pending l)) -> told es f c -> traced es l -> traced es (finish_poll h now i f c sigs l).
Proof.
  intros Hd Hn Ht HT. pose proof (finish_polled h now i f c sigs l Hd Hn) as [_ _ _ _ P5 P6]. destruct HT as [T1 T2 T3]. split.
  - intros j s [H|H]%P6; [by apply (T1 j)|by destruct s].
  - intros slot tx (txs & Hin & Htx). apply T2. exists txs. split; [by apply P5|done].
  - unfold finish_poll. destruct (advance_work sigs c l) as [A B _ _]. set (l1 := advance_lastSlot sigs c l) in *.
    assert (forall c0, c0 ∈ l_calls (drain h (f - FINALIZATION_SLOTS) (l_pending l1) l1).2 -> call_ok es c0) as H.
    { apply drain_calls; [|intros slot Hs; exists f, c; split; [done|lia]|by rewrite B]. intros slot txs tx Hin Htx. rewrite A in Hin. apply T2. by exists txs. }
    destruct (drain _ _ _ l1) as [[] l2]; cbn [snd] in H.
    + rewrite (ar_calls _ _ (tick_end_rest i _)). exact H.
    + rewrite (ar_calls _ _ (tick_failed_rest i l2)). exact H.
Qed.

Lemma traced_scan h now i f c sigs rest l :
  deduped l -> NoDup (slots_of (l_pending l)) -> told es f c -> (forall x, x ∈ rest -> listed es x) -> traced es l ->
  traced es (scan h now i f c sigs rest l).
Proof.
  intros Hd Hn Ht Hl HT. destruct (scan_cases h now i f c sigs rest l) as [->|(s & rest' & H1 & H2 & ->)]; [by apply traced_finish|].
  apply traced_set_tick; [|done]. split_and!; auto.
Qed.
End Traced.

Lemma step_traced es l e :
  deduped l -> NoDup (slots_of (l_pending l)) -> traced es l -> traced (es ++ [e]) (step l e).
Proof.
  intros Hd Hn HT0. assert (traced (es ++ [e]) l) as HT by (eapply traced_mono; [|done]; intros x Hx; apply elem_of_app; by left).
  assert (e ∈ es ++ [e]) as He by (apply elem_of_app; right; by left).
  assert (forall l', at_rest l l' -> traced (es ++ [e]) l') as Hr by (intros l' H; by eapply traced_rest).
  destruct e as [| |i|i r|i h now r|i h now sig r]; cbn [step].
  - apply Hr, start_rest.
  - apply Hr, stop_rest.
  - destruct (l_ticks l !! i) as [[]|]; try done. apply Hr, begin_tick_rest.
  - destruct (l_ticks l !! i) as [[]|], r as [[f c]|]; try done; [|apply Hr, tick_failed_rest]. apply traced_set_tick; [by exists i|].
    destruct (_ && _); [|done]. destruct (regression_work c l Hd Hn) as (_ & _ & A & B & C & _). destruct HT as [T1 T2 T3]. split.
    + intros j s. rewrite B. apply T1.
    + intros slot tx (txs & Hin & Htx). apply T2. exists txs. split; [by apply C|done].
    + by rewrite A.
  - destruct (l_ticks l !! i) as [[| |f c| |]|] eqn:E, r as [answer|]; try done; [|apply Hr, tick_failed_rest].
    apply traced_scan; [done|done|apply (tr_ticks _ _ HT i _ E)| |done]. intros x Hx. by exists i, h, now, answer.
  - destruct (l_ticks l !! i) as [[| | |f c sigs first rest|]|] eqn:E; try done. destruct (String.eqb_spec sig (si_signature first)) as [Hsig|]; [|done].
    destruct (tr_ticks _ _ HT i _ E) as (Ht & Hl & Herr). assert (forall x, x ∈ rest -> listed (es ++ [ETx i h now sig r]) x) as Hl' by (intros x Hx; apply Hl; by right).
    destruct r as [[logs|]|]; [|by apply traced_scan..]. apply traced_scan; [by apply (sol_deduped_same l)|by apply push_NoDup|done|done|].
    destruct HT as [T1 T2 T3]. split; [done| |done]. intros slot tx (txs & Hin & Htx). cbn in Hin. apply elem_push in Hin as [Hin|[-> (old & -> & Ho)]].
    + apply T2. by exists txs.
    + apply elem_of_app in Htx as [Htx| ->%list_elem_of_singleton].
      * destruct Ho as [->|Ho]; [by apply elem_of_nil in Htx|]. apply T2. by exists old.
      * split; [|by exists i, h, now]. specialize (Hl first ltac:(by left)). cbn [fst]. assert (mkSig sig (si_slot first) false = first) as ->; [|done].
        destruct first. cbn in *. by subst.
Qed.

Lemma new_deduped p : deduped (new_listener p).
Proof. split; [exists []; split_and!; [done|constructor|done|by left]|by intros i j sig _ ?]. Qed.

Lemma run_good p es : let l := run p es in deduped l /\ NoDup (slots_of (l_pending l)) /\ traced es l.
Proof.
  unfold run. induction es as [|e es IH] using rev_ind.
  - split_and!; [apply new_deduped|constructor|]. split; [by intros i s ?|intros slot tx (t & Ht & _); by apply elem_of_nil in Ht|by intros c ?%elem_of_nil].
  - rewrite foldl_app. cbn [foldl]. destruct IH as (A & B & C). destruct (step_stepped _ e A B). split_and!; [done..|by apply step_traced].
Qed.

Lemma sol_run_app p es es' : run p (es ++ es') = foldl step (run p es) es'.
Proof. unfold run. by rewrite foldl_app. Qed.

(** Somewhere along the way the chain fell back behind the slot. *)
Fixpoint fell_back (slot : Z) (l : Listener) (es : list Event) : Prop :=
  match es with [] => False | e :: es' => regresses slot l e \/ fell_back slot (step l e) es' end.

Lemma steps_keep l es slot tx :
  deduped l -> NoDup (slots_of (l_pending l)) -> in_queue l slot tx \/ attended l slot tx ->
  in_queue (foldl step l es) slot tx \/ attended (foldl step l es) slot tx \/ fell_back slot l es.
Proof.
  revert l. induction es as [|e es IH]; intros l Hd Hn H; [tauto|]. cbn [foldl fell_back].
  destruct (step_stepped l e Hd Hn) as [A B C D].
  assert (in_queue (step l e) slot tx \/ attended (step l e) slot tx \/ regresses slot l e) as [H'|[H'|H']]; [| | |tauto].
  { destruct H as [H|H]; [by apply D|]. right. left. by eapply attended_more. }
  - destruct (IH _ A B (or_introl H')) as [?|[?|?]]; tauto.
  - destruct (IH _ A B (or_intror H')) as [?|[?|?]]; tauto.
Qed.

(** C37.  The resolver's Solana listener hands over what is final, once, and loses
    nothing it has queued.  Whatever the node answers, with overlapping loops and
    handlers that throw: each call of a handler is for a transaction that the node
    listed without an error and whose logs it gave, parsed from these logs, in a
    slot at least 32 below a finalized slot it reported; between two calls of
    handlers that returned for the same signature there are 10000 such calls for
    others at least; and a transaction that is queued stays queued until a handler
    is called for its signature or it is found to hold no event, unless the chain
    falls back, by more than five slots, to before its slot. *)
Theorem solana_events_final_and_once (programId : option string) (es es' : list Event) :
  let l := run programId es in
  let l' := run programId (es ++ es') in
  (forall c, c ∈ l_calls l -> call_ok es c) /\
  (forall i j sig, (i < j)%nat -> successes l !! i = Some sig -> successes l !! j = Some sig -> DEDUP_CACHE_MAX < Z.of_nat (j - i)) /\
  (forall slot tx, in_queue l slot tx -> in_queue l' slot tx \/ attended l' slot tx \/ fell_back slot l es').
Proof.
  intros l l'. destruct (run_good programId es) as (A & B & [_ _ C]). split_and!; [exact C|apply A|].
  intros slot tx H. unfold l'. rewrite sol_run_app. apply steps_keep; auto.
Qed.
End Steps.

(** ** Runs *)

(** A library that takes texts without blanks. *)
Definition demo_web3 : Web3 := {|
  toBase58 := fun _ => "";
  newPublicKey := fun s => if includes s " " then None else Some [];
  findProgramAddressSync := fun _ _ => Ok ([], 0);
  SystemProgram_programId := [];
  SYSVAR_CLOCK_PUBKEY := []
|}.

(** Texts with apostrophes for quotation marks. *)
Fixpoint quoted (s : string) : string :=
  match s with EmptyString => EmptyString | String c s' => String (if Ascii.eqb c "'"%char then quote else c) (quoted s') end.

Definition created_log : string := quoted "Program log: OrderCreated {'hashlock':'h','orderId':'o1','timelock':9}".
Definition demo_event (sig : string) (slot : Z) : SolanaHtlcEvent :=
  OrderCreated sig (JString "o1") (JString "h") (JNumber (to_double 9 0)) slot None None None None None None.

Definition willing : Handlers := mkHandlers (fun _ => false) None.
Definition failing : Handlers := mkHandlers (fun _ => true) None.

(** One poll that lists transactions and is given their logs. *)
Definition poll_events (h : Handlers) (finalized : Z) (sigs : list SigInfo) (answers : list (string * option (option (list string)))) : list Event :=
  ESlots 0 (Some (finalized, finalized)) :: ESigs 0 h 0 (Some sigs) :: ((fun a => ETx 0 h 0 a.1 a.2) <$> answers).
Definition demo_run (p : string) (es : list Event) : Listener := @run demo_web3 (Some p) (EStart :: es).

(** An event waits for its slot to be final. *)
Example solana_runs :
  let sigs := [mkSig "s1" 80 false; mkSig "s2" 60 true] in
  let first := poll_events willing 100 sigs [("s1", Some (Some [created_log]))] in
  let l := demo_run "P" first in
  l_calls l = [] /\ l_pending l = [(80, [("s1", [created_log])])] /\
  l_calls (demo_run "P" (first ++ ETimer 0 :: poll_events willing 112 sigs [])) = [Known (demo_event "s1" 80) true].
Proof. vm_compute. done. Qed.

(** An event whose handler threw is not offered again. *)
Example failed_handler_not_retried :
  let sigs := [mkSig "s1" 50 false] in
  let es := poll_events failing 100 sigs [("s1", Some (Some [created_log]))] in
  let l := demo_run "P" (es ++ ETimer 0 :: poll_events willing 200 sigs []) in
  l_calls l = [Known (demo_event "s1" 50) false] /\ l_pending l = [] /\ l_ticks l = [Timer].
Proof. vm_compute. done. Qed.

(** A transaction that could not be fetched is not asked for again. *)
Example unfetched_transaction_lost :
  let sigs := [mkSig "s1" 50 false] in
  let l := demo_run "P" (poll_events willing 100 sigs [("s1", None)] ++ ETimer 0 :: poll_events willing 200 sigs []) in
  l_calls l = [] /\ l_pending l = [] /\ l_ticks l = [Timer].
Proof. vm_compute. done. Qed.

(** The lines of any program in a transaction that names the address count. *)
Example foreign_log_accepted :
  let logs := ["Program Other invoke [1]"; created_log; "Program Other success"] in
  l_calls (demo_run "P" (poll_events willing 100 [mkSig "s1" 50 false] [("s1", Some (Some logs))])) = [Known (demo_event "s1" 50) true].
Proof. vm_compute. done. Qed.

(** An amount that cannot be printed fails every poll: nothing behind it arrives. *)
Example unprintable_amount_blocks :
  let bad := quoted "OrderRefunded {'orderId':'o2','amount':{'toString':1}}" in
  let sigs := [mkSig "s0" 49 false; mkSig "s1" 50 false] in
  let es := poll_events willing 100 sigs [("s0", Some (Some [bad])); ("s1", Some (Some [created_log]))] in
  let l := demo_run "P" (es ++ ETimer 0 :: poll_events willing 900 [] []) in
  l_calls l = [] /\ slots_of (l_pending l) = [49; 50] /\ l_ticks l = [Timer].
Proof. vm_compute. done. Qed.

(** A poll under way goes on after [stop]. *)
Example stopped_listener_dispatches :
  let l := demo_run "P" [ESlots 0 (Some (100, 100)); ESigs 0 willing 0 (Some [mkSig "s1" 50 false]); EStop; ETx 0 willing 0 "s1" (Some (Some [created_log]))] in
  l_stopped l = true /\ l_calls l = [Known (demo_event "s1" 50) true] /\ l_ticks l = [Gone].
Proof. vm_compute. done. Qed.

(** The program id is trimmed when it is checked and not when it is used: the
    listener starts, and no tick asks the node for anything. *)
Example padded_program_id :
  let l := demo_run " P" [ETimer 0; ETimer 0] in
  @resolveSolanaListenerConfig demo_web3 (Some " P") false = Some mode_live /\ l_ticks l = [Timer] /\ l_stopped l = false.
Proof. vm_compute. done. Qed.

(** The members of an event may come from a prototype. *)
Example prototype_payload :
  let log := quoted "OrderCreated {'__proto__':{'hashlock':'h','orderId':'o1','timelock':9}}" in
  parseSolanaHtlcLogs "s1" [log] 50 = Ok (Some (demo_event "s1" 50)).
Proof. vm_compute. done. Qed.
