(* ===== verification/RateLimit.v ===== *)
(** * Rate limits, abuse detection and operator keys

    coordinator/src/server/middleware/ratelimit.ts, abuse-detection.ts and auth.ts.
    A limiter is the state of one middleware: the buckets of its store.  The clock
    is an input that does not go back; the middleware reads it twice. *)

From Stdlib Require Import Ascii.
From S2P Require Import Prelude Text JsMap.

(** ** Requests *)

Inductive Header : Type := Single (s : string) | Several (l : list string).

Record Request : Type := mkRequest { rq_remoteAddress : option string; rq_forwardedFor : option Header; rq_authorization : option string }.

(** [s.split(",")]. *)
Fixpoint split_comma (s : string) : list string :=
  match s with
  | EmptyString => [EmptyString]
  | String c s' =>
      if Ascii.eqb c ","%char then EmptyString :: split_comma s'
      else match split_comma s' with w :: ws => String c w :: ws | [] => [String c EmptyString] end
  end.

(** A comma-separated variable of the environment as a set. *)
Definition load_set (raw : option string) : list string := List.filter truthy_string (trim <$> split_comma (default "" raw)).
Definition loadApiKeys (env : option string) : list string := load_set env.
Definition loadTrustedProxies (env : option string) : list string := load_set env.
Definition loadOperatorKeys (env : option string) : list string := load_set env.

Definition resolveClientIp (trustedProxies : list string) (r : Request) : string :=
  let directPeer := default "unknown" (rq_remoteAddress r) in
  match trustedProxies with
  | [] => directPeer
  | _ =>
      if bool_decide (directPeer ∈ trustedProxies) then
        let raw := match rq_forwardedFor r with Some (Single s) => s | Some (Several (s :: _)) => s | _ => "" end in
        let first := trim (default "" (head (split_comma raw))) in
        if truthy_string first then first else directPeer
      else directPeer
  end.

Definition extractBearerToken (r : Request) : option string :=
  match rq_authorization r with
  | Some auth =>
      if startsWith auth "Bearer " then
        let token := trim (String.substring 7 (String.length auth) auth) in
        if truthy_string token then Some token else None
      else None
  | None => None
  end.

(** [requireRole]: the status it answers with, or [None] when the request goes on. *)
Definition requireRole (operatorKeys : list string) (r : Request) : option Z :=
  match extractBearerToken r with
  | None => Some 401
  | Some token => if bool_decide (token ∈ operatorKeys) then None else Some 403
  end.

(** ** The store *)

Record Bucket : Type := mkBucket { b_count : Z; b_resetAt : Z }.

Definition Store : Type := list (string * Bucket).

Definition increment (now windowMs : Z) (key : string) (s : Store) : Bucket * Store :=
  let b := match jm_get key s with
           | Some b => if b_resetAt b <? now then mkBucket 1 (now + windowMs) else mkBucket (b_count b + 1) (b_resetAt b)
           | None => mkBucket 1 (now + windowMs)
           end in
  (b, jm_set key b s).

Definition purgeExpired (now : Z) (s : Store) : Store := List.filter (fun e => negb (b_resetAt e.2 <? now)) s.

(** ** The abuse detector *)

Record IpRecord : Type := mkIp { ip_routes : list (string * Z); ip_totalBlocks : Z; ip_flagged : bool }.
Record AbuseDetector : Type := mkDetector { ad_ips : list (string * IpRecord); ad_flaggedCount : Z; ad_activeBlocks : list (string * Z); ad_multiRoute : Z }.
Definition new_detector : AbuseDetector := mkDetector [] 0 [] 0.

(** The gauges: per route the addresses blocked on it, and the flagged ones. *)
Definition count_route (counts : list (string * Z)) (route : string) : list (string * Z) := jm_set route (default 0 (jm_get route counts) + 1) counts.
Definition refreshGauges (d : AbuseDetector) : AbuseDetector :=
  mkDetector (ad_ips d) (ad_flaggedCount d) (foldl count_route [] (concat (jm_keys <$> (ip_routes <$> jm_values (ad_ips d))))) (ad_flaggedCount d).

Definition recordBlock (threshold : Z) (ip route : string) (timestamp : Z) (d : AbuseDetector) : AbuseDetector :=
  let rec_ := default (mkIp [] 0 false) (jm_get ip (ad_ips d)) in
  let routes := jm_set route timestamp (ip_routes rec_) in
  let raise := negb (ip_flagged rec_) && (threshold <=? jm_size routes) in
  refreshGauges
    (mkDetector (jm_set ip (mkIp routes (ip_totalBlocks rec_ + 1) (ip_flagged rec_ || raise)) (ad_ips d))
       (ad_flaggedCount d + (if raise then 1 else 0)) (ad_activeBlocks d) (ad_multiRoute d)).

(** One address in a purge: what is left of it, and the change of the count. *)
Definition purge_ip (threshold cutoff : Z) (r : IpRecord) : option IpRecord * Z :=
  let routes := List.filter (fun e => negb (e.2 <? cutoff)) (ip_routes r) in
  match routes with
  | [] => (None, if ip_flagged r then -1 else 0)
  | _ =>
      let flagged := threshold <=? jm_size routes in
      (Some (mkIp routes (ip_totalBlocks r) flagged), (if ip_flagged r && negb flagged then -1 else 0) + (if negb (ip_flagged r) && flagged then 1 else 0))
  end.

Fixpoint purge_ips (threshold cutoff : Z) (ips : list (string * IpRecord)) : list (string * IpRecord) * Z :=
  match ips with
  | [] => ([], 0)
  | (ip, r) :: rest =>
      let '(kept, n) := purge_ips threshold cutoff rest in
      let '(r', k) := purge_ip threshold cutoff r in
      (match r' with Some r' => (ip, r') :: kept | None => kept end, k + n)
  end.

Definition abuse_purge (threshold windowMs now : Z) (d : AbuseDetector) : AbuseDetector :=
  let '(ips, n) := purge_ips threshold (now - windowMs) (ad_ips d) in
  refreshGauges (mkDetector ips (ad_flaggedCount d + n) (ad_activeBlocks d) (ad_multiRoute d)).

(** ** The middleware *)

Record RateLimitOptions : Type := mkOptions {
  rl_windowMs : Z; rl_max : Z; rl_name : string; rl_apiKeys : list string; rl_trustedProxies : list string
}.

Definition div_ceil (a b : Z) : Z := - (- a / b).

(** The decision with the headers it sets: remaining requests and the seconds to
    the reset. *)
Inductive Decision : Type := Bypass | Pass (remaining resetSecs : Z) | Block (retryAfterSeconds : Z).

Definition bypasses (o : RateLimitOptions) (r : Request) : bool :=
  match rl_apiKeys o, extractBearerToken r with
  | [], _ | _, None => false
  | keys, Some token => bool_decide (token ∈ keys)
  end.

Definition rate_key (o : RateLimitOptions) (ip : string) : string := rl_name o +:+ ":" +:+ ip.

(** [now] and [later] are the readings of the clock. *)
Definition rateLimitMiddleware (o : RateLimitOptions) (now later : Z) (r : Request) (s : Store) : Decision * Store :=
  if bypasses o r then (Bypass, s)
  else
    let '(b, s) := increment now (rl_windowMs o) (rate_key o (resolveClientIp (rl_trustedProxies o) r)) s in
    let resetSecs := div_ceil (b_resetAt b - later) 1000 in
    if rl_max o <? b_count b then (Block resetSecs, s) else (Pass (Z.max 0 (rl_max o - b_count b)) resetSecs, s).

(** A blocked request is reported. *)
Definition limit_request (o : RateLimitOptions) (threshold now later : Z) (r : Request) (s : Store * AbuseDetector) : Decision * (Store * AbuseDetector) :=
  let '(d, store) := rateLimitMiddleware o now later r s.1 in
  (d, (store, match d with Block _ => recordBlock threshold (resolveClientIp (rl_trustedProxies o) r) (rl_name o) later s.2 | _ => s.2 end)).

(** ** Traffic *)

Inductive Op : Type := Ask (now later : Z) (r : Request) | Purge (now : Z).
Definition op_time (o : Op) : Z := match o with Ask now _ _ => now | Purge now => now end.

Record Entry : Type := mkEntry { en_time : Z; en_ip : string; en_decision : Decision }.

Fixpoint traffic (o : RateLimitOptions) (ops : list Op) (s : Store) : list Entry * Store :=
  match ops with
  | [] => ([], s)
  | Ask now later r :: rest =>
      let '(d, s) := rateLimitMiddleware o now later r s in
      let '(es, s) := traffic o rest s in
      (mkEntry now (resolveClientIp (rl_trustedProxies o) r) d :: es, s)
  | Purge now :: rest => traffic o rest (purgeExpired now s)
  end.

(** The clock does not go back. *)
Fixpoint clocked (from : Z) (ops : list Op) : Prop :=
  match ops with [] => True | o :: rest => from <= op_time o /\ clocked (op_time o) rest end.

Definition is_pass (d : Decision) : bool := match d with Pass _ _ => true | _ => false end.
Definition is_block (d : Decision) : bool := match d with Block _ => true | _ => false end.

(** The requests of an address that passed within a time. *)
Definition passed (ip : string) (a b : Z) (es : list Entry) : Z :=
  Z.of_nat (length (List.filter (fun e => bool_decide (en_ip e = ip) && is_pass (en_decision e) && (a <=? en_time e) && (en_time e <=? b)) es)).

(** ** Maps *)

Lemma jm_ok_filter {V} (f : string * V -> bool) (m : list (string * V)) : jm_ok m -> jm_ok (List.filter f m).
Proof.
  unfold jm_ok, jm_keys. induction m as [|e m IH]; [done|]. intros [H1 H2]%NoDup_cons. cbn. destruct (f e); [|by apply IH].
  apply NoDup_cons. split; [|by apply IH]. intros (x & Hx & Hin)%list_elem_of_fmap. apply H1. rewrite Hx.
  apply list_elem_of_In, filter_In in Hin as [Hin _]. apply list_elem_of_fmap. exists x. split; [done|by apply list_elem_of_In].
Qed.

Lemma elem_of_set_entry {V} k (v : V) m e : e ∈ jm_set k v m -> e ∈ m \/ e = (k, v).
Proof.
  induction m as [|[k' v'] m IH]; cbn; [intros H%list_elem_of_singleton; by right|]. destruct (String.eqb_spec k' k) as [->|].
  - intros [->|H]%elem_of_cons; [by right|left; by right].
  - intros [->|H]%elem_of_cons; [left; by left|]. destruct (IH H); [left; by right|by right].
Qed.

(** ** Windows *)

Definition count_in (a b : Z) (l : list Z) : nat := length (List.filter (fun t => (a <=? t) && (t <=? b)) l).

Section Windows.
Context (W : Z) (M : nat).

(** The passes of an address, window by window, the latest window first. *)
Definition Groups : Type := list (Z * list Z).
Definition total (a b : Z) (gs : Groups) : nat := sum_list ((fun g => count_in a b g.2) <$> gs).

Definition group_ok (g : Z * list Z) : Prop := (length g.2 <= M)%nat /\ Forall (fun t => g.1 <= t <= g.1 + W) g.2.

Fixpoint grouped (gs : Groups) : Prop :=
  match gs with
  | [] => True
  | g :: gs' => group_ok g /\ match gs' with g' :: _ => g'.1 + W < g.1 | [] => True end /\ grouped gs'
  end.

Lemma count_le a b l : (count_in a b l <= length l)%nat.
Proof. apply List.filter_length_le. Qed.

Lemma count_none a b l : Forall (fun t => t < a) l -> count_in a b l = 0%nat.
Proof.
  unfold count_in. induction 1 as [|t l Ht _ IH]; [done|]. cbn. rewrite (proj2 (Z.leb_gt _ _)) by lia. exact IH.
Qed.

Lemma count_all a b l : Forall (fun t => a <= t <= b) l -> count_in a b l = length l.
Proof.
  unfold count_in. induction 1 as [|t l Ht _ IH]; [done|]. cbn. rewrite !(proj2 (Z.leb_le _ _)) by lia. cbn. by rewrite IH.
Qed.

Lemma total_cons a b g gs : total a b (g :: gs) = (count_in a b g.2 + total a b gs)%nat.
Proof. done. Qed.

Lemma total_zero a b g gs : grouped (g :: gs) -> g.1 + W < a -> 0 <= W -> total a b (g :: gs) = 0%nat.
Proof.
  revert g. induction gs as [|g' gs IH]; intros g ([_ Hg] & Hsp & Hgs) Ha HW;
    rewrite total_cons, count_none by (eapply Forall_impl; [exact Hg|]; cbn; lia); [done|].
  apply (IH g'); [done|lia|done].
Qed.

Lemma total_one a b g gs : grouped (g :: gs) -> g.1 < a -> 0 <= W -> (total a b (g :: gs) <= M)%nat.
Proof.
  intros ([Hl _] & Hsp & Hgs) Ha HW. rewrite total_cons. pose proof (count_le a b g.2). destruct gs as [|g' gs]; [cbn; lia|].
  rewrite (total_zero a b g' gs Hgs) by lia. lia.
Qed.

Lemma count_after a b l : Forall (fun t => b < t) l -> count_in a b l = 0%nat.
Proof.
  unfold count_in. induction 1 as [|t l Ht _ IH]; [done|]. cbn. rewrite (proj2 (Z.leb_gt t _)) by lia. by rewrite andb_false_r.
Qed.

(** No more than two windows meet an interval of the length of one. *)
Lemma total_two a gs : grouped gs -> 0 <= W -> (total a (a + W) gs <= 2 * M)%nat.
Proof.
  induction gs as [|g gs IH]; [unfold total; cbn; lia|]. intros Hg HW. pose proof Hg as ([Hl Hin] & Hsp & Hgs).
  destruct (Z_lt_le_dec g.1 a) as [H|H]; [pose proof (total_one a (a + W) g gs Hg H HW); lia|]. rewrite total_cons.
  destruct (Z_lt_le_dec (a + W) g.1) as [H'|H'].
  - rewrite count_after by (eapply Forall_impl; [exact Hin|]; cbn; lia). specialize (IH Hgs HW). lia.
  - pose proof (count_le a (a + W) g.2). destruct gs as [|g' gs]; [unfold total; cbn; lia|]. pose proof (total_one a (a + W) g' gs Hgs ltac:(lia) HW). lia.
Qed.
End Windows.

(** ** The store keeps the groups *)

Section Limit.
Context (o : RateLimitOptions) (HW : 0 <= rl_windowMs o).
Notation W := (rl_windowMs o).
Notation M := (Z.to_nat (rl_max o)).

Lemma rate_key_inj ip ip' : rate_key o ip = rate_key o ip' -> ip = ip'.
Proof. unfold rate_key. by intros H%string_app_inj_l%string_app_inj_l. Qed.

Definition bucket_ok (now : Z) (b : option Bucket) (gs : Groups) : Prop :=
  match b with
  | Some b => exists l gs', gs = (b_resetAt b - W, l) :: gs' /\ length l = Nat.min (Z.to_nat (b_count b)) M /\ 1 <= b_count b /\
                Forall (fun t => t <= now) l /\ b_resetAt b - W <= now
  | None => match gs with g :: _ => g.1 + W < now | [] => True end
  end.

Record store_ok (es : list Entry) (now : Z) (s : Store) : Prop := mkStoreOk {
  so_keys : jm_ok s;
  so_groups : forall ip, exists gs, grouped W M gs /\ (forall a b, passed ip a b es = Z.of_nat (total a b gs)) /\ bucket_ok now (jm_get (rate_key o ip) s) gs
}.

Lemma bucket_later now now' b gs : now <= now' -> bucket_ok now b gs -> bucket_ok now' b gs.
Proof.
  intros Hn. destruct b as [b|]; cbn.
  - intros (l & gs' & -> & H1 & H2 & H3 & H4). exists l, gs'. split_and!; try done; [|lia]. eapply Forall_impl; [exact H3|]. cbn. lia.
  - destruct gs; [done|]. lia.
Qed.

Lemma passed_app ip a b es es' : passed ip a b (es ++ es') = passed ip a b es + passed ip a b es'.
Proof. unfold passed. rewrite List.filter_app, length_app. lia. Qed.

Lemma passed_other ip a b e : en_ip e <> ip \/ is_pass (en_decision e) = false -> passed ip a b [e] = 0.
Proof.
  unfold passed. cbn. intros [H|H]; [rewrite bool_decide_false by done; done|]. by rewrite H, andb_false_r.
Qed.

Lemma passed_one ip a b now r x : passed ip a b [mkEntry now ip (Pass r x)] = Z.of_nat (count_in a b [now]).
Proof. unfold passed, count_in. cbn. rewrite bool_decide_true by done. cbn. by destruct (_ && _). Qed.

Lemma count_cons_in a b t l : count_in a b (t :: l) = (count_in a b [t] + count_in a b l)%nat.
Proof. unfold count_in. cbn. by destruct (_ && _). Qed.

(** The decision for a bucket, and what it makes of the groups of an address. *)
Definition decide_bucket (later : Z) (b : Bucket) : Decision :=
  let resetSecs := div_ceil (b_resetAt b - later) 1000 in
  if rl_max o <? b_count b then Block resetSecs else Pass (Z.max 0 (rl_max o - b_count b)) resetSecs.

Definition window_after (es : list Entry) (t : Z) (ip : string) (b : Bucket) (d : Decision) : Prop :=
  (exists gs, grouped W M gs /\ (forall a c, passed ip a c (es ++ [mkEntry t ip d]) = Z.of_nat (total a c gs)) /\ bucket_ok t (Some b) gs) /\
  (is_block d = true -> rl_max o <= passed ip (t - W) t es).

Lemma open_window es t ip gs later :
  grouped W M gs -> (forall a c, passed ip a c es = Z.of_nat (total a c gs)) -> match gs with g :: _ => g.1 + W < t | [] => True end ->
  window_after es t ip (mkBucket 1 (t + W)) (decide_bucket later (mkBucket 1 (t + W))).
Proof.
  intros G1 G2 Hold. unfold window_after, decide_bucket. cbn [b_count b_resetAt]. destruct (Z.ltb_spec (rl_max o) 1) as [H0|H1].
  - split; [|intros _; unfold passed; lia]. exists ((t, []) :: gs). split_and!; [by split_and!; [split; [cbn; lia|constructor]|done..]| |].
    + intros a c. rewrite passed_app, passed_other, G2, total_cons by (by right). cbn [snd]. unfold count_in. cbn. lia.
    + exists [], gs. cbn. replace (t + W - W) with t by lia. split_and!; [done|lia|lia|constructor|lia].
  - split; [|done]. exists ((t, [t]) :: gs). split_and!; [by split_and!; [split; [cbn; lia|constructor; [cbn; lia|constructor]]|done..]| |].
    + intros a c. rewrite passed_app, passed_one, G2, total_cons. cbn [snd]. lia.
    + exists [t], gs. cbn. replace (t + W - W) with t by lia. split_and!; [done|lia|lia|by constructor; [lia|constructor]|lia].
Qed.

Lemma join_window es now t ip b gs later :
  grouped W M gs -> (forall a c, passed ip a c es = Z.of_nat (total a c gs)) -> bucket_ok now (Some b) gs -> now <= t <= b_resetAt b ->
  window_after es t ip (mkBucket (b_count b + 1) (b_resetAt b)) (decide_bucket later (mkBucket (b_count b + 1) (b_resetAt b))).
Proof.
  intros G1 G2 (l & gs0 & -> & L1 & L2 & L3 & L4) Ht. destruct G1 as ([Gl Gt] & Gs & Gg). cbn in Gl, Gt.
  assert (Forall (fun x => x <= t) l) as L5 by (eapply Forall_impl; [exact L3|]; cbn; lia).
  unfold window_after, decide_bucket. cbn [b_count b_resetAt]. destruct (Z.ltb_spec (rl_max o) (b_count b + 1)) as [Hfull|Hroom].
  - split.
    + exists ((b_resetAt b - W, l) :: gs0). split_and!; [by split_and!| |].
      * intros a c. rewrite passed_app, passed_other, G2 by (by right). lia.
      * exists l, gs0. cbn. split_and!; [done|lia|lia|done|lia].
    + intros _. rewrite G2, total_cons. cbn [snd].
      rewrite count_all by (apply Forall_and; split; [eapply Forall_impl; [exact Gt|cbn; lia]|done]). lia.
  - split; [|done]. exists ((b_resetAt b - W, t :: l) :: gs0). split_and!; [by split_and!; [split; [cbn; lia|constructor; [cbn; lia|done]]|done..]| |].
    + intros a c. rewrite passed_app, passed_one, G2, !total_cons. cbn [snd]. rewrite (count_cons_in a c t l). lia.
    + exists (t :: l), gs0. cbn. split_and!; [done|lia|lia|by constructor; [lia|]|lia].
Qed.

(** A request that is counted. *)
Lemma increment_ok es now t ip s later :
  store_ok es now s -> now <= t ->
  let '(b, s') := increment t W (rate_key o ip) s in
  store_ok (es ++ [mkEntry t ip (decide_bucket later b)]) t s' /\
  (is_block (decide_bucket later b) = true -> rl_max o <= passed ip (t - W) t es).
Proof.
  intros [Hk Hg] Ht. unfold increment. set (b' := match jm_get _ s with Some _ => _ | None => _ end). cbv zeta.
  assert (window_after es t ip b' (decide_bucket later b')) as [(gs' & G1 & G2 & G3) Hb].
  { destruct (Hg ip) as (gs & G1 & G2 & G3). subst b'. destruct (jm_get (rate_key o ip) s) as [b|] eqn:E.
    - destruct (Z.ltb_spec (b_resetAt b) t); [|by apply (join_window es now t ip b gs)]. apply (open_window es t ip gs); [done..|].
      destruct G3 as (l & gs' & -> & _). cbn. lia.
    - apply (open_window es t ip gs); [done..|]. cbn in G3. destruct gs; [done|]. lia. }
  split; [|done]. split; [by apply jm_ok_set|]. intros ip'. destruct (decide (ip' = ip)) as [->|Hne].
  - exists gs'. rewrite jm_get_set. by split_and!.
  - destruct (Hg ip') as (hs & H1 & H2 & H3). exists hs. rewrite jm_get_set_ne by (intros E; by apply Hne, rate_key_inj).
    split_and!; [done| |by eapply bucket_later]. intros a c. rewrite passed_app, passed_other by (left; cbn; congruence). rewrite H2. lia.
Qed.

Lemma get_purged key now s : jm_ok s ->
  jm_get key (purgeExpired now s) = match jm_get key s with Some b => if b_resetAt b <? now then None else Some b | None => None end.
Proof.
  unfold purgeExpired. induction s as [|[k b] s IH]; intros Hk; [done|]. apply NoDup_cons in Hk as [Hk Hs]. cbn.
  destruct (b_resetAt b <? now) eqn:E; cbn; destruct (String.eqb_spec k key) as [->|]; rewrite ?IH by done; rewrite ?E; try done.
  apply jm_get_None in Hk. cbn in Hk. by rewrite Hk.
Qed.

Lemma purge_ok es now t s : store_ok es now s -> now <= t -> store_ok es t (purgeExpired t s).
Proof.
  intros [Hk Hg] Ht. split.
  - by apply jm_ok_filter.
  - intros ip. destruct (Hg ip) as (gs & H1 & H2 & H3). exists gs. split_and!; [done..|]. rewrite get_purged by done.
    apply (bucket_later now t) in H3; [|done]. destruct (jm_get (rate_key o ip) s) as [b|]; [|done].
    destruct (Z.ltb_spec (b_resetAt b) t); [|done]. destruct H3 as (l & gs' & -> & _). cbn. lia.
Qed.

Lemma passed_nonneg ip a b es : 0 <= passed ip a b es.
Proof. unfold passed. lia. Qed.

(** Whole traffic. *)
Lemma traffic_ok ops es now s :
  store_ok es now s -> clocked now ops ->
  let '(es', s') := traffic o ops s in
  (exists t, store_ok (es ++ es') t s') /\
  (forall e, e ∈ es' -> is_block (en_decision e) = true -> rl_max o <= passed (en_ip e) (en_time e - W) (en_time e) (es ++ es')).
Proof.
  revert es now s. induction ops as [|op ops IH]; intros es now s Hs Hc.
  { cbn. rewrite app_nil_r. split; [by exists now|by intros e ?%elem_of_nil]. }
  destruct Hc as [Ht Hc]. destruct op as [t later r|t]; cbn [op_time] in *; cbn [traffic].
  2: { apply (IH es t); [by eapply purge_ok|done]. }
  unfold rateLimitMiddleware. set (ip := resolveClientIp (rl_trustedProxies o) r). destruct (bypasses o r).
  - assert (store_ok (es ++ [mkEntry t ip Bypass]) t s) as Hs'.
    { destruct Hs as [Hk Hg]. split; [done|]. intros ip'. destruct (Hg ip') as (gs & H1 & H2 & H3). exists gs.
      split_and!; [done| |by eapply bucket_later]. intros a c. rewrite passed_app, passed_other, H2 by (by right). lia. }
    specialize (IH _ t s Hs' Hc). destruct (traffic o ops s) as [es' s']. rewrite (cons_middle _ es es'), (app_assoc es). destruct IH as [I1 I2].
    split; [done|]. intros e [->|He]%elem_of_cons; [done|by apply I2].
  - pose proof (increment_ok es now t ip s later Hs Ht) as Hi. destruct (increment t W (rate_key o ip) s) as [b s1]. destruct Hi as [Hs' Hb].
    assert ((if rl_max o <? b_count b then (Block (div_ceil (b_resetAt b - later) 1000), s1)
             else (Pass (Z.max 0 (rl_max o - b_count b)) (div_ceil (b_resetAt b - later) 1000), s1)) = (decide_bucket later b, s1)) as ->
      by (unfold decide_bucket; by destruct (_ <? _)).
    specialize (IH _ t s1 Hs' Hc). destruct (traffic o ops s1) as [es' s']. rewrite (cons_middle _ es es'), (app_assoc es). destruct IH as [I1 I2].
    split; [done|]. intros e [->|He]%elem_of_cons; [|by apply I2]. intros Hblk. cbn in *. specialize (Hb Hblk).
    rewrite !passed_app. pose proof (passed_nonneg ip (t - W) t es'). pose proof (passed_nonneg ip (t - W) t [mkEntry t ip (decide_bucket later b)]). lia.
Qed.
End Limit.

(** C3.  The rate limit holds both ways.  For every traffic on a limiter, with
    purges at any time, within every interval of the length of the window at most
    twice the maximum of requests from an address pass without an API key (the
    windows are fixed, so an interval can meet two of them); and a request is
    refused only when the maximum of requests from its own address have passed
    within the window that ends with it.  Other addresses have no influence. *)
Theorem rate_limit_bounds (o : RateLimitOptions) (ops : list Op) (from : Z) :
  0 <= rl_windowMs o -> 0 <= rl_max o -> clocked from ops ->
  let es := (traffic o ops []).1 in
  (forall ip a, passed ip a (a + rl_windowMs o) es <= 2 * rl_max o) /\
  (forall e, e ∈ es -> is_block (en_decision e) = true -> rl_max o <= passed (en_ip e) (en_time e - rl_windowMs o) (en_time e) es).
Proof.
  intros HW HM Hc. assert (store_ok o [] from []) as H0 by (split; [apply jm_ok_nil|]; intros ip; by exists []).
  pose proof (traffic_ok o HW ops [] from [] H0 Hc) as H. destruct (traffic o ops []) as [es s]. destruct H as [[t [_ Hg]] Hb]. cbn in *.
  split; [|exact Hb]. intros ip a. destruct (Hg ip) as (gs & H1 & H2 & _). rewrite H2.
  pose proof (total_two (rl_windowMs o) (Z.to_nat (rl_max o)) a gs H1 HW). lia.
Qed.

(** ** The detector counts *)

Definition many_routes (threshold : Z) (e : string * IpRecord) : bool := threshold <=? jm_size (ip_routes e.2).
Definition blocked_on (route : string) (e : string * IpRecord) : bool := jm_has route (ip_routes e.2).
Definition number_of (f : string * IpRecord -> bool) (ips : list (string * IpRecord)) : Z := Z.of_nat (length (List.filter f ips)).

Record detector_ok (threshold : Z) (d : AbuseDetector) : Prop := mkDetectorOk {
  do_keys : jm_ok (ad_ips d);
  do_flags : forall e, e ∈ ad_ips d -> ip_flagged e.2 = many_routes threshold e /\ jm_ok (ip_routes e.2);
  do_count : ad_flaggedCount d = number_of (many_routes threshold) (ad_ips d);
  do_gauge : ad_multiRoute d = ad_flaggedCount d;
  do_active : forall route, default 0 (jm_get route (ad_activeBlocks d)) = number_of (blocked_on route) (ad_ips d)
}.

Lemma count_routes_get routes counts route :
  default 0 (jm_get route (foldl count_route counts routes)) = default 0 (jm_get route counts) + Z.of_nat (length (List.filter (String.eqb route) routes)).
Proof.
  revert counts. induction routes as [|r routes IH]; intros counts; cbn; [lia|]. rewrite IH. unfold count_route. destruct (String.eqb_spec route r) as [<-|Hne].
  - rewrite jm_get_set. cbn. lia.
  - by rewrite jm_get_set_ne by congruence.
Qed.

Lemma keys_count route (m : list (string * Z)) : jm_ok m -> length (List.filter (String.eqb route) (jm_keys m)) = if jm_has route m then 1%nat else 0%nat.
Proof.
  rewrite jm_has_get. induction m as [|[k v] m IH]; intros Hm; [done|]. apply NoDup_cons in Hm as [Hk Hm]. cbn. specialize (IH Hm).
  rewrite String.eqb_sym. destruct (String.eqb_spec k route) as [->|]; cbn; [|done]. unfold jm_keys in IH. cbn in IH. rewrite IH.
  apply jm_get_None in Hk. cbn in Hk. by rewrite Hk.
Qed.

Lemma active_blocks ips route :
  (forall e, e ∈ ips -> jm_ok (ip_routes e.2)) ->
  default 0 (jm_get route (foldl count_route [] (concat (jm_keys <$> (ip_routes <$> jm_values ips))))) = number_of (blocked_on route) ips.
Proof.
  intros H. rewrite count_routes_get. cbn. unfold number_of, jm_values. induction ips as [|[ip r] ips IH]; [done|]. cbn.
  rewrite List.filter_app, length_app, keys_count by (apply (H (ip, r)); by left). unfold blocked_on at 1. cbn.
  specialize (IH ltac:(intros e He; apply H; by right)). destruct (jm_has route (ip_routes r)); cbn [length]; lia.
Qed.

(** The gauges follow the records. *)
Lemma refresh_ok threshold d :
  jm_ok (ad_ips d) -> (forall e, e ∈ ad_ips d -> ip_flagged e.2 = many_routes threshold e /\ jm_ok (ip_routes e.2)) ->
  ad_flaggedCount d = number_of (many_routes threshold) (ad_ips d) -> detector_ok threshold (refreshGauges d).
Proof. intros H1 H2 H3. split; [done..|]. intros route. cbn. apply active_blocks. intros e He. by apply H2. Qed.

Lemma number_set f ip r ips :
  jm_ok ips ->
  number_of f (jm_set ip r ips) =
  number_of f ips + (if f (ip, r) then 1 else 0) - match jm_get ip ips with Some old => if f (ip, old) then 1 else 0 | None => 0 end.
Proof.
  unfold number_of. induction ips as [|[k v] ips IH]; intros Hk; [cbn; destruct (f (ip, r)); cbn; lia|]. apply NoDup_cons in Hk as [_ Hk]. specialize (IH Hk).
  cbn. destruct (String.eqb_spec k ip) as [->|]; cbn; [destruct (f (ip, r)), (f (ip, v)); cbn [length]; lia|].
  destruct (f (k, v)); cbn [length]; lia.
Qed.

Lemma recordBlock_ok threshold ip route t d : 1 <= threshold -> detector_ok threshold d -> detector_ok threshold (recordBlock threshold ip route t d).
Proof.
  intros Ht [H1 H2 H3 _ _]. unfold recordBlock. set (old := default (mkIp [] 0 false) (jm_get ip (ad_ips d))). cbv zeta.
  assert (ip_flagged old = many_routes threshold (ip, old) /\ jm_ok (ip_routes old)) as [Hf Hr].
  { subst old. destruct (jm_get ip (ad_ips d)) as [r|] eqn:E; [apply (H2 (ip, r)); by apply jm_get_elem|]. cbn. split; [|apply jm_ok_nil].
    unfold many_routes, jm_size. cbn. symmetry. apply Z.leb_gt. lia. }
  assert (jm_size (ip_routes old) <= jm_size (jm_set route t (ip_routes old))) as Hsz.
  { unfold jm_size. rewrite <- !(length_fmap fst). change (fst <$> ?m) with (jm_keys m). rewrite jm_keys_set. destruct (jm_has _ _); [lia|]. rewrite length_app. lia. }
  assert (ip_flagged old || (negb (ip_flagged old) && (threshold <=? jm_size (jm_set route t (ip_routes old)))) = (threshold <=? jm_size (jm_set route t (ip_routes old)))) as Hnew.
  { rewrite Hf. unfold many_routes. cbn. destruct (Z.leb_spec threshold (jm_size (ip_routes old))); [|done]. cbn. symmetry. apply Z.leb_le. lia. }
  apply refresh_ok; cbn [ad_ips ad_flaggedCount].
  - by apply jm_ok_set.
  - intros [k r] [Hg|Hg]%elem_of_set_entry; [by apply H2|]. injection Hg as -> ->. rewrite Hnew. cbn. split; [done|by apply jm_ok_set].
  - rewrite H3, number_set by done.
    assert (match jm_get ip (ad_ips d) with Some r => if many_routes threshold (ip, r) then 1 else 0 | None => 0 end = if ip_flagged old then 1 else 0) as ->.
    { subst old. destruct (jm_get ip (ad_ips d)) as [r|]; cbn in *; [by rewrite Hf|done]. }
    match goal with |- context [many_routes threshold (ip, ?x)] => change (many_routes threshold (ip, x)) with (threshold <=? jm_size (jm_set route t (ip_routes old))) end.
    destruct (ip_flagged old), (threshold <=? jm_size (jm_set route t (ip_routes old))); cbn in *; try discriminate; lia.
Qed.

Lemma purge_ip_ok threshold cutoff ip r :
  1 <= threshold -> ip_flagged r = many_routes threshold (ip, r) -> jm_ok (ip_routes r) ->
  let '(r', k) := purge_ip threshold cutoff r in
  k = match r' with Some r' => if many_routes threshold (ip, r') then 1 else 0 | None => 0 end - (if many_routes threshold (ip, r) then 1 else 0) /\
  match r' with Some r' => ip_flagged r' = many_routes threshold (ip, r') /\ jm_ok (ip_routes r') | None => True end.
Proof.
  intros Ht Hf Hr. unfold purge_ip. rewrite Hf.
  pose proof (jm_ok_filter (fun e => negb (e.2 <? cutoff)) (ip_routes r) Hr) as Hk.
  destruct (List.filter _ _) as [|e m] eqn:E; [split; [|done]; by destruct (many_routes threshold (ip, r))|].
  unfold many_routes at 3. cbn [snd ip_routes ip_flagged]. split; [|by split].
  destruct (many_routes threshold (ip, r)), (threshold <=? _); cbn; lia.
Qed.

Lemma purge_ips_ok threshold cutoff ips :
  1 <= threshold -> jm_ok ips -> (forall e, e ∈ ips -> ip_flagged e.2 = many_routes threshold e /\ jm_ok (ip_routes e.2)) ->
  let '(ips', n) := purge_ips threshold cutoff ips in
  (forall k, k ∈ jm_keys ips' -> k ∈ jm_keys ips) /\ jm_ok ips' /\
  (forall e, e ∈ ips' -> ip_flagged e.2 = many_routes threshold e /\ jm_ok (ip_routes e.2)) /\
  n = number_of (many_routes threshold) ips' - number_of (many_routes threshold) ips.
Proof.
  intros Ht. induction ips as [|[ip r] ips IH]; intros Hk Hf; [by cbn; split_and!|]. apply NoDup_cons in Hk as [H1 H2]. cbn [purge_ips].
  specialize (IH H2 ltac:(intros e He; apply Hf; by right)). destruct (purge_ips threshold cutoff ips) as [kept n]. destruct IH as (I1 & I2 & I3 & I4).
  destruct (Hf (ip, r) ltac:(by left)) as [F1 F2]. pose proof (purge_ip_ok threshold cutoff ip r Ht F1 F2) as Hp.
  destruct (purge_ip threshold cutoff r) as [r' k]. destruct Hp as [P1 P2].
  assert (forall m, number_of (many_routes threshold) ((ip, r) :: m) = number_of (many_routes threshold) m + if many_routes threshold (ip, r) then 1 else 0) as Hn.
  { intros m. unfold number_of. cbn. destruct (many_routes threshold (ip, r)); cbn [length]; lia. }
  destruct r' as [r'|].
  - split_and!.
    + intros x [->|Hx]%elem_of_cons; [by left|]. right. by apply I1.
    + apply NoDup_cons. split; [|done]. cbn. intros Hx. by apply H1, I1.
    + intros e [->|He]%elem_of_cons; [done|by apply I3].
    + rewrite Hn. unfold number_of at 1. cbn. destruct (many_routes threshold (ip, r')); cbn [length]; unfold number_of in *; lia.
  - split_and!; [intros x Hx; right; by apply I1|done..|]. rewrite Hn. lia.
Qed.

Inductive AbuseOp : Type := Blocked (ip route : string) (timestamp : Z) | Purged (now : Z).
Definition abuse_step (threshold windowMs : Z) (d : AbuseDetector) (o : AbuseOp) : AbuseDetector :=
  match o with Blocked ip route t => recordBlock threshold ip route t d | Purged now => abuse_purge threshold windowMs now d end.

(** The count of flagged addresses, and the gauges, are exact: an address counts
    when it is on record with at least as many routes as the threshold. *)
Lemma detector_exact threshold windowMs ops :
  1 <= threshold -> detector_ok threshold (foldl (abuse_step threshold windowMs) new_detector ops).
Proof.
  intros Ht. assert (detector_ok threshold new_detector) as H0 by (split; [apply jm_ok_nil|by intros e ?%elem_of_nil|done..]).
  revert H0. generalize new_detector. induction ops as [|o ops IH]; intros d Hd; [done|]. cbn [foldl]. apply IH. destruct o as [ip route t|now]; cbn [abuse_step].
  - by apply recordBlock_ok.
  - destruct Hd as [H1 H2 H3 _ _]. unfold abuse_purge. pose proof (purge_ips_ok threshold (now - windowMs) (ad_ips d) Ht H1 H2) as Hp.
    destruct (purge_ips _ _ (ad_ips d)) as [ips n]. destruct Hp as (_ & P1 & P2 & P3). apply refresh_ok; [done..|]. cbn. lia.
Qed.

(** ** Runs *)

Definition reveal_limit (trustedProxies : list string) : RateLimitOptions := mkOptions 60000 2 "secrets/reveal" ["key"] trustedProxies.
Definition from_ip (ip : string) : Request := mkRequest (Some ip) None None.

Lemma rate_limit_bounds_witness :
  let ops := [Ask 0 0 (from_ip "a"); Ask 1 1 (from_ip "a"); Purge 2; Ask 3 3 (from_ip "a")] in
  let es := (traffic (reveal_limit []) ops []).1 in
  (en_decision <$> es) = [Pass 1 60; Pass 0 60; Block 60] /\ passed "a" 0 60000 es <= 4 /\ 2 <= passed "a" (3 - 60000) 3 es.
Proof.
  intros ops es. destruct (rate_limit_bounds (reveal_limit []) ops 0) as [H1 H2]; [done|done|cbn; lia|].
  split; [vm_compute; reflexivity|]. split; [exact (H1 "a" 0)|]. apply (H2 (mkEntry 3 "a" (Block 60))); [|reflexivity]. vm_compute. right. right. left.
Defined.

(** Twice the maximum within two milliseconds: the window is fixed, not rolling. *)
Example burst_at_the_boundary :
  let ops := [Ask 0 0 (from_ip "a"); Ask 60000 60000 (from_ip "a"); Ask 60001 60001 (from_ip "a"); Ask 60001 60001 (from_ip "a")] in
  passed "a" 60000 60001 (traffic (reveal_limit []) ops []).1 = 3.
Proof. vm_compute. done. Qed.

(** Behind a trusted proxy the address is what the client writes first into the
    header, so each request can have one of its own. *)
Example forged_addresses_pass :
  let forged n := mkRequest (Some "10.0.0.1") (Some (Single (n +:+ ", 203.0.113.9"))) None in
  let ops := [Ask 0 0 (forged "1.1.1.1"); Ask 1 1 (forged "1.1.1.2"); Ask 2 2 (forged "1.1.1.3"); Ask 3 3 (forged "1.1.1.4")] in
  (is_pass <$> (en_decision <$> (traffic (reveal_limit ["10.0.0.1"]) ops []).1)) = [true; true; true; true].
Proof. vm_compute. done. Qed.

(** A network is not a trusted proxy, only its literal text is. *)
Example cidr_not_matched :
  resolveClientIp (loadTrustedProxies (Some "10.0.0.0/8")) (mkRequest (Some "10.0.0.1") (Some (Single "203.0.113.9")) None) = "10.0.0.1".
Proof. vm_compute. done. Qed.

(** Routes are dropped by the timer only: blocks almost two windows apart count
    as within one. *)
Example old_block_counts :
  let d := foldl (abuse_step 2 300000) new_detector [Blocked "a" "orders/status" 1; Purged 300000; Blocked "a" "secrets/get" 599000] in
  ad_flaggedCount d = 1 /\ ad_multiRoute d = 1.
Proof. vm_compute. done. Qed.
