(* ===== verification/Api.v ===== *)
(** * The coordinator's HTTP interface to orders and secrets

    coordinator/src/validation/route-policy.ts, address.ts and announce.ts, and the
    routes of server/routes/orders.ts (but for the history) and secrets.ts, over the
    order service, the secret service and the rate limits.  A request is handled
    whole.  The schemas are values; what zod makes of one and a body is a parameter
    with the law that an accepted body has the members the schema asks for. *)

From Stdlib Require Import Ascii.
From S2P Require Import Prelude Text JsMap Json OrderMachine TransactionContract OrderRow OrdersRepo OrdersRepoFacts.
From S2P Require Import OrdersRepoSpec HistoryCache Notifications OrderService OrderServiceFacts.
From S2P Require Import OrderServiceSpec Codec SecretCipher SecretService RateLimit.

Import Service.

(** ** Route policy *)

Definition POLICY_DIRECTION_CHAINS : list (string * (Chain * Chain)) :=
  [("eth_to_xlm", (ethereum, stellar)); ("xlm_to_eth", (stellar, ethereum)); ("eth_to_sol", (ethereum, solana)); ("sol_to_eth", (solana, ethereum))].
Definition PLACEHOLDER_CHAINS : list (string * string) := [].

Definition buildBlockedDirections : list (string * string) :=
  omap (fun '(d, (src, dst)) =>
          match jm_get (chain_str src) PLACEHOLDER_CHAINS, jm_get (chain_str dst) PLACEHOLDER_CHAINS with
          | Some r, _ | None, Some r => Some (d, r)
          | None, None => None
          end) POLICY_DIRECTION_CHAINS.
Definition BLOCKED_DIRECTIONS : list (string * string) := buildBlockedDirections.
Definition LIVE_DIRECTIONS : list string := List.filter (fun d => negb (jm_has d BLOCKED_DIRECTIONS)) (jm_keys POLICY_DIRECTION_CHAINS).

Inductive RouteDenialCode : Type := DIRECTION_UNSUPPORTED | DIRECTION_BLOCKED | CHAIN_MISMATCH | SAME_CHAIN_ROUTE | ROUTE_LIFECYCLE_LOCKED.
Inductive RouteVerdict : Type := Approval (srcChain dstChain : Chain) | Denial (code : RouteDenialCode) (field : string).

(** An inherited member is found too, and has no chains. *)
Definition direction_entry (direction : string) : option (option Chain * option Chain) :=
  match jm_get direction POLICY_DIRECTION_CHAINS with
  | Some (src, dst) => Some (Some src, Some dst)
  | None => if bool_decide (direction ∈ PROTOTYPE_MEMBERS) then Some (None, None) else None
  end.

Definition is_chain (name : string) (c : option Chain) : bool := match c with Some c => String.eqb name (chain_str c) | None => false end.

Definition checkRoutePolicy (direction srcChain dstChain : string) : RouteVerdict :=
  match direction_entry direction with
  | None => Denial DIRECTION_UNSUPPORTED "direction"
  | Some (src, dst) =>
      if jm_has direction BLOCKED_DIRECTIONS then Denial DIRECTION_BLOCKED "direction"
      else if String.eqb srcChain dstChain then Denial SAME_CHAIN_ROUTE "dstChain"
      else if negb (is_chain srcChain src) then Denial CHAIN_MISMATCH "srcChain"
      else if negb (is_chain dstChain dst) then Denial CHAIN_MISMATCH "dstChain"
      else match src, dst with Some s, Some d => Approval s d | _, _ => Denial CHAIN_MISMATCH "srcChain" end
  end.

(** [direction in POLICY_DIRECTION_CHAINS]. *)
Definition isLiveDirection (direction : option string) : bool :=
  match direction with
  | Some d => (jm_has d POLICY_DIRECTION_CHAINS || bool_decide (d ∈ PROTOTYPE_MEMBERS)) && negb (jm_has d BLOCKED_DIRECTIONS)
  | None => false
  end.

Definition listLiveRoutes : list (string * Chain * Chain) :=
  omap (fun d => (fun '(s, t) => (d, s, t)) <$> jm_get d POLICY_DIRECTION_CHAINS) LIVE_DIRECTIONS.
Definition listBlockedRoutes : list (string * Chain * Chain * string) :=
  omap (fun d => match jm_get d POLICY_DIRECTION_CHAINS, jm_get d BLOCKED_DIRECTIONS with Some (s, t), Some r => Some (d, s, t, r) | _, _ => None end)
    (jm_keys POLICY_DIRECTION_CHAINS).

(** ** Formats *)

Fixpoint all_chars (f : ascii -> bool) (s : string) : bool := match s with EmptyString => true | String c s' => f c && all_chars f s' end.
Definition in_range (a b : nat) (c : ascii) : bool := Nat.leb a (nat_of_ascii c) && Nat.leb (nat_of_ascii c) b.
Definition hex_char (c : ascii) : bool := in_range 48 57 c || in_range 97 102 c || in_range 65 70 c.
Definition digit_char (c : ascii) : bool := in_range 48 57 c.
Definition base32_char (c : ascii) : bool := in_range 65 90 c || in_range 50 55 c.
Definition base58_char (c : ascii) : bool :=
  in_range 49 57 c || in_range 65 72 c || in_range 74 78 c || in_range 80 90 c || in_range 97 107 c || in_range 109 122 c.

(** A prefix, then so many characters of a class. *)
Definition prefixed (prefix : string) (f : ascii -> bool) (min max : nat) (s : string) : bool :=
  startsWith s prefix &&
  let rest := String.substring (String.length prefix) (String.length s) s in
  all_chars f rest && Nat.leb min (String.length rest) && Nat.leb (String.length rest) max.

Definition HEX_ADDRESS : string -> bool := prefixed "0x" hex_char 40 40.
Definition STELLAR_ADDRESS : string -> bool := prefixed "G" base32_char 55 55.
Definition SOLANA_ADDRESS : string -> bool := prefixed "" base58_char 32 44.
Definition ZERO_ADDRESS : string := "0x0000000000000000000000000000000000000000".
Definition ORDER_ID_PATTERN : string -> bool := prefixed "wf_0x" hex_char 64 64.
Definition HEX32 : string -> bool := prefixed "0x" hex_char 64 64.
Definition DECIMAL (s : string) : bool := truthy_string s && all_chars digit_char s.
Definition HEX (s : string) : bool := startsWith s "0x" && Nat.ltb 2 (String.length s) && all_chars hex_char (String.substring 2 (String.length s) s).

(** [None]: well-formed. *)
Definition validateChainAddress (chain : Chain) (addr : string) : option string :=
  match chain with
  | ethereum =>
      if negb (HEX_ADDRESS addr) then Some (addr +:+ " is not a valid Ethereum address")
      else if String.eqb (toLowerCase addr) ZERO_ADDRESS then Some "Zero address is not a valid Ethereum address" else None
  | stellar => if STELLAR_ADDRESS addr then None else Some (addr +:+ " is not a valid Stellar account")
  | solana => if SOLANA_ADDRESS addr then None else Some (addr +:+ " is not a valid Solana address")
  end.

Definition isSupportedAddress (addr : string) : bool :=
  (HEX_ADDRESS addr && negb (String.eqb (toLowerCase addr) ZERO_ADDRESS)) || STELLAR_ADDRESS addr || SOLANA_ADDRESS addr.

(** [orderIdSchema]: the trimmed text. *)
Definition orderIdSchema (id : string) : option string := let id := trim id in if truthy_string id && ORDER_ID_PATTERN id then Some id else None.

(** ** Schemas *)

(** A member that is a text with a property, a count
    ([z.coerce.number().int().nonnegative()]), or a text that may be missing. *)
Inductive Rule : Type := RText (test : string -> bool) | RCount | ROptional.
Inductive Value : Type := VText (s : string) | VCount (n : Z) | VNothing.

Definition accepts (r : Rule) (v : Value) : Prop :=
  match r, v with
  | RText test, VText s => test s = true
  | RCount, VCount n => 0 <= n
  | ROptional, VText _ | ROptional, VNothing => True
  | _, _ => False
  end.

Class Zod : Type := { zod_object : list (string * Rule) -> json -> option (string -> Value) }.
Class ZodLaws (Zo : Zod) : Prop := {
  zod_sound shape body f : zod_object shape body = Some f -> forall k r, (k, r) ∈ shape -> accepts r (f k)
}.

Definition one_of (l : list string) (s : string) : bool := bool_decide (s ∈ l).

Definition announceShape : list (string * Rule) :=
  [("direction", RText (one_of ["eth_to_xlm"; "xlm_to_eth"; "eth_to_sol"; "sol_to_eth"])); ("hashlock", RText HEX32);
   ("srcChain", RText (one_of ["ethereum"; "stellar"; "solana"])); ("srcAddress", RText (fun _ => true)); ("srcAsset", RText truthy_string);
   ("srcAmount", RText DECIMAL); ("srcSafetyDeposit", RText DECIMAL); ("dstChain", RText (one_of ["ethereum"; "stellar"; "solana"]));
   ("dstAddress", RText (fun _ => true)); ("dstAsset", RText truthy_string); ("dstAmount", RText DECIMAL)].
Definition lockSchema : list (string * Rule) :=
  [("orderId", RText truthy_string); ("txHash", RText truthy_string); ("blockNumber", RCount); ("timelock", RCount)].
Definition revealSchema : list (string * Rule) := [("publicId", RText truthy_string); ("preimage", RText HEX); ("txHash", RText truthy_string)].

Definition text (v : Value) : string := match v with VText s => s | _ => "" end.
Definition count (v : Value) : Z := match v with VCount n => n | _ => 0 end.
Definition optional (v : Value) : option string := match v with VText s => Some s | _ => None end.

Definition chain_of (s : string) : option Chain := List.find (fun c => String.eqb s (chain_str c)) [ethereum; stellar; solana].
Definition direction_of (s : string) : option Direction := List.find (fun d => String.eqb s (direction_str d)) [eth_to_xlm; xlm_to_eth; eth_to_sol; sol_to_eth].

Section Api.
Context {H : Hashes} {G : AesGcm} {Zo : Zod}.

(** [announceSchema.parse]: the shape, the route, the addresses. *)
Definition announceSchema (body : json) : option AnnounceOrderInput :=
  f ← zod_object announceShape body;
  let t k := text (f k) in
  match checkRoutePolicy (t "direction") (t "srcChain") (t "dstChain") with
  | Denial _ _ => None
  | Approval src dst =>
      d ← direction_of (t "direction");
      s ← chain_of (t "srcChain");
      e ← chain_of (t "dstChain");
      match validateChainAddress s (t "srcAddress"), validateChainAddress e (t "dstAddress") with
      | None, None =>
          Some (mkAnnounceOrderInput d (t "hashlock") s (t "srcAddress") (t "srcAsset") (t "srcAmount") (t "srcSafetyDeposit") e (t "dstAddress")
                  (t "dstAsset") (t "dstAmount"))
      | _, _ => None
      end
  end.

(** ** Answers *)

(** [isRefundable] of [serialiseOrder]. *)
Definition isRefundable (o : OrderRow) : bool :=
  bool_decide (o_status o ∈ [expired; src_locked; dst_locked]) || (bool_decide (o_status o = failed) && negb (bool_decide (o_srcLockTx o = None))).

(** The two legs of an order, and the order, as they are served; the request id and
    the time of the server are not kept. *)
Record LegView : Type := mkLegView {
  lv_chain : Chain; lv_address : string; lv_asset : string; lv_amount : string; lv_safetyDeposit : option string; lv_orderId : option string;
  lv_lockTx : option string; lv_lockBlock : option Z; lv_timelock : option Z
}.
Record OrderView : Type := mkOrderView {
  ov_id : string; ov_direction : Direction; ov_status : OrderStatus; ov_isRefundable : bool; ov_hashlock : string; ov_src : LegView; ov_dst : LegView;
  ov_revealed : bool; ov_preimage : option string; ov_revealedTx : option string; ov_resolver : option string; ov_createdAt : Z; ov_updatedAt : Z
}.
Definition serialiseOrder (o : OrderRow) : OrderView :=
  mkOrderView (o_publicId o) (o_direction o) (o_status o) (isRefundable o) (o_hashlock o)
    (mkLegView (o_srcChain o) (o_srcAddress o) (o_srcAsset o) (o_srcAmount o) (Some (o_srcSafetyDeposit o)) (o_srcOrderId o) (o_srcLockTx o)
       (o_srcLockBlock o) (o_srcTimelock o))
    (mkLegView (o_dstChain o) (o_dstAddress o) (o_dstAsset o) (o_dstAmount o) None (o_dstOrderId o) (o_dstLockTx o) (o_dstLockBlock o) (o_dstTimelock o))
    (negb (bool_decide (o_preimage o = None))) (o_preimage o) (o_secretRevealedTx o) (o_resolverAddress o) (o_createdAt o) (o_updatedAt o).

(** The issues of a validation error are not kept. *)
Inductive Body : Type :=
| OrderBody (v : OrderView) | OkBody | PreimageBody (publicId preimage : string) | ErrorBody (error message : string)
| ClassifiedBody (error message : string) (retryable : bool) | TooManyBody (retryAfterSeconds : Z).
Record Answer : Type := mkAnswer { an_status : Z; an_body : Body }.

Definition serialised (status : Z) (o : OrderRow) : Answer := mkAnswer status (OrderBody (serialiseOrder o)).
Definition validationError : Body := ErrorBody "validation_error" "Request validation failed".
Definition orderValidationError (m : string) : Body := ErrorBody "order_validation_error" m.
Definition conflictError (m : string) : Body := ClassifiedBody "order_conflict" m true.
Definition notFoundError (m : string) : Body := ErrorBody "not_found" m.
Definition notRevealedError : Body := ErrorBody "not_revealed" "Secret has not been revealed for this order".
Definition validation_error : Answer := mkAnswer 400 validationError.
Definition too_many (retryAfterSeconds : Z) : Answer := mkAnswer 429 (TooManyBody retryAfterSeconds).

(** The handler of last resort; the sanitised message is not kept. *)
Definition internal_error : Answer := mkAnswer 500 (ErrorBody "internal_error" "").

Definition announce_failed (e : JsError) : Answer :=
  match e with OrderValidationError m => mkAnswer 400 (orderValidationError m) | PlainError _ _ => internal_error end.
Definition lock_failed (e : JsError) : Answer :=
  match e with
  | OrderValidationError m =>
      if startsWith m "conflicting" then mkAnswer 409 (conflictError m) else mkAnswer 400 (orderValidationError m)
  | PlainError _ _ => internal_error
  end.
Definition reveal_failed (e : SecretError) : Answer :=
  match e with
  | UnknownOrderError m => mkAnswer 404 (ClassifiedBody "unknown_order" m false)
  | InvalidPreimageError m => mkAnswer 400 (ClassifiedBody "invalid_preimage" m false)
  | RevealConflictError m => mkAnswer 409 (ClassifiedBody "reveal_conflict" m false)
  | SecretStorageError m => mkAnswer 500 (ClassifiedBody "storage_failure" m true)
  | OtherError _ => internal_error
  end.

(** ** Routes *)

Record ApiConfig : Type := mkApiConfig {
  ac_service : Config; ac_secrets : SecretService; ac_apiKeys : list string; ac_trustedProxies : list string; ac_operatorKeys : list string
}.
Context (ac : ApiConfig).

Definition limiter (max : Z) (name : string) : RateLimitOptions := mkOptions 60000 max name (ac_apiKeys ac) (ac_trustedProxies ac).
Definition announceRateLimit : RateLimitOptions := limiter 20 "orders/announce".
Definition statusQueryRateLimit : RateLimitOptions := limiter 240 "orders/status".
Definition revealRateLimit : RateLimitOptions := limiter 5 "secrets/reveal".
Definition getSecretRateLimit : RateLimitOptions := limiter 30 "secrets/get".

(** The order service, the stores of the limiters by name, the abuse detector. *)
Record Api : Type := mkApi { ap_svc : State; ap_stores : list (string * Store); ap_abuse : AbuseDetector }.
Definition new_api : Api := mkApi init [] new_detector.
Definition set_svc (s : State) (a : Api) : Api := mkApi s (ap_stores a) (ap_abuse a).

(** A route behind a limiter. *)
Definition limited (o : RateLimitOptions) (now later : Z) (r : Request) (k : Api -> Answer * Api) (a : Api) : Answer * Api :=
  let '(d, (store, abuse)) := limit_request o 2 now later r (default [] (jm_get (rl_name o) (ap_stores a)), ap_abuse a) in
  let a := mkApi (ap_svc a) (jm_set (rl_name o) store (ap_stores a)) abuse in
  match d with Block n => (too_many n, a) | _ => k a end.

Definition for_operator (r : Request) (k : Api -> Answer * Api) (a : Api) : Answer * Api :=
  match requireRole (ac_operatorKeys ac) r with
  | Some 401 => (mkAnswer 401 (ErrorBody "unauthorized" "Missing or malformed authorization header"), a)
  | Some _ => (mkAnswer 403 (ErrorBody "forbidden" "Insufficient permissions or invalid operator key"), a)
  | None => k a
  end.

(** A call of the order service and the answer to its outcome. *)
Definition serve {A} (m : Svc A) (ok : A -> Answer) (failed : JsError -> Answer) (a : Api) : Answer * Api :=
  match m (ap_svc a) with (Ok x, s) => (ok x, set_svc s a) | (Throw e, s) => (failed e, set_svc s a) end.

Definition serve_secret {A} (m : ST State SecretError A) (ok : A -> Answer) (failed : SecretError -> Answer) (a : Api) : Answer * Api :=
  match m (ap_svc a) with (Ok x, s) => (ok x, set_svc s a) | (Throw e, s) => (failed e, set_svc s a) end.

Definition post_announce (now : Z) (body : json) (a : Api) : Answer * Api :=
  match announceSchema body with
  | None => (validation_error, a)
  | Some input => serve (Service.announce (ac_service ac) now input) (serialised 201) announce_failed a
  end.

Definition get_order (id : string) (a : Api) : Answer * Api :=
  match orderIdSchema id with
  | None => (validation_error, a)
  | Some id =>
      serve (Service.get id) (fun o => match o with Some o => serialised 200 o | None => mkAnswer 404 (notFoundError "Order not found") end)
        (fun _ => internal_error) a
  end.

Definition post_src_locked (now : Z) (id : string) (body : json) (a : Api) : Answer * Api :=
  match orderIdSchema id with
  | None => (validation_error, a)
  | Some id =>
      match zod_object lockSchema body with
      | None => (validation_error, a)
      | Some f =>
          serve (Service.recordSrcLock (ac_service ac) now
                   (mkLockInput id (text (f "orderId")) (text (f "txHash")) (count (f "blockNumber")) (count (f "timelock")) None (Some "operator_http")))
            (fun _ => mkAnswer 200 OkBody) lock_failed a
      end
  end.

Definition post_dst_locked (now : Z) (id : string) (body : json) (a : Api) : Answer * Api :=
  match orderIdSchema id with
  | None => (validation_error, a)
  | Some id =>
      match zod_object (lockSchema ++ [("resolver", ROptional)]) body with
      | None => (validation_error, a)
      | Some f =>
          serve (Service.recordDstLock (ac_service ac) now
                   (mkLockInput id (text (f "orderId")) (text (f "txHash")) (count (f "blockNumber")) (count (f "timelock")) (optional (f "resolver")) (Some "operator_http")))
            (fun _ => mkAnswer 200 OkBody) lock_failed a
      end
  end.

Definition post_reveal (now : Z) (body : json) (iv : bytes) (a : Api) : Answer * Api :=
  match zod_object revealSchema body with
  | None => (validation_error, a)
  | Some f =>
      serve_secret (reveal (ac_service ac) (ac_secrets ac) now (text (f "publicId")) (text (f "preimage")) (text (f "txHash")) iv)
        (fun _ => mkAnswer 200 OkBody) reveal_failed a
  end.

Definition get_secret_route (now : Z) (publicId : string) (iv : bytes) (a : Api) : Answer * Api :=
  serve_secret (get_secret (ac_service ac) (ac_secrets ac) now publicId iv)
    (fun p => match p with
              | Some pre => if truthy_string pre then mkAnswer 200 (PreimageBody publicId pre) else mkAnswer 404 notRevealedError
              | None => mkAnswer 404 notRevealedError
              end) (fun _ => internal_error) a.

Inductive Route : Type :=
| PostAnnounce (body : json) | GetOrder (id : string) | PostSrcLocked (id : string) (body : json) | PostDstLocked (id : string) (body : json)
| PostReveal (body : json) (iv : bytes) | GetSecret (publicId : string) (iv : bytes).

(** A request: the readings of the clock, who asks, and what for. *)
Record Http : Type := mkHttp { ht_now : Z; ht_later : Z; ht_request : Request; ht_route : Route }.

Definition handle (h : Http) (a : Api) : Answer * Api :=
  let '(mkHttp now later r c) := h in
  match c with
  | PostAnnounce body => limited announceRateLimit now later r (post_announce later body) a
  | GetOrder id => limited statusQueryRateLimit now later r (get_order id) a
  | PostSrcLocked id body => for_operator r (post_src_locked later id body) a
  | PostDstLocked id body => for_operator r (post_dst_locked later id body) a
  | PostReveal body iv => limited revealRateLimit now later r (post_reveal later body iv) a
  | GetSecret publicId iv => limited getSecretRateLimit now later r (get_secret_route later publicId iv) a
  end.

Fixpoint serve_all (hs : list Http) (a : Api) : list Answer * Api :=
  match hs with
  | [] => ([], a)
  | h :: rest => let '(x, a) := handle h a in let '(xs, a) := serve_all rest a in (x :: xs, a)
  end.
End Api.

(** ** What reaches the order service *)

(** The chains of a direction. *)
Definition chains_of (d : Direction) : Chain * Chain :=
  match d with eth_to_xlm => (ethereum, stellar) | xlm_to_eth => (stellar, ethereum) | eth_to_sol => (ethereum, solana) | sol_to_eth => (solana, ethereum) end.

Record valid_input (i : AnnounceOrderInput) : Prop := mkValidInput {
  vi_route : chains_of (a_direction i) = (a_srcChain i, a_dstChain i);
  vi_hashlock : HEX32 (a_hashlock i) = true;
  vi_src : validateChainAddress (a_srcChain i) (a_srcAddress i) = None;
  vi_dst : validateChainAddress (a_dstChain i) (a_dstAddress i) = None;
  vi_assets : truthy_string (a_srcAsset i) = true /\ truthy_string (a_dstAsset i) = true;
  vi_amounts : DECIMAL (a_srcAmount i) = true /\ DECIMAL (a_srcSafetyDeposit i) = true /\ DECIMAL (a_dstAmount i) = true
}.

Record valid_lock (i : LockInput) : Prop := mkValidLock {
  vl_id : ORDER_ID_PATTERN (l_publicId i) = true;
  vl_texts : truthy_string (l_orderId i) = true /\ truthy_string (l_txHash i) = true;
  vl_numbers : 0 <= l_blockNumber i /\ 0 <= l_timelock i;
  vl_actor : l_actor i = Some "operator_http"
}.

(** The row keeps the facts that were checked. *)
Definition valid_row (r : OrderDbRow) : Prop :=
  chains_of (direction r) = (src_chain r, dst_chain r) /\ HEX32 (hashlock r) = true /\
  validateChainAddress (src_chain r) (src_address r) = None /\ validateChainAddress (dst_chain r) (dst_address r) = None.

Lemma text_accepted shape body f k test {Zo : Zod} {L : ZodLaws Zo} :
  zod_object shape body = Some f -> (k, RText test) ∈ shape -> test (text (f k)) = true.
Proof. intros Hz Hin. pose proof (zod_sound shape body f Hz k _ Hin) as H. by destruct (f k). Qed.

Lemma count_accepted shape body f k {Zo : Zod} {L : ZodLaws Zo} : zod_object shape body = Some f -> (k, RCount) ∈ shape -> 0 <= count (f k).
Proof. intros Hz Hin. pose proof (zod_sound shape body f Hz k _ Hin) as H. by destruct (f k). Qed.

Lemma chain_of_str s c : chain_of s = Some c -> s = chain_str c.
Proof. intros [_ H]%find_some. by apply String.eqb_eq in H. Qed.
Lemma direction_of_str s d : direction_of s = Some d -> s = direction_str d.
Proof. intros [_ H]%find_some. by apply String.eqb_eq in H. Qed.

(** The route policy admits exactly the routes of the table. *)
Lemma route_approved d src dst : (exists x y, checkRoutePolicy (direction_str d) (chain_str src) (chain_str dst) = Approval x y) <-> chains_of d = (src, dst).
Proof. split; [intros (x & y & E)|intros E; exists src, dst]; by destruct d, src, dst. Qed.

Lemma announceSchema_valid body i {Zo : Zod} {L : ZodLaws Zo} : announceSchema body = Some i -> valid_input i.
Proof.
  unfold announceSchema. intros (f & Hz & E)%bind_Some. cbv zeta in E. destruct (checkRoutePolicy _ _ _) as [x y|] eqn:Hr; [|done].
  apply bind_Some in E as (d & Hd%direction_of_str & E). apply bind_Some in E as (s & Hs%chain_of_str & E). apply bind_Some in E as (e & He%chain_of_str & E).
  destruct (validateChainAddress s _) eqn:V1; [done|]. destruct (validateChainAddress e _) eqn:V2; [done|]. injection E as <-.
  rewrite Hd, Hs, He in Hr. assert (forall k test, (k, RText test) ∈ announceShape -> test (text (f k)) = true) as Ht by (intros; by eapply text_accepted).
  split; cbn; [apply route_approved; by exists x, y|..|split|split_and!]; try done; eapply (Ht _ _); unfold announceShape; repeat (first [left|right]).
Qed.

(** ** Rows *)

Lemma write_rows now publicId o f kind pl d r' :
  wf_db d -> row_of publicId d = Some o -> same_ids o (f o) -> r' ∈ orders (write now publicId o f kind pl d) -> exists r, r ∈ orders d /\ same_ids r r'.
Proof.
  intros Hwf Ho Hid Hr. unfold write in Hr. cbn in Hr. apply elem_of_sql_update in Hr as (r & Hr & ->). exists r. split; [done|].
  destruct (by_public_id publicId r) eqn:E; [|done]. assert (r = o) as -> by (eapply not_by_other; [apply Hwf|done..]). done.
Qed.

Lemma bump_rows now publicId chain block d r' : r' ∈ orders (bump_cursor now publicId chain block d) -> exists r, r ∈ orders d /\ same_ids r r'.
Proof.
  unfold bump_cursor. destruct (0 <? block); [|intros Hr; by exists r']. cbn. intros Hr. apply elem_of_sql_update in Hr as (r & Hr & ->).
  exists r. split; [done|]. case_match; [by destruct chain|done].
Qed.

(** The calls of the interface change no more of a row than its progress, and only
    an announcement inserts one. *)
Section Rows.
Context (cfg : Config) (now : Z) (s : State) (Hwf : wf_db (db s)).
Notation from_old s' := (forall r', r' ∈ orders (db s') -> exists r, r ∈ orders (db s) /\ same_ids r r').

Lemma old_rows r' : r' ∈ orders (db s) -> exists r, r ∈ orders (db s) /\ same_ids r r'.
Proof. intros Hr. by exists r'. Qed.

Lemma src_lock_rows i : from_old (Service.recordSrcLock cfg now i s).2.
Proof.
  rewrite (recordSrcLock_service cfg now s (l_publicId i) Hwf i eq_refl).
  destruct (row_of (l_publicId i) (db s)) as [o|] eqn:Ho; [|apply old_rows]. destruct (is_dup_src o i); [apply old_rows|]. case_match eqn:Hc; [|apply old_rows]. bools.
  pose proof (recordSrcLock_eq now (db s) _ o (wf_public _ Hwf) Ho i eq_refl) as Hw. cbv zeta in Hw.
  rewrite (lifecycle_not_terminal _ _ H0), (nextLockStatus_accepts _ _ H0) in Hw. intros r' Hr'. cbn in Hr'. rewrite Hw in Hr'.
  apply bump_rows in Hr' as (r1 & Hr1 & H1). apply write_rows in Hr1 as (r & Hr & H2); [|done..]. exists r. split; [done|by eapply same_ids_trans].
Qed.

Lemma dst_lock_rows i : from_old (Service.recordDstLock cfg now i s).2.
Proof.
  rewrite (recordDstLock_service cfg now s (l_publicId i) Hwf i eq_refl).
  destruct (row_of (l_publicId i) (db s)) as [o|] eqn:Ho; [|apply old_rows]. destruct (is_dup_dst o i); [apply old_rows|]. case_match eqn:Hc; [|apply old_rows]. bools.
  pose proof (recordDstLock_eq now (db s) _ o (wf_public _ Hwf) Ho i eq_refl) as Hw. cbv zeta in Hw.
  rewrite (lifecycle_not_terminal _ _ H0), (nextLockStatus_accepts _ _ H0) in Hw. intros r' Hr'. cbn in Hr'. rewrite Hw in Hr'.
  apply bump_rows in Hr' as (r1 & Hr1 & H1). apply write_rows in Hr1 as (r & Hr & H2); [|done..]. exists r. split; [done|by eapply same_ids_trans].
Qed.

Lemma secret_rows publicId pre txHash enc actor : from_old (Service.recordSecret cfg now publicId pre txHash enc actor s).2.
Proof.
  rewrite (recordSecret_service cfg now s publicId Hwf). destruct (row_of publicId (db s)) as [o|] eqn:Ho; [|apply old_rows].
  destruct (bool_decide (preimage o = Some pre)) eqn:Hd; [apply old_rows|]. case_match eqn:Hc; [|apply old_rows]. bools.
  rewrite (recordSecretRevealed_eq now (db s) _ o (wf_public _ Hwf) Ho).
  rewrite (lifecycle_not_terminal _ _ H0), bool_decide_false by done. intros r' Hr'. apply write_rows in Hr'; done.
Qed.

Lemma announce_rows input r' :
  r' ∈ orders (db (Service.announce cfg now input s).2) -> (exists r, r ∈ orders (db s) /\ same_ids r r') \/ exists i p n, r' = insertRow i p input n.
Proof.
  unfold Service.announce. st_unfold. rewrite repo_eq. cbn. rewrite with_db_same.
  destruct (sql_get _ _) eqn:Hh; [intros Hr; left; by exists r'|]. cbn. rewrite repo_eq. unfold OrdersRepo.announce.
  destruct (orderIdFromHashlock (a_hashlock input)) as [publicId|e]; [|cbn; intros Hr; left; by exists r'].
  destruct (sql_get (by_public_id publicId) (orders (db s))) eqn:Hn; [cbn; intros Hr; left; by exists r'|].
  cbn. rewrite sql_get_app, Hn. cbn. unfold by_public_id. rewrite bool_decide_true by done. unfold audit.
  intros Hr. assert (r' ∈ orders (db s) ++ [insertRow (next_order_id (db s)) publicId input (seconds now)]) as [H|H%list_elem_of_singleton]%elem_of_app;
    [by destruct (hasAuditRepo cfg)|left; by exists r'|]. right. eauto.
Qed.

(** A refused announcement changes nothing. *)
Lemma announce_refused input e : (Service.announce cfg now input s).1 = Throw e -> (Service.announce cfg now input s).2 = s.
Proof.
  unfold Service.announce. st_unfold. rewrite repo_eq. cbn. rewrite with_db_same.
  destruct (sql_get _ _) eqn:Hh; [done|]. cbn. rewrite repo_eq. unfold OrdersRepo.announce.
  destruct (orderIdFromHashlock (a_hashlock input)) as [publicId|e']; [|cbn; by rewrite with_db_same].
  destruct (sql_get (by_public_id publicId) (orders (db s))) eqn:Hn; [cbn; by rewrite with_db_same|].
  cbn. rewrite sql_get_app, Hn. cbn. unfold by_public_id. rewrite bool_decide_true by done. unfold audit. by destruct (hasAuditRepo cfg).
Qed.

Lemma src_lock_refused i e : (Service.recordSrcLock cfg now i s).1 = Throw e -> (Service.recordSrcLock cfg now i s).2 = s.
Proof. rewrite (recordSrcLock_service cfg now s (l_publicId i) Hwf i eq_refl). by repeat case_match. Qed.
Lemma dst_lock_refused i e : (Service.recordDstLock cfg now i s).1 = Throw e -> (Service.recordDstLock cfg now i s).2 = s.
Proof. rewrite (recordDstLock_service cfg now s (l_publicId i) Hwf i eq_refl). by repeat case_match. Qed.
Lemma secret_refused publicId pre txHash enc actor e :
  (Service.recordSecret cfg now publicId pre txHash enc actor s).1 = Throw e -> (Service.recordSecret cfg now publicId pre txHash enc actor s).2 = s.
Proof. rewrite (recordSecret_service cfg now s publicId Hwf). by repeat case_match. Qed.
End Rows.

(** ** Requests *)

Section Requests.
Context {H : Hashes} {G : AesGcm} {Zo : Zod} {L : ZodLaws Zo} (ac : ApiConfig).
Notation cfg := (ac_service ac).

(** The call of the order service that a request may make in a state: with what its
    body says, and for a reveal the stored form of a preimage that hashes to the
    hashlock of the order as it is in that state. *)
Definition does (h : Http) (s : State) (c : Call) : Prop :=
  match ht_route h, c with
  | PostAnnounce body, CAnnounce i => announceSchema body = Some i /\ valid_input i
  | PostSrcLocked id _, CSrcLock i | PostDstLocked id _, CDstLock i =>
      orderIdSchema id = Some (l_publicId i) /\ valid_lock i /\ requireRole (ac_operatorKeys ac) (ht_request h) = None
  | PostReveal body iv, CSecret p v _ _ _ =>
      exists f o, zod_object revealSchema body = Some f /\ p = text (f "publicId") /\ row_of p (db s) = Some o /\
        matchesHashlock (text (f "preimage")) (hashlock o) = true /\ stored_value (ac_secrets ac) (text (f "preimage")) iv = Ok v
  | _, _ => False
  end.

(** Requests one after another: each makes no call or one, in the state it finds. *)
Inductive served : list Http -> State -> State -> Prop :=
| served_nil s : served [] s s
| served_none h hs s s' : served hs s s' -> served (h :: hs) s s'
| served_call h hs s s' c : does h s c -> served hs (run1 cfg (ht_later h) c s) s' -> served (h :: hs) s s'.

(** What a request may have done. *)
Definition effect (h : Http) (s : State) (r : Answer * Api) : Prop :=
  (ap_svc r.2 = s \/ exists c, does h s c /\ ap_svc r.2 = run1 cfg (ht_later h) c s) /\ (400 <= an_status r.1 -> ap_svc r.2 = s).

Lemma effect_none h s x a : ap_svc a = s -> effect h s (x, a).
Proof. intros E. split; [by left|done]. Qed.

Lemma limited_effect h o now later r k a :
  (forall a', ap_svc a' = ap_svc a -> effect h (ap_svc a) (k a')) -> effect h (ap_svc a) (limited o now later r k a).
Proof.
  intros Hk. unfold limited. destruct (limit_request _ _ _ _ _ _) as [d [store abuse]]. destruct d; [by apply Hk..|]. by apply effect_none.
Qed.

Lemma operator_effect h k a :
  (requireRole (ac_operatorKeys ac) (ht_request h) = None -> effect h (ap_svc a) (k a)) -> effect h (ap_svc a) (for_operator ac (ht_request h) k a).
Proof.
  intros Hk. unfold for_operator. destruct (requireRole _ _) as [n|]; [|by apply Hk]. repeat case_match; by apply effect_none.
Qed.

(** A service call behind a route. *)
Lemma serve_effect {A} h c (m : Svc A) ok failed a s :
  ap_svc a = s -> does h s c -> run1 cfg (ht_later h) c s = (m s).2 -> (forall e, (m s).1 = Throw e -> (m s).2 = s) ->
  (forall x, an_status (ok x) < 400) -> effect h s (serve m ok failed a).
Proof.
  intros Ha Hd Hr Hf Hok. unfold serve, effect. rewrite Ha. destruct (m s) as [[x|e] s'] eqn:E; cbn [fst snd] in *.
  - split; [right; by exists c|]. cbn. specialize (Hok x). lia.
  - rewrite (Hf e eq_refl). cbn. split; [by left|done].
Qed.

Lemma orderId_ok id t : orderIdSchema id = Some t -> ORDER_ID_PATTERN t = true.
Proof. unfold orderIdSchema. destruct (_ && _) eqn:E; [|done]. intros [= <-]. by apply andb_true_iff in E as [_ E]. Qed.

Lemma lock_ok f id t body shape resolver :
  orderIdSchema id = Some t -> zod_object shape body = Some f -> (forall e, e ∈ lockSchema -> e ∈ shape) ->
  valid_lock (mkLockInput t (text (f "orderId")) (text (f "txHash")) (count (f "blockNumber")) (count (f "timelock")) resolver (Some "operator_http")).
Proof.
  intros Hid Hz Hsub. split; cbn; [by eapply orderId_ok|split|split|done].
  1,2: apply (text_accepted shape body f _ truthy_string Hz), Hsub; unfold lockSchema; repeat (first [left|right]).
  all: apply (count_accepted shape body f _ Hz), Hsub; unfold lockSchema; repeat (first [left|right]).
Qed.

Lemma reveal_effect h body iv a s :
  wf_db (db s) -> ap_svc a = s -> ht_route h = PostReveal body iv -> effect h s (post_reveal ac (ht_later h) body iv a).
Proof.
  intros Hwf Ha Hh. unfold post_reveal. destruct (zod_object revealSchema body) as [f|] eqn:Hz; [|by apply effect_none].
  unfold serve_secret, effect. rewrite Ha, reveal_eq. set (p := text (f "publicId")). set (pre := text (f "preimage")).
  destruct (row_of p (db s)) as [o|] eqn:Ho; [|by split; [left|]]. destruct (matchesHashlock pre (hashlock o)) eqn:Hm; cbn [negb]; [|by split; [left|]].
  destruct (stored_value (ac_secrets ac) pre iv) as [v|e] eqn:Hv; [|by split; [left|]].
  set (enc := match writeKey (ac_secrets ac) with Some _ => _ | None => _ end).
  pose proof (secret_refused cfg (ht_later h) s Hwf p v (text (f "txHash")) enc None) as Hf.
  destruct (Service.recordSecret cfg (ht_later h) p v (text (f "txHash")) enc None s) as [[[]|e] s'] eqn:E; cbn [fst snd] in *.
  - split; [|cbn; lia]. right. exists (CSecret p v (text (f "txHash")) enc None). cbn [run1]. rewrite E. split; [|done]. unfold does. rewrite Hh. by exists f, o.
  - rewrite (Hf e eq_refl). by split; [left|].
Qed.

Lemma handle_effect h a : wf_db (db (ap_svc a)) -> effect h (ap_svc a) (handle ac h a).
Proof.
  intros Hwf. destruct h as [now later r c] eqn:Eh. set (h' := mkHttp now later r c). destruct c as [body|id|id body|id body|body iv|id iv]; cbn [handle].
  - apply limited_effect. intros a' Ha. unfold post_announce. destruct (announceSchema body) as [i|] eqn:E; [|by apply effect_none].
    apply (serve_effect h' (CAnnounce i)); [done|split; [done|exact (announceSchema_valid body i E)]|done|intros e; apply announce_refused|by intros x].
  - apply limited_effect. intros a' Ha. unfold get_order. destruct (orderIdSchema id) as [t|]; [|by apply effect_none]. unfold serve, Service.get.
    rewrite find_eq. by apply effect_none.
  - apply (operator_effect h'). intros Hop. unfold post_src_locked. destruct (orderIdSchema id) as [t|] eqn:Hid; [|by apply effect_none].
    destruct (zod_object lockSchema body) as [f|] eqn:Hz; [|by apply effect_none].
    match goal with |- context [Service.recordSrcLock _ _ ?i] => apply (serve_effect h' (CSrcLock i)) end;
      [done|split; [done|split; [by eapply lock_ok|done]]|done|intros e; by apply src_lock_refused|by intros x].
  - apply (operator_effect h'). intros Hop. unfold post_dst_locked. destruct (orderIdSchema id) as [t|] eqn:Hid; [|by apply effect_none].
    destruct (zod_object (lockSchema ++ _) body) as [f|] eqn:Hz; [|by apply effect_none].
    match goal with |- context [Service.recordDstLock _ _ ?i] => apply (serve_effect h' (CDstLock i)) end;
      [done|split; [done|split; [eapply lock_ok; [done..|]; intros e He; apply elem_of_app; by left|done]]|done|intros e; by apply dst_lock_refused|by intros x].
  - apply limited_effect. intros a' Ha. by apply (reveal_effect h').
  - apply limited_effect. intros a' Ha. unfold get_secret_route, serve_secret. rewrite Ha.
    pose proof (get_secret_pure cfg (ac_secrets ac) later id iv (ap_svc a) Hwf) as Hp. destruct (get_secret _ _ _ _ _ _) as [[p|e] s']; cbn in Hp; subst s'; by apply effect_none.
Qed.

Lemma does_rows h s c now r' :
  wf_db (db s) -> does h s c -> Forall valid_row (orders (db s)) -> r' ∈ orders (db (run1 cfg now c s)) -> valid_row r'.
Proof.
  intros Hwf Hd Hv Hr. assert ((exists r, r ∈ orders (db s) /\ same_ids r r') -> valid_row r') as Hold.
  { intros (r & Hin & (_ & _ & E1 & E2 & E3 & E4 & E5 & E6 & _)). unfold valid_row. rewrite E1, E2, E3, E4, E5, E6. by apply (proj1 (Forall_forall _ _) Hv). }
  unfold does in Hd. destruct (ht_route h), c; try done; cbn [run1] in Hr.
  - apply announce_rows in Hr as [Hr|(i & p & n & ->)]; [by apply Hold|]. by destruct Hd as [_ [V1 V2 V3 V4 _ _]].
  - apply Hold. by eapply src_lock_rows.
  - apply Hold. by eapply dst_lock_rows.
  - apply Hold. by eapply secret_rows.
Qed.

Lemma run1_wf now c s : wf_db (db s) -> wf_db (db (run1 cfg now c s)).
Proof. intros Hwf. apply (run_wf cfg [(now, c)] s Hwf). Qed.

Lemma serve_all_steps hs a :
  wf_db (db (ap_svc a)) -> Forall valid_row (orders (db (ap_svc a))) ->
  let a' := (serve_all ac hs a).2 in
  served hs (ap_svc a) (ap_svc a') /\ wf_db (db (ap_svc a')) /\ Forall valid_row (orders (db (ap_svc a'))).
Proof.
  revert a. induction hs as [|h hs IH]; intros a Hwf Hv; [split; [constructor|done]|]. cbn [serve_all].
  destruct (handle_effect h a Hwf) as [He _]. destruct (handle ac h a) as [x a1]. cbn [fst snd] in He.
  assert (wf_db (db (ap_svc a1)) /\ Forall valid_row (orders (db (ap_svc a1)))) as [Hwf1 Hv1].
  { destruct He as [->|(c & Hd & ->)]; [done|]. split; [by apply run1_wf|]. apply Forall_forall. intros r' Hr'. by eapply does_rows. }
  specialize (IH a1 Hwf1 Hv1). destruct (serve_all ac hs a1) as [xs a2]. cbn [snd] in *. destruct IH as [Hs IH]. split; [|done].
  destruct He as [He|(c & Hd & He)]; rewrite He in Hs; [by apply served_none|by eapply served_call].
Qed.

(** C2.  The interface refines the order service.  For every sequence of requests,
    from whomever and with whatever bodies, the order service goes through at most
    one call per request, in their order, each made in the state the requests
    before left: an announcement of the order its body describes, well-formed and on
    a route of the table; a lock of the order it names, with well-formed data, by a
    holder of an operator key; or the preimage of its body, stored as the keys
    demand, which hashes to the hashlock that the named order has in that state.
    Every order in the database is on a route of the table, with addresses that are
    well-formed on their chains; and a request that is answered with an error has
    changed nothing of the order service. *)
Theorem api_refines_service (hs : list Http) :
  let a := (serve_all ac hs new_api).2 in
  served hs init (ap_svc a) /\ Forall valid_row (orders (db (ap_svc a))) /\
  (forall h, 400 <= an_status (handle ac h a).1 -> ap_svc (handle ac h a).2 = ap_svc a).
Proof.
  intros a. destruct (serve_all_steps hs new_api wf_emptyDb (List.Forall_nil _)) as (Hs & Hwf & Hv). split_and!; [done|done|].
  intros h. by apply handle_effect.
Qed.
End Requests.

(** ** Runs *)

(** A reader of bodies that does what the schemas say. *)
Definition read_value (k : string) (body : json) : Value :=
  match Json.member k body with Some (JString s) => VText s | Some (JNumber (Dyadic m 0)) => VCount m | _ => VNothing end.
Definition accepted (r : Rule) (v : Value) : bool :=
  match r, v with RText test, VText s => test s | RCount, VCount n => 0 <=? n | ROptional, VText _ | ROptional, VNothing => true | _, _ => false end.
Definition plain_zod : Zod := {|
  zod_object shape body := if forallb (fun '(k, r) => accepted r (read_value k body)) shape then Some (fun k => read_value k body) else None
|}.

Lemma plain_zod_laws : ZodLaws plain_zod.
Proof.
  split. intros shape body f E k r Hin. cbn in E. destruct (forallb _ shape) eqn:Hall; [|done]. injection E as <-.
  pose proof (proj1 (forallb_forall _ _) Hall (k, r) (proj1 (list_elem_of_In _ _) Hin)) as Hr. cbn in Hr.
  destruct r, (read_value k body); try done. by apply Z.leb_le in Hr.
Qed.

Definition stellar_account : string := "GAAAAAAAAAAAAAAAAAAAAAAAAAAAAAAAAAAAAAAAAAAAAAAAAAAAAAAA".
Definition ethereum_account : string := "0x00000000000000000000000000000000000000aB".
Definition order_body (direction hashlock : string) : json :=
  JObject [("direction", JString direction); ("hashlock", JString hashlock); ("srcChain", JString "ethereum"); ("srcAddress", JString ethereum_account);
           ("srcAsset", JString "native"); ("srcAmount", JString "100"); ("srcSafetyDeposit", JString "1"); ("dstChain", JString "stellar");
           ("dstAddress", JString stellar_account); ("dstAsset", JString "native"); ("dstAmount", JString "200")].
Definition lock_body : json := JObject [("orderId", JString "7"); ("txHash", JString "0xt1"); ("blockNumber", JNumber (Dyadic 100 0)); ("timelock", JNumber (Dyadic 90 0))].
Definition asking (token : option string) (t : Z) (r : Route) : Http := mkHttp t t (mkRequest (Some "1.2.3.4") None (String.append "Bearer " <$> token)) r.
Definition demo_api : ApiConfig := mkApiConfig demo_cfg (mkSecretService []) [] [] ["operator"].
Definition statuses (hs : list Http) : list Z := an_status <$> (serve_all (H := toy_hashes) (G := toy_gcm) (Zo := plain_zod) demo_api hs new_api).1.

Lemma api_refines_service_witness :
  let hs := [asking None 1000 (PostAnnounce (order_body "eth_to_xlm" demo_hashlock)); asking (Some "operator") 2000 (PostSrcLocked demo_id lock_body)] in
  let a := (serve_all (H := toy_hashes) (G := toy_gcm) (Zo := plain_zod) demo_api hs new_api).2 in
  statuses hs = [201; 200] /\ Forall valid_row (orders (db (ap_svc a))) /\ (status <$> orders (db (ap_svc a))) = [src_locked].
Proof.
  intros hs a. split; [vm_compute; reflexivity|]. split; [|vm_compute; reflexivity].
  destruct (api_refines_service (H := toy_hashes) (G := toy_gcm) (L := plain_zod_laws) demo_api hs) as [_ [Hv _]]. exact Hv.
Defined.

(** Each kind of refusal. *)
Example refusals :
  statuses [asking None 1 (PostSrcLocked demo_id lock_body); asking (Some "guess") 2 (PostSrcLocked demo_id lock_body);
            asking (Some "operator") 3 (PostSrcLocked demo_id lock_body); asking (Some "operator") 4 (PostSrcLocked "wf_1" lock_body);
            asking None 5 (PostAnnounce (order_body "xlm_to_eth" demo_hashlock)); asking None 6 (GetOrder demo_id); asking None 7 (GetSecret demo_id [])] =
  [401; 403; 400; 400; 400; 404; 404].
Proof. vm_compute. done. Qed.

(** Solana routes are documented to be blocked; the table of placeholders is empty. *)
Example solana_not_blocked : checkRoutePolicy "eth_to_sol" "ethereum" "solana" = Approval ethereum solana /\ listBlockedRoutes = [].
Proof. vm_compute. done. Qed.

(** A direction that is only inherited counts as live. *)
Example inherited_direction_live :
  isLiveDirection (Some "toString") = true /\ checkRoutePolicy "toString" "ethereum" "stellar" = Denial CHAIN_MISMATCH "srcChain".
Proof. vm_compute. done. Qed.

(** Both digests are printed in lower case and compared exactly, so an order whose
    hashlock was announced with an upper-case digit can never be revealed. *)
Lemma upper_case_unrevealable {H : Hashes} (pre lock : string) :
  (forall b, toLowerCase (sha256Hex b) = sha256Hex b /\ toLowerCase (keccak256Hex b) = keccak256Hex b) ->
  toLowerCase lock <> lock -> matchesHashlock pre lock = false.
Proof.
  intros Hl Hup. destruct (Hl (bufferFromHex pre)) as [H1 H2]. unfold matchesHashlock.
  rewrite !bool_decide_false; [done|intros <-; by apply Hup..].
Qed.

(** Such an announcement is accepted, and the reveal of its preimage is answered with 400. *)
Definition lower_hashes : Hashes := {| sha256_digest b := toLowerCase (string_of b); keccak256_hex b := "" |}.
Definition upper_hashlock : string := "0x00112233445566778899AABBCCDDEEFF00112233445566778899aabbccddeeff".
Example upper_case_stuck :
  let reveal_body := JObject [("publicId", JString demo_id); ("preimage", JString demo_pre); ("txHash", JString "0xt2")] in
  let session lock := an_status <$> (serve_all (H := lower_hashes) (G := toy_gcm) (Zo := plain_zod) demo_api
    [asking None 1000 (PostAnnounce (order_body "eth_to_xlm" lock)); asking (Some "operator") 2000 (PostSrcLocked demo_id lock_body);
     asking None 3000 (PostReveal reveal_body [])] new_api).1 in
  session demo_hashlock = [201; 200; 200] /\ session upper_hashlock = [201; 200; 400].
Proof. vm_compute. done. Qed.
