(* ===== verification/OrderExport.v ===== *)
(** * Order exports

    coordinator/src/services/order-export.ts and server/routes/export.ts: the
    lifecycle of an order - its row and its audit entries without secrets - as a
    record or as a line of a CSV file.  Orders are read in one state of their table,
    the entries of each in any state of the audit log.  The payload of an audit
    entry is the value its text denotes, an object; what zod makes of a request is
    an input; bounds are whole seconds. *)

From Stdlib Require Import Ascii.
From S2P Require Import Prelude Text JsMap Json OrderMachine TransactionContract OrderRow OrdersRepo OrdersRepoFacts.
From S2P Require Import OrdersRepoSpec HistoryCache Notifications OrderService OrderServiceFacts.
From S2P Require Import OrderServiceSpec CacheCoherence Pagination AuditLog AuditTrail RateLimit.

(** ** Lifecycles *)

(** [/preimage|secret/i.test(key)]. *)
Definition names_secret (key : string) : bool := includes (toLowerCase key) "preimage" || includes (toLowerCase key) "secret".

Fixpoint omitPreimages (v : json) : json :=
  match v with
  | JArray items => JArray (map omitPreimages items)
  | JObject members => JObject (flat_map (fun '(k, x) => if names_secret k then [] else [(k, omitPreimages x)]) members)
  | _ => v
  end.

Record OrderLifecycleEvent : Type := mkEvent { le_type : string; le_timestamp : Z; le_payload : json; le_requestId : option string }.

Record ExportLeg : Type := mkLeg {
  xl_chain : Chain; xl_address : string; xl_asset : string; xl_amount : string; xl_safetyDeposit : option string; xl_orderId : option string;
  xl_lockTx : option string; xl_lockBlock : option Z; xl_timelock : option Z; xl_resolver : option string
}.

(** [secret.preimage] is always null and left out. *)
Record OrderLifecycleExport : Type := mkLifecycle {
  lc_orderId : string; lc_status : OrderStatus; lc_direction : Direction; lc_hashlock : string; lc_src : ExportLeg; lc_dst : ExportLeg;
  lc_revealed : bool; lc_revealedTx : option string; lc_createdAt : Z; lc_updatedAt : Z; lc_archivedAt : option Z; lc_events : list OrderLifecycleEvent
}.

Definition lifecycle_event (e : AuditEntry) : OrderLifecycleEvent :=
  mkEvent (en_eventType e) (en_createdAt e) (omitPreimages (en_payload e)) (en_requestId e).
Definition buildLifecycleEvents (orderId : string) (a : AuditDb) : list OrderLifecycleEvent := lifecycle_event <$> forOrder orderId a.

Definition buildExport (o : OrderRow) (events : list OrderLifecycleEvent) : OrderLifecycleExport :=
  mkLifecycle (o_publicId o) (o_status o) (o_direction o) (o_hashlock o)
    (mkLeg (o_srcChain o) (o_srcAddress o) (o_srcAsset o) (o_srcAmount o) (Some (o_srcSafetyDeposit o)) (o_srcOrderId o) (o_srcLockTx o) (o_srcLockBlock o)
       (o_srcTimelock o) None)
    (mkLeg (o_dstChain o) (o_dstAddress o) (o_dstAsset o) (o_dstAmount o) None (o_dstOrderId o) (o_dstLockTx o) (o_dstLockBlock o) (o_dstTimelock o)
       (o_resolverAddress o))
    (negb (bool_decide (o_preimage o = None))) (o_secretRevealedTx o) (o_createdAt o) (o_updatedAt o) (o_archivedAt o) events.

Definition read {A} (m : Repo A) (d : Db) : option A := match (m d).1 with Ok x => Some x | Throw _ => None end.
Definition find_order (orderId : string) (d : Db) : option OrderRow := default None (read (findByPublicId orderId) d).

Definition exportOrder (orderId : string) (d : Db) (a : AuditDb) : option OrderLifecycleExport :=
  match find_order orderId d with Some o => Some (buildExport o (buildLifecycleEvents orderId a)) | None => None end.

(** ** Filters *)

Record OrderExportFilters : Type := mkFilters {
  xf_orderId : option string; xf_orderIds : option (list string); xf_status : option OrderStatus; xf_srcChain : option Chain; xf_dstChain : option Chain;
  xf_createdAfter : option Z; xf_createdBefore : option Z; xf_updatedAfter : option Z; xf_updatedBefore : option Z; xf_includeArchived : bool; xf_limit : option Z
}.

Inductive ExportError : Type := UnsupportedExportFilterError (message : string).

Definition not_before (bound : option Z) (t : Z) : bool := match bound with Some b => b <=? t | None => true end.
Definition not_after (bound : option Z) (t : Z) : bool := match bound with Some b => t <=? b | None => true end.

Definition in_window (f : OrderExportFilters) (o : OrderRow) : bool :=
  not_before (xf_createdAfter f) (o_createdAt o) && not_after (xf_createdBefore f) (o_createdAt o) &&
  not_before (xf_updatedAfter f) (o_updatedAt o) && not_after (xf_updatedBefore f) (o_updatedAt o) &&
  (xf_includeArchived f || bool_decide (o_archivedAt o = None)).

Definition findOrdersByFilters (f : OrderExportFilters) (limit : Z) (d : Db) : outcome ExportError (list OrderRow) :=
  match (match xf_orderId f with Some id => if truthy_string id then Some id else None | None => None end), default [] (xf_orderIds f) with
  | Some id, _ => Ok (match find_order id d with Some o => [o] | None => [] end)
  | None, (_ :: _) as ids => Ok (omap (fun id => find_order id d) ids)
  | None, [] =>
      if negb (bool_decide (xf_srcChain f = None) && bool_decide (xf_dstChain f = None)) then
        Throw (UnsupportedExportFilterError "Filtering by srcChain/dstChain is not supported. Supported filters: orderId, orderIds, or status (optionally combined with a date range).")
      else
        match xf_status f with
        | Some st => Ok (List.filter (in_window f) (default [] (read (findByStatus st limit) d)))
        | None => Throw (UnsupportedExportFilterError "Unsupported filter combination: supply orderId, orderIds, or status (optionally combined with a date range).")
        end
  end.

Record OrderExportResult : Type := mkResult { xr_orders : list OrderLifecycleExport; xr_totalCount : Z; xr_generatedAt : Z; xr_filters : OrderExportFilters }.

(** [logs] gives the state of the audit log that the query for an order sees. *)
Definition exportOrders (now : Z) (f : OrderExportFilters) (d : Db) (logs : string -> AuditDb) : outcome ExportError OrderExportResult :=
  match findOrdersByFilters f (Z.min (default 100 (xf_limit f)) 1000) d with
  | Throw e => Throw e
  | Ok os =>
      let lifecycles := (fun o => buildExport o (buildLifecycleEvents (o_publicId o) (logs (o_publicId o)))) <$> os in
      Ok (mkResult lifecycles (Z.of_nat (length lifecycles)) (seconds now) f)
  end.

(** ** CSV *)

Definition CSV_HEADERS : list string :=
  ["orderId"; "direction"; "sourceChain"; "destChain"; "sourceAmount"; "destAmount"; "sourceAsset"; "destAsset"; "timestamp"; "status"; "beneficiary";
   "refundAddress"; "claimedAt"; "refundedAt"; "schemaVersion"].
Definition EXPORT_SCHEMA_VERSION : string := "1".

Definition to_status_is (l : list string) (e : OrderLifecycleEvent) : bool :=
  match member "toStatus" (le_payload e) with Some (JString s) => bool_decide (s ∈ l) | _ => false end.
Definition claim_event (e : OrderLifecycleEvent) : bool :=
  bool_decide (le_type e ∈ ["secret_revealed.transitioned"; "status.transitioned"]) && to_status_is ["secret_revealed"; "completed"] e.
Definition refund_event (e : OrderLifecycleEvent) : bool :=
  (String.eqb (le_type e) "status.transitioned" && to_status_is ["refunded"] e) || String.eqb (le_type e) "refund.confirmed".

(** The time of the first such event. *)
Definition first_time (p : OrderLifecycleEvent -> bool) (es : list OrderLifecycleEvent) : string :=
  match List.find p es with Some e => pretty (le_timestamp e) | None => "" end.

Definition csv_cells (e : OrderLifecycleExport) : list string :=
  let isEthSrc := startsWith (direction_str (lc_direction e)) "eth" in
  [lc_orderId e; direction_str (lc_direction e);
   chain_str (if isEthSrc then xl_chain (lc_src e) else xl_chain (lc_dst e)); chain_str (if isEthSrc then xl_chain (lc_dst e) else xl_chain (lc_src e));
   xl_amount (lc_src e); xl_amount (lc_dst e); xl_asset (lc_src e); xl_asset (lc_dst e); pretty (lc_createdAt e); status_str (lc_status e);
   xl_address (lc_dst e); xl_address (lc_src e); first_time claim_event (lc_events e); first_time refund_event (lc_events e); EXPORT_SCHEMA_VERSION].

Definition QUOTE : ascii := ascii_of_nat 34.
Definition COMMA : ascii := ascii_of_nat 44.
Definition LF : ascii := ascii_of_nat 10.
Definition CR : ascii := ascii_of_nat 13.

Fixpoint needs_quotes (s : string) : bool :=
  match s with EmptyString => false | String c s' => Ascii.eqb c QUOTE || Ascii.eqb c COMMA || Ascii.eqb c CR || Ascii.eqb c LF || needs_quotes s' end.
Fixpoint double_quotes (s : string) : string :=
  match s with EmptyString => EmptyString | String c s' => if Ascii.eqb c QUOTE then String QUOTE (String QUOTE (double_quotes s')) else String c (double_quotes s') end.
Definition escapeCsvCell (s : string) : string := if needs_quotes s then String QUOTE (double_quotes s +:+ String QUOTE EmptyString) else s.

Fixpoint join (sep : ascii) (l : list string) : string :=
  match l with [] => EmptyString | [s] => s | s :: rest => s +:+ String sep (join sep rest) end.

Definition csv_line (cells : list string) : string := join COMMA (escapeCsvCell <$> cells).
Definition lifecycleToCsvRow (e : OrderLifecycleExport) : string := csv_line (csv_cells e).
Definition buildCsv (es : list OrderLifecycleExport) : string := join LF (join COMMA CSV_HEADERS :: (lifecycleToCsvRow <$> es)).

(** ** Routes *)

Inductive ExportFormat : Type := format_json | format_csv.
Inductive ExportBody : Type :=
| Lifecycle (e : OrderLifecycleExport) | Exported (r : OrderExportResult) | Download (r : OrderExportResult) | CsvFile (text : string) | ExportRefused (error message : string).

(** The query of a download; [Some None] is the status "all". *)
Record DownloadQuery : Type := mkDownload {
  dq_format : ExportFormat; dq_startDate : option Z; dq_endDate : option Z; dq_status : option (option OrderStatus); dq_orderIds : option (list string); dq_limit : option Z
}.

Definition download_filters (q : DownloadQuery) : OrderExportFilters :=
  mkFilters None (match dq_orderIds q with Some [] => None | ids => ids end) (match dq_status q with Some st => st | None => None end) None None
    (dq_startDate q) (dq_endDate q) None None false (Some (default 500 (dq_limit q))).

Inductive ExportRoute : Type := GetExport (orderId : string) | PostExport (filters : option OrderExportFilters) | GetDownload (query : option DownloadQuery).

Definition schema_refused : Z * ExportBody := (400, ExportRefused "validation_error" "Request validation failed").
Definition run_export (now : Z) (f : OrderExportFilters) (d : Db) (logs : string -> AuditDb) (k : OrderExportResult -> ExportBody) : Z * ExportBody :=
  match exportOrders now f d logs with
  | Ok r => (200, k r)
  | Throw (UnsupportedExportFilterError m) => (400, ExportRefused "order_validation_error" m)
  end.

(** The answer to a request; a request that the schema refuses is [None]. *)
Definition export_route (operatorKeys : list string) (now : Z) (r : Request) (route : ExportRoute) (d : Db) (logs : string -> AuditDb) : Z * ExportBody :=
  match requireRole operatorKeys r with
  | Some 401 => (401, ExportRefused "unauthorized" "Missing or malformed authorization header")
  | Some n => (n, ExportRefused "forbidden" "Insufficient permissions or invalid operator key")
  | None =>
      match route with
      | GetExport id =>
          if truthy_string id then
            match exportOrder id d (logs id) with
            | Some e => (200, Lifecycle e)
            | None => (404, ExportRefused "not_found" ("Order " +:+ id +:+ " not found"))
            end
          else schema_refused
      | PostExport (Some f) => run_export now f d logs Exported
      | GetDownload (Some q) =>
          run_export now (download_filters q) d logs (match dq_format q with format_csv => fun r => CsvFile (buildCsv (xr_orders r)) | format_json => Download end)
      | PostExport None | GetDownload None => schema_refused
      end
  end.

(** ** Reading a CSV file (RFC 4180) *)

Inductive csv_mode : Type := CellStart | Plain | Quoted | AfterQuote.

(** A character in front of the first cell of the first record. *)
Definition push (c : ascii) (rs : list (list string)) : list (list string) :=
  match rs with (w :: ws) :: t => (String c w :: ws) :: t | _ => [[String c EmptyString]] end.
Definition cell_ends (rs : list (list string)) : list (list string) := match rs with r :: t => (EmptyString :: r) :: t | [] => [[EmptyString]] end.

Fixpoint read_csv (m : csv_mode) (s : string) : list (list string) :=
  match s with
  | EmptyString => [[EmptyString]]
  | String c s' =>
      let plain := if Ascii.eqb c COMMA then cell_ends (read_csv CellStart s') else if Ascii.eqb c LF then [EmptyString] :: read_csv CellStart s' else push c (read_csv Plain s') in
      match m with
      | CellStart => if Ascii.eqb c QUOTE then read_csv Quoted s' else plain
      | Plain => plain
      | Quoted => if Ascii.eqb c QUOTE then read_csv AfterQuote s' else push c (read_csv Quoted s')
      | AfterQuote => if Ascii.eqb c QUOTE then push c (read_csv Quoted s') else plain
      end
  end.

Definition push_all (v : string) (rs : list (list string)) : list (list string) :=
  match rs with (w :: ws) :: t => ((v +:+ w) :: ws) :: t | _ => [[v]] end.

Definition has_cell (rs : list (list string)) : Prop := exists w ws t, rs = (w :: ws) :: t.

Lemma read_has_cell m s : has_cell (read_csv m s).
Proof.
  revert m. induction s as [|c s IH]; intros m; [by exists EmptyString, [], []|].
  assert (forall m, has_cell (push c (read_csv m s))) as Hp by (intros m'; destruct (IH m') as (w & ws & t & ->); by eexists _, _, _).
  assert (has_cell (cell_ends (read_csv CellStart s))) as Hc by (destruct (IH CellStart) as (w & ws & t & ->); by eexists _, _, _).
  assert (has_cell ([EmptyString] :: read_csv CellStart s)) as Hl by (by eexists _, _, _).
  cbn [read_csv]. destruct m; repeat case_match; auto.
Qed.

Lemma push_push_all c v rs : push c (push_all v rs) = push_all (String c v) rs.
Proof. by destruct rs as [|[|w ws] t]. Qed.

Lemma push_all_nil rs : has_cell rs -> push_all EmptyString rs = rs.
Proof. by intros (w & ws & t & ->). Qed.

(** What may follow a cell. *)
Definition cell_over (rest : string) : bool := match rest with EmptyString => true | String c _ => Ascii.eqb c COMMA || Ascii.eqb c LF end.

Lemma over_same rest m m' : cell_over rest = true -> m <> Quoted -> m' <> Quoted -> read_csv m rest = read_csv m' rest.
Proof.
  destruct rest as [|c rest]; [done|]. cbn [cell_over]. intros H Hm Hm'. assert (Ascii.eqb c QUOTE = false) as E.
  { apply orb_true_iff in H as [->%Ascii.eqb_eq| ->%Ascii.eqb_eq]; done. }
  cbn [read_csv]. rewrite E. by destruct m, m'.
Qed.

Lemma read_plain v rest : needs_quotes v = false -> read_csv Plain (v +:+ rest) = push_all v (read_csv Plain rest).
Proof.
  induction v as [|c v IH]; intros H; [by rewrite push_all_nil by apply read_has_cell|]. cbn [needs_quotes] in H. repeat (apply orb_false_iff in H as [H ?]).
  change (String c v +:+ rest) with (String c (v +:+ rest)). cbn [read_csv]. by rewrite H3, H1, IH, push_push_all.
Qed.

Lemma read_quoted v rest : read_csv Quoted (double_quotes v +:+ String QUOTE rest) = push_all v (read_csv AfterQuote rest).
Proof.
  induction v as [|c v IH]; [by rewrite push_all_nil by apply read_has_cell|]. cbn [double_quotes]. destruct (Ascii.eqb c QUOTE) eqn:E.
  - apply Ascii.eqb_eq in E as ->. change (read_csv Quoted _) with (push QUOTE (read_csv Quoted (double_quotes v +:+ String QUOTE rest))). by rewrite IH, push_push_all.
  - change (String c (double_quotes v) +:+ String QUOTE rest) with (String c (double_quotes v +:+ String QUOTE rest)). cbn [read_csv]. by rewrite E, IH, push_push_all.
Qed.

Lemma read_cell v rest : cell_over rest = true -> read_csv CellStart (escapeCsvCell v +:+ rest) = push_all v (read_csv CellStart rest).
Proof.
  intros Ho. unfold escapeCsvCell. destruct (needs_quotes v) eqn:E.
  - change (String QUOTE ?x +:+ rest) with (String QUOTE (x +:+ rest)). cbn [read_csv]. rewrite (proj2 (Ascii.eqb_eq QUOTE QUOTE) eq_refl), string_app_assoc.
    change (String QUOTE EmptyString +:+ rest) with (String QUOTE rest). rewrite read_quoted. by rewrite (over_same rest AfterQuote CellStart).
  - destruct v as [|c v]; [by rewrite push_all_nil by apply read_has_cell|]. rewrite <- (over_same rest Plain CellStart), <- read_plain by done.
    cbn [needs_quotes] in E. repeat (apply orb_false_iff in E as [E ?]). change (String c v +:+ rest) with (String c (v +:+ rest)). cbn [read_csv]. by rewrite E.
Qed.

(** The records after the end of a line. *)
Definition line_over (rest : string) : bool := match rest with EmptyString => true | String c _ => Ascii.eqb c LF end.
Definition next_records (rest : string) : list (list string) := match rest with EmptyString => [] | String _ r => read_csv CellStart r end.

Lemma read_line cells rest : cells <> [] -> line_over rest = true -> read_csv CellStart (csv_line cells +:+ rest) = cells :: next_records rest.
Proof.
  intros Hne Hl. assert (read_csv CellStart rest = [EmptyString] :: next_records rest) as Hr.
  { destruct rest as [|c rest]; [done|]. cbn in Hl. by apply Ascii.eqb_eq in Hl as ->. }
  unfold csv_line. induction cells as [|v cells IH]; [done|]. destruct cells as [|v' cells].
  - cbn [fmap list_fmap join]. rewrite read_cell, Hr by (destruct rest; [done|]; cbn in *; by rewrite Hl, orb_true_r). cbn. by rewrite string_app_nil.
  - change (join COMMA (escapeCsvCell <$> v :: v' :: cells)) with (escapeCsvCell v +:+ String COMMA (join COMMA (escapeCsvCell <$> v' :: cells))).
    rewrite string_app_assoc, read_cell by done. change (String COMMA ?x +:+ rest) with (String COMMA (x +:+ rest)). cbn [read_csv].
    rewrite (IH ltac:(done)). change (Ascii.eqb COMMA QUOTE) with false. change (Ascii.eqb COMMA COMMA) with true. cbn [cell_ends push_all].
    by rewrite string_app_nil.
Qed.

Lemma read_lines (ls : list (list string)) : ls <> [] -> Forall (fun l => l <> []) ls -> read_csv CellStart (join LF (csv_line <$> ls)) = ls.
Proof.
  induction ls as [|l ls IH]; [done|]. intros _ [H1 H2]%Forall_cons. destruct ls as [|l' ls].
  - cbn [fmap list_fmap join]. pose proof (read_line l EmptyString H1 eq_refl) as E.
    by rewrite string_app_nil in E.
  - change (join LF (csv_line <$> l :: l' :: ls)) with (csv_line l +:+ String LF (join LF (csv_line <$> l' :: ls))). rewrite read_line by done. cbn [next_records]. by rewrite IH.
Qed.

(** A CSV file reads back as its cells. *)
Lemma csv_round_trip es : read_csv CellStart (buildCsv es) = CSV_HEADERS :: (csv_cells <$> es).
Proof.
  unfold buildCsv. change (join COMMA CSV_HEADERS) with (csv_line CSV_HEADERS). unfold lifecycleToCsvRow.
  assert ((fun e => csv_line (csv_cells e)) <$> es = csv_line <$> (csv_cells <$> es)) as -> by (by rewrite <- list_fmap_compose).
  change (csv_line CSV_HEADERS :: (csv_line <$> (csv_cells <$> es))) with (csv_line <$> (CSV_HEADERS :: (csv_cells <$> es))). apply read_lines; [done|].
  constructor; [done|]. apply Forall_forall. by intros l (e & -> & _)%list_elem_of_fmap.
Qed.

(** ** Secrets *)

(** No member at any depth is named after a secret. *)
Fixpoint secretless (v : json) : bool :=
  match v with
  | JArray items => forallb secretless items
  | JObject members => forallb (fun '(k, x) => negb (names_secret k) && secretless x) members
  | _ => true
  end.

Lemma omitPreimages_secretless : forall v, secretless (omitPreimages v) = true.
Proof.
  fix IH 1. intros [| | | |items|members]; cbn; try done.
  - induction items as [|x items IHl]; [done|]. cbn. by rewrite IH, IHl.
  - induction members as [|[k x] members IHl]; [done|]. cbn. rewrite forallb_app, IHl, andb_true_r. destruct (names_secret k) eqn:E; [done|]. cbn. by rewrite E, IH.
Qed.

(** Nothing else is left out. *)
Lemma secretless_kept : forall v, secretless v = true -> omitPreimages v = v.
Proof.
  fix IH 1. intros [| | | |items|members]; cbn; try done; intros H; f_equal.
  - induction items as [|x items IHl]; [done|]. cbn in *. apply andb_true_iff in H as [H1 H2]. by rewrite IH, IHl.
  - induction members as [|[k x] members IHl]; [done|]. cbn in *. apply andb_true_iff in H as [[H0 H1]%andb_true_iff H2].
    destruct (names_secret k); [done|]. cbn. by rewrite IH, IHl.
Qed.

Lemma order_payload_secretless p : omitPreimages (order_payload p) = order_payload p.
Proof. apply secretless_kept. by destruct p as [a h d [f|] t s c [x|] [n|] [r|] [l|]]. Qed.

Import Service.

(** ** Lifecycles tell the history *)

(** The events lead from one status to another. *)
Fixpoint linked (from : option string) (es : list OrderLifecycleEvent) (to : option string) : Prop :=
  match es with
  | [] => from = to
  | e :: rest => member "fromStatus" (le_payload e) = Some (nullable from) /\ exists t, member "toStatus" (le_payload e) = Some (JString t) /\ linked (Some t) rest to
  end.

Lemma rows_of_order p log rows :
  Forall entry_ok log -> Forall2 holds_entry log rows ->
  Forall2 (fun a r => en_payload r = order_payload a /\ startsWith (en_eventType r) "order." = true) (trail_of p log)
    (List.filter (fun r => bool_decide (en_orderId r = Some p)) rows).
Proof.
  intros Hok Hh. unfold trail_of. induction Hh as [|e r log rows (H1 & H2 & H3) Hh IH]; [constructor|]. inversion_clear Hok as [|? ? [Ho Ht] Hok'].
  cbn. rewrite H2, Ho. destruct (decide (au_orderId (ae_payload e) = p)) as [->|Hne].
  - rewrite !bool_decide_true by done. cbn. constructor; [by rewrite H1|auto].
  - rewrite !bool_decide_false by congruence. auto.
Qed.

Lemma linked_chained from ps to rows :
  chained from ps to -> Forall2 (fun a r => en_payload r = order_payload a /\ startsWith (en_eventType r) "order." = true) ps rows ->
  linked from (lifecycle_event <$> rows) to.
Proof.
  intros Hc Hr. revert from Hc. induction Hr as [|a r ps rows [Ha _] _ IH]; intros from Hc; [done|]. destruct Hc as (Hf & _ & Hc).
  change (linked from (lifecycle_event r :: (lifecycle_event <$> rows)) to). cbn [linked lifecycle_event le_payload]. rewrite Ha, order_payload_secretless.
  unfold order_payload, member. cbn. rewrite Hf. split; [done|]. exists (au_toStatus a). split; [done|]. by apply IH.
Qed.

Lemma find_order_eq publicId d : find_order publicId d = rowToOrder <$> row_of publicId d.
Proof. done. Qed.

(** ** Filters *)

Definition by_status (f : OrderExportFilters) : option OrderStatus :=
  match xf_orderId f, xf_orderIds f, xf_srcChain f, xf_dstChain f with None, None, None, None => xf_status f | _, _, _, _ => None end.
Definition export_limit (f : OrderExportFilters) : Z := Z.min (default 100 (xf_limit f)) 1000.
Definition lifecycle_of (logs : string -> AuditDb) (row : OrderDbRow) : OrderLifecycleExport :=
  buildExport (rowToOrder row) (buildLifecycleEvents (public_id row) (logs (public_id row))).

(** An export by status holds orders of that status within the window only, and all
    of them when there are no more orders of the status than the limit. *)
Lemma status_export_exact now f st d logs :
  by_status f = Some st -> 0 <= export_limit f ->
  exists r, exportOrders now f d logs = Ok r /\
    (forall e, e ∈ xr_orders r -> exists row, row ∈ orders d /\ status row = st /\ in_window f (rowToOrder row) = true /\ e = lifecycle_of logs row) /\
    (sql_changes (fun row => bool_decide (status row = st)) (orders d) <= export_limit f ->
     forall row, row ∈ orders d -> status row = st -> in_window f (rowToOrder row) = true -> lifecycle_of logs row ∈ xr_orders r).
Proof.
  unfold by_status, export_limit. destruct f as [id ids st' c1 c2 ca cb ua ub arch lim]. cbn -[in_window]. intros Hst Hl.
  destruct id; [done|]. destruct ids; [done|]. destruct c1; [done|]. destruct c2; [done|]. subst st'.
  set (w := in_window _). unfold exportOrders, findOrdersByFilters. fold w. cbn -[in_window w]. fold w. eexists. split; [done|]. cbn -[w].
  set (n := Z.min _ _) in *. unfold sql_limit. rewrite (proj2 (Z.ltb_ge n 0) Hl). set (sel := sql_order newer _).
  assert (forall row, row ∈ sel <-> row ∈ orders d /\ status row = st) as Hsel.
  { intros row. unfold sel. rewrite sql_order_perm. unfold sql_select. rewrite list_elem_of_In, filter_In, <- list_elem_of_In, bool_decide_eq_true. done. }
  split.
  - intros e (o & -> & Ho)%list_elem_of_fmap. apply list_elem_of_In, filter_In in Ho as [Ho Hw]. apply list_elem_of_In in Ho.
    apply list_elem_of_fmap in Ho as (row & -> & Hr%subseteq_take). apply Hsel in Hr as [Hr Hs]. by exists row.
  - intros Hn row Hr Hs Hw. apply list_elem_of_fmap. exists (rowToOrder row). split; [done|]. apply list_elem_of_In, filter_In. split; [|done].
    apply list_elem_of_In, list_elem_of_fmap. exists row. split; [done|]. rewrite take_ge; [by apply Hsel|]. unfold sel. rewrite sql_order_perm.
    unfold sql_changes in Hn. unfold sql_select. lia.
Qed.

Section Lifecycles.
Context (cfg : Config) (cs : list (Z * Call)) (log : list (Z * AuditEntryInput)) (publicId : string) (o : OrderDbRow).
Context (Hcfg : hasAuditRepo cfg = true) (Hacc : accounted_run cfg cs init = true).
Notation s := (run cfg cs init).
Context (Hlog : snd <$> log = auditLog s) (Ho : row_of publicId (db s) = Some o).

Lemma order_entries :
  let rows := forOrder publicId (stored log) in
  exists ps, chained None ps (Some (status_str (status o))) /\
    Forall2 (fun a r => en_payload r = order_payload a /\ startsWith (en_eventType r) "order." = true) ps rows.
Proof.
  assert (audited (db s) (auditLog s)) as [He Hc].
  { apply run_audited; [done|done|apply wf_emptyDb|]. split; [constructor|done]. }
  specialize (Hc publicId). unfold status_of in Hc. rewrite Ho in Hc. destruct (stored_rows log) as [Hd Hr]. rewrite Hlog in Hr.
  cbv zeta. unfold forOrder, sql_select. rewrite order_ascending by (apply ascending_filter, Hd). exists (trail_of publicId (auditLog s)).
  split; [done|by apply rows_of_order].
Qed.

(** C25.  An export tells the history of an order.  After any run of the service's
    calls with an audit repository, in which every rollback finds a lock to undo and
    no order is cancelled or abandoned in the repository (such calls are not audited
    as what they are), with its entries stored in the audit log at any times, the export of an
    existing order has the order's status, and events that start with no previous
    status, continue each from the status the one before led to, and end in the
    status of the order; no event has a member named after a secret at any depth.
    An export by status holds it, if it is within the window and there are no more
    orders of the status than the limit; and every CSV file made of exports reads
    back as the header and the cells of each. *)
Theorem export_tells_lifecycle :
  exists e, exportOrder publicId (db s) (stored log) = Some e /\
    lc_status e = status o /\ linked None (lc_events e) (Some (status_str (status o))) /\ Forall (fun ev => secretless (le_payload ev) = true) (lc_events e) /\
    (forall now f, by_status f = Some (status o) -> in_window f (rowToOrder o) = true ->
       sql_changes (fun row => bool_decide (status row = status o)) (orders (db s)) <= export_limit f ->
       exists r, exportOrders now f (db s) (fun _ => stored log) = Ok r /\ e ∈ xr_orders r) /\
    (forall es, read_csv CellStart (buildCsv es) = CSV_HEADERS :: (csv_cells <$> es)).
Proof.
  destruct order_entries as (ps & Hc & Hr). pose proof (row_of_Some _ _ _ Ho) as [Hin Hid].
  exists (lifecycle_of (fun _ => stored log) o). assert (exportOrder publicId (db s) (stored log) = Some (lifecycle_of (fun _ => stored log) o)) as He.
  { unfold exportOrder. rewrite find_order_eq, Ho. cbn. unfold lifecycle_of. by rewrite Hid. }
  split; [done|]. split; [done|]. split; [|split; [|split; [|intros es; apply csv_round_trip]]].
  - cbn. rewrite Hid. by eapply linked_chained.
  - apply Forall_forall. intros ev (r & -> & _)%list_elem_of_fmap. apply omitPreimages_secretless.
  - intros now f Hf Hw Hn. destruct (status_export_exact now f (status o) (db s) (fun _ => stored log) Hf) as (r & E & _ & H).
    + unfold sql_changes in Hn. lia.
    + exists r. split; [done|]. by apply H.
Qed.

(** The entries of the service are of none of the types that the CSV file looks
    for: its columns for the claim and the refund are always empty. *)
Lemma settlement_columns_empty e :
  exportOrder publicId (db s) (stored log) = Some e -> first_time claim_event (lc_events e) = "" /\ first_time refund_event (lc_events e) = "".
Proof.
  unfold exportOrder. rewrite find_order_eq, Ho. cbn. intros [= <-]. destruct order_entries as (ps & _ & Hr). cbn. unfold buildLifecycleEvents.
  assert (forall p : OrderLifecycleEvent -> bool, (forall ev, startsWith (le_type ev) "order." = true -> p ev = false) -> forall qs rows,
    Forall2 (fun a r => en_payload r = order_payload a /\ startsWith (en_eventType r) "order." = true) qs rows -> first_time p (lifecycle_event <$> rows) = "") as Hf.
  { intros p Hp qs rows H. unfold first_time. induction H as [|a r qs rows [_ Ht] _ IH]; [done|]. cbn. by rewrite (Hp (lifecycle_event r) Ht). }
  assert (forall t x, startsWith t "order." = true -> startsWith x "order." = false -> String.eqb t x = false) as Hne.
  { intros t x H1 H2. apply String.eqb_neq. intros ->. congruence. }
  split; apply (Hf _) with (qs := ps); try done; intros ev Hev.
  - unfold claim_event. rewrite bool_decide_false; [done|]. intros [E|[E|H%elem_of_nil]%elem_of_cons]%elem_of_cons; [by rewrite E in Hev..|done].
  - unfold refund_event. by rewrite !(Hne _ _ Hev).
Qed.
End Lifecycles.

(** ** Runs *)

Definition status_filter (st : OrderStatus) : OrderExportFilters := mkFilters None None (Some st) None None None None None None false None.

Lemma export_tells_lifecycle_witness :
  let s := run demo_cfg audited_calls init in
  exists e, exportOrder demo_id (db s) (stored (at_time 7 (auditLog s))) = Some e /\ lc_status e = expired /\ linked None (lc_events e) (Some "expired") /\
    exists r, exportOrders 9000 (status_filter expired) (db s) (fun _ => stored (at_time 7 (auditLog s))) = Ok r /\ e ∈ xr_orders r.
Proof.
  intros s. destruct (row_of demo_id (db s)) as [o|] eqn:Ho; [|vm_compute in Ho; discriminate].
  assert (status o = expired /\ in_window (status_filter expired) (rowToOrder o) = true) as [Hs Hw] by (vm_compute in Ho; injection Ho as <-; split; reflexivity).
  destruct (export_tells_lifecycle demo_cfg audited_calls (at_time 7 (auditLog s)) demo_id o) as (e & H1 & H2 & H3 & _ & H4 & _);
    [reflexivity|vm_compute; reflexivity|unfold at_time; rewrite <- list_fmap_compose; apply list_fmap_id|exact Ho|].
  rewrite Hs in H2, H3, H4. exists e. split; [exact H1|]. split; [exact H2|]. split; [exact H3|]. apply H4; [reflexivity|exact Hw|]. vm_compute. discriminate.
Defined.

(** The chains of a swap that does not start on Ethereum change places in the CSV
    file, while its amounts, assets and addresses do not. *)
Example csv_chains_swapped :
  let e := buildExport (rowToOrder (insertRow 1 "wf_1" (mkAnnounceOrderInput xlm_to_eth "0x1" stellar "GA" "native" "100" "1" ethereum "0xaa" "eth" "2") 7)) [] in
  take 6 (csv_cells e) = ["wf_1"; "xlm_to_eth"; "ethereum"; "stellar"; "100"; "2"].
Proof. vm_compute. done. Qed.

(** The window is applied to the newest orders of the status up to the limit: an
    older order of the window is not found, and the total does not count it. *)
Definition second_input : AnnounceOrderInput :=
  mkAnnounceOrderInput eth_to_xlm "0xff112233445566778899aabbccddeeff00112233445566778899aabbccddeeff" ethereum "0xaa" "native" "1" "1" stellar "GA" "native" "2".
Example window_after_limit :
  let d := db (run demo_cfg [(1000, CAnnounce demo_input); (9000, CAnnounce second_input)] init) in
  let f := mkFilters None None (Some announced) None None None (Some 5) None None false (Some 1) in
  (match exportOrders 9000 f d (fun _ => empty_audit) with Ok r => Some (length (xr_orders r), xr_totalCount r) | Throw _ => None end) = Some (0%nat, 0) /\
  (match exportOrders 9000 (mkFilters None None (Some announced) None None None (Some 5) None None false (Some 2)) d (fun _ => empty_audit) with
   | Ok r => Some (lc_orderId <$> xr_orders r) | Throw _ => None end) = Some [demo_id].
Proof. vm_compute. done. Qed.

(** With ids the window is not looked at. *)
Example ids_ignore_window :
  let d := db (run demo_cfg [(1000, CAnnounce demo_input)] init) in
  let q := mkDownload format_csv (Some 500) (Some 600) (Some (Some completed)) (Some [demo_id]) None in
  (match exportOrders 9000 (download_filters q) d (fun _ => empty_audit) with Ok r => Some (lc_orderId <$> xr_orders r) | Throw _ => None end) = Some [demo_id].
Proof. vm_compute. done. Qed.

(** The download with no filter, or with the status "all", is refused. *)
Example all_refused :
  let q := mkDownload format_json None None (Some None) None None in
  (export_route ["k"] 9000 (mkRequest None None (Some "Bearer k")) (GetDownload (Some q)) emptyDb (fun _ => empty_audit)).1 = 400 /\
  (export_route ["k"] 9000 (mkRequest None None None) (GetDownload (Some q)) emptyDb (fun _ => empty_audit)).1 = 401.
Proof. vm_compute. done. Qed.
